(* ===== verification/_CoqProject ===== *)
-Q . S2P
Prelude.v
GoString.v
GoSort.v
GoSlice.v
NumberEnc.v
Simple8b.v
Coder.v
IntCoder.v
TimeCoder.v
Bitstream.v
BoolCoder.v
Compress.v
FloatCoder.v
StringCoder.v
Blocks.v
BinaryCodec.v
Bitmap.v
ColVal.v
ColRefine.v
ColAgg.v
ColOps.v
ColStrings.v
Column.v
TimeSearch.v
Record.v
RecordSchema.v
RecordFast.v
RecordTable.v
MergeSpec.v
RecordMerge.v
MergeRecords.v
RecordSort.v
SortColumns.v
SortRefine.v
SortProps.v
FastSort.v
MemTable.v
MemAppend.v
MemChunk.v
MemRead.v
MemCopy.v
MemStore.v
MemValues.v
MemRuns.v
MemFlush.v
MemFiles.v
FileMeta.v
FileCodec.v
IndexWriter.v
FileBuild.v
FileRead.v
FileWrite.v
FileFind.v
FileRuns.v
IdTimes.v
IdTimesProps.v
Sequencer.v
SequencerProps.v
U64Set.v
U64Bucket.v
U64Blocks.v
U64Half.v
U64SetProps.v
SparseIndex.v
Fragments.v
SparseOrder.v
SparseAny.v
SparseScan.v
SparseConv.v
SparseProps.v
Meta.v
MetaLaws.v
MetaInv.v
MetaCmd.v
MetaGroups.v
MetaProps.v
MetaRuns.v
Routing.v
RoutingProps.v
RoutingRuns.v
