(* ===== verification/Prelude.v ===== *)
(** * openGemini: a verification development of its storage kernel and metadata

    openGemini is a distributed time series database.  A write passes the coordinator, which
    asks the metadata (ts-meta, a raft state machine) for the shard group and the shard of
    each row; the store collects the rows of a series in memory as a record, one column per
    field (the memtable), sorts and merges records by time when it flushes, reads or
    compacts, and writes every column of a record as a compressed block to an immutable file.
    A file ends in the metadata by which a series is found in it; the last time and the rows
    of every series in the files are kept by the sequencer, which decides whether a flushed
    row is in order.  Column store files have a sparse index over their primary key, by which
    a query skips fragments; series ids are kept in bitmap sets.
    The development models the parts of this path that compute: the column codecs, columns
    and records with their merge and sort, the memtable, the metadata of files and their id
    times, the sequencer, the sparse index, the id sets, and the metadata commands with the
    routing of rows and queries.

    ** Files and sources (paths under src/)

    Prelude.v        outcomes of Go code ([res]: value, error, panic, fuel ran out), machine
                     integers with their wrap-around, tactics, hints, list lemmas.
    GoString.v       the order, prefixes and slices of strings.
    GoSort.v         sort.Sort as a class: a sorted permutation, not necessarily stable;
                     sort.Search.
    GoSlice.v        slices with length, capacity and spare backing array; byte views of typed
                     slices (lib/util/util.go), buffers.
    NumberEnc.v      lib/numberenc/number.go and the uvarints the coders use.
    Simple8b.v       lib/util/lifted/encoding/simple8b/encoding.go.
    Coder.v          the shared state of coders, the interfaces of zstd, snappy and lz4 as
                     classes with their documented laws, the ratio tests.
    IntCoder.v       lib/encoding/int.go.          TimeCoder.v   lib/encoding/timestamp.go.
    Bitstream.v      lib/util/lifted/go-bitstream. BoolCoder.v   lib/encoding/bool.go.
    Compress.v       lib/compress (run lengths, adaptive float compression).
    FloatCoder.v     lib/encoding/float.go.        StringCoder.v lib/encoding/string.go.
    Blocks.v         lib/encoding/encoding.go: the Encode and Decode functions per column
                     type, coder contexts and pools, both layouts of string blocks.
    BinaryCodec.v    lib/codec: binary encoder, decoder and sizes.
    Bitmap.v, ColVal.v        lib/record: validity bitmaps and columns (column.go,
                     column_util.go, column_string.go, utils.go).
    ColRefine.v, ColAgg.v, ColOps.v, ColStrings.v   columns refine lists of optional values.
    Column.v         the class [Column]: what records may assume of a column.
    TimeSearch.v     the binary searches of utils.go.
    Record.v         lib/record/record.go: records, AppendRec, AppendRecFast, MergeRecord.
    RecordSchema.v, RecordFast.v, RecordTable.v, RecordMerge.v   the proofs about records.
    MergeSpec.v      the abstract specification of a merge.
    MergeRecords.v   the merge theorems.
    RecordSort.v     lib/record/column_sort.go and, of record_sort.go, the column helpers and
                     FastSortRecord: sorting the rows and the columns of a record.
    SortColumns.v, SortRefine.v   columns rebuilt section by section, the table of rows in the
                     order they were written ([write_rows]), the sections.
    SortProps.v, FastSort.v   the sort theorem; where FastSortRecord puts the columns.
    MemTable.v       engine/mutable/table.go, ts_table.go: rows, chunks, measurements, WriteRows.
    MemAppend.v, MemChunk.v   a row appended on either path, what a chunk holds.
    MemRead.v        reading and flushing (table.go, ts_table.go), Record.Copy (record.go).
    MemCopy.v, MemStore.v, MemValues.v   the copy of a time range, what a table holds, reads
                     of a table and of its snapshot.
    MemRuns.v        runs of writes and reads, the theorem, a computed run.
    MemFlush.v, MemFiles.v   splitting by time, what a flush writes, rows that fail.
    FileMeta.v       engine/immutable/tssp_file_meta.go, trailer.go, table_stat.go: segments,
                     column metas, chunk metas, the meta index, the trailer, their byte forms.
    FileCodec.v      what is marshalled is read back into any object.
    IndexWriter.v    engine/immutable/writer.go, index_writer.go: collecting the chunk metas
                     of a file (class [IndexWriter], a plain and a compressing instance).
    FileBuild.v      engine/immutable/msbuilder.go: writing a file chunk by chunk.
    FileRead.v       engine/immutable/tssp_file.go, reader.go: opening a file and searching it.
    FileWrite.v, FileFind.v, FileRuns.v   the invariant of the builder, the searches, and the
                     theorems with runs.
    IdTimes.v        engine/immutable/sequencer.go (IdTimePairs), reader.go, msbuilder.go: the
                     id, rows and last time of every chunk of a file.
    IdTimesProps.v   their round trip.
    Sequencer.v      engine/immutable/sequencer.go (Sequencer), compact.go, mms_loader.go: last
                     flush times and row counts, freed and loaded again.
    SequencerProps.v its refinement of a log, the tables a flush holds, the reload; runs.
    U64Set.v         lib/util/lifted/vm/uint64set/uint64set.go: sets of series ids.
    U64Bucket.v, U64Blocks.v, U64Half.v, U64SetProps.v   the 16 bit and 32 bit levels of a set,
                     walks over keyed blocks, and the refinement of finite sets.
    SparseIndex.v    engine/index/sparseindex (range.go, mark.go, field.go, util.go,
                     condition.go, primary_index.go) and lib/rpn: the primary key index.
    Fragments.v      lib/fragment, and how a file is cut (engine/immutable/msbuilder.go).
    SparseOrder.v, SparseAny.v   keys as bounds, marks of a product of ranges,
                     the products that make up the range between two keys.
    SparseScan.v, SparseConv.v, SparseProps.v   the searches, the conversion of conditions,
                     and the theorem with its runs.
    Meta.v           lib/util/lifted/influx/meta: databases, retention policies, measurements,
                     schemas, shard keys, shard and index groups (data.go, retentionpolicy.go,
                     shardinfo.go, indexinfo.go, database.go, measurement.go).
    MetaLaws.v       laws of sorting and map iteration, truncated times.
    MetaInv.v        the invariant and [evolve], the abstract description of a command.
    MetaCmd.v, MetaGroups.v   the commands as one step function [exec], their refinement of
                     [evolve], [reachable].
    MetaProps.v, MetaRuns.v   the theorems about metadata; runs and witnesses.
    Routing.v        the shard key of a row and the choice of its shard (coordinator/
                     points_writer.go, the row of lib/util/lifted/vm/protoparser/influx), the
                     shards of a query (meta/shardinfo.go, coordinator/shard_mapper.go).
    RoutingProps.v, RoutingRuns.v   its theorems; runs, and conditions it gets wrong.

    ** How code is modelled

    A Go function is a function of the same name; a method takes its receiver and returns it
    changed.  A w-bit integer is a Z in range, with every wrap written out; a float64 is its
    64 bits, compared and computed with by the floats of the Standard Library's
    specification; the sparse index orders the bits by sign and magnitude, NaN apart.
    A slice carries its spare capacity because some functions write there;
    how much append over-allocates is a parameter ([GoRuntime]).  Objects from a pool are
    arguments with any content.  The tables of the sequencer have addresses, because a flush
    keeps one while others work; an operation under a lock is one step.  Errors are [Err] or, in
    the metadata and the memtable, a returned error beside the state, since state may change
    before an error.
    Panics (index out of range, explicit) are [Panic].

    Code outside the repository's Go sources is a parameter with laws in a class and an
    instance that has them: zstd, snappy, lz4 and influxdb's gorilla coder; for the metadata
    the sort, the iteration order of maps, the permutation drawn from a seed, MaxNanoTime and
    the schema-clean flag ([MetaEnv], [MetaLaws], [meta_env]); for routing xxhash and the
    broadcast setting ([RouteEnv]); for the memtable what a double outside of int64 converts to
    ([FloatConv]), the shard key index, and the flush times of the series; for files the bloom
    filter of the series ids ([BloomEnv], [BloomLaws]: no id that was added is missed) and the
    compression of index blocks.  What EncodeChunk makes of a record is an argument of
    the builder.

    ** What the theorems show

    - Codecs: each block type decodes to what was encoded, for every encoding the coder may
      choose; simple8b and bit streams round trip and fail when they should.
      The binary codec round trips.
    - Columns: every sequence of column operations refines the operations on a list of
      optional values (fixed size and strings); aggregates, Split and updates are exact; the
      word-wise population count equals counting bits.
    - Records: MergeRecord and its descending and row-limited variants are the sorted union
      of two tables in which the newer value of a cell wins, page after page; AppendRecFast
      is equivalent to AppendRec; the time searches select exactly the rows of a range.
    - Sorting: a record with rows in any order becomes the table in which every cell is the
      last value written at its time.
    - Memtable: after any sequence of reads and of writes of well-formed rows, a read through
      the active table and the snapshot shows every cell as it was written last, in either
      direction; a flush hands every row once to the ordered or the unordered file.  Rows
      that fail halfway break this; MemFiles.v has the runs.
    - Files: the readers find the chunk meta of every series the builder wrote, as it was
      written, and nothing for other ids, through the meta index, the bloom filter and
      the searches, with compressed blocks or not; chunk metas read back into objects that
      were used before; decoding for some columns is decoding all and dropping the others.
    - Last flush times: after any sequence of operations the sequencer answers with the
      largest time and the sum of the rows reported for a series, and its counter is the
      number of series as long as it is not reset; a flush that holds a table
      sees the times of later reports; freed and loaded again from the files it
      answers as before.  Id times of files round trip through used objects.
    - Id sets: after any sequence of operations without Intersect, and after those with
      Intersect in which no sort meets two buckets with the same high bits, a uint64set
      answers as the finite set of the numbers in it does; a run shows what is lost otherwise.
    - Sparse index: built from a sorted file and scanned for a condition it returns the
      fragment of every row that satisfies it, in ascending ranges, and is not changed; the
      conditions, key types and nulls for which this fails are runs in SparseProps.v.
    - Metadata: in every reachable state all ids are unique and below their counters and
      groups are sorted; CreateShardGroup makes a group that serves the timestamp, is
      idempotent and tiles the time axis; shards are placed on their partitions; PruneGroups
      marks and removes exactly what it should unless another group's ids surround the id,
      which only ExpandGroups brings about; altering a shard key keeps history; a failed
      command changes nothing; accepted durations are consistent unless rounding overflows.
    - Routing: for time series measurements, a query whose condition is a conjunction visits
      the shard of every row that satisfies it, under hash and range sharding, over groups
      that have the same shard key; splitting a range group partitions the keys.  For OR and
      across an altered shard key this fails; RoutingRuns.v has the runs.

    ** Bounds and fuel

    Loops are structural over the data they walk, or have fuel that is shown to be enough:
    the simple8b and run-length loops take the number of values left, searches the length of
    the interval (it halves), the exclusion search twice the number of fragments (each split
    leaves fewer boundaries), the page loop of a merge the rows of both records, the walk of a
    new row the columns and fields left, FastSortRecord twice the columns (each swap puts one
    in place), the walk over the column metas of a chunk the bytes left, the doubling of the
    bloom filter's size the bits of a word.  Files and the chunk metas of a file are shorter
    than 2^32 bytes, as their offsets and sizes are stored.  Lengths and counts in
    theorems are bounded by the width the code stores them with (2^16, 2^31, 2^32), and
    the 64 bit counters of the metadata by 2^62 ([roomy]).  [reachable] leaves out
    ExpandGroups: after it the ids of groups interleave and pruning goes wrong
    ([prune_after_expand]); commands carry new policies without groups.

    ** Not modelled

    Inside modelled packages: sorting by primary keys for the column store (sort.go,
    SortForColumnStore), the column store memtable, reference counts of tables, column
    size estimates, the generated time-window aggregates; the iterator and memory estimate
    of a uint64set; skip indexes beside the primary one; of files, how the chunk data and the
    pre-aggregates of a column are made, files kept in memory, the page cache, the detached
    layout, remote storage, and the lists of files of a measurement; of the metadata,
    nodes, partition views, replica groups, migration events (only the conflict test),
    users, streams (only the conflict tests), subscriptions, continuous queries,
    downsampling and the protobuf forms.
    Outside: compaction and merging of files, the inverted index, the query language
    and executor, coordinator, RPC and HTTP, raft log files, caches and services: I/O,
    concurrency, generated code, or large parts whose core (expressions, plans, index
    tables) would each be a development of its own. *)

From stdpp Require Export base tactics list numbers strings.
From Stdlib Require Export ZArith Lia.

#[global] Open Scope Z_scope.

(** ** Outcomes of Go code

    A Go function that returns [(T, error)] is a value of [res T]: [Ok] for a
    nil error, [Err] for a non-nil one (the constant part of the message),
    [Panic] for a run-time panic (index or slice bounds, explicit [panic]),
    and [Diverge] for a loop whose fuel ran out. *)

Inductive res (A : Type) : Type :=
| Ok (a : A)
| Err (msg : string)
| Panic
| Diverge.
Arguments Ok {A} _.
Arguments Err {A} _.
Arguments Panic {A}.
Arguments Diverge {A}.

Definition res_bind {A B} (m : res A) (k : A → res B) : res B :=
  match m with
  | Ok a => k a
  | Err e => Err e
  | Panic => Panic
  | Diverge => Diverge
  end.

Definition res_map {A B} (f : A → B) (m : res A) : res B :=
  res_bind m (λ a, Ok (f a)).

Declare Scope go_scope.
Delimit Scope go_scope with go.
Notation "'let!' p ':=' e 'in' k" := (res_bind e (λ p, k))
  (at level 10, p pattern, e at level 200, k at level 200,
   format "'[v' 'let!'  p  ':='  e  'in' '//' k ']'") : go_scope.
#[global] Open Scope go_scope.

Definition is_Ok {A} (m : res A) : Prop := ∃ a, m = Ok a.

(** ** Machine integers

    [wrap_u w] and [wrap_s w] reduce an integer to the unsigned and the signed
    [w]-bit range: Go's conversions and the wrap-around of its arithmetic. *)

Definition wrap_u (w z : Z) : Z := z mod 2 ^ w.
Definition wrap_s (w z : Z) : Z := (z + 2 ^ (w - 1)) mod 2 ^ w - 2 ^ (w - 1).

Abbreviation u8 := (wrap_u 8).
Abbreviation u16 := (wrap_u 16).
Abbreviation u32 := (wrap_u 32).
Abbreviation u64 := (wrap_u 64).
Abbreviation i16 := (wrap_s 16).
Abbreviation i32 := (wrap_s 32).
Abbreviation i64 := (wrap_s 64).

Definition in_u (w z : Z) : Prop := 0 ≤ z < 2 ^ w.
Definition in_s (w z : Z) : Prop := - 2 ^ (w - 1) ≤ z < 2 ^ (w - 1).

#[export] Instance in_u_dec w z : Decision (in_u w z).
Proof. unfold in_u. apply _. Defined.
#[export] Instance in_s_dec w z : Decision (in_s w z).
Proof. unfold in_s. apply _. Defined.

(** ** Development tactics and hint databases *)

Create HintDb gemini.
Create Rewrite HintDb gemini_len.
Create Rewrite HintDb gemini_data.

Lemma length_cons' {A} (x : A) l : length (x :: l) = S (length l).
Proof. done. Qed.

#[export] Hint Rewrite @length_cons' @length_app @length_take @length_drop @length_replicate
  @length_reverse @length_fmap @length_insert @length_seq : gemini_len.

(** Lengths of list expressions, then linear arithmetic. *)
Ltac len := autorewrite with gemini_len in *; simpl length in *; try lia.

(** Div/mod goals over constants. *)
Ltac zdm := Z.div_mod_to_equations; lia.

(** Case analysis on the integer comparison a conditional of the goal tests. *)
Ltac bcase_on c :=
  lazymatch c with
  | Z.ltb ?a ?b => destruct (Z.ltb_spec a b)
  | Z.leb ?a ?b => destruct (Z.leb_spec a b)
  | Z.eqb ?a ?b => destruct (Z.eqb_spec a b)
  | Nat.ltb ?a ?b => destruct (Nat.ltb_spec a b)
  | Nat.leb ?a ?b => destruct (Nat.leb_spec a b)
  | Nat.eqb ?a ?b => destruct (Nat.eqb_spec a b)
  end.
Ltac bcase :=
  match goal with
  | |- context [if ?c then _ else _] => bcase_on c
  end; try lia.

(** A closed decidable proposition, by evaluation. *)
Ltac by_compute := apply (bool_decide_unpack _); vm_compute; exact I.

(** Inversion of [res_bind e k = Ok _] hypotheses. *)
Ltac res_inv :=
  repeat match goal with
  | H : res_bind ?e _ = Ok _ |- _ =>
      let E := fresh "E" in destruct e eqn:E; simpl in H; try discriminate H
  | H : Ok _ = Ok _ |- _ => injection H as H
  | H : Err _ = Ok _ |- _ => discriminate H
  | H : Panic = Ok _ |- _ => discriminate H
  end.

(** ** Facts on machine integers *)

Lemma wrap_u_range w z : 0 ≤ w → in_u w (wrap_u w z).
Proof. intros. apply Z.mod_pos_bound. lia. Qed.

Lemma wrap_u_id w z : in_u w z → wrap_u w z = z.
Proof. apply Z.mod_small. Qed.

Lemma wrap_u_idemp w z : wrap_u w (wrap_u w z) = wrap_u w z.
Proof. apply Zmod_mod. Qed.

Lemma pow2_half w : 0 < w → 2 ^ w = 2 * 2 ^ (w - 1).
Proof. intros. rewrite <- Z.pow_succ_r by lia. f_equal. lia. Qed.

Lemma wrap_s_range w z : 0 < w → in_s w (wrap_s w z).
Proof.
  intros Hw. unfold wrap_s, in_s. pose proof (pow2_half w Hw).
  pose proof (Z.mod_pos_bound (z + 2 ^ (w - 1)) (2 ^ w)). lia.
Qed.

Lemma wrap_s_id w z : 0 < w → in_s w z → wrap_s w z = z.
Proof.
  intros Hw Hz. unfold wrap_s, in_s in *. pose proof (pow2_half w Hw).
  rewrite Z.mod_small; lia.
Qed.

(** Wrapping to unsigned and back to signed is the identity on the signed
    range: Go's [int64(uint64(v))]. *)
Lemma wrap_s_u w z : 0 < w → wrap_s w (wrap_u w z) = wrap_s w z.
Proof.
  intros Hw. unfold wrap_s, wrap_u. by rewrite Zplus_mod_idemp_l.
Qed.

Lemma wrap_u_s w z : 0 < w → wrap_u w (wrap_s w z) = wrap_u w z.
Proof.
  intros Hw. unfold wrap_s, wrap_u.
  rewrite Zminus_mod_idemp_l. f_equal. lia.
Qed.

Lemma wrap_u_add_l w a b : wrap_u w (wrap_u w a + b) = wrap_u w (a + b).
Proof. apply Zplus_mod_idemp_l. Qed.
Lemma wrap_u_add_r w a b : wrap_u w (a + wrap_u w b) = wrap_u w (a + b).
Proof. apply Zplus_mod_idemp_r. Qed.
Lemma wrap_u_sub_r w a b : wrap_u w (a - wrap_u w b) = wrap_u w (a - b).
Proof. apply Zminus_mod_idemp_r. Qed.

Lemma wrap_s_add_r w a b : 0 < w → wrap_s w (a + wrap_s w b) = wrap_s w (a + b).
Proof.
  intros. unfold wrap_s.
  replace (a + ((b + 2 ^ (w - 1)) mod 2 ^ w - 2 ^ (w - 1)) + 2 ^ (w - 1))
    with (a + (b + 2 ^ (w - 1)) mod 2 ^ w) by lia.
  rewrite Zplus_mod_idemp_r. f_equal. f_equal. lia.
Qed.

(** The signed reading only depends on the residue. *)
Lemma wrap_s_eq w a b : 0 < w → wrap_u w a = wrap_u w b → wrap_s w a = wrap_s w b.
Proof. intros Hw Hab. by rewrite <- (wrap_s_u w a), <- (wrap_s_u w b), Hab. Qed.

Lemma wrap_u_testbit w z i : 0 ≤ w → 0 ≤ i →
  Z.testbit (wrap_u w z) i = if i <? w then Z.testbit z i else false.
Proof.
  intros Hw Hi. unfold wrap_u. destruct (Z.ltb_spec i w).
  - by apply Z.mod_pow2_bits_low.
  - apply Z.mod_pow2_bits_high. lia.
Qed.

Lemma wrap_u_lxor w a b : 0 ≤ w → wrap_u w (Z.lxor a b) = Z.lxor (wrap_u w a) (wrap_u w b).
Proof.
  intros. apply Z.bits_inj'. intros i Hi.
  rewrite Z.lxor_spec, !wrap_u_testbit, Z.lxor_spec by done. by case_match.
Qed.

Lemma in_u_testbit w x i : 0 ≤ w → in_u w x → w ≤ i → Z.testbit x i = false.
Proof.
  intros Hw Hx Hi. rewrite <- (wrap_u_id w x) by done.
  rewrite wrap_u_testbit by lia. by rewrite (proj2 (Z.ltb_ge i w)).
Qed.
Lemma in_u_land w x y : 0 ≤ w → in_u w x → in_u w (Z.land x y).
Proof.
  intros Hw Hx. enough (Z.land x y = wrap_u w (Z.land x y)) as -> by by apply wrap_u_range.
  apply Z.bits_inj'. intros i Hi. rewrite wrap_u_testbit, Z.land_spec by done.
  destruct (Z.ltb_spec i w); [done|]. by rewrite (in_u_testbit w x).
Qed.

Lemma in_u_lor w x y : 0 ≤ w → in_u w x → in_u w y → in_u w (Z.lor x y).
Proof.
  intros Hw Hx Hy. enough (Z.lor x y = wrap_u w (Z.lor x y)) as ->.
  { by apply wrap_u_range. }
  apply Z.bits_inj'. intros i Hi. rewrite wrap_u_testbit, Z.lor_spec by done.
  destruct (Z.ltb_spec i w); [done|]. by rewrite !(in_u_testbit w).
Qed.

Lemma in_u_shiftr w x n : 0 ≤ w → 0 ≤ n → in_u w x → in_u w (x ≫ n).
Proof.
  intros Hw Hn [Hx1 Hx2]. unfold in_u. rewrite Z.shiftr_div_pow2 by done.
  pose proof (Z.pow_pos_nonneg 2 n). split; [apply Z.div_pos; lia|].
  eapply Z.le_lt_trans; [|exact Hx2]. apply Z.div_le_upper_bound; nia.
Qed.

Lemma lor_shift_add u x n : 0 ≤ n → in_u n x → Z.lor (u ≪ n) x = u * 2 ^ n + x.
Proof.
  intros Hn Hx. pose proof (Z.pow_pos_nonneg 2 n). apply Z.bits_inj'. intros i Hi.
  rewrite Z.lor_spec, Z.shiftl_spec by lia. destruct (Z.ltb_spec i n).
  - rewrite (Z.testbit_neg_r u) by lia. rewrite orb_false_l.
    rewrite <- (Z.mod_pow2_bits_low (_ + x) n i), Z.add_comm, Z.mod_add by lia.
    by rewrite Z.mod_pow2_bits_low.
  - rewrite (in_u_testbit n x), orb_false_r by (done || lia).
    replace i with ((i - n) + n) at 2 by lia. rewrite <- Z.shiftr_spec by lia.
    rewrite Z.shiftr_div_pow2, Z.add_comm, Z.div_add, Z.div_small by (unfold in_u in Hx; lia). done.
Qed.

(** ** Bytes *)

Definition bytes_ok (l : list Z) : Prop := Forall (in_u 8) l.

#[export] Instance bytes_ok_dec l : Decision (bytes_ok l).
Proof. unfold bytes_ok. apply _. Defined.

(** Little-endian digits of an integer in base 256, and their value. *)
Fixpoint le_bytes (n : nat) (z : Z) : list Z :=
  match n with
  | O => []
  | S n => z mod 256 :: le_bytes n (z / 256)
  end.

Fixpoint le_val (l : list Z) : Z :=
  match l with
  | [] => 0
  | b :: l => b + 256 * le_val l
  end.

Definition be_bytes (n : nat) (z : Z) : list Z := reverse (le_bytes n z).
Definition be_val (l : list Z) : Z := le_val (reverse l).

Lemma length_le_bytes n z : length (le_bytes n z) = n.
Proof. revert z. induction n; intros; simpl; f_equal; auto. Qed.
#[export] Hint Rewrite length_le_bytes : gemini_len.

Lemma length_be_bytes n z : length (be_bytes n z) = n.
Proof. unfold be_bytes. by rewrite length_reverse, length_le_bytes. Qed.
#[export] Hint Rewrite length_be_bytes : gemini_len.

Lemma le_bytes_ok n z : bytes_ok (le_bytes n z).
Proof.
  revert z. induction n; intros; constructor.
  - apply Z.mod_pos_bound. lia.
  - apply IHn.
Qed.

Lemma be_bytes_ok n z : bytes_ok (be_bytes n z).
Proof. apply Forall_reverse, le_bytes_ok. Qed.

Lemma bytes_ok_app l k : bytes_ok (l ++ k) ↔ bytes_ok l ∧ bytes_ok k.
Proof. apply Forall_app. Qed.

Lemma bytes_ok_take n l : bytes_ok l → bytes_ok (take n l).
Proof. apply Forall_take. Qed.
Lemma bytes_ok_drop n l : bytes_ok l → bytes_ok (drop n l).
Proof. apply Forall_drop. Qed.

#[export] Hint Resolve le_bytes_ok be_bytes_ok bytes_ok_take bytes_ok_drop : gemini.

Lemma pow256_pos n : 0 < 256 ^ Z.of_nat n.
Proof. apply Z.pow_pos_nonneg; lia. Qed.

Lemma le_val_bytes n z : le_val (le_bytes n z) = z mod 256 ^ Z.of_nat n.
Proof.
  revert z. induction n as [|n IH]; intros z.
  - simpl. by rewrite Z.mod_1_r.
  - cbn [le_bytes le_val]. rewrite IH, Nat2Z.inj_succ, Z.pow_succ_r by lia.
    pose proof (pow256_pos n). rewrite Z.rem_mul_r by lia. lia.
Qed.

Lemma le_val_bound l : bytes_ok l → 0 ≤ le_val l < 256 ^ Z.of_nat (length l).
Proof.
  induction 1 as [|b l Hb _ IH]; [simpl; lia|].
  cbn [le_val length]. rewrite Nat2Z.inj_succ, Z.pow_succ_r by lia.
  unfold in_u in Hb. lia.
Qed.

Lemma le_bytes_val l : bytes_ok l → le_bytes (length l) (le_val l) = l.
Proof.
  induction 1 as [|b l Hb _ IH]; [done|].
  unfold in_u in Hb. cbn [le_val length le_bytes].
  replace ((b + 256 * le_val l) mod 256) with b by zdm.
  replace ((b + 256 * le_val l) / 256) with (le_val l) by zdm.
  by rewrite IH.
Qed.

(** Equal residues give equal bytes: conversions between signed and unsigned
    views do not change the representation. *)
Lemma le_bytes_mod n z z' :
  z mod 256 ^ Z.of_nat n = z' mod 256 ^ Z.of_nat n → le_bytes n z = le_bytes n z'.
Proof.
  intros H. rewrite <- !le_val_bytes in H.
  rewrite <- (le_bytes_val (le_bytes n z)) by apply le_bytes_ok.
  rewrite <- (le_bytes_val (le_bytes n z')) by apply le_bytes_ok.
  by rewrite !length_le_bytes, H.
Qed.

Lemma be_val_bytes n z : be_val (be_bytes n z) = z mod 256 ^ Z.of_nat n.
Proof. unfold be_val, be_bytes. by rewrite reverse_involutive, le_val_bytes. Qed.

Lemma be_bytes_val l : bytes_ok l → be_bytes (length l) (be_val l) = l.
Proof.
  intros H. unfold be_bytes, be_val.
  rewrite <- (length_reverse l), le_bytes_val by by apply Forall_reverse.
  apply reverse_involutive.
Qed.

Lemma be_val_bound l : bytes_ok l → 0 ≤ be_val l < 256 ^ Z.of_nat (length l).
Proof.
  intros H. unfold be_val. rewrite <- (length_reverse l).
  apply le_val_bound. by apply Forall_reverse.
Qed.

(** ** Lists *)

Lemma take_app_length' {A} (l k : list A) n :
  n = length l → take n (l ++ k) = l.
Proof. intros ->. apply take_app_length. Qed.

Lemma drop_app_length' {A} (l k : list A) n :
  n = length l → drop n (l ++ k) = k.
Proof. intros ->. apply drop_app_length. Qed.

Lemma take_drop_app {A} n m (l : list A) :
  take n l ++ take m (drop n l) = take (n + m) l.
Proof. apply take_take_drop. Qed.

Lemma Forall_eq_replicate {A} (x : A) l : Forall (λ y, y = x) l → l = replicate (length l) x.
Proof.
  intros Hl. symmetry. apply replicate_as_elem_of. split; [done|].
  by rewrite Forall_forall in Hl.
Qed.
