(* ===== verification/GoString.v ===== *)
(** * Go strings

    Strings are compared byte by byte and concatenated; the lemmas about the order, prefixes
    and slices that the schemas, the metadata and the routing of rows share. *)

From Stdlib Require String Ascii.
From S2P Require Import Prelude.

(** ** The order *)

Lemma ascii_compare_lt a b : Ascii.compare a b = Lt ↔ (Ascii.N_of_ascii a < Ascii.N_of_ascii b)%N.
Proof. unfold Ascii.compare. by rewrite N.compare_lt_iff. Qed.

Lemma ascii_compare_eq a b : Ascii.compare a b = Eq → a = b.
Proof.
  unfold Ascii.compare. intros H%N.compare_eq_iff.
  by rewrite <- (Ascii.ascii_N_embedding a), <- (Ascii.ascii_N_embedding b), H.
Qed.

Lemma string_compare_refl s : String.compare s s = Eq.
Proof. induction s as [|c s IH]; cbn; [done|]. unfold Ascii.compare. by rewrite N.compare_refl. Qed.

Lemma string_lt_trans a b c :
  String.compare a b = Lt → String.compare b c = Lt → String.compare a c = Lt.
Proof.
  revert b c. induction a as [|x a IH]; intros [|y b] [|z c]; cbn; try done.
  destruct (Ascii.compare x y) eqn:Exy; [apply ascii_compare_eq in Exy as ->| |done].
  - destruct (Ascii.compare y z) eqn:Eyz; [apply IH|done|done].
  - intros _. destruct (Ascii.compare y z) eqn:Eyz; [apply ascii_compare_eq in Eyz as <-; by rewrite Exy| |done].
    intros _. apply ascii_compare_lt in Exy, Eyz.
    destruct (Ascii.compare x z) eqn:Exz; [apply ascii_compare_eq in Exz; subst; by destruct (N.lt_asymm _ _ Exy)|done|].
    assert (Ascii.compare x z = Lt) as E by (apply ascii_compare_lt; by etrans). congruence.
Qed.

Definition lt_name (a b : string) : Prop := String.ltb a b = true.

Lemma lt_name_compare a b : lt_name a b ↔ String.compare a b = Lt.
Proof. unfold lt_name, String.ltb. by destruct (String.compare a b). Qed.

Lemma lt_name_trans a b c : lt_name a b → lt_name b c → lt_name a c.
Proof. rewrite !lt_name_compare. apply string_lt_trans. Qed.
Lemma lt_name_irrefl a : ¬ lt_name a a.
Proof. rewrite lt_name_compare. by rewrite string_compare_refl. Qed.
Lemma lt_name_total a b : String.ltb a b = false → String.ltb b a = false → a = b.
Proof.
  unfold String.ltb. rewrite (String.compare_antisym b a).
  destruct (String.compare a b) eqn:E; try done. intros _ _. by apply String.compare_eq_iff.
Qed.

(** [a <= b] is the negation of [b < a]. *)
Lemma string_le_trans a b c : String.ltb b a = false → String.ltb c b = false → String.ltb c a = false.
Proof.
  intros Hab Hbc. destruct (String.ltb c a) eqn:Hca; [|done]. destruct (String.ltb a b) eqn:E.
  - pose proof (lt_name_trans c a b Hca E) as H. unfold lt_name in H. congruence.
  - rewrite (lt_name_total a b E Hab) in *. unfold lt_name in *. congruence.
Qed.

Lemma string_le_lt_trans a b c : String.ltb b a = false → String.ltb b c = true → String.ltb a c = true.
Proof.
  intros Hab Hbc. destruct (String.ltb a b) eqn:E; [by apply (lt_name_trans a b c)|]. by rewrite (lt_name_total a b E Hab).
Qed.

Lemma string_lt_asym a b : String.ltb a b = true → String.ltb b a = false.
Proof. intros Hab. destruct (String.ltb b a) eqn:E; [|done]. by destruct (lt_name_irrefl a (lt_name_trans a b a Hab E)). Qed.

Lemma ltb_nil_r a : String.ltb a "" = false.
Proof. by destruct a. Qed.

(** A prefix is not greater, and cutting both sides keeps the order. *)
Lemma prefix_le a b : String.ltb (a +:+ b) a = false.
Proof.
  induction a as [|c a IH]; [apply ltb_nil_r|]. unfold String.ltb in *.
  change (String.compare _ _) with (match Ascii.compare c c with Eq => String.compare (a +:+ b) a | x => x end).
  unfold Ascii.compare. by rewrite N.compare_refl.
Qed.

Lemma substring_le n a b : String.ltb b a = false → String.ltb (String.substring 0 n b) (String.substring 0 n a) = false.
Proof.
  revert a b. induction n as [|n IH]; intros [|x a] [|y b]; try done. unfold String.ltb in *.
  cbn [String.compare String.substring]. destruct (Ascii.compare y x); [|done|done]. apply IH.
Qed.

(** ** Concatenation *)

Lemma string_length_app a b : String.length (a ++ b)%string = (String.length a + String.length b)%nat.
Proof. induction a as [|c a IH]; [done|exact (f_equal S IH)]. Qed.
Lemma substring_app a b : String.substring 0 (String.length a) (a ++ b)%string = a.
Proof. induction a as [|c a IH]; [by destruct b|exact (f_equal (String.String c) IH)]. Qed.
Lemma string_app_inj a b x y : String.length a = String.length b → (a ++ x)%string = (b ++ y)%string → a = b ∧ x = y.
Proof.
  revert b. induction a as [|c a IH]; intros [|c' b] Hl Hab; try discriminate Hl; [done|].
  injection Hl as Hl. injection Hab as -> Hab. by destruct (IH b Hl Hab) as [-> ->].
Qed.

Lemma string_app_assoc a b c : (a +:+ b) +:+ c = a +:+ (b +:+ c).
Proof. induction a as [|x a IH]; [done|exact (f_equal (String.String x) IH)]. Qed.
Lemma string_app_nil a : a +:+ "" = a.
Proof. induction a as [|x a IH]; [done|exact (f_equal (String.String x) IH)]. Qed.
Lemma substring_all a : String.substring 0 (String.length a) a = a.
Proof. rewrite <- (string_app_nil a) at 2. apply substring_app. Qed.
Lemma substring_skip a b n : String.substring (String.length a) n (a +:+ b) = String.substring 0 n b.
Proof. induction a as [|x a IH]; [done|exact IH]. Qed.
