(* ===== verification/GoSort.v ===== *)
(** * Package sort

    [sort_by less] is sort.Sort: which of several sorted orders it produces is not
    specified, so it is a parameter with its documented laws; insertion sort has them. *)

From stdpp Require Import sorting.
From S2P Require Import Prelude.

Class GoSort := { sort_by : ∀ {A}, (A → A → bool) → list A → list A }.

(** [less] as a strict weak order. *)
Class StrictWeak {A} (less : A → A → bool) : Prop := {
  sw_irrefl x : less x x = false;
  sw_trans x y z : less y x = false → less z y = false → less z x = false;
  sw_asym x y : less x y = true → less y x = false;
}.

(** No element precedes one before it. *)
Definition in_order {A} (less : A → A → bool) (l : list A) : Prop := StronglySorted (λ x y, less y x = false) l.

Class GoSortLaws (S : GoSort) : Prop := {
  sort_perm {A} (less : A → A → bool) l : sort_by less l ≡ₚ l;
  sort_ordered {A} (less : A → A → bool) l : StrictWeak less → in_order less (sort_by less l);
}.

Lemma in_order_sublist {A} (less : A → A → bool) l l' : l `sublist_of` l' → in_order less l' → in_order less l.
Proof.
  unfold in_order. intros Hsub. induction Hsub as [|x l l' Hsub IH|x l l' Hsub IH]; intros Hs; [done| |].
  - inversion Hs as [|? ? Hs' Hall]; subst. constructor; [by apply IH|]. rewrite Forall_forall in *. intros y Hy. apply Hall.
    eapply elem_of_submseteq; [exact Hy|by apply sublist_submseteq].
  - inversion Hs; subst. by apply IH.
Qed.

(** *** Insertion sort, a sort with the laws *)

Fixpoint insert_by {A} (less : A → A → bool) (x : A) (l : list A) : list A :=
  match l with
  | [] => [x]
  | y :: l => if less x y then x :: y :: l else y :: insert_by less x l
  end.
Definition insertion_sort {A} (less : A → A → bool) (l : list A) : list A := foldl (λ acc x, insert_by less x acc) [] l.

Lemma insert_by_perm {A} less (x : A) l : insert_by less x l ≡ₚ x :: l.
Proof.
  induction l as [|y l IH]; cbn; [done|]. case_match; [done|]. rewrite IH. apply Permutation_swap.
Qed.

Lemma insert_by_ordered {A} (less : A → A → bool) `{!StrictWeak less} x l :
  in_order less l → in_order less (insert_by less x l).
Proof.
  unfold in_order. induction 1 as [|y l Hs IH Hy]; cbn; [repeat constructor|]. case_match eqn:E.
  - constructor; [by constructor|]. constructor; [by apply sw_asym|]. eapply Forall_impl; [exact Hy|]. cbn.
    intros z Hz. eapply sw_trans; [|exact Hz]. by apply sw_asym.
  - constructor; [done|]. rewrite (insert_by_perm less x l). constructor; [done|done].
Qed.

Lemma insertion_sort_spec {A} (less : A → A → bool) l acc :
  foldl (λ acc x, insert_by less x acc) acc l ≡ₚ l ++ acc ∧
  (StrictWeak less → in_order less acc → in_order less (foldl (λ acc x, insert_by less x acc) acc l)).
Proof.
  revert acc. induction l as [|x l IH]; intros acc; [done|]. cbn [foldl]. destruct (IH (insert_by less x acc)) as [Hp Ho]. split.
  - rewrite Hp, insert_by_perm. cbn. by rewrite Permutation_middle.
  - intros Hsw Hacc. apply Ho; [done|]. by apply insert_by_ordered.
Qed.

Definition insertion_go_sort : GoSort := {| sort_by := @insertion_sort |}.

#[export] Instance insertion_go_sort_laws : GoSortLaws insertion_go_sort.
Proof.
  split; cbn; intros A less l.
  - destruct (insertion_sort_spec less l []) as [Hp _]. by rewrite app_nil_r in Hp.
  - intros Hsw. by apply insertion_sort_spec; [|constructor].
Qed.

(** sort.IsSorted, and sorting only when it says no. *)
Fixpoint IsSorted {A} (less : A → A → bool) (l : list A) : bool :=
  match l with
  | x :: ((y :: _) as l') => negb (less y x) && IsSorted less l'
  | _ => true
  end.
Definition sort_if {S : GoSort} {A} (less : A → A → bool) (l : list A) : list A := if IsSorted less l then l else sort_by less l.

Lemma IsSorted_spec {A} (less : A → A → bool) `{!StrictWeak less} l : IsSorted less l = true → in_order less l.
Proof.
  unfold in_order. induction l as [|x l IH]; intros Hs; [constructor|]. destruct l as [|y l]; [repeat constructor|].
  cbn [IsSorted] in Hs. apply andb_true_iff in Hs as [Hxy Hs]. rewrite negb_true_iff in Hxy. specialize (IH Hs). constructor; [done|].
  inversion IH as [|? ? _ Hy]; subst. constructor; [done|]. eapply Forall_impl; [exact Hy|]. intros z Hz. by eapply sw_trans.
Qed.

Lemma sort_if_spec {S : GoSort} `{!GoSortLaws S} {A} (less : A → A → bool) `{!StrictWeak less} l :
  sort_if less l ≡ₚ l ∧ in_order less (sort_if less l).
Proof.
  unfold sort_if. destruct (IsSorted less l) eqn:E; [by split; [|apply IsSorted_spec]|]. split; [apply sort_perm|by apply sort_ordered].
Qed.

(** *** sort.Search: the smallest index of [0, n) with [f], by bisection *)

Fixpoint bisect (f : nat → bool) (fuel i j : nat) : nat :=
  match fuel with
  | O => i
  | Datatypes.S fuel =>
      if (i <? j)%nat then
        let h := ((i + j) / 2)%nat in
        if negb (f h) then bisect f fuel (Datatypes.S h) j else bisect f fuel i h
      else i
  end.
Definition Search (n : nat) (f : nat → bool) : nat := bisect f n 0 n.

Lemma bisection_spec f n fuel i j :
  (∀ a b, (a <= b < n)%nat → f a = true → f b = true) → (i <= j <= n)%nat → (j - i <= fuel)%nat →
  (∀ a, (a < i)%nat → f a = false) → (∀ a, (j <= a < n)%nat → f a = true) →
  let r := bisect f fuel i j in
  (i <= r <= j)%nat ∧ (∀ a, (a < r)%nat → f a = false) ∧ (∀ a, (r <= a < n)%nat → f a = true).
Proof.
  intros Hmono. revert i j. induction fuel as [|fuel IH]; intros i j Hij Hf Hlo Hhi; cbn [bisect].
  { assert (i = j) as -> by lia. split; [lia|done]. }
  destruct (Nat.ltb_spec i j) as [Hlt|Hge]; [|assert (i = j) as -> by lia; split; [lia|done]].
  assert (Hh : (i <= (i + j) / 2 < j)%nat) by (split; [apply Nat.div_le_lower_bound|apply Nat.Div0.div_lt_upper_bound]; lia).
  set (h := ((i + j) / 2)%nat) in *. clearbody h. destruct (f h) eqn:E; cbn [negb].
  - destruct (IH i h) as (? & ? & ?); [lia|lia|done| |split; [lia|done]].
    intros a Ha. by apply (Hmono h a).
  - destruct (IH (Datatypes.S h) j) as (? & ? & ?); [lia|lia| |done|split; [lia|done]].
    intros a Ha. destruct (f a) eqn:Ea; [|done]. rewrite (Hmono a h) in E; [done|lia|done].
Qed.

Lemma Search_spec f n :
  (∀ a b, (a <= b < n)%nat → f a = true → f b = true) →
  (0 <= Search n f <= n)%nat ∧ (∀ a, (a < Search n f)%nat → f a = false) ∧ (∀ a, (Search n f <= a < n)%nat → f a = true).
Proof. intros Hmono. apply bisection_spec; [done|lia|lia|lia|lia]. Qed.
