(* ===== verification/GoSlice.v ===== *)
(** * Go slices of bytes and words

    A slice is a visible part [sdata] of length [len] and the part [sspare] of
    the backing array between [len] and [cap].  [append] writes into the spare
    part when it is large enough and reallocates otherwise; how much a
    reallocation over-allocates is left to the run time ([GoRuntime]).

    The file also holds the reinterpreting views of lib/util/util.go (on a
    little-endian host) and the buffer helpers shared by the coders. *)

From S2P Require Import Prelude.

(** The spare room [growslice] leaves behind, from the old capacity and the new
    length: the language leaves it to the implementation. *)
Class GoRuntime := { growslice : nat → nat → nat }.

#[export] Instance tight_runtime : GoRuntime | 100 := {| growslice := λ _ _, 0%nat |}.

Record slice := mk_slice { sdata : list Z; sspare : list Z }.

Definition slen (s : slice) : nat := length (sdata s).
Definition scap (s : slice) : nat := (length (sdata s) + length (sspare s))%nat.
Definition nil_slice : slice := mk_slice [] [].

(** The whole backing array, from the start of the slice. *)
Definition sback (s : slice) : list Z := sdata s ++ sspare s.

(** [s[:n]]: extends up to the capacity, panics beyond it. *)
Definition reslice_to (s : slice) (n : nat) : res slice :=
  if (n <=? scap s)%nat then Ok (mk_slice (take n (sback s)) (drop n (sback s)))
  else Panic.

(** [s[n:]]. *)
Definition reslice_from (s : slice) (n : nat) : res slice :=
  if (n <=? slen s)%nat then Ok (mk_slice (drop n (sdata s)) (sspare s)) else Panic.

(** [s[a:b]]: a view of the same array, up to its capacity. *)
Definition reslice (s : slice) (a b : nat) : res slice :=
  if ((a <=? b) && (b <=? scap s))%nat%bool
  then Ok (mk_slice (take (b - a) (drop a (sback s))) (drop b (sback s))) else Panic.

(** [l[n:]] and [l[a:b]] on data that is only read (a slice without spare room). *)
Definition from (l : list Z) (n : nat) : res (list Z) :=
  if (n <=? length l)%nat then Ok (drop n l) else Panic.
Definition between (l : list Z) (a b : nat) : res (list Z) :=
  if ((a <=? b) && (b <=? length l))%nat%bool then Ok (take (b - a) (drop a l)) else Panic.
Definition index (l : list Z) (i : nat) : res Z :=
  match l !! i with Some x => Ok x | None => Panic end.

(** [s[i] = v]. *)
Definition store (s : slice) (i : nat) (v : Z) : res slice :=
  if (i <? slen s)%nat then Ok (mk_slice (<[i := v]> (sdata s)) (sspare s)) else Panic.

(** [copy(s[i:], xs)] for [xs] that fits. *)
Definition overwrite (l : list Z) (i : nat) (xs : list Z) : list Z :=
  take i l ++ xs ++ drop (i + length xs) l.

Section Append.
Context `{GoRuntime}.

Definition append (s : slice) (xs : list Z) : slice :=
  if (length xs <=? length (sspare s))%nat
  then mk_slice (sdata s ++ xs) (drop (length xs) (sspare s))
  else mk_slice (sdata s ++ xs)
         (replicate (growslice (scap s) (slen s + length xs)) 0).

(** A callee that appends [xs] to [s[len(s):]] (an empty sub-slice sharing the
    spare room) leaves its bytes in the spare room of [s] when they fit, and
    in a new array otherwise. *)
Definition fill_spare (s : slice) (xs : list Z) : slice :=
  if (length xs <=? length (sspare s))%nat
  then mk_slice (sdata s) (overwrite (sspare s) 0 xs)
  else s.
End Append.

Definition zeros (n : nat) : list Z := replicate n 0.

(** ** lib/util/util.go: reinterpreting a byte slice as a word slice *)

Fixpoint words_le (w k : nat) (l : list Z) : list Z :=
  match k with
  | O => []
  | S k => le_val (take w l) :: words_le w k (drop w l)
  end.

Definition bytes_le (w : nat) (vs : list Z) : list Z := concat (le_bytes w <$> vs).

Definition Bytes2Uint16Slice (b : list Z) : list Z := words_le 2 (length b / 2) b.
Definition Uint16Slice2byte (vs : list Z) : list Z := bytes_le 2 vs.
Definition Bytes2Uint32Slice (b : list Z) : list Z := words_le 4 (length b / 4) b.
Definition Uint32Slice2byte (vs : list Z) : list Z := bytes_le 4 vs.
Definition Bytes2Uint64Slice (b : list Z) : list Z := words_le 8 (length b / 8) b.
Definition Uint64Slice2byte (vs : list Z) : list Z := bytes_le 8 vs.
Definition Bytes2Int16Slice (b : list Z) : list Z := i16 <$> words_le 2 (length b / 2) b.
Definition Int16Slice2byte (vs : list Z) : list Z := bytes_le 2 vs.
Definition Bytes2Int32Slice (b : list Z) : list Z := i32 <$> words_le 4 (length b / 4) b.
Definition Int32Slice2byte (vs : list Z) : list Z := bytes_le 4 vs.
Definition Bytes2Int64Slice (b : list Z) : list Z := i64 <$> words_le 8 (length b / 8) b.
Definition Int64Slice2byte (vs : list Z) : list Z := bytes_le 8 vs.

(** A float is the 32 or 64 bits of its representation. *)
Definition Bytes2Float32Slice (b : list Z) : list Z := words_le 4 (length b / 4) b.
Definition Float32Slice2byte (vs : list Z) : list Z := bytes_le 4 vs.
Definition Bytes2Float64Slice (b : list Z) : list Z := words_le 8 (length b / 8) b.
Definition Float64Slice2byte (vs : list Z) : list Z := bytes_le 8 vs.

(** A Go bool occupies one byte, 0 or 1. *)
Definition BooleanSlice2byte (vs : list bool) : list Z :=
  (λ v : bool, if v then 1 else 0) <$> vs.
Definition Bytes2BooleanSlice (b : list Z) : list bool := (λ x, negb (x =? 0)) <$> b.

(** ** Buffer helpers *)

Section Buffers.
Context `{GoRuntime}.

(** lib/encoding/encoding.go growBuffer *)
Definition growBuffer (buf : slice) (size : nat) : res slice :=
  let pos := slen buf in
  let! buf :=
    if (scap buf <? size + pos)%nat then
      let n := (size + pos - scap buf)%nat in
      let! full := reslice_to buf (scap buf) in
      Ok (append full (zeros n))
    else Ok buf in
  reslice_to buf pos.

(** lib/bufferpool/pool.go Resize *)
Definition Resize (b : slice) (n : nat) : res slice :=
  let! b :=
    if (scap b <? n)%nat then
      let! full := reslice_to b (scap b) in
      Ok (append full (zeros (n - scap b)))
    else Ok b in
  reslice_to b n.

(** lib/util/util.go PaddingZeroBuffer ([zeroBuf] is a zeroed buffer) *)
Definition PaddingZeroBuffer (out : slice) (size : nat) : slice :=
  append out (zeros size).
End Buffers.

(** ** Lemmas *)

(** Run the monad and the slice projections, nothing else. *)
Ltac rs := cbn [res_bind sdata sspare fst snd].

Lemma take_sback s n : (n <= slen s)%nat → take n (sback s) = take n (sdata s).
Proof. intros. unfold sback. apply take_app_le. done. Qed.

Lemma sdata_append `{GoRuntime} s xs : sdata (append s xs) = sdata s ++ xs.
Proof. unfold append. by case_match. Qed.

Lemma slen_append `{GoRuntime} s xs : slen (append s xs) = (slen s + length xs)%nat.
Proof. unfold slen. rewrite sdata_append. len. Qed.
#[export] Hint Rewrite @sdata_append : gemini_data.
#[export] Hint Rewrite @slen_append : gemini_len.

Lemma scap_append `{GoRuntime} s xs : (slen s + length xs <= scap (append s xs))%nat.
Proof. rewrite <- slen_append. unfold scap, slen. lia. Qed.

Lemma scap_append_mono `{GoRuntime} s xs : (scap s <= scap (append s xs))%nat.
Proof. unfold append, scap, slen in *. bcase; simpl; len. Qed.

Lemma length_sspare s : length (sspare s) = (scap s - slen s)%nat.
Proof. unfold scap, slen. lia. Qed.

Lemma slen_le_scap s : (slen s <= scap s)%nat.
Proof. unfold scap, slen. lia. Qed.

Lemma index_Ok l i x : l !! i = Some x → index l i = Ok x.
Proof. unfold index. by intros ->. Qed.

Lemma from_Ok l n : (n <= length l)%nat → from l n = Ok (drop n l).
Proof. intros. unfold from. by bcase. Qed.

Lemma from_app l k n : n = length l → from (l ++ k) n = Ok k.
Proof. intros ->. rewrite from_Ok, drop_app_length by len. done. Qed.

Lemma between_Ok l a b :
  (a <= b)%nat → (b <= length l)%nat → between l a b = Ok (take (b - a) (drop a l)).
Proof.
  intros. unfold between.
  rewrite (proj2 (Nat.leb_le a b)), (proj2 (Nat.leb_le b (length l))) by done. done.
Qed.

Lemma reslice_spec s a b :
  (a <= b)%nat → (b <= slen s)%nat →
  ∃ s', reslice s a b = Ok s' ∧ sdata s' = take (b - a) (drop a (sdata s)).
Proof.
  intros Hab Hb. unfold reslice, scap. unfold slen in Hb.
  rewrite (proj2 (Nat.leb_le a b)), (proj2 (Nat.leb_le b _)) by lia.
  eexists; split; [done|]. cbn [sdata]. unfold sback.
  rewrite drop_app_le, take_app_le by len. done.
Qed.

(** A callee writing into the spare room: the bytes are read by re-slicing. *)
Lemma fill_spare_reslice s xs :
  (length xs <= length (sspare s))%nat →
  sdata (fill_spare s xs) = sdata s ∧
  take (slen s + length xs) (sback (fill_spare s xs)) = sdata s ++ xs ∧
  (slen s + length xs <= scap (fill_spare s xs))%nat.
Proof.
  intros Hl. unfold fill_spare. bcase. split_and!; [done| |].
  - unfold sback, overwrite, slen. simpl. rewrite app_assoc.
    apply take_app_length'. len.
  - unfold scap, slen. simpl. unfold overwrite. len.
Qed.

Lemma reslice_to_Ok s n :
  (n <= scap s)%nat →
  reslice_to s n = Ok (mk_slice (take n (sback s)) (drop n (sback s))).
Proof. intros. unfold reslice_to. by bcase. Qed.

Lemma length_sback s : length (sback s) = scap s.
Proof. unfold sback, scap. len. Qed.
#[export] Hint Rewrite length_sback : gemini_len.

Lemma reslice_to_full s :
  reslice_to s (scap s) = Ok (mk_slice (sback s) []).
Proof.
  rewrite reslice_to_Ok by lia. f_equal.
  rewrite take_ge, drop_ge by len. done.
Qed.

(** Growing a buffer keeps the visible bytes and reserves [size] more. *)
Lemma growBuffer_spec `{GoRuntime} s size :
  ∃ s', growBuffer s size = Ok s' ∧ sdata s' = sdata s ∧ (slen s + size <= scap s')%nat.
Proof.
  unfold growBuffer. bcase.
  - rewrite reslice_to_full. simpl.
    set (f := append _ _).
    assert (Hf : sdata f = sback s ++ zeros (size + slen s - scap s)).
    { unfold f. by rewrite sdata_append. }
    assert (Hc : (size + slen s <= scap f)%nat).
    { unfold scap. rewrite Hf. unfold zeros. len. }
    rewrite reslice_to_Ok by lia. eexists; split; [done|]. simpl. split.
    + unfold sback at 1. rewrite Hf, <- app_assoc. unfold sback.
      rewrite <- app_assoc. apply take_app_length.
    + unfold scap at 1. simpl. len.
  - simpl. rewrite reslice_to_Ok by (unfold scap, slen in *; lia).
    eexists; split; [done|]. simpl. split.
    + unfold sback. apply take_app_length.
    + unfold scap at 1. simpl. len.
Qed.

Lemma Resize_spec `{GoRuntime} s n :
  ∃ s', Resize s n = Ok s' ∧ slen s' = n ∧ take (slen s) (sdata s') = take n (sdata s).
Proof.
  unfold Resize. bcase.
  - rewrite reslice_to_full. simpl.
    set (f := append _ _).
    assert (Hf : sdata f = sback s ++ zeros (n - scap s)).
    { unfold f. by rewrite sdata_append. }
    assert (Hc : (n <= scap f)%nat).
    { unfold scap. rewrite Hf. unfold zeros. len. }
    rewrite reslice_to_Ok by lia. eexists; split; [done|]. simpl. split.
    + unfold slen. simpl. len.
    + unfold sback at 1. rewrite Hf. unfold sback.
      rewrite take_take, <- !app_assoc.
      assert (slen s <= scap s)%nat by (unfold slen, scap; lia).
      rewrite Nat.min_l by lia. unfold slen.
      rewrite take_app_length, take_ge; [done|]. unfold slen in *. lia.
  - simpl. rewrite reslice_to_Ok by lia. eexists; split; [done|]. simpl. split.
    + unfold slen. simpl. len.
    + unfold sback, slen. rewrite take_take, Nat.min_comm, <- take_take.
      by rewrite take_app_length.
Qed.

Lemma Resize_grow `{GoRuntime} s n :
  (slen s <= n)%nat →
  ∃ s', Resize s n = Ok s' ∧ slen s' = n ∧ take (slen s) (sdata s') = sdata s.
Proof.
  intros Hn. destruct (Resize_spec s n) as (s' & He & Hl & Ht).
  exists s'. split_and!; try done. by rewrite Ht, take_ge.
Qed.

(** [append(make([]byte, 0, n), s...)[:n]] when the capacity is short of [n]. *)
Lemma realloc_grow `{GoRuntime} s n :
  (slen s <= n)%nat →
  ∃ s', reslice_to (if (scap s <? n)%nat then append (mk_slice [] (zeros n)) (sdata s) else s) n
        = Ok s' ∧ slen s' = n ∧ take (slen s) (sdata s') = sdata s.
Proof.
  intros Hn. match goal with |- context [if ?b then ?x else s] => set (d := if b then x else s) end.
  assert (Hd : sdata d = sdata s) by (unfold d; case_match; by rewrite ?sdata_append).
  assert (Hc : (n <= scap d)%nat).
  { unfold d. bcase. unfold append. simpl. unfold zeros. rewrite length_replicate.
    fold (slen s). bcase. unfold scap. simpl. len. fold (slen s). lia. }
  rewrite reslice_to_Ok by done. eexists; split; [done|]. unfold slen at 1. simpl. split.
  - len.
  - rewrite take_take, Nat.min_l by done. rewrite take_sback; unfold slen; rewrite Hd; [|done].
    by apply take_ge.
Qed.

Lemma overwrite_tail l i xs :
  length l = (i + length xs)%nat → overwrite l i xs = take i l ++ xs.
Proof. intros Hl. unfold overwrite. by rewrite drop_ge, app_nil_r by lia. Qed.

Lemma overwrite_app l k i xs :
  (i + length xs <= length l)%nat → overwrite l i xs ++ k = overwrite (l ++ k) i xs.
Proof.
  intros Hl. unfold overwrite. rewrite take_app_le by lia.
  rewrite drop_app_le by lia. by rewrite <- !app_assoc.
Qed.

Lemma overwrite_mid a b c i xs :
  i = length a → length xs = length b → overwrite (a ++ b ++ c) i xs = a ++ xs ++ c.
Proof.
  intros -> Hl. unfold overwrite. rewrite take_app_length. do 2 f_equal.
  rewrite app_assoc. apply drop_app_length'. len.
Qed.

Lemma length_words_le w k l : length (words_le w k l) = k.
Proof. revert l. induction k; intros; simpl; f_equal; auto. Qed.
#[export] Hint Rewrite length_words_le : gemini_len.

Lemma bytes_le_cons w v vs : bytes_le w (v :: vs) = le_bytes w v ++ bytes_le w vs.
Proof. done. Qed.

Lemma length_bytes_le w vs : length (bytes_le w vs) = (w * length vs)%nat.
Proof.
  induction vs as [|v vs IH]; [simpl; lia|].
  rewrite bytes_le_cons, length_app, IH, length_le_bytes. simpl. lia.
Qed.
#[export] Hint Rewrite length_bytes_le : gemini_len.

Lemma bytes_le_ok w vs : bytes_ok (bytes_le w vs).
Proof.
  induction vs as [|v vs IH]; [constructor|].
  rewrite bytes_le_cons. apply bytes_ok_app. auto with gemini.
Qed.
#[export] Hint Resolve bytes_le_ok : gemini.

Lemma bytes_le_app w vs vs' : bytes_le w (vs ++ vs') = bytes_le w vs ++ bytes_le w vs'.
Proof. unfold bytes_le. by rewrite fmap_app, concat_app. Qed.

(** Reading back the words of a word slice gives them reduced to their width. *)
Lemma words_le_bytes w vs rest :
  words_le w (length vs) (bytes_le w vs ++ rest) =
  (λ v, v mod 256 ^ Z.of_nat w) <$> vs.
Proof.
  revert rest. induction vs as [|v vs IH]; intros; [done|].
  cbn [length words_le]. rewrite bytes_le_cons, <- app_assoc.
  rewrite take_app_length', drop_app_length' by len.
  by rewrite IH, le_val_bytes.
Qed.

(** The bytes of the words of [l] are [l] itself, whatever the sign view. *)
Lemma bytes_le_words w k l :
  length l = (w * k)%nat → bytes_ok l → bytes_le w (words_le w k l) = l.
Proof.
  revert l. induction k as [|k IH]; intros l Hl Hok.
  - destruct l; [done|]. simpl in Hl. lia.
  - cbn [words_le]. rewrite bytes_le_cons, IH by (len || auto with gemini).
    replace w with (length (take w l)) at 1 by len.
    rewrite le_bytes_val by auto with gemini. apply take_drop.
Qed.

Lemma words_le_range w k l :
  bytes_ok l → Forall (in_u (8 * Z.of_nat w)) (words_le w k l).
Proof.
  revert l. induction k; intros l Hok; constructor; auto with gemini.
  pose proof (le_val_bound (take w l) (bytes_ok_take _ _ Hok)) as Hb.
  unfold in_u. rewrite Z.pow_mul_r by lia. change (2 ^ 8) with 256.
  split; [lia|]. eapply Z.lt_le_trans; [apply Hb|].
  apply Z.pow_le_mono_r; [lia|]. len.
Qed.

Lemma bytes_le_signed w sw vs :
  0 < sw → sw = 8 * Z.of_nat w → bytes_le w (wrap_s sw <$> vs) = bytes_le w vs.
Proof.
  intros Hw ->. unfold bytes_le. f_equal. rewrite <- list_fmap_compose.
  apply list_fmap_ext. intros ? v _. simpl. apply le_bytes_mod.
  replace (256 ^ Z.of_nat w) with (2 ^ (8 * Z.of_nat w))
    by (rewrite Z.pow_mul_r by lia; done).
  apply (wrap_u_s (8 * Z.of_nat w) v Hw).
Qed.

(** A whole number of int64 values survives the round trip through the views. *)
Lemma Int64Slice_roundtrip b :
  bytes_ok b → (length b mod 8 = 0)%nat → Int64Slice2byte (Bytes2Int64Slice b) = b.
Proof.
  intros Hb Hl. unfold Int64Slice2byte, Bytes2Int64Slice.
  rewrite bytes_le_signed by done. apply bytes_le_words; [|done].
  pose proof (Nat.div_mod_eq (length b) 8). lia.
Qed.

Lemma Uint64Slice_roundtrip b :
  bytes_ok b → (length b mod 8 = 0)%nat → Uint64Slice2byte (Bytes2Uint64Slice b) = b.
Proof.
  intros Hb Hl. apply bytes_le_words; [|done].
  pose proof (Nat.div_mod_eq (length b) 8). lia.
Qed.

Lemma length_Bytes2Int64Slice b : length (Bytes2Int64Slice b) = (length b / 8)%nat.
Proof. unfold Bytes2Int64Slice. len. Qed.
Lemma length_Bytes2Uint64Slice b : length (Bytes2Uint64Slice b) = (length b / 8)%nat.
Proof. unfold Bytes2Uint64Slice. len. Qed.
#[export] Hint Rewrite length_Bytes2Int64Slice length_Bytes2Uint64Slice : gemini_len.

Lemma Bytes2Int64Slice_range b : Forall (in_s 64) (Bytes2Int64Slice b).
Proof.
  unfold Bytes2Int64Slice. apply Forall_fmap, Forall_true.
  intros x. by apply wrap_s_range.
Qed.

Lemma Bytes2Uint64Slice_range b : bytes_ok b → Forall (in_u 64) (Bytes2Uint64Slice b).
Proof. intros. by apply (words_le_range 8). Qed.

(** ** Slices of bytes: every byte of the backing array is one *)

Definition slice_ok (s : slice) : Prop := bytes_ok (sback s).

#[export] Instance slice_ok_dec s : Decision (slice_ok s).
Proof. unfold slice_ok. apply _. Defined.

Lemma zeros_ok n : bytes_ok (zeros n).
Proof. apply Forall_replicate. by_compute. Qed.
#[export] Hint Resolve zeros_ok : gemini.

Lemma slice_ok_data s : slice_ok s → bytes_ok (sdata s).
Proof. intros [? _]%bytes_ok_app. done. Qed.
#[export] Hint Resolve slice_ok_data : gemini.

Lemma slice_ok_append `{GoRuntime} s xs : slice_ok s → bytes_ok xs → slice_ok (append s xs).
Proof.
  intros [Hd Hs]%bytes_ok_app Hx. unfold append, slice_ok, sback. case_match; cbn [sdata sspare];
    repeat (apply bytes_ok_app; split); auto with gemini. apply zeros_ok.
Qed.

Lemma slice_ok_reslice_to s n s' : reslice_to s n = Ok s' → slice_ok s → slice_ok s'.
Proof.
  unfold reslice_to. case_match; [|done]. intros [= <-] Hs. unfold slice_ok, sback at 1. cbn [sdata sspare].
  by rewrite take_drop.
Qed.

Lemma slice_ok_reslice s a b s' : reslice s a b = Ok s' → slice_ok s → slice_ok s'.
Proof.
  unfold reslice. case_match; [|done]. intros [= <-] Hs. unfold slice_ok, sback at 1. cbn [sdata sspare].
  apply bytes_ok_app. split; auto with gemini.
Qed.
#[export] Hint Resolve slice_ok_append slice_ok_reslice_to slice_ok_reslice : gemini.
