(* ===== verification/NumberEnc.v ===== *)
(** * lib/numberenc: fixed-width big-endian and zig-zag number encodings

    Definitions follow lib/numberenc/number.go function by function; [dst] is a
    slice with its capacity.  The uvarint functions of Go's encoding/binary,
    which the integer and time coders call, are modelled at the end. *)

From S2P Require Import Prelude GoSlice.

(** ** Bytes of a number, most significant first *)

Definition put_u16 (u : Z) : list Z := [u8 (u ≫ 8); u8 u].
Definition put_u32 (u : Z) : list Z := [u8 (u ≫ 24); u8 (u ≫ 16); u8 (u ≫ 8); u8 u].
Definition put_u64 (u : Z) : list Z :=
  [u8 (u ≫ 56); u8 (u ≫ 48); u8 (u ≫ 40); u8 (u ≫ 32);
   u8 (u ≫ 24); u8 (u ≫ 16); u8 (u ≫ 8); u8 u].

(** binary.BigEndian.UintN: panics on a short slice. *)
Definition get_be (n : nat) (src : list Z) : res Z :=
  if (n <=? length src)%nat then Ok (be_val (take n src)) else Panic.

(** Zig-zag: int64 to uint64 and back, on the wrapped representation. *)
Definition zigzag64 (v : Z) : Z := u64 (Z.lxor (i64 (v ≪ 1)) (v ≫ 63)).
Definition unzigzag64 (u : Z) : Z := i64 (Z.lxor (u ≫ 1) (i64 (u ≪ 63) ≫ 63)).

Section Append.
Context `{GoRuntime}.

(** A float64 is its 64-bit representation. *)
Definition MarshalFloat64 (dst : slice) (f : Z) : slice := append dst (put_u64 f).
Definition UnmarshalFloat64 (src : list Z) : res Z := get_be 8 src.

Definition MarshalBool (dst : slice) (b : bool) : slice :=
  if b then append dst [u8 1] else append dst [u8 0].
Definition UnmarshalBool (b : Z) : bool := b =? 1.

Definition MarshalUint16Append (dst : slice) (u : Z) : slice := append dst (put_u16 u).
Definition UnmarshalUint16 (src : list Z) : res Z := get_be 2 src.

Definition MarshalUint32Append (dst : slice) (u : Z) : slice := append dst (put_u32 u).

(** [MarshalUint32Copy(dst[i:], u)]: overwrites four bytes in place. *)
Definition MarshalUint32Copy (dst : slice) (i : nat) (u : Z) : res slice :=
  if (i + 4 <=? slen dst)%nat
  then Ok (mk_slice (overwrite (sdata dst) i (put_u32 u)) (sspare dst))
  else Panic.
Definition UnmarshalUint32 (src : list Z) : res Z := get_be 4 src.

Definition MarshalUint64Append (dst : slice) (u : Z) : slice := append dst (put_u64 u).
Definition UnmarshalUint64 (src : list Z) : res Z := get_be 8 src.

Definition MarshalInt64Append (dst : slice) (v : Z) : slice :=
  append dst (put_u64 (zigzag64 v)).
Definition UnmarshalInt64 (src : list Z) : res Z :=
  let! u := get_be 8 src in Ok (unzigzag64 u).

(** The reservation prologue shared by the *SliceAppend functions. *)
Definition reserve_append (dst : slice) (usLen : nat) : res slice :=
  let preLen := slen dst in
  if (scap dst =? 0)%nat then Ok (mk_slice [] (zeros usLen))
  else if (scap dst - preLen <? usLen)%nat then
    reslice_to (append dst (zeros usLen)) preLen
  else Ok dst.

Definition MarshalUint64SliceAppend (dst : slice) (us : list Z) : res slice :=
  let! dst := reserve_append dst (length us * 8) in
  Ok (fold_left MarshalUint64Append us dst).

Definition MarshalInt64SliceAppend (dst : slice) (us : list Z) : res slice :=
  let! dst := reserve_append dst (length us * 8) in
  Ok (fold_left MarshalInt64Append us dst).

Definition MarshalUint32SliceAppend (dst : slice) (us : list Z) : res slice :=
  let! dst := reserve_append dst (length us * 4) in
  Ok (fold_left MarshalUint32Append us dst).

(** [for i := 0; i < n; i++ { a[i] = f(src[i*w:]) }] *)
Fixpoint unmarshal_each (w n : nat) (f : list Z → res Z) (src : list Z) : res (list Z) :=
  match n with
  | O => Ok []
  | S n =>
      let! v := f src in
      let! src := from src w in
      let! vs := unmarshal_each w n f src in
      Ok (v :: vs)
  end.

Definition UnmarshalInt64Slice2Bytes (src : list Z) (dst : slice) : res slice :=
  let dst := if (scap dst - slen dst <? length src)%nat
             then append (mk_slice [] (zeros (length src + slen dst))) (sdata dst)
             else dst in
  let pos := slen dst in
  let! out := reslice_to dst (pos + length src) in
  let! vs := unmarshal_each 8 (length src / 8) UnmarshalInt64 src in
  Ok (mk_slice (overwrite (sdata out) pos (Int64Slice2byte vs)) (sspare out)).

Definition UnmarshalUint32Slice (src : list Z) : res (list Z) :=
  unmarshal_each 4 (length src / 4) UnmarshalUint32 src.
End Append.

(** ** encoding/binary: unsigned varints *)

Fixpoint put_uvarint_loop (fuel : nat) (x : Z) : list Z :=
  match fuel with
  | O => []
  | S fuel => if x <? 128 then [u8 x]
              else Z.lor (u8 x) 128 :: put_uvarint_loop fuel (x ≫ 7)
  end.

(** A uint64 takes at most ten bytes. *)
Definition PutUvarint (x : Z) : list Z := put_uvarint_loop 10 x.

(** Returns the value and the number of bytes read; a count [<= 0] is an error. *)
Fixpoint uvarint_loop (buf : list Z) (i s x : Z) : Z * Z :=
  match buf with
  | [] => (0, 0)
  | b :: buf =>
      if i =? 10 then (0, - (i + 1))
      else if b <? 128 then
        if (i =? 9) && (1 <? b) then (0, - (i + 1))
        else (Z.lor x (u64 (b ≪ s)), i + 1)
      else uvarint_loop buf (i + 1) (s + 7) (Z.lor x (u64 (Z.land b 127 ≪ s)))
  end.

Definition Uvarint (buf : list Z) : Z * Z := uvarint_loop buf 0 0 0.

(** ** Lemmas *)

Lemma u8_shift u k : 0 ≤ k → u8 (u ≫ (8 * k)) = (u / 256 ^ k) mod 256.
Proof.
  intros. unfold wrap_u. rewrite Z.shiftr_div_pow2 by lia.
  by rewrite Z.pow_mul_r by lia.
Qed.

Lemma le_bytes_S n z : le_bytes (S n) z = z mod 256 :: le_bytes n (z / 256).
Proof. done. Qed.

Lemma put_u32_be u : put_u32 u = be_bytes 4 u.
Proof.
  unfold put_u32, be_bytes. cbn [le_bytes reverse rev_append]. unfold reverse. cbn [rev_append].
  change 24 with (8 * 3). change 16 with (8 * 2). change (u ≫ 8) with (u ≫ (8 * 1)).
  rewrite !u8_shift by lia. rewrite !Z.div_div by lia. done.
Qed.

Lemma put_u16_be u : put_u16 u = be_bytes 2 u.
Proof.
  unfold put_u16, be_bytes, reverse. cbn [le_bytes rev_append].
  change (u ≫ 8) with (u ≫ (8 * 1)). rewrite !u8_shift by lia. done.
Qed.

Lemma put_u64_be u : put_u64 u = be_bytes 8 u.
Proof.
  unfold put_u64, be_bytes, reverse. cbn [le_bytes rev_append].
  change 56 with (8 * 7). change 48 with (8 * 6). change 40 with (8 * 5).
  change 32 with (8 * 4). change 24 with (8 * 3). change 16 with (8 * 2).
  change (u ≫ 8) with (u ≫ (8 * 1)).
  rewrite !u8_shift by lia. rewrite !Z.div_div by lia. done.
Qed.

Lemma length_put_u16 u : length (put_u16 u) = 2%nat. Proof. done. Qed.
Lemma length_put_u32 u : length (put_u32 u) = 4%nat. Proof. done. Qed.
Lemma length_put_u64 u : length (put_u64 u) = 8%nat. Proof. done. Qed.
#[export] Hint Rewrite length_put_u16 length_put_u32 length_put_u64 : gemini_len.

Lemma put_u32_ok u : bytes_ok (put_u32 u).
Proof. rewrite put_u32_be. auto with gemini. Qed.
Lemma put_u64_ok u : bytes_ok (put_u64 u).
Proof. rewrite put_u64_be. auto with gemini. Qed.
#[export] Hint Resolve put_u32_ok put_u64_ok : gemini.

(** Reading back a number written by [put_u16]/[put_u32]/[put_u64], with
    anything after it. *)
Lemma get_put_u16 u rest : in_u 16 u → get_be 2 (put_u16 u ++ rest) = Ok u.
Proof.
  intros Hu. unfold get_be. rewrite length_app, length_put_u16. simpl Nat.leb. cbv iota.
  rewrite take_app_length' by done. rewrite put_u16_be, be_val_bytes.
  f_equal. by apply Z.mod_small.
Qed.

Lemma get_put_u32 u rest : in_u 32 u → get_be 4 (put_u32 u ++ rest) = Ok u.
Proof.
  intros Hu. unfold get_be. rewrite length_app, length_put_u32. simpl Nat.leb. cbv iota.
  rewrite take_app_length' by done. rewrite put_u32_be, be_val_bytes.
  f_equal. by apply Z.mod_small.
Qed.

Lemma get_put_u64 u rest : in_u 64 u → get_be 8 (put_u64 u ++ rest) = Ok u.
Proof.
  intros Hu. unfold get_be. rewrite length_app, length_put_u64. simpl Nat.leb. cbv iota.
  rewrite take_app_length' by done. rewrite put_u64_be, be_val_bytes.
  f_equal. by apply Z.mod_small.
Qed.

(** ** Zig-zag *)

(** [v >> (w-1)] on a [w]-bit signed integer is its sign, 0 or -1. *)
Lemma sign_shift w v : 0 < w → in_s w v → v ≫ (w - 1) = if v <? 0 then -1 else 0.
Proof.
  intros Hw Hv. unfold in_s in Hv. rewrite Z.shiftr_div_pow2 by lia.
  assert (0 < 2 ^ (w - 1)) by (apply Z.pow_pos_nonneg; lia).
  bcase.
  - symmetry. apply (Z.div_unique _ _ _ (v + 2 ^ (w - 1))); lia.
  - by apply Z.div_small; lia.
Qed.

Lemma sign_shift64 v : in_s 64 v → v ≫ 63 = if v <? 0 then -1 else 0.
Proof. intros. change 63 with (64 - 1). by apply sign_shift. Qed.

Lemma lxor_m1 a : Z.lxor a (-1) = - a - 1.
Proof. rewrite Z.lxor_m1_r. unfold Z.lnot. lia. Qed.

(** The value of the zig-zag code: the sign becomes the lowest bit. *)
Lemma zigzag64_val v : in_s 64 v → zigzag64 v = if v <? 0 then - 2 * v - 1 else 2 * v.
Proof.
  intros Hv. unfold zigzag64. rewrite sign_shift64 by done.
  rewrite Z.shiftl_mul_pow2 by lia. change (v * 2 ^ 1) with (v * 2).
  unfold in_s in Hv. unfold wrap_u, wrap_s. bcase.
  - rewrite lxor_m1. change (64 - 1) with 63. zdm.
  - rewrite Z.lxor_0_r. change (64 - 1) with 63. zdm.
Qed.

Lemma zigzag64_range v : in_u 64 (zigzag64 v).
Proof. apply wrap_u_range. lia. Qed.

Lemma unzigzag64_val u :
  in_u 64 u → unzigzag64 u = if Z.odd u then - (u / 2) - 1 else u / 2.
Proof.
  intros Hu. unfold unzigzag64. rewrite (Z.shiftr_div_pow2 u) by lia.
  change (u / 2 ^ 1) with (u / 2).
  assert (Hs : i64 (u ≪ 63) ≫ 63 = if Z.odd u then -1 else 0).
  { rewrite sign_shift64 by by apply wrap_s_range.
    rewrite Z.shiftl_mul_pow2 by lia.
    pose proof (Z.div2_odd u) as Ho. unfold wrap_s. change (64 - 1) with 63.
    replace ((u * 2 ^ 63 + 2 ^ 63) mod 2 ^ 64)
      with ((if Z.odd u then 2 else 1) * 2 ^ 63 mod 2 ^ 64).
    - by destruct (Z.odd u).
    - rewrite Ho at 2. destruct (Z.odd u); simpl Z.b2z; zdm. }
  rewrite Hs. unfold in_u in Hu. destruct (Z.odd u).
  - rewrite lxor_m1. apply wrap_s_id; [done|]. unfold in_s. change (64 - 1) with 63. zdm.
  - rewrite Z.lxor_0_r. apply wrap_s_id; [done|]. unfold in_s. change (64 - 1) with 63. zdm.
Qed.

Lemma zigzag64_odd v : in_s 64 v → Z.odd (zigzag64 v) = (v <? 0).
Proof.
  intros Hv. rewrite zigzag64_val by done. bcase.
  - replace (-2 * v - 1) with (1 + 2 * (- v - 1)) by lia. by rewrite Z.odd_add_mul_2.
  - replace (2 * v) with (0 + 2 * v) by lia. by rewrite Z.odd_add_mul_2.
Qed.

Lemma unzigzag64_zigzag64 v : in_s 64 v → unzigzag64 (zigzag64 v) = v.
Proof.
  intros Hv. rewrite unzigzag64_val by apply zigzag64_range.
  rewrite zigzag64_odd, zigzag64_val by done. bcase; zdm.
Qed.

(** ** Varints *)

Lemma lor_low_high x k : 0 ≤ k → Z.lor (x mod 2 ^ k) ((x ≫ k) ≪ k) = x.
Proof.
  intros Hk. apply Z.bits_inj'. intros i Hi.
  rewrite Z.lor_spec, Z.shiftl_spec by lia.
  destruct (decide (i < k)).
  - rewrite Z.mod_pow2_bits_low, (Z.testbit_neg_r _ (i - k)) by lia. apply orb_false_r.
  - rewrite Z.mod_pow2_bits_high, Z.shiftr_spec by lia.
    simpl. f_equal. lia.
Qed.

Lemma low7 x : 0 ≤ x → Z.land (Z.lor (u8 x) 128) 127 = x mod 128.
Proof.
  intros Hx. unfold wrap_u. change 127 with (Z.ones 7) at 1. rewrite Z.land_ones by lia.
  apply Z.bits_inj'. intros i Hi. change 128 with (2 ^ 7).
  destruct (decide (i < 7)).
  - rewrite !Z.mod_pow2_bits_low by lia. rewrite Z.lor_spec, Z.mod_pow2_bits_low by lia.
    rewrite Z.pow2_bits_false by lia. apply orb_false_r.
  - by rewrite !Z.mod_pow2_bits_high by lia.
Qed.

Lemma lor_ge_r a b : 0 ≤ a → b ≤ Z.lor a b.
Proof.
  intros Ha. replace (Z.lor a b) with (Z.lor (Z.ldiff a b) b).
  - rewrite <- Z.add_nocarry_lor.
    + assert (0 ≤ Z.ldiff a b) by (apply Z.ldiff_nonneg; lia). lia.
    + apply Z.bits_inj'. intros i Hi. rewrite Z.land_spec, Z.ldiff_spec, Z.bits_0.
      by destruct (Z.testbit a i), (Z.testbit b i).
  - apply Z.bits_inj'. intros i Hi. rewrite !Z.lor_spec, Z.ldiff_spec.
    by destruct (Z.testbit a i), (Z.testbit b i).
Qed.

Lemma lor128_ge x : 128 ≤ Z.lor (u8 x) 128.
Proof. apply lor_ge_r. apply (wrap_u_range 8 x). lia. Qed.

Lemma uvarint_loop_put fuel : ∀ x i acc rest,
  0 ≤ i ≤ 9 → 10 - i ≤ Z.of_nat fuel → 0 ≤ x < 2 ^ (64 - 7 * i) →
  uvarint_loop (put_uvarint_loop fuel x ++ rest) i (7 * i) acc =
  (Z.lor acc (x ≪ (7 * i)), i + Z.of_nat (length (put_uvarint_loop fuel x))).
Proof.
  induction fuel as [|fuel IH]; intros x i acc rest Hi Hf Hx; [lia|].
  assert (Hsh : ∀ y, 0 ≤ y ≤ x → u64 (y ≪ (7 * i)) = y ≪ (7 * i)).
  { intros y Hy. apply wrap_u_id. unfold in_u. rewrite Z.shiftl_mul_pow2 by lia.
    replace 64 with ((64 - 7 * i) + 7 * i) by lia. rewrite Z.pow_add_r by lia.
    assert (0 < 2 ^ (7 * i)) by (apply Z.pow_pos_nonneg; lia). nia. }
  cbn [put_uvarint_loop]. destruct (Z.ltb_spec x 128) as [Hlt|Hge].
  - cbn [uvarint_loop app length]. rewrite wrap_u_id by (unfold in_u; lia).
    rewrite (proj2 (Z.ltb_lt x 128) Hlt), (proj2 (Z.eqb_neq i 10)) by lia.
    rewrite Hsh by lia.
    destruct (Z.eqb_spec i 9) as [->|]; [|done].
    change (2 ^ (64 - 7 * 9)) with 2 in Hx. by rewrite (proj2 (Z.ltb_ge 1 x)) by lia.
  - assert (i ≠ 9). { intros ->. change (2 ^ (64 - 7 * 9)) with 2 in Hx. lia. }
    cbn [uvarint_loop app]. rewrite (proj2 (Z.eqb_neq i 10)) by lia.
    rewrite (proj2 (Z.ltb_ge _ 128) (lor128_ge x)), low7 by lia.
    pose proof (Z.mod_pos_bound x 128). rewrite Hsh by zdm.
    replace (7 * i + 7) with (7 * (i + 1)) by lia.
    rewrite IH; [|lia|lia|].
    + f_equal.
      * rewrite <- Z.lor_assoc. f_equal.
        replace (7 * (i + 1)) with (7 + 7 * i) by lia.
        rewrite <- Z.shiftl_shiftl, <- Z.shiftl_lor by lia. f_equal.
        by apply (lor_low_high x 7).
      * cbn [length]. lia.
    + rewrite Z.shiftr_div_pow2 by lia.
      replace (64 - 7 * i) with (7 + (64 - 7 * (i + 1))) in Hx by lia.
      rewrite Z.pow_add_r in Hx by lia.
      split; [apply Z.div_pos; lia|]. apply Z.div_lt_upper_bound; lia.
Qed.

(** A uvarint is read back with its length, whatever follows it. *)
Lemma Uvarint_PutUvarint x rest :
  in_u 64 x →
  Uvarint (PutUvarint x ++ rest) = (x, Z.of_nat (length (PutUvarint x))).
Proof.
  intros Hx. unfold Uvarint, PutUvarint. change 0 with (7 * 0) at 2.
  rewrite uvarint_loop_put; [|lia|lia|by replace (64 - 7 * 0) with 64 by lia].
  rewrite Z.lor_0_l, Z.shiftl_0_r. done.
Qed.

Lemma put_uvarint_loop_nonempty fuel x : (0 < length (put_uvarint_loop (S fuel) x))%nat.
Proof. cbn [put_uvarint_loop]. case_match; simpl; lia. Qed.

Lemma put_uvarint_nonempty x : (0 < length (PutUvarint x))%nat.
Proof. apply put_uvarint_loop_nonempty. Qed.

(** ** Slices of numbers *)

Section SliceLemmas.
Context `{GoRuntime}.

Lemma sdata_fold_append (f : Z → list Z) us dst :
  sdata (fold_left (λ d u, append d (f u)) us dst) = sdata dst ++ concat (f <$> us).
Proof.
  revert dst. induction us as [|u us IH]; intros; simpl; [by rewrite app_nil_r|].
  rewrite IH, sdata_append, <- app_assoc. done.
Qed.

Lemma reserve_append_spec dst n :
  ∃ s, reserve_append dst n = Ok s ∧ sdata s = sdata dst.
Proof.
  unfold reserve_append. bcase.
  { eexists; split; [done|]. simpl. destruct dst as [[|] ?]; [done|].
    unfold scap in *. simpl in *. lia. }
  bcase; [|by eexists].
  pose proof (scap_append dst (zeros n)). rewrite reslice_to_Ok by lia.
  eexists; split; [done|]. simpl. unfold sback. rewrite sdata_append, <- app_assoc.
  apply take_app_length.
Qed.

Lemma MarshalUint64SliceAppend_spec dst us :
  ∃ s, MarshalUint64SliceAppend dst us = Ok s ∧
       sdata s = sdata dst ++ concat (put_u64 <$> us).
Proof.
  unfold MarshalUint64SliceAppend.
  destruct (reserve_append_spec dst (length us * 8)) as (s & -> & Hs). simpl.
  eexists; split; [done|]. rewrite <- Hs. apply (sdata_fold_append put_u64).
Qed.

Lemma MarshalInt64SliceAppend_spec dst us :
  ∃ s, MarshalInt64SliceAppend dst us = Ok s ∧
       sdata s = sdata dst ++ concat ((λ v, put_u64 (zigzag64 v)) <$> us).
Proof.
  unfold MarshalInt64SliceAppend.
  destruct (reserve_append_spec dst (length us * 8)) as (s & -> & Hs). simpl.
  eexists; split; [done|]. rewrite <- Hs. apply sdata_fold_append.
Qed.

Lemma MarshalUint32SliceAppend_spec dst us :
  ∃ s, MarshalUint32SliceAppend dst us = Ok s ∧
       sdata s = sdata dst ++ concat (put_u32 <$> us).
Proof.
  unfold MarshalUint32SliceAppend.
  destruct (reserve_append_spec dst (length us * 4)) as (s & -> & Hs). simpl.
  eexists; split; [done|]. rewrite <- Hs. apply (sdata_fold_append put_u32).
Qed.

Lemma unmarshal_each_spec w f g us rest :
  (∀ u, length (g u) = w) →
  (∀ u rest, u ∈ us → f (g u ++ rest) = Ok u) →
  unmarshal_each w (length us) f (concat (g <$> us) ++ rest) = Ok us.
Proof.
  intros Hg Hf. induction us as [|u us IH]; [done|].
  cbn [length unmarshal_each]. rewrite fmap_cons. cbn [concat]. rewrite <- app_assoc.
  rewrite Hf by left. simpl. unfold from. rewrite length_app, Hg.
  rewrite (proj2 (Nat.leb_le _ _)) by lia. simpl.
  rewrite drop_app_length' by by rewrite Hg.
  rewrite IH; [done|]. intros. apply Hf. by right.
Qed.

Lemma UnmarshalInt64_put v rest :
  in_s 64 v → UnmarshalInt64 (put_u64 (zigzag64 v) ++ rest) = Ok v.
Proof.
  intros. unfold UnmarshalInt64. rewrite get_put_u64 by apply zigzag64_range.
  simpl. by rewrite unzigzag64_zigzag64.
Qed.

Lemma length_concat_put (g : Z → list Z) w us :
  (∀ u, length (g u) = w) → length (concat (g <$> us)) = (w * length us)%nat.
Proof.
  intros Hg. induction us as [|u us IH]; [simpl; lia|].
  rewrite fmap_cons. cbn [concat length]. rewrite length_app, IH, Hg. lia.
Qed.

(** Decoding into [dst] keeps its bytes and appends the decoded words. *)
Lemma UnmarshalInt64Slice2Bytes_spec vs dst :
  Forall (in_s 64) vs →
  ∃ s, UnmarshalInt64Slice2Bytes (concat ((λ v, put_u64 (zigzag64 v)) <$> vs)) dst = Ok s ∧
       sdata s = sdata dst ++ Int64Slice2byte vs.
Proof.
  intros Hvs. unfold UnmarshalInt64Slice2Bytes.
  set (src := concat _).
  assert (Hsrc : length src = (8 * length vs)%nat) by by apply length_concat_put.
  match goal with |- context [if ?b then ?x else dst] => set (d := if b then x else dst) end.
  assert (Hd : sdata d = sdata dst) by (unfold d; case_match; by rewrite ?sdata_append).
  assert (Hc : (slen d + length src <= scap d)%nat).
  { unfold d. bcase.
    - unfold append. simpl. unfold zeros. rewrite length_replicate. fold (slen dst).
      bcase. unfold slen, scap. simpl. len.
    - unfold scap, slen in *. lia. }
  rewrite reslice_to_Ok by lia. rs.
  replace (length src / 8)%nat with (length vs)
    by (rewrite Hsrc, Nat.mul_comm; symmetry; by apply Nat.div_mul).
  assert (Hun : unmarshal_each 8 (length vs) UnmarshalInt64 src = Ok vs).
  { rewrite <- (app_nil_r src). apply unmarshal_each_spec; [done|].
    intros u rest Hu. apply UnmarshalInt64_put. revert Hu. by apply Forall_forall. }
  rewrite Hun. simpl. eexists; split; [done|]. simpl. unfold overwrite.
  unfold Int64Slice2byte. rewrite length_bytes_le, <- Hsrc.
  rewrite take_take, Nat.min_l by lia.
  rewrite take_sback, take_ge by (unfold slen; lia).
  rewrite (drop_ge (take _ _)), app_nil_r by len. by rewrite Hd.
Qed.
End SliceLemmas.
