(* ===== verification/Simple8b.v ===== *)
(** * lib/util/lifted/encoding/simple8b: packing integers into 64-bit words

    A word holds a 4-bit selector and up to 60 bits of payload.  The 14
    unrolled [packN]/[unpackN] bodies of the source are the same expression at
    different widths, so they are instances of [pack_word] and [unpack_word];
    the cascades of [Encode] and [EncodeAll] are written out.  [EncodeAll]
    works in place: its result is the array it was given, overwritten from the
    front while the rest is still being read. *)

From S2P Require Import Prelude GoSlice NumberEnc.

Definition MaxValue : Z := (1 ≪ 60) - 1.

(** ** Packing and unpacking one word *)

(** [sel<<60 | src[0] | src[1]<<bits | src[2]<<(2*bits) | ...] *)
Definition pack_word (sel bits : Z) (src : list Z) : Z :=
  foldl Z.lor (u64 (sel ≪ 60)) (imap (λ i x, u64 (x ≪ (Z.of_nat i * bits))) src).

(** [dst[i] = (v >> (i*bits)) & (1<<bits - 1)] for [i < n]; the rest of the
    240-entry array is left alone. *)
Definition unpack_word (n : nat) (bits v : Z) (dst : list Z) : list Z :=
  ((λ i, Z.land (v ≫ (Z.of_nat i * bits)) (2 ^ bits - 1)) <$> seq 0 n) ++ drop n dst.

Definition pack240 (src : list Z) : Z := 0.
Definition pack120 (src : list Z) : Z := 0.
Definition pack60 (src : list Z) : Z := pack_word 2 1 (take 60 src).
Definition pack30 (src : list Z) : Z := pack_word 3 2 (take 30 src).
Definition pack20 (src : list Z) : Z := pack_word 4 3 (take 20 src).
Definition pack15 (src : list Z) : Z := pack_word 5 4 (take 15 src).
Definition pack12 (src : list Z) : Z := pack_word 6 5 (take 12 src).
Definition pack10 (src : list Z) : Z := pack_word 7 6 (take 10 src).
Definition pack8 (src : list Z) : Z := pack_word 8 7 (take 8 src).
Definition pack7 (src : list Z) : Z := pack_word 9 8 (take 7 src).
Definition pack6 (src : list Z) : Z := pack_word 10 10 (take 6 src).
Definition pack5 (src : list Z) : Z := pack_word 11 12 (take 5 src).
Definition pack4 (src : list Z) : Z := pack_word 12 15 (take 4 src).
Definition pack3 (src : list Z) : Z := pack_word 13 20 (take 3 src).
Definition pack2 (src : list Z) : Z := pack_word 14 30 (take 2 src).
Definition pack1 (src : list Z) : Z := pack_word 15 60 (take 1 src).

Definition unpack240 (v : Z) (dst : list Z) : list Z := replicate (length dst) 1.
Definition unpack120 (v : Z) (dst : list Z) : list Z := replicate (length dst) 1.
Definition unpack60 : Z → list Z → list Z := unpack_word 60 1.
Definition unpack30 : Z → list Z → list Z := unpack_word 30 2.
Definition unpack20 : Z → list Z → list Z := unpack_word 20 3.
Definition unpack15 : Z → list Z → list Z := unpack_word 15 4.
Definition unpack12 : Z → list Z → list Z := unpack_word 12 5.
Definition unpack10 : Z → list Z → list Z := unpack_word 10 6.
Definition unpack8 : Z → list Z → list Z := unpack_word 8 7.
Definition unpack7 : Z → list Z → list Z := unpack_word 7 8.
Definition unpack6 : Z → list Z → list Z := unpack_word 6 10.
Definition unpack5 : Z → list Z → list Z := unpack_word 5 12.
Definition unpack4 : Z → list Z → list Z := unpack_word 4 15.
Definition unpack3 : Z → list Z → list Z := unpack_word 3 20.
Definition unpack2 : Z → list Z → list Z := unpack_word 2 30.
Definition unpack1 : Z → list Z → list Z := unpack_word 1 60.

Record packing := mk_packing {
  p_n : nat;
  p_bit : nat;
  p_unpack : Z → list Z → list Z;
  p_pack : list Z → Z;
}.

Definition selector : list packing :=
  [ mk_packing 240 0 unpack240 pack240;
    mk_packing 120 0 unpack120 pack120;
    mk_packing 60 1 unpack60 pack60;
    mk_packing 30 2 unpack30 pack30;
    mk_packing 20 3 unpack20 pack20;
    mk_packing 15 4 unpack15 pack15;
    mk_packing 12 5 unpack12 pack12;
    mk_packing 10 6 unpack10 pack10;
    mk_packing 8 7 unpack8 pack8;
    mk_packing 7 8 unpack7 pack7;
    mk_packing 6 10 unpack6 pack6;
    mk_packing 5 12 unpack5 pack5;
    mk_packing 4 15 unpack4 pack4;
    mk_packing 3 20 unpack3 pack3;
    mk_packing 2 30 unpack2 pack2;
    mk_packing 1 60 unpack1 pack1 ].

(** [sel := v >> 60], with the error of an index past the table. *)
Definition select (v : Z) : res packing :=
  let sel := v ≫ 60 in
  if 16 <=? sel then Err "invalid selector value"
  else match selector !! Z.to_nat sel with Some p => Ok p | None => Panic end.

(** ** Encoding *)

Definition canPack (src : list Z) (n bits : nat) : bool :=
  if (length src <? n)%nat then false
  else
    let en := if (n <? length src)%nat then n else length src in
    if (bits =? 0)%nat then forallb (λ v, v =? 1) src
    else
      let max := u64 ((1 ≪ Z.of_nat bits) - 1) in
      forallb (λ v, negb (max <? v)) (take en src).

(** Packs as many values as one word takes: the word and their number. *)
Definition Encode (src : list Z) : res (Z * nat) :=
  if canPack src 240 0 then Ok (0, 240%nat)
  else if canPack src 120 0 then Ok (1 ≪ 60, 120%nat)
  else if canPack src 60 1 then Ok (pack60 (take 60 src), 60%nat)
  else if canPack src 30 2 then Ok (pack30 (take 30 src), 30%nat)
  else if canPack src 20 3 then Ok (pack20 (take 20 src), 20%nat)
  else if canPack src 15 4 then Ok (pack15 (take 15 src), 15%nat)
  else if canPack src 12 5 then Ok (pack12 (take 12 src), 12%nat)
  else if canPack src 10 6 then Ok (pack10 (take 10 src), 10%nat)
  else if canPack src 8 7 then Ok (pack8 (take 8 src), 8%nat)
  else if canPack src 7 8 then Ok (pack7 (take 7 src), 7%nat)
  else if canPack src 6 10 then Ok (pack6 (take 6 src), 6%nat)
  else if canPack src 5 12 then Ok (pack5 (take 5 src), 5%nat)
  else if canPack src 4 15 then Ok (pack4 (take 4 src), 4%nat)
  else if canPack src 3 20 then Ok (pack3 (take 3 src), 3%nat)
  else if canPack src 2 30 then Ok (pack2 (take 2 src), 2%nat)
  else if canPack src 1 60 then Ok (pack1 (take 1 src), 1%nat)
  else if (0 <? length src)%nat then Err "value out of bounds"
  else Ok (0, 0%nat).

(** One turn of the loop of [EncodeAll]: the value stored at [dst[j]] and the
    advance of [i]; [None] is the error return. *)
Definition EncodeAll_step (src : list Z) (i : nat) : option (Z * nat) :=
  let remaining := drop i src in
  let sub n := take n (drop i src) in
  if canPack remaining 240 0 then Some (0, 240%nat)
  else if canPack remaining 120 0 then Some (1 ≪ 60, 120%nat)
  else if canPack remaining 60 1 then Some (pack60 (sub 60%nat), 60%nat)
  else if canPack remaining 30 2 then Some (pack30 (sub 30%nat), 30%nat)
  else if canPack remaining 20 3 then Some (pack20 (sub 20%nat), 20%nat)
  else if canPack remaining 15 4 then Some (pack15 (sub 15%nat), 15%nat)
  else if canPack remaining 12 5 then Some (pack12 (sub 12%nat), 12%nat)
  else if canPack remaining 10 6 then Some (pack10 (sub 10%nat), 10%nat)
  else if canPack remaining 8 7 then Some (pack8 (sub 8%nat), 8%nat)
  else if canPack remaining 7 8 then Some (pack7 (sub 7%nat), 7%nat)
  else if canPack remaining 6 10 then Some (pack6 (sub 6%nat), 6%nat)
  else if canPack remaining 5 12 then Some (pack5 (sub 5%nat), 5%nat)
  else if canPack remaining 4 15 then Some (pack4 (sub 4%nat), 4%nat)
  else if canPack remaining 3 20 then Some (pack3 (sub 3%nat), 3%nat)
  else if canPack remaining 2 30 then Some (pack2 (sub 2%nat), 2%nat)
  else if canPack remaining 1 60 then Some (pack1 (sub 1%nat), 1%nat)
  else None.

(** The loop over the shared array [arr] ([src] and [dst] alias it). *)
Fixpoint EncodeAll_loop (fuel : nat) (arr : list Z) (i j : nat) : res (list Z * nat) :=
  if (length arr <=? i)%nat then Ok (arr, j)
  else match fuel with
       | O => Diverge
       | S fuel =>
           match EncodeAll_step arr i with
           | Some (w, n) => EncodeAll_loop fuel (<[j := w]> arr) (i + n) (S j)
           | None => Err "value out of bounds"
           end
       end.

(** The overwritten array and the number of words at its front. *)
Definition EncodeAll (src : list Z) : res (list Z * nat) :=
  EncodeAll_loop (length src) src 0 0.

(** ** Decoding *)

(** Unpacks [v] into the 240-entry array [dst]; returns it and the count. *)
Definition Decode (dst : list Z) (v : Z) : res (list Z * nat) :=
  let! p := select v in Ok (p_unpack p v dst, p_n p).

(** [DecodeAll] unpacks each word through a pointer to [dst[j]] taken as a
    240-entry array.  Writes past the end of [dst] are memory corruption in Go
    and [Panic] here; [unpack240] and [unpack120] store all 240 entries. *)
Definition unpack_extent (p : packing) : nat :=
  if (p_bit p =? 0)%nat then 240%nat else p_n p.

Fixpoint DecodeAll_loop (dst src : list Z) (j : nat) : res (list Z * nat) :=
  match src with
  | [] => Ok (dst, j)
  | v :: src =>
      let! p := select v in
      if (j + unpack_extent p <=? length dst)%nat then
        let window := take 240 (drop j dst) in
        let dst := overwrite dst j (take (unpack_extent p) (p_unpack p v window)) in
        DecodeAll_loop dst src (j + p_n p)
      else Panic
  end.

Definition DecodeAll (dst src : list Z) : res (list Z * nat) := DecodeAll_loop dst src 0.

(** ** Counting and iterating over encoded bytes *)

Definition Count (v : Z) : res nat := let! p := select v in Ok (p_n p).

(** [for len(b) >= 8 { v := BigEndian.Uint64(b[:8]); b = b[8:]; ... }]; the fuel
    is the number of whole words. *)
Fixpoint fold_words {A} (fuel : nat) (f : A → Z → res (A * bool)) (b : list Z) (a : A)
    : res (A * list Z) :=
  match fuel with
  | O => Ok (a, b)
  | S fuel =>
      if (8 <=? length b)%nat then
        let! (a, go) := f a (be_val (take 8 b)) in
        if (go : bool) then fold_words fuel f (drop 8 b) a else Ok (a, drop 8 b)
      else Ok (a, b)
  end.

Definition CountBytes (b : list Z) : res nat :=
  let! (count, b) :=
    fold_words (length b / 8) (λ c v, let! n := Count v in Ok ((c + n)%nat, true)) b 0%nat in
  if (0 <? length b)%nat then Err "invalid slice len remaining" else Ok count.

(** The inner loop of [ForEach]: [n] values of [bits] bits, from the low end,
    until the callback says stop.  The callback's calls are recorded. *)
Fixpoint ForEach_word (n : nat) (bits mask v : Z) (fn : Z → bool) (seen : list Z)
    : list Z * bool :=
  match n with
  | O => (seen, true)
  | S n =>
      let val := Z.land v mask in
      if fn val then ForEach_word n bits mask (v ≫ bits) fn (seen ++ [val])
      else (seen ++ [val], false)
  end.

(** [mask := uint64(^(int64(^0) << bits))] *)
Definition sel_mask (p : packing) : Z := u64 (Z.lnot (i64 (-1 ≪ Z.of_nat (p_bit p)))).

(** The list of values the callback was called on. *)
Definition ForEach (b : list Z) (fn : Z → bool) : res (list Z) :=
  let! (seen, _) :=
    fold_words (length b / 8)
      (λ seen v, let! p := select v in
         Ok (ForEach_word (p_n p) (Z.of_nat (p_bit p)) (sel_mask p) v fn seen)) b [] in
  Ok seen.

Fixpoint CountBetween_word (n : nat) (bits mask min max v : Z) (count : nat) : nat :=
  match n with
  | O => count
  | S n =>
      let val := Z.land v mask in
      if (min <=? val) && (val <? max) then
        CountBetween_word n bits mask min max (v ≫ bits) (S count)
      else if max <? val then count
      else CountBetween_word n bits mask min max (v ≫ bits) count
  end.

Definition CountBytesBetween (b : list Z) (min max : Z) : res nat :=
  let! (count, b) :=
    fold_words (length b / 8)
      (λ c v, let! p := select v in
         let maxValue := u64 ((1 ≪ Z.of_nat (p_bit p)) - 1) in
         if maxValue <? min then Ok (c, true)
         else Ok (CountBetween_word (p_n p) (Z.of_nat (p_bit p)) (sel_mask p) min max v c, true))
      b 0%nat in
  if (0 <? length b)%nat then Err "invalid slice len remaining" else Ok count.

(** ** The arithmetic of one word *)

(** The payload of a word as a number in base [2^bits]. *)
Fixpoint packed (bits : Z) (src : list Z) : Z :=
  match src with
  | [] => 0
  | x :: src => x + 2 ^ bits * packed bits src
  end.

Definition digits (bits : Z) (src : list Z) : Prop := Forall (in_u bits) src.

Lemma lor_add_shift x p k : 0 ≤ k → 0 ≤ x < 2 ^ k → Z.lor x (p ≪ k) = x + 2 ^ k * p.
Proof. intros Hk Hx. rewrite Z.lor_comm, lor_shift_add by done. lia. Qed.

Lemma packed_bound bits src :
  0 ≤ bits → digits bits src →
  0 ≤ packed bits src < 2 ^ (bits * Z.of_nat (length src)).
Proof.
  intros Hb. induction 1 as [|x src Hx _ IH]; [simpl; rewrite Z.mul_0_r; simpl; lia|].
  cbn [packed length]. unfold in_u in Hx.
  replace (bits * Z.of_nat (S (length src))) with (bits + bits * Z.of_nat (length src)) by lia.
  rewrite Z.pow_add_r by lia. assert (0 < 2 ^ bits) by (apply Z.pow_pos_nonneg; lia). nia.
Qed.

(** Or-ing the shifted values in is adding the payload. *)
Lemma foldl_lor_packed bits src : ∀ k acc,
  0 < bits → digits bits src → (Z.of_nat (k + length src)) * bits ≤ 64 →
  foldl Z.lor acc (imap (λ i x, u64 (x ≪ (Z.of_nat (k + i) * bits))) src) =
  Z.lor acc (packed bits src ≪ (Z.of_nat k * bits)).
Proof.
  induction src as [|x src IH]; intros k acc Hb Hd Hk.
  - simpl. by rewrite Z.shiftl_0_l, Z.lor_0_r.
  - apply Forall_cons in Hd as [Hx Hd]. unfold in_u in Hx.
    rewrite imap_cons. cbn [foldl packed length] in *. rewrite Nat.add_0_r.
    rewrite (imap_ext _ (λ i x, u64 (x ≪ (Z.of_nat (S k + i) * bits))) src).
    2: { intros i y _. simpl. do 4 f_equal. lia. }
    rewrite IH by (done || lia). rewrite <- Z.lor_assoc. f_equal.
    rewrite wrap_u_id.
    + replace (Z.of_nat (S k) * bits) with (bits + Z.of_nat k * bits) by lia.
      rewrite <- Z.shiftl_shiftl, <- Z.shiftl_lor by lia. f_equal.
      apply lor_add_shift; lia.
    + unfold in_u. rewrite Z.shiftl_mul_pow2 by lia.
      assert (x * 2 ^ (Z.of_nat k * bits) < 2 ^ bits * 2 ^ (Z.of_nat k * bits)).
      { apply Z.mul_lt_mono_pos_r; [apply Z.pow_pos_nonneg; lia|lia]. }
      rewrite <- Z.pow_add_r in H by lia.
      pose proof (Z.pow_le_mono_r 2 (bits + Z.of_nat k * bits) 64).
      assert (0 < 2 ^ (Z.of_nat k * bits)) by (apply Z.pow_pos_nonneg; lia). nia.
Qed.

Lemma pack_word_val sel bits src :
  0 ≤ sel < 16 → 0 < bits → digits bits src → Z.of_nat (length src) * bits ≤ 60 →
  pack_word sel bits src = packed bits src + 2 ^ 60 * sel.
Proof.
  intros Hsel Hb Hd Hl. unfold pack_word.
  rewrite (foldl_lor_packed bits src 0) by (done || lia).
  rewrite Z.shiftl_0_r, Z.lor_comm, wrap_u_id.
  - apply lor_add_shift; [lia|].
    pose proof (packed_bound bits src ltac:(lia) Hd) as Hp.
    split; [lia|]. eapply Z.lt_le_trans; [apply Hp|]. apply Z.pow_le_mono_r; lia.
  - unfold in_u. rewrite Z.shiftl_mul_pow2 by lia.
    change (2 ^ 64) with (16 * 2 ^ 60). lia.
Qed.

(** Reading digit [i] back, with anything above the payload. *)
Lemma packed_digit bits src : ∀ i x h,
  0 ≤ bits → digits bits src → src !! i = Some x →
  ((packed bits src + 2 ^ (bits * Z.of_nat (length src)) * h) / 2 ^ (Z.of_nat i * bits))
    mod 2 ^ bits = x.
Proof.
  induction src as [|y src IH]; intros i x h Hb Hd Hi; [done|].
  apply Forall_cons in Hd as [Hy Hd]. unfold in_u in Hy.
  assert (0 < 2 ^ bits) by (apply Z.pow_pos_nonneg; lia).
  cbn [packed length].
  replace (bits * Z.of_nat (S (length src))) with (bits + bits * Z.of_nat (length src)) by lia.
  rewrite Z.pow_add_r by lia.
  replace (y + 2 ^ bits * packed bits src + 2 ^ bits * 2 ^ (bits * Z.of_nat (length src)) * h)
    with (y + (packed bits src + 2 ^ (bits * Z.of_nat (length src)) * h) * 2 ^ bits) by ring.
  destruct i as [|i]; simpl in Hi.
  - injection Hi as ->. simpl Z.of_nat. rewrite Z.mul_0_l, Z.pow_0_r, Z.div_1_r.
    rewrite Z_mod_plus_full. by apply Z.mod_small.
  - replace (Z.of_nat (S i) * bits) with (bits + Z.of_nat i * bits) by lia.
    rewrite Z.pow_add_r, <- Z.div_div by (lia || (apply Z.pow_pos_nonneg; lia)).
    rewrite Z.div_add, (Z.div_small y) by lia. by apply IH.
Qed.

Lemma unpack_pack_word sel bits src dst :
  0 ≤ sel < 16 → 0 < bits → digits bits src → Z.of_nat (length src) * bits ≤ 60 →
  unpack_word (length src) bits (pack_word sel bits src) dst = src ++ drop (length src) dst.
Proof.
  intros Hsel Hb Hd Hl. unfold unpack_word. f_equal.
  rewrite pack_word_val by done.
  apply list_eq. intros i. rewrite list_lookup_fmap.
  destruct (decide (i < length src)%nat) as [Hi|Hi].
  - rewrite lookup_seq_lt by done. simpl.
    destruct (lookup_lt_is_Some_2 src i Hi) as [x Hx]. rewrite Hx. f_equal.
    rewrite <- Z.ones_equiv || replace (2 ^ bits - 1) with (Z.ones bits)
      by (rewrite Z.ones_equiv; lia).
    rewrite Z.land_ones, Z.shiftr_div_pow2 by lia.
    replace (2 ^ 60 * sel) with
      (2 ^ (bits * Z.of_nat (length src)) * (2 ^ (60 - bits * Z.of_nat (length src)) * sel)).
    + by apply packed_digit; [lia| |].
    + rewrite Z.mul_assoc, <- Z.pow_add_r by lia. do 2 f_equal. lia.
  - rewrite lookup_ge_None_2 by (rewrite length_seq; lia).
    by rewrite lookup_ge_None_2 by lia.
Qed.

Lemma pack_word_sel sel bits src :
  0 ≤ sel < 16 → 0 < bits → digits bits src → Z.of_nat (length src) * bits ≤ 60 →
  in_u 64 (pack_word sel bits src) ∧ pack_word sel bits src ≫ 60 = sel.
Proof.
  intros Hsel Hb Hd Hl. rewrite pack_word_val by done.
  pose proof (packed_bound bits src ltac:(lia) Hd) as Hp.
  assert (packed bits src < 2 ^ 60).
  { eapply Z.lt_le_trans; [apply Hp|]. apply Z.pow_le_mono_r; lia. }
  split.
  - unfold in_u. change (2 ^ 64) with (16 * 2 ^ 60). lia.
  - rewrite Z.shiftr_div_pow2 by lia. rewrite (Z.mul_comm _ sel), Z.div_add by lia.
    rewrite Z.div_small by lia. lia.
Qed.

(** ** [canPack] *)

Lemma canPack_length src n bits : canPack src n bits = true → (n <= length src)%nat.
Proof. unfold canPack. bcase. Qed.

Lemma canPack_ones src n : canPack src n 0 = true → src = replicate (length src) 1.
Proof.
  unfold canPack. bcase. simpl. rewrite forallb_forall. intros H1.
  symmetry. apply replicate_as_elem_of. split; [done|].
  intros x Hx. apply list_elem_of_In, H1, Z.eqb_eq in Hx. done.
Qed.

Lemma canPack_digits src n bits :
  (0 < bits <= 60)%nat → Forall (in_u 64) src → canPack src n bits = true →
  digits (Z.of_nat bits) (take n src).
Proof.
  intros Hb Hs. unfold canPack. bcase. bcase.
  rewrite Z.shiftl_mul_pow2, Z.mul_1_l by lia. rewrite wrap_u_id.
  - intros Hf. rewrite forallb_forall in Hf.
    replace (take n src) with (take (if (n <? length src)%nat then n else length src) src).
    2: { bcase; [done|]. by rewrite (take_ge src n), take_ge by lia. }
    apply (Forall_take (in_u 64) (if (n <? length src)%nat then n else length src)) in Hs.
    unfold digits. rewrite Forall_forall in *. intros x Hx. specialize (Hs x Hx).
    specialize (Hf x (proj1 (list_elem_of_In _ _) Hx)). apply negb_true_iff, Z.ltb_ge in Hf.
    unfold in_u in *. lia.
  - unfold in_u. assert (0 < 2 ^ Z.of_nat bits) by (apply Z.pow_pos_nonneg; lia).
    pose proof (Z.pow_le_mono_r 2 (Z.of_nat bits) 60). change (2 ^ 60) with 1152921504606846976 in *.
    lia.
Qed.

Lemma canPack_MaxValue src n bits :
  (bits <= 60)%nat → Forall (in_u 64) src → canPack src n bits = true →
  Forall (λ v, v ≤ MaxValue) (take n src).
Proof.
  intros Hb Hs Hc. destruct (decide (bits = 0)%nat) as [->|].
  - rewrite (canPack_ones _ _ Hc). apply Forall_take, Forall_replicate. by_compute.
  - eapply Forall_impl; [apply (canPack_digits src n bits); [lia|done|done]|].
    intros v Hv. unfold in_u in Hv.
    pose proof (Z.pow_le_mono_r 2 (Z.of_nat bits) 60) as Hp.
    change MaxValue with (2 ^ 60 - 1). lia.
Qed.

(** ** One step of the encoder against the decoder *)

(** [word_decodes w xs]: unpacking [w] stores [xs] at the front of any 240-entry
    array and reports their number. *)
Definition word_decodes (w : Z) (xs : list Z) : Prop :=
  in_u 64 w ∧
  ∀ dst, length dst = 240%nat →
    ∃ d, Decode dst w = Ok (d, length xs) ∧ take (length xs) d = xs ∧ length d = 240%nat.

Lemma pack_word_decodes sel n bits pk src :
  selector !! Z.to_nat sel = Some (mk_packing n bits (unpack_word n (Z.of_nat bits)) pk) →
  0 ≤ sel < 16 → (0 < bits <= 60)%nat → (n * bits <= 60)%nat → (n <= 240)%nat →
  Forall (in_u 64) src → canPack src n bits = true →
  word_decodes (pack_word sel (Z.of_nat bits) (take n (take n src))) (take n src).
Proof.
  intros Hp Hsel Hb Hnb Hn Hs Hc. rewrite take_take, Nat.min_id.
  pose proof (canPack_length _ _ _ Hc) as Hl.
  pose proof (canPack_digits _ _ _ Hb Hs Hc) as Hd.
  assert (Hlt : length (take n src) = n) by len.
  assert (Hlb : Z.of_nat (length (take n src)) * Z.of_nat bits ≤ 60) by (rewrite Hlt; lia).
  destruct (pack_word_sel sel (Z.of_nat bits) (take n src)) as [Hr Hse]; [done|lia|done|done|].
  split; [done|]. intros dst Hdst.
  exists (take n src ++ drop n dst). rewrite Hlt. split; [|split].
  - unfold Decode, select. rewrite Hse. bcase. rewrite Hp. simpl. do 2 f_equal.
    rewrite <- Hlt at 1. rewrite unpack_pack_word; [|done|lia|done|done]. by rewrite Hlt.
  - by rewrite take_app_length'.
  - len.
Qed.

Lemma ones_decodes sel n src :
  (sel = 0 ∧ n = 240%nat ∨ sel = 1 ∧ n = 120%nat) →
  canPack src n 0 = true → word_decodes (sel ≪ 60) (take n src).
Proof.
  intros Hsel Hc. pose proof (canPack_length _ _ _ Hc) as Hl.
  pose proof (canPack_ones _ _ Hc) as Ho.
  assert (Hlt : length (take n src) = n) by len.
  split; [destruct Hsel as [[-> ->]|[-> ->]]; by_compute|].
  intros dst Hdst. exists (replicate 240 1). rewrite Hlt. split; [|split].
  - destruct Hsel as [[-> ->]|[-> ->]]; unfold Decode, select; simpl;
      unfold unpack240, unpack120; by rewrite Hdst.
  - rewrite Ho. destruct Hsel as [[-> ->]|[-> ->]];
      by rewrite !take_replicate, !Nat.min_l by lia.
  - by rewrite length_replicate.
Qed.

(** What [EncodeAll] does in one turn, and what [Encode] returns. *)
Lemma EncodeAll_step_spec src i w n :
  Forall (in_u 64) (drop i src) → EncodeAll_step src i = Some (w, n) →
  (0 < n)%nat ∧ (n <= length (drop i src))%nat ∧
  Forall (λ v, v ≤ MaxValue) (take n (drop i src)) ∧ word_decodes w (take n (drop i src)).
Proof.
  unfold EncodeAll_step.
  set (rem := drop i src). intros Hs He. cbv zeta in He.
  repeat match type of He with
  | (if canPack ?r ?k ?b then _ else _) = _ =>
      destruct (canPack r k b) eqn:Hc;
      [injection He as <- <-; split; [lia|]; split; [by eapply canPack_length|];
       split; [by eapply canPack_MaxValue; [|done|done]; lia|] | clear Hc]
  end; [..|done].
  { by apply (ones_decodes 0); [left|]. }
  { by apply (ones_decodes 1); [right|]. }
  all: match type of Hc with canPack _ ?k ?b = true =>
         match goal with |- word_decodes (?pk _) _ =>
           let t := eval unfold pk in pk in
           match t with context [pack_word ?s _ _] =>
             apply (pack_word_decodes s k b pk rem); (done || lia)
           end
         end
       end.
Qed.

Lemma canPack_1_60 src :
  src ≠ [] → Forall (λ v, 0 ≤ v ≤ MaxValue) src → canPack src 1 60 = true.
Proof.
  intros Hne Hs. destruct src as [|x src]; [done|].
  apply Forall_cons in Hs as [Hx _]. unfold canPack.
  replace (length (x :: src) <? 1)%nat with false by done.
  change (60 =? 0)%nat with false. cbv iota zeta. change (u64 ((1 ≪ Z.of_nat 60) - 1)) with MaxValue.
  assert (take (if (1 <? length (x :: src))%nat then 1 else length (x :: src))%nat (x :: src) = [x])
    as -> by (destruct src; done).
  cbn [forallb]. by rewrite (proj2 (Z.ltb_ge MaxValue x)) by lia.
Qed.

Lemma EncodeAll_step_total src i :
  (i < length src)%nat → Forall (λ v, 0 ≤ v ≤ MaxValue) (drop i src) →
  is_Some (EncodeAll_step src i).
Proof.
  intros Hi Hs. unfold EncodeAll_step. cbv zeta.
  rewrite (canPack_1_60 (drop i src)).
  - repeat case_match; done.
  - intros He%(f_equal length). len.
  - done.
Qed.

(** ** The in-place loop *)

(** A list of words decodes, word after word, to a list of values. *)
Inductive words_decode : list Z → list Z → Prop :=
| words_nil : words_decode [] []
| words_cons w xs ws ys :
    word_decodes w xs → (0 < length xs)%nat → words_decode ws ys →
    words_decode (w :: ws) (xs ++ ys).

Lemma words_decode_length ws xs : words_decode ws xs → (length ws <= length xs)%nat.
Proof. induction 1; len. Qed.

Lemma words_decode_u64 ws xs : words_decode ws xs → Forall (in_u 64) ws.
Proof. induction 1 as [|???? [Hw _]]; by constructor. Qed.

Lemma encodable_u64 src : Forall (λ v, 0 ≤ v ≤ MaxValue) src → Forall (in_u 64) src.
Proof.
  intros Hs. eapply Forall_impl; [exact Hs|]. intros v Hv. unfold in_u, MaxValue in *.
  change ((1 ≪ 60) - 1) with 1152921504606846975 in Hv. lia.
Qed.

(** The invariant of the loop: what has been written is behind what is still to
    be read, and decodes to what has been consumed. *)
Lemma EncodeAll_loop_spec fuel : ∀ arr i j,
  (j <= i)%nat → (i <= length arr)%nat → (length arr - i <= fuel)%nat →
  Forall (λ v, 0 ≤ v ≤ MaxValue) (drop i arr) →
  ∃ arr' ws,
    EncodeAll_loop fuel arr i j = Ok (arr', (j + length ws)%nat) ∧
    length arr' = length arr ∧
    take (j + length ws) arr' = take j arr ++ ws ∧
    words_decode ws (drop i arr).
Proof.
  induction fuel as [|fuel IH]; intros arr i j Hji Hi Hf Hv; simpl EncodeAll_loop.
  - bcase. exists arr, []. rewrite drop_ge by lia. simpl.
    rewrite Nat.add_0_r, app_nil_r. repeat split. constructor.
  - bcase.
    { exists arr, []. rewrite drop_ge by lia. simpl.
      rewrite Nat.add_0_r, app_nil_r. repeat split. constructor. }
    destruct (EncodeAll_step_total arr i) as [[w n] Hw]; [lia|done|]. rewrite Hw.
    apply EncodeAll_step_spec in Hw as (Hn & Hnl & _ & Hd); [|by apply encodable_u64].
    rewrite length_drop in Hnl.
    assert (Hdrop : drop (i + n) (<[j:=w]> arr) = drop (i + n) arr)
      by (apply drop_insert_lt; lia).
    destruct (IH (<[j:=w]> arr) (i + n)%nat (S j)) as (arr' & ws & He & Hl & Ht & Hws).
    { lia. } { rewrite length_insert. lia. } { rewrite length_insert. lia. }
    { rewrite Hdrop, <- drop_drop. by apply Forall_drop. }
    exists arr', (w :: ws). simpl length. rewrite Nat.add_succ_r.
    rewrite He, Hl, length_insert. simpl Nat.add in Ht. rewrite Ht. repeat split.
    + rewrite (take_S_r _ _ w), take_insert_ge, <- app_assoc; [done|lia|].
      apply list_lookup_insert_eq. lia.
    + rewrite Hdrop in Hws. rewrite <- (take_drop n (drop i arr)).
      constructor; [done|len|]. by rewrite drop_drop.
Qed.

Lemma EncodeAll_spec src :
  Forall (λ v, 0 ≤ v ≤ MaxValue) src →
  ∃ arr ws, EncodeAll src = Ok (arr, length ws) ∧ length arr = length src ∧
            take (length ws) arr = ws ∧ words_decode ws src.
Proof.
  intros Hs. unfold EncodeAll.
  destruct (EncodeAll_loop_spec (length src) src 0 0) as (arr & ws & ? & ? & ? & ?);
    [lia..|done|]. exists arr, ws. done.
Qed.

(** ** [DecodeAll] *)

Lemma select_extent v p :
  select v = Ok p → (p_n p <= unpack_extent p)%nat ∧ (unpack_extent p <= 240)%nat.
Proof.
  unfold select. case_match; [done|]. case_match eqn:Hp; [|done]. intros [= <-].
  assert (Hall : Forall (λ p, (p_n p <= unpack_extent p)%nat ∧ (unpack_extent p <= 240)%nat)
            selector) by by_compute.
  exact (Forall_lookup_1 _ _ _ _ Hall Hp).
Qed.

Lemma length_overwrite l i xs :
  (i + length xs <= length l)%nat → length (overwrite l i xs) = length l.
Proof. intros. unfold overwrite. len. Qed.

Lemma take_overwrite l i xs k :
  (k <= length xs)%nat → (i <= length l)%nat →
  take (i + k) (overwrite l i xs) = take i l ++ take k xs.
Proof.
  intros. unfold overwrite. rewrite <- take_take_drop.
  rewrite take_app_length', drop_app_length' by len.
  by rewrite take_app_le by lia.
Qed.

Lemma DecodeAll_loop_spec ws xs : words_decode ws xs → ∀ dst j,
  (j + length xs + 240 <= length dst)%nat →
  ∃ d, DecodeAll_loop dst ws j = Ok (d, (j + length xs)%nat) ∧
       length d = length dst ∧ take (j + length xs) d = take j dst ++ xs.
Proof.
  induction 1 as [|w xs ws ys [_ Hw] Hx Hws IH]; intros dst j Hl.
  - exists dst. simpl. by rewrite Nat.add_0_r, app_nil_r.
  - rewrite length_app in *. cbn [DecodeAll_loop].
    destruct (Hw (take 240 (drop j dst))) as (d & Hd & Ht & Hdl); [len|].
    unfold Decode in Hd. destruct (select w) as [p| | |] eqn:Hp; try done.
    cbn [res_bind] in *. injection Hd as Hd Hn.
    destruct (select_extent _ _ Hp). bcase. rewrite Hd, Hn.
    set (dst' := overwrite dst j (take (unpack_extent p) d)).
    assert (Hl' : length dst' = length dst) by (apply length_overwrite; len).
    destruct (IH dst' (j + length xs)%nat) as (d' & He & Hle & Hta); [lia|].
    exists d'. rewrite He, Nat.add_assoc, Hta. split; [done|]. split; [lia|].
    unfold dst'. rewrite take_overwrite by len.
    rewrite take_take, Nat.min_l, Ht by lia. by rewrite app_assoc.
Qed.

(** C24: Round trip of the packer. Every list of values of at most 60 bits is encoded (the
    in-place loop terminates without error, in the array it was given), and decoding the words
    into a destination that has room for 240 values more gives the list back. DecodeAll writes
    whole words: without that room a run leaves the destination ([DecodeAll_run_overruns]). *)
Theorem EncodeAll_DecodeAll src dst :
  Forall (λ v, 0 ≤ v ≤ MaxValue) src → (length src + 240 <= length dst)%nat →
  ∃ arr j d, EncodeAll src = Ok (arr, j) ∧ (j <= length src)%nat ∧
    DecodeAll dst (take j arr) = Ok (d, length src) ∧ take (length src) d = src.
Proof.
  intros Hs Hd. destruct (EncodeAll_spec src Hs) as (arr & ws & He & Hl & Ht & Hws).
  destruct (DecodeAll_loop_spec ws src Hws dst 0) as (d & Hde & _ & Hta); [lia|].
  exists arr, (length ws), d. rewrite Ht. split_and!; try done.
  by eapply words_decode_length.
Qed.

Lemma EncodeAll_loop_bounds fuel : ∀ arr i j,
  (j <= i)%nat → (length arr - i <= fuel)%nat →
  Forall (in_u 64) (drop i arr) → Exists (λ v, MaxValue < v) (drop i arr) →
  EncodeAll_loop fuel arr i j = Err "value out of bounds".
Proof.
  induction fuel as [|fuel IH]; intros arr i j Hji Hf Hr Hv;
    (assert (Hi : (i < length arr)%nat);
     [destruct (decide (i < length arr)%nat); [done|];
      rewrite drop_ge in Hv by lia; inversion Hv|]); [lia|].
  simpl EncodeAll_loop. bcase.
  destruct (EncodeAll_step arr i) as [[w n]|] eqn:Hw; [|done].
  apply EncodeAll_step_spec in Hw as (Hn & Hnl & Hm & Hd); [|done].
  rewrite length_drop in Hnl. apply IH; [lia| |..].
  - rewrite length_insert. lia.
  - rewrite drop_insert_lt, <- drop_drop by lia. by apply Forall_drop.
  - rewrite drop_insert_lt, <- drop_drop by lia.
    rewrite <- (take_drop n (drop i arr)) in Hv. apply Exists_app in Hv as [Hv|]; [|done].
    apply Exists_exists in Hv as (v & Hin & Hv). rewrite Forall_forall in Hm.
    specialize (Hm v Hin). lia.
Qed.

(** C38: a value over 60 bits is an error, wherever it is in the input. *)
Theorem EncodeAll_out_of_bounds src :
  Forall (in_u 64) src → Exists (λ v, MaxValue < v) src →
  EncodeAll src = Err "value out of bounds".
Proof. intros. apply EncodeAll_loop_bounds; (done || lia). Qed.

(** [Encode] is the step of [EncodeAll]: the two cascades of the source agree. *)
Theorem Encode_EncodeAll_step src i :
  (i < length src)%nat →
  Encode (drop i src) =
    match EncodeAll_step src i with
    | Some r => Ok r
    | None => Err "value out of bounds"
    end.
Proof.
  intros Hi. unfold Encode, EncodeAll_step. cbv zeta.
  rewrite (proj2 (Nat.ltb_lt 0 (length (drop i src)))) by len.
  by repeat match goal with
  | |- (if canPack _ _ _ then _ else _) = _ => case_match; [done|]
  end.
Qed.

(** ** Iteration over the encoded bytes *)

Lemma ForEach_word_zero n bits v fn seen :
  (∀ x, fn x = true) →
  ForEach_word n bits 0 v fn seen = (seen ++ replicate n 0, true).
Proof.
  intros Hfn. revert v seen. induction n as [|n IH]; intros; simpl.
  - by rewrite app_nil_r.
  - rewrite Hfn, Z.land_0_r, IH, <- app_assoc. done.
Qed.

(** On a word that encodes a run of ones (selectors 0 and 1), [ForEach]
    calls back with zeros, although [Decode] unpacks the same word to ones. *)
Theorem ForEach_runs v dst :
  0 ≤ v < 2 ^ 61 → length dst = 240%nat →
  ∃ n, Decode dst v = Ok (replicate 240 1, n) ∧ (n = 240%nat ∨ n = 120%nat) ∧
       ForEach (put_u64 v) (λ _, true) = Ok (replicate n 0).
Proof.
  intros Hv Hd.
  assert (Hsel : v ≫ 60 = 0 ∨ v ≫ 60 = 1).
  { rewrite Z.shiftr_div_pow2 by lia. change (2 ^ 61) with (2 * 2 ^ 60) in Hv.
    assert (0 ≤ v / 2 ^ 60 < 2); [|lia].
    split; [apply Z.div_pos; lia|apply Z.div_lt_upper_bound; lia]. }
  assert (Hget : be_val (put_u64 v) = v).
  { rewrite put_u64_be, be_val_bytes. apply Z.mod_small. change (256 ^ Z.of_nat 8) with (2 ^ 64). lia. }
  unfold Decode, ForEach. change (length (put_u64 v) / 8)%nat with 1%nat.
  cbn [fold_words]. change (8 <=? length (put_u64 v))%nat with true. cbv iota.
  rewrite take_ge, Hget by done.
  destruct Hsel as [Hsel|Hsel]; unfold select; rewrite Hsel;
    [change (selector !! Z.to_nat 0) with (Some (mk_packing 240 0 unpack240 pack240))
    |change (selector !! Z.to_nat 1) with (Some (mk_packing 120 0 unpack120 pack120))];
    [change (16 <=? 0) with false|change (16 <=? 1) with false]; cbv iota;
    cbn [res_bind p_n p_bit p_unpack];
    [exists 240%nat|exists 120%nat]; change (sel_mask _) with 0;
    rewrite ForEach_word_zero by done; unfold unpack240, unpack120; rewrite Hd; auto.
Qed.

(** Decoding a 120-run through [DecodeAll] stores 240 values: with room for
    exactly the 120 decoded values the stores leave the destination. *)
Theorem DecodeAll_run_overruns dst :
  (120 <= length dst < 240)%nat → DecodeAll dst [1 ≪ 60] = Panic ∧ Count (1 ≪ 60) = Ok 120%nat.
Proof.
  intros Hl. split; [|done]. unfold DecodeAll. cbn [DecodeAll_loop].
  change (select (1 ≪ 60)) with (Ok (mk_packing 120 0 unpack120 pack120)).
  cbn [res_bind]. change (unpack_extent _) with 240%nat. bcase. done.
Qed.

(** ** Witnesses *)

Lemma EncodeAll_DecodeAll_witness :
  ∃ arr j d, EncodeAll [5; 6; 7; 1000; MaxValue; 1] = Ok (arr, j) ∧ (j <= 6)%nat ∧
    DecodeAll (zeros 300) (take j arr) = Ok (d, 6%nat) ∧
    take 6 d = [5; 6; 7; 1000; MaxValue; 1].
Proof.
  apply (EncodeAll_DecodeAll [5; 6; 7; 1000; MaxValue; 1] (zeros 300)).
  - by_compute.
  - vm_compute. lia.
Defined.

Lemma EncodeAll_out_of_bounds_witness :
  EncodeAll [1; 2; MaxValue + 1; 3] = Err "value out of bounds".
Proof.
  apply EncodeAll_out_of_bounds; by_compute.
Defined.

Lemma Encode_EncodeAll_step_witness :
  Encode [7; 8] = Ok (pack2 [7; 8], 2%nat).
Proof.
  etransitivity; [apply (Encode_EncodeAll_step [9; 7; 8] 1); simpl; lia|reflexivity].
Defined.

Lemma ForEach_runs_witness :
  ∃ n, Decode (zeros 240) (1 ≪ 60) = Ok (replicate 240 1, n) ∧ (n = 240%nat ∨ n = 120%nat) ∧
       ForEach (put_u64 (1 ≪ 60)) (λ _, true) = Ok (replicate n 0).
Proof. apply (ForEach_runs (1 ≪ 60) (zeros 240)); [by_compute|reflexivity]. Defined.

Lemma DecodeAll_run_overruns_witness :
  DecodeAll (zeros 120) [1 ≪ 60] = Panic ∧ Count (1 ≪ 60) = Ok 120%nat.
Proof. apply DecodeAll_run_overruns. unfold zeros. rewrite length_replicate. lia. Defined.
