(* ===== verification/Coder.v ===== *)
(** * What the column coders share

    The interfaces of the compressors the coders call (zstd, snappy, lz4: code
    outside the repository's Go sources) as type classes, each with the class
    of the documented laws the coders rely on and a trivial instance of both;
    the compression-ratio test in IEEE double precision; the byte buffer of
    lib/encoding/encoding.go; and the block-type constants. *)

From S2P Require Import Prelude GoSlice NumberEnc.
From Stdlib Require Export SpecFloat.

(** ** Compressors *)

(** github.com/klauspost/compress/zstd: [EncodeAll(in, dst)] and
    [DecodeAll(in, dst)] append the coded bytes to [dst]. *)
Class Zstd := {
  zstd_encode : list Z → list Z;
  zstd_decode : list Z → option (list Z);
}.

(** lib/encoding/string.go ZSTDCompressBound: zstd's bound on its output. *)
Definition ZSTDCompressBound (srcSize : nat) : nat :=
  let constV := (128 * 1024)%nat in
  let n := (srcSize + srcSize / 256)%nat in
  if (srcSize <? constV)%nat then (n + (constV - srcSize) / 2048)%nat else n.

Class ZstdLaws `(Zstd) : Prop := {
  zstd_roundtrip l : bytes_ok l → zstd_decode (zstd_encode l) = Some l;
  zstd_bytes l : bytes_ok l → bytes_ok (zstd_encode l);
  zstd_bound l : (length (zstd_encode l) <= ZSTDCompressBound (length l))%nat;
}.

(** snappy: [Encode(dst, src)] writes into [dst] when its capacity is at least
    [MaxEncodedLen(len(src))]; [Decode] likewise for the decoded length. *)
Class Snappy := {
  snappy_encode : list Z → list Z;
  snappy_decode : list Z → option (list Z);
  snappy_max : nat → nat;
}.

Class SnappyLaws `(Snappy) : Prop := {
  snappy_roundtrip l : bytes_ok l → snappy_decode (snappy_encode l) = Some l;
  snappy_bytes l : bytes_ok l → bytes_ok (snappy_encode l);
  snappy_bound l : (length (snappy_encode l) <= snappy_max (length l))%nat;
}.

(** lz4 block format: the compressed bytes always fit in [lz4_max]. *)
Class Lz4 := {
  lz4_encode : list Z → list Z;
  lz4_decode : list Z → option (list Z);
  lz4_max : nat → nat;
}.

Class Lz4Laws `(Lz4) : Prop := {
  lz4_roundtrip l : bytes_ok l → lz4_decode (lz4_encode l) = Some l;
  lz4_bytes l : bytes_ok l → bytes_ok (lz4_encode l);
  lz4_nonempty l : l ≠ [] → (0 < length (lz4_encode l))%nat;
  lz4_bound l : (length (lz4_encode l) <= lz4_max (length l))%nat;
}.

(** The compressor that stores its input satisfies every law. *)
#[export] Instance stored_zstd : Zstd | 100 := {| zstd_encode l := l; zstd_decode := Some |}.
#[export] Instance stored_snappy : Snappy | 100 :=
  {| snappy_encode l := l; snappy_decode := Some; snappy_max n := n |}.
#[export] Instance stored_lz4 : Lz4 | 100 :=
  {| lz4_encode l := l; lz4_decode := Some; lz4_max n := n |}.

Lemma ZSTDCompressBound_ge n : (n <= ZSTDCompressBound n)%nat.
Proof. unfold ZSTDCompressBound. case_match; lia. Qed.

#[export] Instance stored_zstd_laws : ZstdLaws stored_zstd.
Proof. split; simpl; auto. intros. apply ZSTDCompressBound_ge. Qed.
#[export] Instance stored_snappy_laws : SnappyLaws stored_snappy.
Proof. split; simpl; auto. Qed.
#[export] Instance stored_lz4_laws : Lz4Laws stored_lz4.
Proof. split; simpl; auto. intros [|??]; simpl; [done|lia]. Qed.

(** ** The coder interface (encoding.go DataCoder) *)

Class DataCoder (T : Type) := {
  dc_SetEncodingType : T → Z → T;
  dc_Encoding : T → list Z → slice → res (T * slice);
  dc_Decoding : T → list Z → slice → res (T * slice);
}.

(** What a coder promises to the functions that store and load column blocks: an
    admissible input is encoded to a block appended to the output, and any admissible
    decoder turns that block back into the input, appended to its own output.
    [admits enc dec inp out out2] collects the conditions. *)
Class Lossless (T : Type) `{DataCoder T} := {
  admits : T → T → list Z → slice → slice → Prop;
  lossless enc dec inp out out2 : admits enc dec inp out out2 →
    ∃ enc' o block dec' o2,
      dc_Encoding enc inp out = Ok (enc', o) ∧ sdata o = sdata out ++ block ∧
      dc_Decoding dec block out2 = Ok (dec', o2) ∧ sdata o2 = sdata out2 ++ inp;
  reject_empty dec out x : dc_Decoding dec [] out ≠ Ok x;
}.

(** ** Double precision *)

Abbreviation float64 := spec_float.
Definition float64_of_int (n : Z) : float64 := binary_normalize 53 1024 n 0 false.

(** lib/encoding/string.go compressionRation and minCompReta. *)
Definition compressionRation (cmpLen srcLen : nat) : float64 :=
  SFdiv 53 1024 (float64_of_int (Z.of_nat cmpLen)) (float64_of_int (Z.of_nat srcLen)).
Definition minCompReta : float64 :=
  SFdiv 53 1024 (float64_of_int 85) (float64_of_int 100).

(** ** Block types (lib/encoding/encoding.go) *)

Definition Field_Type_Int : Z := 1.
Definition Field_Type_UInt : Z := 2.
Definition Field_Type_Float : Z := 3.
Definition Field_Type_String : Z := 4.
Definition Field_Type_Boolean : Z := 5.
Definition Field_Type_Tag : Z := 6.

Definition BlockFloat64 : Z := Field_Type_Float.
Definition BlockInteger : Z := Field_Type_Int.
Definition BlockBoolean : Z := Field_Type_Boolean.
Definition BlockString : Z := Field_Type_String.
Definition BlockTag : Z := Field_Type_Tag.

Definition IsBlockOne (typ : Z) : bool := (16 <? typ) && (typ <? 21).
Definition IsBlockFull (typ : Z) : bool := (30 <? typ) && (typ <? 35).
Definition IsBlockEmpty (typ : Z) : bool := (40 <? typ) && (typ <? 45).

Definition RewriteTypeToFull (typ : Z) : Z :=
  if typ =? BlockFloat64 then 31
  else if typ =? BlockInteger then 32
  else if typ =? BlockBoolean then 33
  else if typ =? BlockString then 34
  else typ.

Definition RewriteTypeToEmpty (typ : Z) : Z :=
  if typ =? BlockFloat64 then 41
  else if typ =? BlockInteger then 42
  else if typ =? BlockBoolean then 43
  else if typ =? BlockString then 44
  else typ.

(** ** Plain int64 blocks, shared by the integer and the time coder *)

Section Plain.
Context `{GoRuntime}.

Definition plain_block (inp : list Z) : list Z :=
  put_u32 (Z.of_nat (length inp)) ++
  concat ((λ v, put_u64 (zigzag64 v)) <$> Bytes2Int64Slice inp).

Lemma plain_block_append ty inp out :
  Z.of_nat (length inp) < 2 ^ 32 →
  ∃ o, MarshalInt64SliceAppend
         (MarshalUint32Append (append out [ty]) (u32 (Z.of_nat (length inp))))
         (Bytes2Int64Slice inp) = Ok o ∧
       sdata o = sdata out ++ ty :: plain_block inp.
Proof.
  intros Hl.
  match goal with |- context [MarshalInt64SliceAppend ?o ?us] =>
    destruct (MarshalInt64SliceAppend_spec o us) as (s & -> & Hs) end.
  exists s. split; [done|]. rewrite Hs. unfold MarshalUint32Append.
  autorewrite with gemini_data. rewrite (wrap_u_id 32) by (unfold in_u; lia).
  unfold plain_block. rewrite <- !app_assoc. done.
Qed.

Lemma plain_block_read inp out (err : string) :
  bytes_ok inp → (length inp mod 8 = 0)%nat → Z.of_nat (length inp) < 2 ^ 32 →
  ∃ o,
    (let! inLen := UnmarshalUint32 (plain_block inp) in
     let! rest := from (plain_block inp) 4 in
     if (length rest <? Z.to_nat inLen)%nat then Err err
     else UnmarshalInt64Slice2Bytes rest out) = Ok o ∧
    sdata o = sdata out ++ inp.
Proof.
  intros Hok Hm Hl. unfold plain_block, UnmarshalUint32.
  rewrite get_put_u32 by (unfold in_u; lia). rs.
  rewrite from_app by done. rs. rewrite Nat2Z.id.
  rewrite (length_concat_put _ 8) by done. rewrite length_Bytes2Int64Slice.
  pose proof (Nat.div_mod_eq (length inp) 8). bcase.
  destruct (UnmarshalInt64Slice2Bytes_spec (Bytes2Int64Slice inp) out) as (o & -> & Ho).
  { apply Bytes2Int64Slice_range. }
  exists o. split; [done|]. by rewrite Ho, Int64Slice_roundtrip.
Qed.
End Plain.

(** A length field rewritten in place at the end of a header. *)
Lemma MarshalUint32Copy_header s a b hdr :
  sdata s = a ++ b ++ hdr → length hdr = 4%nat →
  ∀ u, MarshalUint32Copy s (length a + length b) u =
       Ok (mk_slice (a ++ b ++ put_u32 u) (sspare s)).
Proof.
  intros Hs Hh u. unfold MarshalUint32Copy.
  assert (Hl : slen s = (length a + length b + 4)%nat).
  { unfold slen. rewrite Hs, !length_app, Hh. lia. }
  rewrite Hl. bcase. do 2 f_equal. unfold overwrite.
  rewrite Hs, (app_assoc a b hdr), take_app_length', drop_ge by len.
  by rewrite app_nil_r, <- app_assoc.
Qed.

(** A block header followed by compressed bytes: type, source length, length of
    the compressed bytes. *)
Definition packed_block (srcLen : nat) (encData : list Z) : list Z :=
  put_u32 (Z.of_nat srcLen) ++ put_u32 (Z.of_nat (length encData)) ++ encData.

Section Compressed.
Context `{GoRuntime}.

(** The header with a zero compressed length, as it is first appended. *)
Definition append_header (out : slice) (ty : Z) (srcLen : nat) : slice :=
  MarshalUint32Append (MarshalUint32Append (append out [ty]) (u32 (Z.of_nat srcLen))) 0.

Lemma sdata_append_header out ty srcLen :
  Z.of_nat srcLen < 2 ^ 32 →
  sdata (append_header out ty srcLen) =
    sdata out ++ (ty :: put_u32 (Z.of_nat srcLen)) ++ put_u32 0.
Proof.
  intros. unfold append_header, MarshalUint32Append. autorewrite with gemini_data.
  rewrite (wrap_u_id 32) by (unfold in_u; lia). by rewrite <- !app_assoc.
Qed.

Lemma slen_append_header out ty srcLen :
  slen (append_header out ty srcLen) = (slen out + 9)%nat.
Proof. unfold append_header, MarshalUint32Append. len. Qed.

Lemma scap_append_header out ty srcLen :
  (scap out <= scap (append_header out ty srcLen))%nat.
Proof.
  unfold append_header, MarshalUint32Append.
  do 2 (etransitivity; [|apply scap_append_mono]). apply scap_append_mono.
Qed.

(** Once a compressor has filled the spare room behind the header: cutting back
    to the start restores the original bytes, and patching the length field
    and re-slicing gives the complete block. *)
Lemma compressed_append out ty srcLen encData :
  Z.of_nat srcLen < 2 ^ 32 → Z.of_nat (length encData) < 2 ^ 32 →
  (slen out + 9 + length encData <= scap out)%nat →
  let g := fill_spare (append_header out ty srcLen) encData in
  (∃ s, reslice_to g (slen out) = Ok s ∧ sdata s = sdata out) ∧
  (∃ o, (let! g := MarshalUint32Copy g (slen out + 5) (u32 (Z.of_nat (length encData))) in
         reslice_to g (slen out + 9 + length encData)) = Ok o ∧
        sdata o = sdata out ++ ty :: packed_block srcLen encData).
Proof.
  intros Hs He Hc g. set (h := append_header out ty srcLen) in g.
  assert (Hhd : sdata h = sdata out ++ (ty :: put_u32 (Z.of_nat srcLen)) ++ put_u32 0)
    by by apply sdata_append_header.
  pose proof (slen_append_header out ty srcLen) as Hhl. fold h in Hhl.
  pose proof (scap_append_header out ty srcLen) as Hhc. fold h in Hhc.
  assert (Hfit : (length encData <= length (sspare h))%nat) by (rewrite length_sspare; lia).
  destruct (fill_spare_reslice h encData Hfit) as (Hg1 & Hg2 & Hg3). fold g in Hg1, Hg2, Hg3.
  split.
  - rewrite reslice_to_Ok by lia. eexists; split; [done|]. cbn [sdata].
    rewrite take_sback by (unfold slen in *; rewrite Hg1; lia). rewrite Hg1, Hhd.
    by apply take_app_length'.
  - assert (Hhdr : (slen out + 5 = length (sdata out) +
      length (ty :: put_u32 (Z.of_nat srcLen)))%nat) by (unfold slen; len).
    rewrite Hhdr, (MarshalUint32Copy_header g (sdata out) (ty :: put_u32 (Z.of_nat srcLen))
               (put_u32 0)) by (rewrite ?Hg1; done).
    rs. rewrite reslice_to_Ok.
    2: { unfold scap. simpl. unfold scap in Hg3. rewrite Hg1 in Hg3. unfold slen in *.
         rewrite Hhd in Hg3. len. }
    eexists; split; [done|]. cbn [sdata]. unfold sback. cbn [sdata sspare].
    unfold g, fill_spare. bcase. cbn [sspare].
    unfold overwrite. rewrite take_0, app_nil_l, !app_assoc, take_app_length'.
    + unfold packed_block. rewrite wrap_u_id by (unfold in_u; lia). by rewrite <- !app_assoc.
    + unfold slen. len.
Qed.
End Compressed.

Section SnappyInto.
Context `{GoRuntime} `{SN : Snappy}.

(** [snappy.Encode(out[len(out):], in)], seen from [out]. *)
Definition snappy_into (out : slice) (inp : list Z) : slice :=
  if (snappy_max (length inp) <=? length (sspare out))%nat
  then fill_spare out (snappy_encode inp) else out.

Lemma snappy_into_header g ty inp :
  (slen g + 9 + snappy_max (length inp) <= scap g)%nat →
  snappy_into (append_header g ty (length inp)) inp =
  fill_spare (append_header g ty (length inp)) (snappy_encode inp).
Proof.
  intros Hc. unfold snappy_into. bcase; [done|]. exfalso.
  rewrite length_sspare, slen_append_header in *.
  pose proof (scap_append_header g ty (length inp)). lia.
Qed.
End SnappyInto.

(** Decide the tests on a constant encoding type. *)
Ltac dispatch :=
  repeat match goal with
  | |- context [Z.eqb ?a ?b] =>
      let r := eval vm_compute in (Z.eqb a b) in change (Z.eqb a b) with r
  end; cbv iota.
