(* ===== verification/IntCoder.v ===== *)
(** * lib/encoding/int.go: the coder of int64 columns

    [Encoding] chooses between a constant delta, simple8b over zig-zag deltas,
    zstd and the plain values; [Decoding] reads the choice from the first byte.
    The object's fields are a record that the operations thread; zstd is the
    [Zstd] interface. *)

From S2P Require Import Prelude GoSlice NumberEnc Simple8b Coder.

Definition intCompressedConstDelta : Z := 1.
Definition intCompressedSimple8b : Z := 2.
Definition intCompressZSTD : Z := 3.
Definition intUncompressed : Z := 4.

Definition ZigZagEncode (v : Z) : Z := Z.lxor (u64 (v ≪ 1)) (u64 (v ≫ 63)).
Definition ZigZagDecode (v : Z) : Z :=
  i64 (Z.lxor (v ≫ 1) (u64 (i64 (Z.land v 1 ≪ 63) ≫ 63))).

Record Integer := mk_Integer {
  encodingType : Z;
  isConstDelta : bool;
  isSimple8b : bool;
  buf : list Z;
  values : list Z;
  outPos : nat;
  out : slice;
  zigZagDeltas : list Z;
}.

Definition new_Integer : Integer :=
  mk_Integer 0 false false [] (zeros 240) 0 nil_slice [].

Definition set_encodingType (enc : Integer) (ty : Z) : Integer :=
  mk_Integer ty (isConstDelta enc) (isSimple8b enc) (buf enc) (values enc) (outPos enc)
    (out enc) (zigZagDeltas enc).
Definition set_flags (enc : Integer) (c s : bool) (zz : list Z) : Integer :=
  mk_Integer (encodingType enc) c s (buf enc) (values enc) (outPos enc) (out enc) zz.
Definition set_decode (enc : Integer) (ty : Z) (b : list Z) (pos : nat) (o : slice) : Integer :=
  mk_Integer ty (isConstDelta enc) (isSimple8b enc) b (values enc) pos o (zigZagDeltas enc).
Definition set_values (enc : Integer) (vs : list Z) : Integer :=
  mk_Integer (encodingType enc) (isConstDelta enc) (isSimple8b enc) (buf enc) vs (outPos enc)
    (out enc) (zigZagDeltas enc).

Definition SetEncodingType := set_encodingType.

Definition reset (enc : Integer) : Integer := set_flags enc true true [].

Definition validEncodingType (enc : Integer) : bool :=
  let ty := encodingType enc in
  (ty =? intCompressedConstDelta) || (ty =? intCompressZSTD)
  || (ty =? intCompressedSimple8b) || (ty =? intUncompressed).

(** [for i := 2; i < len(arr); i++] over the suffix [rest] after [prev]. *)
Fixpoint init_loop (prev : Z) (rest : list Z) (zz : list Z) (c s : bool)
    : list Z * bool * bool :=
  match rest with
  | [] => (zz, c, s)
  | x :: rest =>
      let delta := i64 (x - prev) in
      let zigZagEnc := ZigZagEncode delta in
      let c := c && (default 0 (last zz) =? zigZagEnc) in
      let s := if s && (MaxValue <? zigZagEnc) then false else s in
      init_loop x rest (zz ++ [zigZagEnc]) c s
  end.

Definition init (enc : Integer) (arr : list Z) : Integer :=
  let enc := reset enc in
  match arr with
  | v0 :: v1 :: ((_ :: _) as rest) =>
      let zigZagEnc := ZigZagEncode (i64 (v1 - v0)) in
      let s := if MaxValue <? zigZagEnc then false else true in
      let '(zz, c, s) := init_loop v1 rest [ZigZagEncode v0; zigZagEnc] true s in
      set_flags enc c s zz
  | _ => set_flags enc false false []
  end.

Section Coder.
Context `{RT : GoRuntime} `{ZS : Zstd}.

(** ** Encoding *)

Definition encodingConstDelta (enc : Integer) (out : slice) : res slice :=
  let! out := growBuffer out (1 + 8 + 22) in
  let out := append out [u8 (u8 (encodingType enc) ≪ 4)] in
  let! z0 := index (zigZagDeltas enc) 0 in
  let out := MarshalUint64Append out z0 in
  let! z1 := index (zigZagDeltas enc) 1 in
  let out := append out (PutUvarint z1) in
  Ok (append out (PutUvarint (u64 (Z.of_nat (length (zigZagDeltas enc)) - 1)))).

(** The words overwrite the deltas from index 1 on, so the block written is
    [zigZagDeltas[:len(encData)+1]] of the overwritten array. *)
Definition encodingSimple8b (enc : Integer) (out : slice) : res slice :=
  let! tl := from (zigZagDeltas enc) 1 in
  let! (arr, encCount) := EncodeAll tl in
  let deltas := take 1 (zigZagDeltas enc) ++ arr in
  let out := append out [u8 (u8 (encodingType enc) ≪ 4)] in
  let out := MarshalUint32Append out (u32 (Z.of_nat encCount + 1)) in
  let out := MarshalUint32Append out (u32 (Z.of_nat (length deltas))) in
  let! block := between deltas 0 (encCount + 1) in
  MarshalUint64SliceAppend out block.

Definition uncompressedData (inp : list Z) (out : slice) : res slice :=
  let out := append out [u8 (intUncompressed ≪ 4)] in
  let out := MarshalUint32Append out (u32 (Z.of_nat (length inp))) in
  MarshalInt64SliceAppend out (Bytes2Int64Slice inp).

Definition encodingZSTD (enc : Integer) (inp : list Z) (out : slice) : res slice :=
  let maxOutLen := (ZSTDCompressBound (length inp) + 9)%nat in
  let pos := slen out in
  let! out := growBuffer out maxOutLen in
  let! out := reslice_to out pos in
  let out := append out [u8 (u8 (encodingType enc) ≪ 4)] in
  let out := MarshalUint32Append out (u32 (Z.of_nat (length inp))) in
  let out := MarshalUint32Append out 0 in
  let encPos := slen out in
  let encData := zstd_encode inp in
  let out := fill_spare out encData in
  let compLen := (length encData + encPos)%nat in
  if SFltb minCompReta (compressionRation compLen (length inp)) then
    let! out := reslice_to out pos in uncompressedData inp out
  else
    let! out := MarshalUint32Copy out (pos + 5) (u32 (Z.of_nat (length encData))) in
    reslice_to out compLen.

Definition Encoding (enc : Integer) (inp : list Z) (out : slice) : res (Integer * slice) :=
  if (length inp =? 0)%nat then Ok (enc, out)
  else
    let enc := init enc (Bytes2Int64Slice inp) in
    if isConstDelta enc then
      let enc := set_encodingType enc intCompressedConstDelta in
      let! out := encodingConstDelta enc out in Ok (enc, out)
    else if isSimple8b enc then
      let enc := set_encodingType enc intCompressedSimple8b in
      let! out := encodingSimple8b enc out in Ok (enc, out)
    else if (2 <=? length (zigZagDeltas enc))%nat then
      let enc := set_encodingType enc intCompressZSTD in
      let! out := encodingZSTD enc inp out in Ok (enc, out)
    else
      let! out := uncompressedData inp out in Ok (enc, out).

(** ** Decoding *)

(** [for i := 1; i < deltaCount+1; i++ { outArr[i] = outArr[i-1] + v }] *)
Fixpoint const_delta_loop (n : nat) (prev v : Z) : list Z :=
  match n with
  | O => []
  | S n => let x := i64 (prev + v) in x :: const_delta_loop n x v
  end.

(** The growth of [out] to [l] bytes is the code of [bufferpool.Resize]. *)
Definition decodingConstDelta (enc : Integer) : res slice :=
  let inp := buf enc in
  if (length inp <? 8)%nat then Err "integer: too small data for decode"
  else
    let! first := UnmarshalUint64 inp in
    let! inp := from inp 8 in
    let (delta, n) := Uvarint inp in
    if n <=? 0 then Err "integer: invalid const delta value"
    else
      let! inp := from inp (Z.to_nat n) in
      let (deltaCount, n) := Uvarint inp in
      if n <=? 0 then Err "integer: invalid const delta count"
      else
        let count := Z.to_nat (i64 (deltaCount + 1)) in
        let l := (count * 8 + outPos enc)%nat in
        let! out := Resize (out enc) l in
        if (count =? 0)%nat then Panic
        else
          let x0 := ZigZagDecode first in
          let vals := x0 :: const_delta_loop (count - 1) x0 (ZigZagDecode delta) in
          Ok (mk_slice (overwrite (sdata out) (outPos enc) (Int64Slice2byte vals))
                (sspare out)).

(** [for i := 0; i < n; i++ { intArr[idx] = intArr[idx-1] + ...; idx++ }]:
    the values written so far, most recent last, and the limit [len(intArr)]. *)
Fixpoint add_deltas (limit : nat) (vals : list Z) (zs : list Z) : res (list Z) :=
  match zs with
  | [] => Ok vals
  | z :: zs =>
      if (length vals <? limit)%nat then
        add_deltas limit (vals ++ [i64 (default 0 (last vals) + ZigZagDecode z)]) zs
      else Panic
  end.

(** [for pos := 8; pos < l; pos += 8] over the words after the first. *)
Fixpoint decode_words (limit k : nat) (inp : list Z) (scratch vals : list Z)
    : res (list Z * list Z) :=
  match k with
  | O => Ok (scratch, vals)
  | S k =>
      let! w := UnmarshalUint64 inp in
      let! (scratch, n) := Decode scratch w in
      let! vals := add_deltas limit vals (take n scratch) in
      let! inp := from inp 8 in
      decode_words limit k inp scratch vals
  end.

Definition decodingSimple8b (enc : Integer) : res (Integer * slice) :=
  let inp := buf enc in
  if (length inp <? 16)%nat then Err "integer: too small data for decode"
  else
    let! encCount := UnmarshalUint32 inp in
    let! inp := from inp 4 in
    let! srcCount := UnmarshalUint32 inp in
    let! inp := from inp 4 in
    let encCount := Z.to_nat encCount in
    let srcCount := Z.to_nat srcCount in
    let l := (encCount * 8)%nat in
    if (length inp <? l)%nat then Err "integer: too small data for decode"
    else
      let srcLen := (srcCount * 8 + outPos enc)%nat in
      let out := if (scap (out enc) <? srcLen)%nat
                 then append (mk_slice [] (zeros srcLen)) (sdata (out enc))
                 else out enc in
      let! out := reslice_to out srcLen in
      if (srcCount =? 0)%nat then Panic
      else
        let! first := UnmarshalUint64 inp in
        let! inp := from inp 8 in
        let! (scratch, vals) :=
          decode_words srcCount (encCount - 1) inp (values enc) [ZigZagDecode first] in
        if negb (length vals =? srcCount)%nat then Panic
        else Ok (set_values enc scratch,
                 mk_slice (overwrite (sdata out) (outPos enc) (Int64Slice2byte vals))
                   (sspare out)).

Definition decodingZSTD (enc : Integer) : res slice :=
  match zstd_decode (buf enc) with
  | Some dec => Ok (append (out enc) dec)
  | None => Err "zstd: invalid input"
  end.

Definition decodingUncompressed (enc : Integer) : res slice :=
  let! inLen := UnmarshalUint32 (buf enc) in
  let! inp := from (buf enc) 4 in
  if (length inp <? Z.to_nat inLen)%nat
  then Err "integer: invalid uncompressed data len"
  else UnmarshalInt64Slice2Bytes inp (out enc).

(** The reservation of the zstd branch: [out[:cap(out[outPos:])]], then
    zeros up to [srcLen], then back to [outPos]. *)
Definition zstd_reserve (out : slice) (srcLen : nat) : res slice :=
  let pos := slen out in
  let c := (scap out - pos)%nat in
  let! out :=
    if (c <? srcLen)%nat then
      let! cut := reslice_to out c in
      Ok (append cut (zeros (srcLen - c)))
    else Ok out in
  reslice_to out pos.

Definition decodeInit (enc : Integer) (inp : list Z) (out : slice) : res Integer :=
  if (length inp <? 5)%nat then Err "integer: invalid compressed len"
  else
    let! b0 := index inp 0 in
    let! inp := from inp 1 in
    let enc := set_encodingType enc (b0 ≫ 4) in
    if negb (validEncodingType enc) then Err "integer: invalid compressed data"
    else if encodingType enc =? intCompressZSTD then
      let! srcLen := UnmarshalUint32 inp in
      let! inp := from inp 4 in
      let! compLen := UnmarshalUint32 inp in
      let! inp := from inp 4 in
      if (length inp <? Z.to_nat compLen)%nat then Err "integer: invalid compressed len"
      else
        let! inp := between inp 0 (Z.to_nat compLen) in
        let! out := zstd_reserve out (Z.to_nat srcLen) in
        Ok (set_decode enc (encodingType enc) inp (slen out) out)
    else Ok (set_decode enc (encodingType enc) inp (slen out) out).

Definition Decoding (enc : Integer) (inp : list Z) (out : slice) : res (Integer * slice) :=
  let! enc := decodeInit enc inp out in
  if encodingType enc =? intUncompressed then
    let! out := decodingUncompressed enc in Ok (enc, out)
  else if encodingType enc =? intCompressedConstDelta then
    let! out := decodingConstDelta enc in Ok (enc, out)
  else if encodingType enc =? intCompressedSimple8b then decodingSimple8b enc
  else let! out := decodingZSTD enc in Ok (enc, out).
End Coder.

(** ** Zig-zag as used by the coder *)

Lemma ZigZagEncode_zigzag64 v : ZigZagEncode v = zigzag64 v.
Proof.
  unfold ZigZagEncode, zigzag64. by rewrite wrap_u_lxor, wrap_u_s by lia.
Qed.

Lemma ZigZagDecode_unzigzag64 u : ZigZagDecode u = unzigzag64 u.
Proof.
  unfold ZigZagDecode, unzigzag64. apply wrap_s_eq; [lia|].
  rewrite !wrap_u_lxor, wrap_u_idemp by lia. do 3 f_equal.
  apply wrap_s_eq; [lia|]. rewrite !Z.shiftl_mul_pow2 by lia.
  change 1 with (Z.ones 1) at 1. rewrite Z.land_ones by lia. unfold wrap_u. zdm.
Qed.

Lemma ZigZag_roundtrip v : in_s 64 v → ZigZagDecode (ZigZagEncode v) = v.
Proof.
  intros. rewrite ZigZagDecode_unzigzag64, ZigZagEncode_zigzag64.
  by apply unzigzag64_zigzag64.
Qed.

Lemma ZigZagEncode_range v : in_u 64 (ZigZagEncode v).
Proof. rewrite ZigZagEncode_zigzag64. apply zigzag64_range. Qed.

(** ** Deltas *)

(** The zig-zag deltas of a list, and the values they rebuild. *)
Fixpoint delta_codes (prev : Z) (rest : list Z) : list Z :=
  match rest with
  | [] => []
  | x :: rest => ZigZagEncode (i64 (x - prev)) :: delta_codes x rest
  end.

Fixpoint rebuild (prev : Z) (zs : list Z) : list Z :=
  match zs with
  | [] => []
  | z :: zs => let x := i64 (prev + ZigZagDecode z) in x :: rebuild x zs
  end.

Lemma length_delta_codes prev rest : length (delta_codes prev rest) = length rest.
Proof. revert prev. induction rest; intros; simpl; auto. Qed.
#[export] Hint Rewrite length_delta_codes : gemini_len.

Lemma Integer_length_rebuild prev zs : length (rebuild prev zs) = length zs.
Proof. revert prev. induction zs; intros; simpl; auto. Qed.
#[export] Hint Rewrite Integer_length_rebuild : gemini_len.

(** Differences taken with wrap-around add back up to the values. *)
Lemma rebuild_delta_codes prev rest :
  Forall (in_s 64) rest → rebuild prev (delta_codes prev rest) = rest.
Proof.
  intros Hr. revert prev. induction Hr as [|x rest Hx _ IH]; intros; [done|].
  cbn [delta_codes rebuild]. rewrite ZigZag_roundtrip by by apply wrap_s_range.
  rewrite wrap_s_add_r by lia. replace (prev + (x - prev)) with x by lia.
  rewrite wrap_s_id by done. by rewrite IH.
Qed.

Lemma Integer_rebuild_app prev xs ys :
  rebuild prev (xs ++ ys) =
  rebuild prev xs ++ rebuild (default prev (last (rebuild prev xs))) ys.
Proof.
  revert prev. induction xs as [|x xs IH]; intros; [done|].
  cbn [app rebuild]. rewrite IH. cbn [app]. do 2 f_equal.
  set (y := i64 _). rewrite last_cons. by destruct (last (rebuild y xs)).
Qed.

Lemma init_loop_spec prev rest : ∀ zz c s,
  ∃ c' s', init_loop prev rest zz c s = (zz ++ delta_codes prev rest, c', s') ∧
    (c' = true → c = true ∧ Forall (λ z, z = default 0 (last zz)) (delta_codes prev rest)) ∧
    (s' = true → s = true ∧ Forall (λ z, z ≤ MaxValue) (delta_codes prev rest)).
Proof.
  revert prev. induction rest as [|x rest IH]; intros prev zz c s.
  - exists c, s. simpl. rewrite app_nil_r. auto 6.
  - cbn [init_loop delta_codes]. set (z := ZigZagEncode _).
    destruct (IH x (zz ++ [z]) (c && (default 0 (last zz) =? z))
                (if s && (MaxValue <? z) then false else s)) as (c' & s' & He & Hc & Hs).
    exists c', s'. rewrite He, <- app_assoc. split; [done|]. split.
    + intros Hc'. destruct (Hc Hc') as [[-> Hz%Z.eqb_eq]%andb_true_iff Hf].
      rewrite last_snoc in Hf. cbn [default] in Hf. rewrite Hz. auto.
    + intros Hs'. destruct (Hs Hs') as [Hs1 Hs2]. destruct s; [|done].
      destruct (Z.ltb_spec MaxValue z); [done|]. auto.
Qed.

(** Decoders write into the array they are given when the result fits: then what lies behind
    the result is as it was. *)
Definition in_place (out o : slice) : Prop := (slen o <= scap out)%nat → sspare o = drop (slen o) (sback out).

Section InPlace.
Context `{RT : GoRuntime}.

Lemma reslice_in_place s n o : reslice_to s n = Ok o → slen o = n ∧ sspare o = drop n (sback s).
Proof.
  unfold reslice_to. bcase; [|done]. intros [= <-]. split; [|done]. unfold slen. cbn [sdata].
  rewrite length_take, length_sback. lia.
Qed.

Lemma Resize_in_place s n o : Resize s n = Ok o → slen o = n ∧ in_place s o.
Proof.
  unfold Resize. bcase; intros E.
  - destruct (reslice_to s (scap s)) as [f| | |]; try discriminate E. cbn [res_bind] in E.
    apply reslice_in_place in E as [Hl _]. split; [done|]. intros ?. lia.
  - cbn [res_bind] in E. apply reslice_in_place in E as [Hl Hs]. split; [done|]. intros _. by rewrite Hl.
Qed.

Lemma realloc_in_place s n d o : reslice_to (if (scap s <? n)%nat then d else s) n = Ok o → slen o = n ∧ in_place s o.
Proof.
  bcase; intros E; apply reslice_in_place in E as [Hl Hs]; (split; [done|]); intros ?; [lia|by rewrite Hl].
Qed.

Lemma append_in_place s xs : in_place s (append s xs).
Proof.
  unfold in_place, append, slen, scap, sback. bcase; cbn [sdata sspare]; rewrite ?length_app; [|lia].
  intros _. by rewrite drop_app_add.
Qed.

(** Other bytes of the same length. *)
Lemma in_place_data s o d : in_place s o → length d = slen o → in_place s (mk_slice d (sspare o)).
Proof. unfold in_place, slen. cbn [sdata sspare]. by intros H ->. Qed.

Lemma unmarshal_in_place src dst s :
  UnmarshalInt64Slice2Bytes src dst = Ok s → slen s = (slen dst + length src)%nat → in_place dst s.
Proof.
  unfold UnmarshalInt64Slice2Bytes, in_place. intros E Hl Hc. rewrite Hl in *.
  rewrite (proj2 (Nat.ltb_ge _ _)) in E by lia. rewrite reslice_to_Ok in E by done. cbn [res_bind] in E.
  destruct (unmarshal_each _ _ _ _); try discriminate E. injection E as <-. done.
Qed.
End InPlace.

Section Branches.
Context `{RT : GoRuntime} `{ZS : Zstd}.

(** ** Constant delta *)

Definition const_block (z0 z1 : Z) (n : nat) : list Z :=
  put_u64 z0 ++ PutUvarint z1 ++ PutUvarint (Z.of_nat n).

Lemma encodingConstDelta_spec enc out z0 z1 zs :
  encodingType enc = intCompressedConstDelta → zigZagDeltas enc = z0 :: z1 :: zs →
  Z.of_nat (S (length zs)) < 2 ^ 64 →
  ∃ o, encodingConstDelta enc out = Ok o ∧
       sdata o = sdata out ++ 16 :: const_block z0 z1 (S (length zs)).
Proof.
  intros Hty Hz Hn. unfold encodingConstDelta. rewrite Hty, Hz.
  destruct (growBuffer_spec out (1 + 8 + 22)) as (o & -> & Ho & _). rs.
  unfold index. cbn [lookup list_lookup]. rs. eexists; split; [done|].
  unfold MarshalUint64Append. autorewrite with gemini_data. rewrite Ho.
  unfold const_block. rewrite <- !app_assoc. cbn [length].
  rewrite (wrap_u_id 64); [|unfold in_u; lia].
  replace (Z.of_nat (S (S (length zs))) - 1) with (Z.of_nat (S (length zs))) by lia.
  done.
Qed.

Lemma Integer_const_delta_loop_rebuild n prev z :
  const_delta_loop n prev (ZigZagDecode z) = rebuild prev (replicate n z).
Proof. revert prev. induction n; intros; simpl; f_equal; auto. Qed.

Lemma decodingConstDelta_spec enc z0 z1 n :
  buf enc = const_block z0 z1 n → outPos enc = slen (out enc) →
  in_u 64 z0 → in_u 64 z1 → Z.of_nat n < 2 ^ 62 →
  ∃ o, decodingConstDelta enc = Ok o ∧
       sdata o = sdata (out enc) ++
         Int64Slice2byte (ZigZagDecode z0 :: rebuild (ZigZagDecode z0) (replicate n z1)) ∧ in_place (out enc) o.
Proof.
  intros Hb Hp H0 H1 Hn. unfold decodingConstDelta. rewrite Hb. unfold const_block.
  rewrite length_app, length_put_u64. cbn [Nat.add Nat.ltb Nat.leb].
  unfold UnmarshalUint64. rewrite get_put_u64 by done. rs.
  rewrite from_app by done. rs. rewrite Uvarint_PutUvarint by done.
  pose proof (put_uvarint_nonempty z1). bcase. rewrite Nat2Z.id, from_app by done. rs.
  rewrite <- (app_nil_r (PutUvarint (Z.of_nat n))), Uvarint_PutUvarint
    by (unfold in_u; lia).
  pose proof (put_uvarint_nonempty (Z.of_nat n)). bcase.
  rewrite wrap_s_id by (try done; unfold in_s; lia).
  replace (Z.to_nat (Z.of_nat n + 1)) with (S n) by lia.
  destruct (Resize_grow (out enc) (S n * 8 + outPos enc)) as (o & E & Hl & Ht); [lia|]. rewrite E. rs.
  cbn [Nat.eqb]. eexists; split; [done|]. cbn [sdata].
  rewrite Integer_const_delta_loop_rebuild, Nat.sub_succ, Nat.sub_0_r.
  assert (Hw : length (sdata o) = (outPos enc + length (Int64Slice2byte (ZigZagDecode z0 :: rebuild (ZigZagDecode z0) (replicate n z1))))%nat).
  { unfold slen in Hl. rewrite Hl. unfold Int64Slice2byte. len. }
  split; [by rewrite overwrite_tail, Hp, Ht|]. apply in_place_data; [by apply Resize_in_place in E as [_ E]|].
  unfold slen. rewrite overwrite_tail by done. len.
Qed.

(** ** Simple8b *)

Definition simple8b_block (z0 : Z) (ws : list Z) (srcCount : nat) : list Z :=
  put_u32 (Z.of_nat (length ws) + 1) ++ put_u32 (Z.of_nat srcCount) ++
  concat (put_u64 <$> z0 :: ws).

Lemma encodingSimple8b_spec enc out z0 zs :
  encodingType enc = intCompressedSimple8b → zigZagDeltas enc = z0 :: zs →
  Forall (λ v, 0 ≤ v ≤ MaxValue) zs → Z.of_nat (S (length zs)) < 2 ^ 32 →
  ∃ o ws, encodingSimple8b enc out = Ok o ∧ words_decode ws zs ∧
    sdata o = sdata out ++ 32 :: simple8b_block z0 ws (S (length zs)).
Proof.
  intros Hty Hz Hv Hn. unfold encodingSimple8b. rewrite Hty, Hz.
  rewrite from_Ok by (simpl; lia). rs. change (drop 1 (z0 :: zs)) with zs.
  destruct (EncodeAll_spec zs Hv) as (arr & ws & -> & Hl & Ht & Hws). rs.
  pose proof (words_decode_length _ _ Hws) as Hwl.
  change (take 1 (z0 :: zs) ++ arr) with (z0 :: arr).
  rewrite between_Ok by (simpl; lia). rs.
  rewrite Nat.sub_0_r, drop_0, Nat.add_1_r, firstn_cons, Ht.
  match goal with |- context [MarshalUint64SliceAppend ?o ?us] =>
    destruct (MarshalUint64SliceAppend_spec o us) as (s & -> & Hs) end.
  exists s, ws. split; [done|]. split; [done|]. rewrite Hs.
  unfold MarshalUint32Append. autorewrite with gemini_data.
  rewrite !(wrap_u_id 32) by (unfold in_u; simpl length; lia).
  simpl length. rewrite Hl. unfold simple8b_block. rewrite <- !app_assoc. done.
Qed.

Lemma Integer_add_deltas_spec limit vals zs :
  vals ≠ [] → (length vals + length zs <= limit)%nat →
  add_deltas limit vals zs = Ok (vals ++ rebuild (default 0 (last vals)) zs).
Proof.
  revert vals. induction zs as [|z zs IH]; intros vals Hv Hl.
  - simpl. by rewrite app_nil_r.
  - cbn [add_deltas rebuild]. simpl in Hl. bcase. rewrite IH; [|by destruct vals|len].
    rewrite last_snoc, <- app_assoc. done.
Qed.

Lemma Integer_decode_words_spec limit ws zs : words_decode ws zs → ∀ scratch vals,
  length scratch = 240%nat → vals ≠ [] → (length vals + length zs <= limit)%nat →
  ∃ scratch', length scratch' = 240%nat ∧
    decode_words limit (length ws) (concat (put_u64 <$> ws)) scratch vals =
      Ok (scratch', vals ++ rebuild (default 0 (last vals)) zs).
Proof.
  induction 1 as [|w xs ws ys [Hw Hd] Hx Hws IH]; intros scratch vals Hs Hv Hl.
  - exists scratch. simpl. by rewrite app_nil_r.
  - rewrite length_app in Hl. cbn [length decode_words]. rewrite fmap_cons. cbn [concat].
    unfold UnmarshalUint64. rewrite get_put_u64 by done. rs.
    destruct (Hd scratch Hs) as (d & -> & Ht & Hdl). rs.
    rewrite Ht, Integer_add_deltas_spec by (done || lia). rs.
    rewrite from_app by done. rs.
    set (vals' := vals ++ _).
    destruct (IH d vals') as (sc & Hsc & ->); [done| |unfold vals'; len|].
    { unfold vals'. by destruct vals. }
    exists sc. split; [done|]. do 2 f_equal. unfold vals'.
    rewrite <- app_assoc. f_equal. rewrite Integer_rebuild_app. f_equal. f_equal.
    rewrite last_app. by destruct (last (rebuild _ xs)).
Qed.

Lemma decodingSimple8b_spec enc z0 ws zs :
  buf enc = simple8b_block z0 ws (S (length zs)) → words_decode ws zs →
  outPos enc = slen (out enc) → length (values enc) = 240%nat → in_u 64 z0 →
  Z.of_nat (S (length zs)) < 2 ^ 32 →
  ∃ enc' o, decodingSimple8b enc = Ok (enc', o) ∧
    sdata o = sdata (out enc) ++
      Int64Slice2byte (ZigZagDecode z0 :: rebuild (ZigZagDecode z0) zs) ∧ in_place (out enc) o ∧ length (values enc') = 240%nat.
Proof.
  intros Hb Hws Hp Hvals H0 Hn. pose proof (words_decode_length _ _ Hws) as Hwl.
  unfold decodingSimple8b. rewrite Hb. unfold simple8b_block.
  set (body := concat _).
  assert (Hbody : length body = (8 * S (length ws))%nat) by (by apply length_concat_put).
  rewrite !length_app, !length_put_u32, Hbody. bcase.
  unfold UnmarshalUint32. rewrite get_put_u32 by (unfold in_u; lia). rs.
  rewrite from_app by done. rs. rewrite get_put_u32 by (unfold in_u; lia). rs.
  rewrite from_app by done. rs. rewrite Hbody.
  replace (Z.to_nat (Z.of_nat (length ws) + 1)) with (S (length ws)) by lia.
  rewrite Nat2Z.id. bcase.
  destruct (realloc_grow (out enc) (S (length zs) * 8 + outPos enc)) as (o & E & Hl & Ht);
    [lia|]. rewrite E. rs. cbn [Nat.eqb].
  unfold body. rewrite fmap_cons. cbn [concat]. unfold UnmarshalUint64.
  rewrite get_put_u64 by done. rs. rewrite from_app by done. rs.
  rewrite Nat.sub_succ, Nat.sub_0_r.
  destruct (Integer_decode_words_spec (S (length zs)) ws zs Hws (values enc) [ZigZagDecode z0])
    as (sc & Hsc & ->); [done|done|simpl; lia|]. rs.
  replace (length _ =? S (length zs))%nat with true
    by (symmetry; apply Nat.eqb_eq; simpl; len).
  cbn [negb]. eexists _, _. split; [done|]. cbn [sdata last app default].
  set (vs := ZigZagDecode z0 :: rebuild (ZigZagDecode z0) zs).
  assert (Hw : length (sdata o) = (outPos enc + length (Int64Slice2byte vs))%nat).
  { unfold slen in Hl. rewrite Hl. unfold Int64Slice2byte, vs. len. }
  split; [by rewrite overwrite_tail, Hp, Ht|]. split; [|done]. apply in_place_data; [by apply realloc_in_place in E as [_ E]|].
  unfold slen. rewrite overwrite_tail by done. len.
Qed.

(** ** Plain values *)

Lemma Integer_uncompressedData_spec inp out :
  Z.of_nat (length inp) < 2 ^ 32 →
  ∃ o, uncompressedData inp out = Ok o ∧ sdata o = sdata out ++ 64 :: plain_block inp.
Proof. apply (plain_block_append 64). Qed.

Lemma decodingUncompressed_spec enc inp :
  buf enc = plain_block inp → bytes_ok inp → (length inp mod 8 = 0)%nat →
  Z.of_nat (length inp) < 2 ^ 32 →
  ∃ o, decodingUncompressed enc = Ok o ∧ sdata o = sdata (out enc) ++ inp ∧ in_place (out enc) o.
Proof.
  intros Hb Hok Hm Hl. unfold decodingUncompressed. rewrite Hb.
  destruct (plain_block_read inp (out enc) "integer: invalid uncompressed data len") as (o & Ho & Hd); [done..|]. exists o. split; [done|]. split; [done|].
  revert Ho. unfold plain_block, UnmarshalUint32. rewrite get_put_u32 by (unfold in_u; lia). rs. rewrite from_app by done. rs.
  bcase; [done|]. intros E. apply unmarshal_in_place in E; [done|]. unfold slen. rewrite Hd.
  rewrite length_app, (length_concat_put _ 8), length_Bytes2Int64Slice by done. pose proof (Nat.div_mod_eq (length inp) 8). lia.
Qed.

(** ** Zstd *)

Definition zstd_block (inp : list Z) : list Z := packed_block (length inp) (zstd_encode inp).

Lemma encodingZSTD_spec `{!ZstdLaws ZS} enc inp out :
  encodingType enc = intCompressZSTD → bytes_ok inp →
  Z.of_nat (ZSTDCompressBound (length inp)) < 2 ^ 32 →
  ∃ o, encodingZSTD enc inp out = Ok o ∧
    (sdata o = sdata out ++ 48 :: zstd_block inp ∨ sdata o = sdata out ++ 64 :: plain_block inp).
Proof.
  intros Hty Hok Hbd. unfold encodingZSTD. rewrite Hty.
  pose proof (ZSTDCompressBound_ge (length inp)). pose proof (zstd_bound inp) as Hzb.
  destruct (growBuffer_spec out (ZSTDCompressBound (length inp) + 9)) as (g & -> & Hg & Hgc). rs.
  rewrite reslice_to_Ok by lia. rs. set (g0 := mk_slice _ _).
  assert (Hg0 : sdata g0 = sdata out).
  { unfold g0. cbn [sdata]. rewrite take_sback by (unfold slen; rewrite Hg; done).
    rewrite Hg. by apply take_ge. }
  assert (Hg0l : slen g0 = slen out) by (unfold slen; by rewrite Hg0).
  assert (Hg0c : scap g0 = scap g) by (unfold g0; unfold scap at 1; simpl; len).
  change (u8 (u8 intCompressZSTD ≪ 4)) with 48. fold (append_header g0 48 (length inp)).
  rewrite slen_append_header.
  destruct (compressed_append g0 48 (length inp) (zstd_encode inp))
    as [(s & Hs & Hsd) (o & Ho & Hod)]; [lia..|].
  rewrite Hg0l in *. case_match.
  - rewrite Hs. rs. destruct (Integer_uncompressedData_spec inp s) as (u & -> & Hu); [lia|].
    exists u. split; [done|]. right. by rewrite Hu, Hsd, Hg0.
  - exists o. rewrite (Nat.add_comm (length (zstd_encode inp))). split; [exact Ho|].
    left. by rewrite Hod, Hg0.
Qed.

(** The reservation keeps the bytes already in [out] when the spare room is at
    least as large as they are, or is already sufficient. *)
Lemma zstd_reserve_spec out srcLen :
  (2 * slen out <= scap out ∨ slen out + srcLen <= scap out)%nat →
  ∃ o, zstd_reserve out srcLen = Ok o ∧ sdata o = sdata out ∧ ((slen out + srcLen <= scap out)%nat → o = out).
Proof.
  intros Hc. pose proof (slen_le_scap out). unfold zstd_reserve. bcase.
  - rewrite reslice_to_Ok by lia. rs.
    set (a := append _ _).
    assert (Ha : sdata a = take (scap out - slen out) (sback out) ++ zeros (srcLen - (scap out - slen out)))
      by (unfold a; by rewrite sdata_append).
    assert (Hac : (slen out <= scap a)%nat).
    { unfold scap. rewrite Ha. unfold zeros. len. }
    rewrite reslice_to_Ok by done. eexists; split; [done|]. cbn [sdata]. split; [|lia].
    unfold sback at 1. rewrite Ha, <- app_assoc, take_app_le by len.
    rewrite take_take, Nat.min_l by lia. rewrite take_sback by lia. by apply take_ge.
  - rs. rewrite reslice_to_Ok by lia. eexists; split; [done|]. cbn [sdata].
    rewrite take_sback by lia. rewrite take_ge by done. split; [done|]. intros _.
    unfold sback, slen. rewrite drop_app_length. by destruct out.
Qed.

(** ** Dispatch on the first byte *)

Lemma decodeInit_plain dec ty block out :
  ty = intCompressedConstDelta ∨ ty = intCompressedSimple8b ∨ ty = intUncompressed →
  (4 <= length block)%nat →
  decodeInit dec (16 * ty :: block) out =
    Ok (set_decode (set_encodingType dec ty) ty block (slen out) out).
Proof.
  intros Hty Hl. unfold decodeInit. cbn [length]. bcase.
  unfold index. cbn [lookup list_lookup res_bind].
  rewrite from_Ok by (simpl; lia). rs. change (drop 1 (?x :: block)) with block.
  destruct Hty as [->|[->| ->]]; done.
Qed.

Lemma decodeInit_zstd `{!ZstdLaws ZS} dec inp out o :
  Z.of_nat (ZSTDCompressBound (length inp)) < 2 ^ 32 →
  zstd_reserve out (length inp) = Ok o →
  decodeInit dec (48 :: zstd_block inp) out =
    Ok (set_decode (set_encodingType dec intCompressZSTD) intCompressZSTD
          (zstd_encode inp) (slen o) o).
Proof.
  intros Hbd Ho. pose proof (ZSTDCompressBound_ge (length inp)).
  pose proof (zstd_bound inp).
  unfold decodeInit, zstd_block, packed_block. cbn [length]. rewrite length_app, length_put_u32. bcase.
  unfold index. cbn [lookup list_lookup res_bind].
  rewrite from_Ok by (simpl; lia). rs.
  change (drop 1 (48 :: ?b)) with b. change (48 ≫ 4) with intCompressZSTD.
  change (validEncodingType (set_encodingType dec intCompressZSTD)) with true.
  change (encodingType (set_encodingType dec intCompressZSTD)) with intCompressZSTD.
  change (intCompressZSTD =? intCompressZSTD) with true. cbn [negb].
  unfold UnmarshalUint32. rewrite get_put_u32 by (unfold in_u; lia). rs.
  rewrite from_app by done. rs. rewrite get_put_u32 by (unfold in_u; lia). rs.
  rewrite from_app by done. rs. rewrite !Nat2Z.id. bcase.
  rewrite between_Ok by lia. rs. rewrite Nat.sub_0_r, drop_0, take_ge by lia.
  rewrite Ho. done.
Qed.
End Branches.

(** ** The coder *)

Section RoundTrip.
Context `{RT : GoRuntime} `{ZS : Zstd} `{!ZstdLaws ZS}.

(** What the bytes of a block decode to, for each of the four formats. *)
Lemma Decoding_const dec out z0 z1 n :
  in_u 64 z0 → in_u 64 z1 → Z.of_nat n < 2 ^ 62 →
  ∃ dec' o, Decoding dec (16 :: const_block z0 z1 n) out = Ok (dec', o) ∧
    sdata o = sdata out ++
      Int64Slice2byte (ZigZagDecode z0 :: rebuild (ZigZagDecode z0) (replicate n z1)) ∧
    in_place out o ∧ values dec' = values dec.
Proof.
  intros H0 H1 Hn. unfold Decoding.
  rewrite (decodeInit_plain dec intCompressedConstDelta); [|auto|].
  2: { unfold const_block. len. }
  rs. cbn [set_decode set_encodingType encodingType]. dispatch.
  match goal with |- context [decodingConstDelta ?e] =>
    destruct (decodingConstDelta_spec e z0 z1 n) as (o & -> & Ho & Hp); try done end.
  eexists _, o. by split_and!.
Qed.

Lemma Decoding_simple8b dec out z0 ws zs :
  words_decode ws zs → length (values dec) = 240%nat → in_u 64 z0 →
  Z.of_nat (S (length zs)) < 2 ^ 32 →
  ∃ dec' o, Decoding dec (32 :: simple8b_block z0 ws (S (length zs))) out = Ok (dec', o) ∧
    sdata o = sdata out ++
      Int64Slice2byte (ZigZagDecode z0 :: rebuild (ZigZagDecode z0) zs) ∧
    in_place out o ∧ length (values dec') = 240%nat.
Proof.
  intros Hws Hv H0 Hn. unfold Decoding.
  rewrite (decodeInit_plain dec intCompressedSimple8b); [|auto|].
  2: { unfold simple8b_block. len. }
  rs. cbn [set_decode set_encodingType encodingType]. dispatch.
  match goal with |- context [decodingSimple8b ?e] =>
    destruct (decodingSimple8b_spec e z0 ws zs) as (d & o & -> & Ho & Hp & Hd); try done end.
  by exists d, o.
Qed.

Lemma Decoding_uncompressed dec out inp :
  bytes_ok inp → (length inp mod 8 = 0)%nat → Z.of_nat (length inp) < 2 ^ 32 →
  ∃ dec' o, Decoding dec (64 :: plain_block inp) out = Ok (dec', o) ∧
    sdata o = sdata out ++ inp ∧ in_place out o ∧ values dec' = values dec.
Proof.
  intros Hok Hm Hl. unfold Decoding.
  rewrite (decodeInit_plain dec intUncompressed); [|auto|].
  2: { unfold plain_block. len. }
  rs. cbn [set_decode set_encodingType encodingType]. dispatch.
  match goal with |- context [decodingUncompressed ?e] =>
    destruct (decodingUncompressed_spec e inp) as (o & -> & Ho & Hp); try done end.
  eexists _, o. by split_and!.
Qed.

Lemma Decoding_zstd dec out inp o :
  bytes_ok inp → Z.of_nat (ZSTDCompressBound (length inp)) < 2 ^ 32 →
  zstd_reserve out (length inp) = Ok o →
  ∃ dec', Decoding dec (48 :: zstd_block inp) out = Ok (dec', append o inp) ∧ values dec' = values dec.
Proof.
  intros Hok Hbd Ho. unfold Decoding. rewrite (decodeInit_zstd dec inp out o) by done. rs.
  cbn [set_decode set_encodingType encodingType]. dispatch.
  unfold decodingZSTD. cbn [buf IntCoder.out set_decode]. rewrite zstd_roundtrip by done. rs.
  by eexists.
Qed.

(** What [init] computes for at least three values. *)
Lemma init_spec enc v0 v1 v2 rest :
  let zs := delta_codes v0 (v1 :: v2 :: rest) in
  zigZagDeltas (init enc (v0 :: v1 :: v2 :: rest)) = ZigZagEncode v0 :: zs ∧
  (isConstDelta (init enc (v0 :: v1 :: v2 :: rest)) = true →
     zs = replicate (length zs) (hd 0 zs)) ∧
  (isSimple8b (init enc (v0 :: v1 :: v2 :: rest)) = true →
     Forall (λ z, 0 ≤ z ≤ MaxValue) zs).
Proof.
  cbn [init]. set (z1 := ZigZagEncode (i64 (v1 - v0))).
  destruct (init_loop_spec v1 (v2 :: rest) [ZigZagEncode v0; z1] true
              (if MaxValue <? z1 then false else true)) as (c & s & -> & Hc & Hs).
  cbn [zigZagDeltas isConstDelta isSimple8b set_flags].
  change (delta_codes v0 (v1 :: v2 :: rest)) with (z1 :: delta_codes v1 (v2 :: rest)).
  split; [done|]. split.
  - intros ->. destruct (Hc eq_refl) as [_ Hf]. cbn [hd]. apply Forall_eq_replicate.
    constructor; [done|exact Hf].
  - intros ->. destruct (Hs eq_refl) as [Hz Hf]. apply Forall_and. split.
    + assert (Hpos : ∀ p l, Forall (λ z, 0 ≤ z) (delta_codes p l)).
      { intros p l. revert p. induction l; intros; constructor; [|done].
        apply ZigZagEncode_range. }
      apply (Hpos v0 (v1 :: v2 :: rest)).
    + constructor; [|done]. destruct (Z.ltb_spec MaxValue z1); done.
Qed.

(** A block of the encoder, with what it promises to the decoder. *)
Definition is_block (inp block : list Z) : Prop :=
  let vs := Bytes2Int64Slice inp in
  (∃ v0 z1 n, block = 16 :: const_block (ZigZagEncode v0) z1 n ∧ in_s 64 v0 ∧ in_u 64 z1 ∧
     Z.of_nat n < 2 ^ 62 ∧ vs = v0 :: rebuild v0 (replicate n z1)) ∨
  (∃ v0 ws zs, block = 32 :: simple8b_block (ZigZagEncode v0) ws (S (length zs)) ∧
     in_s 64 v0 ∧ words_decode ws zs ∧ Z.of_nat (S (length zs)) < 2 ^ 32 ∧
     vs = v0 :: rebuild v0 zs) ∨
  block = 48 :: zstd_block inp ∨
  block = 64 :: plain_block inp.

Lemma Integer_Encoding_spec enc inp out :
  bytes_ok inp → inp ≠ [] → (length inp mod 8 = 0)%nat →
  Z.of_nat (ZSTDCompressBound (length inp)) < 2 ^ 32 →
  ∃ enc' o block, Encoding enc inp out = Ok (enc', o) ∧
    sdata o = sdata out ++ block ∧ is_block inp block.
Proof.
  intros Hok Hne Hm Hbd. pose proof (ZSTDCompressBound_ge (length inp)).
  pose proof (Bytes2Int64Slice_range inp) as Hr.
  assert (Hlen : length (Bytes2Int64Slice inp) = (length inp / 8)%nat) by len.
  unfold Encoding, is_block.
  destruct (Nat.eqb_spec (length inp) 0) as [Hz|_]; [exfalso; apply Hne; by apply length_zero_iff_nil|].
  assert (Hshort : ∀ e : Integer, ∃ enc' o block,
    (let! out := uncompressedData inp out in Ok (e, out)) = Ok (enc', o) ∧
    sdata o = sdata out ++ block ∧ block = 64 :: plain_block inp).
  { intros e. destruct (Integer_uncompressedData_spec inp out) as (o & -> & Ho); [lia|]. eauto 10. }
  destruct (Bytes2Int64Slice inp) as [|v0 [|v1 [|v2 rest]]] eqn:Hvs.
  1-3: cbn [init isConstDelta set_flags isSimple8b zigZagDeltas length Nat.leb];
    match goal with |- context [Ok (?e, _)] => destruct (Hshort e) as (?&?&?&?&?&?) end;
    eauto 10.
  destruct (init_spec enc v0 v1 v2 rest) as (Hz & Hc & Hs). cbv zeta in *.
  set (e := init enc _) in *. set (zs := delta_codes _ _) in *.
  apply Forall_cons in Hr as [Hv0 Hr].
  assert (Hreb : v1 :: v2 :: rest = rebuild v0 zs) by (symmetry; by apply rebuild_delta_codes).
  assert (Hzl : (S (length zs) = length inp / 8)%nat).
  { rewrite <- Hlen. unfold zs. len. }
  assert (Hdiv : (length inp / 8 <= length inp)%nat) by (apply Nat.Div0.div_le_upper_bound; lia).
  destruct (isConstDelta e); [|destruct (isSimple8b e)].
  - specialize (Hc eq_refl). assert (Hzs : zs = hd 0 zs :: tl zs) by done.
    assert (Htl : S (length (tl zs)) = length zs) by done.
    destruct (encodingConstDelta_spec (set_encodingType e intCompressedConstDelta) out
      (ZigZagEncode v0) (hd 0 zs) (tl zs)) as (o & -> & Ho);
      [done|by cbn [zigZagDeltas set_encodingType]; rewrite Hz, Hzs|rewrite Htl; lia|].
    rs. rewrite Htl in Ho. eexists _, o, _. split; [done|]. split; [exact Ho|]. left.
    eexists v0, (hd 0 zs), _. split; [done|]. split_and!; [done| | |].
    + unfold zs. cbn [delta_codes hd]. apply ZigZagEncode_range.
    + lia.
    + by rewrite <- Hc, Hreb.
  - specialize (Hs eq_refl).
    destruct (encodingSimple8b_spec (set_encodingType e intCompressedSimple8b) out
      (ZigZagEncode v0) zs) as (o & ws & -> & Hws & Ho); [done|done|done|lia|].
    rs. eexists _, o, _. split; [done|]. split; [exact Ho|]. right; left.
    exists v0, ws, zs. split_and!; try done; [lia|]. by rewrite Hreb.
  - rewrite Hz. cbn [length]. bcase; [|cbn [length] in *; unfold zs in *; len].
    destruct (encodingZSTD_spec (set_encodingType e intCompressZSTD) inp out)
      as (o & -> & Ho); [done..|]. rs. destruct Ho as [Ho|Ho]; eauto 12.
Qed.

(** A block of the encoder is decoded behind what the buffer holds, in the array of the buffer
    when it fits, and the coder can be used again. *)
Lemma Decoding_block dec inp block out2 :
  bytes_ok inp → (length inp mod 8 = 0)%nat → Z.of_nat (ZSTDCompressBound (length inp)) < 2 ^ 32 → is_block inp block →
  length (values dec) = 240%nat → (2 * slen out2 <= scap out2 ∨ slen out2 + length inp <= scap out2)%nat →
  ∃ dec' o2, Decoding dec block out2 = Ok (dec', o2) ∧ sdata o2 = sdata out2 ++ inp ∧ in_place out2 o2 ∧
    length (values dec') = 240%nat.
Proof.
  intros Hok Hm Hbd Hb Hv Hc. pose proof (ZSTDCompressBound_ge (length inp)).
  pose proof (Int64Slice_roundtrip inp Hok Hm) as Hi.
  destruct Hb as [(v0 & z1 & n & -> & Hv0 & Hz1 & Hn & Hvs)|
    [(v0 & ws & zs & -> & Hv0 & Hws & Hn & Hvs)|[->| ->]]].
  - destruct (Decoding_const dec out2 (ZigZagEncode v0) z1 n) as (d & s & -> & Hs & Hp & He);
      [apply ZigZagEncode_range|done..|].
    rewrite ZigZag_roundtrip, <- Hvs, Hi in Hs by done. rewrite <- He in Hv. eauto 10.
  - destruct (Decoding_simple8b dec out2 (ZigZagEncode v0) ws zs) as (d & s & -> & Hs & Hp & He);
      [done|done|apply ZigZagEncode_range|done|].
    rewrite ZigZag_roundtrip, <- Hvs, Hi in Hs by done. eauto 10.
  - destruct (zstd_reserve_spec out2 (length inp) Hc) as (r & Hr & Hrd & Hrp).
    destruct (Decoding_zstd dec out2 inp r) as (d & -> & Hs); try done. rewrite <- Hs in Hv.
    eexists d, _. split; [done|]. rewrite sdata_append, Hrd. split_and!; [done| |done].
    intros Hl. unfold slen in Hl. rewrite sdata_append, Hrd, length_app in Hl. fold (slen out2) in Hl.
    rewrite (Hrp Hl) in *. apply append_in_place. unfold slen. by rewrite sdata_append, length_app.
  - destruct (Decoding_uncompressed dec out2 inp) as (d & s & -> & Hs & Hp & He); try done; [lia|]. rewrite <- He in Hv. eauto 10.
Qed.

(** The integer coder is lossless.  Whatever the encoder chose, and whatever
    is already in the two output buffers, the decoder appends exactly the bytes
    that were encoded.  (The condition on the second buffer is met by every
    empty buffer.) *)
Lemma Integer_roundtrip enc dec inp out out2 :
  bytes_ok inp → inp ≠ [] → (length inp mod 8 = 0)%nat →
  Z.of_nat (ZSTDCompressBound (length inp)) < 2 ^ 32 →
  length (values dec) = 240%nat →
  (2 * slen out2 <= scap out2 ∨ slen out2 + length inp <= scap out2)%nat →
  ∃ enc' o block dec' o2,
    Encoding enc inp out = Ok (enc', o) ∧ sdata o = sdata out ++ block ∧
    Decoding dec block out2 = Ok (dec', o2) ∧ sdata o2 = sdata out2 ++ inp.
Proof.
  intros Hok Hne Hm Hbd Hv Hc.
  destruct (Integer_Encoding_spec enc inp out) as (enc' & o & block & He & Ho & Hb); try done.
  destruct (Decoding_block dec inp block out2) as (dec' & o2 & Hd & Ho2 & _); try done. by exists enc', o, block, dec', o2.
Qed.

(** Decoding a zstd block into a full, non-empty buffer loses what was in
    the buffer: the reservation truncates it and zeroes it before the decoded
    bytes are appended. *)
Theorem Decoding_zstd_clobbers dec inp out :
  bytes_ok inp → Z.of_nat (ZSTDCompressBound (length inp)) < 2 ^ 32 →
  sspare out = [] → (0 < slen out <= length inp)%nat →
  ∃ dec' o, Decoding dec (48 :: zstd_block inp) out = Ok (dec', o) ∧
    sdata o = zeros (slen out) ++ inp.
Proof.
  intros Hok Hbd Hsp Hl.
  assert (Hr : ∃ r, zstd_reserve out (length inp) = Ok r ∧ sdata r = zeros (slen out)).
  { assert (Hcap : scap out = slen out) by (unfold scap; rewrite Hsp; simpl; unfold slen; lia).
    unfold zstd_reserve. rewrite Hcap, Nat.sub_diag, Nat.sub_0_r. bcase.
    rewrite reslice_to_Ok by lia. rs. rewrite take_0, drop_0.
    set (a := append _ _).
    assert (Ha : sdata a = zeros (length inp)) by (unfold a; by rewrite sdata_append).
    rewrite reslice_to_Ok by (unfold scap; rewrite Ha; unfold zeros; len).
    eexists; split; [done|]. cbn [sdata]. unfold sback. rewrite Ha. unfold zeros.
    rewrite take_app_le by len. by rewrite take_replicate, Nat.min_l by lia. }
  destruct Hr as (r & Hr & Hrd). rewrite <- Hrd. destruct (Decoding_zstd dec out inp r) as (d & -> & _); [done..|].
  eexists _, _. split; [done|]. apply sdata_append.
Qed.
End RoundTrip.

(** ** Witnesses *)

Lemma Integer_roundtrip_example :
  let inp := Int64Slice2byte [5; -7; 2 ^ 62; -9] in
  ∃ enc' o block dec' o2,
    Encoding new_Integer inp (mk_slice [1; 2] []) = Ok (enc', o) ∧ sdata o = [1; 2] ++ block ∧
    Decoding new_Integer block nil_slice = Ok (dec', o2) ∧ sdata o2 = [] ++ inp.
Proof.
  apply (Integer_roundtrip new_Integer new_Integer (Int64Slice2byte [5; -7; 2 ^ 62; -9])
           (mk_slice [1; 2] []) nil_slice);
    [by_compute|done|done|by_compute|done|left; simpl; lia].
Defined.

Lemma Decoding_zstd_clobbers_witness :
  let inp := Int64Slice2byte [5; -7] in
  ∃ dec' o, Decoding new_Integer (48 :: zstd_block inp) (mk_slice [1; 2; 3] []) = Ok (dec', o) ∧
    sdata o = [0; 0; 0] ++ inp.
Proof.
  apply (Decoding_zstd_clobbers new_Integer (Int64Slice2byte [5; -7]) (mk_slice [1; 2; 3] []));
    [by_compute|by_compute|done|unfold slen; simpl; lia].
Defined.
