(* ===== verification/TimeCoder.v ===== *)
(** * lib/encoding/timestamp.go: the coder of time columns

    Deltas of uint64 timestamps: a constant delta, simple8b over the deltas
    divided by a common power of ten, snappy, or the plain values. *)

From S2P Require Import Prelude GoSlice NumberEnc Simple8b Coder.

Definition timeCompressedConstDelta : Z := 1.
Definition timeCompressedSimple8b : Z := 2.
Definition timeCompressSnappy : Z := 3.
Definition timeUncompressed : Z := 4.

Definition scales : list Z :=
  [10 ^ 1; 10 ^ 2; 10 ^ 3; 10 ^ 4; 10 ^ 5; 10 ^ 6; 10 ^ 7; 10 ^ 8; 10 ^ 9; 10 ^ 10;
   10 ^ 11; 10 ^ 12].

(** [for i := len(scales)-1; i > 0; i--] *)
Fixpoint scale_from (i : nat) (v : Z) : Z :=
  match i with
  | O => 1
  | S i' => if v mod (scales !!! i) =? 0 then scales !!! i else scale_from i' v
  end.

Definition scale (v : Z) : Z := scale_from (length scales - 1) v.

Record Time := mk_Time {
  encodingType : Z;
  isConstDelta : bool;
  isSimple8b : bool;
  values : list Z;
  buf : list Z;
  deltas : list Z;
  t_scale : Z;
}.

Definition new_Time : Time := mk_Time 0 false false (zeros 240) [] [] 0.

Definition SetEncodingType (enc : Time) (ty : Z) : Time :=
  mk_Time ty (isConstDelta enc) (isSimple8b enc) (values enc) (buf enc) (deltas enc) (t_scale enc).

(** [for enc.scale > 1 && delta%enc.scale != 0 { enc.scale /= 10 }]: a scale of at
    most 10^12 reaches 1 within 12 divisions. *)
Fixpoint reduce_scale (fuel : nat) (sc delta : Z) : Z :=
  match fuel with
  | O => sc
  | S fuel =>
      if (1 <? sc) && negb (delta mod sc =? 0) then reduce_scale fuel (sc / 10) delta else sc
  end.

(** The state of the loop of [encodingInit]. *)
Record init_state := mk_init { i_deltas : list Z; i_scale : Z; i_const : bool; i_s8b : bool }.

(** [for i := timesN-2; i > 0; i--] *)
Fixpoint encodingInit_loop (times : list Z) (i : nat) (st : init_state) : init_state :=
  match i with
  | O => st
  | S i' =>
      let d := u64 (times !!! i - times !!! i') in
      let ds := <[i := d]> (i_deltas st) in
      let sc := reduce_scale 12 (i_scale st) d in
      let c := i_const st && (d =? ds !!! S i) in
      let s := i_s8b st && (d <? MaxValue) in
      encodingInit_loop times i' (mk_init ds sc c s)
  end.

(** For at least two times (the caller has at least three); the entries of the
    re-sliced [deltas] buffer are all assigned. *)
Definition encodingInit (enc : Time) (times : list Z) : Time :=
  let n := length times in
  let d := u64 (times !!! (n - 1)%nat - times !!! (n - 2)%nat) in
  let ds := <[(n - 1)%nat := d]> (zeros n) in
  let st := encodingInit_loop times (n - 2) (mk_init ds (scale d) true (d <? MaxValue)) in
  mk_Time (encodingType enc) (i_const st) (i_s8b st) (values enc) (buf enc)
    (<[0%nat := times !!! 0%nat]> (i_deltas st)) (i_scale st).

Section Coder.
Context `{RT : GoRuntime} `{SN : Snappy}.

(** ** Encoding *)

Definition packUncompressedData (inp : list Z) (out : slice) : res slice :=
  let out := append out [u8 (timeUncompressed ≪ 4)] in
  let out := MarshalUint32Append out (u32 (Z.of_nat (length inp))) in
  MarshalInt64SliceAppend out (Bytes2Int64Slice inp).

Definition constDeltaEncoding (enc : Time) (out : slice) : res slice :=
  let! out := growBuffer out 32 in
  let out := append out [u8 (timeCompressedConstDelta ≪ 4)] in
  let! d0 := index (deltas enc) 0 in
  let out := MarshalUint64Append out d0 in
  let! d1 := index (deltas enc) 1 in
  let out := append out (PutUvarint d1) in
  Ok (append out (PutUvarint (u64 (Z.of_nat (length (deltas enc)) - 1)))).

Definition simple8bEncoding (enc : Time) (out : slice) : res slice :=
  let ds := if 1 <? t_scale enc
            then take 1 (deltas enc) ++ ((λ d, d / t_scale enc) <$> drop 1 (deltas enc))
            else deltas enc in
  let! tl := from ds 1 in
  let! (arr, encCount) := EncodeAll tl in
  let ds := take 1 ds ++ arr in
  let out := append out [u8 (timeCompressedSimple8b ≪ 4)] in
  let out := MarshalUint64Append out (t_scale enc) in
  let out := MarshalUint32Append out (u32 (Z.of_nat encCount + 1)) in
  let out := MarshalUint32Append out (u32 (Z.of_nat (length ds))) in
  let! block := between ds 0 (encCount + 1) in
  MarshalUint64SliceAppend out block.

Definition snappyEncoding (inp : list Z) (out : slice) : res slice :=
  let maxOutLen := (snappy_max (length inp) + 9)%nat in
  let pos := slen out in
  let! out := growBuffer out maxOutLen in
  let out := append out [u8 (timeCompressSnappy ≪ 4)] in
  let out := MarshalUint32Append out (u32 (Z.of_nat (length inp))) in
  let out := MarshalUint32Append out 0 in
  let encPos := slen out in
  let dst := snappy_encode inp in
  let out := snappy_into out inp in
  if SFltb (compressionRation (encPos + length dst) (length inp)) minCompReta then
    let! out := MarshalUint32Copy out (pos + 5) (u32 (Z.of_nat (length dst))) in
    reslice_to out (encPos + length dst)
  else
    let! out := reslice_to out pos in packUncompressedData inp out.

Definition Encoding (enc : Time) (inp : list Z) (out : slice) : res (Time * slice) :=
  let times := Bytes2Uint64Slice inp in
  if (length times <? 3)%nat then
    let! out := packUncompressedData inp out in Ok (enc, out)
  else
    let enc := encodingInit enc times in
    if isConstDelta enc then let! out := constDeltaEncoding enc out in Ok (enc, out)
    else if isSimple8b enc then let! out := simple8bEncoding enc out in Ok (enc, out)
    else let! out := snappyEncoding inp out in Ok (enc, out).

(** ** Decoding *)

Definition validEncodingType (enc : Time) : bool :=
  let ty := encodingType enc in
  (ty =? timeUncompressed) || (ty =? timeCompressSnappy)
  || (ty =? timeCompressedConstDelta) || (ty =? timeCompressedSimple8b).

Definition decodingInit (enc : Time) (inp : list Z) : res Time :=
  if (length inp <? 5)%nat then Err "integer: invalid compressed len"
  else
    let! b0 := index inp 0 in
    let! inp := from inp 1 in
    let enc := SetEncodingType enc (b0 ≫ 4) in
    if negb (validEncodingType enc) then Err "integer: invalid compressed data"
    else Ok (mk_Time (encodingType enc) (isConstDelta enc) (isSimple8b enc) (values enc)
               inp (deltas enc) (t_scale enc)).

Fixpoint const_delta_loop (n : nat) (prev v : Z) : list Z :=
  match n with
  | O => []
  | S n => let x := i64 (prev + v) in x :: const_delta_loop n x v
  end.

Definition constDeltaDecoding (enc : Time) (out : slice) : res slice :=
  let inp := buf enc in
  if (length inp <? 8)%nat then Err "time: too small data for decode"
  else
    let! first := UnmarshalUint64 inp in
    let! inp := from inp 8 in
    let (delta, n) := Uvarint inp in
    if n <=? 0 then Err "time: invalid const delta value"
    else
      let! inp := from inp (Z.to_nat n) in
      let (deltaCount, n) := Uvarint inp in
      if n <=? 0 then Err "time: invalid const delta count"
      else
        let pos := slen out in
        let count := Z.to_nat (i64 (deltaCount + 1)) in
        let l := (count * 8)%nat in
        let! out := growBuffer out l in
        let! out := reslice_to out (l + pos) in
        if (count =? 0)%nat then Panic
        else
          let x0 := i64 first in
          let vals := x0 :: const_delta_loop (count - 1) x0 (i64 delta) in
          Ok (mk_slice (overwrite (sdata out) pos (Int64Slice2byte vals)) (sspare out)).

(** [times[idx] = times[idx-1] + values[i]*timeScale; idx++] *)
Fixpoint add_deltas (limit : nat) (sc : Z) (vals : list Z) (ds : list Z) : res (list Z) :=
  match ds with
  | [] => Ok vals
  | d :: ds =>
      if (length vals <? limit)%nat then
        add_deltas limit sc (vals ++ [u64 (default 0 (last vals) + u64 (d * sc))]) ds
      else Panic
  end.

Fixpoint decode_words (limit : nat) (sc : Z) (k : nat) (inp : list Z)
    (scratch vals : list Z) : res (list Z * list Z) :=
  match k with
  | O => Ok (scratch, vals)
  | S k =>
      let! w := UnmarshalUint64 inp in
      let! (scratch, n) := Decode scratch w in
      let! vals := add_deltas limit sc vals (take n scratch) in
      let! inp := from inp 8 in
      decode_words limit sc k inp scratch vals
  end.

Definition simple8bDecoding (enc : Time) (out : slice) : res (Time * slice) :=
  let inp := buf enc in
  if (length inp <? 24)%nat then Err "time: too small data for decode"
  else
    let! timeScale := UnmarshalUint64 inp in
    let! inp := from inp 8 in
    let! encCount := UnmarshalUint32 inp in
    let! inp := from inp 4 in
    let! srcCount := UnmarshalUint32 inp in
    let! inp := from inp 4 in
    let encCount := Z.to_nat encCount in
    let srcCount := Z.to_nat srcCount in
    let l := (encCount * 8)%nat in
    if (length inp <? l)%nat then Err "time: too small data for decode"
    else
      let pos := slen out in
      let srcLen := (srcCount * 8)%nat in
      let! out := growBuffer out srcLen in
      let! out := reslice_to out (srcLen + pos) in
      if (srcCount =? 0)%nat then Panic
      else
        let! first := UnmarshalUint64 inp in
        let! inp := from inp 8 in
        let! (scratch, vals) :=
          decode_words srcCount timeScale (encCount - 1) inp (values enc) [first] in
        if negb (length vals =? srcCount)%nat then Panic
        else Ok (mk_Time (encodingType enc) (isConstDelta enc) (isSimple8b enc) scratch
                   (buf enc) (deltas enc) (t_scale enc),
                 mk_slice (overwrite (sdata out) pos (Uint64Slice2byte vals)) (sspare out)).

Definition snappyDecoding (enc : Time) (out : slice) : res slice :=
  let inp := buf enc in
  let! srcLen := UnmarshalUint32 inp in
  let! inp := from inp 4 in
  let! compLen := UnmarshalUint32 inp in
  let! inp := from inp 4 in
  let srcLen := Z.to_nat srcLen in
  if (length inp <? Z.to_nat compLen)%nat then Err "time: tool small compress data"
  else
    let! inp := between inp 0 (Z.to_nat compLen) in
    let! out := growBuffer out srcLen in
    let pos := slen out in
    match snappy_decode inp with
    | None => Err "snappy: corrupt input"
    | Some dec =>
        let out := fill_spare out dec in
        if negb (length dec =? srcLen)%nat then Panic
        else reslice_to out (pos + srcLen)
    end.

Definition unpackUncompressedData (enc : Time) (out : slice) : res slice :=
  let! srcLen := UnmarshalUint32 (buf enc) in
  let! inp := from (buf enc) 4 in
  if (length inp <? Z.to_nat srcLen)%nat then Err "time: too small data"
  else UnmarshalInt64Slice2Bytes inp out.

Definition Decoding (enc : Time) (inp : list Z) (out : slice) : res (Time * slice) :=
  let! enc := decodingInit enc inp in
  if encodingType enc =? timeUncompressed then
    let! out := unpackUncompressedData enc out in Ok (enc, out)
  else if encodingType enc =? timeCompressedConstDelta then
    let! out := constDeltaDecoding enc out in Ok (enc, out)
  else if encodingType enc =? timeCompressedSimple8b then simple8bDecoding enc out
  else let! out := snappyDecoding enc out in Ok (enc, out).
End Coder.

(** ** The common scale *)

Definition pow10 (sc : Z) : Prop := ∃ k : nat, (k <= 12)%nat ∧ sc = 10 ^ Z.of_nat k.

Lemma pow10_1 : pow10 1.
Proof. exists 0%nat. split; [lia|done]. Qed.

Lemma pow10_pos sc : pow10 sc → 0 < sc.
Proof. intros (k & _ & ->). apply Z.pow_pos_nonneg; lia. Qed.

Lemma pow10_u64 sc : pow10 sc → in_u 64 sc.
Proof.
  intros Hp. pose proof (pow10_pos _ Hp). destruct Hp as (k & Hk & ->).
  unfold in_u. pose proof (Z.pow_le_mono_r 10 (Z.of_nat k) 12).
  change (10 ^ 12) with 1000000000000 in *. lia.
Qed.

Lemma scales_pow10 i : (i < length scales)%nat → pow10 (scales !!! i).
Proof.
  intros Hi. change scales with ((λ k : nat, 10 ^ Z.of_nat k) <$> seq 1 12).
  exists (S i). split; [simpl in Hi; lia|]. apply list_lookup_total_correct.
  by rewrite list_lookup_fmap, lookup_seq_lt.
Qed.

Lemma scale_from_spec i v :
  (i < length scales)%nat → pow10 (scale_from i v) ∧ (scale_from i v | v).
Proof.
  induction i as [|i IH]; intros Hi.
  - simpl. split; [apply pow10_1|apply Z.divide_1_l].
  - cbn [scale_from]. bcase; [|apply IH; lia].
    pose proof (scales_pow10 (S i) Hi) as Hp. split; [done|].
    apply Z.mod_divide; [apply pow10_pos in Hp; lia|done].
Qed.

Lemma pow10_div sc : pow10 sc → 1 < sc → pow10 (sc / 10) ∧ (sc / 10 | sc).
Proof.
  intros (k & Hk & ->) Hsc. destruct k as [|k]; [simpl in Hsc; lia|].
  rewrite Nat2Z.inj_succ, Z.pow_succ_r by lia.
  rewrite (Z.mul_comm 10), Z.div_mul by lia. split; [exists k; lia|]. apply Z.divide_factor_l.
Qed.

(** Twelve divisions are enough: the result divides the delta and the old scale. *)
Lemma reduce_scale_spec fuel : ∀ sc d,
  (∃ k : nat, (k <= fuel)%nat ∧ (k <= 12)%nat ∧ sc = 10 ^ Z.of_nat k) →
  pow10 (reduce_scale fuel sc d) ∧ (reduce_scale fuel sc d | d) ∧ (reduce_scale fuel sc d | sc).
Proof.
  induction fuel as [|fuel IH]; intros sc d (k & Hkf & Hk & ->).
  - replace k with 0%nat by lia. simpl.
    split_and!; [apply pow10_1|apply Z.divide_1_l|apply Z.divide_1_l].
  - cbn [reduce_scale].
    assert (Hp : pow10 (10 ^ Z.of_nat k)) by (exists k; done).
    destruct (Z.ltb_spec 1 (10 ^ Z.of_nat k)) as [H1|H1]; simpl.
    + destruct (Z.eqb_spec (d mod 10 ^ Z.of_nat k) 0) as [Hd|Hd]; simpl.
      * split_and!; [done| |done]. apply Z.mod_divide; lia.
      * destruct k as [|k]; [simpl in H1; lia|].
        destruct (IH (10 ^ Z.of_nat (S k) / 10) d) as (Ha & Hb & Hc).
        { exists k. split_and!; [lia..|].
          rewrite Nat2Z.inj_succ, Z.pow_succ_r, Z.mul_comm, Z.div_mul by lia. done. }
        split_and!; [done..|]. etransitivity; [exact Hc|]. by apply pow10_div.
    + assert (10 ^ Z.of_nat k = 1) as -> by (apply pow10_pos in Hp; lia).
      split_and!; [apply pow10_1|apply Z.divide_1_l|done].
Qed.

(** ** Deltas *)

Definition diff (times : list Z) (i : nat) : Z := u64 (times !!! i - times !!! (i - 1)%nat).

Fixpoint diffs (prev : Z) (rest : list Z) : list Z :=
  match rest with
  | [] => []
  | x :: rest => u64 (x - prev) :: diffs x rest
  end.

Lemma length_diffs prev rest : length (diffs prev rest) = length rest.
Proof. revert prev. induction rest; intros; simpl; auto. Qed.
#[export] Hint Rewrite length_diffs : gemini_len.

Lemma diffs_lookup prev rest j :
  (j < length rest)%nat → diffs prev rest !! j = Some (diff (prev :: rest) (S j)).
Proof.
  revert prev j. induction rest as [|x rest IH]; intros prev j Hj; [simpl in Hj; lia|].
  destruct j as [|j]; [done|]. simpl in Hj. cbn [diffs]. simpl lookup.
  rewrite IH by lia. unfold diff. do 3 f_equal. simpl. by rewrite !Nat.sub_0_r.
Qed.

(** What holds of the loop state once the deltas above index [i] are done. *)
Record init_inv (times : list Z) (i : nat) (st : init_state) : Prop := {
  inv_length : length (i_deltas st) = length times;
  inv_deltas : ∀ j, (i < j < length times)%nat → i_deltas st !!! j = diff times j;
  inv_pow10 : pow10 (i_scale st);
  inv_scale : ∀ j, (i < j < length times)%nat → (i_scale st | diff times j);
  inv_const : i_const st = true →
    ∀ j, (i < j < length times)%nat → diff times j = diff times (length times - 1);
  inv_s8b : i_s8b st = true → ∀ j, (i < j < length times)%nat → diff times j < MaxValue;
}.

Lemma encodingInit_loop_inv times i st :
  (S i < length times)%nat → init_inv times i st →
  init_inv times 0 (encodingInit_loop times i st).
Proof.
  revert st. induction i as [|i IH]; intros st Hi Hinv; [done|].
  destruct Hinv as [Hl Hd Hp Hs Hc Hb]. cbn [encodingInit_loop]. apply IH; [lia|].
  set (d := u64 (times !!! S i - times !!! i)).
  assert (Hdi : d = diff times (S i)) by (unfold d, diff; by rewrite Nat.sub_succ, Nat.sub_0_r).
  destruct (reduce_scale_spec 12 (i_scale st) d) as (Hr1 & Hr2 & Hr3).
  { destruct Hp as (k & ? & ?). exists k. lia. }
  assert (Hcase : ∀ j, (i < j < length times)%nat → j = S i ∨ (S i < j < length times)%nat) by lia.
  assert (Hnext : <[S i := d]> (i_deltas st) !!! S (S i) = diff times (S (S i))).
  { rewrite list_lookup_total_insert_ne by lia. apply Hd. lia. }
  split; cbn [i_deltas i_scale i_const i_s8b].
  - by rewrite length_insert.
  - intros j [->|Hj]%Hcase.
    + rewrite list_lookup_total_insert_eq by lia. done.
    + rewrite list_lookup_total_insert_ne by lia. by apply Hd.
  - done.
  - intros j [->|Hj]%Hcase; [by rewrite <- Hdi|]. etransitivity; [exact Hr3|]. by apply Hs.
  - rewrite Hnext. intros [Hc' Heq%Z.eqb_eq]%andb_true_iff j [->|Hj]%Hcase; [|by apply Hc].
    rewrite <- Hdi, Heq. apply Hc; [done|lia].
  - intros [Hb' Hlt%Z.ltb_lt]%andb_true_iff j [->|Hj]%Hcase; [by rewrite <- Hdi|by apply Hb].
Qed.

(** [encodingInit] on [t0 :: rest]. *)
Lemma encodingInit_spec enc t0 rest :
  (2 <= length rest)%nat →
  let e := encodingInit enc (t0 :: rest) in
  let ds := diffs t0 rest in
  deltas e = t0 :: ds ∧ pow10 (t_scale e) ∧ Forall (λ d, (t_scale e | d)) ds ∧
  (isConstDelta e = true → ds = replicate (length ds) (hd 0 ds)) ∧
  (isSimple8b e = true → Forall (λ d, d < MaxValue) ds).
Proof.
  intros Hr. cbv zeta. unfold encodingInit. set (times := t0 :: rest).
  set (n := length times). assert (Hn : n = S (length rest)) by done.
  match goal with |- context [encodingInit_loop times ?i ?st] =>
    assert (Hinv : init_inv times 0 (encodingInit_loop times i st)) end.
  { apply encodingInit_loop_inv; [fold n; lia|]. fold n.
    assert (Hlast : ∀ j, (n - 2 < j < n)%nat → j = (n - 1)%nat) by lia.
    assert (Hdl : u64 (times !!! (n - 1)%nat - times !!! (n - 2)%nat) = diff times (n - 1)).
    { unfold diff. by replace (n - 1 - 1)%nat with (n - 2)%nat by lia. }
    destruct (scale_from_spec (length scales - 1) (diff times (n - 1))) as [Hs1 Hs2];
      [simpl; lia|].
    split; cbn [i_deltas i_scale i_const i_s8b]; fold n; rewrite ?Hdl.
    - by rewrite length_insert; unfold zeros; rewrite length_replicate.
    - intros j ->%Hlast. apply list_lookup_total_insert_eq. unfold zeros.
      rewrite length_replicate. lia.
    - done.
    - by intros j ->%Hlast.
    - by intros _ j ->%Hlast.
    - intros Hlt%Z.ltb_lt j ->%Hlast. done. }
  destruct Hinv as [Hl Hd Hp Hs Hc Hb]. set (st := encodingInit_loop _ _ _) in *.
  cbn [deltas t_scale isConstDelta isSimple8b].
  assert (Hds : ∀ j x, diffs t0 rest !! j = Some x → (0 < S j < length times)%nat ∧ x = diff times (S j)).
  { intros j x Hj. pose proof (lookup_lt_Some _ _ _ Hj) as Hlt. rewrite length_diffs in Hlt.
    rewrite diffs_lookup in Hj by done. injection Hj as <-. split; [|done]. simpl. lia. }
  split_and!.
  - change (times !!! 0%nat) with t0. apply list_eq. intros [|j].
    + rewrite list_lookup_insert_eq by (rewrite Hl; simpl; lia). done.
    + rewrite list_lookup_insert_ne by lia. simpl lookup at 2.
      destruct (decide (j < length rest)%nat).
      * rewrite diffs_lookup by done. rewrite (list_lookup_lookup_total_lt _ (S j)) by (rewrite Hl; simpl; lia).
        f_equal. apply Hd. simpl. lia.
      * rewrite !lookup_ge_None_2; [done|len|rewrite Hl; simpl; lia].
  - done.
  - apply Forall_lookup_2. intros j x [? ->]%Hds. by apply Hs.
  - intros Hc'. specialize (Hc Hc'). apply Forall_eq_replicate, Forall_lookup_2.
    intros j x [? ->]%Hds. rewrite Hc by done.
    destruct rest as [|t1 rest]; [simpl in Hr; lia|].
    cbn [diffs hd]. change (u64 (t1 - t0)) with (diff times 1).
    symmetry. apply Hc. simpl. lia.
  - intros Hb'. apply Forall_lookup_2. intros j x [? ->]%Hds. by apply Hb.
Qed.

(** The times rebuilt from scaled deltas. *)
Fixpoint rebuild (prev sc : Z) (ds : list Z) : list Z :=
  match ds with
  | [] => []
  | d :: ds => let x := u64 (prev + u64 (d * sc)) in x :: rebuild x sc ds
  end.

Lemma Time_length_rebuild prev sc ds : length (rebuild prev sc ds) = length ds.
Proof. revert prev. induction ds; intros; simpl; auto. Qed.
#[export] Hint Rewrite Time_length_rebuild : gemini_len.

Lemma rebuild_diffs sc prev rest :
  0 < sc → Forall (in_u 64) rest → Forall (λ d, (sc | d)) (diffs prev rest) →
  rebuild prev sc ((λ d, d / sc) <$> diffs prev rest) = rest.
Proof.
  intros Hsc Hr. revert prev. induction Hr as [|x rest Hx _ IH]; intros prev Hd; [done|].
  cbn [diffs] in *. apply Forall_cons in Hd as [Hd Hds]. rewrite fmap_cons. cbn [rebuild].
  replace (u64 (x - prev) / sc * sc) with (u64 (x - prev)).
  2: { destruct Hd as [q ->]. by rewrite Z.div_mul by lia. }
  rewrite wrap_u_idemp, wrap_u_add_r. replace (prev + (x - prev)) with x by lia.
  rewrite wrap_u_id by done. by rewrite IH.
Qed.

Lemma Time_rebuild_app prev sc xs ys :
  rebuild prev sc (xs ++ ys) =
  rebuild prev sc xs ++ rebuild (default prev (last (rebuild prev sc xs))) sc ys.
Proof.
  revert prev. induction xs as [|x xs IH]; intros; [done|].
  cbn [app rebuild]. rewrite IH. cbn [app]. do 2 f_equal.
  set (y := u64 _). rewrite last_cons. by destruct (last (rebuild y sc xs)).
Qed.

Lemma fmap_div_1 (ds : list Z) : (λ d, d / 1) <$> ds = ds.
Proof. induction ds as [|d ds IH]; [done|]. rewrite fmap_cons, IH. by rewrite Z.div_1_r. Qed.

Lemma diffs_range prev rest : Forall (in_u 64) (diffs prev rest).
Proof. revert prev. induction rest; intros; constructor; [by apply wrap_u_range|done]. Qed.

Section Branches.
Context `{RT : GoRuntime} `{SN : Snappy}.

Lemma grow_reslice out n :
  ∃ o, (let! o := growBuffer out n in reslice_to o (n + slen out)) = Ok o ∧
       slen o = (n + slen out)%nat ∧ take (slen out) (sdata o) = sdata out.
Proof.
  destruct (growBuffer_spec out n) as (g & -> & Hg & Hc). rs.
  rewrite reslice_to_Ok by lia. eexists; split; [done|]. unfold slen at 1. cbn [sdata]. split.
  - len.
  - rewrite take_take, Nat.min_l by lia. rewrite take_sback; unfold slen; rewrite Hg; [|done].
    by apply take_ge.
Qed.

(** ** Constant delta *)

Definition const_block (t0 d : Z) (n : nat) : list Z :=
  put_u64 t0 ++ PutUvarint d ++ PutUvarint (Z.of_nat n).

Lemma constDeltaEncoding_spec enc out t0 d ds :
  deltas enc = t0 :: d :: ds → Z.of_nat (S (length ds)) < 2 ^ 64 →
  ∃ o, constDeltaEncoding enc out = Ok o ∧
       sdata o = sdata out ++ 16 :: const_block t0 d (S (length ds)).
Proof.
  intros Hz Hn. unfold constDeltaEncoding. rewrite Hz.
  destruct (growBuffer_spec out 32) as (o & -> & Ho & _). rs.
  unfold index. cbn [lookup list_lookup]. rs. eexists; split; [done|].
  unfold MarshalUint64Append. autorewrite with gemini_data. rewrite Ho.
  unfold const_block. rewrite <- !app_assoc. cbn [length].
  rewrite (wrap_u_id 64); [|unfold in_u; lia].
  replace (Z.of_nat (S (S (length ds))) - 1) with (Z.of_nat (S (length ds))) by lia.
  done.
Qed.

(** The decoder works on the signed view of the same bytes. *)
Lemma Time_const_delta_loop_rebuild n p d :
  const_delta_loop n (i64 p) (i64 d) = i64 <$> rebuild p 1 (replicate n d).
Proof.
  revert p. induction n as [|n IH]; intros; [done|].
  cbn [const_delta_loop replicate rebuild]. rewrite fmap_cons.
  assert (Hx : i64 (i64 p + i64 d) = i64 (u64 (p + u64 (d * 1)))).
  { rewrite wrap_s_u by lia. rewrite wrap_s_add_r, Z.add_comm, wrap_s_add_r by lia.
    rewrite Z.mul_1_r. apply wrap_s_eq; [lia|]. rewrite wrap_u_add_r. f_equal. lia. }
  rewrite Hx. by rewrite IH.
Qed.

Lemma constDeltaDecoding_spec enc out t0 d n :
  buf enc = const_block t0 d n → in_u 64 t0 → in_u 64 d → Z.of_nat n < 2 ^ 62 →
  ∃ o, constDeltaDecoding enc out = Ok o ∧
       sdata o = sdata out ++ Uint64Slice2byte (t0 :: rebuild t0 1 (replicate n d)).
Proof.
  intros Hb H0 H1 Hn. unfold constDeltaDecoding. rewrite Hb. unfold const_block.
  rewrite length_app, length_put_u64. cbn [Nat.add Nat.ltb Nat.leb].
  unfold UnmarshalUint64. rewrite get_put_u64 by done. rs.
  rewrite from_app by done. rs. rewrite Uvarint_PutUvarint by done.
  pose proof (put_uvarint_nonempty d). bcase. rewrite Nat2Z.id, from_app by done. rs.
  rewrite <- (app_nil_r (PutUvarint (Z.of_nat n))), Uvarint_PutUvarint
    by (unfold in_u; lia).
  pose proof (put_uvarint_nonempty (Z.of_nat n)). bcase.
  rewrite wrap_s_id by (try done; unfold in_s; lia).
  replace (Z.to_nat (Z.of_nat n + 1)) with (S n) by lia.
  destruct (grow_reslice out (S n * 8)) as (o & Ho & Hl & Ht).
  destruct (growBuffer out (S n * 8)) as [g| | |]; cbn [res_bind] in *; try done.
  rewrite Ho. rs. cbn [Nat.eqb]. eexists; split; [done|]. cbn [sdata].
  rewrite Time_const_delta_loop_rebuild, Nat.sub_succ, Nat.sub_0_r, <- fmap_cons.
  unfold Int64Slice2byte. rewrite bytes_le_signed by done.
  rewrite overwrite_tail, Ht; [done|]. unfold slen in *. rewrite Hl. len.
Qed.

(** ** Simple8b *)

Definition simple8b_block (t0 sc : Z) (ws : list Z) (srcCount : nat) : list Z :=
  put_u64 sc ++ put_u32 (Z.of_nat (length ws) + 1) ++ put_u32 (Z.of_nat srcCount) ++
  concat (put_u64 <$> t0 :: ws).

Lemma simple8bEncoding_spec enc out t0 ds :
  deltas enc = t0 :: ds → 0 < t_scale enc →
  Forall (λ v, 0 ≤ v ≤ MaxValue) ((λ d, d / t_scale enc) <$> ds) →
  Z.of_nat (S (length ds)) < 2 ^ 32 →
  ∃ o ws, simple8bEncoding enc out = Ok o ∧
    words_decode ws ((λ d, d / t_scale enc) <$> ds) ∧
    sdata o = sdata out ++ 32 :: simple8b_block t0 (t_scale enc) ws (S (length ds)).
Proof.
  intros Hz Hsc Hv Hn. unfold simple8bEncoding. rewrite Hz.
  set (sc := t_scale enc) in *. set (qs := (λ d, d / sc) <$> ds) in *.
  assert (Hds : (if 1 <? sc then take 1 (t0 :: ds) ++ ((λ d, d / sc) <$> drop 1 (t0 :: ds))
                 else t0 :: ds) = t0 :: qs).
  { bcase; [done|]. unfold qs. replace sc with 1 by lia. by rewrite fmap_div_1. }
  rewrite Hds. rewrite from_Ok by (simpl; lia). rs. change (drop 1 (t0 :: qs)) with qs.
  assert (Hql : length qs = length ds) by (unfold qs; len).
  destruct (EncodeAll_spec qs Hv) as (arr & ws & -> & Hl & Ht & Hws). rs.
  pose proof (words_decode_length _ _ Hws) as Hwl.
  change (take 1 (t0 :: qs) ++ arr) with (t0 :: arr).
  rewrite between_Ok by (simpl; lia). rs.
  rewrite Nat.sub_0_r, drop_0, Nat.add_1_r, firstn_cons, Ht.
  match goal with |- context [MarshalUint64SliceAppend ?o ?us] =>
    destruct (MarshalUint64SliceAppend_spec o us) as (s & -> & Hs) end.
  exists s, ws. split; [done|]. split; [done|]. rewrite Hs.
  unfold MarshalUint32Append, MarshalUint64Append. autorewrite with gemini_data.
  rewrite !(wrap_u_id 32) by (unfold in_u; simpl length; lia).
  simpl length. rewrite Hl, Hql. unfold simple8b_block. rewrite <- !app_assoc. done.
Qed.

Lemma Time_add_deltas_spec limit sc vals ds :
  vals ≠ [] → (length vals + length ds <= limit)%nat →
  add_deltas limit sc vals ds = Ok (vals ++ rebuild (default 0 (last vals)) sc ds).
Proof.
  revert vals. induction ds as [|d ds IH]; intros vals Hv Hl.
  - simpl. by rewrite app_nil_r.
  - cbn [add_deltas rebuild]. simpl in Hl. bcase. rewrite IH; [|by destruct vals|len].
    rewrite last_snoc, <- app_assoc. done.
Qed.

Lemma Time_decode_words_spec limit sc ws ds : words_decode ws ds → ∀ scratch vals,
  length scratch = 240%nat → vals ≠ [] → (length vals + length ds <= limit)%nat →
  ∃ scratch', length scratch' = 240%nat ∧
    decode_words limit sc (length ws) (concat (put_u64 <$> ws)) scratch vals =
      Ok (scratch', vals ++ rebuild (default 0 (last vals)) sc ds).
Proof.
  induction 1 as [|w xs ws ys [Hw Hd] Hx Hws IH]; intros scratch vals Hs Hv Hl.
  - exists scratch. simpl. by rewrite app_nil_r.
  - rewrite length_app in Hl. cbn [length decode_words]. rewrite fmap_cons. cbn [concat].
    unfold UnmarshalUint64. rewrite get_put_u64 by done. rs.
    destruct (Hd scratch Hs) as (d & -> & Ht & Hdl). rs.
    rewrite Ht, Time_add_deltas_spec by (done || lia). rs.
    rewrite from_app by done. rs.
    set (vals' := vals ++ _).
    destruct (IH d vals') as (scr & Hsc & ->); [done| |unfold vals'; len|].
    { unfold vals'. by destruct vals. }
    exists scr. split; [done|]. do 2 f_equal. unfold vals'.
    rewrite <- app_assoc. f_equal. rewrite Time_rebuild_app. f_equal. f_equal.
    rewrite last_app. by destruct (last (rebuild _ _ xs)).
Qed.

Lemma simple8bDecoding_spec enc out t0 sc ws ds :
  buf enc = simple8b_block t0 sc ws (S (length ds)) → words_decode ws ds →
  length (values enc) = 240%nat → in_u 64 t0 → in_u 64 sc →
  Z.of_nat (S (length ds)) < 2 ^ 32 →
  ∃ enc' o, simple8bDecoding enc out = Ok (enc', o) ∧
    sdata o = sdata out ++ Uint64Slice2byte (t0 :: rebuild t0 sc ds).
Proof.
  intros Hb Hws Hvals H0 Hsc Hn. pose proof (words_decode_length _ _ Hws) as Hwl.
  unfold simple8bDecoding. rewrite Hb. unfold simple8b_block.
  set (body := concat _).
  assert (Hbody : length body = (8 * S (length ws))%nat) by (by apply length_concat_put).
  rewrite !length_app, length_put_u64, !length_put_u32, Hbody. bcase.
  unfold UnmarshalUint64, UnmarshalUint32. rewrite get_put_u64 by done. rs.
  rewrite from_app by done. rs.
  rewrite get_put_u32 by (unfold in_u; lia). rs.
  rewrite from_app by done. rs. rewrite get_put_u32 by (unfold in_u; lia). rs.
  rewrite from_app by done. rs. rewrite Hbody.
  replace (Z.to_nat (Z.of_nat (length ws) + 1)) with (S (length ws)) by lia.
  rewrite Nat2Z.id. bcase.
  destruct (grow_reslice out (S (length ds) * 8)) as (o & Ho & Hl & Ht).
  destruct (growBuffer out (S (length ds) * 8)) as [g| | |]; cbn [res_bind] in *; try done.
  rewrite Ho. rs. cbn [Nat.eqb].
  unfold body. rewrite fmap_cons. cbn [concat].
  rewrite get_put_u64 by done. rs. rewrite from_app by done. rs.
  rewrite Nat.sub_succ, Nat.sub_0_r.
  destruct (Time_decode_words_spec (S (length ds)) sc ws ds Hws (values enc) [t0])
    as (scr & _ & ->); [done|done|simpl; lia|]. rs.
  replace (length _ =? S (length ds))%nat with true
    by (symmetry; apply Nat.eqb_eq; simpl; len).
  cbn [negb]. eexists _, _. split; [done|]. cbn [sdata].
  rewrite overwrite_tail, Ht; [done|].
  unfold slen in *. rewrite Hl. unfold Uint64Slice2byte. len.
Qed.

(** ** Snappy and plain values *)

Lemma packUncompressedData_spec inp out :
  Z.of_nat (length inp) < 2 ^ 32 →
  ∃ o, packUncompressedData inp out = Ok o ∧ sdata o = sdata out ++ 64 :: plain_block inp.
Proof. intros. by apply plain_block_append. Qed.

Lemma snappyEncoding_spec `{!SnappyLaws SN} inp out :
  Z.of_nat (length inp) < 2 ^ 32 → Z.of_nat (snappy_max (length inp)) < 2 ^ 32 →
  ∃ o, snappyEncoding inp out = Ok o ∧
    (sdata o = sdata out ++ 48 :: packed_block (length inp) (snappy_encode inp) ∨
     sdata o = sdata out ++ 64 :: plain_block inp).
Proof.
  intros Hl Hm. pose proof (snappy_bound inp) as Hb. unfold snappyEncoding.
  destruct (growBuffer_spec out (snappy_max (length inp) + 9)) as (g & -> & Hg & Hc). rs.
  assert (Hgl : slen g = slen out) by (unfold slen; by rewrite Hg).
  fold (append_header g (u8 (timeCompressSnappy ≪ 4)) (length inp)).
  change (u8 (timeCompressSnappy ≪ 4)) with 48.
  rewrite snappy_into_header, slen_append_header, <- Hgl by lia.
  destruct (compressed_append g 48 (length inp) (snappy_encode inp)) as
    [(s & Hs & Hsd) (o & Ho & Hod)]; [lia..|]. rewrite <- Hg.
  case_match.
  - rewrite Ho. eauto.
  - rewrite Hs. rs. destruct (packUncompressedData_spec inp s Hl) as (o' & -> & Ho').
    rewrite Hsd in Ho'. eauto.
Qed.

Lemma snappyDecoding_spec `{!SnappyLaws SN} enc inp out :
  buf enc = packed_block (length inp) (snappy_encode inp) → bytes_ok inp →
  Z.of_nat (length inp) < 2 ^ 32 → Z.of_nat (snappy_max (length inp)) < 2 ^ 32 →
  ∃ o, snappyDecoding enc out = Ok o ∧ sdata o = sdata out ++ inp.
Proof.
  intros Hb Hok Hl Hm. pose proof (snappy_bound inp). unfold snappyDecoding. rewrite Hb.
  unfold packed_block, UnmarshalUint32. rewrite get_put_u32 by (unfold in_u; lia). rs.
  rewrite from_app by done. rs. rewrite get_put_u32 by (unfold in_u; lia). rs.
  rewrite from_app by done. rs. rewrite !Nat2Z.id. bcase.
  rewrite between_Ok by lia. rs. rewrite Nat.sub_0_r, drop_0, take_ge by lia.
  destruct (growBuffer_spec out (length inp)) as (g & -> & Hg & Hc). rs.
  rewrite snappy_roundtrip by done. rewrite Nat.eqb_refl. cbn [negb].
  assert (Hgl : slen g = slen out) by (unfold slen; by rewrite Hg).
  destruct (fill_spare_reslice g inp) as (_ & Ht & Hcap); [rewrite length_sspare; lia|].
  rewrite reslice_to_Ok by done. eexists; split; [done|]. cbn [sdata]. by rewrite Ht, Hg.
Qed.

(** ** Dispatch on the first byte *)

Lemma decodingInit_ok dec ty block :
  validEncodingType (SetEncodingType dec ty) = true →
  (4 <= length block)%nat →
  decodingInit dec (16 * ty :: block) =
    Ok (mk_Time ty (isConstDelta dec) (isSimple8b dec) (values dec) block (deltas dec)
          (t_scale dec)).
Proof.
  intros Hty Hl. unfold decodingInit. cbn [length]. bcase.
  unfold index. cbn [lookup list_lookup res_bind].
  rewrite from_Ok by (simpl; lia). rs. change (drop 1 (?x :: block)) with block.
  replace ((16 * ty) ≫ 4) with ty; [by rewrite Hty|].
  rewrite Z.shiftr_div_pow2 by lia. change (2 ^ 4) with 16. by rewrite Z.mul_comm, Z.div_mul.
Qed.
End Branches.

(** ** The coder *)

Section RoundTrip.
Context `{RT : GoRuntime} `{SN : Snappy} `{!SnappyLaws SN}.

(** A block of the encoder, with what it promises to the decoder. *)
Definition is_block (inp block : list Z) : Prop :=
  let ts := Bytes2Uint64Slice inp in
  (∃ t0 d n, block = 16 :: const_block t0 d n ∧ in_u 64 t0 ∧ in_u 64 d ∧
     Z.of_nat n < 2 ^ 62 ∧ ts = t0 :: rebuild t0 1 (replicate n d)) ∨
  (∃ t0 sc ws ds, block = 32 :: simple8b_block t0 sc ws (S (length ds)) ∧
     in_u 64 t0 ∧ in_u 64 sc ∧ words_decode ws ds ∧ Z.of_nat (S (length ds)) < 2 ^ 32 ∧
     ts = t0 :: rebuild t0 sc ds) ∨
  block = 48 :: packed_block (length inp) (snappy_encode inp) ∨
  block = 64 :: plain_block inp.

Lemma Time_Encoding_spec enc inp out :
  bytes_ok inp → (length inp mod 8 = 0)%nat →
  Z.of_nat (length inp) < 2 ^ 32 → Z.of_nat (snappy_max (length inp)) < 2 ^ 32 →
  ∃ enc' o block, Encoding enc inp out = Ok (enc', o) ∧
    sdata o = sdata out ++ block ∧ is_block inp block.
Proof.
  intros Hok Hm Hl Hmax. unfold Encoding, is_block.
  pose proof (Bytes2Uint64Slice_range inp Hok) as Hr.
  assert (Hlen : length (Bytes2Uint64Slice inp) = (length inp / 8)%nat) by len.
  assert (Hdiv : (length inp / 8 <= length inp)%nat) by (apply Nat.Div0.div_le_upper_bound; lia).
  destruct (Nat.ltb_spec (length (Bytes2Uint64Slice inp)) 3) as [H3|H3].
  { destruct (packUncompressedData_spec inp out Hl) as (o & -> & Ho). rs. eauto 12. }
  destruct (Bytes2Uint64Slice inp) as [|t0 rest]; [simpl in H3; lia|].
  cbn [length] in Hlen, H3. apply Forall_cons in Hr as [H0 Hr].
  destruct (encodingInit_spec enc t0 rest) as (Hd & Hp & Hdv & Hc & Hs); [lia|].
  set (e := encodingInit enc (t0 :: rest)) in *. set (ds := diffs t0 rest) in *.
  assert (Hdl : length ds = length rest) by apply length_diffs.
  pose proof (diffs_range t0 rest) as Hdr. fold ds in Hdr.
  pose proof (pow10_pos _ Hp) as Hpos.
  destruct (isConstDelta e); [|destruct (isSimple8b e)].
  - specialize (Hc eq_refl). assert (Hds : ds = hd 0 ds :: tl ds).
    { destruct ds; [simpl in Hdl; lia|done]. }
    assert (Htl : S (length (tl ds)) = length ds).
    { destruct ds; [simpl in Hdl; lia|done]. }
    destruct (constDeltaEncoding_spec e out t0 (hd 0 ds) (tl ds)) as (o & -> & Ho);
      [by rewrite Hd, Hds|lia|].
    rs. rewrite Htl in Ho. eexists _, o, _. split; [done|]. split; [exact Ho|]. left.
    eexists t0, (hd 0 ds), _. split; [done|]. split_and!; [done| |lia|].
    + rewrite Hds in Hdr. by apply Forall_cons in Hdr as [? _].
    + rewrite <- Hc. f_equal. rewrite <- (fmap_div_1 ds). symmetry.
      apply rebuild_diffs; [lia|done|]. apply Forall_true. intros. apply Z.divide_1_l.
  - specialize (Hs eq_refl).
    destruct (simple8bEncoding_spec e out t0 ds) as (o & ws & -> & Hws & Ho); [done|done| |lia|].
    { apply Forall_fmap. pose proof (proj2 (Forall_and _ _) (conj Hdr Hs)) as Hb.
      eapply Forall_impl; [exact Hb|]. intros d [Hd1 Hd2]. cbv beta.
      unfold in_u in Hd1. split; [apply Z.div_pos; lia|].
      transitivity d; [apply Z.div_le_upper_bound; nia|by apply Z.lt_le_incl]. }
    rs. eexists _, o, _. split; [done|].
    assert (Hql : length ((λ d, d / t_scale e) <$> ds) = length ds) by apply length_fmap.
    rewrite <- Hql in Ho. split; [exact Ho|]. right; left.
    exists t0, (t_scale e), ws, ((λ d, d / t_scale e) <$> ds).
    split_and!; [done|done|by apply pow10_u64|done|rewrite Hql; lia|].
    f_equal. symmetry. by apply rebuild_diffs.
  - destruct (snappyEncoding_spec inp out Hl Hmax) as (o & -> & [Ho|Ho]); rs; eauto 12.
Qed.

Lemma Time_Decoding_spec dec inp block out :
  bytes_ok inp → (length inp mod 8 = 0)%nat →
  Z.of_nat (length inp) < 2 ^ 32 → Z.of_nat (snappy_max (length inp)) < 2 ^ 32 →
  length (values dec) = 240%nat → is_block inp block →
  ∃ dec' o, Decoding dec block out = Ok (dec', o) ∧ sdata o = sdata out ++ inp.
Proof.
  intros Hok Hm Hl Hmax Hv Hb. pose proof (Uint64Slice_roundtrip inp Hok Hm) as Hi.
  unfold Decoding.
  destruct Hb as [(t0 & d & n & -> & H0 & Hd & Hn & Hts)|
    [(t0 & sc & ws & ds & -> & H0 & Hsc & Hws & Hn & Hts)|[->| ->]]].
  - rewrite (decodingInit_ok dec timeCompressedConstDelta) by (done || unfold const_block; len).
    rs. cbn [encodingType]. dispatch.
    match goal with |- context [constDeltaDecoding ?e _] =>
      destruct (constDeltaDecoding_spec e out t0 d n) as (o & -> & Ho); try done end.
    rs. rewrite <- Hts, Hi in Ho. eauto.
  - rewrite (decodingInit_ok dec timeCompressedSimple8b) by (done || unfold simple8b_block; len).
    rs. cbn [encodingType]. dispatch.
    match goal with |- context [simple8bDecoding ?e _] =>
      destruct (simple8bDecoding_spec e out t0 sc ws ds) as (d & o & -> & Ho); try done end.
    rewrite <- Hts, Hi in Ho. eauto.
  - rewrite (decodingInit_ok dec timeCompressSnappy) by (done || unfold packed_block; len).
    rs. cbn [encodingType]. dispatch.
    match goal with |- context [snappyDecoding ?e _] =>
      destruct (snappyDecoding_spec e inp out) as (o & -> & Ho); try done end.
    rs. eauto.
  - rewrite (decodingInit_ok dec timeUncompressed) by (done || unfold plain_block; len).
    rs. cbn [encodingType]. dispatch.
    unfold unpackUncompressedData. cbn [buf].
    destruct (plain_block_read inp out "time: too small data") as (o & -> & Ho); try done.
    rs. eauto.
Qed.

(** The time coder is lossless.  Whatever the encoder chose (constant delta,
    scaled simple8b, snappy or plain), and whatever is already in the two output
    buffers, the decoder appends exactly the bytes that were encoded. *)
Lemma Time_roundtrip enc dec inp out out2 :
  bytes_ok inp → (length inp mod 8 = 0)%nat →
  Z.of_nat (length inp) < 2 ^ 32 → Z.of_nat (snappy_max (length inp)) < 2 ^ 32 →
  length (values dec) = 240%nat →
  ∃ enc' o block dec' o2,
    Encoding enc inp out = Ok (enc', o) ∧ sdata o = sdata out ++ block ∧
    Decoding dec block out2 = Ok (dec', o2) ∧ sdata o2 = sdata out2 ++ inp.
Proof.
  intros. destruct (Time_Encoding_spec enc inp out) as (enc' & o & block & He & Ho & Hb); try done.
  destruct (Time_Decoding_spec dec inp block out2) as (dec' & o2 & Hd & Ho2); try done.
  by exists enc', o, block, dec', o2.
Qed.

(** [encodingInit] finds a scale that is a power of ten of at most 10^12 and
    divides every delta, the constant-delta flag is only set when all deltas are
    equal and the simple8b flag only when each fits a simple8b word. *)
Theorem encodingInit_scale enc t0 rest :
  (2 <= length rest)%nat →
  let e := encodingInit enc (t0 :: rest) in
  pow10 (t_scale e) ∧ Forall (λ d, (t_scale e | d)) (diffs t0 rest) ∧
  (isConstDelta e = true → ∃ d, diffs t0 rest = replicate (length rest) d) ∧
  (isSimple8b e = true → Forall (λ d, 0 ≤ d < MaxValue) (diffs t0 rest)).
Proof.
  intros Hr e. destruct (encodingInit_spec enc t0 rest Hr) as (_ & Hp & Hd & Hc & Hs).
  split_and!; [done|done| |].
  - intros Hcd. specialize (Hc Hcd). rewrite length_diffs in Hc. eauto.
  - intros Hsb. pose proof (diffs_range t0 rest) as Hdr.
    pose proof (proj2 (Forall_and _ _) (conj Hdr (Hs Hsb))) as Hb.
    eapply Forall_impl; [exact Hb|]. intros d [Hd1 Hd2]. unfold in_u in Hd1. lia.
Qed.
End RoundTrip.

(** ** Witnesses *)

Lemma Time_roundtrip_example :
  let inp := Uint64Slice2byte [1000000; 3000000; 4000000; 9000000] in
  ∃ enc' o block dec' o2,
    Encoding new_Time inp (mk_slice [1; 2] []) = Ok (enc', o) ∧ sdata o = [1; 2] ++ block ∧
    Decoding new_Time block nil_slice = Ok (dec', o2) ∧ sdata o2 = [] ++ inp.
Proof.
  apply (Time_roundtrip new_Time new_Time
           (Uint64Slice2byte [1000000; 3000000; 4000000; 9000000]) (mk_slice [1; 2] []) nil_slice);
    [by_compute|done|by_compute|by_compute|done].
Defined.

Lemma encodingInit_scale_witness :
  let e := encodingInit new_Time [5000; 7000; 10000] in
  pow10 (t_scale e) ∧ Forall (λ d, (t_scale e | d)) (diffs 5000 [7000; 10000]) ∧
  (isConstDelta e = true → ∃ d, diffs 5000 [7000; 10000] = replicate 2 d) ∧
  (isSimple8b e = true → Forall (λ d, 0 ≤ d < MaxValue) (diffs 5000 [7000; 10000])).
Proof. apply (encodingInit_scale new_Time 5000 [7000; 10000]). simpl. lia. Defined.
