(* ===== verification/Bitstream.v ===== *)
(** * lib/util/lifted/go-bitstream/bitstream.go: bit-level readers and writers

    The writer collects bits, most significant first, in a one-byte buffer whose
    [count] is the number of free low bits; the reader keeps its unread bits at
    the top of a one-byte buffer.  The underlying [io.Writer] and [io.Reader]
    are the [BytesBuffer] of lib/encoding/encoding.go, which the coders pass.

    The abstract view of a stream is its list of bits ([bw_bits], [br_bits]);
    every operation is shown to append to, or to take from, that list. *)

From S2P Require Import Prelude GoSlice.

(** ** BytesBuffer (lib/encoding/encoding.go) *)

Module BytesBuffer.
Section Ops.
Context `{GoRuntime}.
Definition NewBytesBuffer (buf : slice) : res slice := reslice_to buf 0.
Definition Write (w : slice) (p : list Z) : slice := append w p.
Definition WriteByte (w : slice) (b : Z) : slice := append w [b].
End Ops.

(** [Read(p)] for [len(p) = n]: the bytes read, whether [io.EOF] is returned, and
    what is left. *)
Definition Read (w : list Z) (n : nat) : list Z * bool * list Z :=
  (take n w, (length w <? n)%nat, drop n w).

Definition ReadByte (w : list Z) : res (Z * list Z) :=
  match w with
  | [] => Err "EOF"
  | b :: w => Ok (b, w)
  end.
End BytesBuffer.

(** ** Writer *)

Record BitWriter := mk_BitWriter { bw_w : slice; bw_b : Z; bw_count : Z }.

Definition NewWriter (w : slice) : BitWriter := mk_BitWriter w 0 8.
Definition Reset_writer (_ : BitWriter) (w : slice) : BitWriter := mk_BitWriter w 0 8.
Definition Pending (b : BitWriter) : Z * Z := (bw_b b, bw_count b).
Definition Resume (b : BitWriter) (data count : Z) : BitWriter :=
  mk_BitWriter (bw_w b) data count.

Section Writer.
Context `{GoRuntime}.

Definition WriteBit (b : BitWriter) (bit : bool) : BitWriter :=
  let byt := if bit then Z.lor (bw_b b) (u8 (1 ≪ u8 (bw_count b - 1))) else bw_b b in
  let count := u8 (bw_count b - 1) in
  if count =? 0
  then mk_BitWriter (BytesBuffer.Write (bw_w b) [byt]) 0 8
  else mk_BitWriter (bw_w b) byt count.

Definition WriteByte (b : BitWriter) (byt : Z) : BitWriter :=
  let out := Z.lor (bw_b b) (byt ≫ u8 (8 - bw_count b)) in
  mk_BitWriter (BytesBuffer.Write (bw_w b) [out]) (u8 (byt ≪ bw_count b)) (bw_count b).

(** The counter runs down to 8 within 256 steps from any byte value. *)
Fixpoint flush_loop (fuel : nat) (b : BitWriter) (bit : bool) : res BitWriter :=
  if bw_count b =? 8 then Ok b
  else match fuel with
       | O => Diverge
       | S fuel => flush_loop fuel (WriteBit b bit) bit
       end.
Definition Flush (b : BitWriter) (bit : bool) : res BitWriter := flush_loop 256 b bit.

(** [for nbits >= 8] *)
Fixpoint write_bytes (k : nat) (b : BitWriter) (u : Z) : BitWriter * Z :=
  match k with
  | O => (b, u)
  | S k => write_bytes k (WriteByte b (u8 (u ≫ 56))) (u64 (u ≪ 8))
  end.

(** [for nbits > 0] *)
Fixpoint write_rest (k : nat) (b : BitWriter) (u : Z) : BitWriter :=
  match k with
  | O => b
  | S k => write_rest k (WriteBit b ((u ≫ 63) =? 1)) (u64 (u ≪ 1))
  end.

(** A shift count [64 - uint(nbits)] that wraps around clears the word. *)
Definition WriteBits (b : BitWriter) (u : Z) (nbits : nat) : BitWriter :=
  let u := if (nbits <=? 64)%nat then u64 (u ≪ (64 - Z.of_nat nbits)) else 0 in
  let (b, u) := write_bytes (nbits / 8) b u in
  write_rest (nbits mod 8) b u.
End Writer.

(** ** Reader *)

Record BitReader := mk_BitReader { br_r : list Z; br_b : Z; br_count : Z }.

Definition NewReader (r : list Z) : BitReader := mk_BitReader r 0 0.
Definition Reset_reader (_ : BitReader) (r : list Z) : BitReader := mk_BitReader r 0 0.

(** [b.r.Read(b.b[:])]: one byte, or [io.EOF]. *)
Definition read_one (r : list Z) : res (Z * list Z) :=
  match BytesBuffer.Read r 1 with
  | ([x], _, r) => Ok (x, r)
  | _ => Err "EOF"
  end.

Definition ReadBit (b : BitReader) : res (bool * BitReader) :=
  let! b := if br_count b =? 0 then
              let! (x, r) := read_one (br_r b) in Ok (mk_BitReader r x 8)
            else Ok b in
  let d := Z.land (br_b b) 128 in
  Ok (negb (d =? 0), mk_BitReader (br_r b) (u8 (br_b b ≪ 1)) (u8 (br_count b - 1))).

Definition ReadByte (b : BitReader) : res (Z * BitReader) :=
  if br_count b =? 0 then
    let! (x, r) := read_one (br_r b) in Ok (x, mk_BitReader r x 0)
  else
    let byt := br_b b in
    let! (x, r) := read_one (br_r b) in
    Ok (Z.lor byt (x ≫ br_count b),
        mk_BitReader r (u8 (x ≪ u8 (8 - br_count b))) (br_count b)).

Fixpoint read_bytes (k : nat) (b : BitReader) (u : Z) : res (Z * BitReader) :=
  match k with
  | O => Ok (u, b)
  | S k => let! (byt, b) := ReadByte b in read_bytes k b (Z.lor (u64 (u ≪ 8)) byt)
  end.

Fixpoint read_rest (k : nat) (b : BitReader) (u : Z) : res (Z * BitReader) :=
  match k with
  | O => Ok (u, b)
  | S k =>
      let! (bit, b) := ReadBit b in
      let u := u64 (u ≪ 1) in
      read_rest k b (if bit : bool then Z.lor u 1 else u)
  end.

Definition ReadBits (b : BitReader) (nbits : nat) : res (Z * BitReader) :=
  let! (u, b) := read_bytes (nbits / 8) b 0 in
  read_rest (nbits mod 8) b u.

(** ** Streams as lists of bits *)

(** The [n] low bits of [u], most significant first. *)
Fixpoint bits_of (n : nat) (u : Z) : list bool :=
  match n with
  | O => []
  | S n => Z.testbit u (Z.of_nat n) :: bits_of n u
  end.

Abbreviation byte_bits := (bits_of 8).

Fixpoint bits_val (l : list bool) (u : Z) : Z :=
  match l with
  | [] => u
  | b :: l => bits_val l (2 * u + Z.b2z b)
  end.

Definition stream (l : list Z) : list bool := concat (byte_bits <$> l).

(** The bits a writer holds: the bytes written, then the pending bits. *)
Definition bw_bits (b : BitWriter) : list bool :=
  stream (sdata (bw_w b)) ++ take (Z.to_nat (8 - bw_count b)) (byte_bits (bw_b b)).

(** Between 1 and 8 free low bits, all of them zero. *)
Record bw_ok (b : BitWriter) : Prop := {
  bw_count_ok : 1 ≤ bw_count b ≤ 8;
  bw_byte_ok : in_u 8 (bw_b b);
  bw_data_ok : bytes_ok (sdata (bw_w b));
  bw_low : ∀ i, 0 ≤ i < bw_count b → Z.testbit (bw_b b) i = false;
}.

Definition br_bits (b : BitReader) : list bool :=
  take (Z.to_nat (br_count b)) (byte_bits (br_b b)) ++ stream (br_r b).

(** Unread bits sit at the top; below them, zeros. *)
Record br_ok (b : BitReader) : Prop := {
  br_count_ok : 0 ≤ br_count b ≤ 7;
  br_byte_ok : in_u 8 (br_b b);
  br_low : br_count b ≠ 0 →
    ∀ i, 0 ≤ i < 8 - br_count b → Z.testbit (br_b b) i = false;
  br_bytes : bytes_ok (br_r b);
}.

(** ** Bit-level lemmas *)

Lemma length_bits_of n u : length (bits_of n u) = n.
Proof. induction n; simpl; auto. Qed.
#[export] Hint Rewrite length_bits_of : gemini_len.

Lemma bits_of_app n m u : bits_of (n + m) u = bits_of n (u ≫ Z.of_nat m) ++ bits_of m u.
Proof.
  induction n as [|n IH]; [done|]. cbn [Nat.add bits_of app]. rewrite IH. f_equal.
  rewrite Z.shiftr_spec by lia. f_equal. lia.
Qed.

Lemma bits_of_ext n u v :
  (∀ i, 0 ≤ i < Z.of_nat n → Z.testbit u i = Z.testbit v i) → bits_of n u = bits_of n v.
Proof.
  induction n as [|n IH]; intros Huv; [done|]. cbn [bits_of]. f_equal; [apply Huv; lia|].
  apply IH. intros. apply Huv. lia.
Qed.

Lemma bits_val_app l k u : bits_val (l ++ k) u = bits_val k (bits_val l u).
Proof. revert u. induction l; simpl; auto. Qed.

Lemma bits_val_of n u : ∀ a, bits_val (bits_of n u) a = a * 2 ^ Z.of_nat n + u mod 2 ^ Z.of_nat n.
Proof.
  induction n as [|n IH]; intros a.
  - simpl bits_val. rewrite Z.pow_0_r, Z.mod_1_r. lia.
  - cbn [bits_of bits_val]. rewrite IH, Nat2Z.inj_succ, Z.pow_succ_r by lia.
    rewrite (Z.mul_comm 2 (2 ^ _)), Z.rem_mul_r, Z.testbit_spec' by lia. lia.
Qed.

(** A test on the bits of a byte built with shifts and [|]. *)
Ltac tb :=
  repeat first
    [ rewrite Z.lor_spec
    | rewrite wrap_u_testbit by lia
    | rewrite Z.shiftr_spec by lia
    | rewrite Z.shiftl_spec by lia ].

(** Joining the top [8-c] bits of one byte with the top [c] bits of the next. *)
Lemma byte_join b x c :
  1 ≤ c ≤ 8 → (∀ i, 0 ≤ i < c → Z.testbit b i = false) → in_u 8 x →
  take (Z.to_nat (8 - c)) (byte_bits b) ++ take (Z.to_nat c) (byte_bits x) =
  byte_bits (Z.lor b (x ≫ (8 - c))).
Proof.
  intros Hc Hb Hx.
  assert (Hlow : byte_bits (Z.lor b (x ≫ (8 - c))) =
    bits_of (Z.to_nat (8 - c)) (b ≫ c) ++ bits_of (Z.to_nat c) (x ≫ (8 - c))).
  { replace 8%nat with (Z.to_nat (8 - c) + Z.to_nat c)%nat at 1 by lia.
    rewrite bits_of_app, Z2Nat.id by lia. f_equal; apply bits_of_ext; intros i Hi; tb.
    - rewrite (in_u_testbit 8 x) by (done || lia). apply orb_false_r.
    - rewrite Hb by lia. done. }
  rewrite Hlow. f_equal.
  - replace 8%nat with (Z.to_nat (8 - c) + Z.to_nat c)%nat at 1 by lia.
    rewrite bits_of_app, Z2Nat.id by lia. apply take_app_length'. len.
  - replace 8%nat with (Z.to_nat c + Z.to_nat (8 - c))%nat at 1 by lia.
    rewrite bits_of_app, Z2Nat.id by lia. apply take_app_length'. len.
Qed.

Lemma byte_low x c :
  0 ≤ c ≤ 8 → drop (Z.to_nat c) (byte_bits x) = take (Z.to_nat (8 - c)) (byte_bits (u8 (x ≪ c))).
Proof.
  intros Hc.
  transitivity (bits_of (Z.to_nat (8 - c)) x).
  - replace 8%nat with (Z.to_nat c + Z.to_nat (8 - c))%nat at 1 by lia.
    rewrite bits_of_app. apply drop_app_length'. len.
  - replace 8%nat with (Z.to_nat (8 - c) + Z.to_nat c)%nat at 1 by lia.
    rewrite bits_of_app, take_app_length' by len. apply bits_of_ext. intros i Hi.
    rewrite Z2Nat.id by lia. tb. bcase. f_equal. lia.
Qed.

Lemma shifted_low x c i : 0 ≤ i < c → Z.testbit (u8 (x ≪ c)) i = false.
Proof. intros. tb. case_match; [|done]. apply Z.testbit_neg_r. lia. Qed.

Lemma testbit_1 i : Z.testbit 1 i = (i =? 0).
Proof. change 1 with (2 ^ 0). rewrite Z.pow2_bits_eqb by lia. apply Z.eqb_sym. Qed.

Lemma stream_snoc l x : stream (l ++ [x]) = stream l ++ byte_bits x.
Proof. unfold stream. rewrite fmap_app, concat_app. f_equal. Qed.

Lemma stream_app l k : stream (l ++ k) = stream l ++ stream k.
Proof. unfold stream. by rewrite fmap_app, concat_app. Qed.

Lemma length_stream l : length (stream l) = (8 * length l)%nat.
Proof.
  induction l as [|x l IH]; [done|]. change (stream (x :: l)) with (byte_bits x ++ stream l).
  rewrite length_app, length_bits_of, IH. simpl. lia.
Qed.

(** ** The writer appends *)

Section WriterSpec.
Context `{GoRuntime}.

Lemma bw_new_ok w : bytes_ok (sdata w) → bw_ok (NewWriter w).
Proof. intros. split; cbn; [lia|unfold in_u; lia|done|intros; apply Z.testbit_0_l]. Qed.

Lemma append_bytes_ok w x : bytes_ok (sdata w) → in_u 8 x → bytes_ok (sdata (append w [x])).
Proof. intros. rewrite sdata_append. apply bytes_ok_app. split; [done|by constructor]. Qed.

Lemma bw_bits_new w : bw_bits (NewWriter w) = stream (sdata w).
Proof. unfold bw_bits. cbn. apply app_nil_r. Qed.

Lemma WriteByte_spec b x :
  bw_ok b → in_u 8 x →
  bw_ok (WriteByte b x) ∧ bw_bits (WriteByte b x) = bw_bits b ++ byte_bits x.
Proof.
  intros [Hc Hb Hd Hl] Hx. unfold WriteByte, BytesBuffer.Write.
  rewrite (wrap_u_id 8 (8 - bw_count b)) by (unfold in_u; lia). split.
  - split; cbn [bw_count bw_b bw_w]; [done|by apply wrap_u_range| |intros; by apply shifted_low].
    apply append_bytes_ok; [done|]. apply in_u_lor; [lia|done|]. by apply in_u_shiftr; [lia..|].
  - unfold bw_bits. cbn [bw_w bw_b bw_count]. rewrite sdata_append, stream_snoc.
    rewrite <- byte_join, <- byte_low by (done || lia).
    rewrite <- !app_assoc. do 2 f_equal. apply take_drop.
Qed.

Lemma WriteBit_spec b bit :
  bw_ok b → bw_ok (WriteBit b bit) ∧ bw_bits (WriteBit b bit) = bw_bits b ++ [bit].
Proof.
  intros [Hc Hb Hd Hl]. unfold WriteBit, BytesBuffer.Write.
  set (c := bw_count b) in *. rewrite (wrap_u_id 8 (c - 1)) by (unfold in_u; lia).
  set (byt := if bit then _ else _).
  assert (Hbit : ∀ i, 0 ≤ i < 8 →
    Z.testbit byt i = if i =? c - 1 then bit else Z.testbit (bw_b b) i).
  { intros i Hi. unfold byt. destruct bit; [|bcase; [subst; rewrite Hl by lia|]; done].
    tb. rewrite (proj2 (Z.ltb_lt i 8)) by lia.
    rewrite (testbit_1 (i - (c - 1))). bcase.
    rewrite (proj2 (Z.eqb_neq (i - (c - 1)) 0)) by lia. apply orb_false_r. }
  assert (Hbyt : in_u 8 byt).
  { unfold byt. destruct bit; [|done]. apply in_u_lor; [lia|done|]. by apply wrap_u_range. }
  assert (Hj : take (Z.to_nat (8 - c)) (byte_bits (bw_b b)) ++ [bit] =
               take (Z.to_nat (8 - (c - 1))) (byte_bits byt)).
  { replace 8%nat with (Z.to_nat (8 - c) + Z.to_nat c)%nat by lia.
    rewrite !bits_of_app, Z2Nat.id by lia. rewrite take_app_length' by len.
    replace (Z.to_nat (8 - (c - 1))) with (Z.to_nat (8 - c) + 1)%nat by lia.
    rewrite take_app_ge by len. f_equal.
    - apply bits_of_ext. intros i Hi. tb. rewrite Hbit by lia. bcase. done.
    - rewrite length_bits_of. replace (_ + 1 - _)%nat with 1%nat by lia.
      destruct (Z.to_nat c) as [|k] eqn:Hk; [lia|]. cbn [bits_of firstn].
      rewrite Hbit by lia. bcase. done. }
  bcase.
  - split; [by apply bw_new_ok, append_bytes_ok|]. unfold bw_bits. cbn [bw_w bw_b bw_count].
    rewrite sdata_append, stream_snoc, Z.sub_diag. fold c. rewrite take_0, app_nil_r.
    rewrite <- app_assoc, Hj, take_ge by len. done.
  - split.
    + split; cbn [bw_count bw_b bw_w]; [lia|done|done|].
      intros i Hi. rewrite Hbit by lia. bcase. apply Hl. lia.
    + unfold bw_bits. cbn [bw_w bw_b bw_count]. fold c. by rewrite <- app_assoc, Hj.
Qed.

Lemma write_bits_spec b bits :
  bw_ok b → bw_ok (foldl WriteBit b bits) ∧ bw_bits (foldl WriteBit b bits) = bw_bits b ++ bits.
Proof.
  revert b. induction bits as [|x bits IH]; intros b Hb; simpl.
  - by rewrite app_nil_r.
  - destruct (WriteBit_spec b x Hb) as [Hb' Hx]. destruct (IH _ Hb') as [? ->].
    by rewrite Hx, <- app_assoc.
Qed.

(** [Flush] completes the byte: at most seven bits. *)
Lemma flush_loop_spec fuel b bit :
  bw_ok b → (Z.to_nat (bw_count b) <= fuel)%nat →
  ∃ b', flush_loop fuel b bit = Ok b' ∧ bw_count b' = 8 ∧ bw_ok b' ∧
    bw_bits b' = bw_bits b ++ replicate (Z.to_nat (bw_count b `mod` 8)) bit.
Proof.
  revert b. induction fuel as [|fuel IH]; intros b Hb Hf;
    pose proof (bw_count_ok _ Hb) as Hc; cbn [flush_loop].
  - lia.
  - destruct (Z.eqb_spec (bw_count b) 8) as [H8|H8].
    + exists b. rewrite H8. split_and!; try done. by rewrite app_nil_r.
    + destruct (WriteBit_spec b bit Hb) as [Hb' Hx].
      assert (Hcount : bw_count (WriteBit b bit) = if bw_count b =? 1 then 8 else bw_count b - 1).
      { unfold WriteBit. rewrite (wrap_u_id 8 (bw_count b - 1)) by (unfold in_u; lia).
        destruct (Z.eqb_spec (bw_count b - 1) 0); bcase; done. }
      destruct (Z.eqb_spec (bw_count b) 1) as [H1|H1].
      * exists (WriteBit b bit). destruct fuel; cbn [flush_loop];
          rewrite Hcount; (split_and!; [done..|]); by rewrite Hx, H1.
      * destruct (IH _ Hb') as (b' & -> & Hc' & Hok & Hbits); [lia|].
        exists b'. split_and!; try done. rewrite Hbits, Hx, Hcount, <- app_assoc. f_equal.
        rewrite !Z.mod_small by lia.
        by replace (Z.to_nat (bw_count b)) with (S (Z.to_nat (bw_count b - 1))) by lia.
Qed.

Lemma write_bytes_spec k u : ∀ b,
  bw_ok b → in_u 64 u → (k <= 8)%nat →
  let (b', u') := write_bytes k b u in
  bw_ok b' ∧ u' = u64 (u ≪ (8 * Z.of_nat k)) ∧
  bw_bits b' = bw_bits b ++ bits_of (8 * k) (u ≫ (64 - 8 * Z.of_nat k)).
Proof.
  revert u. induction k as [|k IH]; intros u b Hb Hu Hk.
  - cbn [write_bytes]. rewrite Z.mul_0_r, Z.shiftl_0_r, wrap_u_id by done.
    split_and!; try done. cbn. by rewrite app_nil_r.
  - cbn [write_bytes].
    destruct (WriteByte_spec b (u8 (u ≫ 56)) Hb) as [Hb' Hx]; [by apply wrap_u_range|].
    specialize (IH (u64 (u ≪ 8)) _ Hb').
    destruct (write_bytes k _ _) as [b'' u''].
    destruct IH as (Hb'' & Hu' & Hbits); [by apply wrap_u_range|lia|].
    split_and!; [done| |].
    + rewrite Hu'. apply Z.bits_inj'. intros i Hi. tb.
      bcase. destruct (decide (8 * Z.of_nat k ≤ i)).
      * tb. bcase. f_equal. lia.
      * rewrite !Z.testbit_neg_r by lia. done.
    + rewrite Hbits, Hx, <- app_assoc. f_equal.
      replace (8 * S k)%nat with (8 + 8 * k)%nat by lia. rewrite bits_of_app. f_equal.
      * apply bits_of_ext. intros i Hi. tb. bcase. f_equal. lia.
      * apply bits_of_ext. intros i Hi. tb. bcase. f_equal. lia.
Qed.

Lemma write_rest_spec k u : ∀ b,
  bw_ok b → in_u 64 u → (k <= 64)%nat →
  bw_ok (write_rest k b u) ∧
  bw_bits (write_rest k b u) = bw_bits b ++ bits_of k (u ≫ (64 - Z.of_nat k)).
Proof.
  revert u. induction k as [|k IH]; intros u b Hb Hu Hk.
  - cbn. by rewrite app_nil_r.
  - cbn [write_rest]. set (bit := (u ≫ 63) =? 1).
    destruct (WriteBit_spec b bit Hb) as [Hb' Hx].
    destruct (IH (u64 (u ≪ 1)) _ Hb') as [Hok Hbits]; [by apply wrap_u_range|lia|].
    split; [done|]. rewrite Hbits, Hx, <- app_assoc. f_equal. cbn [bits_of app]. f_equal.
    + unfold bit. tb. replace (Z.of_nat k + _) with 63 by lia.
      rewrite Z.testbit_odd. assert (0 ≤ u ≫ 63 < 2).
      { rewrite Z.shiftr_div_pow2 by lia. unfold in_u in Hu. zdm. }
      assert (u ≫ 63 = 0 ∨ u ≫ 63 = 1) as [-> | ->] by lia; done.
    + apply bits_of_ext. intros i Hi. tb. bcase. f_equal. lia.
Qed.

Lemma WriteBits_spec b u n :
  bw_ok b → (n <= 64)%nat →
  bw_ok (WriteBits b u n) ∧ bw_bits (WriteBits b u n) = bw_bits b ++ bits_of n u.
Proof.
  intros Hb Hn. unfold WriteBits. bcase. set (v := u64 _).
  assert (Hv : in_u 64 v) by by apply wrap_u_range.
  pose proof (Nat.div_mod_eq n 8) as Hdm. pose proof (Nat.mod_upper_bound n 8).
  pose proof (write_bytes_spec (n / 8) v b Hb Hv) as Hw.
  destruct (write_bytes (n / 8) b v) as [b' u'].
  destruct Hw as (Hb' & -> & Hbits); [lia|].
  destruct (write_rest_spec (n mod 8) (u64 (v ≪ (8 * Z.of_nat (n / 8)))) b') as [Hok Hr];
    [done|by apply wrap_u_range|lia|].
  split; [done|]. rewrite Hr, Hbits, <- app_assoc. f_equal.
  replace (bits_of n u) with (bits_of (8 * (n / 8) + n mod 8) u) by (by rewrite <- Hdm).
  rewrite bits_of_app. f_equal; apply bits_of_ext; intros i Hi; unfold v; tb; repeat bcase; f_equal; lia.
Qed.
End WriterSpec.

(** ** The reader consumes *)

Lemma bits_val_acc l a : bits_val l a = a * 2 ^ Z.of_nat (length l) + bits_val l 0.
Proof.
  revert a. induction l as [|z l IH]; intros a; [simpl; lia|].
  cbn [bits_val length]. rewrite IH, (IH (2 * 0 + _)), Nat2Z.inj_succ, Z.pow_succ_r by lia. lia.
Qed.

Lemma bits_val_bound l : 0 ≤ bits_val l 0 < 2 ^ Z.of_nat (length l).
Proof.
  induction l as [|z l IH]; [simpl; lia|].
  cbn [bits_val length]. rewrite bits_val_acc, Nat2Z.inj_succ, Z.pow_succ_r by lia.
  destruct z; simpl Z.b2z; lia.
Qed.

Lemma byte_bits_val x : in_u 8 x → bits_val (byte_bits x) 0 = x.
Proof. intros Hx. rewrite bits_val_of. unfold in_u in Hx. rewrite Z.mod_small; lia. Qed.

Lemma byte_split x c :
  0 ≤ c ≤ 8 →
  byte_bits x = take (Z.to_nat c) (byte_bits x) ++ take (Z.to_nat (8 - c)) (byte_bits (u8 (x ≪ c))).
Proof. intros. by rewrite <- byte_low, take_drop. Qed.

Lemma ReadBit_eof b : br_ok b → br_bits b = [] → ReadBit b = Err "EOF".
Proof.
  intros [Hc Hx Hl Hr] Hb. apply app_eq_nil in Hb as [Hb1 Hb2].
  apply (f_equal length) in Hb1. autorewrite with gemini_len in Hb1. simpl in Hb1.
  unfold ReadBit. bcase. destruct (br_r b) as [|y r]; [done|]. discriminate.
Qed.

Lemma land_128 x : negb (Z.land x 128 =? 0) = Z.testbit x 7.
Proof.
  change 128 with (2 ^ 7). destruct (Z.testbit x 7) eqn:Ht.
  - apply negb_true_iff, Z.eqb_neq. intros Hz. apply (f_equal (λ z, Z.testbit z 7)) in Hz.
    by rewrite Z.land_spec, Ht, Z.pow2_bits_eqb, Z.testbit_0_l in Hz by lia.
  - apply negb_false_iff, Z.eqb_eq, Z.bits_inj'. intros i Hi.
    rewrite Z.land_spec, Z.pow2_bits_eqb, Z.testbit_0_l by lia.
    destruct (Z.eqb_spec 7 i) as [<-|]; [by rewrite Ht|apply andb_false_r].
Qed.

Lemma ReadBit_spec b x rest :
  br_ok b → br_bits b = x :: rest →
  ∃ b', ReadBit b = Ok (x, b') ∧ br_ok b' ∧ br_bits b' = rest.
Proof.
  intros [Hc Hby Hl Hr] Hb. unfold ReadBit.
  set (b1 := if br_count b =? 0 then mk_BitReader (tl (br_r b)) (hd 0 (br_r b)) 8 else b).
  assert (Hb1 : (if br_count b =? 0 then
                   let! (x, r) := read_one (br_r b) in Ok (mk_BitReader r x 8)
                 else Ok b) = Ok b1 ∧ 1 ≤ br_count b1 ≤ 8 ∧ in_u 8 (br_b b1) ∧
                 bytes_ok (br_r b1) ∧
                 (∀ i, 0 ≤ i < 8 - br_count b1 → Z.testbit (br_b b1) i = false) ∧
                 br_bits b1 = x :: rest).
  { unfold b1. destruct (Z.eqb_spec (br_count b) 0) as [H0|H0].
    - unfold br_bits in Hb. rewrite H0 in Hb. cbn [Z.to_nat firstn app] in Hb.
      destruct (br_r b) as [|y r]; [done|]. apply Forall_cons in Hr as [Hy Hr].
      cbn [br_count br_b br_r hd tl]. split_and!; try done; try lia.
    - split_and!; try done; try lia. auto. }
  destruct Hb1 as (-> & Hc1 & Hx1 & Hr1 & Hl1 & Hbits). cbn [res_bind].
  clearbody b1. set (c := br_count b1) in *.
  pose proof (byte_split (br_b b1) 1 ltac:(lia)) as Hsp.
  assert (Hlow : ∀ i, 0 ≤ i < 8 - (c - 1) → Z.testbit (u8 (br_b b1 ≪ 1)) i = false).
  { intros i Hi. destruct (decide (i = 0)) as [->|]; [by apply shifted_low|]. tb. bcase.
    apply Hl1. lia. }
  assert (Hrest : x = Z.testbit (br_b b1) 7 ∧
    rest = take (Z.to_nat (c - 1)) (byte_bits (u8 (br_b b1 ≪ 1))) ++ stream (br_r b1)).
  { unfold br_bits in Hbits. fold c in Hbits. rewrite Hsp in Hbits.
    replace (Z.to_nat c) with (S (Z.to_nat (c - 1))) in Hbits by lia.
    change (take (Z.to_nat 1) (byte_bits (br_b b1))) with [Z.testbit (br_b b1) 7] in Hbits.
    cbn [app firstn] in Hbits. rewrite take_take, Nat.min_l in Hbits by lia. by simplify_eq. }
  destruct Hrest as [-> ->]. rewrite (wrap_u_id 8 (c - 1)) by (unfold in_u; lia).
  rewrite land_128. eexists; split; [done|]. split; [split|]; cbn [br_count br_b br_r]; try done.
  - lia.
  - by apply wrap_u_range.
Qed.

Lemma ReadByte_spec b :
  br_ok b → (8 <= length (br_bits b))%nat →
  ∃ b', ReadByte b = Ok (bits_val (take 8 (br_bits b)) 0, b') ∧ br_ok b' ∧
        br_bits b' = drop 8 (br_bits b).
Proof.
  intros [Hc Hby Hl Hr] H8. unfold ReadByte, br_bits in *. set (c := br_count b) in *.
  assert (Hr' : ∃ y r, br_r b = y :: r).
  { destruct (br_r b) as [|y r]; [|eauto]. simpl stream in H8. len. }
  destruct Hr' as (y & r & Hyr). rewrite Hyr in *. apply Forall_cons in Hr as [Hy Hr].
  change (stream (y :: r)) with (byte_bits y ++ stream r).
  change (read_one (y :: r)) with (Ok (y, r)). cbn [res_bind].
  destruct (Z.eqb_spec c 0) as [Hz|Hz].
  - rewrite Hz. change (Z.to_nat 0) with 0%nat. rewrite take_0, app_nil_l.
    eexists. split; [|split].
    + rewrite take_app_length' by (by rewrite length_bits_of). by rewrite byte_bits_val.
    + split; cbn [br_count br_b br_r]; [lia|done|intros; lia|done].
    + by rewrite drop_app_length'.
  - rewrite (wrap_u_id 8 (8 - c)) by (unfold in_u; lia).
    pose proof (byte_split y (8 - c)) as Hsp. replace (8 - (8 - c)) with c in Hsp by lia.
    assert (Hjoin : take (Z.to_nat c) (byte_bits (br_b b)) ++ take (Z.to_nat (8 - c)) (byte_bits y) =
                    byte_bits (Z.lor (br_b b) (y ≫ c))).
    { pose proof (byte_join (br_b b) y (8 - c)) as Hj. replace (8 - (8 - c)) with c in Hj by lia.
      apply Hj; [lia| |done]. intros. apply Hl; lia. }
    set (lo := take (Z.to_nat c) (byte_bits (u8 _))) in *.
    assert (Hbits : take (Z.to_nat c) (byte_bits (br_b b)) ++ byte_bits y ++ stream r =
                    byte_bits (Z.lor (br_b b) (y ≫ c)) ++ lo ++ stream r).
    { rewrite Hsp by lia. by rewrite !app_assoc, Hjoin. }
    rewrite Hbits. eexists. split; [|split; [split|]]; cbn [br_count br_b br_r].
    + rewrite take_app_length', byte_bits_val; [done| |len].
      apply in_u_lor; [lia|done|]. apply in_u_shiftr; [lia|lia|done].
    + done.
    + by apply wrap_u_range.
    + intros _ i Hi. by apply shifted_low.
    + done.
    + rewrite drop_app_length' by len. done.
Qed.

Lemma ReadByte_eof b : br_ok b → (length (br_bits b) < 8)%nat → ReadByte b = Err "EOF".
Proof.
  intros _ Hb. unfold br_bits, ReadByte in *. destruct (br_r b) as [|y r].
  - by case_match.
  - change (stream (y :: r)) with (byte_bits y ++ stream r) in Hb. len.
Qed.

(** [u << 8 | byte] and [u << 1 | bit] accumulate the value of the bits read. *)
Lemma accumulate u l n m :
  0 ≤ u < 2 ^ m → 0 ≤ m → m + n ≤ 64 → Z.of_nat (length l) = n →
  Z.lor (u64 (u ≪ n)) (bits_val l 0) = bits_val l u ∧ 0 ≤ bits_val l u < 2 ^ (m + n).
Proof.
  intros Hu Hm Hmn Hl. pose proof (bits_val_bound l) as Hb. rewrite Hl in Hb.
  assert (Hp : 2 ^ (m + n) = 2 ^ m * 2 ^ n) by (apply Z.pow_add_r; lia).
  pose proof (Z.pow_le_mono_r 2 (m + n) 64). pose proof (Z.pow_pos_nonneg 2 n).
  assert (Hv : 0 ≤ bits_val l u < 2 ^ (m + n)) by (rewrite bits_val_acc, Hl; nia).
  split; [|done]. rewrite (bits_val_acc l u), Hl.
  rewrite wrap_u_id; [apply lor_shift_add; [lia|exact Hb]|].
  unfold in_u. rewrite Z.shiftl_mul_pow2 by lia. nia.
Qed.

Lemma read_bytes_spec k : ∀ b u m,
  br_ok b → (8 * k <= length (br_bits b))%nat →
  0 ≤ u < 2 ^ m → 0 ≤ m → m + 8 * Z.of_nat k ≤ 64 →
  ∃ b', read_bytes k b u = Ok (bits_val (take (8 * k) (br_bits b)) u, b') ∧ br_ok b' ∧
        br_bits b' = drop (8 * k) (br_bits b) ∧
        0 ≤ bits_val (take (8 * k) (br_bits b)) u < 2 ^ (m + 8 * Z.of_nat k).
Proof.
  induction k as [|k IH]; intros b u m Hb Hl Hu Hm Hmk.
  - exists b. rewrite Nat.mul_0_r, Z.mul_0_r, Z.add_0_r. done.
  - destruct (ReadByte_spec b Hb) as (b' & Hr & Hb' & Hrest); [lia|].
    cbn [read_bytes]. rewrite Hr. cbn [res_bind].
    destruct (accumulate u (take 8 (br_bits b)) 8 m) as [-> Hv]; [done|lia|lia|len|].
    destruct (IH b' (bits_val (take 8 (br_bits b)) u) (m + 8)) as (b'' & -> & Hb'' & Hr'' & Hv'');
      [done|rewrite Hrest; len|done|lia|lia|].
    exists b''. rewrite Hr'', Hrest in *. rewrite drop_drop.
    replace (8 * S k)%nat with (8 + 8 * k)%nat by lia.
    rewrite <- bits_val_app, take_take_drop in *.
    split_and!; try done; [lia|]. replace (m + 8 * Z.of_nat (S k)) with (m + 8 + 8 * Z.of_nat k) by lia.
    lia.
Qed.

Lemma read_rest_spec k : ∀ b u m,
  br_ok b → (k <= length (br_bits b))%nat →
  0 ≤ u < 2 ^ m → 0 ≤ m → m + Z.of_nat k ≤ 64 →
  ∃ b', read_rest k b u = Ok (bits_val (take k (br_bits b)) u, b') ∧ br_ok b' ∧
        br_bits b' = drop k (br_bits b).
Proof.
  induction k as [|k IH]; intros b u m Hb Hl Hu Hm Hmk.
  - exists b. done.
  - destruct (br_bits b) as [|x rest] eqn:Hbits; [simpl in Hl; lia|].
    destruct (ReadBit_spec b x rest Hb Hbits) as (b' & Hr & Hb' & Hrest).
    cbn [read_rest]. rewrite Hr. cbn [res_bind].
    destruct (accumulate u [x] 1 m) as [Ha Hv]; [done|lia|lia|done|].
    replace (if x then Z.lor (u64 (u ≪ 1)) 1 else u64 (u ≪ 1)) with (bits_val [x] u).
    2: { rewrite <- Ha. destruct x; [done|]. apply Z.lor_0_r. }
    simpl in Hl. rewrite <- Hrest in *.
    destruct (IH b' (bits_val [x] u) (m + 1)) as (b'' & -> & Hb'' & Hr'');
      [done|lia|done|lia|lia|]. exists b''. done.
Qed.

Lemma ReadBits_spec b n :
  br_ok b → (n <= 64)%nat → (n <= length (br_bits b))%nat →
  ∃ b', ReadBits b n = Ok (bits_val (take n (br_bits b)) 0, b') ∧ br_ok b' ∧
        br_bits b' = drop n (br_bits b).
Proof.
  intros Hb Hn Hl. unfold ReadBits.
  pose proof (Nat.div_mod_eq n 8) as Hdm. pose proof (Nat.mod_upper_bound n 8).
  destruct (read_bytes_spec (n / 8) b 0 0) as (b' & -> & Hb' & Hr & Hv); [done|lia..|].
  cbn [res_bind].
  destruct (read_rest_spec (n mod 8) b' (bits_val (take (8 * (n / 8)) (br_bits b)) 0)
              (8 * Z.of_nat (n / 8))) as (b'' & -> & Hb'' & Hr''); [done| |done|lia|lia|].
  { rewrite Hr. len. }
  exists b''. rewrite Hr'', Hr, drop_drop, <- bits_val_app, take_take_drop, <- Hdm. done.
Qed.

Lemma read_bits_eof b n :
  br_ok b → (n <= 64)%nat → (length (br_bits b) < n)%nat → ReadBits b n = Err "EOF".
Proof.
  intros Hb Hn Hl. unfold ReadBits.
  assert (Hbytes : ∀ k b u, br_ok b → (length (br_bits b) < 8 * k)%nat →
    read_bytes k b u = Err "EOF").
  { clear. induction k as [|k IH]; intros b u Hb Hl; [lia|]. cbn [read_bytes].
    destruct (decide (length (br_bits b) < 8)%nat).
    - by rewrite ReadByte_eof.
    - destruct (ReadByte_spec b Hb) as (b' & -> & Hb' & Hr); [lia|]. cbn [res_bind].
      apply IH; [done|]. rewrite Hr. len. }
  assert (Hrest : ∀ k b u, br_ok b → (length (br_bits b) < k)%nat → read_rest k b u = Err "EOF").
  { clear. induction k as [|k IH]; intros b u Hb Hl; [lia|]. cbn [read_rest].
    destruct (br_bits b) as [|x rest] eqn:Hbits; [by rewrite ReadBit_eof|].
    destruct (ReadBit_spec b x rest Hb Hbits) as (b' & -> & Hb' & Hr). cbn [res_bind].
    apply IH; [done|]. rewrite Hr. simpl in Hl. lia. }
  pose proof (Nat.div_mod_eq n 8) as Hdm.
  destruct (decide (length (br_bits b) < 8 * (n / 8))%nat); [by rewrite Hbytes|].
  destruct (read_bytes_spec (n / 8) b 0 0) as (b' & -> & Hb' & Hr & Hv); [done|lia..|].
  cbn [res_bind]. apply Hrest; [done|]. rewrite Hr. len.
Qed.

Lemma br_new_ok r : bytes_ok r → br_ok (NewReader r).
Proof. intros. split; cbn; (done || lia). Qed.

Lemma br_bits_new r : br_bits (NewReader r) = stream r.
Proof. done. Qed.

(** ** Properties *)

(** A sequence of [WriteBits(u, n)] calls. *)
Definition write_all `{GoRuntime} (b : BitWriter) (ws : list (Z * nat)) : BitWriter :=
  foldl (λ b '(u, n), WriteBits b u n) b ws.

(** The matching sequence of [ReadBits(n)] calls. *)
Fixpoint read_all (b : BitReader) (ns : list nat) : res (list Z * BitReader) :=
  match ns with
  | [] => Ok ([], b)
  | n :: ns =>
      let! (u, b) := ReadBits b n in
      let! (us, b) := read_all b ns in
      Ok (u :: us, b)
  end.

Lemma write_all_spec `{GoRuntime} ws : ∀ b,
  bw_ok b → Forall (λ w, (w.2 <= 64)%nat) ws →
  bw_ok (write_all b ws) ∧
  bw_bits (write_all b ws) = bw_bits b ++ concat ((λ w, bits_of w.2 w.1) <$> ws).
Proof.
  induction ws as [|[u n] ws IH]; intros b Hb Hw.
  - cbn. by rewrite app_nil_r.
  - apply Forall_cons in Hw as [Hn Hw]. destruct (WriteBits_spec b u n Hb Hn) as [Hb' Hbits].
    destruct (IH _ Hb' Hw) as [Hok Hws].
    change (write_all b ((u, n) :: ws)) with (write_all (WriteBits b u n) ws).
    split; [done|]. rewrite Hws, Hbits, <- app_assoc. done.
Qed.

Lemma read_all_spec ws rest : ∀ b,
  br_ok b → Forall (λ w, (w.2 <= 64)%nat ∧ in_u (Z.of_nat w.2) w.1) ws →
  br_bits b = concat ((λ w, bits_of w.2 w.1) <$> ws) ++ rest →
  ∃ b', read_all b ws.*2 = Ok (ws.*1, b') ∧ br_ok b' ∧ br_bits b' = rest.
Proof.
  induction ws as [|[u n] ws IH]; intros b Hb Hw Hbits.
  - exists b. done.
  - apply Forall_cons in Hw as [[Hn Hu] Hw]. cbn [fmap list_fmap fst snd read_all concat] in *.
    rewrite <- app_assoc in Hbits.
    destruct (ReadBits_spec b n) as (b' & -> & Hb' & Hr); [done|done|rewrite Hbits; len|].
    cbn [res_bind]. rewrite Hbits in Hr |- *.
    rewrite drop_app_length' in Hr by len. rewrite take_app_length' by len.
    destruct (IH b' Hb' Hw Hr) as (b'' & -> & Hb'' & Hr''). cbn [res_bind].
    exists b''. split_and!; try done. rewrite bits_val_of, Z.mul_0_l, Z.add_0_l.
    rewrite Z.mod_small by done. done.
Qed.

(** C39: a bit stream is read back as it was written: any sequence of [WriteBits]
    calls of at most 64 bits each, at any alignment, followed by [Flush], is
    recovered by the same sequence of [ReadBits] calls on the bytes written. *)
Theorem write_read_bits `{GoRuntime} ws :
  Forall (λ w, (w.2 <= 64)%nat ∧ in_u (Z.of_nat w.2) w.1) ws →
  ∃ b r, Flush (write_all (NewWriter nil_slice) ws) false = Ok b ∧
    read_all (NewReader (sdata (bw_w b))) ws.*2 = Ok (ws.*1, r) ∧
    (length (br_bits r) < 8)%nat.
Proof.
  intros Hw. assert (Hw' : Forall (λ w : Z * nat, (w.2 <= 64)%nat) ws)
    by (eapply Forall_impl; [exact Hw|]; by intros ? []).
  destruct (write_all_spec ws (NewWriter nil_slice) (bw_new_ok nil_slice (Forall_nil_2 _)) Hw') as [Hok Hbits].
  rewrite bw_bits_new in Hbits. cbn [nil_slice sdata stream fmap list_fmap concat app] in Hbits.
  set (b := write_all _ ws) in *. pose proof (bw_count_ok _ Hok).
  destruct (flush_loop_spec 256 b false Hok) as (b' & Hf & Hc & Hok' & Hb'); [lia|].
  exists b'. unfold Flush. rewrite Hf. unfold bw_bits in Hb' at 1. rewrite Hc, Z.sub_diag in Hb'.
  cbn [Z.to_nat firstn] in Hb'. rewrite app_nil_r, Hbits in Hb'.
  destruct (read_all_spec ws (replicate (Z.to_nat (bw_count b mod 8)) false)
              (NewReader (sdata (bw_w b')))) as (r & Hr & _ & Hrest).
  - by apply br_new_ok, bw_data_ok.
  - done.
  - by rewrite br_bits_new.
  - exists r. split_and!; try done. rewrite Hrest, length_replicate.
    pose proof (Z.mod_pos_bound (bw_count b) 8). lia.
Qed.

(** [ReadBits] consumes exactly the next bits of the stream and returns their
    value, and fails with [io.EOF] exactly when fewer are left. *)
Theorem ReadBits_cases b n :
  br_ok b → (n <= 64)%nat →
  if (n <=? length (br_bits b))%nat
  then ∃ b', ReadBits b n = Ok (bits_val (take n (br_bits b)) 0, b') ∧ br_ok b' ∧
             br_bits b' = drop n (br_bits b)
  else ReadBits b n = Err "EOF".
Proof. intros Hb Hn. bcase; [by apply ReadBits_spec|by apply read_bits_eof]. Qed.

(** ** Witnesses *)

Lemma write_read_bits_witness :
  let ws := [(5, 3%nat); (1023, 10%nat); (2 ^ 63 + 1, 64%nat)] in
  ∃ b r, Flush (write_all (NewWriter nil_slice) ws) false = Ok b ∧
    read_all (NewReader (sdata (bw_w b))) ws.*2 = Ok (ws.*1, r) ∧
    (length (br_bits r) < 8)%nat.
Proof.
  apply (write_read_bits [(5, 3%nat); (1023, 10%nat); (2 ^ 63 + 1, 64%nat)]).
  repeat constructor; try (simpl; lia).
Defined.

Lemma ReadBits_cases_witness :
  ∃ b', ReadBits (NewReader [170; 15]) 12 =
          Ok (bits_val (take 12 (br_bits (NewReader [170; 15]))) 0, b') ∧ br_ok b' ∧
        br_bits b' = drop 12 (br_bits (NewReader [170; 15])).
Proof.
  apply (ReadBits_cases (NewReader [170; 15]) 12); [|lia].
  split; cbn; [lia|by_compute|lia|by_compute].
Defined.
