(* ===== verification/BoolCoder.v ===== *)
(** * lib/encoding/bool.go: the coder of boolean columns

    One bit per value behind a type byte and a 32-bit count. *)

From S2P Require Import Prelude GoSlice NumberEnc Bitstream.

Definition boolCompressedBitpack : Z := 1.

(** [bw] and [br] hold a pointer to [buf]: a stream operation works on the buffer
    as it then is, and writes back to it. *)
Record Boolean := mk_Boolean {
  encodingType : Z;
  buf : slice;
  bw : option BitWriter;
  br : option BitReader;
}.

Definition new_Boolean : Boolean := mk_Boolean 0 nil_slice None None.

Definition SetEncodingType (enc : Boolean) (ty : Z) : Boolean :=
  mk_Boolean ty (buf enc) (bw enc) (br enc).

Section Coder.
Context `{RT : GoRuntime}.

Definition Encoding (enc : Boolean) (inp : list Z) (out : slice) : res (Boolean * slice) :=
  let w := match bw enc with
           | None => NewWriter out
           | Some w => Reset_writer w out
           end in
  let values := Bytes2BooleanSlice inp in
  let count := put_u32 (u32 (Z.of_nat (length values))) in
  let b := BytesBuffer.WriteByte (bw_w w) (u8 (boolCompressedBitpack ≪ 4)) in
  let b := BytesBuffer.Write b count in
  let w := mk_BitWriter b (bw_b w) (bw_count w) in
  let w := foldl WriteBit w values in
  let! w := Flush w false in
  Ok (mk_Boolean (encodingType enc) (bw_w w) (Some w) (br enc), bw_w w).

(** [for i := 0; i < count; i++ { bit, err := enc.br.ReadBit(); ... }] *)
Fixpoint read_bools (count : nat) (r : BitReader) : res (list bool * BitReader) :=
  match count with
  | O => Ok ([], r)
  | S count =>
      let! (bit, r) := ReadBit r in
      let! (bits, r) := read_bools count r in
      Ok (bit :: bits, r)
  end.

Definition Decoding (enc : Boolean) (inp : list Z) (out : slice) : res (Boolean * slice) :=
  let! b0 := index inp 0 in
  let! inp := from inp 1 in
  let ty := b0 ≫ 4 in
  let! count := UnmarshalUint32 inp in
  if negb (ty =? boolCompressedBitpack) then Err "invalid input bool encoded data"
  else
    let! inp := from inp 4 in
    let r := match br enc with
             | None => NewReader inp
             | Some r => Reset_reader r inp
             end in
    let count := Z.to_nat count in
    let origLen := slen out in
    let! out :=
      if (scap out <? count + origLen)%nat then
        let! full := reslice_to out (scap out) in
        Ok (append full (zeros (count + origLen - scap out)))
      else Ok out in
    let! out := reslice_to out (count + origLen) in
    let! (bits, r) := read_bools count r in
    Ok (mk_Boolean ty (mk_slice (br_r r) []) (bw enc) (Some r),
        mk_slice (overwrite (sdata out) origLen (BooleanSlice2byte bits)) (sspare out)).

(** ** Round trip *)

Lemma read_bools_spec bits rest : ∀ r,
  br_ok r → br_bits r = bits ++ rest →
  ∃ r', read_bools (length bits) r = Ok (bits, r') ∧ br_ok r' ∧ br_bits r' = rest.
Proof.
  induction bits as [|x bits IH]; intros r Hr Hb; [by exists r|].
  destruct (ReadBit_spec r x (bits ++ rest) Hr Hb) as (r1 & Hr1 & Hok & Hb1).
  cbn [length read_bools]. rewrite Hr1. cbn [res_bind].
  destruct (IH r1 Hok Hb1) as (r2 & -> & Hok2 & Hb2). by exists r2.
Qed.

Lemma Bytes2BooleanSlice_id vs : Bytes2BooleanSlice (BooleanSlice2byte vs) = vs.
Proof. induction vs as [|[] vs IH]; [done|..]; cbn; by f_equal. Qed.

(** The bytes of a stream are determined by its bits. *)
Lemma stream_prefix l k rest :
  bytes_ok l → bytes_ok k → stream k = stream l ++ rest →
  ∃ p, k = l ++ p ∧ bytes_ok p ∧ stream p = rest.
Proof.
  intros Hl. revert k. induction Hl as [|x l Hx _ IH]; intros k Hk Hs; [by exists k|].
  change (stream (x :: l)) with (byte_bits x ++ stream l) in Hs.
  destruct Hk as [|y k Hy Hk]; [discriminate|].
  change (stream (y :: k)) with (byte_bits y ++ stream k) in Hs.
  rewrite <- app_assoc in Hs. apply app_inj_1 in Hs as [Hxy Hs]; [|len].
  destruct (IH k Hk Hs) as (p & -> & Hp & Hps). exists p. split_and!; try done.
  cbn [app]. f_equal. by rewrite <- (byte_bits_val y), Hxy, byte_bits_val.
Qed.

Definition bool_block (vs : list bool) (packed : list Z) : list Z :=
  16 :: put_u32 (Z.of_nat (length vs)) ++ packed.

Lemma Boolean_Encoding_spec enc vs out :
  bytes_ok (sdata out) → Z.of_nat (length vs) < 2 ^ 32 →
  ∃ enc' o packed pad, Encoding enc (BooleanSlice2byte vs) out = Ok (enc', o) ∧
    sdata o = sdata out ++ bool_block vs packed ∧
    bytes_ok packed ∧ stream packed = vs ++ replicate pad false ∧ (pad < 8)%nat.
Proof.
  intros Hout Hl. unfold Encoding.
  set (w := match bw enc with None => _ | Some _ => _ end).
  assert (w = NewWriter out) as -> by (unfold w; by destruct (bw enc)).
  cbn [NewWriter bw_w bw_b bw_count]. rewrite Bytes2BooleanSlice_id.
  unfold BytesBuffer.Write, BytesBuffer.WriteByte.
  rewrite (wrap_u_id 32) by (unfold in_u; lia).
  change (u8 (boolCompressedBitpack ≪ 4)) with 16.
  set (hdr := append (append out [16]) (put_u32 (Z.of_nat (length vs)))).
  assert (Hh : sdata hdr = sdata out ++ 16 :: put_u32 (Z.of_nat (length vs))).
  { unfold hdr. autorewrite with gemini_data. by rewrite <- app_assoc. }
  assert (Hhok : bytes_ok (sdata hdr)).
  { rewrite Hh. apply bytes_ok_app. split; [done|]. constructor; [done|]. apply put_u32_ok. }
  change (mk_BitWriter hdr 0 8) with (NewWriter hdr).
  destruct (write_bits_spec (NewWriter hdr) vs (bw_new_ok hdr Hhok)) as [Hok Hbits].
  set (b := foldl WriteBit _ vs) in *. pose proof (bw_count_ok _ Hok).
  destruct (flush_loop_spec 256 b false Hok) as (b' & Hf & Hc & Hok' & Hb'); [lia|].
  unfold Flush. rewrite Hf. cbn [res_bind].
  unfold bw_bits in Hb' at 1. rewrite Hc, Z.sub_diag in Hb'.
  change (take (Z.to_nat 0) ?l) with (@nil bool) in Hb'.
  rewrite app_nil_r, Hbits, bw_bits_new, <- app_assoc in Hb'.
  set (pad := Z.to_nat (bw_count b mod 8)) in *.
  destruct (stream_prefix (sdata hdr) (sdata (bw_w b')) (vs ++ replicate pad false))
    as (packed & Hd & Hp & Hs); [done|by apply bw_data_ok|done|].
  eexists _, _, packed, pad. split; [done|]. split_and!; try done.
  - by rewrite Hd, Hh, <- app_assoc.
  - unfold pad. pose proof (Z.mod_pos_bound (bw_count b) 8). lia.
Qed.

Lemma Boolean_Decoding_spec dec vs packed pad out :
  bytes_ok packed → stream packed = vs ++ replicate pad false →
  Z.of_nat (length vs) < 2 ^ 32 →
  ∃ dec' o, Decoding dec (bool_block vs packed) out = Ok (dec', o) ∧
    sdata o = sdata out ++ BooleanSlice2byte vs.
Proof.
  intros Hp Hs Hl. unfold Decoding, bool_block.
  unfold index. cbn [lookup list_lookup res_bind].
  rewrite from_Ok by (simpl; lia). cbn [res_bind]. change (drop 1 (16 :: ?l)) with l.
  unfold UnmarshalUint32. rewrite get_put_u32 by (unfold in_u; lia). cbn [res_bind].
  change (negb ((16 ≫ 4) =? boolCompressedBitpack)) with false. cbv iota.
  rewrite from_app by done. cbn [res_bind]. rewrite Nat2Z.id.
  set (r := match br dec with None => _ | Some _ => _ end).
  assert (r = NewReader packed) as -> by (unfold r; by destruct (br dec)).
  destruct (Resize_grow out (length vs + slen out)) as (o & Ho & Hol & Hot); [lia|].
  unfold Resize in Ho.
  destruct (if (scap out <? length vs + slen out)%nat then _ else _) as [o1| | |];
    cbn [res_bind] in Ho |- *; try done.
  rewrite Ho. cbn [res_bind].
  destruct (read_bools_spec vs (replicate pad false) (NewReader packed)) as (r' & -> & _ & _);
    [by apply br_new_ok|done|].
  cbn [res_bind]. eexists _, _. split; [done|]. cbn [sdata].
  rewrite overwrite_tail, Hot; [done|]. unfold BooleanSlice2byte. unfold slen in *. len.
Qed.

(** The boolean coder is lossless: a column of 0/1 bytes is decoded to itself,
    appended to whatever the output buffer held, and the encoded block has one
    bit per value (rounded up to a byte) behind a five-byte header. *)
Lemma Boolean_roundtrip enc dec vs out out2 :
  bytes_ok (sdata out) → Z.of_nat (length vs) < 2 ^ 32 →
  ∃ enc' o block dec' o2,
    Encoding enc (BooleanSlice2byte vs) out = Ok (enc', o) ∧ sdata o = sdata out ++ block ∧
    length block = (5 + (length vs + 7) / 8)%nat ∧
    Decoding dec block out2 = Ok (dec', o2) ∧
    sdata o2 = sdata out2 ++ BooleanSlice2byte vs.
Proof.
  intros Hout Hl. destruct (Boolean_Encoding_spec enc vs out Hout Hl)
    as (enc' & o & packed & pad & He & Ho & Hp & Hs & Hpad).
  destruct (Boolean_Decoding_spec dec vs packed pad out2 Hp Hs Hl) as (dec' & o2 & Hd & Ho2).
  exists enc', o, (bool_block vs packed), dec', o2. split_and!; try done.
  unfold bool_block. cbn [length]. rewrite length_app, length_put_u32.
  apply (f_equal length) in Hs. rewrite length_stream, length_app, length_replicate in Hs.
  replace (length packed) with ((length vs + 7) / 8)%nat; [done|].
  symmetry. apply (Nat.div_unique _ 8 _ (7 - pad)); lia.
Qed.
End Coder.

Lemma Boolean_roundtrip_example :
  let vs := [true; false; true; true; false; false; false; true; true] in
  ∃ enc' o block dec' o2,
    Encoding new_Boolean (BooleanSlice2byte vs) (mk_slice [7] []) = Ok (enc', o) ∧
    sdata o = [7] ++ block ∧ length block = 7%nat ∧
    Decoding new_Boolean block nil_slice = Ok (dec', o2) ∧
    sdata o2 = [] ++ BooleanSlice2byte vs.
Proof.
  apply (Boolean_roundtrip new_Boolean new_Boolean
    [true; false; true; true; false; false; false; true; true] (mk_slice [7] []) nil_slice);
    [by_compute|done].
Defined.
