(* ===== verification/Compress.v ===== *)
(** * lib/compress: run-length coding and the adaptive float compressor

    compress.go ([RLE], [paddingBuffer], the wrappers of snappy and of the
    gorilla coder) and float.go ([Context], [Float]).  A float64 is its 64-bit
    representation; comparisons and arithmetic are those of IEEE double
    precision on the decoded value ([SF_of_bits]).  golang/snappy and the
    gorilla coder of influxdb's tsm1 are parameters. *)

From S2P Require Import Prelude GoSlice Coder.

(** ** External compressors *)

(** github.com/golang/snappy: [Encode(dst, src)] and [Decode(dst, src)] write
    into [dst] when its length suffices. *)
Class GoSnappy := {
  gs_encode : list Z → list Z;
  gs_decode : list Z → option (list Z);
  gs_decodedLen : list Z → option nat;
  gs_max : nat → nat;
}.

Class GoSnappyLaws `(GoSnappy) : Prop := {
  gs_roundtrip l : bytes_ok l → gs_decode (gs_encode l) = Some l;
  gs_decodedLen_ok l : bytes_ok l → gs_decodedLen (gs_encode l) = Some (length l);
  gs_bound l : (length (gs_encode l) <= gs_max (length l))%nat;
}.

(** tsm1.FloatArrayEncodeAll rejects a NaN and returns at least a header byte. *)
Class Gorilla := {
  gorilla_encode : list Z → option (list Z);
  gorilla_decode : list Z → option (list Z);
}.

(** ** Doubles by their representation *)

Definition f_sign (b : Z) : bool := Z.testbit b 63.
Definition f_exp (b : Z) : Z := (b / 2 ^ 52) mod 2 ^ 11.
Definition f_mant (b : Z) : Z := b mod 2 ^ 52.

Definition SF_of_bits (b : Z) : spec_float :=
  if f_exp b =? 2047 then
    if f_mant b =? 0 then S754_infinity (f_sign b) else S754_nan
  else if f_exp b =? 0 then
    match f_mant b with
    | Zpos m => S754_finite (f_sign b) m (-1074)
    | _ => S754_zero (f_sign b)
    end
  else
    match f_mant b + 2 ^ 52 with
    | Zpos m => S754_finite (f_sign b) m (f_exp b - 1075)
    | _ => S754_nan
    end.

Definition is_nan (b : Z) : bool :=
  match SF_of_bits b with S754_nan => true | _ => false end.

Definition f_eq (a b : Z) : bool := SFeqb (SF_of_bits a) (SF_of_bits b).

Definition F0 : spec_float := S754_zero false.
Definition f_is_zero (b : Z) : bool := SFeqb (SF_of_bits b) F0.

Class GorillaLaws `(Gorilla) : Prop := {
  gorilla_nan vs : existsb is_nan vs = true → gorilla_encode vs = None;
  gorilla_roundtrip vs : existsb is_nan vs = false → Forall (in_u 64) vs →
    ∃ b, gorilla_encode vs = Some b ∧ b ≠ [] ∧ bytes_ok b ∧ gorilla_decode b = Some vs;
}.

(** The compressors that store their input. *)
#[export] Instance stored_gosnappy : GoSnappy | 100 :=
  {| gs_encode l := l; gs_decode := Some; gs_decodedLen l := Some (length l); gs_max n := n |}.
#[export] Instance stored_gosnappy_laws : GoSnappyLaws stored_gosnappy.
Proof. split; simpl; auto. Qed.
#[export] Instance stored_gorilla : Gorilla | 100 :=
  {| gorilla_encode vs := if existsb is_nan vs then None else Some (0 :: Float64Slice2byte vs);
     gorilla_decode b := Some (Bytes2Float64Slice (tl b)) |}.
#[export] Instance stored_gorilla_laws : GorillaLaws stored_gorilla.
Proof.
  split; cbn [gorilla_encode gorilla_decode stored_gorilla]; intros vs ->; [done|].
  intros Hr. eexists. split_and!; [done|done| |].
  - constructor; [done|]. apply bytes_le_ok.
  - cbn [tl]. unfold Bytes2Float64Slice, Float64Slice2byte. rewrite length_bytes_le.
    rewrite (Nat.mul_comm 8), Nat.div_mul by done. f_equal.
    rewrite <- (app_nil_r (bytes_le 8 vs)), words_le_bytes.
    induction Hr as [|v vs Hv _ IH]; [done|].
    rewrite fmap_cons, IH. f_equal. by apply Z.mod_small.
Qed.

(** ** RLE (compress.go) *)

Definition RLEBlockLimit : Z := 1 ≪ 14.

Record RLE := mk_RLE { step : nat; blockSize : nat }.
Definition NewRLE (step : nat) : RLE := mk_RLE step (2 + step).

Section Coders.
Context `{RT : GoRuntime} `{GS : GoSnappy} `{GO : Gorilla}.

(** Each round appends a suffix of what is there and lowers [size] by its length. *)
Fixpoint padding_loop (fuel : nat) (out : slice) (ofs : nat) (size : Z) : res slice :=
  if size =? 0 then Ok out
  else match fuel with
       | O => Diverge
       | S fuel =>
           let! ofs :=
             let! tail := from (sdata out) ofs in
             if size <? Z.of_nat (length tail) then
               if Z.of_nat (slen out) - size <? 0 then Panic
               else Ok (Z.to_nat (Z.of_nat (slen out) - size))
             else Ok ofs in
           let! tail := from (sdata out) ofs in
           padding_loop fuel (append out tail) ofs (size - Z.of_nat (length tail))
       end.

Definition paddingBuffer (pad : list Z) (out : slice) (size : Z) : res slice :=
  let ofs := slen out in
  let out := append out pad in
  let size := size - Z.of_nat (length pad) in
  padding_loop (Z.to_nat size) out ofs size.

Definition SameValueEncoding (rle : RLE) (inp : list Z) (out : slice) : res slice :=
  let values := Bytes2Float64Slice inp in
  let size := u16 (Z.of_nat (length values)) in
  let out := append out [u8 (size ≫ 8); u8 (Z.land size 255)] in
  let! v0 := index values 0 in
  if f_is_zero v0 then Ok out
  else let! pat := between inp 0 (step rle) in Ok (append out pat).

Definition SameValueDecoding (rle : RLE) (inp : list Z) (out : slice) : res slice :=
  let! b0 := index inp 0 in
  let! b1 := index inp 1 in
  let size := Z.lor (u16 (b0 ≪ 8)) b1 in
  let decSize := size * Z.of_nat (step rle) in
  if (length inp =? 2)%nat then Ok (PaddingZeroBuffer out (Z.to_nat decSize))
  else if (length inp <? blockSize rle)%nat then Err "FailedToDecodeFloatArray"
  else let! pad := between inp 2 (blockSize rle) in paddingBuffer pad out decSize.

(** The end of a run of [n] values [prev]: the block it becomes, and the rest of the
    input. *)
Definition RLE_emit (rle : RLE) (prev n : Z) (inp : list Z) (out : slice)
    : res (list Z * slice) :=
  if prev =? 0 then
    let! inp := from inp (Z.to_nat n * step rle) in
    let n := Z.lor n (1 ≪ 15) in
    Ok (inp, append out [u8 (n ≫ 8); u8 (Z.land n 255)])
  else
    let out := append out [u8 (n ≫ 8); u8 (Z.land n 255)] in
    let! pat := between inp 0 (step rle) in
    let out := append out pat in
    let! inp := from inp (Z.to_nat n * step rle) in
    Ok (inp, out).

(** [for i := 1; i <= size; i++], from position [i] with [k] rounds left. *)
Fixpoint RLE_loop (rle : RLE) (values : list Z) (k i : nat) (n : Z) (inp : list Z) (out : slice)
    : res slice :=
  match k with
  | O => Ok out
  | S k =>
      let! prev := index values (i - 1) in
      if (i <? length values)%nat && (values !!! i =? prev) && (n <? RLEBlockLimit)
      then RLE_loop rle values k (S i) (u16 (n + 1)) inp out
      else
        let! (inp, out) := RLE_emit rle prev n inp out in
        RLE_loop rle values k (S i) 1 inp out
  end.

Definition RLE_Encoding (rle : RLE) (inp : list Z) (out : slice) : res slice :=
  let values := Bytes2Uint64Slice inp in
  RLE_loop rle values (length values) 1 1 inp out.

(** Every round consumes at least two bytes of the input. *)
Fixpoint RLE_decode_loop (fuel : nat) (rle : RLE) (inp : list Z) (out : slice) : res slice :=
  if (length inp <? 2)%nat then Ok out
  else match fuel with
       | O => Diverge
       | S fuel =>
           let! b0 := index inp 0 in
           let! b1 := index inp 1 in
           let n := Z.lor (u16 (b0 ≪ 8)) b1 in
           if n ≫ 15 =? 1 then
             let n := u16 (n - (1 ≪ 15)) in
             let out := PaddingZeroBuffer out (Z.to_nat n * step rle) in
             let! inp := from inp 2 in
             RLE_decode_loop fuel rle inp out
           else if (length inp <? blockSize rle)%nat then Err "FailedToDecodeFloatArray"
           else
             let! pad := between inp 2 (blockSize rle) in
             let! out := paddingBuffer pad out (n * Z.of_nat (step rle)) in
             let! inp := from inp (blockSize rle) in
             RLE_decode_loop fuel rle inp out
       end.

Definition RLE_Decoding (rle : RLE) (inp : list Z) (out : slice) : res slice :=
  RLE_decode_loop (length inp) rle inp out.

(** ** Snappy and gorilla (compress.go) *)

Definition SnappyEncoding (inp : list Z) (out : slice) : res slice :=
  let pos := slen out in
  let size := gs_max (length inp) in
  let! out := Resize out (pos + size) in
  let buf := gs_encode inp in
  reslice_to (mk_slice (overwrite (sdata out) pos buf) (sspare out)) (pos + length buf).

Definition SnappyDecoding (inp : list Z) (out : slice) : res slice :=
  match gs_decodedLen inp with
  | None => Err "snappy: corrupt input"
  | Some size =>
      let! out := Resize out size in
      match gs_decode inp with
      | None => Err "snappy: corrupt input"
      | Some dec =>
          if (length dec <=? slen out)%nat
          then reslice_to (mk_slice (overwrite (sdata out) 0 dec) (sspare out)) (length dec)
          else Ok (mk_slice dec [])
      end
  end.

(** [tsm1.FloatArrayEncodeAll(values, out)] overwrites [out]. *)
Definition GorillaEncoding (inp : list Z) : res slice :=
  match gorilla_encode (Bytes2Float64Slice inp) with
  | None => Err "unsupported value: NaN"
  | Some b => Ok (mk_slice b [])
  end.

Definition GorillaDecoding (inp : list Z) : res slice :=
  match gorilla_decode inp with
  | None => Err "float array decoder"
  | Some vs => Ok (mk_slice (Float64Slice2byte vs) [])
  end.
End Coders.

(** ** The adaptive compressor (float.go) *)

Definition floatCompressedNull : Z := 0.
Definition floatCompressedOldGorilla : Z := 1.
Definition floatCompressedSnappy : Z := 2.
Definition floatCompressedGorilla : Z := 3.
Definition floatCompressedSame : Z := 4.
Definition floatCompressedRLE : Z := 5.
Definition floatCompressThreshold : nat := 4.
Definition floatRLECompressThreshold : nat := 8.
Definition lessDecimalThreshold : Z := 1000.

Record Context_ := mk_Context {
  valueCount : nat;
  distinctCount : nat;
  intOnly : bool;
  lessDecimal_ : bool;
  extremeDataValues : bool;
}.

(** [reset] leaves [valueCount] of the pooled object, which [GenerateContext] sets. *)
Definition reset (ctx : Context_) : Context_ := mk_Context (valueCount ctx) 1 true true false.
Definition newContext (pooled : option Context_) : Context_ :=
  reset (default (mk_Context 0 0 false false false) pooled).

Definition NotCompress (ctx : Context_) : bool := (valueCount ctx <=? floatCompressThreshold)%nat.
Definition Same (ctx : Context_) : bool := (distinctCount ctx =? 1)%nat.
Definition use_RLE (ctx : Context_) : bool := (distinctCount ctx <=? floatRLECompressThreshold)%nat.
Definition use_Snappy (ctx : Context_) : bool := negb (intOnly ctx) && lessDecimal_ ctx.

(** *** Integer tests on doubles *)

(** Floor and ceiling of a finite value; [uint64(f)] truncates a non-negative one. *)
Definition SF_floor (f : spec_float) : spec_float :=
  match f with
  | S754_finite s m e =>
      let v := if s then Zneg m else Zpos m in
      if 0 <=? e then f else float64_of_int (v / 2 ^ (- e))
  | _ => f
  end.
Definition SF_ceil (f : spec_float) : spec_float :=
  match f with
  | S754_finite s m e =>
      let v := if s then Zneg m else Zpos m in
      if 0 <=? e then f else float64_of_int (- (- v / 2 ^ (- e)))
  | _ => f
  end.
Definition SF_to_uint64 (f : spec_float) : Z :=
  match f with
  | S754_finite false m e => if 0 <=? e then Zpos m * 2 ^ e else Zpos m / 2 ^ (- e)
  | _ => 0
  end.

Definition isInt (f : spec_float) : bool :=
  if SFleb F0 f && SFltb f (float64_of_int (1 ≪ 32))
  then SFeqb (float64_of_int (SF_to_uint64 f)) f
  else SFeqb (SF_ceil f) f && SFeqb (SF_floor f) f.

Definition lessDecimal (f : spec_float) : bool :=
  isInt (SFmul 53 1024 f (float64_of_int lessDecimalThreshold)).

(** [for i := range values]: the number of changes, and whether a NaN occurs. *)
Fixpoint count_changes (prev : option Z) (vs : list Z) (distinct : nat) (extreme : bool)
    : nat * bool :=
  match vs with
  | [] => (distinct, extreme)
  | v :: vs =>
      let distinct := match prev with
                      | Some p => if negb (f_eq v p) then S distinct else distinct
                      | None => distinct
                      end in
      let extreme := if negb extreme && is_nan v then true else extreme in
      count_changes (Some v) vs distinct extreme
  end.

(** The sampling loop: non-zero values seen [k], integers only, and the number of
    values with at most three decimals. *)
Fixpoint sample (limit : nat) (vs : list Z) (k : nat) (int : bool) (less : nat)
    : nat * bool * nat :=
  match vs with
  | [] => (k, int, less)
  | v :: vs =>
      if (k <? limit)%nat then
        if f_is_zero v then sample limit vs k int less
        else
          let int := if int && negb (isInt (SF_of_bits v)) then false else int in
          let less := if lessDecimal (SF_of_bits v) then S less else less in
          sample limit vs (S k) int less
      else (k, int, less)
  end.

Definition GenerateContext (pooled : option Context_) (values : list Z) : Context_ :=
  let ctx := newContext pooled in
  let n := length values in
  if (n <=? floatCompressThreshold)%nat
  then mk_Context n (distinctCount ctx) (intOnly ctx) (lessDecimal_ ctx) (extremeDataValues ctx)
  else
    let (d, ex) := count_changes None values 1 (extremeDataValues ctx) in
    let ctx := mk_Context n d (intOnly ctx) (lessDecimal_ ctx) ex in
    if use_RLE ctx then ctx
    else
      let '(k, int, less) := sample (n / 10) values 0 (intOnly ctx) 0 in
      mk_Context n d int ((0 <? k)%nat && (90 <? 100 * less / k)%nat) ex.

Record Float := mk_Float { rle : RLE }.
Definition NewFloat : Float := mk_Float (NewRLE 8).

Section Adaptive.
Context `{RT : GoRuntime} `{GS : GoSnappy} `{GO : Gorilla}.

Definition compressNull (inp : list Z) (out : slice) : slice :=
  append (append out [floatCompressedNull ≪ 4]) inp.

(** [out = append(out[:1], out...); out[0] = floatCompressedGorilla << 4]: after an
    error [out] is nil and [out[:1]] is out of range. *)
Definition gorilla_branch (inp : list Z) : res slice :=
  match GorillaEncoding inp with
  | Ok out =>
      let! head := reslice_to out 1 in
      store (append head (sdata out)) 0 (floatCompressedGorilla ≪ 4)
  | Err _ => Panic
  | Panic => Panic
  | Diverge => Diverge
  end.

Definition adaptiveEncoding (c : Float) (pooled : option Context_) (inp : list Z) (out : slice)
    : res slice :=
  let values := Bytes2Float64Slice inp in
  let ctx := GenerateContext pooled values in
  if NotCompress ctx then Ok (compressNull inp out)
  else if Same ctx then
    SameValueEncoding (rle c) inp (append out [floatCompressedSame ≪ 4])
  else if use_RLE ctx then
    RLE_Encoding (rle c) inp (append out [floatCompressedRLE ≪ 4])
  else
    let! out :=
      if use_Snappy ctx || extremeDataValues ctx
      then SnappyEncoding inp (append out [floatCompressedSnappy ≪ 4])
      else gorilla_branch inp in
    if (length inp * 90 / 100 <? slen out)%nat then
      let! out := reslice_to out 0 in Ok (compressNull inp out)
    else Ok out.

Definition AdaptiveEncoding := adaptiveEncoding.

Definition AdaptiveDecoding (c : Float) (inp : list Z) (out : slice) : res slice :=
  let! b0 := index inp 0 in
  let algo := b0 ≫ 4 in
  let! rest := from inp 1 in
  if algo =? floatCompressedNull then Ok (append out rest)
  else if algo =? floatCompressedGorilla then GorillaDecoding rest
  else if algo =? floatCompressedSnappy then SnappyDecoding rest out
  else if algo =? floatCompressedSame then SameValueDecoding (rle c) rest out
  else if algo =? floatCompressedRLE then RLE_Decoding (rle c) rest out
  else Err "InvalidFloatBuffer".
End Adaptive.

(** ** Padding *)

Definition repeat_bytes (k : nat) (pad : list Z) : list Z := concat (replicate k pad).

Lemma length_repeat_bytes k pad : length (repeat_bytes k pad) = (k * length pad)%nat.
Proof. induction k; [done|]. unfold repeat_bytes in *. cbn. rewrite length_app. lia. Qed.
#[export] Hint Rewrite length_repeat_bytes : gemini_len.

Lemma repeat_bytes_add j k pad :
  repeat_bytes (j + k) pad = repeat_bytes j pad ++ repeat_bytes k pad.
Proof. unfold repeat_bytes. by rewrite replicate_add, concat_app. Qed.

Section Proofs.
Context `{RT : GoRuntime}.

Lemma padding_loop_spec pad fuel : ∀ out pre j r,
  (0 < length pad)%nat → sdata out = pre ++ repeat_bytes j pad → (0 < j)%nat →
  (r * length pad <= fuel)%nat →
  ∃ o, padding_loop fuel out (length pre) (Z.of_nat (r * length pad)) = Ok o ∧
       sdata o = pre ++ repeat_bytes (j + r) pad.
Proof.
  induction fuel as [|fuel IH]; intros out pre j r Hp Hd Hj Hf; cbn [padding_loop].
  - assert (r = 0%nat) as -> by nia. exists out. by rewrite Nat.add_0_r, Hd.
  - destruct (decide (r = 0%nat)) as [->|Hr]; [exists out; by rewrite Nat.add_0_r, Hd|].
    assert (0 < r * length pad)%nat by nia. bcase.
    rewrite Hd, from_app by done. cbn [res_bind]. rewrite length_repeat_bytes.
    destruct (Z.ltb_spec (Z.of_nat (r * length pad)) (Z.of_nat (j * length pad))) as [Hlt|Hge].
    + assert (Hrj : (r < j)%nat) by nia. unfold slen. rewrite Hd, length_app, length_repeat_bytes.
      bcase. cbn [res_bind].
      replace (Z.to_nat _) with (length (pre ++ repeat_bytes (j - r) pad)) by len.
      assert (Hs : repeat_bytes j pad = repeat_bytes (j - r) pad ++ repeat_bytes r pad).
      { rewrite <- repeat_bytes_add. f_equal. lia. }
      rewrite Hs, (app_assoc pre), from_app by done. cbn [res_bind].
      rewrite length_repeat_bytes, Z.sub_diag.
      eexists. split; [by destruct fuel|]. rewrite sdata_append, Hd, <- app_assoc.
      by rewrite repeat_bytes_add.
    + assert (Hrj : (j <= r)%nat) by nia. cbn [res_bind]. rewrite from_app by done.
      cbn [res_bind]. rewrite length_repeat_bytes.
      replace (Z.of_nat _ - Z.of_nat _) with (Z.of_nat ((r - j) * length pad)) by nia.
      destruct (IH (append out (repeat_bytes j pad)) pre (j + j)%nat (r - j)%nat)
        as (o & Ho & Hod); [done| |lia|nia|].
      { rewrite sdata_append, Hd, <- app_assoc, <- repeat_bytes_add. done. }
      exists o. split; [done|]. rewrite Hod. do 2 f_equal. lia.
Qed.

Lemma paddingBuffer_spec pad out k :
  (0 < length pad)%nat → (0 < k)%nat →
  ∃ o, paddingBuffer pad out (Z.of_nat k * Z.of_nat (length pad)) = Ok o ∧
       sdata o = sdata out ++ repeat_bytes k pad.
Proof.
  intros Hp Hk. unfold paddingBuffer.
  replace (_ - _) with (Z.of_nat ((k - 1) * length pad)) by nia.
  destruct (padding_loop_spec pad (Z.to_nat (Z.of_nat ((k - 1) * length pad)))
    (append out pad) (sdata out) 1 (k - 1)) as (o & Ho & Hod); [done| |lia|lia|].
  { rewrite sdata_append. unfold repeat_bytes. cbn. by rewrite app_nil_r. }
  exists o. split; [done|]. rewrite Hod. do 2 f_equal. lia.
Qed.

(** The two-byte big-endian counts. *)
Lemma count_bytes n :
  in_u 16 n → Z.lor (u16 (u8 (n ≫ 8) ≪ 8)) (u8 (Z.land n 255)) = n.
Proof.
  intros Hn. unfold in_u in Hn. change 255 with (Z.ones 8).
  rewrite Z.land_ones, Z.shiftr_div_pow2 by lia.
  rewrite (wrap_u_id 8 (n / 2 ^ 8)) by (unfold in_u; zdm).
  rewrite (wrap_u_id 8 (n mod 2 ^ 8)) by (unfold in_u; zdm).
  rewrite wrap_u_id by (unfold in_u; rewrite Z.shiftl_mul_pow2 by lia; zdm).
  rewrite lor_shift_add by (try lia; unfold in_u; zdm). zdm.
Qed.

Lemma repeat_value k v : repeat_bytes k (le_bytes 8 v) = bytes_le 8 (replicate k v).
Proof. unfold repeat_bytes, bytes_le. by rewrite fmap_replicate. Qed.

Lemma zeros_bytes k : zeros (k * 8) = bytes_le 8 (replicate k 0).
Proof.
  induction k as [|k IH]; [done|]. cbn [replicate]. rewrite bytes_le_cons, <- IH.
  unfold zeros. by rewrite Nat.mul_succ_l, Nat.add_comm, replicate_add.
Qed.

(** ** Runs *)

(** One block of the run-length format: a count with the top bit set for a run of
    zeros, or a count and the value. *)
Definition rle_block (r : nat * Z) : list Z :=
  let n := Z.of_nat r.1 in
  if r.2 =? 0 then let m := Z.lor n (1 ≪ 15) in [u8 (m ≫ 8); u8 (Z.land m 255)]
  else [u8 (n ≫ 8); u8 (Z.land n 255)] ++ le_bytes 8 r.2.

Definition rle_bytes (rs : list (nat * Z)) : list Z := concat (rle_block <$> rs).
Definition expand (rs : list (nat * Z)) : list Z := concat ((λ r, replicate r.1 r.2) <$> rs).
Definition run_ok (r : nat * Z) : Prop := (0 < r.1)%nat ∧ Z.of_nat r.1 ≤ RLEBlockLimit.

Lemma emit_block n v rest out :
  (0 < n)%nat →
  ∃ o, RLE_emit (NewRLE 8) v (Z.of_nat n) (bytes_le 8 (replicate n v ++ rest)) out
         = Ok (bytes_le 8 rest, o) ∧
       sdata o = sdata out ++ rle_block (n, v).
Proof.
  intros Hn. unfold RLE_emit. cbn [step NewRLE]. rewrite Nat2Z.id, bytes_le_app.
  rewrite from_app by (rewrite length_bytes_le, length_replicate; lia). cbn [res_bind].
  unfold rle_block. cbn [fst snd]. destruct (v =? 0).
  - eexists. split; [done|]. by rewrite sdata_append.
  - rewrite between_Ok by (rewrite ?length_app, ?length_bytes_le, ?length_replicate; lia).
    cbn [res_bind]. rewrite Nat.sub_0_r, drop_0.
    destruct n as [|n]; [lia|]. cbn [replicate]. rewrite bytes_le_cons, <- app_assoc.
    rewrite take_app_length' by len.
    eexists. split; [done|]. by rewrite !sdata_append, <- app_assoc.
Qed.

Lemma RLE_loop_spec values k : ∀ i n prev rest inp out,
  k = (S (length values) - i)%nat → (1 <= i <= length values)%nat →
  (0 < n)%nat → Z.of_nat n ≤ RLEBlockLimit →
  values !! (i - 1)%nat = Some prev → drop i values = rest →
  inp = bytes_le 8 (replicate n prev ++ rest) →
  ∃ o rs, RLE_loop (NewRLE 8) values k i (Z.of_nat n) inp out = Ok o ∧
    sdata o = sdata out ++ rle_bytes rs ∧ expand rs = replicate n prev ++ rest ∧
    Forall run_ok rs.
Proof.
  induction k as [|k IH]; intros i n prev rest inp out Hk Hi Hn Hlim Hprev Hrest ->; [lia|].
  cbn [RLE_loop]. rewrite (index_Ok _ _ _ Hprev). cbn [res_bind step NewRLE].
  destruct (emit_block n prev rest out Hn) as (o1 & Ho1 & Hd1).
  destruct (Nat.ltb_spec i (length values)) as [Hlt|Hge]; cbn [andb].
  - destruct rest as [|x rest].
    { apply (f_equal length) in Hrest. len. }
    assert (Hx : values !! i = Some x).
    { rewrite <- (Nat.add_0_r i), <- lookup_drop, Hrest. done. }
    assert (Hrest' : drop (S i) values = rest).
    { rewrite <- Nat.add_1_r, <- drop_drop, Hrest. done. }
    rewrite (list_lookup_total_correct _ _ _ Hx).
    assert (Hi1 : values !! (S i - 1)%nat = Some x) by (by rewrite Nat.sub_succ, Nat.sub_0_r).
    destruct (Z.eqb_spec x prev) as [->|Hxp]; cbn [andb].
    + destruct (Z.ltb_spec (Z.of_nat n) RLEBlockLimit) as [Hn'|Hn'].
      * change RLEBlockLimit with 16384 in *.
        rewrite wrap_u_id by (unfold in_u; lia).
        replace (Z.of_nat n + 1) with (Z.of_nat (S n)) by lia.
        destruct (IH (S i) (S n) prev rest (bytes_le 8 (replicate (S n) prev ++ rest)) out)
          as (o & rs & Ho & Hd & He & Hf); try done; try lia.
        exists o, rs. split_and!; try done.
        -- rewrite <- Ho. f_equal. by rewrite replicate_S_end, <- app_assoc.
        -- rewrite He. by rewrite replicate_S_end, <- app_assoc.
      * rewrite Ho1. cbn [res_bind].
        destruct (IH (S i) 1%nat prev rest (bytes_le 8 (prev :: rest)) o1)
          as (o & rs & Ho & Hd & He & Hf); try done; try lia.
        exists o, ((n, prev) :: rs). split; [exact Ho|]. rewrite Hd, Hd1, <- app_assoc.
        split_and!; try done; [|by constructor].
        unfold expand in *. cbn [fmap list_fmap concat]. by rewrite He.
    + rewrite Ho1. cbn [res_bind].
      destruct (IH (S i) 1%nat x rest (bytes_le 8 (x :: rest)) o1)
        as (o & rs & Ho & Hd & He & Hf); try done; try lia.
      exists o, ((n, prev) :: rs). split; [exact Ho|]. rewrite Hd, Hd1, <- app_assoc.
      split_and!; try done; [|by constructor].
      unfold expand in *. cbn [fmap list_fmap concat]. by rewrite He.
  - assert (rest = []) as -> by (rewrite <- Hrest; apply drop_ge; lia).
    rewrite Ho1. cbn [res_bind]. assert (k = 0%nat) as -> by lia.
    exists o1, [(n, prev)]. split_and!; try done.
    + unfold rle_bytes. cbn [fmap list_fmap concat]. by rewrite app_nil_r.
    + by constructor.
Qed.

Lemma RLE_decode_block fuel r rest out :
  run_ok r → in_u 64 r.2 →
  ∃ o, RLE_decode_loop (S fuel) (NewRLE 8) (rle_block r ++ rest) out =
         RLE_decode_loop fuel (NewRLE 8) rest o ∧
       sdata o = sdata out ++ bytes_le 8 (replicate r.1 r.2).
Proof.
  destruct r as [n v]. intros [Hn Hlim] Hv. cbn [fst snd] in *.
  change RLEBlockLimit with 16384 in Hlim. cbn [RLE_decode_loop].
  assert (Hlor : Z.lor (Z.of_nat n) (1 ≪ 15) = Z.of_nat n + 32768).
  { rewrite Z.lor_comm, lor_shift_add by (try lia; unfold in_u; lia). lia. }
  unfold rle_block. cbn [fst snd]. destruct (Z.eqb_spec v 0) as [->|Hv0].
  - rewrite Hlor. cbn [app length Nat.ltb Nat.leb]. unfold index. cbn [lookup list_lookup res_bind].
    rewrite count_bytes by (unfold in_u; lia).
    replace ((Z.of_nat n + 32768) ≫ 15) with 1.
    2: { rewrite Z.shiftr_div_pow2 by lia. zdm. }
    change (1 =? 1) with true. cbv iota.
    change (1 ≪ 15) with 32768. rewrite Z.add_simpl_r, (wrap_u_id 16) by (unfold in_u; lia).
    rewrite from_Ok by (simpl; lia). cbn [res_bind]. change (drop 2 (?a :: ?b :: rest)) with rest.
    eexists. split; [done|]. unfold PaddingZeroBuffer. rewrite sdata_append. cbn [step NewRLE].
    by rewrite Nat2Z.id, zeros_bytes.
  - cbn [app length]. rewrite length_app, length_le_bytes. cbn [Nat.ltb Nat.leb Nat.add].
    unfold index. cbn [lookup list_lookup res_bind]. rewrite count_bytes by (unfold in_u; lia).
    replace (Z.of_nat n ≫ 15) with 0.
    2: { rewrite Z.shiftr_div_pow2 by lia. zdm. }
    change (0 =? 1) with false. cbv iota. cbn [blockSize step NewRLE].
    rewrite between_Ok by (cbn [length]; rewrite ?length_app, ?length_le_bytes; lia).
    cbn [res_bind]. change (drop 2 (?a :: ?b :: ?l)) with l.
    rewrite take_app_length' by len.
    destruct (paddingBuffer_spec (le_bytes 8 v) out n) as (o & Ho & Hd); [len|done|].
    rewrite length_le_bytes in Ho. rewrite Ho. cbn [res_bind].
    rewrite from_Ok by (cbn [length]; rewrite ?length_app, ?length_le_bytes; lia).
    cbn [res_bind]. exists o. split.
    + change (drop (2 + 8) (?a :: ?b :: ?l)) with (drop 8 l). by rewrite drop_app_length' by len.
    + by rewrite Hd, repeat_value.
Qed.

Lemma RLE_decode_spec rs : ∀ fuel out,
  Forall run_ok rs → Forall (λ r, in_u 64 r.2) rs → (length rs <= fuel)%nat →
  ∃ o, RLE_decode_loop fuel (NewRLE 8) (rle_bytes rs) out = Ok o ∧
       sdata o = sdata out ++ bytes_le 8 (expand rs).
Proof.
  induction rs as [|r rs IH]; intros fuel out Hok Hv Hf.
  - exists out. split; [by destruct fuel|]. unfold expand. cbn. by rewrite app_nil_r.
  - apply Forall_cons in Hok as [Hr Hok]. apply Forall_cons in Hv as [Hrv Hv].
    simpl in Hf. destruct fuel as [|fuel]; [lia|].
    change (rle_bytes (r :: rs)) with (rle_block r ++ rle_bytes rs).
    destruct (RLE_decode_block fuel r (rle_bytes rs) out Hr Hrv) as (o1 & -> & Hd1).
    destruct (IH fuel o1) as (o & Ho & Hd); [done|done|lia|].
    exists o. split; [done|]. rewrite Hd, Hd1, <- app_assoc, <- bytes_le_app. done.
Qed.

Lemma length_rle_bytes rs : (length rs <= length (rle_bytes rs))%nat.
Proof.
  induction rs as [|r rs IH]; [done|]. change (rle_bytes (r :: rs)) with (rle_block r ++ rle_bytes rs).
  rewrite length_app. assert (1 <= length (rle_block r))%nat.
  { unfold rle_block. case_match; simpl; lia. }
  simpl. lia.
Qed.

Lemma expand_range rs : Forall run_ok rs → Forall (in_u 64) (expand rs) → Forall (λ r, in_u 64 r.2) rs.
Proof.
  induction 1 as [|[n v] rs [Hn _] Hok IH]; intros He; constructor.
  - unfold expand in He. cbn [fmap list_fmap concat fst snd] in *. destruct n; [lia|].
    cbn in He. by apply Forall_cons in He as [? _].
  - apply IH. unfold expand in *. cbn [fmap list_fmap concat] in He. by apply Forall_app in He as [_ ?].
Qed.

Lemma RLE_spec inp out :
  bytes_ok inp → (length inp mod 8 = 0)%nat → inp ≠ [] →
  ∃ o block, RLE_Encoding (NewRLE 8) inp out = Ok o ∧ sdata o = sdata out ++ block ∧
    ∀ out2, ∃ o2, RLE_Decoding (NewRLE 8) block out2 = Ok o2 ∧ sdata o2 = sdata out2 ++ inp.
Proof.
  intros Hok Hm Hne. pose proof (Uint64Slice_roundtrip inp Hok Hm) as Hi.
  pose proof (Bytes2Uint64Slice_range inp Hok) as Hr. unfold RLE_Encoding.
  set (vs := Bytes2Uint64Slice inp) in *.
  destruct vs as [|v0 rest] eqn:Hvs; [by rewrite <- Hi in Hne|].
  destruct (RLE_loop_spec (v0 :: rest) (length (v0 :: rest)) 1 1 v0 rest inp out)
    as (o & rs & Ho & Hd & He & Hf); try done; [simpl; lia|simpl; lia|].
  exists o, (rle_bytes rs). split_and!; try done. intros out2.
  destruct (RLE_decode_spec rs (length (rle_bytes rs)) out2) as (o2 & Ho2 & Hd2).
  - done.
  - apply expand_range; [done|]. by rewrite He.
  - apply length_rle_bytes.
  - exists o2. split; [done|]. rewrite Hd2, He. by rewrite <- Hi.
Qed.

(** Run-length coding is lossless on any non-empty column of 64-bit words,
    whatever the run lengths: runs longer than 2^14 are split, and zero runs use
    the short form. *)
Theorem RLE_roundtrip inp out out2 :
  bytes_ok inp → (length inp mod 8 = 0)%nat → inp ≠ [] →
  ∃ o block o2, RLE_Encoding (NewRLE 8) inp out = Ok o ∧ sdata o = sdata out ++ block ∧
    RLE_Decoding (NewRLE 8) block out2 = Ok o2 ∧ sdata o2 = sdata out2 ++ inp.
Proof.
  intros Hok Hm Hne. destruct (RLE_spec inp out Hok Hm Hne) as (o & block & Ho & Hd & Hdec).
  destruct (Hdec out2) as (o2 & ? & ?). by exists o, block, o2.
Qed.
End Proofs.

(** ** Equality of doubles *)

Lemma bits_recompose b :
  in_u 64 b → b = Z.b2z (f_sign b) * 2 ^ 63 + f_exp b * 2 ^ 52 + f_mant b.
Proof.
  intros Hb. unfold in_u, f_sign, f_exp, f_mant in *. rewrite Z.testbit_spec' by lia. zdm.
Qed.

Lemma f_mant_range b : 0 ≤ f_mant b < 2 ^ 52.
Proof. unfold f_mant. apply Z.mod_pos_bound. lia. Qed.

Definition neg_zero : Z := 2 ^ 63.

Lemma f_is_zero_spec b : in_u 64 b → f_is_zero b = true ↔ b = 0 ∨ b = neg_zero.
Proof.
  intros Hb. split.
  - intros Hz. unfold f_is_zero, SF_of_bits in Hz. pose proof (f_mant_range b).
    rewrite (bits_recompose b Hb). unfold neg_zero.
    destruct (Z.eqb_spec (f_exp b) 2047); [by destruct (f_mant b =? 0), (f_sign b)|].
    destruct (Z.eqb_spec (f_exp b) 0) as [->|].
    + destruct (f_mant b); [|by destruct (f_sign b)|lia].
      destruct (f_sign b); simpl Z.b2z; lia.
    + destruct (f_mant b + 2 ^ 52); [done|by destruct (f_sign b)|done].
  - intros [-> | ->]; vm_compute; done.
Qed.

Lemma SFeqb_eq x y :
  SFeqb x y = true → x = y ∨ (∃ s s', x = S754_zero s ∧ y = S754_zero s').
Proof.
  unfold SFeqb, SFcompare. destruct x as [s|s| |s m e], y as [s'|s'| |s' m' e'];
    try (by repeat case_match); eauto.
  - destruct s, s'; naive_solver.
  - change (Pos.compare_cont Eq m m') with (Pos.compare m m').
    intros Heq. left.
    assert (Hm : (if s then CompOpp (m ?= m')%positive else (m ?= m')%positive) = Eq ∧
                 (e ?= e') = Eq ∧ s = s').
    { destruct s, s', (e ?= e') eqn:He; try done; split_and!; try done;
        try (by destruct (m ?= m')%positive). }
    destruct Hm as (Hm & He & ->). apply Z.compare_eq in He as ->.
    f_equal. destruct s'; [destruct (m ?= m')%positive eqn:Hc; try done|];
      by apply Pos.compare_eq.
Qed.

Ltac sgn :=
  simplify_eq;
  repeat match goal with H : f_sign _ = f_sign _ |- _ => rewrite H; clear H end;
  try lia.

Lemma SF_of_bits_inj a b :
  in_u 64 a → in_u 64 b → SF_of_bits a = SF_of_bits b → SF_of_bits a ≠ S754_nan → a = b.
Proof.
  intros Ha Hb Heq Hn. rewrite (bits_recompose a Ha), (bits_recompose b Hb).
  pose proof (f_mant_range a). pose proof (f_mant_range b). unfold SF_of_bits in *.
  destruct (Z.eqb_spec (f_exp a) 2047) as [Hea|Hea];
    [destruct (Z.eqb_spec (f_mant a) 0); [|done]|destruct (Z.eqb_spec (f_exp a) 0) as [Hea'|Hea']].
  - destruct (Z.eqb_spec (f_exp b) 2047); [destruct (Z.eqb_spec (f_mant b) 0)|
      destruct (f_exp b =? 0); [destruct (f_mant b)|destruct (f_mant b + 2 ^ 52)]]; try done.
    sgn.
  - destruct (Z.eqb_spec (f_exp b) 2047); [by destruct (f_mant b =? 0), (f_mant a)|].
    destruct (Z.eqb_spec (f_exp b) 0).
    + destruct (f_mant a), (f_mant b); try sgn.
    + destruct (f_mant b + 2 ^ 52) eqn:Hs; [lia| |lia].
      destruct (f_mant a) eqn:?; sgn.
  - destruct (f_mant a + 2 ^ 52) eqn:Hs; [done| |done].
    destruct (Z.eqb_spec (f_exp b) 2047); [by destruct (f_mant b =? 0)|].
    destruct (Z.eqb_spec (f_exp b) 0).
    + destruct (f_mant b) eqn:?; sgn.
    + destruct (f_mant b + 2 ^ 52) eqn:Hs'; sgn.
Qed.

(** Equal doubles have equal bits, the two zeros apart. *)
Lemma f_eq_spec a b :
  in_u 64 a → in_u 64 b → f_eq a b = true →
  a = b ∨ (f_is_zero a = true ∧ f_is_zero b = true).
Proof.
  intros Ha Hb He. unfold f_eq in He. pose proof He as He'.
  apply SFeqb_eq in He as [He|(s & s' & Hs & Hs')].
  - left. apply SF_of_bits_inj; try done. intros Hn. rewrite Hn in He'. done.
  - right. unfold f_is_zero. rewrite Hs, Hs'. by destruct s, s'.
Qed.

(** ** What the context tells *)

Lemma count_changes_spec vs : ∀ prev d ex,
  let (d', ex') := count_changes prev vs d ex in
  (d <= d')%nat ∧ ex' = ex || existsb is_nan vs.
Proof.
  induction vs as [|v vs IH]; intros prev d ex; cbn [count_changes existsb].
  - by rewrite orb_false_r.
  - match goal with |- context [count_changes (Some v) vs ?d' ?e'] =>
      specialize (IH (Some v) d' e'); destruct (count_changes (Some v) vs d' e') end.
    destruct IH as [Hd ->]. split.
    + destruct prev; [destruct (negb _)|]; lia.
    + by destruct ex, (is_nan v).
Qed.

Lemma count_changes_same vs : ∀ p d ex,
  in_u 64 p → Forall (in_u 64) vs → (count_changes (Some p) vs d ex).1 = d →
  if f_is_zero p then Forall (λ v, f_is_zero v = true) vs else Forall (λ v, v = p) vs.
Proof.
  induction vs as [|v vs IH]; intros p d ex Hp Hv Hd; [case_match; constructor|].
  apply Forall_cons in Hv as [Hv Hvs]. cbn [count_changes] in Hd.
  set (ex' := if negb ex && is_nan v then true else ex) in *.
  destruct (f_eq v p) eqn:Heq; cbn [negb] in Hd.
  - specialize (IH v d ex' Hv Hvs Hd).
    destruct (f_eq_spec v p Hv Hp Heq) as [->|[Hz1 Hz2]].
    + destruct (f_is_zero p) eqn:Hz; by constructor.
    + rewrite Hz1, Hz2 in *. by constructor.
  - pose proof (count_changes_spec vs (Some v) (S d) ex') as Hc.
    destruct (count_changes (Some v) vs (S d) ex') as [d' e']. simpl in Hd. lia.
Qed.

Lemma Context_same pooled v0 vs :
  Forall (in_u 64) (v0 :: vs) →
  NotCompress (GenerateContext pooled (v0 :: vs)) = false →
  Same (GenerateContext pooled (v0 :: vs)) = true →
  if f_is_zero v0 then Forall (λ v, f_is_zero v = true) (v0 :: vs)
  else v0 :: vs = replicate (S (length vs)) v0.
Proof.
  intros Hr. unfold GenerateContext. case_match; [unfold NotCompress; cbn [valueCount]; congruence|].
  intros _ Hs. apply Forall_cons in Hr as [Hv0 Hvs].
  cbn [count_changes] in Hs. set (ex := if negb _ && _ then true else _) in Hs.
  assert (Hd : (count_changes (Some v0) vs 1 ex).1 = 1%nat).
  { destruct (count_changes (Some v0) vs 1 ex) as [d e]. unfold Same in Hs.
    destruct (use_RLE _); [|destruct (sample _ _ _ _ _) as [[??]?]]; cbn [distinctCount] in Hs;
      by apply Nat.eqb_eq in Hs. }
  pose proof (count_changes_same vs v0 1 ex Hv0 Hvs Hd) as Hc.
  destruct (f_is_zero v0) eqn:Hz; [by constructor|].
  cbn [replicate]. f_equal. by apply Forall_eq_replicate.
Qed.

Lemma Context_extreme pooled vs :
  NotCompress (GenerateContext pooled vs) = false →
  extremeDataValues (GenerateContext pooled vs) = existsb is_nan vs.
Proof.
  unfold GenerateContext. case_match; [unfold NotCompress; cbn [valueCount]; congruence|].
  intros _. cbn [newContext reset extremeDataValues].
  pose proof (count_changes_spec vs None 1 false) as Hc.
  destruct (count_changes None vs 1 false) as [d e]. destruct Hc as [_ ->].
  case_match; [done|]. by destruct (sample _ _ _ _ _) as [[??]?].
Qed.

(** ** The adaptive coder *)

Section AdaptiveProofs.
Context `{RT : GoRuntime} `{GS : GoSnappy} `{GO : Gorilla}.
Context `{!GoSnappyLaws GS} `{!GorillaLaws GO}.

Lemma Float64Slice_roundtrip inp :
  bytes_ok inp → (length inp mod 8 = 0)%nat → Float64Slice2byte (Bytes2Float64Slice inp) = inp.
Proof. apply Uint64Slice_roundtrip. Qed.

(** What makes the same-value form lossless: fewer than 2^16 values and no -0.0. *)
Definition same_ok (vs : list Z) : Prop :=
  Z.of_nat (length vs) < 2 ^ 16 ∧ Forall (λ v, v ≠ neg_zero) vs.

(** [dec block] yields [inp] from any empty buffer. *)
Definition decodes_to (dec : list Z → slice → res slice) (block inp : list Z) : Prop :=
  ∀ out, sdata out = [] → ∃ o, dec block out = Ok o ∧ sdata o = inp.

Lemma Same_spec pooled inp out :
  bytes_ok inp → (length inp mod 8 = 0)%nat →
  NotCompress (GenerateContext pooled (Bytes2Float64Slice inp)) = false →
  Same (GenerateContext pooled (Bytes2Float64Slice inp)) = true →
  same_ok (Bytes2Float64Slice inp) →
  ∃ o block, SameValueEncoding (NewRLE 8) inp out = Ok o ∧ sdata o = sdata out ++ block ∧
    decodes_to (SameValueDecoding (NewRLE 8)) block inp.
Proof.
  intros Hok Hm Hnc Hs [Hn Hnz]. pose proof (Float64Slice_roundtrip inp Hok Hm) as Hi.
  pose proof (Bytes2Uint64Slice_range inp Hok) as Hr.
  change (Bytes2Uint64Slice inp) with (Bytes2Float64Slice inp) in Hr.
  unfold SameValueEncoding.
  destruct (Bytes2Float64Slice inp) as [|v0 vs]; [done|].
  pose proof (Context_same pooled v0 vs Hr Hnc Hs) as Hc.
  apply Forall_cons in Hr as [Hv0 Hr]. set (n := length (v0 :: vs)) in *.
  rewrite (wrap_u_id 16) by (unfold in_u; lia).
  change (index (v0 :: vs) 0) with (Ok v0). cbn [res_bind].
  destruct (f_is_zero v0) eqn:Hz.
  - eexists _, _. split; [done|]. split; [apply sdata_append|].
    intros out2 Ho2. unfold SameValueDecoding, index. cbn [lookup list_lookup res_bind length Nat.eqb].
    rewrite count_bytes by (unfold in_u; lia). eexists. split; [done|].
    unfold PaddingZeroBuffer. rewrite sdata_append, Ho2, app_nil_l. cbn [step NewRLE].
    replace (Z.to_nat _) with (n * 8)%nat by lia. rewrite zeros_bytes, <- Hi.
    unfold Float64Slice2byte. f_equal. symmetry. apply Forall_eq_replicate.
    pose proof (proj2 (Forall_and _ _) (conj (proj2 (Forall_and _ _) (conj Hc Hnz))
      (proj2 (Forall_cons (in_u 64) v0 vs) (conj Hv0 Hr)))) as Hall.
    eapply Forall_impl; [exact Hall|]. intros v [[Hvz Hvn] Hv]. by apply f_is_zero_spec in Hvz as [->|].
  - rewrite between_Ok by (try rewrite <- Hi; unfold Float64Slice2byte; cbn [step NewRLE]; len).
    cbn [res_bind]. rewrite Nat.sub_0_r, drop_0.
    assert (Hpat : take (step (NewRLE 8)) inp = le_bytes 8 v0).
    { rewrite <- Hi. unfold Float64Slice2byte. rewrite bytes_le_cons.
      apply take_app_length'. by rewrite length_le_bytes. }
    rewrite Hpat. eexists _, _. split; [done|].
    split; [by rewrite !sdata_append, <- app_assoc|].
    intros out2 Ho2. unfold SameValueDecoding, index.
    cbn [app lookup list_lookup res_bind length]. rewrite length_le_bytes.
    cbn [Nat.eqb Nat.ltb Nat.leb blockSize step NewRLE Nat.add].
    rewrite count_bytes by (unfold in_u; lia).
    rewrite between_Ok by (cbn [length]; rewrite ?length_le_bytes; lia). cbn [res_bind].
    change (drop 2 (?a :: ?b :: ?l)) with l. rewrite take_ge by len.
    destruct (paddingBuffer_spec (le_bytes 8 v0) out2 n) as (o & Ho & Hd); [len|unfold n; simpl; lia|].
    rewrite length_le_bytes in Ho. rewrite Ho. exists o. split; [done|].
    rewrite Hd, Ho2, app_nil_l, repeat_value, <- Hi. unfold Float64Slice2byte. by rewrite Hc.
Qed.

Lemma Snappy_spec inp out :
  bytes_ok inp →
  ∃ o, SnappyEncoding inp out = Ok o ∧ sdata o = sdata out ++ gs_encode inp ∧
    decodes_to SnappyDecoding (gs_encode inp) inp.
Proof.
  intros Hok. pose proof (gs_bound inp) as Hb. unfold SnappyEncoding.
  destruct (Resize_grow out (slen out + gs_max (length inp))) as (r & -> & Hl & Ht); [lia|].
  cbn [res_bind].
  assert (Hov : slen (mk_slice (overwrite (sdata r) (slen out) (gs_encode inp)) (sspare r)) = slen r).
  { unfold slen, overwrite in *. cbn [sdata]. len. }
  assert (Hpre : take (slen out + length (gs_encode inp))
    (overwrite (sdata r) (slen out) (gs_encode inp)) = sdata out ++ gs_encode inp).
  { unfold overwrite. rewrite Ht, app_assoc. apply take_app_length'. unfold slen. len. }
  rewrite reslice_to_Ok by (rewrite <- slen_le_scap, Hov; lia).
  eexists. split; [done|]. cbn [sdata]. split.
  - by rewrite take_sback, <- Hpre by (rewrite Hov; lia).
  - intros out2 Ho2. unfold SnappyDecoding. rewrite gs_decodedLen_ok, gs_roundtrip by done.
    destruct (Resize_grow out2 (length inp)) as (r2 & -> & Hl2 & Ht2).
    { unfold slen. rewrite Ho2. simpl. lia. }
    cbn [res_bind]. rewrite Hl2, Nat.leb_refl.
    assert (Hd2 : overwrite (sdata r2) 0 inp = inp).
    { unfold overwrite. rewrite take_0, drop_ge, app_nil_r; [done|]. unfold slen in Hl2. lia. }
    rewrite Hd2. rewrite reslice_to_Ok by (unfold scap; simpl; lia).
    eexists. split; [done|]. unfold sback. cbn [sdata sspare]. by rewrite take_app_length.
Qed.

Lemma gorilla_branch_spec inp :
  bytes_ok inp → (length inp mod 8 = 0)%nat →
  existsb is_nan (Bytes2Float64Slice inp) = false →
  ∃ o b, gorilla_branch inp = Ok o ∧ sdata o = 48 :: b ∧
    decodes_to (λ b _, GorillaDecoding b) b inp.
Proof.
  intros Hok Hm Hn. pose proof (Float64Slice_roundtrip inp Hok Hm) as Hi.
  pose proof (Bytes2Uint64Slice_range inp Hok) as Hr.
  destruct (gorilla_roundtrip (Bytes2Float64Slice inp) Hn Hr) as (b & He & Hne & Hb & Hd).
  unfold gorilla_branch, GorillaEncoding. rewrite He.
  destruct b as [|b0 b]; [done|]. rewrite reslice_to_Ok by (unfold scap; simpl; lia).
  cbn [res_bind]. unfold store. rewrite slen_append. unfold slen at 1.
  cbn [sdata sback sspare app length]. bcase.
  eexists _, (b0 :: b). split; [done|]. split.
  - cbn [sdata]. by rewrite sdata_append.
  - intros out2 _. unfold GorillaDecoding. rewrite Hd. eexists. split; [done|]. by cbn [sdata].
Qed.

(** A block [b0 :: rest] whose type selects [dec], and that [dec] decodes. *)
Definition good_block (block inp : list Z) : Prop :=
  ∃ b0 rest, block = b0 :: rest ∧ (b0 ≫ 4) ≠ floatCompressedOldGorilla ∧
    decodes_to (AdaptiveDecoding NewFloat) block inp.

Lemma good_block_intro b0 rest inp (dec : list Z → slice → res slice) :
  (b0 ≫ 4) ≠ floatCompressedOldGorilla →
  (∀ out, AdaptiveDecoding NewFloat (b0 :: rest) out = dec rest out) →
  decodes_to dec rest inp → good_block (b0 :: rest) inp.
Proof.
  intros Hb Hdisp Hdec. exists b0, rest. split_and!; try done.
  intros out Ho. rewrite Hdisp. by apply Hdec.
Qed.

Lemma compressNull_good inp out :
  sdata out = [] → good_block (sdata (compressNull inp out)) inp.
Proof.
  intros Ho. unfold compressNull. rewrite !sdata_append, Ho.
  apply (good_block_intro 0 inp inp (λ b out, Ok (append out b))); [done|done|].
  intros out2 Ho2. eexists. split; [done|]. by rewrite sdata_append, Ho2.
Qed.

Lemma SnappyEncoding_good inp out :
  bytes_ok inp → sdata out = [] →
  ∃ o, SnappyEncoding inp (append out [floatCompressedSnappy ≪ 4]) = Ok o ∧
    good_block (sdata o) inp.
Proof.
  intros Hok Ho. destruct (Snappy_spec inp (append out [floatCompressedSnappy ≪ 4]) Hok)
    as (o & -> & Hd & Hdec).
  exists o. split; [done|]. rewrite Hd, sdata_append, Ho.
  by apply (good_block_intro 32 _ _ SnappyDecoding).
Qed.

(** The block of the adaptive encoder is decoded to the input, and is never
    mistaken for a block of the old gorilla format. *)
Lemma adaptive_spec pooled inp out :
  bytes_ok inp → (length inp mod 8 = 0)%nat → sdata out = [] →
  same_ok (Bytes2Float64Slice inp) ∨
    Same (GenerateContext pooled (Bytes2Float64Slice inp)) = false →
  ∃ o, adaptiveEncoding NewFloat pooled inp out = Ok o ∧ good_block (sdata o) inp.
Proof.
  intros Hok Hm Hout Hsame. unfold adaptiveEncoding.
  destruct (NotCompress _) eqn:Hnc; [eexists; split; [done|]; by apply compressNull_good|].
  destruct (Same _) eqn:Hs.
  { destruct Hsame as [Hsame|]; [|done].
    destruct (Same_spec pooled inp (append out [floatCompressedSame ≪ 4]))
      as (o & b & Ho & Hd & Hdec); try done.
    exists o. split; [done|]. rewrite Hd, sdata_append, Hout.
    by apply (good_block_intro 64 _ _ (SameValueDecoding (NewRLE 8))). }
  destruct (use_RLE _).
  { destruct (RLE_spec inp (append out [floatCompressedRLE ≪ 4])) as (o & b & Ho & Hd & Hdec);
      try done; [by intros ->|].
    exists o. split; [done|]. rewrite Hd, sdata_append, Hout.
    apply (good_block_intro 80 _ _ (RLE_Decoding (NewRLE 8))); [done|done|].
    intros out2 Ho2. destruct (Hdec out2) as (o2 & -> & Ho2d). exists o2. by rewrite Ho2d, Ho2. }
  pose proof (Context_extreme pooled _ Hnc) as Hex.
  match goal with |- context [if ?c then SnappyEncoding _ _ else _] =>
    assert (Hblk : ∃ o, (if c then SnappyEncoding inp (append out [floatCompressedSnappy ≪ 4])
                         else gorilla_branch inp) = Ok o ∧ good_block (sdata o) inp);
    [destruct c eqn:Hc|] end.
  - by apply SnappyEncoding_good.
  - apply orb_false_iff in Hc as [_ Hc]. rewrite Hex in Hc.
    destruct (gorilla_branch_spec inp Hok Hm Hc) as (o & b & Ho & Hd & Hdec).
    exists o. split; [done|]. rewrite Hd.
    by apply (good_block_intro 48 _ _ (λ b _, GorillaDecoding b)).
  - destruct Hblk as (o & -> & Hgood). cbn [res_bind]. case_match; [|eauto].
    rewrite reslice_to_Ok by lia. cbn [res_bind]. eexists. split; [done|].
    by apply compressNull_good.
Qed.

(** The error path of the gorilla branch panics.  When the gorilla coder rejects
    its input, [out] is nil and [out[:1]] is out of range, so the error is never
    returned. *)
Theorem gorilla_error_panics inp :
  existsb is_nan (Bytes2Float64Slice inp) = true → gorilla_branch inp = Panic.
Proof. intros Hn. unfold gorilla_branch, GorillaEncoding. by rewrite gorilla_nan. Qed.

End AdaptiveProofs.

(** ** Witnesses *)

Lemma RLE_roundtrip_witness :
  let inp := bytes_le 8 [0; 0; 7; 7; 7; 0] in
  ∃ o block o2, RLE_Encoding (NewRLE 8) inp nil_slice = Ok o ∧ sdata o = [] ++ block ∧
    RLE_Decoding (NewRLE 8) block nil_slice = Ok o2 ∧ sdata o2 = [] ++ inp.
Proof.
  apply (RLE_roundtrip (bytes_le 8 [0; 0; 7; 7; 7; 0]) nil_slice nil_slice);
    [by_compute|done|done].
Defined.

Lemma gorilla_error_panics_witness :
  gorilla_branch (Float64Slice2byte [9221120237041090561]) = Panic.
Proof. apply (gorilla_error_panics (Float64Slice2byte [9221120237041090561])). by vm_compute. Defined.
