(* ===== verification/FloatCoder.v ===== *)
(** * lib/encoding/float.go: the coder of float columns

    A wrapper of the adaptive compressor of lib/compress, with the decoder of the
    old gorilla format kept for data files of earlier versions. *)

From S2P Require Import Prelude GoSlice NumberEnc Coder Bitstream Compress.

(** The type nibble of the old format. *)
Definition floatCompressedGorilla : Z := 1.

Record Float := mk_Float {
  encodingType : Z;
  leading : Z;
  trailing : Z;
  br : option BitReader;
  float : Compress.Float;
}.

Definition NewFloat : Float := mk_Float 0 0 0 None Compress.NewFloat.

Definition SetEncodingType (enc : Float) (ty : Z) : Float :=
  mk_Float ty (leading enc) (trailing enc) (br enc) (float enc).

(** [out[idx-1]] and [out[idx] = v] on the float view of the output. *)
Definition get (out : list Z) (i : nat) : res Z :=
  match out !! i with Some v => Ok v | None => Panic end.
Definition set (out : list Z) (i : nat) (v : Z) : res (list Z) :=
  if (i <? length out)%nat then Ok (<[i := v]> out) else Panic.

(** The decoder's state: bit reader, [leading] and [trailing]. *)
Record gstate := mk_gstate { g_br : BitReader; g_leading : Z; g_trailing : Z }.

(** The control bits after a 1: 0 keeps the window, 1 reads a new one. *)
Definition read_window (st : gstate) (bit : bool) : res gstate :=
  if negb bit then Ok st
  else
    let! (rBits, r) := ReadBits (g_br st) 5 in
    let lead := u8 rBits in
    let! (rBits, r) := ReadBits r 6 in
    let mbits := u8 rBits in
    let mbits := if mbits =? 0 then 64 else mbits in
    Ok (mk_gstate r lead (u8 (64 - lead - mbits))).

(** The loop of [gorillaDecoding]; every round consumes a bit.  A failure of the
    second [ReadBit] returns the outer [err], which is nil. *)
Fixpoint gorilla_loop (fuel : nat) (st : gstate) (out : list Z) (idx : nat)
    : res (gstate * list Z) :=
  match fuel with
  | O => Diverge
  | S fuel =>
      let! (bit, r) := ReadBit (g_br st) in
      let st := mk_gstate r (g_leading st) (g_trailing st) in
      if negb bit then
        let! p := get out (idx - 1) in
        let! out := set out idx p in
        gorilla_loop fuel st out (S idx)
      else
        match ReadBit (g_br st) with
        | Err _ => Ok (st, out)
        | Panic => Panic
        | Diverge => Diverge
        | Ok (bit, r) =>
            let! st := read_window (mk_gstate r (g_leading st) (g_trailing st)) bit in
            let mbits := Z.to_nat (u8 (64 - g_leading st - g_trailing st)) in
            let! (rBits, r) := ReadBits (g_br st) mbits in
            let st := mk_gstate r (g_leading st) (g_trailing st) in
            let! p := get out (idx - 1) in
            let vbits := Z.lxor p (u64 (rBits ≪ g_trailing st)) in
            if is_nan vbits then Ok (st, out)
            else
              let! out := set out idx vbits in
              gorilla_loop fuel st out (S idx)
        end
  end.

Definition gorillaDecoding (st : gstate) (out : list Z) : res (gstate * list Z) :=
  let! (v, r) := ReadBits (g_br st) 64 in
  let! out := set out 0 v in
  let st := mk_gstate r (g_leading st) (g_trailing st) in
  gorilla_loop (S (8 * length (br_r r) + 8)) st out 1.

Section Coder.
Context `{RT : GoRuntime} `{GS : GoSnappy} `{GO : Gorilla}.

(** [out[pos:]]: empty, sharing the spare room of [out]. *)
Definition tail_of (out : slice) : slice := mk_slice [] (sspare out).

Definition Encoding (enc : Float) (pooled : option Context_) (inp : list Z) (out : slice)
    : res slice :=
  if (length inp =? 0)%nat then Ok out
  else
    let pos := slen out in
    let! buf := AdaptiveEncoding (float enc) pooled inp (tail_of out) in
    if (pos =? 0)%nat then Ok buf else Ok (append out (sdata buf)).

(** The old format; the float view covers [out[origLen:]]. *)
Definition decoding (enc : Float) (inp : list Z) (out : slice) : res (Float * slice) :=
  let! count := UnmarshalUint32 inp in
  let count := Z.to_nat count in
  let! inp := from inp 4 in
  let r := match br enc with
           | None => NewReader inp
           | Some r => Reset_reader r inp
           end in
  let origLen := slen out in
  let n := (8 * count)%nat in
  let! out := Resize out (n + origLen) in
  let! old := from (sdata out) origLen in
  let! (st, vals) := gorillaDecoding (mk_gstate r (leading enc) (trailing enc))
                       (Bytes2Float64Slice old) in
  Ok (mk_Float (encodingType enc) (g_leading st) (g_trailing st) (Some (g_br st)) (float enc),
      mk_slice (overwrite (sdata out) origLen (Float64Slice2byte vals)) (sspare out)).

Definition Decoding (enc : Float) (inp : list Z) (out : slice) : res (Float * slice) :=
  let! b0 := index inp 0 in
  let enc := SetEncodingType enc (b0 ≫ 4) in
  if encodingType enc =? floatCompressedGorilla then
    let! inp := from inp 1 in decoding enc inp out
  else
    let pos := slen out in
    let! buf := AdaptiveDecoding (float enc) inp (tail_of out) in
    if (pos =? 0)%nat then Ok (enc, buf) else Ok (enc, append out (sdata buf)).

(** ** Round trip *)

(** The float coder is lossless on every column of doubles, NaNs and infinities
    included, whichever of the five formats it picks and whatever the output
    buffers hold; the same-value format needs fewer than 2^16 values and no -0.0. *)
Lemma Float_roundtrip `{!GoSnappyLaws GS} `{!GorillaLaws GO} enc dec pooled inp out out2 :
  bytes_ok inp → inp ≠ [] → (length inp mod 8 = 0)%nat →
  same_ok (Bytes2Float64Slice inp) ∨
    Same (GenerateContext pooled (Bytes2Float64Slice inp)) = false →
  float enc = Compress.NewFloat → float dec = Compress.NewFloat →
  ∃ o block dec' o2,
    Encoding enc pooled inp out = Ok o ∧ sdata o = sdata out ++ block ∧
    Decoding dec block out2 = Ok (dec', o2) ∧ sdata o2 = sdata out2 ++ inp.
Proof.
  intros Hok Hne Hm Hs Hfe Hfd. unfold Encoding.
  destruct (Nat.eqb_spec (length inp) 0) as [H0|_];
    [exfalso; apply Hne; by apply length_zero_iff_nil|].
  unfold AdaptiveEncoding. rewrite Hfe.
  destruct (adaptive_spec pooled inp (tail_of out) Hok Hm eq_refl Hs) as (b & -> & Hgood).
  cbn [res_bind].
  assert (Hdec : ∃ dec' o2, Decoding dec (sdata b) out2 = Ok (dec', o2) ∧
                            sdata o2 = sdata out2 ++ inp).
  { destruct Hgood as (b0 & rest & Hb & Hty & Hdec). unfold Decoding. rewrite Hb in *.
    change (index (b0 :: rest) 0) with (Ok b0). cbn [res_bind encodingType SetEncodingType].
    change floatCompressedGorilla with floatCompressedOldGorilla.
    rewrite (proj2 (Z.eqb_neq _ _) Hty). cbn [float SetEncodingType]. rewrite Hfd.
    destruct (Hdec (tail_of out2) eq_refl) as (o & -> & Ho). cbn [res_bind].
    destruct (Nat.eqb_spec (slen out2) 0) as [Hl|_]; (eexists _, _; split; [done|]).
    - apply length_zero_iff_nil in Hl. by rewrite Hl.
    - by rewrite sdata_append, Ho. }
  destruct Hdec as (dec' & o2 & Hd & Ho2).
  destruct (Nat.eqb_spec (slen out) 0) as [Hl|_]; (eexists _, (sdata b), dec', o2; split; [done|]).
  - apply length_zero_iff_nil in Hl. by rewrite Hl.
  - by rewrite sdata_append.
Qed.

(** ** Where the formats lose information *)

Lemma f_eq_refl v : is_nan v = false → f_eq v v = true.
Proof.
  unfold is_nan, f_eq, SFeqb, SFcompare.
  destruct (SF_of_bits v) as [s|s| |s m e]; try done; [by destruct s|].
  intros _. rewrite Z.compare_refl. change (Pos.compare_cont Eq m m) with (Pos.compare m m).
  rewrite Pos.compare_refl. by destruct s.
Qed.

Lemma count_changes_replicate v n d ex :
  is_nan v = false → count_changes (Some v) (replicate n v) d ex = (d, ex).
Proof.
  intros Hn. revert ex. induction n as [|n IH]; intros ex; [done|].
  cbn [replicate count_changes]. rewrite f_eq_refl, Hn, andb_false_r by done. apply IH.
Qed.

(** A column of one repeated value is coded with the same-value form. *)
Lemma Context_replicate pooled v n :
  is_nan v = false → (5 <= n)%nat →
  GenerateContext pooled (replicate n v) = mk_Context n 1 true true false.
Proof.
  intros Hn H5. unfold GenerateContext. rewrite length_replicate.
  unfold floatCompressThreshold. bcase. destruct n as [|n]; [lia|].
  cbn [replicate count_changes newContext reset extremeDataValues].
  rewrite Hn, andb_false_r, count_changes_replicate by done. done.
Qed.

Lemma Bytes2Float64Slice_id vs : Forall (in_u 64) vs → Bytes2Float64Slice (Float64Slice2byte vs) = vs.
Proof.
  intros Hr. unfold Bytes2Float64Slice, Float64Slice2byte. rewrite length_bytes_le.
  rewrite (Nat.mul_comm 8), Nat.div_mul by done.
  rewrite <- (app_nil_r (bytes_le 8 vs)), words_le_bytes.
  induction Hr as [|v vs Hv _ IH]; [done|].
  rewrite fmap_cons, IH. f_equal. by apply Z.mod_small.
Qed.

(** A column of five or more -0.0 (fewer than 2^16) is decoded to +0.0: the
    same-value form tests [values[0] == 0], which holds of both zeros, and stores
    only the count. *)
Theorem negative_zeros_lost pooled n :
  (5 <= n)%nat → Z.of_nat n < 2 ^ 16 →
  ∃ o dec' o2,
    Encoding NewFloat pooled (Float64Slice2byte (replicate n neg_zero)) nil_slice = Ok o ∧
    Decoding NewFloat (sdata o) nil_slice = Ok (dec', o2) ∧
    sdata o2 = Float64Slice2byte (replicate n 0).
Proof.
  intros H5 Hn. unfold Encoding, AdaptiveEncoding, adaptiveEncoding, SameValueEncoding.
  assert (Hlen : length (Float64Slice2byte (replicate n neg_zero)) = (8 * n)%nat).
  { unfold Float64Slice2byte. len. }
  rewrite Hlen. bcase. rewrite Bytes2Float64Slice_id by (apply Forall_replicate; by_compute).
  rewrite Context_replicate by done.
  unfold NotCompress, Same. cbn [valueCount distinctCount]. unfold floatCompressThreshold.
  bcase. change (1 =? 1)%nat with true. cbv iota.
  rewrite length_replicate, (wrap_u_id 16) by (unfold in_u; lia).
  destruct n as [|m]; [lia|]. cbn [replicate]. change (index (neg_zero :: _) 0) with (Ok neg_zero).
  cbn [res_bind]. change (f_is_zero neg_zero) with true. cbv iota.
  cbn [res_bind slen nil_slice sdata length Nat.eqb].
  eexists _, _, _. split; [done|]. autorewrite with gemini_data. cbn [tail_of sdata app].
  unfold Decoding. change (index (?b :: _) 0) with (Ok b). cbn [res_bind].
  change (encodingType _ =? floatCompressedGorilla) with false. cbv iota.
  unfold AdaptiveDecoding. change (index (?b :: _) 0) with (Ok b). cbn [res_bind].
  rewrite from_Ok by (simpl; lia). cbn [res_bind]. change (drop 1 (_ :: ?l)) with l. dispatch.
  unfold SameValueDecoding, index. cbn [lookup list_lookup res_bind length Nat.eqb].
  rewrite count_bytes by (unfold in_u; lia). split; [done|].
  unfold PaddingZeroBuffer. rewrite sdata_append. cbn [tail_of sdata app step].
  replace (Z.to_nat _) with (S m * 8)%nat by (cbn; lia). by rewrite zeros_bytes.
Qed.

(** The same-value form keeps its count in 16 bits: [n] copies of a non-zero
    value are decoded to [n mod 2^16] copies. *)
Theorem same_count_truncated v n out :
  in_u 64 v → f_is_zero v = false → u16 (Z.of_nat n) ≠ 0 →
  ∃ o block o2, SameValueEncoding (NewRLE 8) (Float64Slice2byte (replicate n v)) out = Ok o ∧
    sdata o = sdata out ++ block ∧
    SameValueDecoding (NewRLE 8) block nil_slice = Ok o2 ∧
    sdata o2 = Float64Slice2byte (replicate (Z.to_nat (u16 (Z.of_nat n))) v).
Proof.
  intros Hv Hz Hn. pose proof Hn as Hn'. unfold SameValueEncoding.
  rewrite Bytes2Float64Slice_id by (by apply Forall_replicate). rewrite length_replicate.
  pose proof (wrap_u_range 16 (Z.of_nat n)) as Hm. unfold in_u in Hm.
  set (m := Z.to_nat (u16 (Z.of_nat n))).
  assert (Hu : u16 (Z.of_nat n) = Z.of_nat m) by (unfold m; lia). rewrite Hu. rewrite Hu in Hn, Hm.
  clearbody m. clear Hu.
  assert (Hnz : n ≠ 0%nat) by (intros ->; by apply Hn').
  destruct n as [|n']; [done|]. unfold Float64Slice2byte. cbn [replicate].
  change (index (v :: _) 0) with (Ok v). cbn [res_bind]. rewrite Hz.
  rewrite bytes_le_cons, between_Ok by (rewrite ?length_app, ?length_le_bytes; simpl; lia).
  cbn [res_bind step NewRLE]. rewrite Nat.sub_0_r, drop_0, take_app_length' by len.
  destruct (paddingBuffer_spec (le_bytes 8 v) nil_slice m) as (o & Ho & Hd); [len|lia|].
  eexists _, _, o. split; [done|]. split; [by rewrite !sdata_append, <- app_assoc|].
  unfold SameValueDecoding, index. cbn [app lookup list_lookup res_bind length].
  rewrite length_le_bytes. cbn [Nat.eqb Nat.ltb Nat.leb blockSize step NewRLE Nat.add].
  rewrite count_bytes by (unfold in_u; lia).
  rewrite between_Ok by (cbn [length]; rewrite ?length_le_bytes; lia). cbn [res_bind].
  change (drop 2 (?a :: ?b :: ?l)) with l. rewrite take_ge by len.
  rewrite length_le_bytes in Ho. rewrite Ho. split; [done|]. by rewrite Hd, repeat_value.
Qed.
End Coder.

Lemma be_val_snoc l x : be_val (l ++ [x]) = 256 * be_val l + x.
Proof. unfold be_val. rewrite reverse_snoc. cbn [le_val]. lia. Qed.

Lemma stream_be_val l : bytes_ok l → bits_val (stream l) 0 = be_val l.
Proof.
  induction l as [|x l IH] using rev_ind; intros Hl; [done|].
  apply bytes_ok_app in Hl as [Hl Hx]. apply Forall_cons in Hx as [Hx _].
  rewrite stream_snoc, bits_val_app, IH, be_val_snoc, bits_val_of by done.
  unfold in_u in Hx. rewrite Z.mod_small by exact Hx. lia.
Qed.

(** Zeros repeat the value; a final 1 ends the loop without an error. *)
Lemma gorilla_loop_truncated v k : ∀ fuel st idx rest,
  br_ok (g_br st) → br_bits (g_br st) = replicate k false ++ [true] →
  (k < fuel)%nat → (0 < idx)%nat → (k <= length rest)%nat →
  ∃ st', gorilla_loop fuel st (replicate idx v ++ rest) idx =
           Ok (st', replicate (idx + k) v ++ drop k rest).
Proof.
  induction k as [|k IH]; intros fuel st idx rest Hok Hb Hf Hi Hr;
    (destruct fuel as [|fuel]; [lia|]); cbn [gorilla_loop].
  - destruct (ReadBit_spec _ _ _ Hok Hb) as (r & -> & Hr1 & Hb1). cbn [res_bind negb g_br].
    rewrite (ReadBit_eof r Hr1 Hb1). eexists. by rewrite Nat.add_0_r, drop_0.
  - destruct (ReadBit_spec _ _ _ Hok Hb) as (r & -> & Hr1 & Hb1). cbn [res_bind negb g_br].
    unfold get. rewrite lookup_app_l by len. rewrite lookup_replicate_2 by lia. cbn [res_bind].
    destruct rest as [|w rest]; [simpl in Hr; lia|].
    unfold set. rewrite length_app, length_replicate. cbn [length]. bcase. cbn [res_bind].
    replace (<[idx:=v]> (replicate idx v ++ w :: rest)) with (replicate (S idx) v ++ rest).
    2: { rewrite insert_app_r_alt, length_replicate, Nat.sub_diag by len.
         by rewrite replicate_S_end, <- app_assoc. }
    destruct (IH fuel (mk_gstate r (g_leading st) (g_trailing st)) (S idx) rest)
      as (st' & ->); [done|done|lia|lia|simpl in Hr; lia|].
    exists st'. by replace (S idx + k)%nat with (idx + S k)%nat by lia.
Qed.

(** A truncated block of the old gorilla format can be accepted.  When the
    stream ends right after the control bit that announces a new value, the error of
    the second [ReadBit] is dropped ([return err] with the outer, nil [err]) and the
    values read so far are returned as a success; the remaining values of the
    declared count keep the old content of the buffer. *)
Theorem gorilla_truncated_accepted v lead trail out :
  in_u 64 v → (8 <= length out)%nat →
  ∃ st, gorillaDecoding (mk_gstate (NewReader (be_bytes 8 v ++ [1])) lead trail) out =
          Ok (st, replicate 8 v ++ drop 8 out).
Proof.
  intros Hv Hl. unfold gorillaDecoding. cbn [g_br g_leading g_trailing].
  assert (Hok : br_ok (NewReader (be_bytes 8 v ++ [1]))).
  { apply br_new_ok, bytes_ok_app. split; [apply be_bytes_ok|by_compute]. }
  assert (Hlen : length (stream (be_bytes 8 v)) = 64%nat) by (by rewrite length_stream, length_be_bytes).
  destruct (ReadBits_spec (NewReader (be_bytes 8 v ++ [1])) 64 Hok) as (r & -> & Hr & Hb); [lia| |].
  { rewrite br_bits_new, stream_app, length_app, Hlen. lia. }
  rewrite br_bits_new, stream_app in *. rewrite drop_app_length' in Hb by done.
  rewrite take_app_length', stream_be_val, be_val_bytes by (done || apply be_bytes_ok).
  cbn [res_bind]. rewrite Z.mod_small by exact Hv.
  destruct out as [|w out]; [simpl in Hl; lia|]. unfold set at 1. cbn [length Nat.ltb Nat.leb].
  cbn [insert list_insert res_bind].
  destruct (gorilla_loop_truncated v 7 (S (8 * length (br_r r) + 8)) (mk_gstate r lead trail) 1 out)
    as (st & Hst); [done|done|lia|lia|simpl in Hl; lia|].
  exists st. exact Hst.
Qed.

(** ** Witnesses *)

Definition one : Z := 4607182418800017408.  (* 1.0 *)

Lemma Float_roundtrip_example :
  let inp := Float64Slice2byte [one; one; 0; one; one; one; neg_zero] in
  ∃ o block dec' o2,
    Encoding NewFloat None inp (mk_slice [9] []) = Ok o ∧ sdata o = [9] ++ block ∧
    Decoding NewFloat block nil_slice = Ok (dec', o2) ∧ sdata o2 = [] ++ inp.
Proof.
  apply (Float_roundtrip NewFloat NewFloat None
    (Float64Slice2byte [one; one; 0; one; one; one; neg_zero]) (mk_slice [9] []) nil_slice);
    [by_compute|done|done|right; vm_compute; done|done|done].
Defined.

Lemma negative_zeros_lost_witness : ∃ o dec' o2,
  Encoding NewFloat None (Float64Slice2byte (replicate 5 neg_zero)) nil_slice = Ok o ∧
  Decoding NewFloat (sdata o) nil_slice = Ok (dec', o2) ∧
  sdata o2 = Float64Slice2byte (replicate 5 0).
Proof. apply (negative_zeros_lost None 5); lia. Defined.

Lemma same_count_truncated_witness : ∃ o block o2,
  SameValueEncoding (NewRLE 8) (Float64Slice2byte (replicate 6 one)) nil_slice = Ok o ∧
  sdata o = [] ++ block ∧
  SameValueDecoding (NewRLE 8) block nil_slice = Ok o2 ∧
  sdata o2 = Float64Slice2byte (replicate 6 one).
Proof. apply (same_count_truncated one 6 nil_slice); [by_compute|by vm_compute|done]. Defined.

Lemma gorilla_truncated_accepted_witness :
  ∃ st, gorillaDecoding (mk_gstate (NewReader (be_bytes 8 one ++ [1])) 0 0) (zeros 9) =
          Ok (st, replicate 8 one ++ [0]).
Proof.
  apply (gorilla_truncated_accepted one 0 0 (zeros 9)); [by_compute|simpl; lia].
Defined.
