(* ===== verification/StringCoder.v ===== *)
(** * lib/encoding/string.go: the coder of string columns

    snappy, zstd or lz4 behind a header of a type byte and the two lengths; a
    column that does not compress is stored.  The coder keeps its compression type
    between calls, so the methods return the state also when they fail. *)

From S2P Require Import Prelude GoSlice NumberEnc Coder.

Definition stringUncompressed : Z := 0.
Definition stringCompressedSnappy : Z := 1.
Definition StringCompressedZstd : Z := 2.
Definition StringCompressedLz4 : Z := 3.

(** The [StringCompressAlgo] of the store configuration. *)
Definition GetCompressAlgo (cfg : string) : Z :=
  if bool_decide (cfg = "lz4"%string) then StringCompressedLz4
  else if bool_decide (cfg = "zstd"%string) then StringCompressedZstd
  else stringCompressedSnappy.

(** [buf] is the compressed input of a decoder; for an encoder it is the part of
    [out] behind the header and has no copy here. *)
Record String_ := mk_String {
  encodingType : Z;
  buf : list Z;
  out : slice;
  outLen : nat;
  srcLen : nat;
}.

Definition new_String : String_ := mk_String 0 [] nil_slice 0 0.

Definition SetEncodingType (enc : String_) (ty : Z) : String_ :=
  mk_String ty (buf enc) (out enc) (outLen enc) (srcLen enc).
Definition set_out (enc : String_) (o : slice) : String_ :=
  mk_String (encodingType enc) (buf enc) o (outLen enc) (srcLen enc).
Definition set_srcLen (enc : String_) (n : nat) : String_ :=
  mk_String (encodingType enc) (buf enc) (out enc) (outLen enc) n.

Section Coder.
Context `{RT : GoRuntime} `{ZS : Zstd} `{SN : Snappy} `{LZ : Lz4}.

(** ** Encoding *)

Definition MaxEncodedLen (enc : String_) (size : nat) : res nat :=
  if encodingType enc =? StringCompressedZstd then Ok (ZSTDCompressBound size + 9)%nat
  else if encodingType enc =? StringCompressedLz4 then Ok (lz4_max size + 9)%nat
  else if encodingType enc =? stringCompressedSnappy then Ok (snappy_max size + 9)%nat
  else Panic.

Definition encInit (cfg : string) (enc : String_) (inp : list Z) (out : slice) : res String_ :=
  let enc := if encodingType enc =? 0 then SetEncodingType enc (GetCompressAlgo cfg) else enc in
  let outLen := slen out in
  let srcLen := length inp in
  let! maxOutLen := MaxEncodedLen enc srcLen in
  let! out := growBuffer out maxOutLen in
  let out := append out [u8 (encodingType enc ≪ 4)] in
  let out := MarshalUint32Append out (u32 (Z.of_nat srcLen)) in
  let out := MarshalUint32Append out 0 in
  let l := slen out in
  let! out := if encodingType enc =? StringCompressedLz4
              then reslice_to out (maxOutLen + l - 9) else Ok out in
  Ok (mk_String (encodingType enc) (buf enc) out outLen srcLen).

Definition uncompressedData (enc : String_) (inp : list Z) : res slice :=
  let! o := reslice_to (out enc) (outLen enc) in
  let o := append o [u8 (stringUncompressed ≪ 4)] in
  let o := MarshalUint32Append o (u32 (Z.of_nat (length inp))) in
  let o := MarshalUint32Append o (u32 (Z.of_nat (length inp))) in
  Ok (append o inp).

(** The common end of the encoders: [o] is [enc.out] with [n] compressed bytes
    behind the header. *)
Definition finish (enc : String_) (inp : list Z) (o : slice) (n : nat) : res slice :=
  let compLen := (n + 9)%nat in
  if SFltb (compressionRation compLen (length inp)) minCompReta then
    let! o := MarshalUint32Copy o (outLen enc + 5) (u32 (Z.of_nat n)) in
    reslice_to o (outLen enc + compLen)
  else uncompressedData (set_out enc o) inp.

Definition encodingWithSnappy (enc : String_) (inp : list Z) : res slice :=
  finish enc inp (snappy_into (out enc) inp) (length (snappy_encode inp)).

(** [EncodeAll(in, dst)] appends to the empty [dst], in the room behind the header. *)
Definition encodingWithZSTD (enc : String_) (inp : list Z) : res slice :=
  let dst := zstd_encode inp in
  finish enc inp (fill_spare (out enc) dst) (length dst).

(** [CompressBlock(in, enc.out[outLen+9:])] fails when the destination is too short;
    [n <= 0] returns [nil, nil]. *)
Definition encodingWithLz4 (enc : String_) (inp : list Z) : res slice :=
  let dst := lz4_encode inp in
  let pos := (outLen enc + 9)%nat in
  let! dest := from (sdata (out enc)) pos in
  if (length dest <? length dst)%nat
  then Err "lz4: invalid source or destination buffer too short"
  else if (length dst =? 0)%nat then Ok nil_slice
  else finish enc inp (mk_slice (overwrite (sdata (out enc)) pos dst) (sspare (out enc)))
         (length dst).

Definition Encoding (cfg : string) (enc : String_) (inp : list Z) (out : slice)
    : res (String_ * slice) :=
  let! enc := encInit cfg enc inp out in
  let! o :=
    if encodingType enc =? stringCompressedSnappy then encodingWithSnappy enc inp
    else if encodingType enc =? StringCompressedZstd then encodingWithZSTD enc inp
    else if encodingType enc =? StringCompressedLz4 then encodingWithLz4 enc inp
    else Panic in
  Ok (set_out enc o, o).

(** ** Decoding *)

Definition validCompressedType (enc : String_) : bool :=
  let ty := encodingType enc in
  (ty =? stringUncompressed) || (ty =? stringCompressedSnappy)
  || (ty =? StringCompressedZstd) || (ty =? StringCompressedLz4).

(** For a block of at least nine bytes, so that the two lengths can be read. *)
Definition decodingInit (enc : String_) (inp : list Z) (out : slice) : String_ * res unit :=
  if (length inp <? 9)%nat then (enc, Err "invalid input uncompressed data")
  else
    let enc := SetEncodingType enc (inp !!! 0%nat ≫ 4) in
    let inp := drop 1 inp in
    if negb (validCompressedType enc) then (enc, Err "invalid compressed data type")
    else
      let srcLen := Z.to_nat (be_val (take 4 inp)) in
      let enc := set_srcLen enc srcLen in
      let inp := drop 4 inp in
      if (encodingType enc =? stringUncompressed) && (length inp <? srcLen)%nat
      then (enc, Err "invalid input uncompressed data")
      else
        let compLen := Z.to_nat (be_val (take 4 inp)) in
        let inp := drop 4 inp in
        if (length inp <? compLen)%nat then (enc, Err "short input uncompressed data")
        else
          let inp := take compLen inp in
          let outLen := slen out in
          match Resize out (srcLen + outLen) with
          | Ok out =>
              match (if encodingType enc =? StringCompressedLz4 then Ok out
                     else reslice_to out outLen) with
              | Ok out => (mk_String (encodingType enc) inp out outLen srcLen, Ok tt)
              | _ => (enc, Panic)
              end
          | _ => (enc, Panic)
          end.

(** [snappy.Decode(enc.out[outLen:], in)] and [DecodeAll(in, enc.out[outLen:])]. *)
Definition decode_tail (enc : String_) (dec : option (list Z)) : res slice :=
  match dec with
  | None => Err "corrupt input"
  | Some d =>
      if negb (length d =? srcLen enc)%nat then Err "short uncompressed data length"
      else reslice_to (fill_spare (out enc) d) (outLen enc + srcLen enc)
  end.

Definition decodingWithSnappy (enc : String_) : res slice :=
  decode_tail enc (snappy_decode (buf enc)).
Definition decodingWithZSTD (enc : String_) : res slice :=
  decode_tail enc (zstd_decode (buf enc)).

(** [DecompressSafe(in, enc.out)] writes from the start of [enc.out]. *)
Definition decodingWithLz4 (enc : String_) : res slice :=
  match lz4_decode (buf enc) with
  | None => Err "lz4: invalid source or destination buffer too short"
  | Some d =>
      if (slen (out enc) <? length d)%nat || (length d =? 0)%nat
      then Err "lz4: invalid source or destination buffer too short"
      else if negb (length d =? srcLen enc)%nat then Err "short uncompressed data length"
      else reslice_to (mk_slice (overwrite (sdata (out enc)) 0 d) (sspare (out enc)))
             (outLen enc + srcLen enc)
  end.

Definition Decoding (enc : String_) (inp : list Z) (out0 : slice) : String_ * res slice :=
  match decodingInit enc inp out0 with
  | (enc, Ok _) =>
      let r :=
        if encodingType enc =? stringUncompressed then Ok (append (out enc) (buf enc))
        else if encodingType enc =? StringCompressedLz4 then decodingWithLz4 enc
        else if encodingType enc =? stringCompressedSnappy then decodingWithSnappy enc
        else decodingWithZSTD enc in
      (enc, r)
  | (enc, Err e) => (enc, Err e)
  | (enc, Panic) => (enc, Panic)
  | (enc, Diverge) => (enc, Diverge)
  end.
End Coder.

(** ** Blocks *)

(** A compressed block of type [ty], or a stored one. *)
Definition stored_block (inp : list Z) : list Z := 0 :: packed_block (length inp) inp.
Definition comp_block (ty : Z) (srcLen : nat) (enc : list Z) : list Z :=
  16 * ty :: packed_block srcLen enc.

Section Proofs.
Context `{RT : GoRuntime} `{ZS : Zstd} `{SN : Snappy} `{LZ : Lz4}.
Context `{!ZstdLaws ZS} `{!SnappyLaws SN} `{!Lz4Laws LZ}.

(** The compressor selected by a type. *)
Definition comp_encode (ty : Z) (inp : list Z) : list Z :=
  if ty =? stringCompressedSnappy then snappy_encode inp
  else if ty =? StringCompressedZstd then zstd_encode inp
  else lz4_encode inp.
Definition comp_max (ty : Z) (n : nat) : nat :=
  if ty =? stringCompressedSnappy then snappy_max n
  else if ty =? StringCompressedZstd then ZSTDCompressBound n
  else lz4_max n.

Definition comp_type (ty : Z) : Prop :=
  ty = stringCompressedSnappy ∨ ty = StringCompressedZstd ∨ ty = StringCompressedLz4.

Lemma comp_bound ty inp : (length (comp_encode ty inp) <= comp_max ty (length inp))%nat.
Proof.
  unfold comp_encode, comp_max. case_match; [apply snappy_bound|].
  case_match; [apply zstd_bound|apply lz4_bound].
Qed.

Lemma String_uncompressedData_spec enc inp data :
  Z.of_nat (length inp) < 2 ^ 32 → (outLen enc <= scap (out enc))%nat →
  take (outLen enc) (sback (out enc)) = data →
  ∃ o, uncompressedData enc inp = Ok o ∧ sdata o = data ++ stored_block inp.
Proof.
  intros Hl Hc Hd. unfold uncompressedData. rewrite reslice_to_Ok by done. cbn [res_bind].
  eexists. split; [done|]. unfold MarshalUint32Append. autorewrite with gemini_data.
  cbn [sdata]. rewrite Hd, (wrap_u_id 32) by (unfold in_u; lia).
  unfold stored_block, packed_block. by rewrite <- !app_assoc.
Qed.

(** [enc.out] once the compressor has run, by the bytes of its array. *)
Definition filled (o : slice) (data : list Z) (ty : Z) (n : nat) (c rest : list Z) : Prop :=
  sback o = (data ++ (16 * ty :: put_u32 (Z.of_nat n)) ++ put_u32 0) ++ c ++ rest ∧
  (length data + 9 <= slen o)%nat.

Lemma finish_spec enc inp o data ty c rest :
  Z.of_nat (length inp) < 2 ^ 32 → Z.of_nat (length c) < 2 ^ 32 →
  outLen enc = length data → filled o data ty (length inp) c rest →
  ∃ o', finish enc inp o (length c) = Ok o' ∧
    (sdata o' = data ++ comp_block ty (length inp) c ∨ sdata o' = data ++ stored_block inp).
Proof.
  intros Hl Hc Ho [Hb Hs]. unfold finish. rewrite Ho.
  pose proof (slen_le_scap o) as Hsc.
  case_match.
  - unfold MarshalUint32Copy. bcase. cbn [res_bind].
    set (o1 := mk_slice _ _).
    assert (Hb1 : sback o1 = (data ++ (16 * ty :: put_u32 (Z.of_nat (length inp))) ++
                              put_u32 (Z.of_nat (length c)) ++ c) ++ rest).
    { unfold o1, sback. cbn [sdata sspare].
      rewrite overwrite_app by (unfold slen in Hs; len). fold (sback o).
      rewrite Hb, (wrap_u_id 32) by (unfold in_u; lia).
      rewrite (app_assoc data), <- !app_assoc, (app_assoc data).
      rewrite overwrite_mid by len. symmetry. apply app_assoc. }
    rewrite reslice_to_Ok by (rewrite <- length_sback, Hb1; len).
    eexists. split; [done|]. left. cbn [sdata]. rewrite Hb1, take_app_length' by len.
    unfold comp_block, packed_block. done.
  - destruct (String_uncompressedData_spec (set_out enc o) inp data) as (o' & -> & Ho');
      [done|cbn [set_out outLen out]; lia| |eauto].
    cbn [set_out outLen out]. rewrite Ho, Hb, <- !app_assoc. by apply take_app_length.
Qed.

Lemma filled_fill g ty n c :
  Z.of_nat n < 2 ^ 32 → (slen g + 9 + length c <= scap g)%nat →
  let h := append_header g (16 * ty) n in
  filled (fill_spare h c) (sdata g) ty n c (drop (length c) (sspare h)).
Proof.
  intros Hn Hc h. pose proof (slen_append_header g (16 * ty) n) as Hhl. fold h in Hhl.
  pose proof (scap_append_header g (16 * ty) n) as Hhc. fold h in Hhc.
  assert (Hh : sdata h = sdata g ++ (16 * ty :: put_u32 (Z.of_nat n)) ++ put_u32 0)
    by by apply sdata_append_header.
  unfold filled, fill_spare. rewrite length_sspare. bcase.
  unfold sback. cbn [sdata sspare]. split; [by rewrite Hh|].
  unfold slen in *. cbn [sdata]. lia.
Qed.

Lemma filled_lz4 g ty n c r m :
  Z.of_nat n < 2 ^ 32 → (slen g + 9 + length c <= m)%nat →
  let h := append_header g (16 * ty) n in
  reslice_to h m = Ok r →
  filled (mk_slice (overwrite (sdata r) (slen g + 9) c) (sspare r)) (sdata g) ty n c
    (drop (length c) (sspare h)).
Proof.
  intros Hn Hc h Hr. pose proof (slen_append_header g (16 * ty) n) as Hhl. fold h in Hhl.
  assert (Hh : sdata h = sdata g ++ (16 * ty :: put_u32 (Z.of_nat n)) ++ put_u32 0)
    by by apply sdata_append_header.
  unfold reslice_to in Hr. destruct (Nat.leb_spec m (scap h)); [|done]. injection Hr as <-.
  unfold filled, sback at 1. cbn [sdata sspare].
  assert (Hl : length (take m (sback h)) = m) by len. split.
  - rewrite overwrite_app by lia. rewrite take_drop. unfold overwrite.
    rewrite take_sback, <- Hhl by lia. unfold slen. rewrite firstn_all. rewrite Hh at 1.
    unfold sback. by rewrite drop_app_add.
  - unfold slen in *. cbn [sdata]. unfold overwrite. len.
Qed.

(** The type the encoder uses. *)
Definition eff_type (cfg : string) (enc : String_) : Z :=
  if encodingType enc =? 0 then GetCompressAlgo cfg else encodingType enc.

Lemma GetCompressAlgo_type cfg : comp_type (GetCompressAlgo cfg).
Proof. unfold GetCompressAlgo, comp_type. do 2 (case_match; auto). Qed.

(** The compressor filled the room behind the header [h] of [g]. *)
Lemma finish_fill ty b g inp c :
  Z.of_nat (length inp) < 2 ^ 32 → Z.of_nat (length c) < 2 ^ 32 → (slen g + 9 + length c <= scap g)%nat →
  let h := append_header g (16 * ty) (length inp) in
  ∃ o, finish (mk_String ty b h (slen g) (length inp)) inp (fill_spare h c) (length c) = Ok o ∧
    (sdata o = sdata g ++ comp_block ty (length inp) c ∨ sdata o = sdata g ++ stored_block inp).
Proof. intros Hl Hc Hs h. by eapply finish_spec; [done|done|done|apply filled_fill]. Qed.

Lemma encodingWithLz4_spec b g inp r m :
  inp ≠ [] → Z.of_nat (length inp) < 2 ^ 32 → Z.of_nat (length (lz4_encode inp)) < 2 ^ 32 →
  (slen g + 9 + length (lz4_encode inp) <= m)%nat →
  reslice_to (append_header g (16 * StringCompressedLz4) (length inp)) m = Ok r →
  ∃ o, encodingWithLz4 (mk_String StringCompressedLz4 b r (slen g) (length inp)) inp = Ok o ∧
    (sdata o = sdata g ++ comp_block StringCompressedLz4 (length inp) (lz4_encode inp) ∨ sdata o = sdata g ++ stored_block inp).
Proof.
  intros Hne Hl Hc Hm Hr. unfold encodingWithLz4. cbn [out outLen].
  assert (Hrl : length (sdata r) = m).
  { unfold reslice_to in Hr. case_match eqn:Hle; [|done]. apply Nat.leb_le in Hle. injection Hr as <-. cbn [sdata]. len. }
  rewrite from_Ok by lia. cbn [res_bind]. rewrite length_drop, Hrl. bcase.
  destruct (Nat.eqb_spec (length (lz4_encode inp)) 0) as [H0|_]; [pose proof (lz4_nonempty inp Hne); lia|].
  by eapply finish_spec; [done|done|done|apply (filled_lz4 _ _ _ _ _ m)].
Qed.

Lemma String_Encoding_spec cfg enc inp out0 :
  comp_type (eff_type cfg enc) → inp ≠ [] →
  Z.of_nat (length inp) < 2 ^ 32 → Z.of_nat (comp_max (eff_type cfg enc) (length inp)) < 2 ^ 32 →
  let ty := eff_type cfg enc in
  ∃ enc' o, Encoding cfg enc inp out0 = Ok (enc', o) ∧ encodingType enc' = ty ∧
    (sdata o = sdata out0 ++ comp_block ty (length inp) (comp_encode ty inp) ∨
     sdata o = sdata out0 ++ stored_block inp).
Proof.
  intros Hty Hne Hl Hmax ty. unfold Encoding, encInit.
  set (enc1 := if encodingType enc =? 0 then _ else _).
  assert (He1 : encodingType enc1 = ty) by (unfold enc1, ty, eff_type; by case_match).
  fold ty in Hty, Hmax. pose proof (comp_bound ty inp) as Hb.
  assert (Hml : MaxEncodedLen enc1 (length inp) = Ok (comp_max ty (length inp) + 9)%nat).
  { unfold MaxEncodedLen, comp_max. rewrite He1. destruct Hty as [-> | [-> | ->]]; done. }
  rewrite Hml. cbn [res_bind].
  destruct (growBuffer_spec out0 (comp_max ty (length inp) + 9)) as (g & -> & Hg & Hc). cbn [res_bind].
  assert (Hgl : slen g = slen out0) by (unfold slen; by rewrite Hg).
  rewrite He1. assert (Hu : u8 (ty ≪ 4) = 16 * ty) by (destruct Hty as [-> | [-> | ->]]; done).
  rewrite Hu. fold (append_header g (16 * ty) (length inp)).
  set (h := append_header g (16 * ty) (length inp)).
  pose proof (slen_append_header g (16 * ty) (length inp)) as Hhl. fold h in Hhl.
  pose proof (scap_append_header g (16 * ty) (length inp)) as Hhc. fold h in Hhc.
  rewrite <- Hg. clearbody enc1 ty. clear Hml Hu.
  destruct Hty as [-> | [-> | ->]];
    [change (comp_max _) with snappy_max in *; change (comp_encode _) with snappy_encode in *|
     change (comp_max _) with ZSTDCompressBound in *; change (comp_encode _) with zstd_encode in *|
     change (comp_max _) with lz4_max in *; change (comp_encode _) with lz4_encode in *];
    dispatch; cbn [res_bind encodingType].
  - unfold encodingWithSnappy. cbn [out]. unfold h. rewrite snappy_into_header by lia.
    destruct (finish_fill stringCompressedSnappy (buf enc1) g inp (snappy_encode inp)) as (o & Ho & Hd); [done|lia|lia|].
    rewrite <- Hgl, Ho. cbn [res_bind]. by eexists _, o.
  - unfold encodingWithZSTD. cbn [out].
    destruct (finish_fill StringCompressedZstd (buf enc1) g inp (zstd_encode inp)) as (o & Ho & Hd); [done|lia|lia|].
    unfold h. rewrite <- Hgl, Ho. cbn [res_bind]. by eexists _, o.
  - set (m := (lz4_max (length inp) + 9 + slen h - 9)%nat).
    destruct (reslice_to h m) as [r| | |] eqn:Hr; [|rewrite reslice_to_Ok in Hr by lia; done..].
    cbn [res_bind encodingType]. dispatch. rewrite <- Hgl.
    destruct (encodingWithLz4_spec (buf enc1) g inp r m) as (o & -> & Hd); [done|done|lia|lia|done|].
    cbn [res_bind]. by eexists _, o.
Qed.

(** ** Decoding a block *)

Lemma read_u32 u rest :
  in_u 32 u → be_val (take 4 (put_u32 u ++ rest)) = u ∧ drop 4 (put_u32 u ++ rest) = rest.
Proof.
  intros Hu. split; [|done]. rewrite take_app_length', put_u32_be, be_val_bytes by done.
  by apply Z.mod_small.
Qed.

Lemma decodingInit_spec dec ty n c out0 :
  ty = stringUncompressed ∨ comp_type ty →
  Z.of_nat n < 2 ^ 32 → Z.of_nat (length c) < 2 ^ 32 →
  (ty = stringUncompressed → (n <= length c)%nat) →
  ∃ o, decodingInit dec (16 * ty :: packed_block n c) out0 =
         (mk_String ty c o (slen out0) n, Ok tt) ∧
    (if ty =? StringCompressedLz4
     then slen o = (n + slen out0)%nat ∧ take (slen out0) (sdata o) = sdata out0
     else sdata o = sdata out0 ∧ (slen out0 + n <= scap o)%nat).
Proof.
  intros Hty Hn Hc Hu. unfold decodingInit, packed_block.
  cbn [length]. rewrite !length_app, !length_put_u32. bcase.
  change ((16 * ty :: ?l) !!! 0%nat) with (16 * ty). change (drop 1 (16 * ty :: ?l)) with l.
  assert (Hnib : (16 * ty) ≫ 4 = ty).
  { rewrite Z.shiftr_div_pow2 by lia. change (2 ^ 4) with 16. by rewrite Z.mul_comm, Z.div_mul. }
  rewrite Hnib. cbn [set_srcLen SetEncodingType encodingType].
  assert (Hv : validCompressedType (SetEncodingType dec ty) = true).
  { by destruct Hty as [-> | [-> | [-> | ->]]]. }
  rewrite Hv. cbn [negb].
  destruct (read_u32 (Z.of_nat n) (put_u32 (Z.of_nat (length c)) ++ c)) as [-> ->];
    [unfold in_u; lia|].
  destruct (read_u32 (Z.of_nat (length c)) c) as [-> ->]; [unfold in_u; lia|].
  rewrite !Nat2Z.id, length_app, length_put_u32.
  replace (_ && _) with false.
  2: { destruct (Z.eqb_spec ty stringUncompressed) as [Hz|]; [|done].
       specialize (Hu Hz). cbn [andb]. symmetry. apply Nat.ltb_ge. lia. }
  bcase. rewrite take_ge by lia.
  destruct (Resize_grow out0 (n + slen out0)) as (r & -> & Hl & Ht); [lia|].
  destruct (ty =? StringCompressedLz4); [by exists r|].
  pose proof (slen_le_scap r). rewrite reslice_to_Ok by lia.
  eexists. split; [done|]. cbn [sdata]. split.
  - by rewrite take_sback, Ht by lia.
  - unfold scap. cbn [sdata sspare]. len.
Qed.

Lemma comp_roundtrip ty inp : comp_type ty → bytes_ok inp →
  (if ty =? stringCompressedSnappy then snappy_decode (comp_encode ty inp)
   else if ty =? StringCompressedZstd then zstd_decode (comp_encode ty inp)
   else lz4_decode (comp_encode ty inp)) = Some inp.
Proof.
  intros [-> | [-> | ->]] Hok;
    [by apply snappy_roundtrip|by apply zstd_roundtrip|by apply lz4_roundtrip].
Qed.

Lemma decode_tail_spec ty inp c o out0 :
  sdata o = sdata out0 → (slen out0 + length inp <= scap o)%nat →
  ∃ o', decode_tail (mk_String ty c o (slen out0) (length inp)) (Some inp) = Ok o' ∧
    sdata o' = sdata out0 ++ inp.
Proof.
  intros Ho Hc. unfold decode_tail. cbn [srcLen out outLen]. rewrite Nat.eqb_refl. cbn [negb].
  assert (Hol : slen o = slen out0) by (unfold slen; by rewrite Ho).
  destruct (fill_spare_reslice o inp) as (_ & Ht & Hcap); [rewrite length_sspare; lia|].
  rewrite reslice_to_Ok by lia. eexists. split; [done|]. cbn [sdata]. by rewrite <- Hol, Ht, Ho.
Qed.

Lemma Decoding_comp dec ty inp out0 :
  comp_type ty → bytes_ok inp → inp ≠ [] →
  Z.of_nat (length inp) < 2 ^ 32 → Z.of_nat (length (comp_encode ty inp)) < 2 ^ 32 →
  ∃ dec' o, Decoding dec (comp_block ty (length inp) (comp_encode ty inp)) out0 = (dec', Ok o) ∧
    encodingType dec' = ty ∧
    (if ty =? StringCompressedLz4
     then take (length inp) (sdata o) = inp ∧ slen o = (slen out0 + length inp)%nat
     else sdata o = sdata out0 ++ inp).
Proof.
  intros Hty Hok Hne Hl Hc. unfold Decoding, comp_block.
  destruct (decodingInit_spec dec ty (length inp) (comp_encode ty inp) out0)
    as (o & -> & Ho); [by right|done|done| |].
  { intros ->. by destruct Hty as [? | [? | ?]]. }
  pose proof (comp_roundtrip ty inp Hty Hok) as Hrt.
  destruct Hty as [-> | [-> | ->]]; cbn [encodingType]; dispatch; cbv iota in Ho, Hrt.
  - destruct Ho as [Ho1 Ho2]. unfold decodingWithSnappy. cbn [buf].
    change (snappy_decode (comp_encode stringCompressedSnappy inp) = Some inp) in Hrt. rewrite Hrt.
    destruct (decode_tail_spec stringCompressedSnappy inp (comp_encode stringCompressedSnappy inp) o out0)
      as (o' & -> & Ho'); [done..|]. eauto 10.
  - destruct Ho as [Ho1 Ho2]. unfold decodingWithZSTD. cbn [buf].
    change (zstd_decode (comp_encode StringCompressedZstd inp) = Some inp) in Hrt. rewrite Hrt.
    destruct (decode_tail_spec StringCompressedZstd inp (comp_encode StringCompressedZstd inp) o out0)
      as (o' & -> & Ho'); [done..|]. eauto 10.
  - destruct Ho as [Ho1 Ho2]. unfold decodingWithLz4. cbn [buf out outLen srcLen].
    change (lz4_decode (comp_encode StringCompressedLz4 inp) = Some inp) in Hrt. rewrite Hrt.
    assert (Hnz : length inp ≠ 0%nat) by (intros H0; by apply Hne, length_zero_iff_nil).
    rewrite (proj2 (Nat.eqb_neq _ _) Hnz), Nat.eqb_refl. rewrite Ho1.
    rewrite (proj2 (Nat.ltb_ge _ _)) by lia. cbn [orb negb].
    set (ov := overwrite (sdata o) 0 inp).
    assert (Hov : length ov = (length inp + slen out0)%nat).
    { unfold ov, overwrite. unfold slen in *. len. }
    rewrite reslice_to_Ok by (unfold scap; cbn [sdata]; lia).
    eexists _, _. split; [done|]. split; [done|].
    unfold sback. cbn [sdata sspare]. rewrite (take_app_le ov), (take_ge ov) by lia.
    split; [|unfold slen in *; cbn [sdata]; lia].
    unfold ov, overwrite. rewrite take_0, app_nil_l. apply take_app_length.
Qed.

Lemma Decoding_stored dec inp out0 :
  Z.of_nat (length inp) < 2 ^ 32 →
  ∃ dec' o, Decoding dec (stored_block inp) out0 = (dec', Ok o) ∧
    encodingType dec' = stringUncompressed ∧ sdata o = sdata out0 ++ inp.
Proof.
  intros Hl. unfold Decoding, stored_block. change 0 with (16 * stringUncompressed) at 1.
  destruct (decodingInit_spec dec stringUncompressed (length inp) inp out0) as (o & -> & Ho & _);
    [by left|done|done|done|].
  cbn [encodingType out buf]. dispatch. eexists _, _. split; [done|]. split; [done|].
  by rewrite sdata_append, Ho.
Qed.

(** The string coder is lossless for each of its compressors, stored fallback
    included, when the decoder starts from an empty buffer (as its caller does) or
    the block is not lz4. *)
Lemma String_roundtrip cfg enc dec inp out0 out2 :
  comp_type (eff_type cfg enc) → bytes_ok inp → inp ≠ [] →
  Z.of_nat (length inp) < 2 ^ 32 → Z.of_nat (comp_max (eff_type cfg enc) (length inp)) < 2 ^ 32 →
  slen out2 = 0%nat ∨ eff_type cfg enc ≠ StringCompressedLz4 →
  ∃ enc' o block dec' o2,
    Encoding cfg enc inp out0 = Ok (enc', o) ∧ sdata o = sdata out0 ++ block ∧
    Decoding dec block out2 = (dec', Ok o2) ∧ sdata o2 = sdata out2 ++ inp.
Proof.
  intros Hty Hok Hne Hl Hmax H2.
  destruct (String_Encoding_spec cfg enc inp out0 Hty Hne Hl Hmax) as (enc' & o & He & _ & [Hd|Hd]).
  - set (ty := eff_type cfg enc) in *. pose proof (comp_bound ty inp).
    destruct (Decoding_comp dec ty inp out2) as (dec' & o2 & Hdec & _ & Ho2); [done..|lia|].
    exists enc', o, (comp_block ty (length inp) (comp_encode ty inp)), dec', o2.
    split_and!; try done.
    destruct (Z.eqb_spec ty StringCompressedLz4); [|done].
    destruct H2 as [H0|]; [|done]. destruct Ho2 as [Ht Hlen].
    apply length_zero_iff_nil in H0 as H0'. rewrite H0'. rewrite <- Ht at 1.
    rewrite take_ge; [done|]. unfold slen in *. lia.
  - destruct (Decoding_stored dec inp out2 Hl) as (dec' & o2 & Hdec & _ & Ho2).
    by exists enc', o, (stored_block inp), dec', o2.
Qed.

(** An lz4 block is decoded at the start of the output buffer instead of behind
    the bytes it holds: those bytes are overwritten. *)
Theorem lz4_overwrites dec inp out2 :
  bytes_ok inp → inp ≠ [] →
  Z.of_nat (length inp) < 2 ^ 32 → Z.of_nat (lz4_max (length inp)) < 2 ^ 32 →
  ∃ dec' o2,
    Decoding dec (comp_block StringCompressedLz4 (length inp) (lz4_encode inp)) out2 =
      (dec', Ok o2) ∧
    take (length inp) (sdata o2) = inp ∧ slen o2 = (slen out2 + length inp)%nat.
Proof.
  intros Hok Hne Hl Hm. pose proof (lz4_bound inp).
  destruct (Decoding_comp dec StringCompressedLz4 inp out2) as (dec' & o2 & Hdec & _ & Ho2);
    [by right; right|done|done|done|change (comp_encode StringCompressedLz4 inp) with (lz4_encode inp); lia|].
  by exists dec', o2.
Qed.

(** A failed decoding poisons the coder.  A block whose type nibble is none of
    the four types is rejected with an error, but the coder keeps the nibble, and its
    next use as an encoder panics. *)
Theorem bad_type_poisons cfg dec b0 rest out0 inp out2 :
  (8 <= length rest)%nat → 3 < b0 ≫ 4 →
  ∃ dec', Decoding dec (b0 :: rest) out0 = (dec', Err "invalid compressed data type") ∧
    Encoding cfg dec' inp out2 = Panic.
Proof.
  intros Hl Hb. unfold Decoding, decodingInit. cbn [length]. bcase.
  change ((b0 :: rest) !!! 0%nat) with b0.
  set (d := SetEncodingType dec (b0 ≫ 4)).
  assert (Hv : validCompressedType d = false).
  { unfold validCompressedType, d. cbn [SetEncodingType encodingType].
    unfold stringUncompressed, stringCompressedSnappy, StringCompressedZstd, StringCompressedLz4.
    repeat rewrite (proj2 (Z.eqb_neq _ _)) by lia. done. }
  rewrite Hv. cbn [negb]. exists d. split; [done|].
  unfold Encoding, encInit, d. cbn [SetEncodingType encodingType].
  rewrite (proj2 (Z.eqb_neq _ 0)) by lia. unfold MaxEncodedLen. cbn [encodingType SetEncodingType].
  unfold stringCompressedSnappy, StringCompressedZstd, StringCompressedLz4.
  repeat rewrite (proj2 (Z.eqb_neq _ _)) by lia. done.
Qed.
End Proofs.

(** ** Witnesses *)

Lemma String_roundtrip_example :
  ∃ enc' o block dec' o2,
    Encoding "lz4" new_String [104; 101; 121] (mk_slice [1] []) = Ok (enc', o) ∧
    sdata o = [1] ++ block ∧
    Decoding new_String block nil_slice = (dec', Ok o2) ∧ sdata o2 = [] ++ [104; 101; 121].
Proof.
  apply (String_roundtrip "lz4" new_String new_String [104; 101; 121] (mk_slice [1] []) nil_slice);
    [right; right; done|by_compute|done|done|done|by left].
Defined.

Lemma lz4_overwrites_witness :
  ∃ dec' o2,
    Decoding new_String (comp_block StringCompressedLz4 2 (lz4_encode [104; 101]))
      (mk_slice [1; 2; 3] []) = (dec', Ok o2) ∧
    take 2 (sdata o2) = [104; 101] ∧ slen o2 = 5%nat.
Proof.
  apply (lz4_overwrites new_String [104; 101] (mk_slice [1; 2; 3] []));
    [by_compute|done|done|done].
Defined.

Lemma bad_type_poisons_witness :
  ∃ dec', Decoding new_String (80 :: zeros 8) nil_slice =
            (dec', Err "invalid compressed data type") ∧
    Encoding "snappy" dec' [1] nil_slice = Panic.
Proof.
  apply (bad_type_poisons "snappy" new_String 80 (zeros 8) nil_slice [1] nil_slice);
    [simpl; lia|done].
Defined.
