(* ===== verification/Blocks.v ===== *)
(** * lib/encoding/encoding.go: column blocks

    The entry points of the coders: a [CoderContext] lazily takes one coder per
    type from a pool, and string columns are packed with their offsets before they
    are compressed. *)

From S2P Require Import Prelude GoSlice NumberEnc Coder.
From S2P Require Import IntCoder TimeCoder BoolCoder Compress FloatCoder StringCoder.

Record CoderContext := mk_ctx {
  timeCoder : option TimeCoder.Time;
  intCoder : option IntCoder.Integer;
  floatCoder : option FloatCoder.Float;
  stringCoder : option StringCoder.String_;
  boolCoder : option BoolCoder.Boolean;
  ctx_buf : slice;
}.

Definition NewCoderContext : CoderContext := mk_ctx None None None None None nil_slice.

Definition SetTimeCoder (c : CoderContext) x :=
  mk_ctx (Some x) (intCoder c) (floatCoder c) (stringCoder c) (boolCoder c) (ctx_buf c).
Definition SetIntCoder (c : CoderContext) x :=
  mk_ctx (timeCoder c) (Some x) (floatCoder c) (stringCoder c) (boolCoder c) (ctx_buf c).
Definition SetFloatCoder (c : CoderContext) x :=
  mk_ctx (timeCoder c) (intCoder c) (Some x) (stringCoder c) (boolCoder c) (ctx_buf c).
Definition SetStringCoder (c : CoderContext) x :=
  mk_ctx (timeCoder c) (intCoder c) (floatCoder c) (Some x) (boolCoder c) (ctx_buf c).
Definition SetBoolCoder (c : CoderContext) x :=
  mk_ctx (timeCoder c) (intCoder c) (floatCoder c) (stringCoder c) (Some x) (ctx_buf c).
Definition set_buf (c : CoderContext) b :=
  mk_ctx (timeCoder c) (intCoder c) (floatCoder c) (stringCoder c) (boolCoder c) b.

(** What [sync.Pool.Get] returned: nothing, or a coder used before. *)
Definition GetIntCoder (pooled : option IntCoder.Integer) := default IntCoder.new_Integer pooled.
Definition GetTimeCoder (pooled : option TimeCoder.Time) := default TimeCoder.new_Time pooled.
Definition GetFloatCoder (pooled : option FloatCoder.Float) := default FloatCoder.NewFloat pooled.
Definition GetBoolCoder (pooled : option BoolCoder.Boolean) := default BoolCoder.new_Boolean pooled.
Definition GetStringCoder (pooled : option StringCoder.String_) :=
  default StringCoder.new_String pooled.

(** The coders handed back to the pools, and the emptied context. *)
Definition Release (c : CoderContext) : CoderContext := mk_ctx None None None None None (ctx_buf c).

Definition StringEncodingV1 : Z := 2 ^ 32 - 1.
Definition StringEncodingV2 : Z := 2 ^ 32 - 2.
Definition StringEncodingEnd : Z := 2 ^ 32 - 3.

Section Blocks.
Context `{RT : GoRuntime} `{ZS : Zstd} `{SN : Snappy} `{LZ : Lz4}
        `{GS : Compress.GoSnappy} `{GO : Compress.Gorilla}.

(** ** Numbers and booleans *)

Definition EncodeIntegerBlock pooled (inp : list Z) (out : slice) (ctx : CoderContext)
    : res (slice * CoderContext) :=
  if (length inp =? 0)%nat then Ok (out, ctx)
  else
    let coder := default (GetIntCoder pooled) (intCoder ctx) in
    let! (coder, out) := IntCoder.Encoding coder inp out in
    Ok (out, SetIntCoder ctx coder).

(** The values, and [*out] after the call. *)
Definition DecodeIntegerBlock pooled (inp : list Z) (out : slice) (ctx : CoderContext)
    : res (list Z * slice * CoderContext) :=
  if (length inp =? 0)%nat then Ok (Bytes2Int64Slice (sdata out), out, ctx)
  else
    let coder := default (GetIntCoder pooled) (intCoder ctx) in
    let! (coder, values) := IntCoder.Decoding coder inp out in
    Ok (Bytes2Int64Slice (sdata values), values, SetIntCoder ctx coder).

Definition EncodeUnsignedBlock := EncodeIntegerBlock.

Definition DecodeUnsignedBlock pooled (inp : list Z) (out : slice) (ctx : CoderContext)
    : res (list Z * slice * CoderContext) :=
  let coder := default (GetIntCoder pooled) (intCoder ctx) in
  let! (coder, values) := IntCoder.Decoding coder inp out in
  Ok (Bytes2Uint64Slice (sdata values), values, SetIntCoder ctx coder).

Definition EncodeFloatBlock pooled pctx (inp : list Z) (out : slice) (ctx : CoderContext)
    : res (slice * CoderContext) :=
  let coder := default (GetFloatCoder pooled) (floatCoder ctx) in
  let! out := FloatCoder.Encoding coder pctx inp out in
  Ok (out, SetFloatCoder ctx coder).

Definition DecodeFloatBlock pooled (inp : list Z) (out : slice) (ctx : CoderContext)
    : res (list Z * slice * CoderContext) :=
  if (length inp =? 0)%nat then Ok (Bytes2Float64Slice (sdata out), out, ctx)
  else
    let coder := default (GetFloatCoder pooled) (floatCoder ctx) in
    let! (coder, values) := FloatCoder.Decoding coder inp out in
    Ok (Bytes2Float64Slice (sdata values), values, SetFloatCoder ctx coder).

Definition EncodeBooleanBlock pooled (inp : list Z) (out : slice) (ctx : CoderContext)
    : res (slice * CoderContext) :=
  if (length inp =? 0)%nat then Ok (out, ctx)
  else
    let coder := default (GetBoolCoder pooled) (boolCoder ctx) in
    let! (coder, out) := BoolCoder.Encoding coder inp out in
    Ok (out, SetBoolCoder ctx coder).

Definition DecodeBooleanBlock pooled (inp : list Z) (out : slice) (ctx : CoderContext)
    : res (list bool * slice * CoderContext) :=
  if (length inp =? 0)%nat then Ok (Bytes2BooleanSlice (sdata out), out, ctx)
  else
    let coder := default (GetBoolCoder pooled) (boolCoder ctx) in
    let! (coder, values) := BoolCoder.Decoding coder inp out in
    Ok (Bytes2BooleanSlice (sdata values), values, SetBoolCoder ctx coder).

Definition EncodeTimestampBlock pooled (inp : list Z) (out : slice) (ctx : CoderContext)
    : res (slice * CoderContext) :=
  let coder := default (GetTimeCoder pooled) (timeCoder ctx) in
  let! (coder, out) := TimeCoder.Encoding coder inp out in
  Ok (out, SetTimeCoder ctx coder).

Definition DecodeTimestampBlock pooled (inp : list Z) (out : slice) (ctx : CoderContext)
    : res (list Z * slice * CoderContext) :=
  let coder := default (GetTimeCoder pooled) (timeCoder ctx) in
  let! (coder, values) := TimeCoder.Decoding coder inp out in
  Ok (Bytes2Int64Slice (sdata values), values, SetTimeCoder ctx coder).

(** ** Strings and their offsets *)

Definition packStringV1 (inp : list Z) (offset : list Z) (buf : slice) : res slice :=
  let! buf := reslice_to buf 0 in
  let buf := MarshalUint32Append buf (u32 (Z.of_nat (length inp))) in
  let buf := append buf inp in
  let buf := MarshalUint32Append buf (u32 (Z.of_nat (length offset * 4))) in
  MarshalUint32SliceAppend buf offset.

(** [for pos := 0; pos < offNum; pos++] *)
Fixpoint read_offsets (k pos : nat) (src : list Z) : res (list Z) :=
  match k with
  | O => Ok []
  | S k =>
      let! s := from src (pos * 4) in
      let! o := UnmarshalUint32 s in
      let! rest := read_offsets k (S pos) src in
      Ok (o :: rest)
  end.

Definition unpackStringV1 (src : list Z) : res (list Z * list Z) :=
  let! byteLen := UnmarshalUint32 src in
  let byteLen := Z.to_nat byteLen in
  let! src := from src 4 in
  if (length src <? byteLen + 4)%nat then Err "too small data for string data"
  else
    let! inp := between src 0 byteLen in
    let! src := from src byteLen in
    let! offLen := UnmarshalUint32 src in
    let offLen := Z.to_nat offLen in
    let! src := from src 4 in
    if (length src <? offLen)%nat then Err "too small data for string offset"
    else
      let! dstOffset := read_offsets (offLen / 4) 0 src in
      Ok (inp, dstOffset).

(** The length of each string, from consecutive offsets; [offset[last]] is out of
    range when there is none. *)
Fixpoint append_lengths (buf : slice) (inLen : nat) (offset : list Z) : res slice :=
  match offset with
  | [] => Panic
  | [o] => Ok (MarshalUint32Append buf (u32 (u32 (Z.of_nat inLen) - o)))
  | o :: (o' :: _) as offs =>
      append_lengths (MarshalUint32Append buf (u32 (o' - o))) inLen offs
  end.

Definition packStringV2 (inp : list Z) (offset : list Z) (buf : slice) : res slice :=
  let! buf := reslice_to buf 0 in
  let buf := MarshalUint32Append buf StringEncodingV2 in
  let buf := MarshalUint32Append buf (u32 (Z.of_nat (length inp))) in
  let buf := append buf inp in
  let buf := MarshalUint32Append buf (u32 (Z.of_nat (length offset))) in
  let usLen := (length offset * 4)%nat in
  let preLen := slen buf in
  let! buf := if (scap buf - preLen <? usLen)%nat
              then reslice_to (append buf (zeros usLen)) preLen else Ok buf in
  append_lengths buf (length inp) offset.

(** [for i := 0; i < offLen-1; i++] *)
Fixpoint sum_lengths (k i : nat) (src : list Z) (cur : Z) : res (list Z) :=
  match k with
  | O => Ok []
  | S k =>
      let! s := from src (i * 4) in
      let! l := UnmarshalUint32 s in
      let cur := u32 (cur + l) in
      let! rest := sum_lengths k (S i) src cur in
      Ok (cur :: rest)
  end.

Definition unpackStringV2 (src : list Z) : res (list Z * list Z) :=
  let! byteLen := UnmarshalUint32 src in
  let byteLen := Z.to_nat byteLen in
  let! src := from src 4 in
  if (length src <? byteLen + 4)%nat then Err "too small data for string data"
  else
    let! inp := between src 0 byteLen in
    let! src := from src byteLen in
    let! offLen := UnmarshalUint32 src in
    let offLen := Z.to_nat offLen in
    let! src := from src 4 in
    if (length src <? offLen)%nat then Err "too small data for string offset"
    else if (offLen =? 0)%nat then Panic
    else
      let! rest := sum_lengths (offLen - 1) 0 src 0 in
      Ok (inp, 0 :: rest).

Definition packString := packStringV2.

Definition unpackString (src : list Z) : res (list Z * list Z) :=
  if (length src <? 4)%nat then Err "too small data for len"
  else
    let! version := UnmarshalUint32 src in
    let version := if version <? StringEncodingEnd then StringEncodingV1 else version in
    if version =? StringEncodingV1 then unpackStringV1 src
    else if version =? StringEncodingV2 then let! src := from src 4 in unpackStringV2 src
    else Err "does not support string encoding version".

Definition EncodeStringBlock (cfg : string) pooled (inp : list Z) (offset : list Z)
    (out : slice) (ctx : CoderContext) : res (slice * CoderContext) :=
  if (length offset =? 0)%nat then Ok (out, ctx)
  else
    let coder := default (GetStringCoder pooled) (stringCoder ctx) in
    let! src := packString inp offset (ctx_buf ctx) in
    let! (coder, out) := StringCoder.Encoding cfg coder (sdata src) out in
    Ok (out, set_buf (SetStringCoder ctx coder) src).

(** The bytes, the offsets, and the context; on an error the coder keeps what the
    failed decoding left in it. *)
Definition DecodeStringBlock pooled (inp : list Z) (out : slice) (dstOffset : list Z)
    (ctx : CoderContext) : CoderContext * res (slice * list Z) :=
  if (length inp =? 0)%nat then (ctx, Ok (out, dstOffset))
  else
    let coder := default (GetStringCoder pooled) (stringCoder ctx) in
    match StringCoder.Decoding coder inp (mk_slice [] (sback (ctx_buf ctx))) with
    | (coder, Ok b) =>
        let ctx := set_buf (SetStringCoder ctx coder) b in
        (ctx, let! (values, offs) := unpackString (sdata b) in
              Ok (append out values, offs))
    | (coder, Err e) => (SetStringCoder ctx coder, Err e)
    | (coder, Panic) => (SetStringCoder ctx coder, Panic)
    | (coder, Diverge) => (SetStringCoder ctx coder, Diverge)
    end.
End Blocks.

(** ** Packing *)

Section Packing.
Context `{RT : GoRuntime}.

(** The lengths of the strings between consecutive offsets. *)
Fixpoint lengths_of (inLen : Z) (offset : list Z) : list Z :=
  match offset with
  | [] => []
  | [o] => [u32 (inLen - o)]
  | o :: (o' :: _) as offs => u32 (o' - o) :: lengths_of inLen offs
  end.

Lemma length_lengths_of n offset : length (lengths_of n offset) = length offset.
Proof. induction offset as [|o [|o' offs] IH]; [done..|]. cbn [lengths_of length] in *. by rewrite IH. Qed.

Lemma append_lengths_spec offset inLen : ∀ buf,
  offset ≠ [] → Z.of_nat inLen < 2 ^ 32 →
  ∃ b, append_lengths buf inLen offset = Ok b ∧
       sdata b = sdata buf ++ concat (put_u32 <$> lengths_of (Z.of_nat inLen) offset).
Proof.
  induction offset as [|o [|o' offs] IH]; intros buf Hne Hl; [done| |].
  - cbn [append_lengths lengths_of fmap list_fmap concat]. eexists. split; [done|].
    unfold MarshalUint32Append. by rewrite sdata_append, (wrap_u_id 32 (Z.of_nat inLen)), app_nil_r
      by (unfold in_u; lia).
  - destruct (IH (MarshalUint32Append buf (u32 (o' - o)))) as (b & Hb & Hd); [done|done|].
    exists b. split; [exact Hb|]. rewrite Hd. unfold MarshalUint32Append.
    by rewrite sdata_append, <- app_assoc.
Qed.

Lemma packStringV2_spec inp offset buf :
  offset ≠ [] → Z.of_nat (length inp) < 2 ^ 32 → Z.of_nat (length offset) < 2 ^ 32 →
  ∃ b, packStringV2 inp offset buf = Ok b ∧
    sdata b = put_u32 StringEncodingV2 ++ put_u32 (Z.of_nat (length inp)) ++ inp ++
              put_u32 (Z.of_nat (length offset)) ++
              concat (put_u32 <$> lengths_of (Z.of_nat (length inp)) offset).
Proof.
  intros Hne Hl Ho. unfold packStringV2. rewrite reslice_to_Ok by lia. cbn [res_bind].
  rewrite !(wrap_u_id 32) by (unfold in_u; lia).
  set (b0 := MarshalUint32Append _ (Z.of_nat (length offset))).
  assert (Hb0 : sdata b0 = put_u32 StringEncodingV2 ++ put_u32 (Z.of_nat (length inp)) ++ inp ++
                           put_u32 (Z.of_nat (length offset))).
  { unfold b0, MarshalUint32Append. autorewrite with gemini_data. cbn [sdata].
    by rewrite take_0, app_nil_l, <- !app_assoc. }
  assert (Hr : ∃ b1, (if (scap b0 - slen b0 <? length offset * 4)%nat
              then reslice_to (append b0 (zeros (length offset * 4))) (slen b0) else Ok b0) = Ok b1 ∧
              sdata b1 = sdata b0).
  { bcase; [|eauto]. pose proof (scap_append b0 (zeros (length offset * 4))).
    rewrite reslice_to_Ok by lia. eexists. split; [done|]. cbn [sdata].
    rewrite take_sback by (rewrite slen_append; lia). rewrite sdata_append. apply take_app_length. }
  destruct Hr as (b1 & -> & Hb1). cbn [res_bind].
  destruct (append_lengths_spec offset (length inp) b1 Hne Hl) as (b & -> & Hb).
  exists b. split; [done|]. by rewrite Hb, Hb1, Hb0, <- !app_assoc.
Qed.

(** Reading the [i]-th of a list of 32-bit numbers. *)
Lemma read_nth us i u rest :
  us !! i = Some u → in_u 32 u →
  (let! s := from (concat (put_u32 <$> us) ++ rest) (i * 4) in UnmarshalUint32 s) = Ok u.
Proof.
  intros Hi Hu. rewrite <- (take_drop_middle us i u Hi).
  rewrite fmap_app, concat_app, fmap_cons. cbn [concat]. rewrite <- app_assoc, from_app.
  - cbn [res_bind]. unfold UnmarshalUint32. rewrite <- app_assoc. by apply get_put_u32.
  - rewrite (length_concat_put _ 4) by done. apply lookup_lt_Some in Hi.
    rewrite length_take. lia.
Qed.

(** Rebuilding offsets from lengths. *)
Fixpoint offsets_from (cur : Z) (ls : list Z) : list Z :=
  match ls with
  | [] => []
  | l :: ls => let c := u32 (cur + l) in c :: offsets_from c ls
  end.

Lemma sum_lengths_spec us rest k : ∀ i cur,
  Forall (in_u 32) us → (i + k <= length us)%nat →
  sum_lengths k i (concat (put_u32 <$> us) ++ rest) cur =
    Ok (offsets_from cur (take k (drop i us))).
Proof.
  induction k as [|k IH]; intros i cur Hu Hi; [done|]. cbn [sum_lengths].
  destruct (lookup_lt_is_Some_2 us i) as [u Hui]; [lia|].
  pose proof (read_nth us i u rest Hui (Forall_lookup_1 _ _ _ _ Hu Hui)) as Hr.
  destruct (from _ (i * 4)) as [s| | |]; cbn [res_bind] in *; try done.
  rewrite Hr. cbn [res_bind]. rewrite IH by (done || lia). cbn [res_bind].
  by rewrite (drop_S us u i Hui).
Qed.

Lemma read_offsets_spec us rest k : ∀ i,
  Forall (in_u 32) us → (i + k <= length us)%nat →
  read_offsets k i (concat (put_u32 <$> us) ++ rest) = Ok (take k (drop i us)).
Proof.
  induction k as [|k IH]; intros i Hu Hi; [done|]. cbn [read_offsets].
  destruct (lookup_lt_is_Some_2 us i) as [u Hui]; [lia|].
  pose proof (read_nth us i u rest Hui (Forall_lookup_1 _ _ _ _ Hu Hui)) as Hr.
  destruct (from _ (i * 4)) as [s| | |]; cbn [res_bind] in *; try done.
  rewrite Hr. cbn [res_bind]. rewrite IH by (done || lia). cbn [res_bind].
  by rewrite (drop_S us u i Hui).
Qed.

Lemma offsets_lengths n o offs :
  Forall (in_u 32) (o :: offs) →
  offsets_from o (take (length offs) (lengths_of n (o :: offs))) = offs.
Proof.
  revert o. induction offs as [|o' offs IH]; intros o Hr; [done|].
  apply Forall_cons in Hr as [Ho Hr]. pose proof (proj1 (Forall_cons _ _ _) Hr) as [Ho' _].
  change (lengths_of n (o :: o' :: offs)) with (u32 (o' - o) :: lengths_of n (o' :: offs)).
  cbn [length firstn offsets_from]. rewrite wrap_u_add_r.
  replace (o + (o' - o)) with o' by lia. rewrite wrap_u_id by done. by rewrite IH.
Qed.

Lemma lengths_range n offs : Forall (in_u 32) (lengths_of n offs).
Proof.
  induction offs as [|o [|o' offs] IH]; [constructor| |].
  - constructor; [by apply wrap_u_range|done].
  - change (lengths_of n (o :: o' :: offs)) with (u32 (o' - o) :: lengths_of n (o' :: offs)).
    constructor; [by apply wrap_u_range|done].
Qed.

Lemma unpackStringV2_spec inp o offs :
  o = 0 → Forall (in_u 32) (o :: offs) →
  Z.of_nat (length inp) < 2 ^ 32 → Z.of_nat (length (o :: offs)) < 2 ^ 32 →
  unpackStringV2 (put_u32 (Z.of_nat (length inp)) ++ inp ++
                  put_u32 (Z.of_nat (length (o :: offs))) ++
                  concat (put_u32 <$> lengths_of (Z.of_nat (length inp)) (o :: offs))) =
    Ok (inp, o :: offs).
Proof.
  intros -> Hr Hl Ho. unfold unpackStringV2, UnmarshalUint32.
  rewrite get_put_u32 by (unfold in_u; lia). cbn [res_bind].
  rewrite from_app by done. cbn [res_bind]. rewrite Nat2Z.id.
  set (lens := lengths_of _ _). rewrite !length_app, length_put_u32. bcase.
  rewrite between_Ok by (rewrite ?length_app; lia). cbn [res_bind].
  rewrite Nat.sub_0_r, drop_0, take_app_length. rewrite from_app by done. cbn [res_bind].
  rewrite get_put_u32 by (unfold in_u; lia). cbn [res_bind]. rewrite from_app by done.
  cbn [res_bind]. rewrite Nat2Z.id.
  assert (Hll : length lens = S (length offs)) by (unfold lens; by rewrite length_lengths_of).
  rewrite (length_concat_put _ 4) by done. rewrite Hll. cbn [length]. bcase. cbn [Nat.eqb].
  rewrite <- (app_nil_r (concat _)), sum_lengths_spec by (apply lengths_range || lia).
  cbn [res_bind]. rewrite drop_0, Nat.sub_succ, Nat.sub_0_r. unfold lens.
  by rewrite offsets_lengths.
Qed.

(** The current string format loses nothing: unpacking a packed column gives its
    bytes and its offsets, for any 32-bit offsets that start at 0. *)
Theorem unpack_packString inp offs buf :
  Forall (in_u 32) offs →
  Z.of_nat (length inp) < 2 ^ 32 → Z.of_nat (S (length offs)) < 2 ^ 32 →
  ∃ b, packString inp (0 :: offs) buf = Ok b ∧
       unpackString (sdata b) = Ok (inp, 0 :: offs).
Proof.
  intros Hr Hl Ho. destruct (packStringV2_spec inp (0 :: offs) buf) as (b & Hb & Hd); [done..|].
  exists b. split; [exact Hb|]. rewrite Hd. unfold unpackString. rewrite length_app, length_put_u32.
  bcase. unfold UnmarshalUint32. rewrite get_put_u32 by (unfold in_u, StringEncodingV2; lia).
  cbn [res_bind]. change (StringEncodingV2 <? StringEncodingEnd) with false. dispatch.
  rewrite from_app by done. cbn [res_bind]. apply unpackStringV2_spec; [done| |done|done].
  constructor; [unfold in_u; lia|done].
Qed.

(** Blocks of the first string format are still read: a column packed in that
    format (which carries no version) is recognised and unpacked. *)
Theorem unpack_packStringV1 inp offs buf :
  Forall (in_u 32) offs →
  Z.of_nat (length inp) < StringEncodingEnd → Z.of_nat (length offs * 4) < 2 ^ 32 →
  ∃ b, packStringV1 inp offs buf = Ok b ∧ unpackString (sdata b) = Ok (inp, offs).
Proof.
  intros Hr Hl Ho. assert (Hl' : Z.of_nat (length inp) < 2 ^ 32) by (unfold StringEncodingEnd in Hl; lia).
  unfold packStringV1. rewrite reslice_to_Ok by lia. cbn [res_bind].
  rewrite !(wrap_u_id 32) by (unfold in_u; lia).
  match goal with |- context [MarshalUint32SliceAppend ?d ?us] =>
    destruct (MarshalUint32SliceAppend_spec d us) as (b & -> & Hb) end.
  exists b. split; [done|]. revert Hb. unfold MarshalUint32Append. autorewrite with gemini_data.
  cbn [sdata]. rewrite take_0, app_nil_l, <- !app_assoc. intros ->.
  unfold unpackString. rewrite length_app, length_put_u32. bcase. unfold UnmarshalUint32.
  rewrite get_put_u32 by (unfold in_u; lia). cbn [res_bind].
  rewrite (proj2 (Z.ltb_lt _ _) Hl). dispatch. unfold unpackStringV1, UnmarshalUint32.
  rewrite get_put_u32 by (unfold in_u; lia). cbn [res_bind]. rewrite from_app by done.
  cbn [res_bind]. rewrite Nat2Z.id, !length_app, length_put_u32. bcase.
  rewrite between_Ok by (rewrite ?length_app; lia). cbn [res_bind].
  rewrite Nat.sub_0_r, drop_0, take_app_length. rewrite from_app by done. cbn [res_bind].
  rewrite get_put_u32 by (unfold in_u; lia). cbn [res_bind]. rewrite from_app by done.
  cbn [res_bind]. rewrite Nat2Z.id, (length_concat_put _ 4) by done. bcase.
  rewrite Nat.div_mul by done.
  rewrite <- (app_nil_r (concat _)), read_offsets_spec by (done || lia). cbn [res_bind].
  by rewrite drop_0, firstn_all.
Qed.
End Packing.

(** ** The coders as instances of the interface *)

Section Instances.
Context `{RT : GoRuntime} `{ZS : Zstd} `{SN : Snappy} `{LZ : Lz4}
        `{GS : GoSnappy} `{GO : Gorilla}.
Context `{!ZstdLaws ZS} `{!SnappyLaws SN} `{!Lz4Laws LZ} `{!GoSnappyLaws GS} `{!GorillaLaws GO}.

(** Whole 64-bit words. *)
Definition words_ok (inp : list Z) : Prop := bytes_ok inp ∧ (length inp mod 8 = 0)%nat.

#[export] Instance Integer_coder : DataCoder IntCoder.Integer := {
  dc_SetEncodingType := IntCoder.SetEncodingType;
  dc_Encoding := IntCoder.Encoding;
  dc_Decoding := IntCoder.Decoding;
}.

#[export, program] Instance Integer_lossless : Lossless IntCoder.Integer := {
  admits enc dec inp out out2 :=
    words_ok inp ∧ inp ≠ [] ∧ Z.of_nat (ZSTDCompressBound (length inp)) < 2 ^ 32 ∧
    length (IntCoder.values dec) = 240%nat ∧
    (2 * slen out2 <= scap out2 ∨ slen out2 + length inp <= scap out2)%nat;
}.
Next Obligation. intros enc dec inp out out2 ([? ?] & ? & ? & ? & ?). by apply Integer_roundtrip. Qed.
Next Obligation. done. Qed.

#[export] Instance Time_coder : DataCoder TimeCoder.Time := {
  dc_SetEncodingType := TimeCoder.SetEncodingType;
  dc_Encoding := TimeCoder.Encoding;
  dc_Decoding := TimeCoder.Decoding;
}.

#[export, program] Instance Time_lossless : Lossless TimeCoder.Time := {
  admits enc dec inp out out2 :=
    words_ok inp ∧ Z.of_nat (length inp) < 2 ^ 32 ∧
    Z.of_nat (snappy_max (length inp)) < 2 ^ 32 ∧ length (TimeCoder.values dec) = 240%nat;
}.
Next Obligation. intros enc dec inp out out2 ([? ?] & ? & ? & ?). by apply Time_roundtrip. Qed.
Next Obligation. done. Qed.

#[export] Instance Float_coder : DataCoder FloatCoder.Float := {
  dc_SetEncodingType := FloatCoder.SetEncodingType;
  dc_Encoding enc inp out := let! o := FloatCoder.Encoding enc None inp out in Ok (enc, o);
  dc_Decoding := FloatCoder.Decoding;
}.

#[export, program] Instance Float_lossless : Lossless FloatCoder.Float := {
  admits enc dec inp out out2 :=
    words_ok inp ∧ inp ≠ [] ∧
    (same_ok (Bytes2Float64Slice inp) ∨
     Same (GenerateContext None (Bytes2Float64Slice inp)) = false) ∧
    float enc = Compress.NewFloat ∧ float dec = Compress.NewFloat;
}.
Next Obligation.
  intros enc dec inp out out2 ([? ?] & ? & ? & ? & ?).
  destruct (Float_roundtrip enc dec None inp out out2) as (o & block & dec' & o2 & He & ?);
    try done.
  eexists enc, o, block, dec', o2. cbn [dc_Encoding Float_coder]. by rewrite He.
Qed.
Next Obligation. done. Qed.

#[export] Instance Boolean_coder : DataCoder BoolCoder.Boolean := {
  dc_SetEncodingType := BoolCoder.SetEncodingType;
  dc_Encoding := BoolCoder.Encoding;
  dc_Decoding := BoolCoder.Decoding;
}.

#[export, program] Instance Boolean_lossless : Lossless BoolCoder.Boolean := {
  admits enc dec inp out out2 :=
    (∃ vs, inp = BooleanSlice2byte vs) ∧ bytes_ok (sdata out) ∧ Z.of_nat (length inp) < 2 ^ 32;
}.
Next Obligation.
  intros enc dec inp out out2 ([vs ->] & ? & Hl).
  unfold BooleanSlice2byte in Hl. rewrite length_fmap in Hl.
  destruct (Boolean_roundtrip enc dec vs out out2) as (enc' & o & block & dec' & o2 & ? & ? & _ & ?);
    [done..|]. by exists enc', o, block, dec', o2.
Qed.
Next Obligation. done. Qed.

(** The algorithm of the configuration is fixed for a run of the store. *)
Context (cfg : string).

#[export] Instance String_coder : DataCoder StringCoder.String_ := {
  dc_SetEncodingType := StringCoder.SetEncodingType;
  dc_Encoding := StringCoder.Encoding cfg;
  dc_Decoding dec inp out :=
    match StringCoder.Decoding dec inp out with
    | (dec, Ok o) => Ok (dec, o)
    | (_, Err e) => Err e
    | (_, Panic) => Panic
    | (_, Diverge) => Diverge
    end;
}.

#[export, program] Instance String_lossless : Lossless StringCoder.String_ := {
  admits enc dec inp out out2 :=
    comp_type (eff_type cfg enc) ∧ bytes_ok inp ∧ inp ≠ [] ∧ Z.of_nat (length inp) < 2 ^ 32 ∧
    Z.of_nat (comp_max (eff_type cfg enc) (length inp)) < 2 ^ 32 ∧ slen out2 = 0%nat;
}.
Next Obligation.
  intros enc dec inp out out2 (? & ? & ? & ? & ? & ?).
  destruct (String_roundtrip cfg enc dec inp out out2) as (enc' & o & block & dec' & o2 & ? & ? & Hd & ?);
    try done; [by left|].
  exists enc', o, block, dec', o2. cbn [dc_Decoding String_coder]. by rewrite Hd.
Qed.
Next Obligation. done. Qed.
End Instances.

(** ** Blocks *)

Lemma Bytes2Int64Slice_id vs :
  Forall (in_s 64) vs → Bytes2Int64Slice (Int64Slice2byte vs) = vs.
Proof.
  intros Hr. unfold Bytes2Int64Slice, Int64Slice2byte. rewrite length_bytes_le.
  rewrite (Nat.mul_comm 8), Nat.div_mul by done.
  rewrite <- (app_nil_r (bytes_le 8 vs)), words_le_bytes.
  induction Hr as [|v vs Hv _ IH]; [done|]. rewrite !fmap_cons, IH. f_equal.
  change (256 ^ Z.of_nat 8) with (2 ^ 64). fold (wrap_u 64 v).
  rewrite wrap_s_u by lia. by apply wrap_s_id.
Qed.

Lemma words_ok_bytes_le vs : words_ok (bytes_le 8 vs).
Proof.
  split; [apply bytes_le_ok|]. rewrite length_bytes_le, Nat.mul_comm. by apply Nat.Div0.mod_mul.
Qed.

Lemma bytes_le_nil vs : bytes_le 8 vs = [] → vs = [].
Proof. intros H. apply (f_equal length) in H. rewrite length_bytes_le in H. by destruct vs. Qed.

Section BlockProofs.
Context `{RT : GoRuntime} `{ZS : Zstd} `{SN : Snappy} `{LZ : Lz4}
        `{GS : GoSnappy} `{GO : Gorilla}.
Context `{!ZstdLaws ZS} `{!SnappyLaws SN} `{!Lz4Laws LZ} `{!GoSnappyLaws GS} `{!GorillaLaws GO}.

Local Existing Instance Integer_coder.
Local Existing Instance Time_coder.
Local Existing Instance Float_coder.
Local Existing Instance Boolean_coder.

(** The block of a lossless coder is not empty, and a decoder that starts from an
    empty buffer returns exactly the input. *)
Lemma lossless_block {T} `{DataCoder T} `{!Lossless T} enc dec inp out out2 :
  admits enc dec inp out out2 → sdata out2 = [] →
  ∃ enc' o block dec' o2,
    dc_Encoding enc inp out = Ok (enc', o) ∧ sdata o = sdata out ++ block ∧
    (length block =? 0)%nat = false ∧
    dc_Decoding dec block out2 = Ok (dec', o2) ∧ sdata o2 = inp.
Proof.
  intros Ha H2. destruct (lossless enc dec inp out out2 Ha)
    as (enc' & o & block & dec' & o2 & He & Ho & Hd & Ho2).
  exists enc', o, block, dec', o2. rewrite H2 in Ho2. split_and!; try done.
  destruct block; [|done]. by apply reject_empty in Hd.
Qed.

(** C19: An integer column survives a store and a load: the block that [EncodeIntegerBlock]
    appends is decoded by [DecodeIntegerBlock] into an empty buffer, with whatever coders the
    two contexts or the pool hold (a decoder has its scratch array of 240 values), to the same
    int64 values (the empty column included). The bound of the compressed size is below 4 GiB.
    *)
Theorem IntegerBlock_roundtrip p1 p2 vs out out2 ctx1 ctx2 :
  Forall (in_s 64) vs → Z.of_nat (ZSTDCompressBound (8 * length vs)) < 2 ^ 32 →
  length (IntCoder.values (default (GetIntCoder p2) (intCoder ctx2))) = 240%nat →
  sdata out2 = [] →
  ∃ o ctx1' block o2 ctx2',
    EncodeIntegerBlock p1 (Int64Slice2byte vs) out ctx1 = Ok (o, ctx1') ∧
    sdata o = sdata out ++ block ∧
    DecodeIntegerBlock p2 block out2 ctx2 = Ok (vs, o2, ctx2') ∧
    sdata o2 = Int64Slice2byte vs.
Proof.
  intros Hr Hl Hc H2. unfold EncodeIntegerBlock, DecodeIntegerBlock.
  destruct (Nat.eqb_spec (length (Int64Slice2byte vs)) 0) as [H0|H0].
  { apply length_zero_iff_nil, bytes_le_nil in H0 as ->.
    exists out, ctx1, [], out2, ctx2. rewrite app_nil_r. cbn [length Nat.eqb]. rewrite H2.
    split_and!; reflexivity. }
  set (enc := default (GetIntCoder p1) (intCoder ctx1)).
  destruct (lossless_block enc (default (GetIntCoder p2) (intCoder ctx2)) (Int64Slice2byte vs) out out2)
    as (enc' & o & block & dec' & o2 & He & Ho & Hb & Hd & Ho2); [|done|].
  { split; [apply words_ok_bytes_le|]. split_and!; try done.
    - intros Hz. by rewrite Hz in H0.
    - unfold Int64Slice2byte. by rewrite length_bytes_le.
    - left. unfold slen. rewrite H2. simpl. lia. }
  exists o, (SetIntCoder ctx1 enc'), block, o2, (SetIntCoder ctx2 dec').
  cbn [dc_Encoding dc_Decoding Integer_coder] in He, Hd. rewrite He, Hb, Hd. cbn [res_bind].
  rewrite Ho2, Bytes2Int64Slice_id by done. done.
Qed.

(** C20: A time column survives a store and a load: the block that [EncodeTimestampBlock]
    appends is decoded by [DecodeTimestampBlock] into an empty buffer to the same int64 values,
    whatever coders the contexts or the pool hold (a decoder has its scratch array of 240
    values). The column and the bound of its compressed size are below 4 GiB. *)
Theorem TimestampBlock_roundtrip p1 p2 vs out out2 ctx1 ctx2 :
  Forall (in_s 64) vs → Z.of_nat (8 * length vs) < 2 ^ 32 →
  Z.of_nat (snappy_max (8 * length vs)) < 2 ^ 32 →
  length (TimeCoder.values (default (GetTimeCoder p2) (timeCoder ctx2))) = 240%nat →
  sdata out2 = [] →
  ∃ o ctx1' block o2 ctx2',
    EncodeTimestampBlock p1 (Int64Slice2byte vs) out ctx1 = Ok (o, ctx1') ∧
    sdata o = sdata out ++ block ∧
    DecodeTimestampBlock p2 block out2 ctx2 = Ok (vs, o2, ctx2') ∧
    sdata o2 = Int64Slice2byte vs.
Proof.
  intros Hr Hl Hm Hc H2. unfold EncodeTimestampBlock, DecodeTimestampBlock.
  set (enc := default (GetTimeCoder p1) (timeCoder ctx1)).
  destruct (lossless_block enc (default (GetTimeCoder p2) (timeCoder ctx2)) (Int64Slice2byte vs) out out2)
    as (enc' & o & block & dec' & o2 & He & Ho & Hb & Hd & Ho2); [|done|].
  { split; [apply words_ok_bytes_le|]. unfold Int64Slice2byte. rewrite length_bytes_le.
    split_and!; done. }
  exists o, (SetTimeCoder ctx1 enc'), block, o2, (SetTimeCoder ctx2 dec').
  cbn [dc_Encoding dc_Decoding Time_coder] in He, Hd. rewrite He, Hd. cbn [res_bind].
  rewrite Ho2, Bytes2Int64Slice_id by done. done.
Qed.

(** C21: A float column survives a store and a load into an empty buffer bit for bit, NaN
    payloads and infinities included, except that a column of equal values needs fewer than
    2^16 of them and no -0.0. Both coders use the adaptive compression ([NewFloat]), as the
    pool makes them. *)
Theorem FloatBlock_roundtrip p1 p2 vs out out2 ctx1 ctx2 :
  Forall (in_u 64) vs →
  same_ok vs ∨ Same (GenerateContext None vs) = false →
  float (default (GetFloatCoder p1) (floatCoder ctx1)) = Compress.NewFloat →
  float (default (GetFloatCoder p2) (floatCoder ctx2)) = Compress.NewFloat →
  sdata out2 = [] →
  ∃ o ctx1' block o2 ctx2',
    EncodeFloatBlock p1 None (Float64Slice2byte vs) out ctx1 = Ok (o, ctx1') ∧
    sdata o = sdata out ++ block ∧
    DecodeFloatBlock p2 block out2 ctx2 = Ok (vs, o2, ctx2') ∧
    sdata o2 = Float64Slice2byte vs.
Proof.
  intros Hr Hs Hf1 Hf2 H2. unfold EncodeFloatBlock, DecodeFloatBlock.
  set (enc := default (GetFloatCoder p1) (floatCoder ctx1)) in *.
  destruct (decide (vs = [])) as [->|Hne].
  { eexists out, _, [], out2, ctx2. split; [reflexivity|]. rewrite app_nil_r.
    cbn [length Nat.eqb]. rewrite H2. split_and!; reflexivity. }
  destruct (lossless_block enc (default (GetFloatCoder p2) (floatCoder ctx2)) (Float64Slice2byte vs) out out2)
    as (enc' & o & block & dec' & o2 & He & Ho & Hb & Hd & Ho2); [|done|].
  { split; [apply words_ok_bytes_le|]. rewrite Bytes2Float64Slice_id by done.
    split_and!; try done. by intros ?%bytes_le_nil. }
  cbn [dc_Encoding dc_Decoding Float_coder] in He, Hd.
  destruct (FloatCoder.Encoding enc None (Float64Slice2byte vs) out) as [o'| | |];
    cbn [res_bind] in He |- *; [injection He as <- <-|discriminate He..].
  exists o', (SetFloatCoder ctx1 enc), block, o2, (SetFloatCoder ctx2 dec').
  rewrite Hb, Hd. cbn [res_bind]. rewrite Ho2, Bytes2Float64Slice_id by done. done.
Qed.

(** C23: A boolean column of below 2^32 rows survives a store and a load into an empty buffer.
    *)
Theorem BooleanBlock_roundtrip p1 p2 vs out out2 ctx1 ctx2 :
  bytes_ok (sdata out) → Z.of_nat (length vs) < 2 ^ 32 → sdata out2 = [] →
  ∃ o ctx1' block o2 ctx2',
    EncodeBooleanBlock p1 (BooleanSlice2byte vs) out ctx1 = Ok (o, ctx1') ∧
    sdata o = sdata out ++ block ∧
    DecodeBooleanBlock p2 block out2 ctx2 = Ok (vs, o2, ctx2') ∧
    sdata o2 = BooleanSlice2byte vs.
Proof.
  intros Hok Hl H2. unfold EncodeBooleanBlock, DecodeBooleanBlock.
  assert (Hlen : length (BooleanSlice2byte vs) = length vs) by (unfold BooleanSlice2byte; len).
  destruct (Nat.eqb_spec (length (BooleanSlice2byte vs)) 0) as [H0|H0].
  { rewrite Hlen in H0. apply length_zero_iff_nil in H0 as ->.
    exists out, ctx1, [], out2, ctx2. rewrite app_nil_r. cbn [length Nat.eqb]. rewrite H2.
    split_and!; reflexivity. }
  set (enc := default (GetBoolCoder p1) (boolCoder ctx1)).
  destruct (lossless_block enc (default (GetBoolCoder p2) (boolCoder ctx2)) (BooleanSlice2byte vs) out out2)
    as (enc' & o & block & dec' & o2 & He & Ho & Hb & Hd & Ho2); [|done|].
  { split; [by eexists|]. split; [done|]. by rewrite Hlen. }
  exists o, (SetBoolCoder ctx1 enc'), block, o2, (SetBoolCoder ctx2 dec').
  cbn [dc_Encoding dc_Decoding Boolean_coder] in He, Hd. rewrite He, Hb, Hd. cbn [res_bind].
  rewrite Ho2, Bytes2BooleanSlice_id. done.
Qed.

(** The bytes a string column is packed into. *)
Definition packed_len (inp offs : list Z) : nat := (12 + length inp + 4 * length offs)%nat.

(** A coder with another type panics. *)
Lemma EncodeStringBlock_bad_type cfg p1 inp offs out ctx1 :
  Z.of_nat (packed_len inp (0 :: offs)) < 2 ^ 32 → ¬ comp_type (eff_type cfg (default (GetStringCoder p1) (stringCoder ctx1))) →
  EncodeStringBlock cfg p1 inp (0 :: offs) out ctx1 = Panic.
Proof.
  intros Hn Hty. unfold EncodeStringBlock, packed_len in *. cbn [length Nat.eqb] in *. unfold packString.
  destruct (packStringV2_spec inp (0 :: offs) (ctx_buf ctx1)) as (b & -> & _); [done|lia|cbn [length]; lia|]. cbn [res_bind].
  set (enc := default _ _) in *. unfold StringCoder.Encoding, encInit. set (enc1 := if encodingType enc =? 0 then _ else _).
  assert (He : encodingType enc1 = eff_type cfg enc) by (unfold enc1, eff_type; by case_match).
  unfold MaxEncodedLen. rewrite He. unfold comp_type in Hty. rewrite !(proj2 (Z.eqb_neq _ _)) by tauto. done.
Qed.

(** C22: a string column survives a store and a load, bytes and offsets, whichever compressor is
    configured and whatever coders the contexts and pools provide, if the type of the encoder
    is unset (then the configured one is taken) or one of the three compressors, which is all
    that encoding and successful decoding leave behind; with any other type, which a failed
    decoding can leave ([bad_type_poisons]), the encoder panics.  The packed column and the
    bound of its compressed size are below 4 GiB. *)
Theorem StringBlock_roundtrip cfg p1 p2 inp offs dst out out2 ctx1 ctx2 :
  let enc := default (GetStringCoder p1) (stringCoder ctx1) in
  let n := packed_len inp (0 :: offs) in
  bytes_ok inp → Forall (in_u 32) offs → Z.of_nat n < 2 ^ 32 → Z.of_nat (comp_max (eff_type cfg enc) n) < 2 ^ 32 →
  (comp_type (eff_type cfg enc) →
   ∃ o ctx1' block o2 ctx2',
     EncodeStringBlock cfg p1 inp (0 :: offs) out ctx1 = Ok (o, ctx1') ∧
     sdata o = sdata out ++ block ∧
     DecodeStringBlock p2 block out2 dst ctx2 = (ctx2', Ok (o2, 0 :: offs)) ∧
     sdata o2 = sdata out2 ++ inp) ∧
  (¬ comp_type (eff_type cfg enc) → EncodeStringBlock cfg p1 inp (0 :: offs) out ctx1 = Panic).
Proof.
  intros enc n Hok Hr Hn Hmax. split; [|by apply EncodeStringBlock_bad_type]. intros Hty. unfold EncodeStringBlock, DecodeStringBlock, packed_len in *.
  cbn [length Nat.eqb]. cbn [length] in n. unfold packString.
  destruct (packStringV2_spec inp (0 :: offs) (ctx_buf ctx1)) as (b & -> & Hb);
    [done|lia|cbn [length]; lia|].
  cbn [res_bind].
  assert (Hbl : length (sdata b) = n).
  { rewrite Hb, !length_app, !length_put_u32, (length_concat_put _ 4) by done.
    rewrite length_lengths_of. cbn [length]. lia. }
  assert (Hbok : bytes_ok (sdata b)).
  { rewrite Hb. repeat (apply bytes_ok_app; split); auto with gemini.
    apply Forall_concat, Forall_fmap, Forall_true. intros. apply put_u32_ok. }
  fold enc.
  destruct (@lossless_block _ (String_coder cfg) (String_lossless cfg) enc
    (default (GetStringCoder p2) (stringCoder ctx2)) (sdata b) out
    (mk_slice [] (sback (ctx_buf ctx2))))
    as (enc' & o & block & dec' & o2 & He & Ho & Hbz & Hd & Ho2); [|done|].
  { cbn [admits String_lossless]. rewrite Hbl. split_and!; try done.
    intros Hz. rewrite Hz in Hbl. cbn [length] in Hbl. lia. }
  cbn [dc_Encoding dc_Decoding String_coder] in He, Hd. rewrite He. cbn [res_bind].
  exists o, (set_buf (SetStringCoder ctx1 enc') b), block. eexists _, _.
  split; [done|]. split; [done|]. rewrite Hbz.
  destruct (StringCoder.Decoding _ block _) as [d [r| | |]];
    [injection Hd as -> ->|discriminate Hd..].
  rewrite Ho2, Hb. unfold unpackString. rewrite length_app, length_put_u32.
  unfold UnmarshalUint32. rewrite get_put_u32 by (unfold in_u, StringEncodingV2; lia).
  cbn [Nat.ltb Nat.leb Nat.add res_bind]. change (StringEncodingV2 <? StringEncodingEnd) with false.
  dispatch. rewrite from_app by done. cbn [res_bind].
  rewrite unpackStringV2_spec; [|done| |lia|cbn [length]; lia].
  2: { constructor; [unfold in_u; lia|done]. }
  cbn [res_bind]. split; [done|]. by rewrite sdata_append.
Qed.

(** An empty unsigned column is stored as nothing but cannot be loaded:
    [DecodeUnsignedBlock] lacks the test for an empty block of the other decoders. *)
Theorem unsigned_empty_not_loaded p1 p2 out out2 ctx1 ctx2 :
  EncodeUnsignedBlock p1 [] out ctx1 = Ok (out, ctx1) ∧
  ∃ e, DecodeUnsignedBlock p2 [] out2 ctx2 = Err e.
Proof. split; [done|]. by eexists. Qed.

Lemma sum_lengths_short k : ∀ i src cur,
  (i * 4 <= length src)%nat → (length src < (i + k) * 4)%nat → sum_lengths k i src cur = Panic.
Proof.
  induction k as [|k IH]; intros i src cur Hi Hl; [lia|]. cbn [sum_lengths].
  rewrite from_Ok by done. cbn [res_bind]. unfold UnmarshalUint32, get_be. rewrite length_drop.
  destruct (Nat.leb_spec 4 (length src - i * 4)); [|done]. cbn [res_bind].
  rewrite IH by lia. done.
Qed.

(** The bounds check of the string lengths counts entries instead of bytes: a
    block with room for [n] bytes but not for [4*(n-1)] passes it and the decoder
    panics instead of returning an error. *)
Theorem truncated_lengths_panic inp n tail :
  (2 <= n)%nat → Z.of_nat (length inp) < 2 ^ 32 → Z.of_nat n < 2 ^ 32 →
  (n <= length tail < 4 * (n - 1))%nat →
  unpackString (put_u32 StringEncodingV2 ++ put_u32 (Z.of_nat (length inp)) ++ inp ++
                put_u32 (Z.of_nat n) ++ tail) = Panic.
Proof.
  intros Hn Hl Hn32 Ht. unfold unpackString. rewrite length_app, length_put_u32.
  unfold UnmarshalUint32. rewrite get_put_u32 by (unfold in_u, StringEncodingV2; lia).
  cbn [Nat.ltb Nat.leb Nat.add res_bind]. change (StringEncodingV2 <? StringEncodingEnd) with false.
  dispatch. rewrite from_app by done. cbn [res_bind]. unfold unpackStringV2, UnmarshalUint32.
  rewrite get_put_u32 by (unfold in_u; lia). cbn [res_bind].
  rewrite from_app by done. cbn [res_bind]. rewrite Nat2Z.id.
  rewrite !length_app, length_put_u32. bcase.
  rewrite between_Ok by (rewrite ?length_app; lia). cbn [res_bind].
  rewrite from_app by done. cbn [res_bind].
  rewrite get_put_u32 by (unfold in_u; lia). cbn [res_bind]. rewrite from_app by done.
  cbn [res_bind]. rewrite Nat2Z.id. bcase. rewrite (proj2 (Nat.eqb_neq n 0)) by lia.
  rewrite sum_lengths_short by lia. done.
Qed.
End BlockProofs.

(** ** Witnesses *)

Lemma unpack_packString_witness :
  ∃ b, packString [104; 105; 33] [0; 2] nil_slice = Ok b ∧
       unpackString (sdata b) = Ok ([104; 105; 33], [0; 2]).
Proof. apply (unpack_packString [104; 105; 33] [2] nil_slice); [by_compute|done|done]. Defined.

Lemma unpack_packStringV1_witness :
  ∃ b, packStringV1 [104; 105; 33] [0; 2] nil_slice = Ok b ∧
       unpackString (sdata b) = Ok ([104; 105; 33], [0; 2]).
Proof. apply (unpack_packStringV1 [104; 105; 33] [0; 2] nil_slice); [by_compute|done|done]. Defined.

Lemma IntegerBlock_roundtrip_witness :
  ∃ o ctx1' block o2 ctx2',
    EncodeIntegerBlock None (Int64Slice2byte [3; -5; 9]) nil_slice NewCoderContext = Ok (o, ctx1') ∧
    sdata o = [] ++ block ∧
    DecodeIntegerBlock None block nil_slice NewCoderContext = Ok ([3; -5; 9], o2, ctx2') ∧
    sdata o2 = Int64Slice2byte [3; -5; 9].
Proof.
  apply (IntegerBlock_roundtrip None None [3; -5; 9] nil_slice nil_slice
           NewCoderContext NewCoderContext); [by_compute|by_compute|done|done].
Defined.

Lemma TimestampBlock_roundtrip_witness :
  ∃ o ctx1' block o2 ctx2',
    EncodeTimestampBlock None (Int64Slice2byte [3000; 5000; 9000]) nil_slice NewCoderContext =
      Ok (o, ctx1') ∧
    sdata o = [] ++ block ∧
    DecodeTimestampBlock None block nil_slice NewCoderContext = Ok ([3000; 5000; 9000], o2, ctx2') ∧
    sdata o2 = Int64Slice2byte [3000; 5000; 9000].
Proof.
  apply (TimestampBlock_roundtrip None None [3000; 5000; 9000] nil_slice nil_slice
           NewCoderContext NewCoderContext); [by_compute|by_compute|by_compute|done|done].
Defined.

Lemma FloatBlock_roundtrip_witness :
  ∃ o ctx1' block o2 ctx2',
    EncodeFloatBlock None None (Float64Slice2byte [one; one; 0; 0; 0; one]) nil_slice
      NewCoderContext = Ok (o, ctx1') ∧
    sdata o = [] ++ block ∧
    DecodeFloatBlock None block nil_slice NewCoderContext =
      Ok ([one; one; 0; 0; 0; one], o2, ctx2') ∧
    sdata o2 = Float64Slice2byte [one; one; 0; 0; 0; one].
Proof.
  apply (FloatBlock_roundtrip None None [one; one; 0; 0; 0; one] nil_slice nil_slice
           NewCoderContext NewCoderContext); [by_compute|right; by vm_compute|done|done|done].
Defined.

Lemma BooleanBlock_roundtrip_witness :
  ∃ o ctx1' block o2 ctx2',
    EncodeBooleanBlock None (BooleanSlice2byte [true; false; true]) nil_slice NewCoderContext =
      Ok (o, ctx1') ∧
    sdata o = [] ++ block ∧
    DecodeBooleanBlock None block nil_slice NewCoderContext = Ok ([true; false; true], o2, ctx2') ∧
    sdata o2 = BooleanSlice2byte [true; false; true].
Proof.
  apply (BooleanBlock_roundtrip None None [true; false; true] nil_slice nil_slice
           NewCoderContext NewCoderContext); [by_compute|by_compute|done].
Defined.

Lemma StringBlock_roundtrip_witness :
  ∃ o ctx1' block o2 ctx2',
    EncodeStringBlock "zstd" None [104; 105; 33] [0; 2] nil_slice NewCoderContext =
      Ok (o, ctx1') ∧
    sdata o = [] ++ block ∧
    DecodeStringBlock None block nil_slice [] NewCoderContext = (ctx2', Ok (o2, [0; 2])) ∧
    sdata o2 = [] ++ [104; 105; 33].
Proof.
  apply (StringBlock_roundtrip "zstd" None None [104; 105; 33] [2] [] nil_slice nil_slice
           NewCoderContext NewCoderContext);
    [by_compute|by_compute|by_compute|by_compute|right; left; done].
Defined.

Lemma truncated_lengths_panic_witness :
  unpackString (put_u32 StringEncodingV2 ++ put_u32 1 ++ [65] ++ put_u32 3 ++ zeros 5) = Panic.
Proof. apply (truncated_lengths_panic [65] 3 (zeros 5)); [lia|by_compute|by_compute|simpl; lia]. Defined.
