(* ===== verification/BinaryCodec.v ===== *)
(** * lib/codec: the binary encoder and decoder of records and messages

    binary_encoder.go ([Append*]), binary_decoder.go ([BinaryDecoder]) and size.go
    ([SizeOf*]).  The wire format is stated once ([wire]); the encoders are shown to
    produce it, the decoder to read it back value by value, and the sizes to be its
    lengths.  A string is the list of its bytes; a float64 its 64 bits. *)

From stdpp Require Import gmap.
From S2P Require Import Prelude GoSlice.

(** ** VictoriaMetrics' lib/encoding (not in the repository)

    [MarshalUintN] appends big-endian bytes; [MarshalInt16] and [MarshalInt64]
    append a reversible code of fixed size. *)

Class VMEncoding := {
  vm_put_u16 : Z → list Z;
  vm_put_u32 : Z → list Z;
  vm_put_u64 : Z → list Z;
  vm_put_i16 : Z → list Z;
  vm_put_i64 : Z → list Z;
  vm_get_i16 : list Z → Z;
  vm_get_i64 : list Z → Z;
  vm_get_u64 : list Z → Z;
}.

Class VMEncodingLaws `(VMEncoding) : Prop := {
  vm_u16_be u : in_u 16 u → vm_put_u16 u = be_bytes 2 u;
  vm_u32_be u : in_u 32 u → vm_put_u32 u = be_bytes 4 u;
  vm_u64_be u : in_u 64 u → vm_put_u64 u = be_bytes 8 u;
  vm_u64_get u : in_u 64 u → vm_get_u64 (be_bytes 8 u) = u;
  vm_i16_len v : length (vm_put_i16 v) = 2%nat;
  vm_i64_len v : length (vm_put_i64 v) = 8%nat;
  vm_i16_get v : in_s 16 v → vm_get_i16 (vm_put_i16 v) = v;
  vm_i64_get v : in_s 64 v → vm_get_i64 (vm_put_i64 v) = v;
}.

(** An implementation: two's complement, big-endian. *)
#[export] Instance be_encoding : VMEncoding | 100 := {
  vm_put_u16 := be_bytes 2; vm_put_u32 := be_bytes 4; vm_put_u64 := be_bytes 8;
  vm_put_i16 := be_bytes 2; vm_put_i64 := be_bytes 8;
  vm_get_i16 b := i16 (be_val b); vm_get_i64 b := i64 (be_val b); vm_get_u64 := be_val;
}.

Lemma be_val_signed n w v :
  256 ^ Z.of_nat n = 2 ^ w → 0 < w → in_s w v → wrap_s w (be_val (be_bytes n v)) = v.
Proof.
  intros Hw Hpos Hv. rewrite be_val_bytes, Hw. fold (wrap_u w v).
  rewrite wrap_s_u by done. by apply wrap_s_id.
Qed.

#[export] Instance be_encoding_laws : VMEncodingLaws be_encoding.
Proof.
  split; intros; [done..| | | | |].
  - change (be_val (be_bytes 8 u) = u). rewrite be_val_bytes. by apply Z.mod_small.
  - apply length_be_bytes.
  - apply length_be_bytes.
  - by apply be_val_signed.
  - by apply be_val_signed.
Qed.

(** ** Encoder *)

Section Encoder.
Context `{RT : GoRuntime} `{VM : VMEncoding}.

Definition AppendUint8 (b : slice) (i : Z) : slice := append b [i].
Definition AppendBool (b : slice) (v : bool) : slice :=
  if v then AppendUint8 b 1 else AppendUint8 b 0.
Definition AppendUint16 (b : slice) (i : Z) : slice := append b (vm_put_u16 i).
Definition AppendUint32 (b : slice) (i : Z) : slice := append b (vm_put_u32 i).
Definition AppendUint64 (b : slice) (i : Z) : slice := append b (vm_put_u64 i).
Definition AppendInt16 (b : slice) (i : Z) : slice := append b (vm_put_i16 i).
Definition AppendInt32 (b : slice) (i : Z) : slice :=
  AppendUint32 b (u32 (Z.lxor (i32 (i ≪ 1)) (i ≫ 31))).
Definition AppendInt64 (b : slice) (i : Z) : slice := append b (vm_put_i64 i).
Definition AppendInt (b : slice) (i : Z) : slice := AppendInt64 b i.
Definition AppendFloat64 (b : slice) (f : Z) : slice := AppendUint64 b f.

(** The count and, unless it is zero, the memory of the slice. *)
Definition append_slice (bytes : list Z → list Z) (b : slice) (a : list Z) : slice :=
  let b := AppendUint32 b (u32 (Z.of_nat (length a))) in
  if (length a =? 0)%nat then b else append b (bytes a).

Definition AppendInt16Slice := append_slice Int16Slice2byte.
Definition AppendInt32Slice := append_slice Int32Slice2byte.
Definition AppendInt64Slice := append_slice Int64Slice2byte.
Definition AppendUint16Slice := append_slice Uint16Slice2byte.
Definition AppendUint32Slice := append_slice Uint32Slice2byte.
Definition AppendUint64Slice := append_slice Uint64Slice2byte.
Definition AppendFloat32Slice := append_slice Float32Slice2byte.
Definition AppendFloat64Slice := append_slice Float64Slice2byte.

Definition AppendIntSlice (b : slice) (a : list Z) : slice :=
  if (length a =? 0)%nat then AppendUint32 b 0 else AppendInt64Slice b (i64 <$> a).

Definition AppendUint32SliceSafe (b : slice) (a : list Z) : slice :=
  let b := AppendUint32 b (u32 (Z.of_nat (length a))) in
  if (length a =? 0)%nat then b else foldl (λ b v, append b (le_bytes 4 v)) b a.

Definition AppendBoolSlice (b : slice) (a : list bool) : slice :=
  let b := AppendUint32 b (u32 (Z.of_nat (length a))) in
  if (length a =? 0)%nat then b else append b (BooleanSlice2byte a).

(** The two little-endian bytes of each length, and the total. *)
Fixpoint append_sizes (b : slice) (a : list (list Z)) (total : nat) : slice * nat :=
  match a with
  | [] => (b, total)
  | s :: a =>
      let l := Z.of_nat (length s) in
      append_sizes (append b [u8 (Z.land l 255); u8 (l ≫ 8)]) a (total + length s)
  end.

Definition AppendStringSlice (b : slice) (a : list (list Z)) : slice :=
  let b := AppendUint32 b (u32 (Z.of_nat (length a))) in
  if (length a =? 0)%nat then b
  else
    let (b, total) := append_sizes b a 0 in
    let b := AppendUint32 b (u32 (Z.of_nat total)) in
    foldl append b a.

Definition AppendBytes (b : slice) (buf : list Z) : slice :=
  append (AppendUint32 b (u32 (Z.of_nat (length buf)))) buf.

Definition AppendString (b : slice) (s : list Z) : slice :=
  append (AppendUint16 b (u16 (Z.of_nat (length s)))) s.

(** [m] lists the entries of the map in the order of the iteration. *)
Definition AppendMapStringString (b : slice) (m : list (list Z * list Z)) : slice :=
  let b := AppendUint32 b (u32 (Z.of_nat (length m))) in
  if (length m =? 0)%nat then b
  else foldl (λ b '(k, v), AppendString (AppendString b k) v) b m.
End Encoder.

(** ** Decoder *)

Record BinaryDecoder := mk_decoder { buf : slice; offset : nat }.
Definition NewBinaryDecoder (b : slice) : BinaryDecoder := mk_decoder b 0.

(** [c.buf[c.offset : c.offset+n]] and [c.offset += n]: a slice expression is bounded
    by the capacity. *)
Definition next (c : BinaryDecoder) (n : nat) : res (list Z * BinaryDecoder) :=
  if (offset c + n <=? scap (buf c))%nat
  then Ok (take n (drop (offset c) (sback (buf c))), mk_decoder (buf c) (offset c + n))
  else Panic.

Definition copy := next.

Definition Uint8 (c : BinaryDecoder) : res (Z * BinaryDecoder) :=
  let! i := index (sdata (buf c)) (offset c) in
  Ok (i, mk_decoder (buf c) (offset c + 1)).
Definition Bool (c : BinaryDecoder) : res (bool * BinaryDecoder) :=
  let! (i, c) := Uint8 c in Ok (Z.land i 1 =? 1, c).
Definition Uint16 (c : BinaryDecoder) : res (Z * BinaryDecoder) :=
  let! (b, c) := next c 2 in Ok (be_val b, c).
Definition Uint32 (c : BinaryDecoder) : res (Z * BinaryDecoder) :=
  let! (b, c) := next c 4 in Ok (be_val b, c).
Definition Uint32LE (c : BinaryDecoder) : res (Z * BinaryDecoder) :=
  let! (b, c) := next c 4 in Ok (le_val b, c).
Definition Uint64 (c : BinaryDecoder) : res (Z * BinaryDecoder) :=
  let! (b, c) := next c 8 in Ok (be_val b, c).

Section Decoder.
Context `{VM : VMEncoding}.

Definition Int16 (c : BinaryDecoder) : res (Z * BinaryDecoder) :=
  let! (b, c) := next c 2 in Ok (vm_get_i16 b, c).
Definition Int32 (c : BinaryDecoder) : res (Z * BinaryDecoder) :=
  let! (u, c) := Uint32 c in
  Ok (Z.lxor (i32 (u ≫ 1)) (i32 (u32 (u ≪ 31)) ≫ 31), c).
Definition Int64 (c : BinaryDecoder) : res (Z * BinaryDecoder) :=
  let! (b, c) := next c 8 in Ok (vm_get_i64 b, c).
Definition Int (c : BinaryDecoder) : res (Z * BinaryDecoder) :=
  let! (b, c) := next c 8 in Ok (vm_get_i64 b, c).
Definition Float64 (c : BinaryDecoder) : res (Z * BinaryDecoder) :=
  let! (b, c) := next c 8 in Ok (vm_get_u64 b, c).
End Decoder.

(** The count and, unless it is zero, [count * width] bytes of memory. *)
Definition read_slice {A} (view : list Z → list A) (width : nat) (c : BinaryDecoder)
    : res (list A * BinaryDecoder) :=
  let! (l, c) := Uint32 c in
  if l =? 0 then Ok ([], c)
  else let! (b, c) := copy c (Z.to_nat l * width) in Ok (view b, c).

Definition Int16Slice := read_slice Bytes2Int16Slice 2.
Definition Int32Slice := read_slice Bytes2Int32Slice 4.
Definition Int64Slice := read_slice Bytes2Int64Slice 8.
Definition Uint16Slice := read_slice Bytes2Uint16Slice 2.
Definition Uint16SliceNoCopy := read_slice Bytes2Uint16Slice 2.
Definition Uint32Slice := read_slice Bytes2Uint32Slice 4.
Definition Uint64Slice := read_slice Bytes2Uint64Slice 8.
Definition Float32Slice := read_slice Bytes2Float32Slice 4.
Definition Float64Slice := read_slice Bytes2Float64Slice 8.
Definition BoolSlice := read_slice Bytes2BooleanSlice 1.
Definition Bytes := read_slice (λ b : list Z, b) 1.
Definition BytesNoCopy := read_slice (λ b : list Z, b) 1.

Definition IntSlice (c : BinaryDecoder) : res (list Z * BinaryDecoder) :=
  let! (a, c) := Int64Slice c in
  if (length a =? 0)%nat then Ok ([], c) else Ok (a, c).

Fixpoint read_le (n : nat) (c : BinaryDecoder) : res (list Z * BinaryDecoder) :=
  match n with
  | O => Ok ([], c)
  | S n =>
      let! (v, c) := Uint32LE c in
      let! (vs, c) := read_le n c in
      Ok (v :: vs, c)
  end.

Definition Uint32SliceSafe (c : BinaryDecoder) : res (list Z * BinaryDecoder) :=
  let! (l, c) := Uint32 c in
  if l =? 0 then Ok ([], c) else read_le (Z.to_nat l) c.

(** [a[i] = buf[ofs : ofs+sl]] *)
Fixpoint cut (sizes : list Z) (buf : list Z) (ofs : nat) : res (list (list Z)) :=
  match sizes with
  | [] => Ok []
  | sl :: sizes =>
      let n := Z.to_nat sl in
      let! s := between buf ofs (ofs + n) in
      let! rest := cut sizes buf (ofs + n) in
      Ok (s :: rest)
  end.

Definition StringSlice (c : BinaryDecoder) : res (list (list Z) * BinaryDecoder) :=
  let! (sizes, c) := Uint16SliceNoCopy c in
  if (length sizes =? 0)%nat then Ok ([], c)
  else
    let! (total, c) := Uint32 c in
    let! (b, c) := copy c (Z.to_nat total) in
    let! a := cut sizes b 0 in
    Ok (a, c).

Definition String (c : BinaryDecoder) : res (list Z * BinaryDecoder) :=
  let! (l, c) := Uint16 c in
  if l =? 0 then Ok ([], c)
  else next c (Z.to_nat l).

Fixpoint read_entries (n : nat) (m : gmap (list Z) (list Z)) (c : BinaryDecoder)
    : res (gmap (list Z) (list Z) * BinaryDecoder) :=
  match n with
  | O => Ok (m, c)
  | S n =>
      let! (k, c) := String c in
      let! (v, c) := String c in
      read_entries n (<[k := v]> m) c
  end.

Definition MapStringString (c : BinaryDecoder) : res (gmap (list Z) (list Z) * BinaryDecoder) :=
  let! (l, c) := Uint32 c in
  if l =? 0 then Ok (∅, c) else read_entries (Z.to_nat l) ∅ c.

(** ** Sizes *)

Definition SizeOfInt : nat := 8.
Definition SizeOfInt16 : nat := 2.
Definition SizeOfInt32 : nat := 4.
Definition SizeOfInt64 : nat := 8.
Definition SizeOfUint8 : nat := 1.
Definition SizeOfUint16 : nat := 2.
Definition SizeOfUint32 : nat := 4.
Definition SizeOfUint64 : nat := 8.
Definition SizeOfFloat64 : nat := 8.
Definition SizeOfBool : nat := 1.
Definition MaxSliceSize : nat := 4.

Definition SizeOfString (s : list Z) : nat := (length s + SizeOfUint16)%nat.
Definition SizeOfInt64Slice (s : list Z) : nat := (length s * SizeOfInt64 + MaxSliceSize)%nat.
Definition SizeOfIntSlice (s : list Z) : nat := (length s * SizeOfInt64 + MaxSliceSize)%nat.
Definition SizeOfInt16Slice (s : list Z) : nat := (length s * SizeOfInt16 + MaxSliceSize)%nat.
Definition SizeOfInt32Slice (s : list Z) : nat := (length s * SizeOfInt32 + MaxSliceSize)%nat.
Definition SizeOfFloat64Slice (s : list Z) : nat := (length s * SizeOfFloat64 + MaxSliceSize)%nat.
Definition SizeOfFloat32Slice (s : list Z) : nat := (length s * 4 + MaxSliceSize)%nat.
Definition SizeOfBoolSlice (s : list bool) : nat := (length s + MaxSliceSize)%nat.
Definition SizeOfByteSlice (s : list Z) : nat := (length s + SizeOfUint32)%nat.
Definition SizeOfUint16Slice (s : list Z) : nat := (length s * SizeOfUint16 + MaxSliceSize)%nat.
Definition SizeOfUint32Slice (s : list Z) : nat := (length s * SizeOfUint32 + MaxSliceSize)%nat.
Definition SizeOfUint64Slice (s : list Z) : nat := (length s * SizeOfUint64 + MaxSliceSize)%nat.

Definition SizeOfStringSlice (s : list (list Z)) : nat :=
  if (length s =? 0)%nat then MaxSliceSize
  else foldl (λ n x, n + length x)%nat (length s * SizeOfUint16 + SizeOfUint32 * 2)%nat s.

Definition SizeOfMapStringString (m : list (list Z * list Z)) : nat :=
  foldl (λ n '(k, v), n + (length k + length v))%nat
    (length m * SizeOfUint16 * 2 + SizeOfUint32)%nat m.

(** ** The wire format *)

(** The values a message is made of. *)
Inductive val :=
| VUint8 (v : Z) | VBool (v : bool) | VUint16 (v : Z) | VUint32 (v : Z) | VUint64 (v : Z)
| VInt16 (v : Z) | VInt32 (v : Z) | VInt64 (v : Z) | VInt (v : Z) | VFloat64 (v : Z)
| VInts (a : list Z) | VInt16s (a : list Z) | VInt32s (a : list Z) | VInt64s (a : list Z)
| VUint16s (a : list Z) | VUint32s (a : list Z) | VUint64s (a : list Z)
| VFloat32s (a : list Z) | VFloat64s (a : list Z) | VBools (a : list bool)
| VStrings (a : list (list Z)) | VBytes (s : list Z) | VString (s : list Z).

Section Values.
Context `{RT : GoRuntime} `{VM : VMEncoding}.

Definition append_val (b : slice) (v : val) : slice :=
  match v with
  | VUint8 v => AppendUint8 b v | VBool v => AppendBool b v | VUint16 v => AppendUint16 b v
  | VUint32 v => AppendUint32 b v | VUint64 v => AppendUint64 b v | VInt16 v => AppendInt16 b v
  | VInt32 v => AppendInt32 b v | VInt64 v => AppendInt64 b v | VInt v => AppendInt b v
  | VFloat64 v => AppendFloat64 b v | VInts a => AppendIntSlice b a
  | VInt16s a => AppendInt16Slice b a | VInt32s a => AppendInt32Slice b a
  | VInt64s a => AppendInt64Slice b a | VUint16s a => AppendUint16Slice b a
  | VUint32s a => AppendUint32Slice b a | VUint64s a => AppendUint64Slice b a
  | VFloat32s a => AppendFloat32Slice b a | VFloat64s a => AppendFloat64Slice b a
  | VBools a => AppendBoolSlice b a | VStrings a => AppendStringSlice b a
  | VBytes s => AppendBytes b s | VString s => AppendString b s
  end.

(** Reading a value of the shape of [v]. *)
Definition read_like (v : val) (c : BinaryDecoder) : res (val * BinaryDecoder) :=
  match v with
  | VUint8 _ => let! (v, c) := Uint8 c in Ok (VUint8 v, c)
  | VBool _ => let! (v, c) := Bool c in Ok (VBool v, c)
  | VUint16 _ => let! (v, c) := Uint16 c in Ok (VUint16 v, c)
  | VUint32 _ => let! (v, c) := Uint32 c in Ok (VUint32 v, c)
  | VUint64 _ => let! (v, c) := Uint64 c in Ok (VUint64 v, c)
  | VInt16 _ => let! (v, c) := Int16 c in Ok (VInt16 v, c)
  | VInt32 _ => let! (v, c) := Int32 c in Ok (VInt32 v, c)
  | VInt64 _ => let! (v, c) := Int64 c in Ok (VInt64 v, c)
  | VInt _ => let! (v, c) := Int c in Ok (VInt v, c)
  | VFloat64 _ => let! (v, c) := Float64 c in Ok (VFloat64 v, c)
  | VInts _ => let! (v, c) := IntSlice c in Ok (VInts v, c)
  | VInt16s _ => let! (v, c) := Int16Slice c in Ok (VInt16s v, c)
  | VInt32s _ => let! (v, c) := Int32Slice c in Ok (VInt32s v, c)
  | VInt64s _ => let! (v, c) := Int64Slice c in Ok (VInt64s v, c)
  | VUint16s _ => let! (v, c) := Uint16Slice c in Ok (VUint16s v, c)
  | VUint32s _ => let! (v, c) := Uint32Slice c in Ok (VUint32s v, c)
  | VUint64s _ => let! (v, c) := Uint64Slice c in Ok (VUint64s v, c)
  | VFloat32s _ => let! (v, c) := Float32Slice c in Ok (VFloat32s v, c)
  | VFloat64s _ => let! (v, c) := Float64Slice c in Ok (VFloat64s v, c)
  | VBools _ => let! (v, c) := BoolSlice c in Ok (VBools v, c)
  | VStrings _ => let! (v, c) := StringSlice c in Ok (VStrings v, c)
  | VBytes _ => let! (v, c) := Bytes c in Ok (VBytes v, c)
  | VString _ => let! (v, c) := String c in Ok (VString v, c)
  end.

Definition size_val (v : val) : nat :=
  match v with
  | VUint8 _ => SizeOfUint8 | VBool _ => SizeOfBool | VUint16 _ => SizeOfUint16
  | VUint32 _ => SizeOfUint32 | VUint64 _ => SizeOfUint64 | VInt16 _ => SizeOfInt16
  | VInt32 _ => SizeOfInt32 | VInt64 _ => SizeOfInt64 | VInt _ => SizeOfInt
  | VFloat64 _ => SizeOfFloat64 | VInts a => SizeOfIntSlice a
  | VInt16s a => SizeOfInt16Slice a | VInt32s a => SizeOfInt32Slice a
  | VInt64s a => SizeOfInt64Slice a | VUint16s a => SizeOfUint16Slice a
  | VUint32s a => SizeOfUint32Slice a | VUint64s a => SizeOfUint64Slice a
  | VFloat32s a => SizeOfFloat32Slice a | VFloat64s a => SizeOfFloat64Slice a
  | VBools a => SizeOfBoolSlice a | VStrings a => SizeOfStringSlice a
  | VBytes s => SizeOfByteSlice s | VString s => SizeOfString s
  end.

(** Integers in the range of their type, counts in 32 bits, strings of fewer than
    2^16 bytes. *)
Definition fits (n : nat) : Prop := Z.of_nat n < 2 ^ 32.
Definition str_ok (s : list Z) : Prop := Z.of_nat (length s) < 2 ^ 16.
Definition val_ok (v : val) : Prop :=
  match v with
  | VUint8 v => in_u 8 v | VBool _ => True | VUint16 v => in_u 16 v | VUint32 v => in_u 32 v
  | VUint64 v => in_u 64 v | VInt16 v => in_s 16 v | VInt32 v => in_s 32 v
  | VInt64 v => in_s 64 v | VInt v => in_s 64 v | VFloat64 v => in_u 64 v
  | VInts a | VInt64s a => Forall (in_s 64) a ∧ fits (length a)
  | VInt16s a => Forall (in_s 16) a ∧ fits (length a)
  | VInt32s a => Forall (in_s 32) a ∧ fits (length a)
  | VUint16s a => Forall (in_u 16) a ∧ fits (length a)
  | VUint32s a | VFloat32s a => Forall (in_u 32) a ∧ fits (length a)
  | VUint64s a | VFloat64s a => Forall (in_u 64) a ∧ fits (length a)
  | VBools a => fits (length a)
  | VStrings a => Forall str_ok a ∧ fits (length a) ∧ fits (length (concat a))
  | VBytes s => fits (length s)
  | VString s => str_ok s
  end.

(** The bytes of a value. *)
Definition be_count (n : nat) : list Z := be_bytes 4 (Z.of_nat n).
Definition wire (v : val) : list Z :=
  match v with
  | VUint8 v => [v] | VBool v => [if v then 1 else 0] | VUint16 v => be_bytes 2 v
  | VUint32 v => be_bytes 4 v | VUint64 v => be_bytes 8 v | VInt16 v => vm_put_i16 v
  | VInt32 v => be_bytes 4 (if v <? 0 then - 2 * v - 1 else 2 * v)
  | VInt64 v | VInt v => vm_put_i64 v
  | VFloat64 v => be_bytes 8 v
  | VInts a | VInt64s a | VUint64s a | VFloat64s a => be_count (length a) ++ bytes_le 8 a
  | VInt16s a | VUint16s a => be_count (length a) ++ bytes_le 2 a
  | VInt32s a | VUint32s a | VFloat32s a => be_count (length a) ++ bytes_le 4 a
  | VBools a => be_count (length a) ++ BooleanSlice2byte a
  | VStrings [] => be_count 0
  | VStrings a => be_count (length a) ++ bytes_le 2 ((λ s, Z.of_nat (length s)) <$> a) ++
                  be_count (length (concat a)) ++ concat a
  | VBytes s => be_count (length s) ++ s
  | VString s => be_bytes 2 (Z.of_nat (length s)) ++ s
  end.
End Values.

(** ** The encoders produce the wire format *)

Lemma zigzag32_val v :
  in_s 32 v → u32 (Z.lxor (i32 (v ≪ 1)) (v ≫ 31)) = if v <? 0 then - 2 * v - 1 else 2 * v.
Proof.
  intros Hv. assert (Hs : v ≫ 31 = if v <? 0 then -1 else 0).
  { unfold in_s in Hv. rewrite Z.shiftr_div_pow2 by lia. bcase; zdm. }
  rewrite Hs, Z.shiftl_mul_pow2 by lia. unfold in_s in Hv. unfold wrap_u, wrap_s.
  change (32 - 1) with 31. bcase.
  - rewrite Z.lxor_m1_r. unfold Z.lnot. zdm.
  - rewrite Z.lxor_0_r. zdm.
Qed.

Lemma unzigzag32_val v :
  in_s 32 v → let u := if v <? 0 then - 2 * v - 1 else 2 * v in
  in_u 32 u ∧ Z.lxor (i32 (u ≫ 1)) (i32 (u32 (u ≪ 31)) ≫ 31) = v.
Proof.
  intros Hv u. unfold in_s in Hv. change (32 - 1) with 31 in Hv.
  assert (Hu : in_u 32 u) by (unfold u, in_u; bcase; lia). split; [done|].
  unfold in_u in Hu. rewrite !Z.shiftr_div_pow2, Z.shiftl_mul_pow2 by lia.
  replace (i32 (u / 2 ^ 1)) with (if v <? 0 then - v - 1 else v).
  2: { unfold wrap_s, u in *. change (32 - 1) with 31. bcase; zdm. }
  replace (i32 (u32 (u * 2 ^ 31)) / 2 ^ 31) with (if v <? 0 then -1 else 0).
  2: { unfold wrap_s, wrap_u, u in *. change (32 - 1) with 31. bcase; zdm. }
  bcase.
  - rewrite Z.lxor_m1_r. unfold Z.lnot. lia.
  - apply Z.lxor_0_r.
Qed.

Lemma le_bytes_2 l : 0 ≤ l < 2 ^ 16 → [u8 (Z.land l 255); u8 (l ≫ 8)] = le_bytes 2 l.
Proof.
  intros Hl. cbn [le_bytes]. change 255 with (Z.ones 8).
  rewrite Z.land_ones, Z.shiftr_div_pow2 by lia. unfold wrap_u.
  change (2 ^ 8) with 256. by rewrite Z.mod_mod by lia.
Qed.

Section EncoderProofs.
Context `{RT : GoRuntime} `{VM : VMEncoding} `{!VMEncodingLaws VM}.

Lemma AppendUint32_count b n :
  fits n → sdata (AppendUint32 b (u32 (Z.of_nat n))) = sdata b ++ be_count n.
Proof.
  intros Hn. unfold fits in Hn. unfold AppendUint32. rewrite sdata_append.
  rewrite (wrap_u_id 32), vm_u32_be by (unfold in_u; lia). done.
Qed.

Lemma append_slice_wire w b a :
  fits (length a) →
  sdata (append_slice (bytes_le w) b a) = sdata b ++ be_count (length a) ++ bytes_le w a.
Proof.
  intros Hn. unfold append_slice. destruct a as [|x a].
  - cbn [length Nat.eqb]. rewrite (AppendUint32_count b 0) by done.
    unfold bytes_le. cbn [fmap list_fmap concat]. by rewrite app_nil_r.
  - cbn [Nat.eqb length]. rewrite sdata_append, AppendUint32_count by done. by rewrite <- app_assoc.
Qed.

Lemma append_sizes_spec a : ∀ b total,
  Forall str_ok a →
  let (b', total') := append_sizes b a total in
  sdata b' = sdata b ++ bytes_le 2 ((λ s, Z.of_nat (length s)) <$> a) ∧
  total' = (total + length (concat a))%nat.
Proof.
  induction a as [|s a IH]; intros b total Ha.
  - cbn. rewrite app_nil_r. auto.
  - apply Forall_cons in Ha as [Hs Ha]. unfold str_ok in Hs. cbn [append_sizes].
    rewrite le_bytes_2 by lia.
    specialize (IH (append b (le_bytes 2 (Z.of_nat (length s)))) (total + length s)%nat Ha).
    destruct (append_sizes _ a _) as [b' total']. destruct IH as [-> ->].
    rewrite sdata_append, <- app_assoc, fmap_cons, bytes_le_cons. cbn [concat].
    rewrite length_app. split; [done|lia].
Qed.

Lemma foldl_append_concat a : ∀ b, sdata (foldl append b a) = sdata b ++ concat a.
Proof.
  induction a as [|s a IH]; intros b; cbn [foldl concat]; [by rewrite app_nil_r|].
  by rewrite IH, sdata_append, <- app_assoc.
Qed.

Lemma AppendString_wire b s :
  str_ok s → sdata (AppendString b s) = sdata b ++ be_bytes 2 (Z.of_nat (length s)) ++ s.
Proof.
  intros Hs. unfold str_ok in Hs. unfold AppendString, AppendUint16. rewrite !sdata_append.
  rewrite (wrap_u_id 16), vm_u16_be by (unfold in_u; lia). by rewrite <- app_assoc.
Qed.

Lemma append_val_wire b v : val_ok v → sdata (append_val b v) = sdata b ++ wire v.
Proof.
  destruct v; cbn [val_ok append_val wire]; intros Hok.
  all: try (apply append_slice_wire; by destruct Hok).
  - apply sdata_append.
  - unfold AppendBool, AppendUint8. destruct v; apply sdata_append.
  - unfold AppendUint16. by rewrite sdata_append, vm_u16_be.
  - unfold AppendUint32. by rewrite sdata_append, vm_u32_be.
  - unfold AppendUint64. by rewrite sdata_append, vm_u64_be.
  - apply sdata_append.
  - unfold AppendInt32, AppendUint32. rewrite sdata_append, zigzag32_val by done.
    rewrite vm_u32_be; [done|]. by apply unzigzag32_val.
  - apply sdata_append.
  - apply sdata_append.
  - unfold AppendFloat64, AppendUint64. by rewrite sdata_append, vm_u64_be.
  - destruct Hok as [Hr Hn]. unfold AppendIntSlice. destruct a as [|x a].
    + unfold AppendUint32. cbn [length Nat.eqb]. by rewrite sdata_append, vm_u32_be.
    + replace (i64 <$> x :: a) with (x :: a); [by apply append_slice_wire|].
      symmetry. clear Hn. induction Hr as [|y l Hy _ IH]; [done|]. rewrite fmap_cons, IH.
      f_equal. by apply wrap_s_id.
  - unfold AppendBoolSlice. destruct a as [|x a].
    + cbn [length Nat.eqb]. by rewrite (AppendUint32_count b 0), app_nil_r.
    + cbn [length Nat.eqb]. rewrite sdata_append, AppendUint32_count by done. by rewrite <- app_assoc.
  - destruct Hok as (Hs & Hn & Ht). unfold AppendStringSlice. destruct a as [|x a].
    + cbn [length Nat.eqb]. by rewrite (AppendUint32_count b 0).
    + cbn [Nat.eqb length]. set (b0 := AppendUint32 b _).
      pose proof (append_sizes_spec (x :: a) b0 0 Hs) as Hsz.
      destruct (append_sizes b0 (x :: a) 0) as [b1 total]. destruct Hsz as [Hb1 ->].
      rewrite Nat.add_0_l, foldl_append_concat, AppendUint32_count, Hb1 by done.
      unfold b0. rewrite AppendUint32_count by done. by rewrite <- !app_assoc.
  - unfold AppendBytes. rewrite sdata_append, AppendUint32_count by done. by rewrite <- app_assoc.
  - by apply AppendString_wire.
Qed.

Lemma length_concat_foldl (a : list (list Z)) : ∀ n,
  foldl (λ n x, n + length x)%nat n a = (n + length (concat a))%nat.
Proof.
  induction a as [|s a IH]; intros n; cbn [foldl concat]; [simpl; lia|].
  rewrite IH, length_app. lia.
Qed.

Lemma length_wire v : val_ok v → length (wire v) = size_val v.
Proof.
  destruct v; cbn [val_ok wire size_val]; intros Hok; unfold be_count;
    rewrite ?length_app, ?length_be_bytes, ?length_bytes_le, ?vm_i16_len, ?vm_i64_len; try done.
  all: try (unfold SizeOfIntSlice, SizeOfInt16Slice, SizeOfInt32Slice, SizeOfInt64Slice,
    SizeOfUint16Slice, SizeOfUint32Slice, SizeOfUint64Slice, SizeOfFloat32Slice,
    SizeOfFloat64Slice, SizeOfByteSlice, SizeOfString, SizeOfInt16, SizeOfInt32, SizeOfInt64,
    SizeOfUint16, SizeOfUint32, SizeOfUint64, SizeOfFloat64, MaxSliceSize; lia).
  - unfold SizeOfBoolSlice, MaxSliceSize, BooleanSlice2byte. rewrite length_fmap. lia.
  - unfold SizeOfStringSlice. destruct a as [|x a]; [by rewrite length_be_bytes|].
    cbn [length Nat.eqb]. rewrite length_concat_foldl, !length_app, !length_be_bytes, length_bytes_le.
    rewrite length_fmap. unfold SizeOfUint16, SizeOfUint32. cbn [length concat]. lia.
Qed.
End EncoderProofs.

(** ** The decoder reads it back *)

(** The unread part of the buffer. *)
Definition unread (c : BinaryDecoder) (bs : list Z) : Prop :=
  (offset c <= slen (buf c))%nat ∧ drop (offset c) (sdata (buf c)) = bs.

Definition reads {A} (m : BinaryDecoder → res (A * BinaryDecoder)) (bs : list Z) (a : A) : Prop :=
  ∀ c rest, unread c (bs ++ rest) → ∃ c', m c = Ok (a, c') ∧ unread c' rest.

Lemma reads_next n xs : length xs = n → reads (λ c, next c n) xs xs.
Proof.
  intros <- c rest [Ho Hd]. unfold next, unread in *.
  assert (Hlen : (offset c + length xs <= slen (buf c))%nat).
  { apply (f_equal length) in Hd. rewrite length_drop, length_app in Hd. unfold slen in *. lia. }
  pose proof (slen_le_scap (buf c)). bcase. eexists. split.
  - do 3 f_equal. unfold sback. rewrite drop_app_le by (unfold slen in *; lia).
    rewrite Hd, <- app_assoc. apply take_app_length.
  - cbn [buf offset]. split; [done|]. rewrite <- drop_drop, Hd. apply drop_app_length.
Qed.

Lemma reads_map {A B} (m : BinaryDecoder → res (A * BinaryDecoder)) bs a (f : A → B) :
  reads m bs a → reads (λ c, let! (a, c) := m c in Ok (f a, c)) bs (f a).
Proof.
  intros Hm c rest Hc. destruct (Hm c rest Hc) as (c' & -> & Hc'). by exists c'.
Qed.

Lemma reads_bind {A B} (m : BinaryDecoder → res (A * BinaryDecoder)) bs a
    (k : A → BinaryDecoder → res (B * BinaryDecoder)) bs' b :
  reads m bs a → reads (k a) bs' b →
  reads (λ c, let! (a, c) := m c in k a c) (bs ++ bs') b.
Proof.
  intros Hm Hk c rest Hc. rewrite <- app_assoc in Hc.
  destruct (Hm c (bs' ++ rest) Hc) as (c' & -> & Hc'). by apply Hk.
Qed.

Lemma reads_ret {A} (a : A) : reads (λ c, Ok (a, c)) [] a.
Proof. intros c rest Hc. by exists c. Qed.

Lemma be_val_be n u : 0 ≤ u < 256 ^ Z.of_nat n → be_val (be_bytes n u) = u.
Proof. intros. rewrite be_val_bytes. by apply Z.mod_small. Qed.

Lemma reads_Uint16 u : in_u 16 u → reads Uint16 (be_bytes 2 u) u.
Proof.
  intros Hu. rewrite <- (be_val_be 2 u) at 2 by exact Hu.
  apply reads_map, reads_next, length_be_bytes.
Qed.
Lemma reads_Uint32 u : in_u 32 u → reads Uint32 (be_bytes 4 u) u.
Proof.
  intros Hu. rewrite <- (be_val_be 4 u) at 2 by exact Hu.
  apply reads_map, reads_next, length_be_bytes.
Qed.
Lemma reads_Uint64 u : in_u 64 u → reads Uint64 (be_bytes 8 u) u.
Proof.
  intros Hu. rewrite <- (be_val_be 8 u) at 2 by exact Hu.
  apply reads_map, reads_next, length_be_bytes.
Qed.

Lemma reads_count n : fits n → reads Uint32 (be_count n) (Z.of_nat n).
Proof. intros Hn. apply reads_Uint32. unfold fits in Hn. unfold in_u. lia. Qed.

Lemma reads_Uint8 v : reads Uint8 [v] v.
Proof.
  intros c rest [Ho Hd]. unfold Uint8, unread in *. cbn [app] in Hd.
  assert (Hi : sdata (buf c) !! offset c = Some v).
  { rewrite <- (Nat.add_0_r (offset c)), <- lookup_drop, Hd. done. }
  rewrite (index_Ok _ _ _ Hi). cbn [res_bind]. eexists. split; [done|]. cbn [buf offset].
  apply lookup_lt_Some in Hi. unfold slen. split; [lia|].
  rewrite <- drop_drop, Hd. done.
Qed.

Lemma reads_slice {A} (view : list Z → list A) width n bytes :
  fits n → length bytes = (n * width)%nat → view [] = [] →
  reads (read_slice view width) (be_count n ++ bytes) (view bytes).
Proof.
  intros Hn Hl Hv. apply (reads_bind Uint32 (be_count n) (Z.of_nat n)); [by apply reads_count|].
  destruct (Z.eqb_spec (Z.of_nat n) 0) as [H0|H0].
  - assert (n = 0%nat) as -> by lia. apply length_zero_iff_nil in Hl as ->. rewrite Hv. apply reads_ret.
  - rewrite Nat2Z.id. apply (reads_map (λ c, copy c (n * width))). by apply reads_next.
Qed.

(** Words of memory, unsigned and signed. *)
Lemma reads_words w bits a :
  256 ^ Z.of_nat w = 2 ^ bits → (0 < w)%nat → Forall (in_u bits) a → fits (length a) →
  reads (read_slice (λ b, words_le w (length b / w) b) w) (be_count (length a) ++ bytes_le w a) a.
Proof.
  intros Hw Hpos Hr Hn.
  assert (Hv : words_le w (length (bytes_le w a) / w) (bytes_le w a) = a).
  { rewrite length_bytes_le, (Nat.mul_comm w), Nat.div_mul by lia.
    rewrite <- (app_nil_r (bytes_le w a)), words_le_bytes, Hw.
    clear Hn. induction Hr as [|v vs Hv _ IH]; [done|]. rewrite fmap_cons, IH. f_equal.
    by apply Z.mod_small. }
  rewrite <- Hv at 3.
  apply (reads_slice (λ b, words_le w (length b / w) b)); [done|rewrite length_bytes_le; lia|].
  by rewrite Nat.div_0_l by lia.
Qed.

Lemma reads_words_s w bits a :
  256 ^ Z.of_nat w = 2 ^ bits → (0 < w)%nat → 0 < bits → Forall (in_s bits) a → fits (length a) →
  reads (read_slice (λ b, wrap_s bits <$> words_le w (length b / w) b) w)
    (be_count (length a) ++ bytes_le w a) a.
Proof.
  intros Hw Hpos Hb Hr Hn.
  assert (Hv : wrap_s bits <$> words_le w (length (bytes_le w a) / w) (bytes_le w a) = a).
  { rewrite length_bytes_le, (Nat.mul_comm w), Nat.div_mul by lia.
    rewrite <- (app_nil_r (bytes_le w a)), words_le_bytes, Hw.
    clear Hn. induction Hr as [|v vs Hv _ IH]; [done|]. rewrite !fmap_cons, IH. f_equal.
    fold (wrap_u bits v). rewrite wrap_s_u by done. by apply wrap_s_id. }
  rewrite <- Hv at 3.
  apply (reads_slice (λ b, wrap_s bits <$> words_le w (length b / w) b)); [done|rewrite length_bytes_le; lia|].
  by rewrite Nat.div_0_l by lia.
Qed.

Lemma reads_bools a : fits (length a) →
  reads BoolSlice (be_count (length a) ++ BooleanSlice2byte a) a.
Proof.
  intros Hn. assert (Hv : Bytes2BooleanSlice (BooleanSlice2byte a) = a).
  { clear. induction a as [|[] a IH]; [done|..]; cbn; by f_equal. }
  rewrite <- Hv at 3. apply (reads_slice Bytes2BooleanSlice); [done| |done].
  unfold BooleanSlice2byte. rewrite length_fmap. lia.
Qed.

Lemma reads_String s : str_ok s → reads String (be_bytes 2 (Z.of_nat (length s)) ++ s) s.
Proof.
  intros Hs. unfold str_ok in Hs.
  apply (reads_bind Uint16 _ (Z.of_nat (length s))); [apply reads_Uint16; unfold in_u; lia|].
  destruct (Z.eqb_spec (Z.of_nat (length s)) 0) as [H0|H0].
  - assert (s = []) as -> by (apply length_zero_iff_nil; lia). apply reads_ret.
  - rewrite Nat2Z.id. by apply reads_next.
Qed.

Lemma cut_concat a : ∀ pre,
  cut ((λ s, Z.of_nat (length s)) <$> a) (pre ++ concat a) (length pre) = Ok a.
Proof.
  induction a as [|s a IH]; intros pre; [done|]. rewrite fmap_cons. cbn [cut concat].
  rewrite Nat2Z.id, between_Ok by (rewrite ?length_app; lia). cbn [res_bind].
  rewrite drop_app_length, Nat.add_comm, Nat.add_sub, take_app_length.
  rewrite (app_assoc pre), Nat.add_comm, <- length_app, IH. done.
Qed.

Lemma reads_strings a :
  Forall str_ok a → fits (length a) → fits (length (concat a)) →
  reads StringSlice (wire (VM := be_encoding) (VStrings a)) a.
Proof.
  intros Hs Hn Ht. destruct a as [|x a].
  { cbn [wire]. rewrite <- (app_nil_r (be_count 0)).
    apply (reads_bind Uint16SliceNoCopy (be_count 0) []); [|apply reads_ret].
    rewrite <- (app_nil_r (be_count 0)). by apply (reads_slice Bytes2Uint16Slice 2 0 []). }
  set (sizes := (λ s, Z.of_nat (length s)) <$> x :: a). cbn [wire]. fold sizes.
  assert (Hsl : length (x :: a) = length sizes) by (unfold sizes; by rewrite length_fmap).
  rewrite Hsl, app_assoc.
  apply (reads_bind Uint16SliceNoCopy _ sizes).
  { apply (reads_words 2 16); [done|lia| |by rewrite <- Hsl].
    unfold sizes. apply Forall_fmap. eapply Forall_impl; [exact Hs|]. intros s Hl.
    unfold str_ok in Hl. unfold in_u. simpl. lia. }
  rewrite <- Hsl. cbn [length Nat.eqb].
  apply (reads_bind Uint32 _ (Z.of_nat (length (concat (x :: a))))); [by apply reads_count|].
  rewrite Nat2Z.id. intros c rest Hc.
  destruct (reads_next (length (concat (x :: a))) (concat (x :: a)) eq_refl c rest Hc)
    as (c' & Hc1 & Hc2). exists c'. unfold copy. rewrite Hc1. cbn [res_bind].
  pose proof (cut_concat (x :: a) []) as Hcut. cbn [app length] in Hcut. unfold sizes.
  rewrite Hcut. done.
Qed.

Section RoundTrip.
Context `{RT : GoRuntime} `{VM : VMEncoding} `{!VMEncodingLaws VM}.

Lemma reads_Int32 v :
  in_s 32 v → reads Int32 (be_bytes 4 (if v <? 0 then - 2 * v - 1 else 2 * v)) v.
Proof.
  intros Hv. destruct (unzigzag32_val v Hv) as [Hu Hz]. cbv zeta in Hu, Hz.
  set (u := if v <? 0 then _ else _) in *. rewrite <- Hz.
  apply (reads_map Uint32 (be_bytes 4 u) u
    (λ u, Z.lxor (i32 (u ≫ 1)) (i32 (u32 (u ≪ 31)) ≫ 31))). by apply reads_Uint32.
Qed.

Lemma reads_i64 v : in_s 64 v → reads Int64 (vm_put_i64 v) v.
Proof.
  intros Hv. rewrite <- (vm_i64_get v) at 2 by done. apply reads_map, reads_next, vm_i64_len.
Qed.

Lemma reads_IntSlice a : Forall (in_s 64) a → fits (length a) →
  reads IntSlice (be_count (length a) ++ bytes_le 8 a) a.
Proof.
  intros Hr Hn. rewrite <- (app_nil_r (_ ++ bytes_le 8 a)).
  apply (reads_bind Int64Slice _ a); [apply (reads_words_s 8 64); done || lia|].
  destruct a; apply reads_ret.
Qed.

Lemma read_like_wire v : val_ok v → reads (read_like v) (wire v) v.
Proof.
  destruct v; cbn [val_ok read_like wire]; intros Hok;
    try (match goal with |- reads _ _ (?C ?x) => apply (reads_map _ _ x C) end).
  - apply reads_Uint8.
  - intros c rest Hc. destruct (reads_Uint8 (if v then 1 else 0) c rest Hc) as (c' & Hu & Hc').
    unfold Bool. rewrite Hu. cbn [res_bind]. exists c'. by destruct v.
  - by apply reads_Uint16.
  - by apply reads_Uint32.
  - by apply reads_Uint64.
  - rewrite <- (vm_i16_get v) at 2 by done. apply reads_map, reads_next, vm_i16_len.
  - by apply reads_Int32.
  - by apply reads_i64.
  - by apply reads_i64.
  - rewrite <- (vm_u64_get v) at 2 by done. apply reads_map, reads_next, length_be_bytes.
  - destruct Hok. by apply reads_IntSlice.
  - destruct Hok. apply (reads_words_s 2 16); done || lia.
  - destruct Hok. apply (reads_words_s 4 32); done || lia.
  - destruct Hok. apply (reads_words_s 8 64); done || lia.
  - destruct Hok. apply (reads_words 2 16); done || lia.
  - destruct Hok. apply (reads_words 4 32); done || lia.
  - destruct Hok. apply (reads_words 8 64); done || lia.
  - destruct Hok. apply (reads_words 4 32); done || lia.
  - destruct Hok. apply (reads_words 8 64); done || lia.
  - by apply reads_bools.
  - destruct Hok as (? & ? & ?). by apply reads_strings.
  - apply (reads_slice (λ b : list Z, b)); [done|lia|done].
  - by apply reads_String.
Qed.

(** A message: values appended one after the other, and read in the same order. *)
Fixpoint read_all_like (vs : list val) (c : BinaryDecoder) : res (list val * BinaryDecoder) :=
  match vs with
  | [] => Ok ([], c)
  | v :: vs =>
      let! (v, c) := read_like v c in
      let! (vs, c) := read_all_like vs c in
      Ok (v :: vs, c)
  end.

Lemma append_all_wire vs : ∀ b, Forall val_ok vs →
  sdata (foldl append_val b vs) = sdata b ++ concat (wire <$> vs).
Proof.
  induction vs as [|v vs IH]; intros b Hv; [by rewrite app_nil_r|].
  apply Forall_cons in Hv as [Hv Hvs]. cbn [foldl]. rewrite IH, append_val_wire by done.
  by rewrite <- app_assoc.
Qed.

Lemma read_all_wire vs : Forall val_ok vs → reads (read_all_like vs) (concat (wire <$> vs)) vs.
Proof.
  induction vs as [|v vs IH]; intros Hv; [apply reads_ret|].
  apply Forall_cons in Hv as [Hv Hvs]. rewrite fmap_cons. cbn [concat read_all_like].
  apply (reads_bind (read_like v) _ v); [by apply read_like_wire|].
  apply (reads_map (read_all_like vs) _ vs (cons v)). by apply IH.
Qed.

(** C40: A message is read back as it was written: whatever values are appended after any
    prefix, a decoder positioned behind the prefix returns them in order and stops at the end
    of the buffer. Strings are below 2^16 bytes and slices below 2^32 elements, the widths of
    the lengths that are stored; longer strings are cut ([long_string_truncated]). *)
Theorem codec_roundtrip b vs :
  Forall val_ok vs →
  let b' := foldl append_val b vs in
  ∃ c', read_all_like vs (mk_decoder b' (slen b)) = Ok (vs, c') ∧
    drop (offset c') (sdata (buf c')) = [].
Proof.
  intros Hv b'. assert (Hb : sdata b' = sdata b ++ concat (wire <$> vs)) by by apply append_all_wire.
  destruct (read_all_wire vs Hv (mk_decoder b' (slen b)) []) as (c' & Hr & _ & Hd).
  - rewrite app_nil_r. unfold unread. cbn [buf offset]. unfold slen. rewrite Hb. split; [len|].
    apply drop_app_length.
  - by exists c'.
Qed.

(** The [SizeOf] functions give the exact number of bytes the [Append] functions
    write. *)
Theorem size_exact b v : val_ok v → slen (append_val b v) = (slen b + size_val v)%nat.
Proof.
  intros Hv. unfold slen. rewrite append_val_wire, length_app, length_wire by done. done.
Qed.

(** *** Maps *)

Definition entry_ok (kv : list Z * list Z) : Prop := str_ok kv.1 ∧ str_ok kv.2.
Definition str_wire (s : list Z) : list Z := be_bytes 2 (Z.of_nat (length s)) ++ s.
Definition map_wire (m : list (list Z * list Z)) : list Z :=
  be_count (length m) ++ concat ((λ kv, str_wire kv.1 ++ str_wire kv.2) <$> m).

Lemma AppendMap_wire b m :
  Forall entry_ok m → fits (length m) → sdata (AppendMapStringString b m) = sdata b ++ map_wire m.
Proof.
  intros Hm Hn. unfold AppendMapStringString, map_wire.
  assert (Hf : ∀ b, sdata (foldl (λ b '(k, v), AppendString (AppendString b k) v) b m) =
                    sdata b ++ concat ((λ kv, str_wire kv.1 ++ str_wire kv.2) <$> m)).
  { clear Hn. induction Hm as [|[k v] m [Hk Hv] Hm IH]; intros b'; [by rewrite app_nil_r|].
    cbn [foldl]. rewrite IH, !AppendString_wire by done. rewrite fmap_cons. cbn [concat fst snd].
    unfold str_wire. by rewrite <- !app_assoc. }
  destruct m as [|kv m].
  - cbn [length Nat.eqb fmap list_fmap concat]. by rewrite (AppendUint32_count b 0), app_nil_r.
  - cbn [Nat.eqb length]. rewrite Hf, AppendUint32_count by done. by rewrite <- app_assoc.
Qed.

Lemma read_entries_spec m : ∀ acc,
  Forall entry_ok m → NoDup m.*1 → (∀ k, k ∈ m.*1 → acc !! k = None) →
  reads (read_entries (length m) acc) (concat ((λ kv, str_wire kv.1 ++ str_wire kv.2) <$> m))
    (list_to_map m ∪ acc).
Proof.
  induction m as [|[k v] m IH]; intros acc Hm Hnd Hacc.
  - cbn. rewrite (left_id_L ∅ (∪)). apply reads_ret.
  - apply Forall_cons in Hm as [[Hk Hv] Hm]. rewrite fmap_cons in *. cbn [fst] in *.
    apply NoDup_cons in Hnd as [Hnk Hnd]. cbn [concat length read_entries fst snd].
    rewrite <- app_assoc. apply (reads_bind String _ k); [by apply reads_String|].
    apply (reads_bind String _ v); [by apply reads_String|].
    replace (list_to_map ((k, v) :: m) ∪ acc)
      with (list_to_map m ∪ <[k := v]> acc : gmap (list Z) (list Z)).
    + apply IH; [done|done|]. intros k' Hk'. rewrite lookup_insert_ne by set_solver.
      apply Hacc. set_solver.
    + cbn [list_to_map foldr curry]. rewrite <- insert_union_l.
      rewrite insert_union_r; [done|]. by apply not_elem_of_list_to_map_1.
Qed.

(** A string map is read back as the same map, whatever order the encoder's
    iteration visits its entries in, and occupies the bytes [SizeOfMapStringString]
    announces. *)
Theorem map_roundtrip b m :
  Forall entry_ok m → NoDup m.*1 → fits (length m) →
  let b' := AppendMapStringString b m in
  (∃ c', MapStringString (mk_decoder b' (slen b)) = Ok (list_to_map m, c') ∧
     drop (offset c') (sdata (buf c')) = []) ∧
  slen b' = (slen b + SizeOfMapStringString m)%nat.
Proof.
  intros Hm Hnd Hn b'. assert (Hb : sdata b' = sdata b ++ map_wire m) by by apply AppendMap_wire.
  split.
  - assert (Hr : reads MapStringString (map_wire m) (list_to_map m)).
    { apply (reads_bind Uint32 _ (Z.of_nat (length m))); [by apply reads_count|].
      destruct (Z.eqb_spec (Z.of_nat (length m)) 0) as [H0|H0].
      - assert (m = []) as -> by (apply length_zero_iff_nil; lia). apply reads_ret.
      - rewrite Nat2Z.id. pose proof (read_entries_spec m ∅ Hm Hnd) as Hr.
        rewrite (right_id_L ∅ (∪)) in Hr. apply Hr. intros. apply lookup_empty. }
    destruct (Hr (mk_decoder b' (slen b)) []) as (c' & Hc & _ & Hd); [|by exists c'].
    rewrite app_nil_r. unfold unread. cbn [buf offset]. unfold slen. rewrite Hb. split; [len|].
    apply drop_app_length.
  - unfold slen. rewrite Hb, length_app. f_equal. unfold map_wire, SizeOfMapStringString, be_count.
    rewrite length_app, length_be_bytes. unfold SizeOfUint16, SizeOfUint32.
    assert (Hs : ∀ n, foldl (λ n '(k, v), n + (length k + length v))%nat (n + length m * 2 * 2)%nat m =
      (n + length (concat ((λ kv, str_wire kv.1 ++ str_wire kv.2) <$> m)))%nat).
    { clear. induction m as [|[k v] m IH]; intros n; [cbn; lia|].
      rewrite fmap_cons. cbn [foldl concat length fst snd].
      replace (n + S (length m) * 2 * 2 + (length k + length v))%nat
        with ((n + (4 + length k + length v)) + length m * 2 * 2)%nat by lia.
      rewrite IH, !length_app. unfold str_wire. rewrite !length_app, !length_be_bytes. lia. }
    rewrite <- (Hs 4%nat). f_equal. lia.
Qed.

(** A string of 2^16 bytes or more is not read back: its length is written modulo
    2^16, so [String] returns only that many bytes and leaves the rest unread. *)
Theorem long_string_truncated b s :
  let n := Z.to_nat (u16 (Z.of_nat (length s))) in
  ∃ c', String (mk_decoder (AppendString b s) (slen b)) = Ok (take n s, c') ∧
    drop (offset c') (sdata (buf c')) = drop n s.
Proof.
  intros n. pose proof (wrap_u_range 16 (Z.of_nat (length s))) as Hr.
  assert (Hb : sdata (AppendString b s) = sdata b ++ be_bytes 2 (Z.of_nat n) ++ take n s ++ drop n s).
  { unfold AppendString, AppendUint16. rewrite !sdata_append, vm_u16_be by (apply Hr; lia).
    rewrite take_drop, <- app_assoc. unfold n, in_u in *. by rewrite Z2Nat.id by lia. }
  assert (Hn : (n <= length s)%nat).
  { unfold n, wrap_u. pose proof (Z.mod_le (Z.of_nat (length s)) (2 ^ 16)). lia. }
  assert (Htl : length (take n s) = n) by len.
  assert (Hok : str_ok (take n s)).
  { unfold str_ok. rewrite Htl. unfold n, in_u in *. lia. }
  destruct (reads_String (take n s) Hok (mk_decoder (AppendString b s) (slen b)) (drop n s))
    as (c' & Hc & _ & Hd); [|by exists c'].
  unfold unread. cbn [buf offset]. unfold slen. rewrite Hb, Htl. split; [len|].
  by rewrite drop_app_length, <- app_assoc.
Qed.

(** The portable variants [AppendUint32SliceSafe] and [Uint32SliceSafe] have the
    wire format of the variants that reinterpret memory: either reader accepts what
    either writer wrote. *)
Theorem safe_slices_interchangeable b a :
  Forall (in_u 32) a → fits (length a) →
  sdata (AppendUint32SliceSafe b a) = sdata (AppendUint32Slice b a) ∧
  ∃ c1 c2,
    Uint32SliceSafe (mk_decoder (AppendUint32Slice b a) (slen b)) = Ok (a, c1) ∧
    Uint32Slice (mk_decoder (AppendUint32SliceSafe b a) (slen b)) = Ok (a, c2).
Proof.
  intros Hr Hn.
  assert (Hs : sdata (AppendUint32SliceSafe b a) = sdata b ++ be_count (length a) ++ bytes_le 4 a).
  { unfold AppendUint32SliceSafe.
    assert (Hf : ∀ b, sdata (foldl (λ b v, append b (le_bytes 4 v)) b a) = sdata b ++ bytes_le 4 a).
    { clear. induction a as [|v a IH]; intros b; [by rewrite app_nil_r|]. cbn [foldl].
      rewrite IH, sdata_append, bytes_le_cons. by rewrite <- app_assoc. }
    destruct a as [|v a].
    - cbn [length Nat.eqb]. by rewrite (AppendUint32_count b 0), app_nil_r.
    - cbn [Nat.eqb length]. rewrite Hf, AppendUint32_count by done. by rewrite <- app_assoc. }
  assert (Hu : sdata (AppendUint32Slice b a) = sdata b ++ be_count (length a) ++ bytes_le 4 a)
    by by apply append_slice_wire.
  split; [by rewrite Hs, Hu|].
  assert (Hsafe : reads Uint32SliceSafe (be_count (length a) ++ bytes_le 4 a) a).
  { apply (reads_bind Uint32 _ (Z.of_nat (length a))); [by apply reads_count|].
    destruct (Z.eqb_spec (Z.of_nat (length a)) 0) as [H0|H0].
    - assert (a = []) as -> by (apply length_zero_iff_nil; lia). apply reads_ret.
    - rewrite Nat2Z.id. clear Hn Hs Hu H0. induction Hr as [|v a Hv _ IH]; [apply reads_ret|].
      rewrite bytes_le_cons. cbn [length read_le].
      apply (reads_bind Uint32LE _ v); [|by apply (reads_map (read_le (length a)) _ a (cons v))].
      assert (Hlv : le_val (le_bytes 4 v) = v) by (rewrite le_val_bytes; by apply Z.mod_small).
      rewrite <- Hlv at 2. apply reads_map, reads_next, length_le_bytes. }
  assert (Hpos : ∀ b', sdata b' = sdata b ++ be_count (length a) ++ bytes_le 4 a →
    unread (mk_decoder b' (slen b)) ((be_count (length a) ++ bytes_le 4 a) ++ [])).
  { intros b' Hb'. unfold unread. cbn [buf offset]. unfold slen. rewrite Hb', app_nil_r.
    split; [len|]. apply drop_app_length. }
  destruct (Hsafe _ [] (Hpos _ Hu)) as (c1 & Hc1 & _).
  destruct (reads_words 4 32 a eq_refl ltac:(lia) Hr Hn _ [] (Hpos _ Hs)) as (c2 & Hc2 & _).
  by exists c1, c2.
Qed.
End RoundTrip.

(** ** Witnesses *)

Lemma codec_roundtrip_witness :
  let vs := [VInt32 (-7); VString [104; 105]; VInt64s [1; -2]; VBools [true; false];
             VStrings [[65]; []; [66; 67]]] in
  ∃ c', read_all_like vs (mk_decoder (foldl append_val (mk_slice [9] []) vs) 1) = Ok (vs, c') ∧
    drop (offset c') (sdata (buf c')) = [].
Proof.
  apply (codec_roundtrip (mk_slice [9] [])
    [VInt32 (-7); VString [104; 105]; VInt64s [1; -2]; VBools [true; false];
     VStrings [[65]; []; [66; 67]]]).
  repeat constructor; cbn; unfold fits, str_ok; cbn; lia.
Defined.

Lemma size_exact_witness :
  slen (append_val nil_slice (VStrings [[65]; [66; 67]])) = (0 + 15)%nat.
Proof.
  apply (size_exact nil_slice (VStrings [[65]; [66; 67]])).
  repeat constructor; cbn; unfold fits, str_ok; cbn; lia.
Defined.

Lemma map_roundtrip_witness :
  let m := [([97], [49; 50]); ([98], [])] in
  (∃ c', MapStringString (mk_decoder (AppendMapStringString nil_slice m) 0) =
           Ok (list_to_map m, c') ∧ drop (offset c') (sdata (buf c')) = []) ∧
  slen (AppendMapStringString nil_slice m) = 16%nat.
Proof.
  apply (map_roundtrip nil_slice [([97], [49; 50]); ([98], [])]).
  - repeat constructor; cbn; lia.
  - by_compute.
  - by_compute.
Defined.

Lemma safe_slices_interchangeable_witness :
  sdata (AppendUint32SliceSafe nil_slice [1; 2 ^ 31]) = sdata (AppendUint32Slice nil_slice [1; 2 ^ 31]) ∧
  ∃ c1 c2,
    Uint32SliceSafe (mk_decoder (AppendUint32Slice nil_slice [1; 2 ^ 31]) 0) = Ok ([1; 2 ^ 31], c1) ∧
    Uint32Slice (mk_decoder (AppendUint32SliceSafe nil_slice [1; 2 ^ 31]) 0) = Ok ([1; 2 ^ 31], c2).
Proof. apply (safe_slices_interchangeable nil_slice [1; 2 ^ 31]); by_compute. Defined.

Lemma long_string_truncated_witness :
  ∃ c', String (mk_decoder (AppendString nil_slice [104; 105]) 0) = Ok ([104; 105], c') ∧
    drop (offset c') (sdata (buf c')) = [].
Proof. apply (long_string_truncated nil_slice [104; 105]). Defined.
