(* ===== verification/Bitmap.v ===== *)
(** * lib/record: validity bitmaps

    A bitmap stores one bit per row, least significant bit first.  The model covers
    the bit accesses the column operations are written with ([BitMask],
    [FlippedBitMask]), [subBitmapBytes] (record.go) and the population count of
    utils.go ([valueIndexRange], [valueIndexRangeWithSingle]), which is shown to
    agree with counting the bits of the range one by one. *)

From S2P Require Import Prelude GoSlice.

(** ** Single bits (column.go) *)

Definition BitMask : list Z := [1; 2; 4; 8; 16; 32; 64; 128].
Definition FlippedBitMask : list Z := [254; 253; 251; 247; 239; 223; 191; 127].

(** [bm[i>>3] & BitMask[i&0x07] != 0] *)
Definition bit_test (bm : list Z) (i : nat) : res bool :=
  let! b := index bm (i / 8) in
  Ok (negb (Z.land b (BitMask !!! (i mod 8)%nat) =? 0)).

(** [bm[i>>3] |= BitMask[i&0x07]] and [bm[i>>3] &= FlippedBitMask[i&0x07]] *)
Definition bit_set (bm : slice) (i : nat) : res slice :=
  let! b := index (sdata bm) (i / 8) in
  store bm (i / 8) (Z.lor b (BitMask !!! (i mod 8)%nat)).
Definition bit_clear (bm : slice) (i : nat) : res slice :=
  let! b := index (sdata bm) (i / 8) in
  store bm (i / 8) (Z.land b (FlippedBitMask !!! (i mod 8)%nat)).

(** ** record.go subBitmapBytes *)

Definition subBitmapBytes (bitmap : slice) (bitMapOffset length : nat) : res (slice * nat) :=
  let e := (bitMapOffset + length)%nat in
  let! b := if negb (e mod 8 =? 0)%nat
            then reslice bitmap (bitMapOffset / 8) (e / 8 + 1)
            else reslice bitmap (bitMapOffset / 8) (e / 8) in
  Ok (b, (bitMapOffset mod 8)%nat).

(** ** Population count (utils.go) *)

(** The [n] low bits, least significant first, and the number of ones. *)
Definition bits_le (n : nat) (x : Z) : list bool := (λ i, Z.testbit x (Z.of_nat i)) <$> seq 0 n.
Definition count_true (l : list bool) : nat := length (filter (λ b : bool, b = true) l).

(** math/bits *)
Definition OnesCount8 (x : Z) : Z := Z.of_nat (count_true (bits_le 8 x)).
Definition OnesCount64 (x : Z) : Z := Z.of_nat (count_true (bits_le 64 x)).

Definition sum_ones (count : Z → Z) (l : list Z) (total : Z) : Z :=
  fold_left (λ total x, total + count x) l total.

Definition valueIndexRangeWithSingle (bitMap : slice) (bitStart bitEnd : nat) : res Z :=
  let! sub := reslice bitMap (bitStart / 8) ((bitEnd + 7) / 8) in
  let bm := sdata sub in
  let size := length bm in
  let! total :=
    let n := (bitStart mod 8)%nat in
    if (0 <? n)%nat then
      let! b := index bm 0 in Ok (0 - OnesCount8 (u8 (b ≪ (8 - Z.of_nat n))))
    else Ok 0 in
  let! total :=
    let n := (bitEnd mod 8)%nat in
    if (0 <? n)%nat then
      if (size =? 0)%nat then Panic
      else let! b := index bm (size - 1) in Ok (total - OnesCount8 (b ≫ Z.of_nat n))
    else Ok total in
  let (total, bm) :=
    if (8 <=? size)%nat then
      let pos := (size - size mod 8)%nat in
      (sum_ones OnesCount64 (Bytes2Uint64Slice (take pos bm)) total, drop pos bm)
    else (total, bm) in
  Ok (sum_ones OnesCount8 bm total).

Definition valueIndexRange (bitMap : slice) (bitOffset bmStart bmEnd pos : nat)
    (posValidCount : Z) : res (Z * Z) :=
  let (start, firstIndex) :=
    if (pos <=? bmStart)%nat then (posValidCount, pos) else (0, 0%nat) in
  let! a := valueIndexRangeWithSingle bitMap (firstIndex + bitOffset) (bmStart + bitOffset) in
  let start := start + a in
  let! b := valueIndexRangeWithSingle bitMap (bmStart + bitOffset) (bmEnd + bitOffset) in
  Ok (start, start + b).

(** ** Bits as a list *)

Definition bm_bits (bm : list Z) : list bool := concat (bits_le 8 <$> bm).

Lemma length_bits_le n x : length (bits_le n x) = n.
Proof. unfold bits_le. len. Qed.
#[export] Hint Rewrite length_bits_le : gemini_len.

Lemma length_bm_bits bm : length (bm_bits bm) = (8 * length bm)%nat.
Proof.
  unfold bm_bits. induction bm as [|b bm IH]; [done|]. rewrite fmap_cons. cbn [concat length].
  rewrite length_app, length_bits_le, IH. lia.
Qed.
#[export] Hint Rewrite length_bm_bits : gemini_len.

Lemma bm_bits_app a b : bm_bits (a ++ b) = bm_bits a ++ bm_bits b.
Proof. unfold bm_bits. by rewrite fmap_app, concat_app. Qed.

Lemma bm_bits_cons b bm : bm_bits (b :: bm) = bits_le 8 b ++ bm_bits bm.
Proof. done. Qed.

Lemma bm_bits_take n bm : bm_bits (take n bm) = take (8 * n) (bm_bits bm).
Proof.
  revert n. induction bm as [|b bm IH]; intros n; [change (bm_bits []) with (@nil bool); by rewrite !take_nil|].
  destruct n as [|n]; [done|].
  replace (8 * S n)%nat with (8 + 8 * n)%nat by lia. cbn [firstn]. rewrite !bm_bits_cons, IH.
  rewrite take_app_ge by len. rewrite length_bits_le. do 2 f_equal. lia.
Qed.

Lemma bm_bits_drop n bm : bm_bits (drop n bm) = drop (8 * n) (bm_bits bm).
Proof.
  revert n. induction bm as [|b bm IH]; intros n; [change (bm_bits []) with (@nil bool); by rewrite !drop_nil|].
  destruct n as [|n]; [done|].
  replace (8 * S n)%nat with (8 + 8 * n)%nat by lia. cbn [skipn]. rewrite bm_bits_cons, IH.
  rewrite drop_app_ge by len. rewrite length_bits_le. f_equal. lia.
Qed.

Lemma bits_le_lookup n x i : (i < n)%nat → bits_le n x !! i = Some (Z.testbit x (Z.of_nat i)).
Proof. intros. unfold bits_le. by rewrite list_lookup_fmap, lookup_seq_lt. Qed.

Lemma bm_bits_lookup bm i b :
  bm !! (i / 8)%nat = Some b → bm_bits bm !! i = Some (Z.testbit b (Z.of_nat (i mod 8))).
Proof.
  intros Hb. rewrite <- (take_drop_middle bm (i / 8) b Hb), bm_bits_app, bm_bits_cons.
  pose proof (Nat.div_mod_eq i 8). pose proof (Nat.mod_upper_bound i 8).
  apply lookup_lt_Some in Hb.
  rewrite lookup_app_r by len. rewrite lookup_app_l by len.
  rewrite length_bm_bits, length_take, Nat.min_l by lia.
  rewrite bits_le_lookup by lia. do 3 f_equal. lia.
Qed.

(** ** Counting *)

Lemma count_true_cons b l : count_true (b :: l) = ((if b then 1 else 0) + count_true l)%nat.
Proof. by destruct b. Qed.

Lemma count_true_app a b : count_true (a ++ b) = (count_true a + count_true b)%nat.
Proof. unfold count_true. by rewrite filter_app, length_app. Qed.

Lemma count_true_le l : (count_true l <= length l)%nat.
Proof. unfold count_true. apply length_filter. Qed.

Lemma sum_ones_app count a b t : sum_ones count (a ++ b) t = sum_ones count b (sum_ones count a t).
Proof. unfold sum_ones. apply fold_left_app. Qed.

Lemma sum_ones8 bm t : sum_ones OnesCount8 bm t = t + Z.of_nat (count_true (bm_bits bm)).
Proof.
  revert t. induction bm as [|b bm IH]; intros t; [cbn; lia|].
  unfold sum_ones in *. cbn [fold_left]. rewrite IH, bm_bits_cons, count_true_app.
  unfold OnesCount8. lia.
Qed.

Lemma bits_le_app n m x : bits_le (n + m) x = bits_le n x ++ bits_le m (x ≫ Z.of_nat n).
Proof.
  unfold bits_le. rewrite seq_app, fmap_app. f_equal. cbn [Nat.add].
  apply list_eq. intros i. rewrite !list_lookup_fmap.
  destruct (decide (i < m)%nat).
  - rewrite !lookup_seq_lt by done. cbn. f_equal. rewrite Z.shiftr_spec by lia. f_equal. lia.
  - by rewrite !lookup_seq_ge by lia.
Qed.

Lemma bits_le_ext n x y :
  (∀ i, 0 ≤ i < Z.of_nat n → Z.testbit x i = Z.testbit y i) → bits_le n x = bits_le n y.
Proof.
  intros Hxy. apply list_eq. intros i. destruct (decide (i < n)%nat).
  - rewrite !bits_le_lookup by done. f_equal. apply Hxy. lia.
  - rewrite !lookup_ge_None_2 by len. done.
Qed.

(** The bits of a little-endian word are the bits of its bytes. *)
Lemma bits_le_val bs : bytes_ok bs → bits_le (8 * length bs) (le_val bs) = bm_bits bs.
Proof.
  induction 1 as [|b bs Hb _ IH]; [done|]. unfold in_u in Hb. cbn [length le_val].
  replace (8 * S (length bs))%nat with (8 + 8 * length bs)%nat by lia.
  rewrite bits_le_app, bm_bits_cons. f_equal.
  - apply bits_le_ext. intros i Hi. rewrite <- (Z.mod_pow2_bits_low (b + _) 8) by lia.
    replace (b + 256 * le_val bs) with (b + le_val bs * 2 ^ 8) by lia.
    rewrite Z.mod_add by lia. by rewrite Z.mod_pow2_bits_low by lia.
  - rewrite <- IH. apply bits_le_ext. intros i Hi. f_equal.
    change (Z.of_nat 8) with 8. rewrite Z.shiftr_div_pow2 by lia.
    replace (b + 256 * le_val bs) with (b + le_val bs * 2 ^ 8) by lia.
    rewrite Z.div_add by lia. rewrite Z.div_small by lia. lia.
Qed.

Lemma sum_ones64 bm t :
  bytes_ok bm → (length bm mod 8 = 0)%nat →
  sum_ones OnesCount64 (Bytes2Uint64Slice bm) t = t + Z.of_nat (count_true (bm_bits bm)).
Proof.
  intros Hok Hm. unfold Bytes2Uint64Slice.
  assert (Hk : length bm = (8 * (length bm / 8))%nat).
  { pose proof (Nat.div_mod_eq (length bm) 8). lia. }
  set (k := (length bm / 8)%nat) in *. clearbody k. clear Hm. revert bm t Hok Hk.
  induction k as [|k IH]; intros bm t Hok Hk.
  - apply length_zero_iff_nil in Hk as ->. cbn. lia.
  - cbn [words_le]. unfold sum_ones in *. cbn [fold_left].
    rewrite IH; [|auto with gemini|len].
    unfold OnesCount64. change 64%nat with (8 * 8)%nat.
    replace 8%nat with (length (take 8 bm)) at 2 by len.
    rewrite bits_le_val by auto with gemini.
    rewrite <- (take_drop 8 bm) at 3. rewrite bm_bits_app, count_true_app. lia.
Qed.

(** The corrections for the first and the last byte. *)
Lemma OnesCount8_low b n :
  (0 < n < 8)%nat → OnesCount8 (u8 (b ≪ (8 - Z.of_nat n))) = Z.of_nat (count_true (take n (bits_le 8 b))).
Proof.
  intros Hn. unfold OnesCount8. f_equal.
  assert (Hlow : take n (bits_le 8 b) = bits_le n b).
  { replace 8%nat with (n + (8 - n))%nat by lia. rewrite bits_le_app. apply take_app_length'. len. }
  rewrite Hlow. replace (bits_le 8 (u8 _)) with (bits_le ((8 - n) + n) (u8 (b ≪ (8 - Z.of_nat n))))
    by (f_equal; lia).
  rewrite bits_le_app, count_true_app.
  replace (bits_le (8 - n) _) with (replicate (8 - n) false).
  - replace (bits_le n _) with (bits_le n b).
    + assert (Hz : ∀ k, count_true (replicate k false) = 0%nat) by (induction k; done).
      by rewrite Hz.
    + apply bits_le_ext. intros i Hi. rewrite Z.shiftr_spec, wrap_u_testbit by lia. bcase.
      rewrite Z.shiftl_spec by lia. f_equal. lia.
  - apply list_eq. intros i. destruct (decide (i < 8 - n)%nat).
    + rewrite lookup_replicate_2, bits_le_lookup by done. f_equal.
      rewrite wrap_u_testbit by lia. bcase. rewrite Z.shiftl_spec by lia. symmetry.
      apply Z.testbit_neg_r. lia.
    + rewrite !lookup_ge_None_2 by len. done.
Qed.

Lemma OnesCount8_high b n :
  (n < 8)%nat → in_u 8 b →
  OnesCount8 (b ≫ Z.of_nat n) = Z.of_nat (count_true (drop n (bits_le 8 b))).
Proof.
  intros Hn Hb. unfold OnesCount8. f_equal.
  assert (Hhigh : drop n (bits_le 8 b) = bits_le (8 - n) (b ≫ Z.of_nat n)).
  { replace (bits_le 8 b) with (bits_le (n + (8 - n)) b) by (f_equal; lia).
    rewrite bits_le_app. apply drop_app_length'. len. }
  rewrite Hhigh. replace (bits_le 8 _) with (bits_le ((8 - n) + n) (b ≫ Z.of_nat n))
    by (f_equal; lia).
  rewrite bits_le_app, count_true_app.
  replace (bits_le n _) with (replicate n false).
  - assert (Hz : ∀ k, count_true (replicate k false) = 0%nat) by (induction k; done).
    rewrite Hz. lia.
  - apply list_eq. intros i. destruct (decide (i < n)%nat).
    + rewrite lookup_replicate_2, bits_le_lookup by done. f_equal.
      rewrite !Z.shiftr_spec by lia. symmetry. apply (in_u_testbit 8); [lia|done|lia].
    + rewrite !lookup_ge_None_2 by len. done.
Qed.

(** ** The population count is the number of bits of the range *)

Definition range_bits (bm : list Z) (s e : nat) : list bool := take (e - s) (drop s (bm_bits bm)).

Lemma count_true_split l n m :
  count_true l = (count_true (take n l) + count_true (take m (drop n l)) +
                  count_true (drop (n + m) l))%nat.
Proof.
  rewrite <- (take_drop n l) at 1. rewrite <- (take_drop m (drop n l)) at 1.
  rewrite !count_true_app, drop_drop. lia.
Qed.

Lemma bm_bits_head b bm n : (n <= 8)%nat → take n (bm_bits (b :: bm)) = take n (bits_le 8 b).
Proof. intros. rewrite bm_bits_cons. apply take_app_le. len. Qed.

Lemma bm_bits_last bm b r :
  (r <= 8)%nat → bm !! (length bm - 1)%nat = Some b →
  drop (8 * (length bm - 1) + r) (bm_bits bm) = drop r (bits_le 8 b).
Proof.
  intros Hr Hb. pose proof (lookup_lt_Some _ _ _ Hb).
  rewrite <- (take_drop_middle bm _ b Hb) at 2. rewrite (drop_ge bm) by lia.
  rewrite bm_bits_app, bm_bits_cons. change (bm_bits []) with (@nil bool). rewrite app_nil_r.
  rewrite drop_app_ge by len. f_equal. len.
Qed.

Lemma words_tail_sum bm t :
  bytes_ok bm →
  (let (t', bm') :=
     if (8 <=? length bm)%nat then
       let pos := (length bm - length bm mod 8)%nat in
       (sum_ones OnesCount64 (Bytes2Uint64Slice (take pos bm)) t, drop pos bm)
     else (t, bm) in
   Ok (sum_ones OnesCount8 bm' t')) = Ok (t + Z.of_nat (count_true (bm_bits bm))).
Proof.
  intros Hok. pose proof (Nat.div_mod_eq (length bm) 8). pose proof (Nat.mod_upper_bound (length bm) 8).
  bcase; f_equal; [|apply sum_ones8].
  rewrite sum_ones8, sum_ones64.
  - rewrite <- (take_drop (length bm - length bm mod 8) bm) at 7.
    rewrite bm_bits_app, count_true_app. lia.
  - auto with gemini.
  - len. replace (length bm - length bm mod 8)%nat with (length bm / 8 * 8)%nat by lia.
    rewrite Nat.min_l by lia. apply Nat.Div0.mod_mul.
Qed.

Lemma sub_bits bm s e :
  (s <= e)%nat → ((e + 7) / 8 <= length bm)%nat →
  take (e - s) (drop (s mod 8) (bm_bits (take ((e + 7) / 8 - s / 8) (drop (s / 8) bm)))) =
  range_bits bm s e.
Proof.
  intros Hse Hl. rewrite bm_bits_take, bm_bits_drop. unfold range_bits.
  pose proof (Nat.div_mod_eq s 8). pose proof (Nat.div_mod_eq (e + 7) 8).
  pose proof (Nat.mod_upper_bound (e + 7) 8).
  rewrite skipn_firstn_comm, drop_drop, take_take. f_equal; [lia|f_equal; lia].
Qed.

Lemma count_low bm n :
  (n < 8)%nat → ((0 < n)%nat → bm ≠ []) →
  (if (0 <? n)%nat then
     let! b := index bm 0 in Ok (0 - OnesCount8 (u8 (b ≪ (8 - Z.of_nat n))))
   else Ok 0) = Ok (- Z.of_nat (count_true (take n (bm_bits bm)))).
Proof.
  intros Hn Hne. bcase.
  - destruct bm as [|b bm]; [by destruct Hne|]. rewrite (index_Ok _ 0 b) by done. rs.
    rewrite OnesCount8_low by lia. rewrite bm_bits_head by lia. f_equal; lia.
  - replace n with 0%nat by lia. done.
Qed.

Lemma count_high bm r t :
  (r < 8)%nat → ((0 < r)%nat → bm ≠ []) → bytes_ok bm →
  (if (0 <? r)%nat then
     if (length bm =? 0)%nat then Panic
     else let! b := index bm (length bm - 1) in Ok (t - OnesCount8 (b ≫ Z.of_nat r))
   else Ok t) =
  Ok (t - if (0 <? r)%nat
          then Z.of_nat (count_true (drop (8 * (length bm - 1) + r) (bm_bits bm))) else 0).
Proof.
  intros Hr Hne Hok. bcase; [|f_equal; lia].
  assert (0 < length bm)%nat by (destruct bm; [by destruct Hne|len]). bcase.
  destruct (lookup_lt_is_Some_2 bm (length bm - 1)) as [b Hb]; [lia|].
  rewrite (index_Ok _ _ b Hb). rs.
  rewrite OnesCount8_high; [|lia|by eapply Forall_lookup_1].
  by rewrite (bm_bits_last bm b r) by (lia || done).
Qed.

Lemma valueIndexRangeWithSingle_count bm s e :
  bytes_ok (sdata bm) → (s <= e)%nat → ((e + 7) / 8 <= slen bm)%nat →
  valueIndexRangeWithSingle bm s e = Ok (Z.of_nat (count_true (range_bits (sdata bm) s e))).
Proof.
  intros Hok Hse Hl. unfold valueIndexRangeWithSingle.
  pose proof (Nat.div_mod_eq s 8). pose proof (Nat.mod_upper_bound s 8).
  pose proof (Nat.div_mod_eq e 8). pose proof (Nat.mod_upper_bound e 8).
  pose proof (Nat.div_mod_eq (e + 7) 8). pose proof (Nat.mod_upper_bound (e + 7) 8).
  destruct (reslice_spec bm (s / 8) ((e + 7) / 8)) as (sub & -> & Hsub); [lia|done|]. cbn [res_bind].
  rewrite Hsub. rewrite <- (sub_bits (sdata bm) s e Hse Hl).
  set (B := take _ (drop (s / 8) (sdata bm))).
  assert (HB : length B = ((e + 7) / 8 - s / 8)%nat) by (unfold B, slen in *; len).
  assert (HokB : bytes_ok B) by (unfold B; auto with gemini).
  rewrite count_low; [|lia|intros ? HB0; rewrite HB0 in HB; cbn [length] in HB; lia]. rs.
  rewrite count_high; [|lia|intros ? HB0; rewrite HB0 in HB; cbn [length] in HB; lia|done]. rs.
  rewrite words_tail_sum by done. f_equal.
  rewrite (count_true_split (bm_bits B) (s mod 8) (e - s)).
  bcase.
  - replace (8 * (length B - 1) + e mod 8)%nat with (s mod 8 + (e - s))%nat by lia. lia.
  - rewrite (drop_ge (bm_bits B) (s mod 8 + (e - s))) by (rewrite length_bm_bits; lia).
    change (count_true []) with 0%nat. lia.
Qed.

(** ** Single bits against the list of bits *)

Lemma BitMask_pow2 k : (k < 8)%nat → BitMask !!! k = 2 ^ Z.of_nat k.
Proof. intros Hk. do 8 (destruct k as [|k]; [done|]). lia. Qed.

Lemma FlippedBitMask_testbit k i :
  (k < 8)%nat → (i < 8)%nat →
  Z.testbit (FlippedBitMask !!! k) (Z.of_nat i) = negb (k =? i)%nat.
Proof.
  intros Hk Hi. do 8 (destruct k as [|k]; [do 8 (destruct i as [|i]; [done|]); lia|]). lia.
Qed.

Lemma BitMask_testbit b k :
  (k < 8)%nat → negb (Z.land b (BitMask !!! k) =? 0) = Z.testbit b (Z.of_nat k).
Proof.
  intros Hk. rewrite BitMask_pow2 by done. destruct (Z.eqb_spec (Z.land b (2 ^ Z.of_nat k)) 0) as [E|E].
  - assert (Hb : Z.testbit (Z.land b (2 ^ Z.of_nat k)) (Z.of_nat k) = false) by (rewrite E; apply Z.bits_0).
    rewrite Z.land_spec, Z.pow2_bits_true, andb_true_r in Hb by lia. done.
  - destruct (Z.testbit b (Z.of_nat k)) eqn:Hb; [done|]. destruct E.
    apply Z.bits_inj'. intros i Hi. rewrite Z.land_spec, Z.bits_0, Z.pow2_bits_eqb by lia.
    destruct (Z.eqb_spec (Z.of_nat k) i) as [<-|]; [by rewrite Hb|apply andb_false_r].
Qed.

Lemma bit_test_spec bm i v : bm_bits bm !! i = Some v → bit_test bm i = Ok v.
Proof.
  intros Hv. pose proof (lookup_lt_Some _ _ _ Hv) as Hl. rewrite length_bm_bits in Hl.
  pose proof (Nat.div_mod_eq i 8). pose proof (Nat.mod_upper_bound i 8).
  destruct (lookup_lt_is_Some_2 bm (i / 8)) as [b Hb]; [lia|].
  unfold bit_test. rewrite (index_Ok _ _ b Hb). rs. rewrite BitMask_testbit by lia.
  rewrite (bm_bits_lookup bm i b Hb) in Hv. congruence.
Qed.

Lemma bits_le_set b k :
  (k < 8)%nat → bits_le 8 (Z.lor b (BitMask !!! k)) = <[k := true]> (bits_le 8 b).
Proof.
  intros Hk. rewrite BitMask_pow2 by done. apply list_eq. intros i.
  destruct (decide (i < 8)%nat); [|by rewrite !lookup_ge_None_2 by len].
  rewrite bits_le_lookup, Z.lor_spec, Z.pow2_bits_eqb by lia.
  destruct (decide (k = i)) as [->|Hne].
  - rewrite list_lookup_insert_eq by len. by rewrite Z.eqb_refl, orb_true_r.
  - rewrite list_lookup_insert_ne, bits_le_lookup by done.
    destruct (Z.eqb_spec (Z.of_nat k) (Z.of_nat i)); [lia|]. by rewrite orb_false_r.
Qed.

Lemma bits_le_clear b k :
  (k < 8)%nat → bits_le 8 (Z.land b (FlippedBitMask !!! k)) = <[k := false]> (bits_le 8 b).
Proof.
  intros Hk. apply list_eq. intros i.
  destruct (decide (i < 8)%nat); [|by rewrite !lookup_ge_None_2 by len].
  rewrite bits_le_lookup, Z.land_spec, FlippedBitMask_testbit by lia.
  destruct (decide (k = i)) as [->|Hne].
  - rewrite list_lookup_insert_eq by len. by rewrite Nat.eqb_refl, andb_false_r.
  - rewrite list_lookup_insert_ne, bits_le_lookup by done.
    destruct (Nat.eqb_spec k i); [done|]. by rewrite andb_true_r.
Qed.

Lemma bm_bits_insert bm j b b' k v :
  bm !! j = Some b → (k < 8)%nat → bits_le 8 b' = <[k := v]> (bits_le 8 b) →
  bm_bits (<[j := b']> bm) = <[(8 * j + k)%nat := v]> (bm_bits bm).
Proof.
  intros Hb Hk Hbits. pose proof (lookup_lt_Some _ _ _ Hb).
  rewrite insert_take_drop by done. rewrite <- (take_drop_middle bm j b Hb) at 3.
  rewrite !bm_bits_app, !bm_bits_cons, Hbits.
  replace (8 * j + k)%nat with (length (bm_bits (take j bm)) + k)%nat by len.
  rewrite insert_app_r. f_equal. by rewrite insert_app_l by len.
Qed.

Lemma in_u8_mask k : (k < 8)%nat → in_u 8 (BitMask !!! k) ∧ in_u 8 (FlippedBitMask !!! k).
Proof. intros Hk. do 8 (destruct k as [|k]; [split; by_compute|]). lia. Qed.

(** Setting and clearing a bit that exists: the bit list changes at that index only. *)
Definition bits_updated (bm bm' : slice) (i : nat) (v : bool) : Prop :=
  bm_bits (sdata bm') = <[i := v]> (bm_bits (sdata bm)) ∧
  slen bm' = slen bm ∧ (slice_ok bm → slice_ok bm').

Lemma store_bits bm i v (f : Z → Z) b :
  sdata bm !! (i / 8)%nat = Some b →
  bits_le 8 (f b) = <[(i mod 8)%nat := v]> (bits_le 8 b) → (in_u 8 b → in_u 8 (f b)) →
  ∃ bm', store bm (i / 8) (f b) = Ok bm' ∧ bits_updated bm bm' i v.
Proof.
  intros Hb Hbits Hu. pose proof (lookup_lt_Some _ _ _ Hb) as Hl.
  pose proof (Nat.div_mod_eq i 8). pose proof (Nat.mod_upper_bound i 8).
  unfold store, slen. bcase. eexists; split; [done|]. split_and!; rs.
  - rewrite (bm_bits_insert (sdata bm) (i / 8) b (f b) (i mod 8) v) by (done || lia). f_equal. lia.
  - unfold slen. rs. len.
  - unfold slice_ok, sback. rs. intros [Hok Hsp]%bytes_ok_app. apply bytes_ok_app. split; [|done].
    apply Forall_insert; [done|]. apply Hu. exact (Forall_lookup_1 _ _ _ _ Hok Hb).
Qed.

Lemma bit_set_spec bm i :
  (i < 8 * slen bm)%nat → ∃ bm', bit_set bm i = Ok bm' ∧ bits_updated bm bm' i true.
Proof.
  intros Hi. pose proof (Nat.div_mod_eq i 8). pose proof (Nat.mod_upper_bound i 8).
  destruct (lookup_lt_is_Some_2 (sdata bm) (i / 8)) as [b Hb]; [unfold slen in *; lia|].
  unfold bit_set. rewrite (index_Ok _ _ b Hb). rs.
  apply (store_bits bm i true (λ b, Z.lor b (BitMask !!! (i mod 8)%nat)) b Hb).
  - apply bits_le_set. lia.
  - intros Hu. apply in_u_lor; [lia|done|]. apply in_u8_mask. lia.
Qed.

Lemma bit_clear_spec bm i :
  (i < 8 * slen bm)%nat → ∃ bm', bit_clear bm i = Ok bm' ∧ bits_updated bm bm' i false.
Proof.
  intros Hi. pose proof (Nat.div_mod_eq i 8). pose proof (Nat.mod_upper_bound i 8).
  destruct (lookup_lt_is_Some_2 (sdata bm) (i / 8)) as [b Hb]; [unfold slen in *; lia|].
  unfold bit_clear. rewrite (index_Ok _ _ b Hb). rs.
  apply (store_bits bm i false (λ b, Z.land b (FlippedBitMask !!! (i mod 8)%nat)) b Hb).
  - apply bits_le_clear. lia.
  - intros Hu. apply in_u_land; [lia|done].
Qed.

Lemma range_bits_app bm s m e :
  (s <= m <= e)%nat → range_bits bm s e = range_bits bm s m ++ range_bits bm m e.
Proof.
  intros. unfold range_bits. replace (e - s)%nat with ((m - s) + (e - m))%nat by lia.
  rewrite <- take_drop_app, drop_drop. do 3 f_equal. lia.
Qed.

Lemma range_bits_lookup bm s e i :
  (s + i < e)%nat → range_bits bm s e !! i = bm_bits bm !! (s + i)%nat.
Proof. intros. unfold range_bits. rewrite lookup_take_lt by lia. apply lookup_drop. Qed.

Lemma length_range_bits bm s e :
  (e <= 8 * length bm)%nat → length (range_bits bm s e) = (e - s)%nat.
Proof. intros. unfold range_bits. len. Qed.

Lemma valueIndexRange_spec bm off s e pos cnt :
  bytes_ok (sdata bm) → (s <= e)%nat → ((e + off + 7) / 8 <= slen bm)%nat →
  ((pos <= s)%nat → cnt = Z.of_nat (count_true (range_bits (sdata bm) off (pos + off)))) →
  valueIndexRange bm off s e pos cnt =
    Ok (Z.of_nat (count_true (range_bits (sdata bm) off (s + off))),
        Z.of_nat (count_true (range_bits (sdata bm) off (e + off)))).
Proof.
  intros Hok Hse Hl Hcnt. unfold valueIndexRange.
  assert ((s + off + 7) / 8 <= (e + off + 7) / 8)%nat by (apply Nat.Div0.div_le_mono; lia).
  rewrite (range_bits_app (sdata bm) off (s + off) (e + off)), count_true_app by lia.
  bcase; rewrite !valueIndexRangeWithSingle_count by (done || lia); rs; f_equal.
  - rewrite (range_bits_app (sdata bm) off (pos + off) (s + off)), count_true_app by lia.
    rewrite Hcnt by done. f_equal; lia.
  - cbn [Nat.add]. f_equal; lia.
Qed.

(** C33: counting valid rows over whole bytes and 64-bit words (valueIndexRange, the
    population count behind every sub-range access to a column) gives the number of
    set bits before the start and before the end of the range, also when it starts
    from a position [pos] whose count the caller already knows. *)
Theorem valueIndexRange_counts bm off s e pos cnt :
  bytes_ok (sdata bm) → (s <= e)%nat → ((e + off + 7) / 8 <= slen bm)%nat →
  ((pos <= s)%nat → cnt = Z.of_nat (count_true (range_bits (sdata bm) off (pos + off)))) →
  valueIndexRange bm off s e pos cnt =
    Ok (Z.of_nat (count_true (range_bits (sdata bm) off (s + off))),
        Z.of_nat (count_true (range_bits (sdata bm) off (e + off)))).
Proof. apply valueIndexRange_spec. Qed.

Lemma valueIndexRange_counts_witness :
  let bm := mk_slice [255; 1; 170; 85; 255; 0; 7; 224; 129; 24] [9] in
  valueIndexRange bm 3 5 70 2 2 = Ok (5, 30) ∧
  valueIndexRange bm 3 5 70 2 2 =
    Ok (Z.of_nat (count_true (range_bits (sdata bm) 3 8)),
        Z.of_nat (count_true (range_bits (sdata bm) 3 73))).
Proof.
  intros bm. split; [reflexivity|]. apply (valueIndexRange_counts bm 3 5 70 2 2).
  - by_compute.
  - lia.
  - vm_compute. lia.
  - intros _. reflexivity.
Defined.
