(* ===== verification/ColVal.v ===== *)
(** * lib/record: columns

    A column holds the values of one field: the bytes of the values that are
    present ([Val]), for strings the start of every row ([Offset]), and one
    validity bit per row ([Bitmap], starting at bit [BitMapOffset]).

    The model follows column.go, column_util.go and column_string.go: the generic
    functions ([appendValue], [value], [firstValue], ...) take the element type as
    an instance of [BasicType]; the typed methods (AppendInteger, AppendFloat, ...)
    are those functions at [int64], [float64] and [boolean].  The refinement proofs
    are in ColRefine.v and ColStrings.v. *)

From S2P Require Import Prelude GoSlice Bitmap.

(** ** Field types (influx/parser.go) *)

Inductive FieldType :=
| Field_Type_Unknown
| Field_Type_Int
| Field_Type_UInt
| Field_Type_Float
| Field_Type_String
| Field_Type_Boolean
| Field_Type_Tag.

#[export] Instance FieldType_eq_dec : EqDecision FieldType.
Proof. solve_decision. Defined.

(** The element types of [util.ExceptString]: size in bytes, the value of a stored
    word, and the range of the values.  A float is its bit pattern and a boolean
    the byte 0 or 1. *)
Class BasicType := {
  sizeof : nat;
  of_word : Z → Z;
  in_type : Z → Prop;
  sizeof_pos : (0 < sizeof)%nat;
  of_word_stored v : in_type v → of_word (v mod 256 ^ Z.of_nat sizeof) = v;
}.

Definition int64 : BasicType.
Proof.
  refine {| sizeof := 8; of_word := i64; in_type := in_s 64 |}; [lia|].
  intros v Hv. change (256 ^ Z.of_nat 8) with (2 ^ 64). fold (wrap_u 64 v).
  rewrite wrap_s_u by lia. by apply wrap_s_id.
Defined.

Definition float64 : BasicType.
Proof.
  refine {| sizeof := 8; of_word := λ w, w; in_type := in_u 64 |}; [lia|].
  intros v Hv. change (256 ^ Z.of_nat 8) with (2 ^ 64). by apply Z.mod_small.
Defined.

Definition boolean : BasicType.
Proof.
  refine {| sizeof := 1; of_word := λ w, w; in_type := λ v, v = 0 ∨ v = 1 |}; [lia|].
  intros v [->| ->]; reflexivity.
Defined.

(** utils.go typeSize *)
Definition typeSize (typ : FieldType) : nat :=
  match typ with
  | Field_Type_Int => 8
  | Field_Type_Float => 8
  | Field_Type_Boolean => 1
  | _ => 0
  end.

(** ** The column *)

Record ColVal := mk_ColVal {
  Val : slice;
  Offset : slice;
  Bitmap : slice;
  BitMapOffset : nat;
  Len : nat;
  NilCount : Z
}.

Definition set_Val (cv : ColVal) (v : slice) : ColVal :=
  mk_ColVal v (Offset cv) (Bitmap cv) (BitMapOffset cv) (Len cv) (NilCount cv).
Definition set_Offset (cv : ColVal) (o : slice) : ColVal :=
  mk_ColVal (Val cv) o (Bitmap cv) (BitMapOffset cv) (Len cv) (NilCount cv).
Definition set_Bitmap (cv : ColVal) (b : slice) : ColVal :=
  mk_ColVal (Val cv) (Offset cv) b (BitMapOffset cv) (Len cv) (NilCount cv).
Definition add_Len (cv : ColVal) (n : nat) (nils : Z) : ColVal :=
  mk_ColVal (Val cv) (Offset cv) (Bitmap cv) (BitMapOffset cv) (Len cv + n) (NilCount cv + nils).

Definition empty_col : ColVal := mk_ColVal nil_slice nil_slice nil_slice 0 0 0.

(** [l[z]] for an [int] index. *)
Definition indexZ (l : list Z) (z : Z) : res Z :=
  if z <? 0 then Panic else index l (Z.to_nat z).

(** [s[a:b]] for [int] bounds. *)
Definition resliceZ (s : slice) (a b : Z) : res slice :=
  if (a <? 0) || (b <? 0) then Panic else reslice s (Z.to_nat a) (Z.to_nat b).

Section Operations.
Context `{GoRuntime}.

(** ** Buffers *)

(** [append(b[:cap(b)], make([]T, delta)...)[:len(b)+size]] when the spare room is
    short of [size]: column.go reserveOffset and the bitmap growth of PadColVal and
    appendBitmap *)
Definition reserve (b : slice) (size : nat) : res slice :=
  let remain := (scap b - slen b)%nat in
  let! b' :=
    if (remain <? size)%nat then
      let! full := reslice_to b (scap b) in
      Ok (append full (zeros (size - remain)))
    else Ok b in
  reslice_to b' (slen b + size).

(** utils.go reserveBytes *)
Definition reserveBytes (b : slice) (size : nat) : res slice :=
  if (scap b =? 0)%nat then Ok (mk_slice (zeros size) [])
  else reserve b size.

Definition reserveVal (cv : ColVal) (size : nat) : res ColVal :=
  let! v := reserveBytes (Val cv) size in Ok (set_Val cv v).

Definition reserveOffset (cv : ColVal) (size : nat) : res ColVal :=
  let! o := reserve (Offset cv) size in Ok (set_Offset cv o).

Definition reserveValOffset (cv : ColVal) (size : nat) : res ColVal :=
  let o := if (scap (Offset cv) <? size)%nat then mk_slice (zeros size) [] else Offset cv in
  let! o := reslice_to o size in
  Ok (set_Offset cv o).

Definition Init (cv : ColVal) : res ColVal :=
  let! v := reslice_to (Val cv) 0 in
  let! o := reslice_to (Offset cv) 0 in
  let! b := reslice_to (Bitmap cv) 0 in
  Ok (mk_ColVal v o b 0 0 0).

(** ** Validity bits *)

Definition setBitMap (cv : ColVal) (idx : nat) : res ColVal :=
  if (slen (Bitmap cv) <=? (Len cv + BitMapOffset cv) / 8)%nat
  then Ok (set_Bitmap cv (append (Bitmap cv) [1]))
  else let! b := bit_set (Bitmap cv) (idx + BitMapOffset cv) in Ok (set_Bitmap cv b).

Definition resetBitMap (cv : ColVal) (idx : nat) : res ColVal :=
  if (slen (Bitmap cv) <=? (Len cv + BitMapOffset cv) / 8)%nat
  then Ok (set_Bitmap cv (append (Bitmap cv) [0]))
  else let! b := bit_clear (Bitmap cv) (idx + BitMapOffset cv) in Ok (set_Bitmap cv b).

Definition IsNil (cv : ColVal) (i : nat) : res bool :=
  if (Len cv <=? i)%nat || (slen (Bitmap cv) =? 0)%nat then Ok true
  else if NilCount cv =? 0 then Ok false
  else let! b := bit_test (sdata (Bitmap cv)) (BitMapOffset cv + i) in Ok (negb b).

(** The loop of ValidCount: [k] bits from index [i]. *)
Fixpoint count_loop (bm : list Z) (i k : nat) (validCount : Z) : res Z :=
  match k with
  | O => Ok validCount
  | S k =>
      let! b := bit_test bm i in
      count_loop bm (S i) k (if b then validCount + 1 else validCount)
  end.

Definition ValidCount (cv : ColVal) (start end_ : nat) : res Z :=
  if (Z.of_nat (Len cv) + NilCount cv =? 0) || (Z.of_nat (Len cv) =? NilCount cv) then Ok 0
  else if NilCount cv =? 0 then Ok (Z.of_nat end_ - Z.of_nat start)
  else count_loop (sdata (Bitmap cv)) (start + BitMapOffset cv) (end_ - start) 0.

Definition getValIndexRange (cv : ColVal) (bmStart bmEnd : nat) : res (Z * Z) :=
  if NilCount cv =? 0 then Ok (Z.of_nat bmStart, Z.of_nat bmEnd)
  else valueIndexRange (Bitmap cv) (BitMapOffset cv) bmStart bmEnd 0 0.

(** The loop of RowBitmap. *)
Fixpoint row_loop (bm : list Z) (i k : nat) (dst : list bool) : res (list bool) :=
  match k with
  | O => Ok dst
  | S k => let! b := bit_test bm i in row_loop bm (S i) k (dst ++ [b])
  end.

Definition RowBitmap (cv : ColVal) (dst : list bool) : res (list bool) :=
  row_loop (sdata (Bitmap cv)) (BitMapOffset cv) (Len cv) dst.

(** Copying [k] bits one by one: the slow path of appendBitmap. *)
Fixpoint copy_bits (src : list Z) (dst : slice) (cvIndex srcIndex k : nat) : res slice :=
  match k with
  | O => Ok dst
  | S k =>
      let! b := bit_test src srcIndex in
      let! dst := if b then bit_set dst cvIndex else bit_clear dst cvIndex in
      copy_bits src dst (S cvIndex) (S srcIndex) k
  end.

(** The bytes a bitmap of [n] bits gains when [k] bits are added. *)
Definition add_size (n k : nat) : nat := ((n + k + 7) / 8 - (n + 7) / 8)%nat.

Definition grow_bitmap (b : slice) (addSize : nat) : res slice :=
  if (0 <? addSize)%nat then reserve b addSize else Ok b.

Definition appendBitmap (cv : ColVal) (bm : slice) (bitOffset rows start end_ : nat) : res ColVal :=
  let! (bitmap, bitMapOffset) := subBitmapBytes bm bitOffset rows in
  if (((BitMapOffset cv + Len cv) mod 8 =? 0) && ((start + bitMapOffset) mod 8 =? 0))%nat then
    let! bs :=
      if ((end_ + bitMapOffset) mod 8 =? 0)%nat
      then reslice bitmap ((start + bitMapOffset) / 8) ((end_ + bitMapOffset) / 8)
      else reslice bitmap ((start + bitMapOffset) / 8) ((end_ + bitMapOffset) / 8 + 1) in
    Ok (set_Bitmap cv (append (Bitmap cv) (sdata bs)))
  else
    let dstRowIdx := (BitMapOffset cv + Len cv)%nat in
    let! b := grow_bitmap (Bitmap cv) (add_size dstRowIdx (end_ - start)) in
    let! b := copy_bits (sdata bitmap) b dstRowIdx (bitMapOffset + start) (end_ - start) in
    Ok (set_Bitmap cv b).

(** Clearing [k] bits one by one: the loop of PadColVal. *)
Fixpoint clear_bits (b : slice) (i k : nat) : res slice :=
  match k with
  | O => Ok b
  | S k => let! b := bit_clear b i in clear_bits b (S i) k
  end.

Definition PadColVal (cv : ColVal) (colType : FieldType) (padLen : nat) : res ColVal :=
  if (padLen =? 0)%nat then Ok cv
  else
    let cv := if decide (colType = Field_Type_String)
              then set_Offset cv (append (Offset cv) (replicate padLen (u32 (Z.of_nat (slen (Val cv))))))
              else cv in
    let dstRowIdx := (Len cv + BitMapOffset cv)%nat in
    let! b := grow_bitmap (Bitmap cv) (add_size dstRowIdx padLen) in
    let! b := clear_bits b dstRowIdx padLen in
    Ok (add_Len (set_Bitmap cv b) padLen (Z.of_nat padLen)).

(** Zeroing a range of bytes: the loops of PadEmptyCol2AlignBitmap and
    PadEmptyCol2FixBitmap. *)
Definition zero_from (b : slice) (i n : nat) : slice :=
  mk_slice (overwrite (sdata b) i (zeros (n - i))) (sspare b).

Definition PadEmptyCol2AlignBitmap (cv : ColVal) (colType : FieldType)
    (padLen bitMapOffset bitMapLen : nat) : res ColVal :=
  if (padLen =? 0)%nat then Ok cv
  else
    let o := if decide (colType = Field_Type_String) then mk_slice (zeros padLen) [] else Offset cv in
    let! v := reslice_to (Val cv) 0 in
    let! b := reslice_to (Bitmap cv) 0 in
    let! b := reserveBytes b bitMapLen in
    let! b := reslice_to b bitMapLen in
    Ok (mk_ColVal v o (zero_from b 0 bitMapLen) bitMapOffset padLen (Z.of_nat padLen)).

Definition PadEmptyCol2FixBitmap (cv : ColVal) (bitMapOffset bitMapLen : nat) : res ColVal :=
  if (bitMapOffset =? 0)%nat then Ok cv
  else
    let cv := mk_ColVal (Val cv) (Offset cv) (Bitmap cv) bitMapOffset (Len cv) (NilCount cv) in
    let ori := slen (Bitmap cv) in
    if (bitMapLen <=? ori)%nat then Ok cv
    else
      let! b := reserveBytes (Bitmap cv) (bitMapLen - ori) in
      Ok (set_Bitmap cv (zero_from b ori bitMapLen)).

(** ** Fixed-size values (column_util.go) *)

Section Fixed.
Context {T : BasicType}.

Definition values (cv : ColVal) : list Z :=
  of_word <$> words_le sizeof (slen (Val cv) / sizeof) (sdata (Val cv)).

Definition subValues (cv : ColVal) (start end_ : nat) : res (list Z) :=
  let! (s, e) := getValIndexRange cv start end_ in
  if (s <? 0) || (e <? 0) then Panic else between (values cv) (Z.to_nat s) (Z.to_nat e).

(** Storing a [T] through a pointer to [cv.Val[index]]: the bounds check is on the first byte. *)
Definition put (cv : ColVal) (i : nat) (v : Z) : res ColVal :=
  if (i <? slen (Val cv))%nat
  then Ok (set_Val cv (mk_slice (overwrite (sdata (Val cv)) i (le_bytes sizeof v)) (sspare (Val cv))))
  else Panic.

Definition appendValue (cv : ColVal) (v : Z) : res ColVal :=
  let i := slen (Val cv) in
  let! cv := reserveVal cv sizeof in
  let! cv := put cv i v in
  let! cv := setBitMap cv (Len cv) in
  Ok (add_Len cv 1 0).

Fixpoint appendValues (cv : ColVal) (vs : list Z) : res ColVal :=
  match vs with
  | [] => Ok cv
  | v :: vs => let! cv := appendValue cv v in appendValues cv vs
  end.

Definition appendNull (cv : ColVal) : res ColVal :=
  let! cv := resetBitMap cv (Len cv) in
  Ok (add_Len cv 1 1).

Fixpoint appendNulls (cv : ColVal) (count : nat) : res ColVal :=
  match count with
  | O => Ok cv
  | S count => let! cv := appendNull cv in appendNulls cv count
  end.

Definition appendNullReserve (cv : ColVal) : res ColVal :=
  let i := slen (Val cv) in
  let! cv := reserveVal cv sizeof in
  let! cv := put cv i 0 in
  let! cv := resetBitMap cv (Len cv) in
  Ok (add_Len cv 1 1).

(** [values[T](cv)[row] = v] *)
Definition set_value (cv : ColVal) (row : nat) (v : Z) : res ColVal :=
  if (row <? slen (Val cv) / sizeof)%nat
  then Ok (set_Val cv (mk_slice (overwrite (sdata (Val cv)) (row * sizeof) (le_bytes sizeof v))
                         (sspare (Val cv))))
  else Panic.

Definition updateIntoNull (cv : ColVal) (row : nat) : res ColVal :=
  let! isNil := IsNil cv row in
  let! cv := if negb isNil
             then let! cv := set_value cv row 0 in Ok (add_Len cv 0 1)
             else Ok cv in
  let! b := bit_clear (Bitmap cv) row in
  Ok (set_Bitmap cv b).

Definition updateValue (cv : ColVal) (v : Z) (isNil : bool) (row : nat) : res ColVal :=
  if isNil then updateIntoNull cv row
  else
    let! wasNil := IsNil cv row in
    let cv := if wasNil : bool then add_Len cv 0 (-1) else cv in
    let! cv := set_value cv row v in
    let! b := bit_set (Bitmap cv) row in
    Ok (set_Bitmap cv b).

(** [cv.Len--] on a column without rows gives -1, and the slice or the bitmap index
    that follows is out of range. *)
Definition removeLastValue (cv : ColVal) : res ColVal :=
  if ((Len cv =? 0) || (slen (Val cv) <? sizeof))%nat then Panic
  else
    let cv := mk_ColVal (Val cv) (Offset cv) (Bitmap cv) (BitMapOffset cv) (Len cv - 1) (NilCount cv) in
    let! v := reslice_to (Val cv) (slen (Val cv) - sizeof) in
    resetBitMap (set_Val cv v) (Len cv).

Definition value (cv : ColVal) (vs : list Z) (i : nat) : res (Z * bool) :=
  let! isNil := IsNil cv i in
  if isNil : bool then Ok (0, true)
  else
    let! n := ValidCount cv 0 i in
    let! v := indexZ vs n in
    Ok (v, false).
End Fixed.

(** ** First, last, least and greatest value of a row range (column_util.go)

    The result is the value and its row, or the zero value and row -1.  The
    comparisons of minValue and maxValue are those of int64. *)

(** [i] counts up while [k] rows are left; [values[vIdx:]] is the panic of the loop test. *)
Fixpoint first_loop (vs : list Z) (cv : ColVal) (vIdx : Z) (i k : nat) : res (Z * Z) :=
  match k with
  | O => Ok (0, -1)
  | S k =>
      let! rest := if vIdx <? 0 then Panic else from vs (Z.to_nat vIdx) in
      if (length rest =? 0)%nat then Ok (0, -1)
      else
        let! b := bit_test (sdata (Bitmap cv)) (BitMapOffset cv + i) in
        if b : bool then let! v := indexZ vs vIdx in Ok (v, Z.of_nat i)
        else first_loop vs cv vIdx (S i) k
  end.

Definition firstValue (vs : list Z) (start end_ : nat) (cv : ColVal) : res (Z * Z) :=
  if (length vs =? 0)%nat then Ok (0, -1)
  else if NilCount cv =? 0 then let! v := index vs start in Ok (v, Z.of_nat start)
  else
    let! skip := if 0 <? NilCount cv then ValidCount cv 0 start else Ok 0 in
    first_loop vs cv skip start (end_ - start).

(** The row search of lastValue, from row [start + k - 1] down to [start]. *)
Fixpoint last_loop (cv : ColVal) (start k : nat) : res Z :=
  match k with
  | O => Ok (-1)
  | S k =>
      let! b := bit_test (sdata (Bitmap cv)) (BitMapOffset cv + (start + k)) in
      if b : bool then Ok (Z.of_nat (start + k)) else last_loop cv start k
  end.

Definition lastValue (vs : list Z) (start end_ : nat) (cv : ColVal) : res (Z * Z) :=
  if (length vs =? 0)%nat then Ok (0, -1)
  else if NilCount cv =? 0 then
    let! v := indexZ vs (Z.of_nat end_ - 1) in Ok (v, Z.of_nat end_ - 1)
  else
    let! row := last_loop cv start (end_ - start) in
    if row <? Z.of_nat start then Ok (0, -1)
    else
      let! vIdx := ValidCount cv 0 (Z.to_nat row) in
      let! v := indexZ vs vIdx in
      Ok (v, row).

(** minValue and maxValue are the same code with [>] and [<]: [better a b] is the
    comparison that replaces the current value [a] by [b]. *)
Section Extremum.
Variable better : Z → Z → bool.

Fixpoint best_dense_loop (vs : list Z) (best row : Z) (i k : nat) : res (Z * Z) :=
  match k with
  | O => Ok (best, row)
  | S k =>
      let! v := index vs i in
      if better best v then best_dense_loop vs v (Z.of_nat i) (S i) k
      else best_dense_loop vs best row (S i) k
  end.

Fixpoint best_loop (vs : list Z) (cv : ColVal) (skip best row vIdx : Z) (i k : nat) : res (Z * Z) :=
  match k with
  | O => Ok (best, row)
  | S k =>
      let! rest := if vIdx <? 0 then Panic else from vs (Z.to_nat vIdx) in
      if (length rest =? 0)%nat then Ok (best, row)
      else
        let! b := bit_test (sdata (Bitmap cv)) (BitMapOffset cv + i) in
        if negb b then best_loop vs cv skip best row vIdx (S i) k
        else
          let! v := indexZ vs vIdx in
          if vIdx =? skip then best_loop vs cv skip v (Z.of_nat i) (vIdx + 1) (S i) k
          else if better best v then best_loop vs cv skip v (Z.of_nat i) (vIdx + 1) (S i) k
          else best_loop vs cv skip best row (vIdx + 1) (S i) k
  end.

Definition bestValue (vs : list Z) (start end_ : nat) (cv : ColVal) : res (Z * Z) :=
  if (length vs =? 0)%nat then Ok (0, -1)
  else if NilCount cv =? 0 then
    let! v := index vs start in
    best_dense_loop vs v (Z.of_nat start) start (end_ - start)
  else
    let! skip := if 0 <? NilCount cv then ValidCount cv 0 start else Ok 0 in
    best_loop vs cv skip 0 (-1) skip start (end_ - start).
End Extremum.

(** The int64 instances of the generic functions. *)
Definition minValue : list Z → nat → nat → ColVal → res (Z * Z) := bestValue (λ a b, b <? a).
Definition maxValue : list Z → nat → nat → ColVal → res (Z * Z) := bestValue (λ a b, a <? b).

(** ** Strings (column_string.go) *)

Definition set_Offset_at (cv : ColVal) (i : nat) (o : Z) : res ColVal :=
  let! os := store (Offset cv) i o in Ok (set_Offset cv os).

Definition AppendString (cv : ColVal) (v : list Z) : res ColVal :=
  let i := slen (Val cv) in
  let! cv := reserveVal cv (length v) in
  let cv := set_Val cv (mk_slice (overwrite (sdata (Val cv)) i v) (sspare (Val cv))) in
  let! cv := reserveOffset cv 1 in
  let! cv := set_Offset_at cv (Len cv) (u32 (Z.of_nat i)) in
  let! cv := setBitMap cv (Len cv) in
  Ok (add_Len cv 1 0).

Fixpoint AppendStrings (cv : ColVal) (vs : list (list Z)) : res ColVal :=
  match vs with
  | [] => Ok cv
  | v :: vs => let! cv := AppendString cv v in AppendStrings cv vs
  end.

Definition AppendByteSlice (cv : ColVal) (v : list Z) : res ColVal :=
  let cv := set_Offset cv (append (Offset cv) [u32 (Z.of_nat (slen (Val cv)))]) in
  let cv := set_Val cv (append (Val cv) v) in
  let! cv := setBitMap cv (Len cv) in
  Ok (add_Len cv 1 0).

Definition AppendStringNull (cv : ColVal) : res ColVal :=
  let! cv := reserveOffset cv 1 in
  let! cv := set_Offset_at cv (Len cv) (u32 (Z.of_nat (slen (Val cv)))) in
  let! cv := resetBitMap cv (Len cv) in
  Ok (add_Len cv 1 1).

Fixpoint AppendStringNulls (cv : ColVal) (count : nat) : res ColVal :=
  match count with
  | O => Ok cv
  | S count => let! cv := AppendStringNull cv in AppendStringNulls cv count
  end.

(** The bytes of the row that starts at [Offset[i]]: StringValue, StringValueSafe,
    StringValueUnsafe and BytesUnsafe have the same body. *)
Definition row_bytes (cv : ColVal) (i : nat) : res (list Z) :=
  if (S i =? slen (Offset cv))%nat then
    let! off := index (sdata (Offset cv)) i in
    from (sdata (Val cv)) (Z.to_nat off)
  else
    let! s := index (sdata (Offset cv)) i in
    let! e := index (sdata (Offset cv)) (S i) in
    let! b := reslice (Val cv) (Z.to_nat s) (Z.to_nat e) in
    Ok (sdata b).

Definition StringValue (cv : ColVal) (i : nat) : res (list Z * bool) :=
  let! isNil := IsNil cv i in
  if isNil : bool then Ok ([], true)
  else let! b := row_bytes cv i in Ok (b, false).

(** The loop of StringValues: [k] offsets from row [i]. *)
Fixpoint strings_loop (cv : ColVal) (dst : list (list Z)) (i k : nat) : res (list (list Z)) :=
  match k with
  | O => Ok dst
  | S k =>
      let! isNil := IsNil cv i in
      if isNil : bool then strings_loop cv dst (S i) k
      else let! b := row_bytes cv i in strings_loop cv (dst ++ [b]) (S i) k
  end.

Definition StringValues (cv : ColVal) (dst : list (list Z)) : res (list (list Z)) :=
  strings_loop cv dst 0 (slen (Offset cv)).

Fixpoint nondecreasing (l : list Z) : bool :=
  match l with
  | a :: (b :: _) as rest => (a <=? b) && nondecreasing rest
  | _ => true
  end.

Definition ValidString (cv : ColVal) : res bool :=
  if negb (slen (Offset cv) =? Len cv)%nat then Ok false
  else if (Len cv =? 0)%nat then Ok true
  else
    let! exp := index (sdata (Offset cv)) (Len cv - 1) in
    if Z.of_nat (slen (Val cv)) <? exp then Ok false
    else Ok (nondecreasing (sdata (Offset cv))).

(** [cv.Offset[i] -= d] for the rows from [i] on. *)
Fixpoint shift_offsets (o : slice) (i k : nat) (d : Z) : res slice :=
  match k with
  | O => Ok o
  | S k =>
      let! x := index (sdata o) i in
      let! o := store o i (u32 (x - d)) in
      shift_offsets o (S i) k d
  end.

Definition UpdateStringIntoNull (cv : ColVal) (row : nat) : res ColVal :=
  let! (v, isNil) := StringValue cv row in
  let stringLen := if isNil : bool then 0 else Z.of_nat (length v) in
  let cv := if isNil : bool then cv else add_Len cv 0 1 in
  let vals := sdata (Val cv) in
  let! dst := reslice_to (Val cv) 0 in
  let! s := index (sdata (Offset cv)) row in
  let! pre := between vals 0 (Z.to_nat s) in
  let dst := append dst pre in
  let! dst :=
    if (S row <? Len cv)%nat then
      let! e := index (sdata (Offset cv)) (S row) in
      let! post := from vals (Z.to_nat e) in
      Ok (append dst post)
    else Ok dst in
  let! o := shift_offsets (Offset cv) (S row) (Len cv - S row) stringLen in
  let! b := bit_clear (Bitmap cv) row in
  Ok (set_Bitmap (set_Offset (set_Val cv dst) o) b).

Definition UpdateStringValue (cv : ColVal) (v : list Z) (isNil : bool) (row : nat) : res ColVal :=
  if isNil then UpdateStringIntoNull cv row
  else
    let! wasNil := IsNil cv row in
    let cv := if wasNil : bool then add_Len cv 0 (-1) else cv in
    let vals := sdata (Val cv) in
    let! (oValue, _) := StringValue cv row in
    let! dst := reslice_to (Val cv) 0 in
    let dif := Z.of_nat (length oValue) - Z.of_nat (length v) in
    let! s := index (sdata (Offset cv)) row in
    let! pre := between vals 0 (Z.to_nat s) in
    let dst := append (append dst pre) v in
    let! dst :=
      if (S row <? Len cv)%nat then
        let! e := index (sdata (Offset cv)) (S row) in
        let! post := from vals (Z.to_nat e) in
        Ok (append dst post)
      else Ok dst in
    let! o := shift_offsets (Offset cv) (S row) (Len cv - S row) (u32 dif) in
    let! b := bit_set (Bitmap cv) row in
    Ok (set_Bitmap (set_Offset (set_Val cv dst) o) b).

Definition RemoveLastString (cv : ColVal) : res ColVal :=
  if ((Len cv =? 0) || (slen (Offset cv) =? 0))%nat then Panic
  else
    let cv := mk_ColVal (Val cv) (Offset cv) (Bitmap cv) (BitMapOffset cv) (Len cv - 1) (NilCount cv) in
    let lastOffset := (slen (Offset cv) - 1)%nat in
    let! e := index (sdata (Offset cv)) lastOffset in
    let! v := reslice_to (Val cv) (Z.to_nat e) in
    let! o := reslice_to (Offset cv) lastOffset in
    resetBitMap (set_Offset (set_Val cv v) o) (Len cv).

(** ** Appending the rows of another column (column.go) *)

(** The offsets of the appended rows: [offset += offsets[i] - offsets[i-1]] in uint32. *)
Fixpoint append_offsets (dst : slice) (offsets : list Z) (offset : Z) (first : bool) (i k : nat) : res slice :=
  match k with
  | O => Ok dst
  | S k =>
      let! offset :=
        if first then Ok offset
        else
          let! a := index offsets i in
          let! b := index offsets (i - 1) in
          Ok (u32 (offset + u32 (a - b))) in
      append_offsets (append dst [offset]) offsets offset false (S i) k
  end.

Definition appendStringRows (cv : ColVal) (value offsets : slice) (vLen start end_ : nat) : res ColVal :=
  let! o := append_offsets (Offset cv) (sdata offsets) (u32 (Z.of_nat (slen (Val cv)))) true start (end_ - start) in
  let! s := index (sdata offsets) start in
  let! bs :=
    if (end_ =? vLen)%nat then from (sdata value) (Z.to_nat s)
    else
      let! e := index (sdata offsets) end_ in
      let! b := reslice value (Z.to_nat s) (Z.to_nat e) in
      Ok (sdata b) in
  Ok (set_Offset (set_Val cv (append (Val cv) bs)) o).

Definition appendFixedRows (cv : ColVal) (size : nat) (value : slice) (startOffset endOffset : Z) : res ColVal :=
  let! b := resliceZ value (startOffset * Z.of_nat size) (endOffset * Z.of_nat size) in
  Ok (set_Val cv (append (Val cv) (sdata b))).

Definition Append (cv : ColVal) (value offsets bitMap : slice) (bitOffset vLen : nat) (nilCount : Z)
    (colType : FieldType) (start end_ pos : nat) (posValidCount : Z) : res ColVal :=
  if ((end_ <=? start) || (vLen =? 0))%nat then Ok cv
  else if ((end_ - start =? vLen) && (Len cv =? 0))%nat then
    let! (bitmap, bitMapOffset) := subBitmapBytes bitMap bitOffset vLen in
    Ok (mk_ColVal (append (Val cv) (sdata value)) (append (Offset cv) (sdata offsets))
          (append (Bitmap cv) (sdata bitmap)) bitMapOffset vLen nilCount)
  else
    let! (startOffset, endOffset) :=
      if nilCount =? 0 then Ok (Z.of_nat start, Z.of_nat end_)
      else valueIndexRange bitMap bitOffset start end_ pos posValidCount in
    let! cv :=
      match colType with
      | Field_Type_Int => appendFixedRows cv 8 value startOffset endOffset
      | Field_Type_Float => appendFixedRows cv 8 value startOffset endOffset
      | Field_Type_String => appendStringRows cv value offsets vLen start end_
      | Field_Type_Tag => appendStringRows cv value offsets vLen start end_
      | Field_Type_Boolean => appendFixedRows cv 1 value startOffset endOffset
      | _ => Panic
      end in
    let! cv := appendBitmap cv bitMap bitOffset vLen start end_ in
    Ok (add_Len cv (end_ - start)
          (Z.of_nat end_ - Z.of_nat start - (endOffset - startOffset))).

Definition AppendColVal (cv srcCol : ColVal) (colType : FieldType) (start end_ : nat) : res ColVal :=
  Append cv (Val srcCol) (Offset srcCol) (Bitmap srcCol) (BitMapOffset srcCol) (Len srcCol)
    (NilCount srcCol) colType start end_ 0 0.

Definition AppendColValFast (cv srcCol : ColVal) (colType : FieldType) (start end_ pos : nat)
    (posValidCount : Z) : res ColVal :=
  Append cv (Val srcCol) (Offset srcCol) (Bitmap srcCol) (BitMapOffset srcCol) (Len srcCol)
    (NilCount srcCol) colType start end_ pos posValidCount.

Definition AppendAll (cv src : ColVal) : res ColVal :=
  let! (bitmap, bitMapOffset) := subBitmapBytes (Bitmap src) (BitMapOffset src) (Len src) in
  Ok (mk_ColVal (append (Val cv) (sdata (Val src))) (append (Offset cv) (sdata (Offset src)))
        (append (Bitmap cv) (sdata bitmap)) bitMapOffset (Len src) (NilCount src)).

(** ** Slicing and splitting (column.go) *)

Definition sliceBitMap (cv srcCol : ColVal) (start end_ : nat) : res ColVal :=
  let s := (BitMapOffset srcCol + start)%nat in
  let e := (BitMapOffset srcCol + end_)%nat in
  let! b := reslice (Bitmap srcCol) (s / 8) (if (e mod 8 =? 0)%nat then e / 8 else S (e / 8))%nat in
  Ok (mk_ColVal (Val cv) (Offset cv) b (s mod 8) (Len cv) (NilCount cv)).

(** The string rows of sliceValAndOffset: shifted offsets and the count of valid rows. *)
Fixpoint slice_offsets (src : ColVal) (dst : slice) (offsetStart : Z) (idx pos k : nat)
    (validCount : Z) : res (slice * Z) :=
  match k with
  | O => Ok (dst, validCount)
  | S k =>
      let! o := index (sdata (Offset src)) pos in
      let! dst := store dst idx (u32 (o - offsetStart)) in
      let! b := bit_test (sdata (Bitmap src)) (BitMapOffset src + pos) in
      slice_offsets src dst offsetStart (S idx) (S pos) k (if b then validCount + 1 else validCount)
  end.

Definition sliceValAndOffset (cv srcCol : ColVal) (start end_ : nat) (colType : FieldType)
    (valOffset : Z) : res (ColVal * Z * Z) :=
  let fixed size :=
    let! validCount := ValidCount srcCol start end_ in
    let endOffset := valOffset + Z.of_nat size * validCount in
    let! v := resliceZ (Val srcCol) valOffset endOffset in
    Ok (set_Val cv v, endOffset, validCount) in
  match colType with
  | Field_Type_Int => fixed 8%nat
  | Field_Type_Float => fixed 8%nat
  | Field_Type_Boolean => fixed 1%nat
  | Field_Type_String =>
      let! offsetStart := index (sdata (Offset srcCol)) start in
      let! endOffset :=
        if (end_ =? Len srcCol)%nat then Ok (Z.of_nat (slen (Val srcCol)))
        else index (sdata (Offset srcCol)) end_ in
      let! v := resliceZ (Val srcCol) offsetStart endOffset in
      let! cv := reserveValOffset (set_Val cv v) (end_ - start) in
      let! (o, validCount) := slice_offsets srcCol (Offset cv) offsetStart 0 start (end_ - start) 0 in
      Ok (set_Offset cv o, endOffset, validCount)
  | _ => Panic
  end.

(** One segment of Split: rows [start, end_) of [cv] into [dst]. *)
Definition split_segment (cv dst : ColVal) (start end_ : nat) (refType : FieldType) (offset : Z)
    : res (ColVal * Z) :=
  let! (dst, offset, validCount) := sliceValAndOffset dst cv start end_ refType offset in
  let! dst := sliceBitMap dst cv start end_ in
  let len := (end_ - start)%nat in
  Ok (mk_ColVal (Val dst) (Offset dst) (Bitmap dst) (BitMapOffset dst) len (Z.of_nat len - validCount),
      offset).

(** The loop over the segments; [dst] are the columns [resize] returned. *)
Fixpoint split_loop (cv : ColVal) (dst : list ColVal) (maxRows : nat) (refType : FieldType)
    (start : nat) (offset : Z) : res (list ColVal) :=
  match dst with
  | [] => Ok []
  | d :: dst =>
      let end_ := (if Len cv <? start + maxRows then Len cv else start + maxRows)%nat in
      let! (d, offset) := split_segment cv d start end_ refType offset in
      let! rest := split_loop cv dst maxRows refType end_ offset in
      Ok (d :: rest)
  end.

(** [dst] with its spare columns; [resize] reuses them and adds zero columns. *)
Definition resize (dst : list ColVal) (segs : nat) : list ColVal :=
  take segs (dst ++ replicate (segs - length dst) empty_col).

Definition Split (cv : ColVal) (dst : list ColVal) (maxRows : nat) (refType : FieldType) : res (list ColVal) :=
  if (maxRows =? 0)%nat then Panic
  else
    let segs := ((Len cv + maxRows - 1) / maxRows)%nat in
    split_loop cv (resize dst segs) maxRows refType 0 0.

(** ** Time columns (column.go) *)

Definition FillBitmap (cv : ColVal) (val : Z) : res ColVal :=
  let bitmapSize := (if Len cv mod 8 =? 0 then Len cv / 8 else Len cv / 8 + 1)%nat in
  let! b := Resize (Bitmap cv) bitmapSize in
  Ok (set_Bitmap cv (mk_slice (replicate bitmapSize val) (sspare b))).

(** [len(cv.Bitmap)] is read again in every round, since resetBitMap may append. *)
Fixpoint repair_loop (fuel : nat) (cv : ColVal) (i : nat) : res ColVal :=
  match fuel with
  | O => Diverge
  | S fuel =>
      if (i <? 8 * slen (Bitmap cv))%nat
      then let! cv := resetBitMap cv i in repair_loop fuel cv (S i)
      else Ok cv
  end.

Definition RepairBitmap (cv : ColVal) : res ColVal :=
  if (0 <? Len cv mod 8)%nat
  then repair_loop (8 * (slen (Bitmap cv) + (Len cv + BitMapOffset cv) / 8) + 16) cv (Len cv)
  else Ok cv.

Definition AppendTimes (cv : ColVal) (times : list Z) : res ColVal :=
  if (length times =? 0)%nat then Ok cv
  else
    let cv := set_Val cv (append (Val cv) (Int64Slice2byte times)) in
    let cv := add_Len cv (length times) 0 in
    let! cv := FillBitmap cv 255 in
    RepairBitmap cv.
End Operations.
