(* ===== verification/ColRefine.v ===== *)
(** * lib/record: columns refine lists of optional values

    The abstract view of a column is the list of its rows, a value or nothing.
    [bits_rep] relates the validity bitmap to one boolean per row, [fixed_rep] the
    whole column to its rows for the fixed-size element types.  Every operation of
    ColVal.v that grows, reads, slices or aggregates a column is shown to implement
    the list operation it stands for. *)

From S2P Require Import Prelude GoSlice Bitmap ColVal.

Definition present {A} (r : option A) : bool := match r with Some _ => true | None => false end.
Definition validity {A} (rows : list (option A)) : list bool := present <$> rows.
Definition somes {A} (rows : list (option A)) : list A := omap id rows.

Record bits_rep (cv : ColVal) (bs : list bool) : Prop := {
  br_len : Len cv = length bs;
  br_size : slen (Bitmap cv) = ((BitMapOffset cv + Len cv + 7) / 8)%nat;
  br_bytes : slice_ok (Bitmap cv);
  br_bits : range_bits (sdata (Bitmap cv)) (BitMapOffset cv) (BitMapOffset cv + Len cv) = bs;
  br_nils : NilCount cv = Z.of_nat (length bs) - Z.of_nat (count_true bs);
  br_start : Len cv = 0%nat → BitMapOffset cv = 0%nat;
}.

Lemma length_validity {A} (rows : list (option A)) : length (validity rows) = length rows.
Proof. unfold validity. len. Qed.
#[export] Hint Rewrite @length_validity : gemini_len.

Lemma validity_app {A} (r r' : list (option A)) : validity (r ++ r') = validity r ++ validity r'.
Proof. apply fmap_app. Qed.
Lemma somes_app {A} (r r' : list (option A)) : somes (r ++ r') = somes r ++ somes r'.
Proof. apply omap_app. Qed.

Lemma validity_lookup {A} (rows : list (option A)) i r :
  rows !! i = Some r → validity rows !! i = Some (present r).
Proof. intros Hr. unfold validity. by rewrite list_lookup_fmap, Hr. Qed.

Lemma length_somes {A} (rows : list (option A)) : length (somes rows) = count_true (validity rows).
Proof.
  unfold somes, validity. induction rows as [|[a|] rows IH]; [done| |];
    cbn [omap list_omap id length fmap list_fmap present]; rewrite ?count_true_cons, <- IH; done.
Qed.

Lemma somes_take_lookup {A} (rows : list (option A)) i a :
  rows !! i = Some (Some a) → somes rows !! count_true (validity (take i rows)) = Some a.
Proof.
  intros Hi. replace (somes rows) with (somes (take i rows ++ Some a :: drop (S i) rows))
    by by rewrite take_drop_middle.
  rewrite somes_app, <- length_somes. rewrite lookup_app_r by lia.
  by rewrite Nat.sub_diag.
Qed.

Lemma count_true_all bs : count_true bs = length bs → ∀ i b, bs !! i = Some b → b = true.
Proof.
  induction bs as [|[|] bs IH]; intros Hc i b Hi; [done| |].
  - destruct i as [|i]; [by injection Hi as <-|]. rewrite count_true_cons in Hc.
    apply (IH ltac:(cbn in Hc; lia) i b Hi).
  - pose proof (count_true_le bs). rewrite count_true_cons in Hc. cbn in Hc. lia.
Qed.

Lemma count_true_replicate n b : count_true (replicate n b) = if b then n else 0%nat.
Proof.
  induction n; [by destruct b|]. cbn [replicate]. rewrite count_true_cons, IHn. by destruct b.
Qed.

(** ** Reading validity bits *)

Section Reading.
Context (cv : ColVal) (bs : list bool) (Hrep : bits_rep cv bs).

Lemma rep_bits_fit : (BitMapOffset cv + Len cv <= 8 * slen (Bitmap cv))%nat.
Proof.
  destruct Hrep. pose proof (Nat.div_mod_eq (BitMapOffset cv + Len cv + 7) 8).
  pose proof (Nat.mod_upper_bound (BitMapOffset cv + Len cv + 7) 8). lia.
Qed.

Lemma rep_bit i b : bs !! i = Some b → bm_bits (sdata (Bitmap cv)) !! (BitMapOffset cv + i)%nat = Some b.
Proof.
  intros Hi. pose proof (lookup_lt_Some _ _ _ Hi). destruct Hrep as [Hl _ _ Hb _ _].
  rewrite <- Hb in Hi. rewrite range_bits_lookup in Hi by lia. done.
Qed.

Lemma rep_test i b : bs !! i = Some b → bit_test (sdata (Bitmap cv)) (BitMapOffset cv + i) = Ok b.
Proof. intros Hi. by apply bit_test_spec, rep_bit. Qed.

Lemma rep_range s e :
  (s <= e <= Len cv)%nat →
  range_bits (sdata (Bitmap cv)) (s + BitMapOffset cv) (e + BitMapOffset cv) = take (e - s) (drop s bs).
Proof.
  intros Hse. destruct Hrep as [_ _ _ Hb _ _]. rewrite <- Hb. unfold range_bits.
  rewrite skipn_firstn_comm, take_take, drop_drop. f_equal; [lia|f_equal; lia].
Qed.

Lemma IsNil_spec i b : bs !! i = Some b → IsNil cv i = Ok (negb b).
Proof.
  intros Hi. pose proof (lookup_lt_Some _ _ _ Hi) as Hlt. pose proof rep_bits_fit.
  pose proof (rep_test i b Hi) as Ht. destruct Hrep as [Hl _ _ _ Hn _].
  unfold IsNil. destruct (Nat.leb_spec (Len cv) i); [lia|].
  destruct (Nat.eqb_spec (slen (Bitmap cv)) 0); [lia|]. cbn [orb]. bcase.
  - by rewrite (count_true_all bs ltac:(lia) i b Hi).
  - by rewrite Ht.
Qed.

Lemma IsNil_beyond i : (length bs <= i)%nat → IsNil cv i = Ok true.
Proof. intros Hi. unfold IsNil. rewrite (br_len _ _ Hrep). by rewrite (proj2 (Nat.leb_le _ _) Hi). Qed.

Lemma count_loop_spec bm i k n :
  (i + k <= 8 * length bm)%nat →
  count_loop bm i k n = Ok (n + Z.of_nat (count_true (range_bits bm i (i + k)))).
Proof.
  revert i n. induction k as [|k IH]; intros i n Hik; cbn [count_loop].
  - replace (range_bits bm i (i + 0)) with (@nil bool); [cbn; f_equal; lia|].
    unfold range_bits. by replace (i + 0 - i)%nat with 0%nat by lia.
  - destruct (lookup_lt_is_Some_2 (bm_bits bm) i) as [b Hb]; [len|].
    rewrite (bit_test_spec _ _ _ Hb). rs. rewrite IH by lia. f_equal.
    replace (range_bits bm i (i + S k)) with (b :: range_bits bm (S i) (S i + k)).
    + rewrite count_true_cons. destruct b; lia.
    + unfold range_bits. rewrite (drop_S _ b i) by done.
      replace (i + S k - i)%nat with (S k) by lia. replace (S i + k - S i)%nat with k by lia. done.
Qed.

Lemma ValidCount_spec s e :
  (s <= e <= Len cv)%nat → ValidCount cv s e = Ok (Z.of_nat (count_true (take (e - s) (drop s bs)))).
Proof.
  intros Hse. pose proof rep_bits_fit. pose proof (rep_range s e Hse) as Hr.
  destruct Hrep as [Hl _ _ _ Hn _]. pose proof (count_true_le bs).
  pose proof (count_true_split bs s (e - s)) as Hsplit.
  pose proof (count_true_le (take s bs)). pose proof (count_true_le (drop (s + (e - s)) bs)).
  pose proof (count_true_le (take (e - s) (drop s bs))).
  unfold ValidCount.
  destruct ((Z.of_nat (Len cv) + NilCount cv =? 0) || (Z.of_nat (Len cv) =? NilCount cv)) eqn:E1.
  - f_equal. apply orb_true_iff in E1. len.
  - bcase.
    + f_equal. len.
    + rewrite count_loop_spec by (unfold slen in *; lia). f_equal.
      replace (s + BitMapOffset cv + (e - s))%nat with (e + BitMapOffset cv)%nat by lia.
      by rewrite Hr.
Qed.

Lemma getValIndexRange_spec s e :
  (s <= e <= Len cv)%nat →
  getValIndexRange cv s e =
    Ok (Z.of_nat (count_true (take s bs)), Z.of_nat (count_true (take e bs))).
Proof.
  intros Hse. pose proof rep_bits_fit as Hfit.
  pose proof (rep_range 0 s ltac:(lia)) as Hs. pose proof (rep_range 0 e ltac:(lia)) as He.
  destruct Hrep as [Hl Hsz Hok _ Hn _].
  unfold getValIndexRange. bcase.
  - pose proof (count_true_split bs 0 s). pose proof (count_true_split bs 0 e).
    rewrite drop_0, take_0 in *. cbn [Nat.add] in *.
    pose proof (count_true_le (take s bs)). pose proof (count_true_le (drop s bs)).
    pose proof (count_true_le (take e bs)). pose proof (count_true_le (drop e bs)).
    change (count_true []) with 0%nat in *. do 2 f_equal; len.
  - rewrite valueIndexRange_spec; [|auto with gemini|lia| |].
    + cbn [Nat.add] in Hs, He. by rewrite Hs, He, !Nat.sub_0_r, drop_0.
    + rewrite Hsz. apply Nat.Div0.div_le_mono. lia.
    + intros _. unfold range_bits. by replace (0 + BitMapOffset cv - BitMapOffset cv)%nat with 0%nat by lia.
Qed.

Lemma row_loop_spec bm i k dst :
  (i + k <= 8 * length bm)%nat → row_loop bm i k dst = Ok (dst ++ range_bits bm i (i + k)).
Proof.
  revert i dst. induction k as [|k IH]; intros i dst Hik; cbn [row_loop].
  - unfold range_bits. replace (i + 0 - i)%nat with 0%nat by lia. by rewrite app_nil_r.
  - destruct (lookup_lt_is_Some_2 (bm_bits bm) i) as [b Hb]; [len|].
    rewrite (bit_test_spec _ _ _ Hb). rs. rewrite IH by lia. f_equal. rewrite <- app_assoc. f_equal.
    unfold range_bits. rewrite (drop_S _ b i) by done.
    replace (i + S k - i)%nat with (S k) by lia. by replace (S i + k - S i)%nat with k by lia.
Qed.

Lemma RowBitmap_spec dst : RowBitmap cv dst = Ok (dst ++ bs).
Proof.
  pose proof rep_bits_fit. unfold RowBitmap. rewrite row_loop_spec by done.
  by rewrite (br_bits _ _ Hrep).
Qed.
End Reading.

(** ** Writing validity bits *)

Lemma bits_written l i (v : bool) (nb : list bool) l' :
  (i < length l)%nat →
  l' = take (S i) (<[i := v]> l) ++ nb ++ drop (S i + length nb) (<[i := v]> l) →
  l' = take i l ++ (v :: nb) ++ drop (i + length (v :: nb)) l.
Proof.
  intros Hi ->. rewrite (take_S_r _ i v) by by apply list_lookup_insert_eq.
  rewrite take_insert_ge by lia. rewrite drop_insert_lt by lia.
  rewrite <- app_assoc. cbn [app length]. do 3 f_equal. f_equal. lia.
Qed.

(** The bits [nb] written from index [i] on, everything else kept. *)
Definition bits_at (b b' : slice) (i : nat) (nb : list bool) : Prop :=
  bm_bits (sdata b') = take i (bm_bits (sdata b)) ++ nb ++ drop (i + length nb) (bm_bits (sdata b)) ∧
  slen b' = slen b ∧ (slice_ok b → slice_ok b').

Lemma bits_at_nil b i : bits_at b b i [].
Proof. split; [|done]. cbn [app length]. rewrite Nat.add_0_r. by rewrite take_drop. Qed.

Lemma bits_at_cons b b1 b2 i v nb :
  (i < 8 * slen b)%nat → bits_updated b b1 i v → bits_at b1 b2 (S i) nb → bits_at b b2 i (v :: nb).
Proof.
  intros Hi (H1 & Hl1 & Ho1) (H2 & Hl2 & Ho2). split_and!; [|lia|tauto].
  apply bits_written; [unfold slen in *; len|]. by rewrite <- H1.
Qed.

Lemma clear_bits_spec b i k :
  (i + k <= 8 * slen b)%nat →
  ∃ b', clear_bits b i k = Ok b' ∧ bits_at b b' i (replicate k false).
Proof.
  revert b i. induction k as [|k IH]; intros b i Hik; cbn [clear_bits replicate].
  - eauto using bits_at_nil.
  - destruct (bit_clear_spec b i) as (b1 & -> & Hb1); [lia|]. rs.
    destruct (IH b1 (S i)) as (b2 & -> & Hb2).
    { destruct Hb1 as (_ & -> & _). lia. }
    eexists; split; [done|]. eapply bits_at_cons; eauto. lia.
Qed.

Lemma copy_bits_spec src b i j k :
  (i + k <= 8 * slen b)%nat → (j + k <= 8 * length src)%nat →
  ∃ b', copy_bits src b i j k = Ok b' ∧ bits_at b b' i (range_bits src j (j + k)).
Proof.
  revert b i j. induction k as [|k IH]; intros b i j Hi Hj; cbn [copy_bits].
  - eexists; split; [done|]. unfold range_bits. replace (j + 0 - j)%nat with 0%nat by lia.
    apply bits_at_nil.
  - destruct (lookup_lt_is_Some_2 (bm_bits src) j) as [v Hv]; [len|].
    rewrite (bit_test_spec _ _ _ Hv). rs.
    assert (∃ b1, (if v then bit_set b i else bit_clear b i) = Ok b1 ∧ bits_updated b b1 i v)
      as (b1 & -> & Hb1).
    { destruct v; [apply bit_set_spec|apply bit_clear_spec]; lia. }
    rs. destruct (IH b1 (S i) (S j)) as (b2 & -> & Hb2); [|lia|].
    { destruct Hb1 as (_ & -> & _). lia. }
    eexists; split; [done|].
    replace (range_bits src j (j + S k)) with (v :: range_bits src (S j) (S j + k)).
    + eapply bits_at_cons; eauto. lia.
    + unfold range_bits. rewrite (drop_S _ v j) by done.
      replace (j + S k - j)%nat with (S k) by lia. by replace (S j + k - S j)%nat with k by lia.
Qed.

Lemma reserve_spec `{GoRuntime} b size :
  ∃ b', reserve b size = Ok b' ∧ slen b' = (slen b + size)%nat ∧
        take (slen b) (sdata b') = sdata b ∧ (slice_ok b → slice_ok b').
Proof.
  pose proof (slen_le_scap b).
  assert (∃ f, (if (scap b - slen b <? size)%nat then
      let! full := reslice_to b (scap b) in Ok (append full (zeros (size - (scap b - slen b))))
      else Ok b) = Ok f ∧ take (slen b) (sback f) = sdata b ∧ (slen b + size <= scap f)%nat ∧
      (slice_ok b → slice_ok f)) as (f & Hf & Ht & Hc & Ho).
  { bcase.
    - rewrite reslice_to_full. rs. eexists; split; [done|]. split_and!.
      + unfold sback at 1. rewrite sdata_append. cbn [sdata]. unfold sback.
        rewrite <- !app_assoc. apply take_app_length.
      + etransitivity; [|apply slen_le_scap]. rewrite slen_append.
        change (slen (mk_slice (sback b) [])) with (length (sback b)). unfold zeros. len.
      + intros Hb. apply slice_ok_append; [|auto with gemini]. unfold slice_ok, sback at 1.
        cbn [sdata sspare]. by rewrite app_nil_r.
    - eexists; split; [done|]. split_and!; [|lia|done]. unfold sback. apply take_app_length. }
  unfold reserve. rewrite Hf. cbn [res_bind]. rewrite reslice_to_Ok by done.
  eexists; split; [done|]. unfold slen at 1. cbn [sdata]. split_and!.
  - len.
  - rewrite take_take, Nat.min_l by lia. done.
  - intros Hb. unfold slice_ok, sback at 1. cbn [sdata sspare]. rewrite take_drop. by apply Ho.
Qed.

Lemma div8_add n k : ((n + 7) / 8 <= (n + k + 7) / 8)%nat.
Proof. apply Nat.Div0.div_le_mono. lia. Qed.

Lemma grow_bitmap_spec `{GoRuntime} b n k :
  slen b = ((n + 7) / 8)%nat →
  ∃ b', grow_bitmap b (add_size n k) = Ok b' ∧ slen b' = ((n + k + 7) / 8)%nat ∧
        take (slen b) (sdata b') = sdata b ∧ (slice_ok b → slice_ok b').
Proof.
  intros Hb. unfold grow_bitmap, add_size. pose proof (div8_add n k). bcase.
  - destruct (reserve_spec b ((n + k + 7) / 8 - (n + 7) / 8)) as (b' & -> & Hl & Ht & Ho).
    eexists; split; [done|]. split_and!; [lia|done|done].
  - eexists; split; [done|]. split_and!; [lia| |done]. by apply take_ge.
Qed.

Lemma bits_at_read b b' i nb :
  bits_at b b' i nb → (i <= 8 * slen b)%nat →
  take i (bm_bits (sdata b')) = take i (bm_bits (sdata b)) ∧
  range_bits (sdata b') i (i + length nb) = nb.
Proof.
  intros (Hb & _ & _) Hi. unfold range_bits. rewrite Hb.
  assert (Hl : i = length (take i (bm_bits (sdata b)))) by (unfold slen in *; len). split.
  - by rewrite (take_app_length' _ _ i).
  - rewrite (drop_app_length' _ _ i) by done. apply take_app_length'. lia.
Qed.

(** A bitmap that keeps the rows of [cv] and continues with the bits [nb]. *)
Lemma bits_rep_grow cv bs b' nb v o k nils :
  bits_rep cv bs → k = length nb →
  slen b' = ((BitMapOffset cv + Len cv + k + 7) / 8)%nat → slice_ok b' →
  take (BitMapOffset cv + Len cv) (bm_bits (sdata b')) =
    take (BitMapOffset cv + Len cv) (bm_bits (sdata (Bitmap cv))) →
  range_bits (sdata b') (BitMapOffset cv + Len cv) (BitMapOffset cv + Len cv + k) = nb →
  nils = Z.of_nat k - Z.of_nat (count_true nb) →
  bits_rep (mk_ColVal v o b' (BitMapOffset cv) (Len cv + k) (NilCount cv + nils)) (bs ++ nb).
Proof.
  intros [Hl Hsz Hok Hb Hn Hst] -> Hsz' Hok' Htake Hnew ->. split; cbn [Len BitMapOffset Bitmap NilCount].
  - len.
  - rewrite Hsz'. f_equal. lia.
  - done.
  - rewrite (range_bits_app _ _ (BitMapOffset cv + Len cv)) by lia.
    rewrite Nat.add_assoc, Hnew. f_equal. rewrite <- Hb. unfold range_bits.
    replace (BitMapOffset cv + Len cv - BitMapOffset cv)%nat with (Len cv) by lia.
    pose proof (f_equal (drop (BitMapOffset cv)) Htake) as Hd.
    rewrite !skipn_firstn_comm in Hd. by replace (BitMapOffset cv + Len cv - BitMapOffset cv)%nat with (Len cv) in Hd by lia.
  - rewrite Hn, count_true_app. len.
  - intros H0. apply Hst. lia.
Qed.

Lemma take_bits_prefix b b' n :
  take (slen b) (sdata b') = sdata b → (n <= 8 * slen b)%nat →
  take n (bm_bits (sdata b')) = take n (bm_bits (sdata b)).
Proof.
  intros Ht Hn. rewrite <- Ht, bm_bits_take, take_take. f_equal. lia.
Qed.

Lemma bits_rep_push `{GoRuntime} cv bs (v : bool) (op : slice → nat → res slice) x :
  bits_rep cv bs →
  (∀ b i, (i < 8 * slen b)%nat → ∃ b', op b i = Ok b' ∧ bits_updated b b' i v) →
  in_u 8 x → Z.testbit x 0 = v →
  ∃ b', (if (slen (Bitmap cv) <=? (Len cv + BitMapOffset cv) / 8)%nat
         then Ok (set_Bitmap cv (append (Bitmap cv) [x]))
         else let! b := op (Bitmap cv) (Len cv + BitMapOffset cv)%nat in Ok (set_Bitmap cv b)) =
        Ok (set_Bitmap cv b') ∧
  ∀ va o, bits_rep (mk_ColVal va o b' (BitMapOffset cv) (Len cv + 1) (NilCount cv + if v then 0 else 1))
            (bs ++ [v]).
Proof.
  intros Hrep Hop Hx Hv. pose proof (rep_bits_fit _ _ Hrep) as Hfit. set (n := (BitMapOffset cv + Len cv)%nat) in *.
  replace (Len cv + BitMapOffset cv)%nat with n by (unfold n; lia).
  pose proof (br_size _ _ Hrep) as Hsz. pose proof (br_bytes _ _ Hrep) as Hok. fold n in Hsz.
  pose proof (Nat.div_mod_eq n 8). pose proof (Nat.mod_upper_bound n 8).
  pose proof (Nat.div_mod_eq (n + 7) 8). pose proof (Nat.mod_upper_bound (n + 7) 8).
  assert (Hsz1 : ((n + 1 + 7) / 8 = S (n / 8))%nat).
  { replace (n + 1 + 7)%nat with (n + 1 * 8)%nat by lia. rewrite Nat.div_add by lia. lia. }
  assert (Hnil : (if v then 0 else 1) = Z.of_nat 1 - Z.of_nat (count_true [v])) by by destruct v.
  bcase.
  - eexists; split; [done|]. intros va o. eapply bits_rep_grow; eauto; fold n.
    + rewrite slen_append, Hsz1. cbn [length]. lia.
    + apply slice_ok_append; [done|]. by constructor.
    + rewrite sdata_append, bm_bits_app. apply take_app_le. unfold slen in *. len.
    + unfold range_bits. rewrite sdata_append, bm_bits_app, drop_app_ge by (unfold slen in *; len).
      replace (n - length (bm_bits (sdata (Bitmap cv))))%nat with 0%nat by (unfold slen in *; len).
      replace (n + 1 - n)%nat with 1%nat by lia. rewrite <- Hv. reflexivity.
  - destruct (Hop (Bitmap cv) n) as (b' & -> & Hup); [lia|]. rs. eexists; split; [done|].
    intros va o. pose proof (bits_at_cons (Bitmap cv) b' b' n v [] ltac:(lia) Hup (bits_at_nil b' (S n))) as Hat.
    destruct (bits_at_read _ _ _ _ Hat) as [Ht Hr]; [lia|]. destruct Hup as (_ & Hl & Hok').
    eapply bits_rep_grow; eauto; fold n. lia.
Qed.

Lemma setBitMap_spec `{GoRuntime} cv bs :
  bits_rep cv bs →
  ∃ b', setBitMap cv (Len cv) = Ok (set_Bitmap cv b') ∧
  ∀ va o, bits_rep (mk_ColVal va o b' (BitMapOffset cv) (Len cv + 1) (NilCount cv + 0)) (bs ++ [true]).
Proof. intros Hrep. apply (bits_rep_push cv bs true bit_set 1 Hrep bit_set_spec); by_compute. Qed.

Lemma resetBitMap_spec `{GoRuntime} cv bs :
  bits_rep cv bs →
  ∃ b', resetBitMap cv (Len cv) = Ok (set_Bitmap cv b') ∧
  ∀ va o, bits_rep (mk_ColVal va o b' (BitMapOffset cv) (Len cv + 1) (NilCount cv + 1)) (bs ++ [false]).
Proof. intros Hrep. apply (bits_rep_push cv bs false bit_clear 0 Hrep bit_clear_spec); by_compute. Qed.

(** ** Sub-ranges of a bitmap *)

Lemma ceil8 e : (if negb (e mod 8 =? 0) then e / 8 + 1 else e / 8)%nat = ((e + 7) / 8)%nat.
Proof.
  pose proof (Nat.div_mod_eq e 8). pose proof (Nat.mod_upper_bound e 8).
  pose proof (Nat.div_mod_eq (e + 7) 8). pose proof (Nat.mod_upper_bound (e + 7) 8).
  destruct (Nat.eqb_spec (e mod 8) 0); cbn [negb]; lia.
Qed.

Lemma div8_le s e : (s <= e)%nat → (s / 8 <= (e + 7) / 8)%nat.
Proof. intros. apply Nat.Div0.div_le_mono. lia. Qed.

(** Whole bytes around the bit range [s, e): the bits are found again relative to
    [s mod 8]. *)
Lemma reslice_bits bm s e :
  (s <= e)%nat → ((e + 7) / 8 <= slen bm)%nat →
  ∃ sub, reslice bm (s / 8) ((e + 7) / 8) = Ok sub ∧ (slice_ok bm → slice_ok sub) ∧
    slen sub = ((s mod 8 + (e - s) + 7) / 8)%nat ∧
    ∀ a b, (a <= b)%nat → (s + b <= e)%nat →
      range_bits (sdata sub) (s mod 8 + a) (s mod 8 + b) = range_bits (sdata bm) (s + a) (s + b).
Proof.
  intros Hse Hl. destruct (reslice_spec bm (s / 8) ((e + 7) / 8)) as (sub & He & Hd);
    [by apply div8_le|done|].
  exists sub. split; [done|]. split; [intros; by eapply slice_ok_reslice|].
  pose proof (Nat.div_mod_eq s 8). pose proof (Nat.mod_upper_bound s 8).
  pose proof (Nat.div_mod_eq (e + 7) 8). pose proof (Nat.mod_upper_bound (e + 7) 8).
  pose proof (Nat.div_mod_eq (s mod 8 + (e - s) + 7) 8).
  pose proof (Nat.mod_upper_bound (s mod 8 + (e - s) + 7) 8). split.
  - unfold slen in *. rewrite Hd. len.
  - intros a b Hab Hb. rewrite Hd. unfold range_bits. rewrite bm_bits_take, bm_bits_drop.
    rewrite skipn_firstn_comm, drop_drop, take_take. f_equal; [lia|f_equal; lia].
Qed.

Lemma subBitmapBytes_spec bm off n :
  ((off + n + 7) / 8 <= slen bm)%nat →
  ∃ sub, subBitmapBytes bm off n = Ok (sub, (off mod 8)%nat) ∧ (slice_ok bm → slice_ok sub) ∧
    slen sub = ((off mod 8 + n + 7) / 8)%nat ∧
    ∀ a b, (a <= b <= n)%nat →
      range_bits (sdata sub) (off mod 8 + a) (off mod 8 + b) = range_bits (sdata bm) (off + a) (off + b).
Proof.
  intros Hl. destruct (reslice_bits bm off (off + n)) as (sub & He & Hok & Hs & Hr); [lia|done|].
  exists sub. split_and!; [|done| |].
  - unfold subBitmapBytes. rewrite <- ceil8 in He.
    destruct (negb ((off + n) mod 8 =? 0)%nat); rewrite He; done.
  - rewrite Hs. do 2 f_equal. lia.
  - intros. apply Hr; lia.
Qed.

Lemma range_bits_append `{GoRuntime} b xs n k :
  n = (8 * slen b)%nat → (k <= 8 * length xs)%nat →
  range_bits (sdata (append b xs)) n (n + k) = take k (bm_bits xs).
Proof.
  intros -> Hk. unfold range_bits. rewrite sdata_append, bm_bits_app.
  rewrite drop_app_length' by (unfold slen; len). f_equal. lia.
Qed.

(** The fast path of appendBitmap: both sides start at a byte boundary. *)
Lemma append_bytes_bits `{GoRuntime} cv bs sub s e :
  bits_rep cv bs → slice_ok sub → (s <= e)%nat → ((e + 7) / 8 <= slen sub)%nat →
  ((BitMapOffset cv + Len cv) mod 8 = 0)%nat → (s mod 8 = 0)%nat →
  let nb := range_bits (sdata sub) s e in
  ∃ x, (if (e mod 8 =? 0)%nat then reslice sub (s / 8) (e / 8)
        else reslice sub (s / 8) (e / 8 + 1)) = Ok x ∧
  ∀ va o, bits_rep (mk_ColVal va o (append (Bitmap cv) (sdata x)) (BitMapOffset cv) (Len cv + (e - s))
                      (NilCount cv + (Z.of_nat (e - s) - Z.of_nat (count_true nb)))) (bs ++ nb).
Proof.
  intros Hrep Hsub Hse Hl En Es nb.
  destruct (reslice_bits sub s e Hse Hl) as (x & Hx & Hxok & Hxs & Hxr).
  exists x. split; [rewrite <- ceil8 in Hx; by destruct (e mod 8 =? 0)%nat|]. intros va o.
  pose proof (rep_bits_fit _ _ Hrep) as Hfit. pose proof (br_size _ _ Hrep) as Hsz.
  pose proof (br_bytes _ _ Hrep) as Hok. set (n := (BitMapOffset cv + Len cv)%nat) in *.
  rewrite Es in Hxs, Hxr. cbn [Nat.add] in Hxs, Hxr.
  pose proof (Nat.div_mod_eq n 8). pose proof (Nat.div_mod_eq (n + 7) 8).
  pose proof (Nat.mod_upper_bound (n + 7) 8).
  pose proof (Nat.div_mod_eq (n + (e - s) + 7) 8). pose proof (Nat.mod_upper_bound (n + (e - s) + 7) 8).
  pose proof (Nat.div_mod_eq (e - s + 7) 8). pose proof (Nat.mod_upper_bound (e - s + 7) 8).
  pose proof (Nat.div_mod_eq (e + 7) 8). pose proof (Nat.mod_upper_bound (e + 7) 8).
  assert (Hr : range_bits (sdata (append (Bitmap cv) (sdata x))) n (n + (e - s)) = nb).
  { rewrite range_bits_append; [|lia|unfold slen in Hxs; lia].
    specialize (Hxr 0%nat (e - s)%nat ltac:(lia) ltac:(lia)).
    unfold range_bits at 1 in Hxr. rewrite Nat.sub_0_r, drop_0 in Hxr. rewrite Hxr. unfold nb.
    f_equal; lia. }
  eapply bits_rep_grow; eauto; fold n.
  - unfold nb. rewrite length_range_bits; [done|]. unfold slen in *. lia.
  - rewrite slen_append. unfold slen in Hxs. lia.
  - apply slice_ok_append; auto with gemini.
  - rewrite sdata_append, bm_bits_app. apply take_app_le. unfold slen in *. len.
Qed.

(** The slow path: grow the bitmap, then copy bit by bit. *)
Lemma append_copied_bits `{GoRuntime} cv bs sub s k :
  bits_rep cv bs → (s + k <= 8 * length sub)%nat →
  let nb := range_bits sub s (s + k) in
  let n := (BitMapOffset cv + Len cv)%nat in
  ∃ b1 b2, grow_bitmap (Bitmap cv) (add_size n k) = Ok b1 ∧ copy_bits sub b1 n s k = Ok b2 ∧
  ∀ va o, bits_rep (mk_ColVal va o b2 (BitMapOffset cv) (Len cv + k)
                      (NilCount cv + (Z.of_nat k - Z.of_nat (count_true nb)))) (bs ++ nb).
Proof.
  intros Hrep Hl nb n. pose proof (rep_bits_fit _ _ Hrep) as Hfit.
  pose proof (br_size _ _ Hrep) as Hsz. pose proof (br_bytes _ _ Hrep) as Hok. fold n in Hsz, Hfit.
  destruct (grow_bitmap_spec (Bitmap cv) n k Hsz) as (b1 & Hb1 & Hl1 & Ht1 & Ho1).
  pose proof (Nat.div_mod_eq (n + k + 7) 8). pose proof (Nat.mod_upper_bound (n + k + 7) 8).
  destruct (copy_bits_spec sub b1 n s k) as (b2 & Hb2 & Hat); [lia|done|].
  exists b1, b2. split_and!; [done|done|]. intros va o. fold nb in Hat.
  assert (Hnb : length nb = k) by (unfold nb; rewrite length_range_bits; lia).
  destruct (bits_at_read _ _ _ _ Hat) as [Ht Hr]; [lia|]. rewrite Hnb in Hr.
  destruct Hat as (_ & Hl2 & Ho2).
  eapply bits_rep_grow; eauto; fold n; [lia|]. rewrite Ht. by apply take_bits_prefix.
Qed.

(** appendBitmap appends the validity bits of rows [s, e) of the source, whether it
    copies bytes (both sides byte aligned) or bit by bit. *)
Lemma appendBitmap_spec `{GoRuntime} cv bs bm off rows s e :
  bits_rep cv bs → slice_ok bm → ((off + rows + 7) / 8 <= slen bm)%nat → (s <= e <= rows)%nat →
  let nb := range_bits (sdata bm) (off + s) (off + e) in
  ∃ b', appendBitmap cv bm off rows s e = Ok (set_Bitmap cv b') ∧
  ∀ va o, bits_rep (mk_ColVal va o b' (BitMapOffset cv) (Len cv + (e - s))
                      (NilCount cv + (Z.of_nat (e - s) - Z.of_nat (count_true nb)))) (bs ++ nb).
Proof.
  intros Hrep Hbm Hl Hse nb. unfold appendBitmap.
  destruct (subBitmapBytes_spec bm off rows Hl) as (sub & -> & Hsub & Hss & Hsr). rs. specialize (Hsub Hbm).
  set (o8 := (off mod 8)%nat) in *.
  pose proof (Nat.div_mod_eq (o8 + rows + 7) 8). pose proof (Nat.mod_upper_bound (o8 + rows + 7) 8).
  assert (Hnb : nb = range_bits (sdata sub) (s + o8) (e + o8)).
  { unfold nb. rewrite <- Hsr by lia. f_equal; lia. }
  rewrite Hnb. clear Hnb Hsr nb.
  destruct (((BitMapOffset cv + Len cv) mod 8 =? 0) && ((s + o8) mod 8 =? 0))%nat eqn:Efast.
  - apply andb_true_iff in Efast as [En Es]. apply Nat.eqb_eq in En, Es.
    destruct (append_bytes_bits cv bs sub (s + o8) (e + o8) Hrep Hsub) as (x & -> & Hx);
      [lia|rewrite Hss; apply Nat.Div0.div_le_mono; lia|done|done|].
    rs. eexists; split; [done|]. by replace (e + o8 - (s + o8))%nat with (e - s)%nat in Hx by lia.
  - destruct (append_copied_bits cv bs (sdata sub) (o8 + s) (e - s) Hrep) as (b1 & b2 & -> & Hb2 & Hx).
    { unfold slen in Hss. lia. }
    rs. rewrite Hb2. rs. eexists; split; [done|].
    replace (o8 + s + (e - s))%nat with (e + o8)%nat in Hx by lia.
    by replace (o8 + s)%nat with (s + o8)%nat in Hx by lia.
Qed.

(** PadColVal: [k] cleared bits. *)
Lemma pad_bits `{GoRuntime} cv bs k :
  bits_rep cv bs →
  let n := (Len cv + BitMapOffset cv)%nat in
  ∃ b1 b2, grow_bitmap (Bitmap cv) (add_size n k) = Ok b1 ∧ clear_bits b1 n k = Ok b2 ∧
  ∀ va o, bits_rep (mk_ColVal va o b2 (BitMapOffset cv) (Len cv + k) (NilCount cv + Z.of_nat k))
            (bs ++ replicate k false).
Proof.
  intros Hrep n. pose proof (rep_bits_fit _ _ Hrep) as Hfit.
  pose proof (br_size _ _ Hrep) as Hsz. pose proof (br_bytes _ _ Hrep) as Hok.
  rewrite (Nat.add_comm (BitMapOffset cv)) in Hsz, Hfit. fold n in Hsz, Hfit.
  destruct (grow_bitmap_spec (Bitmap cv) n k Hsz) as (b1 & Hb1 & Hl1 & Ht1 & Ho1).
  pose proof (Nat.div_mod_eq (n + k + 7) 8). pose proof (Nat.mod_upper_bound (n + k + 7) 8).
  destruct (clear_bits_spec b1 n k) as (b2 & Hb2 & Hat); [lia|].
  exists b1, b2. split_and!; [done|done|]. intros va o.
  destruct (bits_at_read _ _ _ _ Hat) as [Ht Hr]; [lia|]. rewrite length_replicate in Hr.
  destruct Hat as (_ & Hl2 & Ho2).
  eapply bits_rep_grow; eauto; rewrite ?(Nat.add_comm (BitMapOffset cv) (Len cv)); fold n.
  - len.
  - lia.
  - rewrite Ht. by apply take_bits_prefix.
  - exact Hr.
  - by rewrite count_true_replicate, Z.sub_0_r.
Qed.

(** The whole source column into an empty one: the bytes around its bits. *)
Lemma copy_all_bits `{GoRuntime} cv src bs :
  bits_rep cv [] → bits_rep src bs → (0 < length bs)%nat →
  ∃ sub, subBitmapBytes (Bitmap src) (BitMapOffset src) (Len src) = Ok (sub, (BitMapOffset src mod 8)%nat) ∧
  ∀ va o, bits_rep (mk_ColVal va o (append (Bitmap cv) (sdata sub)) (BitMapOffset src mod 8)
                      (Len src) (NilCount src)) bs.
Proof.
  intros Hcv Hsrc Hpos. destruct Hsrc as [Hl Hsz Hok Hb Hn _].
  destruct (subBitmapBytes_spec (Bitmap src) (BitMapOffset src) (Len src)) as (sub & -> & Hsok & Hss & Hsr);
    [lia|].
  eexists; split; [done|]. intros va o. destruct Hcv as [Hl0 Hsz0 Hok0 _ _ Hst]. cbn [length] in Hl0.
  rewrite Hl0, (Hst Hl0) in Hsz0. change (slen (Bitmap cv) = 0%nat) in Hsz0.
  apply length_zero_iff_nil in Hsz0.
  split; cbn [Len BitMapOffset Bitmap NilCount]; try done.
  - unfold slen. rewrite sdata_append, Hsz0. cbn [app]. exact Hss.
  - apply slice_ok_append; auto with gemini.
  - rewrite sdata_append, Hsz0. cbn [app]. specialize (Hsr 0%nat (Len src) ltac:(lia)).
    rewrite !Nat.add_0_r in Hsr. by rewrite Hsr.
  - lia.
Qed.

(** The value indexes of rows [s] and [e], starting from a known count at [pos]. *)
Lemma hinted_range src bs s e pos cnt :
  bits_rep src bs → (s <= e <= Len src)%nat →
  ((pos <= s)%nat → cnt = Z.of_nat (count_true (take pos bs))) →
  (if NilCount src =? 0 then Ok (Z.of_nat s, Z.of_nat e)
   else valueIndexRange (Bitmap src) (BitMapOffset src) s e pos cnt) =
  Ok (Z.of_nat (count_true (take s bs)), Z.of_nat (count_true (take e bs))).
Proof.
  intros Hrep Hse Hcnt. pose proof (getValIndexRange_spec src bs Hrep s e Hse) as Hg.
  unfold getValIndexRange in Hg. destruct (NilCount src =? 0); [done|]. rewrite <- Hg.
  destruct Hrep as [Hl Hsz Hok Hb _ _]. rewrite !valueIndexRange_spec; auto with gemini; try lia.
  - rewrite Hsz. apply Nat.Div0.div_le_mono. lia.
  - intros _. unfold range_bits. by replace (0 + BitMapOffset src - BitMapOffset src)%nat with 0%nat by lia.
  - rewrite Hsz. apply Nat.Div0.div_le_mono. lia.
  - intros Hpos. rewrite (Hcnt Hpos). do 2 f_equal. rewrite <- Hb. unfold range_bits. rewrite take_take.
    f_equal. lia.
Qed.

(** ** Segments

    The loop of Split, for any relation [R] between a column and its rows that one
    segment establishes, [inv] being what is known of the value offset at a row. *)

Fixpoint chunks {A} (n k : nat) (l : list A) : list (list A) :=
  match k with
  | O => []
  | S k => take n l :: chunks n k (drop n l)
  end.

Lemma concat_chunks {A} n k (l : list A) : (length l <= k * n)%nat → concat (chunks n k l) = l.
Proof.
  revert l. induction k as [|k IH]; intros l Hl; cbn.
  - symmetry. apply length_zero_iff_nil. lia.
  - rewrite IH by len. apply take_drop.
Qed.

Lemma length_chunks {A} n k (l : list A) : Forall (λ p, length p <= n)%nat (chunks n k l).
Proof. revert l. induction k; intros l; constructor; [len|auto]. Qed.

Section Segments.
Context {A : Type} (R : ColVal → list A → Prop) (inv : nat → Z → Prop).
Context (cv : ColVal) (rows : list A) (ft : FieldType) (Hlen : Len cv = length rows).
Hypothesis segment : ∀ d s e off, (s < e <= Len cv)%nat → inv s off →
  ∃ col off', split_segment cv d s e ft off = Ok (col, off') ∧ inv e off' ∧ R col (take (e - s) (drop s rows)).

Lemma split_loop_segments maxRows dst start off :
  (start <= Len cv)%nat → inv start off →
  (Len cv - start <= length dst * maxRows)%nat → (length dst * maxRows < Len cv - start + maxRows)%nat →
  ∃ out, split_loop cv dst maxRows ft start off = Ok out ∧
         Forall2 R out (chunks maxRows (length dst) (drop start rows)).
Proof.
  revert start off. induction dst as [|d dst IH]; intros start off Hs Hi H1 H2; cbn [split_loop].
  - eexists; split; [done|]. constructor.
  - set (e := (if Len cv <? start + maxRows then Len cv else start + maxRows)%nat).
    assert (He : (start < e <= Len cv)%nat ∧ (e = start + maxRows ∨ e = Len cv ∧ Len cv < start + maxRows)%nat).
    { unfold e. cbn [length] in *. bcase; nia. }
    clearbody e. destruct (segment d start e off) as (col & off' & -> & Hi' & Hcol); [lia|done|]. rs.
    destruct (IH e off') as (out & -> & Hout).
    + lia.
    + done.
    + cbn [length] in *. destruct He as [_ [-> | [-> ?]]]; nia.
    + cbn [length] in *. destruct He as [_ [-> | [-> ?]]]; [nia|]. destruct dst; cbn [length] in *; nia.
    + rs. eexists; split; [done|]. cbn [length chunks]. constructor.
      * replace (take maxRows (drop start rows)) with (take (e - start) (drop start rows)); [done|].
        destruct He as [_ [-> | [-> ?]]]; [f_equal; lia|]. rewrite !take_ge by len. done.
      * rewrite drop_drop. destruct He as [_ [-> | [-> ?]]]; [done|].
        assert (Hd : length dst = 0%nat) by (cbn [length] in *; nia). rewrite Hd in *. done.
Qed.

Lemma resize_length dst segs : length (resize dst segs) = segs.
Proof. unfold resize. len. Qed.

Lemma Split_segments dst maxRows :
  inv 0%nat 0 → (0 < maxRows)%nat →
  ∃ out parts, Split cv dst maxRows ft = Ok out ∧ Forall2 R out parts ∧
    concat parts = rows ∧ Forall (λ p, length p <= maxRows)%nat parts.
Proof.
  intros Hi Hm. set (segs := ((Len cv + maxRows - 1) / maxRows)%nat).
  assert (Hseg : (Len cv <= segs * maxRows < Len cv + maxRows)%nat).
  { pose proof (Nat.div_mod_eq (Len cv + maxRows - 1) maxRows).
    pose proof (Nat.mod_upper_bound (Len cv + maxRows - 1) maxRows). unfold segs. nia. }
  unfold Split. bcase. fold segs.
  destruct (split_loop_segments maxRows (resize dst segs) 0 0) as (out & -> & Hout);
    try done; rewrite ?resize_length; try lia.
  rewrite resize_length, drop_0 in Hout. exists out, (chunks maxRows segs rows).
  split_and!; [done|done|apply concat_chunks; lia|apply length_chunks].
Qed.
End Segments.

Lemma validity_take {A} n (rows : list (option A)) : validity (take n rows) = take n (validity rows).
Proof. apply fmap_take. Qed.
Lemma validity_drop {A} n (rows : list (option A)) : validity (drop n rows) = drop n (validity rows).
Proof. apply fmap_drop. Qed.

Lemma rows_range_bits {A} src (srows : list (option A)) s e :
  bits_rep src (validity srows) → (s <= e <= Len src)%nat →
  range_bits (sdata (Bitmap src)) (BitMapOffset src + s) (BitMapOffset src + e) =
  validity (take (e - s) (drop s srows)).
Proof.
  intros Hb Hse. rewrite !(Nat.add_comm (BitMapOffset src)), (rep_range src _ Hb) by done.
  by rewrite <- validity_drop, <- validity_take.
Qed.

Lemma somes_range {A} (rows : list (option A)) s e :
  (s <= e)%nat → somes (take e rows) = somes (take s rows) ++ somes (take (e - s) (drop s rows)).
Proof. intros. rewrite <- somes_app, take_drop_app. do 2 f_equal. lia. Qed.

Lemma count_range_diff {A} (rows : list (option A)) s e :
  (s <= e)%nat →
  Z.of_nat (count_true (take e (validity rows))) - Z.of_nat (count_true (take s (validity rows))) =
  Z.of_nat (count_true (validity (take (e - s) (drop s rows)))).
Proof.
  intros Hse. rewrite <- !validity_take, <- !length_somes, (somes_range rows s e) by done. len.
Qed.

(** ** Fixed-size columns *)

Section Fixed.
Context `{GoRuntime} {T : BasicType}.

Record fixed_rep (cv : ColVal) (rows : list (option Z)) : Prop := {
  fr_bits : bits_rep cv (validity rows);
  fr_vals : sdata (Val cv) = bytes_le sizeof (somes rows);
  fr_type : Forall in_type (somes rows);
}.

Lemma fixed_rep_empty : fixed_rep empty_col [].
Proof. split; [|done|constructor]. split; try done. by_compute. Qed.

Lemma words_stored vs :
  Forall in_type vs → of_word <$> words_le sizeof (length vs) (bytes_le sizeof vs) = vs.
Proof.
  intros Hvs. rewrite <- (app_nil_r (bytes_le sizeof vs)), words_le_bytes, <- list_fmap_compose.
  rewrite <- (list_fmap_id vs) at 2. apply list_fmap_ext. intros i v Hi.
  apply of_word_stored. by eapply Forall_lookup_1.
Qed.

Lemma values_spec cv rows : fixed_rep cv rows → values cv = somes rows.
Proof.
  intros [_ Hv Ht]. unfold values, slen. rewrite Hv, length_bytes_le. pose proof sizeof_pos.
  rewrite Nat.mul_comm, Nat.div_mul by lia. by apply words_stored.
Qed.

Lemma index_somes rows i v :
  rows !! i = Some (Some v) →
  indexZ (somes rows) (Z.of_nat (count_true (validity (take i rows)))) = Ok v.
Proof.
  intros Hi. unfold indexZ. bcase. rewrite Nat2Z.id. apply index_Ok. by apply somes_take_lookup.
Qed.

(** Reading row [i]: its value, or the zero value flagged as null. *)
Definition row_view (rows : list (option Z)) (i : nat) : Z * bool :=
  match rows !! i with
  | Some (Some v) => (v, false)
  | _ => (0, true)
  end.

Lemma value_spec cv rows i : fixed_rep cv rows → value cv (values cv) i = Ok (row_view rows i).
Proof.
  intros Hrep. pose proof (fr_bits _ _ Hrep) as Hb. unfold value, row_view.
  destruct (rows !! i) as [r|] eqn:Hr.
  - rewrite (IsNil_spec cv _ Hb i (present r)) by by apply validity_lookup.
    pose proof (lookup_lt_Some _ _ _ Hr). pose proof (br_len _ _ Hb) as Hl. rewrite length_validity in Hl.
    destruct r as [v|]; rs; cbn [negb present]; [|done].
    rewrite (ValidCount_spec cv _ Hb) by lia. rs. rewrite Nat.sub_0_r, drop_0, <- validity_take.
    rewrite (values_spec _ _ Hrep), (index_somes rows i v Hr). done.
  - rewrite (IsNil_beyond cv _ Hb); [done|]. rewrite length_validity. by apply lookup_ge_None.
Qed.

Lemma subValues_spec cv rows s e :
  fixed_rep cv rows → (s <= e <= Len cv)%nat →
  subValues cv s e = Ok (somes (take (e - s) (drop s rows))).
Proof.
  intros Hrep Hse. pose proof (fr_bits _ _ Hrep) as Hb. unfold subValues.
  rewrite (getValIndexRange_spec cv _ Hb) by done. rs. rewrite (values_spec _ _ Hrep).
  rewrite !(proj2 (Z.ltb_ge (Z.of_nat _) 0)) by lia. cbn [orb]. rewrite !Nat2Z.id, <- !validity_take, <- !length_somes.
  pose proof (somes_range rows s e ltac:(lia)) as He.
  assert (Ha : somes rows = somes (take e rows) ++ somes (drop e rows)) by by rewrite <- somes_app, take_drop.
  rewrite between_Ok.
  - f_equal. rewrite Ha, He, <- app_assoc, drop_app_length, length_app. apply take_app_length'. lia.
  - rewrite He. len.
  - rewrite Ha. len.
Qed.

(** ** Appending one row *)

Lemma reserveBytes_spec b size :
  ∃ b', reserveBytes b size = Ok b' ∧ slen b' = (slen b + size)%nat ∧
        take (slen b) (sdata b') = sdata b ∧ (slice_ok b → slice_ok b').
Proof.
  unfold reserveBytes. bcase; [|apply reserve_spec].
  pose proof (slen_le_scap b) as Hl. assert (Hb : sdata b = []).
  { destruct b as [[|x d] sp]; [done|]. unfold scap in *. cbn in *. lia. }
  eexists; split; [done|]. unfold slen. rewrite Hb. cbn [sdata length take Nat.add]. split_and!; [|done|].
  - unfold zeros. len.
  - intros _. unfold slice_ok, sback. cbn [sdata sspare]. rewrite app_nil_r. apply zeros_ok.
Qed.

(** reserveVal and the store of [n] bytes behind the old contents. *)
Lemma reserveVal_put cv xs :
  ∃ v, reserveVal cv (length xs) = Ok (set_Val cv v) ∧ slen v = (slen (Val cv) + length xs)%nat ∧
       overwrite (sdata v) (slen (Val cv)) xs = sdata (Val cv) ++ xs.
Proof.
  unfold reserveVal. destruct (reserveBytes_spec (Val cv) (length xs)) as (v & -> & Hl & Ht & _).
  rs. eexists; split; [done|]. split; [done|].
  rewrite overwrite_tail by (unfold slen in *; lia). by rewrite Ht.
Qed.

Lemma fixed_push cv cv' rows r b' nils :
  fixed_rep cv rows → Forall in_type (somes [r]) →
  sdata (Val cv') = sdata (Val cv) ++ bytes_le sizeof (somes [r]) →
  (∀ va o, bits_rep (mk_ColVal va o b' (BitMapOffset cv) (Len cv + 1) (NilCount cv + nils))
             (validity rows ++ [present r])) →
  fixed_rep (mk_ColVal (Val cv') (Offset cv') b' (BitMapOffset cv) (Len cv + 1) (NilCount cv + nils))
    (rows ++ [r]).
Proof.
  intros [Hb Hv Ht] Hr Hv' Hb'. split; cbn [Val].
  - rewrite validity_app. apply Hb'.
  - by rewrite Hv', Hv, somes_app, bytes_le_app.
  - rewrite somes_app. by apply Forall_app.
Qed.

Lemma appendValue_spec cv rows v :
  fixed_rep cv rows → in_type v →
  ∃ cv', appendValue cv v = Ok cv' ∧ fixed_rep cv' (rows ++ [Some v]).
Proof.
  intros Hrep Hv. unfold appendValue. pose proof sizeof_pos.
  destruct (reserveVal_put cv (le_bytes sizeof v)) as (va & Hres & Hl & Ho).
  rewrite length_le_bytes in *. rewrite Hres. rs. unfold put. cbn [Val set_Val].
  destruct (Nat.ltb_spec (slen (Val cv)) (slen va)); [|lia]. rs. rewrite Ho. clear Hres.
  match goal with |- context [setBitMap ?c _] => set (c1 := c) end.
  assert (Hb1 : bits_rep c1 (validity rows)) by (destruct Hrep as [[] _ _]; by split).
  destruct (setBitMap_spec c1 _ Hb1) as (b' & -> & Hb'). rs. eexists; split; [done|].
  apply (fixed_push cv c1 rows (Some v) b' 0 Hrep); [by constructor| |done].
  cbn. by rewrite app_nil_r.
Qed.

Lemma appendNull_spec cv rows :
  fixed_rep cv rows → ∃ cv', appendNull cv = Ok cv' ∧ fixed_rep cv' (rows ++ [None]).
Proof.
  intros Hrep. unfold appendNull.
  destruct (resetBitMap_spec cv _ (fr_bits _ _ Hrep)) as (b' & -> & Hb'). rs. eexists; split; [done|].
  apply (fixed_push cv cv rows None b' 1 Hrep); [constructor| |done].
  cbn. by rewrite app_nil_r.
Qed.

Lemma appendValues_spec cv rows vs :
  fixed_rep cv rows → Forall in_type vs →
  ∃ cv', appendValues cv vs = Ok cv' ∧ fixed_rep cv' (rows ++ (Some <$> vs)).
Proof.
  intros Hrep Hvs. revert cv rows Hrep. induction Hvs as [|v vs Hv _ IH]; intros cv rows Hrep; cbn.
  - rewrite app_nil_r. eauto.
  - destruct (appendValue_spec cv rows v Hrep Hv) as (cv1 & -> & H1). rs.
    destruct (IH _ _ H1) as (cv2 & -> & H2). rewrite <- app_assoc in H2. eauto.
Qed.

Lemma appendNulls_spec cv rows n :
  fixed_rep cv rows → ∃ cv', appendNulls cv n = Ok cv' ∧ fixed_rep cv' (rows ++ replicate n None).
Proof.
  revert cv rows. induction n as [|n IH]; intros cv rows Hrep; cbn.
  - rewrite app_nil_r. eauto.
  - destruct (appendNull_spec cv rows Hrep) as (cv1 & -> & H1). rs.
    destruct (IH _ _ H1) as (cv2 & -> & H2). rewrite <- app_assoc in H2. eauto.
Qed.

(** ** Appending many rows *)

Lemma fixed_extend cv rows (new : list (option Z)) b' off n nils va o :
  fixed_rep cv rows → Forall in_type (somes new) →
  sdata va = sdata (Val cv) ++ bytes_le sizeof (somes new) →
  bits_rep (mk_ColVal va o b' off n nils) (validity rows ++ validity new) →
  fixed_rep (mk_ColVal va o b' off n nils) (rows ++ new).
Proof.
  intros [_ Hv Ht] Hr Hv' Hb'. split; cbn [Val].
  - by rewrite validity_app.
  - by rewrite Hv', Hv, somes_app, bytes_le_app.
  - rewrite somes_app. by apply Forall_app.
Qed.

Lemma somes_replicate_None {A} n : somes (replicate n (@None A)) = [].
Proof. by induction n. Qed.
Lemma validity_replicate_None {A} n : validity (replicate n (@None A)) = replicate n false.
Proof. by induction n as [|n IH]; [|cbn; f_equal]. Qed.

Lemma PadColVal_spec cv rows ft n :
  fixed_rep cv rows → ft ≠ Field_Type_String →
  ∃ cv', PadColVal cv ft n = Ok cv' ∧ fixed_rep cv' (rows ++ replicate n None).
Proof.
  intros Hrep Hft. unfold PadColVal. bcase.
  - subst n. rewrite app_nil_r. eauto.
  - rewrite decide_False by done.
    destruct (pad_bits cv _ n (fr_bits _ _ Hrep)) as (b1 & b2 & -> & Hb2 & Hb). rs. rewrite Hb2. rs.
    eexists; split; [done|]. apply (fixed_extend cv); [done| | |].
    + rewrite somes_replicate_None. constructor.
    + rewrite somes_replicate_None. cbn. by rewrite app_nil_r.
    + rewrite validity_replicate_None. apply Hb.
Qed.

Lemma fixed_slice src srows s e :
  fixed_rep src srows → (s <= e <= Len src)%nat →
  ∃ b, resliceZ (Val src) (Z.of_nat (count_true (take s (validity srows))) * Z.of_nat sizeof)
         (Z.of_nat (count_true (take e (validity srows))) * Z.of_nat sizeof) = Ok b ∧
       sdata b = bytes_le sizeof (somes (take (e - s) (drop s srows))).
Proof.
  intros [Hb Hv Ht] Hse. rewrite <- !validity_take, <- !length_somes, <- !Nat2Z.inj_mul.
  pose proof (somes_range srows s e ltac:(lia)) as He.
  assert (Ha : somes srows = somes (take e srows) ++ somes (drop e srows)) by by rewrite <- somes_app, take_drop.
  unfold resliceZ. rewrite !(proj2 (Z.ltb_ge (Z.of_nat _) 0)) by lia. cbn [orb]. rewrite !Nat2Z.id.
  destruct (reslice_spec (Val src) (length (somes (take s srows)) * sizeof)
              (length (somes (take e srows)) * sizeof)) as (b & -> & Hd).
  - rewrite He. len; nia.
  - unfold slen. rewrite Hv, Ha. len; nia.
  - eexists; split; [done|]. rewrite Hd, Hv, Ha, He, !bytes_le_app, <- app_assoc.
    rewrite drop_app_length' by (rewrite length_bytes_le; lia). apply take_app_length'. len; nia.
Qed.

Lemma Forall_somes_sub (P : Z → Prop) rows s n :
  Forall P (somes rows) → Forall P (somes (take n (drop s rows))).
Proof.
  intros Hp. rewrite <- (take_drop s rows), <- (take_drop n (drop s rows)), !somes_app, !Forall_app in Hp.
  tauto.
Qed.

(** The branch on the column type, for the fixed-size types. *)
Lemma append_dispatch cv src ft s e so eo :
  typeSize ft = sizeof →
  match ft with
  | Field_Type_Int => appendFixedRows cv 8 (Val src) so eo
  | Field_Type_Float => appendFixedRows cv 8 (Val src) so eo
  | Field_Type_String => appendStringRows cv (Val src) (Offset src) (Len src) s e
  | Field_Type_Tag => appendStringRows cv (Val src) (Offset src) (Len src) s e
  | Field_Type_Boolean => appendFixedRows cv 1 (Val src) so eo
  | _ => Panic
  end = appendFixedRows cv sizeof (Val src) so eo.
Proof.
  intros Hft. pose proof sizeof_pos. destruct ft; cbn [typeSize] in Hft; rewrite <- ?Hft; try done; lia.
Qed.

Lemma append_fixed_slow cv rows src srows s e so eo :
  fixed_rep cv rows → fixed_rep src srows → (s <= e <= Len src)%nat →
  so = Z.of_nat (count_true (take s (validity srows))) →
  eo = Z.of_nat (count_true (take e (validity srows))) →
  ∃ cv', (let! c := appendFixedRows cv sizeof (Val src) so eo in
          let! c := appendBitmap c (Bitmap src) (BitMapOffset src) (Len src) s e in
          Ok (add_Len c (e - s) (Z.of_nat e - Z.of_nat s - (eo - so)))) = Ok cv' ∧
         fixed_rep cv' (rows ++ take (e - s) (drop s srows)).
Proof.
  intros Hrep Hsrc Hse -> ->. unfold appendFixedRows.
  destruct (fixed_slice src srows s e Hsrc Hse) as (v & -> & Hvd). rs.
  match goal with |- context [appendBitmap ?c] => set (c1 := c) end.
  assert (Hb1 : bits_rep c1 (validity rows)) by (destruct Hrep as [[] _ _]; by split).
  pose proof (fr_bits _ _ Hsrc) as Hsb.
  destruct (appendBitmap_spec c1 _ (Bitmap src) (BitMapOffset src) (Len src) s e Hb1)
    as (b' & -> & Hb'); [apply Hsb|by rewrite (br_size _ _ Hsb)|done|].
  rs. eexists; split; [done|]. rewrite (rows_range_bits src srows s e Hsb Hse) in Hb'.
  apply (fixed_extend cv); [done| | |].
  - apply Forall_somes_sub. apply (fr_type _ _ Hsrc).
  - cbn [Val set_Bitmap set_Val c1]. by rewrite sdata_append, Hvd.
  - cbn [NilCount Len BitMapOffset set_Bitmap set_Val c1] in *.
    rewrite (count_range_diff srows s e) by lia.
    replace (Z.of_nat e - Z.of_nat s) with (Z.of_nat (e - s)) by lia. apply Hb'.
Qed.

(** AppendColVal and AppendColValFast: rows [s, e) of the source. *)
Lemma AppendColValFast_spec cv rows src srows ft s e pos cnt :
  fixed_rep cv rows → fixed_rep src srows → typeSize ft = sizeof → (s <= e <= Len src)%nat →
  ((pos <= s)%nat → cnt = Z.of_nat (count_true (take pos (validity srows)))) →
  ∃ cv', AppendColValFast cv src ft s e pos cnt = Ok cv' ∧
         fixed_rep cv' (rows ++ take (e - s) (drop s srows)).
Proof.
  intros Hrep Hsrc Hft Hse Hcnt. unfold AppendColValFast, Append.
  pose proof (br_len _ _ (fr_bits _ _ Hsrc)) as Hsl. rewrite length_validity in Hsl.
  destruct ((e <=? s) || (Len src =? 0))%nat eqn:E0.
  { replace (take (e - s) (drop s srows)) with (@nil (option Z)); [rewrite app_nil_r; eauto|].
    apply orb_true_iff in E0. rewrite Nat.leb_le, Nat.eqb_eq in E0. symmetry. apply length_zero_iff_nil. len. }
  apply orb_false_iff in E0. rewrite Nat.leb_gt, Nat.eqb_neq in E0.
  destruct ((e - s =? Len src) && (Len cv =? 0))%nat eqn:E1.
  - apply andb_true_iff in E1. rewrite !Nat.eqb_eq in E1. destruct E1 as [E1 E2].
    pose proof (br_len _ _ (fr_bits _ _ Hrep)) as Hl. rewrite length_validity, E2 in Hl.
    symmetry in Hl. apply length_zero_iff_nil in Hl as ->.
    destruct (copy_all_bits cv src _ (fr_bits _ _ Hrep) (fr_bits _ _ Hsrc)) as (sub & -> & Hb); [len|].
    rs. eexists; split; [done|]. replace (take (e - s) (drop s srows)) with srows.
    2: { replace s with 0%nat by lia. by rewrite drop_0, take_ge by lia. }
    apply (fixed_extend cv []); [done|apply (fr_type _ _ Hsrc)| |apply Hb].
    by rewrite sdata_append, (fr_vals _ _ Hsrc).
  - rewrite (hinted_range src _ s e pos cnt (fr_bits _ _ Hsrc) Hse Hcnt). rs.
    rewrite append_dispatch by done. by apply (append_fixed_slow cv rows src srows s e).
Qed.

(** ** Splitting *)

Lemma sliceBitMap_spec cv src bs s e :
  bits_rep src bs → (s < e <= Len src)%nat →
  ∃ b, sliceBitMap cv src s e =
         Ok (mk_ColVal (Val cv) (Offset cv) b ((BitMapOffset src + s) mod 8) (Len cv) (NilCount cv)) ∧
  ∀ va o, let nb := take (e - s) (drop s bs) in
          bits_rep (mk_ColVal va o b ((BitMapOffset src + s) mod 8) (e - s)
                      (Z.of_nat (e - s) - Z.of_nat (count_true nb))) nb.
Proof.
  intros Hrep Hse. pose proof Hrep as [Hl Hsz Hok Hb Hn _].
  destruct (reslice_bits (Bitmap src) (BitMapOffset src + s) (BitMapOffset src + e))
    as (sub & He & Hsok & Hss & Hsr); [lia|rewrite Hsz; apply Nat.Div0.div_le_mono; lia|].
  exists sub. split.
  - unfold sliceBitMap. rewrite <- ceil8 in He. rewrite Nat.add_1_r in He.
    destruct ((BitMapOffset src + e) mod 8 =? 0)%nat; cbn [negb] in He; rewrite He; done.
  - intros va o nb. assert (Hnb : length nb = (e - s)%nat) by (unfold nb; len).
    replace (BitMapOffset src + e - (BitMapOffset src + s))%nat with (e - s)%nat in Hss by lia.
    split; cbn [Len BitMapOffset Bitmap NilCount]; try lia; try done.
    + by apply Hsok.
    + specialize (Hsr 0%nat (e - s)%nat ltac:(lia) ltac:(lia)). rewrite Nat.add_0_r in Hsr.
      rewrite Hsr. unfold nb. rewrite <- (rep_range src bs Hrep s e) by lia. f_equal; lia.
Qed.

Lemma split_segment_spec cv rows dst s e ft off :
  fixed_rep cv rows → typeSize ft = sizeof → (s < e <= Len cv)%nat →
  off = Z.of_nat (count_true (take s (validity rows))) * Z.of_nat sizeof →
  ∃ col, split_segment cv dst s e ft off =
           Ok (col, Z.of_nat (count_true (take e (validity rows))) * Z.of_nat sizeof) ∧
         fixed_rep col (take (e - s) (drop s rows)).
Proof.
  intros Hrep Hft Hse ->. pose proof (fr_bits _ _ Hrep) as Hb. pose proof sizeof_pos.
  unfold split_segment, sliceValAndOffset.
  destruct (fixed_slice cv rows s e Hrep) as (v & Hv & Hvd); [lia|].
  pose proof (count_range_diff rows s e ltac:(lia)) as Hdiff.
  rewrite (ValidCount_spec cv _ Hb) by lia. rewrite <- validity_drop, <- validity_take. rs.
  match goal with |- context [let! _ := ?m in _] =>
    replace m with (Ok (set_Val dst v, Z.of_nat (count_true (take e (validity rows))) * Z.of_nat sizeof,
      Z.of_nat (count_true (validity (take (e - s) (drop s rows)))))) end.
  2: { destruct ft; cbn [typeSize] in Hft; try lia; rewrite Hft;
       (replace (_ + Z.of_nat sizeof * _) with (Z.of_nat (count_true (take e (validity rows))) * Z.of_nat sizeof) by lia);
       by rewrite Hv. }
  rs. destruct (sliceBitMap_spec (set_Val dst v) cv _ s e Hb Hse) as (b & -> & Hsb). rs.
  eexists; split; [done|]. rewrite <- validity_drop, <- validity_take in Hsb. split; cbn [Val].
  - apply Hsb.
  - exact Hvd.
  - apply Forall_somes_sub. apply (fr_type _ _ Hrep).
Qed.

Lemma Split_spec cv rows dst maxRows ft :
  fixed_rep cv rows → typeSize ft = sizeof → (0 < maxRows)%nat →
  ∃ out parts, Split cv dst maxRows ft = Ok out ∧ Forall2 fixed_rep out parts ∧
    concat parts = rows ∧ Forall (λ p, length p <= maxRows)%nat parts.
Proof.
  intros Hrep Hft Hm. pose proof (br_len _ _ (fr_bits _ _ Hrep)) as Hl. rewrite length_validity in Hl.
  apply (Split_segments fixed_rep
    (λ s off, off = Z.of_nat (count_true (take s (validity rows))) * Z.of_nat sizeof)); [done| |done|done].
  intros d s e off Hse Hoff. destruct (split_segment_spec cv rows d s e ft off Hrep Hft Hse Hoff) as (col & He & Hc).
  eauto.
Qed.
End Fixed.
