(* ===== verification/ColAgg.v ===== *)
(** * lib/record: first, last, least and greatest value of a row range

    column_util.go scans the validity bits of rows [start, end) and keeps an index
    into the packed values.  The scans are compared with the list of the rows that
    are present in the range, [present_rows]. *)

From S2P Require Import Prelude GoSlice Bitmap ColVal ColRefine.

(** The rows of [i, i + k) that hold a value, with that value. *)
Fixpoint present_rows (rows : list (option Z)) (i k : nat) : list (nat * Z) :=
  match k with
  | O => []
  | S k =>
      match rows !! i with
      | Some (Some v) => (i, v) :: present_rows rows (S i) k
      | _ => present_rows rows (S i) k
      end
  end.

(** What the Go code returns for "row r holds v" and for "no row". *)
Definition answer (o : option (nat * Z)) : Z * Z :=
  match o with Some (r, v) => (v, Z.of_nat r) | None => (0, -1) end.

Definition pick (better : Z → Z → bool) (o : option (nat * Z)) (x : nat * Z) : option (nat * Z) :=
  match o with
  | None => Some x
  | Some b => if better (snd b) (snd x) then Some x else Some b
  end.

(** The leftmost best row. *)
Definition best_row (better : Z → Z → bool) (l : list (nat * Z)) : option (nat * Z) :=
  fold_left (pick better) l None.

Lemma present_rows_spec rows i k r v :
  (r, v) ∈ present_rows rows i k ↔ (i <= r < i + k)%nat ∧ rows !! r = Some (Some v).
Proof.
  revert i. induction k as [|k IH]; intros i; cbn [present_rows].
  - split; [by intros ?%elem_of_nil|lia].
  - destruct (rows !! i) as [[w|]|] eqn:E; rewrite ?elem_of_cons, IH.
    + split; [intros [[= -> ->]|[? ?]]; split; try lia; done|].
      intros [? Hr]. destruct (decide (r = i)) as [->|]; [left; congruence|right; split; [lia|done]].
    + split; [intros [? ?]; split; [lia|done]|]. intros [? Hr].
      destruct (decide (r = i)) as [->|]; [congruence|split; [lia|done]].
    + split; [intros [? ?]; split; [lia|done]|]. intros [? Hr].
      destruct (decide (r = i)) as [->|]; [congruence|split; [lia|done]].
Qed.

Lemma length_present_rows rows i k :
  length (present_rows rows i k) = count_true (validity (take k (drop i rows))).
Proof.
  revert i. induction k as [|k IH]; intros i; cbn [present_rows]; [done|].
  destruct (rows !! i) as [r|] eqn:E.
  - rewrite (drop_S rows r i) by done. cbn [firstn take]. unfold validity in *. rewrite fmap_cons, count_true_cons, <- IH.
    by destruct r.
  - rewrite IH, !drop_ge by (apply lookup_ge_None in E; lia). by rewrite !take_nil.
Qed.

Section Scan.
Context (cv : ColVal) (rows : list (option Z)) (Hrep : bits_rep cv (validity rows)).

Lemma scan_len : Len cv = length rows.
Proof. rewrite (br_len _ _ Hrep). apply length_validity. Qed.

(** The value index of row [i]. *)
Definition vindex (i : nat) : Z := Z.of_nat (count_true (validity (take i rows))).

Lemma vindex_S i r : rows !! i = Some r → vindex (S i) = vindex i + if present r then 1 else 0.
Proof.
  intros Hr. unfold vindex. rewrite (take_S_r rows i r) by done.
  rewrite validity_app, count_true_app. cbn [validity fmap list_fmap]. rewrite count_true_cons.
  destruct r; cbn; lia.
Qed.

Lemma vindex_room i k :
  (i + k <= length rows)%nat →
  (if vindex i <? 0 then Panic else from (somes rows) (Z.to_nat (vindex i))) =
    Ok (drop (count_true (validity (take i rows))) (somes rows)) ∧
  (length (drop (count_true (validity (take i rows))) (somes rows)) = 0%nat → present_rows rows i k = []).
Proof.
  intros Hik. unfold vindex. bcase. rewrite Nat2Z.id.
  pose proof (length_somes (take i rows)). pose proof (length_somes (drop i rows)) as Hd.
  assert (Hs : length (somes rows) = (length (somes (take i rows)) + length (somes (drop i rows)))%nat).
  { rewrite <- length_app, <- somes_app, take_drop. done. }
  split; [apply from_Ok; lia|]. rewrite length_drop. intros Hz.
  apply length_zero_iff_nil. rewrite length_present_rows.
  pose proof (count_true_le (validity (take k (drop i rows)))).
  assert (Hk : count_true (validity (drop i rows)) =
    (count_true (validity (take k (drop i rows))) + count_true (validity (drop k (drop i rows))))%nat)
    by by rewrite <- count_true_app, <- validity_app, take_drop.
  lia.
Qed.

Lemma scan_test i r : rows !! i = Some r → bit_test (sdata (Bitmap cv)) (BitMapOffset cv + i) = Ok (present r).
Proof. intros Hr. apply (rep_test cv _ Hrep). by apply validity_lookup. Qed.

Lemma first_loop_spec i k :
  (i + k <= length rows)%nat →
  first_loop (somes rows) cv (vindex i) i k = Ok (answer (head (present_rows rows i k))).
Proof.
  revert i. induction k as [|k IH]; intros i Hik; cbn [first_loop]; [done|].
  destruct (vindex_room i (S k) Hik) as [-> Hnone]. rs. bcase; [by rewrite Hnone|].
  destruct (lookup_lt_is_Some_2 rows i) as [r Hr]; [lia|].
  rewrite (scan_test i r Hr). rs. cbn [present_rows]. rewrite Hr. destruct r as [v|]; cbn [present].
  - unfold vindex. by rewrite (index_somes rows i v Hr).
  - rewrite <- IH by lia. f_equal. rewrite (vindex_S i None Hr). cbn. lia.
Qed.

Lemma present_rows_snoc i k :
  present_rows rows i (S k) = present_rows rows i k ++ present_rows rows (i + k) 1.
Proof.
  revert i. induction k as [|k IH]; intros i; [by rewrite Nat.add_0_r|].
  cbn [present_rows]. rewrite !Nat.add_succ_r. cbn [present_rows] in IH.
  destruct (rows !! i) as [[v|]|]; cbn [app]; rewrite IH; done.
Qed.

Lemma last_loop_spec i k :
  (i + k <= length rows)%nat →
  last_loop cv i k = Ok (match last (present_rows rows i k) with Some (r, _) => Z.of_nat r | None => -1 end).
Proof.
  induction k as [|k IH]; intros Hik; cbn [last_loop]; [done|].
  destruct (lookup_lt_is_Some_2 rows (i + k)) as [r Hr]; [lia|].
  rewrite (scan_test (i + k) r Hr). rs. rewrite present_rows_snoc. cbn [present_rows]. rewrite Hr.
  destruct r as [v|]; cbn [present].
  - by rewrite last_snoc.
  - rewrite app_nil_r. apply IH. lia.
Qed.

(** Without nulls the packed values are the rows. *)
Lemma dense_row i :
  (i < length rows)%nat → NilCount cv = 0 →
  ∃ v, rows !! i = Some (Some v) ∧ index (somes rows) i = Ok v.
Proof.
  intros Hi Hn. rewrite (br_nils _ _ Hrep) in Hn. pose proof (count_true_le (validity rows)).
  assert (Hall : ∀ j b, validity rows !! j = Some b → b = true) by (apply count_true_all; lia).
  destruct (lookup_lt_is_Some_2 rows i Hi) as [r Hr].
  pose proof (Hall i (present r) (validity_lookup _ _ _ Hr)) as Hp. destruct r as [v|]; [|done].
  exists v. split; [done|]. apply index_Ok. rewrite <- (somes_take_lookup rows i v Hr). f_equal.
  pose proof (count_true_split (validity rows) 0 i) as Hs. rewrite take_0, drop_0 in Hs. cbn [Nat.add] in Hs.
  change (count_true []) with 0%nat in Hs. rewrite validity_take.
  pose proof (count_true_le (take i (validity rows))). pose proof (count_true_le (drop i (validity rows))). len.
Qed.

Section Best.
Variable better : Z → Z → bool.

Lemma best_dense_loop_spec r v i k :
  (i + k <= length rows)%nat → NilCount cv = 0 →
  best_dense_loop better (somes rows) v (Z.of_nat r) i k =
  Ok (answer (fold_left (pick better) (present_rows rows i k) (Some (r, v)))).
Proof.
  intros Hik Hn. revert r v i Hik. induction k as [|k IH]; intros r v i Hik; cbn [best_dense_loop]; [done|].
  destruct (dense_row i ltac:(lia) Hn) as (w & Hw & Hi). rewrite Hi. rs. cbn [present_rows]. rewrite Hw.
  cbn [fold_left pick snd]. destruct (better v w); apply IH; lia.
Qed.

Lemma best_loop_spec (st : option (nat * Z)) skip i k :
  (i + k <= length rows)%nat → (if st then skip < vindex i else skip = vindex i) →
  best_loop better (somes rows) cv skip (fst (answer st)) (snd (answer st)) (vindex i) i k =
  Ok (answer (fold_left (pick better) (present_rows rows i k) st)).
Proof.
  revert st i. induction k as [|k IH]; intros st i Hik Hst; cbn [best_loop].
  { cbn [present_rows fold_left]. by destruct (answer st). }
  destruct (vindex_room i (S k) Hik) as [-> Hnone]. rs. bcase.
  { rewrite Hnone by done. cbn [fold_left]. by destruct (answer st). }
  destruct (lookup_lt_is_Some_2 rows i) as [r Hr]; [lia|].
  rewrite (scan_test i r Hr). rs. cbn [present_rows]. rewrite Hr. pose proof (vindex_S i r Hr) as HS.
  destruct r as [v|]; cbn [present negb] in *.
  - unfold vindex at 1. rewrite (index_somes rows i v Hr). rs. cbn [fold_left pick].
    rewrite <- HS. destruct st as [[r0 v0]|]; cbn [answer fst snd pick].
    + destruct (Z.eqb_spec (vindex i) skip); [lia|].
      destruct (better v0 v).
      * apply (IH (Some (i, v)) (S i)); lia.
      * apply (IH (Some (r0, v0)) (S i)); lia.
    + destruct (Z.eqb_spec (vindex i) skip); [|lia]. apply (IH (Some (i, v)) (S i)); lia.
  - replace (vindex i) with (vindex (S i)) by lia. apply IH; [lia|]. destruct st; lia.
Qed.
End Best.

(** ** The four functions *)

Lemma no_values s k : length (somes rows) = 0%nat → present_rows rows s k = [].
Proof.
  intros Hs. apply length_zero_iff_nil. rewrite length_present_rows, <- length_somes.
  rewrite <- (take_drop s rows), <- (take_drop k (drop s rows)), !somes_app, !length_app in Hs. lia.
Qed.

Lemma nils_nonneg : 0 ≤ NilCount cv.
Proof. rewrite (br_nils _ _ Hrep). pose proof (count_true_le (validity rows)). lia. Qed.

Lemma scan_skip s :
  (s <= Len cv)%nat →
  (NilCount cv =? 0) = false →
  (if 0 <? NilCount cv then ValidCount cv 0 s else Ok 0) = Ok (vindex s).
Proof.
  intros Hs Hn. pose proof nils_nonneg. apply Z.eqb_neq in Hn. bcase.
  rewrite (ValidCount_spec cv _ Hrep) by lia. by rewrite Nat.sub_0_r, drop_0, <- validity_take.
Qed.

Lemma firstValue_spec s e :
  (s < e <= Len cv)%nat →
  firstValue (somes rows) s e cv = Ok (answer (head (present_rows rows s (e - s)))).
Proof.
  intros Hse. pose proof scan_len. unfold firstValue. bcase.
  { by rewrite (no_values s (e - s)). }
  destruct (NilCount cv =? 0) eqn:Hn.
  - apply Z.eqb_eq in Hn. destruct (dense_row s ltac:(lia) Hn) as (v & Hv & ->). rs.
    destruct (e - s)%nat as [|k] eqn:?; [lia|]. cbn [present_rows]. by rewrite Hv.
  - rewrite scan_skip by (done || lia). rs. apply first_loop_spec. lia.
Qed.

Lemma lastValue_spec s e :
  (s < e <= Len cv)%nat →
  lastValue (somes rows) s e cv = Ok (answer (last (present_rows rows s (e - s)))).
Proof.
  intros Hse. pose proof scan_len. unfold lastValue. bcase.
  { by rewrite (no_values s (e - s)). }
  destruct (NilCount cv =? 0) eqn:Hn.
  - apply Z.eqb_eq in Hn. destruct (dense_row (e - 1) ltac:(lia) Hn) as (v & Hv & Hi).
    unfold indexZ. bcase. replace (Z.to_nat (Z.of_nat e - 1)) with (e - 1)%nat by lia. rewrite Hi. rs.
    replace (e - s)%nat with (S (e - 1 - s)) by lia. rewrite present_rows_snoc.
    replace (s + (e - 1 - s))%nat with (e - 1)%nat by lia. cbn [present_rows]. rewrite Hv, last_snoc.
    cbn [answer]. do 2 f_equal. lia.
  - rewrite last_loop_spec by lia. rs.
    destruct (last (present_rows rows s (e - s))) as [[r v]|] eqn:Hlast; [|by bcase].
    apply last_Some_elem_of, present_rows_spec in Hlast as [Hr Hv]. bcase. rewrite Nat2Z.id.
    rewrite (ValidCount_spec cv _ Hrep) by lia. rs. rewrite Nat.sub_0_r, drop_0, <- validity_take.
    by rewrite (index_somes rows r v Hv).
Qed.

Lemma bestValue_spec better s e :
  (∀ v, better v v = false) → (s < e <= Len cv)%nat →
  bestValue better (somes rows) s e cv = Ok (answer (best_row better (present_rows rows s (e - s)))).
Proof.
  intros Hirr Hse. pose proof scan_len. unfold bestValue, best_row. bcase.
  { by rewrite (no_values s (e - s)). }
  destruct (NilCount cv =? 0) eqn:Hn.
  - apply Z.eqb_eq in Hn. destruct (dense_row s ltac:(lia) Hn) as (v & Hv & ->). rs.
    rewrite best_dense_loop_spec by (done || lia).
    destruct (e - s)%nat as [|k] eqn:?; [lia|]. cbn [present_rows]. rewrite Hv. cbn [fold_left pick snd].
    by rewrite Hirr.
  - rewrite scan_skip by (done || lia). rs. by apply (best_loop_spec better None); [lia|].
Qed.
End Scan.

(** ** Theorems *)

(** [f] is the key that is minimised: the identity for minValue, the opposite for
    maxValue. *)
Definition leftmost_least (f : Z → Z) (rows : list (option Z)) (s e : nat) (r : nat) (v : Z) : Prop :=
  (s <= r < e)%nat ∧ rows !! r = Some (Some v) ∧
  ∀ r' v', (s <= r' < e)%nat → rows !! r' = Some (Some v') → f v ≤ f v' ∧ (f v' = f v → (r <= r')%nat).

Lemma pick_scan f rows r0 v0 i k :
  (r0 < i)%nat →
  ∃ r v, fold_left (pick (λ a b, f b <? f a)) (present_rows rows i k) (Some (r0, v0)) = Some (r, v) ∧
    ((r, v) = (r0, v0) ∨ (i <= r < i + k)%nat ∧ rows !! r = Some (Some v)) ∧
    f v ≤ f v0 ∧ (f v = f v0 → (r, v) = (r0, v0)) ∧
    ∀ r' v', (i <= r' < i + k)%nat → rows !! r' = Some (Some v') → f v ≤ f v' ∧ (f v' = f v → (r <= r')%nat).
Proof.
  revert r0 v0 i. induction k as [|k IH]; intros r0 v0 i Hr0; cbn [present_rows].
  { exists r0, v0. split_and!; [done|by left|lia|done|lia]. }
  destruct (rows !! i) as [[w|]|] eqn:Hi; cbn [fold_left pick snd].
  1: destruct (Z.ltb_spec (f w) (f v0)).
  1: destruct (IH i w (S i) ltac:(lia)) as (r & v & -> & Hr & Hle & Heq & Hall).
  2-4: destruct (IH r0 v0 (S i) ltac:(lia)) as (r & v & -> & Hr & Hle & Heq & Hall).
  all: exists r, v; split; [done|].
  - split_and!; [|lia|lia|].
    + right. destruct Hr as [[= -> ->]|[? ?]]; split; (done || lia).
    + intros r' v' Hr' Hv'. destruct (decide (r' = i)) as [->|]; [|apply Hall; [lia|done]].
      rewrite Hi in Hv'. injection Hv' as <-. split; [done|]. intros E. symmetry in E.
      apply Heq in E. injection E as -> ->. lia.
  - split_and!; [|lia|done|].
    + destruct Hr as [?|[? ?]]; [by left|right; split; [lia|done]].
    + intros r' v' Hr' Hv'. destruct (decide (r' = i)) as [->|]; [|apply Hall; [lia|done]].
      rewrite Hi in Hv'. injection Hv' as <-. split; [lia|]. intros E.
      assert (f v = f v0) as ?%Heq by lia. simplify_eq. lia.
  - split_and!; [|lia|done|].
    + destruct Hr as [?|[? ?]]; [by left|right; split; [lia|done]].
    + intros r' v' Hr' Hv'. apply Hall; [|done]. destruct (decide (r' = i)) as [->|]; [congruence|lia].
  - split_and!; [|lia|done|].
    + destruct Hr as [?|[? ?]]; [by left|right; split; [lia|done]].
    + intros r' v' Hr' Hv'. apply Hall; [|done]. destruct (decide (r' = i)) as [->|]; [congruence|lia].
Qed.

Lemma best_row_scan f rows s k :
  match best_row (λ a b, f b <? f a) (present_rows rows s k) with
  | Some (r, v) => leftmost_least f rows s (s + k) r v
  | None => present_rows rows s k = []
  end.
Proof.
  unfold best_row. revert s. induction k as [|k IH]; intros s; cbn [present_rows]; [done|].
  assert (Hskip : ∀ x, rows !! s = x → x = None ∨ x = Some None →
    match fold_left (pick (λ a b, f b <? f a)) (present_rows rows (S s) k) None with
    | Some (r, v) => leftmost_least f rows s (s + S k) r v
    | None => present_rows rows (S s) k = []
    end).
  { intros x Hx Hn. specialize (IH (S s)). destruct (fold_left _ _ _) as [[r v]|]; [|done].
    destruct IH as (Hr & Hv & Hall). split; [lia|split; [done|]]. intros r' v' Hr' Hv'.
    apply Hall; [|done]. destruct (decide (r' = s)) as [->|]; [|lia]. rewrite Hx in Hv'. by destruct Hn as [->| ->]. }
  destruct (rows !! s) as [[w|]|] eqn:Hs; [|eapply Hskip; eauto..].
  cbn [fold_left pick]. destruct (pick_scan f rows s w (S s) k) as (r & v & -> & Hr & Hle & Heq & Hall); [lia|].
  split; [|split].
  - destruct Hr as [[= -> ->]|[? ?]]; lia.
  - destruct Hr as [[= -> ->]|[? ?]]; done.
  - intros r' v' Hr' Hv'. destruct (decide (r' = s)) as [->|]; [|apply Hall; [lia|done]].
    rewrite Hs in Hv'. injection Hv' as <-. split; [done|]. intros E. symmetry in E. apply Heq in E.
    injection E as -> ->. lia.
Qed.

(** What the four functions return when the range holds a value, and otherwise. *)
Definition range_answer (P : nat → Z → Prop) (rows : list (option Z)) (s e : nat) (m : res (Z * Z)) : Prop :=
  (∃ r v, m = Ok (v, Z.of_nat r) ∧ P r v) ∨
  m = Ok (0, -1) ∧ ∀ r, (s <= r < e)%nat → rows !! r = Some None.

Lemma present_rows_empty rows s e :
  (s < e <= length rows)%nat → present_rows rows s (e - s) = [] →
  ∀ r, (s <= r < e)%nat → rows !! r = Some None.
Proof.
  intros Hse Hn r Hr. destruct (lookup_lt_is_Some_2 rows r) as [[v|] Hv]; [lia| |done].
  assert (Hin : (r, v) ∈ present_rows rows s (e - s)) by (apply present_rows_spec; split; [lia|done]).
  rewrite Hn in Hin. by apply elem_of_nil in Hin.
Qed.

Lemma best_row_ext better better' l :
  (∀ a b, better a b = better' a b) → best_row better l = best_row better' l.
Proof.
  intros Hext. unfold best_row. generalize (@None (nat * Z)).
  induction l as [|x l IH]; intros st; cbn [fold_left]; [done|].
  replace (pick better st x) with (pick better' st x); [apply IH|].
  destruct st; cbn; [by rewrite Hext|done].
Qed.

Lemma bestValue_least f better cv rows s e :
  (∀ a b, better a b = (f b <? f a)) → bits_rep cv (validity rows) → (s < e <= Len cv)%nat →
  range_answer (leftmost_least f rows s e) rows s e (bestValue better (somes rows) s e cv).
Proof.
  intros Hbt Hrep Hse. pose proof (scan_len cv rows Hrep).
  rewrite (bestValue_spec cv rows Hrep) by (done || (intros; rewrite Hbt; lia)).
  rewrite (best_row_ext better (λ a b, f b <? f a)) by done.
  pose proof (best_row_scan f rows s (e - s)) as Hb. replace (s + (e - s))%nat with e in Hb by lia.
  destruct (best_row _ _) as [[r v]|]; [left; by eauto|right]. split; [done|].
  by apply present_rows_empty; [lia|].
Qed.

(** C36: minValue and maxValue (minimum and maximum of an int64 column over rows
    [s, e)) return the least and the greatest value of the rows that are not null,
    at the first row that holds it, and (0, -1) when every row of the range is null. *)
Theorem extremum_values (cv : ColVal) (rows : list (option Z)) s e :
  @fixed_rep int64 cv rows → (s < e <= Len cv)%nat →
  range_answer (leftmost_least id rows s e) rows s e (minValue (@values int64 cv) s e cv) ∧
  range_answer (leftmost_least Z.opp rows s e) rows s e (maxValue (@values int64 cv) s e cv).
Proof.
  intros Hrep Hse. pose proof (fr_bits _ _ Hrep) as Hb. rewrite (values_spec cv rows Hrep). split.
  - by apply bestValue_least.
  - apply bestValue_least; [intros; lia|done|done].
Qed.

(** A column of eight rows that starts at bit 3 of its bitmap:
    null, 7, -2, null, 9, -2, 9, null. *)
Definition sample_col : ColVal :=
  mk_ColVal (mk_slice (bytes_le 8 [7; -2; 9; -2; 9]) []) nil_slice (mk_slice [183; 3] []) 3 8 3.
Definition sample_rows : list (option Z) :=
  [None; Some 7; Some (-2); None; Some 9; Some (-2); Some 9; None].

Lemma sample_rep : @fixed_rep int64 sample_col sample_rows.
Proof.
  split; [|reflexivity|repeat constructor; by_compute].
  split; try reflexivity; [by_compute|discriminate].
Qed.

Lemma extremum_values_witness :
  minValue (@values int64 sample_col) 3 8 sample_col = Ok (-2, 5) ∧
  maxValue (@values int64 sample_col) 0 8 sample_col = Ok (9, 4) ∧
  range_answer (leftmost_least id sample_rows 3 8) sample_rows 3 8
    (minValue (@values int64 sample_col) 3 8 sample_col) ∧
  range_answer (leftmost_least Z.opp sample_rows 3 8) sample_rows 3 8
    (maxValue (@values int64 sample_col) 3 8 sample_col).
Proof.
  split; [reflexivity|]. split; [reflexivity|].
  apply (extremum_values sample_col sample_rows 3 8); [exact sample_rep|]. vm_compute. lia.
Defined.

Definition first_row (rows : list (option Z)) (s e r : nat) (v : Z) : Prop :=
  (s <= r < e)%nat ∧ rows !! r = Some (Some v) ∧ ∀ r', (s <= r' < r)%nat → rows !! r' = Some None.
Definition last_row (rows : list (option Z)) (s e r : nat) (v : Z) : Prop :=
  (s <= r < e)%nat ∧ rows !! r = Some (Some v) ∧ ∀ r', (r < r' < e)%nat → rows !! r' = Some None.

Lemma head_present rows s k :
  (s + k <= length rows)%nat →
  match head (present_rows rows s k) with
  | Some (r, v) => first_row rows s (s + k) r v
  | None => present_rows rows s k = []
  end.
Proof.
  revert s. induction k as [|k IH]; intros s Hk; cbn [present_rows]; [done|].
  destruct (lookup_lt_is_Some_2 rows s) as [[w|] Hs]; [lia| |]; rewrite Hs.
  - cbn [head]. split; [lia|split; [done|lia]].
  - specialize (IH (S s) ltac:(lia)). destruct (head _) as [[r v]|]; [|done].
    destruct IH as (Hr & Hv & Hall). split; [lia|split; [done|]]. intros r' Hr'.
    destruct (decide (r' = s)) as [->|]; [done|apply Hall; lia].
Qed.

Lemma last_present rows s k :
  (s + k <= length rows)%nat →
  match last (present_rows rows s k) with
  | Some (r, v) => last_row rows s (s + k) r v
  | None => present_rows rows s k = []
  end.
Proof.
  induction k as [|k IH]; intros Hk; [done|]. rewrite present_rows_snoc. cbn [present_rows].
  destruct (lookup_lt_is_Some_2 rows (s + k)) as [[w|] Hs]; [lia| |]; rewrite Hs.
  - rewrite last_snoc. split; [lia|split; [done|lia]].
  - rewrite app_nil_r. specialize (IH ltac:(lia)). destruct (last _) as [[r v]|]; [|done].
    destruct IH as (Hr & Hv & Hall). split; [lia|split; [done|]]. intros r' Hr'.
    destruct (decide (r' = s + k)%nat) as [->|]; [done|apply Hall; lia].
Qed.

(** FirstValue and lastValue return the value of the first and of the last row of
    [s, e) that is not null, with its row number, and (0, -1) when all rows of the
    range are null; this holds for every fixed-size element type. *)
Theorem first_last_values {T : BasicType} (cv : ColVal) (rows : list (option Z)) s e :
  fixed_rep cv rows → (s < e <= Len cv)%nat →
  range_answer (first_row rows s e) rows s e (firstValue (values cv) s e cv) ∧
  range_answer (last_row rows s e) rows s e (lastValue (values cv) s e cv).
Proof.
  intros Hrep Hse. pose proof (fr_bits _ _ Hrep) as Hb. pose proof (scan_len cv rows Hb).
  rewrite (values_spec cv rows Hrep), (firstValue_spec cv rows Hb), (lastValue_spec cv rows Hb) by done.
  pose proof (head_present rows s (e - s) ltac:(lia)) as Hh.
  pose proof (last_present rows s (e - s) ltac:(lia)) as Hl.
  replace (s + (e - s))%nat with e in * by lia. split.
  - destruct (head _) as [[r v]|]; [left; by eauto|right]. split; [done|].
    by apply present_rows_empty; [lia|].
  - destruct (last _) as [[r v]|]; [left; by eauto|right]. split; [done|].
    by apply present_rows_empty; [lia|].
Qed.

Lemma first_last_values_witness :
  firstValue (@values int64 sample_col) 2 8 sample_col = Ok (-2, 2) ∧
  lastValue (@values int64 sample_col) 2 6 sample_col = Ok (-2, 5) ∧
  range_answer (first_row sample_rows 0 8) sample_rows 0 8
    (firstValue (@values int64 sample_col) 0 8 sample_col) ∧
  range_answer (last_row sample_rows 0 8) sample_rows 0 8
    (lastValue (@values int64 sample_col) 0 8 sample_col).
Proof.
  split; [reflexivity|]. split; [reflexivity|].
  apply (@first_last_values int64 sample_col sample_rows 0 8); [exact sample_rep|]. vm_compute. lia.
Defined.
