(* ===== verification/ColOps.v ===== *)
(** * lib/record: the column contract

    Sequences of column operations against the list of rows ([column_refines_rows]),
    the partition made by Split, and the columns that keep a slot for every row
    (AppendIntegerNullReserve and UpdateIntegerValue), where a row can be updated
    in place. *)

From S2P Require Import Prelude GoSlice Bitmap ColVal ColRefine ColAgg.

Section Ops.
Context `{GoRuntime} {T : BasicType}.

(** The operations that extend a fixed-size column.  [OpRows] appends rows [s, e) of
    a source column from a known count [cnt] of valid rows before [pos]. *)
Inductive col_op :=
| OpValue (v : Z)
| OpValues (vs : list Z)
| OpNull
| OpNulls (n : nat)
| OpPad (ft : FieldType) (n : nat)
| OpRows (src : ColVal) (srows : list (option Z)) (ft : FieldType) (s e pos : nat) (cnt : Z).

Definition run_op (cv : ColVal) (op : col_op) : res ColVal :=
  match op with
  | OpValue v => appendValue cv v
  | OpValues vs => appendValues cv vs
  | OpNull => appendNull cv
  | OpNulls n => appendNulls cv n
  | OpPad ft n => PadColVal cv ft n
  | OpRows src _ ft s e pos cnt => AppendColValFast cv src ft s e pos cnt
  end.

Fixpoint run_ops (cv : ColVal) (ops : list col_op) : res ColVal :=
  match ops with
  | [] => Ok cv
  | op :: ops => let! cv := run_op cv op in run_ops cv ops
  end.

(** What an operation means for the rows. *)
Definition op_rows (op : col_op) : list (option Z) :=
  match op with
  | OpValue v => [Some v]
  | OpValues vs => Some <$> vs
  | OpNull => [None]
  | OpNulls n => replicate n None
  | OpPad _ n => replicate n None
  | OpRows _ srows _ s e _ _ => take (e - s) (drop s srows)
  end.

Definition op_ok (op : col_op) : Prop :=
  match op with
  | OpValue v => in_type v
  | OpValues vs => Forall in_type vs
  | OpNull | OpNulls _ => True
  | OpPad ft _ => ft ≠ Field_Type_String
  | OpRows src srows ft s e pos cnt =>
      fixed_rep src srows ∧ typeSize ft = sizeof ∧ (s <= e <= Len src)%nat ∧
      ((pos <= s)%nat → cnt = Z.of_nat (count_true (take pos (validity srows))))
  end.

Lemma run_op_spec cv rows op :
  fixed_rep cv rows → op_ok op → ∃ cv', run_op cv op = Ok cv' ∧ fixed_rep cv' (rows ++ op_rows op).
Proof.
  intros Hrep Hop. destruct op; cbn [run_op op_rows op_ok] in *.
  - by apply appendValue_spec.
  - by apply appendValues_spec.
  - by apply appendNull_spec.
  - by apply appendNulls_spec.
  - by apply PadColVal_spec.
  - destruct Hop as (? & ? & ? & ?). by apply AppendColValFast_spec.
Qed.

Lemma run_ops_spec cv rows ops :
  fixed_rep cv rows → Forall op_ok ops →
  ∃ cv', run_ops cv ops = Ok cv' ∧ fixed_rep cv' (rows ++ concat (op_rows <$> ops)).
Proof.
  intros Hrep Hops. revert cv rows Hrep. induction Hops as [|op ops Hop _ IH]; intros cv rows Hrep; cbn.
  - rewrite app_nil_r. eauto.
  - destruct (run_op_spec cv rows op Hrep Hop) as (cv1 & -> & H1). rs.
    destruct (IH _ _ H1) as (cv2 & -> & H2). rewrite <- app_assoc in H2. eauto.
Qed.
End Ops.

(** C17: A column refines the list of its rows. Any sequence of appends of values, nulls,
    padding and row ranges of other columns of the type (byte-wise or bit-wise bitmap copies,
    with or without a known position) runs without panic from an empty column, and reading row
    [i] of the result gives the [i]-th row that was appended, with NilCount the number of null
    rows. Ranges lie inside their column, a known position comes with its count, and padding is
    not with the string type, which has its own theorem. *)
Theorem column_refines_rows `{GoRuntime} {T : BasicType} (ops : list col_op) :
  Forall op_ok ops →
  ∃ cv, run_ops empty_col ops = Ok cv ∧
    let rows := concat (op_rows <$> ops) in
    Len cv = length rows ∧ NilCount cv = Z.of_nat (length rows) - Z.of_nat (length (somes rows)) ∧
    values cv = somes rows ∧ ∀ i, value cv (values cv) i = Ok (row_view rows i).
Proof.
  intros Hops. destruct (run_ops_spec empty_col [] ops fixed_rep_empty Hops) as (cv & He & Hrep).
  exists cv. split; [done|]. cbn [app] in Hrep. intros rows. pose proof (fr_bits _ _ Hrep) as Hb.
  split_and!.
  - rewrite (br_len _ _ Hb). apply length_validity.
  - by rewrite (br_nils _ _ Hb), length_validity, length_somes.
  - by apply values_spec.
  - intros i. by apply value_spec.
Qed.

Definition sample_ops : list col_op :=
  [OpValue 5; OpNull; OpRows sample_col sample_rows Field_Type_Int 1 8 0 0; OpPad Field_Type_Int 9;
   OpRows sample_col sample_rows Field_Type_Int 4 6 2 1; OpValues [1; -1]].

Lemma sample_ops_ok : Forall (@op_ok int64) sample_ops.
Proof.
  repeat constructor; try discriminate; try (exact sample_rep); try by_compute; intros _; reflexivity.
Qed.

Lemma column_refines_rows_witness :
  ∃ cv, @run_ops tight_runtime int64 empty_col sample_ops = Ok cv ∧
    let rows := concat (op_rows <$> sample_ops) in
    Len cv = length rows ∧ NilCount cv = Z.of_nat (length rows) - Z.of_nat (length (somes rows)) ∧
    @values int64 cv = somes rows ∧ ∀ i, value cv (@values int64 cv) i = Ok (row_view rows i).
Proof. exact (@column_refines_rows tight_runtime int64 sample_ops sample_ops_ok). Defined.

(** C37: Split cuts a column into consecutive columns of at most [maxRows] rows: each of
    the results represents its part (also when the parts start in the middle of a
    bitmap byte), and the parts put together are the rows of the column. *)
Theorem Split_partitions {T : BasicType} (cv : ColVal) rows dst maxRows ft :
  fixed_rep cv rows → typeSize ft = sizeof → (0 < maxRows)%nat →
  ∃ out parts, Split cv dst maxRows ft = Ok out ∧ Forall2 fixed_rep out parts ∧
    concat parts = rows ∧ Forall (λ p, length p <= maxRows)%nat parts.
Proof. apply Split_spec. Qed.

Lemma Split_partitions_witness :
  ∃ out parts, Split sample_col [] 3 Field_Type_Int = Ok out ∧
    Forall2 (@fixed_rep int64) out parts ∧
    concat parts = sample_rows ∧ Forall (λ p, length p <= 3)%nat parts.
Proof.
  apply (@Split_partitions int64 sample_col sample_rows [] 3 Field_Type_Int);
    [exact sample_rep|reflexivity|lia].
Defined.

(** ** Columns with a slot for every row *)

Section Reserve.
Context `{GoRuntime} {T : BasicType}.

Definition slots (rows : list (option Z)) : list Z := default 0 <$> rows.

Record reserve_rep (cv : ColVal) (rows : list (option Z)) : Prop := {
  rr_bits : bits_rep cv (validity rows);
  rr_vals : sdata (Val cv) = bytes_le sizeof (slots rows);
  rr_type : Forall in_type (slots rows);
}.

Lemma reserve_values cv rows : reserve_rep cv rows → values cv = slots rows.
Proof.
  intros [_ Hv Ht]. unfold values, slen. rewrite Hv, length_bytes_le. pose proof sizeof_pos.
  rewrite Nat.mul_comm, Nat.div_mul by lia. by apply words_stored.
Qed.

Lemma reserve_push cv rows (r : option Z) b' nils v o :
  reserve_rep cv rows → in_type (default 0 r) →
  sdata v = sdata (Val cv) ++ le_bytes sizeof (default 0 r) →
  bits_rep (mk_ColVal v o b' (BitMapOffset cv) (Len cv + 1) (NilCount cv + nils))
    (validity rows ++ [present r]) →
  reserve_rep (mk_ColVal v o b' (BitMapOffset cv) (Len cv + 1) (NilCount cv + nils)) (rows ++ [r]).
Proof.
  intros [_ Hv Ht] Hr Hv' Hb. unfold slots in *. split; cbn [Val].
  - by rewrite validity_app.
  - unfold slots. rewrite Hv', Hv, fmap_app, bytes_le_app. cbn. by rewrite app_nil_r.
  - unfold slots. rewrite fmap_app. apply Forall_app. split; [done|]. by constructor.
Qed.

Lemma reserve_appendValue cv rows v :
  reserve_rep cv rows → in_type v →
  ∃ cv', appendValue cv v = Ok cv' ∧ reserve_rep cv' (rows ++ [Some v]).
Proof.
  intros Hrep Hv. unfold appendValue. pose proof sizeof_pos.
  destruct (reserveVal_put cv (le_bytes sizeof v)) as (va & Hres & Hl & Ho).
  rewrite length_le_bytes in *. rewrite Hres. rs. unfold put. cbn [Val set_Val].
  destruct (Nat.ltb_spec (slen (Val cv)) (slen va)); [|lia]. rs. rewrite Ho. clear Hres.
  match goal with |- context [setBitMap ?c _] => set (c1 := c) end.
  assert (Hb1 : bits_rep c1 (validity rows)) by (destruct Hrep as [[] _ _]; by split).
  destruct (setBitMap_spec c1 _ Hb1) as (b' & -> & Hb'). rs. eexists; split; [done|].
  by apply (reserve_push cv rows (Some v) b' 0).
Qed.

Lemma reserve_appendNullReserve cv rows :
  reserve_rep cv rows → in_type 0 →
  ∃ cv', appendNullReserve cv = Ok cv' ∧ reserve_rep cv' (rows ++ [None]).
Proof.
  intros Hrep Hv. unfold appendNullReserve. pose proof sizeof_pos.
  destruct (reserveVal_put cv (le_bytes sizeof 0)) as (va & Hres & Hl & Ho).
  rewrite length_le_bytes in *. rewrite Hres. rs. unfold put. cbn [Val set_Val].
  destruct (Nat.ltb_spec (slen (Val cv)) (slen va)); [|lia]. rs. rewrite Ho. clear Hres.
  match goal with |- context [resetBitMap ?c _] => set (c1 := c) end.
  assert (Hb1 : bits_rep c1 (validity rows)) by (destruct Hrep as [[] _ _]; by split).
  destruct (resetBitMap_spec c1 _ Hb1) as (b' & -> & Hb'). rs. eexists; split; [done|].
  by apply (reserve_push cv rows None b' 1).
Qed.

(** ** Updating a row *)

Lemma bytes_le_insert w vs i v :
  (i < length vs)%nat → overwrite (bytes_le w vs) (i * w) (le_bytes w v) = bytes_le w (<[i := v]> vs).
Proof.
  intros Hi. destruct (lookup_lt_is_Some_2 vs i Hi) as [x Hx].
  rewrite insert_take_drop by done. rewrite <- (take_drop_middle vs i x Hx) at 1.
  rewrite !bytes_le_app, !bytes_le_cons. apply overwrite_mid; len.
Qed.

Lemma set_value_spec cv rows row v :
  reserve_rep cv rows → (row < length rows)%nat →
  set_value cv row v =
    Ok (set_Val cv (mk_slice (bytes_le sizeof (<[row := v]> (slots rows))) (sspare (Val cv)))).
Proof.
  intros [Hb Hv Ht] Hrow. unfold set_value, slen. rewrite Hv, length_bytes_le. pose proof sizeof_pos.
  rewrite Nat.mul_comm, Nat.div_mul by lia. unfold slots at 1. rewrite length_fmap. bcase.
  by rewrite bytes_le_insert by (unfold slots; len).
Qed.

Lemma count_true_insert bs i b v :
  bs !! i = Some b →
  Z.of_nat (count_true (<[i := v]> bs)) =
  Z.of_nat (count_true bs) - (if b : bool then 1 else 0) + (if v : bool then 1 else 0).
Proof.
  intros Hb. pose proof (lookup_lt_Some _ _ _ Hb). rewrite insert_take_drop by done.
  rewrite <- (take_drop_middle bs i b Hb) at 3.
  rewrite !count_true_app, !count_true_cons. destruct b, v; lia.
Qed.

Lemma range_bits_insert bm bm' i v n :
  bm_bits bm' = <[i := v]> (bm_bits bm) → (i < n)%nat →
  range_bits bm' 0 n = <[i := v]> (range_bits bm 0 n).
Proof.
  intros Hb Hi. unfold range_bits. rewrite !drop_0, !Nat.sub_0_r, Hb. apply take_insert_lt. done.
Qed.

(** One bit of an aligned bitmap replaced, NilCount adjusted. *)
Lemma bits_rep_update cv bs i b v b' va o nils :
  bits_rep cv bs → BitMapOffset cv = 0%nat → bs !! i = Some b → bits_updated (Bitmap cv) b' i v →
  nils = (if b : bool then 1 else 0) - (if v : bool then 1 else 0) →
  bits_rep (mk_ColVal va o b' (BitMapOffset cv) (Len cv) (NilCount cv + nils)) (<[i := v]> bs).
Proof.
  intros [Hl Hsz Hok Hbits Hn Hst] Hoff Hb (Hb' & Hl' & Hok') ->. pose proof (lookup_lt_Some _ _ _ Hb).
  split; cbn [Len BitMapOffset Bitmap NilCount]; [len|lia|auto| | |done].
  - rewrite Hoff in *. cbn [Nat.add] in *. rewrite (range_bits_insert _ _ i v (Len cv) Hb') by lia.
    by rewrite Hbits.
  - rewrite Hn, (count_true_insert bs i b v Hb). len.
Qed.

Lemma validity_insert (rows : list (option Z)) i r :
  validity (<[i := r]> rows) = <[i := present r]> (validity rows).
Proof. apply list_fmap_insert. Qed.
Lemma slots_insert rows i r : slots (<[i := r]> rows) = <[i := default 0 r]> (slots rows).
Proof. apply list_fmap_insert. Qed.

(** The column after an update of row [i]: one bit, one slot, NilCount. *)
Lemma reserve_update cv rows i r r' b' o nils sp :
  reserve_rep cv rows → BitMapOffset cv = 0%nat → rows !! i = Some r → in_type (default 0 r') →
  bits_updated (Bitmap cv) b' i (present r') →
  nils = (if present r then 1 else 0) - (if present r' then 1 else 0) →
  reserve_rep (mk_ColVal (mk_slice (bytes_le sizeof (<[i := default 0 r']> (slots rows))) sp) o b'
                 (BitMapOffset cv) (Len cv) (NilCount cv + nils)) (<[i := r']> rows).
Proof.
  intros [Hb Hv Ht] Hoff Hr Hty Hup Hn. split; cbn [Val sdata].
  - rewrite validity_insert. eapply bits_rep_update; eauto. by apply validity_lookup.
  - by rewrite slots_insert.
  - rewrite slots_insert. by apply Forall_insert.
Qed.

Lemma updateIntoNull_spec cv rows row :
  reserve_rep cv rows → BitMapOffset cv = 0%nat → (row < length rows)%nat → in_type 0 →
  ∃ cv', updateIntoNull cv row = Ok cv' ∧ reserve_rep cv' (<[row := None]> rows).
Proof.
  intros Hrep Hoff Hrow H0. destruct (lookup_lt_is_Some_2 rows row Hrow) as [r Hr].
  pose proof (rr_bits _ _ Hrep) as Hb. pose proof (rep_bits_fit _ _ Hb) as Hfit.
  pose proof (br_len _ _ Hb) as Hl. rewrite length_validity in Hl.
  unfold updateIntoNull. rewrite (IsNil_spec cv _ Hb row (present r)) by by apply validity_lookup.
  rs. rewrite negb_involutive.
  destruct (bit_clear_spec (Bitmap cv) row) as (b' & Hclr & Hup); [lia|]. destruct r as [w|]; cbn [present].
  - rewrite (set_value_spec cv rows row 0 Hrep Hrow). rs. cbn [add_Len set_Val Bitmap]. rewrite Hclr. rs.
    eexists; split; [done|]. unfold add_Len, set_Bitmap, set_Val. cbn [Val Offset BitMapOffset Len NilCount].
    rewrite Nat.add_0_r. by apply (reserve_update cv rows row (Some w) None).
  - rs. rewrite Hclr. rs. eexists; split; [done|].
    pose proof (bits_rep_update cv _ row false false b' (Val cv) (Offset cv) 0 Hb Hoff
      (validity_lookup _ _ _ Hr) Hup eq_refl) as Hu.
    rewrite list_insert_id, Z.add_0_r in Hu by exact (validity_lookup _ _ _ Hr).
    rewrite list_insert_id by done. destruct Hrep as [_ Hva Hty]. by split.
Qed.

Lemma updateValue_spec cv rows v isNil row :
  reserve_rep cv rows → BitMapOffset cv = 0%nat → (row < length rows)%nat → in_type v → in_type 0 →
  ∃ cv', updateValue cv v isNil row = Ok cv' ∧
         reserve_rep cv' (<[row := if isNil then None else Some v]> rows).
Proof.
  intros Hrep Hoff Hrow Hv H0. unfold updateValue. destruct isNil; [by apply updateIntoNull_spec|].
  destruct (lookup_lt_is_Some_2 rows row Hrow) as [r Hr].
  pose proof (rr_bits _ _ Hrep) as Hb. pose proof (rep_bits_fit _ _ Hb) as Hfit.
  pose proof (br_len _ _ Hb) as Hl. rewrite length_validity in Hl.
  rewrite (IsNil_spec cv _ Hb row (present r)) by by apply validity_lookup. rs.
  destruct (bit_set_spec (Bitmap cv) row) as (b' & Hset & Hup); [lia|].
  pose proof (set_value_spec cv rows row v Hrep Hrow) as Hsv. unfold set_value in *.
  set (c1 := if negb (present r) then add_Len cv 0 (-1) else cv).
  assert (Hc1 : Val c1 = Val cv ∧ Offset c1 = Offset cv ∧ Bitmap c1 = Bitmap cv ∧
    BitMapOffset c1 = BitMapOffset cv ∧ Len c1 = Len cv ∧
    NilCount c1 = NilCount cv + ((if present r then 1 else 0) - 1)).
  { unfold c1. destruct r; cbn; split_and!; try done; lia. }
  destruct Hc1 as (E1 & E2 & E3 & E4 & E5 & E6). rewrite E1.
  destruct (row <? slen (Val cv) / sizeof)%nat; [|done]. injection Hsv as Hsv. rs.
  cbn [set_Val Bitmap]. rewrite E3, Hset. rs. eexists; split; [done|].
  unfold set_Bitmap, set_Val. cbn [Val Offset BitMapOffset Len NilCount]. rewrite Hsv, E2, E4, E5, E6.
  by apply (reserve_update cv rows row r (Some v)).
Qed.
End Reserve.

(** In a column that keeps a slot for every row, UpdateIntegerValue and its siblings
    replace exactly the updated row by the new value or by null, and keep NilCount
    right, provided the column starts at bit 0 of its bitmap. *)
Theorem updateValue_updates {T : BasicType} (cv : ColVal) rows v isNil row :
  reserve_rep cv rows → BitMapOffset cv = 0%nat → (row < length rows)%nat → in_type v → in_type 0 →
  ∃ cv', updateValue cv v isNil row = Ok cv' ∧
         reserve_rep cv' (<[row := if isNil then None else Some v]> rows).
Proof. apply updateValue_spec. Qed.

(** Four rows, 5, null, 7 and null, with a slot each. *)
Definition slot_col : ColVal :=
  mk_ColVal (mk_slice (bytes_le 8 [5; 0; 7; 0]) []) nil_slice (mk_slice [5] []) 0 4 2.

Lemma slot_rep : @reserve_rep int64 slot_col [Some 5; None; Some 7; None].
Proof.
  split; [|reflexivity|repeat constructor; by_compute].
  split; try reflexivity; by_compute.
Qed.

Lemma updateValue_updates_witness :
  ∃ cv', @updateValue int64 slot_col (-3) false 1 = Ok cv' ∧
         @reserve_rep int64 cv' (<[1%nat := Some (-3)]> [Some 5; None; Some 7; None]).
Proof.
  apply (@updateValue_updates int64 slot_col [Some 5; None; Some 7; None] (-3) false 1);
    [exact slot_rep|reflexivity|cbn; lia|by_compute|by_compute].
Defined.

(** UpdateValue ignores BitMapOffset when it sets the validity bit.  On a column that
    starts at bit 3 of its bitmap (as the parts of a Split do), updating the null row 1
    leaves its validity bit clear, while NilCount drops to 0. *)
Theorem updateValue_ignores_offset :
  let cv := mk_ColVal (mk_slice (bytes_le 8 [5; 0]) []) nil_slice (mk_slice [8] []) 3 2 1 in
  @reserve_rep int64 cv [Some 5; None] ∧
  ∃ cv', @updateValue int64 cv 9 false 1 = Ok cv' ∧ NilCount cv' = 0 ∧
         RowBitmap cv' [] = Ok [true; false].
Proof.
  intros cv. split.
  - split; [|reflexivity|repeat constructor; by_compute]. split; try reflexivity; [by_compute|discriminate].
  - eexists. split; [reflexivity|]. split; reflexivity.
Qed.

(** removeLastValue does not look at the validity of the row it removes: on a column
    whose last row is null it takes the bytes of the previous value away and keeps
    NilCount, so that one row with no value and NilCount 1 remain. *)
Lemma removeLastValue_null_row :
  let cv := mk_ColVal (mk_slice (bytes_le 8 [5]) []) nil_slice (mk_slice [1] []) 0 2 1 in
  @fixed_rep int64 cv [Some 5; None] ∧
  ∃ cv', @removeLastValue tight_runtime int64 cv = Ok cv' ∧
         Len cv' = 1%nat ∧ NilCount cv' = 1 ∧ RowBitmap cv' [] = Ok [true] ∧ sdata (Val cv') = [].
Proof.
  intros cv. split.
  - split; [|reflexivity|repeat constructor; by_compute]. split; try reflexivity; by_compute.
  - eexists. split; [reflexivity|]. split_and!; reflexivity.
Qed.
