(* ===== verification/ColStrings.v ===== *)
(** * lib/record: string columns refine lists of optional strings

    column_string.go keeps the bytes of all rows in [Val] and the start of every row,
    null or not, in [Offset]; a row ends where the next one starts. *)

From S2P Require Import Prelude GoSlice Bitmap ColVal ColRefine.

(** The bytes of the rows, and the start of every row. *)
Definition text (rows : list (option (list Z))) : list Z := concat (somes rows).
Definition start_of (rows : list (option (list Z))) (i : nat) : nat := length (text (take i rows)).
Definition starts (rows : list (option (list Z))) : list Z :=
  (λ i, Z.of_nat (start_of rows i)) <$> seq 0 (length rows).

Lemma text_app r r' : text (r ++ r') = text r ++ text r'.
Proof. unfold text. by rewrite somes_app, concat_app. Qed.

Lemma length_starts rows : length (starts rows) = length rows.
Proof. unfold starts. len. Qed.
#[export] Hint Rewrite length_starts : gemini_len.

Lemma starts_lookup rows i :
  (i < length rows)%nat → starts rows !! i = Some (Z.of_nat (start_of rows i)).
Proof. intros. unfold starts. by rewrite list_lookup_fmap, lookup_seq_lt by done. Qed.

Lemma start_of_app rows new i : (i <= length rows)%nat → start_of (rows ++ new) i = start_of rows i.
Proof. intros. unfold start_of. by rewrite take_app_le. Qed.

Lemma start_of_add rows i k :
  start_of rows (i + k) = (start_of rows i + length (text (take k (drop i rows))))%nat.
Proof. unfold start_of. by rewrite <- take_drop_app, text_app, length_app. Qed.

Lemma start_of_mono rows i j : (i <= j)%nat → (start_of rows i <= start_of rows j)%nat.
Proof. intros. replace j with (i + (j - i))%nat by lia. rewrite start_of_add. lia. Qed.

Lemma start_of_total rows i : (length rows <= i)%nat → start_of rows i = length (text rows).
Proof. intros. unfold start_of. by rewrite take_ge. Qed.

Lemma start_of_le rows i : (start_of rows i <= length (text rows))%nat.
Proof.
  destruct (decide (length rows <= i)%nat); [by rewrite start_of_total|].
  rewrite <- (start_of_total rows (length rows)) by lia. apply start_of_mono. lia.
Qed.

Lemma starts_app rows new :
  starts (rows ++ new) =
  starts rows ++ ((λ i, Z.of_nat (length (text rows) + start_of new i)) <$> seq 0 (length new)).
Proof.
  unfold starts. rewrite length_app, seq_app, fmap_app. f_equal.
  - apply list_fmap_ext. intros j i [-> Hi]%lookup_seq. by rewrite start_of_app by lia.
  - apply list_eq. intros j. rewrite !list_lookup_fmap.
    destruct (decide (j < length new)%nat); [|by rewrite !lookup_seq_ge by lia].
    rewrite !lookup_seq_lt by done. cbn [fmap option_fmap option_map]. do 2 f_equal. unfold start_of.
    rewrite take_app_ge, text_app, length_app by lia. do 4 f_equal. lia.
Qed.

(** The bytes between the starts of rows [s] and [e]. *)
Lemma text_slice rows s e :
  (s <= e)%nat → take (start_of rows e - start_of rows s) (drop (start_of rows s) (text rows)) =
  text (take (e - s) (drop s rows)).
Proof.
  intros Hse.
  assert (Ht : text rows = text (take s rows) ++ text (take (e - s) (drop s rows)) ++ text (drop e rows)).
  { rewrite <- !text_app, app_assoc, take_drop_app. replace (s + (e - s))%nat with e by lia.
    by rewrite take_drop. }
  replace e with (s + (e - s))%nat at 1 by lia. rewrite start_of_add, Ht.
  rewrite drop_app_length' by done. apply take_app_length'. lia.
Qed.

Lemma text_tail rows s :
  drop (start_of rows s) (text rows) = text (drop s rows).
Proof.
  rewrite <- (take_drop s rows) at 2. rewrite text_app. by apply drop_app_length'.
Qed.

Record str_rep (cv : ColVal) (rows : list (option (list Z))) : Prop := {
  sr_bits : bits_rep cv (validity rows);
  sr_val : sdata (Val cv) = text rows;
  sr_off : sdata (Offset cv) = starts rows;
  sr_fits : Z.of_nat (length (text rows)) < 2 ^ 32;
}.

Lemma str_rep_empty : str_rep empty_col [].
Proof. split; [|done|done|done]. split; try done. by_compute. Qed.

Lemma in_u32_start rows i : Z.of_nat (length (text rows)) < 2 ^ 32 → in_u 32 (Z.of_nat (start_of rows i)).
Proof. intros. pose proof (start_of_le rows i). unfold in_u. lia. Qed.

(** ** Reading rows *)

Section Reading.
Context (cv : ColVal) (rows : list (option (list Z))) (Hrep : str_rep cv rows).

Lemma str_len : Len cv = length rows.
Proof. rewrite (br_len _ _ (sr_bits _ _ Hrep)). apply length_validity. Qed.

Lemma row_bytes_spec i r :
  rows !! i = Some r → row_bytes cv i = Ok (default [] r).
Proof.
  intros Hr. pose proof (lookup_lt_Some _ _ _ Hr) as Hi. destruct Hrep as [_ Hv Ho _].
  assert (Hone : text (take 1 (drop i rows)) = default [] r).
  { rewrite (drop_S rows r i) by done. unfold text. destruct r; cbn; by rewrite ?app_nil_r. }
  unfold row_bytes, slen. rewrite Ho, length_starts. bcase.
  - rewrite (index_Ok _ _ _ (starts_lookup rows i Hi)). rs. rewrite Nat2Z.id, Hv.
    rewrite from_Ok by apply start_of_le. rewrite text_tail, <- Hone. do 2 f_equal.
    rewrite take_ge by len. done.
  - rewrite (index_Ok _ _ _ (starts_lookup rows i Hi)). rs.
    rewrite (index_Ok _ _ _ (starts_lookup rows (S i) ltac:(lia))). rs. rewrite !Nat2Z.id.
    destruct (reslice_spec (Val cv) (start_of rows i) (start_of rows (S i))) as (b & -> & Hb).
    + apply start_of_mono. lia.
    + unfold slen. rewrite Hv. apply start_of_le.
    + rs. rewrite Hb, Hv, text_slice by lia. replace (S i - i)%nat with 1%nat by lia. by rewrite Hone.
Qed.

Definition str_view (i : nat) : list Z * bool :=
  match rows !! i with
  | Some (Some v) => (v, false)
  | _ => ([], true)
  end.

Lemma StringValue_spec i : StringValue cv i = Ok (str_view i).
Proof.
  pose proof (sr_bits _ _ Hrep) as Hb. unfold StringValue, str_view.
  destruct (rows !! i) as [r|] eqn:Hr.
  - rewrite (IsNil_spec cv _ Hb i (present r)) by by apply validity_lookup. rs.
    destruct r as [v|]; cbn [present negb]; [|done].
    by rewrite (row_bytes_spec i _ Hr).
  - rewrite (IsNil_beyond cv _ Hb); [done|]. rewrite length_validity. by apply lookup_ge_None.
Qed.

Lemma strings_loop_spec dst i k :
  (i + k = length rows)%nat → strings_loop cv dst i k = Ok (dst ++ somes (drop i rows)).
Proof.
  pose proof (sr_bits _ _ Hrep) as Hb.
  revert dst i. induction k as [|k IH]; intros dst i Hik; cbn [strings_loop].
  - rewrite drop_ge by lia. by rewrite app_nil_r.
  - destruct (lookup_lt_is_Some_2 rows i) as [r Hr]; [lia|].
    rewrite (IsNil_spec cv _ Hb i (present r)) by by apply validity_lookup. rs.
    rewrite (drop_S rows r i) by done. destruct r as [v|]; cbn [present negb].
    + rewrite (row_bytes_spec i _ Hr). rs. rewrite IH by lia. by rewrite <- app_assoc.
    + rewrite IH by lia. done.
Qed.

Lemma StringValues_spec dst : StringValues cv dst = Ok (dst ++ somes rows).
Proof.
  unfold StringValues, slen. rewrite (sr_off _ _ Hrep), length_starts.
  rewrite strings_loop_spec by lia. by rewrite drop_0.
Qed.

Lemma nondecreasing_starts l :
  (∀ i a b, l !! i = Some a → l !! S i = Some b → a ≤ b) → nondecreasing l = true.
Proof.
  induction l as [|a [|b l] IH]; intros Hl; cbn [nondecreasing]; [done|done|].
  apply andb_true_intro. split; [apply Z.leb_le, (Hl 0%nat); done|].
  apply IH. intros i x y Hx Hy. by apply (Hl (S i)).
Qed.

Lemma ValidString_spec : ValidString cv = Ok true.
Proof.
  pose proof str_len as Hl. unfold ValidString, slen. rewrite (sr_off _ _ Hrep), length_starts.
  rewrite Hl, Nat.eqb_refl. cbn [negb]. bcase; [done|].
  rewrite (index_Ok _ _ _ (starts_lookup rows (length rows - 1) ltac:(lia))). rs.
  rewrite (sr_val _ _ Hrep). pose proof (start_of_le rows (length rows - 1)). bcase.
  f_equal. apply nondecreasing_starts. intros i a b Ha Hb.
  pose proof (lookup_lt_Some _ _ _ Hb) as Hi. rewrite length_starts in Hi.
  rewrite starts_lookup in Ha, Hb by lia. injection Ha as <-. injection Hb as <-.
  pose proof (start_of_mono rows i (S i)). lia.
Qed.
End Reading.

(** ** Appending rows *)

Section Appending.
Context `{GoRuntime}.

Lemma str_extend cv rows new va o b' off n nils :
  str_rep cv rows → Z.of_nat (length (text (rows ++ new))) < 2 ^ 32 →
  sdata va = sdata (Val cv) ++ text new →
  sdata o = sdata (Offset cv) ++ ((λ i, Z.of_nat (length (text rows) + start_of new i)) <$> seq 0 (length new)) →
  bits_rep (mk_ColVal va o b' off n nils) (validity rows ++ validity new) →
  str_rep (mk_ColVal va o b' off n nils) (rows ++ new).
Proof.
  intros [_ Hv Ho _] Hfit Hv' Ho' Hb. split; cbn [Val Offset].
  - by rewrite validity_app.
  - by rewrite Hv', Hv, text_app.
  - by rewrite Ho', Ho, starts_app.
  - done.
Qed.

(** reserveOffset(1) and the store of the new row's start. *)
Lemma push_offset cv x :
  Len cv = slen (Offset cv) →
  ∃ o, (let! c := reserveOffset cv 1 in set_Offset_at c (Len c) x) = Ok (set_Offset cv o) ∧
       sdata o = sdata (Offset cv) ++ [x].
Proof.
  intros Hl. unfold reserveOffset. destruct (reserve_spec (Offset cv) 1) as (o & -> & Ho & Ht & _). rs.
  unfold set_Offset_at, store. cbn [Offset set_Offset Len]. bcase. rs.
  eexists; split; [done|]. cbn [sdata]. rewrite insert_take_drop by (unfold slen in *; lia).
  rewrite Hl, Ht, drop_ge; [done|]. unfold slen in *. lia.
Qed.

Lemma str_len_offset cv rows : str_rep cv rows → Len cv = slen (Offset cv).
Proof. intros Hrep. rewrite (str_len cv rows Hrep). unfold slen. by rewrite (sr_off _ _ Hrep), length_starts. Qed.

Lemma u32_total cv rows : str_rep cv rows → u32 (Z.of_nat (slen (Val cv))) = Z.of_nat (length (text rows)).
Proof. intros [_ Hv _ Hf]. unfold slen. rewrite Hv. apply (wrap_u_id 32). unfold in_u. lia. Qed.

Lemma bind_assoc {A B C} (m : res A) (f : A → res B) (g : B → res C) :
  res_bind (res_bind m f) g = res_bind m (λ a, res_bind (f a) g).
Proof. by destruct m. Qed.

Lemma AppendString_spec cv rows v :
  str_rep cv rows → Z.of_nat (length (text rows) + length v) < 2 ^ 32 →
  ∃ cv', AppendString cv v = Ok cv' ∧ str_rep cv' (rows ++ [Some v]).
Proof.
  intros Hrep Hfit. unfold AppendString. rewrite (u32_total cv rows Hrep).
  destruct (reserveVal_put cv v) as (va & -> & Hl & Ho). rs.
  set (c1 := set_Val (set_Val cv va) _).
  destruct (push_offset c1 (Z.of_nat (length (text rows))) (str_len_offset cv rows Hrep)) as (o & Hp & Hod).
  rewrite <- bind_assoc, Hp. rs. clear Hp.
  set (c2 := set_Offset c1 o).
  assert (Hb1 : bits_rep c2 (validity rows)) by (destruct Hrep as [[] _ _]; by split).
  destruct (setBitMap_spec c2 _ Hb1) as (b' & -> & Hb'). rs. eexists; split; [done|].
  apply (str_extend cv rows [Some v]).
  - done.
  - rewrite text_app, length_app. unfold text at 2. cbn. by rewrite app_nil_r.
  - cbn. by rewrite Ho, app_nil_r.
  - cbn. by rewrite Hod, Nat.add_0_r.
  - apply Hb'.
Qed.

Lemma AppendByteSlice_spec cv rows v :
  str_rep cv rows → Z.of_nat (length (text rows) + length v) < 2 ^ 32 →
  ∃ cv', AppendByteSlice cv v = Ok cv' ∧ str_rep cv' (rows ++ [Some v]).
Proof.
  intros Hrep Hfit. unfold AppendByteSlice. rewrite (u32_total cv rows Hrep).
  match goal with |- context [setBitMap ?c _] => set (c2 := c) end.
  assert (Hb1 : bits_rep c2 (validity rows)) by (destruct Hrep as [[] _ _]; by split).
  destruct (setBitMap_spec c2 _ Hb1) as (b' & -> & Hb'). rs. eexists; split; [done|].
  apply (str_extend cv rows [Some v]).
  - done.
  - rewrite text_app, length_app. unfold text at 2. cbn. by rewrite app_nil_r.
  - cbn. by rewrite sdata_append, app_nil_r.
  - cbn. by rewrite sdata_append, Nat.add_0_r.
  - apply Hb'.
Qed.

Lemma AppendStringNull_spec cv rows :
  str_rep cv rows → ∃ cv', AppendStringNull cv = Ok cv' ∧ str_rep cv' (rows ++ [None]).
Proof.
  intros Hrep. unfold AppendStringNull.
  destruct (push_offset cv (Z.of_nat (length (text rows))) (str_len_offset cv rows Hrep)) as (o & Hp & Hod).
  unfold reserveOffset in *. destruct (reserve (Offset cv) 1) as [r| | |]; try discriminate Hp. rs.
  change (Val (set_Offset cv r)) with (Val cv). rewrite (u32_total cv rows Hrep).
  cbn [res_bind] in Hp. rewrite Hp. rs. clear Hp.
  set (c2 := set_Offset cv o).
  assert (Hb1 : bits_rep c2 (validity rows)) by (destruct Hrep as [[] _ _]; by split).
  destruct (resetBitMap_spec c2 _ Hb1) as (b' & -> & Hb'). rs. eexists; split; [done|].
  apply (str_extend cv rows [None]).
  - done.
  - rewrite text_app, length_app. change (length (text [None])) with 0%nat. rewrite Nat.add_0_r. apply (sr_fits _ _ Hrep).
  - cbn. by rewrite app_nil_r.
  - cbn. by rewrite Hod, Nat.add_0_r.
  - apply Hb'.
Qed.

Lemma text_nulls n : text (replicate n None) = [].
Proof. unfold text. by rewrite somes_replicate_None. Qed.

Lemma PadColVal_string_spec cv rows n :
  str_rep cv rows →
  ∃ cv', PadColVal cv Field_Type_String n = Ok cv' ∧ str_rep cv' (rows ++ replicate n None).
Proof.
  intros Hrep. unfold PadColVal. bcase.
  - subst n. rewrite app_nil_r. eauto.
  - rewrite decide_True by done. rewrite (u32_total cv rows Hrep).
    match goal with |- context [grow_bitmap (Bitmap ?c) _] => set (c2 := c) end.
    assert (Hb1 : bits_rep c2 (validity rows)) by (destruct Hrep as [[] _ _]; by split).
    destruct (pad_bits c2 _ n Hb1) as (b1 & b2 & -> & Hb2 & Hb'). rs. rewrite Hb2. rs.
    eexists; split; [done|]. apply (str_extend cv rows (replicate n None)).
    + done.
    + rewrite text_app, text_nulls, app_nil_r. apply (sr_fits _ _ Hrep).
    + rewrite text_nulls, app_nil_r. done.
    + cbn. rewrite sdata_append. f_equal. apply list_eq. intros i. rewrite list_lookup_fmap.
      destruct (decide (i < n)%nat).
      * rewrite lookup_replicate_2, lookup_seq_lt by (rewrite ?length_replicate; done).
        cbn [fmap option_fmap option_map]. do 2 f_equal.
        unfold start_of. rewrite take_replicate, text_nulls. cbn [length]. lia.
      * rewrite lookup_seq_ge, lookup_ge_None_2 by len. done.
    + rewrite validity_replicate_None. apply Hb'.
Qed.

(** ** Row ranges of another column *)

Lemma start_of_sub rows s n j :
  (j <= n)%nat → start_of (take n (drop s rows)) j = (start_of rows (s + j) - start_of rows s)%nat.
Proof.
  intros. rewrite start_of_add. unfold start_of. rewrite take_take, Nat.min_l by lia. lia.
Qed.

Lemma append_offsets_spec dst srows base first s i k :
  (i + k <= length srows)%nat → (s <= i)%nat → (first = false → (s < i)%nat) →
  base + Z.of_nat (start_of srows (i + k)) - Z.of_nat (start_of srows s) < 2 ^ 32 → 0 ≤ base →
  (first = true → i = s) →
  ∃ o, append_offsets dst (starts srows)
         (base + Z.of_nat (start_of srows (if first then i else i - 1)) - Z.of_nat (start_of srows s)) first i k = Ok o ∧
       sdata o = sdata dst ++ ((λ j, base + Z.of_nat (start_of srows (i + j)) - Z.of_nat (start_of srows s)) <$> seq 0 k).
Proof.
  intros Hik Hsi Hf Hfit Hb Ht. revert dst first i Hik Hsi Hf Hfit Ht.
  induction k as [|k IH]; intros dst first i Hik Hsi Hf Hfit Ht; cbn [append_offsets].
  - eexists; split; [done|]. by rewrite app_nil_r.
  - set (off := base + Z.of_nat (start_of srows i) - Z.of_nat (start_of srows s)).
    assert (Hoff : (if first then Ok (base + Z.of_nat (start_of srows (if first then i else i - 1)) - Z.of_nat (start_of srows s))
      else let! a := index (starts srows) i in let! b := index (starts srows) (i - 1) in
        Ok (u32 (base + Z.of_nat (start_of srows (if first then i else i - 1)) - Z.of_nat (start_of srows s) + u32 (a - b)))) = Ok off).
    { destruct first; [done|]. specialize (Hf eq_refl).
      rewrite (index_Ok _ _ _ (starts_lookup srows i ltac:(lia))). rs.
      rewrite (index_Ok _ _ _ (starts_lookup srows (i - 1) ltac:(lia))). rs. f_equal.
      rewrite wrap_u_add_r. rewrite (wrap_u_id 32); [unfold off; lia|].
      pose proof (start_of_mono srows i (i + S k) ltac:(lia)).
      pose proof (start_of_mono srows s i ltac:(lia)). unfold in_u. lia. }
    rewrite Hoff. cbn [res_bind].
    destruct (IH (append dst [off]) false (S i)) as (o & Ho & Hd);
      [lia|lia|lia|by replace (S i + k)%nat with (i + S k)%nat by lia|done|].
    replace (S i - 1)%nat with i in Ho by lia. fold off in Ho. rewrite Ho.
    eexists; split; [done|]. rewrite Hd, sdata_append, <- app_assoc. f_equal.
    cbn [seq fmap list_fmap app]. rewrite Nat.add_0_r. fold off. f_equal.
    rewrite <- fmap_S_seq, <- list_fmap_compose. apply list_fmap_ext. intros ? j _. cbn.
    by rewrite Nat.add_succ_r.
Qed.

Lemma appendStringRows_spec cv rows src srows s e :
  str_rep cv rows → str_rep src srows → (s < e <= Len src)%nat →
  let new := take (e - s) (drop s srows) in
  Z.of_nat (length (text (rows ++ new))) < 2 ^ 32 →
  ∃ va o, appendStringRows cv (Val src) (Offset src) (Len src) s e = Ok (set_Offset (set_Val cv va) o) ∧
    sdata va = sdata (Val cv) ++ text new ∧
    sdata o = sdata (Offset cv) ++ ((λ i, Z.of_nat (length (text rows) + start_of new i)) <$> seq 0 (length new)).
Proof.
  intros Hrep Hsrc Hse new Hfit. pose proof (str_len src srows Hsrc) as Hsl.
  rewrite text_app, length_app in Hfit. unfold new in Hfit. rewrite <- text_slice in Hfit by lia.
  rewrite length_take, length_drop in Hfit. pose proof (start_of_le srows e). rewrite Nat.min_l in Hfit by lia.
  assert (Hnew : length new = (e - s)%nat) by (unfold new; len).
  unfold appendStringRows. rewrite (u32_total cv rows Hrep), (sr_off _ _ Hsrc).
  destruct (append_offsets_spec (Offset cv) srows (Z.of_nat (length (text rows))) true s s (e - s))
    as (o & Ho & Hod); [lia|lia|done| |lia|done|].
  { replace (s + (e - s))%nat with e by lia. pose proof (start_of_mono srows s e). lia. }
  replace (Z.of_nat (length (text rows)) + Z.of_nat (start_of srows s) - Z.of_nat (start_of srows s))
    with (Z.of_nat (length (text rows))) in Ho by lia.
  rewrite Ho. rs. rewrite (index_Ok _ _ _ (starts_lookup srows s ltac:(lia))). rs. rewrite Nat2Z.id.
  assert (∃ bs, (if (e =? Len src)%nat then from (sdata (Val src)) (start_of srows s)
    else let! x := index (starts srows) e in
      let! b := reslice (Val src) (start_of srows s) (Z.to_nat x) in Ok (sdata b)) = Ok bs ∧ bs = text new)
    as (bs & -> & ->).
  { rewrite (sr_val _ _ Hsrc). bcase.
    - rewrite from_Ok by apply start_of_le. eexists; split; [done|]. rewrite text_tail. unfold new.
      f_equal. rewrite take_ge; [done|]. len.
    - rewrite (index_Ok _ _ _ (starts_lookup srows e ltac:(lia))). rs. rewrite Nat2Z.id.
      destruct (reslice_spec (Val src) (start_of srows s) (start_of srows e)) as (b & -> & Hb).
      + apply start_of_mono. lia.
      + unfold slen. rewrite (sr_val _ _ Hsrc). apply start_of_le.
      + rs. eexists; split; [done|]. rewrite Hb, (sr_val _ _ Hsrc). apply text_slice. lia. }
  rs. eexists _, o. split; [done|]. rewrite sdata_append. split; [done|].
  rewrite Hod, Hnew. f_equal. apply list_fmap_ext. intros j ? [-> Hj]%lookup_seq. cbn [Nat.add]. unfold new.
  rewrite start_of_sub by lia. pose proof (start_of_mono srows s (s + j) ltac:(lia)). lia.
Qed.

Lemma AppendColVal_string_spec cv rows src srows ft s e pos cnt :
  str_rep cv rows → str_rep src srows → (ft = Field_Type_String ∨ ft = Field_Type_Tag) →
  (s <= e <= Len src)%nat → Z.of_nat (length (text (rows ++ take (e - s) (drop s srows)))) < 2 ^ 32 →
  ((pos <= s)%nat → cnt = Z.of_nat (count_true (take pos (validity srows)))) →
  ∃ cv', AppendColValFast cv src ft s e pos cnt = Ok cv' ∧
         str_rep cv' (rows ++ take (e - s) (drop s srows)).
Proof.
  intros Hrep Hsrc Hft Hse Hfit Hcnt. unfold AppendColValFast, Append.
  pose proof (str_len src srows Hsrc) as Hsl. pose proof (str_len cv rows Hrep) as Hl.
  set (new := take (e - s) (drop s srows)) in *.
  destruct ((e <=? s) || (Len src =? 0))%nat eqn:E0.
  { replace new with (@nil (option (list Z))); [rewrite app_nil_r; eauto|].
    apply orb_true_iff in E0. rewrite Nat.leb_le, Nat.eqb_eq in E0. symmetry. apply length_zero_iff_nil.
    unfold new. len. }
  apply orb_false_iff in E0. rewrite Nat.leb_gt, Nat.eqb_neq in E0.
  destruct ((e - s =? Len src) && (Len cv =? 0))%nat eqn:E1.
  - apply andb_true_iff in E1. rewrite !Nat.eqb_eq in E1. destruct E1 as [E1 E2].
    rewrite E2 in Hl. symmetry in Hl. apply length_zero_iff_nil in Hl as ->.
    destruct (copy_all_bits cv src _ (sr_bits _ _ Hrep) (sr_bits _ _ Hsrc)) as (sub & -> & Hb); [len|].
    assert (Hnew : new = srows).
    { unfold new. replace s with 0%nat by lia. by rewrite drop_0, take_ge by lia. }
    rs. eexists; split; [done|]. rewrite Hnew in *. apply (str_extend cv []); [done|done| | |apply Hb].
    + by rewrite sdata_append, (sr_val _ _ Hsrc).
    + rewrite sdata_append, (sr_off _ _ Hsrc). done.
  - pose proof (sr_bits _ _ Hsrc) as Hsb. rewrite (hinted_range src _ s e pos cnt Hsb Hse Hcnt). rs.
    destruct (appendStringRows_spec cv rows src srows s e Hrep Hsrc ltac:(lia) Hfit) as (va & o & Hap & Hva & Ho).
    match goal with |- context [match ft with _ => _ end] =>
      replace (match ft with Field_Type_Int => _ | _ => _ end)
        with (Ok (set_Offset (set_Val cv va) o)) by (by destruct Hft as [->| ->]) end.
    rs. set (c1 := set_Offset (set_Val cv va) o).
    assert (Hb1 : bits_rep c1 (validity rows)) by (destruct Hrep as [[] _ _]; by split).
    destruct (appendBitmap_spec c1 _ (Bitmap src) (BitMapOffset src) (Len src) s e Hb1)
      as (b' & -> & Hb'); [apply Hsb|by rewrite (br_size _ _ Hsb)|lia|].
    rs. eexists; split; [done|]. rewrite (rows_range_bits src srows s e Hsb Hse) in Hb'.
    apply (str_extend cv); [done|done|done|done|].
    cbn [NilCount Len BitMapOffset set_Bitmap set_Val set_Offset c1] in *.
    rewrite (count_range_diff srows s e) by lia.
    replace (Z.of_nat e - Z.of_nat s) with (Z.of_nat (e - s)) by lia. apply Hb'.
Qed.
End Appending.

(** ** Splitting *)

Lemma slice_offsets_spec src srows dst s idx pos k cnt :
  str_rep src srows → (pos + k <= length srows)%nat → (s <= pos)%nat → (slen dst = idx + k)%nat →
  ∃ o, slice_offsets src dst (Z.of_nat (start_of srows s)) idx pos k cnt =
         Ok (o, cnt + Z.of_nat (count_true (validity (take k (drop pos srows))))) ∧
       sdata o = take idx (sdata dst) ++
         ((λ j, Z.of_nat (start_of srows (pos + j) - start_of srows s)) <$> seq 0 k).
Proof.
  intros Hrep. revert dst idx pos cnt. induction k as [|k IH]; intros dst idx pos cnt Hk Hs Hd; cbn [slice_offsets].
  - eexists. split; [cbn; rewrite Z.add_0_r; done|]. rewrite app_nil_r, take_ge; [done|]. unfold slen in *. lia.
  - rewrite (sr_off _ _ Hrep), (index_Ok _ _ _ (starts_lookup srows pos ltac:(lia))). rs.
    set (x := u32 _). assert (Hx : x = Z.of_nat (start_of srows pos - start_of srows s)).
    { unfold x. pose proof (start_of_mono srows s pos Hs). pose proof (start_of_le srows pos).
      pose proof (sr_fits _ _ Hrep). rewrite (wrap_u_id 32); [lia|]. unfold in_u. lia. }
    unfold store. bcase. rs. destruct (lookup_lt_is_Some_2 srows pos) as [r Hr]; [lia|].
    rewrite (rep_test src _ (sr_bits _ _ Hrep) pos (present r)) by by apply validity_lookup. rs.
    destruct (IH (mk_slice (<[idx:=x]> (sdata dst)) (sspare dst)) (S idx) (S pos)
                (if present r then cnt + 1 else cnt)) as (o & -> & Ho); [lia|lia|unfold slen in *; cbn; len|].
    eexists. split.
    + f_equal. f_equal. rewrite (drop_S srows r pos) by done. cbn [take firstn]. unfold validity.
      rewrite fmap_cons, count_true_cons. destruct r; cbn [present]; lia.
    + rewrite Ho. cbn [sdata seq fmap list_fmap]. rewrite (take_S_r _ idx x).
      2: { apply list_lookup_insert_eq. unfold slen in *. lia. }
      rewrite take_insert_ge by lia. rewrite <- app_assoc. f_equal. cbn [app]. rewrite Nat.add_0_r, <- Hx. f_equal.
      rewrite <- fmap_S_seq, <- list_fmap_compose. apply list_fmap_ext. intros ? j _. cbn.
      by rewrite Nat.add_succ_r.
Qed.

Lemma reserveValOffset_spec cv n :
  ∃ o, reserveValOffset cv n = Ok (set_Offset cv o) ∧ slen o = n.
Proof.
  unfold reserveValOffset. bcase.
  - rewrite reslice_to_Ok by (unfold scap; cbn; unfold zeros; len). rs. eexists; split; [done|].
    unfold slen. cbn [sdata]. unfold sback, zeros. cbn [sdata sspare]. len.
  - rewrite reslice_to_Ok by lia. rs. eexists; split; [done|]. unfold slen. cbn [sdata]. len.
Qed.

Lemma split_string_segment cv rows dst s e off :
  str_rep cv rows → (s < e <= Len cv)%nat →
  ∃ col off', split_segment cv dst s e Field_Type_String off = Ok (col, off') ∧
              str_rep col (take (e - s) (drop s rows)).
Proof.
  intros Hrep Hse. pose proof (str_len cv rows Hrep) as Hl. pose proof (sr_bits _ _ Hrep) as Hb.
  set (new := take (e - s) (drop s rows)).
  unfold split_segment, sliceValAndOffset.
  rewrite (sr_off _ _ Hrep), (index_Ok _ _ _ (starts_lookup rows s ltac:(lia))). cbn [res_bind].
  assert (Hend : (if (e =? Len cv)%nat then Ok (Z.of_nat (slen (Val cv))) else index (starts rows) e) =
                 Ok (Z.of_nat (start_of rows e))).
  { bcase; [|by rewrite (index_Ok _ _ _ (starts_lookup rows e ltac:(lia)))].
    unfold slen. by rewrite (sr_val _ _ Hrep), start_of_total by lia. }
  rewrite Hend. cbn [res_bind]. unfold resliceZ. rewrite !(proj2 (Z.ltb_ge (Z.of_nat _) 0)) by lia.
  cbn [orb]. rewrite !Nat2Z.id.
  destruct (reslice_spec (Val cv) (start_of rows s) (start_of rows e)) as (v & -> & Hv).
  { apply start_of_mono. lia. }
  { unfold slen. rewrite (sr_val _ _ Hrep). apply start_of_le. }
  cbn [res_bind]. destruct (reserveValOffset_spec (set_Val dst v) (e - s)) as (o1 & -> & Ho1). cbn [res_bind Offset set_Offset].
  destruct (slice_offsets_spec cv rows o1 s 0 s (e - s) 0 Hrep) as (o & -> & Ho); [lia|lia|lia|]. rs.
  match goal with |- context [sliceBitMap ?c _ _ _] => set (c1 := c) end.
  destruct (sliceBitMap_spec c1 cv _ s e Hb Hse) as (b & -> & Hsb). rs.
  eexists _, _; split; [done|]. fold new. rewrite <- validity_drop, <- validity_take in Hsb. fold new in Hsb.
  split; cbn [Val Offset].
  - rewrite Z.add_0_l. apply Hsb.
  - cbn [Val set_Offset set_Val c1]. rewrite Hv, (sr_val _ _ Hrep). apply text_slice. lia.
  - cbn [Offset set_Offset c1]. rewrite Ho, take_0. cbn [app]. unfold starts, new. rewrite length_take, length_drop.
    rewrite Nat.min_l by lia. apply list_fmap_ext. intros j ? [-> Hj]%lookup_seq. cbn [Nat.add].
    by rewrite start_of_sub by lia.
  - unfold new. rewrite <- text_slice by lia. pose proof (sr_fits _ _ Hrep). len.
Qed.

Lemma Split_string_spec cv rows dst maxRows :
  str_rep cv rows → (0 < maxRows)%nat →
  ∃ out parts, Split cv dst maxRows Field_Type_String = Ok out ∧ Forall2 str_rep out parts ∧
    concat parts = rows ∧ Forall (λ p, length p <= maxRows)%nat parts.
Proof.
  intros Hrep Hm. pose proof (str_len cv rows Hrep) as Hl.
  apply (Split_segments str_rep (λ _ _, True)); [done| |done|done].
  intros d s e off Hse _. destruct (split_string_segment cv rows d s e off Hrep Hse) as (col & off' & He & Hc).
  eauto.
Qed.

(** ** Sequences of operations *)

Section Ops.
Context `{GoRuntime}.

Inductive str_op :=
| SString (v : list Z)
| SBytes (v : list Z)
| SNull
| SPad (n : nat)
| SRows (src : ColVal) (srows : list (option (list Z))) (ft : FieldType) (s e : nat).

Definition run_str_op (cv : ColVal) (op : str_op) : res ColVal :=
  match op with
  | SString v => AppendString cv v
  | SBytes v => AppendByteSlice cv v
  | SNull => AppendStringNull cv
  | SPad n => PadColVal cv Field_Type_String n
  | SRows src _ ft s e => AppendColVal cv src ft s e
  end.

Fixpoint run_str_ops (cv : ColVal) (ops : list str_op) : res ColVal :=
  match ops with
  | [] => Ok cv
  | op :: ops => let! cv := run_str_op cv op in run_str_ops cv ops
  end.

Definition str_op_rows (op : str_op) : list (option (list Z)) :=
  match op with
  | SString v => [Some v]
  | SBytes v => [Some v]
  | SNull => [None]
  | SPad n => replicate n None
  | SRows _ srows _ s e => take (e - s) (drop s srows)
  end.

Definition str_op_ok (op : str_op) : Prop :=
  match op with
  | SRows src srows ft s e =>
      str_rep src srows ∧ (ft = Field_Type_String ∨ ft = Field_Type_Tag) ∧ (s <= e <= Len src)%nat
  | _ => True
  end.

(** The bytes an operation may add, for a source column all of its bytes. *)
Definition str_op_size (op : str_op) : nat :=
  match op with
  | SString v => length v
  | SBytes v => length v
  | SRows _ srows _ _ _ => length (text srows)
  | _ => 0
  end.

Lemma text_one v : text [Some v] = v.
Proof. unfold text. cbn. apply app_nil_r. Qed.

Lemma str_op_size_ok op : (length (text (str_op_rows op)) <= str_op_size op)%nat.
Proof.
  destruct op; cbn [str_op_rows str_op_size]; rewrite ?text_one, ?text_nulls; try done; try (cbn; lia).
  destruct (decide (s <= e)%nat).
  - rewrite <- text_slice by done. len.
  - replace (e - s)%nat with 0%nat by lia. rewrite take_0. cbn. lia.
Qed.

Lemma run_str_op_spec cv rows op :
  str_rep cv rows → str_op_ok op → Z.of_nat (length (text rows) + str_op_size op) < 2 ^ 32 →
  ∃ cv', run_str_op cv op = Ok cv' ∧ str_rep cv' (rows ++ str_op_rows op).
Proof.
  intros Hrep Hop Hfit. destruct op; cbn [run_str_op str_op_rows str_op_ok str_op_size] in *.
  - by apply AppendString_spec.
  - by apply AppendByteSlice_spec.
  - by apply AppendStringNull_spec.
  - by apply PadColVal_string_spec.
  - destruct Hop as (? & ? & ?). apply (AppendColVal_string_spec cv rows src srows ft s e 0 0); try done.
    rewrite text_app, length_app. pose proof (str_op_size_ok (SRows src srows ft s e)) as Hsz.
    cbn [str_op_rows str_op_size] in Hsz. lia.
Qed.

Lemma run_str_ops_spec cv rows ops :
  str_rep cv rows → Forall str_op_ok ops →
  Z.of_nat (length (text rows) + sum_list (str_op_size <$> ops)) < 2 ^ 32 →
  ∃ cv', run_str_ops cv ops = Ok cv' ∧ str_rep cv' (rows ++ concat (str_op_rows <$> ops)).
Proof.
  intros Hrep Hops. revert cv rows Hrep. induction Hops as [|op ops Hop _ IH]; intros cv rows Hrep Hfit;
    cbn [run_str_ops fmap list_fmap concat].
  - rewrite app_nil_r. eauto.
  - rewrite fmap_cons in Hfit. cbn [sum_list_with sum_list foldr] in Hfit.
    destruct (run_str_op_spec cv rows op Hrep Hop) as (cv1 & -> & H1); [cbn in Hfit; lia|]. rs.
    destruct (IH _ _ H1) as (cv2 & -> & H2).
    + rewrite text_app, length_app. pose proof (str_op_size_ok op). cbn in Hfit. lia.
    + rewrite <- app_assoc in H2. eauto.
Qed.
End Ops.

(** C18: a string column refines the list of its rows.  Any sequence of string, byte and
    null appends, padding and appended row ranges of other string columns, with less
    than 2^32 bytes in all, runs without panic from an empty column; StringValue
    then reads back every row, StringValues the rows that are not null, and the
    offsets pass the check of ValidString. *)
Theorem string_column_refines_rows `{GoRuntime} (ops : list str_op) :
  Forall str_op_ok ops → Z.of_nat (sum_list (str_op_size <$> ops)) < 2 ^ 32 →
  ∃ cv, run_str_ops empty_col ops = Ok cv ∧
    let rows := concat (str_op_rows <$> ops) in
    Len cv = length rows ∧ (∀ i, StringValue cv i = Ok (str_view rows i)) ∧
    (∀ dst, StringValues cv dst = Ok (dst ++ somes rows)) ∧ ValidString cv = Ok true.
Proof.
  intros Hops Hfit. destruct (run_str_ops_spec empty_col [] ops str_rep_empty Hops Hfit) as (cv & He & Hrep).
  exists cv. split; [done|]. cbn [app] in Hrep. split_and!.
  - by apply str_len.
  - by apply StringValue_spec.
  - by apply StringValues_spec.
  - by eapply ValidString_spec.
Qed.

(** Rows "hi", null, "" and "abc", starting at bit 6 of the bitmap. *)
Definition sample_strings : ColVal :=
  mk_ColVal (mk_slice [104; 105; 97; 98; 99] []) (mk_slice [0; 2; 2; 2] []) (mk_slice [64; 3] []) 6 4 1.
Definition sample_string_rows : list (option (list Z)) :=
  [Some [104; 105]; None; Some []; Some [97; 98; 99]].

Lemma sample_strings_rep : str_rep sample_strings sample_string_rows.
Proof.
  split; [|reflexivity|reflexivity|reflexivity]. split; try reflexivity; [by_compute|discriminate].
Qed.

Definition sample_str_ops : list str_op :=
  [SString [1; 2]; SNull; SRows sample_strings sample_string_rows Field_Type_Tag 1 4; SPad 5;
   SRows sample_strings sample_string_rows Field_Type_String 0 4; SBytes []; SString [9]].

Lemma string_column_refines_rows_witness :
  ∃ cv, @run_str_ops tight_runtime empty_col sample_str_ops = Ok cv ∧
    let rows := concat (str_op_rows <$> sample_str_ops) in
    Len cv = length rows ∧ (∀ i, StringValue cv i = Ok (str_view rows i)) ∧
    (∀ dst, StringValues cv dst = Ok (dst ++ somes rows)) ∧ ValidString cv = Ok true.
Proof.
  apply (@string_column_refines_rows tight_runtime sample_str_ops); [|reflexivity].
  repeat constructor; try exact sample_strings_rep; try (by left); try (by right); cbn; lia.
Defined.

(** Split cuts a string column into consecutive columns of at most [maxRows] rows whose
    offsets start again at 0, and the parts put together are the rows of the column. *)
Theorem Split_strings_partitions (cv : ColVal) rows dst maxRows :
  str_rep cv rows → (0 < maxRows)%nat →
  ∃ out parts, Split cv dst maxRows Field_Type_String = Ok out ∧ Forall2 str_rep out parts ∧
    concat parts = rows ∧ Forall (λ p, length p <= maxRows)%nat parts.
Proof. apply Split_string_spec. Qed.

Lemma Split_strings_partitions_witness :
  ∃ out parts, Split sample_strings [] 3 Field_Type_String = Ok out ∧ Forall2 str_rep out parts ∧
    concat parts = sample_string_rows ∧ Forall (λ p, length p <= 3)%nat parts.
Proof. apply (Split_strings_partitions sample_strings sample_string_rows [] 3); [exact sample_strings_rep|lia]. Defined.

(** PadColVal adds the offsets of the null rows only for Field_Type_String: padding a
    column with the other type whose rows are strings, Field_Type_Tag, leaves Offset
    short of Len, and the next AppendString panics. *)
Theorem pad_tag_column :
  ∃ cv, @PadColVal tight_runtime sample_strings Field_Type_Tag 2 = Ok cv ∧
        Len cv = 6%nat ∧ slen (Offset cv) = 4%nat ∧ ValidString cv = Ok false ∧
        @AppendString tight_runtime cv [120] = Panic.
Proof. eexists. split; [reflexivity|]. split_and!; reflexivity. Qed.
