(* ===== verification/Column.v ===== *)
(** * lib/record: the interface between columns and records

    Records only use a column through AppendColVal, PadColVal, IsNil and IntegerValues.  [Column]
    states what these promise in terms of a list of cells, one per row: a cell is the
    byte string of a value, or nothing for null.  [col_rep] is the implementation,
    built from [fixed_rep] and [str_rep]; the record proofs only use the class. *)

From S2P Require Import Prelude GoSlice Bitmap ColVal ColRefine ColStrings.

Abbreviation cell := (list Z).

(** The types a stored column has; tags are kept in their own columns. *)
Definition data_type (ft : FieldType) : Prop :=
  match ft with
  | Field_Type_Int | Field_Type_Float | Field_Type_Boolean | Field_Type_String => True
  | _ => False
  end.

(** The bytes of a string column are addressed with 32 bits. *)
Definition fits (rows : list (option cell)) : Prop := Z.of_nat (length (text rows)) < 2 ^ 32.

Definition blank (cv : ColVal) : Prop :=
  sdata (Val cv) = [] ∧ sdata (Offset cv) = [] ∧ sdata (Bitmap cv) = [] ∧ slice_ok (Bitmap cv) ∧
  BitMapOffset cv = 0%nat ∧ Len cv = 0%nat ∧ NilCount cv = 0.

(** The times of a time column. *)
Definition time_cells (ts : list Z) : list (option cell) := (λ t, Some (le_bytes 8 t)) <$> ts.

Class Column `{GoRuntime} (R : FieldType → ColVal → list (option cell) → Prop) : Prop := {
  col_blank ft cv : data_type ft → blank cv → R ft cv [];
  col_len ft cv rows : R ft cv rows → Len cv = length rows;
  col_nil ft cv rows i r : R ft cv rows → rows !! i = Some r → IsNil cv i = Ok (negb (present r));
  col_append ft cv rows src srows s e :
    R ft cv rows → R ft src srows → (s <= e <= length srows)%nat →
    (ft = Field_Type_String → fits (rows ++ take (e - s) (drop s srows))) →
    ∃ cv', AppendColVal cv src ft s e = Ok cv' ∧ R ft cv' (rows ++ take (e - s) (drop s srows));
  col_pad ft cv rows n :
    R ft cv rows → ∃ cv', PadColVal cv ft n = Ok cv' ∧ R ft cv' (rows ++ replicate n None);
  col_times cv ts :
    R Field_Type_Int cv (time_cells ts) → Forall (in_s 64) ts → @values int64 cv = ts;
}.

(** ** The implementation *)

(** A word as it is stored, for any fixed-size type. *)
Definition word8 : BasicType := float64.
Definition word1 : BasicType.
Proof.
  refine {| sizeof := 1; of_word := λ w, w; in_type := in_u 8 |}; [lia|].
  intros v Hv. change (256 ^ Z.of_nat 1) with (2 ^ 8). by apply Z.mod_small.
Defined.

Definition cells (w : nat) (zs : list (option Z)) : list (option cell) :=
  (λ z : option Z, le_bytes w <$> z) <$> zs.

Definition col_rep (ft : FieldType) (cv : ColVal) (rows : list (option cell)) : Prop :=
  match ft with
  | Field_Type_Int | Field_Type_Float => ∃ zs, @fixed_rep word8 cv zs ∧ rows = cells 8 zs
  | Field_Type_Boolean => ∃ zs, @fixed_rep word1 cv zs ∧ rows = cells 1 zs
  | Field_Type_String => str_rep cv rows
  | _ => False
  end.

Lemma cells_app w a b : cells w (a ++ b) = cells w a ++ cells w b.
Proof. apply fmap_app. Qed.
Lemma cells_slice w zs s n : cells w (take n (drop s zs)) = take n (drop s (cells w zs)).
Proof. unfold cells. by rewrite fmap_take, fmap_drop. Qed.
Lemma cells_nulls w n : cells w (replicate n None) = replicate n None.
Proof. unfold cells. by rewrite fmap_replicate. Qed.
Lemma length_cells w zs : length (cells w zs) = length zs.
Proof. unfold cells. len. Qed.
#[export] Hint Rewrite length_cells : gemini_len.

Lemma fixed_len {T : BasicType} cv zs : fixed_rep cv zs → Len cv = length zs.
Proof. intros Hrep. rewrite (br_len _ _ (fr_bits _ _ Hrep)). apply length_validity. Qed.

Lemma cells_lookup w zs i r :
  cells w zs !! i = Some r → ∃ z, zs !! i = Some z ∧ r = le_bytes w <$> z.
Proof. unfold cells. rewrite list_lookup_fmap. intros (z & Hz & ->)%fmap_Some. eauto. Qed.

Lemma time_cells_words ts zs :
  time_cells ts = cells 8 zs → bytes_le 8 (somes zs) = bytes_le 8 ts ∧ length (somes zs) = length ts.
Proof.
  revert zs. induction ts as [|t ts IH]; intros [|[z|] zs] Hts; try done.
  change (Some (le_bytes 8 t) :: time_cells ts = Some (le_bytes 8 z) :: cells 8 zs) in Hts.
  assert (Ht : le_bytes 8 t = le_bytes 8 z) by congruence.
  assert (Hts' : time_cells ts = cells 8 zs) by congruence. destruct (IH zs Hts') as [Hb Hl].
  change (somes (Some z :: zs)) with (z :: somes zs). rewrite !bytes_le_cons, Hb. split; [by f_equal|].
  cbn [length]. by rewrite Hl.
Qed.

Lemma col_rep_times cv ts :
  col_rep Field_Type_Int cv (time_cells ts) → Forall (in_s 64) ts → @values int64 cv = ts.
Proof.
  intros (zs & [_ Hv _] & Hts) Hin. destruct (time_cells_words ts zs Hts) as [Hb Hl].
  unfold values, slen. rewrite Hv. change (@sizeof word8) with 8%nat. change (@sizeof int64) with 8%nat.
  rewrite Hb, length_bytes_le, Nat.mul_comm, Nat.div_mul by lia. by apply (@words_stored int64).
Qed.

Section Implementation.
Context `{GoRuntime}.

Lemma blank_bits cv : blank cv → bits_rep cv [].
Proof.
  intros (Hv & Ho & Hb & Hok & Hoff & Hl & Hn). split; try done; rewrite ?Hl, ?Hoff; try done.
  unfold slen. by rewrite Hb.
Qed.

Lemma fixed_blank {T : BasicType} cv : blank cv → fixed_rep cv [].
Proof. intros Hb. split; [by apply blank_bits|by destruct Hb as [-> _]|constructor]. Qed.

Lemma fixed_append {T : BasicType} ft w cv zs src szs s e :
  w = sizeof → typeSize ft = sizeof → fixed_rep cv zs → fixed_rep src szs → (s <= e <= length (cells w szs))%nat →
  ∃ cv', AppendColVal cv src ft s e = Ok cv' ∧
    ∃ zs', fixed_rep cv' zs' ∧ cells w zs ++ take (e - s) (drop s (cells w szs)) = cells w zs'.
Proof.
  intros Hw Hft Hrep Hsrc Hse. rewrite length_cells in Hse.
  destruct (AppendColValFast_spec cv zs src szs ft s e 0 0 Hrep Hsrc Hft) as (cv' & He & Hr).
  { by rewrite (fixed_len _ _ Hsrc). }
  { done. }
  exists cv'. split; [done|]. eexists; split; [done|]. by rewrite cells_app, cells_slice.
Qed.

Lemma fixed_pad {T : BasicType} ft w cv zs n :
  ft ≠ Field_Type_String → fixed_rep cv zs →
  ∃ cv', PadColVal cv ft n = Ok cv' ∧ ∃ zs', fixed_rep cv' zs' ∧ cells w zs ++ replicate n None = cells w zs'.
Proof.
  intros Hft Hrep. destruct (PadColVal_spec cv zs ft n Hrep Hft) as (cv' & He & Hr).
  exists cv'. split; [done|]. eexists; split; [done|]. by rewrite cells_app, cells_nulls.
Qed.

Lemma fixed_nil {T : BasicType} w cv zs i r :
  fixed_rep cv zs → cells w zs !! i = Some r → IsNil cv i = Ok (negb (present r)).
Proof.
  intros Hrep (z & Hz & ->)%cells_lookup.
  rewrite (IsNil_spec cv _ (fr_bits _ _ Hrep) i (present z)) by by apply validity_lookup. by destruct z.
Qed.

#[export] Instance col_rep_column : Column col_rep.
Proof.
  split.
  - intros [] cv Hd Hb; try done; cbn [col_rep]; try (exists []; split; [by apply fixed_blank|done]).
    split; [by apply blank_bits| | |done]; by destruct Hb as (? & ? & _).
  - intros [] cv rows; cbn [col_rep]; try done; try (intros (zs & Hrep & ->); rewrite length_cells; exact (fixed_len _ _ Hrep)).
    apply str_len.
  - intros [] cv rows i r; cbn [col_rep]; try done; try (intros (zs & Hrep & ->); exact (fixed_nil _ _ _ _ _ Hrep)).
    intros Hrep Hr. apply (IsNil_spec cv _ (sr_bits _ _ Hrep)). by apply validity_lookup.
  - intros [] cv rows src srows s e; cbn [col_rep]; try done;
      try (intros (zs & Hrep & ->) (szs & Hsrc & ->) Hse _; 
           first [by apply (@fixed_append word8 _ 8) | by apply (@fixed_append word1 _ 1)]).
    intros Hrep Hsrc Hse Hfit. apply (AppendColVal_string_spec cv rows src srows _ s e 0 0); try done; [by left| |by apply Hfit].
    by rewrite (str_len _ _ Hsrc).
  - intros [] cv rows n; cbn [col_rep]; try done; try (intros (zs & Hrep & ->); first [by apply (@fixed_pad word8 _ 8) | by apply (@fixed_pad word1 _ 1)]).
    apply PadColVal_string_spec.
  - apply col_rep_times.
Qed.
End Implementation.

