(* ===== verification/TimeSearch.v ===== *)
(** * lib/record/utils.go: binary searches in a time column

    The four searches share one loop: they differ in the direction of the comparison
    (ascending or descending times) and in what they return when the time is absent.
    [before x t] is the test that moves the lower end of the interval. *)

From S2P Require Import Prelude GoSlice.

(** [Some i]: the time was found at [i]; [None] with the final lower end otherwise.
    Every round shrinks the interval, so [len(times) + 1] rounds suffice. *)
Fixpoint search_loop (before : Z → Z → bool) (fuel : nat) (times : list Z) (start end_ : Z) (t : Z)
    : res (bool * Z) :=
  match fuel with
  | O => Diverge
  | S fuel =>
      if start <=? end_ then
        let mid := Z.quot (start + end_) 2 in
        if mid <? 0 then Panic
        else
          let! x := index times (Z.to_nat mid) in
          if x =? t then Ok (true, mid)
          else if before x t then search_loop before fuel times (mid + 1) end_ t
          else search_loop before fuel times start (mid - 1) t
      else Ok (false, start)
  end.

Definition search (before : Z → Z → bool) (times : list Z) (startPos : nat) (t : Z) : res (bool * Z) :=
  search_loop before (S (length times)) times (Z.of_nat startPos) (Z.of_nat (length times) - 1) t.

Definition ascending (x t : Z) : bool := x <? t.
Definition descending (x t : Z) : bool := t <? x.

Definition GetTimeRangeStartIndex (times : list Z) (startPos : nat) (startTime : Z) : res Z :=
  let! (_, i) := search ascending times startPos startTime in Ok i.

Definition GetTimeRangeStartIndexDescend (times : list Z) (startPos : nat) (startTime : Z) : res Z :=
  let! (_, i) := search descending times startPos startTime in Ok i.

Definition GetTimeRangeEndIndex (times : list Z) (startPos : nat) (endTime : Z) : res Z :=
  let! (found, i) := search ascending times startPos endTime in Ok (if found : bool then i else i - 1).

Definition GetTimeRangeEndIndexDescend (times : list Z) (startPos : nat) (endTime : Z) : res Z :=
  let! (found, i) := search descending times startPos endTime in Ok (if found : bool then i else i - 1).

(** ** The loop *)

(** [before] as a strict order on times, the order of the column. *)
Class TimeOrder (before : Z → Z → bool) := {
  before_trans x y z : before x y = true → before y z = true → before x z = true;
  before_irrefl x : before x x = false;
  before_total x y : x ≠ y → before x y = false → before y x = true;
}.

#[export] Instance ascending_order : TimeOrder ascending.
Proof. unfold ascending. split; intros; lia. Qed.
#[export] Instance descending_order : TimeOrder descending.
Proof. unfold descending. split; intros; lia. Qed.

Definition sorted_by (before : Z → Z → bool) (l : list Z) : Prop :=
  ∀ i j x y, (i < j)%nat → l !! i = Some x → l !! j = Some y → before x y = true.

(** [i] separates the times before [t] from the others, among the rows from [pos] on. *)
Definition splits_at (before : Z → Z → bool) (times : list Z) (pos i : nat) (t : Z) : Prop :=
  (pos <= i <= length times)%nat ∧
  ∀ j x, (pos <= j)%nat → times !! j = Some x → before x t = true ↔ (j < i)%nat.

Section Search.
Context (before : Z → Z → bool) `{!TimeOrder before} (times : list Z) (pos : nat) (t : Z).
Hypothesis sorted : sorted_by before times.
Hypothesis pos_ok : (pos <= length times)%nat.

Lemma before_asym x y : before x y = true → before y x = false.
Proof.
  intros H. destruct (before y x) eqn:E; [|done].
  pose proof (before_trans x y x H E) as Hx. by rewrite before_irrefl in Hx.
Qed.

(** Nothing in [pos, lo) reaches [t] and everything from [hi + 1] on does. *)
Definition bracket (lo hi : Z) : Prop :=
  Z.of_nat pos ≤ lo ∧ hi < Z.of_nat (length times) ∧ lo ≤ hi + 1 ∧
  (∀ j x, (pos <= j)%nat → times !! j = Some x → Z.of_nat j < lo → before x t = true) ∧
  (∀ j x, times !! j = Some x → hi < Z.of_nat j → before t x = true).

Lemma search_loop_spec fuel lo hi :
  bracket lo hi → (hi + 1 - lo < Z.of_nat fuel) →
  ∃ (found : bool) i, search_loop before fuel times lo hi t = Ok (found, Z.of_nat i) ∧
    splits_at before times pos i t ∧ (found = true ↔ times !! i = Some t).
Proof.
  revert lo hi. induction fuel as [|fuel IH]; intros lo hi (Hlo & Hhi & Hle & Hb & Ha) Hf; [lia|].
  cbn [search_loop]. bcase.
  - assert (Hmid : lo ≤ Z.quot (lo + hi) 2 ≤ hi).
    { rewrite Z.quot_div_nonneg by lia. split; [apply Z.div_le_lower_bound|apply Z.div_le_upper_bound]; lia. }
    set (mid := Z.quot (lo + hi) 2) in *. clearbody mid. bcase.
    destruct (lookup_lt_is_Some_2 times (Z.to_nat mid)) as [x Hx]; [lia|].
    rewrite (index_Ok _ _ x Hx). rs. destruct (Z.eqb_spec x t) as [->|Hne].
    + exists true, (Z.to_nat mid). split; [do 2 f_equal; lia|]. split; [|done]. split; [lia|].
      intros j y Hj Hy. split.
      * intros Hyt. destruct (decide (j < Z.to_nat mid)%nat); [done|].
        destruct (decide (j = Z.to_nat mid)) as [->|].
        -- rewrite Hx in Hy. injection Hy as <-. by rewrite before_irrefl in Hyt.
        -- pose proof (sorted (Z.to_nat mid) j t y ltac:(lia) Hx Hy) as Hty.
           by rewrite (before_asym t y Hty) in Hyt.
      * intros Hlt. by apply (sorted j (Z.to_nat mid)).
    + destruct (before x t) eqn:Hxt.
      * apply IH; [|lia]. split_and!; try lia; [|done].
        intros j y Hj Hy Hjm. destruct (decide (j = Z.to_nat mid)) as [->|]; [congruence|].
        eapply before_trans; [|exact Hxt]. apply (sorted j (Z.to_nat mid) y x); [lia|done|done].
      * pose proof (before_total x t Hne Hxt) as Htx. apply IH; [|lia]. split_and!; try lia; [done|].
        intros j y Hy Hjm. destruct (decide (j = Z.to_nat mid)) as [->|]; [congruence|].
        eapply before_trans; [exact Htx|]. apply (sorted (Z.to_nat mid) j x y); [lia|done|done].
  - exists false, (Z.to_nat lo). split; [do 2 f_equal; lia|]. split.
    + split; [lia|]. intros j y Hj Hy. split.
      * intros Hyt. destruct (decide (j < Z.to_nat lo)%nat); [done|].
        pose proof (Ha j y Hy ltac:(lia)) as Hty. by rewrite (before_asym t y Hty) in Hyt.
      * intros Hlt. apply (Hb j y); [done|done|lia].
    + split; [done|]. intros Ht. pose proof (Ha _ _ Ht ltac:(lia)) as Htt. by rewrite before_irrefl in Htt.
Qed.

Lemma search_spec :
  ∃ (found : bool) i, search before times pos t = Ok (found, Z.of_nat i) ∧
    splits_at before times pos i t ∧ (found = true ↔ times !! i = Some t).
Proof.
  apply search_loop_spec; [|lia]. split_and!; try lia.
  intros j x Hx. apply lookup_lt_Some in Hx. lia.
Qed.
End Search.

Lemma GetTimeRangeStartIndex_spec times pos t :
  sorted_by ascending times → (pos <= length times)%nat →
  ∃ i, GetTimeRangeStartIndex times pos t = Ok (Z.of_nat i) ∧ splits_at ascending times pos i t.
Proof.
  intros Hs Hp. destruct (search_spec ascending times pos t Hs Hp) as (found & i & He & Hsp & _).
  exists i. unfold GetTimeRangeStartIndex. by rewrite He.
Qed.

Lemma GetTimeRangeStartIndexDescend_spec times pos t :
  sorted_by descending times → (pos <= length times)%nat →
  ∃ i, GetTimeRangeStartIndexDescend times pos t = Ok (Z.of_nat i) ∧ splits_at descending times pos i t.
Proof.
  intros Hs Hp. destruct (search_spec descending times pos t Hs Hp) as (found & i & He & Hsp & _).
  exists i. unfold GetTimeRangeStartIndexDescend. by rewrite He.
Qed.

(** ** Theorems *)

(** The index range the two ends of a query select. *)
Definition selects (times : list Z) (pos : nat) (lo hi : Z) (i j : Z) : Prop :=
  ∀ k x, (pos <= k)%nat → times !! k = Some x → (i ≤ Z.of_nat k ≤ j ↔ lo ≤ x ≤ hi).

Lemma time_range_bounds (times : list Z) (pos : nat) (lo hi : Z) :
  sorted_by ascending times → (pos <= length times)%nat →
  ∃ i j, GetTimeRangeStartIndex times pos lo = Ok i ∧ GetTimeRangeEndIndex times pos hi = Ok j ∧
         (Z.of_nat pos ≤ i ∧ j < Z.of_nat (length times)) ∧ selects times pos lo hi i j.
Proof.
  intros Hs Hp. destruct (GetTimeRangeStartIndex_spec times pos lo Hs Hp) as (i & Hi & Hir & Hsi).
  destruct (search_spec ascending times pos hi Hs Hp) as (found & j & Hj & [Hjp Hsj] & Hf).
  exists (Z.of_nat i), (if found then Z.of_nat j else Z.of_nat j - 1). split; [done|]. split.
  { unfold GetTimeRangeEndIndex. by rewrite Hj. }
  split.
  { split; [lia|]. destruct found; [|lia]. pose proof (lookup_lt_Some _ _ _ (proj1 Hf eq_refl)). lia. }
  intros k x Hk Hx. specialize (Hsi k x Hk Hx). pose proof (Hsj k x Hk Hx) as Hjx. unfold ascending in *.
  rewrite Z.ltb_lt in Hsi, Hjx. destruct found.
  - pose proof (proj1 Hf eq_refl) as Hjt. assert (k = j ↔ x = hi).
    { split; [intros ->; congruence|]. intros ->. destruct (decide (k = j)); [done|].
      destruct (decide (k < j)%nat) as [Hlt|]; [apply Hjx in Hlt; lia|].
      pose proof (Hs j k hi hi ltac:(lia) Hjt Hx) as Hc. unfold ascending in Hc. lia. }
    lia.
  - assert (x ≠ hi); [|lia]. intros ->. assert (¬ (k < j)%nat) as Hkj by (rewrite <- Hjx; lia).
    assert (k ≠ j) by (intros ->; destruct Hf as [_ Hf]; specialize (Hf Hx); done).
    destruct (lookup_lt_is_Some_2 times j) as [y Hy]; [apply lookup_lt_Some in Hx; lia|].
    pose proof (Hs j k y hi ltac:(lia) Hy Hx) as Hyh. unfold ascending in Hyh.
    pose proof (proj1 (Hsj j y ltac:(lia) Hy)). unfold ascending in *. lia.
Qed.

(** C34: on strictly increasing times the two searches bound a time range exactly: the rows
    from GetTimeRangeStartIndex(lo) to GetTimeRangeEndIndex(hi), both included, are the
    rows whose time lies in [lo, hi], and the searches always terminate. *)
Theorem time_range_rows (times : list Z) (pos : nat) (lo hi : Z) :
  sorted_by ascending times → (pos <= length times)%nat →
  ∃ i j, GetTimeRangeStartIndex times pos lo = Ok i ∧ GetTimeRangeEndIndex times pos hi = Ok j ∧
         selects times pos lo hi i j.
Proof.
  intros Hs Hp. destruct (time_range_bounds times pos lo hi Hs Hp) as (i & j & Hi & Hj & _ & Hsel). by exists i, j.
Qed.

Lemma time_range_rows_witness :
  ∃ i j, GetTimeRangeStartIndex [2; 4; 6; 9; 12] 1 5 = Ok i ∧
         GetTimeRangeEndIndex [2; 4; 6; 9; 12] 1 11 = Ok j ∧ selects [2; 4; 6; 9; 12] 1 5 11 i j.
Proof.
  apply (time_range_rows [2; 4; 6; 9; 12] 1 5 11); [|cbn; lia].
  intros i j x y Hij Hx Hy. do 5 (destruct i as [|i]; [do 5 (destruct j as [|j]; [cbn in *; simplify_eq; lia || reflexivity|]); done|]).
  done.
Defined.

(** With equal times the start search may stop at any of them, not at the first one its
    comment announces. *)
Lemma start_index_with_duplicates :
  GetTimeRangeStartIndex [5; 5; 5] 0 5 = Ok 1 ∧ ¬ selects [5; 5; 5] 0 5 5 1 1.
Proof. split; [reflexivity|]. intros Hs. specialize (Hs 0%nat 5 ltac:(lia) eq_refl). lia. Qed.
