(* ===== verification/Record.v ===== *)
(** * lib/record/record.go: records and their merge

    A record is a batch of rows in columns: its schema is sorted by field name with the
    time field last, and every column has one entry per row.  Merging two records that
    are sorted by time is what the memtable, the out-of-order files and compaction use
    to bring writes together: rows with the same time become one row, in which a field
    of the newer record wins unless it is null.

    The model covers appending rows of a record to another one (AppendRec and
    AppendRecForTagSet) and the MergeRecord family with its row limit, for ascending and
    descending times.  [columns] pairs fields with their columns: records have as
    many columns as fields, as every constructor of the package makes them. *)

From Stdlib Require String.
From S2P Require Import Prelude GoSlice Bitmap ColVal TimeSearch.

Record Field := mk_Field { FType : FieldType; FName : string }.

#[export] Instance Field_eq_dec : EqDecision Field.
Proof. solve_decision. Defined.

(** [ColSpare] are the columns between the length and the capacity of [ColVals];
    [MetaTimes] is [RecMeta.Times], [None] when [RecMeta] is nil. *)
Record Record_ := mk_Record {
  Schema : list Field;
  ColVals : list ColVal;
  ColSpare : list ColVal;
  MetaTimes : option (list (list Z))
}.

Abbreviation column := (Field * ColVal)%type.

Definition columns (rec : Record_) : list column := zip (Schema rec) (ColVals rec).

(** The columns without the time column, and the time column. *)
Definition body {A} (l : list A) : list A := take (length l - 1) l.
Definition time_of {A} (l : list A) : res A :=
  match l !! (length l - 1)%nat with Some x => Ok x | None => Panic end.

(** [rec.Times()] *)
Definition Times (rec : Record_) : list Z :=
  match last (ColVals rec) with Some cv => @values int64 cv | None => [] end.

Definition RowNums (rec : Record_) : nat :=
  match last (ColVals rec) with Some cv => Len cv | None => 0 end.

(** [a.Name < b.Name] *)
Definition name_lt (a b : Field) : bool := String.ltb (FName a) (FName b).

(** ** Walking two schemas

    mergeRecordNonOverlap, mergeRecordSchema and mergeRecRow advance through both
    schemas in name order; a step handles a column that only one of the records has, or
    one that both have. *)
Inductive pairing :=
| OnlyNew (n : column)
| OnlyOld (o : column)
| Both (n o : column).

Fixpoint align (new : list column) : list column → list pairing :=
  fix go old :=
    match new, old with
    | [], _ => OnlyOld <$> old
    | _, [] => OnlyNew <$> new
    | n :: new', o :: old' =>
        if name_lt (fst n) (fst o) then OnlyNew n :: align new' old
        else if name_lt (fst o) (fst n) then OnlyOld o :: go old'
        else Both n o :: align new' old'
    end.

Definition pair_field (p : pairing) : Field :=
  match p with OnlyNew n => fst n | OnlyOld o => fst o | Both n _ => fst n end.

(** The rest of the schemas is taken with its time field; when both are used up, the
    time field comes from the new record. *)
Fixpoint schema_loop (newTime oldTime : Field) (new : list Field) : list Field → list Field :=
  fix go old :=
    match new, old with
    | [], [] => [newTime]
    | [], _ => old ++ [oldTime]
    | _, [] => new ++ [newTime]
    | n :: new', o :: old' =>
        if name_lt n o then n :: schema_loop newTime oldTime new' old
        else if name_lt o n then o :: go old'
        else n :: schema_loop newTime oldTime new' old'
    end.

Definition mergeRecordSchema (rec newRec oldRec : Record_) : res Record_ :=
  let! newTime := time_of (Schema newRec) in
  let! oldTime := time_of (Schema oldRec) in
  Ok (mk_Record (Schema rec ++ schema_loop newTime oldTime (body (Schema newRec)) (body (Schema oldRec)))
        (ColVals rec) (ColSpare rec) (MetaTimes rec)).

Section Operations.
Context `{GoRuntime}.

(** "resize record col val": the columns behind the length are reused when there are
    enough of them. *)
Definition resize_cols (rec : Record_) : res Record_ :=
  let n := length (Schema rec) in
  let all := (ColVals rec ++ ColSpare rec)%list in
  let all := if (length (ColSpare rec) <? n)%nat then replicate n empty_col else all in
  Ok (mk_Record (Schema rec) (take n all) (drop n all) (MetaTimes rec)).

(** The [i]-th action is applied to [rec.ColVals[i]]. *)
Fixpoint update_cols (acts : list (ColVal → res ColVal)) (cols : list ColVal) : res (list ColVal) :=
  match acts, cols with
  | [], _ => Ok cols
  | act :: acts, c :: cols =>
      let! c := act c in
      let! cols := update_cols acts cols in
      Ok (c :: cols)
  | _ :: _, [] => Panic
  end.

Definition set_cols (rec : Record_) (cols : list ColVal) : Record_ :=
  mk_Record (Schema rec) cols (ColSpare rec) (MetaTimes rec).

Definition append_col (src : column) (start end_ : nat) (cv : ColVal) : res ColVal :=
  AppendColVal cv (snd src) (FType (fst src)) start end_.
Definition pad_col (f : Field) (n : nat) (cv : ColVal) : res ColVal := PadColVal cv (FType f) n.

(** ** Appending rows of a record *)

(** getValidCount: the valid rows from [pos] to [start], added to a count. *)
Definition getValidCount (c : ColVal) (start pos : nat) (posValidCount : Z) : res Z :=
  count_loop (sdata (Bitmap c)) (BitMapOffset c + pos) (start - pos) posValidCount.

(** [colPos] and [colPosValidCount] remember, for each source column, a row and the
    number of valid rows before it; they are empty for AppendRec. *)
Definition cursor (colPos : list nat) (colPosValidCount : list Z) (i : nat) : res (nat * Z) :=
  match colPos !! i, colPosValidCount !! i with Some p, Some c => Ok (p, c) | _, _ => Panic end.

Definition no_cursors (colPos : list nat) (colPosValidCount : list Z) : bool :=
  (length colPos =? 0)%nat || (length colPosValidCount =? 0)%nat.

Definition append_src (colPos : list nat) (colPosValidCount : list Z) (start end_ : nat) (i : nat)
    (s : column) (cv : ColVal) : res ColVal :=
  if no_cursors colPos colPosValidCount then append_col s start end_ cv
  else
    let! (p, c) := cursor colPos colPosValidCount i in
    let! c := getValidCount (snd s) start p c in
    AppendColValFast cv (snd s) (FType (fst s)) start end_ start c.

(** What happens to each column of [rec]; [i] is the index in the source. *)
Fixpoint append_actions (pad : bool) (add : nat → column → ColVal → res ColVal) (n : nat) (i : nat)
    (fields : list Field) (src : list column) : list (ColVal → res ColVal) :=
  match fields, src with
  | f :: fields, s :: src' =>
      if name_lt f (fst s) then pad_col f n :: append_actions pad add n i fields src
      else add i s :: append_actions pad add n (S i) fields src'
  | f :: fields, [] => (if pad then pad_col f n else Ok) :: append_actions pad add n i fields []
  | [], _ => []
  end.

(** The cursors after the loop. *)
Fixpoint advance (start : nat) (i : nat) (fields : list Field) (src : list column)
    (colPos : list nat) (colPosValidCount : list Z) : res (list nat * list Z) :=
  match fields, src with
  | f :: fields, s :: src' =>
      if name_lt f (fst s) then advance start i fields src colPos colPosValidCount
      else
        let! (p, c) := cursor colPos colPosValidCount i in
        let! c := getValidCount (snd s) start p c in
        advance start (S i) fields src' (<[i := start]> colPos) (<[i := c]> colPosValidCount)
  | _, _ => Ok (colPos, colPosValidCount)
  end.

(** [rec.RecMeta.Times[i] = append(rec.RecMeta.Times[i], t[start:end]...)] for the
    entries that are not empty. *)
Fixpoint append_meta (dst src : list (list Z)) (start end_ : nat) : res (list (list Z)) :=
  match src, dst with
  | [], _ => Ok dst
  | t :: src, d :: dst =>
      let! d := if (length t =? 0)%nat then Ok d
                else let! x := between t start end_ in Ok (d ++ x) in
      let! dst := append_meta dst src start end_ in
      Ok (d :: dst)
  | t :: src, [] =>
      if (length t =? 0)%nat then append_meta [] src start end_ else Panic
  end.

Definition appendRecImpl (rec srcRec : Record_) (start end_ : nat) (pad : bool)
    (colPos : list nat) (colPosValidCount : list Z) : res (Record_ * list nat * list Z) :=
  if (start =? end_)%nat then Ok (rec, colPos, colPosValidCount)
  else
    let fields := body (Schema rec) in
    let src := body (columns srcRec) in
    let! srcTime := time_of (columns srcRec) in
    let acts := append_actions pad (append_src colPos colPosValidCount start end_) (end_ - start) 0 fields src ++
                [append_col srcTime start end_] in
    let! cols := update_cols acts (ColVals rec) in
    let! (colPos, colPosValidCount) :=
      if no_cursors colPos colPosValidCount then Ok (colPos, colPosValidCount)
      else advance start 0 fields src colPos colPosValidCount in
    let rec := set_cols rec cols in
    match MetaTimes srcRec with
    | Some (t :: ts) =>
        let dst := match MetaTimes rec with
                   | Some d => d
                   | None => replicate (length (Schema srcRec)) []
                   end in
        let! m := append_meta dst (t :: ts) start end_ in
        Ok (mk_Record (Schema rec) (ColVals rec) (ColSpare rec) (Some m), colPos, colPosValidCount)
    | _ => Ok (rec, colPos, colPosValidCount)
    end.

Definition AppendRec (rec srcRec : Record_) (start end_ : nat) : res Record_ :=
  let! (rec, _, _) := appendRecImpl rec srcRec start end_ true [] [] in Ok rec.
Definition AppendRecFast (rec srcRec : Record_) (start end_ : nat) (colPos : list nat)
    (colPosValidCount : list Z) : res (Record_ * list nat * list Z) :=
  appendRecImpl rec srcRec start end_ true colPos colPosValidCount.
Definition AppendRecForTagSet (rec srcRec : Record_) (start end_ : nat) : res Record_ :=
  let! (rec, _, _) := appendRecImpl rec srcRec start end_ false [] [] in Ok rec.

(** ** Records whose time ranges do not overlap: the old rows, then the new ones *)

Definition nonoverlap_action (newPos newEnd oldPos oldEnd : nat) (p : pairing) (cv : ColVal) : res ColVal :=
  match p with
  | OnlyOld o =>
      let! cv := append_col o oldPos oldEnd cv in pad_col (fst o) (newEnd - newPos) cv
  | OnlyNew n =>
      let! cv := pad_col (fst n) (oldEnd - oldPos) cv in append_col n newPos newEnd cv
  | Both n o =>
      let! cv := append_col o oldPos oldEnd cv in append_col n newPos newEnd cv
  end.

Definition mergeRecordNonOverlap (rec newRec oldRec : Record_)
    (newPos oldPos newRows oldRows : nat) (limitRows : Z) : res (Record_ * nat * nat) :=
  let! rec := mergeRecordSchema rec newRec oldRec in
  let! rec := resize_cols rec in
  let (newEnd, oldEnd) :=
    if Z.of_nat oldRows - Z.of_nat oldPos <? limitRows then
      let limitRows := limitRows - (Z.of_nat oldRows - Z.of_nat oldPos) in
      if Z.of_nat newRows - Z.of_nat newPos <=? limitRows then (newRows, oldRows)
      else (Z.to_nat (Z.of_nat newPos + limitRows), oldRows)
    else (newPos, Z.to_nat (Z.of_nat oldPos + limitRows)) in
  let! newTime := time_of (columns newRec) in
  let! oldTime := time_of (columns oldRec) in
  let acts := (nonoverlap_action newPos newEnd oldPos oldEnd <$>
                 align (body (columns newRec)) (body (columns oldRec))) ++
              [λ cv, let! cv := append_col oldTime oldPos oldEnd cv in append_col newTime newPos newEnd cv] in
  let! cols := update_cols acts (ColVals rec) in
  Ok (set_cols rec cols, newEnd, oldEnd).

(** ** Two rows with the same time *)

Definition row_action (newRow oldRow : nat) (p : pairing) (cv : ColVal) : res ColVal :=
  match p with
  | OnlyNew n => append_col n newRow (S newRow) cv
  | OnlyOld o => append_col o oldRow (S oldRow) cv
  | Both n o =>
      let! newNil := IsNil (snd n) newRow in
      if negb newNil then append_col n newRow (S newRow) cv
      else
        let! oldNil := IsNil (snd o) oldRow in
        if negb oldNil then append_col o oldRow (S oldRow) cv
        else pad_col (fst n) 1 cv
  end.

Definition mergeRecRow (rec newRec oldRec : Record_) (newRow oldRow : nat) : res Record_ :=
  let! newTime := time_of (columns newRec) in
  let! f := match Schema rec !! length (align (body (columns newRec)) (body (columns oldRec))) with
            | Some f => Ok f | None => Panic end in
  let acts := (row_action newRow oldRow <$> align (body (columns newRec)) (body (columns oldRec))) ++
              [append_col (f, snd newTime) newRow (S newRow)] in
  let! cols := update_cols acts (ColVals rec) in
  Ok (set_cols rec cols).

(** ** Overlapping rows *)

(** [first x t]: the row with time [x] comes before the one with [t], in the direction of
    the merge.  The result is the record, whether the limit ended the loop, the rows that
    may still be added and the two positions. *)
Fixpoint overlap_loop (first : Z → Z → bool) (fuel : nat) (rec newRec oldRec : Record_)
    (newStart newEnd oldStart oldEnd : nat) (newTimeVals oldTimeVals : list Z) (limitRows : Z)
    : res (Record_ * bool * Z * nat * nat) :=
  match fuel with
  | O => Diverge
  | S fuel =>
      if ((newStart <? newEnd) && (oldStart <? oldEnd))%nat then
        let! o := index oldTimeVals oldStart in
        let! n := index newTimeVals newStart in
        let! (rec, newStart, oldStart) :=
          if first o n then
            let! rec := AppendRec rec oldRec oldStart (S oldStart) in Ok (rec, newStart, S oldStart)
          else if first n o then
            let! rec := AppendRec rec newRec newStart (S newStart) in Ok (rec, S newStart, oldStart)
          else
            let! rec := mergeRecRow rec newRec oldRec newStart oldStart in Ok (rec, S newStart, S oldStart) in
        let limitRows := limitRows - 1 in
        if limitRows =? 0 then Ok (rec, true, 0, newStart, oldStart)
        else overlap_loop first fuel rec newRec oldRec newStart newEnd oldStart oldEnd
               newTimeVals oldTimeVals limitRows
      else Ok (rec, false, limitRows, newStart, oldStart)
  end.

(** When the loop stops before the limit, what is left of one side is appended. *)
Definition appendRecs (asc : bool) (rec newRec oldRec : Record_) (newStart newEnd oldStart oldEnd : nat)
    (newTimeVals oldTimeVals : list Z) (limitRows : Z) : res (Record_ * Z * nat * nat) :=
  let! (rec, stop, limitRows, newStart, oldStart) :=
    overlap_loop (if asc then ascending else descending)
      (S ((newEnd - newStart) + (oldEnd - oldStart))) rec newRec oldRec newStart newEnd oldStart oldEnd
      newTimeVals oldTimeVals limitRows in
  if stop : bool then Ok (rec, 0, newStart, oldStart)
  else if (newStart <? newEnd)%nat then
    let cur := Z.of_nat (newEnd - newStart) in
    if limitRows <=? cur then
      let e := Z.to_nat (Z.of_nat newStart + limitRows) in
      let! rec := AppendRec rec newRec newStart e in Ok (rec, 0, e, oldStart)
    else
      let! rec := AppendRec rec newRec newStart newEnd in Ok (rec, limitRows - cur, newEnd, oldEnd)
  else if (oldStart <? oldEnd)%nat then
    let cur := Z.of_nat (oldEnd - oldStart) in
    if limitRows <=? cur then
      let e := Z.to_nat (Z.of_nat oldStart + limitRows) in
      let! rec := AppendRec rec oldRec oldStart e in Ok (rec, 0, newStart, e)
    else
      let! rec := AppendRec rec oldRec oldStart oldEnd in Ok (rec, limitRows - cur, newEnd, oldEnd)
  else Ok (rec, limitRows, newEnd, oldEnd).

(** The rows up to the first common one, the overlapping rows, the rest. *)
Definition mergeRecordOverlapImpl (rec newRec oldRec : Record_)
    (newOpStart newOpEnd oldOpStart oldOpEnd : nat) (newTimeVals oldTimeVals : list Z)
    (newPos oldPos newRows oldRows : nat) (limitRows : Z) (asc : bool) : res (Record_ * nat * nat) :=
  let newOpEnd := if (newRows <? newOpEnd)%nat then newRows else newOpEnd in
  let oldOpEnd := if (oldRows <? oldOpEnd)%nat then oldRows else oldOpEnd in
  let middle rec limitRows :=
    let! (rec, limitRows, newEnd, oldEnd) :=
      appendRecs asc rec newRec oldRec newOpStart newOpEnd oldOpStart oldOpEnd newTimeVals oldTimeVals limitRows in
    if limitRows =? 0 then Ok (rec, newEnd, oldEnd)
    else if (oldEnd =? oldRows)%nat then
      if limitRows <=? Z.of_nat newRows - Z.of_nat newEnd then
        let e := Z.to_nat (Z.of_nat newEnd + limitRows) in
        let! rec := AppendRec rec newRec newEnd e in Ok (rec, e, oldEnd)
      else
        let! rec := AppendRec rec newRec newEnd newRows in Ok (rec, newRows, oldRows)
    else if limitRows <=? Z.of_nat oldRows - Z.of_nat oldEnd then
      let e := Z.to_nat (Z.of_nat oldEnd + limitRows) in
      let! rec := AppendRec rec oldRec oldEnd e in Ok (rec, newEnd, e)
    else
      let! rec := AppendRec rec oldRec oldEnd oldRows in Ok (rec, newRows, oldRows) in
  if (oldOpStart =? oldPos)%nat then
    let cur := Z.of_nat newOpStart - Z.of_nat newPos in
    if limitRows <=? cur then
      let e := Z.to_nat (Z.of_nat newPos + limitRows) in
      let! rec := AppendRec rec newRec newPos e in Ok (rec, e, oldPos)
    else
      let! rec := AppendRec rec newRec newPos newOpStart in middle rec (limitRows - cur)
  else
    let cur := Z.of_nat oldOpStart - Z.of_nat oldPos in
    if limitRows <=? cur then
      let e := Z.to_nat (Z.of_nat oldPos + limitRows) in
      let! rec := AppendRec rec oldRec oldPos e in Ok (rec, newPos, e)
    else
      let! rec := AppendRec rec oldRec oldPos oldOpStart in middle rec (limitRows - cur).

Definition start_index (times : list Z) (pos : nat) (t : Z) : res nat :=
  let! i := GetTimeRangeStartIndex times pos t in Ok (Z.to_nat i).
Definition start_index_desc (times : list Z) (pos : nat) (t : Z) : res nat :=
  let! i := GetTimeRangeStartIndexDescend times pos t in Ok (Z.to_nat i).

Definition mergeRecordOverlap (rec newRec oldRec : Record_) (newTimeVals oldTimeVals : list Z)
    (newPos oldPos newRows oldRows : nat) (limitRows : Z) : res (Record_ * nat * nat) :=
  let! rec := mergeRecordSchema rec newRec oldRec in
  let! rec := resize_cols rec in
  let impl ns ne os oe :=
    mergeRecordOverlapImpl rec newRec oldRec ns ne os oe newTimeVals oldTimeVals
      newPos oldPos newRows oldRows limitRows true in
  let! n0 := index newTimeVals newPos in
  let! o0 := index oldTimeVals oldPos in
  let! n1 := indexZ newTimeVals (Z.of_nat newRows - 1) in
  let! o1 := indexZ oldTimeVals (Z.of_nat oldRows - 1) in
  if n0 <? o0 then
    if n1 <=? o1 then
      let! ns := start_index newTimeVals newPos o0 in
      let! oe := start_index oldTimeVals oldPos n1 in
      impl ns newRows oldPos (S oe)
    else
      let! ns := start_index newTimeVals newPos o0 in
      let! ne := start_index newTimeVals newPos o1 in
      impl ns (S ne) oldPos oldRows
  else
    if n1 <=? o1 then
      let! os := start_index oldTimeVals oldPos n0 in
      let! oe := start_index oldTimeVals oldPos (i64 (n1 + 1)) in
      impl newPos newRows os oe
    else
      let! ne := start_index newTimeVals newPos o1 in
      let! os := start_index oldTimeVals oldPos n0 in
      impl newPos (S ne) os oldRows.

Definition mergeRecordOverlapDescend (rec newRec oldRec : Record_) (newTimeVals oldTimeVals : list Z)
    (newPos oldPos newRows oldRows : nat) (limitRows : Z) : res (Record_ * nat * nat) :=
  let! rec := mergeRecordSchema rec newRec oldRec in
  let! rec := resize_cols rec in
  let impl ns ne os oe :=
    mergeRecordOverlapImpl rec newRec oldRec ns ne os oe newTimeVals oldTimeVals
      newPos oldPos newRows oldRows limitRows false in
  let! n0 := index newTimeVals newPos in
  let! o0 := index oldTimeVals oldPos in
  let! n1 := indexZ newTimeVals (Z.of_nat newRows - 1) in
  let! o1 := indexZ oldTimeVals (Z.of_nat oldRows - 1) in
  if n1 <? o1 then
    if n0 <=? o0 then
      let! ne := start_index_desc newTimeVals newPos o1 in
      let! os := start_index_desc oldTimeVals oldPos n0 in
      impl newPos (S ne) os oldRows
    else
      let! ns := start_index_desc newTimeVals newPos o0 in
      let! ne := start_index_desc newTimeVals newPos o1 in
      impl ns (S ne) oldPos oldRows
  else
    if o0 <=? n0 then
      let! ns := start_index_desc newTimeVals newPos o0 in
      let! oe := start_index_desc oldTimeVals oldPos n1 in
      impl ns newRows oldPos (S oe)
    else
      let! os := start_index_desc oldTimeVals oldPos n0 in
      let! oe := start_index_desc oldTimeVals oldPos n1 in
      impl newPos newRows os (S oe).

(** ** Merging *)

Definition time_vals (rec : Record_) : res (list Z) :=
  let! cv := match ColVals rec !! (length (ColVals rec) - 1)%nat with Some cv => Ok cv | None => Panic end in
  Ok (@values int64 cv).

Definition MergeRecordLimitRows (rec newRec oldRec : Record_) (newPos oldPos : nat) (limitRows : Z)
    : res (Record_ * nat * nat) :=
  let! newTimeVals := time_vals newRec in
  let! oldTimeVals := time_vals oldRec in
  let newRows := length newTimeVals in
  let oldRows := length oldTimeVals in
  let! n0 := index newTimeVals newPos in
  let! o1 := indexZ oldTimeVals (Z.of_nat oldRows - 1) in
  if o1 <? n0 then mergeRecordNonOverlap rec newRec oldRec newPos oldPos newRows oldRows limitRows
  else
    let! n1 := indexZ newTimeVals (Z.of_nat newRows - 1) in
    let! o0 := index oldTimeVals oldPos in
    if n1 <? o0 then
      let! (rec, oldEnd, newEnd) :=
        mergeRecordNonOverlap rec oldRec newRec oldPos newPos oldRows newRows limitRows in
      Ok (rec, newEnd, oldEnd)
    else mergeRecordOverlap rec newRec oldRec newTimeVals oldTimeVals newPos oldPos newRows oldRows limitRows.

Definition MergeRecordLimitRowsDescend (rec newRec oldRec : Record_) (newPos oldPos : nat) (limitRows : Z)
    : res (Record_ * nat * nat) :=
  let! newTimeVals := time_vals newRec in
  let! oldTimeVals := time_vals oldRec in
  let newRows := length newTimeVals in
  let oldRows := length oldTimeVals in
  let! n0 := index newTimeVals newPos in
  let! o1 := indexZ oldTimeVals (Z.of_nat oldRows - 1) in
  if n0 <? o1 then mergeRecordNonOverlap rec newRec oldRec newPos oldPos newRows oldRows limitRows
  else
    let! n1 := indexZ newTimeVals (Z.of_nat newRows - 1) in
    let! o0 := index oldTimeVals oldPos in
    if o0 <? n1 then
      let! (rec, oldEnd, newEnd) :=
        mergeRecordNonOverlap rec oldRec newRec oldPos newPos oldRows newRows limitRows in
      Ok (rec, newEnd, oldEnd)
    else mergeRecordOverlapDescend rec newRec oldRec newTimeVals oldTimeVals newPos oldPos newRows oldRows limitRows.

Definition MergeRecord (rec newRec oldRec : Record_) : res Record_ :=
  let! (rec, _, _) := MergeRecordLimitRows rec newRec oldRec 0 0 (Z.of_nat (RowNums newRec + RowNums oldRec)) in
  Ok rec.

Definition MergeRecordDescend (rec newRec oldRec : Record_) : res Record_ :=
  let! (rec, _, _) := MergeRecordLimitRowsDescend rec newRec oldRec 0 0 (Z.of_nat (RowNums newRec + RowNums oldRec)) in
  Ok rec.
End Operations.
