(* ===== verification/RecordSchema.v ===== *)
(** * lib/record: the schemas of two records

    Lemmas about the walk through one or two schemas in name order: appendRecImpl finds
    the column of the same name, and [align] visits every name of either record once, in
    order, with the columns the records have under it. *)

From stdpp Require Import gmap.
From Stdlib Require String Ascii.
From Stdlib Require Import Sorted.
From S2P Require Import Prelude GoString GoSlice ColVal Record.

(** ** The order of field names *)

Definition names_sorted (fs : list Field) : Prop := StronglySorted (λ f g, name_lt f g = true) fs.

Lemma names_sorted_cons f fs :
  names_sorted (f :: fs) ↔ names_sorted fs ∧ Forall (λ g, lt_name (FName f) (FName g)) fs.
Proof. split; [by inversion 1|]. intros [??]. by constructor. Qed.

Lemma names_sorted_notin f fs : names_sorted (f :: fs) → FName f ∉ FName <$> fs.
Proof.
  intros [_ Hall]%names_sorted_cons (g & Hg & Hin)%list_elem_of_fmap.
  rewrite Forall_forall in Hall. specialize (Hall g Hin). rewrite <- Hg in Hall. by apply lt_name_irrefl in Hall.
Qed.

Lemma names_sorted_unique fs f g :
  names_sorted fs → f ∈ fs → g ∈ fs → FName f = FName g → f = g.
Proof.
  induction fs as [|h fs IH]; intros Hs Hf Hg Hn; [by apply elem_of_nil in Hf|].
  pose proof (names_sorted_notin h fs Hs) as Hnot. apply names_sorted_cons in Hs as [Hs _].
  apply elem_of_cons in Hf as [->|Hf], Hg as [->|Hg]; [done| | |by apply IH].
  - destruct Hnot. rewrite Hn. by apply list_elem_of_fmap_2.
  - destruct Hnot. rewrite <- Hn. by apply list_elem_of_fmap_2.
Qed.

(** ** Columns by name *)

Fixpoint find_col (nm : string) (cols : list column) : option column :=
  match cols with
  | [] => None
  | c :: cols => if decide (FName (fst c) = nm) then Some c else find_col nm cols
  end.

Lemma find_col_Some nm cols c : find_col nm cols = Some c → c ∈ cols ∧ FName (fst c) = nm.
Proof.
  induction cols as [|d cols IH]; cbn; [done|]. case_decide.
  - intros [= <-]. split; [left|done].
  - intros [? ?]%IH. split; [by right|done].
Qed.

Lemma find_col_None nm cols : find_col nm cols = None ↔ nm ∉ FName <$> (fst <$> cols).
Proof.
  induction cols as [|d cols IH]; cbn; [split; [intros _; apply not_elem_of_nil|done]|].
  rewrite not_elem_of_cons. case_decide; [split; [done|intros [? _]; congruence]|].
  rewrite IH. split; [split; [congruence|done]|by intros [_ ?]].
Qed.

Lemma find_col_below nm c cols :
  names_sorted (fst <$> (c :: cols)) → lt_name nm (FName (fst c)) → find_col nm (c :: cols) = None.
Proof.
  rewrite fmap_cons. intros [_ Hall]%names_sorted_cons Hlt. apply find_col_None.
  rewrite !fmap_cons, not_elem_of_cons. split.
  - intros ->. by apply lt_name_irrefl in Hlt.
  - intros (g & -> & Hg)%list_elem_of_fmap. rewrite Forall_forall in Hall. specialize (Hall g Hg).
    apply (lt_name_irrefl (FName g)). by eapply lt_name_trans.
Qed.

(** appendRecImpl: the column of the same name if the source has it, nulls otherwise. *)
Lemma append_actions_spec `{GoRuntime} add n i fields src :
  names_sorted fields → names_sorted (fst <$> src) →
  (∀ nm, nm ∈ FName <$> (fst <$> src) → nm ∈ FName <$> fields) →
  append_actions true (λ _, add) n i fields src =
  (λ f, match find_col (FName f) src with Some c => add c | None => pad_col f n end) <$> fields.
Proof.
  revert i src. induction fields as [|f fields IH]; intros i src Hf Hs Hsub; cbn [append_actions]; [done|].
  pose proof (names_sorted_notin f fields Hf) as Hnot. pose proof Hf as [Hf' Hlt]%names_sorted_cons.
  destruct src as [|s src].
  { cbn [fmap list_fmap find_col]. f_equal. rewrite IH; [done|done|done|].
    intros nm Hnm. by apply elem_of_nil in Hnm. }
  destruct (name_lt f (fst s)) eqn:E.
  - rewrite (fmap_cons _ f fields), (find_col_below (FName f) s src Hs E). f_equal. apply IH; [done|done|].
    intros nm Hnm. apply Hsub in Hnm as Hnm'. rewrite fmap_cons, elem_of_cons in Hnm'.
    destruct Hnm' as [->|]; [|done].
    pose proof (find_col_below (FName f) s src Hs E) as Hn%find_col_None. by destruct Hn.
  - assert (Hfs : FName (fst s) = FName f).
    { specialize (Hsub (FName (fst s))). rewrite !fmap_cons, !elem_of_cons in Hsub.
      destruct (Hsub (or_introl eq_refl)) as [|Hin]; [done|].
      apply list_elem_of_fmap in Hin as (g & Hg & Hin). rewrite Forall_forall in Hlt. specialize (Hlt g Hin).
      unfold name_lt in E. unfold lt_name in Hlt. congruence. }
    rewrite fmap_cons. f_equal.
    { cbn [find_col]. by rewrite decide_True. }
    rewrite fmap_cons in Hs. pose proof (names_sorted_notin _ _ Hs) as Hnots.
    apply names_sorted_cons in Hs as [Hs _]. rewrite IH; [|done|done|].
    + apply list_fmap_ext. intros k g Hg. cbn [find_col]. rewrite decide_False; [done|].
      rewrite Hfs. intros Hfg. destruct Hnot. rewrite Hfg. apply list_elem_of_fmap_2. by eapply list_elem_of_lookup_2.
    + intros nm Hnm. specialize (Hsub nm). rewrite !fmap_cons, !elem_of_cons in Hsub.
      destruct (Hsub (or_intror Hnm)) as [->|]; [|done]. destruct Hnots. by rewrite Hfs.
Qed.

(** ** Two schemas *)

(** A step of the walk carries the columns that the two records have under its name. *)
Definition pair_ok (new old : list column) (p : pairing) : Prop :=
  let nm := FName (pair_field p) in
  match p with
  | OnlyNew n => find_col nm new = Some n ∧ find_col nm old = None
  | OnlyOld o => find_col nm new = None ∧ find_col nm old = Some o
  | Both n o => find_col nm new = Some n ∧ find_col nm old = Some o
  end.

Lemma find_col_here c cols : find_col (FName (fst c)) (c :: cols) = Some c.
Proof. cbn. by rewrite decide_True. Qed.
Lemma find_col_skip nm c cols : FName (fst c) ≠ nm → find_col nm (c :: cols) = find_col nm cols.
Proof. intros. cbn. by rewrite decide_False. Qed.

Lemma align_nil_l old : align [] old = OnlyOld <$> old.
Proof. by destruct old. Qed.
Lemma align_nil_r new : align new [] = OnlyNew <$> new.
Proof. by destruct new. Qed.

Lemma align_fields new old f :
  f ∈ pair_field <$> align new old → f ∈ fst <$> new ∨ f ∈ fst <$> old.
Proof.
  revert old. induction new as [|n new IHn]; intros old; [|induction old as [|o old IHo]].
  - rewrite align_nil_l, <- list_fmap_compose. by right.
  - rewrite align_nil_r, <- list_fmap_compose. by left.
  - cbn [align]. case_match; [|case_match]; rewrite fmap_cons, elem_of_cons, !fmap_cons, !elem_of_cons.
    + intros [->|Hf]; [by left; left|]. apply IHn in Hf. rewrite fmap_cons, elem_of_cons in Hf. tauto.
    + intros [->|Hf]; [by right; left|]. apply IHo in Hf. rewrite fmap_cons, elem_of_cons in Hf. tauto.
    + intros [->|Hf]; [by left; left|]. apply IHn in Hf. tauto.
Qed.

Lemma align_above x new old :
  Forall (λ g, lt_name x (FName g)) (fst <$> new) → Forall (λ g, lt_name x (FName g)) (fst <$> old) →
  Forall (λ g, lt_name x (FName g)) (pair_field <$> align new old).
Proof. rewrite !Forall_forall. intros Hn Ho f [Hf|Hf]%align_fields; eauto. Qed.

(** The two schemas hold the same field under a name they share. *)
Definition agree (new old : list Field) : Prop :=
  ∀ f g, f ∈ new → g ∈ old → FName f = FName g → f = g.

Lemma pair_ok_skip_new n new old p :
  lt_name (FName (fst n)) (FName (pair_field p)) → pair_ok new old p → pair_ok (n :: new) old p.
Proof.
  unfold pair_ok. intros Hlt. rewrite find_col_skip; [done|].
  intros E. rewrite E in Hlt. by apply lt_name_irrefl in Hlt.
Qed.
Lemma pair_ok_skip_old o new old p :
  lt_name (FName (fst o)) (FName (pair_field p)) → pair_ok new old p → pair_ok new (o :: old) p.
Proof.
  unfold pair_ok. intros Hlt. rewrite (find_col_skip _ o); [done|].
  intros E. rewrite E in Hlt. by apply lt_name_irrefl in Hlt.
Qed.

Lemma above_trans x f fs :
  lt_name x (FName f) → Forall (λ g, lt_name (FName f) (FName g)) fs → Forall (λ g, lt_name x (FName g)) (f :: fs).
Proof. intros Hx Hf. constructor; [done|]. eapply Forall_impl; [exact Hf|]. cbn. intros g. by apply lt_name_trans. Qed.

Lemma Forall_pairs (P Q : pairing → Prop) (B : Field → Prop) ps :
  Forall P ps → Forall B (pair_field <$> ps) → (∀ p, P p → B (pair_field p) → Q p) → Forall Q ps.
Proof. rewrite Forall_fmap, !Forall_forall. intros HP HB HQ p Hp. by apply HQ; [apply HP|apply HB]. Qed.

Lemma align_spec new old :
  names_sorted (fst <$> new) → names_sorted (fst <$> old) →
  Forall (pair_ok new old) (align new old) ∧ names_sorted (pair_field <$> align new old).
Proof.
  revert old. induction new as [|n new IHn]; intros old Hn Ho.
  { rewrite align_nil_l, <- list_fmap_compose. split; [|done]. clear Hn.
    induction old as [|o old IH]; [constructor|]. rewrite fmap_cons in *.
    pose proof Ho as [Ho' Hlt]%names_sorted_cons. constructor; [split; [done|apply find_col_here]|].
    eapply (Forall_pairs _ _ (λ g, lt_name (FName (fst o)) (FName g))); [by apply IH| |].
    - by rewrite <- list_fmap_compose.
    - intros p Hp Hb. by apply pair_ok_skip_old. }
  rewrite fmap_cons in Hn. pose proof Hn as [Hn' Hnlt]%names_sorted_cons.
  induction old as [|o old IHo].
  { rewrite align_nil_r, <- list_fmap_compose. split; [|done]. clear IHn Ho.
    revert n Hn Hn' Hnlt. induction new as [|m new IH]; intros n Hn Hn' Hnlt; rewrite fmap_cons.
    - constructor; [|constructor]. split; [apply find_col_here|done].
    - constructor; [split; [apply find_col_here|done]|]. rewrite fmap_cons in Hn', Hnlt. pose proof Hn' as [? ?]%names_sorted_cons.
      eapply (Forall_pairs _ _ (λ g, lt_name (FName (fst n)) (FName g))); [by apply IH| |].
      + rewrite <- list_fmap_compose. done.
      + intros p Hp Hb. by apply pair_ok_skip_new. }
  rewrite fmap_cons in Ho. pose proof Ho as [Ho' Holt]%names_sorted_cons.
  cbn [align]. destruct (name_lt (fst n) (fst o)) eqn:E1; [|destruct (name_lt (fst o) (fst n)) eqn:E2].
  - destruct (IHn (o :: old) Hn' Ho) as [Hp Hs]. rewrite fmap_cons.
    assert (Hab : Forall (λ g, lt_name (FName (fst n)) (FName g)) (pair_field <$> align new (o :: old))).
    { apply align_above; [done|]. rewrite fmap_cons. by apply above_trans. }
    split; [|by apply names_sorted_cons]. constructor.
    + split; [apply find_col_here|]. by apply find_col_below.
    + eapply Forall_pairs; [exact Hp|exact Hab|]. intros p Hp' Hb. by apply pair_ok_skip_new.
  - destruct (IHo Ho') as [Hp Hs]. rewrite fmap_cons.
    assert (Hab : Forall (λ g, lt_name (FName (fst o)) (FName g)) (pair_field <$> align (n :: new) old)).
    { apply align_above; [|done]. rewrite fmap_cons. by apply above_trans. }
    split; [|by apply names_sorted_cons]. constructor.
    + split; [by apply find_col_below|apply find_col_here].
    + eapply Forall_pairs; [exact Hp|exact Hab|]. intros p Hp' Hb. by apply pair_ok_skip_old.
  - pose proof (lt_name_total _ _ E1 E2) as Hno. destruct (IHn old Hn' Ho') as [Hp Hs]. rewrite fmap_cons.
    assert (Hab : Forall (λ g, lt_name (FName (fst n)) (FName g)) (pair_field <$> align new old)).
    { apply align_above; [done|]. by rewrite Hno. }
    split; [|by apply names_sorted_cons]. constructor.
    + split; [apply find_col_here|]. cbn [pair_field]. rewrite Hno. apply find_col_here.
    + eapply Forall_pairs; [exact Hp|exact Hab|]. intros p Hp' Hb.
      apply pair_ok_skip_new; [done|]. apply pair_ok_skip_old; [by rewrite <- Hno|done].
Qed.

Lemma align_complete new old f :
  agree (fst <$> new) (fst <$> old) →
  f ∈ fst <$> new ∨ f ∈ fst <$> old → f ∈ pair_field <$> align new old.
Proof.
  revert old. induction new as [|n new IHn]; intros old Hag; [|induction old as [|o old IHo]].
  - rewrite align_nil_l, <- list_fmap_compose. intros [Hf|Hf]; [by apply elem_of_nil in Hf|done].
  - rewrite align_nil_r, <- list_fmap_compose. intros [Hf|Hf]; [done|by apply elem_of_nil in Hf].
  - rewrite !fmap_cons in Hag. cbn [align]. destruct (name_lt (fst n) (fst o)) eqn:E1; [|destruct (name_lt (fst o) (fst n)) eqn:E2].
    + rewrite !fmap_cons, !elem_of_cons. intros Hf. specialize (IHn (o :: old)). rewrite fmap_cons, !elem_of_cons in IHn.
      assert (Hag' : agree (fst <$> new) (fst o :: (fst <$> old))) by (intros ????; apply Hag; [by right|done]).
      specialize (IHn Hag'). tauto.
    + assert (Hag' : agree (fst n :: (fst <$> new)) (fst <$> old)) by (intros ????; apply Hag; [done|by right]).
      specialize (IHo Hag'). rewrite !fmap_cons, !elem_of_cons in *. tauto.
    + pose proof (lt_name_total _ _ E1 E2) as Hno.
      assert (fst n = fst o) by (apply Hag; [left|left|done]).
      assert (Hag' : agree (fst <$> new) (fst <$> old)) by (intros ????; apply Hag; by right).
      specialize (IHn old Hag'). rewrite !fmap_cons, !elem_of_cons. cbn [pair_field].
      destruct 1 as [[->|]|[->|]]; try (by left); try (right; tauto). 
Qed.

(** mergeRecordSchema lists the fields of the walk. *)
Lemma schema_loop_align nt ot new old :
  nt = ot →
  schema_loop nt ot (fst <$> new) (fst <$> old) = (pair_field <$> align new old) ++ [nt].
Proof.
  intros <-. revert old. induction new as [|n new IHn]; intros old.
  - rewrite align_nil_l, <- list_fmap_compose. by destruct old.
  - induction old as [|o old IHo].
    + rewrite align_nil_r, <- list_fmap_compose. done.
    + rewrite !fmap_cons. cbn [align schema_loop]. case_match; [|case_match]; rewrite fmap_cons; cbn [app pair_field]; f_equal.
      * rewrite <- IHn. by rewrite fmap_cons.
      * exact IHo.
      * apply IHn.
Qed.
