(* ===== verification/RecordFast.v ===== *)
(** * lib/record/record.go: AppendRecFast

    A reader that appends consecutive row ranges of a record keeps, per source column, a
    row and the number of valid rows before it, so that the population count need not
    start from row 0 again.  The theorem says that this is only an optimisation: with
    right cursors AppendRecFast does what AppendRec does, and the cursors stay right. *)

From S2P Require Import Prelude GoSlice Bitmap ColVal ColRefine Record.

(** The valid rows of a column before row [p]. *)
Definition valid_before (c : ColVal) (p : nat) : Z :=
  Z.of_nat (count_true (range_bits (sdata (Bitmap c)) (BitMapOffset c) (BitMapOffset c + p))).

(** The bitmap has a bit for every row before [end_]. *)
Definition bitmap_covers (c : ColVal) (end_ : nat) : Prop :=
  bytes_ok (sdata (Bitmap c)) ∧ ((end_ + BitMapOffset c + 7) / 8 <= slen (Bitmap c))%nat.

Definition cursors_ok (src : list column) (start : nat) (colPos : list nat) (colPosValidCount : list Z) : Prop :=
  ∀ i c, src !! i = Some c →
    ∃ p k, colPos !! i = Some p ∧ colPosValidCount !! i = Some k ∧ (p <= start)%nat ∧ k = valid_before (snd c) p.

Lemma getValidCount_spec c start p :
  (p <= start)%nat → bitmap_covers c start →
  getValidCount c start p (valid_before c p) = Ok (valid_before c start).
Proof.
  intros Hp [_ Hlen]. unfold getValidCount, valid_before. rewrite count_loop_spec.
  - replace (BitMapOffset c + p + (start - p))%nat with (BitMapOffset c + start)%nat by lia.
    rewrite (range_bits_app _ (BitMapOffset c) (BitMapOffset c + p) (BitMapOffset c + start)), count_true_app by lia.
    f_equal. lia.
  - unfold slen in Hlen. pose proof (Nat.div_mod_eq (start + BitMapOffset c + 7) 8).
    pose proof (Nat.mod_upper_bound (start + BitMapOffset c + 7) 8). lia.
Qed.

(** The cursor makes no difference to the append. *)
Lemma AppendColValFast_same `{GoRuntime} cv src ft start end_ p :
  (p <= start)%nat → bitmap_covers src end_ →
  AppendColValFast cv src ft start end_ p (valid_before src p) = AppendColVal cv src ft start end_.
Proof.
  intros Hp [Hok Hlen]. unfold AppendColValFast, AppendColVal, Append.
  destruct (Nat.leb_spec end_ start) as [|Hlt]; cbn [orb]; [done|].
  rewrite !valueIndexRange_spec; try done; try lia; intros _.
  - unfold range_bits. by rewrite Nat.sub_diag.
  - unfold valid_before. do 3 f_equal. lia.
Qed.

(** The actions on the columns only matter up to what they do. *)
Lemma append_actions_ext `{GoRuntime} pad add add' n i fields src cols :
  (∀ j c cv, src !! j = Some c → add (i + j)%nat c cv = add' (i + j)%nat c cv) →
  ∀ tact, update_cols (append_actions pad add n i fields src ++ [tact]) cols =
          update_cols (append_actions pad add' n i fields src ++ [tact]) cols.
Proof.
  intros Hadd tact. revert i src cols Hadd.
  induction fields as [|f fields IH]; intros i src cols Hadd; [done|]. destruct src as [|s src]; cbn [append_actions].
  { cbn [app update_cols]. destruct cols as [|c cols]; [done|]. by rewrite (IH i [] cols). }
  case_match; cbn [app update_cols]; (destruct cols as [|c cols]; [done|]).
  - by rewrite (IH i (s :: src) cols).
  - pose proof (Hadd 0%nat s c eq_refl) as E. rewrite Nat.add_0_r in E. rewrite E.
    rewrite (IH (S i) src cols); [done|]. intros j c' cv Hj. specialize (Hadd (S j) c' cv Hj).
    by rewrite Nat.add_succ_r in Hadd.
Qed.

Lemma advance_spec start i fields src all colPos colPosValidCount :
  drop i all = src → Forall (λ c, bitmap_covers (snd c) start) all →
  cursors_ok all start colPos colPosValidCount →
  ∃ colPos' cnt', advance start i fields src colPos colPosValidCount = Ok (colPos', cnt') ∧
    cursors_ok all start colPos' cnt'.
Proof.
  intros Hsrc Hcov. revert i src colPos colPosValidCount Hsrc.
  induction fields as [|f fields IH]; intros i src pos cnt Hsrc Hcur; [by exists pos, cnt|].
  destruct src as [|s src]; [by exists pos, cnt|]. cbn [advance]. case_match; [by apply IH|].
  assert (Hs : all !! i = Some s) by (by rewrite <- (Nat.add_0_r i), <- lookup_drop, Hsrc).
  destruct (Hcur i s Hs) as (p & k & Hp & Hk & Hle & ->). unfold cursor. rewrite Hp, Hk. rs.
  rewrite getValidCount_spec; [|done|by eapply (Forall_lookup_1 _ _ _ _ Hcov)]. rs. apply IH.
  - rewrite (drop_S all s i Hs) in Hsrc. by injection Hsrc.
  - intros j c Hc. destruct (decide (j = i)) as [->|Hne].
    + exists start, (valid_before (snd s) start). replace c with s by congruence.
      rewrite !list_lookup_insert_eq by (by eapply lookup_lt_Some). done.
    + rewrite !list_lookup_insert_ne by done. by apply Hcur.
Qed.

(** ** Theorem *)

(** C25: AppendRecFast is AppendRec.  If every cursor lies at or before [start] and holds the
    number of valid rows before it, AppendRecFast builds the record AppendRec builds
    (or fails the same way), and the cursors it leaves are right again for any later
    range. *)
Theorem AppendRecFast_equiv `{GoRuntime} rec srcRec start end_ colPos colPosValidCount :
  let src := body (columns srcRec) in
  (start <= end_)%nat → Forall (λ c, bitmap_covers (snd c) end_) src →
  cursors_ok src start colPos colPosValidCount →
  ∃ colPos' cnt',
    AppendRecFast rec srcRec start end_ colPos colPosValidCount =
      (let! rec' := AppendRec rec srcRec start end_ in Ok (rec', colPos', cnt')) ∧
    cursors_ok src start colPos' cnt'.
Proof.
  intros src Hse Hcov Hcur.
  assert (Hcov' : Forall (λ c, bitmap_covers (snd c) start) src).
  { eapply Forall_impl; [exact Hcov|]. intros c [Hok Hl]. split; [done|]. etrans; [|exact Hl].
    apply Nat.Div0.div_le_mono. lia. }
  assert (∃ colPos' cnt',
    (if no_cursors colPos colPosValidCount then Ok (colPos, colPosValidCount)
     else advance start 0 (body (Schema rec)) src colPos colPosValidCount) = Ok (colPos', cnt') ∧
    cursors_ok src start colPos' cnt') as (pos' & cnt' & Hadv & Hcur').
  { destruct (no_cursors colPos colPosValidCount); [by eexists _, _|].
    by apply (advance_spec start 0 _ src src). }
  unfold AppendRecFast, AppendRec, appendRecImpl. fold src. destruct (start =? end_)%nat.
  { by exists colPos, colPosValidCount. }
  exists pos', cnt'. split; [|done]. destruct (time_of (columns srcRec)) as [t| | |]; try done. rs.
  rewrite (append_actions_ext true _ (append_src [] [] start end_)).
  - destruct (update_cols _ _) as [cols| | |]; try done. rs. rewrite Hadv. rs.
    destruct (MetaTimes srcRec) as [[|m ms]|]; try done. by destruct (append_meta _ _ _ _).
  - intros j c cv Hc. unfold append_src. destruct (no_cursors colPos colPosValidCount); [done|].
    destruct (Hcur j c Hc) as (p & k & Hp & Hk & Hle & ->). cbn [Nat.add]. unfold cursor. rewrite Hp, Hk. rs.
    rewrite getValidCount_spec; [|done|exact (Forall_lookup_1 _ _ _ _ Hcov' Hc)]. rs.
    apply AppendColValFast_same; [lia|exact (Forall_lookup_1 _ _ _ _ Hcov Hc)].
Qed.

Definition fast_src : Record_ :=
  mk_Record [mk_Field Field_Type_Int "a"; mk_Field Field_Type_Int "time"]
    [mk_ColVal (mk_slice (bytes_le 8 [7; 8; 9]) []) nil_slice (mk_slice [21] []) 0 5 2;
     mk_ColVal (mk_slice (bytes_le 8 [1; 2; 3; 4; 5]) []) nil_slice (mk_slice [31] []) 0 5 0] [] None.
Definition fast_rec : Record_ := mk_Record (Schema fast_src) [empty_col; empty_col] [] None.

Lemma AppendRecFast_equiv_witness :
  ∃ colPos' cnt',
    AppendRecFast fast_rec fast_src 3 5 [2%nat] [1] =
      (let! rec' := AppendRec fast_rec fast_src 3 5 in Ok (rec', colPos', cnt')) ∧
    cursors_ok (body (columns fast_src)) 3 colPos' cnt'.
Proof.
  apply (AppendRecFast_equiv fast_rec fast_src 3 5 [2%nat] [1]); [lia| |].
  - constructor; [|constructor]. split; [by_compute|vm_compute; lia].
  - intros [|i] c Hc; [|done]. injection Hc as <-. exists 2%nat, 1. repeat split. lia.
Defined.
