(* ===== verification/RecordTable.v ===== *)
(** * lib/record: records as tables

    [rec_rep] relates a record to the list of its rows, a time and a map from field
    names to cells.  The proofs only use the column operations through the class
    [Column].  Shown here: appending rows of a record whose schema is contained in the
    other's, combining two rows with the same time, and concatenating row ranges. *)

From stdpp Require Import gmap.
From Stdlib Require String.
From S2P Require Import Prelude GoSlice Bitmap ColVal ColRefine ColStrings Column TimeSearch Record RecordSchema.

(** ** Rows *)

Abbreviation row := (Z * gmap string cell)%type.

(** The column of a name. *)
Definition col_of (nm : string) (rows : list row) : list (option cell) := (λ r : row, snd r !! nm) <$> rows.

Definition slice_rows {A} (l : list A) (s e : nat) : list A := take (e - s) (drop s l).

Lemma col_of_app nm a b : col_of nm (a ++ b) = col_of nm a ++ col_of nm b.
Proof. apply fmap_app. Qed.
Lemma col_of_slice nm rows s e : col_of nm (slice_rows rows s e) = take (e - s) (drop s (col_of nm rows)).
Proof. unfold col_of, slice_rows. by rewrite fmap_take, fmap_drop. Qed.
Lemma length_col_of nm rows : length (col_of nm rows) = length rows.
Proof. unfold col_of. len. Qed.
Lemma col_of_lookup nm rows i r : rows !! i = Some r → col_of nm rows !! i = Some (snd r !! nm).
Proof. intros Hr. unfold col_of. by rewrite list_lookup_fmap, Hr. Qed.

Lemma time_cells_app a b : time_cells (a ++ b) = time_cells a ++ time_cells b.
Proof. apply fmap_app. Qed.
Lemma times_slice (rows : list row) s e :
  time_cells (fst <$> slice_rows rows s e) = take (e - s) (drop s (time_cells (fst <$> rows))).
Proof. unfold time_cells, slice_rows. by rewrite fmap_take, fmap_drop, fmap_take, fmap_drop. Qed.
Lemma length_slice_rows {A} (l : list A) s e : (s <= e <= length l)%nat → length (slice_rows l s e) = (e - s)%nat.
Proof. intros. unfold slice_rows. rewrite length_take, length_drop. lia. Qed.
Lemma slice_rows_one {A} (l : list A) i x : l !! i = Some x → slice_rows l i (S i) = [x].
Proof.
  intros Hx. unfold slice_rows. replace (S i - i)%nat with 1%nat by lia. by rewrite (drop_S l x i Hx).
Qed.

(** The fields the rows may set. *)
Definition keys_in (fs : list Field) (rows : list row) : Prop :=
  ∀ r nm c, r ∈ rows → snd r !! nm = Some c → nm ∈ FName <$> fs.

Lemma keys_in_app fs a b : keys_in fs a → keys_in fs b → keys_in fs (a ++ b).
Proof. intros Ha Hb r nm c [Hr|Hr]%elem_of_app; eauto. Qed.
Lemma keys_in_slice fs rows s e : keys_in fs rows → keys_in fs (slice_rows rows s e).
Proof.
  intros Hk r nm c Hr. apply Hk. unfold slice_rows in Hr.
  apply elem_of_take in Hr as (i & Hr & _). rewrite lookup_drop in Hr. by eapply list_elem_of_lookup_2.
Qed.
Lemma keys_in_mono fs gs rows : (∀ f, f ∈ fs → f ∈ gs) → keys_in fs rows → keys_in gs rows.
Proof.
  intros Hsub Hk r nm c Hr Hc. destruct (list_elem_of_fmap_1 _ _ _ (Hk r nm c Hr Hc)) as (f & -> & Hf).
  by apply list_elem_of_fmap_2, Hsub.
Qed.

(** A field without a column is null in every row. *)
Lemma col_of_absent fs nm rows :
  keys_in fs rows → nm ∉ FName <$> fs → col_of nm rows = replicate (length rows) None.
Proof.
  intros Hk Hnm. induction rows as [|r rows IH]; [done|]. cbn [length replicate]. unfold col_of. rewrite fmap_cons.
  f_equal.
  - destruct (snd r !! nm) eqn:E; [|done]. destruct Hnm. eapply Hk; [left|done].
  - apply IH. intros r' nm' c Hr'. apply Hk. by right.
Qed.

(** ** Records *)

(** Every string column of the rows fits its 32-bit offsets. *)
Definition fits_rows (fs : list Field) (rows : list row) : Prop :=
  ∀ f, f ∈ fs → FType f = Field_Type_String → fits (col_of (FName f) rows).

Lemma fits_prefix a b : fits (a ++ b) → fits a.
Proof. unfold fits. rewrite text_app, length_app. lia. Qed.
Lemma fits_rows_prefix fs a b : a `prefix_of` b → fits_rows fs b → fits_rows fs a.
Proof. intros [c ->] Hfit f Hf Hs. specialize (Hfit f Hf Hs). rewrite col_of_app in Hfit. by eapply fits_prefix. Qed.

Section Tables.
Context `{GoRuntime} (R : FieldType → ColVal → list (option cell) → Prop) `{!Column R}.

Definition col_ok (rows : list row) (f : Field) (cv : ColVal) : Prop := R (FType f) cv (col_of (FName f) rows).

Record rec_rep (rec : Record_) (fs : list Field) (tf : Field) (rows : list row) : Prop := mk_rec_rep {
  rr_schema : Schema rec = fs ++ [tf];
  rr_cols : ∃ cs tc, ColVals rec = cs ++ [tc] ∧ Forall2 (col_ok rows) fs cs ∧
                     R Field_Type_Int tc (time_cells (fst <$> rows));
  rr_time : FType tf = Field_Type_Int;
  rr_sorted : names_sorted fs;
  rr_types : Forall (λ f, data_type (FType f)) fs;
  rr_keys : keys_in fs rows;
  rr_meta : MetaTimes rec = None
}.

Lemma body_snoc {A} (l : list A) x : body (l ++ [x]) = l.
Proof. unfold body. rewrite length_app, Nat.add_sub. apply take_app_length. Qed.
Lemma time_of_snoc {A} (l : list A) x : time_of (l ++ [x]) = Ok x.
Proof. unfold time_of. rewrite length_app, Nat.add_sub. by rewrite list_lookup_middle. Qed.

(** The columns of a record, with the table they hold. *)
Lemma rep_columns rec fs tf rows :
  rec_rep rec fs tf rows →
  ∃ cols tc, columns rec = cols ++ [(tf, tc)] ∧ fst <$> cols = fs ∧
    Forall (λ c, col_ok rows (fst c) (snd c)) cols ∧ R Field_Type_Int tc (time_cells (fst <$> rows)).
Proof.
  intros [Hs (cs & tc & Hc & Hall & Ht) _ _ _ _ _]. exists (zip fs cs), tc. pose proof (Forall2_length _ _ _ Hall) as Hl.
  split; [|split; [|split; [|done]]].
  - unfold columns. rewrite Hs, Hc, zip_with_app by done. done.
  - apply fst_zip. lia.
  - clear -Hall. induction Hall; constructor; [done|done].
Qed.

Lemma rep_find rec fs tf rows cols nm :
  fst <$> cols = fs → Forall (λ c, col_ok rows (fst c) (snd c)) cols → rec_rep rec fs tf rows →
  match find_col nm cols with
  | Some c => fst c ∈ fs ∧ FName (fst c) = nm ∧ R (FType (fst c)) (snd c) (col_of nm rows)
  | None => ∀ s e, col_of nm (slice_rows rows s e) = replicate (length (slice_rows rows s e)) None
  end.
Proof.
  intros Hfs Hall Hrep. destruct (find_col nm cols) as [c|] eqn:E.
  - apply find_col_Some in E as [Hin Hnm]. rewrite Forall_forall in Hall. specialize (Hall c Hin).
    split; [|split; [done|by rewrite <- Hnm]]. rewrite <- Hfs. by apply list_elem_of_fmap_2.
  - apply find_col_None in E. rewrite Hfs in E. intros s e. apply (col_of_absent fs); [|done].
    apply keys_in_slice, (rr_keys _ _ _ _ Hrep).
Qed.

(** An update of every column. *)
Lemma update_cols_app acts tact cs tc cs' tc' :
  update_cols acts cs = Ok cs' → length acts = length cs → tact tc = Ok tc' →
  update_cols (acts ++ [tact]) (cs ++ [tc]) = Ok (cs' ++ [tc']).
Proof.
  revert cs cs'. induction acts as [|act acts IH]; intros [|c cs] cs'; try done; cbn.
  - intros [= <-] _ ->. done.
  - intros Hu Hl Ht. destruct (act c) as [c'| | |]; try done. cbn in *.
    destruct (update_cols acts cs) as [cs''| | |] eqn:E; try done. cbn in *. injection Hu as <-.
    rewrite (IH cs cs''); [done|done|lia|done].
Qed.

Definition maps_to (rows rows' : list row) (f : Field) (act : ColVal → res ColVal) : Prop :=
  ∀ cv, col_ok rows f cv → ∃ cv', act cv = Ok cv' ∧ col_ok rows' f cv'.

Lemma update_cols_spec rows rows' fs acts cs :
  Forall2 (maps_to rows rows') fs acts → Forall2 (col_ok rows) fs cs →
  ∃ cs', update_cols acts cs = Ok cs' ∧ Forall2 (col_ok rows') fs cs'.
Proof.
  intros Hacts. revert cs. induction Hacts as [|f act fs acts Hact _ IH]; intros cs Hcs.
  - inversion Hcs; subst. exists []. done.
  - inversion Hcs as [|? c ? cs0 Hc Hcs0]; subst. destruct (Hact c Hc) as (c' & Hc' & Hok).
    destruct (IH cs0 Hcs0) as (cs' & Hcs' & Hall). exists (c' :: cs'). cbn. rewrite Hc'. cbn. rewrite Hcs'. cbn. split; [done|by constructor].
Qed.

Lemma update_rep rec fs tf rows rows' acts tact :
  rec_rep rec fs tf rows → keys_in fs rows' → Forall2 (maps_to rows rows') fs acts →
  (∀ cv, R Field_Type_Int cv (time_cells (fst <$> rows)) →
     ∃ cv', tact cv = Ok cv' ∧ R Field_Type_Int cv' (time_cells (fst <$> rows'))) →
  ∃ cols, update_cols (acts ++ [tact]) (ColVals rec) = Ok cols ∧ rec_rep (set_cols rec cols) fs tf rows'.
Proof.
  intros [Hs (cs & tc & Hc & Hall & Ht) Htf Hsort Hty Hk Hm] Hk' Hacts Htact.
  destruct (update_cols_spec rows rows' fs acts cs Hacts Hall) as (cs' & Hcs' & Hall').
  destruct (Htact tc Ht) as (tc' & Htc' & Ht'). exists (cs' ++ [tc']). split.
  - rewrite Hc. apply update_cols_app; [done| |done].
    rewrite <- (Forall2_length _ _ _ Hacts). by rewrite <- (Forall2_length _ _ _ Hall).
  - split; try done. cbn. by exists cs', tc'.
Qed.

(** Rows of a source record are appended to a column. *)
Lemma append_col_rows rows src_rows f c s e cv :
  col_ok rows f cv → FType (fst c) = FType f → R (FType f) (snd c) (col_of (FName f) src_rows) →
  (s <= e <= length src_rows)%nat →
  (FType f = Field_Type_String → fits (col_of (FName f) (rows ++ slice_rows src_rows s e))) →
  ∃ cv', append_col c s e cv = Ok cv' ∧ col_ok (rows ++ slice_rows src_rows s e) f cv'.
Proof.
  intros Hcv Hty Hsrc Hse Hfit. unfold append_col, col_ok. rewrite Hty. rewrite col_of_app, col_of_slice in *.
  apply col_append; [done|done|by rewrite length_col_of|done].
Qed.

Lemma append_time_rows (rows src_rows : list row) c s e cv :
  R Field_Type_Int cv (time_cells (fst <$> rows)) → FType (fst c) = Field_Type_Int →
  R Field_Type_Int (snd c) (time_cells (fst <$> src_rows)) → (s <= e <= length src_rows)%nat →
  ∃ cv', append_col c s e cv = Ok cv' ∧ R Field_Type_Int cv' (time_cells (fst <$> rows ++ slice_rows src_rows s e)).
Proof.
  intros Hcv Hty Hsrc Hse. unfold append_col. rewrite Hty, fmap_app, time_cells_app, times_slice.
  apply col_append; [done|done| |done]. unfold time_cells. by rewrite !length_fmap.
Qed.

Lemma pad_col_rows rows f nulls n cv :
  col_ok rows f cv → col_of (FName f) nulls = replicate n None →
  ∃ cv', pad_col f n cv = Ok cv' ∧ col_ok (rows ++ nulls) f cv'.
Proof. intros Hcv Hnull. unfold pad_col, col_ok. rewrite col_of_app, Hnull. by apply col_pad. Qed.

(** A column that a source record may have: its rows are appended, or nulls. *)
Definition add_source (c : option column) (f : Field) (s e : nat) (cv : ColVal) : res ColVal :=
  match c with Some c => append_col c s e cv | None => pad_col f (e - s) cv end.

Definition source_ok (rows : list row) (c : option column) (f : Field) : Prop :=
  match c with
  | Some c => FType (fst c) = FType f ∧ R (FType f) (snd c) (col_of (FName f) rows)
  | None => ∀ s e, col_of (FName f) (slice_rows rows s e) = replicate (length (slice_rows rows s e)) None
  end.

Lemma rep_source rec fs tf rows cols f :
  fst <$> cols = fs → Forall (λ c, col_ok rows (fst c) (snd c)) cols → rec_rep rec fs tf rows →
  (∀ g, g ∈ fs → FName g = FName f → g = f) →
  source_ok rows (find_col (FName f) cols) f.
Proof.
  intros Hfs Hall Hrep Huniq. pose proof (rep_find _ _ _ _ _ (FName f) Hfs Hall Hrep) as Hfind.
  destruct (find_col (FName f) cols) as [c|]; [|done]. destruct Hfind as (Hin & Hnm & HR).
  pose proof (Huniq _ Hin Hnm) as Hcf. cbn. rewrite Hcf in *. done.
Qed.

Lemma add_source_rows rows srows c f s e cv :
  col_ok rows f cv → source_ok srows c f → (s <= e <= length srows)%nat →
  (FType f = Field_Type_String → fits (col_of (FName f) (rows ++ slice_rows srows s e))) →
  ∃ cv', add_source c f s e cv = Ok cv' ∧ col_ok (rows ++ slice_rows srows s e) f cv'.
Proof.
  intros Hcv Hsrc Hse Hfit. destruct c as [c|]; cbn [add_source source_ok] in *.
  - destruct Hsrc. by apply append_col_rows.
  - apply pad_col_rows; [done|]. rewrite Hsrc. by rewrite length_slice_rows.
Qed.

(** ** AppendRec *)

Lemma AppendRec_spec rec fs tf rows src sfs stf srows s e :
  rec_rep rec fs tf rows → rec_rep src sfs stf srows → (∀ f, f ∈ sfs → f ∈ fs) →
  (s <= e <= length srows)%nat → fits_rows fs (rows ++ slice_rows srows s e) →
  ∃ rec', AppendRec rec src s e = Ok rec' ∧ rec_rep rec' fs tf (rows ++ slice_rows srows s e).
Proof.
  intros Hrep Hsrc Hsub Hse Hfit. unfold AppendRec, appendRecImpl. destruct (Nat.eqb_spec s e) as [->|Hne].
  { exists rec. split; [done|]. unfold slice_rows. by rewrite Nat.sub_diag, take_0, app_nil_r. }
  destruct (rep_columns _ _ _ _ Hsrc) as (cols & tc & Hcols & Hfs & Hall & Ht).
  rewrite Hcols, body_snoc, time_of_snoc, (rr_schema _ _ _ _ Hrep), body_snoc. rs.
  change (append_src [] [] s e) with (λ (_ : nat) c, append_col c s e).
  rewrite append_actions_spec; [|exact (rr_sorted _ _ _ _ Hrep)|rewrite Hfs; exact (rr_sorted _ _ _ _ Hsrc)|].
  2:{ rewrite Hfs. intros nm (f & -> & Hf)%list_elem_of_fmap_1. by apply list_elem_of_fmap_2, Hsub. }
  destruct (update_rep rec fs tf rows (rows ++ slice_rows srows s e)
              ((λ f, add_source (find_col (FName f) cols) f s e) <$> fs)
              (append_col (stf, tc) s e) Hrep) as (cols' & Hu & Hrep').
  - apply keys_in_app; [apply (rr_keys _ _ _ _ Hrep)|].
    apply (keys_in_mono sfs); [done|]. apply keys_in_slice, (rr_keys _ _ _ _ Hsrc).
  - apply Forall2_fmap_r, Forall_Forall2_diag, Forall_forall. intros f Hf cv Hcv.
    apply add_source_rows; [done| |done|intros; by apply Hfit].
    apply (rep_source src sfs stf); [done|done|done|]. intros g Hg Hn.
    apply (names_sorted_unique fs); [apply (rr_sorted _ _ _ _ Hrep)|by apply Hsub|done|done].
  - intros cv Hcv. apply append_time_rows; [done|exact (rr_time _ _ _ _ Hsrc)|done|done].
  - exists (set_cols rec cols'). split; [|done].
    rewrite (list_fmap_ext _ (λ f, add_source (find_col (FName f) cols) f s e) fs), Hu;
      [|intros i f _; by destruct (find_col (FName f) cols)].
    rs. by rewrite (rr_meta _ _ _ _ Hsrc).
Qed.

(** ** Two records *)

Definition pair_new (p : pairing) : option column :=
  match p with OnlyNew n => Some n | OnlyOld _ => None | Both n _ => Some n end.
Definition pair_old (p : pairing) : option column :=
  match p with OnlyNew _ => None | OnlyOld o => Some o | Both _ o => Some o end.

Section Merge.
Context (newRec oldRec : Record_) (nfs ofs : list Field) (tf : Field) (nrows orows : list row).
Hypothesis new_ok : rec_rep newRec nfs tf nrows.
Hypothesis old_ok : rec_rep oldRec ofs tf orows.
Hypothesis fields_agree : agree nfs ofs.

Definition merged : list pairing := align (body (columns newRec)) (body (columns oldRec)).
Definition merged_fields : list Field := pair_field <$> merged.

Lemma body_fields rec fs rows : rec_rep rec fs tf rows → fst <$> body (columns rec) = fs.
Proof. intros Hrep. destruct (rep_columns _ _ _ _ Hrep) as (cols & tc & -> & Hfs & _). by rewrite body_snoc. Qed.

Lemma merged_fields_elem f : f ∈ merged_fields ↔ f ∈ nfs ∨ f ∈ ofs.
Proof.
  pose proof (body_fields _ _ _ new_ok) as Hn. pose proof (body_fields _ _ _ old_ok) as Ho.
  unfold merged_fields, merged. split.
  - intros Hf%align_fields. by rewrite Hn, Ho in Hf.
  - intros Hf. apply align_complete; by rewrite Hn, Ho.
Qed.

Lemma merged_sorted : names_sorted merged_fields.
Proof.
  apply align_spec; [rewrite (body_fields _ _ _ new_ok)|rewrite (body_fields _ _ _ old_ok)];
    [apply (rr_sorted _ _ _ _ new_ok)|apply (rr_sorted _ _ _ _ old_ok)].
Qed.

Lemma merged_unique f g : f ∈ merged_fields → g ∈ merged_fields → FName f = FName g → f = g.
Proof. apply names_sorted_unique, merged_sorted. Qed.

Lemma pair_sources p :
  p ∈ merged → source_ok nrows (pair_new p) (pair_field p) ∧ source_ok orows (pair_old p) (pair_field p).
Proof.
  intros Hp. assert (Hf : pair_field p ∈ merged_fields) by by apply list_elem_of_fmap_2.
  assert (pair_ok (body (columns newRec)) (body (columns oldRec)) p) as Hok.
  { destruct (align_spec (body (columns newRec)) (body (columns oldRec))) as [Hall _];
      [rewrite (body_fields _ _ _ new_ok); apply (rr_sorted _ _ _ _ new_ok)
      |rewrite (body_fields _ _ _ old_ok); apply (rr_sorted _ _ _ _ old_ok)|].
    rewrite Forall_forall in Hall. by apply Hall. }
  destruct (rep_columns _ _ _ _ new_ok) as (nc & ntc & Hnc & Hnf & Hnall & _).
  destruct (rep_columns _ _ _ _ old_ok) as (oc & otc & Hoc & Hof & Hoall & _).
  rewrite Hnc, Hoc, !body_snoc in Hok.
  pose proof (rep_source _ _ _ _ _ (pair_field p) Hnf Hnall new_ok) as Hns.
  pose proof (rep_source _ _ _ _ _ (pair_field p) Hof Hoall old_ok) as Hos.
  assert (find_col (FName (pair_field p)) nc = pair_new p) as Hpn by (destruct p, Hok; done).
  assert (find_col (FName (pair_field p)) oc = pair_old p) as Hpo by (destruct p, Hok; done).
  rewrite Hpn in Hns. rewrite Hpo in Hos.
  split; [apply Hns|apply Hos]; intros g Hg Hn; (apply merged_unique; [apply merged_fields_elem; tauto|done|done]).
Qed.

Lemma merged_types : Forall (λ f, data_type (FType f)) merged_fields.
Proof.
  apply Forall_forall. intros f [Hf|Hf]%merged_fields_elem.
  - by apply (proj1 (Forall_forall _ _) (rr_types _ _ _ _ new_ok)).
  - by apply (proj1 (Forall_forall _ _) (rr_types _ _ _ _ old_ok)).
Qed.

(** *** The empty result *)

Definition fresh (rec : Record_) : Prop :=
  Schema rec = [] ∧ ColVals rec = [] ∧ Forall blank (ColSpare rec) ∧ MetaTimes rec = None.

Lemma blank_empty : blank empty_col.
Proof. split_and!; try done. constructor. Qed.

Lemma start_rep rec :
  fresh rec →
  ∃ rec1 rec2, mergeRecordSchema rec newRec oldRec = Ok rec1 ∧ resize_cols rec1 = Ok rec2 ∧
               rec_rep rec2 merged_fields tf [].
Proof.
  intros (Hs & Hc & Hsp & Hm). unfold mergeRecordSchema.
  rewrite (rr_schema _ _ _ _ new_ok), (rr_schema _ _ _ _ old_ok), !time_of_snoc, !body_snoc, Hs. rs.
  rewrite <- (body_fields _ _ _ new_ok), <- (body_fields _ _ _ old_ok), (schema_loop_align tf tf) by done.
  fold merged merged_fields. eexists _, _. split; [done|]. split; [done|]. cbn [Schema ColVals ColSpare app]. rewrite Hc. cbn [app].
  set (n := length (merged_fields ++ [tf])).
  set (all := if (length (ColSpare rec) <? n)%nat then _ else _).
  assert (Forall blank (take n all) ∧ length (take n all) = n) as [Hb Hl].
  { subst all. bcase.
    - rewrite take_ge by len. split; [apply Forall_replicate, blank_empty|len].
    - split; [by apply Forall_take|]. rewrite length_take. lia. }
  assert (∃ cs tc, take n all = cs ++ [tc]) as (cs & tc & E).
  { destruct (List.exists_last (l := take n all)) as (cs & tc & E); [|eauto].
    intros E. rewrite E in Hl. subst n. rewrite length_app in Hl. cbn in Hl. lia. }
  split; cbn [Schema ColVals MetaTimes]; try done.
  - exists cs, tc. split; [done|]. rewrite E in Hb. apply Forall_app in Hb as [Hbs [Hbt _]%Forall_cons]. split.
    + assert (Hlen : length cs = length merged_fields).
      { rewrite E in Hl. subst n. rewrite !length_app in Hl. cbn in Hl. lia. }
      apply Forall2_same_length_lookup_2; [done|]. intros i f cv Hf Hcv. apply col_blank.
      * exact (Forall_lookup_1 _ _ i f merged_types Hf).
      * by eapply Forall_lookup_1.
    + by apply col_blank.
  - apply (rr_time _ _ _ _ new_ok).
  - apply merged_sorted.
  - apply merged_types.
  - intros r nm c Hr. by apply elem_of_nil in Hr.
Qed.

(** *** Row ranges of both records *)

Lemma merged_acts rows rows' (g : pairing → ColVal → res ColVal) :
  (∀ p cv, p ∈ merged → col_ok rows (pair_field p) cv →
     ∃ cv', g p cv = Ok cv' ∧ col_ok rows' (pair_field p) cv') →
  Forall2 (maps_to rows rows') merged_fields (g <$> merged).
Proof.
  intros Hg. unfold merged_fields. apply Forall2_fmap_2, Forall_Forall2_diag, Forall_forall.
  intros p Hp cv Hcv. by apply Hg.
Qed.

Lemma new_sub f : f ∈ nfs → f ∈ merged_fields.
Proof. intros. apply merged_fields_elem. by left. Qed.
Lemma old_sub f : f ∈ ofs → f ∈ merged_fields.
Proof. intros. apply merged_fields_elem. by right. Qed.

Lemma merged_in p : p ∈ merged → pair_field p ∈ merged_fields.
Proof. apply list_elem_of_fmap_2. Qed.

Lemma ranges_rep rec rows np ne op oe ntc otc :
  rec_rep rec merged_fields tf rows → (np <= ne <= length nrows)%nat → (op <= oe <= length orows)%nat →
  time_of (columns newRec) = Ok ntc → time_of (columns oldRec) = Ok otc →
  fits_rows merged_fields ((rows ++ slice_rows orows op oe) ++ slice_rows nrows np ne) →
  ∃ cols, update_cols ((nonoverlap_action np ne op oe <$> merged) ++
             [λ cv, let! cv := append_col otc op oe cv in append_col ntc np ne cv]) (ColVals rec) = Ok cols ∧
          rec_rep (set_cols rec cols) merged_fields tf ((rows ++ slice_rows orows op oe) ++ slice_rows nrows np ne).
Proof.
  intros Hrep Hn Ho Hnt Hot Hfit. destruct (rep_columns _ _ _ _ new_ok) as (nc & nt & Hnc & _ & _ & Hntc).
  destruct (rep_columns _ _ _ _ old_ok) as (oc & ot & Hoc & _ & _ & Hotc).
  rewrite Hnc, time_of_snoc in Hnt. rewrite Hoc, time_of_snoc in Hot. injection Hnt as <-. injection Hot as <-.
  apply (update_rep rec merged_fields tf rows); [done| | |].
  - apply keys_in_app; [apply keys_in_app; [apply (rr_keys _ _ _ _ Hrep)|]|].
    + apply (keys_in_mono ofs); [apply old_sub|]. apply keys_in_slice, (rr_keys _ _ _ _ old_ok).
    + apply (keys_in_mono nfs); [apply new_sub|]. apply keys_in_slice, (rr_keys _ _ _ _ new_ok).
  - apply merged_acts. intros p cv Hp Hcv. destruct (pair_sources p Hp) as [Hsn Hso].
    destruct (add_source_rows rows orows _ _ op oe cv Hcv Hso Ho) as (cv1 & E1 & Hcv1).
    { intros. apply (fits_rows_prefix merged_fields _ _ (prefix_app_r _ _ (slice_rows nrows np ne) (reflexivity _)) Hfit); [by apply merged_in|done]. }
    destruct (add_source_rows _ nrows _ _ np ne cv1 Hcv1 Hsn Hn) as (cv2 & E2 & Hcv2).
    { intros. apply Hfit; [by apply merged_in|done]. }
    exists cv2. split; [|done]. destruct p; cbn in *; rewrite E1; exact E2.
  - intros cv Hcv. destruct (append_time_rows rows orows (tf, ot) op oe cv) as (cv1 & E1 & Hcv1); [done|apply (rr_time _ _ _ _ old_ok)|done|done|].
    rewrite E1. rs. apply append_time_rows; [done|apply (rr_time _ _ _ _ new_ok)|done|done].
Qed.

(** *** Two rows with the same time *)

Definition merge_row (n o : row) : row := (fst n, snd n ∪ snd o).

Lemma col_ok_ext rows rows' f cv :
  col_of (FName f) rows = col_of (FName f) rows' → col_ok rows f cv → col_ok rows' f cv.
Proof. unfold col_ok. by intros ->. Qed.

Lemma source_nil rows c f i r :
  source_ok rows (Some c) f → rows !! i = Some r → IsNil (snd c) i = Ok (negb (present (snd r !! FName f))).
Proof. intros [_ HR] Hr. eapply col_nil; [exact HR|by apply col_of_lookup]. Qed.

Lemma source_absent rows f i r :
  source_ok rows None f → rows !! i = Some r → snd r !! FName f = None.
Proof.
  intros Hs Hr. specialize (Hs i (S i)). rewrite (slice_rows_one _ _ _ Hr) in Hs. cbn in Hs. by injection Hs.
Qed.

Lemma col_of_one nm (r r' : row) rows : snd r !! nm = snd r' !! nm → col_of nm (rows ++ [r]) = col_of nm (rows ++ [r']).
Proof. intros E. rewrite !col_of_app. cbn. by rewrite E. Qed.

Lemma row_action_ok rows p i j n o cv :
  p ∈ merged → col_ok rows (pair_field p) cv → nrows !! i = Some n → orows !! j = Some o →
  fits_rows merged_fields (rows ++ [merge_row n o]) →
  ∃ cv', row_action i j p cv = Ok cv' ∧ col_ok (rows ++ [merge_row n o]) (pair_field p) cv'.
Proof.
  intros Hp Hcv Hn Ho Hfit. destruct (pair_sources p Hp) as [Hsn Hso]. set (f := pair_field p) in *.
  pose proof (lookup_lt_Some _ _ _ Hn) as Hi. pose proof (lookup_lt_Some _ _ _ Ho) as Hj.
  assert (Hfit' : FType f = Field_Type_String → fits (col_of (FName f) (rows ++ [merge_row n o]))).
  { apply Hfit. by apply merged_in. }
  assert (Hnew : ∀ c, source_ok nrows (Some c) f → snd n !! FName f = (snd n ∪ snd o) !! FName f →
    ∃ cv', append_col c i (S i) cv = Ok cv' ∧ col_ok (rows ++ [merge_row n o]) f cv').
  { intros c Hc E. destruct (add_source_rows rows nrows (Some c) f i (S i) cv Hcv Hc) as (cv' & E' & Hcv'); [lia| |].
    - rewrite (slice_rows_one _ _ _ Hn), (col_of_one _ n (merge_row n o)) by done. done.
    - exists cv'. split; [done|]. rewrite (slice_rows_one _ _ _ Hn) in Hcv'. eapply col_ok_ext; [|exact Hcv']. by apply col_of_one. }
  assert (Hold : ∀ c, source_ok orows (Some c) f → snd o !! FName f = (snd n ∪ snd o) !! FName f →
    ∃ cv', append_col c j (S j) cv = Ok cv' ∧ col_ok (rows ++ [merge_row n o]) f cv').
  { intros c Hc E. destruct (add_source_rows rows orows (Some c) f j (S j) cv Hcv Hc) as (cv' & E' & Hcv'); [lia| |].
    - rewrite (slice_rows_one _ _ _ Ho), (col_of_one _ o (merge_row n o)) by done. done.
    - exists cv'. split; [done|]. rewrite (slice_rows_one _ _ _ Ho) in Hcv'. eapply col_ok_ext; [|exact Hcv']. by apply col_of_one. }
  destruct p as [c|c|c d]; cbn [row_action pair_new pair_old] in *.
  - apply Hnew; [done|]. rewrite lookup_union, (source_absent _ _ _ _ Hso Ho). by destruct (snd n !! _).
  - apply Hold; [done|]. rewrite lookup_union, (source_absent _ _ _ _ Hsn Hn). by destruct (snd o !! _).
  - rewrite (source_nil _ _ _ _ _ Hsn Hn). rs. destruct (snd n !! FName f) eqn:En; cbn [present negb].
    { apply Hnew; [done|]. rewrite lookup_union, En. by destruct (snd o !! _). }
    rewrite (source_nil _ _ _ _ _ Hso Ho). rs. destruct (snd o !! FName f) eqn:Eo; cbn [present negb].
    { apply Hold; [done|]. by rewrite lookup_union, En, Eo. }
    apply (pad_col_rows rows f); [done|]. unfold col_of, merge_row. rewrite fmap_cons. cbn [snd]. by rewrite lookup_union, En, Eo.
Qed.

Lemma mergeRecRow_spec rec rows i j n o :
  rec_rep rec merged_fields tf rows → nrows !! i = Some n → orows !! j = Some o →
  fits_rows merged_fields (rows ++ [merge_row n o]) →
  ∃ rec', mergeRecRow rec newRec oldRec i j = Ok rec' ∧ rec_rep rec' merged_fields tf (rows ++ [merge_row n o]).
Proof.
  intros Hrep Hn Ho Hfit. unfold mergeRecRow. destruct (rep_columns _ _ _ _ new_ok) as (nc & nt & Hnc & _ & _ & Hntc).
  assert (time_of (columns newRec) = Ok (tf, nt)) as -> by by rewrite Hnc, time_of_snoc. rs. fold merged.
  rewrite (rr_schema _ _ _ _ Hrep). replace (length merged) with (length merged_fields) by (unfold merged_fields; len).
  rewrite list_lookup_middle by done. rs.
  destruct (update_rep rec merged_fields tf rows (rows ++ [merge_row n o]) (row_action i j <$> merged)
              (append_col (tf, nt) i (S i)) Hrep) as (cols & Hu & Hrep').
  - apply keys_in_app; [apply (rr_keys _ _ _ _ Hrep)|]. intros r nm c ->%list_elem_of_singleton Hc. cbn in Hc.
    apply lookup_union_Some_raw in Hc as [Hc|[_ Hc]].
    + apply (keys_in_mono nfs merged_fields nrows new_sub (rr_keys _ _ _ _ new_ok) n nm c); [by eapply list_elem_of_lookup_2|done].
    + apply (keys_in_mono ofs merged_fields orows old_sub (rr_keys _ _ _ _ old_ok) o nm c); [by eapply list_elem_of_lookup_2|done].
  - apply merged_acts. intros p cv Hp Hcv. by apply row_action_ok.
  - intros cv Hcv. pose proof (lookup_lt_Some _ _ _ Hn) as Hi.
    destruct (append_time_rows rows nrows (tf, nt) i (S i) cv) as (cv' & E & Hcv'); [done|apply (rr_time _ _ _ _ new_ok)|done|lia|].
    exists cv'. split; [done|]. rewrite (slice_rows_one _ _ _ Hn) in Hcv'. by rewrite fmap_app in *.
  - rewrite Hu. by exists (set_cols rec cols).
Qed.
End Merge.
End Tables.
