(* ===== verification/MergeSpec.v ===== *)
(** * lib/record: what a merge of rows means

    [merge_rows] is the reference: the merge of two row lists sorted by time, in which a
    row both lists have takes each field from the newer list unless it is null there.
    [merge_rows_sorted] and [merge_rows_cells] characterise it without the walk: the
    result is sorted, and a cell is the newer one, or else the older one. *)

From stdpp Require Import gmap.
From S2P Require Import Prelude GoSlice Column TimeSearch RecordTable.

Fixpoint merge_rows (first : Z → Z → bool) (new : list row) : list row → list row :=
  fix go old :=
    match new, old with
    | [], _ => old
    | _, [] => new
    | n :: new', o :: old' =>
        if first (fst o) (fst n) then o :: go old'
        else if first (fst n) (fst o) then n :: merge_rows first new' old
        else merge_row n o :: merge_rows first new' old'
    end.

(** The cell of a field at a time. *)
Fixpoint cell_at (rows : list row) (t : Z) (nm : string) : option cell :=
  match rows with
  | [] => None
  | r :: rows => if decide (fst r = t) then snd r !! nm else cell_at rows t nm
  end.

Definition sorted_rows (first : Z → Z → bool) (rows : list row) : Prop := sorted_by first (fst <$> rows).

Section Merge.
Context (first : Z → Z → bool) `{!TimeOrder first}.

Lemma merge_nil_l old : merge_rows first [] old = old.
Proof. by destruct old. Qed.
Lemma merge_nil_r new : merge_rows first new [] = new.
Proof. by destruct new. Qed.

(** Rows of one list that come before the head of the other are taken first. *)
Lemma merge_take_new k new old :
  (∀ i n o, (i < k)%nat → new !! i = Some n → head old = Some o → first (fst n) (fst o) = true) →
  merge_rows first new old = take k new ++ merge_rows first (drop k new) old.
Proof.
  revert new. induction k as [|k IH]; intros new Hb; [done|].
  destruct new as [|n new]; [done|]. destruct old as [|o old]; [rewrite !merge_nil_r, take_drop; done|].
  pose proof (Hb 0%nat n o ltac:(lia) eq_refl eq_refl) as Hno. cbn [merge_rows take drop app].
  rewrite (before_asym first _ _ Hno), Hno. f_equal. apply IH.
  intros i n' o' Hi Hn' Ho'. apply (Hb (S i)); [lia|done|done].
Qed.

Lemma merge_take_old k new old :
  (∀ j n o, (j < k)%nat → old !! j = Some o → head new = Some n → first (fst o) (fst n) = true) →
  merge_rows first new old = take k old ++ merge_rows first new (drop k old).
Proof.
  revert old. induction k as [|k IH]; intros old Hb; [done|].
  destruct new as [|n new]; [rewrite !merge_nil_l, take_drop; done|]. destruct old as [|o old]; [done|].
  pose proof (Hb 0%nat n o ltac:(lia) eq_refl eq_refl) as Hno. cbn [merge_rows take drop app].
  rewrite Hno. f_equal. change (merge_rows first (n :: new) old = take k old ++ merge_rows first (n :: new) (drop k old)).
  apply IH. intros j n' o' Hj Ho' Hn'. apply (Hb (S j)); [lia|done|done].
Qed.

Lemma merge_both n o new old :
  fst n = fst o → merge_rows first (n :: new) (o :: old) = merge_row n o :: merge_rows first new old.
Proof. intros Hno. cbn [merge_rows]. by rewrite Hno, before_irrefl. Qed.

(** Induction along the merge. *)
Lemma merge_ind (P : list row → list row → Prop) :
  (∀ old, P [] old) → (∀ new, P new []) →
  (∀ n new o old, first (fst o) (fst n) = true → P (n :: new) old → P (n :: new) (o :: old)) →
  (∀ n new o old, first (fst n) (fst o) = true → P new (o :: old) → P (n :: new) (o :: old)) →
  (∀ n new o old, fst n = fst o → P new old → P (n :: new) (o :: old)) →
  ∀ new old, P new old.
Proof.
  intros Hl Hr Ho Hn Hb new. induction new as [|n new IHn]; intros old; [done|].
  induction old as [|o old IHo]; [done|].
  destruct (first (fst o) (fst n)) eqn:E1; [by apply Ho|].
  destruct (first (fst n) (fst o)) eqn:E2; [by apply Hn|].
  apply Hb; [|done]. destruct (decide (fst n = fst o)) as [|Hne]; [done|].
  pose proof (before_total _ _ Hne E2) as Hc. congruence.
Qed.

Lemma merge_old n new o old :
  first (fst o) (fst n) = true →
  merge_rows first (n :: new) (o :: old) = o :: merge_rows first (n :: new) old.
Proof. intros E. cbn [merge_rows]. by rewrite E. Qed.
Lemma merge_new n new o old :
  first (fst n) (fst o) = true →
  merge_rows first (n :: new) (o :: old) = n :: merge_rows first new (o :: old).
Proof. intros E. cbn [merge_rows]. by rewrite (before_asym first _ _ E), E. Qed.

(** *** Sortedness *)

Definition above (t : Z) (rows : list row) : Prop := ∀ r, r ∈ rows → first t (fst r) = true.

Lemma sorted_rows_cons r rows : sorted_rows first (r :: rows) ↔ above (fst r) rows ∧ sorted_rows first rows.
Proof.
  unfold sorted_rows, above. rewrite fmap_cons. split.
  - intros Hs. split.
    + intros q (i & Hq)%list_elem_of_lookup_1. apply (Hs 0%nat (S i)); [lia|done|]. rewrite lookup_cons_ne_0 by done. by rewrite list_lookup_fmap; cbn; rewrite Hq.
    + intros i j x y Hij Hx Hy. by apply (Hs (S i) (S j)); [lia| |].
  - intros [Ha Hs] i j x y Hij Hx Hy. destruct j as [|j]; [lia|]. destruct i as [|i].
    + cbn [lookup list_lookup] in Hx. injection Hx as <-. rewrite lookup_cons_ne_0 in Hy by done. cbn [pred] in Hy. rewrite list_lookup_fmap in Hy. apply fmap_Some in Hy as (q & Hq & ->).
      apply Ha. by eapply list_elem_of_lookup_2.
    + apply (Hs i j); [lia|done|done].
Qed.

Lemma above_merge t new old : above t new → above t old → above t (merge_rows first new old).
Proof.
  revert new old. refine (merge_ind _ _ _ _ _ _).
  - intros old _ Ho. by rewrite merge_nil_l.
  - intros new Hn _. by rewrite merge_nil_r.
  - intros n new o old E IH Hn Ho. rewrite merge_old by done. intros r [->|Hr]%elem_of_cons.
    + apply Ho. left.
    + apply IH; [done| |done]. intros q Hq. apply Ho. by right.
  - intros n new o old E IH Hn Ho. rewrite merge_new by done. intros r [->|Hr]%elem_of_cons.
    + apply Hn. left.
    + apply IH; [|done|done]. intros q Hq. apply Hn. by right.
  - intros n new o old E IH Hn Ho. rewrite merge_both by done. intros r [->|Hr]%elem_of_cons.
    + apply (Hn n). left.
    + apply IH; [| |done]; intros q Hq; [apply Hn|apply Ho]; by right.
Qed.

Lemma above_mono t u rows : first t u = true → above u rows → above t rows.
Proof. intros Htu Hu r Hr. eapply before_trans; [exact Htu|by apply Hu]. Qed.
Lemma above_cons t r rows : first t (fst r) = true → above t rows → above t (r :: rows).
Proof. intros Hr Ha q [->|Hq]%elem_of_cons; [done|by apply Ha]. Qed.

Lemma merge_rows_sorted new old :
  sorted_rows first new → sorted_rows first old → sorted_rows first (merge_rows first new old).
Proof.
  revert new old. refine (merge_ind _ _ _ _ _ _).
  - intros old _ Ho. by rewrite merge_nil_l.
  - intros new Hn _. by rewrite merge_nil_r.
  - intros n new o old E IH Hn Ho. rewrite merge_old by done. pose proof Ho as [Ha Ho']%sorted_rows_cons.
    apply sorted_rows_cons. split; [|by apply IH]. apply above_merge; [|done].
    apply sorted_rows_cons in Hn as [Hn _]. apply above_cons; [done|by eapply above_mono].
  - intros n new o old E IH Hn Ho. rewrite merge_new by done. pose proof Hn as [Ha Hn']%sorted_rows_cons.
    apply sorted_rows_cons. split; [|by apply IH]. apply above_merge; [done|].
    apply sorted_rows_cons in Ho as [Ho _]. apply above_cons; [done|by eapply above_mono].
  - intros n new o old E IH [Hna Hn]%sorted_rows_cons [Hoa Ho]%sorted_rows_cons. rewrite merge_both by done.
    apply sorted_rows_cons. split; [|by apply IH]. apply above_merge; [done|]. cbn. by rewrite E.
Qed.

(** *** Cells *)

Lemma cell_at_above t rows nm : above t rows → cell_at rows t nm = None.
Proof.
  intros Ha. induction rows as [|r rows IH]; [done|]. cbn. rewrite decide_False.
  - apply IH. intros q Hq. apply Ha. by right.
  - intros E. specialize (Ha r ltac:(left)). rewrite E, before_irrefl in Ha. done.
Qed.

Lemma cell_at_cons r rows t nm :
  cell_at (r :: rows) t nm = if decide (fst r = t) then snd r !! nm else cell_at rows t nm.
Proof. done. Qed.

Lemma union_none_r (a : option cell) : a ∪ None = a.
Proof. by destruct a. Qed.
Lemma union_none_l (a : option cell) : None ∪ a = a.
Proof. by destruct a. Qed.

Lemma merge_rows_cells new old t nm :
  sorted_rows first new → sorted_rows first old →
  cell_at (merge_rows first new old) t nm = cell_at new t nm ∪ cell_at old t nm.
Proof.
  revert new old. refine (merge_ind _ _ _ _ _ _).
  - intros old _ _. rewrite merge_nil_l. by rewrite union_none_l.
  - intros new _ _. rewrite merge_nil_r. by rewrite union_none_r.
  - intros n new o old E IH Hn Ho. rewrite merge_old by done. pose proof Ho as [Ha Ho']%sorted_rows_cons.
    rewrite (cell_at_cons o), (cell_at_cons o), IH by done. case_decide as Ht; [|done].
    rewrite (cell_at_above t (n :: new)); [by rewrite union_none_l|].
    apply sorted_rows_cons in Hn as [Hn _]. subst t. apply above_cons; [done|by eapply above_mono].
  - intros n new o old E IH Hn Ho. rewrite merge_new by done. pose proof Hn as [Ha Hn']%sorted_rows_cons.
    rewrite (cell_at_cons n), (cell_at_cons n), IH by done. case_decide as Ht; [|done].
    rewrite (cell_at_above t (o :: old)); [by rewrite union_none_r|].
    apply sorted_rows_cons in Ho as [Ho _]. subst t. apply above_cons; [done|by eapply above_mono].
  - intros n new o old E IH [Hna Hn]%sorted_rows_cons [Hoa Ho]%sorted_rows_cons. rewrite merge_both by done.
    rewrite !cell_at_cons, IH by done. cbn [fst snd merge_row]. rewrite <- E. case_decide; [|done]. by rewrite lookup_union.
Qed.

(** *** Times *)

Lemma merge_rows_times new old t :
  t ∈ fst <$> merge_rows first new old ↔ t ∈ fst <$> new ∨ t ∈ fst <$> old.
Proof.
  revert new old. refine (merge_ind _ _ _ _ _ _).
  - intros old. rewrite merge_nil_l, fmap_nil, elem_of_nil. tauto.
  - intros new. rewrite merge_nil_r, fmap_nil, elem_of_nil. tauto.
  - intros n new o old E IH. rewrite merge_old by done. rewrite !fmap_cons, !elem_of_cons in *. tauto.
  - intros n new o old E IH. rewrite merge_new by done. rewrite !fmap_cons, !elem_of_cons in *. tauto.
  - intros n new o old E IH. rewrite merge_both by done. rewrite !fmap_cons, !elem_of_cons, IH. cbn. rewrite E. tauto.
Qed.

Lemma merge_rows_length new old : (length (merge_rows first new old) <= length new + length old)%nat.
Proof.
  revert new old. refine (merge_ind _ _ _ _ _ _).
  - intros old. by rewrite merge_nil_l.
  - intros new. rewrite merge_nil_r. lia.
  - intros n new o old E IH. rewrite merge_old by done. cbn [length] in *. lia.
  - intros n new o old E IH. rewrite merge_new by done. cbn [length] in *. lia.
  - intros n new o old E IH. rewrite merge_both by done. cbn [length] in *. lia.
Qed.

(** A row list all of whose rows come before the other's. *)
Lemma merge_disjoint_old new old :
  (∀ n o, head new = Some n → o ∈ old → first (fst o) (fst n) = true) →
  merge_rows first new old = old ++ new.
Proof.
  intros Hb. rewrite (merge_take_old (length old)).
  - by rewrite drop_all, firstn_all, merge_nil_r.
  - intros j n o _ Ho Hn. apply Hb; [done|by eapply list_elem_of_lookup_2].
Qed.

Lemma merge_disjoint_new new old :
  (∀ n o, n ∈ new → head old = Some o → first (fst n) (fst o) = true) →
  merge_rows first new old = new ++ old.
Proof.
  intros Hb. rewrite (merge_take_new (length new)).
  - by rewrite drop_all, firstn_all, merge_nil_l.
  - intros i n o _ Hn Ho. apply Hb; [by eapply list_elem_of_lookup_2|done].
Qed.
End Merge.
