(* ===== verification/RecordMerge.v ===== *)
(** * lib/record/record.go: the merge is the merge of the rows

    The proofs follow the code: [inv] says which rows the result already holds and which
    are still to come, and every append keeps it.  The choice of the overlapping ranges
    only matters through [starts_ok] and [ends_ok], which the searches establish for
    ascending and for descending times. *)

From stdpp Require Import gmap.
From S2P Require Import Prelude GoSlice Bitmap ColVal Column TimeSearch Record RecordSchema RecordTable MergeSpec.

Section Merging.
Context `{GoRuntime} (R : FieldType → ColVal → list (option cell) → Prop) `{!Column R}.
Context (newRec oldRec : Record_) (nfs ofs : list Field) (tf : Field) (nrows orows : list row).
Hypothesis new_ok : rec_rep R newRec nfs tf nrows.
Hypothesis old_ok : rec_rep R oldRec ofs tf orows.
Hypothesis fields_agree : agree nfs ofs.

Context (first : Z → Z → bool) `{!TimeOrder first}.
Hypothesis new_sorted : sorted_rows first nrows.
Hypothesis old_sorted : sorted_rows first orows.

Let fs := merged_fields newRec oldRec.
Let ntimes : list Z := fst <$> nrows.
Let otimes : list Z := fst <$> orows.

(** The rows still to come from the two positions. *)
Definition rest (np op : nat) : list row := merge_rows first (drop np nrows) (drop op orows).

Context (np0 op0 limit : nat).
Let total := rest np0 op0.
Hypothesis total_fits : fits_rows fs total.

(** [rec] holds the rows before the positions; [l] rows may still be added. *)
Definition inv (rec : Record_) (np op l : nat) : Prop :=
  ∃ acc, rec_rep R rec fs tf acc ∧ total = acc ++ rest np op ∧ (length acc + l = limit)%nat ∧
         (np <= length nrows)%nat ∧ (op <= length orows)%nat.

Definition finished (r : Record_ * nat * nat) : Prop :=
  match r with
  | (rec, ne, oe) => rec_rep R rec fs tf (take limit total) ∧ rest ne oe = drop limit total ∧
                     (ne <= length nrows)%nat ∧ (oe <= length orows)%nat
  end.

Lemma inv_finished rec np op l : inv rec np op l → l = 0%nat ∨ rest np op = [] → finished (rec, np, op).
Proof.
  intros (acc & Hrep & Ht & Hl & Hn & Ho) Hend. unfold finished. rewrite Ht. destruct Hend as [->|Hr].
  - rewrite take_app_length', drop_app_length' by lia. done.
  - rewrite Hr, app_nil_r, drop_ge, take_ge by lia. done.
Qed.

Lemma rest_end : rest (length nrows) (length orows) = [].
Proof. unfold rest. by rewrite !drop_all. Qed.

Lemma head_drop {A} (l : list A) n : head (drop n l) = l !! n.
Proof. revert n. induction l as [|x l IH]; intros [|n]; try done. apply IH. Qed.

(** *** The three ways to add rows *)

Lemma emit_new rec np op l k :
  inv rec np op l → (k <= l)%nat → (np + k <= length nrows)%nat →
  (∀ i n o, (np <= i < np + k)%nat → nrows !! i = Some n → orows !! op = Some o → first (fst n) (fst o) = true) →
  ∃ rec', AppendRec rec newRec np (np + k) = Ok rec' ∧ inv rec' (np + k) op (l - k).
Proof.
  intros (acc & Hrep & Ht & Hl & Hn & Ho) Hk Hnk Hb.
  assert (E : rest np op = slice_rows nrows np (np + k) ++ rest (np + k) op).
  { unfold rest, slice_rows. rewrite (merge_take_new first k).
    - rewrite drop_drop. do 2 f_equal. lia.
    - intros i n o Hi Hx. rewrite head_drop. rewrite lookup_drop in Hx. apply (Hb (np + i)%nat); [lia|done]. }
  rewrite E, app_assoc in Ht.
  destruct (AppendRec_spec R rec fs tf acc newRec nfs tf nrows np (np + k)) as (rec' & He & Hr); try done.
  - intros f Hf. eapply new_sub; eauto.
  - lia.
  - eapply fits_rows_prefix; [|exact total_fits]. exists (rest (np + k) op). done.
  - exists rec'. split; [done|]. eexists. split; [exact Hr|]. split; [done|]. split; [|lia].
    rewrite length_app, length_slice_rows; lia.
Qed.

Lemma emit_old rec np op l k :
  inv rec np op l → (k <= l)%nat → (op + k <= length orows)%nat →
  (∀ j n o, (op <= j < op + k)%nat → orows !! j = Some o → nrows !! np = Some n → first (fst o) (fst n) = true) →
  ∃ rec', AppendRec rec oldRec op (op + k) = Ok rec' ∧ inv rec' np (op + k) (l - k).
Proof.
  intros (acc & Hrep & Ht & Hl & Hn & Ho) Hk Hok Hb.
  assert (E : rest np op = slice_rows orows op (op + k) ++ rest np (op + k)).
  { unfold rest, slice_rows. rewrite (merge_take_old first k).
    - rewrite drop_drop. do 2 f_equal. lia.
    - intros j n o Hj Hx. rewrite head_drop. rewrite lookup_drop in Hx. apply (Hb (op + j)%nat); [lia|done]. }
  rewrite E, app_assoc in Ht.
  destruct (AppendRec_spec R rec fs tf acc oldRec ofs tf orows op (op + k)) as (rec' & He & Hr); try done.
  - intros f Hf. eapply old_sub; eauto.
  - lia.
  - eapply fits_rows_prefix; [|exact total_fits]. exists (rest np (op + k)). done.
  - exists rec'. split; [done|]. eexists. split; [exact Hr|]. split; [done|]. split; [|lia].
    rewrite length_app, length_slice_rows; lia.
Qed.

Lemma emit_both rec np op l n o :
  inv rec np op (S l) → nrows !! np = Some n → orows !! op = Some o → fst n = fst o →
  ∃ rec', mergeRecRow rec newRec oldRec np op = Ok rec' ∧ inv rec' (S np) (S op) l.
Proof.
  intros (acc & Hrep & Ht & Hl & Hn & Ho) Hx Hy Hno.
  pose proof (lookup_lt_Some _ _ _ Hx). pose proof (lookup_lt_Some _ _ _ Hy).
  assert (E : rest np op = [merge_row n o] ++ rest (S np) (S op)).
  { unfold rest. rewrite (drop_S nrows n np Hx), (drop_S orows o op Hy). by rewrite merge_both. }
  rewrite E, app_assoc in Ht.
  destruct (mergeRecRow_spec R newRec oldRec nfs ofs tf nrows orows new_ok old_ok fields_agree rec acc np op n o)
    as (rec' & He & Hr); try done.
  - eapply fits_rows_prefix; [|exact total_fits]. exists (rest (S np) (S op)). done.
  - exists rec'. split; [done|]. eexists. split; [exact Hr|]. split; [done|]. split; [|lia].
    rewrite length_app. cbn. lia.
Qed.

(** *** The loop over the overlapping rows *)

Lemma ntimes_lookup i n : nrows !! i = Some n → index ntimes i = Ok (fst n).
Proof. intros Hx. apply index_Ok. unfold ntimes. by rewrite list_lookup_fmap, Hx. Qed.
Lemma otimes_lookup j o : orows !! j = Some o → index otimes j = Ok (fst o).
Proof. intros Hx. apply index_Ok. unfold otimes. by rewrite list_lookup_fmap, Hx. Qed.

Lemma overlap_loop_spec fuel rec ns ne os oe l :
  inv rec ns os l → (0 < l)%nat → (ns <= ne <= length nrows)%nat → (os <= oe <= length orows)%nat →
  ((ne - ns) + (oe - os) < fuel)%nat →
  ∃ rec' (stop : bool) l' ns' os',
    overlap_loop first fuel rec newRec oldRec ns ne os oe ntimes otimes (Z.of_nat l) =
      Ok (rec', stop, Z.of_nat l', ns', os') ∧
    inv rec' ns' os' l' ∧ (ns' <= ne)%nat ∧ (os' <= oe)%nat ∧
    (if stop then l' = 0%nat else (0 < l')%nat ∧ (ns' = ne ∨ os' = oe)).
Proof.
  revert rec ns os l. induction fuel as [|fuel IH]; intros rec ns os l Hinv Hl Hn Ho Hf; [lia|].
  cbn [overlap_loop]. destruct (Nat.ltb_spec ns ne) as [Hns|Hns]; cbn [andb].
  2:{ exists rec, false, l, ns, os. split_and!; try done; try lia. }
  destruct (Nat.ltb_spec os oe) as [Hos|Hos].
  2:{ exists rec, false, l, ns, os. split_and!; try done; try lia. }
  destruct (lookup_lt_is_Some_2 nrows ns) as [n Hx]; [lia|].
  destruct (lookup_lt_is_Some_2 orows os) as [o Hy]; [lia|].
  rewrite (otimes_lookup _ _ Hy), (ntimes_lookup _ _ Hx). rs.
  assert (Hstep : ∀ m rec' ns' os', m = Ok (rec', ns', os') → inv rec' ns' os' (l - 1) →
    (ns' <= ne)%nat → (os' <= oe)%nat → ((ne - ns') + (oe - os') < fuel)%nat →
    ∃ rec'' (stop : bool) l'' ns'' os'',
    (let! (rec, newStart, oldStart) := m in
     if Z.of_nat l - 1 =? 0 then Ok (rec, true, 0, newStart, oldStart)
     else overlap_loop first fuel rec newRec oldRec newStart ne oldStart oe ntimes otimes (Z.of_nat l - 1)) =
      Ok (rec'', stop, Z.of_nat l'', ns'', os'') ∧
    inv rec'' ns'' os'' l'' ∧ (ns'' <= ne)%nat ∧ (os'' <= oe)%nat ∧
    (if stop then l'' = 0%nat else (0 < l'')%nat ∧ (ns'' = ne ∨ os'' = oe))).
  { intros m rec' ns' os' -> Hinv' Hns' Hos' Hf'. rs. bcase.
    - exists rec', true, 0%nat, ns', os'. replace (l - 1)%nat with 0%nat in Hinv' by lia. done.
    - replace (Z.of_nat l - 1) with (Z.of_nat (l - 1)) by lia. apply IH; try done; lia. }
  destruct (first (fst o) (fst n)) eqn:E1; [|destruct (first (fst n) (fst o)) eqn:E2].
  - destruct (emit_old rec ns os l 1) as (rec' & He & Hi'); [done|lia|lia| |].
    { intros j n' o' Hj Ho' Hn'. replace j with os in Ho' by lia. congruence. }
    rewrite Nat.add_1_r in *. eapply Hstep; [rewrite He; done|done|lia|lia|lia].
  - destruct (emit_new rec ns os l 1) as (rec' & He & Hi'); [done|lia|lia| |].
    { intros i n' o' Hi Hn' Ho'. replace i with ns in Hn' by lia. congruence. }
    rewrite Nat.add_1_r in *. eapply Hstep; [rewrite He; done|done|lia|lia|lia].
  - destruct (decide (fst n = fst o)) as [Heq|Hne]; [|pose proof (before_total _ _ Hne E2); congruence].
    destruct (emit_both rec ns os (l - 1) n o) as (rec' & He & Hi'); [|done|done|done|].
    { by replace (S (l - 1)) with l by lia. }
    eapply Hstep; [rewrite He; done|done|lia|lia|lia].
Qed.

(** *** The ranges of the overlap *)

(** The rows before the overlapping ranges come from one record and precede the other;
    a record that has rows after its range is continued when the other one is used up. *)
Definition starts_ok (np op ns os : nat) : Prop :=
  (os = op ∧ ∀ i n o, (np <= i < ns)%nat → nrows !! i = Some n → orows !! op = Some o → first (fst n) (fst o) = true) ∨
  (ns = np ∧ ∀ j n o, (op <= j < os)%nat → orows !! j = Some o → nrows !! np = Some n → first (fst o) (fst n) = true).

Definition ends_ok (ne oe : nat) : Prop :=
  (ne = length nrows ∧ ∀ i n o, nrows !! i = Some n → orows !! oe = Some o → first (fst n) (fst o) = true) ∨
  (oe = length orows ∧ ∀ j n o, orows !! j = Some o → nrows !! ne = Some n → first (fst o) (fst n) = true).

Lemma ends_ok_new ne oe i n o :
  ends_ok ne oe → nrows !! i = Some n → orows !! oe = Some o → first (fst n) (fst o) = true.
Proof. intros [[_ Hb]|[-> _]] Hn Ho; [by eapply Hb|]. apply lookup_lt_Some in Ho. lia. Qed.
Lemma ends_ok_old ne oe j n o :
  ends_ok ne oe → orows !! j = Some o → nrows !! ne = Some n → first (fst o) (fst n) = true.
Proof. intros [[-> _]|[_ Hb]] Ho Hn; [apply lookup_lt_Some in Hn; lia|by eapply Hb]. Qed.

Context (asc : bool).
Hypothesis direction : (if asc then ascending else descending) = first.

Lemma appendRecs_spec rec ns ne os oe l :
  inv rec ns os l → (0 < l)%nat → (ns <= ne <= length nrows)%nat → (os <= oe <= length orows)%nat →
  ends_ok ne oe →
  ∃ rec' l' ne' oe',
    appendRecs asc rec newRec oldRec ns ne os oe ntimes otimes (Z.of_nat l) = Ok (rec', Z.of_nat l', ne', oe') ∧
    inv rec' ne' oe' l' ∧ (l' = 0%nat ∨ (0 < l')%nat ∧ ne' = ne ∧ oe' = oe).
Proof.
  intros Hinv Hl Hn Ho Hends. unfold appendRecs. rewrite direction.
  destruct (overlap_loop_spec (S ((ne - ns) + (oe - os))) rec ns ne os oe l) as (r1 & stop & l1 & ns1 & os1 & He & Hi1 & Hns1 & Hos1 & Hst);
    try done; [lia|]. rewrite He. rs. destruct stop.
  { subst l1. exists r1, 0%nat, ns1, os1. split_and!; try done. by left. }
  destruct Hst as [Hl1 Hst]. destruct (Nat.ltb_spec ns1 ne) as [Hlt|Hge].
  - assert (os1 = oe) as -> by lia.
    set (k := Nat.min l1 (ne - ns1)).
    destruct (emit_new r1 ns1 oe l1 k Hi1) as (r2 & E2 & Hi2); [lia|lia| |].
    { intros i n o Hi Hx Hy. by eapply ends_ok_new. }
    bcase.
    + replace (Z.to_nat (Z.of_nat ns1 + Z.of_nat l1)) with (ns1 + k)%nat by lia. rewrite E2. rs.
      exists r2, 0%nat, (ns1 + k)%nat, oe. replace (l1 - k)%nat with 0%nat in Hi2 by lia. split_and!; try done. by left.
    + assert (E : (ns1 + k)%nat = ne) by lia. rewrite E in *. rewrite E2. rs.
      exists r2, (l1 - k)%nat, ne, oe.
      split; [do 4 f_equal; lia|]. split; [done|]. right. lia.
  - assert (ns1 = ne) as -> by lia. destruct (Nat.ltb_spec os1 oe) as [Hlt|Hge'].
    + set (k := Nat.min l1 (oe - os1)).
      destruct (emit_old r1 ne os1 l1 k Hi1) as (r2 & E2 & Hi2); [lia|lia| |].
      { intros j n o Hj Hx Hy. by eapply ends_ok_old. }
      bcase.
      * replace (Z.to_nat (Z.of_nat os1 + Z.of_nat l1)) with (os1 + k)%nat by lia. rewrite E2. rs.
        exists r2, 0%nat, ne, (os1 + k)%nat. replace (l1 - k)%nat with 0%nat in Hi2 by lia. split_and!; try done. by left.
      * assert (E : (os1 + k)%nat = oe) by lia. rewrite E in *. rewrite E2. rs.
        exists r2, (l1 - k)%nat, ne, oe.
        split; [do 4 f_equal; lia|]. split; [done|]. right. lia.
    + assert (os1 = oe) as -> by lia. exists r1, l1, ne, oe. split_and!; try done. right. lia.
Qed.

(** What follows the rows before the overlap. *)
Definition middle (ns ne os oe : nat) (rec : Record_) (limitRows : Z) : res (Record_ * nat * nat) :=
  let newRows := length nrows in
  let oldRows := length orows in
  let! (rec, limitRows, newEnd, oldEnd) :=
    appendRecs asc rec newRec oldRec ns ne os oe ntimes otimes limitRows in
  if limitRows =? 0 then Ok (rec, newEnd, oldEnd)
  else if (oldEnd =? oldRows)%nat then
    if limitRows <=? Z.of_nat newRows - Z.of_nat newEnd then
      let e := Z.to_nat (Z.of_nat newEnd + limitRows) in
      let! rec := AppendRec rec newRec newEnd e in Ok (rec, e, oldEnd)
    else
      let! rec := AppendRec rec newRec newEnd newRows in Ok (rec, newRows, oldRows)
  else if limitRows <=? Z.of_nat oldRows - Z.of_nat oldEnd then
    let e := Z.to_nat (Z.of_nat oldEnd + limitRows) in
    let! rec := AppendRec rec oldRec oldEnd e in Ok (rec, newEnd, e)
  else
    let! rec := AppendRec rec oldRec oldEnd oldRows in Ok (rec, newRows, oldRows).

Lemma middle_spec rec ns ne os oe l :
  inv rec ns os l → (0 < l)%nat → (ns <= ne <= length nrows)%nat → (os <= oe <= length orows)%nat →
  ends_ok ne oe → ∃ r, middle ns ne os oe rec (Z.of_nat l) = Ok r ∧ finished r.
Proof.
  intros Hinv Hl Hn Ho Hends. unfold middle.
  destruct (appendRecs_spec rec ns ne os oe l) as (r1 & l1 & ne1 & oe1 & He & Hi1 & Hor); try done.
  rewrite He. rs. destruct (Z.eqb_spec (Z.of_nat l1) 0) as [Hz|Hz].
  { eexists; split; [done|]. eapply inv_finished; [done|]. left. lia. }
  destruct Hor as [|(Hl1 & -> & ->)]; [lia|].
  destruct (Nat.eqb_spec oe (length orows)) as [->|Hoe].
  - set (k := Nat.min l1 (length nrows - ne)).
    destruct (emit_new r1 ne (length orows) l1 k Hi1) as (r2 & E2 & Hi2); [lia|lia| |].
    { intros i n o Hi Hx Hy. apply lookup_lt_Some in Hy. lia. }
    bcase.
    + replace (Z.to_nat (Z.of_nat ne + Z.of_nat l1)) with (ne + k)%nat by lia. rewrite E2. rs.
      eexists; split; [done|]. eapply inv_finished; [done|]. left. lia.
    + assert (E : (ne + k)%nat = length nrows) by lia. rewrite E in *. rewrite E2. rs. eexists; split; [done|].
      eapply inv_finished; [done|]. right. apply rest_end.
  - assert (ne = length nrows) as -> by (destruct Hends as [[? _]|[? _]]; lia).
    set (k := Nat.min l1 (length orows - oe)).
    destruct (emit_old r1 (length nrows) oe l1 k Hi1) as (r2 & E2 & Hi2); [lia|lia| |].
    { intros i n o Hi Hx Hy. apply lookup_lt_Some in Hy. lia. }
    bcase.
    + replace (Z.to_nat (Z.of_nat oe + Z.of_nat l1)) with (oe + k)%nat by lia. rewrite E2. rs.
      eexists; split; [done|]. eapply inv_finished; [done|]. left. lia.
    + assert (E : (oe + k)%nat = length orows) by lia. rewrite E in *. rewrite E2. rs. eexists; split; [done|].
      eapply inv_finished; [done|]. right. apply rest_end.
Qed.

Lemma mergeRecordOverlapImpl_spec rec np op ns ne os oe l :
  inv rec np op l → (0 < l)%nat →
  (np <= ns <= Nat.min ne (length nrows))%nat → (op <= os <= Nat.min oe (length orows))%nat →
  starts_ok np op ns os → ends_ok (Nat.min ne (length nrows)) (Nat.min oe (length orows)) →
  ∃ r, mergeRecordOverlapImpl rec newRec oldRec ns ne os oe ntimes otimes np op
         (length nrows) (length orows) (Z.of_nat l) asc = Ok r ∧ finished r.
Proof.
  intros Hinv Hl Hn Ho Hst Hends. unfold mergeRecordOverlapImpl.
  replace (if (length nrows <? ne)%nat then length nrows else ne) with (Nat.min ne (length nrows)) by (bcase; lia).
  replace (if (length orows <? oe)%nat then length orows else oe) with (Nat.min oe (length orows)) by (bcase; lia).
  set (ne' := Nat.min ne (length nrows)) in *. set (oe' := Nat.min oe (length orows)) in *.
  change (λ rec limitRows, _) with (middle ns ne' os oe').
  destruct (Nat.eqb_spec os op) as [->|Hos].
  - set (k := Nat.min l (ns - np)).
    destruct (emit_new rec np op l k Hinv) as (r1 & E1 & Hi1); [lia|lia| |].
    { destruct Hst as [[_ Hb]|[-> _]]; [|lia]. intros i n o Hi. apply Hb. lia. }
    bcase.
    + replace (Z.to_nat (Z.of_nat np + Z.of_nat l)) with (np + k)%nat by lia. rewrite E1. rs.
      eexists; split; [done|]. eapply inv_finished; [done|]. left. lia.
    + assert (E : (np + k)%nat = ns) by lia. rewrite E in *. rewrite E1. rs.
      replace (Z.of_nat l - (Z.of_nat ns - Z.of_nat np)) with (Z.of_nat (l - k)) by lia.
      apply middle_spec; try done; lia.
  - destruct Hst as [[-> _]|[-> Hb]]; [done|]. set (k := Nat.min l (os - op)).
    destruct (emit_old rec np op l k Hinv) as (r1 & E1 & Hi1); [lia|lia| |].
    { intros j n o Hj. apply Hb. lia. }
    bcase.
    + replace (Z.to_nat (Z.of_nat op + Z.of_nat l)) with (op + k)%nat by lia. rewrite E1. rs.
      eexists; split; [done|]. eapply inv_finished; [done|]. left. lia.
    + assert (E : (op + k)%nat = os) by lia. rewrite E in *. rewrite E1. rs.
      replace (Z.of_nat l - (Z.of_nat os - Z.of_nat op)) with (Z.of_nat (l - k)) by lia.
      apply middle_spec; try done; lia.
Qed.

(** *** The searches choose good ranges *)

(** From [pos] on, [e] comes after every time up to [t]. *)
Definition covers (times : list Z) (pos e : nat) (t : Z) : Prop :=
  (pos <= e)%nat ∧ ∀ j x, (pos <= j)%nat → times !! j = Some x →
    ((e <= j)%nat → first t x = true) ∧ (first x t = true → (j < e)%nat).

Lemma splits_covers times pos i t :
  sorted_by first times → splits_at first times pos i t → covers times pos (S i) t.
Proof.
  intros Hs [Hi Hsp]. split; [lia|]. intros j x Hj Hx. split.
  - intros Hij. destruct (lookup_lt_is_Some_2 times i) as [y Hy]; [apply lookup_lt_Some in Hx; lia|].
    pose proof (Hs i j y x ltac:(lia) Hy Hx) as Hyx. destruct (decide (y = t)) as [->|Hne]; [done|].
    assert (first y t = false) as Hf.
    { destruct (first y t) eqn:E; [|done]. apply (Hsp i y) in E; [lia|lia|done]. }
    pose proof (before_total _ _ Hne Hf) as Hty. by eapply before_trans.
  - intros Hxt. apply (Hsp j x) in Hxt; [lia|done|done].
Qed.

Lemma splits_before_covers times pos i e t u :
  splits_at first times pos i t → covers times pos e u → t = u ∨ first t u = true → (i <= Nat.min e (length times))%nat.
Proof.
  intros [Hi Hsp] [He Hc] Htu. destruct (decide (i <= e)%nat) as [|Hgt]; [lia|].
  destruct (lookup_lt_is_Some_2 times e) as [x Hx]; [lia|].
  assert (first x t = true) as Hxt by (apply (Hsp e x); [lia|done|lia]).
  assert (first x u = true) as Hxu by (destruct Htu as [<-|]; [done|by eapply before_trans]).
  apply (Hc e x) in Hxu; [lia|lia|done].
Qed.

Lemma sorted_last times i x y :
  sorted_by first times → times !! i = Some x → times !! (length times - 1)%nat = Some y → x = y ∨ first x y = true.
Proof.
  intros Hs Hx Hy. destruct (decide (i = (length times - 1)%nat)) as [->|]; [left; congruence|right].
  apply (Hs i (length times - 1)%nat); [apply lookup_lt_Some in Hx; lia|done|done].
Qed.

Lemma ntimes_some i n : nrows !! i = Some n → ntimes !! i = Some (fst n).
Proof. intros Hx. unfold ntimes. by rewrite list_lookup_fmap, Hx. Qed.
Lemma otimes_some j o : orows !! j = Some o → otimes !! j = Some (fst o).
Proof. intros Hx. unfold otimes. by rewrite list_lookup_fmap, Hx. Qed.
Lemma length_ntimes : length ntimes = length nrows.
Proof. apply length_fmap. Qed.
Lemma length_otimes : length otimes = length orows.
Proof. apply length_fmap. Qed.

Context (n0 n1 o0 o1 : row).
Hypothesis n0_first : nrows !! np0 = Some n0.
Hypothesis o0_first : orows !! op0 = Some o0.
Hypothesis n1_last : nrows !! (length nrows - 1)%nat = Some n1.
Hypothesis o1_last : orows !! (length orows - 1)%nat = Some o1.
Hypothesis limit_pos : (0 < limit)%nat.

Definition start_choice (ns os : nat) : Prop :=
  os = op0 ∧ splits_at first ntimes np0 ns (fst o0) ∨ ns = np0 ∧ splits_at first otimes op0 os (fst n0).
Definition end_choice (ne oe : nat) : Prop :=
  ne = length nrows ∧ covers otimes op0 oe (fst n1) ∨ oe = length orows ∧ covers ntimes np0 ne (fst o1).

Lemma start_choice_ok ns os : start_choice ns os → starts_ok np0 op0 ns os.
Proof.
  intros [[-> [_ Hsp]]|[-> [_ Hsp]]]; [left|right]; (split; [done|]); intros k n o Hk Hx Hy.
  - replace o with o0 by congruence. apply (Hsp k); [lia|by apply ntimes_some|lia].
  - replace n with n0 by congruence. apply (Hsp k); [lia|by apply otimes_some|lia].
Qed.

Lemma before_le x y z : x = y ∨ first x y = true → first y z = true → first x z = true.
Proof. intros [->|Hxy] Hyz; [done|by eapply before_trans]. Qed.

Lemma end_choice_ok ne oe :
  end_choice ne oe → ends_ok (Nat.min ne (length nrows)) (Nat.min oe (length orows)).
Proof.
  intros [[-> [Hp Hc]]|[-> [Hp Hc]]]; [left|right]; (split; [lia|]); intros k n o Hx Hy.
  - pose proof (lookup_lt_Some _ _ _ Hy) as Hlt. replace (Nat.min oe (length orows)) with oe in Hy by lia.
    apply (before_le _ (fst n1)); [|apply (Hc oe); [lia|by apply otimes_some|lia]].
    apply (sorted_last ntimes k); [done|by apply ntimes_some|]. rewrite length_ntimes. by apply ntimes_some.
  - pose proof (lookup_lt_Some _ _ _ Hy) as Hlt. replace (Nat.min ne (length nrows)) with ne in Hy by lia.
    apply (before_le _ (fst o1)); [|apply (Hc ne); [lia|by apply ntimes_some|lia]].
    apply (sorted_last otimes k); [done|by apply otimes_some|]. rewrite length_otimes. by apply otimes_some.
Qed.

Lemma new_span : fst n0 = fst n1 ∨ first (fst n0) (fst n1) = true.
Proof. apply (sorted_last ntimes np0); [done|by apply ntimes_some|]. rewrite length_ntimes. by apply ntimes_some. Qed.
Lemma old_span : fst o0 = fst o1 ∨ first (fst o0) (fst o1) = true.
Proof. apply (sorted_last otimes op0); [done|by apply otimes_some|]. rewrite length_otimes. by apply otimes_some. Qed.

Lemma choice_bounds ns ne os oe :
  start_choice ns os → end_choice ne oe →
  (np0 <= ns <= Nat.min ne (length nrows))%nat ∧ (op0 <= os <= Nat.min oe (length orows))%nat.
Proof.
  pose proof (lookup_lt_Some _ _ _ n0_first) as Hn. pose proof (lookup_lt_Some _ _ _ o0_first) as Ho.
  intros [[-> Hs]|[-> Hs]] Hend; pose proof (proj1 Hs) as Hb; rewrite ?length_ntimes, ?length_otimes in Hb;
    destruct Hend as [[-> Hc]|[-> Hc]]; pose proof (proj1 Hc).
  - lia.
  - pose proof (splits_before_covers _ _ _ _ _ _ Hs Hc old_span) as Hle. rewrite length_ntimes in Hle. lia.
  - pose proof (splits_before_covers _ _ _ _ _ _ Hs Hc new_span) as Hle. rewrite length_otimes in Hle. lia.
  - lia.
Qed.

Lemma overlap_spec rec ns ne os oe :
  rec_rep R rec fs tf [] → start_choice ns os → end_choice ne oe →
  ∃ r, mergeRecordOverlapImpl rec newRec oldRec ns ne os oe ntimes otimes np0 op0
         (length nrows) (length orows) (Z.of_nat limit) asc = Ok r ∧ finished r.
Proof.
  intros Hrep Hs He. destruct (choice_bounds ns ne os oe Hs He) as [Hn Ho].
  apply mergeRecordOverlapImpl_spec; [|done|done|done|by apply start_choice_ok|by apply end_choice_ok].
  exists []. split_and!; try done; lia.
Qed.
End Merging.
