(* ===== verification/MergeRecords.v ===== *)
(** * lib/record/record.go: MergeRecord and its variants

    MergeRecordLimitRows puts the rows of two records in time order into an empty record,
    up to a limit, and returns where to continue.  The theorems say that the result is a
    prefix of the merged table ([MergeSpec]) and that the returned positions stand for
    exactly the rows that are left, for ascending and descending times. *)

From stdpp Require Import gmap.
From S2P Require Import Prelude GoSlice Bitmap ColVal ColRefine ColStrings Column TimeSearch Record RecordSchema RecordTable MergeSpec RecordMerge.

Section Records.
Context `{GoRuntime} (R : FieldType → ColVal → list (option cell) → Prop) `{!Column R}.

(** ** Time ranges that do not overlap *)

Lemma slice_to_take {A} (l : list A) s k : slice_rows l s (s + k) = take k (drop s l).
Proof. unfold slice_rows. f_equal. lia. Qed.

(** The rows of the old record come first. *)
Lemma nonoverlap_ends {A} (nl ol : list A) np op L :
  (np <= length nl)%nat → (op <= length ol)%nat →
  ∃ ne oe, (if Z.of_nat (length ol) - Z.of_nat op <? Z.of_nat L then
              let limitRows := Z.of_nat L - (Z.of_nat (length ol) - Z.of_nat op) in
              if Z.of_nat (length nl) - Z.of_nat np <=? limitRows then (length nl, length ol)
              else (Z.to_nat (Z.of_nat np + limitRows), length ol)
            else (np, Z.to_nat (Z.of_nat op + Z.of_nat L))) = (ne, oe) ∧
    (np <= ne <= length nl)%nat ∧ (op <= oe <= length ol)%nat ∧
    slice_rows ol op oe ++ slice_rows nl np ne = take L (drop op ol ++ drop np nl) ∧
    drop oe ol ++ drop ne nl = drop L (drop op ol ++ drop np nl).
Proof.
  intros Hn Ho. rewrite take_app, drop_app, !length_drop, !drop_drop. cbv zeta. bcase; [bcase|].
  - exists (length nl), (length ol). split_and!; try lia; try done.
    + unfold slice_rows. by rewrite !take_ge by (rewrite length_drop; lia).
    + rewrite !drop_ge by lia. done.
  - set (k := (L - (length ol - op))%nat). exists (np + k)%nat, (length ol).
    replace (Z.to_nat _) with (np + k)%nat by lia. split_and!; try lia; try done.
    + rewrite slice_to_take. f_equal. unfold slice_rows. by rewrite !take_ge by (rewrite length_drop; lia).
    + f_equal. rewrite !drop_ge by lia. done.
  - exists np, (op + L)%nat. replace (Z.to_nat _) with (op + L)%nat by lia. split_and!; try lia; try done.
    + rewrite slice_to_take. f_equal. unfold slice_rows. replace (L - (length ol - op))%nat with 0%nat by lia.
      by rewrite Nat.sub_diag.
    + do 2 f_equal. lia.
Qed.

Lemma mergeRecordNonOverlap_spec rec newRec oldRec nfs ofs tf nrows orows np op L :
  rec_rep R newRec nfs tf nrows → rec_rep R oldRec ofs tf orows → agree nfs ofs → fresh rec →
  (np <= length nrows)%nat → (op <= length orows)%nat →
  fits_rows (merged_fields newRec oldRec) (drop op orows ++ drop np nrows) →
  ∃ rec' ne oe,
    mergeRecordNonOverlap rec newRec oldRec np op (length nrows) (length orows) (Z.of_nat L) = Ok (rec', ne, oe) ∧
    rec_rep R rec' (merged_fields newRec oldRec) tf (take L (drop op orows ++ drop np nrows)) ∧
    drop oe orows ++ drop ne nrows = drop L (drop op orows ++ drop np nrows) ∧
    (np <= ne <= length nrows)%nat ∧ (op <= oe <= length orows)%nat.
Proof.
  intros Hnew Hold Hag Hfresh Hn Ho Hfit.
  destruct (start_rep R newRec oldRec nfs ofs tf nrows orows Hnew Hold Hag rec Hfresh) as (rec1 & rec2 & E1 & E2 & Hr2).
  unfold mergeRecordNonOverlap. rewrite E1. rs. rewrite E2. rs.
  destruct (nonoverlap_ends nrows orows np op L Hn Ho) as (ne & oe & Ee & Hne & Hoe & Htake & Hdrop). cbv zeta in Ee. rewrite Ee.
  destruct (rep_columns R _ _ _ _ Hnew) as (nc & nt & Hnc & _). destruct (rep_columns R _ _ _ _ Hold) as (oc & ot & Hoc & _).
  assert (time_of (columns newRec) = Ok (tf, nt)) as Ent by by rewrite Hnc, time_of_snoc.
  assert (time_of (columns oldRec) = Ok (tf, ot)) as Eot by by rewrite Hoc, time_of_snoc.
  rewrite Ent, Eot. rs.
  destruct (ranges_rep R newRec oldRec nfs ofs tf nrows orows Hnew Hold Hag rec2 [] np ne op oe (tf, nt) (tf, ot))
    as (cols & Eu & Hrep'); try done.
  { cbn [app]. rewrite Htake. eapply fits_rows_prefix; [|exact Hfit]. apply prefix_take. }
  cbn [app] in Hrep'. rewrite Htake in Hrep'. unfold merged in Eu. rewrite Eu. rs.
  exists (set_cols rec2 cols), ne, oe. split_and!; try done; lia.
Qed.

(** ** Two records and two positions *)

Lemma elem_of_drop_elem {A} (l : list A) k x : x ∈ drop k l → x ∈ l.
Proof. intros (i & Hi)%list_elem_of_lookup_1. rewrite lookup_drop in Hi. by eapply list_elem_of_lookup_2. Qed.

Lemma before_trans_le (first : Z → Z → bool) `{!TimeOrder first} x y z :
  first x y = true → y = z ∨ first y z = true → first x z = true.
Proof. intros Hxy [<-|Hyz]; [done|by eapply before_trans]. Qed.

Section Pair.
Context (newRec oldRec : Record_) (nfs ofs : list Field) (tf : Field) (nrows orows : list row).
Context (first : Z → Z → bool) `{!TimeOrder first} (np op : nat).

Record mergeable : Prop := {
  mg_new : rec_rep R newRec nfs tf nrows;
  mg_old : rec_rep R oldRec ofs tf orows;
  mg_agree : agree nfs ofs;
  mg_new_sorted : sorted_rows first nrows;
  mg_old_sorted : sorted_rows first orows;
  mg_new_times : Forall (in_s 64) (fst <$> nrows);
  mg_old_times : Forall (in_s 64) (fst <$> orows);
  mg_np : (np < length nrows)%nat;
  mg_op : (op < length orows)%nat;
  mg_fits : fits_rows (nfs ++ ofs) (merge_rows first (drop np nrows) (drop op orows))
}.

Lemma agree_sym (a b : list Field) : agree a b → agree b a.
Proof. intros Hag f g Hf Hg E. symmetry. by apply Hag. Qed.

Lemma fits_merged rows :
  mergeable → fits_rows (nfs ++ ofs) rows → fits_rows (merged_fields newRec oldRec) rows.
Proof.
  intros Hm Hfit f Hf. apply Hfit, elem_of_app.
  by apply (merged_fields_elem R newRec oldRec nfs ofs tf nrows orows (mg_new Hm) (mg_old Hm) (mg_agree Hm)).
Qed.

(** The first [limit] merged rows are in the record, and the positions stand for the rest. *)
Definition merged_prefix (limit : nat) (r : res (Record_ * nat * nat)) : Prop :=
  let all := merge_rows first (drop np nrows) (drop op orows) in
  ∃ rec' fs ne oe, r = Ok (rec', ne, oe) ∧
    rec_rep R rec' fs tf (take limit all) ∧ (∀ f, f ∈ fs ↔ f ∈ nfs ∨ f ∈ ofs) ∧
    merge_rows first (drop ne nrows) (drop oe orows) = drop limit all ∧
    (ne <= length nrows)%nat ∧ (oe <= length orows)%nat.

Lemma drop_after (rows : list row) p e r0 r :
  sorted_rows first rows → rows !! p = Some r0 → (p <= e)%nat → rows !! e = Some r →
  fst r0 = fst r ∨ first (fst r0) (fst r) = true.
Proof.
  intros Hs Hp Hpe He. destruct (decide (p = e)) as [->|]; [left; congruence|right].
  apply (Hs p e); [lia| |]; by rewrite list_lookup_fmap, ?Hp, ?He.
Qed.

(** All old rows come before the new ones. *)
Lemma old_then_new rec L n0 :
  mergeable → fresh rec → nrows !! np = Some n0 →
  (∀ o, o ∈ orows → first (fst o) (fst n0) = true) →
  merged_prefix L (mergeRecordNonOverlap rec newRec oldRec np op (length nrows) (length orows) (Z.of_nat L)).
Proof.
  intros Hm Hfresh Hn0 Hb. unfold merged_prefix. cbv zeta.
  assert (Hdis : ∀ e oe, (np <= e)%nat → merge_rows first (drop e nrows) (drop oe orows) = drop oe orows ++ drop e nrows).
  { intros e oe He. apply merge_disjoint_old. intros n o Hn Ho. rewrite head_drop in Hn.
    apply (before_trans_le first _ (fst n0)); [by eapply Hb, elem_of_drop_elem|].
    by apply (drop_after nrows np e); [apply Hm|..]. }
  destruct (mergeRecordNonOverlap_spec rec newRec oldRec nfs ofs tf nrows orows np op L) as (rec' & ne & oe & E & Hrep & Hd & Hne & Hoe);
    try apply Hm; try done.
  - pose proof (mg_np Hm). lia.
  - pose proof (mg_op Hm). lia.
  - apply (fits_merged _ Hm). rewrite <- (Hdis np op) by lia. apply Hm.
  - exists rec', (merged_fields newRec oldRec), ne, oe. rewrite !Hdis by lia. split_and!; try done; try lia.
    intros f. apply (merged_fields_elem R newRec oldRec nfs ofs tf nrows orows (mg_new Hm) (mg_old Hm) (mg_agree Hm)).
Qed.

(** All new rows come before the old ones: the code swaps the records. *)
Lemma new_then_old rec L o0 :
  mergeable → fresh rec → orows !! op = Some o0 →
  (∀ n, n ∈ nrows → first (fst n) (fst o0) = true) →
  merged_prefix L (let! (rec, oldEnd, newEnd) :=
    mergeRecordNonOverlap rec oldRec newRec op np (length orows) (length nrows) (Z.of_nat L) in
    Ok (rec, newEnd, oldEnd)).
Proof.
  intros Hm Hfresh Ho0 Hb. unfold merged_prefix. cbv zeta.
  assert (Hdis : ∀ ne e, (op <= e)%nat → merge_rows first (drop ne nrows) (drop e orows) = drop ne nrows ++ drop e orows).
  { intros ne e He. apply merge_disjoint_new; [apply _|]. intros n o Hn Ho. rewrite head_drop in Ho.
    apply (before_trans_le first _ (fst o0)); [by eapply Hb, elem_of_drop_elem|].
    by apply (drop_after orows op e); [apply Hm|..]. }
  pose proof (agree_sym _ _ (mg_agree Hm)) as Hag.
  assert (Hfs : ∀ f, f ∈ merged_fields oldRec newRec ↔ f ∈ nfs ∨ f ∈ ofs).
  { intros f. rewrite (merged_fields_elem R oldRec newRec ofs nfs tf orows nrows (mg_old Hm) (mg_new Hm) Hag). tauto. }
  destruct (mergeRecordNonOverlap_spec rec oldRec newRec ofs nfs tf orows nrows op np L) as (rec' & oe & ne & E & Hrep & Hd & Hoe & Hne);
    try apply Hm; try done.
  - pose proof (mg_op Hm). lia.
  - pose proof (mg_np Hm). lia.
  - rewrite <- (Hdis np op) by lia. intros f Hf. apply (mg_fits Hm), elem_of_app. by apply Hfs.
  - rewrite E. rs. exists rec', (merged_fields oldRec newRec), ne, oe. rewrite !Hdis by lia. split_and!; try done; lia.
Qed.

(** The overlapping case, for any ranges the searches may choose. *)
Lemma overlapping (asc : bool) rec rec2 L n0 n1 o0 o1 ns ne os oe :
  (if asc then ascending else descending) = first →
  mergeable → fresh rec →
  rec_rep R rec2 (merged_fields newRec oldRec) tf [] →
  nrows !! np = Some n0 → orows !! op = Some o0 →
  nrows !! (length nrows - 1)%nat = Some n1 → orows !! (length orows - 1)%nat = Some o1 → (0 < L)%nat →
  start_choice nrows orows first np op n0 o0 ns os → end_choice nrows orows first np op n1 o1 ne oe →
  merged_prefix L (mergeRecordOverlapImpl rec2 newRec oldRec ns ne os oe (fst <$> nrows) (fst <$> orows) np op
                     (length nrows) (length orows) (Z.of_nat L) asc).
Proof.
  intros Hdir Hm Hfresh Hrep Hn0 Ho0 Hn1 Ho1 HL Hs He.
  destruct (overlap_spec R newRec oldRec nfs ofs tf nrows orows (mg_new Hm) (mg_old Hm) (mg_agree Hm) first
              (mg_new_sorted Hm) (mg_old_sorted Hm) np op L (fits_merged _ Hm (mg_fits Hm)) asc Hdir n0 n1 o0 o1
              Hn0 Ho0 Hn1 Ho1 HL rec2 ns ne os oe Hrep Hs He) as ([[rec' ne'] oe'] & E & Hfin).
  destruct Hfin as (Hrep' & Hrest & Hne' & Hoe'). exists rec', (merged_fields newRec oldRec), ne', oe'.
  split_and!; try done. intros f.
  apply (merged_fields_elem R newRec oldRec nfs ofs tf nrows orows (mg_new Hm) (mg_old Hm) (mg_agree Hm)).
Qed.

Lemma time_vals_spec rec fs rows :
  rec_rep R rec fs tf rows → Forall (in_s 64) (fst <$> rows) → time_vals rec = Ok (fst <$> rows).
Proof.
  intros [_ (cs & tc & Hc & _ & Ht) _ _ _ _ _] Hin. unfold time_vals. rewrite Hc, length_app, Nat.add_sub.
  rewrite list_lookup_middle by done. rs. by rewrite (col_times _ _ Ht Hin).
Qed.
End Pair.
#[local] Arguments mg_new {_ _ _ _ _ _ _ _ _ _} _.
#[local] Arguments mg_old {_ _ _ _ _ _ _ _ _ _} _.
#[local] Arguments mg_agree {_ _ _ _ _ _ _ _ _ _} _.
#[local] Arguments mg_new_sorted {_ _ _ _ _ _ _ _ _ _} _.
#[local] Arguments mg_old_sorted {_ _ _ _ _ _ _ _ _ _} _.
#[local] Arguments mg_new_times {_ _ _ _ _ _ _ _ _ _} _.
#[local] Arguments mg_old_times {_ _ _ _ _ _ _ _ _ _} _.
#[local] Arguments mg_np {_ _ _ _ _ _ _ _ _ _} _.
#[local] Arguments mg_op {_ _ _ _ _ _ _ _ _ _} _.
#[local] Arguments mg_fits {_ _ _ _ _ _ _ _ _ _} _.

(** ** The entry points *)

Lemma index_row (rows : list row) i r : rows !! i = Some r → index (fst <$> rows) i = Ok (fst r).
Proof. intros Hr. apply index_Ok. by rewrite list_lookup_fmap, Hr. Qed.

Lemma indexZ_last (rows : list row) r :
  rows !! (length rows - 1)%nat = Some r → indexZ (fst <$> rows) (Z.of_nat (length rows) - 1) = Ok (fst r).
Proof.
  intros Hr. pose proof (lookup_lt_Some _ _ _ Hr). unfold indexZ. bcase.
  replace (Z.to_nat _) with (length rows - 1)%nat by lia. by apply index_row.
Qed.

Lemma start_index_ok times pos t :
  sorted_by ascending times → (pos <= length times)%nat →
  ∃ i, start_index times pos t = Ok i ∧ splits_at ascending times pos i t.
Proof.
  intros Hs Hp. destruct (GetTimeRangeStartIndex_spec times pos t Hs Hp) as (i & E & Hi).
  exists i. unfold start_index. rewrite E. rs. by rewrite Nat2Z.id.
Qed.
Lemma start_index_desc_ok times pos t :
  sorted_by descending times → (pos <= length times)%nat →
  ∃ i, start_index_desc times pos t = Ok i ∧ splits_at descending times pos i t.
Proof.
  intros Hs Hp. destruct (GetTimeRangeStartIndexDescend_spec times pos t Hs Hp) as (i & E & Hi).
  exists i. unfold start_index_desc. rewrite E. rs. by rewrite Nat2Z.id.
Qed.

(** The end one past the search for the last new time plus one. *)
Lemma succ_covers times pos i t :
  splits_at ascending times pos i (t + 1) → covers ascending times pos i t.
Proof.
  intros [Hi Hsp]. split; [lia|]. intros j x Hj Hx. specialize (Hsp j x Hj Hx). unfold ascending in *.
  split; intros Hc.
  - destruct (Z.ltb_spec t x); [done|]. assert (x <? t + 1 = true) as Hlt by lia. apply Hsp in Hlt. lia.
  - apply Hsp. lia.
Qed.

Section Entry.
Context (newRec oldRec : Record_) (nfs ofs : list Field) (tf : Field) (nrows orows : list row) (np op : nat).
Context (rec : Record_) (L : nat) (n0 n1 o0 o1 : row).
Hypothesis fresh_rec : fresh rec.
Hypothesis L_pos : (0 < L)%nat.
Hypothesis Hn0 : nrows !! np = Some n0.
Hypothesis Ho0 : orows !! op = Some o0.
Hypothesis Hn1 : nrows !! (length nrows - 1)%nat = Some n1.
Hypothesis Ho1 : orows !! (length orows - 1)%nat = Some o1.

Lemma ntimes_pos : (np <= length (fst <$> nrows))%nat.
Proof. rewrite length_fmap. apply lookup_lt_Some in Hn0. lia. Qed.
Lemma otimes_pos : (op <= length (fst <$> orows))%nat.
Proof. rewrite length_fmap. apply lookup_lt_Some in Ho0. lia. Qed.

Lemma mergeRecordOverlap_spec :
  mergeable newRec oldRec nfs ofs tf nrows orows ascending np op →
  Forall (λ t, t < 2 ^ 63 - 1) (fst <$> nrows) →
  merged_prefix nfs ofs tf nrows orows ascending np op L
    (mergeRecordOverlap rec newRec oldRec (fst <$> nrows) (fst <$> orows) np op
       (length nrows) (length orows) (Z.of_nat L)).
Proof.
  intros Hm Hmax.
  destruct (start_rep R newRec oldRec nfs ofs tf nrows orows (mg_new Hm) (mg_old Hm)
              (mg_agree Hm) rec fresh_rec) as (rec1 & rec2 & E1 & E2 & Hr2).
  unfold mergeRecordOverlap. rewrite E1. rs. rewrite E2. rs.
  rewrite (index_row _ _ _ Hn0), (index_row _ _ _ Ho0), (indexZ_last _ _ Hn1), (indexZ_last _ _ Ho1). rs.
  pose proof (mg_new_sorted Hm) as Hns. pose proof (mg_old_sorted Hm) as Hos.
  destruct (start_index_ok (fst <$> nrows) np (fst o0) Hns ntimes_pos) as (a & Ea & Ha).
  destruct (start_index_ok (fst <$> nrows) np (fst o1) Hns ntimes_pos) as (b & Eb & Hb).
  destruct (start_index_ok (fst <$> orows) op (fst n0) Hos otimes_pos) as (c & Ec & Hc).
  destruct (start_index_ok (fst <$> orows) op (fst n1) Hos otimes_pos) as (d & Ed & Hd).
  pose proof (splits_covers _ _ _ _ _ Hns Hb) as Hbc. pose proof (splits_covers _ _ _ _ _ Hos Hd) as Hdc.
  destruct (_ <? _); destruct (_ <=? _); rewrite ?Ea, ?Eb, ?Ec, ?Ed; rs.
  - eapply (overlapping newRec oldRec nfs ofs tf nrows orows ascending np op true); try done; [by left|by left].
  - eapply (overlapping newRec oldRec nfs ofs tf nrows orows ascending np op true); try done; [by left|by right].
  - assert (i64 (fst n1 + 1) = fst n1 + 1) as ->.
    { assert ((fst <$> nrows) !! (length nrows - 1)%nat = Some (fst n1)) as Ht by by rewrite list_lookup_fmap, Hn1.
      pose proof (Forall_lookup_1 _ _ _ _ (mg_new_times Hm) Ht) as Hin.
      pose proof (Forall_lookup_1 _ _ _ _ Hmax Ht) as Hlt. cbn in Hlt.
      apply (wrap_s_id 64); [done|]. unfold in_s in *. lia. }
    destruct (start_index_ok (fst <$> orows) op (fst n1 + 1) Hos otimes_pos) as (e & Ee & He). rewrite Ee. rs.
    eapply (overlapping newRec oldRec nfs ofs tf nrows orows ascending np op true); try done; [by right|].
    left. split; [done|]. by apply succ_covers.
  - eapply (overlapping newRec oldRec nfs ofs tf nrows orows ascending np op true); try done; [by right|by right].
Qed.

Lemma mergeRecordOverlapDescend_spec :
  mergeable newRec oldRec nfs ofs tf nrows orows descending np op →
  merged_prefix nfs ofs tf nrows orows descending np op L
    (mergeRecordOverlapDescend rec newRec oldRec (fst <$> nrows) (fst <$> orows) np op
       (length nrows) (length orows) (Z.of_nat L)).
Proof.
  intros Hm.
  destruct (start_rep R newRec oldRec nfs ofs tf nrows orows (mg_new Hm) (mg_old Hm)
              (mg_agree Hm) rec fresh_rec) as (rec1 & rec2 & E1 & E2 & Hr2).
  unfold mergeRecordOverlapDescend. rewrite E1. rs. rewrite E2. rs.
  rewrite (index_row _ _ _ Hn0), (index_row _ _ _ Ho0), (indexZ_last _ _ Hn1), (indexZ_last _ _ Ho1). rs.
  pose proof (mg_new_sorted Hm) as Hns. pose proof (mg_old_sorted Hm) as Hos.
  destruct (start_index_desc_ok (fst <$> nrows) np (fst o0) Hns ntimes_pos) as (a & Ea & Ha).
  destruct (start_index_desc_ok (fst <$> nrows) np (fst o1) Hns ntimes_pos) as (b & Eb & Hb).
  destruct (start_index_desc_ok (fst <$> orows) op (fst n0) Hos otimes_pos) as (c & Ec & Hc).
  destruct (start_index_desc_ok (fst <$> orows) op (fst n1) Hos otimes_pos) as (d & Ed & Hd).
  pose proof (splits_covers _ _ _ _ _ Hns Hb) as Hbc. pose proof (splits_covers _ _ _ _ _ Hos Hd) as Hdc.
  destruct (_ <? _); destruct (_ <=? _); rewrite ?Ea, ?Eb, ?Ec, ?Ed; rs;
    eapply (overlapping newRec oldRec nfs ofs tf nrows orows descending np op false); try done.
  - by right.
  - by right.
  - by left.
  - by right.
  - by left.
  - by left.
  - by right.
  - by left.
Qed.
End Entry.

Lemma lookup_head {A} (l : list A) i : (i < length l)%nat → ∃ x, l !! i = Some x.
Proof. intros. by apply lookup_lt_is_Some_2. Qed.

Lemma all_to_last first `{!TimeOrder first} (rows : list row) r1 r :
  sorted_rows first rows → rows !! (length rows - 1)%nat = Some r1 → r ∈ rows →
  fst r = fst r1 ∨ first (fst r) (fst r1) = true.
Proof.
  intros Hs H1 (i & Hi)%list_elem_of_lookup_1. eapply drop_after; [done|done| |done].
  apply lookup_lt_Some in Hi. lia.
Qed.

Lemma MergeRecordLimitRows_spec newRec oldRec nfs ofs tf nrows orows np op rec L :
  mergeable newRec oldRec nfs ofs tf nrows orows ascending np op →
  Forall (λ t, t < 2 ^ 63 - 1) (fst <$> nrows) → fresh rec → (0 < L)%nat →
  merged_prefix nfs ofs tf nrows orows ascending np op L
    (MergeRecordLimitRows rec newRec oldRec np op (Z.of_nat L)).
Proof.
  intros Hm Hmax Hfresh HL. pose proof (mg_np Hm) as Hnp. pose proof (mg_op Hm) as Hop.
  destruct (lookup_head nrows np Hnp) as [n0 Hn0]. destruct (lookup_head orows op Hop) as [o0 Ho0].
  destruct (lookup_head nrows (length nrows - 1)) as [n1 Hn1]; [lia|].
  destruct (lookup_head orows (length orows - 1)) as [o1 Ho1]; [lia|].
  unfold MergeRecordLimitRows.
  rewrite (time_vals_spec tf _ _ _ (mg_new Hm) (mg_new_times Hm)), (time_vals_spec tf _ _ _ (mg_old Hm) (mg_old_times Hm)). rs.
  rewrite !length_fmap, (index_row _ _ _ Hn0), (indexZ_last _ _ Ho1). rs. bcase.
  - apply (old_then_new newRec oldRec nfs ofs tf nrows orows ascending np op rec L n0); try done.
    intros o Ho. pose proof (all_to_last ascending orows o1 o (mg_old_sorted Hm) Ho1 Ho). unfold ascending in *. lia.
  - rewrite (indexZ_last _ _ Hn1), (index_row _ _ _ Ho0). rs. bcase.
    + apply (new_then_old newRec oldRec nfs ofs tf nrows orows ascending np op rec L o0); try done.
      intros n Hn. pose proof (all_to_last ascending nrows n1 n (mg_new_sorted Hm) Hn1 Hn). unfold ascending in *. lia.
    + by apply (mergeRecordOverlap_spec newRec oldRec nfs ofs tf nrows orows np op rec L n0 n1 o0 o1).
Qed.

Lemma MergeRecordLimitRowsDescend_spec newRec oldRec nfs ofs tf nrows orows np op rec L :
  mergeable newRec oldRec nfs ofs tf nrows orows descending np op → fresh rec → (0 < L)%nat →
  merged_prefix nfs ofs tf nrows orows descending np op L
    (MergeRecordLimitRowsDescend rec newRec oldRec np op (Z.of_nat L)).
Proof.
  intros Hm Hfresh HL. pose proof (mg_np Hm) as Hnp. pose proof (mg_op Hm) as Hop.
  destruct (lookup_head nrows np Hnp) as [n0 Hn0]. destruct (lookup_head orows op Hop) as [o0 Ho0].
  destruct (lookup_head nrows (length nrows - 1)) as [n1 Hn1]; [lia|].
  destruct (lookup_head orows (length orows - 1)) as [o1 Ho1]; [lia|].
  unfold MergeRecordLimitRowsDescend.
  rewrite (time_vals_spec tf _ _ _ (mg_new Hm) (mg_new_times Hm)), (time_vals_spec tf _ _ _ (mg_old Hm) (mg_old_times Hm)). rs.
  rewrite !length_fmap, (index_row _ _ _ Hn0), (indexZ_last _ _ Ho1). rs. bcase.
  - apply (old_then_new newRec oldRec nfs ofs tf nrows orows descending np op rec L n0); try done.
    intros o Ho. pose proof (all_to_last descending orows o1 o (mg_old_sorted Hm) Ho1 Ho). unfold descending in *. lia.
  - rewrite (indexZ_last _ _ Hn1), (index_row _ _ _ Ho0). rs. bcase.
    + apply (new_then_old newRec oldRec nfs ofs tf nrows orows descending np op rec L o0); try done.
      intros n Hn. pose proof (all_to_last descending nrows n1 n (mg_new_sorted Hm) Hn1 Hn). unfold descending in *. lia.
    + by apply (mergeRecordOverlapDescend_spec newRec oldRec nfs ofs tf nrows orows np op rec L n0 n1 o0 o1).
Qed.

Lemma RowNums_rep rec fs tf rows : rec_rep R rec fs tf rows → RowNums rec = length rows.
Proof.
  intros [_ (cs & tc & Hc & _ & Ht) _ _ _ _ _]. unfold RowNums. rewrite Hc, last_snoc.
  rewrite (col_len _ _ _ Ht). unfold time_cells. by rewrite !length_fmap.
Qed.

(** The merge of two tables: sorted, with the cells of both, the newer one's first. *)
Definition union_of (first : Z → Z → bool) (nrows orows rows : list row) : Prop :=
  sorted_rows first rows ∧
  (∀ t, t ∈ fst <$> rows ↔ t ∈ fst <$> nrows ∨ t ∈ fst <$> orows) ∧
  ∀ t nm, cell_at rows t nm = cell_at nrows t nm ∪ cell_at orows t nm.

Lemma merge_union first `{!TimeOrder first} nrows orows :
  sorted_rows first nrows → sorted_rows first orows → union_of first nrows orows (merge_rows first nrows orows).
Proof.
  intros Hn Ho. split_and!; [by apply merge_rows_sorted|intros t; by apply merge_rows_times|].
  intros t nm. by apply merge_rows_cells.
Qed.

Lemma merged_all first `{!TimeOrder first} newRec oldRec nfs ofs tf nrows orows L r :
  mergeable newRec oldRec nfs ofs tf nrows orows first 0 0 → L = (RowNums newRec + RowNums oldRec)%nat →
  merged_prefix nfs ofs tf nrows orows first 0 0 L r →
  ∃ rec' fs rows, (let! (rec, _, _) := r in Ok rec) = Ok rec' ∧ rec_rep R rec' fs tf rows ∧
    (∀ f, f ∈ fs ↔ f ∈ nfs ∨ f ∈ ofs) ∧ union_of first nrows orows rows.
Proof.
  intros Hm -> (rec' & fs & ne & oe & -> & Hrep & Hfs & _). exists rec', fs, (merge_rows first nrows orows).
  rewrite (RowNums_rep _ _ _ _ (mg_new Hm)), (RowNums_rep _ _ _ _ (mg_old Hm)), !drop_0 in Hrep.
  rewrite take_ge in Hrep by by apply merge_rows_length.
  split_and!; try done. apply merge_union; [done|apply Hm|apply Hm].
Qed.
End Records.

#[local] Arguments mg_new {_ _ _ _ _ _ _ _ _ _ _} _.

(** ** A pair of records

    Two fields; the new record has rows at 2 and 4, the old one at 1, 2 and 4.  Read
    backwards, the same rows give the records for the descending merge. *)

Definition col (val off bits : list Z) (n : nat) (nils : Z) : ColVal :=
  mk_ColVal (mk_slice val []) (mk_slice off []) (mk_slice bits []) 0 n nils.

Definition f_a := mk_Field Field_Type_Int "a".
Definition f_s := mk_Field Field_Type_String "s".
Definition f_time := mk_Field Field_Type_Int "time".

Definition sample_new : Record_ :=
  mk_Record [f_a; f_s; f_time]
    [col (le_bytes 8 10) [] [1] 2 1; col [104; 105; 120] [0; 2] [3] 2 0; col (bytes_le 8 [2; 4]) [] [3] 2 0] [] None.
Definition sample_old : Record_ :=
  mk_Record [f_a; f_time] [col (bytes_le 8 [1; 2; 4]) [] [7] 3 0; col (bytes_le 8 [1; 2; 4]) [] [7] 3 0] [] None.
Definition sample_new_desc : Record_ :=
  mk_Record [f_a; f_s; f_time]
    [col (le_bytes 8 10) [] [2] 2 1; col [120; 104; 105] [0; 1] [3] 2 0; col (bytes_le 8 [4; 2]) [] [3] 2 0] [] None.
Definition sample_old_desc : Record_ :=
  mk_Record [f_a; f_time] [col (bytes_le 8 [4; 2; 1]) [] [7] 3 0; col (bytes_le 8 [4; 2; 1]) [] [7] 3 0] [] None.

Definition new_sample_rows : list row :=
  [(2, {["a" := le_bytes 8 10; "s" := [104; 105]]}); (4, {["s" := [120]]})].
Definition old_sample_rows : list row :=
  [(1, {["a" := le_bytes 8 1]}); (2, {["a" := le_bytes 8 2]}); (4, {["a" := le_bytes 8 4]})].

Definition sample_rec : Record_ := mk_Record [] [] [] None.

Lemma keys_in_check fs rows :
  Forall (λ r : row, Forall (λ kv : string * cell, fst kv ∈ FName <$> fs) (map_to_list (snd r))) rows → keys_in fs rows.
Proof.
  intros Hall r nm c Hr Hc. rewrite Forall_forall in Hall. specialize (Hall r Hr).
  rewrite Forall_forall in Hall. apply (Hall (nm, c)). by apply elem_of_map_to_list.
Qed.

Lemma above_check (first : Z → Z → bool) t (rows : list row) : Forall (λ r : row, first t (fst r) = true) rows → above first t rows.
Proof. intros Hall r Hr. rewrite Forall_forall in Hall. by apply Hall. Qed.

Lemma sorted_rows_nil first : sorted_rows first [].
Proof. intros i j x y _ Hx. by rewrite fmap_nil, lookup_nil in Hx. Qed.

Ltac sorted_check :=
  repeat (apply sorted_rows_cons; split; [apply above_check; by_compute|]);
  apply sorted_rows_nil.

Ltac rep_check :=
  split; [split; first [reflexivity|discriminate|by_compute]|first [reflexivity|repeat constructor; by_compute]..].

Lemma sample_new_rep : rec_rep col_rep sample_new [f_a; f_s] f_time new_sample_rows.
Proof.
  split; try reflexivity.
  - exists (take 2 (ColVals sample_new)), (col (bytes_le 8 [2; 4]) [] [3] 2 0). split; [reflexivity|]. split.
    + constructor; [|constructor; [|constructor]].
      * exists [Some 10; None]. split; [rep_check|reflexivity].
      * change (str_rep (col [104; 105; 120] [0; 2] [3] 2 0) [Some [104; 105]; Some [120]]). rep_check.
    + exists [Some 2; Some 4]. split; [rep_check|reflexivity].
  - repeat constructor.
  - repeat constructor.
  - apply keys_in_check. by_compute.
Qed.

Lemma sample_old_rep : rec_rep col_rep sample_old [f_a] f_time old_sample_rows.
Proof.
  split; try reflexivity.
  - exists (take 1 (ColVals sample_old)), (col (bytes_le 8 [1; 2; 4]) [] [7] 3 0). split; [reflexivity|]. split.
    + constructor; [|constructor]. exists [Some 1; Some 2; Some 4]. split; [rep_check|reflexivity].
    + exists [Some 1; Some 2; Some 4]. split; [rep_check|reflexivity].
  - repeat constructor.
  - repeat constructor.
  - apply keys_in_check. by_compute.
Qed.

Lemma sample_new_desc_rep : rec_rep col_rep sample_new_desc [f_a; f_s] f_time (reverse new_sample_rows).
Proof.
  split; try reflexivity.
  - exists (take 2 (ColVals sample_new_desc)), (col (bytes_le 8 [4; 2]) [] [3] 2 0). split; [reflexivity|]. split.
    + constructor; [|constructor; [|constructor]].
      * exists [None; Some 10]. split; [rep_check|reflexivity].
      * change (str_rep (col [120; 104; 105] [0; 1] [3] 2 0) [Some [120]; Some [104; 105]]). rep_check.
    + exists [Some 4; Some 2]. split; [rep_check|reflexivity].
  - repeat constructor.
  - repeat constructor.
  - apply keys_in_check. by_compute.
Qed.

Lemma sample_old_desc_rep : rec_rep col_rep sample_old_desc [f_a] f_time (reverse old_sample_rows).
Proof.
  split; try reflexivity.
  - exists (take 1 (ColVals sample_old_desc)), (col (bytes_le 8 [4; 2; 1]) [] [7] 3 0). split; [reflexivity|]. split.
    + constructor; [|constructor]. exists [Some 4; Some 2; Some 1]. split; [rep_check|reflexivity].
    + exists [Some 4; Some 2; Some 1]. split; [rep_check|reflexivity].
  - repeat constructor.
  - repeat constructor.
  - apply keys_in_check. by_compute.
Qed.

Lemma sample_agree : agree [f_a; f_s] [f_a].
Proof. intros f g Hf Hg. rewrite !elem_of_cons, elem_of_nil in *. by destruct Hf as [->|[->|]], Hg as [->|]. Qed.

Lemma sample_fits rows :
  Forall (λ f, FType f = Field_Type_String → fits (col_of (FName f) rows)) [f_a; f_s; f_a] →
  fits_rows ([f_a; f_s] ++ [f_a]) rows.
Proof. intros Hall f Hf. rewrite Forall_forall in Hall. by apply Hall. Qed.

Lemma sample_mergeable np op :
  (np < 2)%nat → (op < 3)%nat →
  mergeable col_rep sample_new sample_old [f_a; f_s] [f_a] f_time new_sample_rows old_sample_rows ascending np op.
Proof.
  intros Hnp Hop. split; try done; [exact sample_new_rep|exact sample_old_rep|exact sample_agree|sorted_check|sorted_check|by_compute|by_compute|].
  apply sample_fits. destruct np as [|[|]]; [..|lia]; destruct op as [|[|[|]]]; try lia;
    (repeat constructor; first [discriminate|intros _; reflexivity]).
Qed.

Lemma sample_mergeable_desc np op :
  (np < 2)%nat → (op < 3)%nat →
  mergeable col_rep sample_new_desc sample_old_desc [f_a; f_s] [f_a] f_time
    (reverse new_sample_rows) (reverse old_sample_rows) descending np op.
Proof.
  intros Hnp Hop. split; try done; [exact sample_new_desc_rep|exact sample_old_desc_rep|exact sample_agree|sorted_check|sorted_check|by_compute|by_compute|].
  apply sample_fits. destruct np as [|[|]]; [..|lia]; destruct op as [|[|[|]]]; try lia;
    (repeat constructor; first [discriminate|intros _; reflexivity]).
Qed.

Lemma sample_fresh : fresh sample_rec.
Proof. by split_and!. Qed.

Section Theorems.
Context `{GoRuntime}.

Lemma MergeRecord_spec rec newRec oldRec nfs ofs tf nrows orows :
  mergeable col_rep newRec oldRec nfs ofs tf nrows orows ascending 0 0 →
  Forall (λ t, t < 2 ^ 63 - 1) (fst <$> nrows) → fresh rec →
  ∃ rec' fs rows, MergeRecord rec newRec oldRec = Ok rec' ∧ rec_rep col_rep rec' fs tf rows ∧
    (∀ f, f ∈ fs ↔ f ∈ nfs ∨ f ∈ ofs) ∧ union_of ascending nrows orows rows.
Proof.
  intros Hm Hmax Hfresh. unfold MergeRecord.
  apply (merged_all col_rep ascending newRec oldRec nfs ofs tf nrows orows (RowNums newRec + RowNums oldRec)); [done|done|].
  apply (MergeRecordLimitRows_spec col_rep newRec oldRec); [done|done|done|].
  rewrite (RowNums_rep col_rep _ _ _ _ (mg_new Hm)). destruct Hm as [_ _ _ _ _ _ _ Hnp _ _]. lia.
Qed.

(** C1: MergeRecord is the union of two tables.  For records sorted by strictly
    increasing time whose common fields have the same type, the result is sorted, has
    exactly the times and the fields of the two, and every cell is the cell of the newer
    record, or the cell of the older one where the newer has a null or no such row or
    field.  Times are below the largest int64 and string columns stay below 4 GiB. *)
Theorem MergeRecord_union rec newRec oldRec nfs ofs tf nrows orows :
  mergeable col_rep newRec oldRec nfs ofs tf nrows orows ascending 0 0 →
  Forall (λ t, t < 2 ^ 63 - 1) (fst <$> nrows) → fresh rec →
  ∃ rec' fs rows, MergeRecord rec newRec oldRec = Ok rec' ∧ rec_rep col_rep rec' fs tf rows ∧
    (∀ f, f ∈ fs ↔ f ∈ nfs ∨ f ∈ ofs) ∧ union_of ascending nrows orows rows.
Proof. apply MergeRecord_spec. Qed.

Lemma MergeRecordDescend_spec rec newRec oldRec nfs ofs tf nrows orows :
  mergeable col_rep newRec oldRec nfs ofs tf nrows orows descending 0 0 → fresh rec →
  ∃ rec' fs rows, MergeRecordDescend rec newRec oldRec = Ok rec' ∧ rec_rep col_rep rec' fs tf rows ∧
    (∀ f, f ∈ fs ↔ f ∈ nfs ∨ f ∈ ofs) ∧ union_of descending nrows orows rows.
Proof.
  intros Hm Hfresh. unfold MergeRecordDescend.
  apply (merged_all col_rep descending newRec oldRec nfs ofs tf nrows orows (RowNums newRec + RowNums oldRec)); [done|done|].
  apply (MergeRecordLimitRowsDescend_spec col_rep newRec oldRec); [done|done|].
  rewrite (RowNums_rep col_rep _ _ _ _ (mg_new Hm)). destruct Hm as [_ _ _ _ _ _ _ Hnp _ _]. lia.
Qed.

(** C35: MergeRecordDescend is the union of two tables sorted by strictly decreasing time whose
    common fields have the same type: the result is sorted, has exactly the times and the
    fields of the two, and every cell is the cell of the newer record, or the cell of the older
    one where the newer has none. String columns of the merge stay below 4 GiB. *)
Theorem MergeRecordDescend_union rec newRec oldRec nfs ofs tf nrows orows :
  mergeable col_rep newRec oldRec nfs ofs tf nrows orows descending 0 0 → fresh rec →
  ∃ rec' fs rows, MergeRecordDescend rec newRec oldRec = Ok rec' ∧ rec_rep col_rep rec' fs tf rows ∧
    (∀ f, f ∈ fs ↔ f ∈ nfs ∨ f ∈ ofs) ∧ union_of descending nrows orows rows.
Proof. apply MergeRecordDescend_spec. Qed.

(** C2: MergeRecordLimitRows delivers the merge in pages: from any two positions inside the
    records the result, starting from an empty one, receives the first [L] rows of the merge of
    the remaining rows ([L] positive), and merging again from the returned positions gives
    exactly the rows that were left. As for MergeRecord, the records have strictly increasing
    times, those of the newer one below the largest int64, common fields of the same type, and
    string columns of the merge below 4 GiB. *)
Theorem MergeRecordLimitRows_pages rec newRec oldRec nfs ofs tf nrows orows np op L :
  mergeable col_rep newRec oldRec nfs ofs tf nrows orows ascending np op →
  Forall (λ t, t < 2 ^ 63 - 1) (fst <$> nrows) → fresh rec → (0 < L)%nat →
  merged_prefix col_rep nfs ofs tf nrows orows ascending np op L
    (MergeRecordLimitRows rec newRec oldRec np op (Z.of_nat L)).
Proof. intros. by apply (MergeRecordLimitRows_spec col_rep newRec oldRec). Qed.

(** The same for MergeRecordLimitRowsDescend, which reads ranges backwards in time. *)
Theorem MergeRecordLimitRowsDescend_pages rec newRec oldRec nfs ofs tf nrows orows np op L :
  mergeable col_rep newRec oldRec nfs ofs tf nrows orows descending np op →
  fresh rec → (0 < L)%nat →
  merged_prefix col_rep nfs ofs tf nrows orows descending np op L
    (MergeRecordLimitRowsDescend rec newRec oldRec np op (Z.of_nat L)).
Proof. intros. by apply (MergeRecordLimitRowsDescend_spec col_rep newRec oldRec). Qed.
End Theorems.

Lemma MergeRecord_union_witness :
  ∃ rec' fs rows, MergeRecord sample_rec sample_new sample_old = Ok rec' ∧ rec_rep col_rep rec' fs f_time rows ∧
    (∀ f, f ∈ fs ↔ f ∈ [f_a; f_s] ∨ f ∈ [f_a]) ∧ union_of ascending new_sample_rows old_sample_rows rows.
Proof.
  apply (MergeRecord_union sample_rec sample_new sample_old [f_a; f_s] [f_a] f_time new_sample_rows old_sample_rows);
    [apply sample_mergeable; lia|by_compute|exact sample_fresh].
Defined.

Lemma MergeRecordDescend_union_witness :
  ∃ rec' fs rows, MergeRecordDescend sample_rec sample_new_desc sample_old_desc = Ok rec' ∧ rec_rep col_rep rec' fs f_time rows ∧
    (∀ f, f ∈ fs ↔ f ∈ [f_a; f_s] ∨ f ∈ [f_a]) ∧
    union_of descending (reverse new_sample_rows) (reverse old_sample_rows) rows.
Proof.
  apply (MergeRecordDescend_union sample_rec sample_new_desc sample_old_desc [f_a; f_s] [f_a] f_time
           (reverse new_sample_rows) (reverse old_sample_rows));
    [apply sample_mergeable_desc; lia|exact sample_fresh].
Defined.

Lemma MergeRecordLimitRows_pages_witness :
  merged_prefix col_rep [f_a; f_s] [f_a] f_time new_sample_rows old_sample_rows ascending 0 1 2
    (MergeRecordLimitRows sample_rec sample_new sample_old 0 1 2).
Proof.
  apply (MergeRecordLimitRows_pages sample_rec sample_new sample_old [f_a; f_s] [f_a] f_time new_sample_rows old_sample_rows 0 1 2);
    [apply sample_mergeable; lia|by_compute|exact sample_fresh|lia].
Defined.

Lemma MergeRecordLimitRowsDescend_pages_witness :
  merged_prefix col_rep [f_a; f_s] [f_a] f_time (reverse new_sample_rows) (reverse old_sample_rows) descending 1 0 1
    (MergeRecordLimitRowsDescend sample_rec sample_new_desc sample_old_desc 1 0 1).
Proof.
  apply (MergeRecordLimitRowsDescend_pages sample_rec sample_new_desc sample_old_desc [f_a; f_s] [f_a] f_time
           (reverse new_sample_rows) (reverse old_sample_rows) 1 0 1);
    [apply sample_mergeable_desc; lia|exact sample_fresh|lia].
Defined.

(** The merged record of the sample, evaluated. *)
Example merge_sample :
  (let! rec := MergeRecord sample_rec sample_new sample_old in
   Ok (FName <$> Schema rec, Times rec, (λ cv, sdata (Val cv)) <$> ColVals rec)) =
  Ok (["a"; "s"; "time"], [1; 2; 4],
      [bytes_le 8 [1; 10; 4]; [104; 105; 120]; bytes_le 8 [1; 2; 4]]).
Proof. vm_compute. reflexivity. Qed.

(** A new record that ends at the largest int64 overflows the bound of the last search:
    the old row before it is written again after it. *)
Definition edge (t : Z) : Record_ :=
  mk_Record [f_time] [col (bytes_le 8 [t]) [] [1] 1 0] [] None.
Definition edge_old (a b : Z) : Record_ :=
  mk_Record [f_time] [col (bytes_le 8 [a; b]) [] [3] 2 0] [] None.

Lemma merge_overflow_at_max :
  (let! rec := MergeRecord sample_rec (edge (2 ^ 63 - 1)) (edge_old 5 (2 ^ 63 - 1)) in Ok (Times rec)) =
  Ok [5; 2 ^ 63 - 1; 5].
Proof. vm_compute. reflexivity. Qed.
