(* ===== verification/RecordSort.v ===== *)
(** * lib/record: sorting a record (column_sort.go, record_sort.go)

    The rows of a record are collected in the order they were written; before they are read
    or flushed the record is sorted by time, and rows with the same time become one row in
    which the value written last wins.  The sort orders row numbers; then every column is
    rebuilt section by section, a section being rows that were already adjacent.

    FastSortRecord restores the name order of the columns after new columns were added. *)

From Stdlib Require String.
From S2P Require Import Prelude GoSlice GoSort Bitmap ColVal Record.

(** sort.Stable: the sorted order that keeps the order of equal elements. *)
Definition Stable {A} (less : A → A → bool) (l : list A) : list A := insertion_sort less l.

(** ** Columns *)

(** The number of nulls before each row, [total] when the column has none. *)
Record NilCounts := mk_nc { nc_value : list Z; nc_total : Z }.

Section Columns.
Context `{GoRuntime}.

Fixpoint nil_loop (col : ColVal) (j k : nat) (value : list Z) (prev : Z) : res (list Z) :=
  match k with
  | O => Ok value
  | S k =>
      let! b := IsNil col j in
      let v := if b then prev + 1 else prev in
      nil_loop col (S j) k (value ++ [v]) v
  end.

(** The slots of a reused buffer are all written before they are read. *)
Definition initNilCount (nc : NilCounts) (col : ColVal) (size : nat) : res NilCounts :=
  if NilCount col =? 0 then Ok (mk_nc (nc_value nc) 0)
  else
    let! v := nil_loop col 0 (size - 1) [0] 0 in
    Ok (mk_nc v (NilCount col)).

Definition AppendWithNilCount (cv src : ColVal) (colType : FieldType) (start end_ : nat) (nc : NilCounts) : res ColVal :=
  if ((end_ <=? start) || (Len src =? 0))%nat then Ok cv
  else if ((end_ - start =? Len src) && (Len cv =? 0))%nat then AppendAll cv src
  else
    let! (startOffset, endOffset) :=
      if 0 <? nc_total nc then
        let! s := index (nc_value nc) start in
        let! e := index (nc_value nc) end_ in
        Ok (Z.of_nat start - s, Z.of_nat end_ - e)
      else Ok (Z.of_nat start, Z.of_nat end_) in
    let! cv :=
      match colType with
      | Field_Type_String | Field_Type_Tag => appendStringRows cv (Val src) (Offset src) (Len src) start end_
      | Field_Type_Int | Field_Type_Float | Field_Type_Boolean => appendFixedRows cv (typeSize colType) (Val src) startOffset endOffset
      | _ => Panic
      end in
    let! cv := appendBitmap cv (Bitmap src) (BitMapOffset src) (Len src) start end_ in
    Ok (add_Len cv (end_ - start) (Z.of_nat end_ - Z.of_nat start - (endOffset - startOffset))).

Definition deleteLast (cv : ColVal) (typ : FieldType) : res ColVal :=
  if (Len cv =? 0)%nat then Ok cv
  else
    let n := (Len cv - 1)%nat in
    let! isNil := IsNil cv n in
    let! bm := if (n mod 8 =? 0)%nat then resliceZ (Bitmap cv) 0 (Z.of_nat (slen (Bitmap cv)) - 1) else Ok (Bitmap cv) in
    let cv := mk_ColVal (Val cv) (Offset cv) bm (BitMapOffset cv) n (NilCount cv) in
    let! cv :=
      if isNil then Ok (add_Len cv 0 (-1))
      else
        let! size :=
          if decide (typ = Field_Type_String)
          then let! o := index (sdata (Offset cv)) n in Ok (Z.of_nat (slen (Val cv)) - o)
          else Ok (Z.of_nat (typeSize typ)) in
        let! v := resliceZ (Val cv) 0 (Z.of_nat (slen (Val cv)) - size) in
        Ok (set_Val cv v) in
    if decide (typ = Field_Type_String) then let! o := reslice_to (Offset cv) n in Ok (set_Offset cv o) else Ok cv.

(** ** The auxiliary sort state *)

Record SortAux := mk_aux { RowIds : list Z; ATimes : list Z; sections : list (nat * nat); SortRec : option Record_ }.

Definition NewRecordBuilder (schema : list Field) : Record_ := mk_Record schema (replicate (length schema) empty_col) [] None.

Fixpoint init_cols (cols : list ColVal) : res (list ColVal) :=
  match cols with [] => Ok [] | c :: cols => let! c := Init c in let! cols := init_cols cols in Ok (c :: cols) end.

(** [size] more columns, from the room behind the length where there is enough, each
    initialised; a negative [size] drops columns. *)
Definition ReserveColVal (rec : Record_) (size : Z) : res Record_ :=
  let colLen := length (ColVals rec) in
  let remain := Z.of_nat (length (ColSpare rec)) in
  let all := (ColVals rec ++ ColSpare rec ++ replicate (Z.to_nat (size - remain)) empty_col)%list in
  let n := Z.of_nat colLen + size in
  if n <? 0 then Panic
  else
    let n := Z.to_nat n in
    let! added := init_cols (drop colLen (take n all)) in
    Ok (mk_Record (Schema rec) (take (min n colLen) (ColVals rec) ++ added) (drop n all) (MetaTimes rec)).

Definition Reset (rec : Record_) : Record_ := mk_Record [] [] (ColVals rec ++ ColSpare rec) (MetaTimes rec).
Definition ResetWithSchema (rec : Record_) (schema : list Field) : res Record_ :=
  let rec := Reset rec in
  ReserveColVal (mk_Record schema (ColVals rec) (ColSpare rec) (MetaTimes rec)) (Z.of_nat (length schema)).

Definition aux_InitRecord (aux : SortAux) (schemas : list Field) : res SortAux :=
  let! r := match SortRec aux with None => Ok (NewRecordBuilder schemas) | Some r => ResetWithSchema r schemas end in
  Ok (mk_aux (RowIds aux) (ATimes aux) (sections aux) (Some r)).
Definition aux_Init (aux : SortAux) (times : list Z) : SortAux :=
  mk_aux ((λ i, i32 (Z.of_nat i)) <$> seq 0 (length times)) times (sections aux) (SortRec aux).

(** Less compares the times; Swap exchanges times and row numbers. *)
Definition time_less (p q : Z * Z) : bool := fst p <? fst q.
Definition aux_Stable (aux : SortAux) : SortAux :=
  let ps := Stable time_less (zip (ATimes aux) (RowIds aux)) in
  mk_aux (snd <$> ps) (fst <$> ps) (sections aux) (SortRec aux).

(** A section ends where the next row was not the next one before the sort, or has the
    same time. *)
Fixpoint section_loop (times rows : list Z) (start i : nat) (acc : list (nat * nat)) : list (nat * nat) :=
  match times, rows with
  | t :: ((t' :: _) as times'), r :: ((r' :: _) as rows') =>
      if negb (i32 (r' - r) =? 1) || (t =? t') then section_loop times' rows' (S i) (S i) (acc ++ [(start, i)])
      else section_loop times' rows' start (S i) acc
  | _, _ => acc ++ [(start, i)]
  end.
Definition InitSections (aux : SortAux) : SortAux :=
  mk_aux (RowIds aux) (ATimes aux) (section_loop (ATimes aux) (RowIds aux) 0 0 []) (SortRec aux).
Definition RowIndex (aux : SortAux) (sec : nat * nat) : res (nat * nat * nat) :=
  let! s := index (RowIds aux) (fst sec) in
  let! e := index (RowIds aux) (snd sec) in
  let e := i32 (e + 1) in
  if (s <? 0) || (e <? 0) then Panic else Ok (fst sec, Z.to_nat s, Z.to_nat e).

(** ** Sorting by columns *)

Record ColumnSortHelper := mk_helper { h_aux : SortAux; h_nilCount : NilCounts }.
Definition NewColumnSortHelper : ColumnSortHelper := mk_helper (mk_aux [] [] [] None) (mk_nc [] 0).

(** A value that is not null replaces the last one. *)
Definition replace (col aux : ColVal) (typ : FieldType) (idx : nat) (nc : NilCounts) : res ColVal :=
  let! b := IsNil col idx in
  if b then Ok aux
  else let! aux := deleteLast aux typ in AppendWithNilCount aux col typ idx (idx + 1) nc.

Fixpoint sort_sections (col : ColVal) (aux : SortAux) (typ : FieldType) (nc : NilCounts) (secs : list (nat * nat)) (dst : ColVal) : res ColVal :=
  match secs with
  | [] => Ok dst
  | sec :: secs =>
      let! (idx, rowStart, rowEnd) := RowIndex aux sec in
      let! same :=
        if (0 <? idx)%nat
        then let! t := index (ATimes aux) idx in let! t' := index (ATimes aux) (idx - 1) in Ok (t =? t')
        else Ok false in
      let! (dst, rowStart) :=
        if same then let! dst := replace col dst typ rowStart nc in Ok (dst, (rowStart + 1)%nat) else Ok (dst, rowStart) in
      let! dst := if (rowEnd <=? rowStart)%nat then Ok dst else AppendWithNilCount dst col typ rowStart rowEnd nc in
      sort_sections col aux typ nc secs dst
  end.

(** [fs] and [dsts] are the fields and columns of the new record, [cols] those of the old. *)
Fixpoint sort_columns (aux : SortAux) (nc : NilCounts) (fs : list Field) (cols dsts : list ColVal) : res (list ColVal * NilCounts) :=
  match fs, cols, dsts with
  | f :: fs, col :: cols, dst :: dsts =>
      let! nc := initNilCount nc col (length (ATimes aux) + 1) in
      let! dst := sort_sections col aux (FType f) nc (sections aux) dst in
      let! (dsts, nc) := sort_columns aux nc fs cols dsts in
      Ok (dst :: dsts, nc)
  | [], _, _ => Ok (dsts, nc)
  | _, _, _ => Panic
  end.

Definition AppendTime (tc : ColVal) (t : Z) : res ColVal := @appendValue _ int64 tc t.
Fixpoint append_times (tc : ColVal) (prev : Z) (ts : list Z) : res ColVal :=
  match ts with
  | [] => Ok tc
  | t :: ts => let! tc := if negb (t =? prev) then AppendTime tc t else Ok tc in append_times tc t ts
  end.

(** The input becomes the spare record of the helper. *)
Definition Sort (h : ColumnSortHelper) (rec : Record_) : res (ColumnSortHelper * Record_) :=
  if (RowNums rec =? 0)%nat then Ok (h, rec)
  else
    let! aux := aux_InitRecord (h_aux h) (Schema rec) in
    let aux := InitSections (aux_Stable (aux_Init aux (Times rec))) in
    match SortRec aux with
    | None => Panic
    | Some out =>
        let n := (length (Schema rec) - 1)%nat in
        let! (dsts, nc) := sort_columns aux (h_nilCount h) (take n (Schema out)) (ColVals rec) (ColVals out) in
        let! tc := time_of dsts in
        let! tc :=
          match ATimes aux with
          | [] => Panic
          | t :: ts => let! tc := AppendTime tc t in append_times tc t ts
          end in
        let out := mk_Record (Schema out) (<[(length dsts - 1)%nat := tc]> dsts) (ColSpare out) (MetaTimes out) in
        Ok (mk_helper (mk_aux (RowIds aux) (ATimes aux) (sections aux) (Some rec)) nc, out)
    end.

Definition SortRecordIfNeeded (h : ColumnSortHelper) (rec : Record_) : res (ColumnSortHelper * Record_) :=
  if IsSorted Z.ltb (Times rec) then Ok (h, rec) else Sort h rec.
End Columns.

(** ** Restoring the order of columns *)

Definition TimeField : string := "time".

(** [indexs[i]] is where column [i] belongs: [old] are the fields before [offset], with the
    time field last, [added] the ones from there. *)
Fixpoint merge_positions (old : list Field) (added : list Field) (i j : nat) (ofs : nat) (fuel : nat) (indexs : list nat) : res (list nat) :=
  match fuel with
  | O => Diverge
  | S fuel =>
      let finish :=
        (let indexs := foldl (λ ix k, <[(ofs + k)%nat := (j + k)%nat]> ix) indexs (seq i (length added - i)) in
         let i := Nat.max i (length added) in
         Ok (foldl (λ ix k, <[k := (k + i)%nat]> ix) indexs (seq j (ofs - j)))) in
      match added !! i with
      | None => finish
      | Some a =>
          match old !! j with
          | None => Panic
          | Some o =>
              if bool_decide (FName o = TimeField) then finish
              else if String.ltb (FName o) (FName a) then merge_positions old added i (S j) ofs fuel (<[j := (j + i)%nat]> indexs)
              else merge_positions old added (S i) j ofs fuel (<[(ofs + i)%nat := (j + i)%nat]> indexs)
          end
      end
  end.

Definition swap_at {A} (l : list A) (i k : nat) : list A :=
  match l !! i, l !! k with Some x, Some y => <[i := y]> (<[k := x]> l) | _, _ => l end.

(** Each swap puts one column where it belongs. *)
Fixpoint place_columns (n i : nat) (fuel : nat) (indexs : list nat) (fs : list Field) (cols : list ColVal) : res (list Field * list ColVal) :=
  match fuel with
  | O => Diverge
  | S fuel =>
      if (i <? n - 1)%nat then
        match indexs !! i with
        | None => Panic
        | Some k =>
            if (k =? i)%nat then place_columns n (S i) fuel indexs fs cols
            else if (length fs <=? k)%nat || (length cols <=? k)%nat then Panic
            else place_columns n i fuel (swap_at indexs i k) (swap_at fs i k) (swap_at cols i k)
        end
      else Ok (fs, cols)
  end.

Definition FastSortRecord (rec : Record_) (offset : nat) : res Record_ :=
  let n := length (Schema rec) in
  if (offset =? 0)%nat || (n <? offset)%nat then Panic
  else
    let indexs := <[(offset - 1)%nat := (n - 1)%nat]> (replicate n 0%nat) in
    let! indexs := merge_positions (Schema rec) (drop offset (Schema rec)) 0 0 offset (S (n + n)) indexs in
    let! (fs, cols) := place_columns n 0 (S (n + n)) indexs (Schema rec) (ColVals rec) in
    Ok (mk_Record fs cols (ColSpare rec) (MetaTimes rec)).
