(* ===== verification/SortColumns.v ===== *)
(** * lib/record: the column operations of the sort refine lists of cells

    Counting the nulls in advance gives AppendWithNilCount the value range AppendColVal
    computes, so both append the same rows; deleteLast removes the last row. *)

From stdpp Require Import gmap.
From S2P Require Import Prelude GoSort GoSlice Bitmap ColVal ColRefine ColStrings Column TimeSearch Record.
From S2P Require Import RecordTable MergeSpec RecordSort.

(** ** Null counts *)

Definition nils_before (bs : list bool) (i : nat) : Z := Z.of_nat i - Z.of_nat (count_true (take i bs)).

Definition nc_ok (nc : NilCounts) (bs : list bool) : Prop :=
  if 0 <? nc_total nc then ∀ i, (i <= length bs)%nat → nc_value nc !! i = Some (nils_before bs i)
  else count_true bs = length bs.

Lemma count_true_snoc bs b : count_true (bs ++ [b]) = (count_true bs + if b then 1 else 0)%nat.
Proof. induction bs as [|a bs IH]; [by destruct b|]. cbn [app]. rewrite !count_true_cons, IH. lia. Qed.

Lemma nils_before_S bs i b : bs !! i = Some b → nils_before bs (S i) = if negb b then nils_before bs i + 1 else nils_before bs i.
Proof. intros Hi. unfold nils_before. rewrite (take_S_r _ _ _ Hi), count_true_snoc. destruct b; cbn; lia. Qed.

Lemma nil_loop_spec col bs j k :
  bits_rep col bs → (j + k = length bs)%nat →
  nil_loop col j k (nils_before bs <$> seq 0 (S j)) (nils_before bs j) = Ok (nils_before bs <$> seq 0 (S (length bs))).
Proof.
  intros Hrep. revert j. induction k as [|k IH]; intros j Hjk; cbn [nil_loop].
  { by replace j with (length bs) by lia. }
  destruct (lookup_lt_is_Some_2 bs j) as [b Hb]; [lia|]. rewrite (IsNil_spec col bs Hrep j b Hb). rs.
  rewrite <- (nils_before_S bs j b Hb). rewrite <- (IH (S j)) by lia. f_equal. rewrite (seq_S (S j)), fmap_app. done.
Qed.

Lemma initNilCount_spec nc col bs :
  bits_rep col bs → ∃ nc', initNilCount nc col (length bs + 1) = Ok nc' ∧ nc_ok nc' bs.
Proof.
  intros Hrep. unfold initNilCount. pose proof (br_nils _ _ Hrep) as Hn. pose proof (count_true_le bs). destruct (Z.eqb_spec (NilCount col) 0) as [E|E].
  - eexists. split; [done|]. unfold nc_ok. cbn. lia.
  - replace (length bs + 1 - 1)%nat with (length bs) by lia.
    assert (Hl : nil_loop col 0 (length bs) [0] 0 = Ok (nils_before bs <$> seq 0 (S (length bs)))) by (by apply (nil_loop_spec col bs 0)).
    rewrite Hl. rs. eexists. split; [done|]. unfold nc_ok. cbn [nc_total nc_value]. rewrite (proj2 (Z.ltb_lt _ _)) by lia. intros i Hi.
    by rewrite list_lookup_fmap, lookup_seq_lt by lia.
Qed.

(** ** Appending *)

Section Append.
Context `{GoRuntime}.

Lemma AppendWithNilCount_equiv cv src ft s e nc bs :
  bits_rep src bs → nc_ok nc bs → (s <= e <= length bs)%nat → AppendWithNilCount cv src ft s e nc = AppendColVal cv src ft s e.
Proof.
  intros Hrep Hnc Hse. unfold AppendWithNilCount, AppendColVal, Append, AppendAll. destruct (_ || _)%nat; [done|]. destruct (_ && _)%nat; [done|].
  pose proof (getValIndexRange_spec src bs Hrep s e ltac:(rewrite (br_len _ _ Hrep); lia)) as Hg. unfold getValIndexRange in Hg. rewrite Hg.
  assert (Ho : (if 0 <? nc_total nc
    then let! s0 := index (nc_value nc) s in let! e0 := index (nc_value nc) e in Ok (Z.of_nat s - s0, Z.of_nat e - e0)
    else Ok (Z.of_nat s, Z.of_nat e)) = Ok (Z.of_nat (count_true (take s bs)), Z.of_nat (count_true (take e bs)))).
  { unfold nc_ok in Hnc. destruct (0 <? nc_total nc).
    - unfold index. rewrite !Hnc by lia. unfold nils_before. cbn. do 2 f_equal; lia.
    - pose proof (count_true_split bs 0 s) as H1. pose proof (count_true_split bs 0 e) as H2. rewrite drop_0, take_0 in *. cbn [Nat.add] in *.
      pose proof (count_true_le (take s bs)). pose proof (count_true_le (drop s bs)). pose proof (count_true_le (take e bs)). pose proof (count_true_le (drop e bs)).
      change (count_true []) with 0%nat in *. do 2 f_equal; len. }
  rewrite Ho. rs. by destruct ft.
Qed.

Lemma appendBitmap_aligned c bm off rows s e c' : appendBitmap c bm off rows s e = Ok c' → BitMapOffset c' = BitMapOffset c.
Proof.
  unfold appendBitmap. destruct (subBitmapBytes _ _ _) as [[sub o]| | |]; try done. cbn [res_bind]. destruct (_ && _)%nat.
  - match goal with |- res_bind ?m _ = _ → _ => destruct m as [x| | |]; try done end. by intros [= <-].
  - destruct (grow_bitmap _ _) as [b| | |]; try done. cbn [res_bind]. destruct (copy_bits _ _ _ _ _) as [b'| | |]; try done. by intros [= <-].
Qed.

Lemma AppendColVal_aligned cv src ft s e cv' :
  AppendColVal cv src ft s e = Ok cv' → (Len cv = 0%nat → (e - s)%nat ≠ Len src) → BitMapOffset cv' = BitMapOffset cv.
Proof.
  unfold AppendColVal, Append. intros Ha Hne. destruct (_ || _)%nat; [by injection Ha as <-|]. destruct (_ && _)%nat eqn:E.
  { apply andb_true_iff in E as [E1 E2]. rewrite Nat.eqb_eq in E1, E2. by specialize (Hne E2). }
  match type of Ha with res_bind ?m _ = _ => destruct m as [[so eo]| | |]; try done end. cbn [res_bind] in Ha.
  match type of Ha with res_bind ?m _ = _ => assert (Hc : ∀ c, m = Ok c → BitMapOffset c = BitMapOffset cv); [|destruct m as [c| | |]; try done] end.
  { intros c Hc. assert (Hs : ∀ v o l c, appendStringRows cv v o l s e = Ok c → BitMapOffset c = BitMapOffset cv).
    { intros v o l c0. unfold appendStringRows. intros H0. repeat match type of H0 with res_bind ?m _ = _ => destruct m; try done; cbn [res_bind] in H0 end. by injection H0 as <-. }
    assert (Hf : ∀ w v c, appendFixedRows cv w v so eo = Ok c → BitMapOffset c = BitMapOffset cv).
    { intros w v c0. unfold appendFixedRows. intros H0. repeat match type of H0 with res_bind ?m _ = _ => destruct m; try done; cbn [res_bind] in H0 end. by injection H0 as <-. }
    destruct ft; try done; eauto. }
  specialize (Hc c eq_refl). cbn [res_bind] in Ha. destruct (appendBitmap c _ _ _ _ _) as [c'| | |] eqn:Eb; try done. cbn [res_bind] in Ha. injection Ha as <-.
  cbn [BitMapOffset add_Len]. rewrite <- Hc. by eapply appendBitmap_aligned.
Qed.
End Append.

(** ** Removing the last row *)

Lemma resliceZ_prefix s n : (n <= slen s)%nat → resliceZ s 0 (Z.of_nat n) = Ok (mk_slice (take n (sback s)) (drop n (sback s))).
Proof.
  intros Hn. unfold resliceZ. rewrite (proj2 (Z.ltb_ge _ _)) by lia. cbn [orb]. rewrite (proj2 (Z.ltb_ge _ _)) by lia. rewrite Nat2Z.id. unfold reslice.
  change (Z.to_nat 0) with 0%nat. rewrite (proj2 (Nat.leb_le _ _)), (proj2 (Nat.leb_le _ _)) by (unfold scap, slen in *; lia). cbn [andb]. by rewrite drop_0, Nat.sub_0_r.
Qed.

Lemma delete_bits cv bs b :
  bits_rep cv (bs ++ [b]) → BitMapOffset cv = 0%nat →
  ∃ bm, (if (length bs mod 8 =? 0)%nat then resliceZ (Bitmap cv) 0 (Z.of_nat (slen (Bitmap cv)) - 1) else Ok (Bitmap cv)) = Ok bm ∧
    ∀ v o nils, nils = Z.of_nat (length bs) - Z.of_nat (count_true bs) → bits_rep (mk_ColVal v o bm 0 (length bs) nils) bs.
Proof.
  intros [Hl Hs Hok Hb Hn _] Hoff. rewrite Hoff in *. rewrite length_app in Hl. cbn [length Nat.add] in *. rewrite Hl in *.
  assert (Hbits : take (length bs) (bm_bits (sdata (Bitmap cv))) = bs).
  { unfold range_bits in Hb. rewrite Nat.sub_0_r, drop_0 in Hb. apply (f_equal (take (length bs))) in Hb. rewrite take_take, take_app_length in Hb.
    by replace (length bs `min` (length bs + 1))%nat with (length bs) in Hb by lia. }
  destruct (Nat.eqb_spec (length bs mod 8) 0) as [E|E].
  - assert (Hsz : slen (Bitmap cv) = S (length bs / 8)).
    { rewrite Hs. replace (length bs + 1 + 7)%nat with (length bs + 1 * 8)%nat by lia. rewrite Nat.div_add by lia. lia. }
    rewrite Hsz. replace (Z.of_nat (S (length bs / 8)) - 1) with (Z.of_nat (length bs / 8)) by lia. rewrite resliceZ_prefix by lia. eexists. split; [done|]. intros v o nils ->.
    set (bm := mk_slice _ _). assert (Hd : sdata bm = take (length bs / 8) (sdata (Bitmap cv))) by (unfold bm; cbn [sdata]; apply take_sback; rewrite Hsz; lia).
    assert (Hlen : length bs = (8 * (length bs / 8))%nat) by (pose proof (Nat.div_mod_eq (length bs) 8); lia).
    split; cbn [Len Bitmap BitMapOffset NilCount Nat.add]; try done.
    + unfold slen. rewrite Hd, length_take. unfold slen in Hsz. rewrite Hsz. rewrite Nat.min_l by lia. rewrite Hlen at 2. symmetry.
      replace (8 * (length bs / 8) + 7)%nat with (7 + length bs / 8 * 8)%nat by lia. rewrite Nat.div_add by lia. reflexivity.
    + unfold slice_ok in *. unfold bm, sback. cbn. by rewrite take_drop.
    + unfold range_bits. rewrite Nat.sub_0_r, drop_0, Hd. rewrite bm_bits_take, take_take, Nat.min_l by lia. done.
  - exists (Bitmap cv). split; [done|]. intros v o nils ->. split; cbn [Len Bitmap BitMapOffset NilCount Nat.add]; try done.
    + rewrite Hs. pose proof (Nat.div_mod_eq (length bs + 7) 8). pose proof (Nat.div_mod_eq (length bs) 8). pose proof (Nat.mod_upper_bound (length bs) 8).
      pose proof (Nat.mod_upper_bound (length bs + 7) 8). pose proof (Nat.div_mod_eq (length bs + 1 + 7) 8). pose proof (Nat.mod_upper_bound (length bs + 1 + 7) 8). lia.
    + unfold range_bits. by rewrite Nat.sub_0_r, drop_0.
Qed.

Lemma deleteLast_fixed {T : BasicType} cv zs z ft :
  fixed_rep cv (zs ++ [z]) → typeSize ft = sizeof → ft ≠ Field_Type_String → BitMapOffset cv = 0%nat →
  ∃ cv', deleteLast cv ft = Ok cv' ∧ fixed_rep cv' zs ∧ BitMapOffset cv' = 0%nat.
Proof.
  intros [Hb Hv Ht] Hft Hns Hoff. rewrite validity_app in Hb. change (validity [z]) with [present z] in Hb. pose proof (br_len _ _ Hb) as Hl. rewrite length_app, length_validity in Hl. cbn [length validity fmap list_fmap] in Hl.
  pose proof (br_nils _ _ Hb) as Hn. rewrite length_app, count_true_snoc, length_validity in Hn. cbn [length] in Hn.
  unfold deleteLast. rewrite (proj2 (Nat.eqb_neq _ _)) by lia. replace (Len cv - 1)%nat with (length zs) by lia.
  rewrite (IsNil_spec cv _ Hb (length zs) (present z)) by (rewrite <- (length_validity zs); by rewrite list_lookup_middle).
  destruct (delete_bits cv (validity zs) (present z) Hb Hoff) as (bm & Hbm & Hrep). rewrite length_validity in Hbm, Hrep. rs. rewrite Hbm, Hoff. rs.
  rewrite somes_app in Hv, Ht. apply Forall_app in Ht as [Ht _]. destruct z as [z|]; cbn [present negb].
  - rewrite decide_False by done. rs. cbn [Val set_Val]. rewrite Hft.
    assert (Hvl : slen (Val cv) = (length (somes zs) * sizeof + sizeof)%nat) by (unfold slen; rewrite Hv; unfold somes; cbn; rewrite length_bytes_le, length_app; cbn; lia).
    rewrite Hvl. replace (_ - _) with (Z.of_nat (length (somes zs) * sizeof)) by lia. rewrite resliceZ_prefix by lia. rs. rewrite decide_False by done.
    eexists. split; [done|]. split; [|done]. split; [|cbn [Val set_Val sdata]|done].
    + apply Hrep. cbn [present NilCount] in *. lia.
    + rewrite take_sback by lia. rewrite Hv, bytes_le_app. rewrite take_app_le by (rewrite length_bytes_le; lia). rewrite take_ge by (rewrite length_bytes_le; lia). done.
  - rs. rewrite decide_False by done. eexists. split; [done|]. split; [|done]. split; [|cbn [Val add_Len sdata]|done].
    + unfold add_Len. cbn [Val Offset Bitmap BitMapOffset Len NilCount]. rewrite ?Nat.add_0_r. apply Hrep. cbn [present NilCount] in *. lia.
    + rewrite Hv. unfold somes. cbn. by rewrite app_nil_r.
Qed.

Lemma text_None rows : text (rows ++ [None]) = text rows.
Proof. rewrite text_app. cbn. by rewrite app_nil_r. Qed.

Lemma deleteLast_string cv rows r :
  str_rep cv (rows ++ [r]) → BitMapOffset cv = 0%nat →
  ∃ cv', deleteLast cv Field_Type_String = Ok cv' ∧ str_rep cv' rows ∧ BitMapOffset cv' = 0%nat.
Proof.
  intros [Hb Hv Ho Hf] Hoff. rewrite validity_app in Hb. change (validity [r]) with [present r] in Hb. pose proof (br_len _ _ Hb) as Hl. rewrite length_app, length_validity in Hl. cbn [length validity fmap list_fmap] in Hl.
  pose proof (br_nils _ _ Hb) as Hn. rewrite length_app, count_true_snoc, length_validity in Hn. cbn [length] in Hn.
  assert (Hfit : Z.of_nat (length (text rows)) < 2 ^ 32) by (rewrite text_app, length_app in Hf; lia).
  assert (Hst : starts (rows ++ [r]) = starts rows ++ [Z.of_nat (length (text rows))]).
  { rewrite starts_app. f_equal. unfold starts. cbn. do 2 f_equal. unfold start_of. cbn. lia. }
  assert (Hol : slen (Offset cv) = S (length rows)) by (unfold slen; rewrite Ho, length_starts, length_app; cbn; lia).
  unfold deleteLast. rewrite (proj2 (Nat.eqb_neq _ _)) by lia. replace (Len cv - 1)%nat with (length rows) by lia.
  rewrite (IsNil_spec cv _ Hb (length rows) (present r)) by (rewrite <- (length_validity rows); by rewrite list_lookup_middle).
  destruct (delete_bits cv (validity rows) (present r) Hb Hoff) as (bm & Hbm & Hrep). rewrite length_validity in Hbm, Hrep. rs. rewrite Hbm, Hoff. rs.
  assert (Hro : reslice_to (Offset cv) (length rows) = Ok (mk_slice (take (length rows) (sback (Offset cv))) (drop (length rows) (sback (Offset cv))))).
  { apply reslice_to_Ok. unfold scap, slen in *. lia. }
  assert (Hod : take (length rows) (sback (Offset cv)) = starts rows).
  { rewrite take_sback by lia. rewrite Ho, Hst. rewrite <- (length_starts rows). apply take_app_length. }
  destruct r as [v|]; cbn [present negb].
  - rewrite decide_True by done. cbn [Offset Val]. unfold index. rewrite Ho, Hst, lookup_app_r by (rewrite length_starts; lia). rewrite length_starts, Nat.sub_diag. cbn [lookup list_lookup res_bind].
    assert (Hvl : slen (Val cv) = (length (text rows) + length v)%nat) by (unfold slen; rewrite Hv, text_app, length_app; cbn; rewrite app_nil_r; lia).
    rewrite Hvl. match goal with |- context [resliceZ (Val cv) 0 ?n] => replace n with (Z.of_nat (length (text rows))) by lia end. rewrite resliceZ_prefix by lia. rs. rewrite decide_True by done. cbn [Offset set_Val]. rewrite Hro. rs.
    eexists. split; [done|]. split; [|done]. split; [|cbn [Val Offset set_Val set_Offset sdata]..|done].
    + apply Hrep. unfold set_Val; cbn [present NilCount] in *. lia.
    + rewrite take_sback by lia. rewrite Hv, text_app. by rewrite take_app_length.
    + done.
  - rs. rewrite decide_True by done. cbn [Offset add_Len]. rewrite Hro. rs. eexists. split; [done|]. split; [|done]. split; [|cbn [Val Offset set_Val set_Offset sdata add_Len]..|done].
    + unfold set_Offset, add_Len. cbn [Val Offset Bitmap BitMapOffset Len NilCount]. rewrite ?Nat.add_0_r. apply Hrep. cbn [present NilCount] in *. lia.
    + by rewrite Hv, text_None.
    + done.
Qed.

Lemma deleteLast_spec ft cv rows r :
  col_rep ft cv (rows ++ [r]) → BitMapOffset cv = 0%nat →
  ∃ cv', deleteLast cv ft = Ok cv' ∧ col_rep ft cv' rows ∧ BitMapOffset cv' = 0%nat.
Proof.
  assert (Hfix : ∀ (T : BasicType) w zs, w = @sizeof T → fixed_rep cv zs → rows ++ [r] = cells w zs → typeSize ft = w → ft ≠ Field_Type_String → BitMapOffset cv = 0%nat →
    ∃ cv', deleteLast cv ft = Ok cv' ∧ (∃ zs, fixed_rep cv' zs ∧ rows = cells w zs) ∧ BitMapOffset cv' = 0%nat).
  { intros T w zs -> Hrep Heq Hts Hns Hoff. destruct (exists_last (l := zs)) as (zs' & z & ->); [intros ->; by destruct rows|].
    rewrite cells_app in Heq. apply app_inj_2 in Heq as [-> _]; [|done]. destruct (deleteLast_fixed cv zs' z ft Hrep Hts Hns Hoff) as (cv' & He & Hr & Ho).
    exists cv'. split; [done|]. split; [by exists zs'|done]. }
  destruct ft; cbn [col_rep]; try done; try (intros (zs & Hrep & Heq) Hoff); [by apply (Hfix word8 8%nat zs)|by apply (Hfix word8 8%nat zs)| |by apply (Hfix word1 1%nat zs)].
  apply deleteLast_string.
Qed.

(** ** Both, for columns of any type *)

Lemma col_rep_bits ft cv rows : col_rep ft cv rows → bits_rep cv (validity rows).
Proof.
  assert (Hc : ∀ w zs, validity (cells w zs) = validity zs) by (intros w zs; unfold validity, cells; rewrite <- list_fmap_compose; apply list_fmap_ext; intros i [z|] _; done).
  destruct ft; cbn [col_rep]; try done; try (intros (zs & Hrep & ->); rewrite Hc; apply (fr_bits _ _ Hrep)). apply sr_bits.
Qed.

Lemma AppendWithNilCount_spec `{GoRuntime} ft cv rows src srows s e nc :
  col_rep ft cv rows → col_rep ft src srows → nc_ok nc (validity srows) → (s <= e <= length srows)%nat →
  (ft = Field_Type_String → fits (rows ++ take (e - s) (drop s srows))) →
  ∃ cv', AppendWithNilCount cv src ft s e nc = Ok cv' ∧ col_rep ft cv' (rows ++ take (e - s) (drop s srows)) ∧
    ((Len cv = 0%nat → (e - s)%nat ≠ length srows) → BitMapOffset cv' = BitMapOffset cv).
Proof.
  intros Hrep Hsrc Hnc Hse Hfit. rewrite (AppendWithNilCount_equiv cv src ft s e nc (validity srows)); [|by eapply col_rep_bits|done|by rewrite length_validity].
  destruct (col_append ft cv rows src srows s e Hrep Hsrc Hse Hfit) as (cv' & Ha & Hr). exists cv'. split; [done|]. split; [done|].
  intros Hne. eapply AppendColVal_aligned; [done|]. by rewrite (col_len ft src srows Hsrc).
Qed.

(** Appending one value: the bytes depend on the word only. *)
Lemma le_bytes_u64 v : le_bytes 8 (u64 v) = le_bytes 8 v.
Proof. apply le_bytes_mod. unfold wrap_u. by rewrite Z.mod_mod. Qed.
Lemma appendValue_int64 `{GoRuntime} cv v : @appendValue _ int64 cv v = @appendValue _ word8 cv (u64 v).
Proof.
  unfold appendValue, put. cbn [sizeof int64 word8 float64]. by rewrite le_bytes_u64.
Qed.
Lemma appendValue_boolean `{GoRuntime} cv v : @appendValue _ boolean cv v = @appendValue _ word1 cv v.
Proof. reflexivity. Qed.

Lemma append_word_spec `{GoRuntime} ft cv rows v :
  ft = Field_Type_Int ∨ ft = Field_Type_Float → col_rep ft cv rows →
  ∃ cv', @appendValue _ int64 cv v = Ok cv' ∧ col_rep ft cv' (rows ++ [Some (le_bytes 8 v)]).
Proof.
  intros Hft Hrep. assert (Hz : ∃ zs, @fixed_rep word8 cv zs ∧ rows = cells 8 zs) by (by destruct Hft as [->| ->]). destruct Hz as (zs & Hz & ->). rewrite appendValue_int64.
  destruct (@appendValue_spec _ word8 cv zs (u64 v) Hz) as (cv' & He & Hr); [apply wrap_u_range; lia|]. exists cv'. split; [done|].
  assert (Hc : ∃ zs', @fixed_rep word8 cv' zs' ∧ cells 8 zs ++ [Some (le_bytes 8 v)] = cells 8 zs').
  { eexists. split; [exact Hr|]. rewrite cells_app. change (cells 8 [Some (u64 v)]) with [Some (le_bytes 8 (u64 v))]. by rewrite le_bytes_u64. }
  by destruct Hft as [->| ->].
Qed.
Lemma append_bool_spec `{GoRuntime} cv rows v :
  in_u 8 v → col_rep Field_Type_Boolean cv rows → ∃ cv', @appendValue _ boolean cv v = Ok cv' ∧ col_rep Field_Type_Boolean cv' (rows ++ [Some (le_bytes 1 v)]).
Proof.
  intros Hv (zs & Hz & ->). rewrite appendValue_boolean. destruct (@appendValue_spec _ word1 cv zs v Hz) as (cv' & He & Hr); [exact Hv|]. exists cv'. split; [done|].
  eexists. split; [exact Hr|]. by rewrite cells_app.
Qed.

(** * lib/record: what sorting a record means

    [write_rows] is the reference: the rows of a record merged into a table one after the
    other, in the order they were written, each as the newest.  Sorting the rows stably and
    collapsing rows with the same time, the later over the earlier, gives the same table. *)

Definition write_row (table : list row) (r : row) : list row := merge_rows ascending [r] table.
Definition write_rows (rows : list row) : list row := foldl write_row [] rows.

Lemma sorted_one first r : sorted_rows first [r].
Proof. intros [|i] [|j] x y Hij Hx Hy; try lia; done. Qed.

Lemma write_rows_sorted rows : sorted_rows ascending (write_rows rows).
Proof.
  induction rows as [|r rows IH] using rev_ind; [by intros [|i] j x y Hij Hx|]. unfold write_rows. rewrite foldl_app. cbn [foldl].
  apply (merge_rows_sorted ascending); [apply sorted_one|exact IH].
Qed.

(** A cell of the table is the value written last at its time, nulls apart. *)
Fixpoint last_written (rows : list row) (t : Z) (nm : string) : option cell :=
  match rows with
  | [] => None
  | r :: rows => last_written rows t nm ∪ (if decide (fst r = t) then snd r !! nm else None)
  end.

Lemma union_None_l (a : option cell) : None ∪ a = a. Proof. by destruct a. Qed.
Lemma union_None_r (a : option cell) : a ∪ None = a. Proof. by destruct a. Qed.
Lemma union_assoc_opt (a b c : option cell) : a ∪ (b ∪ c) = (a ∪ b) ∪ c. Proof. by destruct a, b, c. Qed.

Lemma last_written_snoc rows r t nm :
  last_written (rows ++ [r]) t nm = (if decide (fst r = t) then snd r !! nm else None) ∪ last_written rows t nm.
Proof.
  induction rows as [|q rows IH]; cbn [app last_written]; [by rewrite union_None_l, union_None_r|]. by rewrite IH, union_assoc_opt.
Qed.

Lemma write_rows_cells rows t nm : cell_at (write_rows rows) t nm = last_written rows t nm.
Proof.
  induction rows as [|r rows IH] using rev_ind; [done|]. unfold write_rows. rewrite foldl_app. cbn [foldl]. unfold write_row at 1.
  rewrite (merge_rows_cells ascending); [|apply sorted_one|apply write_rows_sorted]. fold (write_rows rows). rewrite IH, last_written_snoc. by rewrite cell_at_cons.
Qed.

Lemma write_rows_times rows t : t ∈ fst <$> write_rows rows ↔ t ∈ fst <$> rows.
Proof.
  induction rows as [|r rows IH] using rev_ind; [done|]. unfold write_rows. rewrite foldl_app. cbn [foldl]. unfold write_row at 1.
  rewrite (merge_rows_times ascending). fold (write_rows rows). rewrite IH, fmap_app, elem_of_app. tauto.
Qed.

(** ** Collapsing sorted rows *)

Definition glue (r : row) (l : list row) : list row :=
  match l with q :: l' => if decide (fst q = fst r) then merge_row q r :: l' else r :: l | [] => [r] end.
Definition collapse (l : list row) : list row := foldr glue [] l.

Definition row_less (p q : row) : bool := fst p <? fst q.
#[export] Instance row_less_weak : StrictWeak row_less.
Proof. unfold row_less. split; intros; lia. Qed.

Lemma glue_head r l : ∃ c l', glue r l = (fst r, c) :: l'.
Proof. destruct l as [|q l]; cbn; [destruct r; by eexists _, _|]. case_decide as E; [rewrite <- E; unfold merge_row; by eexists _, _|destruct r; by eexists _, _]. Qed.

Lemma merge_row_assoc a b c : merge_row (merge_row a b) c = merge_row a (merge_row b c).
Proof. unfold merge_row. cbn. by rewrite (assoc_L (∪)). Qed.

Lemma collapse_insert r l : in_order row_less l → collapse (insert_by row_less r l) = write_row (collapse l) r.
Proof.
  unfold write_row. induction 1 as [|y l Hs IH Hy]; [done|]. cbn [insert_by]. change (collapse (y :: l)) with (glue y (collapse l)). unfold row_less at 1.
  destruct (Z.ltb_spec (fst r) (fst y)) as [Hlt|Hge].
  - change (collapse (r :: y :: l)) with (glue r (glue y (collapse l))). destruct (glue_head y (collapse l)) as (c & l' & ->). cbn [glue fst].
    rewrite decide_False by lia. rewrite (merge_new ascending) by (unfold ascending; cbn; lia). by rewrite merge_nil_l.
  - change (collapse (y :: insert_by row_less r l)) with (glue y (collapse (insert_by row_less r l))). rewrite IH.
    destruct l as [|q0 l0].
    { cbn [collapse foldr]. rewrite merge_nil_r. cbn [glue]. destruct (decide (fst r = fst y)) as [E|E].
      - by rewrite (merge_both ascending).
      - by rewrite (merge_old ascending), merge_nil_r by (unfold ascending; lia). }
    assert (Hq0 : fst y <= fst q0) by (apply Forall_inv in Hy; unfold row_less in Hy; lia).
    change (collapse (q0 :: l0)) with (glue q0 (collapse l0)). destruct (glue_head q0 (collapse l0)) as (c & C' & ->). set (q := (fst q0, c)). assert (Hq : fst q = fst q0) by done.
    clearbody q. cbn [glue]. destruct (decide (fst q = fst y)) as [E|E].
    + destruct (decide (fst r = fst y)) as [E2|E2].
      * rewrite !(merge_both ascending) by (cbn; congruence). cbn [glue fst merge_row]. rewrite decide_True by done. fold (merge_row r q). by rewrite <- merge_row_assoc.
      * rewrite !(merge_old ascending) by (cbn; unfold ascending; lia). cbn [glue]. by rewrite decide_True.
    + destruct (decide (fst r = fst y)) as [E2|E2].
      * rewrite (merge_new ascending) by (unfold ascending; lia). rewrite (merge_both ascending) by done. cbn [glue]. rewrite decide_True by done. by rewrite !merge_nil_l.
      * rewrite (merge_old ascending r [] y) by (unfold ascending; lia). destruct (Z.lt_trichotomy (fst r) (fst q)) as [H1|[H1|H1]].
        -- rewrite (merge_new ascending) by (unfold ascending; lia). cbn [glue]. by rewrite decide_False.
        -- rewrite (merge_both ascending) by done. cbn [glue fst merge_row]. by rewrite decide_False.
        -- rewrite (merge_old ascending) by (unfold ascending; lia). cbn [glue]. by rewrite decide_False.
Qed.

Lemma insertion_snoc {A} (less : A → A → bool) l x : insertion_sort less (l ++ [x]) = insert_by less x (insertion_sort less l).
Proof. unfold insertion_sort. by rewrite foldl_app. Qed.

Lemma insertion_in_order {A} (less : A → A → bool) `{!StrictWeak less} l : in_order less (insertion_sort less l).
Proof. by apply (insertion_sort_spec less l []); [|constructor]. Qed.

Lemma collapse_Stable rows : collapse (Stable row_less rows) = write_rows rows.
Proof.
  unfold Stable. induction rows as [|r rows IH] using rev_ind; [done|]. rewrite insertion_snoc, collapse_insert by apply (insertion_in_order _). rewrite IH. unfold write_rows.
  by rewrite foldl_app.
Qed.

(** *** From left to right *)

Definition push (acc : list row) (r : row) : list row :=
  match last acc with
  | Some q => if decide (fst q = fst r) then body acc ++ [merge_row r q] else acc ++ [r]
  | None => [r]
  end.

Lemma push_snoc acc q r : push (acc ++ [q]) r = if decide (fst q = fst r) then acc ++ [merge_row r q] else acc ++ [q; r].
Proof. unfold push. rewrite last_snoc, body_snoc. case_decide; [done|]. by rewrite <- app_assoc. Qed.

Lemma glue_glue q r l : fst r = fst q → glue (merge_row r q) l = glue q (glue r l).
Proof.
  intros E. destruct l as [|h l]; cbn [glue]; [by rewrite decide_True|]. cbn [fst merge_row]. destruct (decide (fst h = fst r)) as [E2|E2]; cbn [glue fst merge_row].
  - rewrite decide_True by congruence. fold (merge_row r q). by rewrite <- merge_row_assoc.
  - by rewrite decide_True.
Qed.

Lemma foldl_push acc q l : foldl push (acc ++ [q]) l = acc ++ collapse (q :: l).
Proof.
  revert acc q. induction l as [|r l IH]; intros acc q; [done|]. cbn [foldl]. rewrite push_snoc. change (collapse (q :: r :: l)) with (glue q (glue r (collapse l))). case_decide as E.
  - rewrite IH. change (collapse (merge_row r q :: l)) with (glue (merge_row r q) (collapse l)). by rewrite glue_glue.
  - change (acc ++ [q; r]) with (acc ++ [q] ++ [r]). rewrite app_assoc, IH, <- app_assoc. change (collapse (r :: l)) with (glue r (collapse l)). destruct (glue_head r (collapse l)) as (c & l' & ->).
    cbn [glue fst]. by rewrite decide_False.
Qed.

Lemma foldl_push_collapse l : foldl push [] l = collapse l.
Proof. destruct l as [|r l]; [done|]. apply (foldl_push [] r l). Qed.

Lemma push_last l r : fst <$> last (foldl push [] (l ++ [r])) = Some (fst r).
Proof.
  rewrite foldl_app. cbn [foldl]. destruct (foldl push [] l) as [|a acc] eqn:E using rev_ind; [done|]. clear. rewrite push_snoc.
  case_decide; [by rewrite last_snoc|]. change (acc ++ [a; r]) with (acc ++ [a] ++ [r]). by rewrite app_assoc, last_snoc.
Qed.
