(* ===== verification/SortRefine.v ===== *)
(** * lib/record: sorting a record merges its rows

    The sections the sort finds tile the sorted rows, and rebuilding a column section by
    section, replacing the last value where a time repeats, collapses the sorted rows. *)

From stdpp Require Import gmap.
From S2P Require Import Prelude GoSlice GoSort Bitmap ColVal ColRefine ColStrings Column TimeSearch Record RecordSchema RecordTable MergeSpec RecordSort SortColumns.

(** ** Rows with their numbers *)

Abbreviation tagged := (nat * row)%type.
Definition tag_time (a : tagged) : Z := fst (snd a).
Definition tag_id (a : tagged) : Z := Z.of_nat (fst a).
Definition tag_less (a b : tagged) : bool := row_less (snd a) (snd b).

Lemma insert_by_fmap {A B} (f : A → B) (la : A → A → bool) (lb : B → B → bool) x l :
  (∀ a b, lb (f a) (f b) = la a b) → insert_by lb (f x) (f <$> l) = f <$> insert_by la x l.
Proof. intros Hf. induction l as [|y l IH]; [done|]. cbn. rewrite Hf. case_match; [done|]. cbn. by rewrite IH. Qed.

Lemma Stable_fmap {A B} (f : A → B) (la : A → A → bool) (lb : B → B → bool) l :
  (∀ a b, lb (f a) (f b) = la a b) → Stable lb (f <$> l) = f <$> Stable la l.
Proof.
  intros Hf. unfold Stable. induction l as [|x l IH] using rev_ind; [done|]. rewrite fmap_app. cbn. by rewrite !insertion_snoc, IH, (insert_by_fmap f la).
Qed.

Section Sorted.
Context (rows : list row).

Definition tags : list tagged := zip (seq 0 (length rows)) rows.
Definition srt : list tagged := Stable tag_less tags.

Lemma tags_snd : snd <$> tags = rows.
Proof. apply snd_zip. by rewrite length_seq. Qed.
Lemma tags_elem i r : (i, r) ∈ tags → rows !! i = Some r.
Proof.
  intros (k & Hk)%list_elem_of_lookup_1. unfold tags in Hk. apply lookup_zip_with_Some in Hk as (x & y & [= -> ->] & Hx & Hy). apply lookup_seq in Hx as [-> _]. done.
Qed.

Lemma srt_perm : srt ≡ₚ tags.
Proof. unfold srt, Stable. destruct (insertion_sort_spec tag_less tags []) as [Hp _]. by rewrite app_nil_r in Hp. Qed.
Lemma srt_length : length srt = length rows.
Proof. rewrite srt_perm. unfold tags. rewrite length_zip_with, length_seq. lia. Qed.
Lemma srt_row k i r : srt !! k = Some (i, r) → rows !! i = Some r.
Proof. intros Hk. apply tags_elem. rewrite <- srt_perm. by eapply list_elem_of_lookup_2. Qed.
Lemma srt_snd : snd <$> srt = Stable row_less rows.
Proof. unfold srt. rewrite <- (Stable_fmap snd tag_less row_less) by done. by rewrite tags_snd. Qed.
Lemma srt_ids : fst <$> srt ≡ₚ seq 0 (length rows).
Proof. rewrite srt_perm. unfold tags. rewrite fst_zip by (by rewrite length_seq). done. Qed.

(** ** Sections *)

(** Adjacent rows that stay adjacent and differ in time. *)
Definition joined (k : nat) : Prop :=
  ∀ a b, srt !! k = Some a → srt !! S k = Some b → fst b = S (fst a) ∧ fst (snd a) ≠ fst (snd b).
Definition section_ok (sec : nat * nat) : Prop := (fst sec ≤ snd sec < length srt)%nat ∧ ∀ k, (fst sec ≤ k < snd sec)%nat → joined k.
Inductive tiles : nat → list (nat * nat) → Prop :=
  | tiles_end : tiles (length srt) []
  | tiles_cons s e secs : section_ok (s, e) → tiles (S e) secs → tiles s ((s, e) :: secs).

Hypothesis Hsmall : Z.of_nat (length rows) < 2 ^ 31.

Lemma id_small k a : srt !! k = Some a → Z.of_nat (fst a) < 2 ^ 31.
Proof.
  intros Hk. destruct a as [i r]. apply srt_row in Hk. apply lookup_lt_Some in Hk. cbn. lia.
Qed.

Lemma section_loop_tiles i start acc :
  (start ≤ i < length srt)%nat → (∀ k, (start ≤ k < i)%nat → joined k) →
  ∃ secs, section_loop (tag_time <$> drop i srt) (tag_id <$> drop i srt) start i acc = acc ++ secs ∧ tiles start secs.
Proof.
  remember (length srt - i)%nat as m eqn:Em. revert i start acc Em. induction m as [|m IH]; intros i start acc Em Hi Hj; [lia|].
  destruct (lookup_lt_is_Some_2 srt i) as [a Ha]; [lia|]. rewrite (drop_S _ a i Ha). destruct (drop (S i) srt) as [|b l] eqn:Ed.
  - cbn [fmap list_fmap section_loop]. exists [(start, i)]. split; [done|]. assert (S i = length srt) as Hs by (apply (f_equal length) in Ed; rewrite length_drop in Ed; cbn in Ed; lia).
    constructor; [split; cbn; [lia|done]|]. rewrite Hs. constructor.
  - assert (Hb : srt !! S i = Some b) by (by rewrite <- (Nat.add_0_r (S i)), <- lookup_drop, Ed). assert (Hlt : (S i < length srt)%nat) by (by eapply lookup_lt_Some).
    pose proof (id_small i a Ha). pose proof (id_small (S i) b Hb).
    assert (Hstep : ∀ (t t' r r' : Z) ts rs, section_loop (t :: t' :: ts) (r :: r' :: rs) start i acc =
      if negb (i32 (r' - r) =? 1) || (t =? t') then section_loop (t' :: ts) (r' :: rs) (S i) (S i) (acc ++ [(start, i)]) else section_loop (t' :: ts) (r' :: rs) start (S i) acc) by done.
    rewrite !fmap_cons, Hstep, <- !fmap_cons, <- Ed. clear Hstep. unfold tag_time at 1 2, tag_id at 1 2. rewrite wrap_s_id by (unfold in_s; lia).
    destruct (negb (Z.of_nat (fst b) - Z.of_nat (fst a) =? 1) || (fst (snd a) =? fst (snd b))) eqn:Ec.
    + destruct (IH (S i) (S i) (acc ++ [(start, i)])) as (secs & -> & Ht); [lia|lia|intros k Hk; lia|]. exists ((start, i) :: secs). split; [by rewrite <- app_assoc|].
      constructor; [split; [cbn; lia|done]|done].
    + apply orb_false_iff in Ec as [E1 E2]. rewrite negb_false_iff, Z.eqb_eq in E1. rewrite Z.eqb_neq in E2. apply IH; [lia|lia|]. intros k Hk.
      destruct (decide (k = i)) as [->|]; [|apply Hj; lia]. intros a' b' Ha' Hb'. assert (a' = a ∧ b' = b) as [-> ->] by (split; congruence). split; [lia|done].
Qed.

(** The rows of a section. *)
Lemma section_rows s e i r :
  section_ok (s, e) → srt !! s = Some (i, r) → ∀ k, (s ≤ k ≤ e)%nat → ∃ q, srt !! k = Some ((i + (k - s))%nat, q) ∧ rows !! (i + (k - s))%nat = Some q.
Proof.
  intros [Hse Hj] Hs k. cbn [fst snd] in *. induction k as [|k IH]; intros Hk.
  - replace s with 0%nat in * by lia. exists r. rewrite Nat.sub_diag, Nat.add_0_r. split; [done|]. by eapply srt_row.
  - destruct (decide (s = S k)) as [->|Hne]; [exists r; rewrite Nat.sub_diag, Nat.add_0_r; split; [done|by eapply srt_row]|].
    destruct IH as (q & Hq & _); [lia|]. destruct (lookup_lt_is_Some_2 srt (S k)) as [[j p] Hp]; [lia|]. destruct (Hj k ltac:(lia) _ _ Hq Hp) as [Hid _]. cbn in Hid. subst j.
    exists p. replace (S k - s)%nat with (S (k - s)) by lia. rewrite Nat.add_succ_r. split; [done|]. by eapply srt_row.
Qed.

Lemma section_slice s e i r :
  section_ok (s, e) → srt !! s = Some (i, r) → snd <$> slice_rows srt s (S e) = slice_rows rows i (i + (S e - s)).
Proof.
  intros Hok Hs. assert (Hse := proj1 Hok). cbn [fst snd] in Hse. apply list_eq. intros k. rewrite list_lookup_fmap. unfold slice_rows. replace (i + (S e - s) - i)%nat with (S e - s)%nat by lia.
  destruct (decide (k < S e - s)%nat) as [Hk|Hk].
  - rewrite !lookup_take_lt by done. rewrite !lookup_drop. destruct (section_rows s e i r Hok Hs (s + k)) as (q & Hq & Hr); [lia|]. rewrite Hq. cbn.
    replace (s + k - s)%nat with k in Hr by lia. by rewrite Hr.
  - rewrite !lookup_take_ge by lia. done.
Qed.

Lemma section_bound s e i r : section_ok (s, e) → srt !! s = Some (i, r) → (i + (S e - s) ≤ length rows)%nat.
Proof.
  intros Hok Hs. assert (Hse := proj1 Hok). cbn [fst snd] in Hse. destruct (section_rows s e i r Hok Hs e) as (q & _ & Hq); [lia|]. apply lookup_lt_Some in Hq. lia.
Qed.

(** Pushing rows whose times differ from the one before. *)
Lemma push_distinct l acc :
  (∀ r, head l = Some r → fst <$> last acc ≠ Some (fst r)) → (∀ k a b, l !! k = Some a → l !! S k = Some b → fst a ≠ fst b) → foldl push acc l = acc ++ l.
Proof.
  revert acc. induction l as [|r l IH]; intros acc Hh Hd; [by rewrite app_nil_r|]. cbn [foldl]. assert (Hp : push acc r = acc ++ [r]).
  { unfold push. destruct (last acc) as [q|] eqn:E; [|by apply last_None in E as ->]. rewrite decide_False; [done|]. intros Heq. specialize (Hh r eq_refl). cbn in Hh. congruence. }
  rewrite Hp, IH, <- app_assoc; [done| |].
  - intros r' Hr'. rewrite last_snoc. cbn. intros [= E]. destruct l as [|x l]; [done|]. injection Hr' as ->. by apply (Hd 0%nat r r').
  - intros k a b Ha Hb. by apply (Hd (S k) a b).
Qed.

Definition done_rows (s : nat) : list row := foldl push [] (snd <$> take s srt).

Lemma done_rows_last s a : srt !! s = Some a → fst <$> last (done_rows (S s)) = Some (fst (snd a)).
Proof. intros Ha. unfold done_rows. rewrite (take_S_r _ _ _ Ha), fmap_app. apply push_last. Qed.

Lemma section_distinct s e : section_ok (s, e) → ∀ k a b, (snd <$> slice_rows srt s (S e)) !! k = Some a → (snd <$> slice_rows srt s (S e)) !! S k = Some b → fst a ≠ fst b.
Proof.
  intros [Hse Hj] k a b Ha Hb. cbn [fst snd] in *. rewrite list_lookup_fmap in Ha, Hb. unfold slice_rows in *.
  destruct (take _ (drop s srt) !! k) as [x|] eqn:Ex; [|done]. destruct (take _ (drop s srt) !! S k) as [y|] eqn:Ey; [|done]. injection Ha as <-. injection Hb as <-.
  apply lookup_take_Some in Ex as [Ex _]. apply lookup_take_Some in Ey as [Ey Hk]. rewrite lookup_drop in Ex, Ey. replace (s + S k)%nat with (S (s + k)) in Ey by lia.
  by apply (Hj (s + k)%nat ltac:(lia) x y).
Qed.

Lemma done_rows_section s e :
  section_ok (s, e) → done_rows (S e) = foldl push (done_rows s) (snd <$> slice_rows srt s (S e)).
Proof.
  intros [Hse _]. cbn in Hse. unfold done_rows, slice_rows. rewrite <- foldl_app, <- fmap_app. do 2 f_equal. rewrite <- (take_drop s (take (S e) srt)).
  rewrite take_take, skipn_firstn_comm. f_equal. f_equal. lia.
Qed.
End Sorted.

(** ** Sizes *)

Definition tlen (cs : list (option cell)) : nat := length (text cs).
Lemma tlen_app a b : tlen (a ++ b) = (tlen a + tlen b)%nat.
Proof. unfold tlen. by rewrite text_app, length_app. Qed.
Lemma tlen_cons x a : tlen (x :: a) = (tlen [x] + tlen a)%nat.
Proof. apply (tlen_app [x]). Qed.
Lemma tlen_perm a b : a ≡ₚ b → tlen a = tlen b.
Proof.
  induction 1 as [|x a b _ IH|x y a|a b c _ IH1 _ IH2]; [done| | |congruence].
  - rewrite (tlen_cons x a), (tlen_cons x b). lia.
  - rewrite (tlen_cons y (x :: a)), (tlen_cons x a), (tlen_cons x (y :: a)), (tlen_cons y a). lia.
Qed.
Lemma tlen_push nm acc r : (tlen (col_of nm (push acc r)) ≤ tlen (col_of nm acc) + tlen (col_of nm [r]))%nat.
Proof.
  destruct acc as [|q acc _] using rev_ind; [done|]. rewrite push_snoc. change ([q; r]) with ([q] ++ [r]). case_decide; rewrite !col_of_app, !tlen_app; [|lia].
  cbn. rewrite lookup_union. destruct (snd r !! nm), (snd q !! nm); cbn; rewrite ?app_nil_r; lia.
Qed.
Lemma tlen_foldl_push nm acc l : (tlen (col_of nm (foldl push acc l)) ≤ tlen (col_of nm acc) + tlen (col_of nm l))%nat.
Proof.
  revert acc. induction l as [|r l IH]; intros acc; cbn [foldl]; [lia|]. specialize (IH (push acc r)). pose proof (tlen_push nm acc r).
  change (r :: l) with ([r] ++ l). rewrite col_of_app, tlen_app. lia.
Qed.

Lemma done_rows_fits rows s nm : fits (col_of nm rows) → fits (col_of nm (done_rows rows s)).
Proof.
  unfold fits. fold (tlen (col_of nm rows)) (tlen (col_of nm (done_rows rows s))). intros Hf. unfold done_rows. pose proof (tlen_foldl_push nm [] (snd <$> take s (srt rows))) as Hle.
  assert (Hp : tlen (col_of nm rows) = (tlen (col_of nm (snd <$> take s (srt rows))) + tlen (col_of nm (snd <$> drop s (srt rows))))%nat).
  { rewrite <- tlen_app, <- col_of_app, <- fmap_app, take_drop. apply tlen_perm. unfold col_of. apply fmap_Permutation. rewrite (srt_perm rows). by rewrite tags_snd. }
  cbn in Hle. lia.
Qed.

(** ** One column *)

Section Column.
Context `{GoRuntime} (rows : list row) (ft : FieldType) (nm : string) (col : ColVal) (aux : SortAux) (nc : NilCounts).
#[local] Abbreviation srt := (srt rows).
#[local] Abbreviation cells_at s := (col_of nm (done_rows rows s)).

Hypothesis Hsmall : Z.of_nat (length rows) < 2 ^ 31.
Hypothesis Hcol : col_rep ft col (col_of nm rows).
Hypothesis Hnc : nc_ok nc (validity (col_of nm rows)).
Hypothesis Htimes : ATimes aux = tag_time <$> srt.
Hypothesis Hids : RowIds aux = tag_id <$> srt.

Lemma col_fits : ft = Field_Type_String → fits (col_of nm rows).
Proof. intros ->. apply (sr_fits _ _ Hcol). Qed.

Lemma RowIndex_spec s e i r :
  section_ok rows (s, e) → srt !! s = Some (i, r) → RowIndex aux (s, e) = Ok (s, i, (i + (S e - s))%nat).
Proof.
  intros Hok Hs. assert (Hse := proj1 Hok). cbn [fst snd] in Hse. destruct (section_rows rows s e i r Hok Hs e) as (q & Hq & Hr); [lia|]. apply lookup_lt_Some in Hr.
  unfold RowIndex, index. cbn [fst snd]. rewrite Hids, !list_lookup_fmap, Hs, Hq. cbn [fmap option_fmap option_map res_bind tag_id fst].
  unfold tag_id. cbn [fst]. rewrite wrap_s_id by (unfold in_s; lia). rewrite !(proj2 (Z.ltb_ge _ _)) by lia. cbn [orb]. do 2 f_equal; [f_equal|]; lia.
Qed.

Lemma replace_spec s i r dst :
  srt !! s = Some (i, r) → fst <$> last (done_rows rows s) = Some (fst r) → col_rep ft dst (cells_at s) → BitMapOffset dst = 0%nat →
  ∃ dst', replace col dst ft i nc = Ok dst' ∧ col_rep ft dst' (cells_at (S s)) ∧ BitMapOffset dst' = 0%nat.
Proof.
  intros Hs Hlast Hrep Hoff. pose proof (srt_row rows s i r Hs) as Hr. assert (Hd : done_rows rows (S s) = push (done_rows rows s) r).
  { unfold done_rows. by rewrite (take_S_r _ _ _ Hs), fmap_app, foldl_app. }
  destruct (done_rows rows s) as [|q acc _] eqn:E using rev_ind; [done|]. rewrite last_snoc in Hlast. injection Hlast as Hq. rewrite push_snoc, decide_True in Hd by done.
  assert (Hcell : col_of nm rows !! i = Some (snd r !! nm)) by (by apply col_of_lookup).
  assert (Hfit : ft = Field_Type_String → fits (cells_at (S s))) by (intros Hft; by apply done_rows_fits, col_fits). rewrite Hd in Hfit |- *. rewrite !col_of_app in Hrep, Hfit |- *.
  cbn [col_of fmap list_fmap merge_row snd] in Hrep, Hfit |- *. rewrite lookup_union in Hfit |- *. unfold replace. rewrite (col_nil ft col (col_of nm rows) i _ Hcol Hcell). rs.
  destruct (snd r !! nm) as [v|] eqn:Ev; cbn [present negb].
  - destruct (deleteLast_spec ft dst _ _ Hrep Hoff) as (d1 & -> & Hrep1 & Hoff1). rs.
    assert (Hone : take (i + 1 - i) (drop i (col_of nm rows)) = [Some v]) by (replace (i + 1)%nat with (S i) by lia; by apply slice_rows_one).
    pose proof (lookup_lt_Some _ _ _ Hcell) as Hlt.
    destruct (AppendWithNilCount_spec ft d1 _ col (col_of nm rows) i (i + 1) nc Hrep1 Hcol Hnc) as (d2 & -> & Hrep2 & Hoff2); [lia|intros Hft; rewrite Hone; specialize (Hfit Hft); by destruct (snd q !! nm)|]. rewrite Hone in Hrep2.
    exists d2. split; [done|]. split; [by destruct (snd q !! nm)|].
    destruct (decide (length (col_of nm rows) = 1)%nat) as [H1|H1]; [|rewrite Hoff2; [done|lia]].
    exfalso. assert (length srt = 1%nat) as Hl1 by (rewrite srt_length, <- (length_col_of nm); done). apply lookup_lt_Some in Hs. replace s with 0%nat in E by lia. by destruct acc.
  - exists dst. split; [done|]. split; [by destruct (snd q !! nm)|done].
Qed.

Lemma sort_sections_spec secs s dst :
  tiles rows s secs → col_rep ft dst (cells_at s) → BitMapOffset dst = 0%nat →
  ∃ dst', sort_sections col aux ft nc secs dst = Ok dst' ∧ col_rep ft dst' (cells_at (length srt)).
Proof.
  intros Ht. revert dst. induction Ht as [|s e secs Hok Ht IH]; intros dst Hrep Hoff; [by exists dst|]. assert (Hse := proj1 Hok). cbn [fst snd] in Hse. cbn [sort_sections].
  destruct (lookup_lt_is_Some_2 srt s) as [[i r] Hs]; [lia|]. rewrite (RowIndex_spec s e i r Hok Hs). rs. pose proof (section_bound rows s e i r Hok Hs) as Hbd.
  assert (Hfit : ft = Field_Type_String → fits (cells_at (S e))) by (intros Hft; by apply done_rows_fits, col_fits).
  pose proof (done_rows_section rows s e Hok) as Hsec. pose proof (section_slice rows s e i r Hok Hs) as Hsl. rewrite Hsl in Hsec.
  assert (Hdist := section_distinct rows s e Hok). rewrite Hsl in Hdist.
  set (same := (0 <? s)%nat && bool_decide (fst <$> last (done_rows rows s) = Some (fst r))).
  assert (Hsame : (if (0 <? s)%nat then let! t := index (ATimes aux) s in let! t' := index (ATimes aux) (s - 1) in Ok (t =? t') else Ok false) = Ok same).
  { unfold same. destruct (Nat.ltb_spec 0 s) as [H0|H0]; [|done]. destruct (lookup_lt_is_Some_2 srt (s - 1)) as [a Ha]; [lia|]. unfold index. rewrite Htimes, !list_lookup_fmap, Hs, Ha.
    cbn [fmap option_fmap option_map res_bind andb]. f_equal. pose proof (done_rows_last rows (s - 1) a Ha) as Hl. replace (S (s - 1)) with s in Hl by lia. rewrite Hl.
    unfold tag_time. cbn [snd]. destruct (Z.eqb_spec (fst r) (fst (snd a))) as [Heq|Hne]; [rewrite bool_decide_true by congruence; done|rewrite bool_decide_false by congruence; done]. }
  rewrite Hsame. rs. clear Hsame. destruct (slice_rows rows i (i + (S e - s))) as [|r0 rest] eqn:Er.
  { apply (f_equal length) in Er. rewrite length_slice_rows in Er by lia. cbn in Er. lia. }
  assert (r0 = r) as ->.
  { pose proof (srt_row rows s i r Hs) as Hr. apply (f_equal (λ l, l !! 0%nat)) in Er. unfold slice_rows in Er. rewrite lookup_take_lt, lookup_drop, Nat.add_0_r, Hr in Er by lia. by injection Er. }
  assert (Hrest : rest = slice_rows rows (S i) (i + (S e - s))).
  { pose proof (srt_row rows s i r Hs) as Hr. unfold slice_rows in *. rewrite (drop_S _ _ _ Hr) in Er. replace (i + (S e - s) - i)%nat with (S (i + (S e - s) - S i)) in Er by lia. cbn in Er. by injection Er. }
  assert (Hnext : ∀ d, col_rep ft d (cells_at (S e)) → (secs ≠ [] → BitMapOffset d = 0%nat) → ∃ dst', sort_sections col aux ft nc secs d = Ok dst' ∧ col_rep ft dst' (cells_at (length srt))).
  { intros d Hd Hal. destruct secs as [|sec secs]; [|by apply IH, Hal]. exists d. split; [done|]. replace (length srt) with (S e) by (by inversion Ht). done. }
  assert (Hpart : secs ≠ [] → (S e - s < length rows)%nat).
  { rewrite <- (srt_length rows). inversion Ht; subst; [done|]. intros _. match goal with H : section_ok _ (S e, _) |- _ => destruct H as [? _] end. cbn in *. lia. }
  destruct same eqn:Esame; unfold same in Esame.
  - apply andb_true_iff in Esame as [H0 Hl]. apply bool_decide_eq_true in Hl. apply Nat.ltb_lt in H0. destruct (replace_spec s i r dst Hs Hl Hrep Hoff) as (d1 & -> & Hrep1 & Hoff1). rs.
    assert (Hd1 : done_rows rows (S e) = done_rows rows (S s) ++ rest).
    { rewrite Hsec. cbn [foldl]. assert (Hp : push (done_rows rows s) r = done_rows rows (S s)) by (unfold done_rows; by rewrite (take_S_r _ _ _ Hs), fmap_app, foldl_app).
      rewrite Hp. apply push_distinct.
      - intros r' Hr'. rewrite (done_rows_last rows s _ Hs). cbn. intros [= Heq]. destruct rest as [|x rest]; [done|]. injection Hr' as ->. by apply (Hdist 0%nat r r').
      - intros k a b Ha Hb. by apply (Hdist (S k) a b). }
    destruct (Nat.leb_spec (i + (S e - s)) (i + 1)) as [Hle|Hgt].
    + rs. apply Hnext; [|done]. assert (rest = []) as -> by (rewrite Hrest; unfold slice_rows; by replace (i + (S e - s) - S i)%nat with 0%nat by lia). by rewrite Hd1, app_nil_r.
    + rewrite Hd1, col_of_app in Hfit. assert (Hcr : col_of nm rest = take (i + (S e - s) - (i + 1)) (drop (i + 1) (col_of nm rows))).
      { rewrite Hrest, col_of_slice. by replace (i + 1)%nat with (S i) by lia. }
      destruct (AppendWithNilCount_spec ft d1 _ col (col_of nm rows) (i + 1) (i + (S e - s)) nc Hrep1 Hcol Hnc) as (d2 & -> & Hrep2 & Hoff2); [rewrite length_col_of; lia|by rewrite <- Hcr|]. rs.
      apply Hnext; [by rewrite Hd1, col_of_app, Hcr|]. intros _. rewrite Hoff2; [done|]. rewrite length_col_of. lia.
  - rs. assert (Hd1 : done_rows rows (S e) = done_rows rows s ++ slice_rows rows i (i + (S e - s))).
    { rewrite Hsec, Er. apply push_distinct; [|done]. intros r' [= <-]. apply andb_false_iff in Esame as [E|E]; [|by apply bool_decide_eq_false in E].
      apply Nat.ltb_ge in E. replace s with 0%nat by lia. done. }
    rewrite (proj2 (Nat.leb_gt _ _)) by lia. rewrite Hd1, col_of_app, col_of_slice in Hfit.
    destruct (AppendWithNilCount_spec ft dst _ col (col_of nm rows) i (i + (S e - s)) nc Hrep Hcol Hnc) as (d2 & -> & Hrep2 & Hoff2); [rewrite length_col_of; lia|done|]. rs.
    apply Hnext; [by rewrite Hd1, col_of_app, col_of_slice|]. intros Hne. specialize (Hpart Hne). rewrite Hoff2; [done|]. rewrite length_col_of. lia.
Qed.
End Column.
