(* ===== verification/SortProps.v ===== *)
(** * lib/record: the sort of a record

    [Sort_spec]: sorting a record that holds rows in any order gives the table of these rows
    merged in the order they were written; the helper can be used again. *)

From stdpp Require Import gmap.
From S2P Require Import Prelude GoSlice GoSort Bitmap ColVal ColRefine ColStrings Column TimeSearch Record RecordSchema RecordTable MergeSpec MergeRecords RecordSort SortColumns SortRefine.

(** ** Spare records *)

Definition cols_ok (cols : list ColVal) : Prop := Forall (λ c, slice_ok (Bitmap c)) cols.
Definition rec_ok (rec : Record_) : Prop := MetaTimes rec = None ∧ cols_ok (ColVals rec ++ ColSpare rec).
Definition helper_ok (h : ColumnSortHelper) : Prop := match SortRec (h_aux h) with None => True | Some r => rec_ok r end.

Lemma empty_col_ok : slice_ok (Bitmap empty_col).
Proof. constructor. Qed.

Lemma Init_blank cv : slice_ok (Bitmap cv) → ∃ cv', Init cv = Ok cv' ∧ blank cv'.
Proof.
  intros Hok. unfold Init. rewrite !reslice_to_Ok by lia. rs. eexists. split; [done|]. unfold blank. cbn. repeat split; try done. 
Qed.

Lemma init_cols_blank cols : cols_ok cols → ∃ cols', init_cols cols = Ok cols' ∧ Forall blank cols' ∧ length cols' = length cols.
Proof.
  induction 1 as [|c cols Hc _ (cols' & E & Hb & Hl)]; [by exists []|]. cbn [init_cols]. destruct (Init_blank c Hc) as (c' & -> & Hb'). rs. rewrite E. rs.
  exists (c' :: cols'). split; [done|]. split; [by constructor|]. cbn. lia.
Qed.

Definition fresh (out : Record_) (schema : list Field) : Prop :=
  Schema out = schema ∧ Forall blank (ColVals out) ∧ length (ColVals out) = length schema ∧ MetaTimes out = None ∧ cols_ok (ColSpare out).

Lemma NewRecordBuilder_fresh schema : fresh (NewRecordBuilder schema) schema.
Proof.
  split; [done|]. cbn. split; [apply Forall_replicate, blank_empty|]. split; [apply length_replicate|]. split; [done|constructor].
Qed.

Lemma ResetWithSchema_fresh rec schema : rec_ok rec → ∃ out, ResetWithSchema rec schema = Ok out ∧ fresh out schema.
Proof.
  intros [Hm Hc]. unfold ResetWithSchema, ReserveColVal, Reset. cbn [ColVals ColSpare Schema MetaTimes length app]. set (all := (ColVals rec ++ ColSpare rec)%list) in *.
  rewrite (proj2 (Z.ltb_ge _ _)) by lia. replace (Z.to_nat (Z.of_nat 0 + Z.of_nat (length schema))) with (length schema) by lia. rewrite drop_0.
  set (k := Z.to_nat _). assert (Hall : cols_ok (all ++ replicate k empty_col)) by (apply Forall_app; split; [done|]; apply Forall_replicate, empty_col_ok).
  destruct (init_cols_blank (take (length schema) (all ++ replicate k empty_col))) as (cols & -> & Hb & Hl); [by apply Forall_take|]. rs. eexists. split; [done|].
  split; [done|]. cbn [ColVals ColSpare MetaTimes]. rewrite take_nil. cbn [app]. split; [done|]. split; [|split; [done|by apply Forall_drop]].
  rewrite Hl, length_take, length_app, length_replicate. unfold k. lia.
Qed.

Lemma aux_InitRecord_fresh h schema :
  helper_ok h → ∃ out, aux_InitRecord (h_aux h) schema = Ok (mk_aux (RowIds (h_aux h)) (ATimes (h_aux h)) (sections (h_aux h)) (Some out)) ∧ fresh out schema.
Proof.
  unfold helper_ok, aux_InitRecord. destruct (SortRec (h_aux h)) as [r|]; intros Hh.
  - destruct (ResetWithSchema_fresh r schema Hh) as (out & -> & Hf). rs. by exists out.
  - rs. eexists. split; [done|]. apply NewRecordBuilder_fresh.
Qed.

(** ** The sorted row numbers *)

Lemma tags_pairs rows :
  Z.of_nat (length rows) < 2 ^ 31 →
  zip (fst <$> rows) ((λ i, i32 (Z.of_nat i)) <$> seq 0 (length (fst <$> rows))) = (λ a, (tag_time a, tag_id a)) <$> tags rows.
Proof.
  intros Hs. rewrite length_fmap. apply list_eq. intros k. unfold tags. rewrite list_lookup_fmap. destruct (rows !! k) as [r|] eqn:Er.
  - pose proof (lookup_lt_Some _ _ _ Er). rewrite (lookup_zip_with _ _ _ k), (lookup_zip_with _ (seq 0 _)). rewrite !list_lookup_fmap, Er, lookup_seq_lt by done. cbn.
    rewrite wrap_s_id by (unfold in_s; lia). done.
  - apply lookup_ge_None in Er. rewrite !lookup_ge_None_2; [done|..]; rewrite ?length_fmap, length_zip_with, ?length_fmap, length_seq; lia.
Qed.

Lemma aux_sorted rows aux :
  Z.of_nat (length rows) < 2 ^ 31 →
  aux_Stable (aux_Init aux (fst <$> rows)) = mk_aux (tag_id <$> srt rows) (tag_time <$> srt rows) (sections aux) (SortRec aux).
Proof.
  intros Hs. unfold aux_Stable, aux_Init. cbn [ATimes RowIds sections SortRec]. rewrite tags_pairs by done. rewrite (Stable_fmap _ tag_less time_less) by done.
  rewrite <- !list_fmap_compose. done.
Qed.

(** ** Times *)

Fixpoint distinct_after (prev : Z) (ts : list Z) : list Z :=
  match ts with [] => [] | t :: ts => if negb (t =? prev) then t :: distinct_after t ts else distinct_after t ts end.

Lemma times_push acc q l : fst <$> foldl push (acc ++ [q]) l = (fst <$> acc) ++ fst q :: distinct_after (fst q) (fst <$> l).
Proof.
  revert acc q. induction l as [|r l IH]; intros acc q; [cbn [foldl]; by rewrite fmap_app|]. cbn [foldl fmap list_fmap distinct_after]. rewrite push_snoc. destruct (decide (fst q = fst r)) as [E|E].
  - rewrite IH. cbn [fst merge_row]. rewrite E, Z.eqb_refl. done.
  - change [q; r] with ([q] ++ [r]). rewrite app_assoc, IH, fmap_app, <- app_assoc. rewrite (proj2 (Z.eqb_neq _ _)) by congruence. done.
Qed.

Lemma append_times_spec `{GoRuntime} tc cs prev ts :
  col_rep Field_Type_Int tc cs → ∃ tc', append_times tc prev ts = Ok tc' ∧ col_rep Field_Type_Int tc' (cs ++ time_cells (distinct_after prev ts)).
Proof.
  revert tc cs prev. induction ts as [|t ts IH]; intros tc cs prev Hrep; cbn [append_times distinct_after]; [exists tc; split; [done|]; by rewrite app_nil_r|].
  destruct (negb (t =? prev)); rs; [|by apply IH]. destruct (append_word_spec Field_Type_Int tc cs t (or_introl eq_refl) Hrep) as (tc' & E & Hrep'). unfold AppendTime. rewrite E. rs.
  destruct (IH tc' _ t Hrep') as (tc'' & E' & Hrep''). exists tc''. split; [done|]. by rewrite <- app_assoc in Hrep''.
Qed.

(** ** All columns *)

Lemma keys_in_write fs rows : keys_in fs rows → keys_in fs (write_rows rows).
Proof.
  intros Hk. assert (Hm : ∀ table r, keys_in fs [r] → keys_in fs table → keys_in fs (write_row table r)).
  { unfold write_row. intros table r Hr Ht. induction table as [|q table IH]; [by rewrite merge_nil_r|].
    assert (Hq : keys_in fs [q]) by (intros x nm c Hx; apply Ht; apply list_elem_of_singleton in Hx as ->; left). assert (Ht' : keys_in fs table) by (intros x nm c Hx; apply Ht; by right).
    destruct (Z.lt_trichotomy (fst q) (fst r)) as [Hlt|[Heq|Hgt]].
    - rewrite (merge_old ascending) by (unfold ascending; lia). apply (keys_in_app fs [q]); auto.
    - rewrite (merge_both ascending), merge_nil_l by done. apply (keys_in_app fs [_]); [|done]. intros x nm c ->%list_elem_of_singleton Hc. cbn in Hc.
      apply lookup_union_Some_raw in Hc as [Hc|[_ Hc]]; [apply (Hr r nm c); [left|done]|apply (Hq q nm c); [left|done]].
    - rewrite (merge_new ascending), merge_nil_l by (unfold ascending; lia). apply (keys_in_app fs [r]); auto. }
  induction rows as [|r rows IH] using rev_ind; [done|]. unfold write_rows. rewrite foldl_app. cbn [foldl]. apply Hm; [|apply IH]; intros x nm c Hx; apply Hk, elem_of_app; auto.
Qed.

Lemma done_rows_all rows : done_rows rows (length (srt rows)) = write_rows rows.
Proof. unfold done_rows. rewrite take_ge by lia. rewrite srt_snd, foldl_push_collapse. apply collapse_Stable. Qed.

Section Sort.
Context `{GoRuntime}.

Lemma sort_columns_spec rows aux nc fs cs dsts tcs tds :
  Z.of_nat (length rows) < 2 ^ 31 → ATimes aux = tag_time <$> srt rows → RowIds aux = tag_id <$> srt rows → tiles rows 0 (sections aux) →
  Forall (λ f, data_type (FType f)) fs → Forall2 (col_ok col_rep rows) fs cs → Forall blank dsts → length dsts = length fs →
  ∃ dsts' nc', sort_columns aux nc fs (cs ++ tcs) (dsts ++ tds) = Ok (dsts' ++ tds, nc') ∧ Forall2 (col_ok col_rep (write_rows rows)) fs dsts'.
Proof.
  intros Hsmall Ht Hi Htl Hty Hcs. revert nc dsts Hty. induction Hcs as [|f c fs cs Hc _ IH]; intros nc dsts Hty Hb Hl.
  { destruct dsts; [|done]. exists [], nc. by destruct tds. }
  destruct dsts as [|d dsts]; [done|]. inversion Hty; subst. inversion Hb; subst. cbn [app sort_columns].
  assert (Hlen : (length (ATimes aux) + 1)%nat = (length (validity (col_of (FName f) rows)) + 1)%nat) by (rewrite Ht, length_fmap, srt_length, length_validity, length_col_of; done). rewrite Hlen.
  destruct (initNilCount_spec nc c (validity (col_of (FName f) rows))) as (nc1 & -> & Hnc); [by eapply col_rep_bits|]. rs.
  destruct (sort_sections_spec rows (FType f) (FName f) c aux nc1 Hsmall Hc Hnc Ht Hi (sections aux) 0 d Htl) as (d' & -> & Hd').
  { change (done_rows rows 0) with (@nil row). by apply (col_blank (R := col_rep)). }
  { match goal with H : blank d |- _ => apply H end. }
  rs. destruct (IH nc1 dsts) as (dsts' & nc' & -> & Hall); [done|done|by injection Hl|]. rs. exists (d' :: dsts'), nc'. split; [done|]. constructor; [|done]. unfold col_ok. by rewrite <- done_rows_all.
Qed.

Lemma col_ok_bitmaps rows fs cs : Forall2 (col_ok col_rep rows) fs cs → cols_ok cs.
Proof. induction 1 as [|f c fs cs Hc _ IH]; constructor; [|done]. by eapply br_bytes, col_rep_bits. Qed.

Lemma rec_rep_ok rec fs tf rows : rec_rep col_rep rec fs tf rows → cols_ok (ColSpare rec) → rec_ok rec.
Proof.
  intros [_ (cs & tc & Hc & Hall & Ht) _ _ _ _ Hm] Hsp. split; [done|]. rewrite Hc. apply Forall_app. split; [|done]. apply Forall_app. split; [by eapply col_ok_bitmaps|].
  constructor; [|constructor]. by eapply br_bytes, col_rep_bits.
Qed.

Lemma rep_Times rec fs tf rows : rec_rep col_rep rec fs tf rows → Forall (in_s 64) (fst <$> rows) → Times rec = fst <$> rows.
Proof. intros [_ (cs & tc & Hc & _ & Ht) _ _ _ _ _] Hin. unfold Times. rewrite Hc, last_snoc. by apply (col_times (R := col_rep)). Qed.
Lemma rep_RowNums rec fs tf rows : rec_rep col_rep rec fs tf rows → RowNums rec = length rows.
Proof.
  intros [_ (cs & tc & Hc & _ & Ht) _ _ _ _ _]. unfold RowNums. rewrite Hc, last_snoc. rewrite (col_len (R := col_rep) _ _ _ Ht). unfold time_cells. by rewrite !length_fmap.
Qed.

Lemma Sort_spec h rec fs tf rows :
  rec_rep col_rep rec fs tf rows → cols_ok (ColSpare rec) → helper_ok h → Forall (in_s 64) (fst <$> rows) → Z.of_nat (length rows) < 2 ^ 31 →
  ∃ h' out, Sort h rec = Ok (h', out) ∧ rec_rep col_rep out fs tf (write_rows rows) ∧ cols_ok (ColSpare out) ∧ helper_ok h'.
Proof.
  intros Hrep Hsp Hh Hin Hsmall. unfold Sort. rewrite (rep_RowNums _ _ _ _ Hrep). destruct (Nat.eqb_spec (length rows) 0) as [E|E].
  { apply length_zero_iff_nil in E as ->. by exists h, rec. }
  destruct (aux_InitRecord_fresh h (Schema rec) Hh) as (out & -> & Hsch & Hblank & Hlc & Hmeta & Hspare). rs. rewrite (rep_Times _ _ _ _ Hrep Hin), aux_sorted by done.
  unfold InitSections. cbn [ATimes RowIds sections SortRec]. pose proof (srt_length rows) as Hsl.
  destruct (section_loop_tiles rows Hsmall 0 0 []) as (secs & Hsec & Htl); [lia|lia|]. rewrite drop_0 in Hsec. rewrite Hsec. cbn [app].
  pose proof (rec_rep_ok _ _ _ _ Hrep Hsp) as Hrok. destruct Hrep as [Hs (cs & tc & Hc & Hall & Htc) Htf Hsort Hty Hk Hm].
  assert (Hfs : take (length (Schema rec) - 1) (Schema out) = fs) by (rewrite Hsch, Hs, length_app, Nat.add_sub; apply take_app_length). rewrite Hfs.
  assert (Hlo : length (ColVals out) = S (length fs)) by (rewrite Hlc, Hs, length_app; cbn; lia).
  destruct (exists_last (l := ColVals out)) as (ds & td & Hds); [intros Hnil; rewrite Hnil in Hlo; done|]. rewrite Hds in Hblank, Hlo. rewrite length_app in Hlo. cbn [length] in Hlo.
  apply Forall_app in Hblank as [Hb1 Hb2]. apply Forall_inv in Hb2. rewrite Hc, Hds.
  destruct (sort_columns_spec rows (mk_aux (tag_id <$> srt rows) (tag_time <$> srt rows) secs (Some out)) (h_nilCount h) fs cs ds [tc] [td] Hsmall eq_refl eq_refl Htl Hty Hall Hb1 ltac:(lia))
    as (ds' & nc' & -> & Hall'). rs. rewrite time_of_snoc. rs.
  destruct (srt rows) as [|a l] eqn:El; [cbn in Hsl; lia|]. cbn [fmap list_fmap].
  assert (Htd : col_rep Field_Type_Int td []) by (by apply (col_blank (R := col_rep))). unfold AppendTime at 1.
  destruct (append_word_spec Field_Type_Int td [] (tag_time a) (or_introl eq_refl) Htd) as (td1 & -> & Htd1). rs.
  destruct (append_times_spec td1 _ (tag_time a) (tag_time <$> l) Htd1) as (td2 & -> & Htd2). rs.
  eexists _, _. split; [done|]. split; [|split; [done|exact Hrok]].
  rewrite length_app. cbn [length]. rewrite Nat.add_sub, insert_app_r_alt, Nat.sub_diag by lia. cbn [insert list_insert]. split; cbn [Schema ColVals MetaTimes]; [by rewrite Hsch| |done|done|done|by apply keys_in_write|done].
  exists ds', td2. split; [done|]. split; [done|].
  assert (Hts : fst <$> write_rows rows = tag_time a :: distinct_after (tag_time a) (tag_time <$> l)).
  { rewrite <- done_rows_all. unfold done_rows. rewrite El, take_ge by lia. rewrite fmap_cons. change (foldl push [] (snd a :: (snd <$> l))) with (foldl push ([] ++ [snd a]) (snd <$> l)).
    rewrite times_push. cbn. unfold tag_time. by rewrite <- list_fmap_compose. }
  rewrite Hts. exact Htd2.
Qed.
End Sort.

(** C14: sorting a record merges its rows.  For a record whose rows are in any order, with
    times that may repeat, Sort returns a record with the same columns that is strictly
    sorted by time and has the same times; every cell is the last value that was written at
    its time, where a null does not overwrite a value.  The helper can be used again. *)
Theorem Sort_merges_rows `{GoRuntime} h rec fs tf rows :
  rec_rep col_rep rec fs tf rows → cols_ok (ColSpare rec) → helper_ok h → Forall (in_s 64) (fst <$> rows) → Z.of_nat (length rows) < 2 ^ 31 →
  ∃ h' out table, Sort h rec = Ok (h', out) ∧ rec_rep col_rep out fs tf table ∧ helper_ok h' ∧ sorted_rows ascending table ∧
    (∀ t, t ∈ fst <$> table ↔ t ∈ fst <$> rows) ∧ ∀ t nm, cell_at table t nm = last_written rows t nm.
Proof.
  intros Hrep Hsp Hh Hin Hsmall. destruct (Sort_spec h rec fs tf rows Hrep Hsp Hh Hin Hsmall) as (h' & out & E & Ho & _ & Hh'). exists h', out, (write_rows rows).
  split; [done|]. split; [done|]. split; [done|]. split; [apply write_rows_sorted|]. split; [intros t; apply write_rows_times|]. intros t nm. apply write_rows_cells.
Qed.

Definition sample_mixed : Record_ :=
  mk_Record [f_a; f_s; f_time] [col (le_bytes 8 10) [] [1] 3 2; col [104; 105; 120] [0; 0; 2] [6] 3 1; col (bytes_le 8 [4; 2; 4]) [] [7] 3 0] [] None.
Definition mixed_rows : list row := [(4, {["a" := le_bytes 8 10]}); (2, {["s" := [104; 105]]}); (4, {["s" := [120]]})].

Lemma sample_mixed_rep : rec_rep col_rep sample_mixed [f_a; f_s] f_time mixed_rows.
Proof.
  split; try reflexivity.
  - exists (take 2 (ColVals sample_mixed)), (col (bytes_le 8 [4; 2; 4]) [] [7] 3 0). split; [reflexivity|]. split.
    + constructor; [|constructor; [|constructor]].
      * exists [Some 10; None; None]. split; [rep_check|reflexivity].
      * change (str_rep (col [104; 105; 120] [0; 0; 2] [6] 3 1) [None; Some [104; 105]; Some [120]]). rep_check.
    + exists [Some 4; Some 2; Some 4]. split; [rep_check|reflexivity].
  - repeat constructor.
  - repeat constructor.
  - apply keys_in_check. by_compute.
Qed.

Lemma Sort_merges_rows_witness :
  ∃ h' out table, @Sort tight_runtime NewColumnSortHelper sample_mixed = Ok (h', out) ∧ rec_rep col_rep out [f_a; f_s] f_time table ∧ helper_ok h' ∧ sorted_rows ascending table ∧
    (∀ t, t ∈ fst <$> table ↔ t ∈ fst <$> mixed_rows) ∧ ∀ t nm, cell_at table t nm = last_written mixed_rows t nm.
Proof.
  apply (@Sort_merges_rows tight_runtime NewColumnSortHelper sample_mixed [f_a; f_s] f_time mixed_rows sample_mixed_rep).
  - constructor.
  - exact I.
  - by_compute.
  - by_compute.
Defined.
