(* ===== verification/FastSort.v ===== *)
(** * lib/record: FastSortRecord restores the order of the columns

    New columns are appended behind the time column; FastSortRecord computes where each
    column belongs and moves the columns there by swaps, one cycle after the other. *)

From stdpp Require Import gmap.
From Stdlib Require String.
From S2P Require Import Prelude GoSlice ColVal Record RecordSchema RecordSort.

(** ** Where the columns belong *)

Fixpoint merge_fields (old : list Field) : list Field → list Field :=
  fix go added :=
    match old, added with
    | [], _ => added
    | _, [] => old
    | o :: old', a :: added' => if String.ltb (FName o) (FName a) then o :: merge_fields old' added else a :: go added'
    end.

Lemma merge_fields_nil_l added : merge_fields [] added = added.
Proof. by destruct added. Qed.
Lemma merge_fields_nil_r old : merge_fields old [] = old.
Proof. by destruct old. Qed.
Lemma merge_fields_perm old added : merge_fields old added ≡ₚ old ++ added.
Proof.
  revert added. induction old as [|o old IH]; intros added; [by rewrite merge_fields_nil_l|]. induction added as [|a added IHa]; [by rewrite merge_fields_nil_r, app_nil_r|].
  cbn [merge_fields]. destruct (String.ltb _ _).
  - by rewrite IH.
  - change (a :: merge_fields (o :: old) added ≡ₚ (o :: old) ++ a :: added). rewrite IHa. by rewrite Permutation_middle.
Qed.

Lemma foldl_insert_length {A B} (g : A → nat) (h : A → B) ks (l : list B) : length (foldl (λ ix k, <[g k := h k]> ix) l ks) = length l.
Proof. revert l. induction ks as [|k ks IH]; intros l; [done|]. cbn. by rewrite IH, length_insert. Qed.
Lemma foldl_insert_other {A B} (g : A → nat) (h : A → B) ks (l : list B) p : (∀ k, k ∈ ks → g k ≠ p) → foldl (λ ix k, <[g k := h k]> ix) l ks !! p = l !! p.
Proof.
  revert l. induction ks as [|k ks IH]; intros l Hp; [done|]. cbn. rewrite IH by (intros k' Hk'; apply Hp; by right). apply list_lookup_insert_ne. apply Hp. left.
Qed.
Lemma foldl_insert_at {A B} (g : A → nat) (h : A → B) ks (l : list B) k :
  NoDup (g <$> ks) → k ∈ ks → (g k < length l)%nat → foldl (λ ix k, <[g k := h k]> ix) l ks !! g k = Some (h k).
Proof.
  revert l. induction ks as [|x ks IH]; intros l Hnd Hk Hl; [by apply elem_of_nil in Hk|]. cbn in *. apply NoDup_cons in Hnd as [Hx Hnd]. apply elem_of_cons in Hk as [->|Hk].
  - rewrite foldl_insert_other; [by apply list_lookup_insert_eq|]. intros k Hk Heq. apply Hx. rewrite <- Heq. by apply list_elem_of_fmap_2.
  - apply IH; [done|done|by rewrite length_insert].
Qed.

Section Positions.
Context (olds added : list Field) (tf : Field).
#[local] Abbreviation ofs := (S (length olds)).
#[local] Abbreviation all := (olds ++ tf :: added).
#[local] Abbreviation target := (merge_fields olds added ++ [tf]).

Hypothesis Htf : FName tf = TimeField.
Hypothesis Holds : Forall (λ f, FName f ≠ TimeField) olds.

Definition placed (ix : list nat) (p : nat) : Prop := ∃ t f, ix !! p = Some t ∧ all !! p = Some f ∧ target !! t = Some f.

Lemma length_target : length target = length all.
Proof. rewrite !length_app, merge_fields_perm. cbn [length]. rewrite length_app. lia. Qed.
Lemma all_old j f : olds !! j = Some f → all !! j = Some f.
Proof. intros Hj. rewrite lookup_app_l; [done|]. by eapply lookup_lt_Some. Qed.
Lemma all_added i : all !! (ofs + i)%nat = added !! i.
Proof. rewrite lookup_app_r by lia. replace (ofs + i - length olds)%nat with (S i) by lia. done. Qed.

Lemma merge_positions_spec fuel i j ix P :
  (length added - i + (length olds - j) < fuel)%nat → (i ≤ length added)%nat → (j ≤ length olds)%nat →
  merge_fields olds added = P ++ merge_fields (drop j olds) (drop i added) → length P = (i + j)%nat → length ix = length all →
  (∀ p, (p < j)%nat ∨ (ofs ≤ p < ofs + i)%nat → placed ix p) →
  ∃ ix', merge_positions all added i j ofs fuel ix = Ok ix' ∧ length ix' = length all ∧ ∀ p, (p < length all)%nat → placed ix' p.
Proof.
  revert i j ix P. induction fuel as [|fuel IH]; intros i j ix P Hf Hi Hj HM HP Hlen Hpl; [lia|].
  assert (Hla : length all = (ofs + length added)%nat) by (rewrite length_app; cbn; lia).
  assert (HlM : length (merge_fields olds added) = (length olds + length added)%nat) by (by rewrite merge_fields_perm, length_app).
  (* the two final loops *)
  assert (Hfin : i = length added ∨ j = length olds → ∃ ix',
    Ok (foldl (λ ix k, <[k := (k + Nat.max i (length added))%nat]> ix)
         (foldl (λ ix k, <[(ofs + k)%nat := (j + k)%nat]> ix) ix (seq i (length added - i))) (seq j (ofs - j))) = Ok ix' ∧
    length ix' = length all ∧ ∀ p, (p < length all)%nat → placed ix' p).
  { intros Hend. eexists. split; [done|]. split; [by rewrite !foldl_insert_length|]. intros p Hp. rewrite Hla in Hp. rewrite Nat.max_r by lia.
    assert (Hrest : merge_fields (drop j olds) (drop i added) = drop j olds ++ drop i added).
    { destruct Hend as [->| ->]; [by rewrite drop_all, merge_fields_nil_r, app_nil_r|by rewrite drop_all, merge_fields_nil_l]. }
    rewrite Hrest in HM. unfold placed. destruct (decide (j ≤ p < ofs)%nat) as [H1|H1].
    - exists (p + length added)%nat. destruct (lookup_lt_is_Some_2 all p) as [f Hfp]; [lia|]. exists f. split; [|split; [done|]].
      { apply (foldl_insert_at (λ k, k) (λ k, (k + length added)%nat)); [rewrite list_fmap_id; apply NoDup_seq|apply elem_of_seq; lia|rewrite foldl_insert_length; lia]. }
      destruct (decide (p = length olds)) as [->|Hne].
      + rewrite lookup_app_r by lia. rewrite HlM, Nat.sub_diag. rewrite list_lookup_middle in Hfp by done. done.
      + rewrite lookup_app_l by lia. rewrite HM, lookup_app_r by lia. rewrite HP. destruct Hend as [->| ->]; [|lia].
        rewrite lookup_app_l by (rewrite length_drop; lia). rewrite lookup_drop. rewrite lookup_app_l in Hfp by lia. rewrite <- Hfp. f_equal. lia.
    - rewrite (foldl_insert_other (λ k, k)) by (intros k Hk; apply elem_of_seq in Hk; lia). destruct (decide (ofs + i ≤ p)%nat) as [H2|H2].
      + exists (j + (p - ofs))%nat. destruct (lookup_lt_is_Some_2 all p) as [f Hfp]; [lia|]. exists f. split; [|split; [done|]].
        { replace p with (ofs + (p - ofs))%nat at 1 by lia. apply (foldl_insert_at (λ k, (ofs + k)%nat) (λ k, (j + k)%nat)); [|apply elem_of_seq; lia|lia].
          apply NoDup_fmap_2; [intros x y; lia|apply NoDup_seq]. }
        destruct Hend as [->| ->]; [lia|]. rewrite lookup_app_l by lia. rewrite HM, lookup_app_r by lia. rewrite HP, drop_all. cbn [app]. rewrite lookup_drop.
        replace p with (ofs + (p - ofs))%nat in Hfp by lia. rewrite all_added in Hfp. rewrite <- Hfp. f_equal. lia.
      + rewrite (foldl_insert_other (λ k, (ofs + k)%nat)) by (intros k Hk; apply elem_of_seq in Hk; lia). apply Hpl. lia. }
  cbn [merge_positions]. destruct (added !! i) as [a|] eqn:Ea; [|apply lookup_ge_None in Ea; apply Hfin; lia].
  pose proof (lookup_lt_Some _ _ _ Ea) as Hia. destruct (decide (j = length olds)) as [->|Hjne].
  { rewrite list_lookup_middle by done. rewrite bool_decide_true by done. apply Hfin. by right. }
  destruct (lookup_lt_is_Some_2 olds j) as [o Ho]; [lia|]. rewrite (all_old j o Ho). rewrite bool_decide_false by (by eapply Forall_lookup_1 in Holds).
  rewrite (drop_S _ _ _ Ho), (drop_S _ _ _ Ea) in HM. cbn [merge_fields] in HM. destruct (String.ltb (FName o) (FName a)) eqn:Elt.
  - apply (IH i (S j) _ (P ++ [o])); [lia|lia|lia| |rewrite length_app; cbn; lia|by rewrite length_insert|].
    { rewrite HM, <- app_assoc. by rewrite (drop_S _ _ _ Ea). }
    intros p Hp. destruct (decide (p = j)) as [->|Hne].
    + exists (j + i)%nat, o. split; [apply list_lookup_insert_eq; lia|]. split; [by apply all_old|]. rewrite lookup_app_l by lia. rewrite HM, lookup_app_r by lia. by replace (j + i - length P)%nat with 0%nat by lia.
    + destruct (Hpl p ltac:(lia)) as (t & f & Ht & H1 & H2). exists t, f. by rewrite list_lookup_insert_ne.
  - apply (IH (S i) j _ (P ++ [a])); [lia|lia|lia| |rewrite length_app; cbn; lia|by rewrite length_insert|].
    { rewrite HM, <- app_assoc. by rewrite (drop_S _ _ _ Ho). }
    intros p Hp. destruct (decide (p = ofs + i)%nat) as [->|Hne].
    + exists (j + i)%nat, a. split; [apply list_lookup_insert_eq; lia|]. split; [by rewrite all_added|]. rewrite lookup_app_l by lia. rewrite HM, lookup_app_r by lia. by replace (j + i - length P)%nat with 0%nat by lia.
    + destruct (Hpl p ltac:(lia)) as (t & f & Ht & H1 & H2). exists t, f. by rewrite list_lookup_insert_ne.
Qed.
End Positions.

(** ** Moving the columns *)

Lemma length_swap_at {A} (l : list A) i k : length (swap_at l i k) = length l.
Proof. unfold swap_at. destruct (l !! i), (l !! k); rewrite ?length_insert; done. Qed.
Lemma swap_at_lookup {A} (l : list A) i k p : (i < length l)%nat → (k < length l)%nat →
  swap_at l i k !! p = if decide (p = i) then l !! k else if decide (p = k) then l !! i else l !! p.
Proof.
  intros Hi Hk. unfold swap_at. destruct (lookup_lt_is_Some_2 l i Hi) as [x Hx]. destruct (lookup_lt_is_Some_2 l k Hk) as [y Hy]. rewrite Hx, Hy.
  destruct (decide (p = i)) as [->|Hpi]; [rewrite list_lookup_insert_eq; [done|by rewrite length_insert]|]. rewrite list_lookup_insert_ne by done.
  destruct (decide (p = k)) as [->|Hpk]; [by rewrite list_lookup_insert_eq|by rewrite list_lookup_insert_ne].
Qed.
Lemma swap_at_zip {A B} (a : list A) (b : list B) i k : length a = length b → (i < length a)%nat → (k < length a)%nat → zip (swap_at a i k) (swap_at b i k) = swap_at (zip a b) i k.
Proof.
  intros Hl Hi Hk. apply list_eq. intros p. assert (Hz : length (zip a b) = length a) by (rewrite length_zip_with; lia).
  rewrite lookup_zip_with, !swap_at_lookup by lia. destruct (decide (p = i)); [by rewrite lookup_zip_with|]. destruct (decide (p = k)); by rewrite lookup_zip_with.
Qed.
Lemma swap_at_perm {A} (l : list A) i k : (i < length l)%nat → (k < length l)%nat → swap_at l i k ≡ₚ l.
Proof.
  intros Hi Hk. unfold swap_at. destruct (lookup_lt_is_Some_2 l i Hi) as [x Hx]. destruct (lookup_lt_is_Some_2 l k Hk) as [y Hy]. rewrite Hx, Hy.
  destruct (decide (i = k)) as [->|Hne]; [rewrite list_insert_insert_eq; assert (x = y) as -> by congruence; by rewrite list_insert_id|].
  apply Permutation_inj. split; [by rewrite !length_insert|]. exists (λ p, if decide (p = i) then k else if decide (p = k) then i else p). split.
  - intros p q. repeat case_decide; congruence.
  - intros p. destruct (decide (p = i)) as [->|Hpi]; [rewrite list_lookup_insert_eq by (by rewrite length_insert); done|]. rewrite list_lookup_insert_ne by done.
    destruct (decide (p = k)) as [->|Hpk]; [by rewrite list_lookup_insert_eq|by rewrite list_lookup_insert_ne].
Qed.

Definition wrong (ix : list nat) : nat := length (filter (λ p, ix !! p ≠ Some p) (seq 0 (length ix))).

Lemma filter_fewer (P Q : nat → Prop) `{!∀ x, Decision (P x), !∀ x, Decision (Q x)} l k :
  (∀ x, P x → Q x) → k ∈ l → Q k → ¬ P k → (length (filter P l) < length (filter Q l))%nat.
Proof.
  intros HPQ Hk HQ HP. assert (Hle : ∀ l, (length (filter P l) ≤ length (filter Q l))%nat).
  { clear -HPQ. induction l as [|x l IH]; [done|]. rewrite !filter_cons. destruct (decide (P x)), (decide (Q x)); cbn; try lia. exfalso. auto. }
  induction l as [|x l IH]; [by apply elem_of_nil in Hk|]. specialize (Hle l). rewrite !filter_cons. apply elem_of_cons in Hk as [<-|Hk].
  - destruct (decide (P k)), (decide (Q k)); cbn; try done; lia.
  - specialize (IH Hk). destruct (decide (P x)), (decide (Q x)); cbn; try lia. exfalso. auto.
Qed.

Lemma perm_seq_lookup ix n i : ix ≡ₚ seq 0 n → (i < n)%nat → ∃ k, ix !! i = Some k ∧ (k < n)%nat.
Proof.
  intros Hp Hi. destruct (lookup_lt_is_Some_2 ix i) as [k Hk]; [by rewrite Hp, length_seq|]. exists k. split; [done|].
  apply list_elem_of_lookup_2 in Hk. rewrite Hp in Hk. apply elem_of_seq in Hk. lia.
Qed.
Lemma perm_seq_inj ix n i j k : ix ≡ₚ seq 0 n → ix !! i = Some k → ix !! j = Some k → i = j.
Proof. intros Hp. apply NoDup_lookup. rewrite Hp. apply NoDup_seq. Qed.

Lemma perm_seq_id ix n : ix ≡ₚ seq 0 n → (∀ p, (p < n - 1)%nat → ix !! p = Some p) → ix = seq 0 n.
Proof.
  intros Hp Hid. assert (Hl : length ix = n) by (by rewrite Hp, length_seq). apply list_eq. intros p. destruct (decide (p < n)%nat) as [Hlt|Hge].
  - rewrite lookup_seq_lt by done. destruct (decide (p < n - 1)%nat); [by apply Hid|]. destruct (perm_seq_lookup ix n p Hp Hlt) as (k & Hk & Hkn). rewrite Hk. f_equal. cbn.
    destruct (decide (k < n - 1)%nat) as [Hk1|]; [|lia]. rewrite (perm_seq_inj ix n p k k Hp Hk (Hid k Hk1)) in *. done.
  - rewrite !lookup_ge_None_2; [done|rewrite length_seq; lia|lia].
Qed.

Lemma place_columns_spec n fuel i ix fs cols :
  ix ≡ₚ seq 0 n → length fs = n → length cols = n → (∀ p, (p < i)%nat → (p < n)%nat → ix !! p = Some p) → (n - 1 - i + wrong ix < fuel)%nat →
  ∃ fs' cols', place_columns n i fuel ix fs cols = Ok (fs', cols') ∧ length fs' = n ∧ length cols' = n ∧ zip (seq 0 n) (zip fs' cols') ≡ₚ zip ix (zip fs cols).
Proof.
  revert i ix fs cols. induction fuel as [|fuel IH]; intros i ix fs cols Hp Hf Hc Hid Hfuel; [lia|]. cbn [place_columns]. assert (Hl : length ix = n) by (by rewrite Hp, length_seq).
  destruct (Nat.ltb_spec i (n - 1)) as [Hi|Hi].
  2: { exists fs, cols. split; [done|]. split; [done|]. split; [done|]. rewrite <- (perm_seq_id ix n Hp); [done|]. intros p Hpn. apply Hid; lia. }
  destruct (perm_seq_lookup ix n i Hp ltac:(lia)) as (k & Hk & Hkn). rewrite Hk. destruct (Nat.eqb_spec k i) as [->|Hki].
  - apply IH; [done|done|done| |lia]. intros p Hpi Hpn. destruct (decide (p = i)) as [->|]; [done|apply Hid; lia].
  - rewrite !(proj2 (Nat.leb_gt _ _)) by lia. cbn [orb].
    assert (Hik : (i < k)%nat). { destruct (decide (k < i)%nat) as [Hlt|]; [|lia]. pose proof (perm_seq_inj ix n i k k Hp Hk (Hid k Hlt Hkn)). lia. }
    destruct (IH i (swap_at ix i k) (swap_at fs i k) (swap_at cols i k)) as (fs' & cols' & E & Hf' & Hc' & Hz).
    + by rewrite swap_at_perm by lia.
    + by rewrite length_swap_at.
    + by rewrite length_swap_at.
    + intros p Hpi Hpn. rewrite swap_at_lookup by lia. rewrite !decide_False by lia. by apply Hid.
    + enough (wrong (swap_at ix i k) < wrong ix)%nat by lia. unfold wrong. rewrite length_swap_at. apply (filter_fewer _ _ _ k); [|apply elem_of_seq; lia| |].
      * intros p. rewrite swap_at_lookup by lia. destruct (decide (p = i)) as [->|Hpi]; [intros _; congruence|]. destruct (decide (p = k)) as [->|Hpk]; [by rewrite Hk|done].
      * intros Hkk. pose proof (perm_seq_inj ix n i k k Hp Hk Hkk). lia.
      * rewrite swap_at_lookup by lia. rewrite decide_False by lia. rewrite decide_True by done. intros Hn. by apply Hn.
    + exists fs', cols'. split; [done|]. split; [done|]. split; [done|]. rewrite Hz, (swap_at_zip fs cols), (swap_at_zip ix) by (rewrite ?length_zip_with; lia).
      apply swap_at_perm; rewrite length_zip_with, length_zip_with; lia.
Qed.

Lemma wrong_le ix : (wrong ix ≤ length ix)%nat.
Proof. unfold wrong. etransitivity; [apply length_filter|]. by rewrite length_seq. Qed.

(** ** FastSortRecord *)

Lemma zip_lookup_elem {A B} (a : list A) (b : list B) x y : (x, y) ∈ zip a b → ∃ p, a !! p = Some x ∧ b !! p = Some y.
Proof. intros (p & Hp)%list_elem_of_lookup_1. apply lookup_zip_with_Some in Hp as (x' & y' & [= <- <-] & Hx & Hy). eauto. Qed.

Lemma FastSortRecord_moves rec olds tf added :
  Schema rec = olds ++ tf :: added → length (ColVals rec) = length (Schema rec) → FName tf = TimeField → Forall (λ f, FName f ≠ TimeField) olds →
  NoDup (olds ++ tf :: added) →
  ∃ cols, FastSortRecord rec (S (length olds)) = Ok (mk_Record (merge_fields olds added ++ [tf]) cols (ColSpare rec) (MetaTimes rec)) ∧
    zip (merge_fields olds added ++ [tf]) cols ≡ₚ zip (Schema rec) (ColVals rec) ∧ length cols = length (Schema rec).
Proof.
  intros Hs Hc Htf Holds Hnd. unfold FastSortRecord. assert (Hn : length (Schema rec) = S (length olds + length added)) by (rewrite Hs, length_app; cbn; lia).
  rewrite (proj2 (Nat.eqb_neq _ _)), (proj2 (Nat.ltb_ge _ _)) by lia. cbn [orb]. rewrite Hs.
  replace (drop (S (length olds)) (olds ++ tf :: added)) with added by (by rewrite cons_middle, app_assoc, drop_app_length' by (rewrite length_app; cbn; lia)).
  set (ix0 := <[_ := _]> _). destruct (merge_positions_spec olds added tf Htf Holds (S (length (olds ++ tf :: added) + length (olds ++ tf :: added))) 0 0 ix0 []) as (ix & E & Hlx & Hpl);
    [rewrite <- Hs, Hn; lia|lia|lia|done|done|unfold ix0; by rewrite length_insert, length_replicate|intros p Hp; lia|].
  rewrite E. rs. clear E. rewrite <- Hs in *. set (n := length (Schema rec)) in *. set (target := merge_fields olds added ++ [tf]) in *.
  assert (Ht : length target = n) by (unfold target, n; rewrite length_target, Hs; done).
  assert (Hperm : ix ≡ₚ seq 0 n).
  { apply submseteq_length_Permutation; [apply NoDup_submseteq|by rewrite Hlx, length_seq].
    - apply NoDup_alt. intros p q t Hp Hq. destruct (Hpl p ltac:(rewrite <- Hlx; by eapply lookup_lt_Some)) as (t1 & f1 & H1 & H2 & H3). destruct (Hpl q ltac:(rewrite <- Hlx; by eapply lookup_lt_Some)) as (t2 & f2 & H4 & H5 & H6).
      rewrite <- Hs in *. assert (f1 = f2) as -> by congruence. rewrite Hs in *. by eapply NoDup_lookup.
    - intros t (p & Hp)%list_elem_of_lookup_1. destruct (Hpl p ltac:(rewrite <- Hlx; by eapply lookup_lt_Some)) as (t1 & f1 & H1 & H2 & H3). assert (t1 = t) as -> by congruence. apply lookup_lt_Some in H3.
      apply elem_of_seq. unfold target in Ht. rewrite Ht in H3. lia. }
  destruct (place_columns_spec n (S (n + n)) 0 ix (Schema rec) (ColVals rec) Hperm eq_refl Hc) as (fs' & cols' & E & Hf' & Hc' & Hz); [intros p Hp; lia|pose proof (wrong_le ix); rewrite Hlx in *; lia|].
  rewrite E. rs. assert (Hfs : fs' = target).
  { apply list_eq. intros p. destruct (decide (p < n)%nat) as [Hlt|Hge]; [|rewrite !lookup_ge_None_2; [done|lia|lia]].
    destruct (lookup_lt_is_Some_2 fs' p) as [f Hfp]; [lia|]. destruct (lookup_lt_is_Some_2 cols' p) as [c Hcp]; [lia|]. rewrite Hfp.
    assert (Hin : (p, (f, c)) ∈ zip ix (zip (Schema rec) (ColVals rec))).
    { rewrite <- Hz. apply (list_elem_of_lookup_2 _ p). rewrite !lookup_zip_with, lookup_seq_lt by done. cbn. by rewrite Hfp, Hcp. }
    apply zip_lookup_elem in Hin as (q & Hq & Hfc). apply lookup_zip_with_Some in Hfc as (f' & c' & [= <- <-] & Hf1 & _).
    destruct (Hpl q ltac:(rewrite <- Hlx; by eapply lookup_lt_Some)) as (t1 & f1 & H1 & H2 & H3). rewrite Hs in Hf1. fold target in H3. congruence. }
  subst fs'. exists cols'. split; [done|]. split; [|lia].
  assert (Hz2 := fmap_Permutation snd _ _ Hz). rewrite !snd_zip in Hz2; [done|rewrite length_zip_with; lia|rewrite length_seq, length_zip_with; lia].
Qed.
