(* ===== verification/MemTable.v ===== *)
(** * engine/mutable: the memtable of the time series store (table.go, ts_table.go)

    Rows are written to the chunk of their series; a chunk is one record, to which a row is
    appended column by column.  A row with other fields than the chunk's schema takes the
    slow path, which walks the two in name order, adds the new columns with nulls for the
    earlier rows and restores the name order.  A chunk whose times did not increase is
    sorted before it is read or flushed.

    A row that fails is reported beside the changed state.  Locks and statistics are left
    out: each operation here runs under the lock of its table, measurement or chunk. *)

From stdpp Require Import gmap.
From Stdlib Require String.
From Stdlib Require Import SpecFloat.
From S2P Require Import Prelude GoSlice GoSort Bitmap ColVal TimeSearch Compress Record RecordSort.

(** ** Rows (lib/util/lifted/vm/protoparser/influx) *)

(** [NumValue] is the bit pattern of the double. *)
Record InfluxField := mk_InfluxField { Key : string; NumValue : Z; StrValue : list Z; Type_ : FieldType }.
Record Row := mk_Row { Timestamp : Z; PrimaryId : Z; RName : string; Fields : list InfluxField; ShardKey : list Z }.

(** [int64(f)] of a double: truncation; what it gives for a value outside of the type depends
    on the machine. *)
Class FloatConv := { int64_other : Z → Z }.
Definition SF_trunc (f : spec_float) : option Z :=
  match f with
  | S754_zero _ => Some 0
  | S754_finite s m e =>
      let q := if 0 <=? e then Zpos m * 2 ^ e else Zpos m / 2 ^ (- e) in
      Some (if s then - q else q)
  | _ => None
  end.
Definition int64_of `{FloatConv} (b : Z) : Z :=
  match SF_trunc (SF_of_bits b) with
  | Some v => if (-2 ^ 63 <=? v) && (v <? 2 ^ 63) then v else int64_other b
  | None => int64_other b
  end.

Definition AppendInteger `{GoRuntime} (cv : ColVal) (v : Z) : res ColVal := @appendValue _ int64 cv v.
Definition AppendFloat `{GoRuntime} (cv : ColVal) (v : Z) : res ColVal := @appendValue _ float64 cv v.
Definition AppendBoolean `{GoRuntime} (cv : ColVal) (v : bool) : res ColVal := @appendValue _ boolean cv (if v then 1 else 0).

(** ** Schemas *)

Definition field_schema (f : InfluxField) : Field := mk_Field (Type_ f) (Key f).
Definition genMsSchema (fields : list InfluxField) : list Field := (field_schema <$> fields) ++ [mk_Field Field_Type_Int TimeField].

Fixpoint same_names (msSchema : list Field) (fields : list InfluxField) : bool :=
  match fields, msSchema with
  | [], _ => true
  | f :: fields, s :: msSchema => bool_decide (FName s = Key f) && same_names msSchema fields
  | _ :: _, [] => false
  end.
Definition checkSchemaIsSame (msSchema : list Field) (fields : list InfluxField) : bool :=
  if negb (Z.of_nat (length fields) =? Z.of_nat (length msSchema) - 1) then false else same_names msSchema fields.

(** ** Appending a row to a record *)

Inductive MemErr := UnsupportDataType | CantMapRows | IndexError (e : string).

Definition set_ColVals (rec : Record_) (cols : list ColVal) : Record_ := mk_Record (Schema rec) cols (ColSpare rec) (MetaTimes rec).
Definition set_Schema (rec : Record_) (fs : list Field) : Record_ := mk_Record fs (ColVals rec) (ColSpare rec) (MetaTimes rec).

(** [op(&cols[i])] *)
Definition at_col {A} (cols : list ColVal) (i : nat) (op : ColVal → res (ColVal * A)) : res (list ColVal * A) :=
  match cols !! i with
  | None => Panic
  | Some c => let! (c, a) := op c in Ok (<[i := c]> cols, a)
  end.
Definition on_col (cols : list ColVal) (i : nat) (op : ColVal → res ColVal) : res (list ColVal) :=
  match cols !! i with
  | None => Panic
  | Some c => let! c := op c in Ok (<[i := c]> cols)
  end.

(** The slots behind the length of a schema slice hold the zero field: a schema only grows. *)
Definition zero_Field : Field := mk_Field Field_Type_Unknown "".
Definition ReserveSchema (rec : Record_) (size : nat) : Record_ := set_Schema rec (Schema rec ++ replicate size zero_Field).

Section Append.
Context `{GoRuntime} `{FloatConv}.

Definition ReserveSchemaAndColVal (rec : Record_) (size : nat) : res Record_ :=
  if (0 <? size)%nat then ReserveColVal (ReserveSchema rec size) (Z.of_nat size) else Ok rec.

(** The new column, the size of the row so far, and the error. *)
Definition appendFieldToCol (col : ColVal) (field : InfluxField) (size : Z) : res (ColVal * (Z * option MemErr)) :=
  match Type_ field with
  | Field_Type_Int | Field_Type_UInt => let! col := AppendInteger col (int64_of (NumValue field)) in Ok (col, (i64 (size + 8), None))
  | Field_Type_Float => let! col := AppendFloat col (NumValue field) in Ok (col, (i64 (size + 8), None))
  | Field_Type_Boolean => let! col := AppendBoolean col (negb (f_is_zero (NumValue field))) in Ok (col, (i64 (size + 1), None))
  | Field_Type_String => let! col := AppendString col (StrValue field) in Ok (col, (i64 (size + Z.of_nat (length (StrValue field))), None))
  | _ => Ok (col, (size, Some UnsupportDataType))
  end.

Fixpoint append_same (cols : list ColVal) (fields : list InfluxField) (i : nat) (size : Z) : res (list ColVal * (Z * option MemErr)) :=
  match fields with
  | [] => Ok (cols, (size, None))
  | f :: fields =>
      let! (cols, r) := at_col cols i (λ c, appendFieldToCol c f size) in
      match snd r with
      | Some e => Ok (cols, (fst r, Some e))
      | None => append_same cols fields (S i) (fst r)
      end
  end.

(** A field that the record does not have: column [appendColIdx], with a null for every
    earlier row. *)
Definition append_new (rec : Record_) (f : InfluxField) (appendColIdx oldRowNum : nat) (size : Z) : res (Record_ * (Z * option MemErr)) :=
  if (length (Schema rec) <=? appendColIdx)%nat then Panic
  else
    let rec := set_Schema rec (<[appendColIdx := field_schema f]> (Schema rec)) in
    let! cols := on_col (ColVals rec) appendColIdx (λ c, PadColVal c (Type_ f) oldRowNum) in
    let! (cols, r) := at_col cols appendColIdx (λ c, appendFieldToCol c f size) in
    Ok (set_ColVals rec cols, r).

(** A column that the row does not have gets a null. *)
Definition pad_one (rec : Record_) (i : nat) : res Record_ :=
  match Schema rec !! i with
  | None => Panic
  | Some s => let! cols := on_col (ColVals rec) i (λ c, PadColVal c (FType s) 1) in Ok (set_ColVals rec cols)
  end.

(** The first loop; [fields] are the fields from [pointSchemaIdx].  The result has the
    record, the size and the error, the two indexes and the fields left. *)
Record walk := mk_walk { w_rec : Record_; w_size : Z; w_err : option MemErr; w_recIdx : nat; w_fields : list InfluxField; w_colIdx : nat }.

Fixpoint slow_walk (fuel : nat) (w : walk) (recSchemaLen oldRowNum : nat) : res walk :=
  match fuel with
  | O => Diverge
  | S fuel =>
      let '(mk_walk rec size _ recSchemaIdx fields appendColIdx) := w in
      match fields with
      | [] => Ok w
      | f :: fields' =>
          if (recSchemaIdx <? recSchemaLen)%nat then
            match Schema rec !! recSchemaIdx with
            | None => Panic
            | Some s =>
                if bool_decide (FName s = Key f) then
                  let! (cols, r) := at_col (ColVals rec) recSchemaIdx (λ c, appendFieldToCol c f size) in
                  let rec := set_ColVals rec cols in
                  match snd r with
                  | Some e => Ok (mk_walk rec (fst r) (Some e) recSchemaIdx fields appendColIdx)
                  | None => slow_walk fuel (mk_walk rec (fst r) None (S recSchemaIdx) fields' appendColIdx) recSchemaLen oldRowNum
                  end
                else if String.ltb (FName s) (Key f) then
                  let! rec := pad_one rec recSchemaIdx in
                  slow_walk fuel (mk_walk rec size None (S recSchemaIdx) fields appendColIdx) recSchemaLen oldRowNum
                else
                  let! rec := ReserveSchemaAndColVal rec 1 in
                  let! (rec, r) := append_new rec f appendColIdx oldRowNum size in
                  match snd r with
                  | Some e => Ok (mk_walk rec (fst r) (Some e) recSchemaIdx fields appendColIdx)
                  | None => slow_walk fuel (mk_walk rec (fst r) None recSchemaIdx fields' (S appendColIdx)) recSchemaLen oldRowNum
                  end
            end
          else Ok w
      end
  end.

(** The columns left: [n] of them from [i]. *)
Fixpoint pad_rest (rec : Record_) (i n : nat) : res Record_ :=
  match n with O => Ok rec | S n => let! rec := pad_one rec i in pad_rest rec (S i) n end.

(** The fields left. *)
Fixpoint append_rest (rec : Record_) (fields : list InfluxField) (appendColIdx oldRowNum : nat) (size : Z) : res (Record_ * (Z * option MemErr)) :=
  match fields with
  | [] => Ok (rec, (size, None))
  | f :: fields =>
      let! (rec, r) := append_new rec f appendColIdx oldRowNum size in
      match snd r with
      | Some e => Ok (rec, (fst r, Some e))
      | None => append_rest rec fields (S appendColIdx) oldRowNum (fst r)
      end
  end.

Definition appendFieldsToRecordSlow (rec : Record_) (fields : list InfluxField) (time : Z) : res (Record_ * (Z * option MemErr)) :=
  let oldColNum := length (ColVals rec) in
  let oldRowNum := RowNums rec in
  let recSchemaLen := (oldColNum - 1)%nat in
  let! w := slow_walk (S (recSchemaLen + length fields)) (mk_walk rec 0 None 0 fields oldColNum) recSchemaLen oldRowNum in
  match w_err w with
  | Some e => Ok (w_rec w, (w_size w, Some e))
  | None =>
      let! rec := pad_rest (w_rec w) (w_recIdx w) (recSchemaLen - w_recIdx w) in
      let! rec := ReserveSchemaAndColVal rec (length (w_fields w)) in
      let! (rec, r) := append_rest rec (w_fields w) (w_colIdx w) oldRowNum (w_size w) in
      match snd r with
      | Some e => Ok (rec, (fst r, Some e))
      | None =>
          let newColNum := length (ColVals rec) in
          let! rec := if negb (oldColNum =? newColNum)%nat then FastSortRecord rec oldColNum else Ok rec in
          let! cols := on_col (ColVals rec) (newColNum - 1) (λ c, AppendInteger c time) in
          Ok (set_ColVals rec cols, (i64 (fst r + 8), None))
      end
  end.

Definition appendFieldsToRecord (rec : Record_) (fields : list InfluxField) (time : Z) (sameSchema : bool) : res (Record_ * (Z * option MemErr)) :=
  if sameSchema then
    let! (cols, r) := append_same (ColVals rec) fields 0 0 in
    match snd r with
    | Some e => Ok (set_ColVals rec cols, (fst r, Some e))
    | None =>
        let! cols := on_col cols (length fields) (λ c, AppendInteger c time) in
        Ok (set_ColVals rec cols, (i64 (fst r + 8), None))
    end
  else appendFieldsToRecordSlow rec fields time.

(** ** Chunks *)

Record WriteRec := mk_WriteRec { wr_rec : option Record_; lastAppendTime : Z; timeAsd : bool; schemaCopyed : bool }.
Definition zero_WriteRec : WriteRec := mk_WriteRec None 0 false false.

Definition WriteRec_init (w : WriteRec) (schema : list Field) : res WriteRec :=
  let! rec := match wr_rec w with None => Ok (NewRecordBuilder schema) | Some rec => ResetWithSchema rec schema end in
  Ok (mk_WriteRec (Some rec) (-2 ^ 63) true false).

(** A nil record has no rows and is returned as it is. *)
Definition WriteRec_SortRecord (hlp : ColumnSortHelper) (w : WriteRec) : res (ColumnSortHelper * WriteRec) :=
  if timeAsd w then Ok (hlp, w)
  else
    match wr_rec w with
    | None => Ok (hlp, mk_WriteRec None (lastAppendTime w) true (schemaCopyed w))
    | Some rec =>
        let! (hlp, rec) := Sort hlp rec in
        Ok (hlp, mk_WriteRec (Some rec) (lastAppendTime w) true (schemaCopyed w))
    end.

(** The schema of a new record is the measurement's until [schemaCopyed]; the slow path,
    which writes to it, only runs on a copy. *)
Definition appendFields (msSchema : list Field) (w : WriteRec) (time : Z) (fields : list InfluxField) : res (WriteRec * option MemErr) :=
  let! w := match wr_rec w with None => WriteRec_init w msSchema | Some _ => Ok w end in
  match wr_rec w with
  | None => Panic
  | Some rec =>
      let sameSchema := checkSchemaIsSame (Schema rec) fields in
      let! (rec, sameSchema, copied) :=
        if negb sameSchema && negb (schemaCopyed w) then
          let copySchema := if (RowNums rec =? 0)%nat then genMsSchema fields else Schema rec in
          let! rec' := ReserveColVal (set_Schema rec copySchema) (Z.of_nat (length copySchema) - Z.of_nat (length (ColVals rec))) in
          Ok (rec', (RowNums rec =? 0)%nat || sameSchema, true)
        else Ok (rec, sameSchema, schemaCopyed w) in
      let '(last, asd) := if time <=? lastAppendTime w then (lastAppendTime w, false) else (time, timeAsd w) in
      let! (rec, r) := appendFieldsToRecord rec fields time sameSchema in
      Ok (mk_WriteRec (Some rec) last asd copied, snd r)
  end.

(** ** Measurements and the table *)

Record MsInfo := mk_MsInfo { ms_Name : string; ms_Schema : list Field; sidMap : gmap Z WriteRec }.

(** A shard key index, present in range mode only: the error of CreateIndex. *)
Record MemTable := mk_MemTable { msInfoMap : gmap string MsInfo; mt_idx : option (string → list Z → Z → option string) }.
Definition NewMemTable : MemTable := mk_MemTable ∅ None.

Definition MsInfo_Init (row : Row) : MsInfo := mk_MsInfo (RName row) (genMsSchema (Fields row)) ∅.
Definition CreateMsInfo (t : MemTable) (name : string) (row : Row) : MemTable * MsInfo :=
  match msInfoMap t !! name with
  | Some ms => (t, ms)
  | None => let ms := MsInfo_Init row in (mk_MemTable (<[name := ms]> (msInfoMap t)) (mt_idx t), ms)
  end.
Definition set_chunk (ms : MsInfo) (sid : Z) (w : WriteRec) : MsInfo := mk_MsInfo (ms_Name ms) (ms_Schema ms) (<[sid := w]> (sidMap ms)).
Definition CreateChunk (ms : MsInfo) (sid : Z) : MsInfo * WriteRec * bool :=
  match sidMap ms !! sid with
  | Some w => (ms, w, true)
  | None => (set_chunk ms sid zero_WriteRec, zero_WriteRec, false)
  end.

(** The rows of one measurement.  [counts] are the calls of AddRowCountsBySid. *)
Fixpoint write_ms_rows (idx : option (string → list Z → Z → option string)) (msName : string) (ms : MsInfo) (rs : list Row) (counts : list (string * Z * Z))
    : res (MsInfo * list (string * Z * Z) * option MemErr) :=
  match rs with
  | [] => Ok (ms, counts, None)
  | r :: rs =>
      if PrimaryId r =? 0 then write_ms_rows idx msName ms rs counts
      else
        let '(ms, chunk, existed) := CreateChunk ms (PrimaryId r) in
        let err := match idx with
                   | Some create => if negb existed then create msName (ShardKey r) (PrimaryId r) else None
                   | None => None
                   end in
        match err with
        | Some e => Ok (ms, counts, Some (IndexError e))
        | None =>
            let! (w, err) := appendFields (ms_Schema ms) chunk (Timestamp r) (Fields r) in
            let ms := set_chunk ms (PrimaryId r) w in
            match err with
            | Some e => Ok (ms, counts, Some e)
            | None => write_ms_rows idx msName ms rs (counts ++ [(msName, PrimaryId r, 1)])
            end
        end
  end.

(** The values of the dictionary that are not rows are refused. *)
Fixpoint WriteRows (t : MemTable) (rowsD : list (string * option (list Row))) (counts : list (string * Z * Z))
    : res (MemTable * list (string * Z * Z) * option MemErr) :=
  match rowsD with
  | [] => Ok (t, counts, None)
  | (_, None) :: _ => Ok (t, counts, Some CantMapRows)
  | (_, Some []) :: _ => Panic
  | (msName, Some ((r :: _) as rs)) :: rowsD =>
      let '(t, ms) := CreateMsInfo t msName r in
      let! (ms, counts, err) := write_ms_rows (mt_idx t) msName ms rs counts in
      let t := mk_MemTable (<[msName := ms]> (msInfoMap t)) (mt_idx t) in
      match err with
      | Some e => Ok (t, counts, Some e)
      | None => WriteRows t rowsD counts
      end
  end.

Definition MemTable_Reset (t : MemTable) : MemTable := mk_MemTable ∅ None.
End Append.
