(* ===== verification/MemAppend.v ===== *)
(** * engine/mutable: appending a row to a record

    Both paths of appendFieldsToRecord append one row to the table a record holds: the cells
    of the row, and null for the other columns.  The slow path gives the record the columns
    of the new fields, in name order. *)

From stdpp Require Import gmap.
From Stdlib Require String.
From S2P Require Import Prelude GoString GoSort GoSlice Compress Bitmap ColVal ColRefine ColStrings Column.
From S2P Require Import TimeSearch Record RecordSchema RecordTable MergeSpec RecordSort SortColumns.
From S2P Require Import SortRefine SortProps FastSort MemTable.

(** ** The row of a point *)

Section Append.
Context `{GoRuntime} `{FloatConv}.

Definition cell_of (f : InfluxField) : cell :=
  match Type_ f with
  | Field_Type_Int | Field_Type_UInt => le_bytes 8 (int64_of (NumValue f))
  | Field_Type_Float => le_bytes 8 (NumValue f)
  | Field_Type_Boolean => [if f_is_zero (NumValue f) then 0 else 1]
  | Field_Type_String => StrValue f
  | _ => []
  end.
Definition cells_of (fields : list InfluxField) : gmap string cell := list_to_map ((λ f, (Key f, cell_of f)) <$> fields).
Definition row_of (time : Z) (fields : list InfluxField) : row := (time, cells_of fields).

(** The fields of a point: sorted by name, of the four types, none of them the time. *)
Record fields_ok (fields : list InfluxField) : Prop := {
  fo_sorted : names_sorted (field_schema <$> fields);
  fo_types : Forall (λ f, data_type (Type_ f)) fields;
  fo_time : Forall (λ f, Key f ≠ TimeField) fields
}.

Lemma keys_NoDup fs : names_sorted fs → NoDup (FName <$> fs).
Proof.
  induction fs as [|f fs IH]; intros Hs; [constructor|]. cbn. constructor; [by apply names_sorted_notin|]. apply IH. by apply names_sorted_cons in Hs as [? _].
Qed.

Lemma schema_names (fields : list InfluxField) : FName <$> (field_schema <$> fields) = Key <$> fields.
Proof. by rewrite <- list_fmap_compose. Qed.

Lemma cells_of_fst (fields : list InfluxField) : ((λ f, (Key f, cell_of f)) <$> fields).*1 = Key <$> fields.
Proof. by rewrite <- list_fmap_compose. Qed.

Lemma cells_of_in fields f : NoDup (Key <$> fields) → f ∈ fields → cells_of fields !! Key f = Some (cell_of f).
Proof.
  intros Hnd Hf. unfold cells_of. apply elem_of_list_to_map_1; [by rewrite cells_of_fst|]. by apply (list_elem_of_fmap_2 (λ f, (Key f, cell_of f))).
Qed.
Lemma cells_of_notin fields nm : nm ∉ Key <$> fields → cells_of fields !! nm = None.
Proof. intros Hn. unfold cells_of. apply not_elem_of_list_to_map_1. by rewrite cells_of_fst. Qed.

(** ** Columns *)

Lemma appendFieldToCol_spec f c cs size :
  data_type (Type_ f) → col_rep (Type_ f) c cs → (Type_ f = Field_Type_String → fits (cs ++ [Some (cell_of f)])) →
  ∃ c' size', appendFieldToCol c f size = Ok (c', (size', None)) ∧ col_rep (Type_ f) c' (cs ++ [Some (cell_of f)]).
Proof.
  intros Hd Hc Hfit. unfold appendFieldToCol, cell_of in *. destruct (Type_ f) eqn:E; try done.
  - destruct (append_word_spec Field_Type_Int c cs (int64_of (NumValue f)) (or_introl eq_refl) Hc) as (c' & Ec & Hc'). unfold AppendInteger. rewrite Ec. rs. eauto.
  - destruct (append_word_spec Field_Type_Float c cs (NumValue f) (or_intror eq_refl) Hc) as (c' & Ec & Hc'). unfold AppendFloat. change (@appendValue _ float64 c (NumValue f)) with (@appendValue _ int64 c (NumValue f)). rewrite Ec. rs. eauto.
  - destruct (AppendString_spec c cs (StrValue f) Hc) as (c' & Ec & Hc').
    { specialize (Hfit eq_refl). unfold fits in Hfit. rewrite text_app, length_app in Hfit. cbn in Hfit. rewrite app_nil_r in Hfit. lia. }
    rewrite Ec. rs. eauto.
  - unfold AppendBoolean. set (b := if f_is_zero (NumValue f) then 0 else 1). assert (Hb : in_u 8 b ∧ le_bytes 1 b = [b]) by (unfold b; destruct (f_is_zero _); done). destruct Hb as [Hb1 Hb2].
    destruct (append_bool_spec c cs b Hb1 Hc) as (c' & Ec & Hc'). replace (if negb (f_is_zero (NumValue f)) then 1 else 0) with b by (unfold b; by destruct (f_is_zero _)). rewrite Ec. rs. rewrite <- Hb2. eauto.
Qed.

Lemma insert_middle {A} (a b : list A) x y : <[length a := y]> (a ++ x :: b) = a ++ y :: b.
Proof. by rewrite insert_app_r_alt, Nat.sub_diag by lia. Qed.

Lemma at_col_middle {A} (a b : list ColVal) c (op : ColVal → res (ColVal * A)) i c' x :
  i = length a → op c = Ok (c', x) → at_col (a ++ c :: b) i op = Ok (a ++ c' :: b, x).
Proof. intros -> Hop. unfold at_col. rewrite list_lookup_middle by done. rewrite Hop. rs. by rewrite insert_middle. Qed.
Lemma on_col_middle (a b : list ColVal) c (op : ColVal → res ColVal) i c' :
  i = length a → op c = Ok c' → on_col (a ++ c :: b) i op = Ok (a ++ c' :: b).
Proof. intros -> Hop. unfold on_col. rewrite list_lookup_middle by done. rewrite Hop. rs. by rewrite insert_middle. Qed.

(** ** The row added *)

Section OneRow.
Context (rows : list row) (time : Z) (fields : list InfluxField).
Hypothesis Hfields : fields_ok fields.
Hypothesis Hfits : ∀ nm, fits (col_of nm (rows ++ [row_of time fields])).

Abbreviation rows' := (rows ++ [row_of time fields]).

Lemma fields_NoDup : NoDup (Key <$> fields).
Proof. rewrite <- schema_names. apply keys_NoDup, fo_sorted, Hfields. Qed.

Lemma col_field f : f ∈ fields → col_of (Key f) rows' = col_of (Key f) rows ++ [Some (cell_of f)].
Proof. intros Hf. rewrite col_of_app. cbn. by rewrite cells_of_in by (done || apply fields_NoDup). Qed.
Lemma col_other nm : nm ∉ Key <$> fields → col_of nm rows' = col_of nm rows ++ [None].
Proof. intros Hn. rewrite col_of_app. cbn. by rewrite cells_of_notin. Qed.

Lemma field_col f c size :
  f ∈ fields → col_ok col_rep rows (field_schema f) c →
  ∃ c' size', appendFieldToCol c f size = Ok (c', (size', None)) ∧ col_ok col_rep rows' (field_schema f) c'.
Proof.
  intros Hf Hc. unfold col_ok in *. cbn [field_schema FType FName] in *. rewrite col_field by done. apply appendFieldToCol_spec; [|done|].
  - pose proof (fo_types _ Hfields) as Ht. rewrite Forall_forall in Ht. by apply Ht.
  - intros _. rewrite <- col_field by done. apply Hfits.
Qed.

Lemma append_same_spec fs' i pre cs tl size :
  Forall2 (col_ok col_rep rows) (field_schema <$> fs') cs → (∀ f, f ∈ fs' → f ∈ fields) → i = length pre →
  ∃ cs' size', append_same (pre ++ cs ++ tl) fs' i size = Ok (pre ++ cs' ++ tl, (size', None)) ∧ Forall2 (col_ok col_rep rows') (field_schema <$> fs') cs'.
Proof.
  revert i pre cs size. induction fs' as [|f fs' IH]; intros i pre cs size Hall Hin Hi; cbn in Hall.
  { apply Forall2_nil_inv_l in Hall as ->. by exists [], size. }
  apply Forall2_cons_inv_l in Hall as (c & cs0 & Hc & Hall & ->). destruct (field_col f c size) as (c' & size1 & E & Hc'); [apply Hin; left|done|].
  cbn [append_same app]. rewrite (at_col_middle pre (cs0 ++ tl) c _ i c' (size1, None)) by done. rs.
  destruct (IH (S i) (pre ++ [c']) cs0 size1 Hall) as (cs1 & size2 & E2 & Hall2); [intros g Hg; apply Hin; by right|rewrite length_app; cbn; lia|].
  rewrite <- !app_assoc in E2. cbn [app] in E2. rewrite E2. exists (c' :: cs1), size2. split; [by cbn [app]|by constructor].
Qed.

(** The record of the result, from its columns and the old time column. *)
Lemma append_time rec cs tc gs tf :
  Schema rec = gs ++ [tf] → ColVals rec = cs ++ [tc] → Forall2 (col_ok col_rep rows') gs cs → col_rep Field_Type_Int tc (time_cells (fst <$> rows)) →
  FType tf = Field_Type_Int → names_sorted gs → Forall (λ f, data_type (FType f)) gs → keys_in gs rows' → MetaTimes rec = None →
  ∃ cols, on_col (ColVals rec) (length cs) (λ c, AppendInteger c time) = Ok cols ∧ rec_rep col_rep (set_ColVals rec cols) gs tf rows'.
Proof.
  intros Hs Hc Hall Ht Htf Hsort Hty Hk Hm. destruct (append_word_spec Field_Type_Int tc _ time (or_introl eq_refl) Ht) as (tc' & E & Ht').
  rewrite Hc, (on_col_middle cs [] tc _ (length cs) tc') by done. eexists. split; [done|]. split; try done. exists cs, tc'. split; [done|]. split; [done|].
  by rewrite fmap_app, time_cells_app.
Qed.

Lemma append_fast_spec rec gs tf :
  rec_rep col_rep rec gs tf rows → gs = field_schema <$> fields →
  ∃ cols size, append_same (ColVals rec) fields 0 0 = Ok (cols, (size, None)) ∧
    ∃ cols', on_col cols (length fields) (λ c, AppendInteger c time) = Ok cols' ∧ rec_rep col_rep (set_ColVals rec cols') gs tf rows'.
Proof.
  intros [Hs (cs & tc & Hc & Hall & Ht) Htf Hsort Hty Hk Hm] ->. destruct (append_same_spec fields 0 [] cs [tc] 0 Hall) as (cs' & size & E & Hall'); [done|done|].
  cbn [app] in E. exists (cs' ++ [tc]), size. split; [by rewrite Hc|].
  assert (Hk' : keys_in (field_schema <$> fields) rows').
  { apply keys_in_app; [done|]. intros r nm c ->%list_elem_of_singleton Hnm. rewrite schema_names. destruct (decide (nm ∈ Key <$> fields)); [done|]. cbn in Hnm. by rewrite cells_of_notin in Hnm. }
  destruct (append_time (set_ColVals rec (cs' ++ [tc])) cs' tc _ tf Hs eq_refl Hall' Ht Htf Hsort Hty Hk' Hm) as (cols & E2 & Hrep).
  replace (length fields) with (length cs') by (apply Forall2_length in Hall'; by rewrite length_fmap in Hall'). exists cols. split; [exact E2|exact Hrep].
Qed.
End OneRow.
End Append.

(** * engine/mutable: the slow path of appending a row

    The walk through the schema and the fields keeps [slow_inv]: the columns before
    [recSchemaIdx] and the added ones have the new row, the others do not yet. *)

(** ** Columns reserved *)

Lemma blank_ok cols : Forall blank cols → cols_ok cols.
Proof. intros Hb. eapply Forall_impl; [exact Hb|]. by intros c (_ & _ & _ & Hok & _). Qed.

Lemma ReserveColVal_spec rec size :
  0 ≤ Z.of_nat (length (ColVals rec)) + size → cols_ok (ColVals rec) → cols_ok (ColSpare rec) →
  ∃ added spare, ReserveColVal rec size = Ok (mk_Record (Schema rec) (take (Z.to_nat (Z.of_nat (length (ColVals rec)) + size)) (ColVals rec) ++ added) spare (MetaTimes rec)) ∧
    Forall blank added ∧ length added = Z.to_nat size ∧ cols_ok spare.
Proof.
  intros Hn Hc Hs. unfold ReserveColVal. rewrite (proj2 (Z.ltb_ge _ _)) by lia. set (n := Z.to_nat (Z.of_nat (length (ColVals rec)) + size)). set (k := Z.to_nat (size - _)).
  set (extra := (ColSpare rec ++ replicate k empty_col)%list). assert (Hex : cols_ok extra) by (apply Forall_app; split; [done|]; apply Forall_replicate, empty_col_ok).
  rewrite skipn_firstn_comm. rewrite drop_app_length.
  destruct (init_cols_blank (take (n - length (ColVals rec)) extra)) as (added & -> & Hb & Hl); [by apply Forall_take|]. rs. exists added. eexists. split; [|split; [done|split]].
  - f_equal. f_equal. f_equal. destruct (decide (n ≤ length (ColVals rec))%nat); [by rewrite Nat.min_l by lia|]. rewrite Nat.min_r, !take_ge by lia. done.
  - rewrite Hl, length_take. unfold extra. rewrite length_app, length_replicate. unfold n, k. lia.
  - apply Forall_drop, Forall_app. done.
Qed.

Lemma ReserveColVal_grow rec n :
  cols_ok (ColVals rec) → cols_ok (ColSpare rec) →
  ∃ added spare, ReserveColVal rec (Z.of_nat n) = Ok (mk_Record (Schema rec) (ColVals rec ++ added) spare (MetaTimes rec)) ∧
    Forall blank added ∧ length added = n ∧ cols_ok spare.
Proof.
  intros Hc Hs. destruct (ReserveColVal_spec rec (Z.of_nat n) ltac:(lia) Hc Hs) as (added & spare & E & Hb & Hl & Hsp). exists added, spare. rewrite take_ge in E by lia.
  split; [done|]. split; [done|]. split; [lia|done].
Qed.

Lemma ReserveSchemaAndColVal_spec rec n :
  cols_ok (ColVals rec) → cols_ok (ColSpare rec) →
  ∃ bs spare, ReserveSchemaAndColVal rec n = Ok (mk_Record (Schema rec ++ replicate n zero_Field) (ColVals rec ++ bs) spare (MetaTimes rec)) ∧
    Forall blank bs ∧ length bs = n ∧ cols_ok spare.
Proof.
  intros Hc Hs. unfold ReserveSchemaAndColVal, ReserveSchema. destruct n as [|n].
  - exists [], (ColSpare rec). cbn. rewrite !app_nil_r. split; [by destruct rec|done].
  - apply (ReserveColVal_grow (set_Schema rec (Schema rec ++ replicate (S n) zero_Field)) (S n) Hc Hs).
Qed.

(** ** Merged names *)

Lemma merge_fields_sorted old added :
  names_sorted old → names_sorted added → (∀ f, f ∈ added → FName f ∉ FName <$> old) → names_sorted (merge_fields old added).
Proof.
  revert added. induction old as [|o old IH]; intros added Ho Ha Hd; [by rewrite merge_fields_nil_l|]. induction added as [|a added IHa]; [by rewrite merge_fields_nil_r|].
  cbn [merge_fields]. pose proof Ho as [Ho1 Ho2]%names_sorted_cons. pose proof Ha as [Ha1 Ha2]%names_sorted_cons. rewrite Forall_forall in Ho2, Ha2. destruct (String.ltb (FName o) (FName a)) eqn:E.
  - apply names_sorted_cons. split.
    { apply IH; [done|done|]. intros f Hf Hin. apply (Hd f Hf). cbn. by right. }
    rewrite Forall_forall. intros g Hg. rewrite merge_fields_perm in Hg. apply elem_of_app in Hg as [Hg|Hg]; [by apply Ho2|]. apply elem_of_cons in Hg as [->|Hg]; [done|].
    eapply lt_name_trans; [exact E|by apply Ha2].
  - assert (Hao : lt_name (FName a) (FName o)).
    { unfold lt_name. destruct (String.ltb (FName a) (FName o)) eqn:E2; [done|]. pose proof (lt_name_total _ _ E E2) as Heq. destruct (Hd a); [left|]. rewrite <- Heq. cbn. left. }
    change (names_sorted (a :: merge_fields (o :: old) added)). apply names_sorted_cons. split.
    { apply IHa; [done|]. intros f Hf. apply Hd. by right. }
    rewrite Forall_forall. intros g Hg. rewrite merge_fields_perm in Hg. apply elem_of_app in Hg as [Hg|Hg]; [|by apply Ha2]. apply elem_of_cons in Hg as [->|Hg]; [done|].
    eapply lt_name_trans; [exact Hao|by apply Ho2].
Qed.

(** The fields a record with the fields [fs] does not have. *)
Definition new_fields (fs : list Field) (fields : list InfluxField) : list Field := field_schema <$> filter (λ f, Key f ∉ FName <$> fs) fields.

Lemma new_fields_cons fs f fields : new_fields fs (f :: fields) = if decide (Key f ∉ FName <$> fs) then field_schema f :: new_fields fs fields else new_fields fs fields.
Proof. unfold new_fields. rewrite filter_cons. by case_decide. Qed.
Lemma new_fields_elem fs fields g : g ∈ new_fields fs fields ↔ ∃ f, g = field_schema f ∧ f ∈ fields ∧ Key f ∉ FName <$> fs.
Proof. unfold new_fields. rewrite list_elem_of_fmap. setoid_rewrite list_elem_of_filter. naive_solver. Qed.
Lemma new_fields_all fs fields : Forall (λ f, Key f ∉ FName <$> fs) fields → new_fields fs fields = field_schema <$> fields.
Proof. induction 1 as [|f fields Hf _ IH]; [done|]. rewrite new_fields_cons, decide_True, IH by done. done. Qed.
Lemma sorted_sublist l l' : l `sublist_of` l' → names_sorted l' → names_sorted l.
Proof.
  intros Hsub. induction Hsub as [|x l l' Hsub IH|x l l' Hsub IH]; intros Hs; [done| |].
  - apply names_sorted_cons in Hs as [Hs Hall]. apply names_sorted_cons. split; [by apply IH|]. rewrite Forall_forall in *. intros y Hy. apply Hall. eapply elem_of_submseteq; [exact Hy|by apply sublist_submseteq].
  - apply names_sorted_cons in Hs as [Hs _]. by apply IH.
Qed.
Lemma new_fields_sorted fs fields : names_sorted (field_schema <$> fields) → names_sorted (new_fields fs fields).
Proof. apply sorted_sublist. unfold new_fields. apply fmap_sublist, sublist_filter. Qed.

Section Slow.
Context `{GoRuntime} `{FloatConv} (rows : list row) (time : Z) (fields : list InfluxField) (fs : list Field) (tf : Field) (tc : ColVal).
Hypothesis Hfields : fields_ok fields.
Hypothesis Hfits : ∀ nm, fits (col_of nm (rows ++ [row_of time fields])).
Hypothesis Hkeys : keys_in fs rows.
Hypothesis Hsorted : names_sorted fs.
Hypothesis Htypes : Forall (λ f, data_type (FType f)) fs.
(** A field has the type its column has. *)
Hypothesis Hagree : ∀ s f, s ∈ fs → f ∈ fields → FName s = Key f → FType s = Type_ f.

Abbreviation rows' := (rows ++ [row_of time fields]).

Record slow_inv (rec : Record_) (recIdx : nat) (rest : list InfluxField) (colIdx : nat) (asch : list Field) : Prop := {
  si_schema : Schema rec = fs ++ tf :: asch;
  si_cols : ∃ dcs tcs acs, ColVals rec = dcs ++ tcs ++ tc :: acs ∧ Forall2 (col_ok col_rep rows') (take recIdx fs) dcs ∧
              Forall2 (col_ok col_rep rows) (drop recIdx fs) tcs ∧ Forall2 (col_ok col_rep rows') asch acs;
  si_idx : (recIdx ≤ length fs)%nat;
  si_colIdx : colIdx = (length fs + S (length asch))%nat;
  si_done : Forall (λ f, Key f ∉ FName <$> take recIdx fs) rest;
  si_todo : ∀ s, s ∈ drop recIdx fs → FName s ∈ Key <$> fields → FName s ∈ Key <$> rest;
  si_rest : ∀ f, f ∈ rest → f ∈ fields;
  si_sorted : names_sorted (field_schema <$> rest);
  si_tc : slice_ok (Bitmap tc);
  si_spare : cols_ok (ColSpare rec);
  si_meta : MetaTimes rec = None
}.

Lemma slow_cols_ok rec i rest ci asch : slow_inv rec i rest ci asch → cols_ok (ColVals rec).
Proof.
  intros [_ (dcs & tcs & acs & -> & Hd & Ht & Ha) _ _ _ _ _ _ Htc _ _]. apply Forall_app. split; [by eapply col_ok_bitmaps|]. apply Forall_app. split; [by eapply col_ok_bitmaps|].
  constructor; [done|by eapply col_ok_bitmaps].
Qed.

(** A column of the old schema is updated. *)
Lemma step_done rec i rest rest' ci asch s c' dcs c tcs acs :
  slow_inv rec i rest ci asch → fs !! i = Some s → ColVals rec = dcs ++ (c :: tcs) ++ tc :: acs →
  Forall2 (col_ok col_rep rows') (take i fs) dcs → Forall2 (col_ok col_rep rows) (drop (S i) fs) tcs → Forall2 (col_ok col_rep rows') asch acs → col_ok col_rep rows' s c' →
  Forall (λ f, Key f ∉ FName <$> take (S i) fs) rest' → (∀ s, s ∈ drop (S i) fs → FName s ∈ Key <$> fields → FName s ∈ Key <$> rest') → (∀ f, f ∈ rest' → f ∈ fields) → names_sorted (field_schema <$> rest') →
  slow_inv (set_ColVals rec (dcs ++ c' :: tcs ++ tc :: acs)) (S i) rest' ci asch.
Proof.
  intros Hinv Hs Hc Hd Ht Ha Hc' Hdn Htd Hr Hso. destruct Hinv. pose proof (lookup_lt_Some _ _ _ Hs). split; try done.
  exists (dcs ++ [c']), tcs, acs. split; [cbn; by rewrite <- !app_assoc|]. split; [|done]. rewrite (take_S_r _ _ _ Hs). apply Forall2_app; [done|]. by repeat constructor.
Qed.

Lemma drop_cols i s tcs : fs !! i = Some s → Forall2 (col_ok col_rep rows) (drop i fs) tcs → ∃ c tcs', tcs = c :: tcs' ∧ col_ok col_rep rows s c ∧ Forall2 (col_ok col_rep rows) (drop (S i) fs) tcs'.
Proof. intros Hs. rewrite (drop_S _ _ _ Hs). intros (c & tcs' & Hc & Hall & ->)%Forall2_cons_inv_l. eauto. Qed.

Lemma name_at i s : fs !! i = Some s → FName s ∉ FName <$> drop (S i) fs.
Proof.
  intros Hs. pose proof (keys_NoDup fs Hsorted) as Hnd. rewrite <- (take_drop_middle fs i s Hs) in Hnd. rewrite fmap_app in Hnd. cbn in Hnd.
  apply NoDup_app in Hnd as (_ & _ & Hnd). by apply NoDup_cons in Hnd as [Hn _].
Qed.

Lemma step_same rec i f rest ci asch s size :
  slow_inv rec i (f :: rest) ci asch → fs !! i = Some s → FName s = Key f →
  ∃ cols size', at_col (ColVals rec) i (λ c, appendFieldToCol c f size) = Ok (cols, (size', None)) ∧ slow_inv (set_ColVals rec cols) (S i) rest ci asch.
Proof.
  intros Hinv Hs Hn. pose proof Hinv as [_ (dcs & tcs & acs & Hc & Hd & Ht & Ha) Hi _ Hdn Htd Hr Hso _ _ _]. destruct (drop_cols i s tcs Hs Ht) as (c & tcs' & -> & Hsc & Ht').
  assert (Hf : f ∈ fields) by (apply Hr; left). assert (Hsf : s = field_schema f).
  { destruct s as [ty nm]. cbn in Hn. subst nm. unfold field_schema. f_equal. apply (Hagree (mk_Field ty (Key f)) f); [by eapply list_elem_of_lookup_2|done|done]. }
  destruct (field_col rows time fields Hfields Hfits f c size Hf) as (c' & size' & E & Hc'); [by rewrite <- Hsf|].
  assert (Hl : i = length dcs) by (apply Forall2_length in Hd; rewrite length_take in Hd; lia).
  exists (dcs ++ c' :: tcs' ++ tc :: acs), size'. split; [rewrite Hc; cbn [app]; by apply (at_col_middle dcs (tcs' ++ tc :: acs) c)|].
  cbn in Hso. apply names_sorted_cons in Hso as [Hso Hlt]. rewrite <- Hsf in Hc'. inversion Hdn as [|? ? _ Hdn']; subst.
  eapply step_done; try done.
  - rewrite (take_S_r _ _ _ Hs), fmap_app. rewrite Forall_forall in Hlt. rewrite Forall_forall in Hdn'. rewrite Forall_forall. intros g Hg [Hin|Hin%list_elem_of_singleton]%elem_of_app; [by apply (Hdn' g)|].
    specialize (Hlt (field_schema g) (list_elem_of_fmap_2 field_schema _ _ Hg)). cbn in Hlt, Hin. rewrite Hin in Hlt. by apply lt_name_irrefl in Hlt.
  - intros s' Hs' Hk. assert (Hs2 : s' ∈ drop (length dcs) fs) by (rewrite (drop_S _ _ _ Hs); by right). specialize (Htd s' Hs2 Hk). cbn in Htd. apply elem_of_cons in Htd as [Heq|]; [|done].
    destruct (name_at _ _ Hs). rewrite Hn, <- Heq. by apply list_elem_of_fmap_2.
  - intros g Hg. apply Hr. by right.
Qed.

Lemma step_pad rec i rest ci asch s :
  slow_inv rec i rest ci asch → fs !! i = Some s → FName s ∉ Key <$> rest →
  ∃ rec', pad_one rec i = Ok rec' ∧ slow_inv rec' (S i) rest ci asch.
Proof.
  intros Hinv Hs Hn. pose proof Hinv as [Hsch (dcs & tcs & acs & Hc & Hd & Ht & Ha) Hi _ Hdn Htd Hr Hso _ _ _]. destruct (drop_cols i s tcs Hs Ht) as (c & tcs' & -> & Hsc & Ht').
  assert (Hnf : FName s ∉ Key <$> fields). { intros Hin. apply Hn, Htd; [|done]. rewrite (drop_S _ _ _ Hs). left. }
  assert (Hpad : ∃ c', PadColVal c (FType s) 1 = Ok c' ∧ col_ok col_rep rows' s c'). { unfold col_ok. rewrite col_other by done. apply (col_pad (R := col_rep) (FType s) c _ 1 Hsc). }
  destruct Hpad as (c' & E & Hc'). unfold pad_one. rewrite Hsch, (lookup_app_l_Some _ _ _ _ Hs), Hc. cbn [app].
  assert (Hl : i = length dcs) by (apply Forall2_length in Hd; rewrite length_take in Hd; lia). rewrite (on_col_middle dcs (tcs' ++ tc :: acs) c _ i c' Hl E). rs. eexists. split; [done|].
  eapply step_done; try done.
  - rewrite (take_S_r _ _ _ Hs), fmap_app. rewrite Forall_forall in Hdn. rewrite Forall_forall. intros g Hg [Hin|Hin%list_elem_of_singleton]%elem_of_app; [by apply (Hdn g)|].
    cbn in Hin. apply Hn. rewrite <- Hin. by apply list_elem_of_fmap_2.
  - intros s' Hs' Hk. apply Htd; [|done]. rewrite (drop_S _ _ _ Hs). by right.
Qed.

(** A column is added. *)
Lemma append_new_spec rec f idx size S0 z S1 C0 b C1 :
  Schema rec = S0 ++ z :: S1 → ColVals rec = C0 ++ b :: C1 → blank b → idx = length S0 → idx = length C0 → f ∈ fields → Key f ∉ FName <$> fs →
  ∃ c size', append_new rec f idx (length rows) size = Ok (mk_Record (S0 ++ field_schema f :: S1) (C0 ++ c :: C1) (ColSpare rec) (MetaTimes rec), (size', None)) ∧
    col_ok col_rep rows' (field_schema f) c.
Proof.
  intros Hs Hc Hb HS HC Hf Hn. pose proof (fo_types _ Hfields) as Ht. rewrite Forall_forall in Ht.
  destruct (col_pad (R := col_rep) (Type_ f) b [] (length rows) (col_blank (R := col_rep) _ _ (Ht f Hf) Hb)) as (b' & Ep & Hb').
  destruct (field_col rows time fields Hfields Hfits f b' size Hf) as (c & size' & Ea & Hc').
  { unfold col_ok. cbn [field_schema FType FName]. by rewrite (col_of_absent fs (Key f) rows Hkeys Hn). }
  exists c, size'. split; [|done]. unfold append_new. rewrite (proj2 (Nat.leb_gt _ _)) by (rewrite Hs, length_app; cbn; lia). cbn [set_Schema Schema ColVals ColSpare MetaTimes].
  rewrite Hc, (on_col_middle C0 C1 b _ idx b' HC Ep). rs. rewrite (at_col_middle C0 C1 b' _ idx c (size', None) HC Ea). rs. rewrite Hs, HS, insert_middle. done.
Qed.

Lemma step_new rec i f rest ci asch size :
  slow_inv rec i (f :: rest) ci asch → Key f ∉ FName <$> fs →
  ∃ rec1 rec2 size', ReserveSchemaAndColVal rec 1 = Ok rec1 ∧ append_new rec1 f ci (length rows) size = Ok (rec2, (size', None)) ∧
    slow_inv rec2 i rest (S ci) (asch ++ [field_schema f]).
Proof.
  intros Hinv Hn. pose proof (slow_cols_ok _ _ _ _ _ Hinv) as Hok. destruct Hinv as [Hsch (dcs & tcs & acs & Hc & Hd & Ht & Ha) Hi Hci Hdn Htd Hr Hso Htc Hsp Hm].
  destruct (ReserveSchemaAndColVal_spec rec 1 Hok Hsp) as (added & spare & E & Hb & Hl & Hsp').
  destruct added as [|b [|? ?]]; try done. apply Forall_inv in Hb. eexists. pose proof (Forall2_length _ _ _ Hd) as L1. pose proof (Forall2_length _ _ _ Ht) as L2. pose proof (Forall2_length _ _ _ Ha) as L3.
  rewrite length_take in L1. rewrite length_drop in L2.
  edestruct (append_new_spec (mk_Record (Schema rec ++ [zero_Field]) (ColVals rec ++ [b]) spare (MetaTimes rec)) f ci size (Schema rec) zero_Field [] (ColVals rec) b []) as (c & size' & E2 & Hc'); try done.
  { rewrite Hsch, length_app. cbn. lia. }
  { rewrite Hc, !length_app. cbn. lia. }
  { apply Hr. left. }
  exists (mk_Record (Schema rec ++ [field_schema f]) (ColVals rec ++ [c]) spare (MetaTimes rec)), size'. split; [exact E|]. split; [exact E2|].
  cbn in Hso. apply names_sorted_cons in Hso as [Hso _]. inversion Hdn as [|? ? _ Hdn']; subst. split; cbn [Schema ColVals ColSpare MetaTimes]; try done.
  - rewrite Hsch, <- app_assoc. done.
  - exists dcs, tcs, (acs ++ [c]). rewrite Hc. split; [by rewrite <- !app_assoc|]. split; [done|]. split; [done|]. apply Forall2_app; [done|]. by repeat constructor.
  - rewrite length_app. cbn. lia.
  - intros s Hs Hk. specialize (Htd s Hs Hk). cbn in Htd. apply elem_of_cons in Htd as [Heq|]; [|done]. destruct Hn. rewrite <- Heq. apply list_elem_of_fmap_2. eapply elem_of_submseteq; [exact Hs|]. apply sublist_submseteq, sublist_drop.
  - intros g Hg. apply Hr. by right.
Qed.

(** The first loop ends with nothing left on one side. *)
Lemma slow_walk_spec fuel rec i rest ci asch size e :
  slow_inv rec i rest ci asch → (length fs - i + length rest < fuel)%nat → e = None →
  ∃ rec' size' i' rest' ci' asch', slow_walk fuel (mk_walk rec size e i rest ci) (length fs) (length rows) = Ok (mk_walk rec' size' None i' rest' ci') ∧
    slow_inv rec' i' rest' ci' asch' ∧ (i' = length fs ∨ rest' = []) ∧ asch' ++ new_fields fs rest' = asch ++ new_fields fs rest.
Proof.
  intros Hinv Hf ->. revert rec i rest ci asch size Hinv Hf. induction fuel as [|fuel IH]; intros rec i rest ci asch size Hinv Hf; [lia|]. cbn [slow_walk].
  destruct rest as [|f rest]; [by exists rec, size, i, [], ci, asch; eauto|]. pose proof (si_idx _ _ _ _ _ Hinv) as Hi.
  destruct (Nat.ltb_spec i (length fs)) as [Hlt|Hge]; [|exists rec, size, i, (f :: rest), ci, asch; split; [done|]; split; [done|]; split; [left; lia|done]].
  destruct (lookup_lt_is_Some_2 fs i Hlt) as [s Hs]. rewrite (si_schema _ _ _ _ _ Hinv), (lookup_app_l_Some _ _ _ _ Hs).
  assert (Hsub : s ∈ fs) by (by eapply list_elem_of_lookup_2). cbn [length] in Hf. case_bool_decide as Hn.
  - destruct (step_same rec i f rest ci asch s size Hinv Hs Hn) as (cols & size' & -> & Hinv'). rs. destruct (IH _ _ _ _ _ size' Hinv') as (rec' & size2 & i' & rest' & ci' & asch' & E & Hi' & Hor & Hnew); [lia|].
    exists rec', size2, i', rest', ci', asch'. split; [done|]. split; [done|]. split; [done|]. rewrite Hnew, new_fields_cons, decide_False; [done|]. intros Hni. apply Hni. rewrite <- Hn. by apply list_elem_of_fmap_2.
  - pose proof (si_sorted _ _ _ _ _ Hinv) as Hso. cbn in Hso. apply names_sorted_cons in Hso as [_ Hlt']. rewrite Forall_forall in Hlt'. destruct (String.ltb (FName s) (Key f)) eqn:Elt.
    + destruct (step_pad rec i (f :: rest) ci asch s Hinv Hs) as (rec1 & -> & Hinv').
      { cbn. intros [Heq|Hin]%elem_of_cons; [done|]. apply list_elem_of_fmap_1 in Hin as (g & Hg & Hin). specialize (Hlt' (field_schema g) (list_elem_of_fmap_2 field_schema _ _ Hin)). cbn in Hlt'.
        rewrite <- Hg in Hlt'. by apply (lt_name_irrefl (FName s)), (lt_name_trans _ (Key f)). }
      rs. destruct (IH _ _ _ _ _ size Hinv') as (rec' & size2 & i' & rest' & ci' & asch' & E & Hi' & Hor & Hnew); [cbn; lia|].
      exists rec', size2, i', rest', ci', asch'. done.
    + assert (Hfs : Key f ∉ FName <$> fs).
      { pose proof (si_done _ _ _ _ _ Hinv) as Hd. inversion Hd as [|? ? Hd1 _]; subst. rewrite <- (take_drop i fs), fmap_app, not_elem_of_app. split; [done|]. rewrite (drop_S _ _ _ Hs). cbn.
        assert (Hks : lt_name (Key f) (FName s)). { unfold lt_name. destruct (String.ltb (Key f) (FName s)) eqn:E2; [done|]. by pose proof (lt_name_total _ _ Elt E2). }
        intros [Heq|Hin]%elem_of_cons; [by rewrite Heq in Hn|]. pose proof Hsorted as Hss. rewrite <- (take_drop_middle fs i s Hs) in Hss. apply (sorted_sublist (s :: drop (S i) fs)), names_sorted_cons in Hss as [_ Hab]; [|by apply sublist_inserts_l].
        rewrite Forall_forall in Hab. apply list_elem_of_fmap_1 in Hin as (g & Hg & Hin). specialize (Hab g Hin). cbn in Hab. rewrite <- Hg in Hab. by apply (lt_name_irrefl (FName s)), (lt_name_trans _ (Key f)). }
      destruct (step_new rec i f rest ci asch size Hinv Hfs) as (rec1 & rec2 & size' & -> & Ea & Hinv'). rs. rewrite Ea. rs.
      destruct (IH _ _ _ _ _ size' Hinv') as (rec' & size2 & i' & rest' & ci' & asch' & E & Hi' & Hor & Hnew); [lia|].
      exists rec', size2, i', rest', ci', asch'. split; [done|]. split; [done|]. split; [done|]. rewrite Hnew, new_fields_cons, decide_True, <- app_assoc by done. done.
Qed.

Lemma pad_rest_spec n rec i ci asch rest :
  slow_inv rec i rest ci asch → (rest = [] ∨ n = 0%nat) → (n + i = length fs)%nat → ∃ rec', pad_rest rec i n = Ok rec' ∧ slow_inv rec' (length fs) rest ci asch.
Proof.
  revert rec i. induction n as [|n IH]; intros rec i Hinv Hor Hn; [replace (length fs) with i by lia; by exists rec|]. destruct Hor as [->|]; [|done]. cbn [pad_rest].
  destruct (lookup_lt_is_Some_2 fs i) as [s Hs]; [lia|]. destruct (step_pad rec i [] ci asch s Hinv Hs) as (rec1 & -> & Hinv'); [by apply not_elem_of_nil|]. rs. apply IH; [done|by left|lia].
Qed.

Lemma append_rest_spec rest rec idx size S0 C0 bs :
  Schema rec = S0 ++ replicate (length rest) zero_Field → ColVals rec = C0 ++ bs → Forall blank bs → length bs = length rest → idx = length S0 → idx = length C0 →
  Forall (λ f, f ∈ fields ∧ Key f ∉ FName <$> fs) rest →
  ∃ cs size', append_rest rec rest idx (length rows) size = Ok (mk_Record (S0 ++ (field_schema <$> rest)) (C0 ++ cs) (ColSpare rec) (MetaTimes rec), (size', None)) ∧
    Forall2 (col_ok col_rep rows') (field_schema <$> rest) cs.
Proof.
  revert rec idx size S0 C0 bs. induction rest as [|f rest IH]; intros rec idx size S0 C0 bs Hs Hc Hb Hl HS HC Hall.
  { destruct bs; [|done]. exists [], size. split; [|constructor]. cbn in *. rewrite <- Hs, <- Hc. by destruct rec. }
  destruct bs as [|b bs]; [done|]. inversion Hb; subst. inversion Hall as [|? ? [Hf Hn] Hall']; subst. cbn [append_rest length replicate] in *.
  edestruct (append_new_spec rec f (length S0) size S0 zero_Field (replicate (length rest) zero_Field) C0 b bs) as (c & size1 & -> & Hc'); try done. rs.
  destruct (IH (mk_Record (S0 ++ field_schema f :: replicate (length rest) zero_Field) (C0 ++ c :: bs) (ColSpare rec) (MetaTimes rec)) (S (length S0)) size1 (S0 ++ [field_schema f]) (C0 ++ [c]) bs)
    as (cs & size2 & -> & Hcs); cbn [Schema ColVals]; rewrite <- ?app_assoc, ?length_app; try done; [lia|cbn; lia|cbn; lia|].
  exists (c :: cs), size2. split; [done|by constructor].
Qed.

(** The whole slow path. *)
Lemma sorted_columns gs cs acs cols new :
  Forall2 (col_ok col_rep rows') fs cs → Forall2 (col_ok col_rep rows') new acs → length cols = S (length gs) → zip (gs ++ [tf]) cols ≡ₚ zip (fs ++ tf :: new) (cs ++ tc :: acs) →
  tf ∉ gs → tf ∉ fs → tf ∉ new → ∃ cs', cols = cs' ++ [tc] ∧ Forall2 (col_ok col_rep rows') gs cs'.
Proof.
  intros Hcs Hacs Hl Hz Hg Hf Hn. set (P := λ p : column, if decide (fst p = tf) then snd p = tc else col_ok col_rep rows' (fst p) (snd p)).
  assert (Hz' : ∀ ls ds, tf ∉ ls → Forall2 (col_ok col_rep rows') ls ds → Forall P (zip ls ds)).
  { intros ls ds Hni Hall. induction Hall as [|f c ls ds Hc _ IH]; [constructor|]. apply not_elem_of_cons in Hni as [Hne Hni]. cbn. constructor; [|by apply IH]. unfold P. cbn. by rewrite decide_False. }
  assert (HP : Forall P (zip (gs ++ [tf]) cols)).
  { rewrite Hz, zip_with_app by (by eapply Forall2_length). apply Forall_app. split; [by apply Hz'|]. cbn. constructor; [unfold P; cbn; by rewrite decide_True|by apply Hz']. }
  destruct (exists_last (l := cols)) as (cs' & x & ->); [by intros ->|]. rewrite length_app in Hl. cbn in Hl. rewrite zip_with_app in HP by lia. apply Forall_app in HP as [HP1 HP2].
  apply Forall_inv in HP2. unfold P in HP2. cbn in HP2. rewrite decide_True in HP2 by done. subst x. exists cs'. split; [done|].
  assert (Hlen : length cs' = length gs) by lia. clear -HP1 Hg Hlen. revert cs' HP1 Hlen. induction gs as [|g gs IH]; intros [|c cs'] HP1 Hlen; try done. cbn in HP1. inversion HP1 as [|? ? Hh Htl]; subst.
  apply not_elem_of_cons in Hg as [Hne Hg]. constructor; [|apply IH; [done|done|by injection Hlen]]. unfold P in Hh. cbn in Hh. by rewrite decide_False in Hh.
Qed.
End Slow.

Section SlowPath.
Context `{GoRuntime} `{FloatConv}.

Lemma names_notin (gs : list Field) tf : FName tf ∉ FName <$> gs → tf ∉ gs.
Proof. intros Hn Hin. apply Hn. by apply list_elem_of_fmap_2. Qed.

(** The new columns take their places. *)
Lemma place_new rows time fields fs tf tc new dcs ncs spare :
  let rows' := rows ++ [row_of time fields] in
  let rec := mk_Record (fs ++ tf :: new) (dcs ++ tc :: ncs) spare None in
  Forall2 (col_ok col_rep rows') fs dcs → Forall2 (col_ok col_rep rows') new ncs → names_sorted fs → names_sorted new → (∀ f, f ∈ new → FName f ∉ FName <$> fs) →
  FName tf = TimeField → FName tf ∉ FName <$> fs → FName tf ∉ FName <$> new →
  ∃ rec3 cs3, (if negb (S (length fs) =? length (ColVals rec))%nat then FastSortRecord rec (S (length fs)) else Ok rec) = Ok rec3 ∧
    Schema rec3 = merge_fields fs new ++ [tf] ∧ ColVals rec3 = cs3 ++ [tc] ∧ Forall2 (col_ok col_rep rows') (merge_fields fs new) cs3 ∧ MetaTimes rec3 = None ∧ ColSpare rec3 = spare.
Proof.
  intros rows' rec Hd Hn Hsort Hsn Hdisj Htn Htf1 Htf2. pose proof (Forall2_length _ _ _ Hd) as L1. pose proof (Forall2_length _ _ _ Hn) as L2.
  change (ColVals rec) with (dcs ++ tc :: ncs). rewrite length_app. cbn [length]. destruct (Nat.eqb_spec (S (length fs)) (length dcs + S (length ncs))) as [Heq|Hne]; cbn [negb].
  - assert (new = []) as -> by (destruct new; [done|cbn in L2; lia]). apply Forall2_nil_inv_l in Hn. unfold rec. rewrite Hn. eexists _, dcs. split; [done|]. rewrite merge_fields_nil_r. done.
  - destruct (FastSortRecord_moves rec fs tf new) as (cols & -> & Hz & Hlc); unfold rec; cbn [Schema ColVals]; rewrite ?length_app; cbn [length]; try done; [lia| | |].
    + apply Forall_forall. intros f Hf Heq. apply Htf1. rewrite Htn, <- Heq. by apply list_elem_of_fmap_2.
    + apply (NoDup_fmap_1 FName). rewrite fmap_app. cbn. apply NoDup_app. split; [by apply keys_NoDup|]. split; [|constructor; [done|by apply keys_NoDup]].
      intros nm Hnm. rewrite not_elem_of_cons. split; [by intros ->|]. intros (g & -> & Hg)%list_elem_of_fmap_1. by apply (Hdisj g).
    + destruct (sorted_columns rows time fields fs tf tc (merge_fields fs new) dcs ncs cols new Hd Hn) as (cs3 & -> & Hcs3); try (by apply names_notin); try done.
      { rewrite Hlc. unfold rec. cbn [Schema]. rewrite length_app, (Permutation_length (merge_fields_perm fs new)), length_app. cbn. lia. }
      { apply names_notin. by rewrite merge_fields_perm, fmap_app, not_elem_of_app. }
      eexists _, cs3. done.
Qed.

Lemma appendFieldsToRecordSlow_spec rec fs tf rows time fields :
  rec_rep col_rep rec fs tf rows → cols_ok (ColSpare rec) → FName tf = TimeField → Forall (λ f, FName f ≠ TimeField) fs → fields_ok fields →
  (∀ nm, fits (col_of nm (rows ++ [row_of time fields]))) → (∀ s f, s ∈ fs → f ∈ fields → FName s = Key f → FType s = Type_ f) →
  ∃ rec' size, appendFieldsToRecordSlow rec fields time = Ok (rec', (size, None)) ∧
    rec_rep col_rep rec' (merge_fields fs (new_fields fs fields)) tf (rows ++ [row_of time fields]) ∧ cols_ok (ColSpare rec').
Proof.
  intros Hrep Hsp Htn Hno Hfo Hfits Hagree. pose proof (rep_RowNums _ _ _ _ Hrep) as Hrn. pose proof (rec_rep_ok _ _ _ _ Hrep Hsp) as [_ Hok].
  destruct Hrep as [Hs (cs & tc & Hc & Hall & Ht) Htf Hsort Hty Hk Hm]. unfold appendFieldsToRecordSlow. rewrite Hrn. pose proof (Forall2_length _ _ _ Hall) as Hl.
  assert (Hcl : length (ColVals rec) = S (length fs)) by (rewrite Hc, length_app; cbn; lia). rewrite Hcl. cbn [Nat.sub]. rewrite Nat.sub_0_r.
  assert (Hinv : slow_inv rows time fields fs tf tc rec 0 fields (S (length fs)) []).
  { split; try done; [by exists [], cs, []|lia|cbn; lia|by apply Forall_forall; intros; apply not_elem_of_nil|apply (fo_sorted _ Hfo)|]. apply Forall_app in Hok as [Hok _]. rewrite Hc in Hok. apply Forall_app in Hok as [_ Hok]. by apply Forall_inv in Hok. }
  destruct (slow_walk_spec rows time fields fs tf tc Hfo Hfits Hk Hsort Hagree (S (length fs + length fields)) rec 0 fields _ [] 0 None Hinv ltac:(lia) eq_refl)
    as (rec1 & size1 & i1 & rest & ci & asch & E & Hinv1 & Hor & Hnew). rewrite E. rs. cbn [w_err w_rec w_recIdx w_fields w_colIdx w_size]. cbn [app] in Hnew. clear E.
  pose proof (si_idx _ _ _ _ _ _ _ _ _ _ _ Hinv1) as Hi1.
  destruct (pad_rest_spec rows time fields fs tf tc (length fs - i1) rec1 i1 ci asch rest Hinv1) as (rec2 & E2 & Hinv2); [destruct Hor; [right; lia|by left]|lia|]. rewrite E2. rs. clear E2.
  pose proof (slow_cols_ok _ _ _ _ _ _ _ _ _ _ _ Hinv2) as Hok2. destruct Hinv2 as [Hs2 (dcs & tcs & acs & Hc2 & Hd2 & Ht2 & Ha2) _ Hci Hdn Htd Hr _ _ Hsp2 Hm2].
  rewrite take_ge in Hd2, Hdn by lia. rewrite drop_ge in Ht2 by lia. apply Forall2_nil_inv_l in Ht2 as ->. cbn [app] in Hc2. rewrite (new_fields_all fs rest Hdn) in Hnew.
  destruct (ReserveSchemaAndColVal_spec rec2 (length rest) Hok2 Hsp2) as (bs & spare & -> & Hb & Hlb & Hsp3). rs. pose proof (Forall2_length _ _ _ Hd2) as L1. pose proof (Forall2_length _ _ _ Ha2) as L2.
  edestruct (append_rest_spec rows time fields fs Hfo Hfits Hk rest (mk_Record (Schema rec2 ++ replicate (length rest) zero_Field) (ColVals rec2 ++ bs) spare (MetaTimes rec2)) ci size1 (Schema rec2) (ColVals rec2) bs)
    as (ncs & size2 & E3 & Hncs); [done|done|done|done|rewrite Hs2, length_app; cbn; lia|rewrite Hc2, length_app; cbn; lia| |].
  { rewrite Forall_forall in Hdn. apply Forall_forall. intros f Hf. split; [by apply Hr|by apply Hdn]. }
  rewrite E3. rs. clear E3. cbn [Schema ColVals ColSpare MetaTimes]. rewrite Hs2, Hc2, Hm2, <- !app_assoc. cbn [app]. set (new := new_fields fs fields) in *.
  assert (Hnc : Forall2 (col_ok col_rep (rows ++ [row_of time fields])) new (acs ++ ncs)) by (rewrite <- Hnew; by apply Forall2_app). rewrite Hnew. clear Hncs Ha2. pose proof (Forall2_length _ _ _ Hnc) as L3.
  assert (Hsn : names_sorted new) by (apply new_fields_sorted, (fo_sorted _ Hfo)). assert (Hdisj : ∀ f, f ∈ new → FName f ∉ FName <$> fs) by (by intros f (g & -> & _ & Hg)%new_fields_elem).
  pose proof (merge_fields_sorted fs new Hsort Hsn Hdisj) as Hms. pose proof (fo_time _ Hfo) as Hft. rewrite Forall_forall in Hft. rewrite Forall_forall in Hno.
  assert (Htf1 : FName tf ∉ FName <$> fs) by (rewrite Htn; intros (g & Hg & Hin)%list_elem_of_fmap_1; by apply (Hno g)).
  assert (Htf2 : FName tf ∉ FName <$> new) by (rewrite Htn; intros (g & Hg & (f & -> & Hf & _)%new_fields_elem)%list_elem_of_fmap_1; by apply (Hft f)).
  assert (Hmk : keys_in (merge_fields fs new) (rows ++ [row_of time fields])).
  { apply keys_in_app; [apply (keys_in_mono fs); [|done]; intros f Hf; rewrite merge_fields_perm; apply elem_of_app; by left|]. intros r nm c ->%list_elem_of_singleton Hnm. rewrite merge_fields_perm, fmap_app, elem_of_app.
    destruct (decide (nm ∈ Key <$> fields)) as [Hin|]; [|by cbn in Hnm; rewrite cells_of_notin in Hnm]. destruct (decide (nm ∈ FName <$> fs)); [by left|right]. apply list_elem_of_fmap_1 in Hin as (f & -> & Hf).
    apply list_elem_of_fmap. exists (field_schema f). split; [done|]. apply new_fields_elem. eauto. }
  assert (Hmty : Forall (λ f, data_type (FType f)) (merge_fields fs new)).
  { rewrite merge_fields_perm. apply Forall_app. split; [done|]. apply Forall_forall. intros g (f & -> & Hf & _)%new_fields_elem. pose proof (fo_types _ Hfo) as Hto. rewrite Forall_forall in Hto. by apply Hto. }
  destruct (place_new rows time fields fs tf tc new dcs (acs ++ ncs) spare Hd2 Hnc Hsort Hsn Hdisj Htn Htf1 Htf2) as (rec3 & cs3 & E3 & Hs3 & Hc3 & Hall3 & Hm3 & Hsp4). cbn [ColVals] in E3.
  destruct (append_time rows time fields rec3 cs3 tc (merge_fields fs new) tf Hs3 Hc3 Hall3 Ht Htf Hms Hmty Hmk Hm3) as (cols & E4 & Hrep).
  rewrite E3. rs.
  replace (length (dcs ++ tc :: acs ++ ncs) - 1)%nat with (length cs3). 2: { rewrite <- (Forall2_length _ _ _ Hall3), (Permutation_length (merge_fields_perm fs new)), !length_app. cbn. rewrite length_app. rewrite length_app in L3. lia. }
  rewrite E4. rs. eexists _, _. split; [done|]. split; [exact Hrep|]. cbn. by rewrite Hsp4.
Qed.
End SlowPath.
