(* ===== verification/MemChunk.v ===== *)
(** * engine/mutable: what a chunk holds

    [chunk_rep]: the record of a chunk holds rows which, merged in the order they were
    written, are the rows of the chunk; they are already sorted while [timeAsd] is set.
    Appending a row and sorting keep it. *)

From stdpp Require Import gmap.
From Stdlib Require String.
From S2P Require Import Prelude GoString GoSlice GoSort Bitmap ColVal ColRefine ColStrings Column TimeSearch Compress Record RecordSchema RecordTable MergeSpec.
From S2P Require Import RecordSort SortColumns SortRefine SortProps FastSort MemTable MemAppend.

(** ** Rows *)

Lemma write_rows_snoc rows r : write_rows (rows ++ [r]) = write_row (write_rows rows) r.
Proof. unfold write_rows. by rewrite foldl_app. Qed.

Lemma sorted_rows_snoc rows r :
  sorted_rows ascending (rows ++ [r]) ↔ sorted_rows ascending rows ∧ ∀ q, q ∈ rows → fst q < fst r.
Proof.
  induction rows as [|q rows IH]; cbn [app].
  - split; [intros _; split; [by intros i j x y ? Hx|by intros q ?%elem_of_nil]|]. intros _. apply sorted_one.
  - rewrite !(sorted_rows_cons ascending), IH. unfold above, ascending. split.
    + intros [Ha [Hs Hl]]. split; [split; [|done]|].
      * intros x Hx. apply Ha, elem_of_app. by left.
      * intros x [->|Hx]%elem_of_cons; [|by apply Hl]. apply Z.ltb_lt, Ha, elem_of_app. right. left.
    + intros [[Ha Hs] Hl]. split; [|split; [done|]].
      * intros x [Hx| ->%list_elem_of_singleton]%elem_of_app; [by apply Ha|]. apply Z.ltb_lt, Hl. left.
      * intros x Hx. apply Hl. by right.
Qed.

Lemma write_rows_id rows : sorted_rows ascending rows → write_rows rows = rows.
Proof.
  induction rows as [|r rows IH] using rev_ind; intros Hs; [done|]. apply sorted_rows_snoc in Hs as [Hs Hl]. rewrite write_rows_snoc, IH by done. unfold write_row.
  apply (merge_disjoint_old ascending). intros n o [= <-] Ho. apply Z.ltb_lt. by apply Hl.
Qed.

Lemma write_rows_length rows : (length (write_rows rows) ≤ length rows)%nat.
Proof.
  induction rows as [|r rows IH] using rev_ind; [done|]. rewrite write_rows_snoc, length_app. unfold write_row. pose proof (merge_rows_length ascending [r] (write_rows rows)). cbn in *. lia.
Qed.
Lemma write_rows_nonempty rows : rows ≠ [] → write_rows rows ≠ [].
Proof.
  intros Hne Hw. destruct rows as [|r rows]; [done|]. pose proof (write_rows_times (r :: rows) (fst r)) as Ht. rewrite Hw in Ht. cbn in Ht. rewrite elem_of_nil, elem_of_cons in Ht. tauto.
Qed.
Lemma write_rows_tlen nm rows : (tlen (col_of nm (write_rows rows)) ≤ tlen (col_of nm rows))%nat.
Proof.
  rewrite <- done_rows_all. unfold done_rows. rewrite take_ge by lia. pose proof (tlen_foldl_push nm [] (snd <$> srt rows)) as Hle. cbn in Hle.
  rewrite (tlen_perm (col_of nm rows) (col_of nm (snd <$> srt rows))); [done|]. unfold col_of. apply fmap_Permutation. by rewrite (srt_perm rows), tags_snd.
Qed.

(** ** Chunks *)

(** One type per field name. *)
Definition typed (τ : string → FieldType) (fs : list Field) : Prop := Forall (λ f, FType f = τ (FName f)) fs.
Definition time_field : Field := mk_Field Field_Type_Int TimeField.

Record schema_ok (τ : string → FieldType) (fs : list Field) : Prop := {
  so_sorted : names_sorted fs;
  so_types : Forall (λ f, data_type (FType f)) fs;
  so_time : Forall (λ f, FName f ≠ TimeField) fs;
  so_typed : typed τ fs
}.

Record point_ok (τ : string → FieldType) (time : Z) (fields : list InfluxField) : Prop := {
  po_fields : fields_ok fields;
  po_typed : typed τ (field_schema <$> fields);
  po_time : in_s 64 time
}.

(** The sizes the column format can address. *)
Definition log_ok (log : list row) : Prop := Z.of_nat (length log) < 2 ^ 31 ∧ ∀ nm, Z.of_nat (tlen (col_of nm log)) < 2 ^ 32.

Lemma log_ok_prefix a b : log_ok (a ++ b) → log_ok a.
Proof.
  intros [Hl Ht]. rewrite length_app in Hl. split; [lia|]. intros nm. specialize (Ht nm). rewrite col_of_app, tlen_app in Ht. lia.
Qed.

(** The rows [phys] a record holds for the rows [log] written. *)
Record log_rep (phys log : list row) : Prop := {
  lr_rows : write_rows phys = write_rows log;
  lr_length : (length phys ≤ length log)%nat;
  lr_tlen nm : (tlen (col_of nm phys) ≤ tlen (col_of nm log))%nat;
  lr_times : Forall (in_s 64) (fst <$> phys)
}.

Lemma log_rep_snoc phys log r : log_rep phys log → in_s 64 (fst r) → log_rep (phys ++ [r]) (log ++ [r]).
Proof.
  intros [Hw Hl Ht Hi] Hr. split.
  - by rewrite !write_rows_snoc, Hw.
  - rewrite !length_app. lia.
  - intros nm. rewrite !col_of_app, !tlen_app. specialize (Ht nm). lia.
  - rewrite fmap_app. apply Forall_app. split; [done|by apply Forall_singleton].
Qed.
Lemma log_rep_write phys log : log_rep phys log → log_rep (write_rows phys) log.
Proof.
  intros [Hw Hl Ht Hi]. split.
  - by rewrite write_rows_id by apply write_rows_sorted.
  - pose proof (write_rows_length phys). lia.
  - intros nm. pose proof (write_rows_tlen nm phys). specialize (Ht nm). lia.
  - rewrite Forall_forall in *. intros t Ht'. apply Hi. by apply write_rows_times.
Qed.
Lemma log_rep_ok phys log : log_rep phys log → log_ok log → log_ok phys.
Proof. intros [_ Hl Ht _] [Hl' Ht']. split; [lia|]. intros nm. specialize (Ht nm). specialize (Ht' nm). lia. Qed.

(** Whether a field was ever set. *)
Definition mentions (log : list row) (nm : string) : bool := existsb (λ r : row, bool_decide (is_Some (snd r !! nm))) log.

Lemma mentions_spec log nm : mentions log nm = true ↔ ∃ r, r ∈ log ∧ is_Some (snd r !! nm).
Proof. unfold mentions. rewrite existsb_exists. setoid_rewrite bool_decide_eq_true. by setoid_rewrite <- list_elem_of_In. Qed.

Lemma mentions_snoc `{FloatConv} log time fields nm : fields_ok fields → mentions (log ++ [row_of time fields]) nm = true ↔ mentions log nm = true ∨ nm ∈ Key <$> fields.
Proof.
  intros Hf. unfold mentions. rewrite existsb_app, orb_true_iff. cbn. rewrite orb_false_r, bool_decide_eq_true. split; (intros [?|Hn]; [by left|right]).
  - destruct (decide (nm ∈ Key <$> fields)); [done|]. rewrite cells_of_notin in Hn by done. by destruct Hn.
  - apply list_elem_of_fmap_1 in Hn as (f & -> & Hin). rewrite cells_of_in by (done || (rewrite <- schema_names; apply keys_NoDup, fo_sorted, Hf)). done.
Qed.

Section Chunks.
Context `{GoRuntime} `{FloatConv} (τ : string → FieldType).

Definition chunk_rep (w : WriteRec) (log : list row) : Prop :=
  match wr_rec w with
  | None => log = []
  | Some rec => ∃ fs phys, rec_rep col_rep rec fs time_field phys ∧ cols_ok (ColSpare rec) ∧ schema_ok τ fs ∧ log_rep phys log ∧ phys ≠ [] ∧
      (timeAsd w = true → sorted_rows ascending phys) ∧ (∀ r, r ∈ phys → fst r ≤ lastAppendTime w) ∧ (∀ nm, nm ∈ FName <$> fs ↔ mentions log nm = true)
  end.

Lemma same_names_spec fs fields :
  length fs = length fields → same_names (fs ++ [time_field]) fields = bool_decide (FName <$> fs = Key <$> fields).
Proof.
  revert fs. induction fields as [|f fields IH]; intros [|s fs] Hl; try done. cbn [same_names app fmap list_fmap]. rewrite IH by (by injection Hl).
  repeat case_bool_decide; naive_solver congruence.
Qed.

Lemma checkSchemaIsSame_spec fs fields : checkSchemaIsSame (fs ++ [time_field]) fields = bool_decide (FName <$> fs = Key <$> fields).
Proof.
  unfold checkSchemaIsSame. rewrite length_app. cbn [length]. destruct (Z.eqb_spec (Z.of_nat (length fields)) (Z.of_nat (length fs + 1) - 1)) as [Hl|Hl]; cbn [negb].
  - apply same_names_spec. lia.
  - case_bool_decide as Hn; [|done]. apply (f_equal length) in Hn. rewrite !length_fmap in Hn. lia.
Qed.

Lemma typed_names fs gs : typed τ fs → typed τ gs → FName <$> fs = FName <$> gs → fs = gs.
Proof.
  intros Hf. revert gs. induction Hf as [|f fs Hf _ IH]; intros [|g gs] Hg Hn; try done. inversion Hg; subst. injection Hn as Hn1 Hn2. f_equal; [|by apply IH].
  destruct f, g. cbn in *. congruence.
Qed.

Lemma agree_typed fs fields : typed τ fs → typed τ (field_schema <$> fields) → ∀ s f, s ∈ fs → f ∈ fields → FName s = Key f → FType s = Type_ f.
Proof.
  unfold typed. rewrite !Forall_forall. intros Hf Hg s f Hs Hin Hn. rewrite (Hf s Hs), Hn. symmetry. apply (Hg (field_schema f)). by apply (list_elem_of_fmap_2 field_schema).
Qed.

Lemma point_schema time fields : point_ok τ time fields → schema_ok τ (field_schema <$> fields).
Proof.
  intros [[Hs Ht Hn] Hty _]. split; [done| | |done]; rewrite Forall_fmap; [exact Ht|exact Hn].
Qed.

Lemma merged_schema fs fields : schema_ok τ fs → schema_ok τ (field_schema <$> fields) → schema_ok τ (merge_fields fs (new_fields fs fields)).
Proof.
  intros [Hs Ht Hn Hty] [Hs' Ht' Hn' Hty']. assert (Hall : ∀ P : Field → Prop, Forall P fs → Forall P (field_schema <$> fields) → Forall P (merge_fields fs (new_fields fs fields))).
  { intros P Hp Hp'. rewrite merge_fields_perm. apply Forall_app. split; [done|]. rewrite Forall_forall in *. intros g (f & -> & Hf & _)%new_fields_elem. apply Hp'. by apply (list_elem_of_fmap_2 field_schema). }
  split; [|by apply Hall|by apply Hall|by apply Hall]. apply merge_fields_sorted; [done|by apply new_fields_sorted|]. by intros f (g & -> & _ & Hg)%new_fields_elem.
Qed.

(** A record without rows. *)
Lemma fresh_rep rec fs : fresh rec (fs ++ [time_field]) → schema_ok τ fs → rec_rep col_rep rec fs time_field [].
Proof.
  intros (Hs & Hb & Hl & Hm & _) [Hso Hty _ _]. rewrite length_app in Hl. cbn in Hl. destruct (exists_last (l := ColVals rec)) as (cs & tc & Hc); [intros Hn; rewrite Hn in Hl; cbn in Hl; lia|].
  rewrite Hc in Hb, Hl. rewrite length_app in Hl. cbn in Hl. apply Forall_app in Hb as [Hb Hbt]. apply Forall_inv in Hbt. split; try done; [|by intros r nm c ?%elem_of_nil].
  exists cs, tc. split; [done|]. split; [|by apply (col_blank (R := col_rep))]. assert (length cs = length fs) as Hlen by lia. clear -Hb Hlen Hty. revert cs Hb Hlen.
  induction Hty as [|f fs Hf _ IH]; intros [|c cs] Hb Hlen; try done. inversion Hb; subst. constructor; [|apply IH; [done|by injection Hlen]]. by apply (col_blank (R := col_rep)).
Qed.

Lemma appendFieldsToRecord_spec rec fs phys time fields same :
  rec_rep col_rep rec fs time_field phys → cols_ok (ColSpare rec) → schema_ok τ fs → point_ok τ time fields → log_ok (phys ++ [row_of time fields]) →
  (same = true → FName <$> fs = Key <$> fields) →
  ∃ rec' fs' size, appendFieldsToRecord rec fields time same = Ok (rec', (size, None)) ∧ rec_rep col_rep rec' fs' time_field (phys ++ [row_of time fields]) ∧
    cols_ok (ColSpare rec') ∧ schema_ok τ fs' ∧ (∀ nm, nm ∈ FName <$> fs' ↔ nm ∈ FName <$> fs ∨ nm ∈ Key <$> fields).
Proof.
  intros Hrep Hsp Hso Hp [_ Hfit] Hsame. assert (Hfits : ∀ nm, fits (col_of nm (phys ++ [row_of time fields]))) by exact Hfit. unfold appendFieldsToRecord. destruct same.
  - assert (Hfs : fs = field_schema <$> fields) by (apply typed_names; [apply Hso|apply Hp|]; rewrite schema_names; by apply Hsame).
    destruct (append_fast_spec phys time fields (po_fields _ _ _ Hp) Hfits rec fs time_field Hrep Hfs) as (cols & size & -> & cols' & E & Hrep'). rs. rewrite E. rs. eexists _, fs, _. split; [done|]. split; [done|]. split; [done|]. split; [done|].
    intros nm. rewrite (Hsame eq_refl). tauto.
  - destruct (appendFieldsToRecordSlow_spec rec fs time_field phys time fields Hrep Hsp eq_refl (so_time _ _ Hso) (po_fields _ _ _ Hp) Hfits) as (rec' & size & E & Hrep' & Hsp').
    { apply agree_typed; [apply Hso|apply Hp]. }
    eexists _, _, _. split; [exact E|]. split; [done|]. split; [done|]. split; [apply merged_schema; [done|by eapply point_schema]|].
    intros nm. rewrite merge_fields_perm, fmap_app, elem_of_app. split; (intros [?|Hn]; [by left|]).
    + right. apply list_elem_of_fmap_1 in Hn as (g & -> & (f & -> & Hf & _)%new_fields_elem). cbn. by apply list_elem_of_fmap_2.
    + apply list_elem_of_fmap_1 in Hn as (f & -> & Hf). destruct (decide (Key f ∈ FName <$> fs)); [by left|right]. apply list_elem_of_fmap. exists (field_schema f). split; [done|]. apply new_fields_elem. eauto.
Qed.

(** The record a row is appended to: the chunk's, or a new one. *)
Definition chunk_start (w : WriteRec) (log : list row) : Prop :=
  ∃ rec fs phys, wr_rec w = Some rec ∧ rec_rep col_rep rec fs time_field phys ∧ cols_ok (ColSpare rec) ∧ schema_ok τ fs ∧ log_rep phys log ∧
    (phys = [] → fresh rec (fs ++ [time_field]) ∧ schemaCopyed w = false ∧ log = []) ∧ (phys ≠ [] → ∀ nm, nm ∈ FName <$> fs ↔ mentions log nm = true) ∧ (timeAsd w = true → sorted_rows ascending phys) ∧ (∀ r, r ∈ phys → fst r ≤ lastAppendTime w).

Lemma chunk_rep_start w log gs :
  chunk_rep w log → schema_ok τ gs →
  ∃ w', match wr_rec w with None => WriteRec_init w (gs ++ [time_field]) | Some _ => Ok w end = Ok w' ∧ chunk_start w' log.
Proof.
  unfold chunk_rep. destruct (wr_rec w) as [rec|] eqn:E.
  - intros (fs & phys & Hrep & Hsp & Hso & Hlog & Hne & Ha & Hl & Hmen) _. exists w. split; [done|]. exists rec, fs, phys. rewrite E. by repeat (split; [done|]).
  - intros -> Hso. unfold WriteRec_init. rewrite E. rs. eexists. split; [done|]. pose proof (NewRecordBuilder_fresh (gs ++ [time_field])) as Hf. eexists _, gs, []. split; [done|].
    split; [by apply fresh_rep|]. split; [apply Hf|]. split; [done|]. split; [split; try done; constructor|]. split; [done|]. split; [done|]. split; [by intros _ i j x y ? Hx|by intros r ?%elem_of_nil].
Qed.

(** A new record gets the schema of its first row. *)
Lemma reschema_fresh rec schema fs : fresh rec schema → ∃ rec', ReserveColVal (set_Schema rec fs) (Z.of_nat (length fs) - Z.of_nat (length (ColVals rec))) = Ok rec' ∧ fresh rec' fs.
Proof.
  intros (Hs & Hb & Hl & Hm & Hsp). destruct (ReserveColVal_spec (set_Schema rec fs) (Z.of_nat (length fs) - Z.of_nat (length (ColVals rec)))) as (added & spare & -> & Hba & Hla & Hsp'); cbn [set_Schema ColVals Schema ColSpare MetaTimes];
    [lia|by apply blank_ok|done|]. eexists. split; [done|]. split; [done|]. cbn [ColVals MetaTimes ColSpare]. split; [apply Forall_app; split; [by apply Forall_take|done]|]. split; [|done].
  rewrite length_app, length_take, Hla. lia.
Qed.

Lemma appendFields_spec w log gs time fields :
  chunk_rep w log → schema_ok τ gs → point_ok τ time fields → log_ok (log ++ [row_of time fields]) →
  ∃ w', appendFields (gs ++ [time_field]) w time fields = Ok (w', None) ∧ chunk_rep w' (log ++ [row_of time fields]).
Proof.
  intros Hw Hg Hp Hlog. unfold appendFields. destruct (chunk_rep_start w log gs Hw Hg) as (w1 & -> & Hst). rs. destruct Hst as (rec & fs & phys & -> & Hrep & Hsp & Hso & Hlr & Hfresh & Hmen & Ha & Hl).
  rewrite (rep_RowNums _ _ _ _ Hrep), (rr_schema _ _ _ _ _ Hrep), checkSchemaIsSame_spec. pose proof (point_schema _ _ Hp) as Hps.
  assert (Hpre : ∃ rec' same copied fs', (if negb (bool_decide (FName <$> fs = Key <$> fields)) && negb (schemaCopyed w1)
      then let copySchema := if (length phys =? 0)%nat then genMsSchema fields else fs ++ [time_field] in
           let! rec' := ReserveColVal (set_Schema rec copySchema) (Z.of_nat (length copySchema) - Z.of_nat (length (ColVals rec))) in
           Ok (rec', (length phys =? 0)%nat || bool_decide (FName <$> fs = Key <$> fields), true)
      else Ok (rec, bool_decide (FName <$> fs = Key <$> fields), schemaCopyed w1)) = Ok (rec', same, copied) ∧
    rec_rep col_rep rec' fs' time_field phys ∧ cols_ok (ColSpare rec') ∧ schema_ok τ fs' ∧ (same = true → FName <$> fs' = Key <$> fields) ∧
    (∀ nm, nm ∈ FName <$> fs' ∨ nm ∈ Key <$> fields ↔ mentions log nm = true ∨ nm ∈ Key <$> fields)).
  { assert (Hold : phys ≠ [] → ∀ nm, nm ∈ FName <$> fs ∨ nm ∈ Key <$> fields ↔ mentions log nm = true ∨ nm ∈ Key <$> fields) by (intros Hne nm; by rewrite (Hmen Hne)).
    assert (Hnew : phys = [] → ∀ nm, mentions log nm = true → False) by (intros Hpe nm; by destruct (Hfresh Hpe) as (_ & _ & ->)).
    case_bool_decide as Hn.
    { exists rec, true, (schemaCopyed w1), fs. repeat (split; [done|]). destruct (decide (phys = [])) as [Hpe|Hpe]; [|by apply Hold]. intros nm. rewrite Hn. specialize (Hnew Hpe nm). tauto. }
    destruct (schemaCopyed w1) eqn:Ecp; [exists rec, false, true, fs; repeat (split; [done|]); apply Hold; intros Hpe; by destruct (Hfresh Hpe) as (_ & ? & _)|]. cbn [negb andb]. destruct (Nat.eqb_spec (length phys) 0) as [Hz|Hz].
    - apply length_zero_iff_nil in Hz as ->. destruct (reschema_fresh rec _ (genMsSchema fields) (proj1 (Hfresh eq_refl))) as (rec' & E & Hf). cbv zeta. rewrite E. rs. eexists _, _, _, (field_schema <$> fields).
      split; [done|]. split; [by apply fresh_rep|]. split; [apply Hf|]. split; [done|]. split; [intros _; apply schema_names|]. intros nm. rewrite schema_names. specialize (Hnew eq_refl nm). tauto.
    - cbv zeta. destruct (ReserveColVal_spec (set_Schema rec (fs ++ [time_field])) (Z.of_nat (length (fs ++ [time_field])) - Z.of_nat (length (ColVals rec)))) as (added & spare & E & _ & Hla & Hsp').
      { cbn [set_Schema ColVals]. lia. }
      { pose proof (rec_rep_ok _ _ _ _ Hrep Hsp) as [_ Hok]. by apply Forall_app in Hok as [Hok _]. }
      { done. }
      assert (Hcl : length (ColVals rec) = length (fs ++ [time_field])). { destruct (rr_cols _ _ _ _ _ Hrep) as (cs & tc & -> & Hall & _). rewrite !length_app, (Forall2_length _ _ _ Hall). done. }
      cbn [set_Schema ColVals Schema MetaTimes] in *. rewrite E. rs. rewrite take_ge by lia. destruct added; [|cbn in Hla; lia]. rewrite app_nil_r. eexists _, _, _, fs. split; [done|].
      assert (Hne : phys ≠ []) by (by intros ->). split; [|repeat (split; [done|]); by apply Hold]. pose proof (rr_schema _ _ _ _ _ Hrep) as Hsch. rewrite <- Hsch. destruct Hrep. split; done. }
  destruct Hpre as (rec' & same & copied & fs' & E & Hrep' & Hsp' & Hso' & Hsame & Hmen'). cbv zeta in E |- *. rewrite E. rs. clear E.
  assert (Hlp : log_ok (phys ++ [row_of time fields])) by (eapply log_rep_ok; [apply log_rep_snoc; [done|apply Hp]|done]).
  destruct (appendFieldsToRecord_spec rec' fs' phys time fields same Hrep' Hsp' Hso' Hp Hlp Hsame) as (rec2 & fs2 & size & E & Hrep2 & Hsp2 & Hso2 & Hnm2).
  assert (Hfinal : ∀ nm, nm ∈ FName <$> fs2 ↔ mentions (log ++ [row_of time fields]) nm = true) by (intros nm; rewrite Hnm2, mentions_snoc by apply Hp; apply Hmen').
  assert (Hlr' : log_rep (phys ++ [row_of time fields]) (log ++ [row_of time fields])) by (apply log_rep_snoc; [done|apply Hp]).
  destruct (Z.leb_spec time (lastAppendTime w1)) as [Hle|Hgt]; rewrite E; rs; eexists; (split; [done|]); exists fs2, (phys ++ [row_of time fields]); (split; [done|]); (split; [done|]); (split; [done|]); (split; [done|]);
    (split; [by destruct phys|]); cbn [timeAsd lastAppendTime]; (split; [|split; [|done]]); try done.
  - intros r [Hr| ->%list_elem_of_singleton]%elem_of_app; [by apply Hl|done].
  - intros Hasd. apply sorted_rows_snoc. split; [by apply Ha|]. intros q Hq. specialize (Hl q Hq). cbn. lia.
  - intros r [Hr| ->%list_elem_of_singleton]%elem_of_app; [specialize (Hl r Hr); lia|done].
Qed.

Lemma SortRecord_spec w log h :
  chunk_rep w log → log_ok log → helper_ok h →
  ∃ h' w', WriteRec_SortRecord h w = Ok (h', w') ∧ helper_ok h' ∧ chunk_rep w' log ∧ lastAppendTime w' = lastAppendTime w ∧ (wr_rec w' = None ↔ wr_rec w = None) ∧ timeAsd w' = true.
Proof.
  intros Hw Hlog Hh. unfold WriteRec_SortRecord. destruct (timeAsd w) eqn:Ea; [by exists h, w|]. unfold chunk_rep in *. destruct (wr_rec w) as [rec|] eqn:E; [|by eexists _, _].
  destruct Hw as (fs & phys & Hrep & Hsp & Hso & Hlr & Hne & _ & Hl & Hmen). pose proof (log_rep_ok _ _ Hlr Hlog) as [Hlp _].
  destruct (Sort_spec h rec fs time_field phys Hrep Hsp Hh (lr_times _ _ Hlr) Hlp) as (h' & out & -> & Hrep' & Hsp' & Hh'). rs. eexists h', _. split; [done|]. split; [done|]. cbn [wr_rec timeAsd lastAppendTime]. split; [|done].
  exists fs, (write_rows phys). split; [done|]. split; [done|]. split; [done|]. split; [by apply log_rep_write|]. split; [by apply write_rows_nonempty|]. split; [intros _; apply write_rows_sorted|].
  split; [|done]. intros r Hr. assert (Ht : fst r ∈ fst <$> phys) by (apply write_rows_times, list_elem_of_fmap_2; done). apply list_elem_of_fmap_1 in Ht as (q & -> & Hq). by apply Hl.
Qed.

(** A sorted chunk holds the table of its rows. *)
Lemma chunk_sorted w log rec : chunk_rep w log → timeAsd w = true → wr_rec w = Some rec → ∃ fs, rec_rep col_rep rec fs time_field (write_rows log) ∧ cols_ok (ColSpare rec) ∧ schema_ok τ fs ∧ log ≠ [] ∧ (∀ nm, nm ∈ FName <$> fs ↔ mentions log nm = true) ∧
  Forall (in_s 64) (fst <$> write_rows log).
Proof.
  unfold chunk_rep. intros Hw Ha E. rewrite E in Hw. destruct Hw as (fs & phys & Hrep & Hsp & Hso & Hlr & Hne & Hs & _ & Hmen). specialize (Hs Ha). exists fs. rewrite <- (lr_rows _ _ Hlr), write_rows_id by done.
  split; [done|]. split; [done|]. split; [done|]. split; [|split; [done|apply Hlr]]. intros ->. destruct Hlr as [_ Hl _ _]. destruct phys; [done|cbn in Hl; lia].
Qed.
End Chunks.
