(* ===== verification/MemRead.v ===== *)
(** * engine/mutable: reading and flushing the memtable (table.go, ts_table.go; record.go)

    A read sorts the chunk of the series if need be and copies the rows of the time range,
    in either direction, for the columns asked for; the snapshot that is being flushed and
    the active table are merged.  A flush visits the chunks in the order of their series ids
    and splits each by the time up to which the series is already in ordered files. *)

From stdpp Require Import gmap.
From Stdlib Require String.
From S2P Require Import Prelude GoSlice GoSort Bitmap ColVal TimeSearch Compress Record RecordSort MemTable.

(** ** Copying a record *)

(** -1 when there is no such column. *)
Definition FieldIndexsFast (rec : Record_) (colName : string) : Z :=
  let schemaLen := Z.of_nat (length (Schema rec)) - 1 in
  if negb (bool_decide (colName = TimeField)) then
    let idx := Search (Z.to_nat schemaLen) (λ i, match Schema rec !! i with Some f => negb (String.ltb (FName f) colName) | None => false end) in
    let found := match Schema rec !! idx with Some f => bool_decide (FName f = colName) | None => false end in
    if (Z.of_nat idx <? schemaLen) && found then Z.of_nat idx else -1
  else schemaLen.

Section Read.
Context `{GoRuntime} `{FloatConv} {GS : GoSort}.

(** The rows from [start + n - 1] down to [start], one by one. *)
Fixpoint append_down (dst src : ColVal) (typ : FieldType) (start n : nat) : res ColVal :=
  match n with
  | O => Ok dst
  | S n => let! dst := AppendColVal dst src typ (start + n) (start + n + 1) in append_down dst src typ start n
  end.
Definition append_dir (ascending_ : bool) (dst : ColVal) (src : column) (start end_ : nat) : res ColVal :=
  if ascending_ then AppendColVal dst (snd src) (FType (fst src)) start (end_ + 1)
  else append_down dst (snd src) (FType (fst src)) start (end_ - start + 1).

Definition src_column (srcRec : Record_) (i : nat) : res column :=
  match ColVals srcRec !! i, Schema srcRec !! i with Some c, Some f => Ok (f, c) | _, _ => Panic end.

(** The columns of [fs], from index [i]; the flag tells whether one of them exists. *)
Fixpoint copy_cols (ascending_ : bool) (rec srcRec : Record_) (fs : list Field) (i : nat) (start end_ : nat) (isExist : bool) : res (Record_ * bool) :=
  match fs with
  | [] => Ok (rec, isExist)
  | f :: fs =>
      let colIndex := FieldIndexsFast srcRec (FName f) in
      if 0 <=? colIndex then
        let! src := src_column srcRec (Z.to_nat colIndex) in
        let! cols := on_col (ColVals rec) i (λ c, append_dir ascending_ c src start end_) in
        copy_cols ascending_ (set_ColVals rec cols) srcRec fs (S i) start end_ true
      else
        match Schema rec !! i with
        | None => Panic
        | Some g =>
            let! cols := on_col (ColVals rec) i (λ c, PadColVal c (FType g) (end_ - start + 1)) in
            copy_cols ascending_ (set_ColVals rec cols) srcRec fs (S i) start end_ isExist
        end
  end.

Definition CopyImpl (rec srcRec : Record_) (setSchema reserveColVal ascending_ : bool) (startIndex endIndex : Z) (schema : list Field) : res Record_ :=
  if startIndex <=? endIndex then
    if (startIndex <? 0) then Panic
    else
      let start := Z.to_nat startIndex in
      let end_ := Z.to_nat endIndex in
      let rec := mk_Record (Schema rec) (ColVals rec) (ColSpare rec) (match MetaTimes srcRec with Some m => Some m | None => MetaTimes rec end) in
      let rec := if setSchema then set_Schema rec schema else rec in
      let! rec := if reserveColVal then ReserveColVal rec (Z.of_nat (length schema)) else Ok rec in
      let! (rec, isExist) := copy_cols ascending_ rec srcRec (body schema) 0 start end_ false in
      if isExist then
        let! src := src_column srcRec (length (ColVals srcRec) - 1) in
        let! cols := on_col (ColVals rec) (length schema - 1) (λ c, append_dir ascending_ c src start end_) in
        Ok (set_ColVals rec cols)
      else Ok rec
  else Ok rec.

Definition zero_Record : Record_ := mk_Record [] [] [] None.

Definition Copy (rec : Record_) (ascending_ : bool) (tr : option (Z * Z)) (schema : list Field) : res (option Record_) :=
  let times := Times rec in
  let! (startIdx, endIdx) :=
    match tr with
    | None => Ok (0, Z.of_nat (length times) - 1)
    | Some (min, max) =>
        let! s := GetTimeRangeStartIndex times 0 min in
        let! e := GetTimeRangeEndIndex times 0 max in
        Ok (s, e)
    end in
  let! copyRec := CopyImpl zero_Record rec true true ascending_ startIdx endIdx schema in
  Ok (if (RowNums copyRec =? 0)%nat then None else Some copyRec).

(** [sort.Sort(rec)]: the columns by name, the time column last. *)
Definition col_less (a b : column) : bool :=
  if bool_decide (FName (fst a) = TimeField) then false
  else if bool_decide (FName (fst b) = TimeField) then true
  else String.ltb (FName (fst a)) (FName (fst b)).
Definition sort_cols (rec : Record_) : Record_ :=
  let cols := sort_by col_less (columns rec) in
  mk_Record (fst <$> cols) (snd <$> cols) (ColSpare rec) (MetaTimes rec).

(** ** Reading a table *)

Definition set_ms (t : MemTable) (name : string) (ms : MsInfo) : MemTable := mk_MemTable (<[name := ms]> (msInfoMap t)) (mt_idx t).

(** [hlp] is the sort helper that the pool gives; it goes back to the pool. *)
Definition getSortedRecSafe (hlp : ColumnSortHelper) (t : MemTable) (msName : string) (id : Z) (tr : Z * Z) (schema : list Field) (ascending_ : bool)
    : res (ColumnSortHelper * MemTable * option Record_) :=
  match msInfoMap t !! msName with
  | None => Ok (hlp, t, None)
  | Some ms =>
      match sidMap ms !! id with
      | None => Ok (hlp, t, None)
      | Some chunk =>
          match wr_rec chunk with
          | None => Ok (hlp, t, None)
          | Some writeRec =>
              if (RowNums writeRec =? 0)%nat then Ok (hlp, t, None)
              else
                let! (hlp, chunk) := WriteRec_SortRecord hlp chunk in
                let t := set_ms t msName (set_chunk ms id chunk) in
                match wr_rec chunk with
                | None => Panic
                | Some rec => let! out := Copy rec ascending_ (Some tr) schema in Ok (hlp, t, out)
                end
          end
      end
  end.

Definition mt_values (hlp : ColumnSortHelper) (t : MemTable) (msName : string) (id : Z) (tr : Z * Z) (schema : list Field) (ascending_ : bool)
    : res (ColumnSortHelper * MemTable * option Record_) :=
  let! (hlp, t, rec) := getSortedRecSafe hlp t msName id tr schema ascending_ in
  Ok (hlp, t, sort_cols <$> rec).

Record MemTables := mk_MemTables { readEnable : bool; activeTbl : option MemTable; snapshotTbl : option MemTable }.

Definition opt_values (hlp : ColumnSortHelper) (t : option MemTable) (msName : string) (id : Z) (tr : Z * Z) (schema : list Field) (ascending_ : bool)
    : res (ColumnSortHelper * option MemTable * option Record_) :=
  match t with
  | None => Ok (hlp, None, None)
  | Some t => let! (hlp, t, rec) := mt_values hlp t msName id tr schema ascending_ in Ok (hlp, Some t, rec)
  end.

Definition Values (hlp : ColumnSortHelper) (m : MemTables) (msName : string) (id : Z) (tr : Z * Z) (schema : list Field) (ascending_ : bool)
    : res (ColumnSortHelper * MemTables * option Record_) :=
  if negb (readEnable m) then Ok (hlp, m, None)
  else
    let! (hlp, snap, snapshotRec) := opt_values hlp (snapshotTbl m) msName id tr schema ascending_ in
    let! (hlp, act, activeRec) := opt_values hlp (activeTbl m) msName id tr schema ascending_ in
    let m := mk_MemTables (readEnable m) act snap in
    match activeRec, snapshotRec with
    | None, _ => Ok (hlp, m, snapshotRec)
    | _, None => Ok (hlp, m, activeRec)
    | Some a, Some s =>
        let! rec := if ascending_ then MergeRecord zero_Record a s else MergeRecordDescend zero_Record a s in
        Ok (hlp, m, Some rec)
    end.

(** ** Flushing *)

(** One column is split; a part without values is left out of its record. *)
Definition put_part (rec : Record_) (idx : nat) (field : Field) (col : ColVal) (start end_ : nat) : res (Record_ * nat) :=
  match ColVals rec !! idx with
  | None => Panic
  | Some c =>
      let! c := Init c in
      let! c := AppendColVal c col (FType field) start end_ in
      let rec := set_ColVals rec (<[idx := c]> (ColVals rec)) in
      if negb (NilCount c =? Z.of_nat (Len c)) then Ok (set_Schema rec (Schema rec ++ [field]), S idx) else Ok (rec, idx)
  end.

Fixpoint split_cols (cols : list column) (n : nat) (orderRec unOrderRec : Record_) (orderIdx unOrderIdx : nat) : res (Record_ * Record_ * nat * nat) :=
  match cols with
  | [] => Ok (orderRec, unOrderRec, orderIdx, unOrderIdx)
  | (field, col) :: cols =>
      if (length (ColVals orderRec) <=? orderIdx)%nat then Panic
      else
        let! (unOrderRec, unOrderIdx) := put_part unOrderRec unOrderIdx field col 0 n in
        let! (orderRec, orderIdx) := put_part orderRec orderIdx field col n (Len col) in
        split_cols cols n orderRec unOrderRec orderIdx unOrderIdx
  end.

(** [rec.ColVals = rec.ColVals[:idx]] *)
Definition cut_cols (rec : Record_) (idx : nat) : Record_ := mk_Record (Schema rec) (take idx (ColVals rec)) (drop idx (ColVals rec) ++ ColSpare rec) (MetaTimes rec).

(** The rows after [time], the others, and the pool of the two records. *)
Definition SplitRecordByTime (rec : Record_) (pool : Record_ * Record_) (time : Z) : res (option Record_ * option Record_ * (Record_ * Record_)) :=
  let times := Times rec in
  match times, last times with
  | t0 :: _, Some tn =>
      if tn <=? time then Ok (None, Some rec, pool)
      else if time <? t0 then Ok (Some rec, None, pool)
      else
        let n := Search (length times) (λ i, match times !! i with Some t => time <? t | None => false end) in
        let! orderRec := ReserveColVal (Reset (fst pool)) (Z.of_nat (length (Schema rec))) in
        let! unOrderRec := ReserveColVal (Reset (snd pool)) (Z.of_nat (length (Schema rec))) in
        if (length (ColVals rec) <? length (Schema rec))%nat then Panic
        else
          let! (orderRec, unOrderRec, orderIdx, unOrderIdx) := split_cols (columns rec) n orderRec unOrderRec 0 0 in
          let orderRec := cut_cols orderRec orderIdx in
          let unOrderRec := cut_cols unOrderRec unOrderIdx in
          Ok (Some orderRec, Some unOrderRec, (orderRec, unOrderRec))
  | _, _ => Panic
  end.

Definition GetAllSid (ms : MsInfo) : list Z := sort_by Z.ltb (fst <$> map_to_list (sidMap ms)).

(** [flushTime] of a series: [mmsIdTime] is nil when the sequencer is not loaded, and is
    asked only when there are ordered files. *)
Definition flush_time (hasOrderFile : bool) (mmsIdTime : option (Z → Z)) (sid : Z) : Z :=
  if hasOrderFile then match mmsIdTime with Some get => get sid | None => 2 ^ 63 - 1 end else -2 ^ 63.

Definition opt_rows (rec : option Record_) : nat := match rec with Some r => RowNums r | None => 0 end.

(** The records that are handed to the builders of the ordered and of the unordered file, in
    this order. *)
Record flushed := mk_flushed { fl_order : list (Z * Record_); fl_unorder : list (Z * Record_) }.

Fixpoint flush_loop (time : Z → Z) (sids : list Z) (hlp : ColumnSortHelper) (ms : MsInfo) (pool : Record_ * Record_) (out : flushed) : res (ColumnSortHelper * MsInfo * flushed) :=
  match sids with
  | [] => Ok (hlp, ms, out)
  | sid :: sids =>
      match sidMap ms !! sid with
      | None => Panic
      | Some chunk =>
          let! (hlp, chunk) := WriteRec_SortRecord hlp chunk in
          let ms := set_chunk ms sid chunk in
          match wr_rec chunk with
          | None => Panic
          | Some rec =>
              let! (orderRec, unOrderRec, pool) := SplitRecordByTime rec pool (time sid) in
              let add (r : option Record_) (l : list (Z * Record_)) := match r with Some x => if (0 <? RowNums x)%nat then l ++ [(sid, x)] else l | None => l end in
              flush_loop time sids hlp ms pool (mk_flushed (add orderRec (fl_order out)) (add unOrderRec (fl_unorder out)))
          end
      end
  end.

Definition FlushChunks (hlp : ColumnSortHelper) (t : MemTable) (msName : string) (hasOrderFile : bool) (mmsIdTime : option (Z → Z)) : res (ColumnSortHelper * MemTable * flushed) :=
  match msInfoMap t !! msName with
  | None => Ok (hlp, t, mk_flushed [] [])
  | Some ms =>
      let! (hlp, ms, out) := flush_loop (flush_time hasOrderFile mmsIdTime) (GetAllSid ms) hlp ms (zero_Record, zero_Record) (mk_flushed [] []) in
      Ok (hlp, set_ms t msName ms, out)
  end.
End Read.
