(* ===== verification/MemCopy.v ===== *)
(** * engine/mutable: what a read copies

    [Copy_spec]: the copy of a sorted record holds the rows of the time range, in the
    direction asked for and with the columns asked for, or there is no copy. *)

From stdpp Require Import gmap sorting.
From Stdlib Require String.
From S2P Require Import Prelude GoString GoSlice GoSort Bitmap ColVal ColRefine ColStrings Column TimeSearch Compress Record RecordSchema RecordTable MergeSpec.
From S2P Require Import RecordSort SortColumns SortRefine SortProps FastSort MemTable MemAppend MemChunk MemRead.

(** ** The rows of a read *)

Definition in_range (lo hi : Z) (r : row) : Prop := lo ≤ fst r ≤ hi.
#[export] Instance in_range_dec lo hi r : Decision (in_range lo hi r).
Proof. unfold in_range. apply _. Defined.

(** The row with the fields of [gs] only. *)
Definition project (gs : list Field) (r : row) : row := (fst r, filter (λ kv, fst kv ∈ FName <$> gs) (snd r)).
Definition directed (asc : bool) {A} (l : list A) : list A := if asc then l else reverse l.

(** What a read of a series returns for its table: nothing when the table has none of the
    fields [gs], or no row in the range. *)
Definition view (names : string → bool) (gs : list Field) (lo hi : Z) (asc : bool) (table : list row) : option (list row) :=
  let sel := filter (in_range lo hi) table in
  if existsb (λ g, names (FName g)) gs && negb (length sel =? 0)%nat then Some (project gs <$> directed asc sel) else None.

Lemma filter_interval {A} (P : A → Prop) `{!∀ x, Decision (P x)} (l : list A) a b :
  (∀ k x, l !! k = Some x → P x ↔ (a ≤ k < b)%nat) → filter P l = take (b - a) (drop a l).
Proof.
  revert a b. induction l as [|x l IH]; intros a b Hk; [by rewrite drop_nil, take_nil|]. pose proof (Hk 0%nat x eq_refl) as H0. rewrite filter_cons.
  assert (Hl : ∀ k y, l !! k = Some y → P y ↔ (pred a ≤ k < pred b)%nat) by (intros k y Hy; rewrite (Hk (S k) y Hy); lia). rewrite (IH _ _ Hl).
  case_decide as Hp; rewrite H0 in Hp; destruct a as [|a], b as [|b]; try lia; cbn; rewrite ?drop_0, ?Nat.sub_0_r, ?take_0; done.
Qed.

Lemma project_col gs nm rows : nm ∈ FName <$> gs → col_of nm (project gs <$> rows) = col_of nm rows.
Proof.
  intros Hn. unfold col_of. rewrite <- list_fmap_compose. apply list_fmap_ext. intros i r _. cbn. rewrite map_lookup_filter. destruct (snd r !! nm) as [c|]; [|done]. cbn. by rewrite option_guard_True.
Qed.
Lemma project_times gs (rows : list row) : fst <$> (project gs <$> rows) = fst <$> rows.
Proof. by rewrite <- list_fmap_compose. Qed.
Lemma project_keys gs rows : keys_in gs (project gs <$> rows).
Proof. intros r nm c (q & -> & _)%list_elem_of_fmap_1. cbn. rewrite map_lookup_filter_Some. by intros [_ ?]. Qed.

Lemma col_of_reverse nm rows : col_of nm (reverse rows) = reverse (col_of nm rows).
Proof. unfold col_of. by rewrite fmap_reverse. Qed.
Lemma directed_fmap {A B} asc (f : A → B) (l : list A) : f <$> directed asc l = directed asc (f <$> l).
Proof. destruct asc; [done|]. apply fmap_reverse. Qed.

(** ** The index of a column *)

Lemma names_sorted_lookup fs i j x y : names_sorted fs → (i < j)%nat → fs !! i = Some x → fs !! j = Some y → lt_name (FName x) (FName y).
Proof.
  revert i j. induction fs as [|f fs IH]; intros i j Hs Hij Hx Hy; [done|]. apply names_sorted_cons in Hs as [Hs Hall]. destruct j as [|j]; [lia|]. destruct i as [|i].
  - injection Hx as <-. rewrite Forall_forall in Hall. apply Hall. by eapply list_elem_of_lookup_2.
  - apply (IH i j); [done|lia|done|done].
Qed.

Lemma FieldIndexsFast_spec rec fs tf nm :
  Schema rec = fs ++ [tf] → names_sorted fs → nm ≠ TimeField →
  match FieldIndexsFast rec nm with
  | -1 => nm ∉ FName <$> fs
  | z => 0 ≤ z ∧ ∃ f, fs !! Z.to_nat z = Some f ∧ FName f = nm
  end.
Proof.
  intros Hs Hso Hn. unfold FieldIndexsFast. rewrite (bool_decide_false (nm = TimeField)) by done. cbn [negb]. rewrite Hs, length_app. cbn [length].
  replace (Z.of_nat (length fs + 1) - 1) with (Z.of_nat (length fs)) by lia. rewrite Nat2Z.id. set (f := λ i, _).
  assert (Hf : ∀ i s, fs !! i = Some s → f i = negb (String.ltb (FName s) nm)) by (intros i s Hi; unfold f; by rewrite (lookup_app_l_Some _ _ _ _ Hi)).
  destruct (Search_spec f (length fs)) as (Hr & Hlo & Hhi).
  { intros a b Hab Ha. destruct (lookup_lt_is_Some_2 fs a) as [x Hx]; [lia|]. destruct (lookup_lt_is_Some_2 fs b) as [y Hy]; [lia|]. rewrite (Hf _ _ Hx) in Ha. rewrite (Hf _ _ Hy).
    destruct (decide (a = b)) as [->|Hne]; [congruence|]. apply negb_true_iff in Ha. apply negb_true_iff. destruct (String.ltb (FName y) nm) eqn:E; [|done].
    assert (Hxy : lt_name (FName x) (FName y)) by (apply (names_sorted_lookup fs a b); [done|lia|done|done]).
    pose proof (lt_name_trans _ _ _ Hxy E) as Hc. unfold lt_name in Hc. congruence. }
  set (idx := Search (length fs) f) in *. destruct (Z.ltb_spec (Z.of_nat idx) (Z.of_nat (length fs))) as [Hlt|Hge]; cbn [andb].
  - destruct (lookup_lt_is_Some_2 fs idx) as [s Hs']; [lia|]. rewrite (lookup_app_l_Some _ _ _ _ Hs'). case_bool_decide as Hnm.
    + destruct (Z.of_nat idx) as [|p|p] eqn:E; [|split; [lia|]; rewrite <- E|lia]. { split; [done|]. exists s. split; [|done]. replace (Z.to_nat 0) with idx by lia. done. }
      exists s. by rewrite Nat2Z.id.
    + intros (g & Hg & Hin)%list_elem_of_fmap_1. apply list_elem_of_lookup_1 in Hin as [k Hk]. destruct (decide (k < idx)%nat) as [Hki|Hki].
      * specialize (Hlo k Hki). rewrite (Hf _ _ Hk), <- Hg in Hlo. apply negb_false_iff in Hlo. by apply lt_name_irrefl in Hlo.
      * assert (k ≠ idx) by (intros ->; naive_solver congruence). pose proof (names_sorted_lookup fs idx k s g Hso ltac:(lia) Hs' Hk) as Hlt'. specialize (Hhi idx ltac:(lia)). rewrite (Hf _ _ Hs') in Hhi.
        apply negb_true_iff in Hhi. unfold lt_name in Hlt'. rewrite <- Hg in Hlt'. congruence.
  - intros (g & Hg & Hin)%list_elem_of_fmap_1. apply list_elem_of_lookup_1 in Hin as [k Hk]. pose proof (lookup_lt_Some _ _ _ Hk). specialize (Hlo k ltac:(lia)). rewrite (Hf _ _ Hk), <- Hg in Hlo.
    apply negb_false_iff in Hlo. by apply lt_name_irrefl in Hlo.
Qed.

(** ** Copying columns *)

Section Copy.
Context `{GoRuntime}.

Lemma append_down_spec ft dst a src b s n :
  col_rep ft dst a → col_rep ft src b → (s + n ≤ length b)%nat → (ft = Field_Type_String → fits (a ++ reverse (take n (drop s b)))) →
  ∃ dst', append_down dst src ft s n = Ok dst' ∧ col_rep ft dst' (a ++ reverse (take n (drop s b))).
Proof.
  revert dst a. induction n as [|n IH]; intros dst a Hd Hs Hn Hfit; cbn [append_down]; [exists dst; by rewrite take_0, app_nil_r|].
  destruct (lookup_lt_is_Some_2 b (s + n)) as [x Hx]; [lia|]. assert (Htk : take (S n) (drop s b) = take n (drop s b) ++ [x]) by (apply take_S_r; by rewrite lookup_drop).
  assert (Hx1 : take (s + n + 1 - (s + n)) (drop (s + n) b) = [x]) by (replace (s + n + 1 - (s + n))%nat with 1%nat by lia; by rewrite (drop_S _ _ _ Hx)).
  rewrite Htk, reverse_snoc in *. destruct (col_append (R := col_rep) ft dst a src b (s + n) (s + n + 1) Hd Hs ltac:(lia)) as (d' & -> & Hd').
  { intros Hft. rewrite Hx1. eapply fits_prefix. rewrite <- app_assoc. by apply Hfit. }
  rs. rewrite Hx1 in Hd'. destruct (IH d' (a ++ [x]) Hd' Hs ltac:(lia)) as (d2 & -> & Hd2); rewrite <- app_assoc in *; [done|]. by exists d2.
Qed.

Lemma append_dir_spec asc ft f dst a src b s e :
  FType f = ft → col_rep ft dst a → col_rep ft src b → (s ≤ e < length b)%nat → (ft = Field_Type_String → fits (a ++ directed asc (slice_rows b s (S e)))) →
  ∃ dst', append_dir asc dst (f, src) s e = Ok dst' ∧ col_rep ft dst' (a ++ directed asc (slice_rows b s (S e))).
Proof.
  intros Hf Hd Hs Hse Hfit. unfold append_dir, directed, slice_rows in *. cbn [fst snd]. rewrite Hf. destruct asc.
  - replace (e + 1)%nat with (S e) by lia. apply (col_append (R := col_rep)); [done|done|lia|done].
  - replace (e - s + 1)%nat with (S e - s)%nat by lia. apply append_down_spec; [done|done|lia|done].
Qed.

Section Columns.
Context (τ : string → FieldType) (src : Record_) (fs : list Field) (rows : list row) (asc : bool) (s e : nat).
Hypothesis Hrep : rec_rep col_rep src fs time_field rows.
Hypothesis Hfs : schema_ok τ fs.
Hypothesis Hse : (s ≤ e < length rows)%nat.
Hypothesis Hfit : ∀ nm, fits (col_of nm rows).

Abbreviation part := (directed asc (slice_rows rows s (S e))).

Lemma length_part : length part = (e - s + 1)%nat.
Proof. unfold directed. destruct asc; rewrite ?length_reverse, length_slice_rows by lia; lia. Qed.

Lemma part_fits nm : fits (col_of nm part).
Proof.
  assert (Hle : (tlen (col_of nm part) ≤ tlen (col_of nm rows))%nat).
  { transitivity (tlen (col_of nm (slice_rows rows s (S e)))).
    - unfold directed. destruct asc; [done|]. by rewrite col_of_reverse, (tlen_perm _ _ (reverse_Permutation _)).
    - unfold slice_rows. rewrite <- (take_drop s rows) at 2. rewrite <- (take_drop (S e - s) (drop s rows)) at 2. rewrite !col_of_app, !tlen_app. lia. }
  specialize (Hfit nm). unfold fits, tlen in *. lia.
Qed.

Lemma col_part nm : col_of nm part = directed asc (slice_rows (col_of nm rows) s (S e)).
Proof. unfold directed. destruct asc; rewrite ?col_of_reverse, col_of_slice; done. Qed.

Lemma src_column_spec i f : fs !! i = Some f → ∃ c, src_column src i = Ok (f, c) ∧ col_ok col_rep rows f c.
Proof.
  intros Hf. destruct Hrep as [Hs (cs & tc & Hc & Hall & _) _ _ _ _ _]. destruct (Forall2_lookup_l _ _ _ _ _ Hall Hf) as (c & Hci & Hok). exists c. split; [|done].
  unfold src_column. by rewrite Hc, Hs, (lookup_app_l_Some _ _ _ _ Hci), (lookup_app_l_Some _ _ _ _ Hf).
Qed.

Lemma copy_cols_spec gs i rec done_ todo hs tl ex :
  ColVals rec = done_ ++ todo ++ tl → i = length done_ → length todo = length gs → Forall blank todo → Schema rec = hs ++ gs ++ [time_field] → length hs = length done_ → schema_ok τ gs →
  ∃ cs, copy_cols asc rec src gs i s e ex = Ok (set_ColVals rec (done_ ++ cs ++ tl), existsb (λ g, bool_decide (FName g ∈ FName <$> fs)) gs || ex) ∧ Forall2 (col_ok col_rep part) gs cs.
Proof.
  revert i rec done_ todo hs ex. induction gs as [|g gs IH]; intros i rec dn todo hs ex Hc Hi Hl Hb Hsch Hh Hso.
  { destruct todo; [|done]. exists []. split; [|constructor]. cbn. cbn in Hc. rewrite <- Hc. by destruct rec. }
  destruct todo as [|b todo]; [done|]. injection Hl as Hl. inversion Hb as [|? ? Hb1 Hb2]; subst. destruct Hso as [Hso Hty Htm Htyd]. inversion Hty; subst. inversion Htm; subst. inversion Htyd as [|? ? Hgt Hgt2]; subst.
  apply names_sorted_cons in Hso as [Hso _]. assert (Hso' : schema_ok τ gs) by (split; done). cbn [copy_cols existsb app] in *.
  pose proof (FieldIndexsFast_spec src fs time_field (FName g) (rr_schema _ _ _ _ _ Hrep) (so_sorted _ _ Hfs) ltac:(done)) as Hix.
  assert (Hstep : ∀ c' ex', col_ok col_rep part g c' → ∃ cs, copy_cols asc (set_ColVals rec (dn ++ c' :: todo ++ tl)) src gs (S (length dn)) s e ex' =
      Ok (set_ColVals rec (dn ++ cs ++ tl), existsb (λ g, bool_decide (FName g ∈ FName <$> fs)) gs || ex') ∧ Forall2 (col_ok col_rep part) (g :: gs) cs).
  { intros c' ex' Hc'. destruct (IH (S (length dn)) (set_ColVals rec (dn ++ c' :: todo ++ tl)) (dn ++ [c']) todo (hs ++ [g]) ex') as (cs & E & Hcs); cbn [set_ColVals ColVals Schema];
      rewrite <- ?app_assoc, ?length_app; cbn; try done; [lia|lia|]. exists (c' :: cs). rewrite <- app_assoc in E. split; [exact E|by constructor]. }
  assert (Hblank : col_rep (FType g) b []) by (by apply (col_blank (R := col_rep))).
  destruct (decide (FName g ∈ FName <$> fs)) as [Hin|Hin].
  - rewrite (bool_decide_true _ Hin). cbn [orb]. assert (Hpos : 0 ≤ FieldIndexsFast src (FName g) ∧ ∃ f, fs !! Z.to_nat (FieldIndexsFast src (FName g)) = Some f ∧ FName f = FName g).
    { destruct (FieldIndexsFast src (FName g)) as [|p|[p|p|]]; try done. }
    destruct Hpos as (Hz & f & Hf & Hn). rewrite (proj2 (Z.leb_le _ _) Hz). destruct (src_column_spec _ f Hf) as (c & -> & Hcf). rs.
    assert (Hfty : FType f = FType g). { pose proof (so_typed _ _ Hfs) as Htf. unfold typed in Htf. rewrite Forall_forall in Htf. rewrite (Htf f), Hn, Hgt; [done|by eapply list_elem_of_lookup_2]. }
    unfold col_ok in Hcf. rewrite Hfty, Hn in Hcf. destruct (append_dir_spec asc (FType g) f b [] c _ s e Hfty Hblank Hcf) as (c' & E & Hc'); [by rewrite length_col_of|intros _; rewrite <- col_part; apply part_fits|].
    rewrite Hc, (on_col_middle dn (todo ++ tl) b _ (length dn) c' eq_refl E). rs. cbn [app] in Hc'. rewrite <- col_part in Hc'.
    destruct (Hstep c' true Hc') as (cs & E2 & Hcs). exists cs. rewrite E2, orb_true_r. done.
  - rewrite (bool_decide_false _ Hin). cbn [orb]. assert (Hneg : FieldIndexsFast src (FName g) < 0).
    { destruct (Z_lt_le_dec (FieldIndexsFast src (FName g)) 0) as [|Hge]; [done|]. assert (Hp : ∃ f, fs !! Z.to_nat (FieldIndexsFast src (FName g)) = Some f ∧ FName f = FName g) by (destruct (FieldIndexsFast src (FName g)) as [|p|p]; [apply Hix|apply Hix|lia]).
      destruct Hp as (f & Hf & Hn). destruct Hin. rewrite <- Hn. apply list_elem_of_fmap_2. by eapply list_elem_of_lookup_2. }
    rewrite (proj2 (Z.leb_gt _ _) Hneg). assert (Hgi : Schema rec !! length dn = Some g) by (rewrite Hsch, <- Hh; by apply list_lookup_middle). rewrite Hgi.
    destruct (col_pad (R := col_rep) (FType g) b [] (e - s + 1) Hblank) as (c' & E & Hc'). rewrite Hc, (on_col_middle dn (todo ++ tl) b _ (length dn) c' eq_refl E). rs.
    apply Hstep. unfold col_ok. rewrite (col_of_absent fs), length_part; [done| |done]. unfold directed. pose proof (keys_in_slice fs rows s (S e) (rr_keys _ _ _ _ _ Hrep)) as Hk.
    destruct asc; [done|]. intros r nm c Hr. apply Hk. by apply elem_of_reverse.
Qed.
End Columns.

Lemma last_column rec (cs : list ColVal) tc : ColVals rec = cs ++ [tc] → RowNums rec = Len tc.
Proof. intros Hc. unfold RowNums. by rewrite Hc, last_snoc. Qed.

Lemma Copy_spec τ rec fs rows gs lo hi asc :
  rec_rep col_rep rec fs time_field rows → schema_ok τ fs → schema_ok τ gs → sorted_rows ascending rows → log_ok rows → Forall (in_s 64) (fst <$> rows) →
  match view (λ nm, bool_decide (nm ∈ FName <$> fs)) gs lo hi asc rows with
  | Some out => ∃ rec', Copy rec asc (Some (lo, hi)) (gs ++ [time_field]) = Ok (Some rec') ∧ rec_rep col_rep rec' gs time_field out
  | None => Copy rec asc (Some (lo, hi)) (gs ++ [time_field]) = Ok None
  end.
Proof.
  intros Hrep Hfs Hgs Hs [_ Hfit] Hin. unfold Copy. rewrite (rep_Times _ _ _ _ Hrep Hin).
  destruct (time_range_bounds (fst <$> rows) 0 lo hi Hs ltac:(lia)) as (i & j & Ei & Ej & [Hi Hj] & Hsel). rewrite Ei, Ej. rs. rewrite length_fmap in Hj.
  assert (Hslice : filter (in_range lo hi) rows = slice_rows rows (Z.to_nat i) (Z.to_nat (j + 1))).
  { apply filter_interval. intros k r Hk. unfold in_range. rewrite <- (Hsel k (fst r)); [lia|lia|]. by rewrite list_lookup_fmap, Hk. }
  unfold view, CopyImpl. rewrite Hslice. destruct (Z.leb_spec i j) as [Hij|Hij].
  2: { unfold slice_rows. replace (Z.to_nat (j + 1) - Z.to_nat i)%nat with 0%nat by lia. rewrite take_0. cbn [length Nat.eqb negb]. by rewrite andb_false_r. }
  rewrite (proj2 (Z.ltb_ge _ _)) by lia. replace (Z.to_nat (j + 1)) with (S (Z.to_nat j)) by lia. set (s := Z.to_nat i) in *. set (e := Z.to_nat j) in *. assert (Hse : (s ≤ e < length rows)%nat) by lia.
  rewrite (length_slice_rows rows s (S e)) by lia. rewrite (proj2 (Nat.eqb_neq (S e - s) 0)) by lia. cbn [negb]. rewrite andb_true_r.
  rewrite (rr_meta _ _ _ _ _ Hrep). cbv zeta. unfold set_Schema. cbn [zero_Record MetaTimes Schema ColVals ColSpare].
  destruct (ReserveColVal_grow (mk_Record (gs ++ [time_field]) [] [] None) (length (gs ++ [time_field]))) as (bs & spare & -> & Hb & Hl & _); [constructor|constructor|]. rs. cbn [ColVals Schema app MetaTimes].
  rewrite length_app in Hl. cbn in Hl. destruct (exists_last (l := bs)) as (cs0 & tc & ->); [intros ->; cbn in Hl; lia|]. rewrite length_app in Hl. cbn in Hl. apply Forall_app in Hb as [Hb Hbt]. apply Forall_inv in Hbt. rewrite body_snoc.
  destruct (copy_cols_spec τ rec fs rows asc s e Hrep Hfs Hse Hfit gs 0 (mk_Record (gs ++ [time_field]) (cs0 ++ [tc]) spare None) [] cs0 [] [tc] false) as (cs & -> & Hcs); try done; [lia|]. rs. rewrite orb_false_r. cbn [app set_ColVals Schema ColSpare MetaTimes].
  destruct (existsb _ gs) eqn:Eex.
  - destruct Hrep as [Hsr (rcs & rtc & Hrc & Hrall & Hrt) _ _ _ _ _]. assert (Hsc : src_column rec (length (ColVals rec) - 1) = Ok (time_field, rtc)).
    { unfold src_column. rewrite Hrc, Hsr, length_app. cbn. rewrite Nat.add_sub. rewrite list_lookup_middle by done. rewrite list_lookup_middle; [done|]. by rewrite (Forall2_length _ _ _ Hrall). }
    rewrite Hsc. rs. destruct (append_dir_spec asc Field_Type_Int time_field tc [] rtc _ s e eq_refl (col_blank (R := col_rep) Field_Type_Int tc I Hbt) Hrt) as (tc' & E & Htc'); [unfold time_cells; rewrite !length_fmap; lia|done|].
    cbn [ColVals]. rewrite length_app. cbn [length]. rewrite Nat.add_sub. rewrite (on_col_middle cs [] tc _ (length gs) tc' ltac:(by rewrite (Forall2_length _ _ _ Hcs)) E). rs.
    assert (Htt : time_cells (fst <$> (project gs <$> directed asc (slice_rows rows s (S e)))) = directed asc (slice_rows (time_cells (fst <$> rows)) s (S e))).
    { rewrite project_times. unfold slice_rows, time_cells. rewrite !directed_fmap. f_equal. by rewrite !fmap_take, !fmap_drop. }
    erewrite (last_column _ cs tc') by done. rewrite (col_len (R := col_rep) _ _ _ Htc'). cbn [app]. rewrite <- Htt. unfold time_cells at 1. rewrite !length_fmap, length_part by lia. rewrite (proj2 (Nat.eqb_neq _ _)) by lia.
    eexists. split; [done|]. split; cbn [Schema ColVals MetaTimes]; try done; [|apply Hgs|apply Hgs|apply project_keys]. exists cs, tc'. split; [done|]. split; [|rewrite Htt; exact Htc'].
    apply Forall2_same_length_lookup. split; [by eapply Forall2_length|]. intros k g c Hg Hc. unfold col_ok. rewrite project_col by (apply list_elem_of_fmap_2; by eapply list_elem_of_lookup_2).
    by apply (Forall2_lookup_lr _ _ _ _ _ _ Hcs Hg Hc).
  - rs. erewrite (last_column _ cs tc) by done. destruct Hbt as (_ & _ & _ & _ & _ & -> & _). done.
Qed.
End Copy.
