(* ===== verification/MemStore.v ===== *)
(** * engine/mutable: what a table holds

    [table_rep]: a table holds, for every measurement and series, the rows written to it.
    WriteRows adds the rows of a batch; a read leaves the rows as they are and returns
    their view. *)

From stdpp Require Import gmap sorting.
From Stdlib Require String.
From S2P Require Import Prelude GoString GoSlice GoSort Bitmap ColVal ColRefine ColStrings Column TimeSearch Compress Record RecordSchema RecordTable MergeSpec.
From S2P Require Import RecordSort SortColumns SortRefine SortProps FastSort MemTable MemAppend MemChunk MemRead MemCopy.

(** ** What is written *)

Section Store.
Context `{GoRuntime} `{FloatConv} {GS : GoSort} `{!GoSortLaws GS} (τ : string → string → FieldType).

(** A batch: the rows of some measurements. *)
Abbreviation batch := (list (string * list Row)).
Definition dict (b : batch) : list (string * option (list Row)) := (λ e, (fst e, Some (snd e))) <$> b.

Definition point (r : Row) : row := row_of (Timestamp r) (Fields r).
(** The rows of a series; a row without an id is skipped. *)
Definition of_series (sid : Z) (r : Row) : Prop := PrimaryId r = sid ∧ PrimaryId r ≠ 0.
#[export] Instance of_series_dec sid r : Decision (of_series sid r).
Proof. unfold of_series. apply _. Defined.
Definition points (sid : Z) (rs : list Row) : list row := point <$> filter (of_series sid) rs.
Definition written (b : batch) (name : string) (sid : Z) : list row := concat ((λ e, if decide (fst e = name) then points sid (snd e) else []) <$> b).

Definition row_ok (name : string) (r : Row) : Prop := point_ok (τ name) (Timestamp r) (Fields r).
Definition batch_ok (b : batch) : Prop := Forall (λ e, snd e ≠ [] ∧ Forall (row_ok (fst e)) (snd e)) b.

(** ** Measurements *)

Definition ms_rep (ty : string → FieldType) (ms : MsInfo) (L : Z → list row) : Prop :=
  ∃ gs, ms_Schema ms = gs ++ [time_field] ∧ schema_ok ty gs ∧
    ∀ sid, match sidMap ms !! sid with Some w => chunk_rep ty w (L sid) ∧ wr_rec w ≠ None | None => L sid = [] end.
Definition table_rep (t : MemTable) (L : string → Z → list row) : Prop :=
  mt_idx t = None ∧ ∀ name, match msInfoMap t !! name with Some ms => ms_rep (τ name) ms (L name) | None => ∀ sid, L name sid = [] end.
Definition logs_ok (L : string → Z → list row) : Prop := ∀ name sid, log_ok (L name sid).

Lemma points_cons sid r rs : points sid (r :: rs) = (if decide (of_series sid r) then [point r] else []) ++ points sid rs.
Proof. unfold points. rewrite filter_cons. by case_decide. Qed.

Lemma ms_rep_ext ty ms L L' : (∀ sid, L sid = L' sid) → ms_rep ty ms L → ms_rep ty ms L'.
Proof. intros HL (gs & Hs & Hg & Hc). exists gs. split; [done|]. split; [done|]. intros sid. specialize (Hc sid). rewrite HL in Hc. done. Qed.

Lemma ms_rep_chunk ty ms L sid w l :
  ms_rep ty ms L → chunk_rep ty w l → wr_rec w ≠ None → ms_rep ty (set_chunk ms sid w) (λ s, if decide (s = sid) then l else L s).
Proof.
  intros (gs & Hs & Hg & Hc) Hw Hn. exists gs. split; [done|]. split; [done|]. intros s. cbn. destruct (decide (s = sid)) as [->|Hne].
  - by rewrite lookup_insert_eq.
  - rewrite lookup_insert_ne by done. apply Hc.
Qed.

Lemma appendFields_some sch w t fs w' e : appendFields sch w t fs = Ok (w', e) → wr_rec w' ≠ None.
Proof.
  unfold appendFields. intros E. destruct (match wr_rec w with None => WriteRec_init w sch | Some _ => Ok w end) as [w1| | |]; try done. cbn [res_bind] in E. destruct (wr_rec w1); [|done].
  match type of E with res_bind ?m _ = _ => destruct m as [[[? ?] ?]| | |]; try done end. cbn [res_bind] in E. destruct (t <=? lastAppendTime w1);
    (match type of E with res_bind ?m _ = _ => destruct m as [[? ?]| | |]; try done end); cbn in E; by injection E as <- _.
Qed.

Lemma write_ms_rows_spec name rs ms L counts :
  ms_rep (τ name) ms L → Forall (row_ok name) rs → (∀ sid, log_ok (L sid ++ points sid rs)) →
  ∃ ms', write_ms_rows None name ms rs counts = Ok (ms', counts ++ ((λ r, (name, PrimaryId r, 1)) <$> filter (λ r, PrimaryId r ≠ 0) rs), None) ∧
    ms_rep (τ name) ms' (λ sid, L sid ++ points sid rs).
Proof.
  revert ms L counts. induction rs as [|r rs IH]; intros ms L counts Hms Hok Hlog.
  { exists ms. split; [cbn; by rewrite app_nil_r|]. eapply ms_rep_ext; [|exact Hms]. intros sid. cbn. by rewrite app_nil_r. }
  inversion Hok as [|? ? Hr Hok']; subst. cbn [write_ms_rows]. destruct (Z.eqb_spec (PrimaryId r) 0) as [Hz|Hz].
  - destruct (IH ms L counts Hms Hok') as (ms' & -> & Hms').
    { intros sid. specialize (Hlog sid). rewrite points_cons, decide_False in Hlog; [done|]. intros [_ ?]. done. }
    exists ms'. rewrite filter_cons_False by (by intros ?). split; [done|]. eapply ms_rep_ext; [|exact Hms']. intros sid. rewrite points_cons, decide_False; [done|]. by intros [_ ?].
  - set (sid := PrimaryId r) in *. destruct (CreateChunk ms sid) as [[ms1 chunk] existed] eqn:Ec.
    assert (Hc : chunk_rep (τ name) chunk (L sid) ∧ ms_Schema ms1 = ms_Schema ms ∧ ∀ w, set_chunk ms1 sid w = set_chunk ms sid w).
    { unfold CreateChunk in Ec. destruct Hms as (gs & _ & _ & Hall). specialize (Hall sid). destruct (sidMap ms !! sid) as [w|] eqn:Ew; injection Ec as <- <- <-.
      - split; [apply Hall|done].
      - split; [by rewrite Hall|]. split; [done|]. intros w. unfold set_chunk. cbn. by rewrite insert_insert_eq. }
    destruct Hc as (Hc & Hsch & Hset). pose proof Hms as (gs & Hgs & Hgo & _). rewrite Hsch, Hgs.
    assert (Hl1 : log_ok (L sid ++ [point r])).
    { specialize (Hlog sid). rewrite points_cons, decide_True in Hlog by done. rewrite app_assoc in Hlog. by eapply log_ok_prefix. }
    destruct (appendFields_spec (τ name) chunk (L sid) gs (Timestamp r) (Fields r) Hc Hgo Hr Hl1) as (w' & Ew & Hw'). rewrite Ew. rs. rewrite Hset.
    pose proof (ms_rep_chunk _ ms L sid w' _ Hms Hw' (appendFields_some _ _ _ _ _ _ Ew)) as Hms1.
    assert (Heq : ∀ s, (if decide (s = sid) then L sid ++ [point r] else L s) ++ points s rs = L s ++ points s (r :: rs)).
    { intros s. rewrite points_cons. unfold of_series. fold sid. destruct (decide (s = sid)) as [->|Hne].
      - rewrite (decide_True (P := sid = sid ∧ _)) by done. by rewrite <- app_assoc.
      - rewrite (decide_False (P := sid = s ∧ _)); [done|]. intros [-> _]. done. }
    destruct (IH (set_chunk ms sid w') _ (counts ++ [(name, sid, 1)]) Hms1 Hok') as (ms' & -> & Hms'); [intros s; unfold point in Heq; rewrite Heq; apply Hlog|].
    exists ms'. rewrite filter_cons_True by done. cbn [fmap list_fmap]. rewrite <- app_assoc. split; [done|]. eapply ms_rep_ext; [|exact Hms']. exact Heq.
Qed.

(** ** The table *)

Lemma table_rep_ext t L L' : (∀ name sid, L name sid = L' name sid) → table_rep t L → table_rep t L'.
Proof.
  intros HL [Hi Ht]. split; [done|]. intros name. specialize (Ht name). destruct (msInfoMap t !! name) as [ms|].
  - eapply ms_rep_ext; [|exact Ht]. intros sid. apply HL.
  - intros sid. by rewrite <- HL.
Qed.

Lemma table_rep_ms t L name ms l : table_rep t L → ms_rep (τ name) ms l → table_rep (set_ms t name ms) (λ n, if decide (n = name) then l else L n).
Proof.
  intros [Hi Ht] Hms. split; [done|]. intros n. cbn. destruct (decide (n = name)) as [->|Hne]; [by rewrite lookup_insert_eq|]. rewrite lookup_insert_ne by done. apply Ht.
Qed.

Lemma NewMemTable_rep : table_rep NewMemTable (λ _ _, []).
Proof. split; [done|]. intros name. cbn. by rewrite lookup_empty. Qed.

Lemma CreateMsInfo_spec t L name r : table_rep t L → row_ok name r → ∃ ms, snd (CreateMsInfo t name r) = ms ∧ ms_rep (τ name) ms (L name) ∧
  mt_idx (fst (CreateMsInfo t name r)) = None ∧ ∀ ms', set_ms (fst (CreateMsInfo t name r)) name ms' = set_ms t name ms'.
Proof.
  intros [Hi Ht] Hr. specialize (Ht name). unfold CreateMsInfo. destruct (msInfoMap t !! name) as [ms|] eqn:E; cbn [fst snd].
  - exists ms. done.
  - eexists. split; [done|]. split; [|split; [done|]].
    + exists (field_schema <$> Fields r). split; [done|]. split; [by eapply point_schema|]. intros sid. cbn. by rewrite lookup_empty.
    + intros ms'. unfold set_ms. cbn. by rewrite insert_insert_eq.
Qed.

Definition count_of (name : string) (r : Row) : string * Z * Z := (name, PrimaryId r, 1).
Definition counts_of (b : batch) : list (string * Z * Z) := concat ((λ e : string * list Row, count_of (fst e) <$> filter (λ r, PrimaryId r ≠ 0) (snd e)) <$> b).

Lemma written_cons e b name sid : written (e :: b) name sid = (if decide (fst e = name) then points sid (snd e) else []) ++ written b name sid.
Proof. done. Qed.

Lemma WriteRows_spec b t L counts :
  table_rep t L → batch_ok b → logs_ok (λ name sid, L name sid ++ written b name sid) →
  ∃ t', WriteRows t (dict b) counts = Ok (t', counts ++ counts_of b, None) ∧ table_rep t' (λ name sid, L name sid ++ written b name sid).
Proof.
  revert t L counts. induction b as [|[name rs] b IH]; intros t L counts Ht Hb Hlog.
  { exists t. split; [cbn; by rewrite app_nil_r|]. eapply table_rep_ext; [|exact Ht]. intros name sid. cbn. by rewrite app_nil_r. }
  inversion Hb as [|? ? [Hne Hrs] Hb']; subst. cbn [fst snd] in *. destruct rs as [|r rs]; [done|]. cbn [dict fmap list_fmap WriteRows fst snd]. pose proof Hrs as [Hr _]%Forall_cons.
  destruct (CreateMsInfo_spec t L name r Ht Hr) as (ms & Ems & Hms & Hidx & Hset). destruct (CreateMsInfo t name r) as [t1 ms0]. cbn [fst snd] in *. subst ms0. rewrite Hidx.
  assert (Hlog1 : ∀ sid, log_ok (L name sid ++ points sid (r :: rs))).
  { intros sid. specialize (Hlog name sid). cbn beta in Hlog. rewrite written_cons in Hlog. cbn [fst snd] in Hlog. rewrite decide_True in Hlog by done. rewrite app_assoc in Hlog. by eapply log_ok_prefix. }
  destruct (write_ms_rows_spec name (r :: rs) ms (L name) counts Hms Hrs Hlog1) as (ms' & -> & Hms'). rs. rewrite <- Hidx.
  change (mk_MemTable (<[name:=ms']> (msInfoMap t1)) (mt_idx t1)) with (set_ms t1 name ms'). rewrite Hset.
  pose proof (table_rep_ms t L name ms' _ Ht Hms') as Ht1.
  assert (Heq : ∀ n sid, (if decide (n = name) then λ sid, L name sid ++ points sid (r :: rs) else L n) sid ++ written b n sid = L n sid ++ written ((name, r :: rs) :: b) n sid).
  { intros n sid. rewrite written_cons. cbn [fst snd]. destruct (decide (n = name)) as [->|Hn]; [rewrite decide_True by done; by rewrite <- app_assoc|]. rewrite decide_False by congruence. done. }
  destruct (IH (set_ms t name ms') _ (counts ++ (count_of name <$> filter (λ r, PrimaryId r ≠ 0) (r :: rs))) Ht1 Hb') as (t' & E & Ht'); [intros n sid; cbn beta; rewrite Heq; apply Hlog|].
  exists t'. split; [|eapply table_rep_ext; [exact Heq|exact Ht']]. unfold counts_of. cbn [fmap list_fmap concat fst snd]. rewrite app_assoc. exact E.
Qed.
End Store.
