(* ===== verification/MemValues.v ===== *)
(** * engine/mutable: reading a table and its snapshot

    [mt_values_spec]: a read of one table returns the view of the rows written to the
    series.  [Values_spec]: with a snapshot, every cell is the value written last, the
    snapshot being older than the active table. *)

From stdpp Require Import gmap sorting.
From Stdlib Require String.
From S2P Require Import Prelude GoString GoSort GoSlice Compress Bitmap ColVal ColRefine ColStrings Column.
From S2P Require Import TimeSearch Record RecordSchema RecordTable MergeSpec RecordMerge MergeRecords.
From S2P Require Import RecordSort SortColumns SortRefine SortProps FastSort MemTable MemAppend MemChunk.
From S2P Require Import MemRead MemCopy MemStore.

(** ** The order of columns *)

#[export] Instance col_less_weak : StrictWeak col_less.
Proof.
  split; unfold col_less.
  - intros x. case_bool_decide; [done|]. destruct (String.ltb _ _) eqn:E; [|done]. by apply lt_name_irrefl in E.
  - intros x y z. repeat case_bool_decide; try done. apply string_le_trans.
  - intros x y. repeat case_bool_decide; try done. apply string_lt_asym.
Qed.

Lemma columns_in_order τ gs cs : schema_ok τ gs → in_order col_less (zip (gs ++ [time_field]) cs).
Proof.
  intros [Hs _ Ht _]. revert cs. induction gs as [|g gs IH]; intros cs; cbn [app].
  - destruct cs as [|c cs]; [constructor|]. cbn. by repeat constructor.
  - apply names_sorted_cons in Hs as [Hs Hall]. inversion Ht as [|? ? Hg Ht']; subst. destruct cs as [|c cs]; [constructor|]. cbn. constructor; [by apply IH|]. apply Forall_forall. intros [f d] Hin.
    apply elem_of_zip_l in Hin. unfold col_less. cbn [fst]. rewrite (bool_decide_false (FName g = TimeField)) by done. apply elem_of_app in Hin as [Hin| ->%list_elem_of_singleton]; [|done].
    rewrite Forall_forall in Hall. specialize (Hall f Hin). rewrite Forall_forall in Ht'. rewrite bool_decide_false by (by apply Ht').
    destruct (String.ltb (FName f) (FName g)) eqn:E; [|done]. by destruct (lt_name_irrefl (FName g) (lt_name_trans _ _ _ Hall E)).
Qed.

Section Values.
Context `{GoRuntime} `{FloatConv} {GS : GoSort} `{!GoSortLaws GS} (τ : string → string → FieldType).

Lemma sort_cols_id ty rec gs rows : rec_rep col_rep rec gs time_field rows → schema_ok ty gs → sort_cols rec = rec.
Proof.
  intros [Hs (cs & tc & Hc & Hall & _) _ _ _ _ _] Hgs. pose proof (Forall2_length _ _ _ Hall) as Hl.
  assert (E : sort_by col_less (columns rec) = columns rec).
  { apply (StronglySorted_unique_strong (λ x y, col_less y x = false)); [| | |apply sort_perm].
    - intros [f c] [g d] Hx Hy H1 H2. rewrite (sort_perm (GoSortLaws := GoSortLaws0)) in Hx. unfold columns in Hx, Hy. apply zip_lookup_elem in Hx as (p & Hp1 & Hp2), Hy as (q & Hq1 & Hq2).
      assert (Hn : FName f = FName g) by (unfold col_less in *; cbn [fst] in *; repeat case_bool_decide; try congruence; by apply lt_name_total).
      assert (Hnd : NoDup (FName <$> Schema rec)).
      { rewrite Hs, fmap_app. apply NoDup_app. split; [apply keys_NoDup, Hgs|]. split; [|apply NoDup_singleton]. intros nm Hnm ->%list_elem_of_singleton. apply list_elem_of_fmap_1 in Hnm as (x & Hx & Hin).
        pose proof (so_time _ _ Hgs) as Ht. rewrite Forall_forall in Ht. by apply (Ht x). }
      assert (p = q) as -> by (eapply (NoDup_lookup _ _ _ (FName f) Hnd); rewrite list_lookup_fmap, ?Hp1, ?Hq1; cbn; congruence). congruence.
    - apply sort_ordered, _.
    - unfold columns. rewrite Hs. by eapply columns_in_order. }
  unfold sort_cols. rewrite E. unfold columns. rewrite fst_zip, snd_zip; [by destruct rec|rewrite Hs, Hc, !length_app; cbn; lia|rewrite Hs, Hc, !length_app; cbn; lia].
Qed.

(** The record of a view. *)
Definition shows (gs : list Field) (v : option (list row)) (out : option Record_) : Prop :=
  match v with Some rows => ∃ rec, out = Some rec ∧ rec_rep col_rep rec gs time_field rows | None => out = None end.

Lemma view_ext f g gs lo hi asc table : (∀ nm, f nm = g nm) → view f gs lo hi asc table = view g gs lo hi asc table.
Proof.
  intros Hfg. unfold view. assert (E : existsb (λ x, f (FName x)) gs = existsb (λ x, g (FName x)) gs) by (induction gs as [|x gs IH]; [done|]; cbn; by rewrite Hfg, IH). by rewrite E.
Qed.
Lemma view_nil gs lo hi asc : view (mentions []) gs lo hi asc (write_rows []) = None.
Proof. unfold view. cbn. by rewrite andb_false_r. Qed.

Lemma table_rep_chunk t L name ms id w :
  table_rep τ t L → msInfoMap t !! name = Some ms → chunk_rep (τ name) w (L name id) → wr_rec w ≠ None → table_rep τ (set_ms t name (set_chunk ms id w)) L.
Proof.
  intros Ht Hms Hw Hn. pose proof (proj2 Ht name) as Hn'. rewrite Hms in Hn'. pose proof (ms_rep_chunk _ ms (L name) id w _ Hn' Hw Hn) as Hms'.
  eapply table_rep_ext; [|by eapply table_rep_ms]. intros n sid. cbn beta. destruct (decide (n = name)) as [->|]; [|done]. by destruct (decide (sid = id)) as [->|].
Qed.

Lemma log_ok_write log : log_ok log → log_ok (write_rows log).
Proof.
  intros [Hl Ht]. split; [pose proof (write_rows_length log); lia|]. intros nm. pose proof (write_rows_tlen nm log). specialize (Ht nm). lia.
Qed.

Lemma mt_values_spec t L h name id lo hi gs asc :
  table_rep τ t L → logs_ok L → helper_ok h → schema_ok (τ name) gs →
  ∃ h' t' out, mt_values h t name id (lo, hi) (gs ++ [time_field]) asc = Ok (h', t', out) ∧ helper_ok h' ∧ table_rep τ t' L ∧
    shows gs (view (mentions (L name id)) gs lo hi asc (write_rows (L name id))) out.
Proof.
  intros Ht Hlog Hh Hgs. unfold mt_values, getSortedRecSafe. pose proof (proj2 Ht name) as Hms.
  destruct (msInfoMap t !! name) as [ms|] eqn:Ems; [|rs; exists h, t, None; rewrite (Hms id), view_nil; done]. destruct Hms as (sgs & _ & _ & Hc). specialize (Hc id).
  destruct (sidMap ms !! id) as [w|] eqn:Ew; [|rs; exists h, t, None; rewrite Hc, view_nil; done]. destruct Hc as [Hc Hn]. destruct (wr_rec w) as [rec|] eqn:Er; [|done]. specialize (Hlog name id).
  assert (Hrn : RowNums rec ≠ 0%nat). { unfold chunk_rep in Hc. rewrite Er in Hc. destruct Hc as (fs & phys & Hrep & _ & _ & _ & Hne & _). rewrite (rep_RowNums _ _ _ _ Hrep). by destruct phys. }
  rewrite (proj2 (Nat.eqb_neq _ _) Hrn). destruct (SortRecord_spec (τ name) w (L name id) h Hc Hlog Hh) as (h' & w' & -> & Hh' & Hc' & _ & Hnone & Hasd). rs.
  destruct (wr_rec w') as [rec'|] eqn:Er'; [|rewrite (proj1 Hnone eq_refl) in Er; done]. destruct (chunk_sorted (τ name) w' (L name id) rec' Hc' Hasd Er') as (fs & Hrep & Hsp & Hfs & Hne & Hmen & Htimes).
  pose proof (Copy_spec (τ name) rec' fs _ gs lo hi asc Hrep Hfs Hgs (write_rows_sorted _) (log_ok_write _ Hlog) Htimes) as Hcopy.
  rewrite (view_ext _ (mentions (L name id))) in Hcopy. 2: { intros nm. apply eq_true_iff_eq. rewrite bool_decide_eq_true. apply Hmen. }
  assert (Ht' : table_rep τ (set_ms t name (set_chunk ms id w')) L) by (eapply table_rep_chunk; [done|done|done|by rewrite Er']).
  unfold shows. destruct (view _ _ _ _ _ _) as [rows|].
  - destruct Hcopy as (out & -> & Hout). rs. eexists h', _, _. split; [done|]. split; [done|]. split; [done|]. exists out. cbn [fmap option_fmap option_map]. rewrite (sort_cols_id (τ name) out gs rows Hout Hgs). done.
  - rewrite Hcopy. rs. eexists h', _, _. split; [done|]. done.
Qed.
End Values.

(** ** Cells *)

Lemma last_written_app a b t nm : last_written (a ++ b) t nm = last_written b t nm ∪ last_written a t nm.
Proof. induction a as [|r a IH]; cbn [app last_written]; [by rewrite union_None_r|]. by rewrite IH, union_assoc_opt. Qed.

Lemma last_written_mentions log t nm : mentions log nm = false → last_written log t nm = None.
Proof.
  induction log as [|r log IH]; [done|]. cbn. intros [Hr Hl]%orb_false_iff. rewrite IH by done. rewrite union_None_l. apply bool_decide_eq_false in Hr. case_decide; [|done].
  destruct (snd r !! nm); [|done]. destruct Hr. by eexists.
Qed.

Lemma cell_at_absent rows t nm : t ∉ fst <$> rows → cell_at rows t nm = None.
Proof. induction rows as [|r rows IH]; [done|]. cbn. rewrite not_elem_of_cons. intros [Hr Hl]. rewrite decide_False by congruence. by apply IH. Qed.

Lemma cell_at_filter lo hi rows t nm : cell_at (filter (in_range lo hi) rows) t nm = if decide (lo ≤ t ≤ hi) then cell_at rows t nm else None.
Proof.
  induction rows as [|r rows IH]; [cbn; by destruct (decide _)|]. rewrite filter_cons. destruct (decide (in_range lo hi r)) as [Hr|Hr]; unfold in_range in Hr; cbn [cell_at]; rewrite ?IH;
    destruct (decide (fst r = t)) as [Heq|]; try done; destruct (decide (lo ≤ t ≤ hi)); try done; lia.
Qed.

Lemma cell_at_project gs rows t nm : nm ∈ FName <$> gs → cell_at (project gs <$> rows) t nm = cell_at rows t nm.
Proof.
  intros Hn. induction rows as [|r rows IH]; [done|]. cbn [fmap list_fmap cell_at project fst snd]. case_decide; [|done]. rewrite map_lookup_filter. destruct (snd r !! nm); [|done]. cbn. by rewrite option_guard_True.
Qed.

Lemma cell_at_perm a b t nm : a ≡ₚ b → NoDup (fst <$> a) → cell_at a t nm = cell_at b t nm.
Proof.
  intros Hp. induction Hp as [|x a b _ IH|x y a|a b c Hab IH1 _ IH2]; intros Hnd; [done| | |].
  - cbn in Hnd. apply NoDup_cons in Hnd as [_ Hnd]. cbn. by rewrite IH.
  - cbn in *. rewrite !NoDup_cons, not_elem_of_cons in Hnd. repeat case_decide; try done. destruct Hnd as [[Hne _] _]. congruence.
  - rewrite IH1 by done. apply IH2. by rewrite <- (fmap_Permutation fst _ _ Hab).
Qed.

Lemma times_NoDup first `{!TimeOrder first} (l : list Z) : sorted_by first l → NoDup l.
Proof.
  intros Hs. apply NoDup_alt. intros i j x Hi Hj. destruct (lt_eq_lt_dec i j) as [[Hlt|]|Hlt]; [|done|].
  - pose proof (Hs i j x x Hlt Hi Hj) as Hc. by rewrite before_irrefl in Hc.
  - pose proof (Hs j i x x Hlt Hj Hi) as Hc. by rewrite before_irrefl in Hc.
Qed.

Definition dir (asc : bool) : Z → Z → bool := if asc then ascending else descending.
#[export] Instance dir_order asc : TimeOrder (dir asc).
Proof. destruct asc; apply _. Defined.

Lemma sorted_reverse (l : list Z) : sorted_by ascending l → sorted_by descending (reverse l).
Proof.
  intros Hs i j x y Hij Hx Hy. pose proof (lookup_lt_Some _ _ _ Hy) as Hj. rewrite length_reverse in Hj. rewrite reverse_lookup in Hx, Hy by lia.
  pose proof (Hs (length l - S j)%nat (length l - S i)%nat y x ltac:(lia) Hy Hx) as Hc. exact Hc.
Qed.

Lemma sorted_filter (P : row → Prop) `{!∀ r, Decision (P r)} rows : sorted_rows ascending rows → sorted_rows ascending (filter P rows).
Proof.
  induction rows as [|r rows IH]; intros Hs; [done|]. apply (sorted_rows_cons ascending) in Hs as [Ha Hs]. rewrite filter_cons. case_decide; [|by apply IH]. apply (sorted_rows_cons ascending). split; [|by apply IH].
  intros q Hq. apply Ha. by apply list_elem_of_filter in Hq as [_ ?].
Qed.

Lemma sorted_directed asc rows : sorted_rows ascending rows → sorted_rows (dir asc) (directed asc rows).
Proof. intros Hs. destruct asc; [done|]. unfold sorted_rows, directed. rewrite fmap_reverse. by apply sorted_reverse. Qed.

Lemma directed_perm asc {A} (l : list A) : directed asc l ≡ₚ l.
Proof. destruct asc; [done|]. apply reverse_Permutation. Qed.

(** ** What a read shows *)

(** The rows [out] show the rows [log]: sorted, at times written in the range, and every
    cell is the one written last. *)
Record shown (gs : list Field) (lo hi : Z) (asc : bool) (log out : list row) : Prop := {
  sh_sorted : sorted_rows (dir asc) out;
  sh_times r : r ∈ out → lo ≤ fst r ≤ hi ∧ fst r ∈ fst <$> log;
  sh_cells t nm : nm ∈ FName <$> gs → cell_at out t nm = if decide (lo ≤ t ≤ hi) then last_written log t nm else None
}.

Lemma view_shown gs lo hi asc log :
  match view (mentions log) gs lo hi asc (write_rows log) with
  | Some out => shown gs lo hi asc log out ∧ out ≠ [] ∧ ∀ nm, (tlen (col_of nm out) ≤ tlen (col_of nm log))%nat
  | None => ∀ t nm, lo ≤ t ≤ hi → nm ∈ FName <$> gs → last_written log t nm = None
  end.
Proof.
  unfold view. set (sel := filter (in_range lo hi) (write_rows log)). pose proof (sorted_filter (in_range lo hi) _ (write_rows_sorted log)) as Hs. fold sel in Hs. destruct (existsb _ gs) eqn:Ex; cbn [andb].
  - destruct (Nat.eqb_spec (length sel) 0) as [Hz|Hz]; cbn [negb].
    + intros t nm Ht Hn. rewrite <- write_rows_cells. apply length_zero_iff_nil in Hz. pose proof (cell_at_filter lo hi (write_rows log) t nm) as Hc. fold sel in Hc. rewrite Hz, decide_True in Hc by done. done.
    + split; [split|split].
      * unfold sorted_rows. rewrite project_times. by apply sorted_directed.
      * intros r (q & -> & Hq)%list_elem_of_fmap_1. rewrite directed_perm in Hq. apply list_elem_of_filter in Hq as [Hq1 Hq2]. cbn. split; [done|]. apply write_rows_times. by apply list_elem_of_fmap_2.
      * intros t nm Hn. rewrite cell_at_project by done. rewrite <- (cell_at_perm sel (directed asc sel)); [|symmetry; apply directed_perm|by apply (times_NoDup ascending)]. unfold sel. by rewrite cell_at_filter, write_rows_cells.
      * intros Hnil%fmap_nil_inv. apply Hz. by rewrite <- (Permutation_length (directed_perm asc sel)), Hnil.
      * intros nm. transitivity (tlen (col_of nm sel)).
        { rewrite (tlen_perm (col_of nm sel) (col_of nm (directed asc sel))) by (unfold col_of; symmetry; apply fmap_Permutation, directed_perm). generalize (directed asc sel). intros l. clear. induction l as [|r l IH]; [done|].
          change (r :: l) with ([r] ++ l). rewrite fmap_app, !col_of_app, !tlen_app. enough (tlen (col_of nm (project gs <$> [r])) ≤ tlen (col_of nm [r]))%nat by lia. unfold tlen. cbn. rewrite map_lookup_filter.
          destruct (snd r !! nm) as [c|]; cbn; [|lia]. case_guard; cbn; rewrite ?length_app; cbn; lia. }
        transitivity (tlen (col_of nm (write_rows log))); [|apply write_rows_tlen]. unfold sel. generalize (write_rows log). intros l. clear. induction l as [|r l IH]; [done|]. rewrite filter_cons.
        change (r :: l) with ([r] ++ l). case_decide; [change (r :: filter (in_range lo hi) l) with ([r] ++ filter (in_range lo hi) l)|]; rewrite !col_of_app, !tlen_app; lia.
  - intros t nm _ (g & -> & Hg)%list_elem_of_fmap_1. apply last_written_mentions. destruct (mentions log (FName g)) eqn:E; [|done]. assert (existsb (λ g, mentions log (FName g)) gs = true); [|congruence].
    apply existsb_exists. exists g. split; [by apply list_elem_of_In|done].
Qed.

(** * engine/mutable: the memtable returns what was written

    Any sequence of writes and reads runs without error, and a read through the snapshot
    and the active table shows every cell as it was written last. *)

Lemma sorted_fields_eq a b : names_sorted a → names_sorted b → (∀ f, f ∈ a ↔ f ∈ b) → a = b.
Proof.
  intros Ha Hb Hab. apply (StronglySorted_unique_strong (λ f g, name_lt f g = true)); [|done|done|].
  - intros x y _ _ H1 H2. by destruct (lt_name_irrefl (FName x) (lt_name_trans _ _ _ H1 H2)).
  - apply NoDup_Permutation; [apply (NoDup_fmap_1 FName), keys_NoDup, Ha|apply (NoDup_fmap_1 FName), keys_NoDup, Hb|done].
Qed.

Lemma tlen_merge first `{!TimeOrder first} nm a b : (tlen (col_of nm (merge_rows first a b)) ≤ tlen (col_of nm a) + tlen (col_of nm b))%nat.
Proof.
  assert (Hc : ∀ (r : row) l, tlen (col_of nm (r :: l)) = (tlen (col_of nm [r]) + tlen (col_of nm l))%nat) by (intros r l; by rewrite <- tlen_app, <- col_of_app).
  revert a b. refine (merge_ind first _ _ _ _ _ _).
  - intros b. rewrite merge_nil_l. lia.
  - intros a. rewrite merge_nil_r. lia.
  - intros n new o old E IH. rewrite merge_old by done. rewrite (Hc o), (Hc o old). lia.
  - intros n new o old E IH. rewrite merge_new by done. rewrite (Hc n), (Hc n new). lia.
  - intros n new o old E IH. rewrite merge_both by done. rewrite (Hc (merge_row n o)), (Hc n new), (Hc o old).
    enough (tlen (col_of nm [merge_row n o]) ≤ tlen (col_of nm [n]) + tlen (col_of nm [o]))%nat by lia. unfold tlen. cbn. rewrite lookup_union. destruct (snd n !! nm), (snd o !! nm); cbn; rewrite ?length_app; cbn; lia.
Qed.

Section Reads.
Context `{GoRuntime} `{FloatConv} {GS : GoSort} `{!GoSortLaws GS} (τ : string → string → FieldType).

(** What a read returns for the rows [log] of a series. *)
Definition reads (gs : list Field) (lo hi : Z) (asc : bool) (log : list row) (out : option Record_) : Prop :=
  match out with
  | None => ∀ t nm, lo ≤ t ≤ hi → nm ∈ FName <$> gs → last_written log t nm = None
  | Some rec => ∃ rows, rec_rep col_rep rec gs time_field rows ∧ shown gs lo hi asc log rows
  end.

Definition opt_rep (t : option MemTable) (L : string → Z → list row) : Prop :=
  match t with Some t => table_rep τ t L | None => ∀ name sid, L name sid = [] end.

Lemma opt_values_spec t L h name id lo hi gs asc :
  opt_rep t L → logs_ok L → helper_ok h → schema_ok (τ name) gs →
  ∃ h' t' out, opt_values h t name id (lo, hi) (gs ++ [time_field]) asc = Ok (h', t', out) ∧ helper_ok h' ∧ opt_rep t' L ∧
    shows gs (view (mentions (L name id)) gs lo hi asc (write_rows (L name id))) out.
Proof.
  intros Ht Hl Hh Hg. destruct t as [t|]; cbn [opt_values].
  - destruct (mt_values_spec τ t L h name id lo hi gs asc Ht Hl Hh Hg) as (h' & t' & out & -> & Hh' & Ht' & Hs). rs. eexists _, (Some t'), _. done.
  - exists h, None, None. rewrite (Ht name id), view_nil. done.
Qed.

(** The merge of the views of two tables. *)
Lemma merge_shown gs lo hi asc A S a s ra rs_ :
  rec_rep col_rep ra gs time_field a → rec_rep col_rep rs_ gs time_field s → shown gs lo hi asc A a → shown gs lo hi asc S s → a ≠ [] → s ≠ [] →
  (∀ nm, Z.of_nat (tlen (col_of nm a) + tlen (col_of nm s)) < 2 ^ 32) → Forall (in_s 64) (fst <$> a) → Forall (in_s 64) (fst <$> s) → Forall (λ t, t < 2 ^ 63 - 1) (fst <$> a) →
  ∃ rec, (if asc then MergeRecord zero_Record ra rs_ else MergeRecordDescend zero_Record ra rs_) = Ok rec ∧ reads gs lo hi asc (S ++ A) (Some rec).
Proof.
  intros Ha Hs [Hso1 Hti1 Hce1] [Hso2 Hti2 Hce2] Hne1 Hne2 Hfit Hin1 Hin2 Hmax.
  assert (Hm : mergeable col_rep ra rs_ gs gs time_field a s (dir asc) 0 0).
  { split; try done; [intros f g Hf Hg Hn; by rewrite (names_sorted_unique gs f g (rr_sorted _ _ _ _ _ Ha) Hf Hg Hn)|by destruct a; cbn; lia || done|by destruct s; cbn; lia || done|].
    rewrite !drop_0. intros f Hf _. unfold fits. pose proof (tlen_merge (dir asc) (FName f) a s). specialize (Hfit (FName f)). unfold tlen in *. lia. }
  assert (Hfr : RecordTable.fresh zero_Record) by (by split_and!).
  assert (Hmg : ∃ rec fs rows, (if asc then MergeRecord zero_Record ra rs_ else MergeRecordDescend zero_Record ra rs_) = Ok rec ∧ rec_rep col_rep rec fs time_field rows ∧ (∀ f, f ∈ fs ↔ f ∈ gs ∨ f ∈ gs) ∧ union_of (dir asc) a s rows).
  { destruct asc; [by apply MergeRecord_spec|by apply MergeRecordDescend_spec]. }
  destruct Hmg as (rec & fs & rows & E & Hrep & Hfs & Hsort & Htimes & Hcells). exists rec. split; [done|].
  assert (fs = gs) as -> by (apply sorted_fields_eq; [apply Hrep|apply Ha|]; intros f; rewrite Hfs; tauto). exists rows. split; [done|]. split; [done| |].
  - intros r Hr. assert (Ht : fst r ∈ fst <$> rows) by (by apply list_elem_of_fmap_2). apply Htimes in Ht. rewrite fmap_app, elem_of_app. destruct Ht as [Ht|Ht]; apply list_elem_of_fmap_1 in Ht as (q & -> & Hq).
    + destruct (Hti1 q Hq). tauto.
    + destruct (Hti2 q Hq). tauto.
  - intros t nm Hn. rewrite Hcells, Hce1, Hce2, last_written_app by done. case_decide; [done|]. done.
Qed.

Lemma view_rows_times gs lo hi asc log out : shown gs lo hi asc log out → ∀ P : Z → Prop, Forall P (fst <$> log) → Forall P (fst <$> out).
Proof. intros Hs P Hp. rewrite Forall_forall in *. intros t (r & -> & Hr)%list_elem_of_fmap_1. apply Hp. by apply (sh_times _ _ _ _ _ _ Hs). Qed.

Lemma reads_app_l gs lo hi asc S A (v : option (list row)) out :
  match v with Some a => shown gs lo hi asc A a | None => ∀ t nm, lo ≤ t ≤ hi → nm ∈ FName <$> gs → last_written A t nm = None end → shows gs v out →
  (∀ t nm, lo ≤ t ≤ hi → nm ∈ FName <$> gs → last_written S t nm = None) → reads gs lo hi asc (S ++ A) out.
Proof.
  intros Hv Hs HS. unfold shows in Hs. destruct v as [a|].
  - destruct Hs as (rec & -> & Hrep). exists a. split; [done|]. destruct Hv as [H1 H2 H3]. split; [done| |].
    + intros r Hr. destruct (H2 r Hr). rewrite fmap_app, elem_of_app. tauto.
    + intros t nm Hn. rewrite H3, last_written_app by done. case_decide; [|done]. rewrite HS by done. by rewrite union_None_r.
  - subst out. intros t nm Ht Hn. rewrite last_written_app, Hv, HS by done. done.
Qed.
Lemma reads_app_r gs lo hi asc S A (v : option (list row)) out :
  match v with Some s => shown gs lo hi asc S s | None => ∀ t nm, lo ≤ t ≤ hi → nm ∈ FName <$> gs → last_written S t nm = None end → shows gs v out →
  (∀ t nm, lo ≤ t ≤ hi → nm ∈ FName <$> gs → last_written A t nm = None) → reads gs lo hi asc (S ++ A) out.
Proof.
  intros Hv Hs HA. unfold shows in Hs. destruct v as [a|].
  - destruct Hs as (rec & -> & Hrep). exists a. split; [done|]. destruct Hv as [H1 H2 H3]. split; [done| |].
    + intros r Hr. destruct (H2 r Hr). rewrite fmap_app, elem_of_app. tauto.
    + intros t nm Hn. rewrite H3, last_written_app by done. case_decide; [|done]. rewrite HA by done. by rewrite union_None_l.
  - subst out. intros t nm Ht Hn. rewrite last_written_app, Hv, HA by done. done.
Qed.

Lemma Values_spec act snap A S h name id lo hi gs asc :
  opt_rep act A → opt_rep snap S → logs_ok (λ n i, S n i ++ A n i) → helper_ok h → schema_ok (τ name) gs →
  Forall (in_s 64) (fst <$> S name id) → Forall (λ t, in_s 64 t ∧ t < 2 ^ 63 - 1) (fst <$> A name id) →
  ∃ h' act' snap' out, Values h (mk_MemTables true act snap) name id (lo, hi) (gs ++ [time_field]) asc = Ok (h', mk_MemTables true act' snap', out) ∧
    helper_ok h' ∧ opt_rep act' A ∧ opt_rep snap' S ∧ reads gs lo hi asc (S name id ++ A name id) out.
Proof.
  intros Ha Hs Hlog Hh Hg HinS HinA. assert (HlS : logs_ok S) by (intros n i; eapply log_ok_prefix, (Hlog n i)).
  assert (HlA : logs_ok A). { intros n i. destruct (Hlog n i) as [Hl Ht]. rewrite length_app in Hl. split; [lia|]. intros nm. specialize (Ht nm). rewrite col_of_app, tlen_app in Ht. lia. }
  unfold Values. cbn [readEnable negb snapshotTbl activeTbl].
  destruct (opt_values_spec snap S h name id lo hi gs asc Hs HlS Hh Hg) as (h1 & snap' & outS & -> & Hh1 & Hs' & HshS). rs.
  destruct (opt_values_spec act A h1 name id lo hi gs asc Ha HlA Hh1 Hg) as (h2 & act' & outA & -> & Hh2 & Ha' & HshA). rs.
  pose proof (view_shown gs lo hi asc (S name id)) as HvS. pose proof (view_shown gs lo hi asc (A name id)) as HvA.
  destruct (view (mentions (A name id)) _ _ _ _ _) as [a|] eqn:Ea.
  - pose proof HshA as (ra & -> & Hra). destruct (view (mentions (S name id)) _ _ _ _ _) as [s|] eqn:Es.
    + destruct HshS as (rs_ & -> & Hrs). destruct HvA as (HvA & Hna & HtA), HvS as (HvS & Hns & HtS). specialize (Hlog name id). cbn beta in Hlog.
      destruct (merge_shown gs lo hi asc (A name id) (S name id) a s ra rs_ Hra Hrs HvA HvS Hna Hns) as (rec & E & Hr).
      { intros nm. destruct Hlog as [_ Hl]. specialize (Hl nm). rewrite col_of_app, tlen_app in Hl. specialize (HtA nm). specialize (HtS nm). lia. }
      { apply (view_rows_times _ _ _ _ _ _ HvA). eapply Forall_impl; [exact HinA|]. by intros ? [? _]. }
      { by apply (view_rows_times _ _ _ _ _ _ HvS). }
      { apply (view_rows_times _ _ _ _ _ _ HvA). eapply Forall_impl; [exact HinA|]. by intros ? [_ ?]. }
      rewrite E. rs. eexists _, _, _, _. split; [done|]. done.
    + assert (outS = None) as -> by done. destruct HvA as (HvA & _). eexists _, _, _, _. split; [done|]. repeat (split; [done|]). by apply (reads_app_l gs lo hi asc _ _ (Some a)).
  - assert (outA = None) as -> by done. eexists _, _, _, _. split; [done|]. repeat (split; [done|]). eapply reads_app_r; [|exact HshS|exact HvA]. destruct (view (mentions (S name id)) _ _ _ _ _); [by destruct HvS|done].
Qed.
End Reads.
