(* ===== verification/MemRuns.v ===== *)
(** * engine/mutable: runs of the memtable

    Sequences of writes and reads from an empty table, and concrete runs: the sizes that a
    run needs are bounded by the rows and bytes written, so that they can be computed. *)

From stdpp Require Import gmap sorting.
From Stdlib Require String.
From S2P Require Import Prelude GoString GoSlice GoSort Bitmap ColVal ColRefine ColStrings Column TimeSearch Compress Record RecordSchema RecordTable MergeSpec RecordMerge MergeRecords.
From S2P Require Import RecordSort SortColumns SortRefine SortProps FastSort MemTable MemAppend MemChunk MemRead MemCopy MemStore MemValues.

(** A write of a batch, or a read of a series; [pooled] tells whether the sort helper of
    earlier reads is used again. *)
Inductive mem_op :=
| OpWrite (b : list (string * list Row))
| OpRead (name : string) (id lo hi : Z) (gs : list Field) (asc pooled : bool).

Section Runs.
Context `{GoRuntime} `{FloatConv} {GS : GoSort}.

Definition run_op (st : ColumnSortHelper * MemTable) (op : mem_op) : res (ColumnSortHelper * MemTable) :=
  match op with
  | OpWrite b =>
      let! (t, _, err) := WriteRows (snd st) (dict b) [] in
      match err with None => Ok (fst st, t) | Some _ => Err "write" end
  | OpRead name id lo hi gs asc pooled =>
      let! (h, t, _) := mt_values (if pooled then fst st else NewColumnSortHelper) (snd st) name id (lo, hi) (gs ++ [time_field]) asc in
      Ok (h, t)
  end.
Fixpoint run_ops (st : ColumnSortHelper * MemTable) (ops : list mem_op) : res (ColumnSortHelper * MemTable) :=
  match ops with [] => Ok st | op :: ops => let! st := run_op st op in run_ops st ops end.

(** The rows that a sequence writes to a series. *)
Definition op_writes (name : string) (sid : Z) (op : mem_op) : list row := match op with OpWrite b => written b name sid | _ => [] end.
Definition log_of (ops : list mem_op) (name : string) (sid : Z) : list row := concat (op_writes name sid <$> ops).

Context (τ : string → string → FieldType).
Definition op_ok (op : mem_op) : Prop :=
  match op with OpWrite b => batch_ok τ b | OpRead name _ _ _ gs _ _ => schema_ok (τ name) gs end.

Context `{!GoSortLaws GS}.

Lemma NewColumnSortHelper_ok : helper_ok NewColumnSortHelper.
Proof. done. Qed.

Lemma run_mem_spec ops h t L :
  helper_ok h → table_rep τ t L → Forall op_ok ops → logs_ok (λ n i, L n i ++ log_of ops n i) →
  ∃ h' t', run_ops (h, t) ops = Ok (h', t') ∧ helper_ok h' ∧ table_rep τ t' (λ n i, L n i ++ log_of ops n i).
Proof.
  revert h t L. induction ops as [|op ops IH]; intros h t L Hh Ht Hok Hlog.
  { exists h, t. split; [done|]. split; [done|]. eapply table_rep_ext; [|exact Ht]. intros n i. cbn. by rewrite app_nil_r. }
  inversion Hok as [|? ? Hop Hok']; subst. assert (Hl1 : logs_ok (λ n i, L n i ++ op_writes n i op)).
  { intros n i. eapply log_ok_prefix. rewrite <- app_assoc. apply Hlog. }
  assert (Hstep : ∃ h1 t1, run_op (h, t) op = Ok (h1, t1) ∧ helper_ok h1 ∧ table_rep τ t1 (λ n i, L n i ++ op_writes n i op)).
  { destruct op as [b|name id lo hi gs asc pooled]; cbn [run_op fst snd op_writes] in *.
    - destruct (WriteRows_spec τ b t L [] Ht Hop Hl1) as (t1 & -> & Ht1). rs. eauto.
    - assert (HlL : logs_ok L) by (intros n i; specialize (Hl1 n i); cbn beta in Hl1; by rewrite app_nil_r in Hl1).
      destruct (mt_values_spec τ t L (if pooled then h else NewColumnSortHelper) name id lo hi gs asc Ht HlL) as (h1 & t1 & out & -> & Hh1 & Ht1 & _); [by destruct pooled|done|]. rs. eexists _, _. split; [done|]. split; [done|].
      eapply table_rep_ext; [|exact Ht1]. intros n i. by rewrite app_nil_r. }
  destruct Hstep as (h1 & t1 & E & Hh1 & Ht1). cbn [run_ops]. rewrite E. rs.
  destruct (IH h1 t1 _ Hh1 Ht1 Hok') as (h2 & t2 & E2 & Hh2 & Ht2); [intros n i; cbn beta; rewrite <- app_assoc; apply Hlog|].
  exists h2, t2. split; [done|]. split; [done|]. eapply table_rep_ext; [|exact Ht2]. intros n i. cbn beta. by rewrite <- app_assoc.
Qed.

Lemma run_new ops : Forall op_ok ops → logs_ok (log_of ops) → ∃ h t, run_ops (NewColumnSortHelper, NewMemTable) ops = Ok (h, t) ∧ helper_ok h ∧ table_rep τ t (log_of ops).
Proof. intros Hok Hlog. by apply (run_mem_spec ops NewColumnSortHelper NewMemTable (λ _ _, [])); [done|apply NewMemTable_rep|done|]. Qed.

(** The times written are int64. *)
Lemma written_times b name sid : batch_ok τ b → Forall (in_s 64) (fst <$> written b name sid).
Proof.
  intros Hb. induction Hb as [|[k rs] b [_ Hrs] _ IH]; [constructor|]. rewrite written_cons, fmap_app. apply Forall_app. split; [|done]. cbn [fst snd] in *. case_decide as Hk; [|constructor]. subst k.
  rewrite Forall_forall in Hrs. rewrite Forall_forall. intros t (r & -> & Hr)%list_elem_of_fmap_1. unfold points in Hr. apply list_elem_of_fmap_1 in Hr as (q & -> & [_ Hq]%list_elem_of_filter). cbn. apply (po_time _ _ _ (Hrs q Hq)).
Qed.
Lemma log_of_times ops name sid : Forall op_ok ops → Forall (in_s 64) (fst <$> log_of ops name sid).
Proof.
  induction 1 as [|op ops Hop _ IH]; [constructor|]. unfold log_of. cbn [fmap list_fmap concat]. rewrite fmap_app. apply Forall_app. split; [|done]. destruct op; [by apply written_times|constructor].
Qed.

(** ** Sizes *)

Definition row_bytes (r : Row) : nat := sum_list_with (λ f, length (cell_of f)) (Fields r).
Definition op_rows (op : mem_op) : nat := match op with OpWrite b => sum_list_with (λ e, length (snd e)) b | _ => 0 end.
Definition op_bytes (op : mem_op) : nat := match op with OpWrite b => sum_list_with (λ e, sum_list_with row_bytes (snd e)) b | _ => 0 end.

Lemma cells_bytes nm fields : (tlen [cells_of fields !! nm] ≤ sum_list_with (λ f, length (cell_of f)) fields)%nat.
Proof.
  unfold tlen, cells_of. induction fields as [|f fields IH]; [cbn; rewrite lookup_empty; cbn; lia|]. cbn [fmap list_fmap list_to_map fst snd foldr sum_list_with]. cbn in IH |- *. destruct (decide (Key f = nm)) as [->|Hne].
  - rewrite lookup_insert_eq. cbn. rewrite app_nil_r. lia.
  - rewrite lookup_insert_ne by done. lia.
Qed.

Lemma points_size sid nm rs : (length (points sid rs) ≤ length rs)%nat ∧ (tlen (col_of nm (points sid rs)) ≤ sum_list_with row_bytes rs)%nat.
Proof.
  induction rs as [|r rs [IH1 IH2]]; [done|]. rewrite points_cons, length_app, col_of_app, tlen_app. cbn [sum_list_with length]. pose proof (cells_bytes nm (Fields r)) as Hc. fold (row_bytes r) in Hc.
  case_decide; cbn [length]; [change (col_of nm [point r]) with [cells_of (Fields r) !! nm]; lia|]. change (tlen (col_of nm [])) with 0%nat. lia.
Qed.

Lemma written_size b name sid nm : (length (written b name sid) ≤ op_rows (OpWrite b))%nat ∧ (tlen (col_of nm (written b name sid)) ≤ op_bytes (OpWrite b))%nat.
Proof.
  induction b as [|[k rs] b [IH1 IH2]]; [done|]. rewrite written_cons, length_app, col_of_app, tlen_app. cbn [fst snd op_rows op_bytes fmap sum_list_with] in *. destruct (points_size sid nm rs).
  case_decide; [lia|]. cbn [length]. change (tlen (col_of nm [])) with 0%nat. lia.
Qed.

Lemma log_of_size ops name sid nm : (length (log_of ops name sid) ≤ sum_list_with op_rows ops)%nat ∧ (tlen (col_of nm (log_of ops name sid)) ≤ sum_list_with op_bytes ops)%nat.
Proof.
  unfold log_of. induction ops as [|op ops [IH1 IH2]]; [done|]. cbn [fmap list_fmap concat sum_list_with]. rewrite length_app, col_of_app, tlen_app. destruct op as [b|]; cbn [op_writes].
  - destruct (written_size b name sid nm). lia.
  - cbn [length]. change (tlen (col_of nm [])) with 0%nat. lia.
Qed.

Lemma small_logs a b :
  Z.of_nat (sum_list_with op_rows (a ++ b)) < 2 ^ 31 → Z.of_nat (sum_list_with op_bytes (a ++ b)) < 2 ^ 32 → logs_ok (λ n i, log_of a n i ++ log_of b n i).
Proof.
  intros Hr Hb n i. split.
  - rewrite length_app. destruct (log_of_size a n i ""), (log_of_size b n i ""). rewrite sum_list_with_app in Hr. lia.
  - intros nm. rewrite col_of_app, tlen_app. destruct (log_of_size a n i nm), (log_of_size b n i nm). rewrite sum_list_with_app in Hb. lia.
Qed.

(** ** Theorems *)

(** C6: The memtable returns what was written, for well-formed rows: the fields of a row are
    sorted by name without repetition, are floats, integers, strings or booleans, are not
    called time, and a field of a measurement has one type in all rows; times are int64, those
    in the active table below the largest int64; a series has below 2^31 rows and 4 GiB of text
    per column. Whatever batches of such rows were written to the snapshot and then to the
    active table, with reads in between, every write succeeds, and a read of a series through
    both, in either direction, gives a record with the columns asked for, sorted by time, whose
    rows are rows written in the range, and in which every cell is the value written last at
    its time; nothing is returned only if nothing was written there. A row with a field of
    another type fails halfway and later rows are then read wrongly ([failed_row_shifts]). *)
Theorem memtable_shows_writes opsS opsA name id lo hi gs asc :
  Forall op_ok opsS → Forall op_ok opsA → logs_ok (λ n i, log_of opsS n i ++ log_of opsA n i) → schema_ok (τ name) gs →
  Forall (λ t, t < 2 ^ 63 - 1) (fst <$> log_of opsA name id) →
  ∃ hS tS hA tA h m out,
    run_ops (NewColumnSortHelper, NewMemTable) opsS = Ok (hS, tS) ∧ run_ops (NewColumnSortHelper, NewMemTable) opsA = Ok (hA, tA) ∧
    Values hA (mk_MemTables true (Some tA) (Some tS)) name id (lo, hi) (gs ++ [time_field]) asc = Ok (h, m, out) ∧
    reads gs lo hi asc (log_of opsS name id ++ log_of opsA name id) out.
Proof.
  intros HS HA Hlog Hg Hmax. destruct (run_new opsS HS) as (hS & tS & ES & _ & HtS); [intros n i; eapply log_ok_prefix, Hlog|].
  destruct (run_new opsA HA) as (hA & tA & EA & HhA & HtA).
  { intros n i. destruct (Hlog n i) as [Hl Ht]. rewrite length_app in Hl. split; [lia|]. intros nm. specialize (Ht nm). rewrite col_of_app, tlen_app in Ht. lia. }
  destruct (Values_spec τ (Some tA) (Some tS) (log_of opsA) (log_of opsS) hA name id lo hi gs asc HtA HtS Hlog HhA Hg) as (h & act & snap & out & E & _ & _ & _ & Hr).
  { by apply log_of_times. }
  { pose proof (log_of_times opsA name id HA) as Ht. rewrite Forall_forall in *. auto. }
  exists hS, tS, hA, tA, h, (mk_MemTables true act snap), out. done.
Qed.
End Runs.

(** ** A concrete run *)

Definition amd64_conv : FloatConv := {| int64_other := λ _, -2 ^ 63 |}.
Definition one_bits : Z := 4607182418800017408.
Definition sample_type (_ nm : string) : FieldType := if decide (nm = "s"%string) then Field_Type_String else if decide (nm = "b"%string) then Field_Type_Boolean else Field_Type_Int.
Definition f_int (nm : string) : InfluxField := mk_InfluxField nm one_bits [] Field_Type_Int.
Definition f_bool : InfluxField := mk_InfluxField "b" one_bits [] Field_Type_Boolean.
Definition f_str (v : list Z) : InfluxField := mk_InfluxField "s" 0 v Field_Type_String.
Definition sample_row (time sid : Z) (fields : list InfluxField) : Row := mk_Row time sid "cpu" fields [].
Definition sample_snapshot : list mem_op := [OpWrite [("cpu"%string, [sample_row 5 1 [f_int "a"; f_str [104; 105]]; sample_row 3 2 [f_bool]])]].
Definition sample_active : list mem_op :=
  [OpWrite [("cpu"%string, [sample_row 7 1 [f_int "a"]; sample_row 5 1 [f_bool; f_str [120]]])];
   OpRead "cpu" 1 0 9 [mk_Field Field_Type_Boolean "b"] true false;
   OpWrite [("cpu"%string, [sample_row 4 1 [f_bool; f_int "c"]; sample_row 9 0 [f_bool]])]].
Definition sample_fields : list Field := [mk_Field Field_Type_Int "a"; mk_Field Field_Type_Boolean "b"; mk_Field Field_Type_String "s"].

Lemma fields_ok_check fields : names_sorted (field_schema <$> fields) → forallb (λ f, bool_decide (Key f ≠ TimeField)) fields = true → Forall (λ f, data_type (Type_ f)) fields → fields_ok fields.
Proof. intros Hs Ht Hd. split; [done|done|]. apply Forall_forall. intros f Hf. rewrite forallb_forall in Ht. specialize (Ht f (proj1 (list_elem_of_In _ _) Hf)). by apply bool_decide_eq_true in Ht. Qed.

Ltac point_check := split; [apply fields_ok_check; [unfold names_sorted; cbn; repeat constructor|by_compute|repeat constructor]|unfold typed; cbn; repeat constructor|by_compute].

Ltac batch_check := apply Forall_cons_2; [|by apply Forall_nil_2]; split; [done|]; repeat (apply Forall_cons_2; [point_check|]); apply Forall_nil_2.

Lemma sample_snapshot_ok : Forall (op_ok sample_type) sample_snapshot.
Proof. apply Forall_cons; split; [batch_check|done]. Qed.
Lemma sample_active_ok : Forall (op_ok sample_type) sample_active.
Proof.
  apply Forall_cons; split; [|apply Forall_cons; split; [|apply Forall_cons; split; [|done]]].
  - batch_check.
  - split; repeat constructor; done.
  - batch_check.
Qed.

(** The read of the concrete run, evaluated: three rows, the text of the active table, and
    the cell of the snapshot that was not overwritten. *)
Lemma sample_read_values :
  ∃ hS tS hA tA h m rec,
    @run_ops tight_runtime amd64_conv insertion_go_sort (NewColumnSortHelper, NewMemTable) sample_snapshot = Ok (hS, tS) ∧
    @run_ops tight_runtime amd64_conv insertion_go_sort (NewColumnSortHelper, NewMemTable) sample_active = Ok (hA, tA) ∧
    @Values tight_runtime insertion_go_sort hA (mk_MemTables true (Some tA) (Some tS)) "cpu" 1 (0, 9) (sample_fields ++ [time_field]) true = Ok (h, m, Some rec) ∧
    Times rec = [4; 5; 7] ∧ (λ c, (sdata (Val c), sdata (Bitmap c), NilCount c)) <$> ColVals rec =
      [([1; 0; 0; 0; 0; 0; 0; 0; 1; 0; 0; 0; 0; 0; 0; 0], [6], 1); ([1; 1], [3], 1); ([120], [2], 2); (bytes_le 8 [4; 5; 7], [7], 0)].
Proof. eexists _, _, _, _, _, _, _. split; [vm_compute; reflexivity|]. split; [vm_compute; reflexivity|]. split; [vm_compute; reflexivity|]. split; vm_compute; reflexivity. Qed.

Lemma memtable_shows_writes_witness :
  ∃ hS tS hA tA h m out,
    @run_ops tight_runtime amd64_conv insertion_go_sort (NewColumnSortHelper, NewMemTable) sample_snapshot = Ok (hS, tS) ∧
    @run_ops tight_runtime amd64_conv insertion_go_sort (NewColumnSortHelper, NewMemTable) sample_active = Ok (hA, tA) ∧
    @Values tight_runtime insertion_go_sort hA (mk_MemTables true (Some tA) (Some tS)) "cpu" 1 (0, 9) (sample_fields ++ [time_field]) true = Ok (h, m, out) ∧
    reads sample_fields 0 9 true (@log_of amd64_conv sample_snapshot "cpu" 1 ++ @log_of amd64_conv sample_active "cpu" 1) out.
Proof.
  apply (@memtable_shows_writes tight_runtime amd64_conv insertion_go_sort sample_type _ sample_snapshot sample_active "cpu" 1 0 9 sample_fields true).
  - apply sample_snapshot_ok.
  - apply sample_active_ok.
  - apply small_logs; by_compute.
  - split; repeat constructor; done.
  - by_compute.
Defined.
