(* ===== verification/MemFlush.v ===== *)
(** * engine/mutable: splitting a record by time

    [SplitRecordByTime_spec]: the two records hold the rows after the time and the others,
    each with the columns that have a value there. *)

From stdpp Require Import gmap sorting.
From Stdlib Require String.
From S2P Require Import Prelude GoString GoSlice GoSort Bitmap ColVal ColRefine ColStrings Column TimeSearch Compress Record RecordSchema RecordTable MergeSpec.
From S2P Require Import RecordSort SortColumns SortRefine SortProps FastSort MemTable MemAppend MemChunk MemRead MemCopy.

(** ** Columns with a value *)

Definition has_value (cs : list (option cell)) : bool := existsb present cs.

Lemma has_value_nils cv ft cs : col_rep ft cv cs → negb (NilCount cv =? Z.of_nat (Len cv)) = has_value cs.
Proof.
  intros Hc%col_rep_bits. rewrite (br_nils _ _ Hc), (br_len _ _ Hc). clear Hc. set (n := length (validity cs)). transitivity (negb (count_true (validity cs) =? 0)%nat).
  { f_equal. destruct (Nat.eqb_spec (count_true (validity cs)) 0), (Z.eqb_spec (Z.of_nat n - Z.of_nat (count_true (validity cs))) (Z.of_nat n)); lia. }
  induction cs as [|c cs IH]; [done|]. unfold validity in *. cbn [fmap list_fmap has_value existsb] in *. rewrite count_true_cons. unfold has_value in IH. destruct (present c); [done|]. exact IH.
Qed.

Lemma has_value_spec nm rows : has_value (col_of nm rows) = mentions rows nm.
Proof. unfold has_value, mentions, col_of. induction rows as [|r rows IH]; [done|]. cbn. rewrite IH. f_equal. destruct (snd r !! nm); [done|]. by rewrite bool_decide_false by (intros []; done). Qed.

(** ** One side of the split *)

(** A source column with its cells. *)
Record source := mk_source { s_field : Field; s_col : ColVal; s_cells : list (option cell) }.

Section Split.
Context `{GoRuntime}.

Definition source_ok (n : nat) (x : source) : Prop :=
  data_type (FType (s_field x)) ∧ col_rep (FType (s_field x)) (s_col x) (s_cells x) ∧ length (s_cells x) = n ∧
  (FType (s_field x) = Field_Type_String → fits (s_cells x)).

Record part_inv (s e : nat) (kept : list source) (rec : Record_) (idx rem : nat) : Prop := {
  pi_schema : Schema rec = s_field <$> kept;
  pi_cols : ∃ cs rest, ColVals rec = cs ++ rest ∧ Forall2 (λ x cv, col_rep (FType (s_field x)) cv (slice_rows (s_cells x) s e)) kept cs ∧
              idx = length cs ∧ (rem ≤ length rest)%nat ∧ cols_ok rest;
  pi_spare : cols_ok (ColSpare rec);
  pi_meta : MetaTimes rec = None
}.

Definition keeps (s e : nat) (x : source) : Prop := has_value (slice_rows (s_cells x) s e) = true.
#[export] Instance keeps_dec s e x : Decision (keeps s e x).
Proof. unfold keeps. apply _. Defined.

Lemma fits_slice (cs : list (option cell)) s e : fits cs → fits (slice_rows cs s e).
Proof.
  unfold fits. fold (tlen cs) (tlen (slice_rows cs s e)). intros Hf. enough (tlen (slice_rows cs s e) ≤ tlen cs)%nat by lia. unfold slice_rows. rewrite <- (take_drop s cs) at 2. rewrite <- (take_drop (e - s) (drop s cs)) at 2. rewrite !tlen_app. lia.
Qed.

Lemma put_part_spec n s e kept rec idx rem x :
  part_inv s e kept rec idx (S rem) → source_ok n x → (s ≤ e ≤ n)%nat →
  ∃ rec' idx', put_part rec idx (s_field x) (s_col x) s e = Ok (rec', idx') ∧ part_inv s e (if decide (keeps s e x) then kept ++ [x] else kept) rec' idx' rem.
Proof.
  intros [Hs (cs & rest & Hc & Hall & -> & Hrem & Hok) Hsp Hm] (Hd & Hx & Hl & Hf) Hse. destruct rest as [|b rest]; [cbn in Hrem; lia|]. cbn in Hrem. pose proof Hok as [Hb Hok']%Forall_cons.
  unfold put_part. rewrite Hc, list_lookup_middle by done. destruct (Init_blank b Hb) as (b' & -> & Hb'). rs.
  destruct (col_append (R := col_rep) (FType (s_field x)) b' [] (s_col x) (s_cells x) s e (col_blank (R := col_rep) _ _ Hd Hb') Hx ltac:(lia)) as (c & -> & Hcr); [intros Hst; by apply fits_slice, Hf|]. rs.
  cbn [app] in Hcr. fold (slice_rows (s_cells x) s e) in Hcr. rewrite (has_value_nils c _ _ Hcr), insert_middle. destruct (decide (keeps s e x)) as [Hk|Hk]; unfold keeps in Hk; [|apply not_true_is_false in Hk]; rewrite Hk.
  - eexists _, _. split; [done|]. split; cbn [set_Schema set_ColVals Schema ColVals ColSpare MetaTimes]; try done; [by rewrite Hs, fmap_app|].
    exists (cs ++ [c]), rest. split; [by rewrite <- app_assoc|]. split; [by apply Forall2_app; [|repeat constructor]|]. split; [rewrite length_app; cbn; lia|]. split; [lia|done].
  - eexists _, _. split; [done|]. split; cbn [set_ColVals Schema ColVals ColSpare MetaTimes]; try done.
    exists cs, (c :: rest). split; [done|]. split; [done|]. split; [done|]. split; [cbn; lia|]. constructor; [by eapply br_bytes, col_rep_bits|done].
Qed.

Lemma split_cols_spec n k srcs ko ku orec urec oi ui :
  Forall (source_ok n) srcs → (k ≤ n)%nat → part_inv k n ko orec oi (length srcs) → part_inv 0 k ku urec ui (length srcs) →
  ∃ orec' urec' oi' ui', split_cols ((λ x, (s_field x, s_col x)) <$> srcs) k orec urec oi ui = Ok (orec', urec', oi', ui') ∧
    part_inv k n (ko ++ filter (keeps k n) srcs) orec' oi' 0 ∧ part_inv 0 k (ku ++ filter (keeps 0 k) srcs) urec' ui' 0.
Proof.
  intros Hall Hk. revert ko ku orec urec oi ui. induction Hall as [|x srcs Hx _ IH]; intros ko ku orec urec oi ui Ho Hu.
  { exists orec, urec, oi, ui. rewrite !app_nil_r. done. }
  cbn [fmap list_fmap split_cols length] in *. assert (Hlo : (oi < length (ColVals orec))%nat). { destruct Ho as [_ (cs & rest & -> & _ & -> & Hr & _) _ _]. rewrite length_app. lia. }
  rewrite (proj2 (Nat.leb_gt _ _) Hlo). destruct (put_part_spec n 0 k ku urec ui (length srcs) x Hu Hx ltac:(lia)) as (u1 & ui1 & -> & Hu1). rs.
  assert (Hlen : Len (s_col x) = n) by (destruct Hx as (_ & Hx & <- & _); by apply (col_len (R := col_rep) _ _ _ Hx)). rewrite Hlen.
  destruct (put_part_spec n k n ko orec oi (length srcs) x Ho Hx ltac:(lia)) as (o1 & oi1 & -> & Ho1). rs.
  destruct (IH _ _ o1 u1 oi1 ui1 Ho1 Hu1) as (o2 & u2 & oi2 & ui2 & -> & Ho2 & Hu2). exists o2, u2, oi2, ui2. split; [done|]. rewrite !filter_cons. repeat case_decide; rewrite <- ?app_assoc in *; done.
Qed.

(** ** The parts of a record *)

Definition sources (fs : list Field) (cs : list ColVal) (tc : ColVal) (rows : list row) : list source :=
  ((λ p, mk_source (fst p) (snd p) (col_of (FName (fst p)) rows)) <$> zip fs cs) ++ [mk_source time_field tc (time_cells (fst <$> rows))].

(** A part of the rows, with the columns that have a value in it. *)
Definition part_of (names : list string) (part : list row) (o : option Record_) : Prop :=
  match o with
  | None => part = []
  | Some rec => part ≠ [] ∧ ∃ gs, rec_rep col_rep rec gs time_field part ∧ ∀ nm, nm ∈ FName <$> gs ↔ nm ∈ names ∧ mentions part nm = true
  end.

Lemma part_rec fs cs tc rows s e rec idx :
  Forall2 (col_ok col_rep rows) fs cs → names_sorted fs → Forall (λ f, data_type (FType f)) fs → keys_in fs rows → (s < e ≤ length rows)%nat →
  part_inv s e (filter (keeps s e) (sources fs cs tc rows)) rec idx 0 →
  part_of (FName <$> fs) (slice_rows rows s e) (Some (cut_cols rec idx)) ∧ rec_ok (cut_cols rec idx).
Proof.
  intros Hcs Hsort Hty Hk Hse [Hs (ds & rest & Hc & Hall & -> & _ & Hok) Hsp Hm]. set (fsrc := λ p : Field * ColVal, mk_source (fst p) (snd p) (col_of (FName (fst p)) rows)).
  assert (Hne : slice_rows rows s e ≠ []) by (intros Hn; apply (f_equal length) in Hn; rewrite length_slice_rows in Hn by lia; cbn in Hn; lia).
  assert (Hkt : filter (keeps s e) (sources fs cs tc rows) = filter (keeps s e) (fsrc <$> zip fs cs) ++ [mk_source time_field tc (time_cells (fst <$> rows))]).
  { unfold sources. rewrite filter_app. f_equal. rewrite filter_cons_True; [done|]. unfold keeps. cbn [s_cells]. unfold time_cells, slice_rows. rewrite <- fmap_drop, <- fmap_take, <- fmap_drop, <- fmap_take. fold (slice_rows rows s e).
    by destruct (slice_rows rows s e). }
  rewrite Hkt in Hs, Hall. set (ks := filter (keeps s e) (fsrc <$> zip fs cs)) in *. apply Forall2_app_inv_l in Hall as (ds1 & ds2 & Hds1 & Hds2 & ->). apply Forall2_cons_inv_l in Hds2 as (td & l & Htd & Hl & ->). apply Forall2_nil_inv_l in Hl as ->.
  rewrite fmap_app in Hs. cbn [fmap list_fmap s_field] in Hs, Htd.
  assert (Hsub : s_field <$> ks `sublist_of` fs).
  { assert (Hfs : fs = s_field <$> (fsrc <$> zip fs cs)) by (rewrite <- list_fmap_compose; symmetry; apply fst_zip; by rewrite (Forall2_length _ _ _ Hcs)). rewrite Hfs. apply fmap_sublist, sublist_filter. }
  assert (Hks : ∀ x, x ∈ ks → s_cells x = col_of (FName (s_field x)) rows) by (intros x [_ (p & -> & _)%list_elem_of_fmap_1]%list_elem_of_filter; done).
  assert (Hnames : ∀ nm, nm ∈ FName <$> (s_field <$> ks) ↔ nm ∈ FName <$> fs ∧ mentions (slice_rows rows s e) nm = true).
  { intros nm. rewrite <- has_value_spec, col_of_slice. fold (slice_rows (col_of nm rows) s e). split.
    - intros (f & -> & (x & -> & Hx)%list_elem_of_fmap_1)%list_elem_of_fmap_1. split; [apply list_elem_of_fmap_2; eapply elem_of_submseteq; [|by apply sublist_submseteq]; by apply (list_elem_of_fmap_2 s_field)|].
      rewrite <- (Hks x Hx). by apply list_elem_of_filter in Hx as [Hx _].
    - intros [(f & -> & Hf)%list_elem_of_fmap_1 Hv]. apply list_elem_of_lookup_1 in Hf as [i Hf]. destruct (Forall2_lookup_l _ _ _ _ _ Hcs Hf) as (c & Hci & _).
      apply list_elem_of_fmap. exists f. split; [done|]. apply list_elem_of_fmap. exists (fsrc (f, c)). split; [done|]. apply list_elem_of_filter. split; [done|]. apply list_elem_of_fmap_2, (list_elem_of_lookup_2 _ i). by rewrite lookup_zip_with, Hf, Hci. }
  unfold cut_cols. rewrite Hc, <- app_assoc in *. replace (take (length (ds1 ++ [td])) (ds1 ++ [td] ++ rest)) with (ds1 ++ [td]) by (rewrite app_assoc; by rewrite take_app_length). replace (drop (length (ds1 ++ [td])) (ds1 ++ [td] ++ rest)) with rest by (rewrite app_assoc; by rewrite drop_app_length).
  assert (Hd1 : Forall2 (col_ok col_rep (slice_rows rows s e)) (s_field <$> ks) ds1).
  { apply Forall2_fmap_l. clear -Hds1 Hks. induction Hds1 as [|x d ks ds Hx _ IH]; constructor; [|apply IH; intros y Hy; apply Hks; by right].
    change (col_rep (FType (s_field x)) d (col_of (FName (s_field x)) (slice_rows rows s e))). rewrite col_of_slice, <- (Hks x) by left. exact Hx. }
  assert (Htd' : col_rep Field_Type_Int td (time_cells (fst <$> slice_rows rows s e))) by (rewrite times_slice; exact Htd).
  split; [split; [done|]; exists (s_field <$> ks); split; [|done]|].
  - split; cbn [Schema ColVals MetaTimes]; try done; [by exists ds1, td|by eapply sorted_sublist| |].
    + apply Forall_forall. intros f Hf. rewrite Forall_forall in Hty. apply Hty. eapply elem_of_submseteq; [exact Hf|by apply sublist_submseteq].
    + intros r nm c Hr Hcell. apply Hnames. split; [by eapply (keys_in_slice fs rows s e Hk)|]. apply mentions_spec. exists r. split; [done|by eexists].
  - split; [done|]. cbn [ColVals ColSpare]. apply Forall_app. split; [|by apply Forall_app]. apply Forall_app. split; [by eapply col_ok_bitmaps|]. constructor; [|constructor]. by eapply br_bytes, col_rep_bits.
Qed.

Lemma reserve_part p m s e : rec_ok p → ∃ rec, ReserveColVal (Reset p) (Z.of_nat m) = Ok rec ∧ part_inv s e [] rec 0 m.
Proof.
  intros [Hm Hok]. destruct (ReserveColVal_grow (Reset p) m) as (bs & spare & -> & Hb & Hl & Hsp); [constructor|exact Hok|]. eexists. split; [done|]. split; cbn [Reset Schema ColVals ColSpare MetaTimes app]; try done.
  exists [], bs. split; [done|]. split; [done|]. split; [done|]. split; [lia|by apply blank_ok].
Qed.

Lemma columns_sources rec fs cs tc rows : Schema rec = fs ++ [time_field] → ColVals rec = cs ++ [tc] → length fs = length cs → (λ x, (s_field x, s_col x)) <$> sources fs cs tc rows = columns rec.
Proof.
  intros Hs Hc Hl. unfold columns, sources. rewrite Hs, Hc, zip_with_app by done. rewrite fmap_app. f_equal. rewrite <- list_fmap_compose. rewrite <- (list_fmap_id (zip fs cs)) at 2. apply list_fmap_ext. intros i [f c] _. done.
Qed.

Lemma sources_ok fs cs tc rows :
  Forall2 (col_ok col_rep rows) fs cs → col_rep Field_Type_Int tc (time_cells (fst <$> rows)) → Forall (λ f, data_type (FType f)) fs → (∀ nm, fits (col_of nm rows)) → Forall (source_ok (length rows)) (sources fs cs tc rows).
Proof.
  intros Hcs Ht Hty Hfit. apply Forall_app. split; [|constructor; [|constructor]].
  - apply Forall_fmap. revert Hty. induction Hcs as [|f c fs cs Hc _ IH]; intros Hty; [constructor|]. inversion Hty; subst. cbn. constructor; [|by apply IH]. split; [done|]. split; [done|]. split; [apply length_col_of|]. intros _. apply Hfit.
  - split; [done|]. split; [done|]. split; [unfold time_cells; cbn; by rewrite !length_fmap|done].
Qed.

Lemma whole_part rec fs rows :
  rec_rep col_rep rec fs time_field rows → rows ≠ [] → (∀ f, f ∈ fs → mentions rows (FName f) = true) → part_of (FName <$> fs) rows (Some rec).
Proof.
  intros Hrep Hne Hval. split; [done|]. exists fs. split; [done|]. intros nm. split; [|tauto]. intros Hn. split; [done|]. apply list_elem_of_fmap_1 in Hn as (f & -> & Hf). by apply Hval.
Qed.

Definition after (t : Z) (rows : list row) : list row := filter (λ r, t < fst r) rows.
Definition upto (t : Z) (rows : list row) : list row := filter (λ r, fst r ≤ t) rows.

Lemma filter_id {A} (P : A → Prop) `{!∀ x, Decision (P x)} (l : list A) : (∀ x, x ∈ l → P x) → filter P l = l.
Proof. induction l as [|x l IH]; intros Hall; [done|]. rewrite filter_cons_True by (apply Hall; left). f_equal. apply IH. intros y Hy. apply Hall. by right. Qed.
Lemma filter_none {A} (P : A → Prop) `{!∀ x, Decision (P x)} (l : list A) : (∀ x, x ∈ l → ¬ P x) → filter P l = [].
Proof. induction l as [|x l IH]; intros Hall; [done|]. rewrite filter_cons_False by (apply Hall; left). apply IH. intros y Hy. apply Hall. by right. Qed.

Lemma sorted_first_last (r0 : row) rows rn :
  sorted_rows ascending (r0 :: rows) → last (r0 :: rows) = Some rn → ∀ r, r ∈ r0 :: rows → fst r0 ≤ fst r ≤ fst rn.
Proof.
  intros Hs Hl r Hr. split.
  - apply (sorted_rows_cons ascending) in Hs as [Ha _]. apply elem_of_cons in Hr as [->|Hr]; [done|]. specialize (Ha r Hr). unfold ascending in Ha. lia.
  - apply last_Some in Hl as [l El]. rewrite El in Hs, Hr. apply sorted_rows_snoc in Hs as [_ Ha]. apply elem_of_app in Hr as [Hr| ->%list_elem_of_singleton]; [|done]. specialize (Ha r Hr). lia.
Qed.

Lemma SplitRecordByTime_spec rec fs rows pool t :
  rec_rep col_rep rec fs time_field rows → sorted_rows ascending rows → rows ≠ [] → Forall (in_s 64) (fst <$> rows) → (∀ nm, fits (col_of nm rows)) →
  (∀ f, f ∈ fs → mentions rows (FName f) = true) → rec_ok (fst pool) → rec_ok (snd pool) →
  ∃ o u pool', SplitRecordByTime rec pool t = Ok (o, u, pool') ∧ part_of (FName <$> fs) (after t rows) o ∧ part_of (FName <$> fs) (upto t rows) u ∧ rec_ok (fst pool') ∧ rec_ok (snd pool').
Proof.
  intros Hrep Hs Hne Hin Hfit Hval Hp1 Hp2. unfold SplitRecordByTime. rewrite (rep_Times _ _ _ _ Hrep Hin). destruct rows as [|r0 rows0]; [done|]. set (rows := r0 :: rows0) in *.
  destruct (last rows) as [rn|] eqn:El; [|by apply last_None in El]. pose proof (sorted_first_last r0 rows0 rn Hs El) as Hb. fold rows in Hb.
  assert (Htl : last (fst <$> rows) = Some (fst rn)) by (by rewrite fmap_last, El). assert (Hth : fst <$> rows = fst r0 :: (fst <$> rows0)) by done. cbv zeta. rewrite Hth. cbv beta iota. rewrite <- Hth, Htl.
  destruct (Z.leb_spec (fst rn) t) as [Hle|Hgt].
  { exists None, (Some rec), pool. split; [done|]. unfold after, upto. rewrite filter_none by (intros r Hr; specialize (Hb r Hr); lia). rewrite filter_id by (intros r Hr; specialize (Hb r Hr); lia). split; [done|]. split; [by apply whole_part|done]. }
  destruct (Z.ltb_spec t (fst r0)) as [Hlt|Hge].
  { exists (Some rec), None, pool. split; [done|]. unfold after, upto. rewrite filter_id by (intros r Hr; specialize (Hb r Hr); lia). rewrite filter_none by (intros r Hr; specialize (Hb r Hr); lia). split; [by apply whole_part|done]. }
  rewrite length_fmap. set (f := λ i : nat, _). assert (Hf : ∀ i r, rows !! i = Some r → f i = (t <? fst r)) by (intros i r Hi; unfold f; by rewrite list_lookup_fmap, Hi).
  destruct (Search_spec f (length rows)) as (Hr & Hlo & Hhi).
  { intros a b Hab Ha. destruct (lookup_lt_is_Some_2 rows a) as [x Hx]; [lia|]. destruct (lookup_lt_is_Some_2 rows b) as [y Hy]; [lia|]. rewrite (Hf _ _ Hx) in Ha. rewrite (Hf _ _ Hy). destruct (decide (a = b)) as [->|]; [congruence|].
    pose proof (Hs a b (fst x) (fst y) ltac:(lia)) as Hxy. unfold ascending in Hxy. rewrite !list_lookup_fmap, Hx, Hy in Hxy. specialize (Hxy eq_refl eq_refl). lia. }
  set (n := Search (length rows) f) in *.
  assert (Hsplit : ∀ k r, rows !! k = Some r → t < fst r ↔ (n ≤ k)%nat).
  { intros k r Hk. pose proof (lookup_lt_Some _ _ _ Hk). destruct (decide (n ≤ k)%nat) as [Hn|Hn]; [specialize (Hhi k ltac:(lia))|specialize (Hlo k ltac:(lia))]; rewrite (Hf _ _ Hk) in *; lia. }
  assert (Hafter : after t rows = slice_rows rows n (length rows)). { apply filter_interval. intros k r Hk. rewrite (Hsplit k r Hk). pose proof (lookup_lt_Some _ _ _ Hk). lia. }
  assert (Hupto : upto t rows = slice_rows rows 0 n). { apply filter_interval. intros k r Hk. specialize (Hsplit k r Hk). lia. }
  assert (Hn : (0 < n < length rows)%nat).
  { pose proof (Hsplit 0%nat r0 eq_refl) as H0. rewrite last_lookup in El. pose proof (Hsplit _ _ El) as H1. pose proof (lookup_lt_Some _ _ _ El). lia. }
  destruct Hrep as [Hsch (cs & tc & Hc & Hall & Ht) _ Hso Hty Hk _]. pose proof (Forall2_length _ _ _ Hall) as Hl. assert (Hls : length (Schema rec) = length (sources fs cs tc rows)) by (unfold sources; rewrite Hsch, !length_app, length_fmap, length_zip_with; cbn; lia).
  rewrite Hls. destruct (reserve_part (fst pool) (length (sources fs cs tc rows)) n (length rows) Hp1) as (o0 & -> & Ho). rs. destruct (reserve_part (snd pool) (length (sources fs cs tc rows)) 0 n Hp2) as (u0 & -> & Hu). rs.
  rewrite (proj2 (Nat.ltb_ge _ _)) by (rewrite <- Hls, Hsch, Hc, !length_app; cbn; lia). rewrite <- (columns_sources rec fs cs tc rows Hsch Hc Hl).
  destruct (split_cols_spec (length rows) n (sources fs cs tc rows) [] [] o0 u0 0 0 (sources_ok fs cs tc rows Hall Ht Hty Hfit) ltac:(lia) Ho Hu) as (o1 & u1 & oi & ui & -> & Ho1 & Hu1). rs. cbn [app] in Ho1, Hu1.
  destruct (part_rec fs cs tc rows n (length rows) o1 oi Hall Hso Hty Hk ltac:(lia) Ho1) as [Hpo Hro]. destruct (part_rec fs cs tc rows 0 n u1 ui Hall Hso Hty Hk ltac:(lia) Hu1) as [Hpu Hru].
  eexists _, _, _. split; [done|]. rewrite Hafter, Hupto. done.
Qed.
End Split.
