(* ===== verification/MemFiles.v ===== *)
(** * engine/mutable: what a flush writes

    FlushChunks hands the rows of every series to the builders of the ordered and of the
    unordered file, in the order of the series ids. *)

From stdpp Require Import gmap sorting.
From Stdlib Require String.
From S2P Require Import Prelude GoString GoSlice GoSort Bitmap ColVal ColRefine ColStrings Column TimeSearch Compress Record RecordSchema RecordTable MergeSpec.
From S2P Require Import RecordSort SortColumns SortRefine SortProps FastSort MemTable MemAppend MemChunk MemRead MemCopy MemStore MemValues MemRuns MemFlush.

Lemma mentions_write log nm : mentions log nm = true → mentions (write_rows log) nm = true.
Proof.
  intros (r & Hr & c & Hc)%mentions_spec. assert (Hs : is_Some (last_written log (fst r) nm)).
  { clear -Hr Hc. induction log as [|q log IH]; [by apply elem_of_nil in Hr|]. cbn. apply elem_of_cons in Hr as [->|Hr].
    - rewrite decide_True, Hc by done. destruct (last_written log _ nm); by eexists.
    - destruct (IH Hr) as [x ->]. by destruct (decide _), (snd q !! nm); eexists. }
  rewrite <- write_rows_cells in Hs. apply mentions_spec. revert Hs. generalize (write_rows log). intros l. induction l as [|q l IH]; [by intros []|]. cbn. case_decide.
  - intros Hs. exists q. split; [left|done].
  - intros (x & Hx & Hs)%IH. exists x. split; [by right|done].
Qed.

Section Files.
Context `{GoRuntime} `{FloatConv} {GS : GoSort} `{!GoSortLaws GS}.

(** The records for the series that have rows in their part. *)
Definition files (part : Z → list row) (sids : list Z) (recs : list (Z * Record_)) : Prop :=
  Forall2 (λ sid o, fst o = sid ∧ ∃ gs, rec_rep col_rep (snd o) gs time_field (part sid) ∧ ∀ nm, nm ∈ FName <$> gs ↔ mentions (part sid) nm = true)
    (filter (λ sid, part sid ≠ []) sids) recs.

(** The record of one series. *)
Definition add_file (sid : Z) (r : option Record_) (l : list (Z * Record_)) : list (Z * Record_) :=
  match r with Some x => if (0 <? RowNums x)%nat then l ++ [(sid, x)] else l | None => l end.

Lemma files_cons part sid sids r l fs rows names :
  rec_rep col_rep r fs time_field rows → part_of names (part sid) l → (∀ x, x ∈ part sid → x ∈ rows) → names = FName <$> fs →
  ∃ os, (∀ acc, add_file sid l acc = acc ++ os) ∧ ∀ os', files part sids os' → files part (sid :: sids) (os ++ os').
Proof.
  intros Hrep Hp Hsub ->. destruct l as [x|].
  - destruct Hp as [Hne (gs & Hx & Hn)]. exists [(sid, x)]. split.
    + intros acc. cbn. rewrite (rep_RowNums _ _ _ _ Hx). by destruct (part sid).
    + intros os' Hos. unfold files. rewrite filter_cons_True by done. constructor; [|exact Hos]. split; [done|]. exists gs. split; [done|]. intros nm. rewrite Hn. split; [by intros [_ ?]|]. intros Hm. split; [|done].
      apply mentions_spec in Hm as (q & Hq & c & Hc). apply (rr_keys _ _ _ _ _ Hrep q nm c); [by apply Hsub|done].
  - exists []. split; [intros acc; cbn; by rewrite app_nil_r|]. intros os' Hos. unfold files. rewrite filter_cons_False; [done|]. intros Hn. by apply Hn.
Qed.

Lemma flush_chunks_spec ty time L sids h ms pool out :
  ms_rep ty ms L → (∀ sid, log_ok (L sid)) → helper_ok h → rec_ok (fst pool) → rec_ok (snd pool) → Forall (λ sid, is_Some (sidMap ms !! sid)) sids →
  ∃ h' ms' os us, flush_loop time sids h ms pool out = Ok (h', ms', mk_flushed (fl_order out ++ os) (fl_unorder out ++ us)) ∧ helper_ok h' ∧ ms_rep ty ms' L ∧
    files (λ sid, after (time sid) (write_rows (L sid))) sids os ∧ files (λ sid, upto (time sid) (write_rows (L sid))) sids us.
Proof.
  revert h ms pool out. induction sids as [|sid sids IH]; intros h ms pool out Hms Hlog Hh Hp1 Hp2 Hsids.
  { exists h, ms, [], []. rewrite !app_nil_r. destruct out. split; [done|]. split; [done|]. split; [done|]. split; constructor. }
  inversion Hsids as [|? ? [w Hw] Hsids']; subst. cbn [flush_loop]. rewrite Hw. pose proof Hms as (gs & _ & _ & Hc). specialize (Hc sid). rewrite Hw in Hc. destruct Hc as [Hc Hn].
  destruct (SortRecord_spec ty w (L sid) h Hc (Hlog sid) Hh) as (h1 & w1 & -> & Hh1 & Hc1 & _ & Hnone & Hasd). rs. destruct (wr_rec w1) as [rec|] eqn:Er; [|by destruct (Hn (proj1 Hnone eq_refl))].
  destruct (chunk_sorted ty w1 (L sid) rec Hc1 Hasd Er) as (fs & Hrep & Hsp & Hfs & Hne & Hmen & Htimes). pose proof (log_ok_write _ (Hlog sid)) as [_ Hfit].
  destruct (SplitRecordByTime_spec rec fs (write_rows (L sid)) pool (time sid) Hrep (write_rows_sorted _) (write_rows_nonempty _ Hne) Htimes Hfit) as (o & u & pool' & -> & Ho & Hu & Hp1' & Hp2'); [|done|done|].
  { intros f Hf. apply mentions_write, Hmen. by apply list_elem_of_fmap_2. }
  rs. destruct (files_cons (λ sid, after (time sid) (write_rows (L sid))) sid sids rec o fs _ _ Hrep Ho) as (os & Eo & Hos); [by intros x [_ ?]%list_elem_of_filter|done|].
  destruct (files_cons (λ sid, upto (time sid) (write_rows (L sid))) sid sids rec u fs _ _ Hrep Hu) as (us & Eu & Hus); [by intros x [_ ?]%list_elem_of_filter|done|].
  assert (Hms1 : ms_rep ty (set_chunk ms sid w1) L).
  { eapply ms_rep_ext; [|apply (ms_rep_chunk ty ms L sid w1 (L sid) Hms Hc1); by rewrite Er]. intros s. cbn beta. by destruct (decide (s = sid)) as [->|]. }
  destruct (IH h1 (set_chunk ms sid w1) pool' (mk_flushed (add_file sid o (fl_order out)) (add_file sid u (fl_unorder out))) Hms1 Hlog Hh1 Hp1' Hp2') as (h2 & ms2 & os2 & us2 & E & Hh2 & Hms2 & Hos2 & Hus2).
  { eapply Forall_impl; [exact Hsids'|]. intros s [x Hx]. cbn. destruct (decide (s = sid)) as [->|]; [rewrite lookup_insert_eq; by eexists|rewrite lookup_insert_ne by done; by eexists]. }
  exists h2, ms2, (os ++ os2), (us ++ us2). cbn [fl_order fl_unorder] in E. rewrite Eo, Eu in E. rewrite !app_assoc. split; [|split; [done|split; [done|split; [by apply Hos|by apply Hus]]]].
  rewrite <- E. unfold add_file in Eo, Eu. f_equal. f_equal; [apply Eo|apply Eu].
Qed.

(** ** The series ids *)

#[export] Instance ltb_weak : StrictWeak Z.ltb.
Proof. split; intros; lia. Qed.

Lemma GetAllSid_spec ms : StronglySorted Z.lt (GetAllSid ms) ∧ ∀ sid, sid ∈ GetAllSid ms ↔ is_Some (sidMap ms !! sid).
Proof.
  unfold GetAllSid. set (l := (map_to_list (sidMap ms)).*1). assert (Hnd : NoDup (sort_by Z.ltb l)) by (rewrite (sort_perm (GoSortLaws := GoSortLaws0)); apply NoDup_fst_map_to_list).
  split.
  - pose proof (sort_ordered (GoSortLaws := GoSortLaws0) Z.ltb l ltb_weak) as Ho. revert Hnd Ho. generalize (sort_by Z.ltb l). clear. intros l Hnd Ho. induction Ho as [|x l Ho IH Hall]; [constructor|]. apply NoDup_cons in Hnd as [Hx Hnd].
    constructor; [by apply IH|]. rewrite Forall_forall in *. intros y Hy. specialize (Hall y Hy). assert (x ≠ y) by (by intros ->). lia.
  - intros sid. rewrite (sort_perm (GoSortLaws := GoSortLaws0)). unfold l. rewrite list_elem_of_fmap. split.
    + intros ([k w] & -> & Hin%elem_of_map_to_list). by eexists.
    + intros [w Hw]. exists (sid, w). split; [done|]. by apply elem_of_map_to_list.
Qed.

(** ** Theorem *)

(** C7: A flush writes every row once. After any sequence of writes of well-formed rows (fields
    sorted by name, of the four types, one type per name, none called time; sizes that columns
    can address) and reads, FlushChunks visits the series of the measurement that have rows in
    increasing order of their ids; the ordered file gets, for each, the table of its rows that
    are later than the flush time of the series, the unordered file the others, each without
    the columns that have no value there. Without ordered files the flush time is the smallest
    int64, and when the times of the measurement are not loaded it is the largest. A series all
    of whose rows failed makes the flush panic ([failed_row_flush_panics]). *)
Theorem FlushChunks_partitions τ ops name hasOrderFile mms :
  Forall (op_ok τ) ops → logs_ok (log_of ops) →
  ∃ h t h' t' out sids, run_ops (NewColumnSortHelper, NewMemTable) ops = Ok (h, t) ∧ FlushChunks h t name hasOrderFile mms = Ok (h', t', out) ∧
    StronglySorted Z.lt sids ∧ (∀ sid, sid ∈ sids ↔ log_of ops name sid ≠ []) ∧
    let time := flush_time hasOrderFile mms in
    files (λ sid, after (time sid) (write_rows (log_of ops name sid))) sids (fl_order out) ∧
    files (λ sid, upto (time sid) (write_rows (log_of ops name sid))) sids (fl_unorder out).
Proof.
  intros Hok Hlog. destruct (run_new τ ops Hok Hlog) as (h & t & E & Hh & [_ Ht]). exists h, t. specialize (Ht name). unfold FlushChunks. destruct (msInfoMap t !! name) as [ms|] eqn:Ems.
  - destruct (GetAllSid_spec ms) as [Hso Hel]. assert (Hzero : rec_ok zero_Record) by (split; [done|constructor]).
    destruct (flush_chunks_spec (τ name) (flush_time hasOrderFile mms) (log_of ops name) (GetAllSid ms) h ms (zero_Record, zero_Record) (mk_flushed [] []) Ht (Hlog name) Hh Hzero Hzero) as (h' & ms' & os & us & E2 & _ & _ & Hos & Hus); [apply Forall_forall; intros sid; apply Hel|].
    rewrite E2. rs. eexists h', _, _, (GetAllSid ms). split; [done|]. split; [done|]. split; [done|]. split; [|done]. intros sid. rewrite Hel. destruct Ht as (gs & _ & _ & Hc). specialize (Hc sid). destruct (sidMap ms !! sid) as [w|].
    + split; [intros _|by eexists]. destruct Hc as [Hc Hn]. unfold chunk_rep in Hc. destruct (wr_rec w); [|done]. destruct Hc as (fs & phys & _ & _ & _ & [_ Hl _ _] & Hne & _). intros Hz. rewrite Hz in Hl. destruct phys; [done|cbn in Hl; lia].
    + split; [by intros []|done].
  - eexists h, t, _, []. split; [done|]. split; [done|]. split; [constructor|]. split; [|split; constructor]. intros sid. rewrite elem_of_nil. split; [done|]. intros Hn. by destruct (Hn (Ht sid)).
Qed.
End Files.

Lemma FlushChunks_partitions_witness :
  ∃ h t h' t' out sids, @run_ops tight_runtime amd64_conv insertion_go_sort (NewColumnSortHelper, NewMemTable) sample_active = Ok (h, t) ∧
    @FlushChunks tight_runtime insertion_go_sort h t "cpu" true (Some (λ _, 4)) = Ok (h', t', out) ∧
    StronglySorted Z.lt sids ∧ (∀ sid, sid ∈ sids ↔ @log_of amd64_conv sample_active "cpu" sid ≠ []) ∧
    let time := flush_time true (Some (λ _, 4)) in
    files (λ sid, after (time sid) (write_rows (@log_of amd64_conv sample_active "cpu" sid))) sids (fl_order out) ∧
    files (λ sid, upto (time sid) (write_rows (@log_of amd64_conv sample_active "cpu" sid))) sids (fl_unorder out).
Proof.
  apply (@FlushChunks_partitions tight_runtime amd64_conv insertion_go_sort _ sample_type sample_active "cpu" true (Some (λ _, 4))).
  - apply sample_active_ok.
  - intros n i. apply (small_logs [] sample_active); by_compute.
Defined.

(** ** Rows that fail *)

Definition f_tag (nm : string) : InfluxField := mk_InfluxField nm one_bits [] Field_Type_Tag.
Definition two_bits : Z := 4611686018427387904.

(** A row that fails at its second field leaves the value of its first field in the column:
    the values of the later rows are read one row too early. *)
Lemma failed_row_shifts :
  ∃ t1 t2 h t3 rec,
    @WriteRows tight_runtime amd64_conv NewMemTable (dict [("cpu"%string, [sample_row 1 1 [f_int "a"; f_tag "b"]])]) [] = Ok (t1, [], Some UnsupportDataType) ∧
    @WriteRows tight_runtime amd64_conv t1 (dict [("cpu"%string, [sample_row 2 1 [mk_InfluxField "a" two_bits [] Field_Type_Int; f_str [120]]])]) [] = Ok (t2, [("cpu"%string, 1, 1)], None) ∧
    @mt_values tight_runtime insertion_go_sort NewColumnSortHelper t2 "cpu" 1 (0, 9) [mk_Field Field_Type_Int "a"; time_field] true = Ok (h, t3, Some rec) ∧
    (λ c, (@values int64 c)) <$> ColVals rec = [[1]; [2]].
Proof. eexists _, _, _, _, _. split; [vm_compute; reflexivity|]. split; [vm_compute; reflexivity|]. split; [vm_compute; reflexivity|]. vm_compute; reflexivity. Qed.

(** When it is the only row of its series, the flush indexes an empty time column. *)
Lemma failed_row_flush_panics :
  ∃ t1, @WriteRows tight_runtime amd64_conv NewMemTable (dict [("cpu"%string, [sample_row 1 1 [f_int "a"; f_tag "b"]])]) [] = Ok (t1, [], Some UnsupportDataType) ∧
    @FlushChunks tight_runtime insertion_go_sort NewColumnSortHelper t1 "cpu" false None = Panic.
Proof. eexists. split; [vm_compute; reflexivity|]. vm_compute; reflexivity. Qed.
