(* ===== verification/FileMeta.v ===== *)
(** * engine/immutable: the metadata of a file

    tssp_file_meta.go, trailer.go and table_stat.go.  A file holds the chunks of its series, a
    [ChunkMeta] per chunk (the time range of every segment, and per column where its segments
    are), a [MetaIndex] per block of chunk metas, and a [Trailer].  The readers decode into
    objects they use again, so a slice field carries the elements beyond its length
    ([vslice]); what was there before must not show.

    The code that decodes returns the object and the bytes that follow. *)

From Stdlib Require String Ascii.
From S2P Require Import Prelude GoSlice NumberEnc Bitmap ColVal TimeSearch Record RecordSort.

(** ** Slices of structures *)

Record vslice (A : Type) := mk_vs { vis : list A; spare : list A }.
Arguments mk_vs {A} _ _.
Arguments vis {A} _.
Arguments spare {A} _.

Definition vcap {A} (s : vslice A) : nat := (length (vis s) + length (spare s))%nat.
Definition vback {A} (s : vslice A) : list A := vis s ++ spare s.
Definition vnil {A} : vslice A := mk_vs [] [].

(** [s[:n]]. *)
Definition vreslice {A} (s : vslice A) (n : nat) : res (vslice A) :=
  if (n <=? vcap s)%nat then Ok (mk_vs (take n (vback s)) (drop n (vback s))) else Panic.

(** The bytes of a string and back. *)
Definition string_bytes (s : string) : list Z :=
  (λ c, Z.of_N (Ascii.N_of_ascii c)) <$> String.list_ascii_of_string s.
Definition bytes_string (l : list Z) : string :=
  String.string_of_list_ascii ((λ b, Ascii.ascii_of_N (Z.to_N b)) <$> l).

Section Grow.
Context `{GoRuntime}.

Definition vappend {A} (zero : A) (s : vslice A) (xs : list A) : vslice A :=
  if (length xs <=? length (spare s))%nat then mk_vs (vis s ++ xs) (drop (length xs) (spare s))
  else mk_vs (vis s ++ xs) (replicate (growslice (vcap s) (length (vis s) + length xs)) zero).

(** [if cap(s) < n { s = append(s[:cap(s)], make([]T, n-cap(s))...) }; s = s[:n]] *)
Definition vgrow {A} (zero : A) (s : vslice A) (n : nat) : res (vslice A) :=
  let! s :=
    if (vcap s <? n)%nat then
      let! full := vreslice s (vcap s) in
      Ok (vappend zero full (replicate (n - vcap s) zero))
    else Ok s in
  vreslice s n.

(** [if len(s) < cap(s) { s = s[:len(s)+1] } else { s = append(s, T{}) }] *)
Definition vgrow_one {A} (zero : A) (s : vslice A) : res (vslice A) :=
  if (length (vis s) <? vcap s)%nat then vreslice s (length (vis s) + 1)
  else Ok (vappend zero s [zero]).
End Grow.

(** ** Segments *)

Record Segment := mk_Segment { seg_offset : Z; seg_size : Z }.
Definition Segment0 : Segment := mk_Segment 0 0.
Definition Segment_bytes (s : Segment) : nat := (8 + 4)%nat.
Definition SegmentLen : nat := Segment_bytes Segment0.
Definition Segment_reset (s : Segment) : Segment := Segment0.
Definition Segment_setOffset (s : Segment) (off : Z) : Segment := mk_Segment off (seg_size s).
Definition Segment_setSize (s : Segment) (size : Z) : Segment := mk_Segment (seg_offset s) size.
Definition Segment_offsetSize (s : Segment) : Z * Z := (seg_offset s, seg_size s).

Definition Segment_unmarshal (src : list Z) : res (Segment * list Z) :=
  if (length src <? 8 + 4)%nat then Err "too small data for segment"
  else
    let! offset := UnmarshalInt64 src in
    let! src := from src 8 in
    let! size := UnmarshalUint32 src in
    let! src := from src 4 in
    Ok (mk_Segment offset size, src).

Record SegmentRange := mk_SR { sr_min : Z; sr_max : Z }.
Definition SegmentRange0 : SegmentRange := mk_SR 0 0.

(** [len(sr)] of an array of two int64. *)
Definition SegmentRange_bytes (sr : SegmentRange) : nat := 2%nat.
Definition MinMaxTimeLen : nat := 16%nat.
Definition SegmentRange_setMinTime (sr : SegmentRange) (min : Z) : SegmentRange := mk_SR min (sr_max sr).
Definition SegmentRange_setMaxTime (sr : SegmentRange) (max : Z) : SegmentRange := mk_SR (sr_min sr) max.
Definition SegmentRange_contains (sr : SegmentRange) (tm : Z) : bool := (sr_min sr <=? tm) && (tm <=? sr_max sr).

Definition SegmentRange_unmarshal (src : list Z) : res (SegmentRange * list Z) :=
  if (length src <? SegmentRange_bytes SegmentRange0)%nat then Err "too smaller data for segment ragne"
  else
    let! min := UnmarshalInt64 src in
    let! src := from src 8 in
    let! max := UnmarshalInt64 src in
    let! src := from src 8 in
    Ok (mk_SR min max, src).

Section Marshal.
Context `{GoRuntime}.

Definition Segment_marshal (s : Segment) (dst : slice) : slice :=
  let dst := MarshalInt64Append dst (seg_offset s) in
  MarshalUint32Append dst (seg_size s).

Definition SegmentRange_marshal (sr : SegmentRange) (dst : slice) : slice :=
  let dst := MarshalInt64Append dst (sr_min sr) in
  MarshalInt64Append dst (sr_max sr).
End Marshal.

(** ** Columns *)

(** The numbers of the field types. *)
Definition type_code (t : FieldType) : Z :=
  match t with
  | Field_Type_Unknown => 0 | Field_Type_Int => 1 | Field_Type_UInt => 2 | Field_Type_Float => 3
  | Field_Type_String => 4 | Field_Type_Boolean => 5 | Field_Type_Tag => 6
  end.

Record ColumnMeta := mk_CM { cm_name : string; cm_ty : Z; cm_preAgg : slice; cm_entries : vslice Segment }.
Definition ColumnMeta0 : ColumnMeta := mk_CM "" 0 nil_slice vnil.

(** [zeroPreAgg = make([]byte, 48)] *)
Definition zeroPreAgg : list Z := zeros 48.

Definition ColumnMeta_GetSegment (m : ColumnMeta) (i : nat) : res (Z * Z) :=
  match vis (cm_entries m) !! i with
  | Some s => Ok (seg_offset s, seg_size s)
  | None => Panic
  end.
Definition ColumnMeta_Equal (m : ColumnMeta) (name : string) (ty : Z) : bool :=
  bool_decide (cm_name m = name) && (cm_ty m =? ty).
Definition ColumnMeta_IsTime (m : ColumnMeta) : bool := bool_decide (cm_name m = TimeField).

Definition ColumnMeta_Clone (m : ColumnMeta) : ColumnMeta :=
  mk_CM (cm_name m) (cm_ty m) nil_slice (mk_vs (vis (cm_entries m)) []).

Definition ColumnMeta_reset (m : ColumnMeta) : ColumnMeta :=
  mk_CM "" 0 (mk_slice [] (sback (cm_preAgg m)))
    (mk_vs [] ((Segment_reset <$> vis (cm_entries m)) ++ spare (cm_entries m))).

(** The sum of the lengths of the parts, for [segs] segments. *)
Definition ColumnMeta_bytes (m : ColumnMeta) (segs : nat) : nat :=
  (2 + String.length (cm_name m) + 1 + 2 + 2 + slen (cm_preAgg m) + SegmentLen * segs)%nat.
Definition ColumnMetaLenMin : nat := ColumnMeta_bytes ColumnMeta0 1.

(** Reads the name; at least five bytes must follow it. *)
Definition ColumnMeta_unmarshalName (src : list Z) : res (string * list Z) :=
  if (length src <? 2)%nat then Err "too smaller data for column name length"
  else
    let! n := UnmarshalUint16 src in
    let l := Z.to_nat n in
    let! src := from src 2 in
    if (length src <? l + 5)%nat then Err "too smaller data for column name"
    else
      let! name := between src 0 l in
      let! src := from src l in
      Ok (bytes_string name, src).

(** The loop of unmarshalSpecific: the position of [column], or where its search stopped.
    Every round drops at least two bytes, so the length of the input is fuel enough. *)
Fixpoint specific_loop (fuel : nat) (src : list Z) (segs : nat) (column : string) :
    res (list Z + (string * list Z)) :=
  match fuel with
  | O => Diverge
  | S fuel =>
      let orig := src in
      let! (name, src) := ColumnMeta_unmarshalName src in
      if bool_decide (name = column) then Ok (inr (name, src))
      else if (String.ltb column name && negb (bool_decide (column = TimeField))) || bool_decide (name = TimeField)
      then Ok (inl orig)
      else
        let! s1 := from src 1 in
        let! preAggSize := UnmarshalUint16 s1 in
        let ofs := (1 + (2 + Z.to_nat preAggSize) + SegmentLen * segs)%nat in
        if (length src <? ofs)%nat then Err "too smaller data for column"
        else
          let! src := from src ofs in
          specific_loop fuel src segs column
  end.

(** The loop over the entries: one segment after the other. *)
Fixpoint entries_loop (entries : list Segment) (src : list Z) : res (list Segment * list Z) :=
  match entries with
  | [] => Ok ([], src)
  | _ :: entries =>
      let! segData := between src 0 SegmentLen in
      let! (e, _) := Segment_unmarshal segData in
      let! src := from src SegmentLen in
      let! (es, src) := entries_loop entries src in
      Ok (e :: es, src)
  end.

Section Columns.
Context `{GoRuntime}.

(** [config.GetCommon().PreAggEnabled] *)
Variable PreAggEnabled : bool.

Definition ColumnMeta_marshal (m : ColumnMeta) (dst : slice) : slice :=
  let dst := MarshalUint16Append dst (u16 (Z.of_nat (String.length (cm_name m)))) in
  let dst := append dst (string_bytes (cm_name m)) in
  let dst := append dst [cm_ty m] in
  let dst :=
    if PreAggEnabled || bool_decide (cm_name m = TimeField) then
      let dst := MarshalUint16Append dst (u16 (Z.of_nat (slen (cm_preAgg m)))) in
      append dst (sdata (cm_preAgg m))
    else MarshalUint16Append dst 0 in
  fold_left (λ dst seg, Segment_marshal seg dst) (vis (cm_entries m)) dst.

Definition ColumnMeta_unmarshalEntries (m : ColumnMeta) (src : list Z) (segs : nat) : res (ColumnMeta * list Z) :=
  let segSize := (segs * SegmentLen)%nat in
  if (length src <? segSize)%nat then Err "too smaller data for segment meta"
  else
    let! entries := vgrow Segment0 (cm_entries m) segs in
    let! (es, src) := entries_loop (vis entries) src in
    Ok (mk_CM (cm_name m) (cm_ty m) (cm_preAgg m) (mk_vs es (spare entries)), src).

Definition ColumnMeta_unmarshalPreagg (m : ColumnMeta) (src : list Z) : res (ColumnMeta * list Z) :=
  let! n := UnmarshalUint16 src in
  let n := Z.to_nat n in
  let! src := from src 2 in
  let! empty := reslice_to (cm_preAgg m) 0 in
  if (n =? 0)%nat then
    Ok (mk_CM (cm_name m) (cm_ty m) (append empty zeroPreAgg) (cm_entries m), src)
  else if (length src <? n)%nat then Err "too smaller data for preagg"
  else
    let! data := between src 0 n in
    let! src := from src n in
    Ok (mk_CM (cm_name m) (cm_ty m) (append empty data) (cm_entries m), src).

(** What follows the name, of unmarshal and unmarshalSpecific. *)
Definition ColumnMeta_unmarshalBody (m : ColumnMeta) (name : string) (src : list Z) (segs : nat) :
    res (ColumnMeta * list Z) :=
  let! ty := index src 0 in
  let m := mk_CM name ty (cm_preAgg m) (cm_entries m) in
  let! src := from src 1 in
  let! (m, src) := ColumnMeta_unmarshalPreagg m src in
  ColumnMeta_unmarshalEntries m src segs.

Definition ColumnMeta_unmarshal (m : ColumnMeta) (src : list Z) (segs : nat) : res (ColumnMeta * list Z) :=
  let! (name, src) := ColumnMeta_unmarshalName src in
  ColumnMeta_unmarshalBody m name src segs.

(** Decodes the column of the name; false when the chunk does not have it. *)
Definition ColumnMeta_unmarshalSpecific (m : ColumnMeta) (src : list Z) (segs : nat) (column : string) :
    res (ColumnMeta * list Z * bool) :=
  let! r := specific_loop (S (length src)) src segs column in
  match r with
  | inl orig => Ok (m, orig, false)
  | inr (name, src) =>
      let! (m, src) := ColumnMeta_unmarshalBody m name src segs in
      Ok (m, src, true)
  end.

Definition ColumnMeta_growEntry (m : ColumnMeta) : res ColumnMeta :=
  let! entries := vgrow_one Segment0 (cm_entries m) in
  Ok (mk_CM (cm_name m) (cm_ty m) (cm_preAgg m) entries).
End Columns.

(** ** Chunks *)

Record ChunkMeta := mk_ChunkMeta {
  sid : Z; ck_offset : Z; ck_size : Z; columnCount : Z; segCount : Z;
  timeRange : vslice SegmentRange; colMeta : vslice ColumnMeta }.
Definition ChunkMeta0 : ChunkMeta := mk_ChunkMeta 0 0 0 0 0 vnil vnil.

Definition set_colMeta (m : ChunkMeta) (cols : vslice ColumnMeta) : ChunkMeta :=
  mk_ChunkMeta (sid m) (ck_offset m) (ck_size m) (columnCount m) (segCount m) (timeRange m) cols.
Definition set_timeRange (m : ChunkMeta) (trs : vslice SegmentRange) : ChunkMeta :=
  mk_ChunkMeta (sid m) (ck_offset m) (ck_size m) (columnCount m) (segCount m) trs (colMeta m).

Definition ChunkMeta_TimeMeta (m : ChunkMeta) : res ColumnMeta :=
  match last (vis (colMeta m)) with Some c => Ok c | None => Panic end.
Definition ChunkMeta_minTime (m : ChunkMeta) : res Z :=
  match head (vis (timeRange m)) with Some sr => Ok (sr_min sr) | None => Panic end.
Definition ChunkMeta_maxTime (m : ChunkMeta) : res Z :=
  match last (vis (timeRange m)) with Some sr => Ok (sr_max sr) | None => Panic end.
Definition ChunkMeta_MinMaxTime (m : ChunkMeta) : res (Z * Z) :=
  let! min := ChunkMeta_minTime m in
  let! max := ChunkMeta_maxTime m in
  Ok (min, max).
Definition ChunkMeta_allRowsInRange (m : ChunkMeta) (tmin tmax : Z) : res bool :=
  let! (min, max) := ChunkMeta_MinMaxTime m in
  Ok ((tmin <=? min) && (max <=? tmax)).

(** Counts the empty columns first and leaves the slice alone when there is none. *)
Definition ChunkMeta_DelEmptyColMeta (m : ChunkMeta) : ChunkMeta :=
  let cols := vis (colMeta m) in
  if (length cols =? 0)%nat then m
  else
    let empty (c : ColumnMeta) := (length (vis (cm_entries c)) =? 0)%nat in
    let emptyCount := length (filter (λ c, empty c = true) cols) in
    if (emptyCount =? 0)%nat then m
    else set_colMeta m (mk_vs (filter (λ c, empty c = false) cols) []).

Definition ChunkMeta_Clone (m : ChunkMeta) : ChunkMeta :=
  mk_ChunkMeta (sid m) (ck_offset m) (ck_size m) (columnCount m) (segCount m) vnil
    (mk_vs (ColumnMeta_Clone <$> vis (colMeta m)) []).

(** The time ranges stay. *)
Definition ChunkMeta_reset (m : ChunkMeta) : ChunkMeta :=
  mk_ChunkMeta 0 0 0 0 0 (timeRange m)
    (mk_vs [] ((ColumnMeta_reset <$> vis (colMeta m)) ++ spare (colMeta m))).

Definition ChunkMeta_minBytes : nat := (8 * 2 + 4 * 3 + MinMaxTimeLen + ColumnMetaLenMin * 2)%nat.
Definition ChunkMetaMinLen : nat := ChunkMeta_minBytes.

Definition ChunkMeta_Size (m : ChunkMeta) : nat :=
  fold_left (λ n c, (n + ColumnMeta_bytes c (Z.to_nat (segCount m)))%nat) (vis (colMeta m)) (8 * 3 + 2)%nat.

(** Panics on a chunk meta that must not be written. *)
Definition ChunkMeta_validation (m : ChunkMeta) : res unit :=
  if sid m =? 0 then Panic
  else if negb (segCount m =? Z.of_nat (length (vis (timeRange m)))) then Panic
  else if negb (columnCount m =? Z.of_nat (length (vis (colMeta m)))) then Panic
  else if forallb (λ c, Z.of_nat (length (vis (cm_entries c))) =? segCount m) (vis (colMeta m)) then Ok tt
  else Panic.

(** [for i := from; i < len(m.colMeta); i++] until the column with the name and type. *)
Definition ChunkMeta_columnIndexFastPath (m : ChunkMeta) (ref : Field) (itrFieldIndex : nat) : Z :=
  match list_find (λ c, ColumnMeta_Equal c (FName ref) (type_code (FType ref)) = true) (drop itrFieldIndex (vis (colMeta m))) with
  | Some (i, _) => Z.of_nat (itrFieldIndex + i)
  | None => -1
  end.
Definition ChunkMeta_columnIndex (m : ChunkMeta) (ref : Field) : Z :=
  match list_find (λ c, ColumnMeta_Equal c (FName ref) (type_code (FType ref)) = true) (vis (colMeta m)) with
  | Some (i, _) => Z.of_nat i
  | None => -1
  end.

(** sort.Interface of the columns. *)
Definition ChunkMeta_Len (m : ChunkMeta) : nat := length (vis (colMeta m)).
Definition ChunkMeta_Less (m : ChunkMeta) (i j : nat) : res bool :=
  match vis (colMeta m) !! i, vis (colMeta m) !! j with
  | Some a, Some b => Ok (String.ltb (cm_name a) (cm_name b))
  | _, _ => Panic
  end.
Definition ChunkMeta_Swap (m : ChunkMeta) (i j : nat) : res ChunkMeta :=
  match vis (colMeta m) !! i, vis (colMeta m) !! j with
  | Some a, Some b => Ok (set_colMeta m (mk_vs (<[j := a]> (<[i := b]> (vis (colMeta m)))) (spare (colMeta m))))
  | _, _ => Panic
  end.

(** [for i := range m.timeRange { src, err = m.timeRange[i].unmarshal(src) }] *)
Fixpoint ranges_loop (trs : list SegmentRange) (src : list Z) : res (list SegmentRange * list Z) :=
  match trs with
  | [] => Ok ([], src)
  | _ :: trs =>
      let! (tr, src) := SegmentRange_unmarshal src in
      let! (trs, src) := ranges_loop trs src in
      Ok (tr :: trs, src)
  end.

Section Chunks.
Context `{GoRuntime}.

Variable PreAggEnabled : bool.

Fixpoint resize_cols (cols : list ColumnMeta) (segs : nat) : res (list ColumnMeta) :=
  match cols with
  | [] => Ok []
  | cm :: cols =>
      let! entries := vgrow Segment0 (cm_entries cm) segs in
      let! preAgg := reslice_to (cm_preAgg cm) 0 in
      let! cols := resize_cols cols segs in
      Ok (mk_CM (cm_name cm) (cm_ty cm) preAgg entries :: cols)
  end.

Definition ChunkMeta_resize (m : ChunkMeta) (columns segs : nat) : res ChunkMeta :=
  let! cols := vgrow ColumnMeta0 (colMeta m) columns in
  let! cs := resize_cols (vis cols) segs in
  let! trs := vgrow SegmentRange0 (timeRange m) segs in
  Ok (set_timeRange (set_colMeta m (mk_vs cs (spare cols))) trs).

(** A new column at the end; the element may be one used before. *)
Definition ChunkMeta_AllocColMeta (m : ChunkMeta) (ref : Field) : res ChunkMeta :=
  let size := length (vis (colMeta m)) in
  let cols := if (vcap (colMeta m) =? size)%nat then vappend ColumnMeta0 (colMeta m) [ColumnMeta0] else colMeta m in
  let! cols := vreslice cols (size + 1) in
  match vis cols !! size with
  | Some c =>
      let c := ColumnMeta_reset c in
      let c := mk_CM (FName ref) (u8 (type_code (FType ref))) (cm_preAgg c) (cm_entries c) in
      Ok (set_colMeta m (mk_vs (<[size := c]> (vis cols)) (spare cols)))
  | None => Panic
  end.

Definition ChunkMeta_growTimeRangeEntry (m : ChunkMeta) : res ChunkMeta :=
  let! trs := vgrow_one SegmentRange0 (timeRange m) in
  Ok (set_timeRange m trs).

Definition ChunkMeta_marshal (m : ChunkMeta) (dst : slice) : slice :=
  let dst := MarshalUint64Append dst (sid m) in
  let dst := MarshalInt64Append dst (ck_offset m) in
  let dst := MarshalUint32Append dst (ck_size m) in
  let dst := MarshalUint32Append dst (columnCount m) in
  let dst := MarshalUint32Append dst (segCount m) in
  let dst := fold_left (λ dst tr, SegmentRange_marshal tr dst) (vis (timeRange m)) dst in
  fold_left (λ dst c, ColumnMeta_marshal PreAggEnabled c dst) (vis (colMeta m)) dst.

Definition ChunkMeta_unmarshalBaseAttr (m : ChunkMeta) (src : list Z) (columns : nat) : res (ChunkMeta * list Z) :=
  if (length src <? ChunkMetaMinLen)%nat then Err "to smaller data for unmarshal"
  else
    let! id := UnmarshalUint64 src in
    let! src := from src 8 in
    let! offset := UnmarshalInt64 src in
    let! src := from src 8 in
    let! size := UnmarshalUint32 src in
    let! src := from src 4 in
    let! colCount := UnmarshalUint32 src in
    let! src := from src 4 in
    let! segs := UnmarshalUint32 src in
    let! src := from src 4 in
    let m := mk_ChunkMeta id offset size colCount segs (timeRange m) (colMeta m) in
    let columns := if (columns =? 0)%nat then Z.to_nat colCount else columns in
    let! m := ChunkMeta_resize m columns (Z.to_nat segs) in
    let! (trs, src) := ranges_loop (vis (timeRange m)) src in
    Ok (set_timeRange m (mk_vs trs (spare (timeRange m))), src).

(** [for i := range m.colMeta { src, err = m.colMeta[i].unmarshal(src, segCount) }] *)
Fixpoint cols_loop (cols : list ColumnMeta) (src : list Z) (segs : nat) : res (list ColumnMeta * list Z) :=
  match cols with
  | [] => Ok ([], src)
  | c :: cols =>
      let! (c, src) := ColumnMeta_unmarshal c src segs in
      let! (cols, src) := cols_loop cols src segs in
      Ok (c :: cols, src)
  end.

Definition ChunkMeta_unmarshal (m : ChunkMeta) (src : list Z) : res (ChunkMeta * list Z) :=
  let! (m, src) := ChunkMeta_unmarshalBaseAttr m src 0 in
  let! (cols, src) := cols_loop (vis (colMeta m)) src (Z.to_nat (segCount m)) in
  Ok (set_colMeta m (mk_vs cols (spare (colMeta m))), src).

(** The loop over the wanted columns; [prev] is the one before, [j] counts those found. *)
Fixpoint columns_loop (columns : list string) (prev : option string) (cols : list ColumnMeta) (j : nat)
    (src : list Z) (segs : nat) : res (list ColumnMeta * nat * list Z) :=
  match columns with
  | [] => Ok (cols, j, src)
  | c :: columns =>
      if bool_decide (prev = Some c) then columns_loop columns (Some c) cols j src segs
      else
        match cols !! j with
        | None => Panic
        | Some cm =>
            let! (cm, src, ok) := ColumnMeta_unmarshalSpecific cm src segs c in
            columns_loop columns (Some c) (<[j := cm]> cols) (if ok then S j else j) src segs
        end
  end.

Definition ChunkMeta_UnmarshalWithColumns (m : ChunkMeta) (src : list Z) (columns : list string) :
    res (ChunkMeta * list Z) :=
  match columns with
  | [] => ChunkMeta_unmarshal m src
  | c0 :: _ =>
      if bool_decide (c0 = TimeField) then ChunkMeta_unmarshal m src
      else
        let! (m, src) := ChunkMeta_unmarshalBaseAttr m src (length columns) in
        let! (cols, j, src) := columns_loop columns None (vis (colMeta m)) 0 src (Z.to_nat (segCount m)) in
        let! cols := vreslice (mk_vs cols (spare (colMeta m))) j in
        Ok (mk_ChunkMeta (sid m) (ck_offset m) (ck_size m) (u32 (Z.of_nat j)) (segCount m) (timeRange m) cols, src)
  end.
End Chunks.

(** ** Blocks of chunk metas *)

Record MetaIndex := mk_MI { mi_id : Z; mi_minTime : Z; mi_maxTime : Z; mi_offset : Z; mi_count : Z; mi_size : Z }.
Definition MetaIndexLen : nat := 40%nat.
Definition DetachedMetaIndexLen : nat := (40 - 4)%nat.
Definition MaxInt64 : Z := 2 ^ 63 - 1.
Definition MinInt64 : Z := - 2 ^ 63.
Definition MetaIndex_reset : MetaIndex := mk_MI 0 MaxInt64 MinInt64 0 0 0.
Definition MetaIndex_IsExist (m : MetaIndex) (tmin tmax : Z) : bool :=
  negb ((tmax <? mi_minTime m) || (mi_maxTime m <? tmin)).

Definition MetaIndex_unmarshal (src : list Z) : res (MetaIndex * list Z) :=
  if (length src <? MetaIndexLen)%nat then Err "too small data for MetaIndex"
  else
    let! id := UnmarshalUint64 src in
    let! src := from src 8 in
    let! minTime := UnmarshalInt64 src in
    let! src := from src 8 in
    let! maxTime := UnmarshalInt64 src in
    let! src := from src 8 in
    let! offset := UnmarshalInt64 src in
    let! src := from src 8 in
    let! count := UnmarshalUint32 src in
    let! src := from src 4 in
    let! size := UnmarshalUint32 src in
    let! src := from src 4 in
    Ok (mk_MI id minTime maxTime offset count size, src).

(** The count of the object stays. *)
Definition MetaIndex_unmarshalDetached (m : MetaIndex) (src : list Z) : res (MetaIndex * list Z) :=
  if (length src <? DetachedMetaIndexLen)%nat then Err "too small data for MetaIndex"
  else
    let! id := UnmarshalUint64 src in
    let! src := from src 8 in
    let! minTime := UnmarshalInt64 src in
    let! src := from src 8 in
    let! maxTime := UnmarshalInt64 src in
    let! src := from src 8 in
    let! offset := UnmarshalInt64 src in
    let! src := from src 8 in
    let! size := UnmarshalUint32 src in
    let! src := from src 4 in
    Ok (mk_MI id minTime maxTime offset (mi_count m) size, src).

Section MetaIndexes.
Context `{GoRuntime}.

Definition MetaIndex_marshal (m : MetaIndex) (dst : slice) : slice :=
  let dst := MarshalUint64Append dst (mi_id m) in
  let dst := MarshalInt64Append dst (mi_minTime m) in
  let dst := MarshalInt64Append dst (mi_maxTime m) in
  let dst := MarshalInt64Append dst (mi_offset m) in
  let dst := MarshalUint32Append dst (mi_count m) in
  MarshalUint32Append dst (mi_size m).

Definition MetaIndex_marshalDetached (m : MetaIndex) (dst : slice) : slice :=
  let dst := MarshalUint64Append dst (mi_id m) in
  let dst := MarshalInt64Append dst (mi_minTime m) in
  let dst := MarshalInt64Append dst (mi_maxTime m) in
  let dst := MarshalInt64Append dst (mi_offset m) in
  MarshalUint32Append dst (mi_size m).
End MetaIndexes.

(** ** The trailer *)

Record TableStat := mk_TS {
  idCount : Z; minId : Z; maxId : Z; ts_minTime : Z; ts_maxTime : Z; metaIndexItemNum : Z;
  bloomM : Z; bloomK : Z; ts_data : slice; ts_name : slice }.

Record Trailer := mk_Trailer {
  dataOffset : Z; dataSize : Z; indexSize : Z; metaIndexSize : Z; bloomSize : Z; idTimeSize : Z;
  stat : TableStat }.

Definition IndexOfTimeStoreFlag : nat := 0%nat.
Definition IndexOfChunkMetaCompressFlag : nat := 1%nat.
Definition TimeStoreFlag : Z := 1.
Definition ChunkMetaCompressNone : Z := 0.

(** Six words of the trailer, eight of the statistics, two lengths and a name of one byte. *)
Definition trailerSize : nat := (160 - 24 * 2 + (2 + 0) + (2 + 1))%nat.

Definition set_ts_data (t : Trailer) (d : slice) : Trailer :=
  let s := stat t in
  mk_Trailer (dataOffset t) (dataSize t) (indexSize t) (metaIndexSize t) (bloomSize t) (idTimeSize t)
    (mk_TS (idCount s) (minId s) (maxId s) (ts_minTime s) (ts_maxTime s) (metaIndexItemNum s) (bloomM s) (bloomK s) d (ts_name s)).

(** The bytes of the reserved data and of the name keep their array. *)
Definition Trailer_reset (t : Trailer) : Trailer :=
  mk_Trailer 0 0 0 0 0 0
    (mk_TS 0 0 0 0 0 0 0 0 (mk_slice [] (sback (ts_data (stat t)))) (mk_slice [] (sback (ts_name (stat t))))).

Definition Trailer_EqualData (t : Trailer) (idx : nat) (v : Z) : res bool :=
  if (slen (ts_data (stat t)) <? idx + 1)%nat then Ok false
  else let! b := index (sdata (ts_data (stat t))) idx in Ok (b =? v).
Definition Trailer_GetData (t : Trailer) (idx : nat) (def : Z) : res Z :=
  if (slen (ts_data (stat t)) <? idx + 1)%nat then Ok def else index (sdata (ts_data (stat t))) idx.

Definition Trailer_ContainsId (t : Trailer) (id : Z) : bool := (minId (stat t) <=? id) && (id <=? maxId (stat t)).

(** lib/util/util.go TimeRange.Overlaps *)
Definition TimeRange_Overlaps (tmin tmax min max : Z) : bool := (tmin <=? max) && (min <=? tmax).
Definition Trailer_ContainsTime (t : Trailer) (tmin tmax : Z) : bool :=
  TimeRange_Overlaps tmin tmax (ts_minTime (stat t)) (ts_maxTime (stat t)).

Definition Trailer_metaOffsetSize (t : Trailer) : Z * Z := (i64 (dataOffset t + dataSize t), indexSize t).
Definition Trailer_metaIndexOffsetSize (t : Trailer) : Z * Z :=
  (i64 (dataOffset t + dataSize t + indexSize t), metaIndexSize t).
Definition Trailer_idTimeOffsetSize (t : Trailer) : Z * Z :=
  (i64 (dataOffset t + dataSize t + indexSize t + metaIndexSize t + bloomSize t), idTimeSize t).

(** [if len(b) < n { b = make([]byte, n) }; b = b[:n]; copy(b, xs)] for [n] bytes [xs]. *)
Definition assign_bytes (b : slice) (xs : list Z) : res slice :=
  let n := length xs in
  let b := if (slen b <? n)%nat then mk_slice (zeros n) [] else b in
  let! b := reslice_to b n in
  Ok (mk_slice (overwrite (sdata b) 0 xs) (sspare b)).

(** The same, with the capacity deciding. *)
Definition copy_bytes (b : slice) (xs : list Z) : res slice :=
  let n := length xs in
  let! b := if (scap b <? n)%nat then Ok (mk_slice (zeros n) []) else reslice_to b n in
  Ok (mk_slice (overwrite (sdata b) 0 xs) (sspare b)).

Definition Trailer_copyTo (t tr : Trailer) : res Trailer :=
  let s := stat t in
  let! d := copy_bytes (ts_data (stat tr)) (sdata (ts_data s)) in
  let! nm := copy_bytes (ts_name (stat tr)) (sdata (ts_name s)) in
  Ok (mk_Trailer (dataOffset t) (dataSize t) (indexSize t) (metaIndexSize t) (bloomSize t) (idTimeSize t)
        (mk_TS (idCount s) (minId s) (maxId s) (ts_minTime s) (ts_maxTime s) (metaIndexItemNum s) (bloomM s) (bloomK s) d nm)).

(** table_stat.go unmarshalStat *)
Definition TableStat_unmarshalStat (st : TableStat) (src : list Z) : res (TableStat * list Z) :=
  let! ids := UnmarshalInt64 src in
  let! src := from src 8 in
  let! mnId := UnmarshalUint64 src in
  let! src := from src 8 in
  let! mxId := UnmarshalUint64 src in
  let! src := from src 8 in
  let! mnT := UnmarshalInt64 src in
  let! src := from src 8 in
  let! mxT := UnmarshalInt64 src in
  let! src := from src 8 in
  let! items := UnmarshalInt64 src in
  let! src := from src 8 in
  let! bm := UnmarshalUint64 src in
  let! src := from src 8 in
  let! bk := UnmarshalUint64 src in
  let! src := from src 8 in
  if (length src <? 2)%nat then Err "tool small data for unmarshal file Trailer data, expect(2)"
  else
    let! n := UnmarshalUint16 src in
    let dLen := Z.to_nat n in
    let! src := from src 2 in
    if (length src <? dLen + 2)%nat then Err "tool small data for unmarshal file Trailer data"
    else
      let! xs := between src 0 dLen in
      let! d := assign_bytes (ts_data st) xs in
      let! src := from src dLen in
      let! n := UnmarshalUint16 src in
      let nameLen := Z.to_nat n in
      let! src := from src 2 in
      if (length src <? nameLen)%nat then Err "tool small data for unmarshal file Trailer name"
      else
        let! xs := between src 0 nameLen in
        let! nm := assign_bytes (ts_name st) xs in
        let! src := from src nameLen in
        Ok (mk_TS ids mnId mxId mnT mxT items bm bk d nm, src).

Definition Trailer_unmarshal (t : Trailer) (src : list Z) : res (Trailer * list Z) :=
  if (length src <? trailerSize)%nat then Err "tool small data for unmarshal file Trailer"
  else
    let! dOff := UnmarshalInt64 src in
    let! src := from src 8 in
    let! dSize := UnmarshalInt64 src in
    let! src := from src 8 in
    let! iSize := UnmarshalInt64 src in
    let! src := from src 8 in
    let! mSize := UnmarshalInt64 src in
    let! src := from src 8 in
    let! bSize := UnmarshalInt64 src in
    let! src := from src 8 in
    let! tSize := UnmarshalInt64 src in
    let! src := from src 8 in
    let! (st, src) := TableStat_unmarshalStat (stat t) src in
    Ok (mk_Trailer dOff dSize iSize mSize bSize tSize st, src).

Section Trailers.
Context `{GoRuntime}.

Definition Trailer_SetData (t : Trailer) (idx : nat) (v : Z) : res Trailer :=
  let d := ts_data (stat t) in
  let! d :=
    if (scap d <? idx + 1)%nat then
      let! full := reslice_to d (scap d) in
      Ok (append full (zeros (idx + 1 - scap d)))
    else Ok d in
  let! d := reslice_to d (idx + 1) in
  let! d := store d idx v in
  Ok (set_ts_data t d).

(** [mode] is GetChunkMetaCompressMode(). *)
Definition Trailer_SetChunkMetaCompressFlag (mode : Z) (t : Trailer) : res Trailer :=
  if negb (mode =? ChunkMetaCompressNone) then Trailer_SetData t IndexOfChunkMetaCompressFlag mode else Ok t.

Definition TableStat_marshalStat (s : TableStat) (dst : slice) : slice :=
  let dst := MarshalInt64Append dst (idCount s) in
  let dst := MarshalUint64Append dst (minId s) in
  let dst := MarshalUint64Append dst (maxId s) in
  let dst := MarshalInt64Append dst (ts_minTime s) in
  let dst := MarshalInt64Append dst (ts_maxTime s) in
  let dst := MarshalInt64Append dst (metaIndexItemNum s) in
  let dst := MarshalUint64Append dst (bloomM s) in
  let dst := MarshalUint64Append dst (bloomK s) in
  let dst := MarshalUint16Append dst (u16 (Z.of_nat (slen (ts_data s)))) in
  let dst := append dst (sdata (ts_data s)) in
  let dst := MarshalUint16Append dst (u16 (Z.of_nat (slen (ts_name s)))) in
  append dst (sdata (ts_name s)).

Definition Trailer_marshal (t : Trailer) (dst : slice) : slice :=
  let dst := MarshalInt64Append dst (dataOffset t) in
  let dst := MarshalInt64Append dst (dataSize t) in
  let dst := MarshalInt64Append dst (indexSize t) in
  let dst := MarshalInt64Append dst (metaIndexSize t) in
  let dst := MarshalInt64Append dst (bloomSize t) in
  let dst := MarshalInt64Append dst (idTimeSize t) in
  TableStat_marshalStat (stat t) dst.
End Trailers.
