(* ===== verification/FileCodec.v ===== *)
(** * Reading back the metadata of a file

    Every [marshal] of FileMeta.v appends a byte string that depends on the object alone
    ([*_enc]); every [unmarshal] reads it back into whatever object it is given, and what the
    object held before does not show in the result. *)

From Stdlib Require String Ascii.
From stdpp Require Import sorting.
From Stdlib Require String.
From S2P Require Import Prelude GoString GoSlice NumberEnc Bitmap ColVal TimeSearch Record RecordSort FileMeta.

(** ** Slices of structures *)

Lemma vreslice_Ok {A} (s : vslice A) n :
  (n <= vcap s)%nat → vreslice s n = Ok (mk_vs (take n (vback s)) (drop n (vback s))).
Proof. intros. unfold vreslice. by bcase. Qed.

Lemma length_vback {A} (s : vslice A) : length (vback s) = vcap s.
Proof. unfold vback, vcap. len. Qed.

Lemma vis_vappend `{GoRuntime} {A} (z : A) s xs : vis (vappend z s xs) = vis s ++ xs.
Proof. unfold vappend. by case_match. Qed.

(** Growing gives the length asked for and keeps the elements there were. *)
Lemma vgrow_spec `{GoRuntime} {A} (z : A) s n :
  ∃ s', vgrow z s n = Ok s' ∧ length (vis s') = n ∧ take (length (vis s)) (vis s') = take n (vis s).
Proof.
  unfold vgrow. bcase.
  - rewrite vreslice_Ok by lia. rs. set (f := vappend z _ _).
    assert (Hf : vis f = vback s ++ replicate (n - vcap s) z).
    { unfold f. rewrite vis_vappend. cbn [vis]. rewrite take_ge; [done|]. by rewrite length_vback. }
    assert (Hc : (n <= vcap f)%nat).
    { unfold vcap. rewrite Hf. len. rewrite length_vback. lia. }
    rewrite vreslice_Ok by done. eexists; split; [done|]. cbn [vis]. split.
    + len. rewrite length_vback. lia.
    + unfold vback at 1. rewrite Hf. unfold vback, vcap in *.
      rewrite take_take, <- !app_assoc, Nat.min_l by lia. rewrite take_app_length, take_ge; [done|lia].
  - rs. rewrite vreslice_Ok by done. eexists; split; [done|]. cbn [vis]. split.
    + len. rewrite length_vback. lia.
    + unfold vback. rewrite take_take, Nat.min_comm, <- take_take. by rewrite take_app_length.
Qed.

Lemma vgrow_len `{GoRuntime} {A} (z : A) s n : ∃ s', vgrow z s n = Ok s' ∧ length (vis s') = n.
Proof. destruct (vgrow_spec z s n) as (s' & ? & ? & _). eauto. Qed.

(** ** Strings as bytes *)

Lemma bytes_string_bytes s : bytes_string (string_bytes s) = s.
Proof.
  unfold bytes_string, string_bytes. rewrite <- list_fmap_compose.
  rewrite <- (String.string_of_list_ascii_of_string s) at 2. f_equal.
  induction (String.list_ascii_of_string s) as [|c l IH]; [done|]. cbn. rewrite IH. f_equal.
  by rewrite N2Z.id, Ascii.ascii_N_embedding.
Qed.

Lemma length_string_bytes s : length (string_bytes s) = String.length s.
Proof.
  unfold string_bytes. rewrite length_fmap. induction s as [|c s IH]; [done|]. cbn. by rewrite IH.
Qed.
#[export] Hint Rewrite length_string_bytes : gemini_len.

(** ** Numbers at the front of the input *)

Lemma read_int64 v r : in_s 64 v → UnmarshalInt64 (put_u64 (zigzag64 v) ++ r) = Ok v.
Proof.
  intros. unfold UnmarshalInt64. rewrite get_put_u64 by apply zigzag64_range. rs. by rewrite unzigzag64_zigzag64.
Qed.
Lemma read_u64 v r : in_u 64 v → UnmarshalUint64 (put_u64 v ++ r) = Ok v.
Proof. apply get_put_u64. Qed.
Lemma read_uint32 v r : in_u 32 v → UnmarshalUint32 (put_u32 v ++ r) = Ok v.
Proof. apply get_put_u32. Qed.
Lemma read_u16 v r : in_u 16 v → UnmarshalUint16 (put_u16 v ++ r) = Ok v.
Proof. apply get_put_u16. Qed.
Lemma skip_u64 v r : from (put_u64 v ++ r) 8 = Ok r. Proof. by apply from_app. Qed.
Lemma skip_u32 v r : from (put_u32 v ++ r) 4 = Ok r. Proof. by apply from_app. Qed.
Lemma skip_u16 v r : from (put_u16 v ++ r) 2 = Ok r. Proof. by apply from_app. Qed.

Lemma between_app l k n : n = length l → between (l ++ k) 0 n = Ok l.
Proof. intros ->. rewrite between_Ok by len. by rewrite Nat.sub_0_r, drop_0, take_app_length. Qed.

(** Read every number of known width at the front of the input. *)
Ltac read_step :=
  first
  [ rewrite read_int64 by done | rewrite read_u64 by done | rewrite read_uint32 by done | rewrite read_u16 by done
  | rewrite skip_u64 | rewrite skip_u32 | rewrite skip_u16 ]; rs.
Ltac reads := repeat read_step.

(** Discharge the test that the input is long enough. *)
Ltac long_enough :=
  match goal with
  | |- context [if (?a <? ?b)%nat then _ else _] => rewrite (proj2 (Nat.ltb_ge a b)) by (unfold SegmentRange_bytes, slen in *; len)
  end; cbv iota.

(** ** Segments *)

Definition seg_ok (s : Segment) : Prop := in_s 64 (seg_offset s) ∧ in_u 32 (seg_size s).
Definition seg_enc (s : Segment) : list Z := put_u64 (zigzag64 (seg_offset s)) ++ put_u32 (seg_size s).
Definition sr_ok (r : SegmentRange) : Prop := in_s 64 (sr_min r) ∧ in_s 64 (sr_max r).
Definition sr_enc (r : SegmentRange) : list Z := put_u64 (zigzag64 (sr_min r)) ++ put_u64 (zigzag64 (sr_max r)).

Lemma length_seg_enc s : length (seg_enc s) = 12%nat. Proof. done. Qed.
Lemma length_sr_enc r : length (sr_enc r) = 16%nat. Proof. done. Qed.
#[export] Hint Rewrite length_seg_enc length_sr_enc : gemini_len.

Lemma Segment_roundtrip s r : seg_ok s → Segment_unmarshal (seg_enc s ++ r) = Ok (s, r).
Proof.
  intros [Ho Hs]. unfold Segment_unmarshal. long_enough. unfold seg_enc. rewrite <- !app_assoc. reads.
  by destruct s.
Qed.

Lemma SegmentRange_roundtrip s r : sr_ok s → SegmentRange_unmarshal (sr_enc s ++ r) = Ok (s, r).
Proof.
  intros [Ho Hs]. unfold SegmentRange_unmarshal. long_enough. unfold sr_enc. rewrite <- !app_assoc. reads.
  by destruct s.
Qed.

Lemma entries_loop_spec old es r :
  length old = length es → Forall seg_ok es → entries_loop old (concat (seg_enc <$> es) ++ r) = Ok (es, r).
Proof.
  revert es. induction old as [|o old IH]; intros [|e es] Hl Hok; try discriminate Hl; [done|].
  injection Hl as Hl. inversion Hok as [|?? He Hes]; subst. cbn [entries_loop fmap list_fmap concat].
  rewrite <- app_assoc, between_app by done. rs.
  rewrite <- (app_nil_r (seg_enc e)), Segment_roundtrip by done. rs. rewrite app_nil_r, from_app by done. rs.
  by rewrite IH.
Qed.

Lemma ranges_loop_spec old es r :
  length old = length es → Forall sr_ok es → ranges_loop old (concat (sr_enc <$> es) ++ r) = Ok (es, r).
Proof.
  revert es. induction old as [|o old IH]; intros [|e es] Hl Hok; try discriminate Hl; [done|].
  injection Hl as Hl. inversion Hok as [|?? He Hes]; subst. cbn [ranges_loop fmap list_fmap concat].
  rewrite <- app_assoc, SegmentRange_roundtrip by done. rs. by rewrite IH.
Qed.

Lemma length_concat_const {A} (f : A → list Z) n l :
  (∀ x, length (f x) = n) → length (concat (f <$> l)) = (length l * n)%nat.
Proof.
  intros Hf. induction l as [|x l IH]; [done|]. cbn [fmap list_fmap concat length].
  rewrite length_app, IH, Hf. lia.
Qed.

(** Appending element by element appends the bytes of all. *)
Lemma fold_append_spec {A} (f : A → slice → slice) (enc : A → list Z) :
  (∀ x dst, sdata (f x dst) = sdata dst ++ enc x) →
  ∀ l dst, sdata (fold_left (λ dst x, f x dst) l dst) = sdata dst ++ concat (enc <$> l).
Proof.
  intros Hf l. induction l as [|x l IH]; intros dst; cbn [fold_left fmap list_fmap concat]; [by rewrite app_nil_r|].
  by rewrite IH, Hf, app_assoc.
Qed.

Lemma Segment_marshal_data `{GoRuntime} s dst : sdata (Segment_marshal s dst) = sdata dst ++ seg_enc s.
Proof. unfold Segment_marshal, MarshalUint32Append, MarshalInt64Append. by rewrite !sdata_append, <- app_assoc. Qed.
Lemma SegmentRange_marshal_data `{GoRuntime} s dst : sdata (SegmentRange_marshal s dst) = sdata dst ++ sr_enc s.
Proof. unfold SegmentRange_marshal, MarshalInt64Append. by rewrite !sdata_append, <- app_assoc. Qed.

(** ** Columns *)

(** What a reader sees of a column: the elements within the lengths. *)
Record cview := mk_cview { v_name : string; v_ty : Z; v_preAgg : list Z; v_entries : list Segment }.
Definition col_view (c : ColumnMeta) : cview := mk_cview (cm_name c) (cm_ty c) (sdata (cm_preAgg c)) (vis (cm_entries c)).

#[export] Instance Segment_eq_dec : EqDecision Segment.
Proof. solve_decision. Defined.
#[export] Instance SegmentRange_eq_dec : EqDecision SegmentRange.
Proof. solve_decision. Defined.
#[export] Instance cview_eq_dec : EqDecision cview.
Proof. solve_decision. Defined.

(** Every number fits the width it is stored with. *)
Record col_ok (c : ColumnMeta) : Prop := {
  co_name : in_u 16 (Z.of_nat (String.length (cm_name c)));
  co_preAgg : in_u 16 (Z.of_nat (slen (cm_preAgg c)));
  co_bytes : in_u 8 (cm_ty c) ∧ bytes_ok (sdata (cm_preAgg c));
  co_entries : Forall seg_ok (vis (cm_entries c))
}.

(** Pre-aggregates are written when they are enabled, and always for the time column. *)
Definition written_preAgg (e : bool) (c : ColumnMeta) : list Z :=
  if e || bool_decide (cm_name c = TimeField) then sdata (cm_preAgg c) else [].
(** None is read back as zeros. *)
Definition read_preAgg (l : list Z) : list Z := match l with [] => zeroPreAgg | _ => l end.
Definition stored (e : bool) (c : ColumnMeta) : cview :=
  mk_cview (cm_name c) (cm_ty c) (read_preAgg (written_preAgg e c)) (vis (cm_entries c)).

Definition name_enc (s : string) : list Z := put_u16 (Z.of_nat (String.length s)) ++ string_bytes s.
Definition body_enc (e : bool) (c : ColumnMeta) : list Z :=
  cm_ty c :: put_u16 (Z.of_nat (length (written_preAgg e c))) ++ written_preAgg e c
    ++ concat (seg_enc <$> vis (cm_entries c)).
Definition col_enc (e : bool) (c : ColumnMeta) : list Z := name_enc (cm_name c) ++ body_enc e c.
Definition cols_enc (e : bool) (cs : list ColumnMeta) : list Z := concat (col_enc e <$> cs).

Lemma length_body_enc e c :
  length (body_enc e c) = (3 + length (written_preAgg e c) + length (vis (cm_entries c)) * SegmentLen)%nat.
Proof.
  unfold body_enc. cbn [length]. rewrite !length_app, length_put_u16, (length_concat_const _ SegmentLen) by done. lia.
Qed.
Lemma length_name_enc s : length (name_enc s) = (2 + String.length s)%nat.
Proof. unfold name_enc. rewrite length_app. len. Qed.
#[export] Hint Rewrite length_body_enc length_name_enc : gemini_len.

Lemma length_col_enc e c :
  length (col_enc e c) = (5 + String.length (cm_name c) + length (written_preAgg e c) + 12 * length (vis (cm_entries c)))%nat.
Proof. unfold col_enc. rewrite length_app, length_name_enc, length_body_enc. unfold SegmentLen, Segment_bytes. lia. Qed.

Section Columns.
Context `{GoRuntime}.

Variable e : bool.

Lemma ColumnMeta_marshal_data c dst : col_ok c → sdata (ColumnMeta_marshal e c dst) = sdata dst ++ col_enc e c.
Proof.
  intros [Hn Hp _ _]. unfold ColumnMeta_marshal, col_enc, name_enc, body_enc, written_preAgg, MarshalUint16Append.
  rewrite (fold_append_spec Segment_marshal seg_enc) by apply Segment_marshal_data.
  rewrite !(wrap_u_id 16) by done. unfold slen. case_match; rewrite !sdata_append, <- !app_assoc; done.
Qed.

(** The name, when at least five bytes follow. *)
Lemma unmarshalName_spec s r :
  in_u 16 (Z.of_nat (String.length s)) → (5 <= length r)%nat →
  ColumnMeta_unmarshalName (name_enc s ++ r) = Ok (s, r).
Proof.
  intros Hs Hr. unfold ColumnMeta_unmarshalName. long_enough. unfold name_enc. rewrite <- !app_assoc. reads.
  rewrite Nat2Z.id. long_enough.
  rewrite between_app, from_app by len. rs. by rewrite bytes_string_bytes.
Qed.

Lemma length_written c : col_ok c → in_u 16 (Z.of_nat (length (written_preAgg e c))).
Proof. intros [_ Hp _ _]. unfold written_preAgg. case_match; [done|]. unfold in_u. simpl. lia. Qed.

(** What follows the name, read into any column. *)
Lemma unmarshalBody_spec c0 c segs r :
  col_ok c → length (vis (cm_entries c)) = segs →
  ∃ c', ColumnMeta_unmarshalBody c0 (cm_name c) (body_enc e c ++ r) segs = Ok (c', r) ∧ col_view c' = stored e c.
Proof.
  intros Hc Hl. pose proof (length_written c Hc) as Hw. destruct Hc as [Hn Hp _ He].
  unfold ColumnMeta_unmarshalBody, body_enc. cbn [app index lookup list_lookup]. rs. rewrite from_Ok by (cbn; lia). rewrite skipn_cons, drop_0. rs.
  unfold ColumnMeta_unmarshalPreagg. rewrite <- !app_assoc. reads. rewrite Nat2Z.id.
  rewrite reslice_to_Ok by lia. rs. cbn [cm_name cm_ty cm_entries].
  assert (Hent : ∀ pre, ∃ c', ColumnMeta_unmarshalEntries (mk_CM (cm_name c) (cm_ty c) pre (cm_entries c0)) (concat (seg_enc <$> vis (cm_entries c)) ++ r) segs = Ok (c', r)
    ∧ col_view c' = mk_cview (cm_name c) (cm_ty c) (sdata pre) (vis (cm_entries c))).
  { intros pre. unfold ColumnMeta_unmarshalEntries.
    rewrite (proj2 (Nat.ltb_ge _ _)) by (rewrite length_app, (length_concat_const _ SegmentLen) by done; lia).
    destruct (vgrow_len Segment0 (cm_entries c0) segs) as (es & Hg & Hle).
    cbn [cm_entries cm_name cm_ty cm_preAgg]. rewrite Hg. rs. rewrite entries_loop_spec by (done || lia). rs. eauto. }
  unfold stored, read_preAgg. destruct (written_preAgg e c) as [|w ws] eqn:E.
  - cbn [length Nat.eqb app]. rs. destruct (Hent (append (mk_slice (take 0 (sback (cm_preAgg c0))) (drop 0 (sback (cm_preAgg c0)))) zeroPreAgg)) as (c' & Hr & Hv).
    exists c'. split; [exact Hr|]. rewrite Hv, sdata_append. cbn [sdata]. by rewrite take_0.
  - set (wl := w :: ws) in *. rewrite (proj2 (Nat.eqb_neq _ _)) by (unfold wl; cbn; lia).
    rewrite (proj2 (Nat.ltb_ge _ _)) by len. rewrite between_app, from_app by done. rs.
    destruct (Hent (append (mk_slice (take 0 (sback (cm_preAgg c0))) (drop 0 (sback (cm_preAgg c0)))) wl)) as (c' & Hr & Hv).
    exists c'. split; [exact Hr|]. rewrite Hv, sdata_append. cbn [sdata]. by rewrite take_0.
Qed.

Lemma ColumnMeta_roundtrip c0 c segs r :
  col_ok c → length (vis (cm_entries c)) = segs → (0 < segs)%nat →
  ∃ c', ColumnMeta_unmarshal c0 (col_enc e c ++ r) segs = Ok (c', r) ∧ col_view c' = stored e c.
Proof.
  intros Hc Hl Hs. unfold ColumnMeta_unmarshal, col_enc. rewrite <- app_assoc.
  rewrite unmarshalName_spec by (apply Hc || (len; unfold SegmentLen, Segment_bytes; lia)). rs.
  by apply unmarshalBody_spec.
Qed.

(** All columns, each read into an old one. *)
Lemma cols_loop_spec old cs segs r :
  length old = length cs → Forall col_ok cs → Forall (λ c, length (vis (cm_entries c)) = segs) cs → (0 < segs)%nat →
  ∃ cs', cols_loop old (cols_enc e cs ++ r) segs = Ok (cs', r) ∧ col_view <$> cs' = stored e <$> cs.
Proof.
  revert cs. induction old as [|o old IH]; intros [|c cs] Hl Hok Hse Hs; try discriminate Hl; [by exists []|].
  injection Hl as Hl. inversion Hok; inversion Hse; subst. unfold cols_enc. cbn [cols_loop fmap list_fmap concat]. rewrite <- app_assoc.
  destruct (ColumnMeta_roundtrip o c (length (vis (cm_entries c))) (cols_enc e cs ++ r)) as (c' & Hc & Hv); [done..|].
  unfold cols_enc in Hc. rewrite Hc. rs. destruct (IH cs Hl) as (cs' & Hr & Hvs); [done..|]. unfold cols_enc in Hr. rewrite Hr. rs.
  exists (c' :: cs'). split; [done|]. by rewrite !fmap_cons, Hv, Hvs.
Qed.
End Columns.

(** ** Chunks *)

(** What a reader sees of a chunk meta. *)
Record ckview := mk_ckview {
  v_sid : Z; v_offset : Z; v_size : Z; v_columnCount : Z; v_segCount : Z;
  v_ranges : list SegmentRange; v_cols : list cview }.
Definition chunk_view (m : ChunkMeta) : ckview :=
  mk_ckview (sid m) (ck_offset m) (ck_size m) (columnCount m) (segCount m) (vis (timeRange m)) (col_view <$> vis (colMeta m)).

#[export] Instance ckview_eq_dec : EqDecision ckview.
Proof. solve_decision. Defined.

(** A chunk meta as the writers make them: it passes the validation, has a segment and a
    column before the time, and its numbers fit. *)
Record chunk_ok (m : ChunkMeta) : Prop := {
  ck_valid : ChunkMeta_validation m = Ok tt;
  ck_sid : in_u 64 (sid m);
  ck_off : in_s 64 (ck_offset m);
  ck_sz : in_u 32 (ck_size m);
  ck_cc : in_u 32 (columnCount m);
  ck_sc : in_u 32 (segCount m);
  ck_segs : (0 < length (vis (timeRange m)))%nat;
  ck_two : (2 <= length (vis (colMeta m)))%nat;
  ck_time : cm_name <$> last (vis (colMeta m)) = Some TimeField;
  ck_trs : Forall sr_ok (vis (timeRange m));
  ck_cols : Forall col_ok (vis (colMeta m))
}.

(** The chunk meta read back. *)
Definition stored_chunk (e : bool) (m : ChunkMeta) : ckview :=
  mk_ckview (sid m) (ck_offset m) (ck_size m) (columnCount m) (segCount m) (vis (timeRange m)) (stored e <$> vis (colMeta m)).

Definition head_enc (m : ChunkMeta) : list Z :=
  put_u64 (sid m) ++ put_u64 (zigzag64 (ck_offset m)) ++ put_u32 (ck_size m) ++ put_u32 (columnCount m) ++ put_u32 (segCount m).
Definition chunk_enc (e : bool) (m : ChunkMeta) : list Z :=
  head_enc m ++ concat (sr_enc <$> vis (timeRange m)) ++ cols_enc e (vis (colMeta m)).

Lemma length_head_enc m : length (head_enc m) = 28%nat. Proof. done. Qed.
#[export] Hint Rewrite length_head_enc : gemini_len.

(** What the validation checks. *)
Lemma validation_spec m :
  ChunkMeta_validation m = Ok tt →
  sid m ≠ 0 ∧ segCount m = Z.of_nat (length (vis (timeRange m))) ∧ columnCount m = Z.of_nat (length (vis (colMeta m))) ∧
  Forall (λ c, Z.of_nat (length (vis (cm_entries c))) = segCount m) (vis (colMeta m)).
Proof.
  unfold ChunkMeta_validation. intros H.
  destruct (Z.eqb_spec (sid m) 0); [done|]. destruct (Z.eqb_spec (segCount m) (Z.of_nat (length (vis (timeRange m))))); [|done].
  destruct (Z.eqb_spec (columnCount m) (Z.of_nat (length (vis (colMeta m))))); [|done]. cbn [negb] in H.
  destruct (forallb _ _) eqn:E; [|done]. split_and!; try done. apply Forall_forall. intros c Hc.
  rewrite forallb_forall in E. apply Z.eqb_eq, E, list_elem_of_In, Hc.
Qed.

Lemma chunk_ok_segs m : chunk_ok m → Forall (λ c, length (vis (cm_entries c)) = length (vis (timeRange m))) (vis (colMeta m)).
Proof.
  intros Hm. destruct (validation_spec m (ck_valid m Hm)) as (_ & Hs & _ & Hc). eapply Forall_impl; [exact Hc|].
  intros c E. cbn in E. lia.
Qed.

Section ChunkCodec.
Context `{GoRuntime}.

Variable e : bool.

Lemma ChunkMeta_marshal_data m dst : Forall col_ok (vis (colMeta m)) → sdata (ChunkMeta_marshal e m dst) = sdata dst ++ chunk_enc e m.
Proof.
  intros Hc. unfold ChunkMeta_marshal, chunk_enc, head_enc, cols_enc, MarshalUint64Append, MarshalInt64Append, MarshalUint32Append.
  match goal with |- context [fold_left _ _ (fold_left _ _ ?d)] => set (d0 := d) end.
  assert (E : ∀ cs dst, Forall col_ok cs → sdata (fold_left (λ dst c, ColumnMeta_marshal e c dst) cs dst) = sdata dst ++ concat (col_enc e <$> cs)).
  { clear. intros cs. induction cs as [|c cs IH]; intros dst Hcs; cbn [fold_left fmap list_fmap concat]; [by rewrite app_nil_r|].
    inversion Hcs; subst. by rewrite IH, ColumnMeta_marshal_data, app_assoc. }
  rewrite E by done. rewrite (fold_append_spec SegmentRange_marshal sr_enc) by apply SegmentRange_marshal_data.
  unfold d0. rewrite !sdata_append, <- !app_assoc. done.
Qed.

Lemma length_cols_enc cs segs :
  Forall (λ c, length (vis (cm_entries c)) = segs) cs → (length cs * (5 + 12 * segs) <= length (cols_enc e cs))%nat.
Proof.
  unfold cols_enc. induction 1 as [|c cs Hc _ IH]; [done|]. rewrite fmap_cons. cbn [concat length]. rewrite length_app.
  rewrite length_col_enc, Hc. lia.
Qed.

(** An encoded chunk meta has the least length a reader asks for.  That length counts two bytes
    a column that are not written; the name of the time column makes up for them. *)
Lemma chunk_enc_long m : chunk_ok m → (ChunkMetaMinLen <= length (chunk_enc e m))%nat.
Proof.
  intros Hm. pose proof (chunk_ok_segs m Hm) as Hs. pose proof (ck_segs m Hm) as Hpos. assert (Htwo := ck_two m Hm). pose proof (ck_time m Hm) as Ht.
  destruct (last (vis (colMeta m))) as [t|] eqn:El; [|done]. injection Ht as Ht. apply last_Some in El as [cs El].
  unfold chunk_enc. rewrite !length_app, length_head_enc, (length_concat_const _ 16) by done. rewrite El in Hs, Htwo |- *.
  apply Forall_app in Hs as [Hcs Ht1]. rewrite Forall_singleton in Ht1. pose proof (length_cols_enc cs _ Hcs).
  unfold cols_enc in *. rewrite fmap_app, concat_app, length_app, list_fmap_singleton. cbn [concat]. rewrite app_nil_r.
  rewrite length_col_enc, Ht, Ht1. change (String.length TimeField) with 4%nat.
  rewrite length_app in Htwo. cbn [length] in Htwo.
  change ChunkMetaMinLen with 82%nat. nia.
Qed.

Lemma resize_cols_spec cs segs :
  ∃ cs', resize_cols cs segs = Ok cs' ∧ length cs' = length cs.
Proof.
  induction cs as [|c cs (cs' & Hr & Hl)]; [by exists []|]. cbn [resize_cols].
  destruct (vgrow_len Segment0 (cm_entries c) segs) as (es & -> & _). rs.
  rewrite reslice_to_Ok by lia. rs. rewrite Hr. rs. eexists; split; [done|]. cbn [length]. by rewrite Hl.
Qed.

Lemma resize_spec m columns segs :
  ∃ m', ChunkMeta_resize m columns segs = Ok m' ∧ length (vis (colMeta m')) = columns ∧ length (vis (timeRange m')) = segs ∧
    sid m' = sid m ∧ ck_offset m' = ck_offset m ∧ ck_size m' = ck_size m ∧ columnCount m' = columnCount m ∧ segCount m' = segCount m.
Proof.
  unfold ChunkMeta_resize. destruct (vgrow_len ColumnMeta0 (colMeta m) columns) as (cs & -> & Hc). rs.
  destruct (resize_cols_spec (vis cs) segs) as (cs' & -> & Hl). rs.
  destruct (vgrow_len SegmentRange0 (timeRange m) segs) as (trs & -> & Ht). rs.
  eexists; split; [done|]. cbn. split_and!; try done. lia.
Qed.

(** The head and the time ranges, read into any object. *)
Lemma unmarshalBaseAttr_spec m0 m columns r :
  chunk_ok m →
  ∃ m', ChunkMeta_unmarshalBaseAttr m0 (chunk_enc e m ++ r) columns = Ok (m', cols_enc e (vis (colMeta m)) ++ r) ∧
    length (vis (colMeta m')) = (if (columns =? 0)%nat then length (vis (colMeta m)) else columns) ∧
    vis (timeRange m') = vis (timeRange m) ∧
    sid m' = sid m ∧ ck_offset m' = ck_offset m ∧ ck_size m' = ck_size m ∧ columnCount m' = columnCount m ∧ segCount m' = segCount m.
Proof.
  intros Hm. pose proof (chunk_enc_long m Hm). destruct (validation_spec m (ck_valid m Hm)) as (_ & Hsc & Hcc & _). destruct Hm.
  unfold ChunkMeta_unmarshalBaseAttr. rewrite (proj2 (Nat.ltb_ge _ _)) by (rewrite length_app; lia).
  unfold chunk_enc, head_enc. rewrite <- !app_assoc. reads.
  match goal with |- context [ChunkMeta_resize ?a ?b ?c] => destruct (resize_spec a b c) as (m' & -> & Hl1 & Hl2 & H1 & H2 & H3 & H4 & H5) end. rs.
  rewrite (ranges_loop_spec _ (vis (timeRange m))) by (done || (rewrite Hl2, Hsc; lia)). rs.
  eexists; split; [done|]. cbn. rewrite H1, H2, H3, H4, H5. cbn. split_and!; try done.
  rewrite Hl1. case_match; [|done]. rewrite Hcc. lia.
Qed.
End ChunkCodec.

(** * File metadata: what reading gives back

    The whole chunk meta, and the chunk meta with some columns only; the entries of the meta
    index and the trailer; runs at the edges of the formats. *)

(** ** Choosing columns

    The columns of a chunk are in the order of their names and the time is last; so are the
    columns a query asks for, perhaps with repetitions. *)

Definition wants_sorted (want : list string) : Prop := StronglySorted (λ a b, String.ltb b a = false) want.
Definition cols_sorted (cs : list ColumnMeta) : Prop := StronglySorted (λ a b, lt_name (cm_name a) (cm_name b)) cs.

(** Past the columns before [c]. *)
Fixpoint skip_to (c : string) (cs : list ColumnMeta) : list ColumnMeta :=
  match cs with
  | [] => []
  | x :: cs' => if String.ltb (cm_name x) c then skip_to c cs' else cs
  end.

(** The walk of the code over wanted names and columns, without bytes. *)
Fixpoint select (want : list string) (prev : option string) (cs : list ColumnMeta) : list ColumnMeta * list ColumnMeta :=
  match want with
  | [] => ([], cs)
  | c :: want =>
      if bool_decide (prev = Some c) then select want (Some c) cs
      else
        match skip_to c cs with
        | x :: cs' =>
            if bool_decide (cm_name x = c) then
              let '(out, more) := select want (Some c) cs' in (x :: out, more)
            else select want (Some c) (x :: cs')
        | [] => select want (Some c) []
        end
  end.

Lemma skip_to_split c cs :
  ∃ pre, cs = pre ++ skip_to c cs ∧ Forall (λ x, lt_name (cm_name x) c) pre ∧
         (∀ x cs', skip_to c cs = x :: cs' → String.ltb (cm_name x) c = false).
Proof.
  induction cs as [|x cs IH]; [by exists []|]. cbn [skip_to]. destruct (String.ltb (cm_name x) c) eqn:E.
  - destruct IH as (pre & Hcs & Hp & Hh). exists (x :: pre). split_and!; [by rewrite Hcs at 1|by apply Forall_cons_2|done].
  - exists []. split_and!; [done|apply Forall_nil_2|]. by intros ?? [= <- _].
Qed.

Lemma lt_of_not_eq a b : String.ltb a b = false → a ≠ b → lt_name b a.
Proof.
  intros Hab Hne. unfold lt_name. destruct (String.ltb b a) eqn:E; [done|]. by destruct Hne; apply lt_name_total.
Qed.

(** A name before every wanted one, or beyond [c], is not affected by wanting [c]. *)
Lemma filter_beyond c want cs :
  Forall (λ x, lt_name c (cm_name x)) cs →
  filter (λ x, cm_name x ∈ c :: want) cs = filter (λ x, cm_name x ∈ want) cs.
Proof.
  induction 1 as [|x cs Hx _ IH]; [done|]. rewrite !filter_cons, IH.
  assert (cm_name x ∈ c :: want ↔ cm_name x ∈ want) as Hiff.
  { rewrite elem_of_cons. split; [|auto]. intros [E|?]; [|done]. rewrite E in Hx. by destruct (lt_name_irrefl _ Hx). }
  repeat case_decide; tauto || done.
Qed.

Lemma filter_before want cs :
  Forall (λ x, Forall (λ c, lt_name (cm_name x) c) want) cs → filter (λ x, cm_name x ∈ want) cs = [].
Proof.
  induction 1 as [|x cs Hx _ IH]; [done|]. rewrite filter_cons_False; [done|]. intros Hin.
  rewrite Forall_forall in Hx. by destruct (lt_name_irrefl _ (Hx _ Hin)).
Qed.

(** The walk keeps exactly the columns asked for. *)
Lemma select_spec want : ∀ prev cs,
  wants_sorted want → cols_sorted cs → (∀ p, prev = Some p → Forall (λ x, lt_name p (cm_name x)) cs) →
  (select want prev cs).1 = filter (λ x, cm_name x ∈ want) cs.
Proof.
  induction want as [|c want IH]; intros prev cs Hw Hc Hp.
  { cbn. symmetry. apply filter_before. apply Forall_forall. intros x _. apply Forall_nil_2. }
  apply StronglySorted_inv in Hw as [Hw Hcw]. cbn [select]. case_bool_decide as Ep.
  { rewrite filter_beyond by by apply Hp. apply IH; try done. intros p [= <-]. by apply Hp. }
  destruct (skip_to_split c cs) as (pre & Hcs & Hpre & Hhead).
  assert (Hnone : filter (λ x, cm_name x ∈ c :: want) pre = []).
  { apply filter_before. eapply Forall_impl; [exact Hpre|]. intros x Hx. cbn in Hx. apply Forall_cons_2; [done|].
    eapply Forall_impl; [exact Hcw|]. intros w Hw'. cbn in Hw'. destruct (String.ltb c w) eqn:E; [by apply (lt_name_trans _ c)|].
    by rewrite <- (lt_name_total c w E Hw'). }
  assert (Hs : cols_sorted (skip_to c cs)).
  { rewrite Hcs in Hc. by apply StronglySorted_app in Hc as (_ & _ & Hc). }
  rewrite Hcs at 2. rewrite filter_app, Hnone, app_nil_l.
  destruct (skip_to c cs) as [|x cs']; [rewrite filter_beyond by apply Forall_nil_2; apply IH; try done; intros; apply Forall_nil_2|].
  pose proof (Hhead x cs' eq_refl) as Hx. pose proof Hs as Hs'. apply StronglySorted_inv in Hs' as [Hs' Hcs'].
  case_bool_decide as Exc.
  - assert (Hb : Forall (λ y, lt_name c (cm_name y)) cs') by (by rewrite <- Exc).
    specialize (IH (Some c) cs' Hw Hs'). destruct (select want (Some c) cs') as [out more]. cbn [fst] in *.
    rewrite filter_cons_True by (rewrite Exc; apply list_elem_of_here). f_equal. rewrite filter_beyond by done.
    apply IH. by intros p [= <-].
  - assert (Hb : Forall (λ y, lt_name c (cm_name y)) (x :: cs')).
    { pose proof (lt_of_not_eq _ _ Hx Exc) as Hlt. apply Forall_cons_2; [done|]. eapply Forall_impl; [exact Hcs'|].
      intros y Hy. by apply (lt_name_trans _ (cm_name x)). }
    rewrite filter_beyond by done. apply IH; try done. by intros p [= <-].
Qed.

(** ** The same walk over the bytes *)

Lemma cols_enc_cons e c cs : cols_enc e (c :: cs) = col_enc e c ++ cols_enc e cs.
Proof. done. Qed.

Lemma skip_to_incl (P : ColumnMeta → Prop) c cs : Forall P cs → Forall P (skip_to c cs).
Proof. induction 1 as [|x cs Hx Hcs IH]; [done|]. cbn [skip_to]. case_match; [done|]. by apply Forall_cons_2. Qed.

Lemma take_insert_S {A} (l : list A) j x : (j < length l)%nat → take (S j) (<[j := x]> l) = take j l ++ [x].
Proof.
  intros Hj. rewrite (take_S_r _ _ x) by (apply list_lookup_insert_eq; lia). f_equal. apply take_insert_ge. lia.
Qed.

Section Walk.
Context `{GoRuntime}.

Variables (e : bool) (segs : nat).
Hypothesis Hsegs : (0 < segs)%nat.

Definition col_fits (c : ColumnMeta) : Prop := col_ok c ∧ length (vis (cm_entries c)) = segs.

Lemma col_name_spec x r :
  col_fits x → ColumnMeta_unmarshalName (col_enc e x ++ r) = Ok (cm_name x, body_enc e x ++ r).
Proof using Hsegs.
  intros [Hx Hl]. unfold col_enc. rewrite <- app_assoc.
  apply unmarshalName_spec; [apply Hx|]. len. unfold SegmentLen, Segment_bytes. lia.
Qed.

Lemma specific_hit fuel x r :
  col_fits x → specific_loop (S fuel) (col_enc e x ++ r) segs (cm_name x) = Ok (inr (cm_name x, body_enc e x ++ r)).
Proof using Hsegs. intros Hx. cbn [specific_loop]. rewrite col_name_spec by done. rs. by rewrite bool_decide_true. Qed.

Lemma specific_stop fuel x r c :
  col_fits x → cm_name x ≠ c → (lt_name c (cm_name x) ∧ c ≠ TimeField) ∨ cm_name x = TimeField →
  specific_loop (S fuel) (col_enc e x ++ r) segs c = Ok (inl (col_enc e x ++ r)).
Proof using Hsegs.
  intros Hx Hne Hst. cbn [specific_loop]. rewrite col_name_spec by done. rs. rewrite bool_decide_false by done.
  assert ((String.ltb c (cm_name x) && negb (bool_decide (c = TimeField))) || bool_decide (cm_name x = TimeField) = true) as ->; [|done].
  destruct Hst as [[-> Hc]| ->]; [by rewrite (bool_decide_false (c = _))|]. rewrite (bool_decide_true (TimeField = TimeField)) by done. apply orb_true_r.
Qed.

Lemma specific_skip fuel x r c :
  col_fits x → cm_name x ≠ c → cm_name x ≠ TimeField → String.ltb c (cm_name x) = false ∨ c = TimeField →
  specific_loop (S fuel) (col_enc e x ++ r) segs c = specific_loop fuel r segs c.
Proof using Hsegs.
  intros Hx Hne Hnt Hgo. cbn [specific_loop]. rewrite col_name_spec by done. rs. rewrite (bool_decide_false (cm_name x = c)), (bool_decide_false (cm_name x = TimeField)) by done.
  assert (String.ltb c (cm_name x) && negb (bool_decide (c = TimeField)) = false) as ->.
  { destruct Hgo as [->| ->]; [done|]. rewrite bool_decide_true by done. apply andb_false_r. }
  cbn [orb]. destruct Hx as [Hx Hl]. rewrite from_Ok by (cbn; lia). rs. unfold body_enc at 1. rewrite <- app_comm_cons, skipn_cons, drop_0, <- app_assoc.
  rewrite read_u16 by by apply length_written. rs. rewrite Nat2Z.id.
  assert (Hofs : (1 + (2 + length (written_preAgg e x)) + SegmentLen * segs)%nat = length (body_enc e x)) by (rewrite length_body_enc, Hl; lia).
  rewrite Hofs, (proj2 (Nat.ltb_ge _ _)) by len. by rewrite from_app.
Qed.

(** The search for a field: the column of the name, or the first one beyond it. *)
Lemma specific_field c t r cs : ∀ fuel,
  (length cs < fuel)%nat → c ≠ TimeField → Forall col_fits cs → Forall (λ x, cm_name x ≠ TimeField) cs →
  col_fits t → cm_name t = TimeField →
  specific_loop fuel (cols_enc e (cs ++ [t]) ++ r) segs c =
  Ok match skip_to c cs with
     | x :: cs' => if bool_decide (cm_name x = c) then inr (c, body_enc e x ++ cols_enc e (cs' ++ [t]) ++ r)
                   else inl (cols_enc e (skip_to c cs ++ [t]) ++ r)
     | [] => inl (cols_enc e ([] ++ [t]) ++ r)
     end.
Proof using Hsegs.
  induction cs as [|x cs IH]; intros [|fuel] Hf Hc Hfit Hnt Ht Htn; try (cbn in Hf; lia).
  - cbn [app skip_to]. rewrite cols_enc_cons. rewrite <- app_assoc, specific_stop by (done || (rewrite Htn; auto)). done.
  - inversion Hfit as [|?? Hx Hfit']; inversion Hnt as [|?? Hxn Hnt']; subst. cbn [app skip_to]. rewrite cols_enc_cons, <- app_assoc.
    destruct (String.ltb (cm_name x) c) eqn:E.
    + rewrite specific_skip; try done.
      * apply IH; try done. cbn [length] in Hf. lia.
      * intros <-. by destruct (lt_name_irrefl _ E).
      * left. by apply string_lt_asym.
    + case_bool_decide as Exc; [subst c; by apply specific_hit|]. rewrite specific_stop; try done.
      * cbn [app]. by rewrite cols_enc_cons, <- app_assoc.
      * left. split; [|done]. by apply lt_of_not_eq.
Qed.

(** The search for the time runs to the end. *)
Lemma specific_time t r cs : ∀ fuel,
  (length cs < fuel)%nat → Forall col_fits cs → Forall (λ x, cm_name x ≠ TimeField) cs → col_fits t → cm_name t = TimeField →
  specific_loop fuel (cols_enc e (cs ++ [t]) ++ r) segs TimeField = Ok (inr (TimeField, body_enc e t ++ r)).
Proof using Hsegs.
  induction cs as [|x cs IH]; intros [|fuel] Hf Hfit Hnt Ht Htn; try (cbn in Hf; lia).
  - cbn [app]. rewrite cols_enc_cons, <- app_assoc. rewrite <- Htn. rewrite specific_hit by done. done.
  - inversion Hfit as [|?? Hx Hfit']; inversion Hnt as [|?? Hxn Hnt']; subst. cbn [app]. rewrite cols_enc_cons, <- app_assoc.
    rewrite specific_skip by (done || auto). apply IH; try done. cbn [length] in Hf. lia.
Qed.

Lemma cols_enc_count cs : Forall col_fits cs → (length cs <= length (cols_enc e cs))%nat.
Proof.
  induction 1 as [|x cs Hx _ IH]; [done|]. rewrite cols_enc_cons, length_app, length_col_enc. cbn [length]. lia.
Qed.

Lemma specific_fuel cs t r : Forall col_fits cs → (length cs < S (length (cols_enc e (cs ++ [t]) ++ r)))%nat.
Proof.
  intros Hcs. pose proof (cols_enc_count cs Hcs). unfold cols_enc in *. rewrite fmap_app, concat_app, !length_app. lia.
Qed.

Variable t : ColumnMeta.
Variable r : list Z.
Hypothesis Ht : col_fits t.
Hypothesis Htn : cm_name t = TimeField.

(** A round of the loop over a wanted field. *)
Lemma unmarshalSpecific_field cm0 c cs :
  c ≠ TimeField → Forall col_fits cs → Forall (λ x, cm_name x ≠ TimeField) cs →
  match skip_to c cs with
  | x :: cs' =>
      if bool_decide (cm_name x = c) then
        ∃ cm, ColumnMeta_unmarshalSpecific cm0 (cols_enc e (cs ++ [t]) ++ r) segs c = Ok (cm, cols_enc e (cs' ++ [t]) ++ r, true) ∧ col_view cm = stored e x
      else ColumnMeta_unmarshalSpecific cm0 (cols_enc e (cs ++ [t]) ++ r) segs c = Ok (cm0, cols_enc e (skip_to c cs ++ [t]) ++ r, false)
  | [] => ColumnMeta_unmarshalSpecific cm0 (cols_enc e (cs ++ [t]) ++ r) segs c = Ok (cm0, cols_enc e ([] ++ [t]) ++ r, false)
  end.
Proof using Hsegs Ht Htn.
  intros Hc Hfit Hnt. unfold ColumnMeta_unmarshalSpecific.
  rewrite (specific_field c t r cs) by (done || by apply specific_fuel).
  pose proof (skip_to_incl col_fits c cs Hfit) as Hin. destruct (skip_to c cs) as [|x cs'] eqn:E; rs; [done|].
  case_bool_decide as Exc; rs; [|done]. inversion Hin as [|?? Hx _]; subst. destruct Hx as [Hx Hl].
  destruct (unmarshalBody_spec e cm0 x segs (cols_enc e (cs' ++ [t]) ++ r)) as (cm & Hr & Hv); [done..|].
  exists cm. rewrite Hr. by rs.
Qed.

(** The loop over the wanted fields follows [select]; [k] is what is wanted after them. *)
Lemma columns_loop_select want k : ∀ prev cols j cs,
  Forall (λ c, c ≠ TimeField) want → prev ≠ Some TimeField → Forall col_fits cs → Forall (λ x, cm_name x ≠ TimeField) cs →
  (j + length want <= length cols)%nat →
  ∃ prev' cols', let '(out, more) := select want prev cs in
    columns_loop (want ++ k) prev cols j (cols_enc e (cs ++ [t]) ++ r) segs =
    columns_loop k prev' cols' (j + length out) (cols_enc e (more ++ [t]) ++ r) segs ∧
    prev' ≠ Some TimeField ∧ length cols' = length cols ∧ (length out <= length want)%nat ∧
    Forall col_fits more ∧ Forall (λ x, cm_name x ≠ TimeField) more ∧
    col_view <$> take (j + length out) cols' = (col_view <$> take j cols) ++ (stored e <$> out).
Proof using Hsegs Ht Htn.
  induction want as [|c want IH]; intros prev cols j cs Hw Hp Hfit Hnt Hj.
  { exists prev, cols. cbn [select length app fmap list_fmap]. rewrite Nat.add_0_r, app_nil_r. by split_and!. }
  inversion Hw as [|?? Hc Hw']; subst. cbn [length] in Hj. cbn [select app columns_loop].
  assert (Hpc : Some c ≠ Some TimeField) by (by intros [= ->]).
  case_bool_decide as Ep.
  { destruct (IH (Some c) cols j cs) as (prev' & cols' & IH'); try done; [lia|]. exists prev', cols'.
    destruct (select want (Some c) cs) as [out more]. destruct IH' as (-> & ? & ? & ? & IH'). split_and!; try done; cbn [length]; [lia|apply IH'..]. }
  destruct (lookup_lt_is_Some_2 cols j) as [cm0 Hcm0]; [lia|]. rewrite Hcm0.
  pose proof (unmarshalSpecific_field cm0 c cs Hc Hfit Hnt) as Hs.
  pose proof (skip_to_incl _ c _ Hfit) as Hfit'. pose proof (skip_to_incl _ c _ Hnt) as Hnt'.
  assert (Hmiss : ∀ cs2, Forall col_fits cs2 → Forall (λ x, cm_name x ≠ TimeField) cs2 →
    ColumnMeta_unmarshalSpecific cm0 (cols_enc e (cs ++ [t]) ++ r) segs c = Ok (cm0, cols_enc e (cs2 ++ [t]) ++ r, false) →
    ∃ prev' cols', let '(out, more) := select want (Some c) cs2 in
      (let! (cm, src, ok) := ColumnMeta_unmarshalSpecific cm0 (cols_enc e (cs ++ [t]) ++ r) segs c in
       columns_loop (want ++ k) (Some c) (<[j:=cm]> cols) (if ok then S j else j) src segs) =
      columns_loop k prev' cols' (j + length out) (cols_enc e (more ++ [t]) ++ r) segs ∧
      prev' ≠ Some TimeField ∧ length cols' = length cols ∧ (length out <= S (length want))%nat ∧
      Forall col_fits more ∧ Forall (λ x, cm_name x ≠ TimeField) more ∧
      col_view <$> take (j + length out) cols' = (col_view <$> take j cols) ++ (stored e <$> out)).
  { intros cs2 Hf2 Hn2 ->. rs. rewrite list_insert_id by done.
    destruct (IH (Some c) cols j cs2) as (prev' & cols' & IH'); try done; [lia|]. exists prev', cols'.
    destruct (select want (Some c) cs2) as [out more]. destruct IH' as (-> & ? & ? & ? & IH'). split_and!; try done; [lia|apply IH'..]. }
  destruct (skip_to c cs) as [|x cs'] eqn:E; [by apply Hmiss|].
  inversion Hfit'; inversion Hnt'; subst. case_bool_decide as Exc; [|by apply Hmiss].
  destruct Hs as (cm & -> & Hv). rs.
  destruct (IH (Some c) (<[j:=cm]> cols) (S j) cs') as (prev' & cols' & IH'); try done; [rewrite length_insert; lia|]. exists prev', cols'.
  destruct (select want (Some c) cs') as [out more]. destruct IH' as (-> & ? & Hl & ? & ? & ? & Ht').
  rewrite length_insert in Hl. cbn [length]. rewrite Nat.add_succ_r. split_and!; try done; [lia|]. rewrite Nat.add_succ_l in Ht'. rewrite Ht', take_insert_S by lia.
  rewrite fmap_app, <- app_assoc, fmap_cons, Hv. done.
Qed.
End Walk.

(** ** Chunk metas *)

Section Chunk.
Context `{GoRuntime}.

Variable e : bool.

(** The bytes a marshal appends to [dst]. *)
Definition appended (dst out : slice) : list Z := drop (slen dst) (sdata out).

Lemma ChunkMeta_appended m dst : chunk_ok m → appended dst (ChunkMeta_marshal e m dst) = chunk_enc e m.
Proof. intros Hm. unfold appended. rewrite ChunkMeta_marshal_data by apply Hm. apply drop_app_length. Qed.

Lemma unmarshal_spec m0 m r :
  chunk_ok m → ∃ m', ChunkMeta_unmarshal m0 (chunk_enc e m ++ r) = Ok (m', r) ∧ chunk_view m' = stored_chunk e m.
Proof.
  intros Hm. unfold ChunkMeta_unmarshal.
  destruct (unmarshalBaseAttr_spec e m0 m 0 r Hm) as (m1 & -> & Hl & Htr & H1 & H2 & H3 & H4 & H5). rs. cbn [Nat.eqb] in Hl.
  destruct (validation_spec m (ck_valid m Hm)) as (_ & Hs & _ & _).
  destruct (cols_loop_spec e (vis (colMeta m1)) (vis (colMeta m)) (Z.to_nat (segCount m1)) r) as (cs & Hr & Hv).
  - done.
  - apply Hm.
  - rewrite H5, Hs, Nat2Z.id. by apply chunk_ok_segs.
  - rewrite H5, Hs, Nat2Z.id. apply Hm.
  - rewrite Hr. rs. eexists; split; [done|]. unfold chunk_view, stored_chunk, set_colMeta. cbn. by rewrite Hv, Htr, H1, H2, H3, H4, H5.
Qed.

(** The chunk meta of the columns asked for. *)
Definition chosen (e : bool) (m : ChunkMeta) (columns : list string) : ckview :=
  let cs := filter (λ c, cm_name c ∈ columns) (vis (colMeta m)) in
  mk_ckview (sid m) (ck_offset m) (ck_size m) (Z.of_nat (length cs)) (segCount m) (vis (timeRange m)) (stored e <$> cs).

(** The columns in the order of their names, the time last. *)
Definition time_last (m : ChunkMeta) (cs : list ColumnMeta) (t : ColumnMeta) : Prop :=
  vis (colMeta m) = cs ++ [t] ∧ cols_sorted cs ∧ Forall (λ c, cm_name c ≠ TimeField) cs.

Lemma chosen_split m cs t want :
  time_last m cs t → cm_name t = TimeField → Forall (λ c, c ≠ TimeField) want →
  filter (λ c, cm_name c ∈ want ++ [TimeField]) (vis (colMeta m)) = filter (λ c, cm_name c ∈ want) cs ++ [t].
Proof.
  intros (Hm & _ & Hcs) Ht Hw. rewrite Hm, filter_app. f_equal.
  - clear Hm. induction Hcs as [|x cs Hx _ IH]; [done|]. rewrite !filter_cons, IH.
    assert (cm_name x ∈ want ++ [TimeField] ↔ cm_name x ∈ want) as Hiff.
    { rewrite elem_of_app, list_elem_of_singleton. tauto. }
    repeat case_decide; tauto || done.
  - rewrite filter_cons_True; [done|]. rewrite Ht, elem_of_app, list_elem_of_singleton. by right.
Qed.

Lemma unmarshalWith_spec m0 m cs t want r :
  chunk_ok m → time_last m cs t → want ≠ [] → Forall (λ c, c ≠ TimeField) want → wants_sorted want →
  in_u 32 (Z.of_nat (length want) + 1) →
  ∃ m', ChunkMeta_UnmarshalWithColumns m0 (chunk_enc e m ++ r) (want ++ [TimeField]) = Ok (m', r) ∧
    chunk_view m' = chosen e m (want ++ [TimeField]).
Proof.
  intros Hm Htl Hne Hwt Hws Hu. pose proof Htl as (Hcm & Hcs & Hnt).
  assert (Ht : cm_name t = TimeField).
  { pose proof (ck_time m Hm) as E. rewrite Hcm, last_snoc in E. by injection E. }
  destruct want as [|w want]; [done|]. pose proof Hwt as Hwt'. inversion Hwt as [|?? Hw0 _]; subst. unfold ChunkMeta_UnmarshalWithColumns. cbn [app].
  rewrite (bool_decide_false (w = _)) by done. change (w :: want ++ [TimeField]) with ((w :: want) ++ [TimeField]).
  set (ws := w :: want) in *. clearbody ws.
  destruct (unmarshalBaseAttr_spec e m0 m (length (ws ++ [TimeField])) r Hm) as (m1 & -> & Hl & Htr & H1 & H2 & H3 & _ & H5). rs.
  rewrite (proj2 (Nat.eqb_neq _ _)) in Hl by len.
  destruct (validation_spec m (ck_valid m Hm)) as (_ & Hs & _ & _). rewrite H5, Hs, Nat2Z.id, Hcm.
  pose proof (ck_segs m Hm) as Hpos. set (segs := length (vis (timeRange m))) in *.
  assert (Hfit : Forall (col_fits segs) (cs ++ [t])).
  { rewrite <- Hcm. apply Forall_forall. intros c Hc. pose proof (ck_cols m Hm) as Hok. pose proof (chunk_ok_segs m Hm) as Hsg.
    rewrite Forall_forall in Hok. rewrite Forall_forall in Hsg. split; [by apply Hok|by apply Hsg]. }
  rewrite Forall_app, Forall_singleton in Hfit. destruct Hfit as [Hfit Hfitt].
  destruct (columns_loop_select e segs Hpos t r Hfitt Ht ws [TimeField] None (vis (colMeta m1)) 0 cs) as (prev & cols & Hloop); try done.
  { rewrite Hl. len. }
  pose proof (select_spec ws None cs Hws Hcs) as Hsel. destruct (select ws None cs) as [out more]. cbn [fst] in Hsel.
  destruct Hloop as (-> & Hprev & Hlc & Hlo & Hmf & Hmn & Hv). cbn [Nat.add] in *. cbn [columns_loop].
  rewrite bool_decide_false by done. destruct (lookup_lt_is_Some_2 cols (length out)) as [cm0 Hcm0]; [rewrite Hlc, Hl; len|]. rewrite Hcm0.
  unfold ColumnMeta_unmarshalSpecific. rewrite (specific_time e segs Hpos t r more) by (done || by apply (specific_fuel e segs)). rs.
  destruct (unmarshalBody_spec e cm0 t segs r) as (cm & Hb & Hvt); [apply Hfitt..|]. rewrite Ht in Hb. rewrite Hb. rs.
  assert (Hlt : (length out < length cols)%nat) by (rewrite Hlc, Hl; len).
  rewrite vreslice_Ok by (unfold vcap; cbn [vis spare]; rewrite length_insert; lia). rs.
  eexists; split; [done|]. unfold chunk_view, chosen. cbn [sid ck_offset ck_size columnCount segCount timeRange colMeta vis].
  unfold vback. cbn [vis spare]. rewrite take_app_le, take_insert_S, fmap_app, Hv by (rewrite ?length_insert; lia).
  rewrite Htr, H1, H2, H3, Hs, (chosen_split m cs t ws), <- Hsel by (done || (intros ? [=])).
  rewrite fmap_app, length_app. rewrite !list_fmap_singleton, take_0, Hvt. cbn [length app fmap list_fmap]. rewrite wrap_u_id; [|unfold in_u in *; lia].
  f_equal. lia.
Qed.
End Chunk.

(** * Reading back the meta index and the trailer *)

(** ** The meta index *)

Definition mi_ok (m : MetaIndex) : Prop :=
  in_u 64 (mi_id m) ∧ in_s 64 (mi_minTime m) ∧ in_s 64 (mi_maxTime m) ∧ in_s 64 (mi_offset m) ∧ in_u 32 (mi_count m) ∧ in_u 32 (mi_size m).
Definition mi_enc (m : MetaIndex) : list Z :=
  put_u64 (mi_id m) ++ put_u64 (zigzag64 (mi_minTime m)) ++ put_u64 (zigzag64 (mi_maxTime m)) ++
  put_u64 (zigzag64 (mi_offset m)) ++ put_u32 (mi_count m) ++ put_u32 (mi_size m).
Definition mi_detached_enc (m : MetaIndex) : list Z :=
  put_u64 (mi_id m) ++ put_u64 (zigzag64 (mi_minTime m)) ++ put_u64 (zigzag64 (mi_maxTime m)) ++
  put_u64 (zigzag64 (mi_offset m)) ++ put_u32 (mi_size m).

Lemma length_mi_enc m : length (mi_enc m) = 40%nat. Proof. done. Qed.
Lemma length_mi_detached_enc m : length (mi_detached_enc m) = 36%nat. Proof. done. Qed.
#[export] Hint Rewrite length_mi_enc length_mi_detached_enc : gemini_len.

Lemma MetaIndex_marshal_data `{GoRuntime} m dst : sdata (MetaIndex_marshal m dst) = sdata dst ++ mi_enc m.
Proof.
  unfold MetaIndex_marshal, MarshalUint64Append, MarshalInt64Append, MarshalUint32Append. by rewrite !sdata_append, <- !app_assoc.
Qed.
Lemma MetaIndex_marshalDetached_data `{GoRuntime} m dst : sdata (MetaIndex_marshalDetached m dst) = sdata dst ++ mi_detached_enc m.
Proof.
  unfold MetaIndex_marshalDetached, MarshalUint64Append, MarshalInt64Append, MarshalUint32Append. by rewrite !sdata_append, <- !app_assoc.
Qed.

Lemma mi_roundtrip m r : mi_ok m → MetaIndex_unmarshal (mi_enc m ++ r) = Ok (m, r).
Proof.
  intros (H1 & H2 & H3 & H4 & H5 & H6). unfold MetaIndex_unmarshal, MetaIndexLen. long_enough.
  unfold mi_enc. rewrite <- !app_assoc. reads. by destruct m.
Qed.

(** A detached entry does not hold the count; the object keeps the one it has. *)
Lemma mi_detached_roundtrip m0 m r :
  mi_ok m → MetaIndex_unmarshalDetached m0 (mi_detached_enc m ++ r)
            = Ok (mk_MI (mi_id m) (mi_minTime m) (mi_maxTime m) (mi_offset m) (mi_count m0) (mi_size m), r).
Proof.
  intros (H1 & H2 & H3 & H4 & H5 & H6). unfold MetaIndex_unmarshalDetached, DetachedMetaIndexLen. long_enough.
  unfold mi_detached_enc. rewrite <- !app_assoc. reads. done.
Qed.

(** ** The trailer *)

Record trailer_ok (t : Trailer) : Prop := {
  to_nums : in_s 64 (dataOffset t) ∧ in_s 64 (dataSize t) ∧ in_s 64 (indexSize t) ∧ in_s 64 (metaIndexSize t) ∧
            in_s 64 (bloomSize t) ∧ in_s 64 (idTimeSize t);
  to_stat : in_s 64 (idCount (stat t)) ∧ in_u 64 (minId (stat t)) ∧ in_u 64 (maxId (stat t)) ∧ in_s 64 (ts_minTime (stat t)) ∧
            in_s 64 (ts_maxTime (stat t)) ∧ in_s 64 (metaIndexItemNum (stat t)) ∧ in_u 64 (bloomM (stat t)) ∧ in_u 64 (bloomK (stat t));
  to_data : in_u 16 (Z.of_nat (slen (ts_data (stat t))));
  to_name : in_u 16 (Z.of_nat (slen (ts_name (stat t)))) ∧ (0 < slen (ts_name (stat t)))%nat
}.

Definition stat_enc (s : TableStat) : list Z :=
  put_u64 (zigzag64 (idCount s)) ++ put_u64 (minId s) ++ put_u64 (maxId s) ++ put_u64 (zigzag64 (ts_minTime s)) ++
  put_u64 (zigzag64 (ts_maxTime s)) ++ put_u64 (zigzag64 (metaIndexItemNum s)) ++ put_u64 (bloomM s) ++ put_u64 (bloomK s) ++
  put_u16 (Z.of_nat (slen (ts_data s))) ++ sdata (ts_data s) ++ put_u16 (Z.of_nat (slen (ts_name s))) ++ sdata (ts_name s).
Definition trailer_enc (t : Trailer) : list Z :=
  put_u64 (zigzag64 (dataOffset t)) ++ put_u64 (zigzag64 (dataSize t)) ++ put_u64 (zigzag64 (indexSize t)) ++
  put_u64 (zigzag64 (metaIndexSize t)) ++ put_u64 (zigzag64 (bloomSize t)) ++ put_u64 (zigzag64 (idTimeSize t)) ++ stat_enc (stat t).

(** What a reader sees of a trailer. *)
Definition stat_view (s : TableStat) : TableStat :=
  mk_TS (idCount s) (minId s) (maxId s) (ts_minTime s) (ts_maxTime s) (metaIndexItemNum s) (bloomM s) (bloomK s)
    (mk_slice (sdata (ts_data s)) []) (mk_slice (sdata (ts_name s)) []).
Definition trailer_view (t : Trailer) : Trailer :=
  mk_Trailer (dataOffset t) (dataSize t) (indexSize t) (metaIndexSize t) (bloomSize t) (idTimeSize t) (stat_view (stat t)).

Lemma overwrite_all l xs : length l = length xs → overwrite l 0 xs = xs.
Proof. intros Hl. unfold overwrite. rewrite take_0, drop_ge by lia. by rewrite app_nil_l, app_nil_r. Qed.

Lemma assign_bytes_spec b xs : ∃ b', assign_bytes b xs = Ok b' ∧ sdata b' = xs.
Proof.
  unfold assign_bytes. destruct (Nat.ltb_spec (slen b) (length xs)) as [H|H].
  - rewrite reslice_to_Ok by (unfold scap, zeros; cbn [sdata sspare]; len). rs. eexists; split; [done|]. cbn [sdata]. apply overwrite_all.
    unfold sback, zeros. cbn [sdata sspare]. len.
  - rewrite reslice_to_Ok by (pose proof (slen_le_scap b); lia). rs. eexists; split; [done|]. cbn [sdata]. apply overwrite_all.
    pose proof (slen_le_scap b). len.
Qed.

Lemma copy_bytes_spec b xs : ∃ b', copy_bytes b xs = Ok b' ∧ sdata b' = xs.
Proof.
  unfold copy_bytes. destruct (Nat.ltb_spec (scap b) (length xs)) as [H|H].
  - rs. eexists; split; [done|]. cbn [sdata]. apply overwrite_all. unfold zeros. len.
  - rewrite reslice_to_Ok by lia. rs. eexists; split; [done|]. cbn [sdata]. apply overwrite_all. len.
Qed.

Lemma Trailer_marshal_data `{GoRuntime} t dst : trailer_ok t → sdata (Trailer_marshal t dst) = sdata dst ++ trailer_enc t.
Proof.
  intros [_ _ Hd [Hn _]]. unfold Trailer_marshal, TableStat_marshalStat, MarshalUint64Append, MarshalInt64Append, MarshalUint16Append.
  rewrite !sdata_append. rewrite !(wrap_u_id 16) by done. unfold trailer_enc, stat_enc. by rewrite <- !app_assoc.
Qed.

Lemma unmarshalStat_spec s0 t r :
  trailer_ok t → ∃ s, TableStat_unmarshalStat s0 (stat_enc (stat t) ++ r) = Ok (s, r) ∧ stat_view s = stat_view (stat t).
Proof.
  intros [_ (H1 & H2 & H3 & H4 & H5 & H6 & H7 & H8) Hd [Hn _]]. unfold TableStat_unmarshalStat, stat_enc. rewrite <- !app_assoc. reads.
  long_enough. reads. rewrite Nat2Z.id. unfold slen in *. long_enough. rewrite between_app, from_app by done. rs.
  destruct (assign_bytes_spec (ts_data s0) (sdata (ts_data (stat t)))) as (d & -> & Hds). rs. reads. rewrite Nat2Z.id.
  long_enough. rewrite between_app, from_app by done. rs.
  destruct (assign_bytes_spec (ts_name s0) (sdata (ts_name (stat t)))) as (nm & -> & Hns). rs.
  eexists; split; [done|]. unfold stat_view. cbn. by rewrite Hds, Hns.
Qed.

Lemma length_trailer_enc t : length (trailer_enc t) = (116 + slen (ts_data (stat t)) + slen (ts_name (stat t)))%nat.
Proof. unfold trailer_enc, stat_enc, slen. rewrite !length_app. len. Qed.

(** Into whatever trailer a reader from the pool has. *)
Lemma trailer_roundtrip t0 t r :
  trailer_ok t → ∃ t', Trailer_unmarshal t0 (trailer_enc t ++ r) = Ok (t', r) ∧ trailer_view t' = trailer_view t.
Proof.
  intros Ht. unfold Trailer_unmarshal. rewrite (proj2 (Nat.ltb_ge _ _)).
  2: { rewrite length_app, length_trailer_enc. destruct (to_name t Ht) as [_ Hn]. unfold trailerSize. lia. }
  destruct (unmarshalStat_spec (stat t0) t r Ht) as (s & Hs & Hv).
  destruct (to_nums t Ht) as (H1 & H2 & H3 & H4 & H5 & H6). unfold trailer_enc. rewrite <- !app_assoc. reads. rewrite Hs. rs.
  eexists; split; [done|]. unfold trailer_view. cbn. by rewrite Hv.
Qed.

(** copyTo gives the other trailer the same contents. *)
Lemma copyTo_spec t tr : ∃ t', Trailer_copyTo t tr = Ok t' ∧ trailer_view t' = trailer_view t.
Proof.
  unfold Trailer_copyTo. destruct (copy_bytes_spec (ts_data (stat tr)) (sdata (ts_data (stat t)))) as (d & -> & Hd). rs.
  destruct (copy_bytes_spec (ts_name (stat tr)) (sdata (ts_name (stat t)))) as (n & -> & Hn). rs.
  eexists; split; [done|]. unfold trailer_view, stat_view. cbn. by rewrite Hd, Hn.
Qed.

Lemma GetData_view t t' idx def : trailer_view t' = trailer_view t → Trailer_GetData t' idx def = Trailer_GetData t idx def.
Proof.
  intros Hv. assert (Hd : sdata (ts_data (stat t')) = sdata (ts_data (stat t))).
  { apply (f_equal (λ t, sdata (ts_data (stat t)))) in Hv. exact Hv. }
  unfold Trailer_GetData, slen. by rewrite Hd.
Qed.

(** A byte that was set is read, wherever the data ended before. *)
Lemma SetData_spec `{GoRuntime} t idx v :
  ∃ t', Trailer_SetData t idx v = Ok t' ∧ slen (ts_data (stat t')) = (idx + 1)%nat ∧ (∀ def, Trailer_GetData t' idx def = Ok v) ∧
    t' = set_ts_data t (ts_data (stat t')).
Proof.
  unfold Trailer_SetData. set (d := ts_data (stat t)).
  assert (Hg : ∃ d1, (if (scap d <? idx + 1)%nat then let! full := reslice_to d (scap d) in Ok (append full (zeros (idx + 1 - scap d))) else Ok d) = Ok d1 ∧ (idx + 1 <= scap d1)%nat).
  { destruct (Nat.ltb_spec (scap d) (idx + 1)) as [Hl|Hl]; [|eauto]. rewrite reslice_to_full. rs. eexists; split; [done|].
    pose proof (scap_append (mk_slice (sback d) []) (zeros (idx + 1 - scap d))) as Hc. unfold zeros in *. unfold slen in Hc. cbn [sdata] in Hc. len. }
  destruct Hg as (d1 & -> & Hc). rs. rewrite reslice_to_Ok by done. rs. unfold store, slen. cbn [sdata sspare].
  assert (Hl : length (take (idx + 1) (sback d1)) = (idx + 1)%nat) by (rewrite length_take, length_sback; lia).
  rewrite (proj2 (Nat.ltb_lt _ _)) by lia. rs. eexists; split; [done|]. unfold set_ts_data. cbn [stat ts_data sdata].
  rewrite length_insert. split_and!; [done| |done]. intros def. unfold Trailer_GetData, slen. cbn [stat ts_data sdata].
  rewrite length_insert, (proj2 (Nat.ltb_ge _ _)) by lia. apply index_Ok. apply list_lookup_insert_eq. lia.
Qed.
