(* ===== verification/IndexWriter.v ===== *)
(** * engine/immutable: the writers of the chunk metas

    While a file is written its chunk metas are collected beside the data and appended to it at
    the end.  [IndexWriter] is the interface (writer.go, index_writer.go): bytes are written to
    the current block, the block is closed, all closed blocks are copied.  Two writers
    implement it: [indexWriter] keeps the blocks as they are, in memory or in a buffer that
    spills to a swap file; [IndexCompressWriter] compresses every block.

    Writes to the swap file succeed; what was written to it is read back. *)

From S2P Require Import Prelude GoSlice NumberEnc Coder FileMeta FileCodec.

(** ** A buffer in front of a file

    The buffer has room for [bw_size] bytes, [bw_out] is in the file.  This is bufio.Writer, and
    indexWriter has the same loop. *)

Record bufw := mk_bufw { bw_size : nat; bw_buf : list Z; bw_out : list Z }.

Definition bw_available (w : bufw) : nat := (bw_size w - length (bw_buf w))%nat.
Definition bw_flush (w : bufw) : bufw :=
  if (length (bw_buf w) =? 0)%nat then w else mk_bufw (bw_size w) [] (bw_out w ++ bw_buf w).

(** [for len(p) > w.available()]: a full buffer goes to the file, and when the buffer is empty
    the data goes there at once.  Two rounds are the most there can be. *)
Fixpoint bw_loop (fuel : nat) (w : bufw) (p : list Z) (wn : nat) : res (bufw * list Z * nat) :=
  match fuel with
  | O => Diverge
  | S fuel =>
      if (bw_available w <? length p)%nat then
        if (length (bw_buf w) =? 0)%nat then
          bw_loop fuel (mk_bufw (bw_size w) (bw_buf w) (bw_out w ++ p)) [] (wn + length p)
        else
          let n := Nat.min (bw_available w) (length p) in
          let w := mk_bufw (bw_size w) (bw_buf w ++ take n p) (bw_out w) in
          bw_loop fuel (bw_flush w) (drop n p) (wn + n)
      else Ok (w, p, wn)
  end.

Definition bw_write (w : bufw) (p : list Z) : res (bufw * nat) :=
  let! (w, p, wn) := bw_loop 3 w p 0 in
  Ok (mk_bufw (bw_size w) (bw_buf w ++ p) (bw_out w), (wn + length p)%nat).

Definition bw_all (w : bufw) : list Z := bw_out w ++ bw_buf w.

(** ** The interface *)

Class IndexWriter (W : Type) := {
  iw_Write : W → list Z → res (W * nat);
  iw_Size : W → nat;
  iw_BlockSize : W → nat;
  iw_SwitchMetaBuffer : W → res (W * nat);
  iw_CopyTo : W → res (list Z)
}.

(** What the builder of a file relies on: [rep w bs cur] says that [bs] are the blocks closed
    so far, as they will be in the file, and [cur] is what was written since.  A closed block
    [stores] what was written to it. *)
Class IndexWriterLaws (W : Type) `{IndexWriter W} (rep : W → list (list Z) → list Z → Prop)
    (stores : list Z → list Z → Prop) : Prop := {
  iwl_write w bs cur p : rep w bs cur → ∃ w', iw_Write w p = Ok (w', length p) ∧ rep w' bs (cur ++ p);
  iwl_switch w bs cur : rep w bs cur → cur ≠ [] → bytes_ok cur → in_u 32 (Z.of_nat (length cur)) →
    ∃ w' b, iw_SwitchMetaBuffer w = Ok (w', length b) ∧ rep w' (bs ++ [b]) [] ∧ stores b cur;
  iwl_size w bs : rep w bs [] → iw_Size w = length (concat bs);
  iwl_copy w bs : rep w bs [] → bs ≠ [] → iw_CopyTo w = Ok (concat bs)
}.

(** ** indexWriter *)

(** In a cached writer [ix_w] is not used and [ix_buf] is the current block. *)
Record indexWriter := mk_iw {
  ix_cacheMeta : bool; ix_w : bufw; ix_swapper : bool; ix_buf : list Z; ix_metas : list (list Z);
  ix_wn : nat; ix_indexBlockSize : nat }.

Definition DefaultWriterBufferSize : nat := (1024 * 1024)%nat.

Definition indexWriter_Init (cacheMeta : bool) (blockSize : nat) : indexWriter :=
  mk_iw cacheMeta (mk_bufw blockSize [] []) false [] [] 0 0.

(** The swap file is opened by the first write that does not fit. *)
Definition indexWriter_writeBuffer (w : indexWriter) (p : list Z) : res (indexWriter * nat) :=
  let opened := ix_swapper w || (bw_available (ix_w w) <? length p)%nat in
  let! (b, wn) := bw_write (ix_w w) p in
  Ok (mk_iw (ix_cacheMeta w) b opened (ix_buf w) (ix_metas w) (ix_wn w + wn) (ix_indexBlockSize w + wn), wn).

Definition indexWriter_writeCacheBlocks (w : indexWriter) (p : list Z) : res (indexWriter * nat) :=
  Ok (mk_iw (ix_cacheMeta w) (ix_w w) (ix_swapper w) (ix_buf w ++ p) (ix_metas w)
        (ix_wn w + length p) (ix_indexBlockSize w + length p), length p).

Definition indexWriter_Write (w : indexWriter) (p : list Z) : res (indexWriter * nat) :=
  if ix_cacheMeta w then indexWriter_writeCacheBlocks w p else indexWriter_writeBuffer w p.

Definition indexWriter_copyFromCacheTo (w : indexWriter) : list Z :=
  let metas := if (0 <? length (ix_buf w))%nat then ix_metas w ++ [ix_buf w] else ix_metas w in
  concat (filter (λ b, (length b =? 0)%nat = false) metas).

Definition indexWriter_allInBuffer (w : indexWriter) : bool :=
  negb (ix_swapper w) && (length (bw_buf (ix_w w)) <=? ix_wn w)%nat.

(** A writer without a swap file cannot flush. *)
Definition indexWriter_CopyTo (w : indexWriter) : res (list Z) :=
  if ix_cacheMeta w then Ok (indexWriter_copyFromCacheTo w)
  else if indexWriter_allInBuffer w then Ok (bw_buf (ix_w w))
  else if ix_swapper w then Ok (bw_out (bw_flush (ix_w w)))
  else Panic.

Definition indexWriter_SwitchMetaBuffer (w : indexWriter) : res (indexWriter * nat) :=
  let w' := if ix_cacheMeta w then mk_iw true (ix_w w) (ix_swapper w) [] (ix_metas w ++ [ix_buf w]) (ix_wn w) 0
            else mk_iw false (ix_w w) (ix_swapper w) (ix_buf w) (ix_metas w) (ix_wn w) 0 in
  Ok (w', ix_indexBlockSize w).

Definition indexWriter_MetaDataBlocks (w : indexWriter) : list (list Z) :=
  if ix_cacheMeta w then
    let metas := if (0 <? length (ix_buf w))%nat then ix_metas w ++ [ix_buf w] else ix_metas w in
    filter (λ b, (0 <? length b)%nat = true) metas
  else [].

#[export] Instance indexWriter_writer : IndexWriter indexWriter := {|
  iw_Write := indexWriter_Write;
  iw_Size := ix_wn;
  iw_BlockSize := ix_indexBlockSize;
  iw_SwitchMetaBuffer := indexWriter_SwitchMetaBuffer;
  iw_CopyTo := indexWriter_CopyTo |}.

(** ** IndexCompressWriter *)

(** [cw_opened] says that the swapper is there. *)
Record IndexCompressWriter := mk_cw { cw_size : nat; cw_buf : list Z; cw_w : bufw; cw_opened : bool }.

(** The compressed blocks go through a bufio.Writer. *)
Definition IndexCompressWriter_Init (bufferSize : nat) : IndexCompressWriter :=
  mk_cw 0 [] (mk_bufw bufferSize [] []) false.

Definition ChunkMetaCompressSnappy : Z := 1.
Definition ChunkMetaCompressLZ4 : Z := 2.

Definition IndexCompressWriter_Write (w : IndexCompressWriter) (p : list Z) : res (IndexCompressWriter * nat) :=
  Ok (mk_cw (cw_size w) (cw_buf w ++ p) (cw_w w) (cw_opened w), length p).

Section Compress.
Context `{SN : Snappy} `{LZ : Lz4}.

Variable mode : Z.  (* GetChunkMetaCompressMode() *)

(** The bytes; lz4 blocks begin with the length before compression.  lz4.CompressBlock does
    not fail on a buffer of CompressBlockBound bytes. *)
Definition compress (src : list Z) : list Z :=
  if mode =? ChunkMetaCompressSnappy then snappy_encode src
  else if mode =? ChunkMetaCompressLZ4 then put_u32 (u32 (Z.of_nat (length src))) ++ lz4_encode src
  else src.

Definition IndexCompressWriter_SwitchMetaBuffer (w : IndexCompressWriter) : res (IndexCompressWriter * nat) :=
  if (length (cw_buf w) =? 0)%nat then Ok (w, 0%nat)
  else
    let! (b, wn) := bw_write (cw_w w) (compress (cw_buf w)) in
    Ok (mk_cw (cw_size w + wn) [] b true, wn).

Definition IndexCompressWriter_allInBuffer (w : IndexCompressWriter) : bool :=
  (cw_size w <? DefaultWriterBufferSize)%nat && (cw_size w =? length (bw_buf (cw_w w)))%nat.

(** What is still buffered is written to memory, or to the file that is then read. *)
Definition IndexCompressWriter_CopyTo (w : IndexCompressWriter) : res (list Z) :=
  if negb (cw_opened w) then Panic
  else if IndexCompressWriter_allInBuffer w then Ok (bw_buf (cw_w w))
  else Ok (bw_out (bw_flush (cw_w w))).

#[export] Instance IndexCompressWriter_writer : IndexWriter IndexCompressWriter := {|
  iw_Write := IndexCompressWriter_Write;
  iw_Size := cw_size;
  iw_BlockSize := λ _, 0%nat;
  iw_SwitchMetaBuffer := IndexCompressWriter_SwitchMetaBuffer;
  iw_CopyTo := IndexCompressWriter_CopyTo |}.

(** tssp_file.go decompressChunkMeta; lz4 writes into a buffer of the length stored. *)
Definition decompressChunkMeta (src : list Z) : res (list Z) :=
  if mode =? ChunkMetaCompressNone then Ok src
  else if mode =? ChunkMetaCompressSnappy then
    match snappy_decode src with Some l => Ok l | None => Err "snappy: corrupt input" end
  else if mode =? ChunkMetaCompressLZ4 then
    let! oriLen := UnmarshalUint32 src in
    let! src := from src 4 in
    match lz4_decode src with
    | Some l => if (Z.to_nat oriLen <? length l)%nat then Err "lz4: output buffer too small"
                else Ok (l ++ zeros (Z.to_nat oriLen - length l))
    | None => Err "lz4: corrupt input"
    end
  else Err "unsupported compress mode".
End Compress.

(** ** The laws *)

Lemma bw_loop_spec w p :
  (length (bw_buf w) <= bw_size w)%nat →
  ∃ w' q n, bw_loop 3 w p 0 = Ok (w', q, n) ∧ bw_all w' ++ q = bw_all w ++ p ∧ (n + length q)%nat = length p ∧
    (length (bw_buf w') + length q <= bw_size w')%nat ∧ bw_size w' = bw_size w.
Proof.
  intros Hw. cbn [bw_loop]. unfold bw_available, bw_all. destruct w as [size buf out]. cbn [bw_size bw_buf bw_out] in *.
  destruct (Nat.ltb_spec (size - length buf) (length p)) as [H1|H1];
    [|eexists _, _, _; split; [done|]; cbn [bw_size bw_buf bw_out]; split_and!; [done|lia..]].
  destruct (Nat.eqb_spec (length buf) 0) as [H0|H0].
  { apply nil_length_inv in H0 as ->. cbn [length bw_size bw_buf bw_out]. rewrite (proj2 (Nat.ltb_ge _ _)) by lia.
    eexists _, _, _; split; [done|]. cbn [bw_size bw_buf bw_out length]. rewrite !app_nil_r. split_and!; [done|lia..]. }
  unfold bw_flush. cbn [bw_size bw_buf bw_out]. rewrite length_app. rewrite (proj2 (Nat.eqb_neq (length buf + _) 0)) by lia.
  cbn [bw_size bw_buf bw_out length]. set (n := Nat.min (size - length buf) (length p)).
  assert (Hp : out ++ buf ++ take n p ++ drop n p = out ++ buf ++ p) by (by rewrite take_drop).
  destruct (Nat.ltb_spec (size - 0) (length (drop n p))) as [H2|H2].
  - cbn [Nat.eqb length bw_size bw_buf bw_out]. rewrite (proj2 (Nat.ltb_ge _ _)) by lia.
    eexists _, _, _; split; [done|]. cbn [bw_size bw_buf bw_out length]. rewrite !app_nil_r, <- !app_assoc. split_and!; [done| |lia..].
    rewrite length_drop. lia.
  - eexists _, _, _; split; [done|]. cbn [bw_size bw_buf bw_out length]. rewrite app_nil_r, <- !app_assoc. split_and!; [done| |lia..].
    rewrite length_drop. lia.
Qed.

Lemma bw_write_spec w p :
  (length (bw_buf w) <= bw_size w)%nat →
  ∃ w', bw_write w p = Ok (w', length p) ∧ bw_all w' = bw_all w ++ p ∧
    (length (bw_buf w') <= bw_size w')%nat ∧ bw_size w' = bw_size w.
Proof.
  intros Hw. unfold bw_write. destruct (bw_loop_spec w p Hw) as (w1 & q & n & -> & Ha & Hn & Hs & Hz). rs. rewrite Hn.
  eexists; split; [done|]. cbn [bw_size bw_buf bw_out]. split_and!; [|len|done].
  rewrite <- Ha. unfold bw_all. cbn [bw_buf bw_out]. by rewrite app_assoc.
Qed.

(** A write that fits leaves the file alone. *)
Lemma bw_write_fits w p :
  (length p <= bw_available w)%nat → bw_write w p = Ok (mk_bufw (bw_size w) (bw_buf w ++ p) (bw_out w), length p).
Proof. intros Hp. unfold bw_write. cbn [bw_loop]. rewrite (proj2 (Nat.ltb_ge _ _)) by done. done. Qed.

Lemma bw_out_flush w : bw_out (bw_flush w) = bw_all w.
Proof.
  unfold bw_flush, bw_all. destruct (Nat.eqb_spec (length (bw_buf w)) 0) as [H|H]; [|done].
  apply nil_length_inv in H. by rewrite H, app_nil_r.
Qed.

(** *** indexWriter *)

Record iw_rep (w : indexWriter) (bs : list (list Z)) (cur : list Z) : Prop := {
  iwr_cached : ix_cacheMeta w = true → ix_metas w = bs ∧ ix_buf w = cur;
  iwr_plain : ix_cacheMeta w = false → bw_all (ix_w w) = concat bs ++ cur;
  iwr_room : (length (bw_buf (ix_w w)) <= bw_size (ix_w w))%nat;
  iwr_swap : ix_swapper w = false → bw_out (ix_w w) = [];
  iwr_wn : ix_wn w = (length (concat bs) + length cur)%nat;
  iwr_block : ix_indexBlockSize w = length cur
}.

Lemma indexWriter_Init_rep cacheMeta blockSize : iw_rep (indexWriter_Init cacheMeta blockSize) [] [].
Proof. split; cbn; try done; lia. Qed.

Lemma iw_write_rep w bs cur p :
  iw_rep w bs cur → ∃ w', indexWriter_Write w p = Ok (w', length p) ∧ iw_rep w' bs (cur ++ p).
Proof.
  intros [Hc Hp Hr Hs Hw Hb]. unfold indexWriter_Write. destruct (ix_cacheMeta w) eqn:E.
  - destruct Hc as [Hm Hbuf]; [done|]. unfold indexWriter_writeCacheBlocks. eexists; split; [done|].
    split; cbn; try done; [by rewrite Hbuf|congruence|len..].
  - unfold indexWriter_writeBuffer. destruct (bw_write_spec (ix_w w) p Hr) as (b & Hb1 & Ha & Hl & Hz).
    rewrite Hb1. rs. eexists; split; [done|]. split; cbn; try done; [congruence| | |len..].
    + intros _. by rewrite Ha, Hp, <- app_assoc.
    + intros [Hsw Hav]%orb_false_iff. apply Nat.ltb_ge in Hav. rewrite bw_write_fits in Hb1 by done. injection Hb1 as <-. by apply Hs.
Qed.

Lemma iw_switch_rep w bs cur :
  iw_rep w bs cur → ∃ w', indexWriter_SwitchMetaBuffer w = Ok (w', length cur) ∧ iw_rep w' (bs ++ [cur]) [].
Proof.
  intros [Hc Hp Hr Hs Hw Hb]. unfold indexWriter_SwitchMetaBuffer. rewrite Hb. eexists; split; [done|].
  assert (Hcat : concat (bs ++ [cur]) = concat bs ++ cur) by (rewrite concat_app; cbn; by rewrite app_nil_r).
  destruct (ix_cacheMeta w) eqn:E; split; cbn; rewrite ?Hcat, ?app_nil_r, ?length_app; try done; try lia.
  intros _. by destruct Hc as [-> ->].
Qed.

Lemma iw_copy_rep w bs : iw_rep w bs [] → indexWriter_CopyTo w = Ok (concat bs).
Proof.
  intros [Hc Hp Hr Hs Hw Hb]. unfold indexWriter_CopyTo. destruct (ix_cacheMeta w) eqn:E.
  - destruct Hc as [Hm Hbuf]; [done|]. unfold indexWriter_copyFromCacheTo. rewrite Hbuf, Hm. cbn [length Nat.ltb Nat.leb]. f_equal.
    clear. induction bs as [|b bs IH]; [done|]. rewrite filter_cons. destruct b as [|x b].
    + rewrite decide_False by done. exact IH.
    + rewrite decide_True by done. cbn [concat]. by rewrite IH.
  - specialize (Hp eq_refl). rewrite app_nil_r in Hp. unfold indexWriter_allInBuffer. destruct (ix_swapper w) eqn:Esw; cbn [negb andb].
    + by rewrite bw_out_flush, Hp.
    + unfold bw_all in Hp. rewrite (Hs eq_refl), app_nil_l in Hp. rewrite Hp, (proj2 (Nat.leb_le _ _)) by (rewrite Hw; cbn; lia). done.
Qed.

#[export] Instance indexWriter_laws : IndexWriterLaws indexWriter iw_rep eq.
Proof.
  split.
  - apply iw_write_rep.
  - intros w bs cur Hr _ _ _. destruct (iw_switch_rep w bs cur Hr) as (w' & ? & ?). eauto.
  - intros w bs Hr. cbn. rewrite (iwr_wn w bs [] Hr). cbn. lia.
  - intros w bs Hr _. by apply iw_copy_rep.
Qed.

(** *** IndexCompressWriter *)

Record cw_rep (w : IndexCompressWriter) (bs : list (list Z)) (cur : list Z) : Prop := {
  cwr_buf : cw_buf w = cur;
  cwr_all : bw_all (cw_w w) = concat bs;
  cwr_room : (length (bw_buf (cw_w w)) <= bw_size (cw_w w))%nat;
  cwr_size : cw_size w = length (concat bs);
  cwr_open : bs ≠ [] → cw_opened w = true
}.

Lemma IndexCompressWriter_Init_rep bufferSize : cw_rep (IndexCompressWriter_Init bufferSize) [] [].
Proof. split; cbn; try done; lia. Qed.

Section CompressLaws.
Context `{SL : SnappyLaws} `{LL : Lz4Laws}.

Variable mode : Z.
Hypothesis Hmode : mode = ChunkMetaCompressSnappy ∨ mode = ChunkMetaCompressLZ4.

(** A compressed block is read back. *)
Lemma decompress_compress l :
  bytes_ok l → in_u 32 (Z.of_nat (length l)) → decompressChunkMeta mode (compress mode l) = Ok l.
Proof using All.
  intros Hl Hn. unfold decompressChunkMeta, compress. unfold ChunkMetaCompressNone, ChunkMetaCompressSnappy, ChunkMetaCompressLZ4 in *.
  destruct Hmode as [-> | ->]; cbn [Z.eqb Pos.eqb].
  - by rewrite snappy_roundtrip.
  - rewrite wrap_u_id by done. rewrite read_uint32 by done. rs. rewrite skip_u32. rs. rewrite lz4_roundtrip by done.
    rewrite Nat2Z.id, (proj2 (Nat.ltb_ge _ _)), Nat.sub_diag by lia. cbn. by rewrite app_nil_r.
Qed.

Lemma compress_writer_laws :
  @IndexWriterLaws IndexCompressWriter (IndexCompressWriter_writer mode) cw_rep (λ b cur, decompressChunkMeta mode b = Ok cur).
Proof using All.
  split.
  - intros w bs cur p [Hb Ha Hr Hz Ho]. cbn. unfold IndexCompressWriter_Write. eexists; split; [done|]. split; cbn; try done. by rewrite Hb.
  - intros w bs cur [Hb Ha Hr Hz Ho] Hne Hok Hlen. cbn. unfold IndexCompressWriter_SwitchMetaBuffer. rewrite Hb.
    rewrite (proj2 (Nat.eqb_neq _ _)) by (by destruct cur).
    destruct (bw_write_spec (cw_w w) (compress mode cur) Hr) as (b & -> & Ha' & Hr' & _). rs.
    exists (mk_cw (cw_size w + length (compress mode cur)) [] b true), (compress mode cur). split; [done|]. split; [|by apply decompress_compress].
    assert (Hcat : concat (bs ++ [compress mode cur]) = concat bs ++ compress mode cur) by (rewrite concat_app; cbn; by rewrite app_nil_r).
    split; cbn; try done; rewrite Hcat; [by rewrite Ha', Ha|rewrite length_app; lia].
  - intros w bs Hr. apply Hr.
  - intros w bs [Hb Ha Hr Hz Ho] Hne. cbn. unfold IndexCompressWriter_CopyTo. rewrite (Ho Hne). cbn [negb].
    destruct (IndexCompressWriter_allInBuffer w) eqn:E.
    + unfold IndexCompressWriter_allInBuffer in E. apply andb_true_iff in E as [_ E]. apply Nat.eqb_eq in E.
      unfold bw_all in Ha. assert (Hl : length (bw_out (cw_w w)) = 0%nat).
      { apply (f_equal length) in Ha. rewrite length_app in Ha. lia. }
      apply nil_length_inv in Hl. rewrite Hl, app_nil_l in Ha. by rewrite Ha.
    + by rewrite bw_out_flush, Ha.
Qed.
End CompressLaws.
