(* ===== verification/FileBuild.v ===== *)
(** * engine/immutable: writing a file and finding a series in it

    msbuilder.go builds a file chunk by chunk: header, data of the chunks, blocks of chunk metas,
    meta index, bloom filter of the series ids, times of the ids, trailer, footer.
    tssp_file.go and reader.go open the bytes and search them.

    The chunk that EncodeChunk makes of a record is an argument ([EncodedChunk]), and so are the
    bytes of the id times, which IdTimes.v computes; files are byte lists and reads of bytes that are there succeed.
    Blocks kept in memory and the page cache are left out. *)

From Stdlib Require String.
From stdpp Require Import gmap.
From S2P Require Import Prelude GoString GoSlice NumberEnc Bitmap ColVal TimeSearch Record RecordSort Coder FileMeta FileCodec IndexWriter.

(** ** Parameters *)

(** github.com/influxdata/influxdb/pkg/bloom, at the false positive rate of table.go, and the
    order in which a map is iterated. *)
Class BloomEnv := {
  bloom_Estimate : Z → Z * Z;
  bloom_NewFilterBuffer : list Z → Z → bool;
  bloom_Insert : Z → list Z → list Z → list Z;
  bloom_Contains : Z → list Z → list Z → bool;
  key_order : list Z → list Z
}.

(** No false negatives; a filter needs a buffer whose length is a power of two. *)
Class BloomLaws `(BloomEnv) : Prop := {
  bloom_estimate_range n : in_u 64 (fst (bloom_Estimate n)) ∧ fst (bloom_Estimate n) ≤ 2 ^ 60 ∧ in_u 64 (snd (bloom_Estimate n));
  bloom_new k j buf : 3 ≤ j → Z.of_nat (length buf) = 2 ^ j → bloom_NewFilterBuffer buf k = true;
  bloom_insert_length k buf v : length (bloom_Insert k buf v) = length buf;
  bloom_insert_bytes k buf v : bytes_ok buf → bytes_ok (bloom_Insert k buf v);
  bloom_insert_in k buf v : bloom_Contains k (bloom_Insert k buf v) v = true;
  bloom_insert_mono k buf v u : bloom_Contains k buf u = true → bloom_Contains k (bloom_Insert k buf v) u = true;
  key_order_perm l : key_order l ≡ₚ l
}.

(** What EncodeChunk leaves behind: the bytes, and the chunk meta and time bounds of the
    chunk builder. *)
Record EncodedChunk := mk_EC { ec_bytes : list Z; ec_meta : ChunkMeta; ec_minT : Z; ec_maxT : Z }.

Record Config := mk_Config { maxChunkMetaItemSize : nat; maxChunkMetaItemCount : nat }.
Definition CompressModMaxChunkMetaItemCount : nat := 16%nat.

Definition tableMagic : string := "53ac2021".
Definition version : Z := 2.
Definition fileHeader : list Z := string_bytes tableMagic ++ put_u64 version.
Definition fileHeaderSize : nat := 16%nat.

(** table.go pow2: [for i := uint64(8); i < 1<<62; i *= 2]. *)
Fixpoint pow2_loop (fuel : nat) (i v : Z) : res Z :=
  match fuel with
  | O => Panic
  | S fuel => if v <=? i then Ok i else pow2_loop fuel (i * 2) v
  end.
Definition pow2 (v : Z) : res Z := pow2_loop 59 8 v.

(** ** The builder *)

(** sequencer.go: the ids, last times and rows of the chunks.  [s[:0]] keeps the array. *)
Definition vclear {A} (s : vslice A) : vslice A := mk_vs [] (vback s).

Record IdTimePairs := mk_pair { p_Name : string; p_Ids : vslice Z; p_Tms : vslice Z; p_Rows : vslice Z }.
Definition IdTimePairs0 : IdTimePairs := mk_pair "" vnil vnil vnil.
Definition IdTimePairs_Add `{GoRuntime} (p : IdTimePairs) (id tm : Z) : IdTimePairs :=
  mk_pair (p_Name p) (vappend 0 (p_Ids p) [id]) (vappend 0 (p_Tms p) [tm]) (p_Rows p).
Definition IdTimePairs_AddRowCounts `{GoRuntime} (p : IdTimePairs) (rowCounts : Z) : IdTimePairs :=
  mk_pair (p_Name p) (p_Ids p) (p_Tms p) (vappend 0 (p_Rows p) [rowCounts]).
Definition IdTimePairs_Reset (p : IdTimePairs) (name : string) : IdTimePairs :=
  mk_pair name (vclear (p_Ids p)) (vclear (p_Tms p)) (vclear (p_Rows p)).

Section Builder.
Context `{RT : GoRuntime} `{BE : BloomEnv} {W : Type} `{IW : IndexWriter W}.

(** [PreAggEnabled] and GetChunkMetaCompressMode() *)
Variables (PreAggEnabled : bool) (mode : Z) (conf : Config) (timeSorted : bool).

Record MsBuilder := mk_MsBuilder {
  b_inited : bool;
  b_data : list Z;                 (* diskFileWriter: the bytes written *)
  b_cmw : W;                       (* its writer of chunk metas *)
  b_dataOffset : Z;
  b_mIndex : MetaIndex;
  b_currentCMOffset : nat;
  b_cmOffset : list Z;
  b_metaIndexItems : list MetaIndex;
  b_trailer : Trailer;
  b_keys : list Z;                 (* a set of ids, in the order they came *)
  b_pair : IdTimePairs;
  b_bloomFilter : list Z;
  b_msName : string
}.

Definition set_mIndex (b : MsBuilder) (mi : MetaIndex) (cur : nat) : MsBuilder :=
  mk_MsBuilder (b_inited b) (b_data b) (b_cmw b) (b_dataOffset b) mi cur (b_cmOffset b) (b_metaIndexItems b)
    (b_trailer b) (b_keys b) (b_pair b) (b_bloomFilter b) (b_msName b).
Definition set_pair (b : MsBuilder) (p : IdTimePairs) : MsBuilder :=
  mk_MsBuilder (b_inited b) (b_data b) (b_cmw b) (b_dataOffset b) (b_mIndex b) (b_currentCMOffset b) (b_cmOffset b)
    (b_metaIndexItems b) (b_trailer b) (b_keys b) p (b_bloomFilter b) (b_msName b).
Definition set_trailer (b : MsBuilder) (t : Trailer) (keys : list Z) : MsBuilder :=
  mk_MsBuilder (b_inited b) (b_data b) (b_cmw b) (b_dataOffset b) (b_mIndex b) (b_currentCMOffset b) (b_cmOffset b)
    (b_metaIndexItems b) t keys (b_pair b) (b_bloomFilter b) (b_msName b).
Definition set_data (b : MsBuilder) (d : list Z) : MsBuilder :=
  mk_MsBuilder (b_inited b) d (b_cmw b) (b_dataOffset b) (b_mIndex b) (b_currentCMOffset b) (b_cmOffset b)
    (b_metaIndexItems b) (b_trailer b) (b_keys b) (b_pair b) (b_bloomFilter b) (b_msName b).

Definition getMinMaxTime (ec : EncodedChunk) : res (Z * Z) :=
  if timeSorted then ChunkMeta_MinMaxTime (ec_meta ec) else Ok (ec_minT ec, ec_maxT ec).

Definition needSwitchChunkMeta (size count : nat) : bool :=
  let maxCount := if negb (mode =? ChunkMetaCompressNone) then CompressModMaxChunkMetaItemCount else maxChunkMetaItemCount conf in
  (maxChunkMetaItemSize conf <=? size)%nat || (maxCount <=? count)%nat.

Definition WriteChunkMeta (b : MsBuilder) (cm : ChunkMeta) : res MsBuilder :=
  let enc := sdata (ChunkMeta_marshal PreAggEnabled cm nil_slice) in
  let! (w, wn) := iw_Write (b_cmw b) enc in
  if negb (wn =? length enc)%nat then Err "short write"
  else Ok (mk_MsBuilder (b_inited b) (b_data b) w (b_dataOffset b) (b_mIndex b) (b_currentCMOffset b + length enc)
             (b_cmOffset b ++ [u32 (Z.of_nat (b_currentCMOffset b))]) (b_metaIndexItems b)
             (b_trailer b) (b_keys b) (b_pair b) (b_bloomFilter b) (b_msName b)).

Definition SwitchChunkMeta (b : MsBuilder) : res MsBuilder :=
  let! offBytes := MarshalUint32SliceAppend nil_slice (b_cmOffset b) in
  let! (w, _) := iw_Write (b_cmw b) (sdata offBytes) in
  let! (w, size) := iw_SwitchMetaBuffer w in
  let mi := b_mIndex b in
  let mi := mk_MI (mi_id mi) (mi_minTime mi) (mi_maxTime mi) (mi_offset mi) (mi_count mi) (u32 (Z.of_nat size)) in
  Ok (mk_MsBuilder (b_inited b) (b_data b) w (b_dataOffset b) MetaIndex_reset (b_currentCMOffset b) []
        (b_metaIndexItems b ++ [mi]) (b_trailer b) (b_keys b) (b_pair b) (b_bloomFilter b) (b_msName b)).

Definition writeToDisk (b : MsBuilder) (encodeChunk : list Z) (ec : EncodedChunk) (rowCounts : Z) : res MsBuilder :=
  let b := set_data b (b_data b ++ encodeChunk) in
  let cm := ec_meta ec in
  let! (minT, maxT) := getMinMaxTime ec in
  let b := if mi_count (b_mIndex b) =? 0
           then set_mIndex b (mk_MI (sid cm) minT maxT (Z.of_nat (iw_Size (b_cmw b))) 0 0) 0
           else b in
  let b := set_pair b (IdTimePairs_AddRowCounts (IdTimePairs_Add (b_pair b) (sid cm) maxT) rowCounts) in
  let! b := WriteChunkMeta b cm in
  let mi := b_mIndex b in
  let mi := mk_MI (mi_id mi) (if minT <? mi_minTime mi then minT else mi_minTime mi)
              (if mi_maxTime mi <? maxT then maxT else mi_maxTime mi) (mi_offset mi) (u32 (mi_count mi + 1)) (mi_size mi) in
  let b := set_mIndex b mi (b_currentCMOffset b) in
  if needSwitchChunkMeta (iw_BlockSize (b_cmw b)) (Z.to_nat (mi_count mi)) then SwitchChunkMeta b else Ok b.

(** The statistics of the trailer after a chunk of series [id]. *)
Definition stat_write (s : TableStat) (id minT maxT : Z) : TableStat :=
  let s := if idCount s =? 0
           then mk_TS 0 id (maxId s) minT maxT (metaIndexItemNum s) (bloomM s) (bloomK s) (ts_data s) (ts_name s)
           else s in
  mk_TS (i64 (idCount s + 1)) (minId s) id (if minT <? ts_minTime s then minT else ts_minTime s)
    (if ts_maxTime s <? maxT then maxT else ts_maxTime s) (metaIndexItemNum s) (bloomM s) (bloomK s) (ts_data s) (ts_name s).

Definition with_stat (t : Trailer) (s : TableStat) : Trailer :=
  mk_Trailer (dataOffset t) (dataSize t) (indexSize t) (metaIndexSize t) (bloomSize t) (idTimeSize t) s.

Definition WriteData (b : MsBuilder) (id : Z) (ec : EncodedChunk) (rows : Z) : res MsBuilder :=
  let mx := maxId (stat (b_trailer b)) in
  if negb (mx =? 0) && (id <=? mx) then Err "series id must be greater"
  else
    let header := if b_inited b then [] else fileHeader in
    let b := if b_inited b then b
             else mk_MsBuilder true (b_data b) (b_cmw b) (Z.of_nat (length header)) (b_mIndex b) (b_currentCMOffset b) []
                    (b_metaIndexItems b) (b_trailer b) (b_keys b) (IdTimePairs_Reset (b_pair b) (b_msName b)) (b_bloomFilter b) (b_msName b) in
    let b := mk_MsBuilder (b_inited b) (b_data b) (b_cmw b) (i64 (b_dataOffset b + ck_size (ec_meta ec))) (b_mIndex b)
               (b_currentCMOffset b) (b_cmOffset b) (b_metaIndexItems b) (b_trailer b) (b_keys b) (b_pair b) (b_bloomFilter b) (b_msName b) in
    let! b := writeToDisk b (header ++ ec_bytes ec) ec rows in
    let! (minT, maxT) := getMinMaxTime ec in
    let keys := if bool_decide (id ∈ b_keys b) then b_keys b else b_keys b ++ [id] in
    Ok (set_trailer b (with_stat (b_trailer b) (stat_write (stat (b_trailer b)) id minT maxT)) keys).

Definition genBloomFilter (b : MsBuilder) : res MsBuilder :=
  let '(bm, bk) := bloom_Estimate (Z.of_nat (length (b_keys b))) in
  let! bmBytes := pow2 (u64 (bm + 7) / 8) in
  let s := stat (b_trailer b) in
  let s := mk_TS (idCount s) (minId s) (maxId s) (ts_minTime s) (ts_maxTime s) (metaIndexItemNum s) bm bk (ts_data s) (ts_name s) in
  let bf := fold_left (λ bf id, bloom_Insert bk bf (put_u64 id)) (key_order (b_keys b)) (zeros (Z.to_nat bmBytes)) in
  Ok (mk_MsBuilder (b_inited b) (b_data b) (b_cmw b) (b_dataOffset b) (b_mIndex b) (b_currentCMOffset b) (b_cmOffset b)
        (b_metaIndexItems b) (with_stat (b_trailer b) s) (b_keys b) (b_pair b) bf (b_msName b)).

(** The meta index: offsets become offsets in the file. *)
Definition shift_index (metaOff : Z) (m : MetaIndex) : MetaIndex :=
  mk_MI (mi_id m) (mi_minTime m) (mi_maxTime m) (i64 (mi_offset m + metaOff)) (mi_count m) (mi_size m).
Definition index_bytes (items : list MetaIndex) : list Z :=
  concat ((λ m, sdata (MetaIndex_marshal m nil_slice)) <$> items).

(** [encIdTime] is what pair.Marshal returned.  The file and the builder.  Before the id times are
    written Flush reports the pair to the sequencer, if there is one: that is
    BatchUpdateCheckTime of Sequencer.v on [b_pair], an operation of its own. *)
Definition Flush (b : MsBuilder) (encIdTime : list Z) : res (list Z * MsBuilder) :=
  if (length (b_data b) <=? 16)%nat then Err "empty file"
  else
    let! b := if 0 <? mi_count (b_mIndex b) then SwitchChunkMeta b else Ok b in
    let! b := genBloomFilter b in
    let t := b_trailer b in
    let dOff := Z.of_nat fileHeaderSize in
    let metaOff := Z.of_nat (length (b_data b)) in
    let dSize := metaOff - dOff in
    let iSize := Z.of_nat (iw_Size (b_cmw b)) in
    let! metas := iw_CopyTo (b_cmw b) in
    if negb (length metas =? iw_Size (b_cmw b))%nat then Err "copy chunkmeta to data fail"
    else
      let data := b_data b ++ metas in
      let miOff := Z.of_nat (length data) in
      let items := shift_index metaOff <$> b_metaIndexItems b in
      let data := data ++ index_bytes items in
      let mSize := Z.of_nat (length data) - miOff in
      let data := data ++ b_bloomFilter b in
      let data := data ++ encIdTime in
      let s := stat t in
      let s := mk_TS (idCount s) (minId s) (maxId s) (ts_minTime s) (ts_maxTime s) (Z.of_nat (length items)) (bloomM s) (bloomK s) (ts_data s) (ts_name s) in
      let t := mk_Trailer dOff dSize iSize mSize (Z.of_nat (length (b_bloomFilter b))) (Z.of_nat (length encIdTime)) s in
      let! t := Trailer_SetChunkMetaCompressFlag mode t in
      let trailerOffset := Z.of_nat (length data) in
      let data := data ++ sdata (Trailer_marshal t nil_slice) in
      let data := data ++ sdata (MarshalInt64Append nil_slice trailerOffset) in
      Ok (data, mk_MsBuilder (b_inited b) data (b_cmw b) (b_dataOffset b) (b_mIndex b) (b_currentCMOffset b) (b_cmOffset b)
                  items t (b_keys b) (b_pair b) (b_bloomFilter b) (b_msName b)).
End Builder.
Arguments MsBuilder W : clear implicits.
