(* ===== verification/FileRead.v ===== *)
(** * engine/immutable: opening a file and searching it

    tssp_file.go and reader.go: NewTSSPFileReader, the loading of the meta index, the search for
    the block of a series and for its chunk meta in the block. *)

From Stdlib Require String.
From S2P Require Import Prelude GoString GoSlice NumberEnc Bitmap ColVal TimeSearch Record RecordSort Coder FileMeta FileCodec IndexWriter FileBuild.

(** lib/fileops/fs_reader.go ReadAt, on the bytes of the file. *)
Definition ReadAt (file : list Z) (off : Z) (size : Z) : res (list Z) :=
  if size <? 1 then Ok []
  else if (off <? 0) || (Z.of_nat (length file) <? off) then Err "invalid read offset"
  else
    let l := take (Z.to_nat size) (drop (Z.to_nat off) file) in
    if Z.of_nat (length l) <? size then Err "short read" else Ok l.

Definition minTableSize : Z := Z.of_nat (length (string_bytes tableMagic) + trailerSize) + 8 + 8.

(** An opened file. *)
Record tsspFileReader := mk_reader {
  r_file : list Z; r_version : Z; r_trailerOffset : Z; r_trailer : Trailer;
  r_bloom : list Z; r_metaIndexItems : list MetaIndex; r_chunkMetaCompressMode : Z }.

(** [tr0] is the trailer of a reader from the pool. *)
Definition NewTSSPFileReader (tr0 : Trailer) (file : list Z) : res tsspFileReader :=
  let size := Z.of_nat (length file) in
  if size <? minTableSize then Err "invalid file size"
  else
    let! hb := ReadAt file 0 (Z.of_nat fileHeaderSize) in
    let! magic := between hb 0 8 in
    if negb (bool_decide (bytes_string magic = tableMagic)) then Err "invalid file magic"
    else
      let! vb := from hb 8 in
      let! ver := UnmarshalUint64 vb in
      let! fb := ReadAt file (size - 8) 8 in
      let! trailOff := UnmarshalInt64 fb in
      if (trailOff <? 0) || (size - 8 <? trailOff) then Err "invalid file footer offset"
      else
        let trSize := size - 8 - trailOff in
        let! tb := ReadAt file trailOff (u32 trSize) in
        let! (tr, _) := Trailer_unmarshal tr0 tb in
        Ok (mk_reader file ver trailOff tr [] [] ChunkMetaCompressNone).

Section Read.
Context `{RT : GoRuntime} `{BE : BloomEnv} `{SN : Snappy} `{LZ : Lz4}.

(** ** Loading *)

Definition loadBloomFilter (r : tsspFileReader) : res tsspFileReader :=
  let tr := r_trailer r in
  let bloomOff := i64 (fst (Trailer_metaIndexOffsetSize tr) + metaIndexSize tr) in
  let! bb := ReadAt (r_file r) bloomOff (u32 (bloomSize tr)) in
  if bloom_NewFilterBuffer bb (bloomK (stat tr))
  then Ok (mk_reader (r_file r) (r_version r) (r_trailerOffset r) tr bb (r_metaIndexItems r) (r_chunkMetaCompressMode r))
  else Err "new bloom filter fail".

(** [for i := range r.metaIndexItems]; the items are new here. *)
Fixpoint index_loop (n : nat) (buf : list Z) : res (list MetaIndex) :=
  match n with
  | O => Ok []
  | S n =>
      let! (m, buf) := MetaIndex_unmarshal buf in
      let! ms := index_loop n buf in
      Ok (m :: ms)
  end.

Definition loadMetaIndex (r : tsspFileReader) : res tsspFileReader :=
  if negb (length (r_metaIndexItems r) =? 0)%nat then Ok r
  else
    let '(off, size) := Trailer_metaIndexOffsetSize (r_trailer r) in
    let! buf := ReadAt (r_file r) off (u32 size) in
    if metaIndexItemNum (stat (r_trailer r)) <? 0 then Panic
    else
      let! items := index_loop (Z.to_nat (metaIndexItemNum (stat (r_trailer r)))) buf in
      Ok (mk_reader (r_file r) (r_version r) (r_trailerOffset r) (r_trailer r) (r_bloom r) items (r_chunkMetaCompressMode r)).

Definition LoadComponents (r : tsspFileReader) : res tsspFileReader :=
  let! r := loadBloomFilter r in
  let! r := loadMetaIndex r in
  let! md := Trailer_GetData (r_trailer r) IndexOfChunkMetaCompressFlag ChunkMetaCompressNone in
  Ok (mk_reader (r_file r) (r_version r) (r_trailerOffset r) (r_trailer r) (r_bloom r) (r_metaIndexItems r) md).

(** ** The block of a series *)

(** reader.go searchMetaIndexItem: [for left < right]; [None] is an index out of range.  The
    interval gets shorter in every round. *)
Fixpoint search_item_loop (fuel : nat) (items : list MetaIndex) (id : Z) (left_ right_ : Z) : res Z :=
  match fuel with
  | O => Diverge
  | S fuel =>
      if left_ <? right_ then
        let mid := (left_ + right_) ≫ 1 in
        match items !! Z.to_nat mid, items !! Z.to_nat (mid + 1) with
        | Some m, Some m1 =>
            if (id =? mi_id m) || ((mi_id m <? id) && (id <? mi_id m1)) then Ok mid
            else if id =? mi_id m1 then Ok (mid + 1)
            else if id <? mi_id m then search_item_loop fuel items id left_ mid
            else if mi_id m1 <? id then search_item_loop fuel items id (mid + 1) right_
            else search_item_loop fuel items id left_ right_
        | _, _ => Panic
        end
      else
        match items !! Z.to_nat left_ with
        | Some m => Ok (if mi_id m <=? id then left_ else -1)
        | None => Panic
        end
  end.

Definition searchMetaIndexItem (items : list MetaIndex) (id : Z) : res Z :=
  search_item_loop (S (length items)) items id 0 (Z.of_nat (length items) - 1).

(** The position of the block and the block, if the file may have the series in the range. *)
Definition reader_MetaIndex (r : tsspFileReader) (id tmin tmax : Z) : res (Z * option MetaIndex) :=
  let s := stat (r_trailer r) in
  if (id <? minId s) || (maxId s <? id) then Ok (0, None)
  else
    let! idx := searchMetaIndexItem (r_metaIndexItems r) id in
    if idx <? 0 then Ok (-1, None)
    else
      match r_metaIndexItems r !! Z.to_nat idx with
      | None => Panic
      | Some m =>
          if negb (TimeRange_Overlaps tmin tmax (mi_minTime m) (mi_maxTime m)) then Ok (0, None)
          else Ok (idx, Some m)
      end.

Definition reader_Contains (r : tsspFileReader) (id tmin tmax : Z) : bool :=
  if negb (Trailer_ContainsId (r_trailer r) id) || negb (Trailer_ContainsTime (r_trailer r) tmin tmax) then false
  else bloom_Contains (bloomK (stat (r_trailer r))) (r_bloom r) (put_u64 id).

(** ** The chunk meta in a block *)

Definition ReadMetaBlock (r : tsspFileReader) (offset size : Z) : res (list Z) :=
  let end_ := i64 (offset + size) in
  let '(mOff, mSize) := Trailer_metaOffsetSize (r_trailer r) in
  if (offset <? mOff) || (i64 (mOff + mSize) <? end_) then Err "invalid read meta offset"
  else
    let! rb := ReadAt (r_file r) offset size in
    decompressChunkMeta (r_chunkMetaCompressMode r) rb.

Definition chunkMetaDataAndOffsets (src : list Z) (itemCount : Z) : res (list Z * list Z) :=
  if Z.of_nat (length src) <? Z.of_nat (ChunkMetaMinLen + 4) * itemCount then Err "too smaller data for chunk meta block"
  else
    let off := (4 * Z.to_nat itemCount)%nat in
    let n := (length src - off)%nat in
    let! tail := from src n in
    let! offs := UnmarshalUint32Slice tail in
    Ok (take n src, offs).

(** searchChunkMeta: [for left < right]; the bytes of the chunk meta of [id], none if there is
    no such series. *)
Fixpoint search_meta_loop (fuel : nat) (data : list Z) (offsets : list Z) (id : Z) (left_ right_ : nat) : res (list Z) :=
  match fuel with
  | O => Diverge
  | S fuel =>
      if (left_ <? right_)%nat then
        let mid := ((left_ + right_) / 2)%nat in
        match offsets !! mid with
        | None => Panic
        | Some off =>
            let! idb := between data (Z.to_nat off) (Z.to_nat (u32 (off + 8))) in
            let! curtId := UnmarshalUint64 idb in
            if id =? curtId then
              if (mid =? length offsets - 1)%nat then from data (Z.to_nat off)
              else
                match offsets !! (mid + 1)%nat with
                | Some off1 => between data (Z.to_nat off) (Z.to_nat off1)
                | None => Panic
                end
            else if id <? curtId then search_meta_loop fuel data offsets id left_ mid
            else search_meta_loop fuel data offsets id (mid + 1) right_
        end
      else Ok []
  end.

(** [dst] is the chunk meta of the context, [columns] the columns wanted; none if the series is
    not in the block. *)
Definition searchChunkMeta (data : list Z) (offsets : list Z) (id : Z) (dst : ChunkMeta) (columns : list string) :
    res (option ChunkMeta) :=
  let! cmData := search_meta_loop (S (length offsets)) data offsets id 0 (length offsets) in
  if (length cmData =? 0)%nat then Ok None
  else
    let! (m, _) := ChunkMeta_UnmarshalWithColumns dst cmData columns in
    Ok (Some m).

(** A failed read of the block is logged and the search goes on without data. *)
Definition reader_ChunkMeta (r : tsspFileReader) (id offset size itemCount : Z) (dst : ChunkMeta) (columns : list string) :
    res (option ChunkMeta) :=
  let! rb := match ReadMetaBlock r offset size with Err _ => Ok [] | x => x end in
  let! (cmData, cmOffset) := chunkMetaDataAndOffsets rb itemCount in
  searchChunkMeta cmData cmOffset id dst columns.

(** All chunk metas of a block; [ofs] are the offsets from the current one on. *)
Fixpoint metas_loop (n : nat) (ofs : list Z) (cmData : list Z) (olds : list ChunkMeta) : res (list ChunkMeta) :=
  match n with
  | O => Ok []
  | S n =>
      match ofs with
      | [] => Panic
      | o :: ofs' =>
          let size := match ofs' with o1 :: _ => Z.to_nat (u32 (o1 - o)) | [] => Z.to_nat (u32 (Z.of_nat (length cmData))) end in
          let! one := between cmData 0 size in
          let! (cm, _) := ChunkMeta_unmarshal (default ChunkMeta0 (head olds)) one in
          let! cmData := from cmData size in
          let! cms := metas_loop n ofs' cmData (tail olds) in
          Ok (cm :: cms)
      end
  end.

(** [olds] are the chunk metas the slice had room for. *)
Definition unmarshalChunkMetas (src : list Z) (itemCount : Z) (olds : list ChunkMeta) : res (list ChunkMeta) :=
  let! (cmData, ofs) := chunkMetaDataAndOffsets src itemCount in
  metas_loop (Z.to_nat itemCount) ofs cmData olds.

Definition ReadChunkMetaData (r : tsspFileReader) (m : MetaIndex) (olds : list ChunkMeta) : res (list ChunkMeta) :=
  let! rb := ReadMetaBlock r (mi_offset m) (mi_size m) in
  unmarshalChunkMetas rb (mi_count m) olds.

(** location.go readChunkMeta: the block of the series, then its chunk meta, if it has rows in the
    time range. *)
Definition readChunkMeta (r : tsspFileReader) (id tmin tmax : Z) (dst : ChunkMeta) (columns : list string) :
    res (option ChunkMeta) :=
  let! (_, m) := reader_MetaIndex r id tmin tmax in
  match m with
  | None => Ok None
  | Some m =>
      let! cm := reader_ChunkMeta r id (mi_offset m) (mi_size m) (mi_count m) dst columns in
      match cm with
      | None => Ok None
      | Some cm =>
          let! (min, max) := ChunkMeta_MinMaxTime cm in
          Ok (if TimeRange_Overlaps tmin tmax min max then Some cm else None)
      end
  end.
End Read.
