(* ===== verification/FileWrite.v ===== *)
(** * What the builder of a file keeps true

    The chunk metas written so far are the closed blocks and the current one; the index writer
    holds the bytes of both, and every closed block has its entry in the meta index. *)

From Stdlib Require String Ascii.
From stdpp Require Import gmap sorting.
From S2P Require Import Prelude GoString GoSlice NumberEnc Bitmap ColVal TimeSearch Record RecordSort Coder FileMeta FileCodec IndexWriter FileBuild.

(** ** Bytes *)

Lemma concat_bytes_ok {A} (f : A → list Z) l : (∀ x, x ∈ l → bytes_ok (f x)) → bytes_ok (concat (f <$> l)).
Proof.
  induction l as [|x l IH]; intros Hf; [apply Forall_nil_2|]. rewrite fmap_cons. cbn [concat]. apply bytes_ok_app. split.
  - apply Hf, list_elem_of_here.
  - apply IH. intros y Hy. apply Hf. by apply list_elem_of_further.
Qed.

Lemma string_bytes_ok s : bytes_ok (string_bytes s).
Proof.
  unfold string_bytes, bytes_ok. apply Forall_fmap, Forall_forall. intros c _. cbn. unfold in_u.
  pose proof (Ascii.N_ascii_bounded c). lia.
Qed.
Lemma put_u16_ok u : bytes_ok (put_u16 u).
Proof. rewrite put_u16_be. auto with gemini. Qed.
#[export] Hint Resolve string_bytes_ok put_u16_ok : gemini.

Lemma bytes_ok_cons x l : in_u 8 x → bytes_ok l → bytes_ok (x :: l).
Proof. apply Forall_cons_2. Qed.

Ltac bytes_split :=
  repeat match goal with
  | |- bytes_ok (_ ++ _) => apply bytes_ok_app; split
  | |- bytes_ok (_ :: _) => apply bytes_ok_cons
  end; auto with gemini.

Lemma col_enc_ok e c : col_ok c → bytes_ok (col_enc e c).
Proof.
  intros [_ _ [Ht Hp] _]. unfold col_enc, name_enc, body_enc. bytes_split.
  - unfold written_preAgg. case_match; [done|apply Forall_nil_2].
  - apply concat_bytes_ok. intros s _. unfold seg_enc. bytes_split.
Qed.

Lemma chunk_enc_ok e m : chunk_ok m → bytes_ok (chunk_enc e m).
Proof.
  intros Hm. unfold chunk_enc, head_enc, cols_enc. bytes_split.
  - apply concat_bytes_ok. intros s _. unfold sr_enc. bytes_split.
  - apply concat_bytes_ok. intros c Hc. apply col_enc_ok. pose proof (ck_cols m Hm) as H. rewrite Forall_forall in H. by apply H.
Qed.

(** ** Blocks *)

Section Blocks.
Variable e : bool.

Definition chunks_enc (ms : list ChunkMeta) : list Z := concat (chunk_enc e <$> ms).

(** Where the chunk metas of a block begin. *)
Fixpoint offs_from (n : nat) (ms : list ChunkMeta) : list Z :=
  match ms with
  | [] => []
  | m :: ms => Z.of_nat n :: offs_from (n + length (chunk_enc e m)) ms
  end.
Definition block_enc (ms : list ChunkMeta) : list Z := chunks_enc ms ++ concat (put_u32 <$> offs_from 0 ms).

(** The bytes of chunk metas in blocks, before compression. *)
Definition metas_size (ms : list ChunkMeta) : nat := (length (chunks_enc ms) + 4 * length ms)%nat.

Lemma chunks_enc_app a b : chunks_enc (a ++ b) = chunks_enc a ++ chunks_enc b.
Proof. unfold chunks_enc. by rewrite fmap_app, concat_app. Qed.
Lemma chunks_enc_cons m ms : chunks_enc (m :: ms) = chunk_enc e m ++ chunks_enc ms.
Proof. done. Qed.

Lemma offs_from_snoc ms m : ∀ n, offs_from n (ms ++ [m]) = offs_from n ms ++ [Z.of_nat (n + length (chunks_enc ms))].
Proof.
  induction ms as [|x ms IH]; intros n; cbn [app offs_from].
  - by rewrite Nat.add_0_r.
  - rewrite IH, chunks_enc_cons, length_app. by rewrite Nat.add_assoc.
Qed.

Lemma length_offs_from ms : ∀ n, length (offs_from n ms) = length ms.
Proof. induction ms as [|x ms IH]; intros n; [done|]. cbn [offs_from length]. by rewrite IH. Qed.

Lemma length_block_enc ms : length (block_enc ms) = metas_size ms.
Proof.
  unfold block_enc, metas_size. rewrite length_app, (length_concat_const _ 4) by done. rewrite length_offs_from. lia.
Qed.

Lemma metas_size_app a b : metas_size (a ++ b) = (metas_size a + metas_size b)%nat.
Proof. unfold metas_size. rewrite chunks_enc_app, !length_app. lia. Qed.

Lemma chunks_enc_ok ms : Forall chunk_ok ms → bytes_ok (chunks_enc ms).
Proof.
  intros Hms. apply concat_bytes_ok. intros m Hm. apply chunk_enc_ok. rewrite Forall_forall in Hms. by apply Hms.
Qed.

Lemma block_enc_ok ms : Forall chunk_ok ms → bytes_ok (block_enc ms).
Proof.
  intros Hms. unfold block_enc. apply bytes_ok_app. split; [by apply chunks_enc_ok|].
  apply concat_bytes_ok. auto with gemini.
Qed.

(** ** Entries of the meta index *)

Definition tmin (m : ChunkMeta) : Z := default 0 (sr_min <$> head (vis (timeRange m))).
Definition tmax (m : ChunkMeta) : Z := default 0 (sr_max <$> last (vis (timeRange m))).

Lemma MinMaxTime_spec m : (0 < length (vis (timeRange m)))%nat → ChunkMeta_MinMaxTime m = Ok (tmin m, tmax m).
Proof.
  intros Hl. unfold ChunkMeta_MinMaxTime, ChunkMeta_minTime, ChunkMeta_maxTime, tmin, tmax.
  destruct (vis (timeRange m)) as [|sr trs] eqn:E; [cbn in Hl; lia|]. cbn [head]. rs.
  destruct (last (sr :: trs)) as [l|] eqn:El; [done|]. apply last_None in El. done.
Qed.

(** The code widens the bounds chunk by chunk. *)
Definition widen (p : Z * Z) (m : ChunkMeta) : Z * Z :=
  (if tmin m <? fst p then tmin m else fst p, if snd p <? tmax m then tmax m else snd p).
Definition bounds (ms : list ChunkMeta) : Z * Z :=
  match ms with [] => (MaxInt64, MinInt64) | m :: ms => fold_left widen ms (tmin m, tmax m) end.

Lemma bounds_snoc ms m : ms ≠ [] → bounds (ms ++ [m]) = widen (bounds ms) m.
Proof. destruct ms as [|x ms]; [done|]. intros _. cbn [app bounds]. by rewrite fold_left_app. Qed.

Lemma widen_self m : widen (tmin m, tmax m) m = (tmin m, tmax m).
Proof. unfold widen. cbn [fst snd]. by rewrite !Z.ltb_irrefl. Qed.

Lemma widen_mono ms : ∀ p, fst (fold_left widen ms p) ≤ fst p ∧ snd p ≤ snd (fold_left widen ms p) ∧
  (∀ m, m ∈ ms → fst (fold_left widen ms p) ≤ tmin m ∧ tmax m ≤ snd (fold_left widen ms p)).
Proof.
  induction ms as [|x ms IH]; intros p; cbn [fold_left].
  { split_and!; [done..|]. intros m Hm. by apply not_elem_of_nil in Hm. }
  assert (Hx : fst (widen p x) ≤ fst p ∧ snd p ≤ snd (widen p x) ∧ fst (widen p x) ≤ tmin x ∧ tmax x ≤ snd (widen p x)).
  { unfold widen. cbn [fst snd]. destruct (Z.ltb_spec (tmin x) (fst p)), (Z.ltb_spec (snd p) (tmax x)); lia. }
  destruct (IH (widen p x)) as (H1 & H2 & H3).
  split_and!; [lia..|]. intros m [->|Hm]%elem_of_cons; [lia|by apply H3].
Qed.

(** Every chunk lies within the bounds. *)
Lemma bounds_spec ms m : m ∈ ms → fst (bounds ms) ≤ tmin m ∧ tmax m ≤ snd (bounds ms).
Proof.
  destruct ms as [|x ms]; [intros H; by apply not_elem_of_nil in H|]. cbn [bounds].
  destruct (widen_mono ms (tmin x, tmax x)) as (H1 & H2 & H3). cbn [fst snd] in *. intros [->|Hm]%elem_of_cons; [lia|by apply H3].
Qed.

Definition first_sid (ms : list ChunkMeta) : Z := default 0 (sid <$> head ms).
Definition entry (off size : nat) (ms : list ChunkMeta) : MetaIndex :=
  mk_MI (first_sid ms) (fst (bounds ms)) (snd (bounds ms)) (Z.of_nat off) (Z.of_nat (length ms)) (u32 (Z.of_nat size)).

(** The entries of blocks stored as [bs], the first at [off]. *)
Fixpoint entries (off : nat) (bs : list (list Z)) (cbs : list (list ChunkMeta)) : list MetaIndex :=
  match bs, cbs with
  | b :: bs, ms :: cbs => entry off (length b) ms :: entries (off + length b) bs cbs
  | _, _ => []
  end.

Lemma entries_snoc b ms bs : ∀ cbs off, length bs = length cbs →
  entries off (bs ++ [b]) (cbs ++ [ms]) = entries off bs cbs ++ [entry (off + length (concat bs)) (length b) ms].
Proof.
  induction bs as [|x bs IH]; intros [|y cbs] off Hl; try discriminate Hl; cbn [app entries concat].
  - by rewrite Nat.add_0_r.
  - injection Hl as Hl. rewrite IH by done. rewrite length_app. by rewrite Nat.add_assoc.
Qed.
End Blocks.

(** ** The invariant *)

(** Run the fields of a builder. *)
Ltac bf :=
  cbn [b_inited b_data b_cmw b_dataOffset b_mIndex b_currentCMOffset b_cmOffset b_metaIndexItems b_trailer b_keys b_pair
       b_bloomFilter b_msName set_mIndex set_pair set_trailer set_data mi_id mi_minTime mi_maxTime mi_offset mi_count mi_size] in *.

Section Invariant.
Context `{RT : GoRuntime} `{BE : BloomEnv} {W : Type} `{IW : IndexWriter W} (rep : W → list (list Z) → list Z → Prop)
  (stores : list Z → list Z → Prop) `{IL : !IndexWriterLaws W rep stores}.
Variables (e : bool) (mode : Z) (conf : Config).

(** [cbs] are the closed blocks, stored as [bs], [cur] is the current one. *)
Record binv (b : MsBuilder W) (cbs : list (list ChunkMeta)) (bs : list (list Z)) (cur : list ChunkMeta) : Prop := {
  bi_rep : rep (b_cmw b) bs (chunks_enc e cur);
  bi_blocks : Forall2 (λ s ms, stores s (block_enc e ms)) bs cbs;
  bi_full : Forall (λ ms, ms ≠ []) cbs;
  bi_items : b_metaIndexItems b = entries 0 bs cbs;
  bi_offs : b_cmOffset b = offs_from e 0 cur;
  bi_cur : if decide (cur = []) then mi_count (b_mIndex b) = 0
           else b_mIndex b = entry (length (concat bs)) 0 cur ∧ b_currentCMOffset b = length (chunks_enc e cur)
}.

(** The parts of a builder the index does not use. *)
Definition same_rest (b b' : MsBuilder W) : Prop :=
  b_inited b' = b_inited b ∧ b_dataOffset b' = b_dataOffset b ∧ b_trailer b' = b_trailer b ∧ b_keys b' = b_keys b ∧ b_msName b' = b_msName b.

(** Closing the current block. *)
Lemma SwitchChunkMeta_spec b cbs bs cur :
  binv b cbs bs cur → cur ≠ [] → Forall chunk_ok cur → Z.of_nat (metas_size e cur) < 2 ^ 32 →
  ∃ b' s, SwitchChunkMeta b = Ok b' ∧ binv b' (cbs ++ [cur]) (bs ++ [s]) [] ∧ same_rest b b' ∧ b_data b' = b_data b ∧ b_pair b' = b_pair b.
Proof using IL.
  intros [Hr Hb Hf Hi Ho Hc] Hne Hok Hsz. rewrite decide_False in Hc by done. destruct Hc as [Hmi Hco].
  unfold SwitchChunkMeta. destruct (MarshalUint32SliceAppend_spec nil_slice (b_cmOffset b)) as (ob & -> & Hob). rs.
  destruct (iwl_write (b_cmw b) bs (chunks_enc e cur) (sdata ob) Hr) as (w1 & -> & Hr1). rs.
  assert (Hblk : chunks_enc e cur ++ sdata ob = block_enc e cur) by (unfold block_enc; by rewrite Hob, Ho).
  rewrite Hblk in Hr1.
  destruct (iwl_switch w1 bs (block_enc e cur) Hr1) as (w2 & s & -> & Hr2 & Hst).
  - intros E. apply (f_equal length) in E. rewrite length_block_enc in E. destruct cur; [done|]. unfold metas_size in E. cbn in E. lia.
  - by apply block_enc_ok.
  - rewrite length_block_enc. unfold in_u. lia.
  - rs. eexists _, s. split; [done|]. split_and!; try done. split; bf.
    + done.
    + apply Forall2_app; [done|]. by repeat constructor.
    + apply Forall_app. split; [done|]. by repeat constructor.
    + rewrite entries_snoc by by apply Forall2_length in Hb. rewrite Hi, Hmi. done.
    + done.
    + by rewrite decide_True.
Qed.

Lemma entry_snoc off cur m :
  cur ≠ [] → Z.of_nat (length cur) + 1 < 2 ^ 32 →
  entry off 0 (cur ++ [m]) =
  mk_MI (mi_id (entry off 0 cur)) (if tmin m <? mi_minTime (entry off 0 cur) then tmin m else mi_minTime (entry off 0 cur))
    (if mi_maxTime (entry off 0 cur) <? tmax m then tmax m else mi_maxTime (entry off 0 cur)) (mi_offset (entry off 0 cur))
    (u32 (mi_count (entry off 0 cur) + 1)) (mi_size (entry off 0 cur)).
Proof.
  intros Hne Hl. unfold entry. cbn [mi_id mi_minTime mi_maxTime mi_offset mi_count mi_size].
  rewrite bounds_snoc by done. unfold widen. cbn [fst snd]. rewrite length_app. cbn [length].
  rewrite (wrap_u_id 32 (Z.of_nat (length cur) + 1)) by (unfold in_u; lia). destruct cur; [done|].
  unfold first_sid. cbn [app head]. f_equal. lia.
Qed.

(** A chunk meta more. *)
Lemma WriteChunkMeta_spec b bs cur m :
  rep (b_cmw b) bs (chunks_enc e cur) → b_cmOffset b = offs_from e 0 cur → b_currentCMOffset b = length (chunks_enc e cur) →
  chunk_ok m → Z.of_nat (metas_size e (cur ++ [m])) < 2 ^ 32 →
  ∃ b', WriteChunkMeta e b m = Ok b' ∧ rep (b_cmw b') bs (chunks_enc e (cur ++ [m])) ∧ b_cmOffset b' = offs_from e 0 (cur ++ [m]) ∧
    b_currentCMOffset b' = length (chunks_enc e (cur ++ [m])) ∧ b_mIndex b' = b_mIndex b ∧ b_metaIndexItems b' = b_metaIndexItems b ∧
    same_rest b b' ∧ b_data b' = b_data b ∧ b_pair b' = b_pair b.
Proof using IL.
  intros Hr Ho Hc Hm Hsz. unfold WriteChunkMeta. rewrite ChunkMeta_marshal_data by apply Hm. cbn [sdata nil_slice app].
  destruct (iwl_write (b_cmw b) bs (chunks_enc e cur) (chunk_enc e m) Hr) as (w & -> & Hr'). rs.
  rewrite Nat.eqb_refl. cbn [negb]. eexists; split; [done|]. bf.
  rewrite metas_size_app in Hsz. unfold metas_size in Hsz. rewrite Hc.
  assert (Henc : chunks_enc e (cur ++ [m]) = chunks_enc e cur ++ chunk_enc e m).
  { rewrite chunks_enc_app. f_equal. apply app_nil_r. }
  rewrite Henc, length_app, offs_from_snoc. cbn [Nat.add]. rewrite wrap_u_id by (unfold in_u; lia). rewrite Ho. by split_and!.
Qed.

(** The block is closed when it is large enough, or left open. *)
Lemma builder_finish_spec b cbs bs cur (full : bool) :
  binv b cbs bs cur → cur ≠ [] → Forall chunk_ok cur → Z.of_nat (metas_size e cur) < 2 ^ 32 →
  ∃ b' cbs' bs' cur', (if full then SwitchChunkMeta b else Ok b) = Ok b' ∧ binv b' cbs' bs' cur' ∧
    concat cbs' ++ cur' = concat cbs ++ cur ∧ same_rest b b' ∧ b_data b' = b_data b ∧ b_pair b' = b_pair b.
Proof using IL.
  intros Hb Hne Hok Hsz. destruct full.
  - destruct (SwitchChunkMeta_spec b cbs bs cur) as (b' & s & -> & Hb' & Hs & Hd & Hp); [done..|].
    exists b', (cbs ++ [cur]), (bs ++ [s]), []. split_and!; try done. rewrite concat_app. cbn. by rewrite !app_nil_r.
  - exists b, cbs, bs, cur. by split_and!.
Qed.

Lemma writeToDisk_spec b cbs bs cur bytes ec rows :
  binv b cbs bs cur → Forall chunk_ok cur → chunk_ok (ec_meta ec) → Z.of_nat (metas_size e (cur ++ [ec_meta ec])) < 2 ^ 32 →
  ∃ b' cbs' bs' cur', writeToDisk e mode conf true b bytes ec rows = Ok b' ∧ binv b' cbs' bs' cur' ∧
    concat cbs' ++ cur' = concat cbs ++ cur ++ [ec_meta ec] ∧ same_rest b b' ∧ b_data b' = b_data b ++ bytes ∧
    b_pair b' = IdTimePairs_AddRowCounts (IdTimePairs_Add (b_pair b) (sid (ec_meta ec)) (tmax (ec_meta ec))) rows.
Proof using IL.
  intros [Hr Hbl Hf Hi Ho Hc] Hok Hm Hsz. unfold writeToDisk, getMinMaxTime.
  rewrite MinMaxTime_spec by apply Hm. rs. set (m := ec_meta ec) in *.
  assert (Hlen : Z.of_nat (length cur) + 1 < 2 ^ 32).
  { unfold metas_size in Hsz. rewrite length_app in Hsz. cbn [length] in Hsz. lia. }
  match goal with |- context [set_pair (if ?c then set_mIndex ?x ?y ?z else ?x) ?p] => set (b1 := if c then set_mIndex x y z else x) end.
  match goal with |- context [set_pair b1 ?p] => set (b2 := set_pair b1 p) end.
  assert (H2 : b_cmw b2 = b_cmw b ∧ b_cmOffset b2 = b_cmOffset b ∧ b_metaIndexItems b2 = b_metaIndexItems b ∧ same_rest b b2 ∧ b_data b2 = b_data b ++ bytes ∧
    b_pair b2 = IdTimePairs_AddRowCounts (IdTimePairs_Add (b_pair b) (sid m) (tmax m)) rows).
  { unfold b2, b1. destruct (mi_count _ =? 0); bf; unfold same_rest; bf; by split_and!. }
  destruct H2 as (Hw2 & Ho2 & Hi2 & Hsr2 & Hd2 & Hp2).
  assert (Hcur2 : b_currentCMOffset b2 = length (chunks_enc e cur) ∧
    ∀ cnt, cnt = u32 (mi_count (b_mIndex b2) + 1) →
    mk_MI (mi_id (b_mIndex b2)) (if tmin m <? mi_minTime (b_mIndex b2) then tmin m else mi_minTime (b_mIndex b2))
      (if mi_maxTime (b_mIndex b2) <? tmax m then tmax m else mi_maxTime (b_mIndex b2)) (mi_offset (b_mIndex b2)) cnt (mi_size (b_mIndex b2))
    = entry (length (concat bs)) 0 (cur ++ [m])).
  { unfold b2, b1. cbn [set_data b_mIndex b_cmw]. case_decide as Ecur.
    - subst cur. rewrite Hc. cbn [Z.eqb]. bf. rewrite !Z.ltb_irrefl, (iwl_size _ bs Hr). split; [done|]. by intros cnt ->.
    - destruct Hc as [Hmi Hco]. rewrite (proj2 (Z.eqb_neq _ _)) by (rewrite Hmi; cbn; destruct cur; [done|cbn; lia]).
      bf. split; [done|]. intros cnt ->. rewrite Hmi. by rewrite entry_snoc. }
  destruct Hcur2 as [Hco2 Hmi2].
  destruct (WriteChunkMeta_spec b2 bs cur m) as (b3 & -> & Hr3 & Ho3 & Hc3 & Hm3 & Hi3 & Hsr3 & Hd3 & Hp3); [by rewrite Hw2|by rewrite Ho2|done..|]. rs.
  rewrite Hm3, (Hmi2 _ eq_refl).
  match goal with |- context [if needSwitchChunkMeta ?a ?b ?c ?d then SwitchChunkMeta ?x else _] =>
    destruct (builder_finish_spec x cbs bs (cur ++ [m]) (needSwitchChunkMeta a b c d)) as (b' & cbs' & bs' & cur' & Hf' & Hb' & Hcat & Hsr' & Hd' & Hp') end.
  - split; bf; try done; [congruence|]. rewrite decide_False by (by destruct cur). done.
  - by destruct cur.
  - apply Forall_app. split; [done|]. by apply Forall_cons_2; [|apply Forall_nil_2].
  - done.
  - exists b', cbs', bs', cur'. split_and!; [exact Hf'|done|done| | |].
    + unfold same_rest in *. bf. intuition congruence.
    + bf. congruence.
    + bf. congruence.
Qed.
End Invariant.

(** ** Runs of the builder *)

Section Runs.
Context `{RT : GoRuntime} `{BE : BloomEnv} {W : Type} `{IW : IndexWriter W} (rep : W → list (list Z) → list Z → Prop)
  (stores : list Z → list Z → Prop) `{IL : !IndexWriterLaws W rep stores}.
Variables (e : bool) (mode : Z) (conf : Config).

(** genMsBuilder: a builder with an index writer, a trailer and the name of the measurement. *)
Definition new_builder (name : string) (w : W) (t : Trailer) : MsBuilder W :=
  mk_MsBuilder false [] w 0 (mk_MI 0 0 0 0 0 0) 0 [] [] t [] IdTimePairs0 [] name.

(** The chunks of a file, one after the other, with the rows of each. *)
Fixpoint WriteAll (b : MsBuilder W) (l : list (EncodedChunk * Z)) : res (MsBuilder W) :=
  match l with
  | [] => Ok b
  | (ec, rows) :: l =>
      let! b := WriteData e mode conf true b (sid (ec_meta ec)) ec rows in
      WriteAll b l
  end.

Definition metas (l : list (EncodedChunk * Z)) : list ChunkMeta := (λ p : EncodedChunk * Z, ec_meta (fst p)) <$> l.
Definition chunk_bytes (l : list (EncodedChunk * Z)) : list Z := concat ((λ p : EncodedChunk * Z, ec_bytes (fst p)) <$> l).
Definition ids_sorted (ms : list ChunkMeta) : Prop := StronglySorted (λ a b, sid a < sid b) ms.

(** The statistics after the chunks [ms]; nothing else of the trailer [t] has changed. *)
Definition stat_of (t : Trailer) (ms : list ChunkMeta) : TableStat :=
  let s := stat t in
  mk_TS (Z.of_nat (length ms)) (first_sid ms) (default 0 (sid <$> last ms)) (fst (bounds ms)) (snd (bounds ms))
    (metaIndexItemNum s) (bloomM s) (bloomK s) (ts_data s) (ts_name s).

(** A trailer before the first chunk. *)
Definition fresh_trailer (t : Trailer) : Prop := idCount (stat t) = 0 ∧ maxId (stat t) = 0.

Definition pair_view (p : IdTimePairs) : string * list Z * list Z * list Z :=
  (p_Name p, vis (p_Ids p), vis (p_Tms p), vis (p_Rows p)).

(** The id, last time and rows of every chunk. *)
Definition pairs_of (name : string) (l : list (EncodedChunk * Z)) : string * list Z * list Z * list Z :=
  (name, sid <$> metas l, tmax <$> metas l, snd <$> l).

(** After the chunks [l]. *)
Record finv (name : string) (t : Trailer) (b : MsBuilder W) (l : list (EncodedChunk * Z)) : Prop := {
  fi_index : ∃ cbs bs cur, binv rep stores e b cbs bs cur ∧ concat cbs ++ cur = metas l;
  fi_inited : b_inited b = bool_decide (l ≠ []);
  fi_data : b_data b = if decide (l = []) then [] else fileHeader ++ chunk_bytes l;
  fi_trailer : b_trailer b = if decide (l = []) then t else with_stat t (stat_of t (metas l));
  fi_keys : b_keys b = sid <$> metas l;
  fi_name : b_msName b = name;
  fi_pair : l ≠ [] → pair_view (b_pair b) = pairs_of name l
}.

Lemma new_builder_spec name w t : rep w [] [] → finv name t (new_builder name w t) [].
Proof.
  intros Hw. split; cbn; try done. exists [], [], []. split; [|done]. split; cbn; try done; by constructor.
Qed.

Lemma last_sid_lt ms m k : ids_sorted (ms ++ m :: k) → ms ≠ [] → default 0 (sid <$> last ms) < sid m.
Proof.
  intros Hs Hne. destruct (exists_last Hne) as (ms' & x & ->). rewrite last_snoc. cbn.
  unfold ids_sorted in Hs. rewrite <- app_assoc in Hs. apply StronglySorted_app in Hs as (_ & _ & Hs).
  apply StronglySorted_inv in Hs as [_ Hs]. cbn in Hs. inversion Hs; subst. done.
Qed.

Lemma stat_write_spec t ms m :
  fresh_trailer t → Z.of_nat (length ms) + 1 < 2 ^ 32 →
  stat_write (if decide (ms = []) then stat t else stat_of t ms) (sid m) (tmin m) (tmax m) = stat_of t (ms ++ [m]).
Proof.
  intros [Hz _] Hl. unfold stat_write, stat_of. rewrite last_snoc, length_app. cbn [length fmap option_fmap option_map default].
  assert (Hw : ∀ n, 0 ≤ n < 2 ^ 32 → i64 (n + 1) = n + 1) by (intros n Hn; apply wrap_s_id; [lia|unfold in_s; lia]).
  case_decide as E.
  - subst ms. rewrite Hz. cbn. rewrite !Z.ltb_irrefl. done.
  - cbn [idCount]. rewrite (proj2 (Z.eqb_neq _ _)) by (destruct ms; [done|cbn; lia]). cbn [idCount minId ts_minTime ts_maxTime metaIndexItemNum bloomM bloomK ts_data ts_name].
    rewrite Hw by lia. rewrite bounds_snoc by done. unfold widen. cbn [fst snd].
    assert (first_sid (ms ++ [m]) = first_sid ms) as -> by (by destruct ms). f_equal. lia.
Qed.

Lemma keys_fresh ms m k : ids_sorted (ms ++ m :: k) → sid m ∉ (sid <$> ms : list Z).
Proof.
  intros Hs Hin. apply list_elem_of_fmap_1 in Hin as (x & Hx & Hin). apply StronglySorted_app in Hs as (Hs & _ & _).
  specialize (Hs x m Hin (list_elem_of_here _ _)). lia.
Qed.

Lemma pair_add_spec p n ids tms rs id tm rows :
  pair_view p = (n, ids, tms, rs) →
  pair_view (IdTimePairs_AddRowCounts (IdTimePairs_Add p id tm) rows) = (n, ids ++ [id], tms ++ [tm], rs ++ [rows]).
Proof using. intros [= <- <- <- <-]. unfold pair_view, IdTimePairs_AddRowCounts, IdTimePairs_Add, vappend. cbn. repeat case_match; done. Qed.

(** One chunk more. *)
Lemma WriteData_spec name t b l ec rows k :
  finv name t b l → fresh_trailer t → Forall chunk_ok (metas l) → chunk_ok (ec_meta ec) → ids_sorted (metas l ++ ec_meta ec :: k) →
  Z.of_nat (metas_size e (metas l ++ [ec_meta ec])) < 2 ^ 32 →
  ∃ b', WriteData e mode conf true b (sid (ec_meta ec)) ec rows = Ok b' ∧ finv name t b' (l ++ [(ec, rows)]).
Proof using IL.
  intros [(cbs & bs & cur & Hb & Hcat) Hin Hd Ht Hk Hn Hp] Hfr Hok Hm Hs Hsz. set (m := ec_meta ec) in *. unfold WriteData.
  assert (Hguard : negb (maxId (stat (b_trailer b)) =? 0) && (sid m <=? maxId (stat (b_trailer b))) = false).
  { rewrite Ht. case_decide as E; [by rewrite (proj2 Hfr)|]. cbn [with_stat stat stat_of maxId]. apply andb_false_iff. right. apply Z.leb_gt.
    eapply last_sid_lt; [exact Hs|]. by destruct l. }
  rewrite Hguard. clear Hguard.
  match goal with |- context [writeToDisk _ _ _ _ ?x ?y _ _] => set (b1 := x); set (bytes := y) end.
  assert (Hb1 : binv rep stores e b1 cbs bs cur ∧ b_trailer b1 = b_trailer b ∧ b_keys b1 = b_keys b ∧ b_inited b1 = true ∧
                b_data b1 ++ bytes = fileHeader ++ chunk_bytes (l ++ [(ec, rows)]) ∧ b_msName b1 = name ∧
                pair_view (b_pair b1) = pairs_of name l).
  { unfold b1, bytes. rewrite Hin, Hd. unfold chunk_bytes. rewrite fmap_app, concat_app. cbn [fmap list_fmap concat fst]. rewrite app_nil_r.
    destruct Hb as [Hr Hbl Hf Hi Ho Hc]. destruct l as [|x l].
    - rewrite bool_decide_false by tauto. bf. split_and!; try done; [apply app_eq_nil in Hcat as [Hcat ->]; split; bf; done|]. unfold pair_view, pairs_of. cbn. by rewrite Hn.
    - rewrite bool_decide_true by done. bf. rewrite Hin, bool_decide_true, Hd, decide_False, <- app_assoc by done. split_and!; try done. by apply Hp. }
  destruct Hb1 as (Hb1 & Ht1 & Hk1 & Hi1 & Hd1 & Hn1 & Hp1).
  assert (Hok' : Forall chunk_ok cur) by (rewrite <- Hcat in Hok; apply Forall_app in Hok; tauto).
  assert (Hsz' : Z.of_nat (metas_size e (cur ++ [m])) < 2 ^ 32).
  { rewrite <- Hcat, <- app_assoc, metas_size_app in Hsz. lia. }
  destruct (writeToDisk_spec rep stores e mode conf b1 cbs bs cur bytes ec rows Hb1 Hok' Hm Hsz') as (b2 & cbs' & bs' & cur' & -> & Hb2 & Hcat2 & Hsr2 & Hd2 & Hp2).
  rs. unfold getMinMaxTime. rewrite MinMaxTime_spec by apply Hm. rs. eexists; split; [done|].
  destruct Hsr2 as (Hin2 & _ & Ht2 & Hk2 & Hn2).
  assert (Hne : l ++ [(ec, rows)] ≠ []) by (by destruct l).
  assert (Hms : metas (l ++ [(ec, rows)]) = metas l ++ [m]) by (unfold metas; by rewrite fmap_app).
  split; bf.
  - exists cbs', bs', cur'. split; [by destruct Hb2; split|]. rewrite Hms, <- Hcat, Hcat2. by rewrite <- app_assoc.
  - by rewrite Hin2, Hi1, bool_decide_true.
  - by rewrite decide_False, Hd2, Hd1.
  - rewrite decide_False, Ht2, Ht1, Ht, Hms by done. unfold metas_size in Hsz. rewrite length_app in Hsz. cbn [length] in Hsz.
    rewrite <- (stat_write_spec t (metas l) m) by (done || lia).
    destruct l; [done|]. by rewrite !decide_False.
  - rewrite Hk2, Hk1, Hk, Hms, fmap_app. rewrite bool_decide_false by by eapply keys_fresh. done.
  - congruence.
  - intros _. rewrite Hp2. unfold pairs_of in *. rewrite Hms, !fmap_app. by apply pair_add_spec.
Qed.

Lemma WriteAll_spec name t l2 : ∀ b l1,
  finv name t b l1 → fresh_trailer t → Forall chunk_ok (metas (l1 ++ l2)) → ids_sorted (metas (l1 ++ l2)) →
  Z.of_nat (metas_size e (metas (l1 ++ l2))) < 2 ^ 32 →
  ∃ b', WriteAll b l2 = Ok b' ∧ finv name t b' (l1 ++ l2).
Proof using IL.
  induction l2 as [|[ec rows] l2 IH]; intros b l1 Hb Hfr Hok Hs Hsz; [exists b; by rewrite app_nil_r|]. cbn [WriteAll].
  assert (Hms : metas (l1 ++ (ec, rows) :: l2) = metas l1 ++ ec_meta ec :: metas l2) by (unfold metas; by rewrite fmap_app).
  rewrite Hms in *. pose proof Hok as Hok'. apply Forall_app in Hok' as [Hok1 Hok2]. inversion Hok2 as [|?? Hm Hok3]; subst.
  destruct (WriteData_spec name t b l1 ec rows (metas l2)) as (b1 & -> & Hb1); try done.
  { rewrite metas_size_app in *. change (ec_meta ec :: metas l2) with ([ec_meta ec] ++ metas l2) in Hsz. rewrite metas_size_app in Hsz. lia. }
  rs. destruct (IH b1 (l1 ++ [(ec, rows)]) Hb1 Hfr) as (b' & Hb' & Hf'); rewrite <- ?app_assoc; cbn [app]; rewrite ?Hms; try done.
  exists b'. rewrite <- app_assoc in Hf'. done.
Qed.
End Runs.
