(* ===== verification/FileFind.v ===== *)
(** * Finding a series in a file

    The two binary searches, and the theorem: what the builder wrote is found by the readers. *)

From Stdlib Require String.
From stdpp Require Import gmap sorting.
From S2P Require Import Prelude GoString GoSlice NumberEnc Coder Bitmap ColVal TimeSearch Record RecordSort.
From S2P Require Import FileMeta FileCodec IndexWriter FileBuild FileRead FileWrite.

Lemma between_middle a b c n k :
  n = length a → k = (length a + length b)%nat → between (a ++ b ++ c) n k = Ok b.
Proof.
  intros -> ->. rewrite between_Ok by len. rewrite drop_app_length.
  replace (length a + length b - length a)%nat with (length b) by lia. by rewrite take_app_length.
Qed.

Lemma sorted_lookup_lt {A} (R : A → A → Prop) l i j x y :
  StronglySorted R l → l !! i = Some x → l !! j = Some y → (i < j)%nat → R x y.
Proof.
  intros Hs. revert i j. induction Hs as [|a l Hs IH Ha]; intros i j Hi Hj Hij; [done|].
  destruct j as [|j]; [lia|]. destruct i as [|i]; cbn in *.
  - injection Hi as ->. rewrite Forall_forall in Ha. apply Ha. by eapply list_elem_of_lookup_2.
  - eapply IH; [done..|lia].
Qed.

(** ** The chunk meta in its block *)

Section Block.
Context `{RT : GoRuntime}.

Variable e : bool.

Lemma offs_from_lookup ms i m : ∀ n,
  ms !! i = Some m → offs_from e n ms !! i = Some (Z.of_nat (n + length (chunks_enc e (take i ms)))).
Proof.
  revert i. induction ms as [|x ms IH]; intros [|i] n Hi; try discriminate Hi; cbn [offs_from take].
  - cbn. by rewrite Nat.add_0_r.
  - cbn [lookup list_lookup]. rewrite (IH i) by done. rewrite chunks_enc_cons, length_app. do 2 f_equal. lia.
Qed.

Lemma chunks_enc_split ms i m :
  ms !! i = Some m → chunks_enc e ms = chunks_enc e (take i ms) ++ chunk_enc e m ++ chunks_enc e (drop (S i) ms).
Proof. intros Hi. rewrite <- (take_drop_middle ms i m Hi) at 1. by rewrite chunks_enc_app, chunks_enc_cons. Qed.

Lemma chunk_enc_sid m : ∃ r, chunk_enc e m = put_u64 (sid m) ++ r.
Proof. unfold chunk_enc, head_enc. rewrite <- !app_assoc. eauto. Qed.

Variables (ms : list ChunkMeta) (id : Z).
Hypothesis Hok : Forall chunk_ok ms.
Hypothesis Hs : ids_sorted ms.
Hypothesis Hsz : Z.of_nat (metas_size e ms) < 2 ^ 32.

Lemma read_sid i m :
  ms !! i = Some m →
  ∃ off, offs_from e 0 ms !! i = Some off ∧ Z.to_nat off = length (chunks_enc e (take i ms)) ∧
    (let! idb := between (chunks_enc e ms) (Z.to_nat off) (Z.to_nat (u32 (off + 8))) in UnmarshalUint64 idb) = Ok (sid m).
Proof using Hok Hsz.
  intros Hi. exists (Z.of_nat (length (chunks_enc e (take i ms)))). rewrite (offs_from_lookup ms i m) by done. split; [done|].
  rewrite Nat2Z.id. split; [done|]. destruct (chunk_enc_sid m) as [r Hr].
  pose proof (chunks_enc_split ms i m Hi) as Hsp. rewrite Hr, <- app_assoc in Hsp.
  assert (Hlen : (length (chunks_enc e (take i ms)) + 8 <= length (chunks_enc e ms))%nat).
  { rewrite Hsp, !length_app, length_put_u64. lia. }
  unfold metas_size in Hsz. rewrite wrap_u_id by (unfold in_u; lia).
  rewrite Hsp, (between_middle _ (put_u64 (sid m))) by (rewrite ?length_put_u64; lia). rs.
  rewrite <- (app_nil_r (put_u64 (sid m))). apply read_u64. rewrite Forall_forall in Hok. apply Hok. by eapply list_elem_of_lookup_2.
Qed.

(** The search finds the bytes of the chunk of [id], and nothing if there is none. *)
Lemma search_meta_spec fuel : ∀ lo hi,
  (lo <= hi)%nat → (hi <= length ms)%nat → (hi - lo < fuel)%nat →
  (∀ i m, ms !! i = Some m → (i < lo)%nat → sid m < id) → (∀ i m, ms !! i = Some m → (hi <= i)%nat → id < sid m) →
  (∃ i m, ms !! i = Some m ∧ sid m = id ∧ search_meta_loop fuel (chunks_enc e ms) (offs_from e 0 ms) id lo hi = Ok (chunk_enc e m)) ∨
  (∀ m, m ∈ ms → sid m ≠ id) ∧ search_meta_loop fuel (chunks_enc e ms) (offs_from e 0 ms) id lo hi = Ok [].
Proof using Hok Hs Hsz.
  induction fuel as [|fuel IH]; intros lo hi Hlh Hh Hf Hlo Hhi; [lia|]. cbn [search_meta_loop].
  destruct (Nat.ltb_spec lo hi) as [Hlt|Hge].
  2: { right. split; [|done]. intros m Hm E. apply list_elem_of_lookup_1 in Hm as [i Hi].
       destruct (decide (i < lo)%nat) as [H1|H1]; [specialize (Hlo i m Hi H1); lia|]. specialize (Hhi i m Hi). lia. }
  set (mid := ((lo + hi) / 2)%nat). assert (Hmid : (lo <= mid < hi)%nat).
  { unfold mid. split; [apply Nat.div_le_lower_bound; lia|apply Nat.Div0.div_lt_upper_bound; lia]. }
  destruct (lookup_lt_is_Some_2 ms mid) as [m Hm]; [lia|].
  destruct (read_sid mid m Hm) as (off & Hoff & Hon & Hrd). rewrite Hoff.
  destruct (between _ _ _) as [idb| | |]; cbn [res_bind] in Hrd |- *; try discriminate Hrd. rewrite Hrd. rs.
  pose proof (chunks_enc_split ms mid m Hm) as Hsp. pose proof (length_offs_from e ms 0) as Hlo'.
  destruct (Z.eqb_spec id (sid m)) as [->|Hne].
  - left. exists mid, m. split_and!; [done..|]. rewrite Hlo', Hon. destruct (Nat.eqb_spec mid (length ms - 1)) as [El|El].
    + rewrite Hsp, from_app by done. rewrite drop_ge by lia. by rewrite app_nil_r.
    + destruct (lookup_lt_is_Some_2 ms (mid + 1)) as [m1 Hm1]; [lia|]. rewrite (offs_from_lookup ms _ m1) by done.
      rewrite Hsp, (between_middle _ (chunk_enc e m)); [done..|]. rewrite Nat2Z.id, Nat.add_1_r, (take_S_r ms mid m) by done.
      rewrite chunks_enc_app, length_app. cbn. by rewrite app_nil_r.
  - destruct (Z.ltb_spec id (sid m)) as [Hl|Hg].
    + apply IH; try done; try lia. intros i m' Hi' Hmi. destruct (decide (i = mid)) as [->|]; [congruence|].
      assert (sid m < sid m') by (eapply (sorted_lookup_lt (λ a b, sid a < sid b)); [exact Hs|exact Hm|exact Hi'|lia]). lia.
    + apply IH; try done; try lia. intros i m' Hi' Hmi. destruct (decide (i = mid)) as [->|]; [assert (m' = m) as -> by congruence; lia|].
      assert (sid m' < sid m) by (eapply (sorted_lookup_lt (λ a b, sid a < sid b)); [exact Hs|exact Hi'|exact Hm|lia]). lia.
Qed.

Lemma block_parts : chunkMetaDataAndOffsets (block_enc e ms) (Z.of_nat (length ms)) = Ok (chunks_enc e ms, offs_from e 0 ms).
Proof using Hok Hsz.
  unfold chunkMetaDataAndOffsets. pose proof (length_block_enc e ms) as Hl.
  assert (Hmin : (82 * length ms <= length (chunks_enc e ms))%nat).
  { clear -Hok. revert Hok. induction 1 as [|m l Hm _ IH]; [done|]. rewrite chunks_enc_cons, length_app. pose proof (chunk_enc_long e m Hm) as H.
    change ChunkMetaMinLen with 82%nat in H. cbn [length]. lia. }
  change (ChunkMetaMinLen + 4)%nat with 86%nat. rewrite Hl. unfold metas_size in *.
  rewrite (proj2 (Z.ltb_ge _ _)) by lia. rewrite Nat2Z.id.
  replace (length (chunks_enc e ms) + 4 * length ms - 4 * length ms)%nat with (length (chunks_enc e ms)) by lia.
  unfold block_enc. rewrite from_app by done. rs. unfold UnmarshalUint32Slice. rewrite (length_concat_const _ 4) by done.
  rewrite Nat.div_mul by lia. rewrite <- (app_nil_r (concat _)), (unmarshal_each_spec 4 UnmarshalUint32 put_u32); [rs|done|].
  - by rewrite take_app_length.
  - intros u rest Hu. apply read_uint32. apply list_elem_of_lookup_1 in Hu as [i Hi].
    destruct (lookup_lt_is_Some_2 ms i) as [m Hm]; [apply lookup_lt_Some in Hi; by rewrite length_offs_from in Hi|].
    rewrite (offs_from_lookup ms i m) in Hi by done. injection Hi as <-. pose proof (chunks_enc_split ms i m Hm) as Hsp.
    apply (f_equal length) in Hsp. rewrite !length_app in Hsp. unfold in_u. lia.
Qed.
End Block.

(** ** The block of a series *)

Section Items.
Variables (items : list MetaIndex) (id : Z).
Hypothesis Hs : StronglySorted (λ a b, mi_id a < mi_id b) items.

Lemma items_le i j a b : items !! i = Some a → items !! j = Some b → (i <= j)%nat → mi_id a ≤ mi_id b.
Proof using Hs.
  intros Hi Hj Hij. destruct (decide (i = j)) as [->|]; [by simplify_eq|].
  assert (mi_id a < mi_id b) by (eapply (sorted_lookup_lt (λ a b, mi_id a < mi_id b)); [exact Hs|exact Hi|exact Hj|lia]). lia.
Qed.

(** The last entry whose first id is not beyond [id]. *)
Definition last_before (k : nat) (m : MetaIndex) : Prop :=
  items !! k = Some m ∧ mi_id m ≤ id ∧ ∀ j m', items !! j = Some m' → (k < j)%nat → id < mi_id m'.

Lemma search_item_spec fuel : ∀ lo hi,
  0 ≤ lo ≤ hi → hi < Z.of_nat (length items) → hi - lo < Z.of_nat fuel →
  (∀ i m, items !! i = Some m → 0 < lo → Z.of_nat i ≤ lo → mi_id m ≤ id) →
  (∀ i m, items !! i = Some m → hi < Z.of_nat i → id < mi_id m) →
  (∃ k m, last_before k m ∧ search_item_loop fuel items id lo hi = Ok (Z.of_nat k)) ∨
  (∀ m, m ∈ items → id < mi_id m) ∧ search_item_loop fuel items id lo hi = Ok (-1).
Proof using Hs.
  induction fuel as [|fuel IH]; intros lo hi Hlh Hh Hf Hlo Hhi; [lia|]. cbn [search_item_loop].
  destruct (Z.ltb_spec lo hi) as [Hlt|Hge].
  - set (mid := (lo + hi) ≫ 1). assert (Hmid : lo ≤ mid < hi).
    { unfold mid. rewrite Z.shiftr_div_pow2 by lia. change (2 ^ 1) with 2. zdm. }
    destruct (lookup_lt_is_Some_2 items (Z.to_nat mid)) as [m Hm]; [lia|].
    destruct (lookup_lt_is_Some_2 items (Z.to_nat (mid + 1))) as [m1 Hm1]; [lia|]. rewrite Hm, Hm1.
    assert (Hm01 : mi_id m < mi_id m1) by (eapply (sorted_lookup_lt (λ a b, mi_id a < mi_id b)); [exact Hs|exact Hm|exact Hm1|lia]).
    assert (Hbeyond : ∀ i m', items !! i = Some m' → mid + 1 < Z.of_nat i → mi_id m1 < mi_id m').
    { intros i m' Hi Hl. eapply (sorted_lookup_lt (λ a b, mi_id a < mi_id b)); [exact Hs|exact Hm1|exact Hi|lia]. }
    assert (Hnext : ∀ i m', items !! i = Some m' → mid < Z.of_nat i → mi_id m1 ≤ mi_id m').
    { intros i m' Hi Hl. eapply items_le; [exact Hm1|exact Hi|lia]. }
    destruct ((id =? mi_id m) || ((mi_id m <? id) && (id <? mi_id m1))) eqn:E1.
    + left. exists (Z.to_nat mid), m. rewrite Z2Nat.id by lia. split; [|done].
      assert (mi_id m ≤ id < mi_id m1).
      { apply orb_true_iff in E1 as [E1|E1]; [apply Z.eqb_eq in E1; lia|]. apply andb_true_iff in E1 as [E1 E2]. lia. }
      split_and!; [done|lia|]. intros j m' Hj Hl. specialize (Hnext j m' Hj). lia.
    + apply orb_false_iff in E1 as [E1 E2]. apply Z.eqb_neq in E1. apply andb_false_iff in E2.
      destruct (Z.eqb_spec id (mi_id m1)) as [E3|E3].
      * left. exists (Z.to_nat (mid + 1)), m1. rewrite Z2Nat.id by lia. split; [|done].
        split_and!; [done|lia|]. intros j m' Hj Hl. specialize (Hbeyond j m' Hj). lia.
      * destruct (Z.ltb_spec id (mi_id m)) as [E4|E4].
        -- apply IH; try lia; [intros i m' Hi Hp Hl; apply (Hlo i m' Hi); lia|].
           intros i m' Hi Hl. specialize (Hnext i m' Hi). lia.
        -- destruct (Z.ltb_spec (mi_id m1) id) as [E5|E5]; [|lia]. apply IH; try lia; [|intros i m' Hi Hl; apply (Hhi i m' Hi); lia].
           intros i m' Hi _ Hl. pose proof (items_le i (Z.to_nat (mid + 1)) m' m1 Hi Hm1). lia.
  - assert (lo = hi) as -> by lia. destruct (lookup_lt_is_Some_2 items (Z.to_nat hi)) as [m Hm]; [lia|]. rewrite Hm.
    destruct (Z.leb_spec (mi_id m) id) as [E|E].
    + left. exists (Z.to_nat hi), m. rewrite Z2Nat.id by lia. split; [|done]. split_and!; try done. intros j m' Hj Hl. apply (Hhi j m' Hj). lia.
    + right. split; [|done]. assert (hi = 0) as ->.
      { destruct (decide (0 < hi)) as [Hp|]; [|lia]. specialize (Hlo _ m Hm Hp). lia. }
      intros m' [j Hj]%list_elem_of_lookup_1. pose proof (items_le 0 j m m' Hm Hj). lia.
Qed.

Lemma searchMetaIndexItem_spec :
  items ≠ [] →
  (∃ k m, last_before k m ∧ searchMetaIndexItem items id = Ok (Z.of_nat k)) ∨
  (∀ m, m ∈ items → id < mi_id m) ∧ searchMetaIndexItem items id = Ok (-1).
Proof using Hs.
  intros Hne. assert (0 < length items)%nat by (destruct items; [done|cbn; lia]).
  apply search_item_spec; try lia. intros i m Hi Hl. apply lookup_lt_Some in Hi. lia.
Qed.
End Items.

Lemma entries_lookup bs : ∀ cbs off k b ms,
  bs !! k = Some b → cbs !! k = Some ms →
  entries off bs cbs !! k = Some (entry (off + length (concat (take k bs))) (length b) ms).
Proof.
  induction bs as [|x bs IH]; intros [|y cbs] off [|k] b ms Hb Hm; try discriminate; cbn [entries take concat].
  - injection Hb as ->. injection Hm as ->. cbn. by rewrite Nat.add_0_r.
  - cbn [lookup list_lookup] in *. rewrite (IH cbs _ k b ms) by done. rewrite length_app. by rewrite Nat.add_assoc.
Qed.

Lemma length_entries bs : ∀ cbs off, length bs = length cbs → length (entries off bs cbs) = length cbs.
Proof.
  induction bs as [|x bs IH]; intros [|y cbs] off Hl; try discriminate; [done|]. cbn [entries length]. injection Hl as Hl. by rewrite IH.
Qed.

(** The first ids of the blocks ascend. *)
Lemma entries_sorted bs : ∀ cbs off,
  length bs = length cbs → Forall (λ ms, ms ≠ []) cbs → ids_sorted (concat cbs) →
  StronglySorted (λ a b, mi_id a < mi_id b) (entries off bs cbs).
Proof.
  induction bs as [|x bs IH]; intros [|ms cbs] off Hl Hne Hs; try discriminate; [constructor|]. cbn [entries].
  inversion Hne as [|?? Hms Hne']; subst. injection Hl as Hl. cbn [concat] in Hs. apply StronglySorted_app in Hs as (Hx & _ & Hs).
  constructor; [by apply IH|]. apply Forall_lookup. intros k m Hk.
  pose proof (lookup_lt_Some _ _ _ Hk) as Hlt. rewrite length_entries in Hlt by done.
  destruct (lookup_lt_is_Some_2 cbs k) as [ms' Hms']; [done|]. destruct (lookup_lt_is_Some_2 bs k) as [b' Hb']; [lia|].
  rewrite (entries_lookup bs cbs _ k b' ms') in Hk by done. injection Hk as <-. cbn [entry mi_id].
  destruct ms as [|m ms]; [done|]. assert (Hne2 : ms' ≠ []) by (rewrite Forall_lookup in Hne'; by apply (Hne' k)).
  destruct ms' as [|m' ms']; [done|]. unfold first_sid. cbn. apply Hx; [apply list_elem_of_here|].
  apply list_elem_of_In, in_concat. exists (m' :: ms'). split; [apply list_elem_of_In; by eapply list_elem_of_lookup_2|by left].
Qed.

(** ** An opened file *)

Lemma ReadAt_middle a b c off size :
  off = Z.of_nat (length a) → size = Z.of_nat (length b) → ReadAt (a ++ b ++ c) off size = Ok b.
Proof.
  intros -> ->. unfold ReadAt. destruct (Z.ltb_spec (Z.of_nat (length b)) 1) as [H|H].
  { destruct b; [done|]. cbn [length] in H. lia. }
  rewrite (proj2 (Z.ltb_ge _ 0)) by lia. rewrite (proj2 (Z.ltb_ge _ (Z.of_nat (length a)))) by len. cbn [orb].
  rewrite !Nat2Z.id, drop_app_length, take_app_length. by rewrite (proj2 (Z.ltb_ge _ _)) by lia.
Qed.

Lemma concat_split (bs : list (list Z)) k b :
  bs !! k = Some b → concat bs = concat (take k bs) ++ b ++ concat (drop (S k) bs).
Proof. intros Hk. rewrite <- (take_drop_middle bs k b Hk) at 1. by rewrite concat_app. Qed.

(** A chunk has rows in the time range. *)
Definition overlaps (t0 t1 : Z) (m : ChunkMeta) : bool := TimeRange_Overlaps t0 t1 (tmin m) (tmax m).

Lemma overlaps_block t0 t1 ms m : m ∈ ms → overlaps t0 t1 m = true → TimeRange_Overlaps t0 t1 (fst (bounds ms)) (snd (bounds ms)) = true.
Proof.
  intros Hm. unfold overlaps, TimeRange_Overlaps. pose proof (bounds_spec ms m Hm). rewrite !andb_true_iff, !Z.leb_le. lia.
Qed.

Section Opened.
Context `{RT : GoRuntime} `{BE : BloomEnv} `{SN : Snappy} `{LZ : Lz4}.
Variables (e : bool) (mode : Z).

(** [cbs] are the blocks of chunk metas, stored as [bs] after [pre]. *)
Record opened (r : tsspFileReader) (cbs : list (list ChunkMeta)) (bs : list (list Z)) : Prop := {
  op_file : ∃ pre post, r_file r = pre ++ concat bs ++ post ∧
    dataOffset (r_trailer r) + dataSize (r_trailer r) = Z.of_nat (length pre) ∧
    r_metaIndexItems r = shift_index (Z.of_nat (length pre)) <$> entries 0 bs cbs;
  op_small : Z.of_nat (length (r_file r)) < 2 ^ 32;
  op_index : indexSize (r_trailer r) = Z.of_nat (length (concat bs));
  op_mode : r_chunkMetaCompressMode r = mode;
  op_blocks : Forall2 (λ s ms, decompressChunkMeta mode s = Ok (block_enc e ms)) bs cbs;
  op_full : Forall (λ ms, ms ≠ []) cbs ∧ cbs ≠ [];
  op_ids : minId (stat (r_trailer r)) = first_sid (concat cbs) ∧ maxId (stat (r_trailer r)) = default 0 (sid <$> last (concat cbs))
}.

Lemma pre_bound r cbs bs pre post :
  opened r cbs bs → r_file r = pre ++ concat bs ++ post → Z.of_nat (length pre) + Z.of_nat (length (concat bs)) < 2 ^ 32.
Proof. intros Ho Hf. pose proof (op_small r cbs bs Ho) as H. rewrite Hf in H. rewrite !length_app in H. lia. Qed.

(** The entry of the [k]-th block, and reading the block by it. *)
Lemma block_read r cbs bs k ms :
  opened r cbs bs → cbs !! k = Some ms →
  ∃ m, r_metaIndexItems r !! k = Some m ∧ mi_id m = first_sid ms ∧ mi_count m = Z.of_nat (length ms) ∧
    mi_minTime m = fst (bounds ms) ∧ mi_maxTime m = snd (bounds ms) ∧
    ReadMetaBlock r (mi_offset m) (mi_size m) = Ok (block_enc e ms).
Proof.
  intros Ho Hk. destruct (op_file r cbs bs Ho) as (pre & post & Hf & Hpre & Hi). pose proof (pre_bound r cbs bs pre post Ho Hf) as Hb.
  pose proof (op_blocks r cbs bs Ho) as Hbl. destruct (Forall2_lookup_r _ _ _ _ _ Hbl Hk) as (b & Hbk & Hst).
  pose proof (concat_split bs k b Hbk) as Hsp. assert (Hlen := f_equal length Hsp). rewrite !length_app in Hlen.
  assert (Hw : ∀ z, 0 ≤ z < 2 ^ 40 → i64 z = z) by (intros; apply wrap_s_id; [lia|unfold in_s; lia]).
  rewrite Hi, list_lookup_fmap, (entries_lookup bs cbs 0 k b ms) by done. eexists; split; [done|]. cbn [shift_index entry mi_id mi_count mi_minTime mi_maxTime mi_offset mi_size].
  split_and!; [done..|]. rewrite (Hw (_ + Z.of_nat (length pre))) by lia. unfold ReadMetaBlock, Trailer_metaOffsetSize. rewrite Hpre, (op_index r cbs bs Ho), (wrap_u_id 32) by (unfold in_u; lia).
  rewrite !Hw by lia. rewrite (proj2 (Z.ltb_ge _ _)), (proj2 (Z.ltb_ge _ _)) by lia. cbn [orb].
  rewrite Hf, Hsp, <- !app_assoc, app_assoc, (ReadAt_middle _ b) by (rewrite ?length_app; lia). rs. by rewrite (op_mode r cbs bs Ho).
Qed.

Lemma items_sorted r cbs bs :
  opened r cbs bs → ids_sorted (concat cbs) → StronglySorted (λ a b, mi_id a < mi_id b) (r_metaIndexItems r).
Proof.
  intros Ho Hs. destruct (op_file r cbs bs Ho) as (pre & post & _ & _ & ->). destruct (op_full r cbs bs Ho) as [Hf _].
  pose proof (Forall2_length _ _ _ (op_blocks r cbs bs Ho)) as Hl.
  pose proof (entries_sorted bs cbs 0 Hl Hf Hs) as H. revert H. generalize (entries 0 bs cbs). clear.
  induction 1 as [|a l Hl IH Ha]; [constructor|]. rewrite fmap_cons. constructor; [done|]. apply Forall_fmap. exact Ha.
Qed.

Lemma elem_of_concat {A} (x : A) (ls : list (list A)) : x ∈ concat ls → ∃ k l, ls !! k = Some l ∧ x ∈ l.
Proof.
  intros Hx. apply list_elem_of_In, in_concat in Hx as (l & Hl & Hx). apply list_elem_of_In, list_elem_of_lookup_1 in Hl as [k Hk].
  exists k, l. split; [done|by apply list_elem_of_In].
Qed.

Lemma first_sid_le ms m : ids_sorted ms → m ∈ ms → first_sid ms ≤ sid m.
Proof.
  intros Hs Hm. destruct ms as [|x ms]; [by apply not_elem_of_nil in Hm|]. unfold first_sid. cbn.
  apply StronglySorted_inv in Hs as [_ Hs]. apply elem_of_cons in Hm as [->|Hm]; [lia|]. rewrite Forall_forall in Hs. specialize (Hs m Hm). lia.
Qed.

Lemma block_sorted (cbs : list (list ChunkMeta)) : ∀ k ms, ids_sorted (concat cbs) → cbs !! k = Some ms → ids_sorted ms.
Proof.
  induction cbs as [|x cbs IH]; intros [|k] ms Hs Hk; try discriminate; cbn [concat] in Hs; apply StronglySorted_app in Hs as (_ & H1 & H2).
  - by injection Hk as <-.
  - by apply (IH k).
Qed.

Lemma blocks_ordered (cbs : list (list ChunkMeta)) : ∀ j k a b x y,
  ids_sorted (concat cbs) → cbs !! j = Some a → cbs !! k = Some b → (j < k)%nat → x ∈ a → y ∈ b → sid x < sid y.
Proof.
  induction cbs as [|c cbs IH]; intros [|j] [|k] a b x y Hs Ha Hb Hjk Hx Hy; try discriminate; try lia; cbn [concat] in Hs; apply StronglySorted_app in Hs as (H1 & _ & H2).
  - injection Ha as ->. apply H1; [done|]. apply list_elem_of_In, in_concat. exists b. split; apply list_elem_of_In; [by eapply list_elem_of_lookup_2|done].
  - apply (IH j k a b x y); try done; lia.
Qed.

(** The block the index names is the one that has the series, if any block has it. *)
Lemma in_block r cbs bs id k e0 m :
  opened r cbs bs → ids_sorted (concat cbs) → last_before (r_metaIndexItems r) id k e0 → m ∈ concat cbs → sid m = id →
  ∃ ms, cbs !! k = Some ms ∧ m ∈ ms.
Proof.
  intros Ho Hs (Hk & Hle & Hgt) Hm Hid. destruct (elem_of_concat m cbs Hm) as (j & ms & Hj & Hmj).
  destruct (op_full r cbs bs Ho) as [Hfull _]. rewrite Forall_lookup in Hfull.
  destruct (Nat.lt_trichotomy j k) as [Hlt|[->|Hlt]]; [|by exists ms|].
  - exfalso. assert (Hkl : (k < length cbs)%nat).
    { apply lookup_lt_Some in Hk. destruct (op_file r cbs bs Ho) as (pre & post & _ & _ & Hi). rewrite Hi, length_fmap, length_entries in Hk; [done|].
      apply (Forall2_length _ _ _ (op_blocks r cbs bs Ho)). }
    destruct (lookup_lt_is_Some_2 cbs k Hkl) as [ms' Hms']. destruct (block_read r cbs bs k ms' Ho Hms') as (m' & Hm' & Hmid & _).
    assert (m' = e0) as -> by congruence. specialize (Hfull k ms' Hms'). destruct ms' as [|y ms']; [done|].
    assert (sid m < sid y) by (eapply blocks_ordered; [exact Hs|exact Hj|exact Hms'|done|done|apply list_elem_of_here]).
    unfold first_sid in Hmid. cbn in Hmid. lia.
  - exfalso. destruct (block_read r cbs bs j ms Ho Hj) as (m' & Hm' & Hmid & _). specialize (Hgt j m' Hm' Hlt).
    pose proof (first_sid_le ms m (block_sorted cbs j ms Hs Hj) Hmj). lia.
Qed.

(** *** Decoding *)

Definition columns_ok (columns : list string) : Prop :=
  columns = [] ∨ ∃ want, columns = want ++ [TimeField] ∧ Forall (λ c, c ≠ TimeField) want ∧ wants_sorted want ∧
                         in_u 32 (Z.of_nat (length want) + 1).

(** Without a field among the columns all of them are read. *)
Definition columns_view (m : ChunkMeta) (columns : list string) : ckview :=
  match columns with
  | [] => stored_chunk e m
  | c :: _ => if bool_decide (c = TimeField) then stored_chunk e m else chosen e m columns
  end.

Definition well_ordered (m : ChunkMeta) : Prop := ∃ cs t, time_last m cs t.

Lemma decode_columns m0 m columns r :
  chunk_ok m → well_ordered m → columns_ok columns →
  ∃ m', ChunkMeta_UnmarshalWithColumns m0 (chunk_enc e m ++ r) columns = Ok (m', r) ∧ chunk_view m' = columns_view m columns.
Proof.
  intros Hm (cs & t & Ht) [->|(want & -> & Hnt & Hw & Hl)]; [by apply unmarshal_spec|].
  destruct want as [|w want]; [by apply unmarshal_spec|]. inversion Hnt; subst. cbn [columns_view app]. rewrite bool_decide_false by done.
  by apply (unmarshalWith_spec e m0 m cs t (w :: want) r).
Qed.

Lemma view_ranges m columns : v_ranges (columns_view m columns) = vis (timeRange m).
Proof. unfold columns_view. repeat case_match; done. Qed.

Lemma decoded_times m' m columns :
  chunk_ok m → chunk_view m' = columns_view m columns → ChunkMeta_MinMaxTime m' = Ok (tmin m, tmax m).
Proof.
  intros Hm Hv. apply (f_equal v_ranges) in Hv. rewrite view_ranges in Hv. cbn in Hv.
  rewrite MinMaxTime_spec by (rewrite Hv; apply Hm). unfold tmin, tmax. by rewrite Hv.
Qed.

(** *** Reading the chunk meta of a series *)

Section Find.
Variables (r : tsspFileReader) (cbs : list (list ChunkMeta)) (bs : list (list Z)).
Hypothesis Ho : opened r cbs bs.
Hypothesis Hs : ids_sorted (concat cbs).
Hypothesis Hok : Forall chunk_ok (concat cbs).
Hypothesis Hord : Forall well_ordered (concat cbs).
Hypothesis Hsz : Z.of_nat (metas_size e (concat cbs)) < 2 ^ 32.

Lemma block_facts k ms :
  cbs !! k = Some ms → ids_sorted ms ∧ Forall chunk_ok ms ∧ Forall well_ordered ms ∧ Z.of_nat (metas_size e ms) < 2 ^ 32 ∧ (∀ m, m ∈ ms → m ∈ concat cbs).
Proof using Hs Hok Hord Hsz.
  intros Hk. pose proof (block_sorted cbs k ms Hs Hk).
  rewrite <- (take_drop_middle cbs k ms Hk), concat_app in Hok, Hord, Hsz |- *. cbn [concat] in *.
  rewrite !metas_size_app in Hsz. rewrite !Forall_app in Hok, Hord. split_and!; try tauto; [lia|].
  intros m Hm. rewrite !elem_of_app. tauto.
Qed.

(** What the search in a block gives for [id]. *)
Lemma reader_ChunkMeta_spec id k ms mi dst columns :
  cbs !! k = Some ms → r_metaIndexItems r !! k = Some mi → columns_ok columns →
  (∃ m m', m ∈ ms ∧ sid m = id ∧ reader_ChunkMeta r id (mi_offset mi) (mi_size mi) (mi_count mi) dst columns = Ok (Some m') ∧
           chunk_view m' = columns_view m columns) ∨
  (∀ m, m ∈ ms → sid m ≠ id) ∧ reader_ChunkMeta r id (mi_offset mi) (mi_size mi) (mi_count mi) dst columns = Ok None.
Proof using Ho Hs Hok Hord Hsz.
  intros Hk Hmi Hc. destruct (block_facts k ms Hk) as (Hs' & Hok' & Hord' & Hsz' & _).
  destruct (block_read r cbs bs k ms Ho Hk) as (m1 & Hm1 & _ & Hcnt & _ & _ & Hrd). assert (m1 = mi) as -> by congruence.
  unfold reader_ChunkMeta. rewrite Hrd. rs. rewrite Hcnt, block_parts by done. rs. unfold searchChunkMeta.
  destruct (search_meta_spec e ms id Hok' Hs' Hsz' (S (length (offs_from e 0 ms))) 0 (length (offs_from e 0 ms)))
    as [(i & m & Hi & Hid & ->)|[Hno ->]]; rewrite ?length_offs_from; try lia.
  - intros i m Hi Hl. apply lookup_lt_Some in Hi. lia.
  - left. rs. rewrite Forall_lookup in Hok', Hord'.
    destruct (decode_columns dst m columns []) as (m' & Hd & Hv); [by apply (Hok' i)|by apply (Hord' i)|done|].
    pose proof (chunk_enc_long e m (Hok' i m Hi)) as Hl. change ChunkMetaMinLen with 82%nat in Hl. rewrite (proj2 (Nat.eqb_neq _ _)) by lia.
    rewrite app_nil_r in Hd. rewrite Hd. rs. exists m, m'. split_and!; try done. by eapply list_elem_of_lookup_2.
  - right. by rs.
Qed.

Lemma sid_in_range m : m ∈ concat cbs → (sid m <? minId (stat (r_trailer r))) || (maxId (stat (r_trailer r)) <? sid m) = false.
Proof using Ho Hs.
  intros Hm. destruct (op_ids r cbs bs Ho) as [-> ->]. pose proof (first_sid_le _ m Hs Hm). rewrite (proj2 (Z.ltb_ge _ _)) by done. cbn [orb].
  apply Z.ltb_ge. clear -Hs Hm. destruct (last (concat cbs)) as [y|] eqn:El; [|apply last_None in El; rewrite El in Hm; by apply not_elem_of_nil in Hm].
  cbn. apply last_Some in El as [l Hl]. rewrite Hl in Hs, Hm. apply StronglySorted_app in Hs as (Hx & _ & _).
  apply elem_of_app in Hm as [Hm|Hm%list_elem_of_singleton]; [|subst; lia]. specialize (Hx m y Hm (list_elem_of_here _ _)). lia.
Qed.

Lemma items_ne : r_metaIndexItems r ≠ [].
Proof using Ho.
  destruct (op_file r cbs bs Ho) as (pre & post & _ & _ & ->). destruct (op_full r cbs bs Ho) as [_ Hne].
  intros E. apply (f_equal length) in E. rewrite length_fmap, length_entries in E by apply (Forall2_length _ _ _ (op_blocks r cbs bs Ho)).
  by apply nil_length_inv in E.
Qed.

Lemma same_sid ms m1 m2 : ids_sorted ms → m1 ∈ ms → m2 ∈ ms → sid m1 = sid m2 → m1 = m2.
Proof.
  intros Hs' [i Hi]%list_elem_of_lookup_1 [j Hj]%list_elem_of_lookup_1 E. destruct (Nat.lt_trichotomy i j) as [H|[->|H]]; [|congruence|].
  - pose proof (sorted_lookup_lt (λ a b, sid a < sid b) ms i j m1 m2 Hs' Hi Hj H). cbn in *. lia.
  - pose proof (sorted_lookup_lt (λ a b, sid a < sid b) ms j i m2 m1 Hs' Hj Hi H). cbn in *. lia.
Qed.

(** A series with rows in the range is found; otherwise nothing is. *)
Lemma readChunkMeta_spec id t0 t1 dst columns :
  columns_ok columns →
  (∃ m m', m ∈ concat cbs ∧ sid m = id ∧ overlaps t0 t1 m = true ∧ readChunkMeta r id t0 t1 dst columns = Ok (Some m') ∧
           chunk_view m' = columns_view m columns) ∨
  (∀ m, m ∈ concat cbs → sid m = id → overlaps t0 t1 m = false) ∧ readChunkMeta r id t0 t1 dst columns = Ok None.
Proof using Ho Hs Hok Hord Hsz.
  intros Hc. unfold readChunkMeta, reader_MetaIndex.
  destruct ((id <? minId (stat (r_trailer r))) || (maxId (stat (r_trailer r)) <? id)) eqn:Erange.
  { right. split; [|done]. intros m Hm <-. rewrite sid_in_range in Erange by done. discriminate. }
  destruct (searchMetaIndexItem_spec (r_metaIndexItems r) id (items_sorted r cbs bs Ho Hs) items_ne) as [(k & mi & Hk & ->)|[Hno ->]]; rs.
  2: { right. split; [|done]. intros m Hm <-. destruct (elem_of_concat m cbs Hm) as (j & ms & Hj & Hmj).
       destruct (block_read r cbs bs j ms Ho Hj) as (m' & Hm' & Hid & _). apply list_elem_of_lookup_2 in Hm'. specialize (Hno m' Hm').
       pose proof (first_sid_le ms m (block_sorted cbs j ms Hs Hj) Hmj). lia. }
  rewrite (proj2 (Z.ltb_ge _ _)), Nat2Z.id by lia. pose proof Hk as (Hki & _ & _). rewrite Hki.
  assert (Hkl : (k < length cbs)%nat).
  { destruct (op_file r cbs bs Ho) as (pre & post & _ & _ & Hi). apply lookup_lt_Some in Hki. rewrite Hi, length_fmap, length_entries in Hki; [done|].
    apply (Forall2_length _ _ _ (op_blocks r cbs bs Ho)). }
  destruct (lookup_lt_is_Some_2 cbs k Hkl) as [ms Hms]. destruct (block_read r cbs bs k ms Ho Hms) as (m1 & Hm1 & _ & _ & Hmin & Hmax & _).
  assert (m1 = mi) as -> by congruence. rewrite Hmin, Hmax. destruct (block_facts k ms Hms) as (_ & Hok' & _ & _ & Hin).
  destruct (TimeRange_Overlaps t0 t1 (fst (bounds ms)) (snd (bounds ms))) eqn:Eov; cbn [negb]; rs.
  2: { right. split; [|done]. intros m Hm Hid. destruct (in_block r cbs bs id k mi m Ho Hs Hk Hm Hid) as (ms' & Hms' & Hmm).
       assert (ms' = ms) as -> by congruence. destruct (overlaps t0 t1 m) eqn:E; [|done]. by rewrite (overlaps_block t0 t1 ms m) in Eov. }
  destruct (reader_ChunkMeta_spec id k ms mi dst columns Hms Hki Hc) as [(m & m' & Hm & Hid & -> & Hv)|[Hno ->]]; rs.
  - rewrite Forall_forall in Hok'. rewrite (decoded_times m' m columns) by (by try apply Hok'). rs. unfold overlaps in *.
    destruct (TimeRange_Overlaps t0 t1 (tmin m) (tmax m)) eqn:E; [left; exists m, m'; auto 6|].
    right. split; [|done]. intros m2 Hm2 Hid2. by rewrite <- (same_sid (concat cbs) m m2 Hs (Hin m Hm) Hm2) by congruence.
  - right. split; [|done]. intros m Hm Hid. destruct (in_block r cbs bs id k mi m Ho Hs Hk Hm Hid) as (ms' & Hms' & Hmm).
    assert (ms' = ms) as -> by congruence. by destruct (Hno m Hmm).
Qed.
End Find.
End Opened.

(** * From the builder to the readers

    Flush lays the file out; opening the bytes gives back trailer, bloom filter and meta index;
    every series that was written is found with the columns asked for, and no other. *)

(** ** The bloom filter *)

Lemma pow2_loop_spec fuel : ∀ j v, 0 ≤ j → v ≤ 2 ^ (j + Z.of_nat fuel) → (0 < fuel)%nat → v ≤ 2 ^ (j + Z.of_nat fuel - 1) →
  ∃ k, j ≤ k ∧ pow2_loop fuel (2 ^ j) v = Ok (2 ^ k).
Proof.
  induction fuel as [|fuel IH]; intros j v Hj _ Hf Hv; [lia|]. cbn [pow2_loop]. destruct (Z.leb_spec v (2 ^ j)); [exists j; split; [lia|done]|].
  destruct fuel as [|fuel]; [replace (j + Z.of_nat 1 - 1) with j in Hv by lia; lia|].
  replace (2 ^ j * 2) with (2 ^ (j + 1)) by (rewrite Z.pow_add_r by lia; lia).
  destruct (IH (j + 1) v) as (k & Hk & ->); [lia| |lia| |exists k; split; [lia|done]].
  - etrans; [exact Hv|]. apply Z.pow_le_mono_r; lia.
  - replace (j + 1 + Z.of_nat (S fuel) - 1) with (j + Z.of_nat (S (S fuel)) - 1) by lia. done.
Qed.

Lemma pow2_spec v : v ≤ 2 ^ 61 → ∃ k, 3 ≤ k ∧ pow2 v = Ok (2 ^ k).
Proof.
  intros Hv. unfold pow2. change 8 with (2 ^ 3). apply pow2_loop_spec; [lia| |lia|exact Hv].
  etrans; [exact Hv|]. apply Z.pow_le_mono_r; lia.
Qed.

Section Bloom.
Context `{BL : BloomLaws}.

Lemma insert_all_spec k ids : ∀ bf, let bf' := fold_left (λ bf id, bloom_Insert k bf (put_u64 id)) ids bf in
  length bf' = length bf ∧ (∀ v, bloom_Contains k bf v = true → bloom_Contains k bf' v = true) ∧
  (∀ id, id ∈ ids → bloom_Contains k bf' (put_u64 id) = true).
Proof.
  induction ids as [|x ids IH]; intros bf; cbn [fold_left].
  { split_and!; [done|auto|]. intros id Hin. by apply not_elem_of_nil in Hin. }
  destruct (IH (bloom_Insert k bf (put_u64 x))) as (Hl & Hm & Hi). split_and!.
  - by rewrite Hl, bloom_insert_length.
  - intros v Hv. by apply Hm, bloom_insert_mono.
  - intros id [->|Hin]%elem_of_cons; [apply Hm, bloom_insert_in|by apply Hi].
Qed.

Context {W : Type} `{IW : IndexWriter W}.

Lemma genBloomFilter_spec (b : MsBuilder W) :
  ∃ bf bm bk k, genBloomFilter b = Ok (mk_MsBuilder (b_inited b) (b_data b) (b_cmw b) (b_dataOffset b) (b_mIndex b) (b_currentCMOffset b)
      (b_cmOffset b) (b_metaIndexItems b) (with_stat (b_trailer b) (mk_TS (idCount (stat (b_trailer b))) (minId (stat (b_trailer b)))
        (maxId (stat (b_trailer b))) (ts_minTime (stat (b_trailer b))) (ts_maxTime (stat (b_trailer b))) (metaIndexItemNum (stat (b_trailer b)))
        bm bk (ts_data (stat (b_trailer b))) (ts_name (stat (b_trailer b))))) (b_keys b) (b_pair b) bf (b_msName b)) ∧
    in_u 64 bm ∧ in_u 64 bk ∧ 3 ≤ k ∧ Z.of_nat (length bf) = 2 ^ k ∧ ∀ id, id ∈ b_keys b → bloom_Contains bk bf (put_u64 id) = true.
Proof using BL.
  unfold genBloomFilter. destruct (bloom_Estimate (Z.of_nat (length (b_keys b)))) as [bm bk] eqn:E.
  destruct (bloom_estimate_range (Z.of_nat (length (b_keys b)))) as (H1 & H2 & H3). rewrite E in *. cbn [fst snd] in *.
  rewrite wrap_u_id by (unfold in_u in *; lia). destruct (pow2_spec ((bm + 7) / 8)) as (k & Hk & ->); [zdm|]. rs.
  destruct (insert_all_spec bk (key_order (b_keys b)) (zeros (Z.to_nat (2 ^ k)))) as (Hl & _ & Hi).
  eexists _, bm, bk, k. split; [done|]. split_and!; try done.
  - rewrite Hl. unfold zeros. rewrite length_replicate. apply Z2Nat.id. apply Z.pow_nonneg. lia.
  - intros id Hid. apply Hi. by rewrite key_order_perm.
Qed.
End Bloom.

(** ** The layout *)

Section Flush.
Context `{RT : GoRuntime} `{BL : BloomLaws} `{SN : Snappy} `{LZ : Lz4} {W : Type} `{IW : IndexWriter W}
  (rep : W → list (list Z) → list Z → Prop) (stores : list Z → list Z → Prop) `{IL : !IndexWriterLaws W rep stores}.
Variables (e : bool) (mode : Z) (conf : Config) (t : Trailer).

(** A trailer of a new builder: the name of the measurement, at most the flag for times. *)
Record start_trailer : Prop := {
  st_fresh : fresh_trailer t;
  st_data : (slen (ts_data (stat t)) <= 1)%nat;
  st_name : in_u 16 (Z.of_nat (slen (ts_name (stat t)))) ∧ (0 < slen (ts_name (stat t)))%nat
}.

(** The trailer of the file but for the reserved data. *)
Definition file_trailer (ms : list ChunkMeta) (dlen ilen mlen blen tlen nitems : nat) (bm bk : Z) (d : slice) : Trailer :=
  mk_Trailer 16 (Z.of_nat dlen) (Z.of_nat ilen) (Z.of_nat mlen) (Z.of_nat blen) (Z.of_nat tlen)
    (mk_TS (Z.of_nat (length ms)) (first_sid ms) (default 0 (sid <$> last ms)) (fst (bounds ms)) (snd (bounds ms))
       (Z.of_nat nitems) bm bk d (ts_name (stat t))).

Lemma SetChunkMetaCompressFlag_spec ms dlen ilen mlen blen tlen nitems bm bk :
  (slen (ts_data (stat t)) <= 1)%nat →
  ∃ d, Trailer_SetChunkMetaCompressFlag mode (file_trailer ms dlen ilen mlen blen tlen nitems bm bk (ts_data (stat t)))
       = Ok (file_trailer ms dlen ilen mlen blen tlen nitems bm bk d) ∧ (slen d <= 2)%nat ∧
    Trailer_GetData (file_trailer ms dlen ilen mlen blen tlen nitems bm bk d) 1 ChunkMetaCompressNone = Ok mode.
Proof.
  intros Hd. unfold Trailer_SetChunkMetaCompressFlag. destruct (Z.eqb_spec mode ChunkMetaCompressNone) as [->|Hne]; cbn [negb].
  - exists (ts_data (stat t)). split_and!; [done|lia|]. unfold Trailer_GetData. cbn [file_trailer stat ts_data].
    by rewrite (proj2 (Nat.ltb_lt _ _)) by lia.
  - match goal with |- context [Trailer_SetData ?x _ _] => destruct (SetData_spec x IndexOfChunkMetaCompressFlag mode) as (t' & -> & Hl & Hg & Ht') end.
    exists (ts_data (stat t')). rewrite Ht' at 1. split; [done|]. unfold IndexOfChunkMetaCompressFlag in Hl. split; [lia|].
    rewrite <- (Hg ChunkMetaCompressNone). rewrite Ht' at 2. done.
Qed.

(** The file of the chunks [l] in the blocks [cbs], stored as [bs]. *)
Record layout (l : list (EncodedChunk * Z)) (cbs : list (list ChunkMeta)) (bs : list (list Z)) (idt file : list Z) (tr : Trailer) (bf : list Z) : Prop := {
  la_blocks : concat cbs = metas l ∧ Forall (λ ms, ms ≠ []) cbs ∧ Forall2 (λ s ms, stores s (block_enc e ms)) bs cbs;
  la_file : file = (fileHeader ++ chunk_bytes l) ++ concat bs ++
    index_bytes (shift_index (Z.of_nat (length (fileHeader ++ chunk_bytes l))) <$> entries 0 bs cbs) ++ bf ++ idt ++
    sdata (Trailer_marshal tr nil_slice) ++
    put_u64 (zigzag64 (Z.of_nat (length ((fileHeader ++ chunk_bytes l) ++ concat bs ++
      index_bytes (shift_index (Z.of_nat (length (fileHeader ++ chunk_bytes l))) <$> entries 0 bs cbs) ++ bf ++ idt))));
  la_trailer : ∃ bm bk d, tr = file_trailer (metas l) (length (chunk_bytes l)) (length (concat bs))
      (length (index_bytes (shift_index (Z.of_nat (length (fileHeader ++ chunk_bytes l))) <$> entries 0 bs cbs))) (length bf) (length idt) (length cbs) bm bk d ∧
      (slen d <= 2)%nat ∧ in_u 64 bm ∧ in_u 64 bk;
  la_mode : Trailer_GetData tr 1 ChunkMetaCompressNone = Ok mode;
  la_bloom : (∃ k, 3 ≤ k ∧ Z.of_nat (length bf) = 2 ^ k) ∧ ∀ m, m ∈ metas l → bloom_Contains (bloomK (stat tr)) bf (put_u64 (sid m)) = true
}.

Lemma Flush_spec name b l idt :
  start_trailer → finv rep stores e name t b l → l ≠ [] → chunk_bytes l ≠ [] → Forall chunk_ok (metas l) → Z.of_nat (metas_size e (metas l)) < 2 ^ 32 →
  ∃ file b' cbs bs tr bf, Flush mode b idt = Ok (file, b') ∧ layout l cbs bs idt file tr bf.
Proof using BL IL.
  intros Ht [(cbs0 & bs0 & cur & Hb & Hcat) _ Hd Htr Hk _ _] Hne Hcb Hok Hsz. rewrite decide_False in Hd by done. rewrite decide_False in Htr by done. unfold Flush. rewrite Hd.
  assert (Hlen : (16 < length (fileHeader ++ chunk_bytes l))%nat).
  { rewrite length_app. change (length fileHeader) with 16%nat. destruct (chunk_bytes l); [done|]. cbn [length]. lia. }
  rewrite (proj2 (Nat.leb_gt _ _)) by done.
  assert (Hsw : ∃ b1 cbs bs, (if 0 <? mi_count (b_mIndex b) then SwitchChunkMeta b else Ok b) = Ok b1 ∧ binv rep stores e b1 cbs bs [] ∧
    concat cbs = metas l ∧ b_data b1 = b_data b ∧ b_trailer b1 = b_trailer b ∧ b_keys b1 = b_keys b).
  { destruct (decide (cur = [])) as [->|Hcur].
    - pose proof (bi_cur _ _ _ _ _ _ _ Hb) as Hmi. rewrite decide_True in Hmi by done. rewrite Hmi. exists b, cbs0, bs0. rewrite app_nil_r in Hcat. by split_and!.
    - pose proof (bi_cur _ _ _ _ _ _ _ Hb) as Hmi. rewrite decide_False in Hmi by done. destruct Hmi as [Hmi _]. rewrite Hmi. cbn [entry mi_count].
      rewrite (proj2 (Z.ltb_lt _ _)) by (destruct cur; [done|cbn; lia]).
      destruct (SwitchChunkMeta_spec rep stores e b cbs0 bs0 cur Hb Hcur) as (b1 & s & -> & Hb1 & (_ & _ & Ht1 & Hk1 & _) & Hd1 & _).
      + rewrite <- Hcat, Forall_app in Hok. tauto.
      + rewrite <- Hcat, metas_size_app in Hsz. lia.
      + exists b1, (cbs0 ++ [cur]), (bs0 ++ [s]). split_and!; try done. rewrite concat_app. cbn. by rewrite app_nil_r. }
  destruct Hsw as (b1 & cbs & bs & -> & Hb1 & Hcat1 & Hd1 & Ht1 & Hk1). rs. clear Hb Hcat.
  destruct (genBloomFilter_spec b1) as (bf & bm & bk & k & -> & Hbm & Hbk & Hk3 & Hbl & Hbi). rs. bf.
  assert (Hbs : bs ≠ []).
  { intros ->. pose proof (bi_blocks _ _ _ _ _ _ _ Hb1) as Hbb. apply Forall2_nil_inv_l in Hbb as ->. cbn in Hcat1. symmetry in Hcat1. apply fmap_nil_inv in Hcat1. done. }
  rewrite (iwl_copy _ bs (bi_rep _ _ _ _ _ _ _ Hb1) Hbs). rs. rewrite (iwl_size _ bs (bi_rep _ _ _ _ _ _ _ Hb1)), Nat.eqb_refl. cbn [negb].
  rewrite (bi_items _ _ _ _ _ _ _ Hb1), Hd1, Hd, Ht1, Htr.
  set (hd := fileHeader ++ chunk_bytes l) in *. set (items := shift_index (Z.of_nat (length hd)) <$> entries 0 bs cbs).
  assert (Hni : length items = length cbs).
  { unfold items. rewrite length_fmap. apply length_entries. apply (Forall2_length _ _ _ (bi_blocks _ _ _ _ _ _ _ Hb1)). }
  match goal with |- context [Trailer_SetChunkMetaCompressFlag mode ?x] =>
    replace x with (file_trailer (metas l) (length (chunk_bytes l)) (length (concat bs)) (length (index_bytes items)) (length bf) (length idt) (length cbs) bm bk (ts_data (stat t))) end.
  2: { unfold file_trailer, with_stat, stat_of. cbn [stat idCount minId maxId ts_minTime ts_maxTime metaIndexItemNum bloomM bloomK ts_data ts_name]. rewrite Hni. f_equal.
       - unfold hd. rewrite length_app. change (length fileHeader) with 16%nat. unfold fileHeaderSize. lia.
       - rewrite length_app. lia. }
  destruct (SetChunkMetaCompressFlag_spec (metas l) (length (chunk_bytes l)) (length (concat bs)) (length (index_bytes items)) (length bf) (length idt) (length cbs) bm bk) as (d & -> & Hdl & Hmode); [apply Ht|].
  rs. eexists _, _, cbs, bs, (file_trailer _ _ _ _ _ _ _ bm bk d), bf. split; [done|]. split.
  - split_and!; [done|apply Hb1|apply Hb1].
  - unfold MarshalInt64Append. rewrite sdata_append. cbn [nil_slice sdata app]. fold hd. fold items. by rewrite <- !app_assoc.
  - fold hd. fold items. exists bm, bk, d. by split_and!.
  - done.
  - split; [by exists k|]. intros m Hm. cbn [file_trailer stat bloomK]. apply Hbi. rewrite Hk1, Hk. by apply list_elem_of_fmap_2.
Qed.
End Flush.

(** ** Opening *)

Lemma times_in_s m : chunk_ok m → in_s 64 (tmin m) ∧ in_s 64 (tmax m).
Proof.
  intros Hm. pose proof (ck_trs m Hm) as Hr. pose proof (ck_segs m Hm) as Hl. unfold tmin, tmax. rewrite Forall_forall in Hr.
  destruct (vis (timeRange m)) as [|x trs] eqn:E; [cbn in Hl; lia|]. split.
  - cbn. apply Hr, list_elem_of_here.
  - destruct (last (x :: trs)) as [y|] eqn:El; [|by apply last_None in El]. cbn. apply Hr. apply last_Some in El as [k ->]. apply elem_of_app. right. apply list_elem_of_here.
Qed.

Lemma bounds_in_s ms : ms ≠ [] → Forall chunk_ok ms → in_s 64 (fst (bounds ms)) ∧ in_s 64 (snd (bounds ms)).
Proof.
  destruct ms as [|m ms]; [done|]. intros _ Hok. inversion Hok as [|?? Hm Hok']; subst. cbn [bounds].
  assert (Hp : in_s 64 (fst (tmin m, tmax m)) ∧ in_s 64 (snd (tmin m, tmax m))) by by apply times_in_s.
  revert Hp. generalize (tmin m, tmax m). clear -Hok'. induction Hok' as [|x ms Hx _ IH]; intros p Hp; [done|]. cbn [fold_left]. apply IH.
  unfold widen. cbn [fst snd]. pose proof (times_in_s x Hx). destruct (_ <? _), (_ <? _); tauto.
Qed.

Lemma sid_in_u m ms : Forall chunk_ok ms → m ∈ ms → in_u 64 (sid m).
Proof. intros Hok Hm. rewrite Forall_forall in Hok. apply (Hok m Hm). Qed.

Lemma first_sid_in_u ms : Forall chunk_ok ms → in_u 64 (first_sid ms).
Proof.
  intros Hok. unfold first_sid. destruct ms as [|m ms]; [cbn; unfold in_u; lia|]. cbn. by inversion Hok as [|?? Hm _]; apply Hm.
Qed.
Lemma last_sid_in_u ms : Forall chunk_ok ms → in_u 64 (default 0 (sid <$> last ms)).
Proof.
  intros Hok. destruct (last ms) as [m|] eqn:E; [|cbn; unfold in_u; lia]. cbn. eapply sid_in_u; [exact Hok|].
  apply last_Some in E as [k ->]. apply elem_of_app. right. apply list_elem_of_here.
Qed.

Section Open.
Context `{RT : GoRuntime} `{BL : BloomLaws} `{SN : Snappy} `{LZ : Lz4}.

Lemma index_bytes_enc items : index_bytes items = concat (mi_enc <$> items).
Proof. unfold index_bytes. f_equal. apply list_fmap_ext. intros i m _. by rewrite MetaIndex_marshal_data. Qed.

Lemma index_loop_spec items r : Forall mi_ok items → index_loop (length items) (index_bytes items ++ r) = Ok items.
Proof.
  rewrite index_bytes_enc. induction 1 as [|m items Hm _ IH]; [done|]. rewrite fmap_cons. cbn [length index_loop concat]. rewrite <- app_assoc, mi_roundtrip by done. rs.
  by rewrite IH.
Qed.

Context (stores : list Z → list Z → Prop).
Variables (e : bool) (mode : Z) (t : Trailer).
Hypothesis Hstores : ∀ s cur, stores s cur → decompressChunkMeta mode s = Ok cur.

Section File.
Variables (l : list (EncodedChunk * Z)) (cbs : list (list ChunkMeta)) (bs : list (list Z)) (idt file : list Z) (tr : Trailer) (bf : list Z).
Hypothesis Hst : start_trailer t.
Hypothesis Hla : layout stores e mode t l cbs bs idt file tr bf.
Hypothesis Hok : Forall chunk_ok (metas l).
Hypothesis Hne : l ≠ [].
Hypothesis Hsz : Z.of_nat (metas_size e (metas l)) < 2 ^ 32.
Hypothesis Hfile : Z.of_nat (length file) < 2 ^ 32.

Definition hdr : list Z := fileHeader ++ chunk_bytes l.
Definition items : list MetaIndex := shift_index (Z.of_nat (length hdr)) <$> entries 0 bs cbs.

Lemma cbs_length : length bs = length cbs.
Proof using Hla. destruct (la_blocks _ _ _ _ _ _ _ _ _ _ _ Hla) as (_ & _ & Hf). by apply Forall2_length in Hf. Qed.

Lemma file_sizes :
  (length hdr + length (concat bs) + length (index_bytes items) + length bf + length idt + length (sdata (Trailer_marshal tr nil_slice)) + 8)%nat = length file.
Proof using Hla.
  rewrite (la_file _ _ _ _ _ _ _ _ _ _ _ Hla). fold hdr. fold items. rewrite !length_app, length_put_u64. lia.
Qed.

Lemma metas_ne : metas l ≠ [].
Proof using Hne. intros E. by apply fmap_nil_inv in E. Qed.

Lemma cbs_count : Z.of_nat (length cbs) ≤ Z.of_nat (length (metas l)) ∧ Z.of_nat (length (metas l)) < 2 ^ 32.
Proof using Hla Hsz.
  split; [|unfold metas_size in Hsz; lia]. destruct (la_blocks _ _ _ _ _ _ _ _ _ _ _ Hla) as (<- & Hf & _). clear -Hf.
  induction Hf as [|ms cbs Hms _ IH]; [done|]. cbn [concat length]. rewrite length_app. destruct ms; [done|]. cbn [length]. lia.
Qed.

Lemma file_trailer_ok : trailer_ok tr.
Proof using Hst Hla Hok Hne Hsz Hfile.
  destruct (la_trailer _ _ _ _ _ _ _ _ _ _ _ Hla) as (bm & bk & d & Htr & Hd & Hbm & Hbk). pose proof file_sizes as Hl. pose proof cbs_count as Hc.
  pose proof (bounds_in_s (metas l) metas_ne Hok) as [Hb1 Hb2]. destruct (st_name _ Hst) as [Hn1 Hn2]. unfold hdr in Hl. rewrite length_app in Hl. rewrite Htr. fold hdr. fold items.
  assert (Hs : ∀ n, (n <= length file)%nat → in_s 64 (Z.of_nat n)) by (intros n Hnl; unfold in_s; lia).
  split; cbn [file_trailer dataOffset dataSize indexSize metaIndexSize bloomSize idTimeSize stat idCount minId maxId ts_minTime ts_maxTime metaIndexItemNum bloomM bloomK ts_data ts_name].
  - split_and!; try (apply Hs; lia). unfold in_s. lia.
  - split_and!; try done; try (unfold in_s; lia); [by apply first_sid_in_u|by apply last_sid_in_u].
  - unfold in_u. lia.
  - done.
Qed.

Lemma items_ok : Forall mi_ok items.
Proof using Hla Hok Hne Hsz Hfile.
  destruct (la_blocks _ _ _ _ _ _ _ _ _ _ _ Hla) as (Hcat & Hfull & _). pose proof cbs_length as Hcl. pose proof file_sizes as Hl. pose proof cbs_count as Hcc.
  apply Forall_fmap, Forall_lookup. intros k m Hk. pose proof (lookup_lt_Some _ _ _ Hk) as Hlt. rewrite length_entries in Hlt by done.
  destruct (lookup_lt_is_Some_2 cbs k Hlt) as [ms Hms]. destruct (lookup_lt_is_Some_2 bs k) as [b Hb]; [lia|].
  rewrite (entries_lookup bs cbs 0 k b ms) in Hk by done. injection Hk as <-.
  pose proof (f_equal length (concat_split bs k b Hb)) as Hsp. rewrite !length_app in Hsp.
  assert (Hmsok : Forall chunk_ok ms ∧ (length ms <= length (metas l))%nat).
  { rewrite <- Hcat in Hok |- *. rewrite <- (take_drop_middle cbs k ms Hms), concat_app in Hok |- *. cbn [concat] in *. rewrite !Forall_app in Hok. rewrite !length_app. split; [tauto|lia]. }
  destruct Hmsok as [Hmsok Hml]. rewrite Forall_lookup in Hfull. destruct (bounds_in_s ms (Hfull k ms Hms) Hmsok) as [Hb1 Hb2].
  cbn. unfold mi_ok, shift_index, entry. cbn [mi_id mi_minTime mi_maxTime mi_offset mi_count mi_size]. split_and!; try done.
  - by apply first_sid_in_u.
  - apply wrap_s_range. lia.
  - unfold in_u. lia.
  - apply wrap_u_range. lia.
Qed.

(** The bytes of the trailer and the footer that points at them. *)
Lemma NewTSSPFileReader_spec tr0 :
  ∃ tr', NewTSSPFileReader tr0 file = Ok (mk_reader file version (Z.of_nat (length file - 8 - length (trailer_enc tr))) tr' [] [] ChunkMetaCompressNone) ∧
    trailer_view tr' = trailer_view tr.
Proof using Hst Hla Hok Hne Hsz Hfile.
  pose proof file_trailer_ok as Htr. pose proof file_sizes as Hl. pose proof (la_file _ _ _ _ _ _ _ _ _ _ _ Hla) as Hf. fold hdr in Hf. fold items in Hf.
  rewrite (Trailer_marshal_data tr nil_slice Htr) in Hf, Hl. cbn [nil_slice sdata app] in Hf, Hl.
  set (front := hdr ++ concat bs ++ index_bytes items ++ bf ++ idt) in *.
  assert (Hf2 : file = front ++ trailer_enc tr ++ put_u64 (zigzag64 (Z.of_nat (length front)))).
  { rewrite Hf. unfold front. by rewrite <- !app_assoc. }
  assert (Hfl : length file = (length front + length (trailer_enc tr) + 8)%nat) by (rewrite Hf2 at 1; rewrite !length_app, length_put_u64; lia).
  pose proof (length_trailer_enc tr) as Htl. destruct (to_name tr Htr) as [_ Hn].
  assert (Hhl : (16 <= length hdr)%nat) by (unfold hdr; rewrite length_app; change (length fileHeader) with 16%nat; lia).
  assert (Hfr : length front = (length file - 8 - length (trailer_enc tr))%nat) by lia.
  unfold NewTSSPFileReader. change minTableSize with 141. rewrite (proj2 (Z.ltb_ge _ _)).
  2: { unfold front in Hfl. rewrite !length_app in Hfl. lia. }
  assert (H1 : ReadAt file 0 (Z.of_nat fileHeaderSize) = Ok fileHeader).
  { rewrite Hf. unfold hdr. rewrite <- app_assoc. apply (ReadAt_middle [] fileHeader); done. }
  rewrite H1. rs. change (between fileHeader 0 8) with (Ok (string_bytes tableMagic)). rs. rewrite bytes_string_bytes, bool_decide_true by done. cbn [negb].
  change (from fileHeader 8) with (Ok (put_u64 version)). rs. change (UnmarshalUint64 (put_u64 version)) with (Ok version). rs.
  assert (H2 : ReadAt file (Z.of_nat (length file) - 8) 8 = Ok (put_u64 (zigzag64 (Z.of_nat (length front))))).
  { rewrite Hf2 at 1. rewrite <- (app_nil_r (put_u64 _)), app_assoc. apply ReadAt_middle; [rewrite length_app; lia|done]. }
  rewrite H2. rs. rewrite <- (app_nil_r (put_u64 _)), read_int64 by (unfold in_s; lia). rs.
  rewrite (proj2 (Z.ltb_ge _ 0)) by lia. rewrite (proj2 (Z.ltb_ge _ _)) by lia. cbn [orb].
  replace (Z.of_nat (length file) - 8 - Z.of_nat (length front)) with (Z.of_nat (length (trailer_enc tr))) by lia. rewrite wrap_u_id by (unfold in_u; lia).
  assert (H3 : ReadAt file (Z.of_nat (length front)) (Z.of_nat (length (trailer_enc tr))) = Ok (trailer_enc tr)).
  { rewrite Hf2 at 1. by apply ReadAt_middle. }
  rewrite H3. rs.
  destruct (trailer_roundtrip tr0 tr [] Htr) as (tr' & Htr' & Hv). rewrite app_nil_r in Htr'. rewrite Htr'. rs. exists tr'. by rewrite <- Hfr.
Qed.

(** What the components are after loading. *)
Lemma LoadComponents_spec tr' off :
  trailer_view tr' = trailer_view tr →
  ∃ r, LoadComponents (mk_reader file version off tr' [] [] ChunkMetaCompressNone) = Ok r ∧
    r_file r = file ∧ r_trailer r = tr' ∧ r_bloom r = bf ∧ r_metaIndexItems r = items ∧ r_chunkMetaCompressMode r = mode.
Proof using BL Hst Hla Hok Hne Hsz Hfile.
  intros Hv. pose proof file_sizes as Hl. pose proof (la_file _ _ _ _ _ _ _ _ _ _ _ Hla) as Hf. fold hdr in Hf. fold items in Hf.
  destruct (la_trailer _ _ _ _ _ _ _ _ _ _ _ Hla) as (bm & bk & d & Htr & _). fold hdr in Htr. fold items in Htr.
  destruct (la_bloom _ _ _ _ _ _ _ _ _ _ _ Hla) as [(k & Hk & Hbl) _].
  assert (Hw : ∀ z, 0 ≤ z < 2 ^ 40 → i64 z = z) by (intros; apply wrap_s_id; [lia|unfold in_s; lia]).
  assert (Hnum : dataOffset tr' = 16 ∧ dataSize tr' = Z.of_nat (length (chunk_bytes l)) ∧ indexSize tr' = Z.of_nat (length (concat bs)) ∧
    metaIndexSize tr' = Z.of_nat (length (index_bytes items)) ∧ bloomSize tr' = Z.of_nat (length bf) ∧ metaIndexItemNum (stat tr') = Z.of_nat (length cbs)).
  { rewrite Htr in Hv. apply (f_equal (λ t, (dataOffset t, dataSize t, indexSize t, metaIndexSize t, bloomSize t, metaIndexItemNum (stat t)))) in Hv.
    cbn in Hv. by injection Hv. }
  destruct Hnum as (N1 & N2 & N3 & N4 & N5 & N6).
  assert (Hhl : Z.of_nat (length hdr) = 16 + Z.of_nat (length (chunk_bytes l))) by (unfold hdr; rewrite length_app; change (length fileHeader) with 16%nat; lia).
  unfold LoadComponents, loadBloomFilter, Trailer_metaIndexOffsetSize. cbn [r_trailer r_file fst]. rewrite N1, N2, N3, N4, N5.
  rewrite (Hw (16 + _ + _)) by lia. rewrite Hw by lia. rewrite wrap_u_id by (unfold in_u; lia).
  assert (H1 : ReadAt file (16 + Z.of_nat (length (chunk_bytes l)) + Z.of_nat (length (concat bs)) + Z.of_nat (length (index_bytes items))) (Z.of_nat (length bf)) = Ok bf).
  { rewrite Hf, !app_assoc, <- (app_assoc _ idt), <- (app_assoc _ (idt ++ _)), <- (app_assoc _ bf). apply ReadAt_middle; [rewrite !length_app; lia|done]. }
  rewrite H1. rs. rewrite (bloom_new _ k) by done. rs. unfold loadMetaIndex. cbn [r_metaIndexItems length Nat.eqb negb r_trailer r_file].
  unfold Trailer_metaIndexOffsetSize. rewrite N1, N2, N3, N4, N6. rewrite Hw by lia. rewrite wrap_u_id by (unfold in_u; lia).
  assert (H2 : ReadAt file (16 + Z.of_nat (length (chunk_bytes l)) + Z.of_nat (length (concat bs))) (Z.of_nat (length (index_bytes items))) = Ok (index_bytes items)).
  { rewrite Hf, (app_assoc hdr). apply ReadAt_middle; [rewrite !length_app; lia|done]. }
  rewrite H2. rs. rewrite (proj2 (Z.ltb_ge _ _)), Nat2Z.id by lia.
  assert (Hni : length cbs = length items) by (unfold items; rewrite length_fmap; symmetry; apply length_entries, cbs_length).
  rewrite Hni, <- (app_nil_r (index_bytes items)), index_loop_spec by apply items_ok. rs. cbn [r_trailer].
  rewrite (GetData_view tr tr') by done. unfold IndexOfChunkMetaCompressFlag. rewrite (la_mode _ _ _ _ _ _ _ _ _ _ _ Hla). rs. eexists; split; [done|]. by cbn.
Qed.
(** The file is as [opened] says. *)
Lemma opened_spec r tr' :
  r_file r = file → r_trailer r = tr' → r_metaIndexItems r = items → r_chunkMetaCompressMode r = mode → trailer_view tr' = trailer_view tr →
  opened e mode r cbs bs.
Proof using Hla Hne Hfile Hstores.
  intros Rf Rt Ri Rm Hv. destruct (la_blocks _ _ _ _ _ _ _ _ _ _ _ Hla) as (Hcat & Hfull & Hbl).
  destruct (la_trailer _ _ _ _ _ _ _ _ _ _ _ Hla) as (bm & bk & d & Htr & _). pose proof (la_file _ _ _ _ _ _ _ _ _ _ _ Hla) as Hf. fold hdr in Hf.
  rewrite Htr in Hv. apply (f_equal (λ t, (dataOffset t, dataSize t, indexSize t, minId (stat t), maxId (stat t)))) in Hv. cbn in Hv. injection Hv as V1 V2 V3 V4 V5.
  split; rewrite ?Rf, ?Rt; try done.
  - exists hdr. eexists. split; [exact Hf|]. split; [|exact Ri]. rewrite V1, V2. unfold hdr. rewrite length_app. change (length fileHeader) with 16%nat. lia.
  - eapply Forall2_impl; [exact Hbl|]. intros s ms. apply Hstores.
  - split; [done|]. intros ->. cbn in Hcat. by apply metas_ne.
  - rewrite V4, V5, Hcat. done.
Qed.

(** No false negatives: a series with rows in the range passes the filters. *)
Lemma Contains_spec r tr' m t0 t1 :
  r_trailer r = tr' → r_bloom r = bf → trailer_view tr' = trailer_view tr → ids_sorted (metas l) → opened e mode r cbs bs →
  m ∈ metas l → overlaps t0 t1 m = true → reader_Contains r (sid m) t0 t1 = true.
Proof using Hla.
  intros Rt Rb Hv Hs Ho Hm Hov. destruct (la_blocks _ _ _ _ _ _ _ _ _ _ _ Hla) as (Hcat & _ & _).
  destruct (la_trailer _ _ _ _ _ _ _ _ _ _ _ Hla) as (bm & bk & d & Htr & _).
  assert (Hk : bloomK (stat tr') = bloomK (stat tr)) by (apply (f_equal (λ t, bloomK (stat t))) in Hv; exact Hv).
  assert (Htimes : ts_minTime (stat tr') = fst (bounds (metas l)) ∧ ts_maxTime (stat tr') = snd (bounds (metas l))).
  { rewrite Htr in Hv. apply (f_equal (λ t, (ts_minTime (stat t), ts_maxTime (stat t)))) in Hv. cbn in Hv. by injection Hv. }
  unfold reader_Contains, Trailer_ContainsId, Trailer_ContainsTime. rewrite Rt, Rb, Hk.
  rewrite <- Hcat in Hs. pose proof (sid_in_range e mode r cbs bs Ho Hs m) as Hr. rewrite Hcat, Rt in Hr. specialize (Hr Hm). apply orb_false_iff in Hr as [H1 H2].
  apply Z.ltb_ge in H1, H2. rewrite (proj2 (Z.leb_le _ _) H1), (proj2 (Z.leb_le _ _) H2). destruct Htimes as [-> ->].
  rewrite (overlaps_block t0 t1 (metas l) m) by done. cbn [negb andb orb]. by apply (la_bloom _ _ _ _ _ _ _ _ _ _ _ Hla).
Qed.
End File.
End Open.

(** ** The theorem *)

Section Whole.
Context `{RT : GoRuntime} `{BL : BloomLaws} `{SN : Snappy} `{LZ : Lz4} {W : Type} `{IW : IndexWriter W}
  (rep : W → list (list Z) → list Z → Prop) (stores : list Z → list Z → Prop) `{IL : !IndexWriterLaws W rep stores}.
Variables (e : bool) (mode : Z) (conf : Config).

(** The chunks a file can be made of: ids ascend, fields are ordered, the time is last. *)
Record chunks_ok (l : list (EncodedChunk * Z)) : Prop := {
  cs_some : l ≠ [] ∧ chunk_bytes l ≠ [];
  cs_ok : Forall chunk_ok (metas l);
  cs_ordered : Forall well_ordered (metas l);
  cs_sorted : ids_sorted (metas l);
  cs_size : Z.of_nat (metas_size e (metas l)) < 2 ^ 32
}.

(** What a reader finds for a series and a time range. *)
Definition finds (l : list (EncodedChunk * Z)) (r : tsspFileReader) (id t0 t1 : Z) (dst : ChunkMeta) (columns : list string) : Prop :=
  (∃ m m', m ∈ metas l ∧ sid m = id ∧ overlaps t0 t1 m = true ∧ reader_Contains r id t0 t1 = true ∧
           readChunkMeta r id t0 t1 dst columns = Ok (Some m') ∧ chunk_view m' = columns_view e m columns) ∨
  (∀ m, m ∈ metas l → sid m = id → overlaps t0 t1 m = false) ∧ readChunkMeta r id t0 t1 dst columns = Ok None.

Lemma file_spec name w t tr0 l idt :
  (∀ s cur, stores s cur → decompressChunkMeta mode s = Ok cur) → rep w [] [] → start_trailer t → chunks_ok l →
  ∃ b file b', WriteAll e mode conf (new_builder name w t) l = Ok b ∧ Flush mode b idt = Ok (file, b') ∧
    (Z.of_nat (length file) < 2 ^ 32 →
     ∃ r, (let! r := NewTSSPFileReader tr0 file in LoadComponents r) = Ok r ∧
       ∀ id t0 t1 dst columns, columns_ok columns → finds l r id t0 t1 dst columns).
Proof using BL IL.
  intros Hst Hw Ht [[Hne Hcb] Hok Hord Hs Hsz].
  destruct (WriteAll_spec rep stores e mode conf name t l (new_builder name w t) []) as (b & Hb & Hfin); [by apply new_builder_spec|apply Ht|done..|]. cbn [app] in Hfin.
  destruct (Flush_spec rep stores e mode t name b l idt) as (file & b' & cbs & bs & tr & bf & Hfl & Hla); [done..|].
  exists b, file, b'. split; [done|]. split; [done|]. intros Hfile.
  destruct (NewTSSPFileReader_spec stores e mode t l cbs bs idt file tr bf Ht Hla Hok Hne Hsz Hfile tr0) as (tr' & -> & Hv). rs.
  destruct (LoadComponents_spec stores e mode t l cbs bs idt file tr bf Ht Hla Hok Hne Hsz Hfile tr' (Z.of_nat (length file - 8 - length (trailer_enc tr))) Hv)
    as (r & -> & Rf & Rt & Rb & Ri & Rm).
  exists r. split; [done|]. intros id t0 t1 dst columns Hc.
  pose proof (opened_spec stores e mode t Hst l cbs bs idt file tr bf Hla Hne Hfile r tr' Rf Rt Ri Rm Hv) as Ho.
  destruct (la_blocks _ _ _ _ _ _ _ _ _ _ _ Hla) as (Hcat & _ & _). unfold finds.
  destruct (readChunkMeta_spec e mode r cbs bs Ho) with (id := id) (t0 := t0) (t1 := t1) (dst := dst) (columns := columns)
    as [(m & m' & Hm & Hid & Hov & Hr & Hvw)|[Hno Hr]]; rewrite ?Hcat; try done; rewrite Hcat in *; [left|by right].
  exists m, m'. split_and!; try done. rewrite <- Hid. by apply (Contains_spec stores e mode t l cbs bs idt file tr bf Hla r tr').
Qed.
End Whole.
