(* ===== verification/FileRuns.v ===== *)
(** * The theorems about files, with runs *)

From Stdlib Require String.
From stdpp Require Import gmap sorting.
From S2P Require Import Prelude GoString GoSlice NumberEnc Bitmap ColVal TimeSearch Record RecordSort Coder.
From S2P Require Import FileMeta FileCodec IndexWriter FileBuild FileRead FileWrite FileFind.

(** A filter that says yes to everything has the laws. *)
Definition yes_bloom : BloomEnv := {|
  bloom_Estimate n := (8 * (n mod 2 ^ 50), 3);
  bloom_NewFilterBuffer _ _ := true;
  bloom_Insert _ buf _ := buf;
  bloom_Contains _ _ _ := true;
  key_order l := l |}.

#[export] Instance yes_bloom_laws : BloomLaws yes_bloom.
Proof.
  split; cbn; try done. intros n. pose proof (Z.mod_pos_bound n (2 ^ 50)). unfold in_u. lia.
Qed.

(** ** Chunk metas *)

Section Chunks.
Context `{GoRuntime}.

(** C13: A chunk meta that passes the validation is read back from its bytes as it was written,
    whatever follows the bytes and whatever the object it is read into held before; only
    pre-aggregates that are not stored come back as zeros. *)
Theorem ChunkMeta_reads_back (e : bool) (m0 m : ChunkMeta) (dst : slice) (r : list Z) :
  chunk_ok m →
  ∃ m', ChunkMeta_unmarshal m0 (appended dst (ChunkMeta_marshal e m dst) ++ r) = Ok (m', r) ∧ chunk_view m' = stored_chunk e m.
Proof. intros Hm. rewrite ChunkMeta_appended by done. by apply unmarshal_spec. Qed.

(** C12: Reading a chunk meta with some columns gives exactly what reading all of it and
    dropping the other columns gives, and ends at the same place: the walk over the encoded
    columns does not pass one it needs. The chunk meta is valid with its time column last; the
    columns asked for, sorted by name with the time column at the end, may be missing in the
    chunk meta or repeated. *)
Theorem UnmarshalWithColumns_filters (e : bool) (m1 m2 m : ChunkMeta) (cs : list ColumnMeta) (t : ColumnMeta) (want : list string) (dst : slice) (r : list Z) :
  chunk_ok m → time_last m cs t → want ≠ [] → Forall (λ c, c ≠ TimeField) want → wants_sorted want → in_u 32 (Z.of_nat (length want) + 1) →
  ∃ all some, ChunkMeta_unmarshal m1 (appended dst (ChunkMeta_marshal e m dst) ++ r) = Ok (all, r) ∧
    ChunkMeta_UnmarshalWithColumns m2 (appended dst (ChunkMeta_marshal e m dst) ++ r) (want ++ [TimeField]) = Ok (some, r) ∧
    v_cols (chunk_view some) = filter (λ c, v_name c ∈ want ++ [TimeField]) (v_cols (chunk_view all)) ∧
    v_columnCount (chunk_view some) = Z.of_nat (length (v_cols (chunk_view some))) ∧
    v_ranges (chunk_view some) = v_ranges (chunk_view all) ∧ v_sid (chunk_view some) = v_sid (chunk_view all) ∧
    v_offset (chunk_view some) = v_offset (chunk_view all) ∧ v_size (chunk_view some) = v_size (chunk_view all) ∧
    v_segCount (chunk_view some) = v_segCount (chunk_view all).
Proof.
  intros Hm Ht Hne Hnt Hw Hu. rewrite ChunkMeta_appended by done.
  destruct (unmarshal_spec e m1 m r Hm) as (all & Hall & Hva). destruct (unmarshalWith_spec e m2 m cs t want r) as (some & Hsome & Hvs); [done..|].
  exists all, some. rewrite Hva, Hvs. unfold chosen, stored_chunk. cbn [v_cols v_columnCount v_ranges v_sid v_offset v_size v_segCount].
  rewrite length_fmap. split_and!; try done. clear. induction (vis (colMeta m)) as [|c l IH]; [done|].
  rewrite fmap_cons, !filter_cons. cbn [stored v_name]. case_decide; [rewrite fmap_cons; by f_equal|done].
Qed.
End Chunks.

(** ** Files *)

(** What writing the chunks [l] with the index writer [w] and reading the file gives. *)
Definition file_correct `{GoRuntime} `{BloomEnv} `{Snappy} `{Lz4} {W : Type} `{IndexWriter W} (e : bool) (mode : Z) (conf : Config)
    (name : string) (w : W) (t tr0 : Trailer) (l : list (EncodedChunk * Z)) (idt : list Z) : Prop :=
  ∃ b file b', WriteAll e mode conf (new_builder name w t) l = Ok b ∧ Flush mode b idt = Ok (file, b') ∧
    (Z.of_nat (length file) < 2 ^ 32 →
     ∃ r, (let! r := NewTSSPFileReader tr0 file in LoadComponents r) = Ok r ∧
       ∀ id t0 t1 dst columns, columns_ok columns → finds e l r id t0 t1 dst columns).

Section Files.
Context `{RT : GoRuntime} `{BL : BloomLaws} `{SL : SnappyLaws} `{LL : Lz4Laws}.

(** C8: A file written chunk by chunk, with ascending series ids, valid chunk metas and data,
    and flushed can be opened if it is below 4 GiB, and a reader finds every series that has
    rows in the time range it asks for: the filters let it through and the chunk meta is the
    one written, with the columns asked for; for any other id and range it finds nothing. This
    holds whether chunk metas are kept in memory, spill to a swap file or are compressed with
    snappy or lz4, and however they are cut into blocks. *)
Theorem file_lookup (e : bool) (conf : Config) (cacheMeta : bool) (blockSize : nat) (name : string) (t tr0 : Trailer) (l : list (EncodedChunk * Z)) (idt : list Z) :
  start_trailer t → chunks_ok e l →
  file_correct e ChunkMetaCompressNone conf name (indexWriter_Init cacheMeta blockSize) t tr0 l idt ∧
  ∀ mode, mode = ChunkMetaCompressSnappy ∨ mode = ChunkMetaCompressLZ4 →
    @file_correct _ _ _ _ _ (IndexCompressWriter_writer mode) e mode conf name (IndexCompressWriter_Init blockSize) t tr0 l idt.
Proof.
  intros Ht Hl. split.
  - apply (file_spec iw_rep eq); [|apply indexWriter_Init_rep|done..]. by intros s cur ->.
  - intros mode Hm. pose proof (compress_writer_laws mode Hm) as Hlaws.
    apply (file_spec cw_rep (λ b cur, decompressChunkMeta mode b = Ok cur)); [done|apply IndexCompressWriter_Init_rep|done..].
Qed.
End Files.

(** ** A run *)

Definition run_seg (off size : Z) : vslice Segment := mk_vs [mk_Segment off size] [].
Definition run_col (name : string) (ty : Z) (pre : list Z) (off size : Z) : ColumnMeta := mk_CM name ty (mk_slice pre []) (run_seg off size).
Definition run_meta (id t0 t1 off : Z) : ChunkMeta :=
  mk_ChunkMeta id off 40 3 1 (mk_vs [mk_SR t0 t1] [])
    (mk_vs [run_col "cpu" 3 [7; 7] off 10; run_col "mem" 1 [] (off + 10) 10; run_col "time" 1 [9] (off + 20) 20] []).
Definition run_chunks : list (EncodedChunk * Z) :=
  [(mk_EC [1; 2; 3] (run_meta 4 100 200 16) 100 200, 2); (mk_EC [4; 5] (run_meta 9 150 300 56) 150 300, 3); (mk_EC [6] (run_meta 12 10 20 96) 10 20, 1)].
Definition run_trailer : Trailer :=
  mk_Trailer 0 0 0 0 0 0 (mk_TS 0 0 0 0 0 0 0 0 nil_slice (mk_slice (string_bytes "cpu_0001") [])).

Lemma run_col_ok name ty pre off size :
  in_u 16 (Z.of_nat (String.length name)) → in_u 16 (Z.of_nat (length pre)) → in_u 8 ty → bytes_ok pre → in_s 64 off → in_u 32 size →
  col_ok (run_col name ty pre off size).
Proof. intros. split; [done..|]. by apply Forall_cons_2; [|apply Forall_nil_2]. Qed.

Lemma run_chunk_ok id t0 t1 off : id ≠ 0 → in_u 64 id → in_s 64 t0 → in_s 64 t1 → 0 ≤ off < 2 ^ 40 → chunk_ok (run_meta id t0 t1 off).
Proof.
  intros H0 Hid Ht0 Ht1 Hoff. split; try done; try (cbn; unfold in_u, in_s; lia).
  - unfold ChunkMeta_validation. cbn. by rewrite (proj2 (Z.eqb_neq _ _)).
  - by apply Forall_cons_2; [|apply Forall_nil_2].
  - cbn. repeat apply Forall_cons_2; try apply Forall_nil_2; (apply run_col_ok; [by_compute..|unfold in_s; lia|by_compute]).
Qed.

Lemma run_ordered id t0 t1 off : time_last (run_meta id t0 t1 off) [run_col "cpu" 3 [7; 7] off 10; run_col "mem" 1 [] (off + 10) 10] (run_col "time" 1 [9] (off + 20) 20).
Proof.
  split; [done|]. split.
  - repeat constructor.
  - repeat (apply Forall_cons_2 || apply Forall_nil_2); done.
Qed.

Lemma run_chunks_ok e : chunks_ok e run_chunks.
Proof.
  split.
  - done.
  - repeat apply Forall_cons_2; try apply Forall_nil_2; apply run_chunk_ok; try done; unfold in_u, in_s; lia.
  - repeat apply Forall_cons_2; try apply Forall_nil_2; eexists _, _; apply run_ordered.
  - repeat constructor.
  - destruct e; vm_compute; reflexivity.
Qed.

Lemma run_trailer_ok : start_trailer run_trailer.
Proof. split; [done|cbn; lia|]. split; [by_compute|cbn; lia]. Qed.

Lemma ChunkMeta_reads_back_witness :
  chunk_ok (run_meta 4 100 200 16) ∧
  ∃ m', ChunkMeta_unmarshal (run_meta 8 1 2 3) (appended nil_slice (ChunkMeta_marshal true (run_meta 4 100 200 16) nil_slice) ++ [5]) = Ok (m', [5]) ∧
    chunk_view m' = stored_chunk true (run_meta 4 100 200 16).
Proof.
  assert (Hok : chunk_ok (run_meta 4 100 200 16)) by (apply run_chunk_ok; try done; unfold in_u, in_s; lia).
  split; [exact Hok|]. exact (ChunkMeta_reads_back true (run_meta 8 1 2 3) (run_meta 4 100 200 16) nil_slice [5] Hok).
Defined.

Lemma UnmarshalWithColumns_filters_witness :
  chunk_ok (run_meta 4 100 200 16) ∧
  ∃ all some, ChunkMeta_unmarshal ChunkMeta0 (appended nil_slice (ChunkMeta_marshal true (run_meta 4 100 200 16) nil_slice) ++ []) = Ok (all, []) ∧
    ChunkMeta_UnmarshalWithColumns ChunkMeta0 (appended nil_slice (ChunkMeta_marshal true (run_meta 4 100 200 16) nil_slice) ++ []) (["disk"; "mem"; "mem"] ++ [TimeField]) = Ok (some, []) ∧
    v_cols (chunk_view some) = filter (λ c, v_name c ∈ ["disk"; "mem"; "mem"] ++ [TimeField]) (v_cols (chunk_view all)).
Proof.
  assert (Hok : chunk_ok (run_meta 4 100 200 16)) by (apply run_chunk_ok; try done; unfold in_u, in_s; lia).
  split; [exact Hok|].
  destruct (UnmarshalWithColumns_filters true ChunkMeta0 ChunkMeta0 (run_meta 4 100 200 16) _ _ ["disk"; "mem"; "mem"] nil_slice [] Hok (run_ordered 4 100 200 16))
    as (all & some & H1 & H2 & H3 & _).
  - done.
  - repeat (apply Forall_cons_2 || apply Forall_nil_2); done.
  - repeat constructor.
  - by_compute.
  - exists all, some. auto.
Defined.

Definition run_conf : Config := mk_Config 1000 2.

Lemma file_lookup_witness :
  start_trailer run_trailer ∧ chunks_ok true run_chunks ∧
  @file_correct _ yes_bloom _ _ _ _ true ChunkMetaCompressNone run_conf "cpu_0001" (indexWriter_Init false 64) run_trailer run_trailer run_chunks [1; 2].
Proof.
  split; [exact run_trailer_ok|]. split; [exact (run_chunks_ok true)|].
  exact (proj1 (file_lookup (BL := yes_bloom_laws) true run_conf false 64 "cpu_0001" run_trailer run_trailer run_chunks [1; 2] run_trailer_ok (run_chunks_ok true))).
Defined.

(** What the reader of the run's file finds, here with a buffer of 64 bytes that spills. *)
Definition run_file : res (list Z) :=
  let! b := @WriteAll _ _ _ true ChunkMetaCompressNone run_conf (new_builder "cpu_0001" (indexWriter_Init false 64) run_trailer) run_chunks in
  let! (file, _) := @Flush _ yes_bloom _ _ ChunkMetaCompressNone b [1; 2] in
  Ok file.
Definition run_find (id t0 t1 : Z) (columns : list string) : res (option (Z * list string)) :=
  let! file := run_file in
  let! r := NewTSSPFileReader run_trailer file in
  let! r := @LoadComponents yes_bloom r in
  let! m := readChunkMeta r id t0 t1 ChunkMeta0 columns in
  Ok ((λ m, (sid m, cm_name <$> vis (colMeta m))) <$> m).

Example run_finds_columns : run_find 9 0 500 ["mem"; "time"] = Ok (Some (9, ["mem"; "time"])).
Proof. vm_compute. reflexivity. Qed.
Example run_finds_all : run_find 12 15 15 [] = Ok (Some (12, ["cpu"; "mem"; "time"])).
Proof. vm_compute. reflexivity. Qed.
Example run_other_time : run_find 4 201 500 [] = Ok None.
Proof. vm_compute. reflexivity. Qed.
Example run_other_id : run_find 10 0 500 [] = Ok None.
Proof. vm_compute. reflexivity. Qed.

(** ** At the edges *)

(** The length test of a time range compares with the number of its fields, not of its bytes:
    data that is too short is a panic, where every other decoder returns an error. *)
Example short_range_panics : SegmentRange_unmarshal [1; 2; 3] = Panic ∧ ∃ msg, Segment_unmarshal [1; 2; 3] = Err msg.
Proof. split; [vm_compute; reflexivity|]. by eexists. Qed.

(** So a chunk meta that says it has more segments than there are bytes for is a panic: here one
    whose count of segments was damaged. *)
Example damaged_count_panics :
  ChunkMeta_unmarshal ChunkMeta0 (<[27%nat := 9]> (sdata (ChunkMeta_marshal false (run_meta 4 100 200 16) nil_slice))) = Panic.
Proof. vm_compute. reflexivity. Qed.

(** The size a chunk meta is accounted with is not the size it is written with. *)
Example size_differs :
  (ChunkMeta_Size (run_meta 4 100 200 16), length (sdata (ChunkMeta_marshal true (run_meta 4 100 200 16) nil_slice))) = (96%nat, 108%nat).
Proof. vm_compute. reflexivity. Qed.

(** The name of a trailer must not be empty: 117 bytes are the least. *)
Example nameless_trailer :
  ∃ msg, Trailer_unmarshal run_trailer (sdata (Trailer_marshal (mk_Trailer 0 0 0 0 0 0 (mk_TS 0 0 0 0 0 0 0 0 nil_slice nil_slice)) nil_slice)) = Err msg.
Proof. by eexists. Qed.

(** Setting the second byte of the reserved data of a trailer that was reset brings back the
    first byte it had before. *)
Example stale_flag :
  ∃ t, Trailer_SetData (Trailer_reset (mk_Trailer 0 0 0 0 0 0 (mk_TS 0 0 0 0 0 0 0 0 (mk_slice [1; 2] []) nil_slice))) IndexOfChunkMetaCompressFlag 2 = Ok t ∧
    Trailer_EqualData t IndexOfTimeStoreFlag TimeStoreFlag = Ok true.
Proof. eexists. split; [vm_compute; reflexivity|]. vm_compute. reflexivity. Qed.
