(* ===== verification/IdTimes.v ===== *)
(** * engine/immutable/sequencer.go: the id times of a file

    Every file stores, per chunk, the id of the series, the number of rows and (in ordered files,
    or when the trailer says so) the last time.  [IdTimePairs] is the object they are collected
    in and loaded into.  It comes from a pool: the arrays it had are used again, and a block is
    decoded into a part of such an array, so the model keeps the arrays.

    [maxBlock] pairs make a block, each list of numbers in it an integer block behind its size. *)

From Stdlib Require String.
From S2P Require Import Prelude GoString GoSlice NumberEnc Coder IntCoder TimeCoder Blocks.
From S2P Require Import Bitmap ColVal TimeSearch Record RecordSort FileMeta IndexWriter FileBuild FileRead.

(** [s[a:b]], which may reach to the capacity. *)
Definition vsub {A} (s : vslice A) (a b : nat) : res (list A) :=
  if ((a <=? b) && (b <=? vcap s))%nat%bool then Ok (take (b - a) (drop a (vback s))) else Panic.

Definition maxBlock : nat := (1000 * 2)%nat.

Section IdTimes.
Context `{RT : GoRuntime} `{ZS : Zstd}.

(** ** Marshal *)

(** Four bytes, the block that [encode] appends, then its size in the four bytes. *)
Definition sized_block (encode : slice → CoderContext → res (slice * CoderContext)) (dst : slice) (ctx : CoderContext) :
    res (slice * CoderContext) :=
  let pos := slen dst in
  let dst := append dst (zeros 4) in
  match encode dst ctx with
  | Ok (dst, ctx) =>
      let size := (slen dst - pos - 4)%nat in
      Ok (mk_slice (overwrite (sdata dst) pos (put_u32 (u32 (Z.of_nat size)))) (sspare dst), ctx)
  | Err _ => Panic
  | Panic => Panic
  | Diverge => Diverge
  end.

(** The body of the loop: the pairs from [startIdx] on. *)
Definition marshal_block (pooled : option Integer) (p : IdTimePairs) (encTimes : bool) (startIdx count : nat)
    (dst : slice) (ctx : CoderContext) : res (slice * CoderContext) :=
  let dst := MarshalUint32Append dst (Z.of_nat count) in
  let! ids := vsub (p_Ids p) startIdx (startIdx + count) in
  let! (dst, ctx) := sized_block (EncodeUnsignedBlock pooled (Uint64Slice2byte ids)) dst ctx in
  let! rws := vsub (p_Rows p) startIdx (startIdx + count) in
  let! (dst, ctx) := sized_block (EncodeIntegerBlock pooled (Int64Slice2byte rws)) dst ctx in
  if encTimes then
    let! tms := vsub (p_Tms p) startIdx (startIdx + count) in
    sized_block (EncodeIntegerBlock pooled (Int64Slice2byte tms)) dst ctx
  else Ok (dst, ctx).

(** The loop over the blocks, [k] of them left. *)
Fixpoint marshal_blocks (pooled : option Integer) (k : nat) (p : IdTimePairs) (encTimes : bool) (rows startIdx : nat)
    (dst : slice) (ctx : CoderContext) : res (slice * CoderContext) :=
  match k with
  | O => Ok (dst, ctx)
  | S k =>
      let count := if (k =? 0)%nat then (rows - startIdx)%nat else maxBlock in
      let! (dst, ctx) := marshal_block pooled p encTimes startIdx count dst ctx in
      marshal_blocks pooled k p encTimes rows (startIdx + maxBlock) dst ctx
  end.

Definition IdTimePairs_Marshal (pooled : option Integer) (p : IdTimePairs) (encTimes : bool) (dst : slice) (ctx : CoderContext) :
    res (slice * CoderContext) :=
  let rows := Z.to_nat (u32 (Z.of_nat (length (vis (p_Tms p))))) in
  let blocks := (rows / maxBlock + if (0 <? rows mod maxBlock)%nat then 1 else 0)%nat in
  let dst := MarshalUint32Append dst (Z.of_nat rows) in
  let dst := MarshalUint32Append dst (Z.of_nat blocks) in
  marshal_blocks pooled blocks p encTimes rows 0 dst ctx.

(** ** Unmarshal *)

Definition IdTimePairs_reserve (p : IdTimePairs) (size : nat) : res IdTimePairs :=
  let new := mk_vs (replicate size 0) [] in
  let p := if (vcap (p_Ids p) <? size)%nat then mk_pair (p_Name p) new new new else p in
  let! ids := vreslice (p_Ids p) size in
  let! tms := vreslice (p_Tms p) size in
  let! rws := vreslice (p_Rows p) size in
  Ok (mk_pair (p_Name p) ids tms rws).

(** The array of [s] from [start] on taken as the buffer of a decoder, and what is in it after
    the decoder returned [o]: its bytes when it wrote in place (any other array is larger). *)
Definition decode_target (to_bytes : list Z → list Z) (s : vslice Z) (start : nat) : slice :=
  mk_slice [] (to_bytes (drop start (vback s))).
Definition decoded (of_bytes : list Z → list Z) (s : vslice Z) (start : nat) (buf o : slice) : vslice Z :=
  if (scap o =? scap buf)%nat then
    let back := take start (vback s) ++ of_bytes (sback o) in
    mk_vs (take (length (vis s)) back) (drop (length (vis s)) back)
  else s.

Definition decodeIntegerBlock (pooled : option Integer) (src : list Z) (s : vslice Z) (start : nat) (ctx : CoderContext) :
    res (list Z * vslice Z * CoderContext) :=
  let! size := UnmarshalUint32 src in
  if Z.of_nat (length src) <? size then Err "block smaller data for time length"
  else
    let! src := from src 4 in
    let buf := decode_target Int64Slice2byte s start in
    let! block := between src 0 (Z.to_nat size) in
    let! (_, o, ctx) := DecodeIntegerBlock pooled block buf ctx in
    let! src := from src (Z.to_nat size) in
    Ok (src, decoded Bytes2Int64Slice s start buf o, ctx).

Definition decodeUnsignedBlock (pooled : option Integer) (src : list Z) (s : vslice Z) (start : nat) (ctx : CoderContext) :
    res (list Z * vslice Z * CoderContext) :=
  let! size := UnmarshalUint32 src in
  if Z.of_nat (length src) <? size then Err "block smaller data for time length"
  else
    let! src := from src 4 in
    let buf := decode_target Uint64Slice2byte s start in
    let! block := between src 0 (Z.to_nat size) in
    let! (_, o, ctx) := DecodeUnsignedBlock pooled block buf ctx in
    let! src := from src (Z.to_nat size) in
    Ok (src, decoded Bytes2Uint64Slice s start buf o, ctx).

(** [dst] of the two functions is [s[start:start+n]]. *)
Fixpoint unmarshal_blocks (pooled : option Integer) (k : nat) (p : IdTimePairs) (decTimes : bool) (rows startIdx : nat)
    (src : list Z) (ctx : CoderContext) : res (IdTimePairs * list Z) :=
  match k with
  | O => Ok (p, src)
  | S k =>
      if (length src <? 8)%nat then Err "block smaller data for number and id length"
      else
        let! n := UnmarshalUint32 src in
        let n := Z.to_nat n in
        if (rows <? startIdx + n)%nat then Err "block not enouph free id time slice to unmarshal"
        else
          let! src := from src 4 in
          let! _ := vsub (p_Ids p) startIdx (startIdx + n) in
          let! (src, ids, ctx) := decodeUnsignedBlock pooled src (p_Ids p) startIdx ctx in
          let! _ := vsub (p_Rows p) startIdx (startIdx + n) in
          let! (src, rws, ctx) := decodeIntegerBlock pooled src (p_Rows p) startIdx ctx in
          let! (src, tms, ctx) :=
            if decTimes then
              let! _ := vsub (p_Tms p) startIdx (startIdx + n) in
              decodeIntegerBlock pooled src (p_Tms p) startIdx ctx
            else Ok (src, p_Tms p, ctx) in
          unmarshal_blocks pooled k (mk_pair (p_Name p) ids tms rws) decTimes rows (startIdx + n) src ctx
  end.

(** [pooled] and [pooledTime] are what the pools of coders returned. *)
Definition IdTimePairs_Unmarshal (pooled : option Integer) (pooledTime : option Time) (p : IdTimePairs) (decTimes : bool) (src : list Z) :
    res (IdTimePairs * list Z) :=
  if (length src <? 8)%nat then Err "too small data for id time"
  else
    let! rows := UnmarshalUint32 src in
    let! src := from src 4 in
    let! p := IdTimePairs_reserve p (Z.to_nat rows) in
    let! blocks := UnmarshalUint32 src in
    let! src := from src 4 in
    let ctx := SetTimeCoder NewCoderContext (GetTimeCoder pooledTime) in
    unmarshal_blocks pooled (Z.to_nat blocks) p decTimes (Z.to_nat rows) 0 src ctx.
End IdTimes.

(** ** tssp_file.go: the id times of an opened file *)

Section Load.
Context `{RT : GoRuntime} `{ZS : Zstd} `{BE : BloomEnv}.

(** The largest and the average number of rows of a chunk; the average was [avg] before. *)
Definition initChunkStat (avg : Z) (p : IdTimePairs) : Z * Z :=
  let rws := vis (p_Rows p) in
  let '(max, n) := fold_left (λ '(max, n) r, (if max <? r then r else max, i64 (n + r))) rws (MinInt64, 0) in
  let avg := if (0 <? length rws)%nat then Z.quot n (Z.of_nat (length rws)) else avg in
  (max, if avg <? 1 then 1 else avg).

(** LoadComponents returns at once for a reader that is initialised. *)
Definition lazyInit (inited : bool) (r : tsspFileReader) : res tsspFileReader := if inited then Ok r else LoadComponents r.

Definition LoadIdTimes (pooled : option Integer) (pooledTime : option Time) (inited : bool) (r : tsspFileReader) (avg : Z) (isOrder : bool) (p : IdTimePairs) :
    res (tsspFileReader * IdTimePairs * (Z * Z)) :=
  let '(off, size) := Trailer_idTimeOffsetSize (r_trailer r) in
  let! r := lazyInit inited r in
  let! buf := ReadAt (r_file r) off (u32 size) in
  if negb (Z.of_nat (length buf) =? size) then Err "read id time data fail"
  else
    let! times := if isOrder then Ok true else Trailer_EqualData (r_trailer r) IndexOfTimeStoreFlag TimeStoreFlag in
    let! (p, _) := IdTimePairs_Unmarshal pooled pooledTime p times buf in
    Ok (r, p, initChunkStat avg p).
End Load.

(** ** The builder with its id times *)

Section FlushIds.
Context `{RT : GoRuntime} `{ZS : Zstd} `{BE : BloomEnv} {W : Type} `{IW : IndexWriter W}.

(** Flush, with pair.Marshal; [order] is FileName.order and [ctx] the coders of the chunk builder. *)
Definition FlushFile (mode : Z) (pooled : option Integer) (order : bool) (ctx : CoderContext) (b : MsBuilder W) : res (list Z * MsBuilder W) :=
  let! times := if order then Ok true else Trailer_EqualData (b_trailer b) IndexOfTimeStoreFlag TimeStoreFlag in
  let! (encIdTime, _) := IdTimePairs_Marshal pooled (b_pair b) times nil_slice ctx in
  Flush mode b (sdata encIdTime).
End FlushIds.
