(* ===== verification/IdTimesProps.v ===== *)
(** * The id times of a file: what is marshalled is read back *)

From Stdlib Require String.
From stdpp Require Import gmap sorting.
From S2P Require Import Prelude GoString GoSlice NumberEnc Simple8b Coder TimeCoder IntCoder Blocks.
From S2P Require Import Bitmap ColVal TimeSearch Record RecordSort FileMeta FileCodec IndexWriter FileBuild FileRead FileWrite FileFind IdTimes.

(** ** Numbers in bytes *)

Lemma drop_bytes_le n : ∀ l, drop (8 * n) (bytes_le 8 l) = bytes_le 8 (drop n l).
Proof.
  induction n as [|n IH]; intros l; [by rewrite Nat.mul_0_r, !drop_0|]. destruct l as [|x l]; [by rewrite !drop_nil|].
  replace (8 * S n)%nat with (8 + 8 * n)%nat by lia. unfold bytes_le. rewrite fmap_cons. cbn [concat skipn].
  rewrite <- drop_drop. rewrite (drop_app_length' (le_bytes 8 x)) by (by rewrite length_le_bytes). apply IH.
Qed.

Lemma Bytes2Uint64Slice_id vs : Forall (in_u 64) vs → Bytes2Uint64Slice (bytes_le 8 vs) = vs.
Proof.
  intros Hr. unfold Bytes2Uint64Slice. rewrite length_bytes_le, (Nat.mul_comm 8), Nat.div_mul by done.
  rewrite <- (app_nil_r (bytes_le 8 vs)), words_le_bytes.
  induction Hr as [|v vs Hv _ IH]; [done|]. rewrite fmap_cons, IH. f_equal. by apply Z.mod_small.
Qed.

(** ** Blocks *)

Lemma length_PutUvarint v : (length (PutUvarint v) <= 10)%nat.
Proof.
  unfold PutUvarint. generalize 10%nat. intros n. revert v. induction n as [|n IH]; intros v; cbn [put_uvarint_loop length]; [done|].
  case_match; cbn [length]; [lia|]. specialize (IH (v ≫ 7)). lia.
Qed.

(** The values of a block; small enough for its size to be stored. *)
Definition small (vs : list Z) : Prop := vs ≠ [] ∧ (length vs <= maxBlock)%nat.

Section Blocks.
Context `{RT : GoRuntime} `{ZS : Zstd} `{!ZstdLaws ZS}.

Lemma small_bound vs : small vs → Z.of_nat (ZSTDCompressBound (8 * length vs)) < 2 ^ 31.
Proof.
  intros [_ Hl]. unfold ZSTDCompressBound, maxBlock in *. cbv zeta. set (n := (8 * length vs)%nat).
  assert (n <= 8 * (1000 * 2))%nat by (unfold n; lia).
  assert (n / 256 <= n)%nat by (apply Nat.Div0.div_le_upper_bound; lia).
  assert ((128 * 1024 - n) / 2048 <= 128 * 1024 - n)%nat by (apply Nat.Div0.div_le_upper_bound; lia).
  case_match; lia.
Qed.

Lemma block_length vs block : small vs → is_block (bytes_le 8 vs) block → in_u 32 (Z.of_nat (length block)).
Proof.
  intros Hs Hb. pose proof (small_bound vs Hs) as Hz. destruct Hs as [_ Hl]. unfold maxBlock in Hl.
  assert (Hn : length (Bytes2Int64Slice (bytes_le 8 vs)) = length vs) by (rewrite length_Bytes2Int64Slice, length_bytes_le, Nat.mul_comm; by apply Nat.div_mul).
  unfold in_u. split; [lia|].
  destruct Hb as [(v0 & z1 & n & -> & _)|[(v0 & ws & zs & -> & _ & Hws & _ & Hvs)|[->| ->]]].
  - unfold const_block. cbn [length]. rewrite !length_app, length_put_u64.
    pose proof (length_PutUvarint z1). pose proof (length_PutUvarint (Z.of_nat n)). lia.
  - apply words_decode_length in Hws. apply (f_equal length) in Hvs. rewrite Hn in Hvs. cbn [length] in Hvs. rewrite Integer_length_rebuild in Hvs.
    unfold simple8b_block. cbn [length]. rewrite !length_app, !length_put_u32, (length_concat_put _ 8) by done. cbn [length]. lia.
  - unfold zstd_block, packed_block. cbn [length]. rewrite !length_app, !length_put_u32. pose proof (zstd_bound (bytes_le 8 vs)) as Hb.
    rewrite length_bytes_le in *. lia.
  - unfold plain_block. cbn [length]. rewrite !length_app, length_put_u32, (length_concat_put _ 8), Hn by done. lia.
Qed.

Lemma encode_block pooled vs dst ctx :
  small vs → ∃ o ctx' block, EncodeIntegerBlock pooled (bytes_le 8 vs) dst ctx = Ok (o, ctx') ∧ sdata o = sdata dst ++ block ∧
    is_block (bytes_le 8 vs) block.
Proof.
  intros Hs. pose proof (small_bound vs Hs) as Hz. destruct (words_ok_bytes_le vs) as [Hok Hm]. unfold EncodeIntegerBlock.
  assert (Hne : bytes_le 8 vs ≠ []) by (intros E; apply bytes_le_nil in E; by destruct Hs).
  rewrite (proj2 (Nat.eqb_neq _ _)) by (by intros E%length_zero_iff_nil).
  destruct (Integer_Encoding_spec (default (GetIntCoder pooled) (intCoder ctx)) (bytes_le 8 vs) dst) as (enc & o & block & -> & Ho & Hb);
    [done..|rewrite length_bytes_le; lia|]. rs. by eexists o, _, block.
Qed.

(** The coder a context or the pool provides can decode. *)
Definition coder_ok (pooled : option Integer) (ctx : CoderContext) : Prop :=
  length (IntCoder.values (default (GetIntCoder pooled) (intCoder ctx))) = 240%nat.

Lemma decode_block pooled vs block buf ctx :
  small vs → is_block (bytes_le 8 vs) block → coder_ok pooled ctx → sdata buf = [] →
  ∃ xs ys o ctx', DecodeIntegerBlock pooled block buf ctx = Ok (xs, o, ctx') ∧ DecodeUnsignedBlock pooled block buf ctx = Ok (ys, o, ctx') ∧
    sdata o = bytes_le 8 vs ∧ in_place buf o ∧ coder_ok pooled ctx'.
Proof.
  intros Hs Hb Hc Hbuf. pose proof (small_bound vs Hs) as Hz. destruct (words_ok_bytes_le vs) as [Hok Hm].
  destruct (Decoding_block (default (GetIntCoder pooled) (intCoder ctx)) (bytes_le 8 vs) block buf) as (dec & o & Hd & Ho & Hp & Hv);
    [done..|rewrite length_bytes_le; lia|done|done|left; unfold slen; rewrite Hbuf; cbn; lia|].
  assert (Hne : (length block =? 0)%nat = false) by (by destruct block).
  unfold DecodeIntegerBlock, DecodeUnsignedBlock. rewrite Hne, Hd. rs. rewrite Hbuf in Ho. by eexists _, _, o, _.
Qed.
End Blocks.

(** ** The format *)

Section Format.
Context `{ZS : Zstd}.

Definition sized (block : list Z) : list Z := put_u32 (Z.of_nat (length block)) ++ block.

(** The bytes of one block of pairs. *)
Definition pairs_block (times : bool) (ids rws tms bytes : list Z) : Prop :=
  ∃ b1 b2 b3, is_block (bytes_le 8 ids) b1 ∧ is_block (bytes_le 8 rws) b2 ∧ (times = true → is_block (bytes_le 8 tms) b3) ∧
    bytes = put_u32 (Z.of_nat (length ids)) ++ sized b1 ++ sized b2 ++ if times then sized b3 else [].

(** [k] blocks in a row. *)
Inductive pairs_blocks (times : bool) : nat → list Z → list Z → list Z → list Z → Prop :=
| pairs_none : pairs_blocks times 0 [] [] [] []
| pairs_more k i r t bytes ids rws tms bs :
    small i → length r = length i → length t = length i → pairs_block times i r t bytes → pairs_blocks times k ids rws tms bs →
    pairs_blocks times (S k) (i ++ ids) (r ++ rws) (t ++ tms) (bytes ++ bs).
End Format.

Definition nblocks (n : nat) : nat := (n / maxBlock + if (0 <? n mod maxBlock)%nat then 1 else 0)%nat.

Lemma nblocks_small n : (0 < n <= maxBlock)%nat → nblocks n = 1%nat.
Proof.
  intros H. unfold nblocks. destruct (decide (n = maxBlock)) as [->|Hne].
  - rewrite Nat.div_same, Nat.Div0.mod_same by done. done.
  - rewrite Nat.div_small, Nat.mod_small by lia. by rewrite (proj2 (Nat.ltb_lt _ _)) by lia.
Qed.

Lemma nblocks_more n : (maxBlock < n)%nat → nblocks n = S (nblocks (n - maxBlock)).
Proof.
  intros H. unfold nblocks. replace n with (n - maxBlock + 1 * maxBlock)%nat at 1 2 by lia.
  rewrite Nat.div_add, Nat.Div0.mod_add by done. lia.
Qed.

Lemma nblocks_pos n : (0 < n)%nat → (0 < nblocks n)%nat.
Proof.
  intros H. destruct (decide (n <= maxBlock)%nat); [rewrite nblocks_small by lia; lia|rewrite nblocks_more by lia; lia].
Qed.

Lemma nblocks_le n : (nblocks n <= n)%nat.
Proof.
  induction (lt_wf n) as [n _ IH]. destruct (decide (n = 0%nat)) as [->|Hn]; [done|].
  destruct (decide (n <= maxBlock)%nat); [rewrite nblocks_small by lia; lia|]. rewrite nblocks_more by lia.
  assert (0 < maxBlock)%nat by (unfold maxBlock; lia). specialize (IH (n - maxBlock)%nat). lia.
Qed.

Lemma vsub_vis {A} (s : vslice A) a n : (a + n <= length (vis s))%nat → vsub s a (a + n) = Ok (take n (drop a (vis s))).
Proof.
  intros H. unfold vsub, vcap, vback. rewrite (proj2 (Nat.leb_le _ _)), (proj2 (Nat.leb_le _ _)) by lia. cbn [andb].
  replace (a + n - a)%nat with n by lia. rewrite drop_app_le, take_app_le by (rewrite ?length_drop; lia). done.
Qed.

Lemma vsub_Ok {A} (s : vslice A) a n : (a + n <= vcap s)%nat → ∃ l, vsub s a (a + n) = Ok l.
Proof. intros H. unfold vsub. rewrite (proj2 (Nat.leb_le _ _)), (proj2 (Nat.leb_le _ _)) by lia. by eexists. Qed.

(** ** Marshal *)

Section Marshal.
Context `{RT : GoRuntime} `{ZS : Zstd} `{!ZstdLaws ZS}.

Lemma sized_block_spec pooled vs dst ctx :
  small vs → ∃ o ctx' block, sized_block (EncodeIntegerBlock pooled (bytes_le 8 vs)) dst ctx = Ok (o, ctx') ∧
    sdata o = sdata dst ++ sized block ∧ is_block (bytes_le 8 vs) block.
Proof.
  intros Hs. unfold sized_block. destruct (encode_block pooled vs (append dst (zeros 4)) ctx Hs) as (o & ctx' & block & -> & Ho & Hb).
  eexists _, ctx', block. split; [done|]. split; [|done]. cbn [sdata]. rewrite sdata_append in Ho.
  assert (Hl : slen o = (slen dst + 4 + length block)%nat) by (unfold slen; rewrite Ho, !length_app; done).
  replace (slen o - slen dst - 4)%nat with (length block) by lia. rewrite wrap_u_id by by eapply block_length.
  rewrite Ho. unfold overwrite, sized, slen. rewrite <- app_assoc, take_app_length, drop_app_add. done.
Qed.

(** Pairs of the same number, within the widths of their types. *)
Record pairs_ok (ids rws tms : list Z) : Prop := {
  po_rows : length rws = length ids; po_times : length tms = length ids;
  po_ids : Forall (in_u 64) ids; po_rws : Forall (in_s 64) rws; po_tms : Forall (in_s 64) tms
}.

Lemma take_drop_small (l : list Z) a n : (0 < n <= maxBlock)%nat → (a + n <= length l)%nat → small (take n (drop a l)).
Proof.
  intros Hn Hl. assert (length (take n (drop a l)) = n) as E by (rewrite length_take, length_drop; lia). split; [|lia].
  intros H. rewrite H in E. cbn in E. lia.
Qed.

Lemma drop_split (l : list Z) a n : drop a l = take n (drop a l) ++ drop (a + n) l.
Proof. rewrite <- drop_drop. by rewrite take_drop. Qed.

(** The number of pairs in the next block. *)
Lemma count_spec n start k :
  (start <= n)%nat → S k = nblocks (n - start) →
  let count := if (k =? 0)%nat then (n - start)%nat else maxBlock in
  (0 < count <= maxBlock)%nat ∧ (start + count <= n)%nat ∧ (k = 0%nat → start + count = n)%nat ∧ (k ≠ 0%nat → count = maxBlock) ∧
  k = nblocks (n - (start + count)).
Proof.
  intros Hst Hk count. unfold count. assert (0 < maxBlock)%nat by (unfold maxBlock; lia).
  assert (Hpos : (0 < n - start)%nat) by (destruct (decide (n - start = 0)%nat) as [E|]; [rewrite E in Hk; discriminate Hk|lia]).
  destruct (decide (n - start <= maxBlock)%nat).
  - rewrite nblocks_small in Hk by lia. injection Hk as ->. cbn [Nat.eqb]. replace (n - (start + (n - start)))%nat with 0%nat by lia. split_and!; lia || done.
  - rewrite nblocks_more in Hk by lia. injection Hk as Hk. pose proof (nblocks_pos (n - start - maxBlock)).
    rewrite (proj2 (Nat.eqb_neq k 0)) by lia. replace (n - (start + maxBlock))%nat with (n - start - maxBlock)%nat by lia. split_and!; lia || done.
Qed.

(** One block of pairs. *)
Lemma marshal_block_spec pooled p (times : bool) n start count dst ctx :
  length (vis (p_Ids p)) = n → length (vis (p_Rows p)) = n → length (vis (p_Tms p)) = n →
  (0 < count <= maxBlock)%nat → (start + count <= n)%nat →
  ∃ o ctx' bytes, marshal_block pooled p times start count dst ctx = Ok (o, ctx') ∧ sdata o = sdata dst ++ bytes ∧
    pairs_block times (take count (drop start (vis (p_Ids p)))) (take count (drop start (vis (p_Rows p)))) (take count (drop start (vis (p_Tms p)))) bytes.
Proof.
  intros Hi Hr Ht Hc Hn. unfold marshal_block, EncodeUnsignedBlock, Uint64Slice2byte, Int64Slice2byte. rewrite !vsub_vis by lia. rs.
  destruct (sized_block_spec pooled (take count (drop start (vis (p_Ids p)))) (MarshalUint32Append dst (Z.of_nat count)) ctx) as (d1 & c1 & b1 & -> & D1 & B1);
    [apply take_drop_small; lia|]. rs.
  destruct (sized_block_spec pooled (take count (drop start (vis (p_Rows p)))) d1 c1) as (d2 & c2 & b2 & -> & D2 & B2); [apply take_drop_small; lia|]. rs.
  unfold MarshalUint32Append in D1. rewrite sdata_append in D1. unfold pairs_block.
  rewrite length_take, length_drop, Nat.min_l by lia. destruct times.
  - destruct (sized_block_spec pooled (take count (drop start (vis (p_Tms p)))) d2 c2) as (d3 & c3 & b3 & -> & D3 & B3); [apply take_drop_small; lia|].
    eexists d3, c3, _. split; [done|]. rewrite D3, D2, D1, <- !app_assoc. split; [done|]. by exists b1, b2, b3.
  - eexists d2, c2, _. split; [done|]. rewrite D2, D1, <- !app_assoc. split; [done|]. exists b1, b2, []. by rewrite app_nil_r.
Qed.

Lemma marshal_blocks_spec pooled p times n k : ∀ start dst ctx,
  length (vis (p_Ids p)) = n → length (vis (p_Rows p)) = n → length (vis (p_Tms p)) = n → (start <= n)%nat → k = nblocks (n - start) →
  ∃ o ctx' bytes, marshal_blocks pooled k p times n start dst ctx = Ok (o, ctx') ∧ sdata o = sdata dst ++ bytes ∧
    pairs_blocks times k (drop start (vis (p_Ids p))) (drop start (vis (p_Rows p))) (drop start (vis (p_Tms p))) bytes.
Proof.
  induction k as [|k IH]; intros start dst ctx Hi Hr Ht Hst Hk; cbn [marshal_blocks].
  { exists dst, ctx, []. rewrite app_nil_r. split; [done|]. split; [done|].
    assert (n - start = 0)%nat by (destruct (decide (n - start = 0)%nat); [done|pose proof (nblocks_pos (n - start)); lia]).
    rewrite !drop_ge by lia. constructor. }
  destruct (count_spec n start k Hst Hk) as (Hc1 & Hc2 & Hc3 & Hc4 & Hc5). set (count := if (k =? 0)%nat then (n - start)%nat else maxBlock) in *. clearbody count.
  destruct (marshal_block_spec pooled p times n start count dst ctx) as (d & c & bytes & -> & Hd & Hb); [done..|]. rs.
  assert (Hrest : ∃ o ctx' bs, marshal_blocks pooled k p times n (start + maxBlock) d c = Ok (o, ctx') ∧ sdata o = sdata d ++ bs ∧
    pairs_blocks times k (drop (start + count) (vis (p_Ids p))) (drop (start + count) (vis (p_Rows p))) (drop (start + count) (vis (p_Tms p))) bs).
  { destruct (decide (k = 0%nat)) as [->|Hk0].
    - exists d, c, []. rewrite app_nil_r, !drop_ge by (specialize (Hc3 eq_refl); lia). split; [done|]. split; [done|constructor].
    - rewrite (Hc4 Hk0) in *. by apply IH. }
  destruct Hrest as (o & c' & bs & Ho & Hod & Hbs). exists o, c', (bytes ++ bs). split; [done|]. rewrite Hod, Hd, <- app_assoc. split; [done|].
  rewrite (drop_split (vis (p_Ids p)) start count), (drop_split (vis (p_Rows p)) start count), (drop_split (vis (p_Tms p)) start count).
  constructor; try done; [apply take_drop_small; lia|..]; rewrite !length_take, !length_drop; lia.
Qed.

Lemma Marshal_spec pooled p times dst ctx :
  let n := length (vis (p_Ids p)) in
  length (vis (p_Rows p)) = n → length (vis (p_Tms p)) = n → Z.of_nat n < 2 ^ 32 →
  ∃ o ctx' bytes, IdTimePairs_Marshal pooled p times dst ctx = Ok (o, ctx') ∧
    sdata o = sdata dst ++ put_u32 (Z.of_nat n) ++ put_u32 (Z.of_nat (nblocks n)) ++ bytes ∧
    pairs_blocks times (nblocks n) (vis (p_Ids p)) (vis (p_Rows p)) (vis (p_Tms p)) bytes.
Proof.
  intros n Hr Ht Hn. unfold IdTimePairs_Marshal. rewrite Ht, wrap_u_id, Nat2Z.id by (unfold in_u; lia). fold (nblocks n).
  match goal with |- context [marshal_blocks _ _ _ _ _ _ ?d ?c] => destruct (marshal_blocks_spec pooled p times n (nblocks n) 0 d c) as (o & c' & bytes & -> & Ho & Hb) end;
    [done..|lia|by rewrite Nat.sub_0_r|].
  rewrite !drop_0 in Hb. exists o, c', bytes. split; [done|]. split; [|done]. rewrite Ho. unfold MarshalUint32Append. rewrite !sdata_append, <- !app_assoc. done.
Qed.
End Marshal.

(** ** Unmarshal *)

Lemma overwrite_overwrite (l : list Z) a x y :
  (a + length x + length y <= length l)%nat → overwrite (overwrite l a x) (a + length x) y = overwrite l a (x ++ y).
Proof.
  intros H. unfold overwrite. rewrite length_app, Nat.add_assoc.
  rewrite (app_assoc (take a l) x), take_app_length' by (rewrite length_app, length_take; lia).
  rewrite drop_app_ge by (rewrite length_app, length_take; lia). rewrite length_app, length_take, Nat.min_l by lia.
  rewrite drop_drop, <- !app_assoc. do 4 f_equal. lia.
Qed.

Lemma Forall_overwrite (P : Z → Prop) l a x : Forall P l → Forall P x → Forall P (overwrite l a x).
Proof. intros Hl Hx. unfold overwrite. rewrite !Forall_app. split_and!; auto using Forall_take, Forall_drop. Qed.

Section Target.
Variables (of_bytes : list Z → list Z) (P : Z → Prop) (Hof : ∀ l, Forall P l → of_bytes (bytes_le 8 l) = l).

(** The decoded numbers are where they belong in the array, and nothing else has changed. *)
Lemma decoded_spec s start vs o :
  Forall P (vback s) → Forall P vs → (start + length vs <= vcap s)%nat →
  sdata o = bytes_le 8 vs → in_place (decode_target (bytes_le 8) s start) o →
  let s' := decoded of_bytes s start (decode_target (bytes_le 8) s start) o in
  vback s' = overwrite (vback s) start vs ∧ length (vis s') = length (vis s).
Proof using Hof.
  intros Hs Hv Hc Ho Hp. set (buf := decode_target (bytes_le 8) s start) in *. set (rest := drop start (vback s)).
  assert (Hcap : vcap s = length (vback s)) by (unfold vcap, vback; by rewrite length_app).
  assert (Hb : sback buf = bytes_le 8 rest) by done.
  assert (Hbc : scap buf = (8 * length rest)%nat) by (rewrite <- length_sback, Hb, length_bytes_le; lia).
  assert (Hol : slen o = (8 * length vs)%nat) by (unfold slen; rewrite Ho, length_bytes_le; lia).
  assert (Hrl : length rest = (vcap s - start)%nat) by (unfold rest; rewrite length_drop; lia).
  assert (Hsp : sspare o = bytes_le 8 (drop (length vs) rest)) by (rewrite Hp, Hb, Hol by lia; apply drop_bytes_le).
  assert (Hback : sback o = bytes_le 8 (vs ++ drop (length vs) rest)) by (unfold sback; rewrite Ho, Hsp; by rewrite bytes_le_app).
  unfold decoded. rewrite (proj2 (Nat.eqb_eq _ _)).
  - rewrite Hback, Hof by (apply Forall_app; split; [done|]; apply Forall_drop, Forall_drop, Hs). unfold rest. rewrite drop_drop.
    fold (overwrite (vback s) start vs). cbv zeta. unfold vback at 1. cbn [vis spare]. rewrite take_drop. split; [done|].
    rewrite length_take, length_overwrite by lia. unfold vcap in Hcap. lia.
  - unfold scap at 1. fold (slen o). rewrite Hol, Hsp, length_bytes_le, length_drop. lia.
Qed.
End Target.

Section Unmarshal.
Context `{RT : GoRuntime} `{ZS : Zstd} `{!ZstdLaws ZS}.

Lemma read_size block r : in_u 32 (Z.of_nat (length block)) →
  UnmarshalUint32 (sized block ++ r) = Ok (Z.of_nat (length block)) ∧ from (sized block ++ r) 4 = Ok (block ++ r) ∧
  (Z.of_nat (length (sized block ++ r)) <? Z.of_nat (length block)) = false ∧
  between (block ++ r) 0 (Z.to_nat (Z.of_nat (length block))) = Ok block ∧ from (block ++ r) (Z.to_nat (Z.of_nat (length block))) = Ok r.
Proof.
  intros H. unfold sized. rewrite Nat2Z.id. split_and!.
  - unfold UnmarshalUint32. rewrite <- app_assoc. by rewrite get_put_u32.
  - rewrite <- app_assoc. by rewrite from_app.
  - apply Z.ltb_ge. rewrite !length_app. lia.
  - rewrite between_Ok by (rewrite ?length_app; lia). by rewrite Nat.sub_0_r, drop_0, take_app_length.
  - by rewrite from_app.
Qed.

Lemma decodeIntegerBlock_spec pooled block vs r s start ctx :
  small vs → is_block (bytes_le 8 vs) block → coder_ok pooled ctx →
  Forall (in_s 64) (vback s) → Forall (in_s 64) vs → (start + length vs <= vcap s)%nat →
  ∃ s' ctx', decodeIntegerBlock pooled (sized block ++ r) s start ctx = Ok (r, s', ctx') ∧ coder_ok pooled ctx' ∧
    vback s' = overwrite (vback s) start vs ∧ length (vis s') = length (vis s).
Proof.
  intros Hs Hb Hc Hr Hv Hl. destruct (read_size block r) as (E1 & E2 & E3 & E4 & E5); [by eapply block_length|].
  unfold decodeIntegerBlock. rewrite E1. rs. rewrite E3, E2. rs. rewrite E4. rs.
  destruct (decode_block pooled vs block (decode_target Int64Slice2byte s start) ctx) as (xs & ys & o & ctx' & -> & _ & Ho & Hp & Hc'); [done..|].
  rs. rewrite E5. rs. eexists _, ctx'. split; [done|]. split; [done|]. apply (decoded_spec Bytes2Int64Slice (in_s 64) Bytes2Int64Slice_id); done.
Qed.

Lemma decodeUnsignedBlock_spec pooled block vs r s start ctx :
  small vs → is_block (bytes_le 8 vs) block → coder_ok pooled ctx →
  Forall (in_u 64) (vback s) → Forall (in_u 64) vs → (start + length vs <= vcap s)%nat →
  ∃ s' ctx', decodeUnsignedBlock pooled (sized block ++ r) s start ctx = Ok (r, s', ctx') ∧ coder_ok pooled ctx' ∧
    vback s' = overwrite (vback s) start vs ∧ length (vis s') = length (vis s).
Proof.
  intros Hs Hb Hc Hr Hv Hl. destruct (read_size block r) as (E1 & E2 & E3 & E4 & E5); [by eapply block_length|].
  unfold decodeUnsignedBlock. rewrite E1. rs. rewrite E3, E2. rs. rewrite E4. rs.
  destruct (decode_block pooled vs block (decode_target Uint64Slice2byte s start) ctx) as (xs & ys & o & ctx' & _ & -> & Ho & Hp & Hc'); [done..|].
  rs. rewrite E5. rs. eexists _, ctx'. split; [done|]. split; [done|]. apply (decoded_spec Bytes2Uint64Slice (in_u 64) Bytes2Uint64Slice_id); done.
Qed.

(** An object the pool may hold: arrays of one size, numbers of the width of their types. *)
Record pool_ok (p : IdTimePairs) : Prop := {
  pk_rows : vcap (p_Rows p) = vcap (p_Ids p); pk_times : vcap (p_Tms p) = vcap (p_Ids p);
  pk_ids : Forall (in_u 64) (vback (p_Ids p)); pk_rws : Forall (in_s 64) (vback (p_Rows p)); pk_tms : Forall (in_s 64) (vback (p_Tms p))
}.

(** The three arrays after pairs were read to [start]. *)
Record wrote (times : bool) (p p' : IdTimePairs) (start : nat) (ids rws tms : list Z) : Prop := {
  wr_ids : vback (p_Ids p') = overwrite (vback (p_Ids p)) start ids;
  wr_rws : vback (p_Rows p') = overwrite (vback (p_Rows p)) start rws;
  wr_tms : vback (p_Tms p') = if times then overwrite (vback (p_Tms p)) start tms else vback (p_Tms p);
  wr_name : p_Name p' = p_Name p;
  wr_len : length (vis (p_Ids p')) = length (vis (p_Ids p)) ∧ length (vis (p_Rows p')) = length (vis (p_Rows p)) ∧
           length (vis (p_Tms p')) = length (vis (p_Tms p))
}.

Lemma vcap_vback {A} (s : vslice A) : vcap s = length (vback s).
Proof using. unfold vcap, vback. by rewrite length_app. Qed.

Lemma wrote_pool times p p' start ids rws tms :
  wrote times p p' start ids rws tms → pool_ok p → pairs_ok ids rws tms → (start + length ids <= vcap (p_Ids p))%nat →
  pool_ok p' ∧ vcap (p_Ids p') = vcap (p_Ids p).
Proof using.
  intros [Wi Wr Wt _ _] [Pr Pt Pi Pw Pm] [Lr Lt Fi Fr Ft] Hc. rewrite !vcap_vback in *.
  assert (Ei : length (vback (p_Ids p')) = length (vback (p_Ids p))) by (rewrite Wi, length_overwrite; lia).
  assert (Er : length (vback (p_Rows p')) = length (vback (p_Ids p))) by (rewrite Wr, length_overwrite; lia).
  assert (Et : length (vback (p_Tms p')) = length (vback (p_Ids p))) by (rewrite Wt; destruct times; rewrite ?length_overwrite; lia).
  split; [|done]. split; rewrite ?vcap_vback; [lia..|rewrite Wi|rewrite Wr|rewrite Wt; destruct times]; auto using Forall_overwrite.
Qed.

Lemma wrote_app times p p1 p2 start i r t ids rws tms :
  wrote times p p1 start i r t → wrote times p1 p2 (start + length i) ids rws tms → pool_ok p →
  length r = length i → length t = length i → pairs_ok ids rws tms → (start + length i + length ids <= vcap (p_Ids p))%nat →
  wrote times p p2 start (i ++ ids) (r ++ rws) (t ++ tms).
Proof using.
  intros [Wi Wr Wt Wn (L1 & L2 & L3)] [Vi Vr Vt Vn (M1 & M2 & M3)] [Pr Pt _ _ _] Hr Ht [Lr Lt _ _ _] Hc. rewrite !vcap_vback in *. split.
  - rewrite Vi, Wi. apply overwrite_overwrite. lia.
  - rewrite Vr, Wr, <- Hr. apply overwrite_overwrite. lia.
  - rewrite Vt, Wt. destruct times; [|done]. rewrite <- Ht. apply overwrite_overwrite. lia.
  - congruence.
  - split_and!; congruence.
Qed.

(** One block of pairs. *)
Lemma unmarshal_block_spec pooled times k i rw t bytes rows p start r ctx :
  small i → pairs_ok i rw t → pairs_block times i rw t bytes → pool_ok p → coder_ok pooled ctx →
  (start + length i <= rows)%nat → (rows <= vcap (p_Ids p))%nat →
  ∃ p1 ctx1, unmarshal_blocks pooled (S k) p times rows start (bytes ++ r) ctx =
             unmarshal_blocks pooled k p1 times rows (start + length i) r ctx1 ∧
    wrote times p p1 start i rw t ∧ coder_ok pooled ctx1.
Proof.
  intros Hsm [Lr Lt Fi Fr Ft] (b1 & b2 & b3 & B1 & B2 & B3 & ->) [Pr Pt Pi Pw Pm] Hc Hst Hcap. cbn [unmarshal_blocks].
  assert (Hsr : small rw) by (split; [intros ->; by destruct i, Hsm|destruct Hsm; lia]).
  assert (Hst' : small t) by (split; [intros ->; by destruct i, Hsm|destruct Hsm; lia]).
  rewrite <- !app_assoc. rewrite (proj2 (Nat.ltb_ge _ _)) by (unfold sized; rewrite !length_app, !length_put_u32; lia).
  assert (Hi : in_u 32 (Z.of_nat (length i))) by (unfold in_u; destruct Hsm; unfold maxBlock in *; lia).
  rewrite read_uint32 by done. rs. rewrite Nat2Z.id, (proj2 (Nat.ltb_ge _ _)) by lia. rewrite from_app by done. rs.
  destruct (vsub_Ok (p_Ids p) start (length i)) as [? ->]; [lia|]. rs.
  destruct (decodeUnsignedBlock_spec pooled b1 i (sized b2 ++ (if times then sized b3 else []) ++ r) (p_Ids p) start ctx) as (si & c1 & -> & C1 & W1 & V1); [done..|lia|]. rs.
  destruct (vsub_Ok (p_Rows p) start (length i)) as [? ->]; [lia|]. rs.
  destruct (decodeIntegerBlock_spec pooled b2 rw ((if times then sized b3 else []) ++ r) (p_Rows p) start c1) as (sr & c2 & -> & C2 & W2 & V2); [done..|lia|]. rs.
  destruct times.
  - destruct (vsub_Ok (p_Tms p) start (length i)) as [? ->]; [lia|]. rs.
    destruct (decodeIntegerBlock_spec pooled b3 t r (p_Tms p) start c2) as (st & c3 & -> & C3 & W3 & V3); [by auto..|lia|]. rs.
    eexists _, c3. split; [done|]. split; [|done]. by split.
  - cbn [app]. eexists _, c2. split; [done|]. split; [|done]. by split.
Qed.

Lemma pairs_ok_app i r t ids rws tms :
  pairs_ok (i ++ ids) (r ++ rws) (t ++ tms) → length r = length i → length t = length i → pairs_ok i r t ∧ pairs_ok ids rws tms.
Proof using.
  intros [Lr Lt Fi Fr Ft] Hr Ht. rewrite !length_app in *. rewrite !Forall_app in *.
  destruct Fi, Fr, Ft. split; split; done || lia.
Qed.

Lemma unmarshal_blocks_spec pooled times k ids rws tms bs rows :
  pairs_blocks times k ids rws tms bs → pairs_ok ids rws tms → ∀ p start r ctx,
  pool_ok p → coder_ok pooled ctx → (start + length ids <= rows)%nat → (rows <= vcap (p_Ids p))%nat →
  ∃ p', unmarshal_blocks pooled k p times rows start (bs ++ r) ctx = Ok (p', r) ∧ wrote times p p' start ids rws tms.
Proof.
  induction 1 as [|k i rw t bytes ids rws tms bs Hsm Hrl Htl Hb _ IH]; intros Hok p start r ctx Hp Hc Hst Hcap.
  { assert (E : ∀ l : list Z, overwrite l start [] = l) by (intros l; unfold overwrite; cbn [app length]; by rewrite Nat.add_0_r, take_drop).
    exists p. split; [done|]. split; rewrite ?E; try done. by destruct times. }
  apply pairs_ok_app in Hok as [Hok1 Hok2]; [|done..]. rewrite length_app in Hst. rewrite <- app_assoc.
  destruct (unmarshal_block_spec pooled times k i rw t bytes rows p start (bs ++ r) ctx) as (p1 & c1 & -> & W1 & C1); [done..|lia|done|].
  destruct (wrote_pool times p p1 start i rw t) as [Hp1 Hcap1]; [done..|lia|].
  destruct (IH Hok2 p1 (start + length i)%nat r c1) as (p2 & -> & W2); [done..|lia|lia|].
  exists p2. split; [done|]. apply (wrote_app times p p1); done || lia.
Qed.

Lemma pair_reserve_spec p n : pool_ok p →
  ∃ p', IdTimePairs_reserve p n = Ok p' ∧ pool_ok p' ∧ p_Name p' = p_Name p ∧ (n <= vcap (p_Ids p'))%nat ∧
    length (vis (p_Ids p')) = n ∧ length (vis (p_Rows p')) = n ∧ length (vis (p_Tms p')) = n ∧
    vback (p_Tms p') = if (vcap (p_Ids p) <? n)%nat then replicate n 0 else vback (p_Tms p).
Proof using.
  intros Hp. unfold IdTimePairs_reserve. set (new := mk_vs (replicate n 0) []).
  set (q := if (vcap (p_Ids p) <? n)%nat then mk_pair (p_Name p) new new new else p).
  assert (Hback : vback new = replicate n 0) by (unfold vback, new; cbn; by rewrite app_nil_r).
  assert (Hq : pool_ok q ∧ p_Name q = p_Name p ∧ (n <= vcap (p_Ids q))%nat ∧ vback (p_Tms q) = if (vcap (p_Ids p) <? n)%nat then replicate n 0 else vback (p_Tms p)).
  { unfold q. destruct (Nat.ltb_spec (vcap (p_Ids p)) n); [|by split_and!]. split_and!; try done.
    - split; cbn [p_Ids p_Rows p_Tms]; try done; rewrite Hback; by apply Forall_replicate.
    - unfold vcap, new. cbn. rewrite length_replicate. lia. }
  destruct Hq as (Hq & Hn & Hc & Ht). destruct Hq as [Pr Pt Pi Pw Pm].
  assert (Hre : ∀ s : vslice Z, (n <= vcap s)%nat → ∃ s', vreslice s n = Ok s' ∧ vback s' = vback s ∧ length (vis s') = n).
  { intros s Hs. unfold vreslice. rewrite (proj2 (Nat.leb_le _ _)) by done. eexists; split; [done|]. unfold vback at 1. cbn [vis spare].
    rewrite take_drop. split; [done|]. rewrite length_take, <- vcap_vback. lia. }
  destruct (Hre (p_Ids q)) as (s1 & E1 & B1 & L1), (Hre (p_Tms q)) as (s2 & E2 & B2 & L2), (Hre (p_Rows q)) as (s3 & E3 & B3 & L3); [lia..|].
  rewrite E1. rs. rewrite E2. rs. rewrite E3. rs.
  eexists; split; [done|]. cbn [p_Name p_Ids p_Rows p_Tms]. rewrite !vcap_vback in *. split_and!; rewrite ?B1, ?B2; try done.
  split; cbn [p_Ids p_Rows p_Tms]; rewrite ?vcap_vback, ?B1, ?B2, ?B3; done.
Qed.

(** What is left of the times of an object that is used again when none are read. *)
Definition left_times (p : IdTimePairs) (n : nat) : list Z :=
  if (vcap (p_Ids p) <? n)%nat then replicate n 0 else take n (vback (p_Tms p)).

Lemma Unmarshal_spec pooled pooledTime (times : bool) ids rws tms bs p r :
  pairs_blocks times (nblocks (length ids)) ids rws tms bs → pairs_ok ids rws tms → Z.of_nat (length ids) < 2 ^ 32 → pool_ok p →
  length (IntCoder.values (GetIntCoder pooled)) = 240%nat →
  ∃ p', IdTimePairs_Unmarshal pooled pooledTime p times (put_u32 (Z.of_nat (length ids)) ++ put_u32 (Z.of_nat (nblocks (length ids))) ++ bs ++ r) = Ok (p', r) ∧
    pool_ok p' ∧ p_Name p' = p_Name p ∧ vis (p_Ids p') = ids ∧ vis (p_Rows p') = rws ∧
    vis (p_Tms p') = if times then tms else left_times p (length ids).
Proof.
  intros Hb Hok Hn Hp Hc. set (n := length ids) in *. unfold IdTimePairs_Unmarshal.
  rewrite (proj2 (Nat.ltb_ge _ _)) by (rewrite !length_app, !length_put_u32; lia).
  rewrite read_uint32 by (unfold in_u; lia). rs. rewrite from_app by done. rs. rewrite Nat2Z.id.
  destruct (pair_reserve_spec p n Hp) as (p1 & -> & Hp1 & Hname & Hcap & L1 & L2 & L3 & Ht1). rs.
  pose proof (nblocks_le n). rewrite read_uint32 by (unfold in_u; lia). rs. rewrite from_app by done. rs. rewrite Nat2Z.id.
  match goal with |- context [unmarshal_blocks _ _ _ _ _ _ _ ?c] => destruct (unmarshal_blocks_spec pooled times (nblocks n) ids rws tms bs n Hb Hok p1 0 r c) as (p2 & -> & W) end;
    [done..|]. destruct (wrote_pool times p1 p2 0 ids rws tms W Hp1 Hok) as [Hp2 _]; [fold n; lia|].
  destruct W as [Wi Wr Wt Wn (M1 & M2 & M3)]. destruct Hok as [Lr Lt _ _ _]. fold n in Lr, Lt.
  assert (Hvis : ∀ s : vslice Z, vis s = take (length (vis s)) (vback s)) by (intros s; unfold vback; by rewrite take_app_length).
  assert (Hov : ∀ l xs : list Z, length xs = n → take n (overwrite l 0 xs) = xs).
  { intros l xs Hx. unfold overwrite. rewrite take_0. cbn [app]. rewrite <- Hx. apply take_app_length. }
  exists p2. split; [done|]. split; [done|]. split; [congruence|].
  rewrite (Hvis (p_Ids p2)), (Hvis (p_Rows p2)), (Hvis (p_Tms p2)), M1, M2, M3, L1, L2, L3, Wi, Wr, Wt, !Hov by done.
  split; [done|]. split; [done|]. destruct times; [by apply Hov|]. rewrite Ht1. unfold left_times. case_match; [|done].
  apply take_ge. by rewrite length_replicate.
Qed.
End Unmarshal.

(** ** Files *)

Section Files.
Context `{RT : GoRuntime} `{ZS : Zstd} `{!ZstdLaws ZS} `{BL : BloomLaws} `{SN : Snappy} `{LZ : Lz4} {W : Type} `{IW : IndexWriter W}
  (rep : W → list (list Z) → list Z → Prop) (stores : list Z → list Z → Prop) `{IL : !IndexWriterLaws W rep stores}.
Variables (e : bool) (mode : Z) (conf : Config).

Lemma LoadIdTimes_read pooled pooledTime t l cbs bs idt file tr bf tr0 avg p :
  start_trailer t → layout stores e mode t l cbs bs idt file tr bf → Forall chunk_ok (metas l) → l ≠ [] →
  Z.of_nat (metas_size e (metas l)) < 2 ^ 32 → Z.of_nat (length file) < 2 ^ 32 →
  ∃ r1 r2, NewTSSPFileReader tr0 file = Ok r1 ∧ LoadComponents r1 = Ok r2 ∧
    LoadIdTimes pooled pooledTime false r1 avg true p =
    let! (p, _) := IdTimePairs_Unmarshal pooled pooledTime p true idt in Ok (r2, p, initChunkStat avg p).
Proof using BL.
  intros Ht Hla Hok Hne Hsz Hfile.
  destruct (NewTSSPFileReader_spec stores e mode t l cbs bs idt file tr bf Ht Hla Hok Hne Hsz Hfile tr0) as (tr' & E1 & Hv).
  destruct (LoadComponents_spec stores e mode t l cbs bs idt file tr bf Ht Hla Hok Hne Hsz Hfile tr' (Z.of_nat (length file - 8 - length (trailer_enc tr))) Hv)
    as (r2 & E2 & Rf & Rt & _). eexists _, r2. split; [done|]. split; [done|].
  unfold LoadIdTimes, lazyInit. rewrite E2. rs. cbn [r_trailer].
  pose proof (file_sizes stores e mode t l cbs bs idt file tr bf Hla) as Hl. pose proof (la_file _ _ _ _ _ _ _ _ _ _ _ Hla) as Hf.
  destruct (la_trailer _ _ _ _ _ _ _ _ _ _ _ Hla) as (bm & bk & d & Htr & _). unfold items, hdr in *.
  set (hd := fileHeader ++ chunk_bytes l) in *. set (ib := index_bytes (shift_index (Z.of_nat (length hd)) <$> entries 0 bs cbs)) in *.
  rewrite Htr in Hv. apply (f_equal (λ t, (dataOffset t, dataSize t, indexSize t, metaIndexSize t, bloomSize t, idTimeSize t))) in Hv. cbn in Hv. injection Hv as V1 V2 V3 V4 V5 V6.
  assert (Hhd : length hd = (16 + length (chunk_bytes l))%nat) by (unfold hd; rewrite length_app; done).
  unfold Trailer_idTimeOffsetSize. rewrite V1, V2, V3, V4, V5, V6, Rf.
  rewrite wrap_s_id, wrap_u_id by (lia || (unfold in_s, in_u; lia)).
  rewrite Hf, (app_assoc _ bf), (app_assoc ib), (app_assoc (concat bs)), (app_assoc hd), ReadAt_middle by (rewrite ?length_app; lia). rs.
  rewrite Z.eqb_refl. cbn [negb]. done.
Qed.
(** What a file says about the chunks [l] fits the widths of the types. *)
Lemma pairs_of_ok l : Forall chunk_ok (metas l) → Forall (in_s 64) (snd <$> l : list Z) → pairs_ok (sid <$> metas l) (snd <$> l) (tmax <$> metas l).
Proof using.
  intros Hok Hr. split; try done.
  - rewrite !length_fmap. unfold metas. by rewrite length_fmap.
  - by rewrite !length_fmap.
  - apply Forall_fmap. eapply Forall_impl; [exact Hok|]. intros m Hm. apply Hm.
  - apply Forall_fmap. eapply Forall_impl; [exact Hok|]. intros m Hm. cbn. unfold tmax.
    destruct (last (vis (timeRange m))) as [sr|] eqn:El; [|by_compute]. cbn. rewrite last_lookup in El.
    pose proof (ck_trs m Hm) as Ht. eapply Forall_lookup_1 in Ht; [|exact El]. apply Ht.
Qed.

(** A file keeps the id times of its chunks. *)
Lemma file_ids_spec name (w : W) t tr0 l pooled pooled2 pooledTime ctx avg p0 :
  rep w [] [] → start_trailer t → chunks_ok e l → Forall (in_s 64) (snd <$> l : list Z) → pool_ok p0 →
  length (IntCoder.values (GetIntCoder pooled2)) = 240%nat →
  ∃ b file b', WriteAll e mode conf (new_builder name w t) l = Ok b ∧ FlushFile mode pooled true ctx b = Ok (file, b') ∧
    pair_view (b_pair b) = pairs_of name l ∧
    (Z.of_nat (length file) < 2 ^ 32 →
     ∃ r1 r2 p', NewTSSPFileReader tr0 file = Ok r1 ∧
       LoadIdTimes pooled2 pooledTime false r1 avg true p0 = Ok (r2, p', initChunkStat avg p') ∧
       pool_ok p' ∧ pair_view p' = pairs_of (p_Name p0) l).
Proof using BL IL ZstdLaws0.
  intros Hw Ht [[Hne Hcb] Hok Hord Hs Hsz] Hrows Hp Hc.
  destruct (WriteAll_spec rep stores e mode conf name t l (new_builder name w t) []) as (b & Hb & Hfin); [by apply new_builder_spec|apply Ht|done..|]. cbn [app] in Hfin.
  pose proof (fi_pair _ _ _ _ _ _ _ Hfin Hne) as Hpair. pose proof Hpair as Hpv. injection Hpv as Pn Pi Pt Pr. pose proof (pairs_of_ok l Hok Hrows) as Hpo.
  assert (Hlen : length (vis (p_Ids (b_pair b))) = length (metas l)) by by rewrite Pi, length_fmap.
  assert (Hll : length (snd <$> l : list Z) = length (metas l)) by (unfold metas; by rewrite !length_fmap).
  assert (Hcount : Z.of_nat (length (metas l)) < 2 ^ 32) by (unfold metas_size in Hsz; lia).
  destruct (Marshal_spec pooled (b_pair b) true nil_slice ctx) as (idt & ctx' & bytes & Hm & Hd & Hbl);
    [by rewrite Hlen, Pr|by rewrite Hlen, Pt, length_fmap|by rewrite Hlen|].
  cbn [nil_slice sdata app] in Hd. rewrite Pi, Pt, Pr in Hbl. rewrite Pi in Hd.
  destruct (Flush_spec rep stores e mode t name b l (sdata idt)) as (file & b' & cbs & bs & tr & bf & Hfl & Hla); [done..|].
  exists b, file, b'. split; [done|]. unfold FlushFile. rs. rewrite Hm. rs. split; [done|]. split; [done|]. intros Hfile.
  destruct (LoadIdTimes_read pooled2 pooledTime t l cbs bs (sdata idt) file tr bf tr0 avg p0) as (r1 & r2 & E1 & E2 & E3); [done..|].
  destruct (Unmarshal_spec pooled2 pooledTime true _ _ _ bytes p0 [] Hbl Hpo) as (p' & Hu & Hp' & Un & Ui & Ur & Ut); [by rewrite length_fmap|done..|].
  rewrite app_nil_r in Hu. exists r1, r2, p'. rewrite E3, Hd, Hu. rs. split_and!; try done.
  unfold pair_view, pairs_of. by rewrite Un, Ui, Ur, Ut.
Qed.
End Files.
