(* ===== verification/Sequencer.v ===== *)
(** * engine/immutable/sequencer.go: the last flush times of the series

    The sequencer keeps, per measurement and series, the last time in the ordered files and the
    number of rows; a flush writes rows after that time to an ordered file and the others to an
    unordered one.  It can be freed when nobody uses it and is loaded again from the id times of
    the files (compact.go, mms_loader.go).

    GetMmsIdTime hands out the table of a measurement, which a flush reads while others work on
    the sequencer: tables are objects with an address.  Every operation runs under a lock and
    is a step. *)

From Stdlib Require String.
From stdpp Require Import gmap sorting.
From S2P Require Import Prelude GoString GoSlice NumberEnc Coder TimeCoder IntCoder Blocks.
From S2P Require Import Bitmap ColVal TimeSearch Record RecordSort FileMeta FileCodec IndexWriter FileBuild FileRead FileWrite FileFind IdTimes IdTimesProps.

Record idInfo := mk_info { lastFlushTime : Z; info_rows : Z }.
(** The counter [sc] of a table is the one of its sequencer ([s_sc]). *)
Record MmsIdTime := mk_mms { idTime : gmap Z idInfo }.

Record Sequencer := mk_seq {
  s_tables : list MmsIdTime;          (* every table, by its address *)
  mmsIdTime : gmap string nat;
  isLoading : bool;
  isFree : bool;
  s_ref : Z;
  s_sc : Z                            (* SeriesCounter *)
}.

Definition NewMmsIdTime : MmsIdTime := mk_mms ∅.
Definition NewSequencer : Sequencer := mk_seq [] ∅ false false 0 0.

(** ** Tables; the second component is the shared counter *)

Definition info0 : idInfo := mk_info MinInt64 0.

Definition MmsIdTime_get (m : MmsIdTime) (id : Z) : Z * Z :=
  match idTime m !! id with None => (MinInt64, 0) | Some i => (lastFlushTime i, info_rows i) end.

Definition createIdInfo (m : MmsIdTime * Z) (id : Z) : (MmsIdTime * Z) * idInfo :=
  match idTime (fst m) !! id with
  | Some info => (m, info)
  | None => ((mk_mms (<[id := info0]> (idTime (fst m))), u64 (snd m + 1)), info0)
  end.

Definition MmsIdTime_addRowCounts (m : MmsIdTime * Z) (id rowCounts : Z) : MmsIdTime * Z :=
  let '(m, info) := createIdInfo m id in
  (mk_mms (<[id := mk_info (lastFlushTime info) (i64 (info_rows info + rowCounts))]> (idTime (fst m))), snd m).

(** The loop of batchUpdateCheckTime from index [i] on. *)
Fixpoint update_loop (p : IdTimePairs) (incrRows : bool) (ids : list Z) (i : nat) (m : MmsIdTime * Z) : res (MmsIdTime * Z) :=
  match ids with
  | [] => Ok m
  | id :: ids =>
      let '(m, info) := createIdInfo m id in
      let! rows :=
        if incrRows then match vis (p_Rows p) !! i with Some r => Ok (i64 (info_rows info + r)) | None => Panic end
        else Ok (info_rows info) in
      let time := match vis (p_Tms p) !! i with
                  | Some t => if lastFlushTime info <? t then t else lastFlushTime info
                  | None => lastFlushTime info
                  end in
      update_loop p incrRows ids (S i) (mk_mms (<[id := mk_info time rows]> (idTime (fst m))), snd m)
  end.
Definition batchUpdateCheckTime (m : MmsIdTime * Z) (p : IdTimePairs) (incrRows : bool) : res (MmsIdTime * Z) :=
  update_loop p incrRows (vis (p_Ids p)) 0 m.

(** ** The sequencer *)

Definition table_at (s : Sequencer) (a : nat) : MmsIdTime := default NewMmsIdTime (s_tables s !! a).

(** Table and counter after an operation on the table at [a]. *)
Definition put_table (s : Sequencer) (a : nat) (m : MmsIdTime * Z) : Sequencer :=
  mk_seq (<[a := fst m]> (s_tables s)) (mmsIdTime s) (isLoading s) (isFree s) (s_ref s) (snd m).

Definition getMmsIdTime (s : Sequencer) (name : string) : Sequencer * nat :=
  match mmsIdTime s !! name with
  | Some a => (s, a)
  | None =>
      let a := length (s_tables s) in
      (mk_seq (s_tables s ++ [NewMmsIdTime]) (<[name := a]> (mmsIdTime s)) (isLoading s) (isFree s) (s_ref s) (s_sc s), a)
  end.

(** [unorderedOnly] is the store's setting. *)
Definition BatchUpdateCheckTime (unorderedOnly : bool) (s : Sequencer) (p : IdTimePairs) (incrRows : bool) : res Sequencer :=
  if unorderedOnly then Ok s
  else
    let '(s, a) := getMmsIdTime s (p_Name p) in
    let! m := batchUpdateCheckTime (table_at s a, s_sc s) p incrRows in
    Ok (put_table s a m).

Definition AddRowCounts (s : Sequencer) (mn : string) (id rowCounts : Z) : Sequencer :=
  let '(s, a) := getMmsIdTime s mn in
  put_table s a (MmsIdTime_addRowCounts (table_at s a, s_sc s) id rowCounts).

Definition Sequencer_Get (s : Sequencer) (mn : string) (id : Z) : Z * Z :=
  match mmsIdTime s !! mn with None => (MinInt64, 0) | Some a => MmsIdTime_get (table_at s a) id end.

Definition SeriesTotal (s : Sequencer) : Z := s_sc s.

Definition DelMmsIdTime (s : Sequencer) (name : string) : Sequencer :=
  match mmsIdTime s !! name with
  | None => s
  | Some a =>
      let n := Z.of_nat (size (idTime (table_at s a))) in
      mk_seq (s_tables s) (delete name (mmsIdTime s)) (isLoading s) (isFree s) (s_ref s)
        (if n =? 0 then s_sc s else u64 (s_sc s + (2 ^ 64 - n)))
  end.

(** The table of a measurement for a flush. *)
Definition GetMmsIdTime (s : Sequencer) (name : string) : option nat :=
  if isFree s || isLoading s then None else mmsIdTime s !! name.

(** free reads isFree before it takes the lock; the second part runs under the lock. *)
Definition free_locked (s : Sequencer) : Sequencer * bool :=
  if negb (s_ref s =? 0) then (s, false)
  else (mk_seq (s_tables s) ∅ (isLoading s) true (s_ref s) 0, true).
Definition free (s : Sequencer) : Sequencer * bool := if isFree s then (s, false) else free_locked s.

Definition set_ref (s : Sequencer) (r : Z) : Sequencer := mk_seq (s_tables s) (mmsIdTime s) (isLoading s) (isFree s) r (s_sc s).
Definition addRef (s : Sequencer) : Sequencer := set_ref s (i32 (s_ref s + 1)).
Definition UnRef (s : Sequencer) : Sequencer := set_ref s (i32 (s_ref s - 1)).

Definition ResetMmsIdTime (s : Sequencer) : Sequencer := mk_seq (s_tables s) ∅ (isLoading s) (isFree s) (s_ref s) (s_sc s).
Definition SetStat (s : Sequencer) (free loading : bool) : Sequencer := mk_seq (s_tables s) (mmsIdTime s) loading free (s_ref s) (s_sc s).
Definition SetToInLoading (s : Sequencer) : Sequencer * bool :=
  let ok := isFree s && negb (isLoading s) in
  (if ok then mk_seq (s_tables s) (mmsIdTime s) true (isFree s) (s_ref s) (s_sc s) else s, ok).

(** ** compact.go, mms_loader.go: loading the files *)

Section Reload.
Context `{RT : GoRuntime} `{ZS : Zstd} `{BE : BloomEnv}.

(** A file to load: its measurement, whether it is ordered, its reader (and whether that is
    initialised), and the object GetIDTimePairs took from the pool. *)
Record loadable := mk_load { ld_name : string; ld_order : bool; ld_reader : tsspFileReader; ld_inited : bool; ld_pair : IdTimePairs }.

Definition loadFromTSSPFile (pooled : option Integer) (pooledTime : option Time) (unorderedOnly : bool) (s : Sequencer) (f : loadable) : res Sequencer :=
  let p := IdTimePairs_Reset (ld_pair f) (ld_name f) in
  let! (_, p, _) := LoadIdTimes pooled pooledTime (ld_inited f) (ld_reader f) 0 (ld_order f) p in
  BatchUpdateCheckTime unorderedOnly s p true.

(** The files in the order in which they are done; an error stops the loading. *)
Fixpoint loadFiles (pooled : option Integer) (pooledTime : option Time) (unorderedOnly : bool) (s : Sequencer) (fs : list loadable) : res (Sequencer * bool) :=
  match fs with
  | [] => Ok (s, true)
  | f :: fs =>
      match loadFromTSSPFile pooled pooledTime unorderedOnly s f with
      | Ok s => loadFiles pooled pooledTime unorderedOnly s fs
      | Err _ => Ok (s, false)
      | Panic => Panic
      | Diverge => Diverge
      end
  end.

(** loadIdTimes does nothing without ordered files. *)
Definition loadIdTimes pooled pooledTime (unorderedOnly : bool) (s : Sequencer) (fs : list loadable) : res (Sequencer * bool) :=
  if negb (existsb ld_order fs) then Ok (s, true)
  else
    let! (s, ok) := loadFiles pooled pooledTime unorderedOnly (addRef s) fs in
    Ok (UnRef s, ok).

Definition reloadSequencer pooled pooledTime (unorderedOnly : bool) (s : Sequencer) (fs : list loadable) : res Sequencer :=
  let! (s, ok) := loadIdTimes pooled pooledTime unorderedOnly s fs in
  let s := if ok then s else ResetMmsIdTime s in
  Ok (SetStat s (negb ok) false).

Definition ReloadSequencer pooled pooledTime (unorderedOnly : bool) (s : Sequencer) (fs : list loadable) : res Sequencer :=
  let '(s, ok) := SetToInLoading s in
  if ok then reloadSequencer pooled pooledTime unorderedOnly s fs else Ok s.
End Reload.
