(* ===== verification/SequencerProps.v ===== *)
(** * The sequencer keeps the last times and the rows of the series

    The abstract state is the log of what was reported about the series.  The sequencer answers
    with the largest time and the sum of the rows in the log. *)

From Stdlib Require String.
From stdpp Require Import gmap sorting.
From S2P Require Import Prelude GoString GoSlice NumberEnc Coder TimeCoder IntCoder Blocks.
From S2P Require Import Bitmap ColVal TimeSearch Record RecordSort FileMeta FileCodec IndexWriter FileBuild FileRead FileWrite FileFind FileRuns IdTimes IdTimesProps Sequencer.

(** ** The log *)

Record event := mk_ev { ev_ms : string; ev_id : Z; ev_time : option Z; ev_rows : option Z }.

Definition about (name : string) (id : Z) (ev : event) : Prop := ev_ms ev = name ∧ ev_id ev = id.
#[export] Instance about_dec name id ev : Decision (about name id ev).
Proof. unfold about. apply _. Defined.

Definition last_time (l : list event) : Z := foldr Z.max MinInt64 (omap ev_time l).
Definition total_rows (l : list event) : Z := i64 (foldr Z.add 0 (omap ev_rows l)).

(** What the log says of a series. *)
Definition summary (log : list event) (name : string) (id : Z) : option idInfo :=
  match filter (about name id) log with
  | [] => None
  | l => Some (mk_info (last_time l) (total_rows l))
  end.
Definition series (log : list event) : gset (string * Z) := list_to_set ((λ ev, (ev_ms ev, ev_id ev)) <$> log).

(** The entry of a series after one more event. *)
Definition upd (i : idInfo) (ev : event) : idInfo :=
  mk_info (match ev_time ev with Some t => if lastFlushTime i <? t then t else lastFlushTime i | None => lastFlushTime i end)
    (match ev_rows ev with Some n => i64 (info_rows i + n) | None => info_rows i end).

Lemma foldr_max_snoc b l x : foldr Z.max b (l ++ [x]) = Z.max (foldr Z.max b l) x.
Proof. induction l as [|y l IH]; cbn; lia. Qed.

Lemma foldr_max_in b t l : t ∈ l → t ≤ foldr Z.max b l.
Proof. induction l as [|y l IH]; [by intros ?%not_elem_of_nil|]. intros [->|Ht]%elem_of_cons; cbn; [lia|]. specialize (IH Ht). lia. Qed.

Lemma foldr_add_snoc l x : foldr Z.add 0 (l ++ [x]) = foldr Z.add 0 l + x.
Proof. induction l as [|y l IH]; cbn; lia. Qed.

Lemma upd_snoc l ev : mk_info (last_time (l ++ [ev])) (total_rows (l ++ [ev])) = upd (mk_info (last_time l) (total_rows l)) ev.
Proof.
  unfold upd, last_time, total_rows. cbn [lastFlushTime info_rows]. f_equal.
  - rewrite omap_app. cbn [omap list_omap]. destruct (ev_time ev) as [t|]; [|by rewrite app_nil_r].
    rewrite foldr_max_snoc. destruct (Z.ltb_spec (foldr Z.max MinInt64 (omap ev_time l)) t); lia.
  - rewrite omap_app. cbn [omap list_omap]. destruct (ev_rows ev) as [n|]; [|by rewrite app_nil_r]. rewrite foldr_add_snoc. rewrite (Z.add_comm (i64 _)), wrap_s_add_r by lia. f_equal. lia.
Qed.

Lemma summary_snoc log ev name id :
  summary (log ++ [ev]) name id = if decide (about name id ev) then Some (upd (default info0 (summary log name id)) ev) else summary log name id.
Proof.
  unfold summary. rewrite filter_app. rewrite filter_cons, filter_nil. case_decide; [|by rewrite app_nil_r].
  destruct (filter (about name id) log) as [|x l] eqn:E; cbn [app default].
  - change [ev] with ([] ++ [ev]). rewrite upd_snoc. done.
  - rewrite app_comm_cons, upd_snoc. done.
Qed.

Lemma series_snoc log ev : series (log ++ [ev]) = series log ∪ {[ (ev_ms ev, ev_id ev) ]}.
Proof. unfold series. rewrite fmap_app, list_to_set_app_L. cbn. by rewrite union_empty_r_L. Qed.

Lemma elem_of_series log name id : (name, id) ∈ series log ↔ is_Some (summary log name id).
Proof.
  unfold series, summary. rewrite elem_of_list_to_set, list_elem_of_fmap.
  destruct (filter (about name id) log) as [|x l] eqn:E.
  - split; [|by intros [? ?]]. intros (ev & Hev & Hin). exfalso. injection Hev as Hn Hi.
    assert (ev ∈ filter (about name id) log) as H by (apply list_elem_of_filter; by split). rewrite E in H. by apply not_elem_of_nil in H.
  - split; [by eexists|]. intros _. assert (x ∈ filter (about name id) log) as H by (rewrite E; apply list_elem_of_here).
    apply list_elem_of_filter in H as [[<- <-] H]. by exists x.
Qed.

(** ** One event on a table *)

Definition apply_ev (m : MmsIdTime * Z) (ev : event) : MmsIdTime * Z :=
  (mk_mms (<[ev_id ev := upd (default info0 (idTime (fst m) !! ev_id ev)) ev]> (idTime (fst m))), match idTime (fst m) !! ev_id ev with Some _ => snd m | None => u64 (snd m + 1) end).

Lemma addRowCounts_apply m name id n : MmsIdTime_addRowCounts m id n = apply_ev m (mk_ev name id None (Some n)).
Proof.
  unfold MmsIdTime_addRowCounts, createIdInfo, apply_ev. cbn [ev_id]. destruct (idTime (fst m) !! id) as [i|]; [done|]. cbn [fst snd default idTime].
  by rewrite insert_insert_eq.
Qed.

(** The events of a list of pairs from index [i] on. *)
Fixpoint events_from (p : IdTimePairs) (incrRows : bool) (ids : list Z) (i : nat) : list event :=
  match ids with
  | [] => []
  | id :: ids => mk_ev (p_Name p) id (vis (p_Tms p) !! i) (if incrRows then vis (p_Rows p) !! i else None) :: events_from p incrRows ids (S i)
  end.
Definition pair_events (p : IdTimePairs) (incrRows : bool) : list event := events_from p incrRows (vis (p_Ids p)) 0.

Lemma update_loop_apply p incr ids : ∀ i m,
  (incr = true → (i + length ids <= length (vis (p_Rows p)))%nat) →
  update_loop p incr ids i m = Ok (fold_left apply_ev (events_from p incr ids i) m).
Proof.
  induction ids as [|id ids IH]; intros i m Hl; [done|]. cbn [update_loop events_from fold_left length] in *.
  assert (Hrow : incr = true → ∃ r, vis (p_Rows p) !! i = Some r) by (intros Hi; apply lookup_lt_is_Some; specialize (Hl Hi); lia).
  set (ev := mk_ev (p_Name p) id (vis (p_Tms p) !! i) (if incr then vis (p_Rows p) !! i else None)).
  assert (Hev : apply_ev m ev = (let '(m', info) := createIdInfo m id in (mk_mms (<[id := upd info ev]> (idTime (fst m'))), snd m'))).
  { unfold apply_ev, createIdInfo. cbn [ev_id ev]. destruct (idTime (fst m) !! id); [done|]. cbn [fst snd default idTime]. by rewrite insert_insert_eq. }
  rewrite Hev. destruct (createIdInfo m id) as [m' info]. unfold upd, ev. cbn [ev_time ev_rows].
  destruct incr; [destruct (Hrow eq_refl) as [r ->]|]; rs; apply IH; [intros Hi; specialize (Hl Hi); lia|done].
Qed.

(** ** The relation *)

Definition entry_of (s : Sequencer) (name : string) (id : Z) : option idInfo := mmsIdTime s !! name ≫= λ a, idTime (table_at s a) !! id.

(** Tables have addresses, and measurements do not share one. *)
Record seq_wf (s : Sequencer) : Prop := {
  wf_addr name a : mmsIdTime s !! name = Some a → (a < length (s_tables s))%nat;
  wf_own n1 n2 a : mmsIdTime s !! n1 = Some a → mmsIdTime s !! n2 = Some a → n1 = n2
}.

Record astate := mk_a { a_log : list event; a_free : bool; a_loading : bool; a_ref : Z; a_stray : Z }.

(** [a_stray] counts entries that were dropped while the counter was not. *)
Record refines (s : Sequencer) (a : astate) : Prop := {
  rf_wf : seq_wf s;
  rf_entry name id : entry_of s name id = summary (a_log a) name id;
  rf_flags : isFree s = a_free a ∧ isLoading s = a_loading a ∧ s_ref s = a_ref a;
  rf_count : SeriesTotal s = u64 (Z.of_nat (size (series (a_log a))) + a_stray a)
}.

Definition with_log (a : astate) (log : list event) : astate := mk_a log (a_free a) (a_loading a) (a_ref a) (a_stray a).

Lemma table_at_put s a m : (a < length (s_tables s))%nat → table_at (put_table s a m) a = fst m.
Proof. intros H. unfold table_at, put_table. cbn [s_tables]. by rewrite list_lookup_insert_eq. Qed.

Lemma table_at_put_ne s a b m : a ≠ b → table_at (put_table s a m) b = table_at s b.
Proof. intros H. unfold table_at, put_table. cbn [s_tables]. by rewrite list_lookup_insert_ne. Qed.

Lemma put_table_put s a m1 m2 : put_table (put_table s a m1) a m2 = put_table s a m2.
Proof. unfold put_table. cbn [s_tables mmsIdTime isLoading isFree s_ref]. by rewrite list_insert_insert_eq. Qed.

(** Making room for a measurement changes no entry. *)
Lemma getMmsIdTime_spec s a name : refines s a →
  let '(s', loc) := getMmsIdTime s name in refines s' a ∧ mmsIdTime s' !! name = Some loc.
Proof.
  intros [[Hadr Hown] He Hf Hc]. unfold getMmsIdTime. destruct (mmsIdTime s !! name) as [loc|] eqn:E; [by split|].
  cbn [mmsIdTime]. rewrite lookup_insert_eq. split; [|done].
  assert (Hnew : ∀ n b, <[name := length (s_tables s)]> (mmsIdTime s) !! n = Some b →
    (n = name ∧ b = length (s_tables s)) ∨ (n ≠ name ∧ mmsIdTime s !! n = Some b)).
  { intros n b. destruct (decide (n = name)) as [->|Hne]; [rewrite lookup_insert_eq; intros [= <-]; by left|].
    rewrite lookup_insert_ne by done. by right. }
  split; try done.
  - split; cbn [s_tables mmsIdTime]; rewrite ?length_app; cbn [length].
    + intros n b [[-> ->]|[_ H]]%Hnew; [lia|]. apply Hadr in H. lia.
    + intros n1 n2 b [[-> ->]|[_ H1]]%Hnew [[-> E2]|[_ H2]]%Hnew; [done|apply Hadr in H2; lia|subst b; apply Hadr in H1; lia|by eapply Hown].
  - intros n id. rewrite <- He. unfold entry_of, table_at. cbn [s_tables mmsIdTime]. destruct (decide (n = name)) as [->|Hne].
    + rewrite lookup_insert_eq, E. cbn [mbind option_bind]. by rewrite lookup_app_r, Nat.sub_diag.
    + rewrite lookup_insert_ne by done. destruct (mmsIdTime s !! n) as [b|] eqn:En; [|done]. cbn [mbind option_bind].
      rewrite lookup_app_l by by eapply Hadr. done.
Qed.

(** One event. *)
Lemma apply_spec s a loc ev : refines s a → mmsIdTime s !! ev_ms ev = Some loc →
  refines (put_table s loc (apply_ev (table_at s loc, s_sc s) ev)) (with_log a (a_log a ++ [ev])).
Proof.
  intros [[Hadr Hown] He Hf Hc] Hl. pose proof (Hadr _ _ Hl) as Hlt.
  assert (Hev : idTime (table_at s loc) !! ev_id ev = summary (a_log a) (ev_ms ev) (ev_id ev)) by (rewrite <- He; unfold entry_of; by rewrite Hl).
  split; try done.
  - split; unfold put_table; cbn [s_tables mmsIdTime]; [|done]. rewrite length_insert. done.
  - intros n id. cbn [with_log a_log]. rewrite summary_snoc. unfold entry_of. cbn [put_table mmsIdTime].
    destruct (decide (n = ev_ms ev)) as [->|Hne].
    + rewrite Hl. cbn [mbind option_bind]. rewrite table_at_put by done. unfold apply_ev. cbn [fst snd idTime].
      destruct (decide (id = ev_id ev)) as [->|Hni].
      * rewrite decide_True by done. by rewrite lookup_insert_eq, Hev.
      * rewrite decide_False by (intros [_ ?]; done). rewrite lookup_insert_ne by done. rewrite <- He. unfold entry_of. by rewrite Hl.
    + rewrite decide_False by (intros [? _]; done). rewrite <- He. unfold entry_of. destruct (mmsIdTime s !! n) as [b|] eqn:En; [|done].
      cbn [mbind option_bind]. rewrite table_at_put_ne; [done|]. intros <-. by apply Hne, (Hown _ _ loc).
  - cbn [with_log a_log a_stray]. unfold SeriesTotal, put_table, apply_ev. cbn [s_sc snd fst]. rewrite Hev, series_snoc.
    destruct (summary (a_log a) (ev_ms ev) (ev_id ev)) as [i|] eqn:Es.
    + assert ((ev_ms ev, ev_id ev) ∈ series (a_log a)) by (apply elem_of_series; by rewrite Es).
      rewrite union_comm_L, subseteq_union_1_L by by apply singleton_subseteq_l. done.
    + assert ((ev_ms ev, ev_id ev) ∉ series (a_log a)) by (rewrite elem_of_series, Es; by intros [? ?]).
      rewrite size_union, size_singleton by by apply disjoint_singleton_r. unfold SeriesTotal in Hc. rewrite Hc, wrap_u_add_l. f_equal. lia.
Qed.

Lemma apply_all_spec evs : ∀ s a loc name, refines s a → mmsIdTime s !! name = Some loc → Forall (λ ev, ev_ms ev = name) evs →
  refines (put_table s loc (fold_left apply_ev evs (table_at s loc, s_sc s))) (with_log a (a_log a ++ evs)).
Proof.
  induction evs as [|ev evs IH]; intros s a loc name Hr Hl Hn; cbn [fold_left].
  - rewrite app_nil_r. pose proof (wf_addr s (rf_wf _ _ Hr) _ _ Hl) as Hlt. destruct a. unfold with_log, put_table. cbn [a_log a_free a_loading a_ref a_stray fst snd].
    replace (<[loc:=table_at s loc]> (s_tables s)) with (s_tables s); [by destruct s|]. symmetry. apply list_insert_id.
    unfold table_at. apply lookup_lt_is_Some in Hlt as [m ->]. done.
  - apply Forall_cons in Hn as [<- Hn]. pose proof (apply_spec s a loc ev Hr Hl) as H1.
    pose proof (wf_addr s (rf_wf _ _ Hr) _ _ Hl) as Hlt.
    pose proof (IH _ _ loc (ev_ms ev) H1 Hl Hn) as H2. rewrite table_at_put, put_table_put in H2 by done.
    cbn [with_log a_log] in H2. rewrite <- app_assoc in H2. exact H2.
Qed.

(** ** Operations *)

Inductive op :=
| OUpdate (p : IdTimePairs) (incrRows : bool)
| OAddRows (mn : string) (id rowCounts : Z)
| ODel (name : string)
| OFree | OAddRef | OUnRef
| OSetToInLoading | OReset | OSetStat (free loading : bool).

Definition exec (unorderedOnly : bool) (s : Sequencer) (o : op) : res Sequencer :=
  match o with
  | OUpdate p incr => BatchUpdateCheckTime unorderedOnly s p incr
  | OAddRows mn id n => Ok (AddRowCounts s mn id n)
  | ODel name => Ok (DelMmsIdTime s name)
  | OFree => Ok (fst (free s))
  | OAddRef => Ok (addRef s)
  | OUnRef => Ok (UnRef s)
  | OSetToInLoading => Ok (fst (SetToInLoading s))
  | OReset => Ok (ResetMmsIdTime s)
  | OSetStat f l => Ok (SetStat s f l)
  end.

Fixpoint run_seq (unorderedOnly : bool) (s : Sequencer) (os : list op) : res Sequencer :=
  match os with
  | [] => Ok s
  | o :: os => let! s := exec unorderedOnly s o in run_seq unorderedOnly s os
  end.

Definition drop_ms (name : string) (log : list event) : list event := filter (λ ev, ev_ms ev ≠ name) log.

(** The same on the log. *)
Definition spec_step (unorderedOnly : bool) (a : astate) (o : op) : astate :=
  match o with
  | OUpdate p incr => if unorderedOnly then a else with_log a (a_log a ++ pair_events p incr)
  | OAddRows mn id n => with_log a (a_log a ++ [mk_ev mn id None (Some n)])
  | ODel name => with_log a (drop_ms name (a_log a))
  | OFree => if a_free a || negb (a_ref a =? 0) then a else mk_a [] true (a_loading a) (a_ref a) 0
  | OAddRef => mk_a (a_log a) (a_free a) (a_loading a) (i32 (a_ref a + 1)) (a_stray a)
  | OUnRef => mk_a (a_log a) (a_free a) (a_loading a) (i32 (a_ref a - 1)) (a_stray a)
  | OSetToInLoading => mk_a (a_log a) (a_free a) (a_loading a || a_free a) (a_ref a) (a_stray a)
  | OReset => mk_a [] (a_free a) (a_loading a) (a_ref a) (a_stray a + Z.of_nat (size (series (a_log a))))
  | OSetStat f l => mk_a (a_log a) f l (a_ref a) (a_stray a)
  end.

(** Rows are only read for pairs that have them. *)
Definition op_ok (o : op) : Prop :=
  match o with OUpdate p true => (length (vis (p_Ids p)) <= length (vis (p_Rows p)))%nat | _ => True end.

Lemma filter_drop_ms name n id log :
  filter (about n id) (drop_ms name log) = if decide (n = name) then [] else filter (about n id) log.
Proof.
  unfold drop_ms. induction log as [|ev log IH]; [by case_decide|]. rewrite (filter_cons (λ ev, ev_ms ev ≠ name)).
  rewrite (filter_cons (about n id) ev log). destruct (decide (ev_ms ev ≠ name)) as [H|H].
  - rewrite filter_cons, IH. destruct (decide (about n id ev)) as [Ha|Ha]; [|done]. destruct Ha as [Hn _]. by rewrite !decide_False by congruence.
  - rewrite IH. destruct (decide (n = name)) as [->|Hne]; [done|]. rewrite decide_False; [done|]. intros [Hn _]. apply H. congruence.
Qed.

Lemma summary_drop_ms name log n id : summary (drop_ms name log) n id = if decide (n = name) then None else summary log n id.
Proof. unfold summary. rewrite filter_drop_ms. by case_decide. Qed.

Lemma size_pairs (name : string) (T : gmap Z idInfo) : size (set_map (pair name) (dom T) : gset (string * Z)) = size T.
Proof.
  unfold set_map. rewrite size_list_to_set, length_fmap; [apply size_dom|].
  apply NoDup_fmap_2; [by intros x y [=]|apply NoDup_elements].
Qed.

Lemma size_drop_ms name log (T : gmap Z idInfo) : (∀ id, T !! id = summary log name id) →
  size (series log) = (size (series (drop_ms name log)) + size T)%nat.
Proof.
  intros HT. rewrite <- (size_pairs name T), <- size_union.
  - f_equal. apply set_eq. intros [n i]. rewrite elem_of_union, !elem_of_series, summary_drop_ms, elem_of_map.
    destruct (decide (n = name)) as [->|Hne].
    + rewrite <- HT. split; [intros H; right; exists i; split; [done|]; by apply elem_of_dom|].
      intros [[? ?]|(j & [= <-] & Hj)]; [done|by apply elem_of_dom].
    + split; [by left|]. intros [H|(j & [= ->] & _)]; done.
  - apply elem_of_disjoint. intros [n i] H1 H2. apply elem_of_map in H2 as (j & [= -> ->] & _).
    apply elem_of_series in H1. rewrite summary_drop_ms, decide_True in H1 by done. by destruct H1.
Qed.

Lemma DelMmsIdTime_spec s a name : refines s a → refines (DelMmsIdTime s name) (with_log a (drop_ms name (a_log a))).
Proof.
  intros [[Hadr Hown] He Hf Hc]. unfold DelMmsIdTime. destruct (mmsIdTime s !! name) as [loc|] eqn:E.
  - assert (HT : ∀ id, idTime (table_at s loc) !! id = summary (a_log a) name id) by (intros id; rewrite <- He; unfold entry_of; by rewrite E).
    pose proof (size_drop_ms name (a_log a) (idTime (table_at s loc)) HT) as Hsz. split; cbn [with_log a_log a_free a_loading a_ref a_stray]; try done.
    + split; cbn [s_tables mmsIdTime]; [intros n b [_ H]%lookup_delete_Some; by eapply Hadr|].
      intros n1 n2 b [_ H1]%lookup_delete_Some [_ H2]%lookup_delete_Some. by eapply Hown.
    + intros n id. rewrite summary_drop_ms. unfold entry_of, table_at. cbn [mmsIdTime s_tables]. destruct (decide (n = name)) as [->|Hne].
      * by rewrite lookup_delete_eq.
      * rewrite lookup_delete_ne by done. apply He.
    + unfold SeriesTotal in *. cbn [s_sc]. rewrite Hc, Hsz. destruct (Z.eqb_spec (Z.of_nat (size (idTime (table_at s loc)))) 0) as [H0|H0].
      * f_equal. lia.
      * rewrite wrap_u_add_l. unfold wrap_u. rewrite <- (Z.mod_add _ (-1)) by lia. f_equal. lia.
  - assert (HT : ∀ id, (∅ : gmap Z idInfo) !! id = summary (a_log a) name id) by (intros id; rewrite <- He, lookup_empty; unfold entry_of; by rewrite E).
    pose proof (size_drop_ms name (a_log a) ∅ HT) as Hsz. rewrite map_size_empty in Hsz.
    split; cbn [with_log a_log a_free a_loading a_ref a_stray]; try done.
    + intros n id. rewrite summary_drop_ms. destruct (decide (n = name)) as [->|Hne]; [|apply He]. unfold entry_of. by rewrite E.
    + rewrite Hc, Hsz. f_equal. lia.
Qed.

Lemma events_ms p incr ids : ∀ i, Forall (λ ev, ev_ms ev = p_Name p) (events_from p incr ids i).
Proof. induction ids; intros i; constructor; auto. Qed.

Lemma cleared_refines s a free stray sc : refines s a → sc = u64 stray →
  refines (mk_seq (s_tables s) ∅ (isLoading s) free (s_ref s) sc) (mk_a [] free (a_loading a) (a_ref a) stray).
Proof.
  intros [_ _ (_ & Hl & Hr) _] Hsc. by split.
Qed.

Lemma seq_exec_spec uo s a o : refines s a → op_ok o → ∃ s', exec uo s o = Ok s' ∧ refines s' (spec_step uo a o).
Proof.
  intros Hr Hok. destruct o as [p incr|mn id n|name| | | | | |f l]; cbn [exec spec_step].
  - unfold BatchUpdateCheckTime. destruct uo; [by exists s|]. pose proof (getMmsIdTime_spec s a (p_Name p) Hr) as H.
    destruct (getMmsIdTime s (p_Name p)) as [s1 loc]. destruct H as [H1 Hl]. unfold batchUpdateCheckTime.
    rewrite update_loop_apply by (intros ->; exact Hok). rs. eexists; split; [done|].
    eapply apply_all_spec; [done|exact Hl|apply events_ms].
  - eexists; split; [done|]. unfold AddRowCounts. pose proof (getMmsIdTime_spec s a mn Hr) as H.
    destruct (getMmsIdTime s mn) as [s1 loc]. destruct H as [H1 Hl]. rewrite (addRowCounts_apply _ mn). by apply apply_spec.
  - eexists; split; [done|]. by apply DelMmsIdTime_spec.
  - eexists; split; [done|]. unfold free, free_locked. destruct (rf_flags _ _ Hr) as (Hf & _ & Hrf).
    replace (a_ref a =? 0) with (s_ref s =? 0) by (by rewrite Hrf). rewrite <- Hf.
    destruct (isFree s); [done|]. cbn [orb]. destruct (s_ref s =? 0); [|done]. by apply cleared_refines.
  - eexists; split; [done|]. destruct Hr as [[] ? (? & ? & Hrf) ?]. split; try done. split_and!; try done. cbn. by rewrite Hrf.
  - eexists; split; [done|]. destruct Hr as [[] ? (? & ? & Hrf) ?]. split; try done. split_and!; try done. cbn. by rewrite Hrf.
  - eexists; split; [done|]. unfold SetToInLoading. destruct Hr as [[] ? (Hf & Hl & Hrf) ?]. cbn [fst]. rewrite Hf, Hl.
    destruct (a_free a) eqn:Ef, (a_loading a) eqn:El; cbn [andb negb orb]; (split; [by split|done|split_and!; done|done]).
  - eexists; split; [done|]. unfold ResetMmsIdTime. destruct (rf_flags _ _ Hr) as (Hf & _). rewrite Hf. apply cleared_refines; [done|].
    rewrite Z.add_comm. apply (rf_count _ _ Hr).
  - eexists; split; [done|]. destruct Hr as [[] ? (? & ? & ?) ?]. split; try done.
Qed.

Lemma run_seq_spec uo os : ∀ s a, refines s a → Forall op_ok os →
  ∃ s', run_seq uo s os = Ok s' ∧ refines s' (fold_left (spec_step uo) os a).
Proof.
  induction os as [|o os IH]; intros s a Hr Hok; [by exists s|]. apply Forall_cons in Hok as [H1 H2]. cbn [run_seq fold_left].
  destruct (seq_exec_spec uo s a o Hr H1) as (s1 & -> & Hr1). rs. by apply IH.
Qed.

Definition start_state : astate := mk_a [] false false 0 0.
Lemma new_refines : refines NewSequencer start_state.
Proof. split; try done. Qed.

Lemma Get_spec s a mn id : refines s a → Sequencer_Get s mn id =
  match summary (a_log a) mn id with Some i => (lastFlushTime i, info_rows i) | None => (MinInt64, 0) end.
Proof.
  intros Hr. rewrite <- (rf_entry _ _ Hr). unfold Sequencer_Get, entry_of, MmsIdTime_get. by destruct (mmsIdTime s !! mn).
Qed.

(** Only ResetMmsIdTime leaves entries in the counter that it drops. *)
Lemma no_stray uo os : ∀ a, OReset ∉ os → a_stray a = 0 → a_stray (fold_left (spec_step uo) os a) = 0.
Proof.
  induction os as [|o os IH]; intros a Ho Ha; [done|]. apply not_elem_of_cons in Ho as [H1 H2]. cbn [fold_left]. apply IH; [done|].
  destruct o; cbn [spec_step]; try done; by case_match.
Qed.

(** C11: After any sequence of operations from any goroutines, in the order in which they take the
    lock, the sequencer answers for every series the largest time and the sum of the rows
    reported since it was last freed or reset and the measurement was last dropped.  Updates
    that count rows come with a row number per id.  Without a reset the series counter is the
    number of these series; ResetMmsIdTime drops the series and leaves the counter, so after
    one the counter is the number of series plus those dropped by resets since the last free
    ([a_stray], and [reset_keeps_count] is a run). *)
Theorem sequencer_refines (unorderedOnly : bool) (os : list op) :
  Forall op_ok os →
  ∃ s, run_seq unorderedOnly NewSequencer os = Ok s ∧ let a := fold_left (spec_step unorderedOnly) os start_state in
    (∀ mn id, Sequencer_Get s mn id =
       match summary (a_log a) mn id with Some i => (lastFlushTime i, info_rows i) | None => (MinInt64, 0) end) ∧
    (OReset ∉ os → SeriesTotal s = u64 (Z.of_nat (size (series (a_log a))))) ∧
    SeriesTotal s = u64 (Z.of_nat (size (series (a_log a))) + a_stray a) ∧
    isFree s = a_free a ∧ isLoading s = a_loading a ∧ s_ref s = a_ref a.
Proof.
  intros Hok. destruct (run_seq_spec unorderedOnly os _ _ new_refines Hok) as (s & Hs & Hr). exists s. split; [done|]. cbv zeta.
  split; [intros mn id; by apply Get_spec|]. pose proof (rf_count _ _ Hr) as Hc. split; [|split; [done|apply (rf_flags _ _ Hr)]].
  intros Ho. by rewrite Hc, no_stray, Z.add_0_r.
Qed.

(** ** A flush and the others *)

(** What others may do while a flush of [name] holds a reference: only the holders give
    references back, only a reload resets and sets the state, the measurement is not dropped. *)
Definition allowed (name : string) (s : Sequencer) (o : op) : Prop :=
  op_ok o ∧
  match o with
  | OUnRef => 1 < s_ref s
  | OAddRef => s_ref s < 2 ^ 31 - 1
  | OReset | OSetStat _ _ => isLoading s = true
  | ODel n => n ≠ name
  | _ => True
  end.

Inductive meanwhile (unorderedOnly : bool) (name : string) : Sequencer → Sequencer → Prop :=
| meanwhile_nil s : meanwhile unorderedOnly name s s
| meanwhile_step s o s1 s2 :
    allowed name s o → exec unorderedOnly s o = Ok s1 → meanwhile unorderedOnly name s1 s2 → meanwhile unorderedOnly name s s2.

Lemma last_time_app l1 l2 : last_time l1 ≤ last_time (l1 ++ l2).
Proof.
  unfold last_time. rewrite omap_app, foldr_app. generalize (omap ev_time l2). intros ts. induction (omap ev_time l1) as [|t l IH]; cbn; [|lia].
  induction ts; cbn; lia.
Qed.

Definition time_in (log : list event) (name : string) (id : Z) : Z :=
  match summary log name id with Some i => lastFlushTime i | None => MinInt64 end.

Lemma time_in_eq log name id : time_in log name id = last_time (filter (about name id) log).
Proof. unfold time_in, summary. by destruct (filter (about name id) log). Qed.

Lemma time_in_app log evs name id : time_in log name id ≤ time_in (log ++ evs) name id.
Proof. rewrite !time_in_eq, filter_app. apply last_time_app. Qed.

Lemma GetMmsIdTime_flags s name a : GetMmsIdTime s name = Some a → isFree s = false ∧ isLoading s = false ∧ mmsIdTime s !! name = Some a.
Proof. unfold GetMmsIdTime. by destruct (isFree s), (isLoading s). Qed.

Lemma getMmsIdTime_keeps s n s1 loc : getMmsIdTime s n = (s1, loc) →
  isFree s1 = isFree s ∧ isLoading s1 = isLoading s ∧ s_ref s1 = s_ref s ∧ ∀ name a, mmsIdTime s !! name = Some a → mmsIdTime s1 !! name = Some a.
Proof.
  unfold getMmsIdTime. destruct (mmsIdTime s !! n) as [b|] eqn:E; intros [= <- <-]; [done|]. cbn. split_and!; try done.
  intros name a Ha. rewrite lookup_insert_ne; [done|]. congruence.
Qed.

(** While a reference is held no step of the others takes the table away. *)
Lemma step_keeps uo name a s o s' :
  GetMmsIdTime s name = Some a → 0 < s_ref s < 2 ^ 31 → allowed name s o → exec uo s o = Ok s' →
  GetMmsIdTime s' name = Some a ∧ 0 < s_ref s' < 2 ^ 31.
Proof.
  intros Hg Href [_ Hal] Hex. destruct (GetMmsIdTime_flags _ _ _ Hg) as (Hf & Hl & Hm).
  assert (Hres : ∀ s', isFree s' = false ∧ isLoading s' = false ∧ mmsIdTime s' !! name = Some a ∧ 0 < s_ref s' < 2 ^ 31 →
    GetMmsIdTime s' name = Some a ∧ 0 < s_ref s' < 2 ^ 31) by (intros x (F & L & M & R); unfold GetMmsIdTime; rewrite F, L; done).
  assert (Hw : ∀ z, 0 ≤ z < 2 ^ 31 → i32 z = z) by (intros z Hz; apply wrap_s_id; [lia|unfold in_s; lia]).
  destruct o as [p incr|mn id n|nm| | | | | |f l]; cbn [exec] in Hex.
  - unfold BatchUpdateCheckTime in Hex. destruct uo; [injection Hex as <-; done|].
    destruct (getMmsIdTime s (p_Name p)) as [s1 loc] eqn:E. destruct (getMmsIdTime_keeps _ _ _ _ E) as (F & L & R & M).
    destruct (batchUpdateCheckTime _ p incr); try discriminate Hex. injection Hex as <-. apply Hres. cbn. rewrite F, L, R. auto.
  - injection Hex as <-. unfold AddRowCounts. destruct (getMmsIdTime s mn) as [s1 loc] eqn:E.
    destruct (getMmsIdTime_keeps _ _ _ _ E) as (F & L & R & M). apply Hres. cbn. rewrite F, L, R. auto.
  - injection Hex as <-. apply Hres. unfold DelMmsIdTime. destruct (mmsIdTime s !! nm); [|done]. cbn. by rewrite lookup_delete_ne.
  - injection Hex as <-. unfold free, free_locked. rewrite Hf, (proj2 (Z.eqb_neq _ _)) by lia. done.
  - injection Hex as <-. apply Hres. cbn. rewrite Hw by lia. split_and!; done || lia.
  - injection Hex as <-. apply Hres. cbn. rewrite Hw by lia. split_and!; done || lia.
  - injection Hex as <-. unfold SetToInLoading. rewrite Hf. done.
  - rewrite Hl in Hal. discriminate Hal.
  - rewrite Hl in Hal. discriminate Hal.
Qed.

(** The last times only grow. *)
Lemma step_grows uo name A o s id : refines s A → isFree s = false → isLoading s = false → 0 < s_ref s → allowed name s o →
  time_in (a_log A) name id ≤ time_in (a_log (spec_step uo A o)) name id.
Proof.
  intros Hr Hf Hl Href [_ Hal]. destruct (rf_flags _ _ Hr) as (Ff & Fl & Fr). destruct o as [p incr|mn i n|nm| | | | | |f l]; cbn [spec_step with_log a_log]; try done.
  - destruct uo; [done|]. apply time_in_app.
  - apply time_in_app.
  - unfold time_in. rewrite summary_drop_ms, decide_False by congruence. done.
  - rewrite <- Ff, <- Fr, Hf, (proj2 (Z.eqb_neq _ _)) by lia. done.
  - rewrite Hl in Hal. discriminate Hal.
Qed.

Lemma meanwhile_spec uo name a s s' : meanwhile uo name s s' → ∀ A, refines s A → GetMmsIdTime s name = Some a → 0 < s_ref s < 2 ^ 31 →
  GetMmsIdTime s' name = Some a ∧ ∃ A', refines s' A' ∧ ∀ id, time_in (a_log A) name id ≤ time_in (a_log A') name id.
Proof.
  induction 1 as [s|s o s1 s2 Hal Hex _ IH]; intros A Hr Hg Href; [split; [done|]; by exists A|].
  destruct (seq_exec_spec uo s A o Hr) as (s1' & Hex' & Hr1); [apply Hal|]. rewrite Hex in Hex'. injection Hex' as <-.
  destruct (step_keeps uo name a s o s1 Hg Href Hal Hex) as [Hg1 Href1]. destruct (GetMmsIdTime_flags _ _ _ Hg) as (Hf & Hl & _).
  destruct (IH _ Hr1 Hg1 Href1) as (Hg2 & A' & Hr2 & Hle). split; [done|]. exists A'. split; [done|]. intros id.
  etrans; [|apply Hle]. by eapply step_grows; [|done|done|lia|].
Qed.

(** C10: A flush that took a reference and got the table of its measurement keeps the current
    table: whatever updates, frees, reloads and drops of other measurements run until it gives
    its reference back, the table it reads is the one the sequencer has, with the times
    reported meanwhile, and the last time of a series never decreases. Others give back only
    references they hold, below 2^31 in all, and only a goroutine that set the sequencer to
    loading resets it and sets its state. *)
Theorem flush_times_current (unorderedOnly : bool) (os : list op) (s s' : Sequencer) (name : string) (a : nat) :
  Forall op_ok os → run_seq unorderedOnly NewSequencer os = Ok s → 0 < s_ref s < 2 ^ 31 → GetMmsIdTime s name = Some a →
  meanwhile unorderedOnly name s s' →
  ∀ id, MmsIdTime_get (table_at s' a) id = Sequencer_Get s' name id ∧
        fst (MmsIdTime_get (table_at s a) id) ≤ fst (MmsIdTime_get (table_at s' a) id).
Proof.
  intros Hok Hs Href Hg Hm id. destruct (run_seq_spec unorderedOnly os _ _ new_refines Hok) as (s0 & Hs0 & Hr). rewrite Hs in Hs0. injection Hs0 as <-.
  destruct (meanwhile_spec _ _ _ _ _ Hm _ Hr Hg Href) as (Hg' & A' & Hr' & Hle).
  assert (Hget : ∀ x, GetMmsIdTime x name = Some a → MmsIdTime_get (table_at x a) id = Sequencer_Get x name id).
  { intros x Hx. destruct (GetMmsIdTime_flags _ _ _ Hx) as (_ & _ & Hmm). unfold Sequencer_Get. by rewrite Hmm. }
  split; [by apply Hget|]. rewrite !Hget by done. rewrite (Get_spec _ _ _ _ Hr), (Get_spec _ _ _ _ Hr').
  specialize (Hle id). unfold time_in in Hle. by destruct (summary _ name id), (summary _ name id).
Qed.

(** ** Loading the files again *)

Definition chunk_events (name : string) (l : list (EncodedChunk * Z)) : list event :=
  (λ c : EncodedChunk * Z, mk_ev name (sid (ec_meta (fst c))) (Some (tmax (ec_meta (fst c)))) (Some (snd c))) <$> l.

Lemma events_from_chunks p l : ∀ i tp rp,
  vis (p_Tms p) = tp ++ (tmax <$> metas l) → vis (p_Rows p) = rp ++ (snd <$> l) → length tp = i → length rp = i →
  events_from p true (sid <$> metas l) i = chunk_events (p_Name p) l.
Proof.
  induction l as [|[ec rows] l IH]; intros i tp rp Ht Hr Hti Hri; [done|]. cbn [metas fmap list_fmap fst snd] in Ht, Hr. cbn [metas fmap list_fmap events_from chunk_events fst snd].
  rewrite Ht, Hr, !lookup_app_r, Hti, Hri, Nat.sub_diag by lia. cbn [lookup list_lookup]. f_equal.
  apply (IH (S i) (tp ++ [tmax (ec_meta ec)]) (rp ++ [rows])); [by rewrite Ht, <- app_assoc|by rewrite Hr, <- app_assoc|rewrite length_app; cbn; lia..].
Qed.

Lemma pair_events_chunks p name l : pair_view p = pairs_of name l → pair_events p true = chunk_events name l.
Proof. intros [= <- Hi Ht Hr]. unfold pair_events. rewrite Hi. by apply (events_from_chunks p l 0 [] []). Qed.

Section Reload.
Context `{RT : GoRuntime} `{ZS : Zstd} `{!ZstdLaws ZS} `{BL : BloomLaws} `{SN : Snappy} `{LZ : Lz4}.
Variables (e : bool) (conf : Config).

(** The reader of [f] is that of an ordered file into which the chunks [l] were written. *)
Record written (f : loadable) (l : list (EncodedChunk * Z)) : Prop := {
  wt_order : ld_order f = true ∧ ld_inited f = false;
  wt_pair : pool_ok (ld_pair f);
  wt_chunks : chunks_ok e l ∧ Forall (in_s 64) (snd <$> l : list Z);
  wt_file : ∃ cacheMeta blockSize t tr0 pooled ctx b file b', start_trailer t ∧
    WriteAll e ChunkMetaCompressNone conf (new_builder (ld_name f) (indexWriter_Init cacheMeta blockSize) t) l = Ok b ∧
    FlushFile ChunkMetaCompressNone pooled true ctx b = Ok (file, b') ∧ Z.of_nat (length file) < 2 ^ 32 ∧
    NewTSSPFileReader tr0 file = Ok (ld_reader f)
}.

Lemma reset_pool p name : pool_ok p → pool_ok (IdTimePairs_Reset p name).
Proof using. intros [Pr Pt Pi Pw Pm]. rewrite !vcap_vback in *. split; cbn [IdTimePairs_Reset p_Ids p_Rows p_Tms vclear]; rewrite ?vcap_vback; done. Qed.

Lemma load_written pooled pooledTime uo s f l : written f l → length (IntCoder.values (GetIntCoder pooled)) = 240%nat →
  ∃ p, loadFromTSSPFile pooled pooledTime uo s f = BatchUpdateCheckTime uo s p true ∧ pair_view p = pairs_of (ld_name f) l.
Proof using ZstdLaws0 BL.
  intros [[Ho Hi] Hp [Hl Hrows] (cm & bsz & t & tr0 & pl & ctx & b & file & b' & Ht & Hw & Hfl & Hsz & Hr)] Hc. unfold loadFromTSSPFile.
  destruct (file_ids_spec iw_rep eq e ChunkMetaCompressNone conf (ld_name f) (indexWriter_Init cm bsz) t tr0 l pl pooled pooledTime ctx 0 (IdTimePairs_Reset (ld_pair f) (ld_name f)))
    as (b1 & file1 & b1' & E1 & E2 & _ & Hrd); [apply indexWriter_Init_rep|done|done|done|by apply reset_pool|done|].
  rewrite Hw in E1. injection E1 as <-. rewrite Hfl in E2. injection E2 as <- <-. destruct (Hrd Hsz) as (r1 & r2 & p & Hr1 & Hld & _ & Hv).
  rewrite Hr in Hr1. injection Hr1 as <-. rewrite Ho, Hi, Hld. rs. by exists p.
Qed.

Definition files_log (fs : list loadable) (ls : list (list (EncodedChunk * Z))) : list event :=
  concat (zip_with (λ f l, chunk_events (ld_name f) l) fs ls).

Lemma loadFiles_spec pooled pooledTime fs ls : Forall2 written fs ls → length (IntCoder.values (GetIntCoder pooled)) = 240%nat → ∀ s A, refines s A →
  ∃ s', loadFiles pooled pooledTime false s fs = Ok (s', true) ∧ refines s' (with_log A (a_log A ++ files_log fs ls)).
Proof using ZstdLaws0 BL.
  intros Hw Hc. induction Hw as [|f l fs ls Hf _ IH]; intros s A Hr; cbn [loadFiles].
  { exists s. split; [done|]. unfold files_log. cbn. rewrite app_nil_r. by destruct A. }
  destruct (load_written pooled pooledTime false s f l Hf Hc) as (p & -> & Hv).
  destruct (seq_exec_spec false s A (OUpdate p true) Hr) as (s1 & Hs1 & Hr1).
  { injection Hv as _ Hi _ Hrw. cbn. rewrite Hi, Hrw, !length_fmap. unfold metas. by rewrite length_fmap. }
  cbn [exec spec_step] in Hs1, Hr1. rewrite Hs1. rewrite (pair_events_chunks _ _ _ Hv) in Hr1.
  destruct (IH s1 _ Hr1) as (s2 & -> & Hr2). exists s2. split; [done|]. cbn [with_log a_log a_free a_loading a_ref a_stray] in Hr2.
  unfold files_log in *. cbn [zip_with concat]. by rewrite app_assoc.
Qed.

Lemma time_in_event log ev t : ev ∈ log → ev_time ev = Some t → t ≤ time_in log (ev_ms ev) (ev_id ev).
Proof using.
  intros Hin Ht. rewrite time_in_eq. assert (Hf : ev ∈ filter (about (ev_ms ev) (ev_id ev)) log) by (apply list_elem_of_filter; by split).
  unfold last_time. assert (Hm : t ∈ omap ev_time (filter (about (ev_ms ev) (ev_id ev)) log)) by (apply list_elem_of_omap; by exists ev).
  by apply foldr_max_in.
Qed.

(** C9: When a freed sequencer is loaded again from the ordered files of its shard, in whatever order
    the files are done and whatever objects the pool provides, it is in use again and knows for
    every series the largest time and the number of rows of the chunks in the files together
    with what was reported after it was freed; so a flush sends no row to an ordered file that
    is not later than all rows of its series in these files. *)
Theorem reload_restores (pooled : option Integer) (pooledTime : option Time) (os : list op) (s : Sequencer) (fs : list loadable) (ls : list (list (EncodedChunk * Z))) :
  Forall op_ok os → run_seq false NewSequencer os = Ok s → isFree s = true → isLoading s = false →
  Forall2 written fs ls → length (IntCoder.values (GetIntCoder pooled)) = 240%nat →
  ∃ s', ReloadSequencer pooled pooledTime false s fs = Ok s' ∧ isFree s' = false ∧ isLoading s' = false ∧
    (∀ mn id, Sequencer_Get s' mn id =
       match summary (a_log (fold_left (spec_step false) os start_state) ++ files_log fs ls) mn id with
       | Some i => (lastFlushTime i, info_rows i)
       | None => (MinInt64, 0)
       end) ∧
    (∀ f l ec rows, (f, l) ∈ zip fs ls → (ec, rows) ∈ l → tmax (ec_meta ec) ≤ fst (Sequencer_Get s' (ld_name f) (sid (ec_meta ec)))).
Proof using ZstdLaws0 BL.
  intros Hok Hs Hfree Hload Hw Hc. destruct (run_seq_spec false os _ _ new_refines Hok) as (s0 & Hs0 & Hr). rewrite Hs in Hs0. injection Hs0 as <-.
  set (A := fold_left (spec_step false) os start_state) in *. set (log := a_log A ++ files_log fs ls).
  assert (Hre : ∃ s', ReloadSequencer pooled pooledTime false s fs = Ok s' ∧ ∃ A', refines s' A' ∧ a_log A' = log ∧ a_free A' = false ∧ a_loading A' = false).
  { unfold ReloadSequencer. destruct (seq_exec_spec false s A OSetToInLoading Hr) as (s1 & [= H1] & Hr1); [done|].
    unfold SetToInLoading in *. rewrite Hfree, Hload in *. cbn [andb negb fst] in H1. cbn [andb negb]. rewrite H1. unfold reloadSequencer, loadIdTimes.
    destruct (existsb ld_order fs) eqn:Eo; cbn [negb].
    - destruct (seq_exec_spec false s1 _ OAddRef Hr1) as (s2 & [= <-] & Hr2); [done|].
      destruct (loadFiles_spec pooled pooledTime fs ls Hw Hc _ _ Hr2) as (s3 & -> & Hr3). rs.
      destruct (seq_exec_spec false s3 _ OUnRef Hr3) as (s4 & [= <-] & Hr4); [done|].
      destruct (seq_exec_spec false _ _ (OSetStat false false) Hr4) as (s5 & [= <-] & Hr5); [done|]. eexists; split; [done|]. eexists; split; [exact Hr5|done].
    - assert (files_log fs ls = []) as Hnil.
      { destruct Hw as [|f l fs ls Hf _]; [done|]. cbn [existsb] in Eo. by rewrite (proj1 (wt_order _ _ Hf)) in Eo. }
      rs. destruct (seq_exec_spec false s1 _ (OSetStat false false) Hr1) as (s5 & [= <-] & Hr5); [done|]. eexists; split; [done|]. eexists; split; [exact Hr5|].
      unfold log. by rewrite Hnil, app_nil_r. }
  destruct Hre as (s' & Hs' & A' & Hr' & Hlog & Hf' & Hl'). destruct (rf_flags _ _ Hr') as (Ff & Fl & _).
  exists s'. split; [done|]. rewrite Ff, Fl. split; [done|]. split; [done|].
  assert (Hget : ∀ mn id, Sequencer_Get s' mn id = match summary log mn id with Some i => (lastFlushTime i, info_rows i) | None => (MinInt64, 0) end)
    by (intros mn id; rewrite (Get_spec _ _ _ _ Hr'), Hlog; done).
  split; [done|]. intros f l ec rows Hfl Hec. rewrite Hget.
  assert (Hin : mk_ev (ld_name f) (sid (ec_meta ec)) (Some (tmax (ec_meta ec))) (Some rows) ∈ log).
  { unfold log, files_log. apply elem_of_app. right. apply list_elem_of_In, in_concat. exists (chunk_events (ld_name f) l). rewrite <- !list_elem_of_In. split.
    - apply elem_of_lookup_zip_with. apply list_elem_of_lookup_1 in Hfl as [i Hi]. apply lookup_zip_with_Some in Hi as (x & y & [= -> ->] & H1 & H2). by exists i, x, y.
    - unfold chunk_events. apply list_elem_of_fmap. by exists (ec, rows). }
  pose proof (time_in_event log _ _ Hin eq_refl) as Hle. cbn [ev_ms ev_id] in Hle. unfold time_in in Hle. by destruct (summary log (ld_name f) (sid (ec_meta ec))).
Qed.
End Reload.

(** ** Runs *)

Definition of_res {A} (d : A) (r : res A) : A := match r with Ok a => a | _ => d end.
Definition vs_of (l : list Z) : vslice Z := mk_vs l [].
Definition seq_pair (name : string) (ids tms rws : list Z) : IdTimePairs := mk_pair name (vs_of ids) (vs_of tms) (vs_of rws).

Definition seq_ops : list op :=
  [OUpdate (seq_pair "cpu" [4; 9] [100; 50] [2; 3]) true; OAddRows "mem" 1 7; OUpdate (seq_pair "cpu" [9] [80] []) false; OAddRef].
Definition seq_state : Sequencer := of_res NewSequencer (run_seq false NewSequencer seq_ops).

Lemma seq_ops_ok : Forall op_ok seq_ops.
Proof. repeat constructor. Qed.

Lemma sequencer_refines_witness :
  Forall op_ok seq_ops ∧
  ∃ s, run_seq false NewSequencer seq_ops = Ok s ∧ let a := fold_left (spec_step false) seq_ops start_state in
    (∀ mn id, Sequencer_Get s mn id =
       match summary (a_log a) mn id with Some i => (lastFlushTime i, info_rows i) | None => (MinInt64, 0) end) ∧
    (OReset ∉ seq_ops → SeriesTotal s = u64 (Z.of_nat (size (series (a_log a))))) ∧
    SeriesTotal s = u64 (Z.of_nat (size (series (a_log a))) + a_stray a) ∧
    isFree s = a_free a ∧ isLoading s = a_loading a ∧ s_ref s = a_ref a.
Proof. split; [exact seq_ops_ok|]. exact (sequencer_refines false seq_ops seq_ops_ok). Defined.

Example seq_answers : Sequencer_Get seq_state "cpu" 9 = (80, 3) ∧ Sequencer_Get seq_state "mem" 1 = (MinInt64, 7) ∧ SeriesTotal seq_state = 3.
Proof. vm_compute. done. Qed.

(** Another flush reports a later time; a free does not succeed. *)
Definition seq_update : op := OUpdate (seq_pair "cpu" [9] [300] []) false.
Definition seq_later : Sequencer := of_res NewSequencer (run_seq false seq_state [seq_update; OFree]).

Lemma flush_times_current_witness :
  Forall op_ok seq_ops ∧ run_seq false NewSequencer seq_ops = Ok seq_state ∧ 0 < s_ref seq_state < 2 ^ 31 ∧ GetMmsIdTime seq_state "cpu" = Some 0%nat ∧
  meanwhile false "cpu" seq_state seq_later ∧
  MmsIdTime_get (table_at seq_later 0) 9 = Sequencer_Get seq_later "cpu" 9 ∧
  fst (MmsIdTime_get (table_at seq_state 0) 9) ≤ fst (MmsIdTime_get (table_at seq_later 0) 9).
Proof.
  assert (H1 : run_seq false NewSequencer seq_ops = Ok seq_state) by (vm_compute; reflexivity).
  assert (H2 : 0 < s_ref seq_state < 2 ^ 31) by (vm_compute; done).
  assert (H3 : GetMmsIdTime seq_state "cpu" = Some 0%nat) by (vm_compute; reflexivity).
  assert (H4 : meanwhile false "cpu" seq_state seq_later).
  { eapply (meanwhile_step _ _ _ seq_update (of_res NewSequencer (exec false seq_state seq_update))); [done|vm_compute; reflexivity|].
    eapply (meanwhile_step _ _ _ OFree seq_later); [done|vm_compute; reflexivity|]. constructor. }
  split; [exact seq_ops_ok|]. split; [exact H1|]. split; [exact H2|]. split; [exact H3|]. split; [exact H4|].
  exact (flush_times_current false seq_ops seq_state seq_later "cpu" 0 seq_ops_ok H1 H2 H3 H4 9).
Defined.

(** A file and its reader. *)
Definition ids_builder : MsBuilder indexWriter :=
  of_res (new_builder "cpu" (indexWriter_Init false 64) run_trailer)
    (WriteAll true ChunkMetaCompressNone run_conf (new_builder "cpu" (indexWriter_Init false 64) run_trailer) run_chunks).
Definition ids_file : list Z * MsBuilder indexWriter :=
  of_res ([], ids_builder) (@FlushFile _ _ yes_bloom _ _ ChunkMetaCompressNone None true NewCoderContext ids_builder).
Definition ids_reader : tsspFileReader :=
  of_res (mk_reader [] 0 0 run_trailer [] [] 0) (NewTSSPFileReader run_trailer (fst ids_file)).
Definition ids_load : loadable := mk_load "cpu" true ids_reader false (seq_pair "mem" [7] [900] [5]).

Lemma ids_written : @written _ _ yes_bloom true run_conf ids_load run_chunks.
Proof.
  split; [done| |split; [exact (run_chunks_ok true)|by_compute]|].
  - split; done || by_compute.
  - exists false, 64%nat, run_trailer, run_trailer, None, NewCoderContext, ids_builder, (fst ids_file), (snd ids_file).
    split; [exact run_trailer_ok|]. split; [vm_compute; reflexivity|]. split; [vm_compute; reflexivity|]. split; [vm_compute; reflexivity|vm_compute; reflexivity].
Qed.

Definition freed_ops : list op := [OUpdate (seq_pair "cpu" [4] [100] [2]) true; OFree; OUpdate (seq_pair "cpu" [9] [310] [1]) false].
Definition freed_state : Sequencer := of_res NewSequencer (run_seq false NewSequencer freed_ops).

Lemma reload_restores_witness :
  Forall2 (@written _ _ yes_bloom true run_conf) [ids_load] [run_chunks] ∧
  ∃ s', @ReloadSequencer _ _ yes_bloom None None false freed_state [ids_load] = Ok s' ∧ isFree s' = false ∧ isLoading s' = false ∧
    (∀ mn id, Sequencer_Get s' mn id =
       match summary (a_log (fold_left (spec_step false) freed_ops start_state) ++ files_log [ids_load] [run_chunks]) mn id with
       | Some i => (lastFlushTime i, info_rows i)
       | None => (MinInt64, 0)
       end) ∧
    (∀ f l ec rows, (f, l) ∈ zip [ids_load] [run_chunks] → (ec, rows) ∈ l → tmax (ec_meta ec) ≤ fst (Sequencer_Get s' (ld_name f) (sid (ec_meta ec)))).
Proof.
  assert (Hw : Forall2 (@written _ _ yes_bloom true run_conf) [ids_load] [run_chunks]) by (constructor; [exact ids_written|constructor]).
  split; [exact Hw|]. apply (reload_restores (BL := yes_bloom_laws) true run_conf None None freed_ops freed_state [ids_load] [run_chunks]);
    [repeat constructor|vm_compute; reflexivity..|exact Hw|vm_compute; reflexivity].
Defined.

Example reload_answers : ∃ s', @ReloadSequencer _ _ yes_bloom None None false freed_state [ids_load] = Ok s' ∧
  Sequencer_Get s' "cpu" 4 = (200, 2) ∧ Sequencer_Get s' "cpu" 9 = (310, 3) ∧ SeriesTotal s' = 3.
Proof. eexists. vm_compute. done. Qed.

(** Times that are not stored are not cleared either: an unordered file is loaded into an object
    that held the times of another file, and these become the last times of its series. *)
Definition unordered_bytes : list Z :=
  of_res [] (let! (o, _) := IdTimePairs_Marshal None (seq_pair "cpu" [4] [10] [1]) false nil_slice NewCoderContext in Ok (sdata o)).
Definition stale_load (p0 : IdTimePairs) : res (Z * Z) :=
  let! (p, _) := IdTimePairs_Unmarshal None None (IdTimePairs_Reset p0 "cpu") false unordered_bytes in
  let! s := BatchUpdateCheckTime false NewSequencer p true in
  Ok (Sequencer_Get s "cpu" 4).
Example unordered_stale_times : stale_load (seq_pair "mem" [7] [900] [5]) = Ok (900, 1) ∧ stale_load IdTimePairs0 = Ok (0, 1).
Proof. vm_compute. done. Qed.

(** A failed reload drops the entries and keeps their count. *)
Example reset_keeps_count :
  ∃ s, run_seq false NewSequencer [OUpdate (seq_pair "cpu" [4; 9] [100; 50] []) false; OReset] = Ok s ∧
    Sequencer_Get s "cpu" 4 = (MinInt64, 0) ∧ SeriesTotal s = 2.
Proof. eexists. vm_compute. done. Qed.

(** free tests isFree before it takes the lock: a second free that was delayed there runs between
    the loading and SetStat, and the empty sequencer is put in use. *)
Example delayed_free :
  let s := of_res NewSequencer (run_seq false NewSequencer [OUpdate (seq_pair "cpu" [4] [100] [2]) true; OFree; OSetToInLoading;
             OAddRef; OUpdate (seq_pair "cpu" [4] [100] [2]) true; OUnRef]) in
  let s := SetStat (fst (free_locked s)) false false in
  isFree s = false ∧ Sequencer_Get s "cpu" 4 = (MinInt64, 0).
Proof. vm_compute. done. Qed.

(** The length of a block is tested before the four bytes of its size are taken off. *)
Example truncated_pairs_panic : decodeIntegerBlock None (put_u32 5 ++ [1]) vnil 0 NewCoderContext = Panic.
Proof. vm_compute. reflexivity. Qed.
