(* ===== verification/U64Set.v ===== *)
(** * lib/util/lifted/vm/uint64set: sets of series ids

    A set is a list of [bucket32]s, one per value of the high 32 bits; such a bucket keeps the
    sorted list of the next 16 bits that occur with one [bucket16] each, which stores its low
    16 bits in a small unsorted pool and, once that is full, in a bitmap of 2^16 bits.

    Buckets are values here: within a set no two entries share a [bucket16], Clone and Union
    copy them, and UnionMayOwn forbids the use of its argument afterwards.  A position in the
    bitmap comes from 16 bits, so indexing it cannot fail. *)

From S2P Require Import Prelude GoSort Bitmap.

Record bucket16 := mk_b16 { bits : option (list Z); smallPool : list Z; smallPoolLen : nat }.
Record bucket32 := mk_b32 { hi : Z; hint : nat; b16his : list Z; buckets16 : list bucket16 }.
Record Set_ := mk_Set { itemsCount : Z; buckets : list bucket32 }.

Definition wordsPerBucket : nat := 1024.
Definition smallPoolSize : nat := 56.

Definition empty16 : bucket16 := mk_b16 None (replicate smallPoolSize 0) 0.
Definition empty32 : bucket32 := mk_b32 0 0 [] [].
Definition emptySet : Set_ := mk_Set 0 [].

(** ** bucket16 *)

Definition getWordNumBitMask (x : Z) : nat * Z := (Z.to_nat (x / 64), 1 ≪ Z.land x 63).

Definition isZero (b : bucket16) : bool := match bits b with None => (smallPoolLen b =? 0)%nat | Some _ => false end.

Definition getLen16 (b : bucket16) : Z :=
  match bits b with
  | None => Z.of_nat (smallPoolLen b)
  | Some ws => foldl (λ n x, if 0 <? x then n + OnesCount64 x else n) 0 ws
  end.

Definition pool (b : bucket16) : list Z := take (smallPoolLen b) (smallPool b).
Definition hasInSmallPool (b : bucket16) (x : Z) : bool := existsb (λ v, v =? x) (pool b).

(** One bit of the bitmap: whether it was clear, and the bitmap with it set. *)
Definition set_bit (ws : list Z) (x : Z) : list Z * bool :=
  let (n, mask) := getWordNumBitMask x in
  let ok := Z.land (ws !!! n) mask =? 0 in
  (if ok then <[n := Z.lor (ws !!! n) mask]> ws else ws, ok).

(** When the pool is full its values move to a new bitmap. *)
Definition addToSmallPool (b : bucket16) (x : Z) : bucket16 * bool :=
  if hasInSmallPool b x then (b, false)
  else if (smallPoolLen b <? smallPoolSize)%nat
  then (mk_b16 None (<[smallPoolLen b := x]> (smallPool b)) (S (smallPoolLen b)), true)
  else
    let ws := foldl (λ ws v, fst (set_bit ws v)) (replicate wordsPerBucket 0) (smallPool b) in
    (mk_b16 (Some (fst (set_bit ws x))) (smallPool b) 0, true).

Definition add16 (b : bucket16) (x : Z) : bucket16 * bool :=
  match bits b with
  | None => addToSmallPool b x
  | Some ws => let (ws, ok) := set_bit ws x in (mk_b16 (Some ws) (smallPool b) (smallPoolLen b), ok)
  end.

(** Both paths of addMulti do what add does for each value. *)
Definition addMulti16 (b : bucket16) (a : list Z) : bucket16 * Z :=
  foldl (λ '(b, count) x, let (b, ok) := add16 b (u16 x) in (b, if ok then count + 1 else count)) (b, 0) a.

Definition has16 (b : bucket16) (x : Z) : bool :=
  match bits b with
  | None => hasInSmallPool b x
  | Some ws => let (n, mask) := getWordNumBitMask x in negb (Z.land (ws !!! n) mask =? 0)
  end.

(** The values after the deleted one move down. *)
Definition delFromSmallPool (b : bucket16) (x : Z) : bucket16 * bool :=
  match list_find (λ v, v = x) (pool b) with
  | None => (b, false)
  | Some (i, _) =>
      (mk_b16 (bits b) (take i (smallPool b) ++ drop (S i) (smallPool b) ++ default [] ((λ v, [v]) <$> last (smallPool b)))
         (smallPoolLen b - 1), true)
  end.

Definition del16 (b : bucket16) (x : Z) : bucket16 * bool :=
  match bits b with
  | None => delFromSmallPool b x
  | Some ws =>
      let (n, mask) := getWordNumBitMask x in
      (mk_b16 (Some (<[n := Z.ldiff (ws !!! n) mask]> ws)) (smallPool b) (smallPoolLen b), negb (Z.land (ws !!! n) mask =? 0))
  end.

(** math/bits *)
Fixpoint trailing_zeros (p : positive) : Z := match p with xO p => 1 + trailing_zeros p | _ => 0 end.
Definition TrailingZeros64 (w : Z) : Z := match w with Zpos p => trailing_zeros p | _ => 64 end.

(** The ones of a word, lowest first; every round clears one. *)
Fixpoint word_loop (fuel : nat) (x64 word : Z) : list Z :=
  match fuel with
  | O => []
  | S fuel =>
      let tzn := TrailingZeros64 word in
      if 64 <=? tzn then []
      else Z.lor x64 tzn :: word_loop fuel x64 (Z.ldiff word (1 ≪ tzn))
  end.

Fixpoint words_loop (hi64 : Z) (wordNum : Z) (ws : list Z) : list Z :=
  match ws with
  | [] => []
  | word :: ws => (if word =? 0 then [] else word_loop 65 (Z.lor hi64 (wordNum * 64)) word) ++ words_loop hi64 (wordNum + 1) ws
  end.

Section WithSort.
Context {S : GoSort}.

Definition appendTo16 (b : bucket16) (dst : list Z) (hi hi16 : Z) : list Z :=
  let hi64 := Z.lor (hi ≪ 32) (hi16 ≪ 16) in
  match bits b with
  | None => dst ++ (Z.lor hi64 <$> (if (1 <? length (pool b))%nat then sort_if Z.ltb (pool b) else pool b))
  | Some ws => dst ++ words_loop hi64 0 ws
  end.

Definition union16 (b a : bucket16) : bucket16 :=
  match bits a, bits b with
  | Some aw, Some bw => mk_b16 (Some (zip_with Z.lor bw aw)) (smallPool b) (smallPoolLen b)
  | _, _ => foldl (λ b x, fst (add16 b (u16 x))) b (appendTo16 a [] 0 0)
  end.

Definition intersect16 (b a : bucket16) : bucket16 :=
  match bits a, bits b with
  | Some aw, Some bw => mk_b16 (Some (zip_with Z.land bw aw)) (smallPool b) (smallPoolLen b)
  | _, _ => foldl (λ b x, if has16 a (u16 x) then b else fst (del16 b (u16 x))) b (appendTo16 b [] 0 0)
  end.

(** ** Walking two sorted lists of buckets

    The loops of the two unions and of the two intersections, on what is left of the lists.
    Unions return the old entries and the entries to append. *)
Section Walk.
Context {A B : Type} (keyA : A → Z) (keyB : B → Z).

Fixpoint union_walk (both : B → A → B) (copy : A → B) (bs : list B) {struct bs} : list A → list B * list B :=
  fix go (l : list A) : list B * list B :=
    match bs, l with
    | _, [] => (bs, [])
    | [], a :: l' => let (old, new) := go l' in (old, copy a :: new)
    | b :: bs', a :: l' =>
        if keyB b <? keyA a then let (old, new) := union_walk both copy bs' (a :: l') in (b :: old, new)
        else if keyA a <? keyB b then let (old, new) := go l' in (old, copy a :: new)
        else let (old, new) := union_walk both copy bs' l' in (both b a :: old, new)
    end.

Fixpoint inter_walk (both : B → A → B) (zero : B → B) (bs : list B) {struct bs} : list A → list B :=
  fix go (l : list A) : list B :=
    match bs, l with
    | [], _ => []
    | _, [] => zero <$> bs
    | b :: bs', a :: l' =>
        if keyB b <? keyA a then zero b :: inter_walk both zero bs' (a :: l')
        else if keyA a <? keyB b then go l'
        else both b a :: inter_walk both zero bs' l'
    end.
End Walk.

(** ** bucket32 *)

Fixpoint search16_loop (fuel : nat) (his : list Z) (x : Z) (i j : nat) : nat :=
  match fuel with
  | O => i
  | Datatypes.S fuel =>
      if (i <? j)%nat then
        let h := ((i + j) / 2)%nat in
        if match his !! h with Some v => v <? x | None => false end then search16_loop fuel his x (Datatypes.S h) j
        else search16_loop fuel his x i h
      else i
  end.
Definition binarySearch16 (his : list Z) (x : Z) : nat :=
  let n := length his in
  if match last his with Some v => v <? x | None => false end then n else search16_loop n his x 0 n.

Definition getLen32 (b : bucket32) : Z := foldl (λ n b16, n + getLen16 b16) 0 (buckets16 b).

(** The entry for [hi] at the position the search found; [None] when it is absent. *)
Definition at16 (b : bucket32) (n : nat) (h : Z) : option bucket16 :=
  if decide (b16his b !! n = Some h) then buckets16 b !! n else None.
Definition set16 (b : bucket32) (n : nat) (b16 : bucket16) (hint : nat) : bucket32 :=
  mk_b32 (hi b) hint (b16his b) (<[n := b16]> (buckets16 b)).

(** A new entry at [pos], everything behind it moves up. *)
Definition addBucketAtPos (b : bucket32) (h : Z) (pos : nat) (b16 : bucket16) : bucket32 :=
  if (length (b16his b) <=? pos)%nat then mk_b32 (hi b) (hint b) (b16his b ++ [h]) (buckets16 b ++ [b16])
  else mk_b32 (hi b) (hint b) (take pos (b16his b) ++ h :: drop pos (b16his b)) (take pos (buckets16 b) ++ b16 :: drop pos (buckets16 b)).

(** [his[n]] is tested before [bs[n]]: a bucket that is missing counts as not changed. *)
Definition addSlow (b : bucket32) (h lo : Z) : bucket32 * bool :=
  let n := binarySearch16 (b16his b) h in
  if decide (b16his b !! n = Some h) then
    match buckets16 b !! n with
    | Some b16 => let (b16, ok) := add16 b16 lo in (set16 b n b16 n, ok)
    | None => (mk_b32 (hi b) n (b16his b) (buckets16 b), false)
    end
  else (addBucketAtPos b h n (fst (add16 empty16 lo)), true).

Definition add32 (b : bucket32) (x : Z) : bucket32 * bool :=
  let h := u16 (x ≫ 16) in
  let lo := u16 x in
  if decide (b16his b !! hint b = Some h) then
    match buckets16 b !! hint b with
    | Some b16 => let (b16, ok) := add16 b16 lo in (set16 b (hint b) b16 (hint b), ok)
    | None => (b, false)
    end
  else addSlow b h lo.

(** The values of a run of equal high bits go into one bucket. *)
Definition addRun32 (b : bucket32) (h : Z) (run : list Z) : bucket32 * Z :=
  let n := binarySearch16 (b16his b) h in
  if decide (b16his b !! n = Some h) then
    match buckets16 b !! n with
    | Some b16 => let (b16, c) := addMulti16 b16 run in (set16 b n b16 (hint b), c)
    | None => (b, 0)
    end
  else let (b16, c) := addMulti16 empty16 run in (addBucketAtPos b h n b16, c).

(** The loop of both addMulti functions: [key] of the run that is being collected. *)
Fixpoint run_loop {T} (key : Z → Z) (step : T → Z → list Z → T * Z) (st : T) (count : Z) (hiPrev : Z) (run a : list Z) : T * Z :=
  match a with
  | [] => let (st, c) := step st hiPrev run in (st, count + c)
  | x :: a =>
      if key x =? hiPrev then run_loop key step st count hiPrev (run ++ [x]) a
      else let (st, c) := step st hiPrev run in run_loop key step st (count + c) (key x) [x] a
  end.
Definition by_runs {T} (key : Z → Z) (step : T → Z → list Z → T * Z) (st : T) (a : list Z) : T * Z :=
  match a with [] => (st, 0) | x :: _ => run_loop key step st 0 (key x) [] a end.

Definition addMulti32 (b : bucket32) (a : list Z) : bucket32 * Z := by_runs (λ x, u16 (x ≫ 16)) addRun32 b a.

Definition has32 (b : bucket32) (x : Z) : bool :=
  let h := u16 (x ≫ 16) in
  match at16 b (binarySearch16 (b16his b) h) h with Some b16 => has16 b16 (u16 x) | None => false end.

Definition del_at (b : bucket32) (n : nat) (lo : Z) (hint : nat) : bucket32 * bool :=
  match buckets16 b !! n with
  | Some b16 => let (b16, ok) := del16 b16 lo in (set16 b n b16 hint, ok)
  | None => (mk_b32 (hi b) hint (b16his b) (buckets16 b), false)
  end.
Definition delSlow (b : bucket32) (h lo : Z) : bucket32 * bool :=
  let n := binarySearch16 (b16his b) h in
  if decide (b16his b !! n = Some h) then del_at b n lo n else (b, false).
Definition del32 (b : bucket32) (x : Z) : bucket32 * bool :=
  let h := u16 (x ≫ 16) in
  if decide (b16his b !! hint b = Some h) then del_at b (hint b) (u16 x) (hint b) else delSlow b h (u16 x).

Definition appendTo32 (b : bucket32) (dst : list Z) : list Z :=
  foldl (λ dst hb, appendTo16 (snd hb) dst (hi b) (fst hb)) dst (zip (b16his b) (buckets16 b)).

Definition entries (b : bucket32) : list (Z * bucket16) := zip (b16his b) (buckets16 b).
Definition of_entries (b : bucket32) (hint : nat) (es : list (Z * bucket16)) : bucket32 := mk_b32 (hi b) hint (fst <$> es) (snd <$> es).

Definition union32 (b a : bucket32) : bucket32 :=
  let (old, new) := union_walk fst fst (λ x y, (fst x, union16 (snd x) (snd y))) id (entries b) (entries a) in
  of_entries b (hint b) (sort_if (λ x y, fst x <? fst y) (old ++ new)).

Definition intersect32 (b a : bucket32) : bucket32 :=
  let es := inter_walk fst fst (λ x y, (fst x, intersect16 (snd x) (snd y))) (λ x, (fst x, empty16)) (entries b) (entries a) in
  of_entries b 0 (filter (λ x, isZero (snd x) = false) es).

(** ** Set *)

Definition fixItemsCount (bs : list bucket32) : Set_ := mk_Set (foldl (λ n b, n + getLen32 b) 0 bs) bs.
Definition Len (s : Set_) : Z := itemsCount s.
Definition sort_set (s : Set_) : Set_ := mk_Set (itemsCount s) (sort_if (λ a b, hi a <? hi b) (buckets s)).

(** The first bucket with these high bits is changed, or one is added at the end. *)
Fixpoint on_bucket {T} (h : Z) (f : bucket32 → bucket32 * T) (none : T) (add : bool) (bs : list bucket32) : list bucket32 * T :=
  match bs with
  | [] => if add then let (b, r) := f (mk_b32 h 0 [] []) in ([b], r) else ([], none)
  | b :: bs => if hi b =? h then let (b, r) := f b in (b :: bs, r)
               else let (bs, r) := on_bucket h f none add bs in (b :: bs, r)
  end.

Definition hi32 (x : Z) : Z := u32 (x ≫ 32).
Definition lo32 (x : Z) : Z := u32 x.

Definition Add (s : Set_) (x : Z) : Set_ :=
  let (bs, ok) := on_bucket (hi32 x) (λ b, add32 b (lo32 x)) false true (buckets s) in
  mk_Set (if ok then itemsCount s + 1 else itemsCount s) bs.

Definition AddMulti (s : Set_) (a : list Z) : Set_ :=
  let (s, c) := by_runs hi32 (λ s h run, let (bs, c) := on_bucket h (λ b, addMulti32 b run) 0 true (buckets s) in
                                        (mk_Set (itemsCount s) bs, c)) s a in
  mk_Set (itemsCount s + c) (buckets s).

Definition Has (s : Set_) (x : Z) : bool :=
  match list_find (λ b, hi b = hi32 x) (buckets s) with Some (_, b) => has32 b (lo32 x) | None => false end.

Definition Del (s : Set_) (x : Z) : Set_ :=
  let (bs, ok) := on_bucket (hi32 x) (λ b, del32 b (lo32 x)) false false (buckets s) in
  mk_Set (if ok then itemsCount s - 1 else itemsCount s) bs.

(** The items are appended in the order of the sorted buckets; the set stays sorted. *)
Definition AppendTo (s : Set_) (dst : list Z) : Set_ * list Z :=
  let s := sort_set s in (s, foldl (λ dst b, appendTo32 b dst) dst (buckets s)).

Definition Clone (s : Set_) : Set_ :=
  if itemsCount s =? 0 then emptySet else mk_Set (itemsCount s) ((λ b, mk_b32 (hi b) 0 (b16his b) (buckets16 b)) <$> buckets s).

Definition copy32 (b : bucket32) : bucket32 := mk_b32 (hi b) 0 (b16his b) (buckets16 b).

Definition Union (s a : Set_) : Set_ :=
  if Len a =? 0 then s
  else if Len s =? 0 then Clone a
  else
    let (old, new) := union_walk hi hi union32 copy32 (buckets (sort_set s)) (buckets (sort_set a)) in
    fixItemsCount (old ++ new).

Definition Intersect (s a : Set_) : Set_ :=
  if (Len s =? 0) || (Len a =? 0) then emptySet
  else fixItemsCount (inter_walk hi hi intersect32 (λ _, empty32) (buckets (sort_set s)) (buckets (sort_set a))).

(** ForEach hands out one part per bucket16; its callers here never stop it early or only
    when the answer is known. *)
Definition parts32 (b : bucket32) : list (list Z) := (λ hb, appendTo16 (snd hb) [] (hi b) (fst hb)) <$> entries b.
Definition ForEach (s : Set_) : list (list Z) := buckets s ≫= parts32.

Definition Subtract (s a : Set_) : Set_ := if (Len s =? 0) || (Len a =? 0) then s else foldl Del s (concat (ForEach a)).
Definition Equal (s a : Set_) : bool := if negb (Len s =? Len a) then false else forallb (Has s) (concat (ForEach a)).
End WithSort.
