(* ===== verification/U64Bucket.v ===== *)
(** * The 16-bit buckets of a uint64set

    A [bucket16] is a finite set of 16-bit numbers, [els16]: whether it is held in the pool or
    in the bitmap, membership, the number of items, the sorted listing, insertion, removal,
    union and intersection are those of that set. *)

From stdpp Require Import gmap sorting.
From S2P Require Import Prelude GoSort Bitmap U64Set.

(** ** The ones of a word, in order *)

Fixpoint ones (p : positive) : list Z :=
  match p with
  | xH => [0]
  | xO p => (λ j, 1 + j) <$> ones p
  | xI p => 0 :: ((λ j, 1 + j) <$> ones p)
  end.
Definition word_ones (w : Z) : list Z := match w with Zpos p => ones p | _ => [] end.

Lemma ones_nonneg p : Forall (λ j, 0 ≤ j) (ones p).
Proof.
  induction p as [p IH|p IH|]; cbn [ones]; repeat constructor; try lia; apply Forall_fmap;
    (eapply Forall_impl; [exact IH|]); cbn; lia.
Qed.

Lemma testbit_xI p j : 0 < j → Z.testbit (Zpos p~1) j = Z.testbit (Zpos p) (j - 1).
Proof. intros Hj. replace j with (Z.succ (j - 1)) at 1 by lia. rewrite (Pos2Z.inj_xI p), Z.testbit_odd_succ by lia. done. Qed.
Lemma testbit_xO p j : 0 < j → Z.testbit (Zpos p~0) j = Z.testbit (Zpos p) (j - 1).
Proof. intros Hj. replace j with (Z.succ (j - 1)) at 1 by lia. rewrite (Pos2Z.inj_xO p), Z.testbit_even_succ by lia. done. Qed.

Lemma elem_of_shift1 (l : list Z) j : j ∈ (λ i, 1 + i) <$> l ↔ j - 1 ∈ l.
Proof.
  rewrite list_elem_of_fmap. split; [intros (k & -> & Hk); by replace (1 + k - 1) with k by lia|]. intros Hj. exists (j - 1). split; [lia|done].
Qed.

Lemma elem_of_ones p j : j ∈ ones p ↔ 0 ≤ j ∧ Z.testbit (Zpos p) j = true.
Proof.
  revert j. induction p as [p IH|p IH|]; intros j; cbn [ones].
  - rewrite elem_of_cons, elem_of_shift1, IH. destruct (decide (j = 0)) as [->|Hj]; [split; [done|by left]|].
    destruct (decide (0 < j)); [rewrite testbit_xI by lia; intuition lia|intuition lia].
  - rewrite elem_of_shift1, IH. destruct (decide (j = 0)) as [->|Hj]; [split; [lia|by intros [_ ?]]|].
    destruct (decide (0 < j)); [rewrite testbit_xO by lia; intuition lia|intuition lia].
  - rewrite list_elem_of_singleton. destruct (decide (j = 0)) as [->|Hj]; [split; [done|done]|].
    split; [done|]. intros [Hp Ht]. exfalso. rewrite Z.bits_above_log2 in Ht; [done|lia|cbn; lia].
Qed.

Lemma elem_of_word_ones w j : 0 ≤ w → j ∈ word_ones w ↔ 0 ≤ j ∧ Z.testbit w j = true.
Proof.
  intros Hw. destruct w as [|p|p]; cbn [word_ones]; [|apply elem_of_ones|lia]. rewrite Z.testbit_0_l, elem_of_nil. intuition discriminate.
Qed.

Lemma sorted_shift (l : list Z) c : StronglySorted Z.lt l → StronglySorted Z.lt ((λ j, c + j) <$> l).
Proof.
  induction 1 as [|x l _ IH Hx]; cbn [fmap list_fmap]; constructor; [done|]. apply Forall_fmap. eapply Forall_impl; [exact Hx|]. cbn. lia.
Qed.

Lemma ones_sorted p : StronglySorted Z.lt (ones p).
Proof.
  induction p as [p IH|p IH|]; cbn [ones]; [|by apply sorted_shift|repeat constructor]. constructor; [by apply sorted_shift|].
  apply Forall_fmap. eapply Forall_impl; [apply ones_nonneg|]. cbn. lia.
Qed.
Lemma word_ones_sorted w : StronglySorted Z.lt (word_ones w).
Proof. destruct w; cbn [word_ones]; [constructor|apply ones_sorted|constructor]. Qed.

(** Clearing the lowest one leaves the others. *)
Lemma ldiff_double a b : Z.ldiff (2 * a) (2 * b) = 2 * Z.ldiff a b.
Proof.
  apply Z.bits_inj'. intros n Hn. rewrite Z.ldiff_spec. destruct (decide (n = 0)) as [->|Hn0]; [by rewrite !Z.testbit_even_0|].
  replace n with (Z.succ (n - 1)) by lia. rewrite !Z.testbit_even_succ, Z.ldiff_spec by lia. done.
Qed.

Lemma trailing_zeros_nonneg p : 0 ≤ trailing_zeros p.
Proof. induction p; cbn [trailing_zeros]; lia. Qed.

Lemma ones_step p :
  ones p = trailing_zeros p :: word_ones (Z.ldiff (Zpos p) (1 ≪ trailing_zeros p)) ∧ 0 ≤ Z.ldiff (Zpos p) (1 ≪ trailing_zeros p).
Proof.
  induction p as [p IH|p [IH Hn]|]; [|
    |done].
  - destruct p; done.
  - cbn [ones trailing_zeros]. pose proof (trailing_zeros_nonneg p). rewrite Z.shiftl_1_l in *.
    replace (2 ^ (1 + trailing_zeros p)) with (2 * 2 ^ trailing_zeros p) by (rewrite <- Z.pow_succ_r by lia; f_equal; lia).
    rewrite (Pos2Z.inj_xO p), ldiff_double. split; [|lia]. rewrite IH at 1. cbn [fmap list_fmap]. f_equal.
    destruct (Z.ldiff (Zpos p) (2 ^ trailing_zeros p)) as [|q|q]; [done|done|lia].
Qed.

Lemma sorted_NoDup (l : list Z) : StronglySorted Z.lt l → NoDup l.
Proof.
  induction 1 as [|x l _ IH Hx]; constructor; [|done]. rewrite Forall_forall in Hx. intros Hin. specialize (Hx _ Hin). lia.
Qed.

Lemma word_ones_in_u w j : in_u 64 w → j ∈ word_ones w → 0 ≤ j < 64.
Proof.
  intros Hw Hj. apply elem_of_word_ones in Hj as [Hj Ht]; [|unfold in_u in Hw; lia]. split; [done|].
  destruct (decide (j < 64)); [done|]. rewrite (in_u_testbit 64) in Ht; [done|lia|done|lia].
Qed.

Lemma length_filter_fmap {A} (f : A → bool) (l : list A) :
  length (filter (λ b : bool, b = true) (f <$> l)) = length (filter (λ x, f x = true) l).
Proof.
  induction l as [|x l IH]; [done|]. cbn [fmap list_fmap]. rewrite !filter_cons. repeat case_decide; cbn [length]; congruence.
Qed.

Lemma OnesCount64_ones w : in_u 64 w → OnesCount64 w = Z.of_nat (length (word_ones w)).
Proof.
  intros Hw. unfold OnesCount64, count_true, bits_le. f_equal.
  rewrite length_filter_fmap. rewrite <- (length_fmap Z.of_nat). apply Permutation_length, NoDup_Permutation.
  - apply (NoDup_fmap_2 _), NoDup_filter, NoDup_seq.
  - apply sorted_NoDup, word_ones_sorted.
  - intros j. rewrite list_elem_of_fmap. setoid_rewrite list_elem_of_filter. setoid_rewrite elem_of_seq. split.
    + intros (k & -> & Ht & _). apply elem_of_word_ones; [unfold in_u in Hw; lia|]. split; [lia|done].
    + intros Hj. pose proof (word_ones_in_u _ _ Hw Hj). apply elem_of_word_ones in Hj as [_ Ht]; [|unfold in_u in Hw; lia].
      exists (Z.to_nat j). rewrite Z2Nat.id by lia. split; [done|]. split; [done|lia].
Qed.

Lemma length_word_ones w : in_u 64 w → (length (word_ones w) ≤ 64)%nat.
Proof.
  intros Hw. pose proof (OnesCount64_ones w Hw) as He. unfold OnesCount64, count_true in He.
  pose proof (length_filter (λ b : bool, b = true) (bits_le 64 w)) as Hl. unfold bits_le in *. rewrite length_fmap, length_seq in Hl. lia.
Qed.

Lemma in_u_of_bits w x : 0 ≤ w → (∀ i, w ≤ i → Z.testbit x i = false) → in_u w x.
Proof.
  intros Hw Hb. enough (x = wrap_u w x) as -> by (by apply wrap_u_range). apply Z.bits_inj'. intros i Hi.
  rewrite wrap_u_testbit by done. destruct (Z.ltb_spec i w); [done|]. by apply Hb.
Qed.
Lemma in_u_ldiff w x y : 0 ≤ w → in_u w x → in_u w (Z.ldiff x y).
Proof. intros Hw Hx. apply in_u_of_bits; [done|]. intros i Hi. by rewrite Z.ldiff_spec, (in_u_testbit w x). Qed.
Lemma word_loop_ones fuel x64 w :
  in_u 64 w → (length (word_ones w) < fuel)%nat → word_loop fuel x64 w = Z.lor x64 <$> word_ones w.
Proof.
  revert w. induction fuel as [|fuel IH]; intros w Hw Hf; [lia|]. destruct w as [|p|p]; [done| |by destruct Hw].
  cbn [word_loop TrailingZeros64 word_ones] in *. destruct (ones_step p) as [He Hn].
  assert (Ht : trailing_zeros p ∈ word_ones (Zpos p)) by (cbn [word_ones]; rewrite He; left).
  apply word_ones_in_u in Ht; [|done]. bcase. rewrite He in Hf |- *. cbn [fmap list_fmap length] in *. f_equal. apply IH; [|lia].
  apply in_u_ldiff; [lia|done].
Qed.

(** ** The bitmap *)

Definition bit (ws : list Z) (x : Z) : bool := Z.testbit (ws !!! Z.to_nat (x / 64)) (x mod 64).
Definition wf_words (ws : list Z) : Prop := length ws = wordsPerBucket ∧ Forall (in_u 64) ws.

(** The positions of the ones, from word number [k] on. *)
Fixpoint word_items (k : Z) (ws : list Z) : list Z :=
  match ws with
  | [] => []
  | w :: ws => ((λ j, k * 64 + j) <$> word_ones w) ++ word_items (k + 1) ws
  end.

Lemma lor_word h k j : in_u 6 j → Z.lor (Z.lor h (k * 64)) j = Z.lor h (k * 64 + j).
Proof.
  intros Hj. rewrite <- Z.lor_assoc. f_equal. change 64 with (2 ^ 6). rewrite <- (lor_shift_add k j 6) by (done || lia).
  by rewrite Z.shiftl_mul_pow2 by lia.
Qed.

Lemma words_loop_items h k ws : Forall (in_u 64) ws → words_loop h k ws = Z.lor h <$> word_items k ws.
Proof.
  intros Hws. revert k. induction Hws as [|w ws Hw Hws IH]; intros k; [done|]. cbn [words_loop word_items]. rewrite fmap_app, IH. f_equal.
  bcase; [by subst|]. rewrite word_loop_ones; [|done|pose proof (length_word_ones w Hw); lia].
  rewrite <- list_fmap_compose. apply list_fmap_ext. intros i j Hj%list_elem_of_lookup_2. cbn. apply lor_word.
  pose proof (word_ones_in_u _ _ Hw Hj). unfold in_u. lia.
Qed.

Lemma elem_of_word_items k ws x :
  Forall (in_u 64) ws →
  x ∈ word_items k ws ↔ k * 64 ≤ x < (k + Z.of_nat (length ws)) * 64 ∧ bit ws (x - k * 64) = true.
Proof.
  intros Hws. revert k. induction Hws as [|w ws Hw Hws IH]; intros k; cbn [word_items length].
  { rewrite elem_of_nil. split; [done|lia]. }
  rewrite elem_of_app, list_elem_of_fmap, IH. unfold bit. pose proof (elem_of_word_ones w) as Hones. unfold in_u in Hw.
  destruct (decide (k * 64 ≤ x < (k + 1) * 64)) as [Hin|Hout].
  - replace ((x - k * 64) / 64) with 0 by zdm. cbn [Z.to_nat]. change ((w :: ws) !!! 0%nat) with w. split.
    + intros [(j & -> & Hj)|?]; [|lia]. pose proof (word_ones_in_u _ _ Hw Hj). apply Hones in Hj as [_ Hj]; [|lia].
      split; [lia|]. replace (k * 64 + j - k * 64) with j by lia. by rewrite Z.mod_small by lia.
    + intros [_ Hb]. left. exists (x - k * 64). split; [lia|]. apply Hones; [lia|]. split; [lia|]. by rewrite Z.mod_small in Hb by lia.
  - replace ((x - (k + 1) * 64) mod 64) with ((x - k * 64) mod 64) by zdm. split.
    + intros [(j & -> & Hj)|[Hr Hb]]; [pose proof (word_ones_in_u _ _ Hw Hj); lia|]. split; [lia|].
      by replace (Z.to_nat ((x - k * 64) / 64)) with (S (Z.to_nat ((x - (k + 1) * 64) / 64))) by zdm.
    + intros [Hr Hb]. right. split; [lia|].
      by replace (Z.to_nat ((x - k * 64) / 64)) with (S (Z.to_nat ((x - (k + 1) * 64) / 64))) in Hb by zdm.
Qed.

Lemma StronglySorted_app_lt (l1 l2 : list Z) m :
  StronglySorted Z.lt l1 → StronglySorted Z.lt l2 → Forall (λ x, x < m) l1 → Forall (λ x, m ≤ x) l2 → StronglySorted Z.lt (l1 ++ l2).
Proof.
  intros H1 H2 Hl1 Hl2. induction H1 as [|x l1 _ IH Hx]; [done|]. inversion Hl1 as [|? ? Hxm Hl1']; subst. cbn. constructor; [by apply IH|].
  apply Forall_app. split; [done|]. eapply Forall_impl; [exact Hl2|]. cbn. lia.
Qed.

Lemma word_items_sorted k ws : Forall (in_u 64) ws → StronglySorted Z.lt (word_items k ws).
Proof.
  intros Hws. revert k. induction Hws as [|w ws Hw Hws IH]; intros k; cbn [word_items]; [constructor|].
  apply (StronglySorted_app_lt _ _ ((k + 1) * 64)); [apply sorted_shift, word_ones_sorted|apply IH| |].
  - apply Forall_fmap, Forall_forall. intros j Hj. pose proof (word_ones_in_u _ _ Hw Hj). cbn. lia.
  - apply Forall_forall. intros x Hx%elem_of_word_items; [lia|done].
Qed.

Lemma length_word_items k ws n :
  Forall (in_u 64) ws →
  foldl (λ n x, if 0 <? x then n + OnesCount64 x else n) n ws = n + Z.of_nat (length (word_items k ws)).
Proof.
  intros Hws. revert k n. induction Hws as [|w ws Hw Hws IH]; intros k n; cbn [foldl word_items]; [cbn; lia|].
  rewrite (IH (k + 1)), length_app, length_fmap. pose proof (OnesCount64_ones w Hw) as Ho. unfold in_u in Hw. bcase.
  assert (w = 0) as -> by lia. cbn. lia.
Qed.

Lemma land_63 x : Z.land x 63 = x mod 64.
Proof. change 63 with (Z.ones 6). by rewrite Z.land_ones by lia. Qed.

Lemma land_pow2_zero w i : 0 ≤ i → (Z.land w (2 ^ i) =? 0) = negb (Z.testbit w i).
Proof.
  intros Hi. destruct (Z.testbit w i) eqn:E; cbn [negb].
  - apply Z.eqb_neq. intros H0. assert (Hb : Z.testbit (Z.land w (2 ^ i)) i = false) by (by rewrite H0, Z.testbit_0_l).
    rewrite Z.land_spec, E, Z.pow2_bits_true in Hb by done. done.
  - apply Z.eqb_eq, Z.bits_inj'. intros n Hn. rewrite Z.land_spec, Z.testbit_0_l, Z.pow2_bits_eqb by done.
    destruct (Z.eqb_spec i n) as [<-|]; [by rewrite E|apply andb_false_r].
Qed.

Lemma wf_words_lookup ws x : wf_words ws → in_u 16 x → ∃ w, ws !! Z.to_nat (x / 64) = Some w ∧ in_u 64 w ∧ ws !!! Z.to_nat (x / 64) = w.
Proof.
  intros [Hl Hws] Hx. unfold in_u, wordsPerBucket in *. destruct (lookup_lt_is_Some_2 ws (Z.to_nat (x / 64))) as [w Hw]; [zdm|].
  exists w. rewrite Forall_lookup in Hws. specialize (Hws _ _ Hw). split; [done|]. split; [done|]. by apply list_lookup_total_correct.
Qed.

(** An update of the word of [x]: bits of other words stay. *)
Lemma bit_insert ws x y w :
  wf_words ws → in_u 16 x → in_u 16 y → in_u 64 w →
  wf_words (<[Z.to_nat (x / 64) := w]> ws) ∧
  bit (<[Z.to_nat (x / 64) := w]> ws) y = if x / 64 =? y / 64 then Z.testbit w (y mod 64) else bit ws y.
Proof.
  intros Hws Hx Hy Hw. destruct (wf_words_lookup ws x Hws Hx) as (v & Hv & _). destruct Hws as [Hl Hall]. split.
  - split; [by rewrite length_insert|]. by apply Forall_insert.
  - unfold bit. unfold in_u in Hx, Hy. destruct (Z.eqb_spec (x / 64) (y / 64)) as [Heq|Hne].
    + rewrite <- Heq, list_lookup_total_insert_eq; [done|]. by eapply lookup_lt_Some.
    + rewrite list_lookup_total_insert_ne; [done|]. intros Heq. apply Hne. zdm.
Qed.

Lemma land_mask ws x : in_u 16 x → (Z.land (ws !!! Z.to_nat (x / 64)) (1 ≪ Z.land x 63) =? 0) = negb (bit ws x).
Proof. intros Hx. unfold bit, in_u in *. rewrite land_63, Z.shiftl_1_l. apply land_pow2_zero. zdm. Qed.

Lemma same_bit x y : x / 64 = y / 64 → (x mod 64 =? y mod 64) = (y =? x).
Proof. intros Hd. destruct (Z.eqb_spec (x mod 64) (y mod 64)), (Z.eqb_spec y x); try done; zdm. Qed.
Lemma other_bit x y : x / 64 ≠ y / 64 → (y =? x) = false.
Proof. intros Hd. apply Z.eqb_neq. by intros ->. Qed.

Lemma set_bit_spec ws x y :
  wf_words ws → in_u 16 x → in_u 16 y →
  wf_words (fst (set_bit ws x)) ∧ bit (fst (set_bit ws x)) y = (y =? x) || bit ws y ∧ snd (set_bit ws x) = negb (bit ws x).
Proof.
  intros Hws Hx Hy. unfold set_bit, getWordNumBitMask. cbn [fst snd]. rewrite land_mask by done.
  destruct (bit ws x) eqn:Eb; cbn [negb].
  - split; [done|]. split; [|done]. destruct (Z.eqb_spec y x) as [->|]; [done|done].
  - destruct (wf_words_lookup ws x Hws Hx) as (w & _ & Hw & Ew). rewrite Ew. unfold in_u in Hx. rewrite land_63, Z.shiftl_1_l.
    destruct (bit_insert ws x y (Z.lor w (2 ^ (x mod 64)))) as [Hwf ->]; [done|done|done| |].
    { apply in_u_lor; [lia|done|]. split; [apply Z.pow_nonneg; lia|]. apply Z.pow_lt_mono_r; [lia|lia|zdm]. }
    split; [done|]. split; [|done]. destruct (Z.eqb_spec (x / 64) (y / 64)) as [Hd|Hd]; [|by rewrite other_bit].
    rewrite Z.lor_spec, Z.pow2_bits_eqb, same_bit, orb_comm by (done || zdm). f_equal. unfold bit. rewrite <- Hd.
    by rewrite Ew.
Qed.

Lemma clear_bit_spec ws x y :
  let ws' := <[Z.to_nat (x / 64) := Z.ldiff (ws !!! Z.to_nat (x / 64)) (1 ≪ Z.land x 63)]> ws in
  wf_words ws → in_u 16 x → in_u 16 y → wf_words ws' ∧ bit ws' y = negb (y =? x) && bit ws y.
Proof.
  intros ws' Hws Hx Hy. subst ws'. destruct (wf_words_lookup ws x Hws Hx) as (w & _ & Hw & Ew). rewrite Ew.
  unfold in_u in Hx. rewrite land_63, Z.shiftl_1_l.
  destruct (bit_insert ws x y (Z.ldiff w (2 ^ (x mod 64)))) as [Hwf ->]; [done|done|done|by apply in_u_ldiff|].
  split; [done|]. destruct (Z.eqb_spec (x / 64) (y / 64)) as [Hd|Hd]; [|by rewrite other_bit].
  rewrite Z.ldiff_spec, Z.pow2_bits_eqb, same_bit, andb_comm by (done || zdm). f_equal. unfold bit. by rewrite <- Hd, Ew.
Qed.

Lemma bit_zero x : in_u 16 x → bit (replicate wordsPerBucket 0) x = false.
Proof.
  intros Hx. unfold bit, in_u, wordsPerBucket in *. rewrite lookup_total_replicate_2 by zdm. apply Z.testbit_0_l.
Qed.
Lemma wf_words_zero : wf_words (replicate wordsPerBucket 0).
Proof. split; [by rewrite length_replicate|]. apply Forall_replicate. unfold in_u. lia. Qed.

Lemma bit_zip_with (f : Z → Z → Z) (g : bool → bool → bool) ws vs x :
  (∀ a b i, Z.testbit (f a b) i = g (Z.testbit a i) (Z.testbit b i)) → (∀ a b, in_u 64 a → in_u 64 b → in_u 64 (f a b)) →
  wf_words ws → wf_words vs → in_u 16 x →
  wf_words (zip_with f ws vs) ∧ bit (zip_with f ws vs) x = g (bit ws x) (bit vs x).
Proof.
  intros Hf Hu Hws Hvs Hx. destruct (wf_words_lookup ws x Hws Hx) as (w & Ew & _ & Ew').
  destruct (wf_words_lookup vs x Hvs Hx) as (v & Ev & _ & Ev'). destruct Hws as [Hl Hw], Hvs as [Hl' Hv]. split; [split|].
  - rewrite length_zip_with. lia.
  - apply Forall_lookup. intros n z Hz. apply lookup_zip_with_Some in Hz as (a & b & -> & Ha & Hb).
    rewrite Forall_lookup in Hw, Hv. apply Hu; eauto.
  - unfold bit. rewrite Ew', Ev', <- Hf. f_equal. apply list_lookup_total_correct. rewrite lookup_zip_with_Some. eauto.
Qed.

(** ** A bucket as a set *)

Definition items16 (b : bucket16) : list Z := match bits b with None => pool b | Some ws => word_items 0 ws end.
Definition els16 (b : bucket16) : gset Z := list_to_set (items16 b).

Definition wf16 (b : bucket16) : Prop :=
  match bits b with
  | None => length (smallPool b) = smallPoolSize ∧ (smallPoolLen b ≤ smallPoolSize)%nat ∧ NoDup (pool b) ∧ Forall (in_u 16) (pool b)
  | Some ws => wf_words ws
  end.

Lemma wf16_words ws p n : wf_words ws → wf16 (mk_b16 (Some ws) p n).
Proof. done. Qed.

Lemma els16_words ws p n x : wf_words ws → x ∈ els16 (mk_b16 (Some ws) p n) ↔ in_u 16 x ∧ bit ws x = true.
Proof.
  intros [Hl Hws]. unfold els16, items16. cbn [bits]. rewrite elem_of_list_to_set, elem_of_word_items by done.
  rewrite Z.sub_0_r, Hl. unfold in_u, wordsPerBucket. cbn. split; intros [? ?]; split; (done || lia).
Qed.

Lemma els16_in_u b x : wf16 b → x ∈ els16 b → in_u 16 x.
Proof.
  destruct b as [[ws|] p n]; intros Hwf Hx; [by apply els16_words in Hx as [? _]|]. destruct Hwf as (_ & _ & _ & Hall).
  unfold els16, items16 in Hx. cbn [bits] in Hx. rewrite elem_of_list_to_set in Hx. rewrite Forall_forall in Hall. auto.
Qed.

Lemma items16_NoDup b : wf16 b → NoDup (items16 b).
Proof.
  destruct b as [[ws|] p n]; intros Hwf; [|by destruct Hwf as (_ & _ & ? & _)]. destruct Hwf as [_ Hws].
  apply sorted_NoDup. by apply word_items_sorted.
Qed.

Lemma getLen16_size b : wf16 b → getLen16 b = Z.of_nat (size (els16 b)).
Proof.
  intros Hwf. unfold els16. rewrite size_list_to_set by (by apply items16_NoDup). unfold getLen16, items16.
  destruct b as [[ws|] p n]; cbn [bits] in *; [destruct Hwf as [_ Hws]; by rewrite (length_word_items 0)|].
  destruct Hwf as (Hl & Hn & _). unfold pool in *. cbn [smallPool smallPoolLen bits] in *. len.
Qed.

Lemma hasInSmallPool_spec b x : hasInSmallPool b x = bool_decide (x ∈ pool b).
Proof.
  unfold hasInSmallPool. apply eq_true_iff_eq. rewrite bool_decide_eq_true, existsb_exists. setoid_rewrite <- list_elem_of_In.
  setoid_rewrite Z.eqb_eq. split; [by intros (v & ? & ->)|]. intros Hx. by exists x.
Qed.

Lemma has16_spec b x : wf16 b → in_u 16 x → has16 b x = bool_decide (x ∈ els16 b).
Proof.
  intros Hwf Hx. unfold has16. destruct b as [[ws|] p n]; cbn [bits].
  - unfold getWordNumBitMask. rewrite land_mask, negb_involutive by done. apply eq_true_iff_eq.
    rewrite bool_decide_eq_true, els16_words by done. tauto.
  - rewrite hasInSmallPool_spec. apply bool_decide_ext. unfold els16. by rewrite elem_of_list_to_set.
Qed.

(** ** Insertion and removal *)

Lemma set_bits_spec l ws :
  wf_words ws → Forall (in_u 16) l →
  let ws' := foldl (λ ws v, fst (set_bit ws v)) ws l in
  wf_words ws' ∧ ∀ y, in_u 16 y → bit ws' y = true ↔ y ∈ l ∨ bit ws y = true.
Proof.
  intros Hws Hl. revert ws Hws. induction Hl as [|x l Hx Hl IH]; intros ws Hws; cbn [foldl].
  { split; [done|]. intros y _. rewrite elem_of_nil. tauto. }
  destruct (set_bit_spec ws x x Hws Hx Hx) as [Hws' _]. destruct (IH _ Hws') as [Hwf Hb]. split; [done|]. intros y Hy. rewrite Hb by done.
  destruct (set_bit_spec ws x y Hws Hx Hy) as (_ & -> & _). rewrite elem_of_cons, orb_true_iff, Z.eqb_eq. tauto.
Qed.

Lemma els16_pool p n : els16 (mk_b16 None p n) = list_to_set (take n p).
Proof. done. Qed.

Lemma take_insert_snoc (l : list Z) n x : (n < length l)%nat → take (S n) (<[n := x]> l) = take n l ++ [x].
Proof.
  intros Hn. rewrite (take_S_r _ _ x) by (by apply list_lookup_insert_eq). by rewrite take_insert_ge.
Qed.

Lemma set_bit_els ws p n x :
  wf_words ws → in_u 16 x →
  wf_words (fst (set_bit ws x)) ∧ els16 (mk_b16 (Some (fst (set_bit ws x))) p n) = {[x]} ∪ els16 (mk_b16 (Some ws) p n).
Proof.
  intros Hws Hx. destruct (set_bit_spec ws x x Hws Hx Hx) as [Hwf _]. split; [done|]. apply set_eq. intros y.
  rewrite elem_of_union, elem_of_singleton, !els16_words by done. split.
  - intros [Hy Hb]. destruct (set_bit_spec ws x y Hws Hx Hy) as (_ & E & _). rewrite E, orb_true_iff, Z.eqb_eq in Hb. tauto.
  - intros Hd. assert (Hy : in_u 16 y) by (destruct Hd as [->|[? _]]; done). split; [done|].
    destruct (set_bit_spec ws x y Hws Hx Hy) as (_ & E & _). rewrite E, orb_true_iff, Z.eqb_eq. tauto.
Qed.

Lemma addToSmallPool_spec p n x :
  let b := mk_b16 None p n in
  wf16 b → in_u 16 x →
  wf16 (fst (addToSmallPool b x)) ∧ els16 (fst (addToSmallPool b x)) = {[x]} ∪ els16 b ∧ snd (addToSmallPool b x) = bool_decide (x ∉ els16 b).
Proof.
  intros b Hwf Hx. assert (Hin : x ∈ els16 b ↔ x ∈ pool b) by (unfold els16; by rewrite elem_of_list_to_set). destruct Hwf as (Hl & Hn & Hnd & Hu).
  unfold addToSmallPool. rewrite hasInSmallPool_spec. unfold b, pool in *. cbn [smallPool smallPoolLen bits] in *.
  case_bool_decide as Hp; [by rewrite bool_decide_false; [split; [done|split; [set_solver|done]]|rewrite Hin; auto]|].
  rewrite bool_decide_true by (by rewrite Hin). bcase; cbn [fst snd].
  - rewrite !els16_pool, take_insert_snoc by lia. split; [|split; [rewrite list_to_set_app_L; set_solver|done]].
    unfold wf16, pool. cbn [smallPool smallPoolLen bits]. rewrite take_insert_snoc by lia. split; [by rewrite length_insert|]. split; [lia|].
    split; [apply NoDup_app; split; [done|]; split; [set_solver|apply NoDup_singleton]|]. apply Forall_app. split; [done|by constructor].
  - assert (n = smallPoolSize) as -> by lia. rewrite firstn_all2 in * by lia.
    destruct (set_bits_spec p _ wf_words_zero Hu) as [Hws Hb]. destruct (set_bit_els _ p 0 x Hws Hx) as [Hwf ->]. split; [done|]. split; [|done].
    f_equal. apply set_eq. intros y. rewrite els16_words, els16_pool, firstn_all2, elem_of_list_to_set by (done || lia). split.
    + intros [Hy Hby]. apply Hb in Hby; [|done]. destruct Hby as [?|Hby]; [done|]. by rewrite bit_zero in Hby.
    + intros Hy. assert (in_u 16 y) by (rewrite Forall_forall in Hu; auto). split; [done|]. apply Hb; [done|]. by left.
Qed.

Lemma add16_spec b x :
  wf16 b → in_u 16 x →
  wf16 (fst (add16 b x)) ∧ els16 (fst (add16 b x)) = {[x]} ∪ els16 b ∧ snd (add16 b x) = bool_decide (x ∉ els16 b).
Proof.
  intros Hwf Hx. destruct b as [[ws|] p n]; [|by apply addToSmallPool_spec]. unfold add16. cbn [bits].
  destruct (set_bit_els ws p n x Hwf Hx) as [Hws He]. destruct (set_bit_spec ws x x Hwf Hx Hx) as (_ & _ & Hok).
  destruct (set_bit ws x) as [ws' ok]. cbn [fst snd smallPool smallPoolLen] in *. split; [done|]. split; [done|]. subst ok.
  destruct (bit ws x) eqn:E; cbn [negb].
  - rewrite bool_decide_false; [done|]. intros Hn. apply Hn. by apply els16_words.
  - rewrite bool_decide_true; [done|]. rewrite els16_words by done. intros [_ ?]. congruence.
Qed.

Lemma size_add (X : gset Z) x : Z.of_nat (size ({[x]} ∪ X)) = Z.of_nat (size X) + (if bool_decide (x ∉ X) then 1 else 0).
Proof.
  case_bool_decide as Hx.
  - rewrite size_union, size_singleton by set_solver. lia.
  - replace ({[x]} ∪ X) with X by set_solver. lia.
Qed.
Lemma size_del (X : gset Z) x : Z.of_nat (size (X ∖ {[x]})) = Z.of_nat (size X) - (if bool_decide (x ∈ X) then 1 else 0).
Proof.
  case_bool_decide as Hx.
  - assert (Hsub : {[x]} ⊆ X) by set_solver. pose proof (subseteq_size _ _ Hsub) as Hs. rewrite size_difference by done.
    rewrite size_singleton in *. lia.
  - replace (X ∖ {[x]}) with X by set_solver. lia.
Qed.

Lemma addMulti16_spec b a :
  wf16 b →
  let b' := fst (addMulti16 b a) in
  wf16 b' ∧ els16 b' = list_to_set (u16 <$> a) ∪ els16 b ∧ snd (addMulti16 b a) = Z.of_nat (size (els16 b')) - Z.of_nat (size (els16 b)).
Proof.
  unfold addMulti16. set (step := λ '(b, count) x, _).
  enough (Hg : ∀ a b c, wf16 b → let r := foldl step (b, c) a in
    wf16 (fst r) ∧ els16 (fst r) = list_to_set (u16 <$> a) ∪ els16 b ∧ snd r = c + Z.of_nat (size (els16 (fst r))) - Z.of_nat (size (els16 b)))
    by (intros Hwf; destruct (Hg a b 0 Hwf) as (? & ? & ?); split; [done|split; [done|lia]]).
  clear a b. induction a as [|x a IH]; intros b c Hwf; cbn [foldl fmap list_fmap list_to_set].
  { cbn [fst snd]. split; [done|]. split; [set_solver|lia]. }
  destruct (add16_spec b (u16 x) Hwf) as (Hwf' & He & Hok); [by apply wrap_u_range|].
  destruct (add16 b (u16 x)) as [b' ok] eqn:E. cbn [fst snd] in *.
  assert (Hs : step (b, c) x = (b', if ok then c + 1 else c)) by (unfold step; by rewrite E). rewrite Hs. specialize (IH b' (if ok then c + 1 else c) Hwf').
  destruct IH as (H1 & H2 & H3). split; [done|]. split; [rewrite H2, He; set_solver|]. rewrite H3, He, size_add, <- Hok. destruct ok; lia.
Qed.

Lemma pool_delete (p : list Z) n i :
  length p = smallPoolSize → (n ≤ smallPoolSize)%nat → (i < n)%nat →
  let p' := take i p ++ drop (S i) p ++ default [] ((λ v, [v]) <$> last p) in
  length p' = smallPoolSize ∧ take (n - 1) p' = delete i (take n p).
Proof.
  intros Hl Hn Hi. cbn. assert (Hlast : is_Some (last p)) by (apply last_is_Some; intros ->; cbn in *; lia). destruct Hlast as [y Hy]. rewrite Hy.
  cbn. split; [len|]. rewrite delete_take_drop, take_take, skipn_firstn_comm, app_assoc.
  rewrite take_app_le by len. rewrite take_app, take_take, length_take. f_equal; f_equal; lia.
Qed.

Lemma delFromSmallPool_spec p n x :
  let b := mk_b16 None p n in
  wf16 b →
  let r := delFromSmallPool b x in
  wf16 (fst r) ∧ els16 (fst r) = els16 b ∖ {[x]} ∧ snd r = bool_decide (x ∈ els16 b).
Proof.
  intros b Hwf. assert (Hin : x ∈ els16 b ↔ x ∈ pool b) by (unfold els16; by rewrite elem_of_list_to_set). destruct Hwf as (Hl & Hn & Hnd & Hu).
  cbn zeta. unfold delFromSmallPool. unfold b, pool in *. cbn [smallPool smallPoolLen bits] in *. destruct (list_find _ _) as [[i v]|] eqn:E.
  - apply list_find_Some in E as (Hi & -> & _). pose proof (lookup_lt_Some _ _ _ Hi) as Hil. rewrite length_take in Hil.
    destruct (pool_delete p n i) as [Hl' Hp]; [done|done|lia|]. pose proof (delete_Permutation _ _ _ Hi) as Hperm.
    set (q := delete i (take n p)) in *. clearbody q.
    cbn [fst snd]. rewrite bool_decide_true by (rewrite Hin; by eapply list_elem_of_lookup_2). rewrite !els16_pool, Hp.
    assert (Hnd' := Hnd). rewrite Hperm in Hnd'. apply NoDup_cons in Hnd' as [Hx Hnd']. split; [|split; [|done]].
    + unfold wf16, pool. cbn [smallPool smallPoolLen bits]. rewrite Hp. split; [done|]. split; [lia|]. split; [done|].
      rewrite Hperm in Hu. by inversion Hu.
    + apply set_eq. intros y. rewrite elem_of_difference, !elem_of_list_to_set, Hperm, elem_of_cons, elem_of_singleton.
      split; [intros Hy; split; [by right|by intros ->]|]. by intros [[->|?] ?].
  - apply list_find_None in E. cbn [fst snd]. assert (Hx : x ∉ take n p) by (intros Hx; rewrite Forall_forall in E; by eapply E).
    rewrite bool_decide_false by (by rewrite Hin). split; [done|]. split; [|done]. rewrite els16_pool. apply set_eq. intros y.
    rewrite elem_of_difference, elem_of_list_to_set, elem_of_singleton. split; [|by intros [? _]]. intros Hy. split; [done|by intros ->].
Qed.

Lemma del16_spec b x :
  wf16 b → in_u 16 x →
  let r := del16 b x in
  wf16 (fst r) ∧ els16 (fst r) = els16 b ∖ {[x]} ∧ snd r = bool_decide (x ∈ els16 b).
Proof.
  intros Hwf Hx. destruct b as [[ws|] p n]; [|by apply delFromSmallPool_spec]. cbn zeta. unfold del16, getWordNumBitMask. cbn [bits fst snd smallPool smallPoolLen].
  destruct (clear_bit_spec ws x x Hwf Hx Hx) as [Hws _]. split; [done|]. split.
  - apply set_eq. intros y. rewrite elem_of_difference, elem_of_singleton, !els16_words by done. split.
    + intros [Hy Hb]. destruct (clear_bit_spec ws x y Hwf Hx Hy) as [_ E]. rewrite E, andb_true_iff, negb_true_iff, Z.eqb_neq in Hb. tauto.
    + intros [[Hy Hb] Hne]. split; [done|]. destruct (clear_bit_spec ws x y Hwf Hx Hy) as [_ E].
      rewrite E, andb_true_iff, negb_true_iff, Z.eqb_neq. tauto.
  - rewrite land_mask, negb_involutive by done. apply eq_true_iff_eq. rewrite bool_decide_eq_true, els16_words by done. tauto.
Qed.

(** ** Listing *)

Definition hi64 (hi hi16 : Z) : Z := hi * 2 ^ 32 + hi16 * 2 ^ 16.

#[export] Instance ltb_sw : StrictWeak Z.ltb.
Proof. split; intros; rewrite ?Z.ltb_ge, ?Z.ltb_lt in *; lia. Qed.

Lemma in_order_NoDup_lt (l : list Z) : in_order Z.ltb l → NoDup l → StronglySorted Z.lt l.
Proof.
  unfold in_order. induction 1 as [|x l _ IH Hx]; intros Hnd; constructor; inversion Hnd; subst; [by apply IH|].
  rewrite Forall_forall in *. intros y Hy. specialize (Hx _ Hy). cbn in Hx. apply Z.ltb_ge in Hx.
  assert (x ≠ y) by (by intros ->). lia.
Qed.

Lemma lor_hi64 hi hi16 v : in_u 16 hi16 → in_u 16 v → Z.lor (Z.lor (hi ≪ 32) (hi16 ≪ 16)) v = hi64 hi hi16 + v.
Proof.
  intros Hh Hv. unfold hi64. replace (Z.lor (hi ≪ 32) (hi16 ≪ 16)) with ((hi * 2 ^ 16 + hi16) ≪ 16).
  - rewrite lor_shift_add by (done || lia). lia.
  - rewrite <- (lor_shift_add hi hi16 16) by (done || lia). by rewrite Z.shiftl_lor, Z.shiftl_shiftl by lia.
Qed.

Lemma appendTo16_spec {S : GoSort} `{!GoSortLaws S} b dst hi hi16 :
  wf16 b → in_u 16 hi16 →
  ∃ l, appendTo16 b dst hi hi16 = dst ++ ((λ v, hi64 hi hi16 + v) <$> l) ∧ StronglySorted Z.lt l ∧ l ≡ₚ items16 b.
Proof.
  intros Hwf Hh. unfold appendTo16. pose proof (items16_NoDup b Hwf) as Hnd. pose proof (els16_in_u b) as Hu.
  assert (Hl : ∀ l, l ≡ₚ items16 b → Z.lor (Z.lor (hi ≪ 32) (hi16 ≪ 16)) <$> l = (λ v, hi64 hi hi16 + v) <$> l).
  { intros l Hl. apply list_fmap_ext. intros i v Hi%list_elem_of_lookup_2. apply lor_hi64; [done|]. apply Hu; [done|].
    unfold els16. by rewrite elem_of_list_to_set, <- Hl. }
  unfold items16 in *. destruct (bits b) as [ws|] eqn:Eb.
  - unfold wf16 in Hwf. rewrite Eb in Hwf. destruct Hwf as [_ Hws]. exists (word_items 0 ws).
    rewrite words_loop_items by done. rewrite Hl by done. split; [done|]. split; [by apply word_items_sorted|done].
  - destruct (sort_if_spec Z.ltb (pool b)) as [Hp Ho]. bcase.
    + exists (sort_if Z.ltb (pool b)). rewrite Hl by done. split; [done|]. split; [|done]. apply in_order_NoDup_lt; [done|by rewrite Hp].
    + exists (pool b). rewrite Hl by done. split; [done|]. split; [|done]. destruct (pool b) as [|x [|y l]]; [constructor|repeat constructor|cbn in *; lia].
Qed.

(** ** Union and intersection *)

Lemma add_all16 l b :
  wf16 b → Forall (in_u 16) l →
  let b' := foldl (λ b x, fst (add16 b (u16 x))) b l in wf16 b' ∧ els16 b' = list_to_set l ∪ els16 b.
Proof.
  intros Hwf Hl. revert b Hwf. induction Hl as [|x l Hx Hl IH]; intros b Hwf; cbn [foldl list_to_set]; [split; [done|set_solver]|].
  rewrite wrap_u_id by done. destruct (add16_spec b x Hwf Hx) as (Hwf' & He & _). destruct (IH _ Hwf') as [H1 H2]. split; [done|].
  rewrite H2, He. set_solver.
Qed.

Lemma keep_all16 a l b :
  wf16 a → wf16 b → Forall (in_u 16) l →
  let b' := foldl (λ b x, if has16 a (u16 x) then b else fst (del16 b (u16 x))) b l in
  wf16 b' ∧ ∀ y, y ∈ els16 b' ↔ y ∈ els16 b ∧ (y ∈ l → y ∈ els16 a).
Proof.
  intros Ha Hwf Hl. revert b Hwf. induction Hl as [|x l Hx Hl IH]; intros b Hwf; cbn [foldl].
  { split; [done|]. intros y. rewrite elem_of_nil. tauto. }
  rewrite wrap_u_id, has16_spec by done. case_bool_decide as Hin.
  - destruct (IH b Hwf) as [H1 H2]. split; [done|]. intros y. rewrite H2, elem_of_cons. split; [|naive_solver].
    intros [? Hy]. split; [done|]. intros [->|?]; auto.
  - destruct (del16_spec b x Hwf Hx) as (Hwf' & He & _). destruct (IH _ Hwf') as [H1 H2]. split; [done|]. intros y.
    rewrite H2, He, elem_of_cons, elem_of_difference, elem_of_singleton. destruct (decide (y = x)) as [->|]; naive_solver.
Qed.

Section Ops16.
Context {S : GoSort} `{!GoSortLaws S}.

(** What the slow paths walk over. *)
Lemma appendTo16_els b : wf16 b → Forall (in_u 16) (appendTo16 b [] 0 0) ∧ list_to_set (appendTo16 b [] 0 0) = els16 b.
Proof.
  intros Hwf. destruct (appendTo16_spec b [] 0 0 Hwf) as (l & -> & _ & Hl); [unfold in_u; lia|].
  replace ((λ v, hi64 0 0 + v) <$> l) with l by (rewrite <- (list_fmap_id l) at 1; by apply list_fmap_ext).
  cbn [app]. assert (He : list_to_set l = els16 b) by (unfold els16; apply set_eq; intros y; by rewrite !elem_of_list_to_set, Hl). split; [|done].
  apply Forall_forall. intros y Hy. apply (els16_in_u b); [done|]. by rewrite <- He, elem_of_list_to_set.
Qed.

Lemma union16_spec b a : wf16 b → wf16 a → wf16 (union16 b a) ∧ els16 (union16 b a) = els16 b ∪ els16 a.
Proof.
  intros Hb Ha. unfold union16.
  assert (Hslow : let b' := foldl (λ b x, fst (add16 b (u16 x))) b (appendTo16 a [] 0 0) in wf16 b' ∧ els16 b' = els16 b ∪ els16 a).
  { destruct (appendTo16_els a Ha) as [Hu He]. destruct (add_all16 _ b Hb Hu) as [H1 H2]. split; [done|]. rewrite H2, He. set_solver. }
  destruct a as [[aw|] ap an], b as [[bw|] bp bn]; cbn [bits] in *; try exact Hslow. clear Hslow.
  assert (Hz : ∀ x, in_u 16 x → wf_words (zip_with Z.lor bw aw) ∧ bit (zip_with Z.lor bw aw) x = bit bw x || bit aw x).
  { intros x Hx. apply bit_zip_with; [apply Z.lor_spec|by intros; apply in_u_lor|done|done|done]. }
  destruct (Hz 0) as [Hwf _]; [unfold in_u; lia|]. split; [done|]. apply set_eq. intros y. rewrite elem_of_union, !els16_words by done. split.
  - intros [Hy Hy']. destruct (Hz y Hy) as [_ E]. rewrite E, orb_true_iff in Hy'. tauto.
  - intros Hd. assert (Hy : in_u 16 y) by tauto. split; [done|]. destruct (Hz y Hy) as [_ ->]. rewrite orb_true_iff. tauto.
Qed.

Lemma intersect16_spec b a : wf16 b → wf16 a → wf16 (intersect16 b a) ∧ els16 (intersect16 b a) = els16 b ∩ els16 a.
Proof.
  intros Hb Ha. unfold intersect16.
  assert (Hslow : let b' := foldl (λ b x, if has16 a (u16 x) then b else fst (del16 b (u16 x))) b (appendTo16 b [] 0 0) in
                  wf16 b' ∧ els16 b' = els16 b ∩ els16 a).
  { destruct (appendTo16_els b Hb) as [Hu He]. destruct (keep_all16 a _ b Ha Hb Hu) as [H1 H2]. split; [done|]. apply set_eq. intros y.
    rewrite H2, elem_of_intersection, <- He, !elem_of_list_to_set. tauto. }
  destruct a as [[aw|] ap an], b as [[bw|] bp bn]; cbn [bits] in *; try exact Hslow. clear Hslow.
  assert (Hz : ∀ x, in_u 16 x → wf_words (zip_with Z.land bw aw) ∧ bit (zip_with Z.land bw aw) x = bit bw x && bit aw x).
  { intros x Hx. apply bit_zip_with; [apply Z.land_spec|by intros; apply in_u_land|done|done|done]. }
  destruct (Hz 0) as [Hwf _]; [unfold in_u; lia|]. split; [done|]. apply set_eq. intros y. rewrite elem_of_intersection, !els16_words by done. split.
  - intros [Hy Hy']. destruct (Hz y Hy) as [_ E]. rewrite E, andb_true_iff in Hy'. tauto.
  - intros Hd. assert (Hy : in_u 16 y) by tauto. split; [done|]. destruct (Hz y Hy) as [_ ->]. rewrite andb_true_iff. tauto.
Qed.
End Ops16.

Lemma empty16_spec : wf16 empty16 ∧ els16 empty16 = ∅.
Proof. split; [|done]. split; [done|]. split; [unfold smallPoolSize; cbn; lia|]. split; constructor. Qed.

Lemma isZero_empty b : isZero b = true → els16 b = ∅.
Proof. unfold isZero, els16, items16, pool. destruct (bits b); [done|]. intros ->%Nat.eqb_eq. done. Qed.
