(* ===== verification/U64Blocks.v ===== *)
(** * Keyed blocks: what the two upper levels of a uint64set share

    A list of blocks stands for the numbers [key b * 2^w + v] with [v] in the block [b]. Several
    blocks may have the same key; only the first of them is found by a search, so the later
    ones have to be empty ([uniq]).  Unions and intersections walk over two sorted lists. *)

From stdpp Require Import gmap sorting.
From S2P Require Import Prelude GoSort U64Set U64Bucket.

Definition shift (w k : Z) (l : list Z) : list Z := (λ v, k * 2 ^ w + v) <$> l.

Lemma elem_of_shift w k l y :
  0 ≤ w → Forall (in_u w) l → y ∈ shift w k l ↔ k = y / 2 ^ w ∧ y mod 2 ^ w ∈ l.
Proof.
  intros Hw Hl. unfold shift. rewrite list_elem_of_fmap. rewrite Forall_forall in Hl. pose proof (Z.pow_pos_nonneg 2 w). split.
  - intros (v & -> & Hv). specialize (Hl _ Hv). unfold in_u in Hl. split; [rewrite Z.div_add_l, Z.div_small; lia|].
    by rewrite Z.add_comm, Z_mod_plus_full, Z.mod_small by lia.
  - intros [-> Hy]. exists (y mod 2 ^ w). split; [|done]. pose proof (Z.div_mod y (2 ^ w)). lia.
Qed.

Lemma ForallOrdPairs_app {A} (R : A → A → Prop) l k :
  ForallOrdPairs R (l ++ k) ↔ ForallOrdPairs R l ∧ ForallOrdPairs R k ∧ ∀ x y, x ∈ l → y ∈ k → R x y.
Proof.
  induction l as [|x l IH]; cbn [app].
  - split; [intros ?; split; [constructor|]; split; [done|]; intros ? ? Hn; by apply elem_of_nil in Hn|tauto].
  - split.
    + intros Hf. inversion Hf as [|? ? Hx Hf']; subst. apply IH in Hf' as (Hl & Hk & Hlk). apply Forall_app in Hx as [Hxl Hxk].
      split; [by constructor|]. split; [done|]. intros y z [->|Hy]%elem_of_cons Hz; [|by apply Hlk].
      rewrite Forall_forall in Hxk. by apply Hxk.
    + intros (Hf & Hk & Hlk). inversion Hf as [|? ? Hx Hf']; subst. constructor.
      * apply Forall_app. split; [done|]. apply Forall_forall. intros z Hz. apply Hlk; [by left|done].
      * apply IH. split; [done|]. split; [done|]. intros y z Hy Hz. apply Hlk; [by right|done].
Qed.

Lemma ForallOrdPairs_perm {A} (R : A → A → Prop) l k :
  (∀ x y, R x y → R y x) → l ≡ₚ k → ForallOrdPairs R l → ForallOrdPairs R k.
Proof.
  intros Hsym Hp. induction Hp as [|x l k Hp IH|x y l|l k m _ IH1 _ IH2]; intros Hf; [done| | |auto].
  - inversion Hf as [|? ? Hx Hf']; subst. constructor; [|by apply IH]. by rewrite <- Hp.
  - inversion Hf as [|? ? Hy Hf']; subst. inversion Hf' as [|? ? Hx Hf'']; subst. inversion Hy as [|? ? Hyx Hy']; subst.
    constructor; [constructor; [by apply Hsym|done]|]. by constructor.
Qed.

Lemma ForallOrdPairs_weaken {A} (R Q : A → A → Prop) l : (∀ x y, R x y → Q x y) → ForallOrdPairs R l → ForallOrdPairs Q l.
Proof. intros HRQ. induction 1; constructor; [|done]. eapply Forall_impl; eauto. Qed.

Lemma ForallOrdPairs_filter {A} (R : A → A → Prop) (P : A → Prop) `{!∀ x, Decision (P x)} l : ForallOrdPairs R l → ForallOrdPairs R (filter P l).
Proof.
  induction 1 as [|x l Hx _ IH]; [constructor|]. rewrite filter_cons. case_decide; [|done]. constructor; [|done].
  rewrite Forall_forall in *. intros y [_ Hy]%list_elem_of_filter. auto.
Qed.

Lemma Exists_perm {A} (P : A → Prop) l k : l ≡ₚ k → Exists P l ↔ Exists P k.
Proof. intros Hp. rewrite !Exists_exists. by setoid_rewrite Hp. Qed.

Section Blocks.
Context {B : Type} (w : Z) (key : B → Z) (sub : B → list Z).
Hypothesis w_nonneg : 0 ≤ w.

Definition good (b : B) : Prop := Forall (in_u w) (sub b) ∧ NoDup (sub b).
Definition blocks (bs : list B) : list Z := bs ≫= λ b, shift w (key b) (sub b).

(** Of two blocks with the same key the second has [E]. *)
Definition second (E : B → Prop) (bs : list B) : Prop := ForallOrdPairs (λ b c, key b = key c → E c) bs.
Definition uniq : list B → Prop := second (λ c, sub c = []).
(** No block with items shares its key. *)
Definition tame (bs : list B) : Prop := ForallOrdPairs (λ b c, key b = key c → sub b = [] ∧ sub c = []) bs.

Definition key_less (b c : B) : bool := key b <? key c.

#[export] Instance key_less_sw : StrictWeak key_less.
Proof. unfold key_less. split; intros; rewrite ?Z.ltb_ge, ?Z.ltb_lt in *; lia. Qed.

Lemma elem_of_blocks bs y :
  Forall good bs → y ∈ blocks bs ↔ ∃ b, b ∈ bs ∧ key b = y / 2 ^ w ∧ y mod 2 ^ w ∈ sub b.
Proof.
  intros Hg. unfold blocks. rewrite list_elem_of_bind. rewrite Forall_forall in Hg. split.
  - intros (b & Hy & Hb). destruct (Hg _ Hb) as [Hu _]. apply elem_of_shift in Hy as [? ?]; [|done|done]. eauto.
  - intros (b & Hb & Hk & Hy). destruct (Hg _ Hb) as [Hu _]. exists b. split; [|done]. by apply elem_of_shift.
Qed.

Lemma blocks_perm bs bs' : bs ≡ₚ bs' → blocks bs ≡ₚ blocks bs'.
Proof. intros Hp. unfold blocks. by rewrite Hp. Qed.

Lemma tame_perm bs bs' : bs ≡ₚ bs' → tame bs → tame bs'.
Proof. intros Hp. apply ForallOrdPairs_perm; [|done]. intros b c Hbc Hk. destruct (Hbc (eq_sym Hk)). done. Qed.

Lemma tame_uniq bs : tame bs → uniq bs.
Proof.
  unfold uniq, second. induction 1 as [|b bs Hb _ IH]; constructor; [|done]. eapply Forall_impl; [exact Hb|]. cbn. intros c Hc Hk. by apply Hc.
Qed.

Lemma shift_NoDup k l : NoDup l → NoDup (shift w k l).
Proof. apply NoDup_fmap_2. intros x y. lia. Qed.

Lemma blocks_NoDup bs : Forall good bs → uniq bs → NoDup (blocks bs).
Proof.
  unfold uniq, second. intros Hg Hu. induction Hu as [|b bs Hb _ IH]; [constructor|]. inversion Hg as [|? ? [Hbu Hbn] Hg']; subst.
  unfold blocks. cbn [mbind list_bind]. apply NoDup_app. split; [by apply shift_NoDup|]. split; [|by apply IH].
  intros y Hy Hy'. apply elem_of_shift in Hy as [Hk Hy]; [|done|done]. fold (blocks bs) in Hy'.
  apply elem_of_blocks in Hy' as (c & Hc & Hk' & Hyc); [|done]. rewrite Forall_forall in Hb. rewrite (Hb c Hc) in Hyc by lia.
  by apply elem_of_nil in Hyc.
Qed.

Lemma length_blocks bs : length (blocks bs) = sum_list (length ∘ sub <$> bs).
Proof.
  induction bs as [|b bs IH]; [done|]. unfold blocks. cbn [mbind list_bind]. rewrite length_app. fold (blocks bs). rewrite IH.
  unfold shift. by rewrite length_fmap.
Qed.

(** Listed block by block, the items come sorted. *)
Lemma blocks_sorted bs :
  Forall good bs → Forall (λ b, StronglySorted Z.lt (sub b)) bs → uniq bs → in_order key_less bs → StronglySorted Z.lt (blocks bs).
Proof.
  unfold uniq, second, in_order. intros Hg Hs Hu Ho. induction Hu as [|b bs Hb _ IH]; [constructor|].
  inversion Hg as [|? ? [Hbu Hbn] Hg']; subst. inversion Hs as [|? ? Hsb Hs']; subst. inversion Ho as [|? ? Ho' Hob]; subst.
  specialize (IH Hg' Hs' Ho'). unfold blocks. cbn [mbind list_bind]. fold (blocks bs). pose proof (Z.pow_pos_nonneg 2 w).
  apply (StronglySorted_app_lt _ _ ((key b + 1) * 2 ^ w)); [by apply sorted_shift|done| |].
  - apply Forall_fmap. eapply Forall_impl; [exact Hbu|]. cbn. unfold in_u. nia.
  - apply Forall_forall. intros y Hy. apply elem_of_blocks in Hy as (c & Hc & Hk & Hyc); [|done]. rewrite Forall_forall in Hb, Hob.
    specialize (Hob c Hc). unfold key_less in Hob. apply Z.ltb_ge in Hob. destruct (decide (key b = key c)) as [He|Hne].
    { rewrite (Hb c Hc He) in Hyc. by apply elem_of_nil in Hyc. }
    pose proof (Z.div_mod y (2 ^ w)). pose proof (Z.mod_pos_bound y (2 ^ w)). nia.
Qed.

(** The first block with a key decides. *)
Lemma first_block bs y :
  Forall good bs → uniq bs →
  y ∈ blocks bs ↔ match list_find (λ b, key b = y / 2 ^ w) bs with Some (_, b) => y mod 2 ^ w ∈ sub b | None => False end.
Proof.
  intros Hg Hu. rewrite elem_of_blocks by done. destruct (list_find _ _) as [[i b]|] eqn:E.
  - apply list_find_Some in E as (Hi & Hk & Hbefore). split; [|by intros Hy; exists b; split; [by eapply list_elem_of_lookup_2|]].
    intros (c & Hc & Hkc & Hyc). apply list_elem_of_lookup_1 in Hc as [j Hj]. destruct (decide (i = j)) as [->|Hij]; [congruence|].
    assert (i < j)%nat by (destruct (decide (j < i)%nat); [exfalso; by eapply Hbefore|lia]). exfalso.
    rewrite <- (take_drop_middle _ _ _ Hi) in Hu. apply ForallOrdPairs_app in Hu as (_ & Hu & _). inversion Hu as [|? ? Hb _]; subst.
    rewrite Forall_forall in Hb. rewrite (Hb c) in Hyc; [by apply elem_of_nil in Hyc| |lia].
    apply (list_elem_of_lookup_2 _ (j - S i)). rewrite lookup_drop. by replace (S i + (j - S i))%nat with j by lia.
  - apply list_find_None in E. split; [|done]. intros (b & Hb & Hk & _). rewrite Forall_forall in E. by eapply E.
Qed.
End Blocks.

(** ** The walks as relations *)
Section Ascending.
Context {B : Type} (key : B → Z).
Notation ascending := (in_order (key_less key)).

Lemma ascending_cons b bs : ascending (b :: bs) ↔ ascending bs ∧ ∀ c, c ∈ bs → key b ≤ key c.
Proof.
  unfold in_order, key_less. split.
  - intros Ho. inversion Ho as [|? ? Ho' Hb]; subst. split; [done|]. rewrite Forall_forall in Hb. intros c Hc. apply Z.ltb_ge. by apply Hb.
  - intros [Ho Hb]. constructor; [done|]. apply Forall_forall. intros c Hc. apply Z.ltb_ge. by apply Hb.
Qed.

Lemma second_cons (E : B → Prop) b bs : second key E (b :: bs) ↔ (∀ c, c ∈ bs → key b = key c → E c) ∧ second key E bs.
Proof.
  unfold second. split.
  - intros Ho. inversion Ho as [|? ? Hb Ho']; subst. rewrite Forall_forall in Hb. done.
  - intros [Hb Ho]. constructor; [|done]. by apply Forall_forall.
Qed.

End Ascending.

Section Walks.
Context {B : Type} (key : B → Z) (both : B → B → B) (copy : B → B).

Notation ascending := (in_order (key_less key)).

Definition below_head (k : Z) (bs : list B) : Prop := match bs with b :: _ => k < key b | [] => True end.

Inductive uwalk : list B → list B → list B → list B → Prop :=
  | uw_done bs : uwalk bs [] bs []
  | uw_old b bs a l old new : key b < key a → uwalk bs (a :: l) old new → uwalk (b :: bs) (a :: l) (b :: old) new
  | uw_new bs a l old new : below_head (key a) bs → uwalk bs l old new → uwalk bs (a :: l) old (copy a :: new)
  | uw_both b bs a l old new : key b = key a → uwalk bs l old new → uwalk (b :: bs) (a :: l) (both b a :: old) new.

Lemma union_walk_uwalk bs l : let r := union_walk key key both copy bs l in uwalk bs l (fst r) (snd r).
Proof.
  cbn zeta. revert l. induction bs as [|b bs IHb]; intros l; (induction l as [|a l IHl]; [constructor|]).
  - assert (E : union_walk key key both copy [] (a :: l) = let (old, new) := union_walk key key both copy [] l in (old, copy a :: new)) by done.
    rewrite E. destruct (union_walk _ _ _ _ [] l) as [old new]. by constructor.
  - assert (E : union_walk key key both copy (b :: bs) (a :: l) =
      if key b <? key a then let (old, new) := union_walk key key both copy bs (a :: l) in (b :: old, new)
      else if key a <? key b then let (old, new) := union_walk key key both copy (b :: bs) l in (old, copy a :: new)
      else let (old, new) := union_walk key key both copy bs l in (both b a :: old, new)) by done.
    rewrite E. destruct (Z.ltb_spec (key b) (key a)).
    { specialize (IHb (a :: l)). destruct (union_walk _ _ _ _ bs (a :: l)) as [old new]. by constructor. }
    destruct (Z.ltb_spec (key a) (key b)).
    { destruct (union_walk _ _ _ _ (b :: bs) l) as [old new]. by constructor. }
    specialize (IHb l). destruct (union_walk _ _ _ _ bs l) as [old new]. constructor; [lia|done].
Qed.

(** *** Unions *)

Lemma uwalk_mem bs l old new :
  uwalk bs l old new →
  (∀ c, c ∈ old → ∃ b, b ∈ bs ∧ (c = b ∨ ∃ a, a ∈ l ∧ key a = key b ∧ c = both b a)) ∧ (∀ c, c ∈ new → ∃ a, a ∈ l ∧ c = copy a).
Proof.
  induction 1 as [bs|b bs a l old new Hk _ [IHo IHn]|bs a l old new Hk _ [IHo IHn]|b bs a l old new Hk _ [IHo IHn]].
  - split; [eauto|]. intros c Hc. by apply elem_of_nil in Hc.
  - split; [|done]. intros c [->|Hc]%elem_of_cons; [exists b; split; [by left|by left]|]. destruct (IHo _ Hc) as (b' & Hb' & Hor).
    exists b'. split; [by right|done].
  - split; intros c Hc.
    + destruct (IHo _ Hc) as (b' & Hb' & [->|(a' & ? & ? & ?)]); exists b'; (split; [done|]); [by left|]. right. exists a'. split; [by right|done].
    + apply elem_of_cons in Hc as [->|Hc]; [exists a; split; [by left|done]|]. destruct (IHn _ Hc) as (a' & ? & ?). exists a'. split; [by right|done].
  - split; intros c Hc.
    + apply elem_of_cons in Hc as [->|Hc].
      * exists b. split; [by left|]. right. exists a. split; [by left|done].
      * destruct (IHo _ Hc) as (b' & Hb' & [->|(a' & ? & ? & ?)]); exists b'; (split; [by right|]); [by left|]. right. exists a'. split; [by right|done].
    + destruct (IHn _ Hc) as (a' & ? & ?). exists a'. split; [by right|done].
Qed.

Lemma uwalk_Forall (G : B → Prop) bs l old new :
  uwalk bs l old new → Forall G bs → Forall G l → (∀ a, G a → G (copy a)) → (∀ b a, G b → G a → key a = key b → G (both b a)) →
  Forall G (old ++ new).
Proof.
  intros Hwk Hb Ha Hcopy Hboth. destruct (uwalk_mem _ _ _ _ Hwk) as [Ho Hn]. rewrite Forall_forall in Hb, Ha. apply Forall_app.
  split; apply Forall_forall; intros c Hc.
  - destruct (Ho _ Hc) as (b & ? & [->|(a & ? & ? & ->)]); auto.
  - destruct (Hn _ Hc) as (a & ? & ->). auto.
Qed.

Lemma uwalk_exists (G P : B → Prop) bs l old new :
  uwalk bs l old new → Forall G bs → Forall G l → (∀ a, G a → P (copy a) ↔ P a) →
  (∀ b a, G b → G a → key a = key b → P (both b a) ↔ P b ∨ P a) →
  Exists P (old ++ new) ↔ Exists P bs ∨ Exists P l.
Proof.
  intros Hwk Hb Ha Hcopy Hboth. rewrite Exists_app.
  induction Hwk as [bs|b bs a l old new Hk _ IH|bs a l old new Hk _ IH|b bs a l old new Hk _ IH]; rewrite ?Exists_cons, ?Exists_nil in *.
  - tauto.
  - inversion Hb; subst. specialize (IH ltac:(done) Ha). tauto.
  - inversion Ha as [|? ? Hga Ha']; subst. specialize (IH Hb ltac:(done)). rewrite (Hcopy a Hga). tauto.
  - inversion Ha as [|? ? Hga Ha']; subst. inversion Hb as [|? ? Hgb Hb']; subst. specialize (IH ltac:(done) ltac:(done)).
    rewrite (Hboth b a Hgb Hga) by done. tauto.
Qed.

Lemma uwalk_second (G E : B → Prop) bs l old new :
  uwalk bs l old new → Forall G bs → Forall G l → ascending bs → ascending l → second key E bs → second key E l →
  (∀ a, key (copy a) = key a) → (∀ b a, key (both b a) = key b) → (∀ a, E a → E (copy a)) → (∀ b a, G b → G a → E b → E a → E (both b a)) →
  second key E (old ++ new).
Proof.
  intros Hwk Gb Ga Hb Ha Eb Ea Kc Kb Ec Eboth.
  induction Hwk as [bs|b bs a l old new Hk Hwk IH|bs a l old new Hk Hwk IH|b bs a l old new Hk Hwk IH].
  - by rewrite app_nil_r.
  - apply ascending_cons in Hb as [Hb Hbk]. apply second_cons in Eb as [Eb Ebs]. cbn [app]. apply second_cons.
    split; [|by inversion Gb; subst; apply IH]. apply ascending_cons in Ha as [_ Hak]. destruct (uwalk_mem _ _ _ _ Hwk) as [Ho Hn]. intros c [Hc|Hc]%elem_of_app Hkc.
    + destruct (Ho _ Hc) as (b' & Hb' & [->|(a' & Ha' & Hka & ->)]); [by apply Eb|]. rewrite Kb in Hkc.
      apply elem_of_cons in Ha' as [->|Ha']; [lia|]. specialize (Hak _ Ha'). lia.
    + destruct (Hn _ Hc) as (a' & Ha' & ->). rewrite Kc in Hkc. apply elem_of_cons in Ha' as [->|Ha']; [lia|]. specialize (Hak _ Ha'). lia.
  - apply ascending_cons in Ha as [Ha Hak]. apply second_cons in Ea as [Ea Eas]. apply Forall_cons in Ga as [Ga1 Ga]. specialize (IH Gb Ga Hb Ha Eb Eas).
    unfold second in *. apply ForallOrdPairs_app in IH as (Io & In & Ion). apply ForallOrdPairs_app. destruct (uwalk_mem _ _ _ _ Hwk) as [Ho Hn].
    split; [done|]. split.
    + apply second_cons. split; [|done]. intros c Hc Hkc. destruct (Hn _ Hc) as (a' & Ha' & ->). rewrite !Kc in Hkc. apply Ec. by apply Ea.
    + intros x y Hx [->|Hy]%elem_of_cons; [|by apply Ion]. intros Hkx. rewrite Kc in Hkx. exfalso.
      destruct bs as [|b bs]; [destruct (Ho _ Hx) as (? & Hn' & _); by apply elem_of_nil in Hn'|]. cbn in Hk. apply ascending_cons in Hb as [_ Hbk].
      assert (Hge : ∀ b', b' ∈ b :: bs → key a < key b') by (intros b' [->|Hb']%elem_of_cons; [done|specialize (Hbk _ Hb'); lia]).
      destruct (Ho _ Hx) as (b' & Hb' & [->|(a' & _ & _ & ->)]); specialize (Hge _ Hb'); rewrite ?Kb in Hkx; lia.
  - apply ascending_cons in Hb as [Hb Hbk], Ha as [Ha Hak]. apply second_cons in Eb as [Eb Ebs], Ea as [Ea Eas]. cbn [app].
    apply Forall_cons in Gb as [Gb1 Gb], Ga as [Ga1 Ga]. apply second_cons. split; [|by apply IH]. rewrite Forall_forall in Gb, Ga. destruct (uwalk_mem _ _ _ _ Hwk) as [Ho Hn]. rewrite Kb. intros c [Hc|Hc]%elem_of_app Hkc.
    + destruct (Ho _ Hc) as (b' & Hb' & [->|(a' & Ha' & Hka & ->)]); [by apply Eb|]. rewrite Kb in Hkc. apply Eboth; [by apply Gb|by apply Ga|by apply Eb|].
      apply Ea; [done|lia].
    + destruct (Hn _ Hc) as (a' & Ha' & ->). rewrite Kc in Hkc. apply Ec, Ea; [done|lia].
Qed.

End Walks.

(** *** Intersections *)

Section IWalk.
Context {B : Type} (key : B → Z) (both : B → B → B) (zero : B → B).

Notation ascending := (in_order (key_less key)).

Inductive iwalk : list B → list B → list B → Prop :=
  | iw_nil l : iwalk [] l []
  | iw_rest bs : iwalk bs [] (zero <$> bs)
  | iw_drop b bs a l r : key b < key a → iwalk bs (a :: l) r → iwalk (b :: bs) (a :: l) (zero b :: r)
  | iw_skip b bs a l r : key a < key b → iwalk (b :: bs) l r → iwalk (b :: bs) (a :: l) r
  | iw_both b bs a l r : key b = key a → iwalk bs l r → iwalk (b :: bs) (a :: l) (both b a :: r).

Lemma inter_walk_iwalk bs l : iwalk bs l (inter_walk key key both zero bs l).
Proof.
  revert l. induction bs as [|b bs IHb]; intros l; [destruct l; constructor|]. induction l as [|a l IHl]; [constructor|].
  assert (E : inter_walk key key both zero (b :: bs) (a :: l) =
    if key b <? key a then zero b :: inter_walk key key both zero bs (a :: l)
    else if key a <? key b then inter_walk key key both zero (b :: bs) l
    else both b a :: inter_walk key key both zero bs l) by done.
  rewrite E. destruct (Z.ltb_spec (key b) (key a)); [by constructor|]. destruct (Z.ltb_spec (key a) (key b)); [by constructor|].
  constructor; [lia|done].
Qed.

Lemma iwalk_mem bs l r c :
  iwalk bs l r → c ∈ r → (∃ b, b ∈ bs ∧ c = zero b) ∨ ∃ b a, b ∈ bs ∧ a ∈ l ∧ key a = key b ∧ c = both b a.
Proof.
  intros Hwk Hc. induction Hwk as [l|bs|b bs a l r Hk _ IH|b bs a l r Hk _ IH|b bs a l r Hk _ IH].
  - by apply elem_of_nil in Hc.
  - apply list_elem_of_fmap in Hc as (b & -> & Hb). eauto.
  - apply elem_of_cons in Hc as [->|Hc]; [left; exists b; split; [by left|done]|].
    destruct (IH Hc) as [(b' & ? & ->)|(b' & a' & ? & ? & ? & ->)]; [left; exists b'; split; [by right|done]|].
    right. exists b', a'. split; [by right|done].
  - destruct (IH Hc) as [?|(b' & a' & ? & ? & ? & ->)]; [by left|]. right. exists b', a'. split; [done|]. split; [by right|done].
  - apply elem_of_cons in Hc as [->|Hc]; [right; exists b, a; split; [by left|]; split; [by left|done]|].
    destruct (IH Hc) as [(b' & ? & ->)|(b' & a' & ? & ? & ? & ->)]; [left; exists b'; split; [by right|done]|].
    right. exists b', a'. split; [by right|]. split; [by right|done].
Qed.

Lemma iwalk_keys bs l r :
  iwalk bs l r → (∀ b, key (zero b) = key b) → (∀ b a, key (both b a) = key b) → key <$> r = key <$> bs.
Proof.
  intros Hwk Kz Kb. induction Hwk as [l|bs|b bs a l r Hk _ IH|b bs a l r Hk _ IH|b bs a l r Hk _ IH]; cbn [fmap list_fmap] in *; [done| |..].
  - rewrite <- list_fmap_compose. apply list_fmap_ext. intros. apply Kz.
  - by rewrite Kz, IH.
  - done.
  - by rewrite Kb, IH.
Qed.

Lemma iwalk_exists (G P : B → Prop) K bs l r :
  iwalk bs l r → Forall G bs → Forall G l → ascending bs → ascending l → (∀ b, P b → key b = K) → (∀ b, ~ P (zero b)) →
  (∀ b a, G b → G a → key a = key b → P (both b a) ↔ P b ∧ P a) →
  ForallOrdPairs (λ b c, key b = key c → ~ P b ∧ ~ P c) bs → ForallOrdPairs (λ b c, key b = key c → ~ P b ∧ ~ P c) l →
  Exists P r ↔ Exists P bs ∧ Exists P l.
Proof.
  intros Hwk Gb Ga Hb Ha HK Hz Hboth Tb Ta.
  induction Hwk as [l|bs|b bs a l r Hk _ IH|b bs a l r Hk _ IH|b bs a l r Hk _ IH]; rewrite ?Exists_cons, ?Exists_nil in *.
  - tauto.
  - rewrite Exists_fmap. split; [|tauto]. intros (b & _ & Hb')%Exists_exists. by apply Hz in Hb'.
  - inversion Gb as [|? ? Gb1 Gbs]; subst. inversion Tb as [|? ? Tb1 Tbs]; subst. apply ascending_cons in Hb as [Hb Hbk].
    rewrite (IH Gbs Ga Hb Ha Tbs Ta). assert (P b → ~ (P a ∨ Exists P l)); [|pose proof (Hz b); tauto].
    intros HPb Hor. pose proof (HK b HPb). apply ascending_cons in Ha as [_ Hak].
    destruct Hor as [HPa|(c & Hc & HPc)%Exists_exists]; [specialize (HK a HPa); lia|]. specialize (HK c HPc). specialize (Hak c Hc). lia.
  - inversion Ga as [|? ? Ga1 Gas]; subst. inversion Ta as [|? ? Ta1 Tas]; subst. apply ascending_cons in Ha as [Ha Hak].
    rewrite (IH Gb Gas Hb Ha Tb Tas). assert (P a → ~ (P b ∨ Exists P bs)); [|tauto].
    intros HPa Hor. pose proof (HK a HPa). apply ascending_cons in Hb as [_ Hbk].
    destruct Hor as [HPb|(c & Hc & HPc)%Exists_exists]; [specialize (HK b HPb); lia|]. specialize (HK c HPc). specialize (Hbk c Hc). lia.
  - inversion Gb as [|? ? Gb1 Gbs]; subst. inversion Tb as [|? ? Tb1 Tbs]; subst. apply ascending_cons in Hb as [Hb Hbk].
    inversion Ga as [|? ? Ga1 Gas]; subst. inversion Ta as [|? ? Ta1 Tas]; subst. apply ascending_cons in Ha as [Ha Hak].
    rewrite (IH Gbs Gas Hb Ha Tbs Tas), (Hboth b a Gb1 Ga1) by done. rewrite Forall_forall in Tb1, Ta1.
    assert (P b → ~ Exists P l).
    { intros HPb (c & Hc & HPc)%Exists_exists. destruct (Ta1 c Hc) as [_ Hn]; [|done]. rewrite <- Hk, (HK b HPb), (HK c HPc). done. }
    assert (P a → ~ Exists P bs); [|tauto].
    intros HPa (c & Hc & HPc)%Exists_exists. destruct (Tb1 c Hc) as [_ Hn]; [|done]. rewrite Hk, (HK a HPa), (HK c HPc). done.
Qed.

(** Cleared blocks may move down to a smaller key. *)
Lemma iwalk_second (G E : B → Prop) bs l r :
  iwalk bs l r → Forall G bs → Forall G l → ascending bs → second key E bs → (∀ b, G b → key (zero b) ≤ key b) →
  (∀ b a, key (both b a) = key b) → (∀ b, E (zero b)) → (∀ b a, G b → G a → E b → E (both b a)) → second key E r.
Proof.
  intros Hwk Gb Ga Hb Eb Kz Kb Ez Eboth.
  assert (Htail : ∀ bs l r b h, iwalk bs l r → Forall G bs → Forall G l → (∀ c, c ∈ bs → key b ≤ key c) → (∀ c, c ∈ bs → key b = key c → E c) →
    key h ≤ key b → ∀ c, c ∈ r → key h = key c → E c).
  { clear -Kb Ez Eboth. intros bs l r b h Hwk Gb Ga Hge Hse Hh c Hc Hkc. rewrite Forall_forall in Gb, Ga.
    destruct (iwalk_mem _ _ _ _ Hwk Hc) as [(b' & _ & ->)|(b' & a' & Hb' & Ha' & _ & ->)]; [apply Ez|]. rewrite Kb in Hkc.
    specialize (Hge b' Hb'). apply Eboth; [by apply Gb|by apply Ga|]. apply Hse; [done|lia]. }
  induction Hwk as [l|bs|b bs a l r Hk Hwk IH|b bs a l r Hk Hwk IH|b bs a l r Hk Hwk IH].
  - constructor.
  - clear -Ez. induction bs as [|b bs IHz]; [constructor|]. cbn [fmap list_fmap]. apply second_cons. split; [|done].
    intros c (b' & -> & _)%list_elem_of_fmap _. apply Ez.
  - apply Forall_cons in Gb as [Gb1 Gb]. apply ascending_cons in Hb as [Hb Hbk]. apply second_cons in Eb as [Eb Ebs].
    apply second_cons. split; [|by apply IH]. eapply Htail; [exact Hwk|done|done|done|done|]. by apply Kz.
  - apply Forall_cons in Ga as [Ga1 Ga]. by apply IH.
  - apply Forall_cons in Gb as [Gb1 Gb], Ga as [Ga1 Ga]. apply ascending_cons in Hb as [Hb Hbk]. apply second_cons in Eb as [Eb Ebs].
    apply second_cons. split; [|by apply IH]. eapply Htail; [exact Hwk|done|done|done|done|]. rewrite Kb. lia.
Qed.
End IWalk.
