(* ===== verification/U64Half.v ===== *)
(** * The 32-bit buckets of a uint64set

    A [bucket32] is a finite set of 32-bit numbers, [els32]: the binary search over the sorted
    list of high halves (and the hint that spares it) finds the entry of a number, and every
    operation keeps the list sorted and does to the set what its name says. *)

From stdpp Require Import gmap sorting.
From S2P Require Import Prelude GoSort U64Set U64Bucket U64Blocks.

(** ** The binary search *)

Lemma sorted_lookup (l : list Z) i j v u : StronglySorted Z.lt l → (i < j)%nat → l !! i = Some v → l !! j = Some u → v < u.
Proof.
  intros Hs. revert i j. induction Hs as [|x l _ IH Hx]; intros i j Hij Hi Hj; [done|]. destruct j as [|j]; [lia|]. cbn in Hj.
  destruct i as [|i]; cbn in Hi; [|by apply (IH i j); [lia|..]]. injection Hi as ->. rewrite Forall_forall in Hx.
  apply Hx. by eapply list_elem_of_lookup_2.
Qed.

Definition search_point (his : list Z) (x : Z) (n : nat) : Prop :=
  (n ≤ length his)%nat ∧ (∀ i v, (i < n)%nat → his !! i = Some v → v < x) ∧ (∀ i v, (n ≤ i)%nat → his !! i = Some v → x ≤ v).

Lemma search16_loop_spec fuel his x i j :
  StronglySorted Z.lt his → (j - i ≤ fuel)%nat → (i ≤ j ≤ length his)%nat →
  (∀ k v, (k < i)%nat → his !! k = Some v → v < x) → (∀ k v, (j ≤ k)%nat → his !! k = Some v → x ≤ v) →
  search_point his x (search16_loop fuel his x i j).
Proof.
  intros Hs. revert i j. induction fuel as [|fuel IH]; intros i j Hf Hij Hlt Hge; cbn [search16_loop].
  { assert (i = j) as -> by lia. split; [lia|done]. }
  destruct (Nat.ltb_spec i j); [|assert (i = j) as -> by lia; split; [lia|done]].
  pose proof (Nat.div_mod (i + j) 2). pose proof (Nat.mod_upper_bound (i + j) 2). set (h := ((i + j) / 2)%nat) in *.
  destruct (lookup_lt_is_Some_2 his h) as [v Hv]; [lia|]. rewrite Hv. destruct (Z.ltb_spec v x).
  - apply IH; [lia|lia| |done]. intros k u Hk Hu. destruct (decide (k = h)) as [->|]; [congruence|].
    assert (u < v) by (apply (sorted_lookup his k h u v Hs); [lia|done|done]). lia.
  - apply IH; [lia|lia|done|]. intros k u Hk Hu. destruct (decide (k = h)) as [->|]; [by simplify_eq|].
    assert (v < u) by (apply (sorted_lookup his h k v u Hs); [lia|done|done]). lia.
Qed.

Lemma binarySearch16_spec his x : StronglySorted Z.lt his → search_point his x (binarySearch16 his x).
Proof.
  intros Hs. unfold binarySearch16.
  assert (Hloop : search_point his x (search16_loop (length his) his x 0 (length his))).
  { apply search16_loop_spec; [done|lia|lia| |]; intros k v Hk Hv; [lia|]. apply lookup_lt_Some in Hv. lia. }
  destruct (last his) as [v|] eqn:El; [|done]. destruct (Z.ltb_spec v x); [|done]. split; [done|]. split.
  - intros i u Hi Hu. rewrite last_lookup in El. destruct (decide (i = Nat.pred (length his))) as [->|]; [congruence|].
    assert (u < v) by (apply (sorted_lookup his i (Nat.pred (length his)) u v Hs); [lia|done|done]). lia.
  - intros i u Hi Hu. apply lookup_lt_Some in Hu. lia.
Qed.

(** ** Entries *)

Definition entry_ok (e : Z * bucket16) : Prop := in_u 16 (fst e) ∧ wf16 (snd e).
Definition wf_entries (es : list (Z * bucket16)) : Prop := StronglySorted Z.lt (fst <$> es) ∧ Forall entry_ok es.
Definition entry_items (e : Z * bucket16) : list Z := items16 (snd e).

Definition items32 (b : bucket32) : list Z := blocks 16 fst entry_items (entries b).
Definition els32 (b : bucket32) : gset Z := list_to_set (items32 b).
Definition wf32 (b : bucket32) : Prop := length (b16his b) = length (buckets16 b) ∧ wf_entries (entries b).

Lemma entry_good e : entry_ok e → good 16 entry_items e.
Proof.
  intros [_ Hwf]. split; [|by apply items16_NoDup]. apply Forall_forall. intros x Hx. apply (els16_in_u (snd e)); [done|].
  unfold els16. by rewrite elem_of_list_to_set.
Qed.
Lemma entries_good es : Forall entry_ok es → Forall (good 16 entry_items) es.
Proof. intros H. eapply Forall_impl; [exact H|]. apply entry_good. Qed.

Lemma elem_of_entries es y :
  Forall entry_ok es → y ∈ blocks 16 fst entry_items es ↔ ∃ bk, (y / 2 ^ 16, bk) ∈ es ∧ y mod 2 ^ 16 ∈ els16 bk.
Proof.
  intros Hok. rewrite elem_of_blocks by (lia || by apply entries_good). unfold els16. setoid_rewrite elem_of_list_to_set. split.
  - intros ([h bk] & He & <- & Hy). by exists bk.
  - intros (bk & He & Hy). by exists (y / 2 ^ 16, bk).
Qed.

Lemma elem_of_els32 b y : wf32 b → y ∈ els32 b ↔ ∃ bk, (y / 2 ^ 16, bk) ∈ entries b ∧ y mod 2 ^ 16 ∈ els16 bk.
Proof. intros [_ [_ Hok]]. unfold els32, items32. rewrite elem_of_list_to_set. by apply elem_of_entries. Qed.

Lemma keys_unique (es : list (Z * bucket16)) h b b' : StronglySorted Z.lt (fst <$> es) → (h, b) ∈ es → (h, b') ∈ es → b = b'.
Proof.
  intros Hs [i Hi]%list_elem_of_lookup_1 [j Hj]%list_elem_of_lookup_1.
  assert (Hi' : (fst <$> es) !! i = Some h) by (by rewrite list_lookup_fmap, Hi).
  assert (Hj' : (fst <$> es) !! j = Some h) by (by rewrite list_lookup_fmap, Hj).
  destruct (decide (i < j)%nat); [pose proof (sorted_lookup _ i j h h Hs ltac:(done) Hi' Hj'); lia|].
  destruct (decide (j < i)%nat); [pose proof (sorted_lookup _ j i h h Hs ltac:(done) Hj' Hi'); lia|].
  assert (i = j) as -> by lia. congruence.
Qed.

Lemma sorted_keys_distinct (es : list (Z * bucket16)) : StronglySorted Z.lt (fst <$> es) → ForallOrdPairs (λ d e, fst d ≠ fst e) es.
Proof.
  induction es as [|e es IH]; intros Hs; [constructor|]. inversion Hs as [|? ? Hs' He]; subst. constructor; [|by apply IH].
  apply (Forall_fmap fst) in He. eapply Forall_impl; [exact He|]. cbn. lia.
Qed.
Lemma sorted_keys_uniq es (E : Z * bucket16 → Prop) : StronglySorted Z.lt (fst <$> es) → second fst E es.
Proof. intros Hs%sorted_keys_distinct. eapply ForallOrdPairs_weaken; [|exact Hs]. by intros d e ? ?. Qed.

Lemma items32_NoDup b : wf32 b → NoDup (items32 b).
Proof. intros [_ [Hs Hok]]. apply blocks_NoDup; [lia|by apply entries_good|by apply sorted_keys_uniq]. Qed.

Lemma els32_in_u b y : wf32 b → y ∈ els32 b → in_u 32 y.
Proof.
  intros Hwf Hy. apply elem_of_els32 in Hy as (bk & He & Hy); [|done]. destruct Hwf as [_ [_ Hok]]. rewrite Forall_forall in Hok.
  destruct (Hok _ He) as [Hh _]. unfold in_u in *. cbn [fst] in Hh. pose proof (Z.div_mod y (2 ^ 16)). pose proof (Z.mod_pos_bound y (2 ^ 16)). lia.
Qed.

Lemma fold_sum {A} (f : A → Z) l n : foldl (λ n x, n + f x) n l = n + foldr (λ x n, f x + n) 0 l.
Proof. revert n. induction l as [|x l IH]; intros n; cbn [foldl foldr]; [lia|]. rewrite IH. lia. Qed.

Lemma buckets16_entries b : length (b16his b) = length (buckets16 b) → buckets16 b = snd <$> entries b ∧ b16his b = fst <$> entries b.
Proof. intros Hl. unfold entries. split; [by rewrite snd_zip by lia|by rewrite fst_zip by lia]. Qed.

Lemma getLen32_size b : wf32 b → getLen32 b = Z.of_nat (size (els32 b)).
Proof.
  intros Hwf. unfold els32. rewrite size_list_to_set by (by apply items32_NoDup). destruct Hwf as [Hl [_ Hok]].
  unfold getLen32, items32. rewrite fold_sum, length_blocks. rewrite (proj1 (buckets16_entries b Hl)).
  clear Hl. induction Hok as [|e es [_ He] _ IH]; [done|]. cbn [fmap list_fmap foldr sum_list]. rewrite getLen16_size by done.
  unfold els16. rewrite size_list_to_set by (by apply items16_NoDup). cbn [sum_list] in *. unfold compose, entry_items, id in *. lia.
Qed.

(** ** Finding and replacing an entry *)

Lemma wf32_lookup b n h : wf32 b → b16his b !! n = Some h → ∃ bk, buckets16 b !! n = Some bk ∧ entries b !! n = Some (h, bk).
Proof.
  intros [Hl _] Hn. destruct (lookup_lt_is_Some_2 (buckets16 b) n) as [bk Hbk]; [rewrite <- Hl; by eapply lookup_lt_Some|].
  exists bk. split; [done|]. unfold entries. apply lookup_zip_with_Some. eauto.
Qed.

Lemma search_found b h n :
  wf32 b → n = binarySearch16 (b16his b) h → b16his b !! n ≠ Some h → ∀ bk, (h, bk) ∉ entries b.
Proof.
  intros [Hl [Hs _]] Hn Hne bk [i Hi]%list_elem_of_lookup_1. rewrite <- (proj2 (buckets16_entries b Hl)) in Hs.
  destruct (binarySearch16_spec _ h Hs) as (_ & Hlt & Hge). rewrite <- Hn in *.
  assert (Hi' : b16his b !! i = Some h) by (rewrite (proj2 (buckets16_entries b Hl)), list_lookup_fmap, Hi; done).
  destruct (decide (i < n)%nat) as [Hin|Hin]; [specialize (Hlt i h Hin Hi'); lia|].
  destruct (decide (i = n)) as [->|]; [done|]. destruct (lookup_lt_is_Some_2 (b16his b) n) as [v Hv]; [apply lookup_lt_Some in Hi'; lia|].
  specialize (Hge n v ltac:(lia) Hv). pose proof (sorted_lookup _ n i v h Hs ltac:(lia) Hv Hi'). lia.
Qed.

(** [es'] is [es] with the entry of [h] replaced by, or added with, [bk]. *)
Definition put (es : list (Z * bucket16)) (h : Z) (bk : bucket16) (es' : list (Z * bucket16)) : Prop :=
  wf_entries es' ∧ (h, bk) ∈ es' ∧ ∀ h' bk', h' ≠ h → (h', bk') ∈ es' ↔ (h', bk') ∈ es.

Lemma put_els es h bk es' y :
  Forall entry_ok es → put es h bk es' →
  y ∈ blocks 16 fst entry_items es' ↔ if decide (y / 2 ^ 16 = h) then y mod 2 ^ 16 ∈ els16 bk else y ∈ blocks 16 fst entry_items es.
Proof.
  intros Hok ([Hs Hok'] & Hin & Hout). rewrite elem_of_entries by done. case_decide as Hh.
  - subst h. split; [|eauto]. intros (bk' & Hbk' & Hy). by rewrite (keys_unique _ _ _ _ Hs Hin Hbk').
  - rewrite elem_of_entries by done. by setoid_rewrite (Hout _ _ Hh).
Qed.

Lemma zip_insert_snd {A C} (l : list A) (k : list C) n (c : C) : zip l (<[n := c]> k) = match l !! n with Some a => <[n := (a, c)]> (zip l k) | None => zip l k end.
Proof.
  revert k n. induction l as [|a l IH]; intros k n; [done|]. destruct k as [|d k], n as [|n]; [done|by destruct (_ !! _)|done|].
  cbn [zip_with]. change (<[S n := c]> (d :: k)) with (d :: <[n := c]> k). cbn [zip_with lookup list_lookup]. rewrite IH. by destruct (l !! n).
Qed.

Lemma put_set16 b n h bk bk' hint :
  wf32 b → entries b !! n = Some (h, bk) → wf16 bk' →
  wf32 (set16 b n bk' hint) ∧ put (entries b) h bk' (entries (set16 b n bk' hint)).
Proof.
  intros [Hl [Hs Hok]] Hn Hbk'. assert (Hh : b16his b !! n = Some h).
  { rewrite (proj2 (buckets16_entries b Hl)), list_lookup_fmap, Hn. done. }
  assert (Hln := lookup_lt_Some _ _ _ Hn).
  assert (He : entries (set16 b n bk' hint) = <[n := (h, bk')]> (entries b)) by (unfold entries, set16; cbn; by rewrite zip_insert_snd, Hh).
  assert (Hin : in_u 16 h) by (rewrite Forall_lookup in Hok; by destruct (Hok _ _ Hn)).
  assert (Hwf : wf_entries (<[n := (h, bk')]> (entries b))).
  { split; [|by apply Forall_insert]. rewrite list_fmap_insert. cbn. rewrite list_insert_id; [done|]. by rewrite list_lookup_fmap, Hn. }
  split; [split; [by cbn; rewrite length_insert|by rewrite He]|]. rewrite He. split; [done|]. split.
  - apply (list_elem_of_lookup_2 _ n). by apply list_lookup_insert_eq.
  - intros h' bk'' Hne. rewrite !list_elem_of_lookup. apply exist_proper. intros i. destruct (decide (i = n)) as [->|Hi].
    + rewrite list_lookup_insert_eq, Hn by done. split; congruence.
    + by rewrite list_lookup_insert_ne.
Qed.

Lemma zip_take {A C} n (l : list A) (k : list C) : zip (take n l) (take n k) = take n (zip l k).
Proof. revert n k. induction l as [|a l IH]; intros [|n] [|c k]; cbn; f_equal; auto. Qed.
Lemma zip_drop {A C} n (l : list A) (k : list C) : length l = length k → zip (drop n l) (drop n k) = drop n (zip l k).
Proof. revert n k. induction l as [|a l IH]; intros [|n] [|c k] Hl; cbn in *; try lia; [done..|]. apply IH. lia. Qed.

Lemma sorted_insert_at (his : list Z) h n :
  StronglySorted Z.lt his → search_point his h n → h ∉ his → StronglySorted Z.lt (take n his ++ h :: drop n his).
Proof.
  intros Hs (Hle & Hlt & Hge) Hnot. pose proof Hs as Hs'. rewrite <- (take_drop n his) in Hs'.
  apply (StronglySorted_app_lt _ _ h); [by eapply StronglySorted_app_1_l|constructor; [by eapply StronglySorted_app_1_r|]| |].
  - apply Forall_forall. intros v Hv. assert (v ≠ h) by (intros ->; apply Hnot; rewrite <- (take_drop n his), elem_of_app; by right).
    apply list_elem_of_lookup_1 in Hv as [i Hi]. rewrite lookup_drop in Hi. apply Hge in Hi; lia.
  - apply Forall_forall. intros v [i Hi]%list_elem_of_lookup_1. apply lookup_take_Some in Hi as [Hi Hin]. by eapply Hlt.
  - constructor; [lia|]. apply Forall_forall. intros v [i Hi]%list_elem_of_lookup_1. rewrite lookup_drop in Hi. apply Hge in Hi; lia.
Qed.

Lemma put_addBucketAtPos b h n bk :
  wf32 b → in_u 16 h → wf16 bk → n = binarySearch16 (b16his b) h → b16his b !! n ≠ Some h →
  wf32 (addBucketAtPos b h n bk) ∧ put (entries b) h bk (entries (addBucketAtPos b h n bk)).
Proof.
  intros Hwf Hh Hbk Hn Hne. pose proof (search_found b h n Hwf Hn Hne) as Habs. destruct Hwf as [Hl [Hs Hok]].
  assert (He : entries (addBucketAtPos b h n bk) = take n (entries b) ++ (h, bk) :: drop n (entries b)).
  { unfold addBucketAtPos, entries. bcase; cbn [b16his buckets16].
    - rewrite zip_with_app by done. cbn. rewrite take_ge, drop_ge; [done|rewrite length_zip_with; lia..].
    - rewrite zip_with_app by len. cbn [zip_with]. by rewrite zip_take, zip_drop by done. }
  assert (Hlen : length (b16his (addBucketAtPos b h n bk)) = length (buckets16 (addBucketAtPos b h n bk))).
  { unfold addBucketAtPos. bcase; cbn [b16his buckets16]; len. }
  assert (Hmem : ∀ e, e ∈ take n (entries b) ++ (h, bk) :: drop n (entries b) ↔ e = (h, bk) ∨ e ∈ entries b).
  { intros e. rewrite <- (take_drop n (entries b)) at 3. rewrite !elem_of_app, elem_of_cons. tauto. }
  assert (Hwf' : wf_entries (take n (entries b) ++ (h, bk) :: drop n (entries b))).
  { split; [|apply Forall_forall; intros e [->|He']%Hmem; [done|rewrite Forall_forall in Hok; auto]].
    rewrite fmap_app, fmap_cons, fmap_take, fmap_drop. cbn [fst]. apply sorted_insert_at; [done| |].
    - rewrite Hn, <- (proj2 (buckets16_entries b Hl)) in *. by apply binarySearch16_spec.
    - intros ([h' bk'] & -> & He')%list_elem_of_fmap. by eapply Habs. }
  rewrite He. split; [split; [done|by rewrite He]|]. split; [done|]. split; [apply Hmem; by left|].
  intros h' bk' Hne'. rewrite Hmem. split; [|by right]. intros [?|?]; [congruence|done].
Qed.

(** [bk] is what the bucket holds for [h]: its entry, or nothing. *)
Definition cell (b : bucket32) (h : Z) (bk : bucket16) : Prop :=
  (h, bk) ∈ entries b ∨ (∀ bk', (h, bk') ∉ entries b) ∧ bk = empty16.

Lemma cell_wf b h bk : wf32 b → cell b h bk → wf16 bk.
Proof.
  intros [_ [_ Hok]] [He|[_ ->]]; [|apply empty16_spec]. rewrite Forall_forall in Hok. by destruct (Hok _ He).
Qed.

Lemma cell_els b h bk y : wf32 b → cell b h bk → y / 2 ^ 16 = h → y ∈ els32 b ↔ y mod 2 ^ 16 ∈ els16 bk.
Proof.
  intros Hwf Hc <-. rewrite elem_of_els32 by done. destruct Hwf as [_ [Hs _]], Hc as [He|[Hn ->]].
  - split; [|eauto]. intros (bk' & He' & Hy). by rewrite (keys_unique _ _ _ _ Hs He He').
  - rewrite (proj2 empty16_spec). split; [|by intros ?%elem_of_empty]. intros (bk' & He' & _). by apply Hn in He'.
Qed.

Lemma put_els32 b b' h bk y :
  wf32 b → put (entries b) h bk (entries b') →
  y ∈ els32 b' ↔ if decide (y / 2 ^ 16 = h) then y mod 2 ^ 16 ∈ els16 bk else y ∈ els32 b.
Proof.
  intros [_ [_ Hok]] Hp. unfold els32, items32. rewrite elem_of_list_to_set, put_els by done.
  case_decide; by rewrite ?elem_of_list_to_set.
Qed.

(** Replacing a cell by the cell with [X] added, for the numbers [h * 2^16 + X]. *)
Lemma put_union b b' h bk bk' (X : gset Z) (Y : gset Z) :
  wf32 b → cell b h bk → put (entries b) h bk' (entries b') → els16 bk' = X ∪ els16 bk →
  (∀ y, y ∈ Y ↔ y / 2 ^ 16 = h ∧ y mod 2 ^ 16 ∈ X) → els32 b' = Y ∪ els32 b.
Proof.
  intros Hwf Hc Hp He HY. apply set_eq. intros y. rewrite (put_els32 _ _ _ _ y Hwf Hp), elem_of_union, HY. case_decide as Hh.
  - rewrite He, elem_of_union, (cell_els _ _ _ y Hwf Hc Hh). tauto.
  - tauto.
Qed.

Lemma split32 x : in_u 32 x → u16 (x ≫ 16) = x / 2 ^ 16 ∧ u16 x = x mod 2 ^ 16 ∧ in_u 16 (x / 2 ^ 16) ∧ in_u 16 (x mod 2 ^ 16).
Proof.
  intros Hx. unfold in_u in *. rewrite Z.shiftr_div_pow2 by lia. split; [apply Z.mod_small; zdm|]. split; [done|]. split; zdm.
Qed.

Lemma singleton_split x y : y ∈ ({[x]} : gset Z) ↔ y / 2 ^ 16 = x / 2 ^ 16 ∧ y mod 2 ^ 16 ∈ ({[x mod 2 ^ 16]} : gset Z).
Proof. rewrite !elem_of_singleton. split; [by intros ->|]. intros [? ?]. zdm. Qed.

(** The entry an operation works on: found at [n], or to be added there. *)
Definition target (b b' : bucket32) (h : Z) (bk bk' : bucket16) : Prop :=
  cell b h bk ∧ wf32 b' ∧ hi b' = hi b ∧ put (entries b) h bk' (entries b').

Lemma target_set16 b n h bk bk' hint :
  wf32 b → entries b !! n = Some (h, bk) → wf16 bk' → target b (set16 b n bk' hint) h bk bk'.
Proof.
  intros Hwf Hn Hbk'. destruct (put_set16 b n h bk bk' hint Hwf Hn Hbk') as [Hwf' Hp].
  split; [left; by eapply list_elem_of_lookup_2|]. by split.
Qed.
Lemma target_new b h n bk :
  wf32 b → in_u 16 h → wf16 bk → n = binarySearch16 (b16his b) h → b16his b !! n ≠ Some h →
  target b (addBucketAtPos b h n bk) h empty16 bk.
Proof.
  intros Hwf Hh Hbk Hn Hne. destruct (put_addBucketAtPos b h n bk Hwf Hh Hbk Hn Hne) as [Hwf' Hp].
  split; [right; split; [by apply (search_found b h n)|done]|]. split; [done|]. split; [unfold addBucketAtPos; by bcase|done].
Qed.

Lemma add32_target b x :
  wf32 b → in_u 32 x →
  ∃ bk, target b (fst (add32 b x)) (x / 2 ^ 16) bk (fst (add16 bk (x mod 2 ^ 16))) ∧ snd (add32 b x) = snd (add16 bk (x mod 2 ^ 16)).
Proof.
  intros Hwf Hx. destruct (split32 x Hx) as (Eh & El & Hh & Hlo). unfold add32, addSlow. rewrite Eh, El. clear Eh El.
  set (h := x / 2 ^ 16) in *. set (lo := x mod 2 ^ 16) in *.
  assert (Hfound : ∀ n hint, b16his b !! n = Some h → ∃ bk, buckets16 b !! n = Some bk ∧ target b (set16 b n (fst (add16 bk lo)) hint) h bk (fst (add16 bk lo))).
  { intros n hint Hn. destruct (wf32_lookup b n h Hwf Hn) as (bk & Hbk & He). exists bk. split; [done|]. apply target_set16; [done|done|].
    apply add16_spec; [|done]. eapply cell_wf; [done|]. left. by eapply list_elem_of_lookup_2. }
  case_decide as Hd; [|case_decide as Hd'].
  - destruct (Hfound _ (hint b) Hd) as (bk & -> & Ht). exists bk. by destruct (add16 bk lo).
  - destruct (Hfound _ (binarySearch16 (b16his b) h) Hd') as (bk & -> & Ht). exists bk. by destruct (add16 bk lo).
  - destruct empty16_spec as [Hwe Hee]. destruct (add16_spec empty16 lo Hwe Hlo) as (Hw & _ & Hok). exists empty16. cbn [fst snd]. split.
    + by apply target_new.
    + rewrite Hok, Hee. by rewrite bool_decide_true by set_solver.
Qed.

Lemma add32_spec b x :
  wf32 b → in_u 32 x →
  let r := add32 b x in wf32 (fst r) ∧ hi (fst r) = hi b ∧ els32 (fst r) = {[x]} ∪ els32 b ∧ snd r = bool_decide (x ∉ els32 b).
Proof.
  intros Hwf Hx. cbn zeta. destruct (add32_target b x Hwf Hx) as (bk & (Hc & Hwf' & Hhi & Hp) & ->). destruct (split32 x Hx) as (_ & _ & _ & Hlo).
  destruct (add16_spec bk (x mod 2 ^ 16)) as (_ & He & ->); [exact (cell_wf b _ bk Hwf Hc)|done|]. split; [done|]. split; [done|]. split.
  - eapply (put_union b _ _ bk _ {[x mod 2 ^ 16]}); [done|done|done|done|]. apply singleton_split.
  - apply bool_decide_ext. by rewrite (cell_els b _ bk x Hwf Hc).
Qed.

(** *** Many values at once *)

Definition delta (X Y : gset Z) : Z := Z.of_nat (size Y) - Z.of_nat (size X).

Lemma cell_size b h bk :
  wf32 b → cell b h bk → size (els32 b) = (size (filter (λ y, (y / 2 ^ 16)%Z ≠ h) (els32 b)) + size (els16 bk))%nat.
Proof.
  intros Hwf Hc. assert (Hbk := cell_wf b h bk Hwf Hc). pose proof (items16_NoDup bk Hbk) as Hnd.
  assert (Hu : Forall (in_u 16) (items16 bk)).
  { apply Forall_forall. intros v Hv. apply (els16_in_u bk v Hbk). unfold els16. by rewrite elem_of_list_to_set. }
  assert (Hs : size (els16 bk) = size (list_to_set (shift 16 h (items16 bk)) : gset Z)).
  { unfold els16. rewrite !size_list_to_set by (done || by apply shift_NoDup). unfold shift. by rewrite length_fmap. }
  rewrite Hs, <- size_union.
  - f_equal. apply set_eq. intros y. rewrite elem_of_union, elem_of_filter, elem_of_list_to_set, elem_of_shift by (done || lia).
    destruct (decide (y / 2 ^ 16 = h)) as [Hy|Hy]; [|naive_solver]. rewrite (cell_els b h bk y Hwf Hc Hy). unfold els16.
    rewrite elem_of_list_to_set. naive_solver.
  - intros y. rewrite elem_of_filter, elem_of_list_to_set, elem_of_shift by (done || lia). naive_solver.
Qed.

Lemma put_delta b b' h bk bk' :
  wf32 b → wf32 b' → cell b h bk → put (entries b) h bk' (entries b') → delta (els32 b) (els32 b') = delta (els16 bk) (els16 bk').
Proof.
  intros Hwf Hwf' Hc Hp. assert (Hc' : cell b' h bk') by (left; by destruct Hp as (_ & ? & _)). unfold delta.
  rewrite (cell_size b h bk Hwf Hc), (cell_size b' h bk' Hwf' Hc').
  assert (filter (λ y, y / 2 ^ 16 ≠ h) (els32 b') = filter (λ y, y / 2 ^ 16 ≠ h) (els32 b)) as ->; [|lia].
  apply set_eq. intros y. rewrite !elem_of_filter, (put_els32 b b' h bk' y Hwf Hp). case_decide; naive_solver.
Qed.

Lemma addRun32_spec b h run :
  wf32 b → in_u 16 h → Forall (λ x, u16 (x ≫ 16) = h) run →
  let r := addRun32 b h run in
  wf32 (fst r) ∧ hi (fst r) = hi b ∧ els32 (fst r) = list_to_set (u32 <$> run) ∪ els32 b ∧ snd r = delta (els32 b) (els32 (fst r)).
Proof.
  intros Hwf Hh Hrun. cbn zeta.
  assert (∃ bk, target b (fst (addRun32 b h run)) h bk (fst (addMulti16 bk run)) ∧ snd (addRun32 b h run) = snd (addMulti16 bk run))
    as (bk & (Hc & Hwf' & Hhi & Hp) & ->).
  { unfold addRun32. case_decide as Hd.
    - destruct (wf32_lookup b _ h Hwf Hd) as (bk & -> & He). exists bk.
      assert (Hbk : wf16 bk) by (eapply cell_wf; [done|]; left; by eapply list_elem_of_lookup_2).
      destruct (addMulti16_spec bk run Hbk) as [Hw _]. destruct (addMulti16 bk run) as [bk' c]. split; [|done]. by apply target_set16.
    - exists empty16. destruct (addMulti16_spec empty16 run (proj1 empty16_spec)) as [Hw _]. destruct (addMulti16 empty16 run) as [bk' c].
      split; [|done]. by apply target_new. }
  assert (Hbk := cell_wf b h bk Hwf Hc). destruct (addMulti16_spec bk run Hbk) as (_ & He & ->). split; [done|]. split; [done|].
  assert (HY : els32 (fst (addRun32 b h run)) = list_to_set (u32 <$> run) ∪ els32 b).
  { eapply (put_union b _ h bk _ _ (list_to_set (u32 <$> run)) Hwf Hc Hp He). intros y.
    rewrite !elem_of_list_to_set, !list_elem_of_fmap. rewrite Forall_forall in Hrun. split.
    - intros (x & -> & Hx). specialize (Hrun x Hx). rewrite Z.shiftr_div_pow2 in Hrun by lia. unfold wrap_u in *. split; [zdm|].
      exists x. split; [zdm|done].
    - intros [Hy (x & Hyx & Hx)]. specialize (Hrun x Hx). rewrite Z.shiftr_div_pow2 in Hrun by lia. unfold wrap_u in *.
      exists x. split; [zdm|done]. }
  split; [done|]. symmetry. by apply (put_delta b _ h).
Qed.

(** The runs of equal keys, one after the other. *)
Lemma run_loop_spec {T} (key : Z → Z) (step : T → Z → list Z → T * Z) (ok : T → Prop) (els : T → gset Z) (proj : Z → Z) (kok : Z → Prop) :
  (∀ x, kok (key x)) →
  (∀ st h run, ok st → kok h → Forall (λ x, key x = h) run →
     let r := step st h run in ok (fst r) ∧ els (fst r) = list_to_set (proj <$> run) ∪ els st ∧ snd r = delta (els st) (els (fst r))) →
  ∀ a st count h run, ok st → kok h → Forall (λ x, key x = h) run →
  let r := run_loop key step st count h run a in
  ok (fst r) ∧ els (fst r) = list_to_set (proj <$> (run ++ a)) ∪ els st ∧ snd r = count + delta (els st) (els (fst r)).
Proof.
  intros Hkok Hstep. induction a as [|x a IH]; intros st count h run Hst Hh Hrun; cbn [run_loop].
  - destruct (Hstep st h run Hst Hh Hrun) as (H1 & H2 & H3). destruct (step st h run) as [st' c]. cbn [fst snd] in *. rewrite app_nil_r.
    split; [done|]. split; [done|lia].
  - destruct (Z.eqb_spec (key x) h) as [Hx|Hx].
    + replace (run ++ x :: a) with ((run ++ [x]) ++ a) by (by rewrite <- app_assoc). apply IH; [done|done|]. apply Forall_app. split; [done|]. by constructor.
    + destruct (Hstep st h run Hst Hh Hrun) as (H1 & H2 & H3). destruct (step st h run) as [st' c]. cbn [fst snd] in *.
      destruct (IH st' (count + c) (key x) [x] H1 (Hkok x)) as (I1 & I2 & I3); [by constructor|]. split; [done|]. split.
      * rewrite I2, H2, fmap_app, list_to_set_app_L. cbn [app fmap list_fmap]. set_solver.
      * rewrite I3, H3. unfold delta. lia.
Qed.

Lemma by_runs_spec {T} (key : Z → Z) (step : T → Z → list Z → T * Z) (ok : T → Prop) (els : T → gset Z) (proj : Z → Z) (kok : Z → Prop) :
  (∀ x, kok (key x)) →
  (∀ st h run, ok st → kok h → Forall (λ x, key x = h) run →
     let r := step st h run in ok (fst r) ∧ els (fst r) = list_to_set (proj <$> run) ∪ els st ∧ snd r = delta (els st) (els (fst r))) →
  ∀ st a, ok st →
  let r := by_runs key step st a in ok (fst r) ∧ els (fst r) = list_to_set (proj <$> a) ∪ els st ∧ snd r = delta (els st) (els (fst r)).
Proof.
  intros Hkok Hstep st a Hst. unfold by_runs. destruct a as [|x a]; [cbn; split; [done|]; split; [set_solver|unfold delta; lia]|].
  destruct (run_loop_spec key step ok els proj kok Hkok Hstep (x :: a) st 0 (key x) [] Hst (Hkok x)) as (H1 & H2 & H3); [constructor|].
  split; [done|]. split; [done|lia].
Qed.

Lemma addMulti32_spec b a :
  wf32 b →
  let r := addMulti32 b a in
  wf32 (fst r) ∧ hi (fst r) = hi b ∧ els32 (fst r) = list_to_set (u32 <$> a) ∪ els32 b ∧ snd r = delta (els32 b) (els32 (fst r)).
Proof.
  intros Hwf. destruct (by_runs_spec (λ x, u16 (x ≫ 16)) addRun32 (λ b', wf32 b' ∧ hi b' = hi b) els32 u32 (in_u 16)) with (st := b) (a := a)
    as ([H1 H2] & H3 & H4); [intros x; by apply wrap_u_range| |done|done].
  intros st h run [Hst Hhi] Hh Hrun. destruct (addRun32_spec st h run Hst Hh Hrun) as (? & ? & ? & ?). split; [|done]. split; [done|congruence].
Qed.

(** *** Queries and removal *)

Lemma has32_spec b x : wf32 b → in_u 32 x → has32 b x = bool_decide (x ∈ els32 b).
Proof.
  intros Hwf Hx. destruct (split32 x Hx) as (Eh & El & Hh & Hlo). unfold has32, at16. rewrite Eh, El. case_decide as Hd.
  - destruct (wf32_lookup b _ _ Hwf Hd) as (bk & -> & He). assert (Hc : cell b (x / 2 ^ 16) bk) by (left; by eapply list_elem_of_lookup_2).
    rewrite has16_spec by (done || exact (cell_wf b _ bk Hwf Hc)). apply bool_decide_ext. by rewrite (cell_els b _ bk x Hwf Hc).
  - symmetry. apply bool_decide_false. rewrite elem_of_els32 by done. intros (bk & He & _). by eapply search_found in Hd; [apply Hd in He|..].
Qed.

Lemma del_at_spec b n x hint :
  wf32 b → in_u 32 x → b16his b !! n = Some (x / 2 ^ 16) →
  let r := del_at b n (x mod 2 ^ 16) hint in
  wf32 (fst r) ∧ hi (fst r) = hi b ∧ els32 (fst r) = els32 b ∖ {[x]} ∧ snd r = bool_decide (x ∈ els32 b).
Proof.
  intros Hwf Hx Hn. cbn zeta. destruct (split32 x Hx) as (_ & _ & Hh & Hlo). unfold del_at.
  destruct (wf32_lookup b _ _ Hwf Hn) as (bk & -> & He). assert (Hc : cell b (x / 2 ^ 16) bk) by (left; by eapply list_elem_of_lookup_2).
  destruct (del16_spec bk (x mod 2 ^ 16) (cell_wf b _ bk Hwf Hc) Hlo) as (Hw & Hels & Hok).
  destruct (del16 bk (x mod 2 ^ 16)) as [bk' ok]. cbn [fst snd] in *.
  destruct (put_set16 b n _ bk bk' hint Hwf He Hw) as [Hwf' Hp]. split; [done|]. split; [done|]. split.
  - apply set_eq. intros y. rewrite (put_els32 b _ _ bk' y Hwf Hp), elem_of_difference, elem_of_singleton.
    destruct (decide (y / 2 ^ 16 = x / 2 ^ 16)) as [Hy|Hy].
    + rewrite Hels, elem_of_difference, elem_of_singleton, (cell_els b _ bk y Hwf Hc Hy). split; [|intros [? Hne]; split; [done|]; intros ?; apply Hne; zdm].
      intros [? Hne]. split; [done|]. by intros ->.
    + split; [|by intros [? _]]. intros ?. split; [done|]. by intros ->.
  - rewrite Hok. apply bool_decide_ext. by rewrite (cell_els b _ bk x Hwf Hc).
Qed.

Lemma del32_spec b x :
  wf32 b → in_u 32 x →
  let r := del32 b x in wf32 (fst r) ∧ hi (fst r) = hi b ∧ els32 (fst r) = els32 b ∖ {[x]} ∧ snd r = bool_decide (x ∈ els32 b).
Proof.
  intros Hwf Hx. cbn zeta. destruct (split32 x Hx) as (Eh & El & Hh & Hlo). unfold del32, delSlow. rewrite Eh, El.
  destruct (decide (b16his b !! hint b = _)); [by apply del_at_spec|]. destruct (decide (b16his b !! binarySearch16 _ _ = _)); [by apply del_at_spec|].
  assert (Hn : x ∉ els32 b).
  { rewrite elem_of_els32 by done. intros (bk & He & _). eapply (search_found b); [done|done|done|exact He]. }
  cbn [fst snd]. rewrite bool_decide_false by done. split; [done|]. split; [done|]. split; [set_solver|done].
Qed.

(** *** Listing, union and intersection *)

Lemma entries_of_entries b hint es : entries (of_entries b hint es) = es.
Proof. unfold entries, of_entries. cbn. apply zip_fst_snd. Qed.

Lemma wf32_of_entries b hint es : wf_entries es → wf32 (of_entries b hint es).
Proof. intros Hes. split; [cbn; by rewrite !length_fmap|]. by rewrite entries_of_entries. Qed.

Lemma els32_blocks b y : y ∈ els32 b ↔ y ∈ blocks 16 fst entry_items (entries b).
Proof. unfold els32, items32. apply elem_of_list_to_set. Qed.

(** Whether an entry holds [y]. *)
Definition holds (y : Z) (e : Z * bucket16) : Prop := fst e = y / 2 ^ 16 ∧ y mod 2 ^ 16 ∈ els16 (snd e).
Lemma els32_holds es y : Forall entry_ok es → y ∈ blocks 16 fst entry_items es ↔ Exists (holds y) es.
Proof.
  intros Hok. rewrite elem_of_entries, Exists_exists by done. unfold holds. split.
  - intros (bk & He & Hy). by exists (y / 2 ^ 16, bk).
  - intros ([h bk] & He & Hh & Hy). cbn in *. subst h. eauto.
Qed.

Lemma sorted_ascending es : StronglySorted Z.lt (fst <$> es) → in_order (key_less (B := Z * bucket16) fst) es.
Proof.
  unfold in_order. induction es as [|e es IH]; intros Hs; [constructor|]. inversion Hs as [|? ? Hs' He]; subst. constructor; [by apply IH|].
  apply (Forall_fmap fst) in He. eapply Forall_impl; [exact He|]. unfold key_less. cbn. intros. apply Z.ltb_ge. lia.
Qed.
Lemma ascending_sorted (es : list (Z * bucket16)) :
  in_order (key_less fst) es → second fst (λ _, False) es → StronglySorted Z.lt (fst <$> es).
Proof.
  unfold in_order, second. induction 1 as [|e es _ IH He]; intros Hs; [constructor|]. inversion Hs as [|? ? Hse Hs']; subst.
  cbn [fmap list_fmap]. constructor; [by apply IH|]. apply (Forall_fmap fst). rewrite Forall_forall in *. intros e' He'.
  specialize (He _ He'). specialize (Hse _ He'). unfold key_less in He. apply Z.ltb_ge in He. cbn. lia.
Qed.

Section Ops32.
Context {S : GoSort} `{!GoSortLaws S}.

Lemma union32_spec b a : wf32 b → wf32 a → wf32 (union32 b a) ∧ hi (union32 b a) = hi b ∧ els32 (union32 b a) = els32 b ∪ els32 a.
Proof.
  intros [_ [Hsb Hb]] [_ [Hsa Ha]]. unfold union32.
  set (both := λ x y : Z * bucket16, (fst x, union16 (snd x) (snd y))).
  pose proof (union_walk_uwalk fst both id (entries b) (entries a)) as Hwk. cbn zeta in Hwk.
  destruct (union_walk _ _ _ _ _ _) as [old new]. cbn [fst snd] in Hwk.
  assert (Hok : Forall entry_ok (old ++ new)).
  { eapply uwalk_Forall; [exact Hwk|done|done|done|]. intros x y [Hx Hwx] [Hy Hwy] _. split; [done|]. by apply union16_spec. }
  assert (Hsec : second fst (λ _, False) (old ++ new)).
  { eapply uwalk_second with (G := entry_ok);
      [exact Hwk|done|done|by apply sorted_ascending..|by apply sorted_keys_uniq|by apply sorted_keys_uniq|done|done|done|done]. }
  destruct (sort_if_spec (key_less fst) (old ++ new)) as [Hperm Hord]. change (λ x y : Z * bucket16, fst x <? fst y) with (key_less (B := Z * bucket16) fst).
  set (es := sort_if (key_less fst) (old ++ new)) in *. clearbody es.
  assert (Hes : wf_entries es).
  { split; [|by rewrite Hperm]. apply ascending_sorted; [done|]. eapply ForallOrdPairs_perm; [|symmetry; exact Hperm|exact Hsec].
    intros x y Hxy Hk. by apply Hxy. }
  split; [by apply wf32_of_entries|]. split; [done|]. apply set_eq. intros y.
  rewrite elem_of_union, !els32_blocks, entries_of_entries, !els32_holds by (done || apply Hes). rewrite (Exists_perm _ _ _ Hperm).
  eapply uwalk_exists with (G := entry_ok); [exact Hwk|done|done|done|]. intros x z [_ Hwx] [_ Hwz] Hk. unfold holds, both. cbn [fst snd].
  rewrite (proj2 (union16_spec _ _ Hwx Hwz)), elem_of_union, Hk. tauto.
Qed.

Lemma intersect32_spec b a :
  wf32 b → wf32 a → wf32 (intersect32 b a) ∧ hi (intersect32 b a) = hi b ∧ els32 (intersect32 b a) = els32 b ∩ els32 a.
Proof.
  intros [_ [Hsb Hb]] [_ [Hsa Ha]]. unfold intersect32.
  set (both := λ x y : Z * bucket16, (fst x, intersect16 (snd x) (snd y))). set (zero := λ x : Z * bucket16, (fst x, empty16)).
  pose proof (inter_walk_iwalk fst both zero (entries b) (entries a)) as Hwk. set (es := inter_walk _ _ _ _ _ _) in *. clearbody es.
  assert (Hok : Forall entry_ok es).
  { apply Forall_forall. intros e He. rewrite Forall_forall in Hb, Ha.
    destruct (iwalk_mem _ _ _ _ _ _ _ Hwk He) as [(x & Hx & ->)|(x & y & Hx & Hy & _ & ->)].
    - destruct (Hb _ Hx). split; [done|apply empty16_spec].
    - destruct (Hb _ Hx), (Ha _ Hy). split; [done|]. by apply intersect16_spec. }
  assert (Hkeys : fst <$> es = fst <$> entries b) by (by eapply iwalk_keys).
  assert (Hex : ∀ y, Exists (holds y) es ↔ Exists (holds y) (entries b) ∧ Exists (holds y) (entries a)).
  { intros y. eapply iwalk_exists with (G := entry_ok); [exact Hwk|done|done|by apply sorted_ascending..| | | | |].
    - intros e [He _]. exact He.
    - intros e [_ He]. cbn [zero snd] in He. rewrite (proj2 empty16_spec) in He. by apply elem_of_empty in He.
    - intros x z [_ Hwx] [_ Hwz] Hk. unfold holds, both. cbn [fst snd]. rewrite (proj2 (intersect16_spec _ _ Hwx Hwz)), elem_of_intersection, Hk. tauto.
    - eapply ForallOrdPairs_weaken; [|by apply sorted_keys_distinct]. by intros d e ? ?.
    - eapply ForallOrdPairs_weaken; [|by apply sorted_keys_distinct]. by intros d e ? ?. }
  assert (Hsub : filter (λ x, isZero (snd x) = false) es `sublist_of` es) by apply sublist_filter.
  assert (Hes : wf_entries (filter (λ x, isZero (snd x) = false) es)).
  { split; [|apply Forall_forall; intros e [_ He]%list_elem_of_filter; rewrite Forall_forall in Hok; auto]. apply ascending_sorted.
    - eapply in_order_sublist; [exact Hsub|]. apply sorted_ascending. by rewrite Hkeys.
    - apply ForallOrdPairs_filter, sorted_keys_uniq. by rewrite Hkeys. }
  split; [by apply wf32_of_entries|]. split; [done|]. apply set_eq. intros y.
  rewrite elem_of_intersection, !els32_blocks, entries_of_entries, !els32_holds, <- Hex by (done || apply Hes).
  rewrite !Exists_exists. setoid_rewrite list_elem_of_filter. split; [naive_solver|]. intros (e & He & Hy). exists e. split; [|done]. split; [|done].
  destruct (isZero (snd e)) eqn:Ez; [|done]. destruct Hy as [_ Hy]. rewrite (isZero_empty _ Ez) in Hy. by apply elem_of_empty in Hy.
Qed.

Lemma append_entries_spec hi es dst :
  wf_entries es →
  ∃ l, foldl (λ dst hb, appendTo16 (snd hb) dst hi (fst hb)) dst es = dst ++ shift 32 hi l ∧ StronglySorted Z.lt l ∧ l ≡ₚ blocks 16 fst entry_items es.
Proof.
  intros [Hs Hok]. revert dst. induction Hok as [|[h bk] es [Hh Hbk] Hok IH]; intros dst; cbn [foldl fst snd] in *.
  { exists []. split; [by rewrite app_nil_r|]. split; [constructor|done]. }
  inversion Hs as [|? ? Hs' Hlt]; subst. destruct (appendTo16_spec bk dst hi h Hbk Hh) as (l0 & -> & Hs0 & Hp0).
  destruct (IH Hs' (dst ++ ((λ v, hi64 hi h + v) <$> l0))) as (l & -> & Hsl & Hpl). exists (shift 16 h l0 ++ l).
  split; [|split].
  - rewrite <- app_assoc. f_equal. unfold shift. rewrite fmap_app. f_equal. rewrite <- list_fmap_compose. apply list_fmap_ext.
    intros _ v _. unfold hi64. cbn. lia.
  - apply (StronglySorted_app_lt _ _ ((h + 1) * 2 ^ 16)); [by apply sorted_shift|done| |].
    + apply Forall_fmap, Forall_forall. intros v Hv. rewrite Hp0 in Hv. assert (in_u 16 v) by (apply (els16_in_u bk); [done|]; unfold els16; by rewrite elem_of_list_to_set).
      unfold in_u in *. cbn. lia.
    + apply Forall_forall. intros y Hy. rewrite Hpl, elem_of_entries in Hy by done. destruct Hy as (bk' & He & _).
      apply (Forall_fmap fst) in Hlt. rewrite Forall_forall in Hlt. specialize (Hlt _ He). cbn in Hlt. zdm.
  - unfold blocks. cbn [mbind list_bind fst]. rewrite Hpl. apply Permutation_app; [|done]. unfold shift, entry_items. by rewrite Hp0.
Qed.

Lemma appendTo32_spec b dst :
  wf32 b → ∃ l, appendTo32 b dst = dst ++ shift 32 (hi b) l ∧ StronglySorted Z.lt l ∧ l ≡ₚ items32 b.
Proof. intros [_ Hwf]. by apply append_entries_spec. Qed.
End Ops32.

Lemma empty32_spec h : wf32 (mk_b32 h 0 [] []) ∧ items32 (mk_b32 h 0 [] []) = [].
Proof. split; [|done]. split; [done|]. split; constructor. Qed.
