(* ===== verification/U64SetProps.v ===== *)
(** * uint64set refines finite sets

    [els s] is the set a [Set_] stands for.  Every operation of the package does to it what the
    set operation of that name does, the counter is its size, and AppendTo lists it in order. *)

From stdpp Require Import gmap sorting.
From S2P Require Import Prelude GoSort U64Set U64Bucket U64Blocks U64Half.

Definition bucket_ok (b : bucket32) : Prop := in_u 32 (hi b) ∧ wf32 b.
Definition items_of (bs : list bucket32) : list Z := blocks 32 hi items32 bs.
Definition els_of (bs : list bucket32) : gset Z := list_to_set (items_of bs).
Definition wf_buckets (bs : list bucket32) : Prop := Forall bucket_ok bs ∧ uniq hi items32 bs.

Definition els (s : Set_) : gset Z := els_of (buckets s).
Definition wf (s : Set_) : Prop := wf_buckets (buckets s) ∧ itemsCount s = Z.of_nat (size (els s)).

Lemma elem_of_items32 b x : x ∈ items32 b ↔ x ∈ els32 b.
Proof. unfold els32. by rewrite elem_of_list_to_set. Qed.

Lemma items32_nil b : items32 b = [] ↔ els32 b = ∅.
Proof.
  split; [intros E; unfold els32; by rewrite E|]. intros E. destruct (items32 b) as [|x l] eqn:El; [done|]. exfalso.
  assert (Hx : x ∈ els32 b) by (rewrite <- elem_of_items32, El; left). rewrite E in Hx. by apply elem_of_empty in Hx.
Qed.

Lemma bucket_good b : bucket_ok b → good 32 items32 b.
Proof.
  intros [_ Hwf]. split; [|by apply items32_NoDup]. apply Forall_forall. intros x Hx%elem_of_items32. by eapply els32_in_u.
Qed.
Lemma buckets_good bs : Forall bucket_ok bs → Forall (good 32 items32) bs.
Proof. intros H. eapply Forall_impl; [exact H|]. apply bucket_good. Qed.

(** Whether a bucket holds [y]. *)
Definition holds32 (y : Z) (b : bucket32) : Prop := hi b = y / 2 ^ 32 ∧ y mod 2 ^ 32 ∈ els32 b.

Lemma elem_of_els_of bs y : Forall bucket_ok bs → y ∈ els_of bs ↔ Exists (holds32 y) bs.
Proof.
  intros Hok. unfold els_of, items_of. rewrite elem_of_list_to_set, elem_of_blocks by (lia || by apply buckets_good).
  rewrite Exists_exists. unfold holds32. by setoid_rewrite elem_of_items32.
Qed.

Lemma els_of_in_u bs y : Forall bucket_ok bs → y ∈ els_of bs → in_u 64 y.
Proof.
  intros Hok Hy. apply elem_of_els_of in Hy; [|done]. apply Exists_exists in Hy as (b & Hb & Hh & Hy). rewrite Forall_forall in Hok.
  destruct (Hok _ Hb) as [Hhi Hwf]. unfold in_u in *. pose proof (Z.div_mod y (2 ^ 32)). pose proof (Z.mod_pos_bound y (2 ^ 32)). lia.
Qed.

Lemma items_of_NoDup bs : wf_buckets bs → NoDup (items_of bs).
Proof. intros [Hok Hu]. apply blocks_NoDup; [lia|by apply buckets_good|done]. Qed.
Lemma size_els_of bs : wf_buckets bs → size (els_of bs) = length (items_of bs).
Proof. intros Hwf. unfold els_of. by rewrite size_list_to_set by (by apply items_of_NoDup). Qed.

Lemma els_of_perm bs bs' : bs ≡ₚ bs' → els_of bs = els_of bs'.
Proof. intros Hp. unfold els_of, items_of. apply set_eq. intros y. by rewrite !elem_of_list_to_set, (blocks_perm _ _ _ _ _ Hp). Qed.

Lemma split64 x : in_u 64 x → hi32 x = x / 2 ^ 32 ∧ lo32 x = x mod 2 ^ 32 ∧ in_u 32 (x / 2 ^ 32) ∧ in_u 32 (x mod 2 ^ 32).
Proof.
  intros Hx. unfold in_u, hi32, lo32 in *. rewrite Z.shiftr_div_pow2 by lia. split; [apply Z.mod_small; zdm|]. split; [done|]. split; zdm.
Qed.

(** ** Changing one bucket *)

(** [b] is what [bs] holds for [h], between [pre] and [post]: an existing bucket or one to append. *)
Definition slot (bs : list bucket32) (h : Z) (pre : list bucket32) (b : bucket32) (post : list bucket32) : Prop :=
  hi b = h ∧ Forall (λ c, hi c ≠ h) pre ∧ (bs = pre ++ b :: post ∨ bs = pre ∧ post = [] ∧ b = mk_b32 h 0 [] []).

Lemma on_bucket_slot {T} h (f : bucket32 → bucket32 * T) none add bs :
  (∃ pre b post, slot bs h pre b post ∧ (add = true ∨ bs = pre ++ b :: post) ∧
     on_bucket h f none add bs = (pre ++ fst (f b) :: post, snd (f b))) ∨
  add = false ∧ Forall (λ c, hi c ≠ h) bs ∧ on_bucket h f none add bs = (bs, none).
Proof.
  induction bs as [|c bs IH]; cbn [on_bucket].
  - destruct add; [left|by right]. exists [], (mk_b32 h 0 [] []), []. split; [split; [done|]; split; [done|by right]|].
    split; [by left|]. by destruct (f _).
  - destruct (Z.eqb_spec (hi c) h) as [Hc|Hc].
    + left. exists [], c, bs. split; [split; [done|]; split; [done|by left]|]. split; [by right|]. by destruct (f c).
    + destruct IH as [(pre & b & post & (Hb & Hpre & Hor) & Ha & ->)|(-> & Hall & ->)].
      * left. exists (c :: pre), b, post. split; [split; [done|]; split; [by constructor|]|split; [|done]].
        -- destruct Hor as [->|(-> & ? & ?)]; [by left|by right].
        -- destruct Ha as [?| ->]; [by left|by right].
      * right. split; [done|]. split; [by constructor|done].
Qed.

(** The list with an empty bucket appended when none exists yet. *)
Lemma slot_full bs h pre b post :
  in_u 32 h → wf_buckets bs → slot bs h pre b post →
  wf_buckets (pre ++ b :: post) ∧ els_of (pre ++ b :: post) = els_of bs.
Proof.
  intros Hh Hwf (Hb & Hpre & [->|(-> & -> & ->)]); [done|]. destruct Hwf as [Hok Hu]. destruct (empty32_spec h) as [Hwe Hie]. split; [split|].
  - apply Forall_app. split; [done|]. by constructor.
  - unfold uniq, second in *. apply ForallOrdPairs_app. split; [done|]. split; [repeat constructor|].
    intros x y _ ->%list_elem_of_singleton _. done.
  - unfold els_of, items_of, blocks. rewrite bind_app. cbn [mbind list_bind hi]. rewrite Hie. cbn. by rewrite !app_nil_r.
Qed.

Lemma slot_replace pre b post b' :
  wf_buckets (pre ++ b :: post) → Forall (λ c, hi c ≠ hi b) pre → hi b' = hi b → wf32 b' →
  wf_buckets (pre ++ b' :: post) ∧ delta (els_of (pre ++ b :: post)) (els_of (pre ++ b' :: post)) = delta (els32 b) (els32 b') ∧
  ∀ y, y ∈ els_of (pre ++ b' :: post) ↔ if decide (y / 2 ^ 32 = hi b) then y mod 2 ^ 32 ∈ els32 b' else y ∈ els_of (pre ++ b :: post).
Proof.
  intros Hwf Hpre Hh Hb'. assert (Hwf0 := Hwf). destruct Hwf as [Hok Hu]. apply Forall_app in Hok as [Hokp Hok]. inversion Hok as [|? ? [Hhb Hwb] Hokq]; subst.
  unfold uniq, second in Hu. apply ForallOrdPairs_app in Hu as (Hup & Hu & Hpq). inversion Hu as [|? ? Hbq Huq]; subst.
  assert (Hok' : Forall bucket_ok (pre ++ b' :: post)).
  { apply Forall_app. split; [done|]. constructor; [|done]. split; [by rewrite Hh|done]. }
  assert (Hwf' : wf_buckets (pre ++ b' :: post)).
  { split; [done|]. apply ForallOrdPairs_app. split; [done|]. split; [constructor; [by rewrite Hh|done]|].
    intros x y Hx [->|Hy]%elem_of_cons; [|by apply Hpq; [|right]]. rewrite Forall_forall in Hpre. intros Hk. exfalso. apply (Hpre x Hx). congruence. }
  split; [done|]. split.
  - assert (Hsz : ∀ c, wf32 c → size (els32 c) = length (items32 c)) by (intros c Hc; unfold els32; by rewrite size_list_to_set by (by apply items32_NoDup)).
    unfold delta. rewrite !size_els_of, !Hsz by done. unfold items_of, blocks. rewrite !bind_app. cbn [mbind list_bind].
    rewrite !length_app. unfold shift. rewrite !length_fmap. lia.
  - intros y. rewrite !elem_of_els_of by (done || apply Hwf0). rewrite !Exists_app, !Exists_cons. unfold holds32 at 2. rewrite Hh.
    destruct (decide (y / 2 ^ 32 = hi b)) as [Hy|Hy].
    + rewrite Forall_forall in Hpre, Hbq. split; [|by right; left]. intros [(c & Hc & Hk & _)%Exists_exists|[[_ ?]|(c & Hc & Hk & Hin)%Exists_exists]].
      * exfalso. apply (Hpre c Hc). congruence.
      * done.
      * rewrite <- elem_of_items32, (Hbq c Hc) in Hin by congruence. by apply elem_of_nil in Hin.
    + rewrite elem_of_els_of by (apply Hwf0). rewrite Exists_app, Exists_cons. unfold holds32 at 4. split; intros [?|[[? ?]|?]]; auto; congruence.
Qed.

(** What the bucket of a slot says about its numbers. *)
Lemma slot_els pre b post y :
  wf_buckets (pre ++ b :: post) → Forall (λ c, hi c ≠ hi b) pre → y / 2 ^ 32 = hi b →
  y ∈ els_of (pre ++ b :: post) ↔ y mod 2 ^ 32 ∈ els32 b.
Proof.
  intros Hwf Hpre Hy. assert (Hwb : wf32 b) by (destruct Hwf as [Hok _]; apply Forall_app in Hok as [_ Hok]; inversion Hok as [|? ? [_ ?] _]; done).
  destruct (slot_replace pre b post b Hwf Hpre eq_refl Hwb) as (_ & _ & He). rewrite He. by rewrite decide_True by done.
Qed.

Lemma slot_update bs h pre b post b' :
  in_u 32 h → wf_buckets bs → slot bs h pre b post → hi b' = hi b → wf32 b' →
  wf_buckets (pre ++ b' :: post) ∧ delta (els_of bs) (els_of (pre ++ b' :: post)) = delta (els32 b) (els32 b') ∧
  (∀ y, y / 2 ^ 32 ≠ h → y ∈ els_of (pre ++ b' :: post) ↔ y ∈ els_of bs) ∧
  (∀ y, y / 2 ^ 32 = h → (y ∈ els_of (pre ++ b' :: post) ↔ y mod 2 ^ 32 ∈ els32 b') ∧ (y ∈ els_of bs ↔ y mod 2 ^ 32 ∈ els32 b)).
Proof.
  intros Hh Hwf Hslot Hb Hb'. destruct (slot_full _ _ _ _ _ Hh Hwf Hslot) as [Hwf1 <-]. destruct Hslot as (<- & Hpre & _).
  destruct (slot_replace pre b post b' Hwf1 Hpre Hb Hb') as (H1 & H2 & H3). split; [done|]. split; [done|]. split; intros y Hy.
  - rewrite H3. by rewrite decide_False.
  - split; [rewrite H3; by rewrite decide_True|]. by apply slot_els.
Qed.

Lemma slot_wf bs h pre b post : in_u 32 h → wf_buckets bs → slot bs h pre b post → wf32 b.
Proof.
  intros Hh Hwf Hslot. destruct (slot_full _ _ _ _ _ Hh Hwf Hslot) as [[Hok _] _]. apply Forall_app in Hok as [_ Hok].
  by inversion Hok as [|? ? [_ ?] _].
Qed.

(** ** Add, Del, Has *)

Lemma on_bucket_add bs x :
  wf_buckets bs → in_u 64 x →
  let r := on_bucket (hi32 x) (λ b, add32 b (lo32 x)) false true bs in
  wf_buckets (fst r) ∧ els_of (fst r) = {[x]} ∪ els_of bs ∧ snd r = bool_decide (x ∉ els_of bs).
Proof.
  intros Hwf Hx. cbn zeta. destruct (split64 x Hx) as (-> & -> & Hh & Hlo).
  destruct (on_bucket_slot (x / 2 ^ 32) (λ b, add32 b (x mod 2 ^ 32)) false true bs) as [(pre & b & post & Hslot & _ & ->)|(? & _)]; [|done].
  assert (Hwb := slot_wf _ _ _ _ _ Hh Hwf Hslot). destruct (add32_spec b (x mod 2 ^ 32) Hwb Hlo) as (Hw & Hhi & He & Hok). cbn [fst snd].
  destruct (slot_update _ _ _ _ _ _ Hh Hwf Hslot Hhi Hw) as (H1 & _ & H3 & H4). split; [done|]. split.
  - apply set_eq. intros y. rewrite elem_of_union, elem_of_singleton. destruct (decide (y / 2 ^ 32 = x / 2 ^ 32)) as [Hy|Hy].
    + destruct (H4 y Hy) as [-> ->]. rewrite He, elem_of_union, elem_of_singleton. split; (intros [?|?]; [left|by right]); [zdm|congruence].
    + rewrite (H3 y Hy). split; [by right|]. intros [->|?]; [congruence|done].
  - rewrite Hok. apply bool_decide_ext. by rewrite (proj2 (H4 x eq_refl)).
Qed.

Lemma on_bucket_del bs x :
  wf_buckets bs → in_u 64 x →
  let r := on_bucket (hi32 x) (λ b, del32 b (lo32 x)) false false bs in
  wf_buckets (fst r) ∧ els_of (fst r) = els_of bs ∖ {[x]} ∧ snd r = bool_decide (x ∈ els_of bs).
Proof.
  intros Hwf Hx. cbn zeta. destruct (split64 x Hx) as (-> & -> & Hh & Hlo).
  destruct (on_bucket_slot (x / 2 ^ 32) (λ b, del32 b (x mod 2 ^ 32)) false false bs) as [(pre & b & post & Hslot & _ & ->)|(_ & Hnone & ->)]; cbn [fst snd].
  - assert (Hwb := slot_wf _ _ _ _ _ Hh Hwf Hslot). destruct (del32_spec b (x mod 2 ^ 32) Hwb Hlo) as (Hw & Hhi & He & Hok).
    destruct (slot_update _ _ _ _ _ _ Hh Hwf Hslot Hhi Hw) as (H1 & _ & H3 & H4). split; [done|]. split.
    + apply set_eq. intros y. rewrite elem_of_difference, elem_of_singleton. destruct (decide (y / 2 ^ 32 = x / 2 ^ 32)) as [Hy|Hy].
      * destruct (H4 y Hy) as [-> ->]. rewrite He, elem_of_difference, elem_of_singleton.
        split; intros [? Hne]; (split; [done|]); intros ?; apply Hne; [congruence|zdm].
      * rewrite (H3 y Hy). split; [|by intros [? _]]. intros ?. split; [done|]. by intros ->.
    + rewrite Hok. apply bool_decide_ext. by rewrite (proj2 (H4 x eq_refl)).
  - assert (Hn : x ∉ els_of bs).
    { rewrite elem_of_els_of by apply Hwf. intros (b & Hb & Hk & _)%Exists_exists. rewrite Forall_forall in Hnone. by apply (Hnone b Hb). }
    rewrite bool_decide_false by done. split; [done|]. split; [|done]. apply set_eq. intros y. rewrite elem_of_difference, elem_of_singleton.
    split; [|by intros [? _]]. intros ?. split; [done|]. by intros ->.
Qed.

Lemma Add_spec s x : wf s → in_u 64 x → wf (Add s x) ∧ els (Add s x) = {[x]} ∪ els s.
Proof.
  intros [Hwf Hc] Hx. destruct (on_bucket_add (buckets s) x Hwf Hx) as (H1 & H2 & H3). unfold Add, wf, els in *.
  destruct (on_bucket _ _ _ _ _) as [bs ok]. cbn [fst snd buckets itemsCount] in *. split; [|done]. split; [done|].
  rewrite H2, size_add, <- H3, Hc. destruct ok; lia.
Qed.

Lemma Del_spec s x : wf s → in_u 64 x → wf (Del s x) ∧ els (Del s x) = els s ∖ {[x]}.
Proof.
  intros [Hwf Hc] Hx. destruct (on_bucket_del (buckets s) x Hwf Hx) as (H1 & H2 & H3). unfold Del, wf, els in *.
  destruct (on_bucket _ _ _ _ _) as [bs ok]. cbn [fst snd buckets itemsCount] in *. split; [|done]. split; [done|].
  rewrite H2, size_del, <- H3, Hc. destruct ok; lia.
Qed.

Lemma Has_spec s x : wf s → in_u 64 x → Has s x = bool_decide (x ∈ els s).
Proof.
  intros [[Hok Hu] _] Hx. destruct (split64 x Hx) as (Eh & El & Hh & Hlo). unfold Has. rewrite Eh, El.
  assert (Hf := first_block 32 hi items32 ltac:(lia) (buckets s) x (buckets_good _ Hok) Hu).
  assert (Hx' : x ∈ els s ↔ x ∈ blocks 32 hi items32 (buckets s)) by (unfold els, els_of, items_of; apply elem_of_list_to_set).
  revert Hf. destruct (list_find _ _) as [[i b]|] eqn:E; intros Hf.
  - apply list_find_Some in E as (Hi & _ & _). rewrite Forall_lookup in Hok. destruct (Hok _ _ Hi) as [_ Hwb].
    rewrite has32_spec by done. apply bool_decide_ext. by rewrite Hx', Hf, elem_of_items32.
  - symmetry. apply bool_decide_false. intros Hin. by apply Hf, Hx'.
Qed.

(** No two buckets for the same high bits. *)
Definition distinct (s : Set_) : Prop := ForallOrdPairs (λ b c, hi b ≠ hi c) (buckets s).

Lemma slot_distinct bs h pre b post b' :
  ForallOrdPairs (λ b c, hi b ≠ hi c) bs → slot bs h pre b post → hi b' = hi b → ForallOrdPairs (λ b c, hi b ≠ hi c) (pre ++ b' :: post).
Proof.
  intros Hd (<- & Hpre & Hor) Hh. rewrite Forall_forall in Hpre.
  assert (Hd' : ForallOrdPairs (λ b c, hi b ≠ hi c) (pre ++ b :: post)).
  { destruct Hor as [->|(-> & -> & ->)]; [done|]. apply ForallOrdPairs_app. split; [done|]. split; [repeat constructor|].
    intros x y Hx ->%list_elem_of_singleton. by apply Hpre. }
  apply ForallOrdPairs_app in Hd' as (H1 & H2 & H3). inversion H2 as [|? ? Hb H2']; subst. apply ForallOrdPairs_app. split; [done|]. split.
  - constructor; [by rewrite Hh|done].
  - intros x y Hx [->|Hy]%elem_of_cons; [rewrite Hh; by apply H3; [|left]|by apply H3; [|right]].
Qed.

Lemma empty_wf : wf emptySet ∧ els emptySet = ∅.
Proof. split; [|done]. split; [|done]. split; constructor. Qed.

(** ** Many items *)

Lemma AddMulti_spec s a :
  wf s → Forall (in_u 64) a → wf (AddMulti s a) ∧ els (AddMulti s a) = list_to_set a ∪ els s ∧ (distinct s → distinct (AddMulti s a)).
Proof.
  intros [Hwf Hc] Ha. unfold AddMulti.
  destruct (by_runs_spec hi32 (λ s h run, let (bs, c) := on_bucket h (λ b, addMulti32 b run) 0 true (buckets s) in (mk_Set (itemsCount s) bs, c))
    (λ s', wf_buckets (buckets s') ∧ itemsCount s' = itemsCount s ∧ (distinct s → distinct s')) els (λ x, u32 (x ≫ 32) * 2 ^ 32 + u32 x) (in_u 32)) with (st := s) (a := a)
    as ((H1 & H2 & H5) & H3 & H4); [intros x; by apply wrap_u_range| |done|].
  - clear a Ha. intros st h run (Hst & Hcnt & Hdis) Hh Hrun.
    destruct (on_bucket_slot h (λ b, addMulti32 b run) 0 true (buckets st)) as [(pre & b & post & Hslot & _ & ->)|(? & _)]; [|done].
    cbn [fst snd buckets itemsCount]. unfold els. cbn [buckets]. assert (Hwb := slot_wf _ _ _ _ _ Hh Hst Hslot).
    destruct (addMulti32_spec b run Hwb) as (Hw & Hhi & He & Hcount).
    destruct (slot_update _ _ _ _ _ _ Hh Hst Hslot Hhi Hw) as (I1 & I2 & I3 & I4).
    split; [split; [done|]; split; [done|]; intros Hd; eapply slot_distinct; [by apply Hdis|done|done]|]. split; [|by rewrite I2, Hcount].
    apply set_eq. intros y. rewrite elem_of_union, elem_of_list_to_set, list_elem_of_fmap. rewrite Forall_forall in Hrun.
    assert (Hq : ∀ x, x ∈ run → hi32 x * 2 ^ 32 + u32 x = h * 2 ^ 32 + u32 x) by (intros x Hx; by rewrite (Hrun x Hx)).
    assert (Hu : ∀ x, in_u 32 (u32 x)) by (intros x; by apply wrap_u_range). unfold in_u in Hu.
    destruct (decide (y / 2 ^ 32 = h)) as [Hy|Hy].
    + destruct (I4 y Hy) as [-> ->]. rewrite He, elem_of_union, elem_of_list_to_set, list_elem_of_fmap.
      split; (intros [(x & Hyx & Hx)|?]; [left; exists x; split; [|done]|by right]); specialize (Hu x); specialize (Hq x Hx); unfold hi32 in *.
      * rewrite Hq. zdm.
      * rewrite Hyx, Hq. zdm.
    + rewrite (I3 y Hy). split; [by right|]. intros [(x & -> & Hx)|?]; [|done]. exfalso. apply Hy. specialize (Hu x). specialize (Hq x Hx).
      unfold hi32 in *. rewrite Hq. zdm.
  - destruct (by_runs _ _ _ _) as [s' c]. cbn [fst snd] in *. unfold wf, els in *. cbn [buckets itemsCount].
    assert (Hid : (λ x, u32 (x ≫ 32) * 2 ^ 32 + u32 x) <$> a = a).
    { rewrite <- (list_fmap_id a) at 2. apply list_fmap_ext. intros i x Hi. rewrite Forall_lookup in Ha. specialize (Ha _ _ Hi).
      destruct (split64 x Ha) as (E1 & E2 & _). unfold hi32, lo32 in *. rewrite E1, E2. pose proof (Z.div_mod x (2 ^ 32)). cbn. lia. }
    rewrite Hid in H3. split; [|split; [done|exact H5]]. split; [done|]. rewrite H4, H2, Hc. unfold delta. lia.
Qed.

Section Ops.
Context {S : GoSort} `{!GoSortLaws S}.

(** ** Sorting *)

Definition ascending32 : list bucket32 → Prop := in_order (key_less hi).
Definition tame_set (s : Set_) : Prop := tame hi items32 (buckets s).

Lemma sort_set_spec s :
  Forall bucket_ok (buckets s) → tame_set s →
  wf_buckets (buckets (sort_set s)) ∧ els (sort_set s) = els s ∧ ascending32 (buckets (sort_set s)) ∧ tame_set (sort_set s).
Proof.
  intros Hok Ht. unfold sort_set, els, tame_set in *. cbn [buckets]. destruct (sort_if_spec (key_less hi) (buckets s)) as [Hp Ho].
  change (λ a b : bucket32, hi a <? hi b) with (key_less hi).
  assert (Ht' : tame hi items32 (sort_if (key_less hi) (buckets s))) by (by eapply tame_perm; [symmetry; exact Hp|]).
  split; [split; [by rewrite Hp|by apply tame_uniq]|]. split; [by apply els_of_perm|]. split; [done|done].
Qed.

Lemma AppendTo_spec s dst :
  wf s → tame_set s →
  wf (fst (AppendTo s dst)) ∧ els (fst (AppendTo s dst)) = els s ∧
  ∃ l, snd (AppendTo s dst) = dst ++ l ∧ StronglySorted Z.lt l ∧ list_to_set l = els s.
Proof.
  intros [[Hok Hu] Hc] Ht. destruct (sort_set_spec s Hok Ht) as (Hwf & He & Ho & _). unfold AppendTo. cbn [fst snd].
  split; [split; [done|by rewrite He]|]. split; [done|].
  enough (Hg : ∃ l, foldl (λ dst b, appendTo32 b dst) dst (buckets (sort_set s)) = dst ++ l ∧ StronglySorted Z.lt l ∧ l ≡ₚ items_of (buckets (sort_set s))).
  { destruct Hg as (l & -> & Hs & Hp). exists l. split; [done|]. split; [done|]. rewrite <- He. apply set_eq. intros y. rewrite elem_of_list_to_set, Hp.
    unfold els, els_of. by rewrite elem_of_list_to_set. }
  set (bs := buckets (sort_set s)) in *. clearbody bs. clear -Hwf Ho GoSortLaws0. unfold ascending32 in Ho. revert dst.
  destruct Hwf as [Hok Hu]. unfold uniq, second in Hu. induction Hu as [|b bs Hb Hu IH]; intros dst; cbn [foldl].
  { exists []. split; [by rewrite app_nil_r|]. split; [constructor|done]. }
  inversion Hok as [|? ? [Hh Hwb] Hok']; subst. apply ascending_cons in Ho as [Ho Hle]. specialize (IH Hok' Ho).
  destruct (appendTo32_spec b dst Hwb) as (l0 & -> & Hs0 & Hp0). destruct (IH (dst ++ shift 32 (hi b) l0)) as (l & -> & Hsl & Hpl).
  exists (shift 32 (hi b) l0 ++ l). split; [by rewrite app_assoc|]. split.
  - apply (StronglySorted_app_lt _ _ ((hi b + 1) * 2 ^ 32)); [by apply sorted_shift|done| |].
    + apply Forall_fmap, Forall_forall. intros v Hv. rewrite Hp0, elem_of_items32 in Hv. apply els32_in_u in Hv; [|done]. unfold in_u in Hv. cbn. lia.
    + apply Forall_forall. intros y Hy. assert (Hy' : y ∈ els_of bs) by (unfold els_of; by rewrite elem_of_list_to_set, <- Hpl).
      apply elem_of_els_of in Hy'; [|done]. apply Exists_exists in Hy' as (c & Hcb & Hk & Hin). specialize (Hle c Hcb).
      rewrite Forall_forall in Hb. destruct (decide (hi b = hi c)) as [E|E]; [|zdm].
      rewrite <- elem_of_items32, (Hb c Hcb E) in Hin. by apply elem_of_nil in Hin.
  - unfold items_of, blocks. cbn [mbind list_bind]. apply Permutation_app; [|done]. unfold shift. by rewrite Hp0.
Qed.

(** ** Union and Intersect *)

Lemma copy32_ok b : bucket_ok b → bucket_ok (copy32 b) ∧ els32 (copy32 b) = els32 b ∧ items32 (copy32 b) = items32 b.
Proof. done. Qed.

Lemma hi_union32 b a : hi (union32 b a) = hi b.
Proof. unfold union32. by destruct (union_walk _ _ _ _ _ _). Qed.

Lemma fixItemsCount_spec bs : wf_buckets bs → wf (fixItemsCount bs) ∧ els (fixItemsCount bs) = els_of bs.
Proof.
  intros Hwf. split; [|done]. split; [done|]. unfold els, fixItemsCount. cbn [itemsCount buckets]. rewrite size_els_of by done.
  rewrite fold_sum. unfold items_of. rewrite length_blocks. destruct Hwf as [Hok _]. induction Hok as [|b bs [_ Hb] _ IH]; [done|].
  cbn [foldr fmap list_fmap sum_list]. rewrite getLen32_size by done. unfold els32. rewrite size_list_to_set by (by apply items32_NoDup).
  cbn [sum_list] in *. unfold compose, id in *. lia.
Qed.

Lemma copies_spec bs :
  wf_buckets bs → wf_buckets (copy32 <$> bs) ∧ els_of (copy32 <$> bs) = els_of bs.
Proof.
  intros [Hok Hu]. split; [split|].
  - apply Forall_fmap. exact Hok.
  - clear Hok. unfold uniq, second in *. induction Hu as [|b bs Hb _ IH]; constructor; [|done]. apply Forall_fmap. exact Hb.
  - unfold els_of, items_of, blocks. f_equal. clear. induction bs as [|b bs IH]; [done|]. cbn [fmap list_fmap mbind list_bind]. by f_equal.
Qed.

Lemma Len_zero s : wf s → Len s = 0 → els s = ∅.
Proof. intros [_ Hc] HL. unfold Len in HL. apply leibniz_equiv, size_empty_inv. lia. Qed.

Lemma Clone_spec s : wf s → wf (Clone s) ∧ els (Clone s) = els s.
Proof.
  intros Hwf. unfold Clone. destruct (Z.eqb_spec (itemsCount s) 0) as [E|E].
  - destruct empty_wf as [H1 ->]. split; [done|]. symmetry. by apply Len_zero.
  - destruct Hwf as [Hb Hc]. destruct (copies_spec _ Hb) as [H1 H2]. split; [|exact H2]. split; [exact H1|]. cbn [itemsCount]. rewrite Hc.
    unfold els. by rewrite <- H2.
Qed.

Lemma Union_spec s a : wf s → wf a → tame_set s → tame_set a → wf (Union s a) ∧ els (Union s a) = els s ∪ els a.
Proof.
  intros Hs Ha Ts Ta. unfold Union. destruct (Z.eqb_spec (Len a) 0) as [E|E]; [split; [done|]; rewrite (Len_zero a Ha E); set_solver|].
  destruct (Z.eqb_spec (Len s) 0) as [E'|E'].
  { destruct (Clone_spec a Ha) as [H1 ->]. split; [done|]. rewrite (Len_zero s Hs E'). set_solver. }
  destruct (sort_set_spec s (proj1 (proj1 Hs)) Ts) as (Ws & Es & Os & _). destruct (sort_set_spec a (proj1 (proj1 Ha)) Ta) as (Wa & Ea & Oa & _).
  pose proof (union_walk_uwalk hi union32 copy32 (buckets (sort_set s)) (buckets (sort_set a))) as Hwk. cbn zeta in Hwk.
  destruct (union_walk _ _ _ _ _ _) as [old new]. cbn [fst snd] in Hwk. destruct Ws as [Ws Us], Wa as [Wa Ua].
  assert (Hok : Forall bucket_ok (old ++ new)).
  { eapply uwalk_Forall; [exact Hwk|done|done|done|]. intros x y [Hx Hwx] [Hy Hwy] _. destruct (union32_spec x y Hwx Hwy) as (? & Hh & _).
    split; [by rewrite Hh|done]. }
  assert (Hu : uniq hi items32 (old ++ new)).
  { eapply uwalk_second with (G := bucket_ok); [exact Hwk|done|done|exact Os|exact Oa|exact Us|exact Ua|done|apply hi_union32|done|]. cbn.
    intros x y [_ Hwx] [_ Hwy] Hx Hy. rewrite items32_nil in *. destruct (union32_spec x y Hwx Hwy) as (_ & _ & ->). rewrite Hx, Hy. set_solver. }
  destruct (fixItemsCount_spec (old ++ new) (conj Hok Hu)) as [H1 ->]. split; [done|]. rewrite <- Es, <- Ea. apply set_eq. intros y.
  unfold els. rewrite elem_of_union, !elem_of_els_of by done.
  eapply uwalk_exists with (G := bucket_ok); [exact Hwk|done|done|done|]. intros x z [_ Hwx] [_ Hwz] Hk. unfold holds32.
  destruct (union32_spec x z Hwx Hwz) as (_ & -> & ->). rewrite elem_of_union, Hk. tauto.
Qed.

Lemma Intersect_spec s a : wf s → wf a → tame_set s → tame_set a → wf (Intersect s a) ∧ els (Intersect s a) = els s ∩ els a.
Proof.
  intros Hs Ha Ts Ta. unfold Intersect. destruct (Z.eqb_spec (Len s) 0) as [E|E]; cbn [orb].
  { split; [apply empty_wf|]. rewrite (Len_zero s Hs E), (proj2 empty_wf). set_solver. }
  destruct (Z.eqb_spec (Len a) 0) as [E'|E'].
  { split; [apply empty_wf|]. rewrite (Len_zero a Ha E'), (proj2 empty_wf). set_solver. }
  destruct (sort_set_spec s (proj1 (proj1 Hs)) Ts) as (Ws & Es & Os & Ts'). destruct (sort_set_spec a (proj1 (proj1 Ha)) Ta) as (Wa & Ea & Oa & Ta').
  pose proof (inter_walk_iwalk hi intersect32 (λ _, empty32) (buckets (sort_set s)) (buckets (sort_set a))) as Hwk.
  set (r := inter_walk _ _ _ _ _ _) in *. clearbody r. destruct Ws as [Ws Us], Wa as [Wa Ua].
  destruct (empty32_spec 0) as [Hwe Hie]. change (mk_b32 0 0 [] []) with empty32 in *.
  assert (Hok : Forall bucket_ok r).
  { apply Forall_forall. intros c Hc. rewrite Forall_forall in Ws, Wa.
    destruct (iwalk_mem _ _ _ _ _ _ _ Hwk Hc) as [(x & Hx & ->)|(x & y & Hx & Hy & _ & ->)]; [split; [unfold in_u; cbn; lia|done]|].
    destruct (Ws _ Hx) as [Hhx Hwx], (Wa _ Hy) as [_ Hwy]. destruct (intersect32_spec x y Hwx Hwy) as (? & Hh & _). split; [by rewrite Hh|done]. }
  assert (Hu : uniq hi items32 r).
  { eapply iwalk_second with (G := bucket_ok); [exact Hwk|done|done|exact Os|exact Us| |done|done|].
    - intros b [Hh _]. unfold in_u in Hh. cbn. lia.
    - intros x y [_ Hwx] [_ Hwy] Hx%items32_nil. apply items32_nil. destruct (intersect32_spec x y Hwx Hwy) as (_ & _ & ->). rewrite Hx. set_solver. }
  destruct (fixItemsCount_spec r (conj Hok Hu)) as [H1 ->]. split; [done|]. rewrite <- Es, <- Ea. apply set_eq. intros y.
  assert (Hpairs : ∀ bs, tame hi items32 bs → ForallOrdPairs (λ b c, hi b = hi c → ~ holds32 y b ∧ ~ holds32 y c) bs).
  { intros bs Hbs. eapply ForallOrdPairs_weaken; [|exact Hbs]. cbn. intros b c Hbc Hk. destruct (Hbc Hk) as [E1 E2].
    unfold holds32. rewrite <- !elem_of_items32, E1, E2. split; intros [_ Hn]; by apply elem_of_nil in Hn. }
  unfold els. rewrite elem_of_intersection, !elem_of_els_of by done.
  eapply iwalk_exists with (G := bucket_ok); [exact Hwk|done|done|exact Os|exact Oa| | | |by apply Hpairs|by apply Hpairs].
  - intros b [Hb _]. exact Hb.
  - intros _ [_ Hn]. rewrite <- elem_of_items32, Hie in Hn. by apply elem_of_nil in Hn.
  - intros x z [_ Hwx] [_ Hwz] Hk. unfold holds32. destruct (intersect32_spec x z Hwx Hwz) as (_ & -> & ->). rewrite elem_of_intersection, Hk. tauto.
Qed.

(** ** Subtract and Equal *)

Lemma concat_parts es hi dst :
  foldl (λ dst hb, appendTo16 (snd hb) dst hi (fst hb)) dst es = dst ++ concat ((λ hb, appendTo16 (snd hb) [] hi (fst hb)) <$> es).
Proof.
  revert dst. induction es as [|e es IH]; intros dst; cbn [foldl fmap list_fmap concat]; [by rewrite app_nil_r|]. rewrite IH.
  assert (E : appendTo16 (snd e) dst hi (fst e) = dst ++ appendTo16 (snd e) [] hi (fst e)) by (unfold appendTo16; by destruct (bits (snd e))).
  rewrite E. by rewrite <- app_assoc.
Qed.

Lemma ForEach_spec s : Forall bucket_ok (buckets s) → concat (ForEach s) ≡ₚ items_of (buckets s).
Proof.
  unfold ForEach, items_of, blocks. induction 1 as [|b bs [_ Hb] _ IH]; [done|]. cbn [mbind list_bind]. rewrite concat_app, IH.
  apply Permutation_app; [|done]. destruct (appendTo32_spec b [] Hb) as (l & E & _ & Hp). unfold appendTo32 in E. rewrite concat_parts in E. cbn [app] in E.
  unfold parts32. change (entries b) with (zip (b16his b) (buckets16 b)). rewrite E. unfold shift. by rewrite Hp.
Qed.

Lemma elem_of_ForEach s x : Forall bucket_ok (buckets s) → x ∈ concat (ForEach s) ↔ x ∈ els s.
Proof. intros Hok. rewrite (ForEach_spec s Hok). unfold els, els_of. by rewrite elem_of_list_to_set. Qed.

Lemma Dels_spec l s : wf s → Forall (in_u 64) l → wf (foldl Del s l) ∧ els (foldl Del s l) = els s ∖ list_to_set l.
Proof.
  intros Hwf Hl. revert s Hwf. induction Hl as [|x l Hx _ IH]; intros s Hwf; cbn [foldl list_to_set]; [split; [done|set_solver]|].
  destruct (Del_spec s x Hwf Hx) as [H1 H2]. destruct (IH _ H1) as [H3 ->]. split; [done|]. rewrite H2. set_solver.
Qed.

Lemma Subtract_spec s a : wf s → wf a → wf (Subtract s a) ∧ els (Subtract s a) = els s ∖ els a.
Proof.
  intros Hs Ha. unfold Subtract. destruct (Z.eqb_spec (Len s) 0) as [E|E]; cbn [orb]; [split; [done|]; rewrite (Len_zero s Hs E); set_solver|].
  destruct (Z.eqb_spec (Len a) 0) as [E'|E']; [split; [done|]; rewrite (Len_zero a Ha E'); set_solver|].
  destruct Ha as [[Hok _] _]. destruct (Dels_spec (concat (ForEach a)) s Hs) as [H1 H2].
  { apply Forall_forall. intros x Hx. rewrite elem_of_ForEach in Hx by done. by eapply els_of_in_u. }
  split; [done|]. rewrite H2. f_equal. apply set_eq. intros y. by rewrite elem_of_list_to_set, elem_of_ForEach.
Qed.

Lemma Equal_spec s a : wf s → wf a → Equal s a = bool_decide (els s = els a).
Proof.
  intros Hs Ha. unfold Equal, Len. assert (Hs' := Hs). destruct Hs' as [_ Hcs]. assert (Ha' := Ha). destruct Ha' as [[Hok _] Hca]. rewrite Hcs, Hca.
  destruct (Z.eqb_spec (Z.of_nat (size (els s))) (Z.of_nat (size (els a)))) as [E|E]; cbn [negb].
  - apply eq_true_iff_eq. rewrite bool_decide_eq_true, forallb_forall. setoid_rewrite <- list_elem_of_In. split.
    + intros Hall. symmetry. apply set_subseteq_size_eq; [|lia]. intros x Hx. specialize (Hall x). rewrite elem_of_ForEach, Has_spec, bool_decide_eq_true in Hall; [auto|done|by eapply els_of_in_u|done].
    + intros He x Hx. rewrite elem_of_ForEach in Hx by done. rewrite Has_spec, bool_decide_eq_true by (done || by eapply els_of_in_u). by rewrite He.
  - symmetry. apply bool_decide_false. intros He. apply E. by rewrite He.
Qed.
End Ops.

(** ** Programs *)

(** A run of the operations on one set; the other operand is a set of its own. *)
Inductive cmd := CAdd (x : Z) | CAddMulti (a : list Z) | CDel (x : Z) | CUnion (a : Set_) | CIntersect (a : Set_) | CSubtract (a : Set_) | CAppendTo.

Definition cmd_ok (c : cmd) : Prop :=
  match c with
  | CAdd x | CDel x => in_u 64 x
  | CAddMulti a => Forall (in_u 64) a
  | CUnion a | CIntersect a | CSubtract a => wf a
  | CAppendTo => True
  end.

Definition exec {S : GoSort} (s : Set_) (c : cmd) : Set_ :=
  match c with
  | CAdd x => Add s x
  | CAddMulti a => AddMulti s a
  | CDel x => Del s x
  | CUnion a => Union s a
  | CIntersect a => Intersect s a
  | CSubtract a => Subtract s a
  | CAppendTo => fst (AppendTo s [])
  end.

Definition spec (X : gset Z) (c : cmd) : gset Z :=
  match c with
  | CAdd x => {[x]} ∪ X
  | CAddMulti a => list_to_set a ∪ X
  | CDel x => X ∖ {[x]}
  | CUnion a => X ∪ els a
  | CIntersect a => X ∩ els a
  | CSubtract a => X ∖ els a
  | CAppendTo => X
  end.

(** No bucket with items shares its high bits with another one, so that any sorted order of the
    buckets is as good as another. *)
Fixpoint sort_safe (bs : list bucket32) : bool :=
  match bs with
  | [] => true
  | b :: bs => forallb (λ c, negb (hi b =? hi c) || (getLen32 b =? 0) && (getLen32 c =? 0)) bs && sort_safe bs
  end.

Definition cmd_safe (s : Set_) (c : cmd) : bool :=
  match c with
  | CUnion a | CIntersect a => sort_safe (buckets s) && sort_safe (buckets a)
  | CAppendTo => sort_safe (buckets s)
  | _ => true
  end.
Fixpoint run_safe {S : GoSort} (s : Set_) (cs : list cmd) : bool :=
  match cs with
  | [] => true
  | c :: cs => cmd_safe s c && run_safe (exec s c) cs
  end.

Definition no_intersect (c : cmd) : Prop :=
  match c with CIntersect _ => False | CUnion a | CSubtract a => distinct a | _ => True end.

Lemma getLen32_zero b : wf32 b → getLen32 b = 0 ↔ items32 b = [].
Proof.
  intros Hwf. rewrite getLen32_size, items32_nil by done. split; [intros H; apply leibniz_equiv, size_empty_inv; lia|]. by intros ->.
Qed.

Lemma sort_safe_tame bs : Forall bucket_ok bs → sort_safe bs = true ↔ tame hi items32 bs.
Proof.
  unfold tame. induction 1 as [|b bs [_ Hb] Hok IH]; [split; [constructor|done]|]. cbn [sort_safe]. rewrite andb_true_iff, IH, forallb_forall.
  setoid_rewrite <- list_elem_of_In. rewrite Forall_forall in Hok.
  assert (Hiff : (∀ c, c ∈ bs → negb (hi b =? hi c) || (getLen32 b =? 0) && (getLen32 c =? 0) = true) ↔
                 Forall (λ c, hi b = hi c → items32 b = [] ∧ items32 c = []) bs).
  { rewrite Forall_forall. apply forall_proper. intros c. split; intros H Hc; specialize (H Hc); destruct (Hok c Hc) as [_ Hwc].
    - rewrite orb_true_iff, negb_true_iff, andb_true_iff, Z.eqb_neq, !Z.eqb_eq, !getLen32_zero in H by done. tauto.
    - rewrite orb_true_iff, negb_true_iff, andb_true_iff, Z.eqb_neq, !Z.eqb_eq, !getLen32_zero by done. destruct (decide (hi b = hi c)); tauto. }
  rewrite Hiff. split; [intros [? ?]; by constructor|]. intros Hf. by inversion Hf.
Qed.

Lemma distinct_tame s : distinct s → tame hi items32 (buckets s).
Proof. intros Hd. eapply ForallOrdPairs_weaken; [|exact Hd]. by intros b c ? ?. Qed.

Section Runs.
Context {S : GoSort} `{!GoSortLaws S}.

Lemma exec_spec s c : wf s → cmd_ok c → cmd_safe s c = true → wf (exec s c) ∧ els (exec s c) = spec (els s) c.
Proof.
  intros Hwf Hok Hs. assert (Hb : ∀ s, wf s → sort_safe (buckets s) = true → tame_set s) by (intros s' Hs' ?; apply sort_safe_tame; [apply Hs'|done]).
  destruct c as [x|a|x|a|a|a|]; cbn [cmd_ok cmd_safe exec spec] in *; rewrite ?andb_true_iff in Hs.
  - by apply Add_spec.
  - destruct (AddMulti_spec s a Hwf Hok) as (? & ? & _). done.
  - by apply Del_spec.
  - destruct Hs. apply Union_spec; auto.
  - destruct Hs. apply Intersect_spec; auto.
  - by apply Subtract_spec.
  - destruct (AppendTo_spec s [] Hwf (Hb s Hwf Hs)) as (? & ? & _). done.
Qed.

Lemma run_spec cs s :
  wf s → Forall cmd_ok cs → run_safe s cs = true → wf (foldl exec s cs) ∧ els (foldl exec s cs) = foldl spec (els s) cs.
Proof.
  intros Hwf Hok. revert s Hwf. induction Hok as [|c cs Hc _ IH]; intros s Hwf Hs; [done|]. cbn [run_safe foldl] in *.
  apply andb_true_iff in Hs as [Hs1 Hs2]. destruct (exec_spec s c Hwf Hc Hs1) as [H1 H2]. rewrite <- H2. by apply IH.
Qed.

(** *** Without Intersect nothing can go wrong *)

Lemma distinct_sort s : distinct s → distinct (sort_set s).
Proof.
  intros Hd. unfold distinct, sort_set in *. cbn [buckets]. change (λ a b : bucket32, hi a <? hi b) with (key_less hi).
  eapply ForallOrdPairs_perm; [|symmetry; apply (sort_if_spec (key_less hi))|exact Hd]. intros b c Hbc Hcb. by apply Hbc.
Qed.

Lemma distinct_Del s x : wf s → in_u 64 x → distinct s → distinct (Del s x).
Proof.
  intros Hwf Hx Hd. unfold distinct, Del in *. destruct (on_bucket_slot (hi32 x) (λ b, del32 b (lo32 x)) false false (buckets s)) as [(pre & b & post & Hslot & _ & E)|(_ & _ & E)];
    rewrite E; cbn [buckets]; [|done]. destruct Hwf as [Hwf _]. destruct (split64 x Hx) as (Eh & El & Hh & Hlo). rewrite Eh, El in *.
  eapply slot_distinct; [exact Hd|exact Hslot|]. by destruct (del32_spec b (x mod 2 ^ 32) (slot_wf _ _ _ _ _ Hh Hwf Hslot) Hlo) as (_ & ? & _).
Qed.
Lemma distinct_Add s x : wf s → in_u 64 x → distinct s → distinct (Add s x).
Proof.
  intros Hwf Hx Hd. unfold distinct, Add in *. destruct (on_bucket_slot (hi32 x) (λ b, add32 b (lo32 x)) false true (buckets s)) as [(pre & b & post & Hslot & _ & E)|(_ & _ & E)];
    rewrite E; cbn [buckets]; [|done]. destruct Hwf as [Hwf _]. destruct (split64 x Hx) as (Eh & El & Hh & Hlo). rewrite Eh, El in *.
  eapply slot_distinct; [exact Hd|exact Hslot|]. by destruct (add32_spec b (x mod 2 ^ 32) (slot_wf _ _ _ _ _ Hh Hwf Hslot) Hlo) as (_ & ? & _).
Qed.
Lemma distinct_Dels l s : wf s → Forall (in_u 64) l → distinct s → distinct (foldl Del s l).
Proof.
  intros Hwf Hl. revert s Hwf. induction Hl as [|x l Hx _ IH]; intros s Hwf Hd; [done|]. cbn [foldl]. apply IH; [by apply Del_spec|by apply distinct_Del].
Qed.

Lemma distinct_Union s a : Forall bucket_ok (buckets s) → Forall bucket_ok (buckets a) → distinct s → distinct a → distinct (Union s a).
Proof.
  intros Hs Ha Ds Da. unfold Union. bcase; [done|]. bcase.
  - unfold Clone, distinct in *. bcase; [constructor|]. cbn [buckets]. clear -Da. induction Da as [|b bs Hb _ IH]; constructor; [|done]. by apply Forall_fmap.
  - destruct (sort_set_spec s Hs (distinct_tame s Ds)) as ([Ws _] & _ & Os & _). destruct (sort_set_spec a Ha (distinct_tame a Da)) as ([Wa _] & _ & Oa & _).
    pose proof (union_walk_uwalk hi union32 copy32 (buckets (sort_set s)) (buckets (sort_set a))) as Hwk. cbn zeta in Hwk.
    destruct (union_walk _ _ _ _ _ _) as [old new]. cbn [fst snd] in Hwk. unfold distinct. cbn [fixItemsCount buckets].
    eapply (uwalk_second) with (G := bucket_ok) (E := λ _, False);
      [exact Hwk|done|done|exact Os|exact Oa|by apply distinct_sort|by apply distinct_sort|done|apply hi_union32|done|done].
Qed.

Lemma no_intersect_safe cs s :
  wf s → distinct s → Forall cmd_ok cs → Forall no_intersect cs → run_safe s cs = true ∧ distinct (foldl exec s cs).
Proof.
  intros Hwf Hd Hok Hn. revert s Hwf Hd. induction Hn as [|c cs Hc _ IH]; intros s Hwf Hd; [done|]. inversion Hok as [|? ? Hc' Hok']; subst.
  assert (Hb : ∀ s, wf s → distinct s → sort_safe (buckets s) = true) by (intros s' Hs' Hd'; apply sort_safe_tame; [apply Hs'|by apply distinct_tame]).
  assert (Hsafe : cmd_safe s c = true).
  { destruct c; cbn in *; rewrite ?andb_true_iff; auto; done. }
  destruct (exec_spec s c Hwf Hc' Hsafe) as [Hwf' _]. cbn [run_safe foldl]. rewrite Hsafe. cbn [andb]. apply IH; [done|done|].
  destruct c as [x|a|x|a|a|a|]; cbn in *; [by apply distinct_Add| |by apply distinct_Del| |done| |by apply distinct_sort].
  - destruct (AddMulti_spec s a Hwf Hc') as (_ & _ & H). auto.
  - apply distinct_Union; [apply Hwf|apply Hc'|done|done].
  - unfold Subtract. case_match; [done|]. apply distinct_Dels; [done| |done]. destruct Hc' as [[Hoka _] _]. apply Forall_forall. intros x Hx.
    rewrite elem_of_ForEach in Hx by done. by eapply els_of_in_u.
Qed.
End Runs.

(** C15: A uint64set behaves as a finite set of 64-bit numbers, as long as its buckets are told
    apart by their high bits. Start from the empty set and run any sequence of Add, AddMulti,
    Del, Union, Subtract and AppendTo without Intersect (on arguments that also come without
    it), or any sequence with Intersect in which no Union, Intersect or AppendTo sorts buckets
    of which one with items shares its high bits with another ([run_safe]). Then Has tests
    membership in the mathematical set those operations describe, Len is its size, Equal
    decides equality with another set, and AppendTo appends its elements in ascending order
    (after Intersect again if the buckets are told apart), whatever order sort.Sort picks among
    equal keys. The pools, bitmaps, hints, binary searches and the order of the buckets do not
    show. Without the condition numbers can be lost: [Intersect_sort_loses]. *)
Theorem uint64set_refines {S : GoSort} `{!GoSortLaws S} cs :
  Forall cmd_ok cs → Forall no_intersect cs ∨ run_safe emptySet cs = true →
  let s := foldl exec emptySet cs in
  let X := foldl spec ∅ cs in
  (∀ x, in_u 64 x → Has s x = bool_decide (x ∈ X)) ∧
  Len s = Z.of_nat (size X) ∧
  (∀ a, wf a → Equal s a = bool_decide (X = els a)) ∧
  (Forall no_intersect cs ∨ sort_safe (buckets s) = true → ∀ dst, ∃ l, snd (AppendTo s dst) = dst ++ l ∧ StronglySorted Z.lt l ∧ list_to_set l = X).
Proof.
  intros Hok Hsafe s X. destruct empty_wf as [Hwe Hee].
  assert (Hrun : run_safe emptySet cs = true) by (destruct Hsafe as [Hn|?]; [|done]; by apply no_intersect_safe; [|constructor|..]).
  destruct (run_spec cs emptySet Hwe Hok Hrun) as [Hwf He]. rewrite Hee in He. fold s X in Hwf, He. rewrite <- He.
  split; [intros x Hx; by apply Has_spec|]. split; [apply Hwf|]. split; [intros a Ha; by apply Equal_spec|].
  intros Ht dst. apply AppendTo_spec; [done|]. destruct Ht as [Hn|Ht]; [|apply sort_safe_tame; [apply Hwf|done]].
  apply distinct_tame. by apply no_intersect_safe; [|constructor|..].
Qed.

(** ** Intersect and unstable sorts

    Intersect resets the buckets it empties to bucket32{}, whose high bits are 0.  The real
    bucket for the numbers below 2^32 stays in front of them until the next sort; sort.Sort may
    then exchange the two, and these numbers are lost. *)

Definition reversing_sort : GoSort := {| sort_by := λ _ less l, insertion_sort less (reverse l) |}.

#[export] Instance reversing_sort_laws : GoSortLaws reversing_sort.
Proof.
  split; cbn; intros A less l.
  - destruct (insertion_sort_spec less (reverse l) []) as [Hp _]. rewrite app_nil_r in Hp. etransitivity; [exact Hp|]. apply reverse_Permutation.
  - intros Hsw. by apply insertion_sort_spec; [|constructor].
Qed.

Definition of_list (l : list Z) : Set_ := AddMulti emptySet l.

Definition losing_program : list cmd :=
  [CAddMulti [5; 2 ^ 32 + 1; 3 * 2 ^ 32]; CIntersect (of_list [5; 3 * 2 ^ 32]); CAdd (2 * 2 ^ 32); CAppendTo].

Lemma Intersect_sort_loses :
  Has (foldl (exec (S := insertion_go_sort)) emptySet losing_program) 5 = true ∧
  Has (foldl (exec (S := reversing_sort)) emptySet losing_program) 5 = false ∧
  Len (foldl (exec (S := reversing_sort)) emptySet losing_program) = 3 ∧
  run_safe (S := reversing_sort) emptySet losing_program = false.
Proof. vm_compute. done. Qed.

Definition safe_program : list cmd :=
  [CAddMulti [2 ^ 32 + 7; 2 ^ 32 + 8; 3; 2 ^ 40]; CAdd 3; CDel 3; CUnion (of_list [9; 2 ^ 40]);
   CIntersect (of_list [9; 2 ^ 32 + 8; 2 ^ 40]); CSubtract (of_list [2 ^ 40])].

Lemma of_list_wf l : Forall (in_u 64) l → wf (of_list l).
Proof. intros Hl. by apply AddMulti_spec; [apply empty_wf|]. Qed.

Lemma safe_program_ok : Forall cmd_ok safe_program.
Proof.
  assert (Hu : Forall (in_u 64) [2 ^ 32 + 7; 2 ^ 32 + 8; 3; 2 ^ 40] ∧ in_u 64 3 ∧ Forall (in_u 64) [9; 2 ^ 40] ∧
    Forall (in_u 64) [9; 2 ^ 32 + 8; 2 ^ 40] ∧ Forall (in_u 64) [2 ^ 40]) by by_compute.
  destruct Hu as (H1 & H2 & H3 & H4 & H5). unfold safe_program. rewrite !Forall_cons. split; [exact H1|]. split; [exact H2|]. split; [exact H2|].
  split; [by apply of_list_wf|]. split; [by apply of_list_wf|]. split; [by apply of_list_wf|constructor].
Qed.

Lemma uint64set_refines_witness :
  run_safe (S := reversing_sort) emptySet safe_program = true ∧
  Has (foldl (exec (S := reversing_sort)) emptySet safe_program) 9 = bool_decide (9 ∈ foldl spec ∅ safe_program).
Proof.
  assert (Hs : run_safe (S := reversing_sort) emptySet safe_program = true) by (vm_compute; reflexivity). split; [exact Hs|].
  destruct (uint64set_refines (S := reversing_sort) safe_program safe_program_ok (or_intror Hs)) as [Hhas _].
  apply Hhas. split; done.
Defined.
