(* ===== verification/SparseIndex.v ===== *)
(** * engine/index/sparseindex: the primary key index of a column store file

    A file is cut into fragments; the index has the primary key of the first row of each
    fragment and of the last row of the file.  A condition is turned into a list of elements
    in reverse Polish notation, each a range of one key column, and Scan returns the fragments
    that may have rows for it (range.go, mark.go, field.go, util.go, condition.go,
    primary_index.go; lib/rpn, lib/fragment).

    A FieldRef points into the columns of the index or of the constants of the condition, and
    closing an open integer range writes through that pointer, so both sets of columns are a
    store that is threaded through.  A column is the list of its cells: that ColVal implements
    such lists is shown in ColRefine.v and ColStrings.v. *)

From S2P Require Import Prelude ColVal.

(** ** Cells *)

(** A float64 and an int64 are stored as the same 64 bits and told apart by the type of the
    column; a value that was appended as another type is out of the model ([Panic]). *)
Inductive val := VWord (w : Z) | VBytes (s : list Z) | VBool (b : bool).

Definition IntegerValue (c : option val) : res (Z * bool) :=
  match c with None => Ok (0, true) | Some (VWord w) => Ok (i64 w, false) | Some _ => Panic end.
Definition FloatValue (c : option val) : res (Z * bool) :=
  match c with None => Ok (0, true) | Some (VWord w) => Ok (u64 w, false) | Some _ => Panic end.
Definition BytesUnsafe (c : option val) : res (list Z * bool) :=
  match c with None => Ok ([], true) | Some (VBytes s) => Ok (s, false) | Some _ => Panic end.
Definition BooleanValue (c : option val) : res (bool * bool) :=
  match c with None => Ok (false, true) | Some (VBool b) => Ok (b, false) | Some _ => Panic end.

(** bytes.Compare *)
Fixpoint lex_cmp (s t : list Z) : comparison :=
  match s, t with
  | [], [] => Eq
  | [], _ => Lt
  | _, [] => Gt
  | x :: s, y :: t => match x ?= y with Eq => lex_cmp s t | c => c end
  end.

(** The order of float64 on the bits: sign and magnitude; a NaN compares false. *)
Definition float_NaN (w : Z) : bool := 0x7FF0000000000000 <? w mod 2 ^ 63.
Definition float_key (w : Z) : Z := if w <? 2 ^ 63 then w mod 2 ^ 63 else - (w mod 2 ^ 63).
Definition float_eqb (v w : Z) : bool := negb (float_NaN v) && negb (float_NaN w) && (float_key v =? float_key w).
Definition float_ltb (v w : Z) : bool := negb (float_NaN v) && negb (float_NaN w) && (float_key v <? float_key w).

(** ** Columns and references (field.go, util.go) *)

Record ColumnRef := mk_col { c_name : string; dataType : FieldType; column : list (option val) }.

(** Which columns a reference points into; the two infinities have none. *)
Inductive colset := NoCols | IndexCols | KeyCols.
Record store := mk_store { index_cols : list ColumnRef; key_cols : list ColumnRef }.
Record FieldRef := mk_ref { f_cols : colset; f_column : nat; f_row : Z }.

Definition MinInt64 : Z := - 2 ^ 63.
Definition MaxInt64 : Z := 2 ^ 63 - 1.
Definition NEGATIVE_INFINITY : FieldRef := mk_ref NoCols 0 MinInt64.
Definition POSITIVE_INFINITY : FieldRef := mk_ref NoCols 0 MaxInt64.
Definition IsPositiveInfinity (f : FieldRef) : bool := f_row f =? MaxInt64.
Definition IsNegativeInfinity (f : FieldRef) : bool := f_row f =? MinInt64.

Definition cols_of (st : store) (c : colset) : list ColumnRef :=
  match c with NoCols => [] | IndexCols => index_cols st | KeyCols => key_cols st end.
Definition col_of (st : store) (f : FieldRef) : res ColumnRef :=
  match cols_of st (f_cols f) !! f_column f with Some c => Ok c | None => Panic end.
Definition cell_of (c : ColumnRef) (row : Z) : res (option val) :=
  if row <? 0 then Panic else match column c !! Z.to_nat row with Some v => Ok v | None => Panic end.

Definition set_cell (row : Z) (v : val) (c : ColumnRef) : ColumnRef :=
  mk_col (c_name c) (dataType c) (<[Z.to_nat row := Some v]> (column c)).
Definition update_cell (st : store) (f : FieldRef) (v : val) : store :=
  match f_cols f with
  | NoCols => st
  | IndexCols => mk_store (alter (set_cell (f_row f) v) (f_column f) (index_cols st)) (key_cols st)
  | KeyCols => mk_store (index_cols st) (alter (set_cell (f_row f) v) (f_column f) (key_cols st))
  end.

Definition eq_cells {A} (rd : option val → res (A * bool)) (eqb : A → A → bool) (c d : option val) : res bool :=
  let! v := rd c in let! w := rd d in
  Ok ((negb (snd v) && negb (snd w) && eqb (fst v) (fst w)) || (snd v && snd w)).
Definition lt_cells {A} (rd : option val → res (A * bool)) (ltb : A → A → bool) (c d : option val) : res bool :=
  let! v := rd c in let! w := rd d in
  Ok ((negb (snd v) && negb (snd w) && ltb (fst v) (fst w)) || (snd v && negb (snd w))).

Definition is_inf (f : FieldRef) : bool := IsPositiveInfinity f || IsNegativeInfinity f.

(** The two cells of a comparison, of the same type. *)
Definition two_cells (st : store) (f g : FieldRef) : res (FieldType * option val * option val) :=
  let! c := col_of st f in let! d := col_of st g in
  if negb (bool_decide (dataType c = dataType d)) then Panic
  else let! v := cell_of c (f_row f) in let! w := cell_of d (f_row g) in Ok (dataType c, v, w).

Definition Equals (st : store) (f rhs : FieldRef) : res bool :=
  if is_inf f || is_inf rhs
  then Ok ((IsPositiveInfinity f && IsPositiveInfinity rhs) || (IsNegativeInfinity f && IsNegativeInfinity rhs))
  else
    let! (t, v, w) := two_cells st f rhs in
    match t with
    | Field_Type_Int => eq_cells IntegerValue Z.eqb v w
    | Field_Type_Float => eq_cells FloatValue float_eqb v w
    | Field_Type_String | Field_Type_Tag => eq_cells BytesUnsafe (λ s t, bool_decide (s = t)) v w
    | Field_Type_Boolean => eq_cells BooleanValue Bool.eqb v w
    | _ => Panic
    end.

Definition Less (st : store) (f rhs : FieldRef) : res bool :=
  if is_inf f || is_inf rhs
  then Ok ((IsNegativeInfinity f && negb (IsNegativeInfinity rhs)) || (negb (IsPositiveInfinity f) && IsPositiveInfinity rhs))
  else
    let! (t, v, w) := two_cells st f rhs in
    match t with
    | Field_Type_Int => lt_cells IntegerValue Z.ltb v w
    | Field_Type_Float => lt_cells FloatValue float_ltb v w
    | Field_Type_String | Field_Type_Tag => lt_cells BytesUnsafe (λ s t, match lex_cmp s t with Lt => true | _ => false end) v w
    | Field_Type_Boolean => lt_cells BooleanValue (λ a b, negb a && b) v w
    | _ => Panic
    end.

Definition IsNull (st : store) (f : FieldRef) : res bool :=
  let! c := col_of st f in let! v := cell_of c (f_row f) in Ok (match v with None => true | Some _ => false end).
Definition SetPositiveInfinity (f : FieldRef) : FieldRef := mk_ref (f_cols f) (f_column f) MaxInt64.

(** ** Ranges (range.go) *)

Record Range := mk_range { left_ : FieldRef; right_ : FieldRef; leftIncluded : bool; rightIncluded : bool }.

(** A bound that is excluded, of an integer column, and not the extreme value, moves by one:
    the cell itself is changed. *)
Definition close_bound (st : store) (f : FieldRef) (included : bool) (delta extreme : Z) : res (store * bool) :=
  match cols_of st (f_cols f) with
  | [] => Ok (st, included)
  | _ =>
      if included then Ok (st, included)
      else
        let! c := col_of st f in
        if negb (bool_decide (dataType c = Field_Type_Int)) then Ok (st, included)
        else
          let! v := cell_of c (f_row f) in
          let! v := IntegerValue v in
          if fst v =? extreme then Ok (st, included)
          else Ok (update_cell st f (VWord (u64 (fst v + delta))), true)
  end.
Definition turnOpenRangeIntoClosed (st : store) (r : Range) : res (store * Range) :=
  let! l := close_bound st (left_ r) (leftIncluded r) 1 MaxInt64 in
  let! u := close_bound (fst l) (right_ r) (rightIncluded r) (-1) MinInt64 in
  Ok (fst u, mk_range (left_ r) (right_ r) (snd l) (snd u)).

(** [a || b] and [a && b] with the right side evaluated only when needed. *)
Definition or_else (a b : res bool) : res bool := let! x := a in if x then Ok true else b.
Definition and_then (a b : res bool) : res bool := let! x := a in if x then b else Ok false.

Definition leftLEQ (st : store) (r : Range) (x : FieldRef) : res bool :=
  or_else (Less st (left_ r) x) (and_then (Ok (leftIncluded r)) (Equals st x (left_ r))).
Definition rightGEQ (st : store) (r : Range) (x : FieldRef) : res bool :=
  or_else (Less st x (right_ r)) (and_then (Ok (rightIncluded r)) (Equals st x (right_ r))).
Definition rightLQ (st : store) (r nr : Range) : res bool :=
  or_else (Less st (right_ r) (left_ nr)) (and_then (Ok (negb (rightIncluded r) || negb (leftIncluded nr))) (Equals st (left_ nr) (right_ r))).
Definition intersectsRange (st : store) (r nr : Range) : res bool :=
  let! x := or_else (rightLQ st r nr) (rightLQ st nr r) in Ok (negb x).
Definition containsRange (st : store) (r nr : Range) : res bool :=
  and_then (leftLEQ st r (left_ nr)) (rightGEQ st r (right_ nr)).

Definition createWholeRangeIncludeBound : Range := mk_range NEGATIVE_INFINITY POSITIVE_INFINITY true true.
Definition createWholeRangeWithoutBound : Range := mk_range NEGATIVE_INFINITY POSITIVE_INFINITY false false.

Definition createRightBounded (st : store) (right : FieldRef) (ri isInfinityIncluded : bool) : res (store * Range) :=
  let! p := turnOpenRangeIntoClosed st (mk_range NEGATIVE_INFINITY right isInfinityIncluded ri) in
  let nr := snd p in
  Ok (fst p, if IsNegativeInfinity (right_ nr) && ri then mk_range (left_ nr) (right_ nr) true (rightIncluded nr) else nr).
Definition createLeftBounded (st : store) (left : FieldRef) (li isInfinityIncluded : bool) : res (store * Range) :=
  let! p := turnOpenRangeIntoClosed st (mk_range left POSITIVE_INFINITY li isInfinityIncluded) in
  let nr := snd p in
  Ok (fst p, if IsPositiveInfinity (left_ nr) && li then mk_range (left_ nr) (right_ nr) (leftIncluded nr) true else nr).

(** ** Marks (mark.go) *)

Record Mark := mk_Mark { canBeTrue : bool; canBeFalse : bool }.
Definition ConsiderOnlyBeTrue : Mark := mk_Mark false true.
Definition And (m mask : Mark) : Mark := mk_Mark (canBeTrue m && canBeTrue mask) (canBeFalse m || canBeFalse mask).
Definition Or (m mask : Mark) : Mark := mk_Mark (canBeTrue m || canBeTrue mask) (canBeFalse m && canBeFalse mask).
Definition Not (m : Mark) : Mark := mk_Mark (canBeFalse m) (canBeTrue m).
Definition isComplete (m : Mark) : bool := canBeFalse m && canBeTrue m.

(** ** Conditions in reverse Polish notation (lib/rpn, util.go) *)

(** The tokens and expressions the conversion tells apart. *)
Inductive Token := AND | OR | EQ | NEQ | LT | LTE | GT | GTE | MATCHPHRASE | IN | ILLEGAL | OtherToken.
Inductive Expr :=
  | BinaryExpr (op : Token) (LHS RHS : Expr)
  | ParenExpr (e : Expr)
  | VarRef (name : string)
  | StringLiteral (v : list Z)
  | NumberLiteral (v : Z)
  | IntegerLiteral (v : Z)
  | BooleanLiteral (v : bool)
  | OtherExpr.

(** The elements of RPNExpr.Val: leaves of the expression and operators. *)
Inductive RPNVal := RLeaf (e : Expr) | RTok (t : Token).

(** A missing entry of the map gives the zero token. *)
Definition switchMap (t : Token) : Token :=
  match t with
  | GT => LT | LT => GT | GTE => LTE | LTE => GTE | EQ => EQ | NEQ => NEQ | MATCHPHRASE => MATCHPHRASE
  | _ => ILLEGAL
  end.

Fixpoint ConvertToRPNExpr (e : Expr) : list RPNVal :=
  match e with
  | BinaryExpr op l r =>
      match r with
      | VarRef _ => ConvertToRPNExpr r ++ ConvertToRPNExpr l ++ [RTok (switchMap op)]
      | _ => ConvertToRPNExpr l ++ ConvertToRPNExpr r ++ [RTok op]
      end
  | ParenExpr e => ConvertToRPNExpr e
  | VarRef _ | StringLiteral _ | NumberLiteral _ | IntegerLiteral _ | BooleanLiteral _ => [RLeaf e]
  | OtherExpr => []
  end.

Definition CombineConditionWithAnd (lhs rhs : option Expr) : option Expr :=
  match lhs, rhs with None, _ => rhs | _, None => lhs | Some l, Some r => Some (BinaryExpr AND l r) end.

(** Op of lib/rpn with the range of an element; sets are never built. *)
Inductive RPNElement :=
  | InRange (rg : Range) (keyColumn : nat)
  | NotInRange (rg : Range) (keyColumn : nat)
  | InSet (keyColumn : nat)
  | NotInSet (keyColumn : nat)
  | OpNOT | OpAND | OpOR | OpMATCHPHRASE | AlwaysTrue | AlwaysFalse | UNKNOWN.

(** [None] for an operator without an element. *)
Definition genRPNElementByOp (st : store) (op : Token) (value : FieldRef) (idx : nat) : res (store * option RPNElement) :=
  match op with
  | EQ | MATCHPHRASE => Ok (st, Some (InRange (mk_range value value true true) idx))
  | NEQ => Ok (st, Some (NotInRange (mk_range value value true true) idx))
  | LT => let! p := createRightBounded st value false false in Ok (fst p, Some (InRange (snd p) idx))
  | GT => let! p := createLeftBounded st value false false in Ok (fst p, Some (InRange (snd p) idx))
  | LTE => let! p := createRightBounded st value true false in Ok (fst p, Some (InRange (snd p) idx))
  | GTE => let! p := createLeftBounded st value true false in Ok (fst p, Some (InRange (snd p) idx))
  | IN => Ok (st, Some (InSet idx))
  | _ => Ok (st, None)
  end.

Definition add_cell (v : val) (c : ColumnRef) : ColumnRef := mk_col (c_name c) (dataType c) (column c ++ [Some v]).
Definition literal (e : Expr) : option val :=
  match e with
  | StringLiteral s => Some (VBytes s)
  | NumberLiteral w => Some (VWord w)
  | IntegerLiteral z => Some (VWord (u64 z))
  | BooleanLiteral b => Some (VBool b)
  | _ => None
  end.

(** The constant becomes the last cell of the key column. *)
Definition genRPNElementByVal (st : store) (rhs : RPNVal) (op : Token) (idx : nat) : res (store * option RPNElement) :=
  match rhs with
  | RLeaf e =>
      match literal e with
      | None => Err "ErrRPNElement"
      | Some v =>
          match key_cols st !! idx with
          | None => Panic
          | Some c =>
              let st := mk_store (index_cols st) (<[idx := add_cell v c]> (key_cols st)) in
              genRPNElementByOp st op (mk_ref KeyCols idx (Z.of_nat (length (column c)))) idx
          end
      end
  | RTok _ => Err "ErrRPNElement"
  end.

Definition FieldIndex (schema : list (string * FieldType)) (name : string) : option nat :=
  fst <$> list_find (λ f, fst f = name) schema.

Fixpoint convertToRPNElem (schema : list (string * FieldType)) (st : store) (vals : list RPNVal) : res (store * list RPNElement) :=
  match vals with
  | [] => Ok (st, [])
  | RTok t :: rest =>
      match t with
      | AND => let! p := convertToRPNElem schema st rest in Ok (fst p, OpAND :: snd p)
      | OR => let! p := convertToRPNElem schema st rest in Ok (fst p, OpOR :: snd p)
      | EQ | LT | LTE | GT | GTE | NEQ | MATCHPHRASE => convertToRPNElem schema st rest
      | _ => Err "ErrRPNOp"
      end
  | RLeaf (VarRef v) :: rest =>
      match FieldIndex schema v with
      | None => let! p := convertToRPNElem schema st rest in Ok (fst p, AlwaysTrue :: snd p)
      | Some idx =>
          match rest with
          | value :: op :: _ =>
              match op with
              | RTok op =>
                  let! p := genRPNElementByVal st value op idx in
                  let! q := convertToRPNElem schema (fst p) rest in
                  Ok (fst q, match snd p with Some e => e :: snd q | None => snd q end)
              | RLeaf _ => Err "ErrRPNElemOp"
              end
          | _ => Err "ErrRPNElemNum"
          end
      end
  | RLeaf (StringLiteral _ | NumberLiteral _ | IntegerLiteral _ | BooleanLiteral _) :: rest => convertToRPNElem schema st rest
  | RLeaf _ :: _ => Err "ErrRPNExpr"
  end.

Definition genIndexColumnsBySchema (schema : list (string * FieldType)) : list ColumnRef := (λ f, mk_col (fst f) (snd f) []) <$> schema.

(** The elements and the columns of their constants. *)
Definition NewKeyCondition (timeCondition condition : option Expr) (schema : list (string * FieldType)) : res (list ColumnRef * list RPNElement) :=
  let vals := match CombineConditionWithAnd timeCondition condition with Some e => ConvertToRPNExpr e | None => [] end in
  let! p := convertToRPNElem schema (mk_store [] (genIndexColumnsBySchema schema)) vals in
  Ok (key_cols (fst p), snd p).

(** ** Checking a product of ranges (condition.go) *)

(** Top of the stack first. *)
Definition checkInRangeForRange (st : store) (rgs : list Range) (stack : list Mark) (rg : Range) (keyColumn : nat) (negated : bool) : res (list Mark) :=
  match rgs !! keyColumn with
  | None => Panic
  | Some keyRange =>
      let! i := intersectsRange st rg keyRange in
      let! c := containsRange st rg keyRange in
      let m := mk_Mark i (negb c) in
      Ok ((if negated then Not m else m) :: stack)
  end.

Definition checkInRangeForSet (stack : list Mark) (negated : bool) : list Mark :=
  (if negated then Not (mk_Mark false false) else mk_Mark false false) :: stack.

Definition checkInRangeForAnd (stack : list Mark) : res (list Mark) :=
  match stack with [] => Err "ErrRPNIsNullForAnd" | [_] => Panic | r :: m :: stack => Ok (And m r :: stack) end.
Definition checkInRangeForOr (stack : list Mark) : res (list Mark) :=
  match stack with [] => Err "ErrRPNIsNullForOR" | [_] => Panic | r :: m :: stack => Ok (Or m r :: stack) end.

Definition check_elem (st : store) (rgs : list Range) (stack : list Mark) (e : RPNElement) : res (list Mark) :=
  match e with
  | InRange rg k => checkInRangeForRange st rgs stack rg k false
  | NotInRange rg k => checkInRangeForRange st rgs stack rg k true
  | InSet _ => Ok (checkInRangeForSet stack false)
  | NotInSet _ => Ok (checkInRangeForSet stack true)
  | OpAND => checkInRangeForAnd stack
  | OpOR => checkInRangeForOr stack
  | AlwaysTrue => Ok (mk_Mark true false :: stack)
  | AlwaysFalse => Ok (mk_Mark false true :: stack)
  | _ => Err "ErrUnknownOpInCondition"
  end.
Fixpoint check_elems (st : store) (rgs : list Range) (es : list RPNElement) (stack : list Mark) : res (list Mark) :=
  match es with [] => Ok stack | e :: es => let! stack := check_elem st rgs stack e in check_elems st rgs es stack end.

Definition CheckInRange (rpn : list RPNElement) (st : store) (rgs : list Range) : res Mark :=
  let! stack := check_elems st rgs rpn [] in
  match stack with [m] => Ok m | _ => Err "ErrInvalidStackInCondition" end.

(** *** The range between two keys as a union of products

    The ranges are one array that all calls share, and the keys may be changed by closing a
    range, so both are passed on. *)
Section AnyRange.
Context (callBack : store → list Range → res Mark) (keySize : nat) (leftKeys rightKeys : list FieldRef) (dataTypes : list FieldType).

Definition key_at (keys : list FieldRef) (n : nat) : res FieldRef := match keys !! n with Some f => Ok f | None => Panic end.
Definition type_unknown (n : nat) : res bool :=
  match dataTypes !! n with Some t => Ok (bool_decide (t = Field_Type_Unknown)) | None => Panic end.

(** The columns in which both keys agree. *)
Fixpoint equal_prefix (fuel : nat) (st : store) (rgs : list Range) (prefixSize : nat) : res (list Range * nat) :=
  match fuel with
  | O => Ok (rgs, prefixSize)
  | S fuel =>
      if (prefixSize <? keySize)%nat then
        let! l := key_at leftKeys prefixSize in let! r := key_at rightKeys prefixSize in
        let! e := Equals st l r in
        if e then equal_prefix fuel st (<[prefixSize := mk_range l l true true]> rgs) (S prefixSize)
        else Ok (rgs, prefixSize)
      else Ok (rgs, prefixSize)
  end.

Definition bounded_range (st : store) (prefixSize : nat) (leftBounded rightBounded included : bool) (isInfinityIncluded : bool) (rgs : list Range)
    : res (store * list Range) :=
  let! l := key_at leftKeys prefixSize in let! r := key_at rightKeys prefixSize in
  if leftBounded && rightBounded then Ok (st, <[prefixSize := mk_range l r included included]> rgs)
  else if leftBounded then
    let! p := createLeftBounded st l included isInfinityIncluded in Ok (fst p, <[prefixSize := snd p]> rgs)
  else if rightBounded then
    let! p := createRightBounded st r included isInfinityIncluded in Ok (fst p, <[prefixSize := snd p]> rgs)
  else Ok (st, rgs).

Fixpoint whole_ranges (n : nat) (k : nat) (rgs : list Range) : res (list Range) :=
  match n with
  | O => Ok rgs
  | S n =>
      let! u := type_unknown k in
      whole_ranges n (S k) (<[k := if u then createWholeRangeIncludeBound else createWholeRangeWithoutBound]> rgs)
  end.

Definition checkRangeLeftRightBound (st : store) (rgs : list Range) (leftBounded rightBounded : bool) (prefixSize : nat) (initMask : Mark)
    : res (store * list Range * Mark * bool) :=
  if (prefixSize + 1 =? keySize)%nat then
    let! (st, rgs) := bounded_range st prefixSize leftBounded rightBounded true false rgs in
    let! m := callBack st rgs in
    Ok (st, rgs, m, true)
  else
    let! u := type_unknown prefixSize in
    let! (st, rgs) := bounded_range st prefixSize leftBounded rightBounded false u rgs in
    let! rgs := whole_ranges (keySize - S prefixSize) (S prefixSize) rgs in
    let! m := callBack st rgs in
    let res := Or initMask m in
    Ok (st, rgs, res, isComplete res).

Fixpoint checkInAnyRange (fuel : nat) (st : store) (rgs : list Range) (leftBounded rightBounded : bool) (prefixSize : nat) (initMask : Mark)
    {struct fuel} : res (store * list Range * Mark) :=
  match fuel with
  | O => Diverge
  | S fuel =>
      if negb leftBounded && negb rightBounded then let! m := callBack st rgs in Ok (st, rgs, m)
      else
        let! (rgs, prefixSize) := if leftBounded && rightBounded then equal_prefix (keySize - prefixSize) st rgs prefixSize else Ok (rgs, prefixSize) in
        if (prefixSize =? keySize)%nat then let! m := callBack st rgs in Ok (st, rgs, m)
        else
          let! (st, rgs, res, completed) := checkRangeLeftRightBound st rgs leftBounded rightBounded prefixSize initMask in
          if completed then Ok (st, rgs, res)
          else
            (* checkRangeLeftBound *)
            let! (st, rgs, res, completed) :=
              if leftBounded then
                let! l := key_at leftKeys prefixSize in
                let! (st, rgs, mark) := checkInAnyRange fuel st (<[prefixSize := mk_range l l true true]> rgs) true false (S prefixSize) initMask in
                let res := Or res mark in Ok (st, rgs, res, isComplete res)
              else Ok (st, rgs, res, false) in
            if completed then Ok (st, rgs, res)
            else
              (* checkRangeRightBound, which returns the mark of its own part *)
              if rightBounded then
                let! r := key_at rightKeys prefixSize in
                let! (st, rgs, mark) := checkInAnyRange fuel st (<[prefixSize := mk_range r r true true]> rgs) false true (S prefixSize) initMask in
                Ok (st, rgs, mark)
              else Ok (st, rgs, res)
  end.
End AnyRange.

Definition MayBeInRange (rpn : list RPNElement) (st : store) (usedKeySize : nat) (leftKeys rightKeys : list FieldRef) (dataTypes : list FieldType)
    : res (store * bool) :=
  let! rgs := whole_ranges dataTypes usedKeySize 0 (replicate usedKeySize createWholeRangeWithoutBound) in
  let! (st, _, mark) :=
    checkInAnyRange (CheckInRange rpn) usedKeySize leftKeys rightKeys dataTypes (S usedKeySize) st rgs true true 0 ConsiderOnlyBeTrue in
  Ok (st, canBeTrue mark).

(** The condition cannot be decided by the index. *)
Fixpoint always_elems (es : list RPNElement) (stack : list bool) : res bool :=
  match es with
  | [] => match stack with [b] => Ok b | _ => Err "ErrInvalidStackInCondition" end
  | UNKNOWN :: _ => Ok true
  | (InRange _ _ | NotInRange _ _ | InSet _ | NotInSet _) :: es => always_elems es (false :: stack)
  | OpNOT :: es => always_elems es stack
  | OpAND :: es => match stack with [] => Err "ErrRPNIsNullForAnd" | [_] => Panic | b :: a :: stack => always_elems es ((b && a) :: stack) end
  | OpOR :: es => match stack with [] => Err "ErrRPNIsNullForOR" | [_] => Panic | b :: a :: stack => always_elems es ((b || a) :: stack) end
  | _ :: _ => Err "ErrUnknownOpInCondition"
  end.
Definition AlwaysInRange (rpn : list RPNElement) : res bool := always_elems rpn [].

Definition HavePrimaryKey (rpn : list RPNElement) : bool := negb (length rpn =? 0)%nat.
Definition GetMaxKeyIndex (rpn : list RPNElement) : Z :=
  foldl (λ m e, match e with InRange _ k | NotInRange _ k | InSet k | NotInSet k => Z.max m (Z.of_nat k) | _ => m end) (-1) rpn.
Definition CanDoBinarySearch (rpn : list RPNElement) : bool := GetMaxKeyIndex rpn =? 0.

(** ** Scanning the index (primary_index.go) *)

Record FragmentRange := mk_fr { Start : Z; End : Z }.
Record IndexProperty := mk_prop { RowsNumPerFragment : Z; CoarseIndexFragment : Z; MinRowsForSeek : Z }.

Section Search.
Context {T : Type} (checkInRange : T → Z → Z → res (T * bool)).

Fixpoint left_boundary (fuel : nat) (st : T) (left right : Z) : res (T * Z) :=
  match fuel with
  | O => Diverge
  | S fuel =>
      if u32 (left + 1) <? right then
        let middle := u32 (left + right) / 2 in
        let! (st, inRange) := checkInRange st 0 middle in
        if inRange then left_boundary fuel st left middle else left_boundary fuel st middle right
      else Ok (st, left)
  end.
Fixpoint right_boundary (fuel : nat) (st : T) (fragmentCount left right : Z) : res (T * Z) :=
  match fuel with
  | O => Diverge
  | S fuel =>
      if u32 (left + 1) <? right then
        let middle := u32 (left + right) / 2 in
        let! (st, inRange) := checkInRange st middle fragmentCount in
        if inRange then right_boundary fuel st fragmentCount middle right else right_boundary fuel st fragmentCount left middle
      else Ok (st, right)
  end.

Definition doBinarySearch (st : T) (fragmentCount : Z) : res (T * list FragmentRange) :=
  let fuel := S (Z.to_nat fragmentCount) in
  let! (st, l) := left_boundary fuel st 0 fragmentCount in
  let! (st, r) := right_boundary fuel st fragmentCount l fragmentCount in
  if l <? r then
    let! (st, inRange) := checkInRange st l r in
    Ok (st, if inRange then [mk_fr l r] else [])
  else Ok (st, []).

(** The parts of a range, pushed from its end; the last one on top. *)
Fixpoint push_parts (fuel : nat) (start step end_ : Z) (stack : list FragmentRange) : list FragmentRange :=
  match fuel with
  | O => mk_fr start end_ :: stack
  | S fuel =>
      if u32 (start + step) <? end_ then push_parts fuel start step (u32 (end_ - step)) (mk_fr (u32 (end_ - step)) end_ :: stack)
      else mk_fr start end_ :: stack
  end.

(** The result with the last range first. *)
Definition add_range (minMarksForSeek : Z) (mr : FragmentRange) (out : list FragmentRange) : list FragmentRange :=
  match out with
  | [] => [mr]
  | l :: out' => if minMarksForSeek <? u32 (Start mr - End l) then mr :: out else mk_fr (Start l) (End mr) :: out'
  end.

Fixpoint exclusion_loop (coarse minMarks : Z) (fuel : nat) (st : T) (stack out : list FragmentRange) : res (T * list FragmentRange) :=
  match stack with
  | [] => Ok (st, reverse out)
  | mr :: stack =>
      match fuel with
      | O => Diverge
      | S fuel =>
          let! (st, inRange) := checkInRange st (Start mr) (End mr) in
          if negb inRange then exclusion_loop coarse minMarks fuel st stack out
          else if End mr =? u32 (Start mr + 1) then exclusion_loop coarse minMarks fuel st stack (add_range minMarks mr out)
          else
            let step := u32 (u32 (End mr - Start mr - 1) / coarse + 1) in
            exclusion_loop coarse minMarks fuel st (push_parts (Z.to_nat (End mr - Start mr)) (Start mr) step (End mr) stack) out
      end
  end.

Definition doExclusionSearch (property : IndexProperty) (st : T) (fragmentCount : Z) : res (T * list FragmentRange) :=
  if CoarseIndexFragment property <=? 1 then Err "ErrCoarseIndexFragment"
  else if RowsNumPerFragment property =? 0 then Panic
  else
    let minMarksForSeek := Z.quot (MinRowsForSeek property + RowsNumPerFragment property - 1) (RowsNumPerFragment property) in
    exclusion_loop (u32 (CoarseIndexFragment property)) minMarksForSeek (S (2 * Z.to_nat fragmentCount)) st [mk_fr 0 fragmentCount] [].
End Search.

(** A null key counts as the largest. *)
Definition createFieldRef (st : store) (row : Z) (col : nat) : res FieldRef :=
  let f := mk_ref IndexCols col row in
  let! n := IsNull st f in Ok (if n then SetPositiveInfinity f else f).
Fixpoint create_refs (st : store) (row : Z) (cols : list nat) : res (list FieldRef) :=
  match cols with
  | [] => Ok []
  | c :: cols => let! f := createFieldRef st row c in let! fs := create_refs st row cols in Ok (f :: fs)
  end.

Definition check_fragments (rpn : list RPNElement) (usedKeySize : nat) (pkTypes : list FieldType) (st : store) (start end_ : Z) : res (store * bool) :=
  let! l := create_refs st start (seq 0 usedKeySize) in
  let! r := create_refs st end_ (seq 0 usedKeySize) in
  MayBeInRange rpn st usedKeySize l r pkTypes.

Definition Scan (property : IndexProperty) (st : store) (rpn : list RPNElement) (fragmentCount : Z) : res (store * list FragmentRange) :=
  if negb (HavePrimaryKey rpn) then Ok (st, [mk_fr 0 fragmentCount])
  else
    let usedKeySize := Z.to_nat (GetMaxKeyIndex rpn + 1) in
    let pkTypes := dataType <$> index_cols st in
    if (length (index_cols st) <? usedKeySize)%nat then Panic
    else if negb (CanDoBinarySearch rpn)
    then doExclusionSearch (check_fragments rpn usedKeySize pkTypes) property st fragmentCount
    else doBinarySearch (check_fragments rpn usedKeySize pkTypes) st fragmentCount.

(** ** Building the index *)

Fixpoint take_rows (cells : list (option val)) (rows : list Z) : res (list (option val)) :=
  match rows with
  | [] => Ok []
  | r :: rows =>
      if r <? 0 then Panic
      else match cells !! Z.to_nat r with
           | None => Panic
           | Some v => let! vs := take_rows cells rows in Ok (v :: vs)
           end
  end.

(** The first row, and the rows the fragments end with. *)
Definition generateColumn (src : ColumnRef) (rowsNumPerFragment : list Z) (f : string * FieldType) : res ColumnRef :=
  let! vs := take_rows (column src) (0 :: rowsNumPerFragment) in Ok (mk_col (fst f) (snd f) vs).

Fixpoint build_columns (src : list ColumnRef) (pkSchema : list (string * FieldType)) (rowsNumPerFragment : list Z) : res (list ColumnRef) :=
  match pkSchema with
  | [] => Ok []
  | f :: pkSchema =>
      match list_find (λ c, c_name c = fst f) src with
      | None => Err "the table does not have a primary key field"
      | Some (_, c) =>
          match snd f with
          | Field_Type_String | Field_Type_Tag | Field_Type_Int | Field_Type_Float | Field_Type_Boolean =>
              let! c := generateColumn c rowsNumPerFragment f in
              let! cs := build_columns src pkSchema rowsNumPerFragment in Ok (c :: cs)
          | _ => Err "unsupported data type"
          end
      end
  end.

(** With a time cluster column its duration is the first column of the key. *)
Definition DefaultTCLocation : Z := -1.
Definition cluster_schema (tcLocation : Z) (pkSchema : list (string * FieldType)) : list (string * FieldType) :=
  if DefaultTCLocation <? tcLocation then ("clustered_time"%string, Field_Type_Int) :: pkSchema else pkSchema.
Definition buildData (src : list ColumnRef) (pkSchema : list (string * FieldType)) (rowsNumPerFragment : list Z) (tcLocation : Z) : res (list ColumnRef) :=
  build_columns src (cluster_schema tcLocation pkSchema) rowsNumPerFragment.
