(* ===== verification/Fragments.v ===== *)
(** * Fragments of a file (lib/fragment, GenFixRowsPerSegment, buildFragment)

    The rows a file of a column store is cut at, and the number of rows of its fragments as
    the readers of the primary index see them. *)

From stdpp Require Import gmap.
From S2P Require Import Prelude ColVal SparseIndex.

(** ** Ranges of fragments *)

Definition fr_Equal (fr other : FragmentRange) : bool := (Start fr =? Start other) && (End fr =? End other).
Definition fr_Less (fr other : FragmentRange) : res bool :=
  if ((Start fr <=? Start other) && (Start other <? End fr)) || ((Start other <=? Start fr) && (Start fr <? End other)) then Err "ErrMarkRangeInserting"
  else Ok ((Start fr <? Start other) && (End fr <=? End other)).
Definition GetLastFragment (frs : list FragmentRange) : Z := foldl (λ m fr, Z.max m (End fr)) 0 frs.

(** ** The fragments of a file *)

Inductive IndexFragment :=
  | IndexFragmentVariable (accumulateRowCount : list Z)
  | IndexFragmentFixedSize (fragmentCount rowCountPerFragment : Z).

Definition GetFragmentCount (f : IndexFragment) : Z :=
  match f with IndexFragmentVariable acc => u32 (Z.of_nat (length acc)) | IndexFragmentFixedSize c _ => c end.
Definition acc_at (acc : list Z) (i : Z) : res Z :=
  if i <? 0 then Panic else match acc !! Z.to_nat i with Some v => Ok v | None => Panic end.
Definition GetRowsCountInRange (f : IndexFragment) (start end_ : Z) : res Z :=
  match f with
  | IndexFragmentVariable acc =>
      let! subtrahend := if start =? 0 then Ok 0 else acc_at acc (start - 1) in
      let! v := acc_at acc (end_ - 1) in Ok (u64 (v - subtrahend))
  | IndexFragmentFixedSize _ r => Ok (u64 (u64 (end_ - start) * r))
  end.
Definition GetTotalRowsCount (f : IndexFragment) : Z :=
  match f with IndexFragmentVariable acc => default 0 (last acc) | IndexFragmentFixedSize c r => u64 (r * c) end.
Definition PopFragment (f : IndexFragment) : IndexFragment :=
  match f with
  | IndexFragmentVariable acc => IndexFragmentVariable (take (length acc - 1) acc)
  | IndexFragmentFixedSize c r => IndexFragmentFixedSize (u32 (c - 1)) r
  end.
Definition Empty (f : IndexFragment) : bool :=
  match f with IndexFragmentVariable acc => (length acc =? 0)%nat | IndexFragmentFixedSize c _ => c =? 0 end.

(** Of variable fragments only. *)
Definition GetFragmentStartingRow (acc : list Z) (markIndex : Z) : res Z :=
  match acc with
  | [] => Ok 0
  | a :: _ => if markIndex =? 0 then Ok a else let! v := acc_at acc markIndex in let! w := acc_at acc (markIndex - 1) in Ok (u64 (v - w))
  end.
Definition GetLastFragmentRows (acc : list Z) : res Z := GetFragmentStartingRow acc (Z.of_nat (length acc) - 1).
Definition AppendFragment (acc : list Z) (rowsCount : Z) : list Z :=
  match last acc with None => [rowsCount] | Some l => acc ++ [u64 (rowsCount + l)] end.
Definition AddRowsToLastFragment (acc : list Z) (rowsCount : Z) : list Z :=
  match last acc with None => [rowsCount] | Some l => <[(length acc - 1)%nat := u64 (l + rowsCount)]> acc end.

(** ** Cutting a file *)

Definition GenFixRowsPerSegment (rowNum rowNumPerSegment : Z) : res (list Z) :=
  if rowNumPerSegment =? 0 then Panic
  else
    let numFragment := Z.quot rowNum rowNumPerSegment + (if 0 <? Z.rem rowNum rowNumPerSegment then 1 else 0) in
    if numFragment <=? 0 then Panic
    else Ok (((λ i, rowNumPerSegment * (Z.of_nat i + 1)) <$> seq 0 (Z.to_nat (numFragment - 1))) ++ [rowNum - 1]).

Definition buildFragment (rowsNumPerFragment : list Z) (fixRowsPerSegment : Z) : res IndexFragment :=
  if negb (fixRowsPerSegment =? 0) then Ok (IndexFragmentFixedSize (u32 (Z.of_nat (length rowsNumPerFragment))) (u64 fixRowsPerSegment))
  else
    match last rowsNumPerFragment with
    | None => Panic
    | Some l => Ok (IndexFragmentVariable ((u64 <$> take (length rowsNumPerFragment - 1) rowsNumPerFragment) ++ [u64 (l + 1)]))
    end.

(** buildData and buildFragment *)
Definition Build (src : list ColumnRef) (pkSchema : list (string * FieldType)) (rowsNumPerFragment : list Z) (tcLocation fixRowsPerSegment : Z)
    : res (list ColumnRef * IndexFragment) :=
  let! dst := buildData src pkSchema rowsNumPerFragment tcLocation in
  let! f := buildFragment rowsNumPerFragment fixRowsPerSegment in Ok (dst, f).

(** ** Where the fragments of a file begin and end *)

Section Cut.
Context (rows per : Z).
Hypothesis Hrows : 0 < rows < 2 ^ 63.
Hypothesis Hper : 0 < per.

Definition pieces : Z := (rows - 1) / per + 1.

Lemma pieces_spec : 0 < pieces ∧ (pieces - 1) * per < rows ≤ pieces * per.
Proof.
  unfold pieces. pose proof (Z.div_mod (rows - 1) per). pose proof (Z.mod_pos_bound (rows - 1) per). pose proof (Z.div_pos (rows - 1) per). nia.
Qed.

Lemma Gen_ok : GenFixRowsPerSegment rows per = Ok (((λ i, per * (Z.of_nat i + 1)) <$> seq 0 (Z.to_nat (pieces - 1))) ++ [rows - 1]).
Proof.
  unfold GenFixRowsPerSegment. rewrite (proj2 (Z.eqb_neq _ _)) by lia. rewrite Z.quot_div_nonneg, Z.rem_mod_nonneg by lia.
  destruct pieces_spec as [H1 H2]. pose proof (Z.div_mod rows per). pose proof (Z.mod_pos_bound rows per).
  assert (E : rows / per + (if 0 <? rows mod per then 1 else 0) = pieces) by (destruct (Z.ltb_spec 0 (rows mod per)); nia).
  rewrite E. by rewrite (proj2 (Z.leb_gt _ _)).
Qed.

Lemma pieces_in i : 0 ≤ i < rows → 0 ≤ i / per < pieces.
Proof.
  intros Hi. destruct pieces_spec as [_ H]. split; [apply Z.div_pos; lia|]. apply Z.div_lt_upper_bound; [done|]. lia.
Qed.

Context (bounds : list Z).
Hypothesis Hb : GenFixRowsPerSegment rows per = Ok bounds.

Lemma bounds_length : Z.of_nat (length bounds) = pieces.
Proof. rewrite Gen_ok in Hb. injection Hb as <-. rewrite length_app, length_fmap, length_seq. cbn. pose proof pieces_spec. lia. Qed.

(** The rows at which a fragment begins, and the last row. *)
Lemma bounds_begin f z : (0 :: bounds) !! f = Some z → z = Z.min (Z.of_nat f * per) (rows - 1).
Proof.
  rewrite Gen_ok in Hb. injection Hb as <-. destruct pieces_spec as [H1 H2]. set (l := _ ++ [rows - 1]). destruct f as [|f]; [cbn; intros [= <-]; lia|]. change ((0 :: l) !! S f) with (l !! f). subst l.
  destruct (decide (f < Z.to_nat (pieces - 1))%nat) as [Hf|Hf].
  - rewrite lookup_app_l by (by rewrite length_fmap, length_seq). rewrite list_lookup_fmap, lookup_seq_lt by done. cbn. intros [= <-]. nia.
  - rewrite lookup_app_r by (rewrite length_fmap, length_seq; lia). rewrite length_fmap, length_seq. destruct (f - _)%nat eqn:E; cbn; [|done]. intros [= <-]. nia.
Qed.

Lemma bounds_in : Forall (λ r, 0 ≤ r < rows) (0 :: bounds).
Proof. apply Forall_lookup_2. intros f z Hz. apply bounds_begin in Hz as ->. nia. Qed.

Lemma row_in_fragment i : 0 ≤ i < rows →
  ∃ lo hi, (0 :: bounds) !! Z.to_nat (i / per) = Some lo ∧ bounds !! Z.to_nat (i / per) = Some hi ∧ lo ≤ i ≤ hi.
Proof.
  intros Hi. pose proof (pieces_in i Hi). pose proof bounds_length. destruct (lookup_lt_is_Some_2 (0 :: bounds) (Z.to_nat (i / per))) as [lo Hlo]; [cbn; lia|].
  destruct (lookup_lt_is_Some_2 bounds (Z.to_nat (i / per))) as [hi Hhi]; [lia|]. exists lo, hi. split; [done|]. split; [done|].
  rewrite (bounds_begin _ _ Hlo), (bounds_begin (S (Z.to_nat (i / per))) hi Hhi). rewrite Nat2Z.inj_succ, Z2Nat.id by lia.
  pose proof (Z.div_mod i per). pose proof (Z.mod_pos_bound i per). nia.
Qed.

(** Counting the rows of fragments of variable size. *)
Lemma variable_rows f s e :
  buildFragment bounds 0 = Ok f → 0 ≤ s < e → e ≤ pieces →
  GetRowsCountInRange f s e = Ok (Z.min (e * per) rows - s * per) ∧ GetTotalRowsCount f = rows.
Proof.
  intros Hf Hs He. pose proof Gen_ok as Hg. rewrite Hb in Hg. injection Hg as Hg. destruct pieces_spec as [Hp Hp2]. unfold buildFragment in Hf. cbn [Z.eqb negb] in Hf.
  rewrite Hg, last_snoc, length_app in Hf. cbn [length] in Hf. rewrite Nat.add_sub in Hf. rewrite take_app_length in Hf. injection Hf as <-.
  replace (rows - 1 + 1) with rows in * by lia. assert (Hr : u64 rows = rows) by (apply Z.mod_small; lia). rewrite Hr. unfold GetTotalRowsCount. rewrite last_snoc.
  set (acc := (u64 <$> _) ++ [rows]). split; [|done].
  assert (Hacc : ∀ j, 0 ≤ j < pieces → acc_at acc j = Ok (Z.min ((j + 1) * per) rows)).
  { intros j Hj. unfold acc_at, acc. rewrite (proj2 (Z.ltb_ge _ _)) by lia. destruct (decide (j < pieces - 1)) as [Hlt|Hge].
    - rewrite lookup_app_l by (rewrite !length_fmap, length_seq; lia). rewrite !list_lookup_fmap, lookup_seq_lt by lia. cbn. f_equal. rewrite Z2Nat.id by lia.
      unfold wrap_u. rewrite Z.mod_small by nia. nia.
    - rewrite lookup_app_r by (rewrite !length_fmap, length_seq; lia). rewrite !length_fmap, length_seq. replace (Z.to_nat j - _)%nat with 0%nat by lia. cbn. f_equal. nia. }
  unfold GetRowsCountInRange. rewrite (Hacc (e - 1)) by lia. replace (e - 1 + 1) with e by lia. destruct (Z.eqb_spec s 0) as [->|Hs0]; cbn [res_bind].
  - f_equal. unfold wrap_u. rewrite Z.mod_small by nia. lia.
  - rewrite (Hacc (s - 1)) by lia. cbn [res_bind]. f_equal. replace (s - 1 + 1) with s by lia. rewrite (Z.min_l (s * per) rows) by nia. unfold wrap_u. apply Z.mod_small. nia.
Qed.
End Cut.
