(* ===== verification/SparseOrder.v ===== *)
(** * Order and ranges of the sparse index

    The comparisons of cells are a total order on their keys; with the two infinities added,
    the operations on ranges compute intersection and inclusion of intervals. *)

From S2P Require Import Prelude ColVal SparseIndex.

(** ** The order of keys *)

Lemma lex_cmp_refl s : lex_cmp s s = Eq.
Proof. induction s as [|x s IH]; [done|]. cbn. by rewrite Z.compare_refl. Qed.

Lemma lex_cmp_eq s t : lex_cmp s t = Eq ↔ s = t.
Proof.
  split; [|intros ->; apply lex_cmp_refl]. revert t. induction s as [|x s IH]; intros [|y t]; cbn; try done.
  destruct (Z.compare_spec x y) as [->| |]; try done. intros ->%IH. done.
Qed.

Lemma lex_cmp_antisym s t : lex_cmp t s = CompOpp (lex_cmp s t).
Proof.
  revert t. induction s as [|x s IH]; intros [|y t]; cbn; try done. rewrite (Z.compare_antisym x y). destruct (x ?= y); cbn; [apply IH|done|done].
Qed.

Lemma lex_cmp_trans s t u : lex_cmp s t = Lt → lex_cmp t u = Lt → lex_cmp s u = Lt.
Proof.
  revert t u. induction s as [|x s IH]; intros [|y t] [|z u]; cbn; try done.
  intros H1 H2. destruct (x ?= y) eqn:E1, (y ?= z) eqn:E2; try done; rewrite ?Z.compare_eq_iff, ?Z.compare_lt_iff in *; subst;
    try (rewrite (proj2 (Z.compare_lt_iff _ _)) by lia; done).
  rewrite Z.compare_refl. by eapply IH.
Qed.

(** A key or an infinity. *)
Inductive bnd := BNeg | BKey (k : list Z) | BPos.

Definition bcmp (a b : bnd) : comparison :=
  match a, b with
  | BNeg, BNeg | BPos, BPos => Eq
  | BNeg, _ | _, BPos => Lt
  | _, BNeg | BPos, _ => Gt
  | BKey k, BKey l => lex_cmp k l
  end.
Definition beq (a b : bnd) : bool := match bcmp a b with Eq => true | _ => false end.
Definition blt (a b : bnd) : bool := match bcmp a b with Lt => true | _ => false end.

Lemma bcmp_eq a b : bcmp a b = Eq ↔ a = b.
Proof.
  destruct a as [|k|], b as [|l|]; cbn; try (split; intros; (done || congruence)). rewrite lex_cmp_eq. split; [by intros ->|by intros [= ->]].
Qed.
Lemma bcmp_antisym a b : bcmp b a = CompOpp (bcmp a b).
Proof. destruct a, b; cbn; try done. apply lex_cmp_antisym. Qed.

Lemma beq_true a b : beq a b = true ↔ a = b.
Proof. rewrite <- bcmp_eq. unfold beq. destruct (bcmp a b); split; done. Qed.
Lemma beq_refl a : beq a a = true.
Proof. by apply beq_true. Qed.
Lemma blt_true a b : blt a b = true ↔ bcmp a b = Lt.
Proof. unfold blt. destruct (bcmp a b); split; done. Qed.
Lemma blt_trans a b c : blt a b = true → blt b c = true → blt a c = true.
Proof. rewrite !blt_true. destruct a, b, c; cbn; try done. apply lex_cmp_trans. Qed.
Lemma blt_irrefl a : blt a a = false.
Proof. unfold blt. by rewrite (proj2 (bcmp_eq a a) eq_refl). Qed.
Lemma blt_asym a b : blt a b = true → blt b a = true → False.
Proof. intros H1 H2. pose proof (blt_trans _ _ _ H1 H2) as H. by rewrite blt_irrefl in H. Qed.

(** [a ≤ b] *)
Definition ble (a b : bnd) : Prop := blt a b = true ∨ a = b.
Lemma ble_trans a b c : ble a b → ble b c → ble a c.
Proof. intros [H1| ->] [H2| ->]; [left; by eapply blt_trans|by left|by left|by right]. Qed.
Lemma ble_blt a b : ble a b → blt b a = true → False.
Proof. intros [H| ->] H'; [by eapply blt_asym|by rewrite blt_irrefl in H']. Qed.

(** ** Intervals *)

Record brange := mk_br { bl : bnd; br : bnd; bli : bool; bri : bool }.

Definition above (R : brange) (x : bnd) : bool := blt (bl R) x || (bli R && beq x (bl R)).
Definition below (R : brange) (x : bnd) : bool := blt x (br R) || (bri R && beq x (br R)).
Definition in_rng (R : brange) (x : bnd) : bool := above R x && below R x.

Definition b_rightLQ (R S : brange) : bool := blt (br R) (bl S) || ((negb (bri R) || negb (bli S)) && beq (bl S) (br R)).
Definition b_intersects (R S : brange) : bool := negb (b_rightLQ R S || b_rightLQ S R).
Definition b_contains (R S : brange) : bool := above R (bl S) && below R (br S).

Lemma above_le R x : above R x = true → ble (bl R) x.
Proof.
  unfold above. rewrite orb_true_iff, andb_true_iff, beq_true. intros [?|[_ ->]]; [by left|by right].
Qed.
Lemma below_le R x : below R x = true → ble x (br R).
Proof.
  unfold below. rewrite orb_true_iff, andb_true_iff, beq_true. intros [?|[_ ->]]; [by left|by right].
Qed.

Lemma rightLQ_empty R S x : in_rng R x = true → in_rng S x = true → b_rightLQ R S = false.
Proof.
  unfold in_rng. rewrite !andb_true_iff. intros [_ HR] [HS _]. apply not_true_iff_false. unfold b_rightLQ.
  rewrite orb_true_iff, andb_true_iff, beq_true, orb_true_iff, !negb_true_iff. intros [Hlt|[Hopen Heq]].
  - apply (ble_blt (bl S) (br R)); [|done]. eapply ble_trans; [by apply above_le|by apply below_le].
  - unfold below in HR. unfold above in HS. rewrite Heq in HS. rewrite orb_true_iff, andb_true_iff, beq_true in HR, HS.
    destruct HR as [HR|[HR1 HR2]], HS as [HS|[HS1 HS2]].
    + by eapply blt_asym.
    + subst x. by rewrite blt_irrefl in HR.
    + subst x. by rewrite blt_irrefl in HS.
    + destruct Hopen; congruence.
Qed.

Lemma intersects_sound R S x : in_rng R x = true → in_rng S x = true → b_intersects R S = true.
Proof. intros HR HS. unfold b_intersects. by rewrite (rightLQ_empty R S x), (rightLQ_empty S R x). Qed.

Lemma contains_sound R S x : in_rng S x = true → b_contains R S = true → in_rng R x = true.
Proof.
  unfold in_rng, b_contains. rewrite !andb_true_iff. intros [Hl%above_le Hr%below_le] [Ha Hb]. split.
  - unfold above in *. rewrite orb_true_iff, andb_true_iff, beq_true in *. destruct Hl as [Hl|<-]; [|tauto].
    left. destruct Ha as [Ha|[_ <-]]; [by eapply blt_trans|done].
  - unfold below in *. rewrite orb_true_iff, andb_true_iff, beq_true in *. destruct Hr as [Hr| ->]; [|tauto].
    left. destruct Hb as [Hb|[_ <-]]; [by eapply blt_trans|done].
Qed.

(** ** The code computes them *)

(** The key of a value in a column of a type; NaN and values of other types have none. *)
Definition key_of (t : FieldType) (v : val) : option (list Z) :=
  match t, v with
  | Field_Type_Int, VWord w => Some [i64 w]
  | Field_Type_Float, VWord w => if float_NaN (u64 w) then None else Some [float_key (u64 w)]
  | Field_Type_String, VBytes s | Field_Type_Tag, VBytes s => Some s
  | Field_Type_Boolean, VBool b => Some [if b then 1 else 0]
  | _, _ => None
  end.

Inductive denotes (st : store) (t : FieldType) (f : FieldRef) : bnd → Prop :=
  | den_pos : f_row f = MaxInt64 → denotes st t f BPos
  | den_neg : f_row f = MinInt64 → denotes st t f BNeg
  | den_key c v k : is_inf f = false → col_of st f = Ok c → dataType c = t → cell_of c (f_row f) = Ok (Some v) → key_of t v = Some k →
      denotes st t f (BKey k).

Lemma cmp_one x y : lex_cmp [x] [y] = (x ?= y).
Proof. cbn. by destruct (x ?= y). Qed.

Lemma denotes_inf st t f a : denotes st t f a → is_inf f = match a with BKey _ => false | _ => true end.
Proof.
  intros [H|H|]; [..|done]; unfold is_inf, IsPositiveInfinity, IsNegativeInfinity; rewrite H; done.
Qed.
Lemma denotes_pos st t f a : denotes st t f a → IsPositiveInfinity f = match a with BPos => true | _ => false end.
Proof.
  intros [H|H|c v k H]; unfold is_inf, IsPositiveInfinity, IsNegativeInfinity in *; [by rewrite H|by rewrite H|].
  by apply orb_false_iff in H as [-> _].
Qed.
Lemma denotes_neg st t f a : denotes st t f a → IsNegativeInfinity f = match a with BNeg => true | _ => false end.
Proof.
  intros [H|H|c v k H]; unfold is_inf, IsPositiveInfinity, IsNegativeInfinity in *; [by rewrite H|by rewrite H|].
  by apply orb_false_iff in H as [_ ->].
Qed.

Lemma compare_spec st t f g a b :
  denotes st t f a → denotes st t g b → Equals st f g = Ok (beq a b) ∧ Less st f g = Ok (blt a b).
Proof.
  intros Hf Hg. unfold Equals, Less.
  rewrite (denotes_inf _ _ _ _ Hf), (denotes_inf _ _ _ _ Hg), (denotes_pos _ _ _ _ Hf), (denotes_pos _ _ _ _ Hg), (denotes_neg _ _ _ _ Hf), (denotes_neg _ _ _ _ Hg).
  destruct a as [|k|], b as [|l|]; cbn [orb andb negb]; try done.
  inversion Hf as [| |c v ? _ Hc Ht Hv Hk]; subst. inversion Hg as [| |d w ? _ Hd Ht' Hw Hl]; subst.
  unfold two_cells. rewrite Hc, Hd. cbn [res_bind]. rewrite bool_decide_true by done. cbn [negb]. rewrite Hv, Hw. cbn [res_bind].
  unfold beq, blt, bcmp. destruct (dataType c) eqn:Et, v as [v|v|v], w as [w|w|w]; cbn in Hk, Hl; try discriminate;
    unfold eq_cells, lt_cells, IntegerValue, FloatValue, BytesUnsafe, BooleanValue; cbn [res_bind fst snd negb andb orb]; rewrite ?orb_false_r.
  - injection Hk as <-. injection Hl as <-. rewrite cmp_one, Z.eqb_compare. unfold Z.ltb. by destruct (_ ?= _).
  - destruct (float_NaN (u64 v)) eqn:Ev, (float_NaN (u64 w)) eqn:Ew; try discriminate. injection Hk as <-. injection Hl as <-.
    unfold float_eqb, float_ltb. rewrite Ev, Ew. cbn [negb andb]. rewrite cmp_one, Z.eqb_compare. unfold Z.ltb. by destruct (_ ?= _).
  - injection Hk as <-. injection Hl as <-. pose proof (lex_cmp_eq v w) as He. split; [|done]. f_equal. case_bool_decide as Hd'.
    + by rewrite (proj2 He Hd').
    + destruct (lex_cmp v w); [|done..]. by destruct Hd'; apply He.
  - injection Hk as <-. injection Hl as <-. by destruct v, w.
  - injection Hk as <-. injection Hl as <-. pose proof (lex_cmp_eq v w) as He. split; [|done]. f_equal. case_bool_decide as Hd'.
    + by rewrite (proj2 He Hd').
    + destruct (lex_cmp v w); [|done..]. by destruct Hd'; apply He.
Qed.

Record range_den (st : store) (t : FieldType) (r : Range) (R : brange) : Prop := {
  rd_left : denotes st t (left_ r) (bl R);
  rd_right : denotes st t (right_ r) (br R);
  rd_li : leftIncluded r = bli R;
  rd_ri : rightIncluded r = bri R;
}.

Lemma or_else_ok a b x y : a = Ok x → b = Ok y → or_else a b = Ok (x || y).
Proof. intros -> ->. by destruct x. Qed.
Lemma and_then_ok a b x y : a = Ok x → b = Ok y → and_then a b = Ok (x && y).
Proof. intros -> ->. by destruct x. Qed.

Lemma rightLQ_spec st t r nr R NR : range_den st t r R → range_den st t nr NR → rightLQ st r nr = Ok (b_rightLQ R NR).
Proof.
  intros [L1 R1 I1 J1] [L2 R2 I2 J2]. unfold rightLQ, b_rightLQ. rewrite J1, I2.
  apply or_else_ok; [by eapply compare_spec|]. apply and_then_ok; [done|]. by eapply compare_spec.
Qed.

Lemma intersectsRange_spec st t r nr R NR : range_den st t r R → range_den st t nr NR → intersectsRange st r nr = Ok (b_intersects R NR).
Proof.
  intros H1 H2. unfold intersectsRange. by rewrite (or_else_ok _ _ _ _ (rightLQ_spec st t r nr R NR H1 H2) (rightLQ_spec st t nr r NR R H2 H1)).
Qed.

Lemma containsRange_spec st t r nr R NR : range_den st t r R → range_den st t nr NR → containsRange st r nr = Ok (b_contains R NR).
Proof.
  intros [L1 R1 I1 J1] [L2 R2 I2 J2]. unfold containsRange, b_contains, leftLEQ, rightGEQ, above, below. rewrite I1, J1.
  apply and_then_ok; (apply or_else_ok; [by eapply compare_spec|]); (apply and_then_ok; [done|]); by eapply compare_spec.
Qed.

(** * The checks of the sparse index over-approximate the condition

    [cond] is the condition as a tree over the key columns.  The mark computed for a product of
    ranges can be true whenever some key in the product satisfies the condition, and so can
    the mark of the range between two keys: MayBeInRange does not rule out a fragment with a
    matching row. *)

Inductive cond := CIn (k : nat) (R : brange) | CNotIn (k : nat) (R : brange) | CTrue | CAnd (c d : cond) | COr (c d : cond).

Fixpoint ceval (X : list bnd) (c : cond) : bool :=
  match c with
  | CIn k R => match X !! k with Some x => in_rng R x | None => false end
  | CNotIn k R => match X !! k with Some x => negb (in_rng R x) | None => false end
  | CTrue => true
  | CAnd c d => ceval X c && ceval X d
  | COr c d => ceval X c || ceval X d
  end.

Fixpoint cmark (RS : list brange) (c : cond) : Mark :=
  match c with
  | CIn k R => match RS !! k with Some K => mk_Mark (b_intersects R K) (negb (b_contains R K)) | None => mk_Mark true true end
  | CNotIn k R => match RS !! k with Some K => Not (mk_Mark (b_intersects R K) (negb (b_contains R K))) | None => mk_Mark true true end
  | CTrue => mk_Mark true false
  | CAnd c d => And (cmark RS c) (cmark RS d)
  | COr c d => Or (cmark RS c) (cmark RS d)
  end.

Fixpoint columns (c : cond) : list nat :=
  match c with CIn k _ | CNotIn k _ => [k] | CTrue => [] | CAnd c d | COr c d => columns c ++ columns d end.

Definition in_box (RS : list brange) (X : list bnd) : Prop := Forall2 (λ R x, in_rng R x = true) RS X.

Lemma cmark_sound RS X c : in_box RS X → ceval X c = true → canBeTrue (cmark RS c) = true.
Proof.
  intros Hbox. induction c as [k R|k R| |c IHc d IHd|c IHc d IHd]; cbn; intros He; [| |done| |].
  - destruct (X !! k) as [x|] eqn:Ex; [|done]. destruct (Forall2_lookup_r _ _ _ _ _ Hbox Ex) as (K & -> & HK). by apply (intersects_sound R K x).
  - destruct (X !! k) as [x|] eqn:Ex; [|done]. destruct (Forall2_lookup_r _ _ _ _ _ Hbox Ex) as (K & -> & HK). cbn.
    apply negb_true_iff in He. apply negb_true_iff. apply not_true_iff_false. intros Hc. by rewrite (contains_sound R K x HK Hc) in He.
  - apply andb_true_iff in He as [Hc Hd]. by rewrite IHc, IHd.
  - apply orb_true_iff in He as [Hc|Hd]; [by rewrite IHc|]. rewrite IHd by done. apply orb_true_r.
Qed.

(** ** Elements that stand for a condition *)

Inductive flat (st : store) (ts : list FieldType) : list RPNElement → cond → Prop :=
  | fl_in rg k R t : ts !! k = Some t → range_den st t rg R → flat st ts [InRange rg k] (CIn k R)
  | fl_notin rg k R t : ts !! k = Some t → range_den st t rg R → flat st ts [NotInRange rg k] (CNotIn k R)
  | fl_true : flat st ts [AlwaysTrue] CTrue
  | fl_and es c fs d : flat st ts es c → flat st ts fs d → flat st ts (es ++ fs ++ [OpAND]) (CAnd c d)
  | fl_or es c fs d : flat st ts es c → flat st ts fs d → flat st ts (es ++ fs ++ [OpOR]) (COr c d).

(** The ranges of a product, column by column. *)
Definition box_den (st : store) (ts : list FieldType) (n : nat) (rgs : list Range) (RS : list brange) : Prop :=
  length rgs = n ∧ length RS = n ∧ ∀ k t r, ts !! k = Some t → rgs !! k = Some r → ∃ R, RS !! k = Some R ∧ range_den st t r R.

Lemma check_elems_app st rgs es fs stack : check_elems st rgs (es ++ fs) stack = let! stack := check_elems st rgs es stack in check_elems st rgs fs stack.
Proof.
  revert stack. induction es as [|e es IH]; intros stack; [done|]. cbn [app check_elems]. destruct (check_elem st rgs stack e); cbn [res_bind]; [apply IH|done..].
Qed.

Lemma flat_check st ts n es c rgs RS :
  flat st ts es c → box_den st ts n rgs RS → Forall (λ k, k < n)%nat (columns c) →
  ∀ stack, check_elems st rgs es stack = Ok (cmark RS c :: stack).
Proof.
  intros Hf (Hl & Hl' & Hb). induction Hf as [rg k R t Ht Hr|rg k R t Ht Hr| |es c fs d _ IHc _ IHd|es c fs d _ IHc _ IHd]; cbn [columns]; intros Hc stack.
  1-2: rewrite Forall_singleton in Hc; destruct (lookup_lt_is_Some_2 rgs k) as [r Er]; [lia|]; destruct (Hb k t r Ht Er) as (K & EK & HK);
    cbn [check_elems check_elem cmark]; unfold checkInRangeForRange; rewrite Er, (intersectsRange_spec _ t _ _ R K), (containsRange_spec _ t _ _ R K), EK by done; done.
  - done.
  - apply Forall_app in Hc as [Hc Hd]. rewrite check_elems_app, IHc by done. cbn [res_bind]. rewrite check_elems_app, IHd by done. done.
  - apply Forall_app in Hc as [Hc Hd]. rewrite check_elems_app, IHc by done. cbn [res_bind]. rewrite check_elems_app, IHd by done. done.
Qed.

Lemma flat_CheckInRange st ts n es c rgs RS :
  flat st ts es c → box_den st ts n rgs RS → Forall (λ k, k < n)%nat (columns c) → CheckInRange es st rgs = Ok (cmark RS c).
Proof. intros Hf Hb Hc. unfold CheckInRange. by rewrite (flat_check st ts n es c rgs RS). Qed.

(** ** Conjunctions *)

(** A range that ends only at infinity on one side, as the columns after the first difference get. *)
Definition open_ended (K : brange) : Prop := br K = BPos ∧ bri K = false ∨ bl K = BNeg ∧ bli K = false.
(** The infinities are not in the range. *)
Definition proper (R : brange) : Prop := (br R = BPos → bri R = false) ∧ (bl R = BNeg → bli R = false).

Lemma open_not_contained R K : proper R → open_ended K → b_contains R K = false.
Proof.
  intros [Hr Hl] [[E _]|[E _]]; unfold b_contains, above, below; rewrite E.
  - destruct (br R) as [|k|] eqn:Eb; cbn; [by rewrite !andb_false_r..|]. rewrite (Hr eq_refl). cbn. by rewrite andb_false_r.
  - destruct (bl R) as [|k|] eqn:Eb; cbn; [|by rewrite !andb_false_r..]. by rewrite (Hl eq_refl).
Qed.

(** Only AND, and a range of column [k] among its parts. *)
Fixpoint conj_with (k : nat) (c : cond) : Prop :=
  match c with
  | CIn k' R => k' = k ∧ proper R
  | CAnd c d => conj_with k c ∨ conj_with k d
  | _ => False
  end.

Lemma conj_can_be_false k c RS K : conj_with k c → RS !! k = Some K → open_ended K → canBeFalse (cmark RS c) = true.
Proof.
  intros Hc HK Ho. induction c as [k' R|k' R| |c IHc d IHd|c IHc d IHd]; cbn in *; try done.
  - destruct Hc as [-> HR]. rewrite HK. cbn. by rewrite open_not_contained.
  - destruct Hc as [Hc|Hd]; [by rewrite IHc|]. rewrite IHd by done. apply orb_true_r.
Qed.
