(* ===== verification/SparseAny.v ===== *)
(** * The range between two keys

    checkInAnyRange covers the keys from one tuple to another by products of ranges.  For a
    condition over one key column, or a conjunction that uses the last of the columns, its
    answer can be true whenever a tuple between the two satisfies the condition. *)

From S2P Require Import Prelude ColVal SparseIndex SparseOrder.

(** Tuples of keys in lexicographic order. *)
Fixpoint tuple_le (xs ys : list (list Z)) : Prop :=
  match xs, ys with
  | x :: xs, y :: ys => lex_cmp x y = Lt ∨ x = y ∧ tuple_le xs ys
  | _, _ => True
  end.

Definition point (k : list Z) : brange := mk_br (BKey k) (BKey k) true true.
Definition from_ (k : list Z) (inc : bool) : brange := mk_br (BKey k) BPos inc false.
Definition upto (k : list Z) (inc : bool) : brange := mk_br BNeg (BKey k) false inc.
Definition whole : brange := mk_br BNeg BPos false false.

Lemma in_point k : in_rng (point k) (BKey k) = true.
Proof. unfold in_rng, above, below. cbn. rewrite beq_refl. cbn. by rewrite orb_true_r. Qed.
Lemma in_whole k : in_rng whole (BKey k) = true.
Proof. done. Qed.
Lemma in_from k x inc : lex_cmp k x = Lt ∨ inc = true ∧ k = x → in_rng (from_ k inc) (BKey x) = true.
Proof.
  unfold in_rng, above, below. cbn. rewrite andb_true_r. intros [H|[-> ->]]; [unfold blt; cbn; by rewrite H|]. rewrite beq_refl. apply orb_true_r.
Qed.
Lemma in_upto k x inc : lex_cmp x k = Lt ∨ inc = true ∧ k = x → in_rng (upto k inc) (BKey x) = true.
Proof.
  unfold in_rng, above, below. cbn. intros [H|[-> ->]]; [unfold blt; cbn; by rewrite H|]. rewrite beq_refl. apply orb_true_r.
Qed.
Lemma in_between l r x inc :
  lex_cmp l x = Lt ∨ inc = true ∧ l = x → lex_cmp x r = Lt ∨ inc = true ∧ x = r → in_rng (mk_br (BKey l) (BKey r) inc inc) (BKey x) = true.
Proof.
  intros Hl Hr. unfold in_rng, above, below. cbn [bl br bli bri]. apply andb_true_iff. rewrite !orb_true_iff, !andb_true_iff, !beq_true, !blt_true. cbn [bcmp].
  split; [destruct Hl as [?|[? ->]]; auto|destruct Hr as [?|[? ->]]; auto].
Qed.

Lemma from_open k inc : open_ended (from_ k inc). Proof. by left. Qed.
Lemma upto_open k inc : open_ended (upto k inc). Proof. by right. Qed.
Lemma whole_open : open_ended whole. Proof. by left. Qed.

(** *** Closing a range changes nothing here *)

Lemma close_bound_noop st f inc d e c :
  inc = true ∨ col_of st f = Ok c ∧ dataType c ≠ Field_Type_Int → close_bound st f inc d e = Ok (st, inc).
Proof.
  intros H. unfold close_bound. destruct (cols_of st (f_cols f)) eqn:E; [done|]. destruct inc; [done|]. destruct H as [?|[-> Hc]]; [done|]. cbn [res_bind].
  by rewrite bool_decide_false by done.
Qed.
Lemma close_inf st f inc d e : f_cols f = NoCols → close_bound st f inc d e = Ok (st, inc).
Proof. intros H. unfold close_bound. by rewrite H. Qed.

Section AnyRange.
Context (st : store) (ts : list FieldType) (n : nat) (leftKeys rightKeys : list FieldRef) (L R X : list (list Z)) (c : cond).
Context (callBack : store → list Range → res Mark).

(** The keys are cells of the columns, without nulls. *)
Definition keys_den (keys : list FieldRef) (K : list (list Z)) : Prop :=
  length keys = n ∧ length K = n ∧
  ∀ i f k t, keys !! i = Some f → K !! i = Some k → ts !! i = Some t → denotes st t f (BKey k).

Hypothesis HL : keys_den leftKeys L.
Hypothesis HR : keys_den rightKeys R.
Hypothesis HX : length X = n.
Hypothesis Hts : (n ≤ length ts)%nat.
Hypothesis Hknown : ∀ i t, (i < n)%nat → ts !! i = Some t → t ≠ Field_Type_Unknown.
(** Integer columns between the first and the last would be written to. *)
Hypothesis Hpure : ∀ i, (0 < i)%nat → (S i < n)%nat → ts !! i ≠ Some Field_Type_Int.
Hypothesis Hcall : ∀ rgs RS, box_den st ts n rgs RS → callBack st rgs = Ok (cmark RS c).

Notation XB := (BKey <$> X).

Lemma key_of_pos keys K i : keys_den keys K → (i < n)%nat → ∃ f k t, keys !! i = Some f ∧ K !! i = Some k ∧ ts !! i = Some t ∧ denotes st t f (BKey k).
Proof.
  intros (H1 & H2 & H3) Hi. destruct (lookup_lt_is_Some_2 keys i) as [f Hf]; [lia|]. destruct (lookup_lt_is_Some_2 K i) as [k Hk]; [lia|].
  destruct (lookup_lt_is_Some_2 ts i) as [t Ht]; [lia|]. exists f, k, t. eauto 10.
Qed.

Lemma box_insert rgs RS p r B t :
  box_den st ts n rgs RS → ts !! p = Some t → range_den st t r B → box_den st ts n (<[p := r]> rgs) (<[p := B]> RS).
Proof.
  intros (H1 & H2 & H3) Ht HB. split; [by rewrite length_insert|]. split; [by rewrite length_insert|]. intros k t' r' Ht' Hr'.
  destruct (decide (k = p)) as [->|Hk].
  - apply list_lookup_insert_Some in Hr' as [(_ & -> & Hlt)|[? _]]; [|done]. exists B. rewrite list_lookup_insert_eq by lia. split; [done|].
    by assert (t' = t) as -> by congruence.
  - rewrite list_lookup_insert_ne in Hr' by done. rewrite list_lookup_insert_ne by done. by eapply H3.
Qed.

(** Prefix of a product that contains the tuple. *)
Definition pre (p : nat) (RS : list brange) : Prop := ∀ i x, (i < p)%nat → X !! i = Some x → ∃ B, RS !! i = Some B ∧ in_rng B (BKey x) = true.
Definition same_below (p : nat) (RS RS' : list brange) : Prop := ∀ i, (i < p)%nat → RS' !! i = RS !! i.

Lemma pre_same p RS RS' : pre p RS → same_below p RS RS' → pre p RS'.
Proof. intros Hp Hs i x Hi Hx. destruct (Hp i x Hi Hx) as (B & HB & Hin). exists B. by rewrite Hs. Qed.
Lemma pre_insert p RS x B : length RS = n → (p < n)%nat → pre p RS → X !! p = Some x → in_rng B (BKey x) = true → pre (S p) (<[p := B]> RS).
Proof.
  intros Hl Hpn Hp Hx HB i y Hi Hy. destruct (decide (i = p)) as [->|Hne].
  - exists B. rewrite list_lookup_insert_eq by lia. split; [done|]. by assert (y = x) as -> by congruence.
  - rewrite list_lookup_insert_ne by done. apply Hp; [lia|done].
Qed.
Lemma same_insert p q RS B : (p ≤ q)%nat → same_below p RS (<[q := B]> RS).
Proof. intros Hpq i Hi. by rewrite list_lookup_insert_ne by lia. Qed.

Lemma pre_box RS : length RS = n → pre n RS → in_box RS XB.
Proof.
  intros Hl Hp. apply Forall2_same_length_lookup_2; [by rewrite length_fmap, Hl|]. intros i B y HB Hy. rewrite list_lookup_fmap in Hy.
  destruct (X !! i) as [x|] eqn:Ex; [|done]. injection Hy as <-. destruct (Hp i x) as (B' & HB' & Hin); [apply lookup_lt_Some in Ex; lia|done|]. congruence.
Qed.

Lemma callBack_true rgs RS : box_den st ts n rgs RS → pre n RS → ceval XB c = true → ∃ m, callBack st rgs = Ok m ∧ canBeTrue m = true.
Proof.
  intros Hb Hp He. exists (cmark RS c). split; [by apply Hcall|]. eapply cmark_sound; [|done]. apply pre_box; [apply Hb|done].
Qed.

(** The remaining columns unbounded. *)
Lemma whole_ranges_spec k m rgs RS :
  (k + m ≤ n)%nat → box_den st ts n rgs RS →
  ∃ rgs' RS', whole_ranges ts m k rgs = Ok rgs' ∧ box_den st ts n rgs' RS' ∧ same_below k RS RS' ∧
    (∀ i, (k ≤ i < k + m)%nat → RS' !! i = Some whole).
Proof.
  revert k rgs RS. induction m as [|m IH]; intros k rgs RS Hk Hb; cbn [whole_ranges].
  { exists rgs, RS. split; [done|]. split; [done|]. split; [by intros i Hi|lia]. }
  destruct (lookup_lt_is_Some_2 ts k) as [t Ht]; [lia|]. unfold type_unknown. rewrite Ht. cbn [res_bind].
  rewrite bool_decide_false by (eapply Hknown; [|done]; lia).
  assert (Hb' : box_den st ts n (<[k := createWholeRangeWithoutBound]> rgs) (<[k := whole]> RS)).
  { eapply box_insert; [done|done|]. split; cbn; [by apply den_neg|by apply den_pos|done|done]. }
  destruct (IH (S k) _ _ ltac:(lia) Hb') as (rgs' & RS' & E & Hb'' & Hs & Hw). exists rgs', RS'. split; [done|]. split; [done|]. split.
  - intros i Hi. rewrite Hs by lia. by rewrite list_lookup_insert_ne by lia.
  - intros i Hi. destruct (decide (i = k)) as [->|]; [|apply Hw; lia]. rewrite Hs by lia. apply list_lookup_insert_eq. destruct Hb as (_ & ? & _). lia.
Qed.

Lemma same_point p RS RS2 RS4 B : same_below p RS RS2 → same_below (S p) (<[p := B]> RS2) RS4 → same_below p RS RS4.
Proof. intros H1 H2 i Hi. rewrite H2 by lia. rewrite list_lookup_insert_ne by lia. by apply H1. Qed.

(** A product whose first columns hold the tuple, bounded at [p] and unbounded after it. *)
Lemma middle_true p RS RS2 B x :
  length RS = n → length RS2 = n → (p < n)%nat → X !! p = Some x →
  same_below (S p) (<[p := B]> RS) RS2 → (∀ i, (S p ≤ i < S p + (n - S p))%nat → RS2 !! i = Some whole) →
  pre p RS → in_rng B (BKey x) = true → ceval XB c = true → canBeTrue (cmark RS2 c) = true.
Proof.
  intros Hl Hl2 Hp Hx Hs Hw Hpre HB He. eapply cmark_sound; [|done]. apply pre_box; [done|]. intros i y Hi Hy. destruct (decide (S p ≤ i)%nat).
  - exists whole. split; [apply Hw; lia|done].
  - rewrite Hs by lia. apply (pre_insert p RS x); [done|lia|done|done|done|lia|done].
Qed.

Lemma Or_open m : canBeFalse m = true → Or ConsiderOnlyBeTrue m = m.
Proof. destruct m as [a b]. cbn. by intros ->. Qed.
Lemma Or_no_true m m' : canBeTrue m = false → canBeFalse m = true → Or m m' = m'.
Proof. destruct m as [a b], m' as [a' b']. cbn. by intros -> ->. Qed.

(** *** One bound *)

Definition half (lb : bool) (k : list Z) (inc : bool) : brange := if lb then from_ k inc else upto k inc.
Definition keys_ (lb : bool) : list (list Z) := if lb then L else R.
Definition beyond (lb : bool) (k x : list Z) : comparison := if lb then lex_cmp k x else lex_cmp x k.
Definition region (lb : bool) (p : nat) : Prop := if lb then tuple_le (drop p L) (drop p X) else tuple_le (drop p X) (drop p R).

Lemma half_open lb k inc : open_ended (half lb k inc).
Proof. destruct lb; [apply from_open|apply upto_open]. Qed.
Lemma in_half lb k x inc : beyond lb k x = Lt ∨ inc = true ∧ k = x → in_rng (half lb k inc) (BKey x) = true.
Proof. destruct lb; [apply in_from|apply in_upto]. Qed.

Lemma region_cases lb p k x :
  keys_ lb !! p = Some k → X !! p = Some x → region lb p → beyond lb k x = Lt ∨ k = x ∧ region lb (S p).
Proof.
  destruct lb; cbn [keys_ region beyond]; intros Hk Hx.
  - rewrite (drop_S _ _ _ Hk), (drop_S _ _ _ Hx). cbn. done.
  - rewrite (drop_S _ _ _ Hk), (drop_S _ _ _ Hx). cbn. intros [?|[-> ?]]; auto.
Qed.

Lemma bounded_range_one lb p inc rgs RS :
  (p < n)%nat → inc = true ∨ (0 < p)%nat ∧ (S p < n)%nat → box_den st ts n rgs RS →
  ∃ k rgs', keys_ lb !! p = Some k ∧ bounded_range leftKeys rightKeys st p lb (negb lb) inc false rgs = Ok (st, rgs') ∧
    box_den st ts n rgs' (<[p := half lb k inc]> RS).
Proof.
  intros Hp Hinc Hb. destruct (key_of_pos _ _ p HL Hp) as (f & k & t & Ef & Ek & Et & Hf). destruct (key_of_pos _ _ p HR Hp) as (g & l & t' & Eg & El & Et' & Hg).
  assert (t' = t) as -> by congruence. unfold bounded_range, key_at. rewrite Ef, Eg. cbn [res_bind].
  assert (Hno : ∀ h k d e, denotes st t h (BKey k) → close_bound st h inc d e = Ok (st, inc)).
  { intros h k' d e Hh. inversion Hh as [| |cc v ? _ Hc Ht _ _]; subst. apply (close_bound_noop _ _ _ _ _ cc). destruct Hinc as [?|[? ?]]; [by left|].
    right. split; [done|]. intros Hint. apply (Hpure p); [done|done|]. by rewrite Et, Hint. }
  destruct lb; cbn [negb andb keys_ half].
  - unfold createLeftBounded, turnOpenRangeIntoClosed. cbn [left_ right_ leftIncluded rightIncluded].
    rewrite (Hno f k) by done. cbn [res_bind fst snd]. rewrite close_inf by done. cbn [res_bind fst snd left_].
    rewrite (denotes_pos _ _ _ _ Hf). cbn [andb]. exists k. eexists. split; [done|]. split; [done|]. eapply box_insert; [done|done|].
    split; cbn; [done|by apply den_pos|done|done].
  - unfold createRightBounded, turnOpenRangeIntoClosed. cbn [left_ right_ leftIncluded rightIncluded].
    rewrite close_inf by done. cbn [res_bind fst snd]. rewrite (Hno g l) by done. cbn [res_bind fst snd right_].
    rewrite (denotes_neg _ _ _ _ Hg). cbn [andb]. exists l. eexists. split; [done|]. split; [done|]. eapply box_insert; [done|done|].
    split; cbn; [by apply den_neg|done|done|done].
Qed.

Lemma bound_field lb p k t :
  keys_ lb !! p = Some k → ts !! p = Some t → ∃ f, (if lb then leftKeys else rightKeys) !! p = Some f ∧ denotes st t f (BKey k).
Proof.
  assert (Hgen : ∀ keys K, keys_den keys K → K !! p = Some k → ts !! p = Some t → ∃ f, keys !! p = Some f ∧ denotes st t f (BKey k)).
  { intros keys K (H1 & H2 & H3) Hk Ht. destruct (lookup_lt_is_Some_2 keys p) as [f Hf]; [apply lookup_lt_Some in Hk; lia|]. eauto. }
  destruct lb; cbn [keys_]; eauto.
Qed.

Hypothesis Hconj : (1 < n)%nat → conj_with (n - 1) c.

Lemma last_open RS B : (1 < n)%nat → RS !! (n - 1)%nat = Some B → open_ended B → canBeFalse (cmark RS c) = true.
Proof. intros Hn HB Ho. eapply conj_can_be_false; [by apply Hconj|exact HB|exact Ho]. Qed.

Lemma X_at p : (p < n)%nat → ∃ x, X !! p = Some x.
Proof. intros Hp. apply lookup_lt_is_Some_2. lia. Qed.

Notation any := (checkInAnyRange callBack n leftKeys rightKeys ts).

Lemma any_one lb fuel p rgs RS :
  (0 < p < n)%nat → (n - p < fuel)%nat → box_den st ts n rgs RS →
  ∃ rgs' RS' m, any fuel st rgs lb (negb lb) p ConsiderOnlyBeTrue = Ok (st, rgs', m) ∧ box_den st ts n rgs' RS' ∧ same_below p RS RS' ∧
    canBeFalse m = true ∧ (pre p RS → region lb p → ceval XB c = true → canBeTrue m = true).
Proof.
  revert p rgs RS. induction fuel as [|fuel IH]; intros p rgs RS Hp Hf Hb; [lia|]. cbn [checkInAnyRange].
  assert (Hbb : (negb lb && negb (negb lb) = false) ∧ (lb && negb lb = false)) by (by destruct lb). destruct Hbb as [-> ->]. cbn [res_bind].
  rewrite (proj2 (Nat.eqb_neq p n)) by lia. unfold checkRangeLeftRightBound. destruct (X_at p) as [x Hx]; [lia|].
  destruct (Nat.eqb_spec (p + 1) n) as [Hlast|Hlast].
  - destruct (bounded_range_one lb p true rgs RS) as (k & rgs' & Hk & -> & Hb'); [lia|by left|done|]. cbn [res_bind].
    rewrite (Hcall _ _ Hb'). cbn [res_bind]. exists rgs', (<[p := half lb k true]> RS), (cmark (<[p := half lb k true]> RS) c).
    split; [done|]. split; [done|]. split; [by apply same_insert|]. assert (HlR : length RS = n) by apply Hb. split.
    + eapply last_open; [lia| |apply (half_open lb k true)]. replace (n - 1)%nat with p by lia. apply list_lookup_insert_eq. lia.
    + intros Hpre Hreg He. eapply cmark_sound; [|done]. apply pre_box; [by rewrite length_insert|].
      replace n with (S p) by lia. apply (pre_insert p RS x); [done|lia|done|done|]. apply in_half.
      destruct (region_cases lb p k x Hk Hx Hreg) as [?|[? _]]; auto.
  - unfold type_unknown. destruct (lookup_lt_is_Some_2 ts p) as [t Ht]; [lia|]. rewrite Ht. cbn [res_bind].
    rewrite bool_decide_false by (eapply Hknown; [|done]; lia).
    destruct (bounded_range_one lb p false rgs RS) as (k & rgs1 & Hk & -> & Hb1); [lia|right; lia|done|]. cbn [res_bind].
    destruct (whole_ranges_spec (S p) (n - S p) _ _ ltac:(lia) Hb1) as (rgs2 & RS2 & -> & Hb2 & Hs2 & Hw2). cbn [res_bind].
    rewrite (Hcall _ _ Hb2). cbn [res_bind]. set (m1 := cmark RS2 c).
    assert (HlR : length RS = n) by apply Hb. assert (HlR2 : length RS2 = n) by apply Hb2.
    assert (Hm1 : canBeFalse m1 = true) by (eapply last_open; [lia|apply Hw2; lia|apply whole_open]).
    assert (Hsame : same_below p RS RS2).
    { by eapply same_point; [intros i Hi|exact Hs2]. }
    assert (Hmid : pre p RS → beyond lb k x = Lt → ceval XB c = true → canBeTrue m1 = true).
    { intros Hpre Hbey. eapply (middle_true p RS); [done|done|lia|done|done|done|done|]. apply in_half. by left. }
    rewrite (Or_open _ Hm1). unfold isComplete. rewrite Hm1. cbn [andb].
    destruct (canBeTrue m1) eqn:Et1.
    { exists rgs2, RS2, m1. split; [done|]. auto. }
    destruct (bound_field lb p k t Hk Ht) as (f & Hf' & Hden).
    assert (Hb3 : box_den st ts n (<[p := mk_range f f true true]> rgs2) (<[p := point k]> RS2)) by (by eapply box_insert; [done|done|split]).
    destruct (IH (S p) _ _ ltac:(lia) ltac:(lia) Hb3) as (rgs4 & RS4 & m2 & E4 & Hb4 & Hs4 & Hf4 & Ht4).
    assert (Hsame4 : same_below p RS RS4).
    { by eapply same_point; [exact Hsame|exact Hs4]. }
    assert (Htrue : pre p RS → region lb p → ceval XB c = true → canBeTrue m2 = true).
    { intros Hpre Hreg He. destruct (region_cases lb p k x Hk Hx Hreg) as [Hbey|[-> Hreg']]; [specialize (Hmid Hpre Hbey He); congruence|]. apply Ht4; [|done|done].
      apply (pre_insert p RS2 x); [done|lia| |done|apply in_point]. by eapply pre_same. }
    destruct lb; cbn [negb] in *; unfold key_at; rewrite Hf'; cbn [res_bind]; rewrite E4; cbn [res_bind].
    + rewrite (Or_no_true _ _ Et1 Hm1), Hf4. cbn [andb].
      exists rgs4, RS4, m2. split; [by destruct (canBeTrue m2)|]. auto.
    + exists rgs4, RS4, m2. auto.
Qed.

(** *** Both bounds *)

Lemma equal_prefix_spec fuel p rgs RS :
  (p + fuel = n)%nat → box_den st ts n rgs RS →
  ∃ rgs' RS' q, equal_prefix n leftKeys rightKeys fuel st rgs p = Ok (rgs', q) ∧ (p ≤ q ≤ n)%nat ∧ box_den st ts n rgs' RS' ∧
    (pre p RS → region true p → region false p → pre q RS' ∧ region true q ∧ region false q) ∧
    (q < n → ∃ l r, L !! q = Some l ∧ R !! q = Some r ∧ l ≠ r)%nat.
Proof.
  revert p rgs RS. induction fuel as [|fuel IH]; intros p rgs RS Hp Hb; cbn [equal_prefix].
  { exists rgs, RS, p. split; [done|]. split; [lia|]. split; [done|]. split; [done|lia]. }
  rewrite (proj2 (Nat.ltb_lt p n)) by lia. destruct (key_of_pos _ _ p HL) as (f & k & t & Ef & Ek & Et & Hf); [lia|].
  destruct (key_of_pos _ _ p HR) as (g & l & t' & Eg & El & Et' & Hg); [lia|]. assert (t' = t) as -> by congruence.
  unfold key_at. rewrite Ef, Eg. cbn [res_bind]. destruct (compare_spec st t f g _ _ Hf Hg) as [-> _]. cbn [res_bind]. destruct (beq (BKey k) (BKey l)) eqn:Eb.
  - apply beq_true in Eb. injection Eb as <-.
    assert (Hb1 : box_den st ts n (<[p := mk_range f f true true]> rgs) (<[p := point k]> RS)) by (by eapply box_insert; [done|done|split]).
    destruct (IH (S p) _ _ ltac:(lia) Hb1) as (rgs' & RS' & q & E & Hq & Hb' & Hpre & Hdiff). exists rgs', RS', q. split; [done|]. split; [lia|].
    split; [done|]. split; [|done]. intros Hp0 Hl Hr. destruct (X_at p) as [x Hx]; [lia|].
    destruct (region_cases true p k x Ek Hx Hl) as [H1|[-> H1]].
    + destruct (region_cases false p k x El Hx Hr) as [H2|[-> _]]; cbn [beyond] in *; [|by rewrite lex_cmp_refl in H1].
      rewrite (lex_cmp_antisym k x), H1 in H2. done.
    + destruct (region_cases false p x x El Hx Hr) as [H2|[_ H2]]; [cbn in H2; by rewrite lex_cmp_refl in H2|].
      apply Hpre; [|done|done]. apply (pre_insert p RS x); [apply Hb|lia|done|done|apply in_point].
  - exists rgs, RS, p. split; [done|]. split; [lia|]. split; [done|]. split; [done|]. intros _. exists k, l. split; [done|]. split; [done|].
    intros ->. by rewrite beq_refl in Eb.
Qed.

Lemma bounded_range_both p inc rgs RS :
  (p < n)%nat → box_den st ts n rgs RS →
  ∃ k l rgs', L !! p = Some k ∧ R !! p = Some l ∧ bounded_range leftKeys rightKeys st p true true inc false rgs = Ok (st, rgs') ∧
    box_den st ts n rgs' (<[p := mk_br (BKey k) (BKey l) inc inc]> RS).
Proof.
  intros Hp Hb. destruct (key_of_pos _ _ p HL Hp) as (f & k & t & Ef & Ek & Et & Hf). destruct (key_of_pos _ _ p HR Hp) as (g & l & t' & Eg & El & Et' & Hg).
  assert (t' = t) as -> by congruence. unfold bounded_range, key_at. rewrite Ef, Eg. cbn [res_bind andb]. exists k, l. eexists.
  split; [done|]. split; [done|]. split; [done|]. by eapply box_insert; [done|done|split].
Qed.

Lemma any_both fuel rgs RS :
  (n < fuel)%nat → box_den st ts n rgs RS →
  ∃ rgs' m, any fuel st rgs true true 0 ConsiderOnlyBeTrue = Ok (st, rgs', m) ∧
    (tuple_le L X → tuple_le X R → ceval XB c = true → canBeTrue m = true).
Proof.
  intros Hf Hb. destruct fuel as [|fuel]; [lia|]. cbn [checkInAnyRange negb andb].
  destruct (equal_prefix_spec (n - 0) 0 rgs RS) as (rgs1 & RS1 & p & -> & Hp & Hb1 & Hpre & Hdiff); [lia|done|]. cbn [res_bind].
  assert (Hstart : tuple_le L X → tuple_le X R → pre p RS1 ∧ region true p ∧ region false p) by (intros; apply Hpre; [intros i x Hi; lia|done|done]).
  clear Hpre. assert (HlR1 : length RS1 = n) by apply Hb1. destruct (Nat.eqb_spec p n) as [->|Hpn].
  { rewrite (Hcall _ _ Hb1). cbn [res_bind]. exists rgs1, (cmark RS1 c). split; [done|]. intros H1 H2 He. destruct (Hstart H1 H2) as [Hpre _].
    eapply cmark_sound; [|done]. by apply pre_box. }
  destruct (X_at p) as [x Hx]; [lia|]. unfold checkRangeLeftRightBound. destruct (Nat.eqb_spec (p + 1) n) as [Hlast|Hlast].
  - destruct (bounded_range_both p true rgs1 RS1) as (k & l & rgs2 & Hk & Hl & -> & Hb2); [lia|done|]. cbn [res_bind]. rewrite (Hcall _ _ Hb2). cbn [res_bind].
    eexists _, _. split; [done|]. intros H1 H2 He. destruct (Hstart H1 H2) as (Hpre & Hr1 & Hr2). eapply cmark_sound; [|done]. apply pre_box; [by rewrite length_insert|].
    replace n with (S p) by lia. apply (pre_insert p RS1 x); [done|lia|done|done|]. apply in_between.
    + destruct (region_cases true p k x Hk Hx Hr1) as [?|[? _]]; auto.
    + destruct (region_cases false p l x Hl Hx Hr2) as [?|[? _]]; auto.
  - unfold type_unknown. destruct (lookup_lt_is_Some_2 ts p) as [t Ht]; [lia|]. rewrite Ht. cbn [res_bind].
    rewrite bool_decide_false by (eapply Hknown; [|done]; lia).
    destruct (bounded_range_both p false rgs1 RS1) as (k & l & rgs2 & Hk & Hl & -> & Hb2); [lia|done|]. cbn [res_bind].
    destruct (whole_ranges_spec (S p) (n - S p) _ _ ltac:(lia) Hb2) as (rgs3 & RS3 & -> & Hb3 & Hs3 & Hw3). cbn [res_bind].
    rewrite (Hcall _ _ Hb3). cbn [res_bind]. set (m1 := cmark RS3 c). assert (HlR3 : length RS3 = n) by apply Hb3.
    assert (Hm1 : canBeFalse m1 = true) by (eapply last_open; [lia|apply Hw3; lia|apply whole_open]).
    assert (Hsame : same_below p RS1 RS3).
    { by eapply same_point; [intros i Hi|exact Hs3]. }
    assert (Hmid : pre p RS1 → lex_cmp k x = Lt → lex_cmp x l = Lt → ceval XB c = true → canBeTrue m1 = true).
    { intros Hpre H1 H2. eapply (middle_true p RS1); [done|done|lia|done|done|done|done|]. apply in_between; by left. }
    clearbody m1. rewrite (Or_open _ Hm1). unfold isComplete. rewrite Hm1. cbn [andb].
    destruct (canBeTrue m1) eqn:Et1; [eexists _, _; split; [done|]; by intros|].
    destruct (bound_field true p k t Hk Ht) as (f & Ef & Hfd). destruct (bound_field false p l t Hl Ht) as (g & Eg & Hgd).
    unfold key_at. rewrite Ef. cbn [res_bind].
    assert (Hb4 : box_den st ts n (<[p := mk_range f f true true]> rgs3) (<[p := point k]> RS3)) by (by eapply box_insert; [done|done|split]).
    destruct (any_one true fuel (S p) _ _ ltac:(lia) ltac:(lia) Hb4) as (rgs5 & RS5 & m2 & E5 & Hb5 & Hs5 & Hf5 & Ht5). cbn [negb] in E5. rewrite E5. cbn [res_bind].
    rewrite (Or_no_true _ _ Et1 Hm1), Hf5. cbn [andb].
    assert (HlR5 : length RS5 = n) by apply Hb5.
    assert (Hsame5 : same_below p RS1 RS5).
    { by eapply same_point; [exact Hsame|exact Hs5]. }
    destruct (canBeTrue m2) eqn:Et2'; [eexists _, _; split; [done|]; by intros|]. rewrite Eg. cbn [res_bind].
    assert (Hb6 : box_den st ts n (<[p := mk_range g g true true]> rgs5) (<[p := point l]> RS5)) by (by eapply box_insert; [done|done|split]).
    destruct (any_one false fuel (S p) _ _ ltac:(lia) ltac:(lia) Hb6) as (rgs7 & RS7 & m3 & E7 & Hb7 & Hs7 & Hf7 & Ht7). cbn [negb] in E7. rewrite E7. cbn [res_bind].
    eexists _, _. split; [done|]. intros H1 H2 He. destruct (Hstart H1 H2) as (Hpre & Hr1 & Hr2).
    destruct (region_cases true p k x Hk Hx Hr1) as [Hlt|[-> Hr1']].
    + destruct (region_cases false p l x Hl Hx Hr2) as [Hlt2|[-> Hr2']].
      * specialize (Hmid Hpre Hlt Hlt2 He). congruence.
      * apply Ht7; [|done|done]. apply (pre_insert p RS5 x); [done|lia| |done|apply in_point]. by eapply pre_same.
    + exfalso. apply diff_false_true. apply Ht5; [|done|done].
      apply (pre_insert p RS3 x); [done|lia| |done|apply in_point]. by eapply pre_same.
Qed.
End AnyRange.
