(* ===== verification/SparseScan.v ===== *)
(** * The searches over the fragments of a sparse index

    Whatever the check answers, as long as it does not rule out a range with a matching
    fragment, both searches return disjoint ascending ranges that contain every matching
    fragment; the exclusion search does so within its fuel. *)

From S2P Require Import Prelude ColVal SparseIndex.

Definition inside (f : Z) (r : FragmentRange) : Prop := Start r ≤ f < End r.

(** Ascending, disjoint, not empty, within [lo, hi). *)
Fixpoint ascending (lo hi : Z) (rs : list FragmentRange) : Prop :=
  match rs with
  | [] => lo ≤ hi
  | r :: rs => lo ≤ Start r < End r ∧ ascending (End r) hi rs
  end.

Lemma ascending_le lo hi rs : ascending lo hi rs → lo ≤ hi.
Proof. revert lo. induction rs as [|r rs IH]; intros lo; cbn; [done|]. intros [? ?%IH]. lia. Qed.
Lemma ascending_weaken lo lo' hi hi' rs : lo' ≤ lo → hi ≤ hi' → ascending lo hi rs → ascending lo' hi' rs.
Proof.
  revert lo lo'. induction rs as [|r rs IH]; intros lo lo' Hlo Hhi; cbn; [lia|]. intros [? Hrs]. split; [lia|]. by apply (IH (End r)).
Qed.
Lemma ascending_app lo hi rs qs : ascending lo hi (rs ++ qs) ↔ ∃ m, ascending lo m rs ∧ ascending m hi qs.
Proof.
  revert lo. induction rs as [|r rs IH]; intros lo; cbn [app ascending].
  - split; [intros H; exists lo; split; [cbn; lia|done]|]. intros (m & Hm & Hq). by eapply ascending_weaken; [..|exact Hq].
  - rewrite IH. split; [intros [? (m & ? & ?)]; by exists m|]. intros (m & [? ?] & ?). split; [done|]. by exists m.
Qed.
Lemma ascending_inside lo hi rs f : ascending lo hi rs → Exists (inside f) rs → lo ≤ f < hi.
Proof.
  revert lo. induction rs as [|r rs IH]; intros lo Ha He; [by apply Exists_nil in He|]. cbn in Ha. destruct Ha as [Hr Ha]. pose proof (ascending_le _ _ _ Ha).
  apply Exists_cons in He as [He|He]; [unfold inside in He; lia|]. specialize (IH _ Ha He). lia.
Qed.

Section Search.
Context {T : Type} (checkInRange : T → Z → Z → res (T * bool)) (st : T) (n : Z) (chk : Z → Z → bool) (matching : Z → Prop).

Hypothesis n_pos : 0 < n < 2 ^ 31.
Hypothesis check_ok : ∀ s e, 0 ≤ s → s < e ≤ n → checkInRange st s e = Ok (st, chk s e).
Hypothesis check_sound : ∀ f s e, 0 ≤ s ≤ f → f < e ≤ n → matching f → chk s e = true.

Definition covers (rs : list FragmentRange) : Prop := ∀ f, 0 ≤ f < n → matching f → Exists (inside f) rs.

Lemma half_between l r : 0 ≤ l → l + 1 < r → r ≤ n → u32 (l + r) / 2 = (l + r) / 2 ∧ l < (l + r) / 2 < r.
Proof. intros Hl Hlr Hr. unfold wrap_u. rewrite Z.mod_small by lia. split; [done|]. zdm. Qed.
Lemma u32_succ l : 0 ≤ l < n → u32 (l + 1) = l + 1.
Proof. intros Hl. unfold wrap_u. apply Z.mod_small. lia. Qed.

Lemma left_boundary_spec fuel l r :
  (Z.to_nat (r - l) ≤ fuel)%nat → 0 ≤ l < r → r ≤ n → (∀ f, 0 ≤ f < l → ~ matching f) →
  ∃ l', left_boundary checkInRange fuel st l r = Ok (st, l') ∧ 0 ≤ l' < n ∧ ∀ f, 0 ≤ f < l' → ~ matching f.
Proof.
  revert l r. induction fuel as [|fuel IH]; intros l r Hf Hl Hr Hm; [lia|]. cbn [left_boundary]. rewrite u32_succ by lia. bcase; [|exists l; split; [done|]; split; [lia|done]].
  destruct (half_between l r) as [-> Hmid]; [lia|lia|lia|]. set (mid := (l + r) / 2) in *. rewrite check_ok by lia. cbn [res_bind]. destruct (chk 0 mid) eqn:E.
  - apply IH; [lia|lia|lia|done].
  - apply IH; [lia|lia|lia|]. intros f Hff Hmf. rewrite (check_sound f 0 mid) in E; [done|lia|lia|done].
Qed.

Lemma right_boundary_spec fuel l r :
  (Z.to_nat (r - l) ≤ fuel)%nat → 0 ≤ l < r → r ≤ n → (∀ f, r ≤ f < n → ~ matching f) →
  ∃ r', right_boundary checkInRange fuel st n l r = Ok (st, r') ∧ l < r' ≤ n ∧ ∀ f, r' ≤ f < n → ~ matching f.
Proof.
  revert l r. induction fuel as [|fuel IH]; intros l r Hf Hl Hr Hm; [lia|]. cbn [right_boundary]. rewrite u32_succ by lia. bcase; [|exists r; split; [done|]; split; [lia|done]].
  destruct (half_between l r) as [-> Hmid]; [lia|lia|lia|]. set (mid := (l + r) / 2) in *. rewrite check_ok by lia. cbn [res_bind]. destruct (chk mid n) eqn:E.
  - destruct (IH mid r) as (r' & E' & ? & ?); [lia|lia|lia|done|]. exists r'. split; [done|]. split; [lia|done].
  - apply IH; [lia|lia|lia|]. intros f Hff Hmf. rewrite (check_sound f mid n) in E; [done|lia|lia|done].
Qed.

Lemma doBinarySearch_spec : ∃ rs, doBinarySearch checkInRange st n = Ok (st, rs) ∧ ascending 0 n rs ∧ covers rs.
Proof.
  unfold doBinarySearch. destruct (left_boundary_spec (S (Z.to_nat n)) 0 n) as (l & -> & Hl & Hlm); [lia|lia|lia|lia|]. cbn [res_bind].
  destruct (right_boundary_spec (S (Z.to_nat n)) l n) as (r & -> & Hr & Hrm); [lia|lia|lia|lia|]. cbn [res_bind].
  rewrite (proj2 (Z.ltb_lt l r)) by lia. rewrite check_ok by lia. cbn [res_bind].
  assert (Hin : ∀ f, 0 ≤ f < n → matching f → l ≤ f < r).
  { intros f Hf Hm. split; apply Z.nlt_ge || apply Z.nle_gt; intros ?; [by apply (Hlm f); [lia|]|by apply (Hrm f); [lia|]]. }
  destruct (chk l r) eqn:E.
  - exists [mk_fr l r]. split; [done|]. split; [cbn; lia|]. intros f Hf Hm. apply Exists_cons. left. unfold inside. cbn. auto.
  - exists []. split; [done|]. split; [cbn; lia|]. intros f Hf Hm. destruct (Hin f Hf Hm). rewrite (check_sound f l r) in E; [done|lia|lia|done].
Qed.

(** *** Splitting a range *)

Inductive chain (s : Z) : Z → list FragmentRange → Prop :=
  | chain_one e : s < e → chain s e [mk_fr s e]
  | chain_snoc m e ps : chain s m ps → m < e → chain s e (ps ++ [mk_fr m e]).

Lemma chain_ascending s e ps : chain s e ps → ascending s e ps.
Proof.
  induction 1 as [e He|m e ps _ IH Hm]; [cbn; lia|]. apply ascending_app. exists m. split; [done|]. cbn. lia.
Qed.
Lemma chain_covers s e ps f : chain s e ps → s ≤ f < e → Exists (inside f) ps.
Proof.
  induction 1 as [e He|m e ps _ IH Hm]; intros Hf; [by apply Exists_cons; left|]. apply Exists_app.
  destruct (decide (f < m)); [left; apply IH; lia|]. right. apply Exists_cons. left. unfold inside. cbn. lia.
Qed.

(** What is left to do: every split has at least two parts. *)
Definition work (rs : list FragmentRange) : Z := foldr (λ r w, 2 * (End r - Start r) - 1 + w) 0 rs.

Lemma work_app rs qs : work (rs ++ qs) = work rs + work qs.
Proof. induction rs as [|r rs IH]; [done|]. unfold work in *. cbn [app foldr]. rewrite IH. lia. Qed.
Lemma work_chain s e ps : chain s e ps → work ps = 2 * (e - s) - Z.of_nat (length ps).
Proof. induction 1 as [e He|m e ps _ IH Hm]; [cbn; lia|]. rewrite work_app, length_app, IH. cbn. lia. Qed.

Lemma push_parts_spec fuel start step e stack :
  0 ≤ start < e → e ≤ n → 0 < step ≤ n → (Z.to_nat (e - start) ≤ fuel)%nat →
  ∃ ps, push_parts fuel start step e stack = ps ++ stack ∧ chain start e ps ∧ (start + step < e → (2 ≤ length ps)%nat) ∧ (1 ≤ length ps)%nat.
Proof.
  revert e stack. induction fuel as [|fuel IH]; intros e stack Hs He Hst Hf; [lia|]. cbn [push_parts]. unfold wrap_u. rewrite (Z.mod_small (start + step)) by lia. bcase.
  - rewrite (Z.mod_small (e - step)) by lia. destruct (IH (e - step) (mk_fr (e - step) e :: stack)) as (ps & -> & Hc & _ & Hl); [lia|lia|lia|lia|].
    exists (ps ++ [mk_fr (e - step) e]). split; [by rewrite <- app_assoc|]. split; [apply chain_snoc; [done|lia]|]. rewrite length_app. cbn. lia.
  - exists [mk_fr start e]. split; [done|]. split; [by constructor; lia|]. cbn. lia.
Qed.

(** *** The exclusion search *)

Lemma add_range_spec minMarks mr out m :
  ascending 0 m (reverse out) → m ≤ Start mr < End mr → End mr ≤ n →
  ascending 0 (End mr) (reverse (add_range minMarks mr out)) ∧
  ∀ f, Exists (inside f) out ∨ inside f mr → Exists (inside f) (add_range minMarks mr out).
Proof.
  intros Ho Hm Hn. destruct out as [|l out]; cbn [add_range].
  - split; [cbn in *; lia|]. intros f [H|H]; [by apply Exists_nil in H|]. apply Exists_cons. by left.
  - assert (Ho' := Ho). rewrite reverse_cons in Ho. apply ascending_app in Ho as (m' & Ho & Hl). cbn in Hl. bcase.
    + split; [|intros f [?|?]; apply Exists_cons; auto]. rewrite reverse_cons. apply ascending_app. exists m. split; [done|]. cbn. lia.
    + split.
      * rewrite reverse_cons. apply ascending_app. exists m'. split; [done|]. cbn. lia.
      * intros f [Hf|Hf]; apply Exists_cons; [apply Exists_cons in Hf as [Hf|Hf]; [|by right]|]; left; unfold inside in *; cbn; lia.
Qed.

Lemma exclusion_loop_spec coarse minMarks fuel stack out m :
  1 < coarse → ascending 0 m (reverse out) → 0 ≤ m → ascending m n stack → (Z.to_nat (work stack) ≤ fuel)%nat →
  (∀ f, 0 ≤ f < n → matching f → Exists (inside f) out ∨ Exists (inside f) stack) →
  ∃ rs, exclusion_loop checkInRange coarse minMarks fuel st stack out = Ok (st, rs) ∧ ascending 0 n rs ∧ covers rs.
Proof.
  intros Hc. revert stack out m. induction fuel as [|fuel IH]; intros stack out m Ho Hm Hs Hw Hcov; destruct stack as [|mr stack]; cbn [exclusion_loop].
  1,3: exists (reverse out); split; [done|]; cbn in Hs; split; [by eapply ascending_weaken; [..|exact Ho]|];
    intros f Hf Hmf; destruct (Hcov f Hf Hmf) as [H|H]; [by apply Exists_exists in H as (r & ? & ?); apply Exists_exists; exists r; rewrite elem_of_reverse|by apply Exists_nil in H].
  { assert (Hnn : ∀ lo hi rs, ascending lo hi rs → 0 ≤ work rs).
    { clear. intros lo hi rs. revert lo. induction rs as [|r rs IH]; intros lo; cbn; [lia|]. intros [? Hrs]. specialize (IH _ Hrs). unfold work in IH. lia. }
    cbn in Hs. destruct Hs as [Hr Hs]. specialize (Hnn _ _ _ Hs). unfold work in *. cbn in Hw. lia. }
  assert (Hs' := Hs). cbn in Hs. destruct Hs as [Hr Hs]. pose proof (ascending_le _ _ _ Hs) as Hle. rewrite check_ok by lia. cbn [res_bind].
  assert (Hwork : work (mr :: stack) = 2 * (End mr - Start mr) - 1 + work stack) by done.
  destruct (chk (Start mr) (End mr)) eqn:E; cbn [negb].
  2: { apply (IH _ _ m); [done|done|by eapply ascending_weaken; [..|exact Hs]; lia|lia|]. intros f Hf Hmf.
       destruct (Hcov f Hf Hmf) as [?|[Hin|?]%Exists_cons]; [by left| |by right]. unfold inside in Hin.
       rewrite (check_sound f (Start mr) (End mr)) in E; [done|lia|lia|done]. }
  rewrite u32_succ by lia. destruct (Z.eqb_spec (End mr) (Start mr + 1)) as [Hone|Hmany].
  - destruct (add_range_spec minMarks mr out m Ho) as [Ha Hin]; [lia|lia|]. apply (IH _ _ (End mr)); [done|lia|done|lia|].
    intros f Hf Hmf. destruct (Hcov f Hf Hmf) as [?|[?|?]%Exists_cons]; [left; auto|left; auto|by right].
  - unfold wrap_u. rewrite (Z.mod_small (End mr - Start mr - 1)) by lia. set (size := End mr - Start mr) in *.
    assert (Hstep : 0 < (size - 1) / coarse + 1 < size).
    { assert ((size - 1) / coarse < size - 1) by (apply Z.div_lt; lia). pose proof (Z.div_pos (size - 1) coarse). lia. }
    rewrite (Z.mod_small ((size - 1) / coarse + 1)) by lia.
    destruct (push_parts_spec (Z.to_nat size) (Start mr) ((size - 1) / coarse + 1) (End mr) stack) as (ps & -> & Hch & Hl2 & _); [lia|lia|lia|lia|].
    specialize (Hl2 ltac:(lia)). apply (IH _ _ m); [done|done| | |].
    + apply ascending_app. exists (End mr). split; [|done]. eapply ascending_weaken; [..|by apply chain_ascending]; lia.
    + rewrite work_app, (work_chain _ _ _ Hch). lia.
    + intros f Hf Hmf. destruct (Hcov f Hf Hmf) as [?|[Hin|?]%Exists_cons]; [by left| |right; apply Exists_app; by right].
      right. apply Exists_app. left. by eapply chain_covers.
Qed.

Lemma doExclusionSearch_spec p :
  1 < CoarseIndexFragment p < 2 ^ 32 → 0 < RowsNumPerFragment p →
  ∃ rs, doExclusionSearch checkInRange p st n = Ok (st, rs) ∧ ascending 0 n rs ∧ covers rs.
Proof.
  intros Hc Hr. unfold doExclusionSearch. rewrite (proj2 (Z.leb_gt _ _)) by lia. rewrite (proj2 (Z.eqb_neq _ _)) by lia.
  unfold wrap_u. rewrite Z.mod_small by lia.
  apply (exclusion_loop_spec _ _ _ _ _ 0); [lia|cbn; lia|lia|cbn; lia|cbn; lia|]. intros f Hf _. right. apply Exists_cons. left. unfold inside. cbn. lia.
Qed.
End Search.
