(* ===== verification/SparseConv.v ===== *)
(** * Conditions and their elements

    NewKeyCondition turns a condition into elements that stand for a [cond] which every row
    that satisfies the condition satisfies too. *)

From S2P Require Import Prelude ColVal SparseIndex SparseOrder.

(** ** What a condition says of a row *)

Definition cmp_holds (op : Token) (x k : list Z) : bool :=
  match op, lex_cmp x k with
  | EQ, Eq | LTE, Eq | GTE, Eq | LT, Lt | LTE, Lt | NEQ, Lt | GT, Gt | GTE, Gt | NEQ, Gt => true
  | _, _ => false
  end.
Definition comparison_op (op : Token) : bool := match op with EQ | NEQ | LT | LTE | GT | GTE => true | _ => false end.

(** A comparison of a column with a constant; false for null. *)
Definition holds_cmp (typ : string → FieldType) (row : string → option val) (op : Token) (x : string) (lit : Expr) : bool :=
  match row x, literal lit with
  | Some v, Some w => match key_of (typ x) v, key_of (typ x) w with Some k, Some l => cmp_holds op k l | _, _ => false end
  | _, _ => false
  end.

Fixpoint holds_row (typ : string → FieldType) (row : string → option val) (e : Expr) : bool :=
  match e with
  | BinaryExpr AND l r => holds_row typ row l && holds_row typ row r
  | BinaryExpr OR l r => holds_row typ row l || holds_row typ row r
  | BinaryExpr op (VarRef x) lit => holds_cmp typ row op x lit
  | BinaryExpr op lit (VarRef x) => holds_cmp typ row (switchMap op) x lit
  | ParenExpr e => holds_row typ row e
  | _ => false
  end.

(** Comparisons of columns with constants of their type, joined by AND and OR. *)
Inductive ok_cond (typ : string → FieldType) : Expr → Prop :=
  | ok_cmp op x lit w k : comparison_op op = true → literal lit = Some w → key_of (typ x) w = Some k → ok_cond typ (BinaryExpr op (VarRef x) lit)
  | ok_flip op x lit w k : comparison_op op = true → literal lit = Some w → key_of (typ x) w = Some k → ok_cond typ (BinaryExpr op lit (VarRef x))
  | ok_and l r : ok_cond typ l → ok_cond typ r → ok_cond typ (BinaryExpr AND l r)
  | ok_or l r : ok_cond typ l → ok_cond typ r → ok_cond typ (BinaryExpr OR l r)
  | ok_paren e : ok_cond typ e → ok_cond typ (ParenExpr e).

(** Without OR and <>. *)
Fixpoint conjunction (e : Expr) : Prop :=
  match e with
  | BinaryExpr AND l r => conjunction l ∧ conjunction r
  | BinaryExpr OR _ _ | BinaryExpr NEQ _ _ => False
  | ParenExpr e => conjunction e
  | _ => True
  end.

Fixpoint constants (e : Expr) : Z :=
  match e with BinaryExpr _ l r => constants l + constants r | ParenExpr e => constants e | VarRef _ => 0 | _ => 1 end.
Lemma constants_nonneg e : 0 ≤ constants e.
Proof. induction e; cbn; lia. Qed.

(** ** Stores during the conversion *)

Definition kext (st st' : store) : Prop :=
  ∀ i c, key_cols st !! i = Some c → ∃ c', key_cols st' !! i = Some c' ∧ dataType c' = dataType c ∧ column c `prefix_of` column c'.
Lemma kext_refl st : kext st st.
Proof. intros i c Hc. by exists c. Qed.
Lemma kext_trans st1 st2 st3 : kext st1 st2 → kext st2 st3 → kext st1 st3.
Proof.
  intros H1 H2 i c Hc. destruct (H1 _ _ Hc) as (c' & Hc' & Ht & Hp). destruct (H2 _ _ Hc') as (c'' & Hc'' & Ht' & Hp'). exists c''.
  split; [done|]. split; [congruence|]. by etransitivity.
Qed.

Definition of_schema (schema : list (string * FieldType)) (st : store) : Prop := dataType <$> key_cols st = snd <$> schema.
Definition room (st : store) (k : Z) : Prop := Forall (λ c, Z.of_nat (length (column c)) + k < MaxInt64) (key_cols st).

Lemma denotes_ext st st' t f b : f_cols f ≠ IndexCols → kext st st' → denotes st t f b → denotes st' t f b.
Proof.
  intros Hf Hx Hd. destruct Hd as [H|H|c v k Hi Hc Ht Hv Hk]; [by apply den_pos|by apply den_neg|]. unfold col_of in Hc.
  destruct (f_cols f) eqn:Ef; cbn [cols_of] in Hc; [done|done|].
  destruct (key_cols st !! f_column f) as [c0|] eqn:E; [|done]. injection Hc as ->. destruct (Hx _ _ E) as (c' & Hc' & Ht' & Hp).
  apply (den_key st' t f c' v k); [done| |congruence| |done].
  - unfold col_of. rewrite Ef. cbn [cols_of]. by rewrite Hc'.
  - unfold cell_of in *. destruct (f_row f <? 0); [done|]. destruct (column c !! Z.to_nat (f_row f)) as [v'|] eqn:Ev; [|done].
    by rewrite (prefix_lookup_Some _ _ _ _ Ev Hp).
Qed.

Definition key_range (r : Range) : Prop := f_cols (left_ r) ≠ IndexCols ∧ f_cols (right_ r) ≠ IndexCols.
Lemma range_den_ext st st' t r R : key_range r → kext st st' → range_den st t r R → range_den st' t r R.
Proof. intros [Hl Hr] Hx [H1 H2 H3 H4]. split; [by eapply denotes_ext|by eapply denotes_ext|done|done]. Qed.

(** ** One comparison *)

(** The keys of values of a type. *)
Definition valid_key (t : FieldType) (k : list Z) : Prop := t = Field_Type_Int → ∃ z, k = [z] ∧ in_s 64 z.
Lemma key_of_valid t v k : key_of t v = Some k → valid_key t k.
Proof.
  intros Hk ->. destruct v as [w| |]; [|done..]. cbn in Hk. injection Hk as <-. exists (i64 w). split; [done|]. apply wrap_s_range. lia.
Qed.

Lemma cmp_holds_one op x k : cmp_holds op [x] [k] =
  match op with EQ => x =? k | NEQ => negb (x =? k) | LT => x <? k | LTE => x <=? k | GT => k <? x | GTE => k <=? x | _ => false end.
Proof.
  unfold cmp_holds. rewrite cmp_one. rewrite (Z.eqb_compare x k). unfold Z.ltb, Z.leb. rewrite (Z.compare_antisym x k). by destruct op, (x ?= k).
Qed.

Definition upto' (k : list Z) (inc : bool) : brange := mk_br BNeg (BKey k) false inc.
Definition from' (k : list Z) (inc : bool) : brange := mk_br (BKey k) BPos inc false.

Lemma in_upto' k x inc : in_rng (upto' k inc) (BKey x) = if inc then cmp_holds LTE x k else cmp_holds LT x k.
Proof. unfold in_rng, above, below, cmp_holds, blt, beq. cbn. destruct inc, (lex_cmp x k); done. Qed.
Lemma in_from' k x inc : in_rng (from' k inc) (BKey x) = if inc then cmp_holds GTE x k else cmp_holds GT x k.
Proof.
  unfold in_rng, above, below, cmp_holds, blt, beq. cbn. rewrite (lex_cmp_antisym k x), andb_true_r. destruct inc, (lex_cmp k x); done.
Qed.
Lemma in_point' k x : in_rng (mk_br (BKey k) (BKey k) true true) (BKey x) = cmp_holds EQ x k.
Proof.
  unfold in_rng, above, below, cmp_holds, blt, beq. cbn. rewrite (lex_cmp_antisym k x). by destruct (lex_cmp k x).
Qed.

Lemma upto_proper k inc : proper (upto' k inc). Proof. split; [done|]. by intros _. Qed.
Lemma from_proper k inc : proper (from' k inc). Proof. split; [by intros _|done]. Qed.
Lemma point_proper k : proper (mk_br (BKey k) (BKey k) true true). Proof. by split. Qed.

(** The store with the constant appended; closing the range may move it by one. *)
Section OneConstant.
Context (st : store) (idx : nat) (c : ColumnRef) (v : val) (t : FieldType) (k : list Z).
Hypothesis Hc : key_cols st !! idx = Some c.
Hypothesis Ht : dataType c = t.
Hypothesis Hk : key_of t v = Some k.
Hypothesis Hroom : Z.of_nat (length (column c)) < MaxInt64.

Definition with_cell (w : val) : store := mk_store (index_cols st) (<[idx := add_cell w c]> (key_cols st)).
Definition const_ref : FieldRef := mk_ref KeyCols idx (Z.of_nat (length (column c))).

Lemma with_cell_ext w : kext st (with_cell w).
Proof.
  intros i c' Hi. cbn. destruct (decide (i = idx)) as [->|Hne].
  - rewrite list_lookup_insert_eq by (by eapply lookup_lt_Some). assert (c' = c) as -> by congruence. eexists. split; [done|]. split; [done|]. cbn. by apply prefix_app_r.
  - exists c'. by rewrite list_lookup_insert_ne.
Qed.
Lemma with_cell_schema w schema : of_schema schema st → of_schema schema (with_cell w).
Proof.
  unfold of_schema. cbn. intros <-. rewrite list_fmap_insert. cbn. rewrite list_insert_id; [done|]. by rewrite list_lookup_fmap, Hc.
Qed.
Lemma with_cell_room w m : room st (m + 1) → room (with_cell w) m.
Proof.
  intros Hr. unfold room, with_cell in *. cbn [key_cols]. assert (Hr' : Forall (λ c, Z.of_nat (length (column c)) + m < MaxInt64) (key_cols st)).
  { eapply Forall_impl; [exact Hr|]. cbn. lia. }
  apply Forall_insert; [done|]. rewrite Forall_lookup in Hr. specialize (Hr _ _ Hc). cbn in *. rewrite length_app. cbn. lia.
Qed.

Lemma const_not_inf : is_inf const_ref = false.
Proof.
  unfold is_inf, IsPositiveInfinity, IsNegativeInfinity, const_ref. cbn [f_row]. unfold MaxInt64, MinInt64 in *. apply orb_false_iff. rewrite !Z.eqb_neq. lia.
Qed.
Lemma const_col w : col_of (with_cell w) const_ref = Ok (add_cell w c).
Proof. unfold col_of. cbn. by rewrite list_lookup_insert_eq by (by eapply lookup_lt_Some). Qed.
Lemma const_cell w : cell_of (add_cell w c) (f_row const_ref) = Ok (Some w).
Proof.
  unfold cell_of. cbn [f_row const_ref]. rewrite (proj2 (Z.ltb_ge _ _)) by lia. rewrite Nat2Z.id. cbn [column add_cell].
  by rewrite lookup_app_r, Nat.sub_diag by lia.
Qed.
Lemma const_den w l : key_of t w = Some l → denotes (with_cell w) t const_ref (BKey l).
Proof. intros Hl. eapply den_key; [apply const_not_inf|apply const_col|done|apply const_cell|done]. Qed.

Lemma const_update w w' : update_cell (with_cell w) const_ref w' = with_cell w'.
Proof.
  unfold update_cell, with_cell, const_ref. cbn [f_cols f_row f_column key_cols index_cols]. f_equal. apply list_eq. intros i.
  destruct (decide (i = idx)) as [->|Hne].
  - rewrite list_lookup_alter_eq, !list_lookup_insert_eq by (by eapply lookup_lt_Some). cbn. unfold set_cell, add_cell. cbn. rewrite Nat2Z.id.
    rewrite insert_app_r_alt, Nat.sub_diag by lia. done.
  - by rewrite list_lookup_alter_ne, !list_lookup_insert_ne.
Qed.

(** Closing: the constant and the flag afterwards, with the same numbers beyond it. *)
Lemma close_const (d extreme : Z) :
  (d = 1 ∧ extreme = MaxInt64) ∨ (d = -1 ∧ extreme = MinInt64) →
  ∃ w inc l, close_bound (with_cell v) const_ref false d extreme = Ok (with_cell w, inc) ∧ key_of t w = Some l ∧
    ∀ x, valid_key t x →
      (d = 1 → (if inc then cmp_holds GTE x l else cmp_holds GT x l) = cmp_holds GT x k) ∧
      (d = -1 → (if inc then cmp_holds LTE x l else cmp_holds LT x l) = cmp_holds LT x k).
Proof.
  intros Hd. unfold close_bound.
  assert (Hne : cols_of (with_cell v) (f_cols const_ref) ≠ []) by (cbn; intros E; apply (f_equal length) in E; rewrite length_insert in E; apply lookup_lt_Some in Hc; cbn in E; lia).
  destruct (cols_of (with_cell v) (f_cols const_ref)) as [|c0 cs]; [done|]. rewrite const_col. cbn [res_bind]. cbn [dataType add_cell]. rewrite Ht.
  case_bool_decide as Hint; cbn [negb]; [|by exists v, false, k].
  rewrite const_cell. cbn [res_bind]. assert (Hk' := Hk). rewrite Hint in Hk'. destruct v as [w| |]; [|done..]. cbn in Hk'. injection Hk' as <-.
  cbn [IntegerValue res_bind fst]. assert (Hr := wrap_s_range 64 w ltac:(lia)). unfold in_s in Hr. destruct (Z.eqb_spec (i64 w) extreme) as [He|He].
  { by exists (VWord w), false, [i64 w]. }
  rewrite const_update. exists (VWord (u64 (i64 w + d))), true, [i64 w + d]. split; [done|].
  assert (Hid : i64 (u64 (i64 w + d)) = i64 w + d).
  { rewrite wrap_s_u by lia. apply wrap_s_id; [lia|]. unfold in_s, MaxInt64, MinInt64 in *. lia. }
  split; [rewrite Hint; cbn; by rewrite Hid|]. intros x Hx. destruct (Hx Hint) as (z & -> & _). rewrite !cmp_holds_one.
  split; intros Hd'; apply eq_true_iff_eq; rewrite ?Z.leb_le, ?Z.ltb_lt; lia.
Qed.

Lemma const_finite : IsNegativeInfinity const_ref = false ∧ IsPositiveInfinity const_ref = false.
Proof. pose proof const_not_inf as Hi. unfold is_inf in Hi. apply orb_false_iff in Hi. tauto. Qed.

Lemma createLeftBounded_const li :
  ∃ w inc l, createLeftBounded (with_cell v) const_ref li false = Ok (with_cell w, mk_range const_ref POSITIVE_INFINITY inc false) ∧ key_of t w = Some l ∧
    ∀ x, valid_key t x → in_rng (from' l inc) (BKey x) = cmp_holds (if li then GTE else GT) x k.
Proof.
  destruct const_finite as [_ Hp]. unfold createLeftBounded, turnOpenRangeIntoClosed. cbn [left_ right_ leftIncluded rightIncluded].
  assert (E0 : ∀ st', close_bound st' POSITIVE_INFINITY false (-1) MinInt64 = Ok (st', false)) by done. destruct li.
  - exists v, true, k. unfold close_bound at 1. split; [|split; [done|intros x _; apply in_from']].
    destruct (cols_of _ _); cbn [res_bind fst snd]; rewrite E0; cbn [res_bind fst snd left_]; by rewrite Hp.
  - destruct (close_const 1 MaxInt64) as (w & inc & l & -> & Hw & Hx); [by left|]. exists w, inc, l. cbn [res_bind fst snd]. rewrite E0.
    cbn [res_bind fst snd left_]. rewrite Hp. split; [done|]. split; [done|]. intros x Hv. rewrite in_from'. by apply Hx.
Qed.

Lemma createRightBounded_const ri :
  ∃ w inc l, createRightBounded (with_cell v) const_ref ri false = Ok (with_cell w, mk_range NEGATIVE_INFINITY const_ref false inc) ∧ key_of t w = Some l ∧
    ∀ x, valid_key t x → in_rng (upto' l inc) (BKey x) = cmp_holds (if ri then LTE else LT) x k.
Proof.
  destruct const_finite as [Hn _]. unfold createRightBounded, turnOpenRangeIntoClosed. cbn [left_ right_ leftIncluded rightIncluded].
  assert (E0 : close_bound (with_cell v) NEGATIVE_INFINITY false 1 MaxInt64 = Ok (with_cell v, false)) by done. rewrite E0. cbn [res_bind fst snd]. destruct ri.
  - exists v, true, k. unfold close_bound. split; [|split; [done|intros x _; apply in_upto']].
    destruct (cols_of _ _); cbn [res_bind fst snd right_]; by rewrite Hn.
  - destruct (close_const (-1) MinInt64) as (w & inc & l & -> & Hw & Hx); [by right|]. exists w, inc, l. cbn [res_bind fst snd right_].
    rewrite Hn. split; [done|]. split; [done|]. intros x Hv. rewrite in_upto'. by apply Hx.
Qed.
End OneConstant.

(** What an element, or a list of them, says: the condition [c], in any later store. *)
Definition stands_for (ts : list FieldType) (st : store) (es : list RPNElement) (c : cond) : Prop := ∀ st', kext st st' → flat st' ts es c.

(** A condition without OR and <>. *)
Fixpoint conj_cond (c : cond) : Prop :=
  match c with CIn _ R => proper R | CTrue => True | CAnd c d => conj_cond c ∧ conj_cond d | _ => False end.

Lemma conj_cond_with k c : conj_cond c → k ∈ columns c → conj_with k c.
Proof.
  induction c as [k' R|k' R| |c IHc d IHd|c IHc d IHd]; cbn; try done.
  - intros HR ->%list_elem_of_singleton. done.
  - intros _ Hn. by apply elem_of_nil in Hn.
  - intros [Hc Hd] [Hk|Hk]%elem_of_app; auto.
Qed.

Section Convert.
Context (schema : list (string * FieldType)).
Notation ts := (snd <$> schema).

(** What the conversion of one comparison promises: the new store, and the element. *)
Record converted (st st' : store) (idx : nat) (t : FieldType) (m : Z) (op : Token) (k : list Z) (el : RPNElement) (c : cond) : Prop := {
  cv_schema : of_schema schema st';
  cv_room : room st' m;
  cv_ext : kext st st';
  cv_stands : stands_for ts st' [el] c;
  cv_columns : columns c = [idx];
  cv_conj : op ≠ NEQ → conj_cond c;
  cv_eval X x : X !! idx = Some (BKey x) → valid_key t x → ceval X c = cmp_holds op x k;
}.

Section Elem.
Context (st : store) (idx : nat) (t : FieldType) (v : val) (k : list Z) (m : Z) (c : ColumnRef).
Hypothesis Hs : of_schema schema st.
Hypothesis Hr : room st (m + 1).
Hypothesis Ht : ts !! idx = Some t.
Hypothesis Hc : key_cols st !! idx = Some c.
Hypothesis Htc : dataType c = t.
Hypothesis Hlen : Z.of_nat (length (column c)) < MaxInt64.

Lemma converted_in w op rg R :
  key_range rg → range_den (with_cell st idx c w) t rg R → proper R → (∀ x, valid_key t x → in_rng R (BKey x) = cmp_holds op x k) →
  converted st (with_cell st idx c w) idx t m op k (InRange rg idx) (CIn idx R).
Proof.
  intros Hkr Hrd Hp Hx. split; [by apply with_cell_schema|by apply with_cell_room|by apply with_cell_ext| |done|done|].
  - intros st' Hx'. econstructor; [done|by eapply range_den_ext].
  - intros X x HX Hv. cbn [ceval]. rewrite HX. by apply Hx.
Qed.
Lemma converted_notin w rg R :
  key_range rg → range_den (with_cell st idx c w) t rg R → (∀ x, valid_key t x → negb (in_rng R (BKey x)) = cmp_holds NEQ x k) →
  converted st (with_cell st idx c w) idx t m NEQ k (NotInRange rg idx) (CNotIn idx R).
Proof.
  intros Hkr Hrd Hx. split; [by apply with_cell_schema|by apply with_cell_room|by apply with_cell_ext| |done|done|].
  - intros st' Hx'. econstructor; [done|by eapply range_den_ext].
  - intros X x HX Hv. cbn [ceval]. rewrite HX. by apply Hx.
Qed.
End Elem.

Lemma gen_elem st op idx t e v k m :
  of_schema schema st → room st (m + 1) → 0 ≤ m → ts !! idx = Some t → comparison_op op = true → literal e = Some v → key_of t v = Some k →
  ∃ st' el c, genRPNElementByVal st (RLeaf e) op idx = Ok (st', Some el) ∧ converted st st' idx t m op k el c.
Proof.
  intros Hs Hr Hm Ht Hop Hl Hk. unfold genRPNElementByVal. rewrite Hl.
  assert (Hcol : ∃ c, key_cols st !! idx = Some c ∧ dataType c = t).
  { unfold of_schema in Hs. rewrite <- Hs, list_lookup_fmap in Ht. destruct (key_cols st !! idx) as [c|]; [|done]. injection Ht as <-. eauto. }
  destruct Hcol as (c & Hc & Htc). rewrite Hc. assert (Hlen : Z.of_nat (length (column c)) < MaxInt64).
  { unfold room in Hr. rewrite Forall_lookup in Hr. specialize (Hr _ _ Hc). cbn in Hr. lia. }
  change (mk_store (index_cols st) (<[idx := add_cell v c]> (key_cols st))) with (with_cell st idx c v).
  change (mk_ref KeyCols idx (Z.of_nat (length (column c)))) with (const_ref idx c).
  assert (Hden : ∀ w l, key_of t w = Some l → denotes (with_cell st idx c w) t (const_ref idx c) (BKey l)) by (intros; by eapply const_den).
  assert (Hpt : range_den (with_cell st idx c v) t (mk_range (const_ref idx c) (const_ref idx c) true true) (mk_br (BKey k) (BKey k) true true)).
  { by split; [eapply Hden|eapply Hden|..]. }
  assert (Hleft : ∀ li, ∃ st' el d, (let! p := createLeftBounded (with_cell st idx c v) (const_ref idx c) li false in Ok (fst p, Some (InRange (snd p) idx))) = Ok (st', Some el) ∧
    converted st st' idx t m (if li then GTE else GT) k el d).
  { intros li. destruct (createLeftBounded_const st idx c v t k Hc Htc Hk Hlen li) as (w & inc & l & -> & Hw & Hx). eexists _, _, _. split; [done|]. cbn [fst snd].
    eapply (converted_in st idx t k m c) with (R := from' l inc); [done..|split; [by apply Hden|by apply den_pos|done|done]|apply from_proper|done]. }
  assert (Hright : ∀ ri, ∃ st' el d, (let! p := createRightBounded (with_cell st idx c v) (const_ref idx c) ri false in Ok (fst p, Some (InRange (snd p) idx))) = Ok (st', Some el) ∧
    converted st st' idx t m (if ri then LTE else LT) k el d).
  { intros ri. destruct (createRightBounded_const st idx c v t k Hc Htc Hk Hlen ri) as (w & inc & l & -> & Hw & Hx). eexists _, _, _. split; [done|]. cbn [fst snd].
    eapply (converted_in st idx t k m c) with (R := upto' l inc); [done..|split; [by apply den_neg|by apply Hden|done|done]|apply upto_proper|done]. }
  destruct op; try done; cbn [genRPNElementByOp]; [| |apply (Hright false)|apply (Hright true)|apply (Hleft false)|apply (Hleft true)]; eexists _, _, _; (split; [done|]).
  - eapply converted_in; [done..|exact Hpt|apply point_proper|]. intros x _. apply in_point'.
  - eapply converted_notin; [done..|exact Hpt|]. intros x _. rewrite in_point'. unfold cmp_holds. by destruct (lex_cmp x k).
Qed.

(** *** Whole conditions *)

Context (typ : string → FieldType).
Hypothesis Htyp : ∀ i x t, schema !! i = Some (x, t) → typ x = t.

(** The keys of a row in the columns of the primary key. *)
Definition reflects (row : string → option val) (X : list bnd) : Prop :=
  ∀ i x t, schema !! i = Some (x, t) → ∃ v k, row x = Some v ∧ key_of t v = Some k ∧ X !! i = Some (BKey k).

Record conv_ok (st st' : store) (m : Z) (e : Expr) (vals : list RPNVal) (es : list RPNElement) (c : cond) : Prop := {
  cn_run rest : convertToRPNElem schema st (vals ++ rest) = let! q := convertToRPNElem schema st' rest in Ok (fst q, es ++ snd q);
  cn_schema : of_schema schema st';
  cn_room : room st' m;
  cn_ext : kext st st';
  cn_stands : stands_for ts st' es c;
  cn_columns : Forall (λ k, k < length schema)%nat (columns c);
  cn_conj : conjunction e → conj_cond c;
  cn_eval row X : reflects row X → holds_row typ row e = true → ceval X c = true;
}.

Lemma FieldIndex_Some x i : FieldIndex schema x = Some i → ∃ t, schema !! i = Some (x, t).
Proof.
  unfold FieldIndex. destruct (list_find _ _) as [[j [y t]]|] eqn:E; [|done]. cbn. intros [= <-]. apply list_find_Some in E as (Hj & Hy & _). cbn in Hy. subst y. eauto.
Qed.

Lemma conv_cmp st m e op x lit w k :
  of_schema schema st → room st (m + 1) → 0 ≤ m → comparison_op op = true → literal lit = Some w → key_of (typ x) w = Some k →
  (conjunction e → op ≠ NEQ) → (∀ row, holds_row typ row e = true → holds_cmp typ row op x lit = true) →
  ∃ st' es c, conv_ok st st' m e [RLeaf (VarRef x); RLeaf lit; RTok op] es c.
Proof.
  intros Hs Hr Hm Hop Hl Hk Hcj Hh.
  assert (Hskip : ∀ st' rest, convertToRPNElem schema st' (RLeaf lit :: RTok op :: rest) = convertToRPNElem schema st' rest) by (intros; destruct lit; try done; by destruct op).
  destruct (FieldIndex schema x) as [i|] eqn:Ei.
  - destruct (FieldIndex_Some _ _ Ei) as (t & Hi). assert (Ht : typ x = t) by (by eapply Htyp). rewrite Ht in Hk.
    assert (Hti : ts !! i = Some t) by (by rewrite list_lookup_fmap, Hi).
    destruct (gen_elem st op i t lit w k m) as (st' & el & c & Eg & [H1 H2 H3 H4 H5 H6 H7]); [done..|]. exists st', [el], c. split; [|done|done|done|done| |auto|].
    + intros rest. cbn [app]. assert (E : convertToRPNElem schema st (RLeaf (VarRef x) :: RLeaf lit :: RTok op :: rest) =
        let! p := genRPNElementByVal st (RLeaf lit) op i in
        let! q := convertToRPNElem schema (fst p) (RLeaf lit :: RTok op :: rest) in
        Ok (fst q, match snd p with Some e => e :: snd q | None => snd q end)) by (cbn [convertToRPNElem]; by rewrite Ei).
      rewrite E, Eg. cbn [res_bind fst snd]. by rewrite Hskip.
    + rewrite H5. apply Forall_singleton. by eapply lookup_lt_Some.
    + intros row X HX He. apply Hh in He. destruct (HX _ _ _ Hi) as (v & kx & Hv & Hkx & HXi). rewrite (H7 X kx HXi); [|by eapply key_of_valid].
      unfold holds_cmp in He. by rewrite Hv, Hl, Ht, Hkx, Hk in He.
  - exists st, [AlwaysTrue], CTrue. split; [|done|by eapply Forall_impl; [exact Hr|]; cbn; lia|apply kext_refl|intros st' _; constructor|constructor|done|done].
    intros rest. cbn [app]. assert (E : convertToRPNElem schema st (RLeaf (VarRef x) :: RLeaf lit :: RTok op :: rest) =
      let! p := convertToRPNElem schema st (RLeaf lit :: RTok op :: rest) in Ok (fst p, AlwaysTrue :: snd p)) by (cbn [convertToRPNElem]; by rewrite Ei).
    by rewrite E, Hskip.
Qed.

Lemma conv_bin st st1 st2 m m' tok el mk_c l r vl vr esl esr cl cr e :
  (∀ st rest, convertToRPNElem schema st (RTok tok :: rest) = let! q := convertToRPNElem schema st rest in Ok (fst q, el :: snd q)) →
  (∀ st', flat st' ts esl cl → flat st' ts esr cr → flat st' ts (esl ++ esr ++ [el]) mk_c) → columns mk_c = columns cl ++ columns cr →
  (conjunction e → conj_cond mk_c) → (∀ row X, reflects row X → holds_row typ row e = true → ceval X mk_c = true) →
  conv_ok st st1 m' l vl esl cl → conv_ok st1 st2 m r vr esr cr →
  conv_ok st st2 m e (vl ++ vr ++ [RTok tok]) (esl ++ esr ++ [el]) mk_c.
Proof.
  intros Htok Hflat Hcols Hcj Hev [R1 S1 M1 X1 F1 C1 J1 V1] [R2 S2 M2 X2 F2 C2 J2 V2]. split; [|done|done| | | |done|done].
  - intros rest. rewrite <- !app_assoc, R1, R2. cbn [app]. rewrite Htok. destruct (convertToRPNElem schema st2 rest) as [[st3 es3]| | |]; cbn [res_bind fst snd]; try done.
    by rewrite <- !app_assoc.
  - by eapply kext_trans.
  - intros st' Hx. apply Hflat; [|by apply F2]. apply F1. by eapply kext_trans.
  - rewrite Hcols. by apply Forall_app.
Qed.

Lemma not_varref e : ok_cond typ e → ∀ op l, ConvertToRPNExpr (BinaryExpr op l e) = ConvertToRPNExpr l ++ ConvertToRPNExpr e ++ [RTok op].
Proof. by intros [] op' l'. Qed.

Lemma conv_cond e : ok_cond typ e → ∀ st m, of_schema schema st → room st (m + constants e) → 0 ≤ m →
  ∃ st' es c, conv_ok st st' m e (ConvertToRPNExpr e) es c.
Proof.
  intros Hok. induction Hok as [op x lit w k Hop Hl Hk|op x lit w k Hop Hl Hk|l r _ IHl Hokr IHr|l r _ IHl Hokr IHr|e _ IHe]; intros st m Hs Hr Hm.
  - assert (Ec : ConvertToRPNExpr (BinaryExpr op (VarRef x) lit) = [RLeaf (VarRef x); RLeaf lit; RTok op]) by (by destruct lit). rewrite Ec.
    assert (Hone : constants lit = 1) by (by destruct lit). cbn [constants] in Hr. rewrite Hone in Hr.
    apply (conv_cmp st m _ op x lit w k); [done|exact Hr|done..| |]; [by destruct op|]. intros row. by destruct op.
  - assert (Ec : ConvertToRPNExpr (BinaryExpr op lit (VarRef x)) = [RLeaf (VarRef x); RLeaf lit; RTok (switchMap op)]) by (by destruct lit). rewrite Ec.
    assert (Hone : constants lit = 1) by (by destruct lit). cbn [constants] in Hr. rewrite Hone in Hr.
    apply (conv_cmp st m _ (switchMap op) x lit w k); [done|exact Hr|done|by destruct op|done..| |]; [by destruct op|]. intros row. by destruct op, lit.
  - rewrite not_varref by done. pose proof (constants_nonneg r). cbn [constants] in Hr.
    destruct (IHl st (m + constants r)) as (st1 & esl & cl & H1); [done|by replace (m + constants r + constants l) with (m + (constants l + constants r)) by lia|lia|].
    destruct (IHr st1 m) as (st2 & esr & cr & H2); [apply H1|apply H1|done|]. exists st2, (esl ++ esr ++ [OpAND]), (CAnd cl cr).
    eapply conv_bin; [done|intros; by constructor|done| | |exact H1|exact H2].
    + intros [? ?]. split; [by apply H1|by apply H2].
    + intros row X HX He. cbn in He |- *. apply andb_true_iff in He as [He1 He2]. apply andb_true_iff. split; [by apply (cn_eval _ _ _ _ _ _ _ H1 row)|by apply (cn_eval _ _ _ _ _ _ _ H2 row)].
  - rewrite not_varref by done. pose proof (constants_nonneg r). cbn [constants] in Hr.
    destruct (IHl st (m + constants r)) as (st1 & esl & cl & H1); [done|by replace (m + constants r + constants l) with (m + (constants l + constants r)) by lia|lia|].
    destruct (IHr st1 m) as (st2 & esr & cr & H2); [apply H1|apply H1|done|]. exists st2, (esl ++ esr ++ [OpOR]), (COr cl cr).
    eapply conv_bin; [done|intros; by constructor|done|done| |exact H1|exact H2].
    intros row X HX He. cbn in He |- *. apply orb_true_iff in He as [He|He]; apply orb_true_iff; [left; by apply (cn_eval _ _ _ _ _ _ _ H1 row)|right; by apply (cn_eval _ _ _ _ _ _ _ H2 row)].
  - destruct (IHe st m Hs Hr Hm) as (st' & es & c & H). exists st', es, c. by destruct H.
Qed.
End Convert.
