(* ===== verification/SparseProps.v ===== *)
(** * The sparse index does not lose rows

    Built from a file sorted by its primary key, the index returns the fragment of every row
    that satisfies the condition, for the conditions, types and keys for which this holds; the
    runs at the end show the ones for which it does not. *)

From stdpp Require Import gmap.
From S2P Require Import Prelude ColVal SparseIndex SparseOrder SparseAny SparseScan SparseConv Fragments.

(** ** Tuples *)

Lemma tuple_le_refl xs : tuple_le xs xs.
Proof. induction xs as [|x xs IH]; [done|]. cbn. by right. Qed.

Lemma tuple_le_trans xs ys zs : length xs = length ys → length ys = length zs → tuple_le xs ys → tuple_le ys zs → tuple_le xs zs.
Proof.
  revert ys zs. induction xs as [|x xs IH]; intros [|y ys] [|z zs] Hl1 Hl2; cbn; try done. cbn in Hl1, Hl2.
  intros [H1|[-> H1]] [H2|[-> H2]]; [left; by eapply lex_cmp_trans|by left|by left|right; split; [done|]]. apply (IH ys); [lia|lia|done|done].
Qed.

Lemma tuple_le_take n xs ys : tuple_le xs ys → tuple_le (take n xs) (take n ys).
Proof.
  revert n ys. induction xs as [|x xs IH]; intros [|n] [|y ys]; cbn; try done. intros [?|[-> ?]]; [by left|right; auto].
Qed.

(** ** The keys of a row of the index *)

Fixpoint index_keys (cols : list ColumnRef) (row : nat) : option (list (list Z)) :=
  match cols with
  | [] => Some []
  | c :: cols =>
      match column c !! row with
      | Some (Some v) => match key_of (dataType c) v, index_keys cols row with Some k, Some ks => Some (k :: ks) | _, _ => None end
      | _ => None
      end
  end.

Lemma index_keys_length cols row K : index_keys cols row = Some K → length K = length cols.
Proof.
  revert K. induction cols as [|c cols IH]; intros K; cbn; [by intros [= <-]|]. destruct (column c !! row) as [[v|]|]; try done.
  destruct (key_of _ v); [|done]. destruct (index_keys cols row); [|done]. intros [= <-]. cbn. by rewrite (IH _ eq_refl).
Qed.

Lemma index_keys_lookup cols row K i c :
  index_keys cols row = Some K → cols !! i = Some c → ∃ v k, column c !! row = Some (Some v) ∧ key_of (dataType c) v = Some k ∧ K !! i = Some k.
Proof.
  revert K i. induction cols as [|d cols IH]; intros K i; cbn [index_keys]; [done|]. destruct (column d !! row) as [[v|]|] eqn:Ed; try done.
  destruct (key_of _ v) as [k|] eqn:Ek; [|done]. destruct (index_keys cols row) as [ks|]; [|done]. intros [= <-]. destruct i as [|i]; cbn.
  - intros [= <-]. eauto.
  - intros Hi. by apply (IH ks).
Qed.

Section Scan.
Context (idx kc : list ColumnRef) (n : nat) (K : nat → list (list Z)).
Notation st := (mk_store idx kc).
Notation ts := (dataType <$> idx).

Hypothesis HK : ∀ r, (r ≤ n)%nat → index_keys idx r = Some (K r).
Hypothesis Hsorted : ∀ r, (r < n)%nat → tuple_le (K r) (K (S r)).
Hypothesis Hn : 0 < Z.of_nat n < 2 ^ 31.
Hypothesis Hmiddle : ∀ i, (0 < i)%nat → (S i < length idx)%nat → ts !! i ≠ Some Field_Type_Int.

Lemma K_length r : (r ≤ n)%nat → length (K r) = length idx.
Proof. intros Hr. by apply (index_keys_length _ r), HK. Qed.

Lemma K_le r s : (r ≤ s ≤ n)%nat → tuple_le (K r) (K s).
Proof.
  intros Hrs. induction s as [|s IH]; [replace r with 0%nat by lia; apply tuple_le_refl|]. destruct (decide (r = S s)) as [->|]; [apply tuple_le_refl|].
  apply (tuple_le_trans _ (K s)); [by rewrite !K_length by lia|by rewrite !K_length by lia|apply IH; lia|apply Hsorted; lia].
Qed.

Lemma known_types i t : ts !! i = Some t → t ≠ Field_Type_Unknown.
Proof.
  rewrite list_lookup_fmap. destruct (idx !! i) as [c|] eqn:E; [|done]. intros [= <-] Hu.
  destruct (index_keys_lookup _ _ _ _ _ (HK 0 ltac:(lia)) E) as (v & k & _ & Hk & _). rewrite Hu in Hk. by destruct v.
Qed.

Lemma create_ref r i c : (r ≤ n)%nat → idx !! i = Some c →
  createFieldRef st (Z.of_nat r) i = Ok (mk_ref IndexCols i (Z.of_nat r)) ∧ ∃ k, K r !! i = Some k ∧ denotes st (dataType c) (mk_ref IndexCols i (Z.of_nat r)) (BKey k).
Proof.
  intros Hr Hi. destruct (index_keys_lookup _ _ _ _ _ (HK r Hr) Hi) as (v & k & Hv & Hk & HKi).
  assert (Hcell : cell_of c (Z.of_nat r) = Ok (Some v)).
  { unfold cell_of. rewrite (proj2 (Z.ltb_ge _ _)) by lia. by rewrite Nat2Z.id, Hv. }
  assert (Hcol : col_of st (mk_ref IndexCols i (Z.of_nat r)) = Ok c) by (unfold col_of; cbn; by rewrite Hi). split.
  - unfold createFieldRef, IsNull. rewrite Hcol. cbn [res_bind f_row]. by rewrite Hcell.
  - exists k. split; [done|]. eapply den_key; [|exact Hcol|done|exact Hcell|done]. unfold is_inf, IsPositiveInfinity, IsNegativeInfinity, MaxInt64, MinInt64. cbn [f_row].
    apply orb_false_iff. rewrite !Z.eqb_neq. lia.
Qed.

Lemma create_refs_ok r u s :
  (r ≤ n)%nat → (s + u ≤ length idx)%nat → create_refs st (Z.of_nat r) (seq s u) = Ok ((λ i, mk_ref IndexCols i (Z.of_nat r)) <$> seq s u).
Proof.
  intros Hr. revert s. induction u as [|u IH]; intros s Hu; [done|]. cbn [seq create_refs fmap list_fmap].
  destruct (lookup_lt_is_Some_2 idx s) as [c Hc]; [lia|]. destruct (create_ref r s c Hr Hc) as [-> _]. cbn [res_bind]. by rewrite IH by lia.
Qed.

Lemma refs_den r u : (r ≤ n)%nat → (u ≤ length idx)%nat → keys_den st ts u ((λ i, mk_ref IndexCols i (Z.of_nat r)) <$> seq 0 u) (take u (K r)).
Proof.
  intros Hr Hu. split; [by rewrite length_fmap, length_seq|]. split; [rewrite length_take, K_length by done; lia|]. intros i f k t Hf Hk Ht.
  rewrite list_lookup_fmap in Hf. destruct (seq 0 u !! i) as [j|] eqn:Ej; [|done]. apply lookup_seq in Ej as [-> Hi]. injection Hf as <-.
  apply lookup_take_Some in Hk as [Hk _]. rewrite list_lookup_fmap in Ht. destruct (idx !! i) as [c|] eqn:Ec; [|done]. injection Ht as <-.
  destruct (create_ref r i c Hr Ec) as (_ & k' & Hk' & Hden). assert (k' = k) as -> by congruence. done.
Qed.

(** ** One check *)

Context (rpn : list RPNElement) (c : cond).
Hypothesis Hflat : flat st ts rpn c.
Hypothesis Hcols : Forall (λ k, k < length idx)%nat (columns c).

Definition used : nat := Z.to_nat (GetMaxKeyIndex rpn + 1).

Lemma flat_max es d m : flat st ts es d →
  foldl (λ m e, match e with InRange _ k | NotInRange _ k | InSet k | NotInSet k => Z.max m (Z.of_nat k) | _ => m end) m es =
  foldl Z.max m (Z.of_nat <$> columns d).
Proof.
  intros Hf. revert m. induction Hf as [| | |es d fs e _ IHd _ IHe|es d fs e _ IHd _ IHe]; intros m; cbn [foldl columns fmap list_fmap]; try done;
    rewrite !foldl_app, fmap_app, foldl_app, IHd, IHe; done.
Qed.

Lemma foldl_max l m : let r := foldl Z.max m l in m ≤ r ∧ Forall (λ k, k ≤ r) l ∧ (r = m ∨ r ∈ l).
Proof.
  revert m. induction l as [|x l IH]; intros m; cbn [foldl]; [split; [lia|]; split; [constructor|by left]|].
  destruct (IH (Z.max m x)) as (H1 & H2 & H3). split; [lia|]. split; [constructor; [lia|done]|].
  destruct H3 as [H3|H3]; [|right; by right]. destruct (Z.max_spec m x) as [[_ E]|[_ E]]; rewrite E in *; [right; rewrite H3; left|by left].
Qed.

Lemma used_spec : Forall (λ k, k < used)%nat (columns c) ∧ (used ≤ length idx)%nat ∧ (0 < used → (used - 1)%nat ∈ columns c)%nat ∧ GetMaxKeyIndex rpn = Z.of_nat used - 1.
Proof.
  unfold used, GetMaxKeyIndex. rewrite (flat_max _ _ _ Hflat). destruct (foldl_max (Z.of_nat <$> columns c) (-1)) as (H1 & H2 & H3).
  set (mx := foldl Z.max (-1) (Z.of_nat <$> columns c)) in *. apply (Forall_fmap Z.of_nat) in H2. split; [|split; [|split; [|lia]]].
  - eapply Forall_impl; [exact H2|]. cbn. lia.
  - destruct H3 as [->|H3]; [cbn; lia|]. apply list_elem_of_fmap in H3 as (k & -> & Hk). rewrite Forall_forall in Hcols. specialize (Hcols k Hk). cbn in Hcols. lia.
  - intros Hu. destruct H3 as [H3|H3]; [lia|]. apply list_elem_of_fmap in H3 as (k & E & Hk). by replace (Z.to_nat (mx + 1) - 1)%nat with k by lia.
Qed.

(** The condition is a conjunction, or there is one key column. *)
Hypothesis Hconj : conj_cond c ∨ (length idx ≤ 1)%nat.

Lemma used_conj : (1 < used)%nat → conj_with (used - 1) c.
Proof.
  destruct used_spec as (_ & Hu & Hin & _). intros H1. destruct Hconj as [Hc|?]; [|lia]. apply conj_cond_with; [done|]. apply Hin. lia.
Qed.

Lemma check_fragments_ok s e :
  (s < e ≤ n)%nat → ∃ b, check_fragments rpn used ts st (Z.of_nat s) (Z.of_nat e) = Ok (st, b) ∧
    ∀ X, length X = length idx → tuple_le (K s) X → tuple_le X (K e) → ceval (BKey <$> X) c = true → b = true.
Proof.
  intros Hse. destruct used_spec as (Hcu & Hu & _ & _). unfold check_fragments. rewrite !create_refs_ok by lia. cbn [res_bind]. unfold MayBeInRange.
  set (LK := (λ i, mk_ref IndexCols i (Z.of_nat s)) <$> seq 0 used). set (RK := (λ i, mk_ref IndexCols i (Z.of_nat e)) <$> seq 0 used).
  assert (HL : keys_den st ts used LK (take used (K s))) by (apply refs_den; lia). assert (HR : keys_den st ts used RK (take used (K e))) by (apply refs_den; lia).
  assert (Hts : (used ≤ length ts)%nat) by (by rewrite length_fmap).
  assert (Hkn : ∀ i t, (i < used)%nat → ts !! i = Some t → t ≠ Field_Type_Unknown) by (intros i t _; apply known_types).
  assert (Hpu : ∀ i, (0 < i)%nat → (Datatypes.S i < used)%nat → ts !! i ≠ Some Field_Type_Int) by (intros i H1 H2; apply Hmiddle; lia).
  assert (Hcall : ∀ rgs RS, box_den st ts used rgs RS → CheckInRange rpn st rgs = Ok (cmark RS c)) by (intros; by eapply flat_CheckInRange).
  assert (Hb0 : box_den st ts used (replicate used createWholeRangeWithoutBound) (replicate used whole)).
  { split; [by rewrite length_replicate|]. split; [by rewrite length_replicate|]. intros k t r Ht Hr. apply lookup_replicate in Hr as [-> Hk].
    exists whole. split; [by apply lookup_replicate_2|]. split; cbn; [by apply den_neg|by apply den_pos|done|done]. }
  destruct (whole_ranges_spec st ts used (take used (K s)) (proj1 (proj2 HL)) Hts Hkn 0 used _ _ ltac:(lia) Hb0) as (rgs & RS & -> & Hb & _ & _). cbn [res_bind].
  destruct (any_both st ts used LK RK (take used (K s)) (take used (K e)) (take used (K s)) c (CheckInRange rpn) HL HR) with (fuel := S used) (rgs := rgs) (RS := RS) as (rgs' & m & Em & _);
    [apply HL|done|done|done|done|apply used_conj|lia|done|]. rewrite Em. cbn [res_bind]. exists (canBeTrue m). split; [done|]. intros X HX H1 H2 He.
  destruct (any_both st ts used LK RK (take used (K s)) (take used (K e)) (take used X) c (CheckInRange rpn) HL HR) with (fuel := S used) (rgs := rgs) (RS := RS) as (rgs'' & m' & Em' & Hm);
    [rewrite length_take; lia|done|done|done|done|apply used_conj|lia|done|]. rewrite Em in Em'. injection Em' as <- <-. apply Hm; [by apply tuple_le_take|by apply tuple_le_take|].
  rewrite fmap_take. rewrite <- He. clear -Hcu. induction c as [k R|k R| |c1 IH1 c2 IH2|c1 IH1 c2 IH2]; cbn [ceval columns] in *; [| |done| |].
  1-2: rewrite Forall_singleton in Hcu; by rewrite lookup_take_lt by done.
  all: apply Forall_app in Hcu as [? ?]; by rewrite IH1, IH2.
Qed.

Lemma flat_nonempty es d : flat st ts es d → HavePrimaryKey es = true.
Proof. intros Hf. destruct Hf; try done; unfold HavePrimaryKey; rewrite !length_app; cbn; rewrite (proj2 (Nat.eqb_neq _ _)) by lia; done. Qed.

Lemma Scan_covers p :
  1 < CoarseIndexFragment p < 2 ^ 32 → 0 < RowsNumPerFragment p →
  ∃ rs, Scan p st rpn (Z.of_nat n) = Ok (st, rs) ∧ ascending 0 (Z.of_nat n) rs ∧
    ∀ f X, (f < n)%nat → length X = length idx → tuple_le (K f) X → tuple_le X (K (S f)) → ceval (BKey <$> X) c = true → Exists (inside (Z.of_nat f)) rs.
Proof.
  intros Hp1 Hp2. unfold Scan. rewrite (flat_nonempty _ _ Hflat). cbn [negb]. fold used. destruct used_spec as (_ & Hu & _ & Hmax). cbn [index_cols].
  rewrite (proj2 (Nat.ltb_ge _ _)) by lia.
  set (chk := λ s e, match check_fragments rpn used ts st s e with Ok (_, b) => b | _ => false end).
  set (matching := λ f : Z, ∃ X, length X = length idx ∧ tuple_le (K (Z.to_nat f)) X ∧ tuple_le X (K (S (Z.to_nat f))) ∧ ceval (BKey <$> X) c = true).
  assert (Hchk : ∀ s e, 0 ≤ s → s < e ≤ Z.of_nat n → check_fragments rpn used ts st s e = Ok (st, chk s e)).
  { intros s e Hs He. destruct (check_fragments_ok (Z.to_nat s) (Z.to_nat e)) as (b & Eb & _); [lia|]. rewrite !Z2Nat.id in Eb by lia. unfold chk. by rewrite Eb. }
  assert (Hsound : ∀ f s e, 0 ≤ s ≤ f → f < e ≤ Z.of_nat n → matching f → chk s e = true).
  { intros f s e Hs He (X & HX & H1 & H2 & Hev). destruct (check_fragments_ok (Z.to_nat s) (Z.to_nat e)) as (b & Eb & Hb); [lia|].
    rewrite !Z2Nat.id in Eb by lia. unfold chk. rewrite Eb. apply (Hb X); [done| | |done].
    - apply (tuple_le_trans _ (K (Z.to_nat f))); [by rewrite !K_length by lia|by rewrite K_length by lia|apply K_le; lia|done].
    - apply (tuple_le_trans _ (K (S (Z.to_nat f)))); [by rewrite K_length by lia|by rewrite !K_length by lia|done|apply K_le; lia]. }
  assert (Hfin : ∀ rs, covers (Z.of_nat n) matching rs → ∀ f X, (f < n)%nat → length X = length idx → tuple_le (K f) X → tuple_le X (K (S f)) → ceval (BKey <$> X) c = true → Exists (inside (Z.of_nat f)) rs).
  { intros rs Hcov f X Hf HX H1 H2 Hev. apply Hcov; [lia|]. exists X. rewrite Nat2Z.id. auto. }
  destruct (CanDoBinarySearch rpn); cbn [negb].
  - destruct (doBinarySearch_spec _ st (Z.of_nat n) chk matching Hn Hchk Hsound) as (rs & Ers & Ha & Hc). exists rs. split; [done|]. split; [done|]. by apply Hfin.
  - destruct (doExclusionSearch_spec _ st (Z.of_nat n) chk matching Hn Hchk Hsound p Hp1 Hp2) as (rs & Ers & Ha & Hc). exists rs. split; [done|]. split; [done|]. by apply Hfin.
Qed.
End Scan.

(** ** From the file to the fragments *)

(** A row of the file the index is built from. *)
Definition src_row (src : list ColumnRef) (i : nat) (x : string) : option val :=
  match list_find (λ c, c_name c = x) src with Some (_, c) => mjoin (column c !! i) | None => None end.

(** Its primary key, when no column of it is null. *)
Fixpoint row_keys (schema : list (string * FieldType)) (row : string → option val) : option (list (list Z)) :=
  match schema with
  | [] => Some []
  | (x, t) :: schema =>
      match row x with
      | Some v => match key_of t v, row_keys schema row with Some k, Some ks => Some (k :: ks) | _, _ => None end
      | None => None
      end
  end.

Lemma row_keys_reflects schema row K : row_keys schema row = Some K → reflects schema row (BKey <$> K).
Proof.
  revert K. induction schema as [|[y u] schema IH]; intros K; cbn [row_keys]; [by intros _ [|i]|]. destruct (row y) as [v|] eqn:Ey; [|done].
  destruct (key_of u v) as [k|] eqn:Ek; [|done]. destruct (row_keys schema row) as [ks|]; [|done]. intros [= <-] [|i] x t; cbn.
  - intros [= -> ->]. eauto.
  - intros Hi. by apply (IH ks).
Qed.
Lemma row_keys_length schema row K : row_keys schema row = Some K → length K = length schema.
Proof.
  revert K. induction schema as [|[y u] schema IH]; intros K; cbn; [by intros [= <-]|]. destruct (row y); [|done].
  destruct (key_of u _); [|done]. destruct (row_keys schema row); [|done]. intros [= <-]. cbn. by rewrite (IH _ eq_refl).
Qed.

Lemma take_rows_ok cells rows : Forall (λ r, 0 ≤ r < Z.of_nat (length cells)) rows →
  ∃ vs, take_rows cells rows = Ok vs ∧ length vs = length rows ∧ ∀ j r, rows !! j = Some r → vs !! j = cells !! Z.to_nat r.
Proof.
  induction 1 as [|r rows Hr _ (vs & E & Hl & Hv)]; [by exists []|]. cbn [take_rows]. rewrite (proj2 (Z.ltb_ge _ _)) by lia.
  destruct (lookup_lt_is_Some_2 cells (Z.to_nat r)) as [v Hc]; [lia|]. rewrite Hc, E. cbn [res_bind]. exists (v :: vs). split; [done|]. split; [cbn; lia|].
  intros [|j] r'; cbn; [by intros [= <-]|apply Hv].
Qed.

Section Build.
Context (src : list ColumnRef) (rows : nat) (bounds : list Z).
Hypothesis Hbounds : Forall (λ r, 0 ≤ r < Z.of_nat rows) (0 :: bounds).

Lemma build_columns_ok schema :
  (∀ i, (i < rows)%nat → is_Some (row_keys schema (src_row src i))) →
  ∃ idx, build_columns src schema bounds = Ok idx ∧ dataType <$> idx = snd <$> schema ∧
    ∀ j r, (0 :: bounds) !! j = Some r → index_keys idx j = row_keys schema (src_row src (Z.to_nat r)).
Proof.
  induction schema as [|[x t] schema IH]; intros Hk; [by exists []|].
  assert (Hrow : ∀ i, (i < rows)%nat → ∃ v k, src_row src i x = Some v ∧ key_of t v = Some k ∧ is_Some (row_keys schema (src_row src i))).
  { intros i Hi. destruct (Hk i Hi) as [K HK]. cbn [row_keys] in HK. destruct (src_row src i x) as [v|]; [|done]. destruct (key_of t v) as [k|] eqn:Ek; [|done].
    destruct (row_keys schema (src_row src i)); [|done]. eauto 6. }
  destruct IH as (idx & E & Ht & Hi); [intros i Hi; by destruct (Hrow i Hi) as (? & ? & _ & _ & ?)|]. cbn [build_columns fst snd].
  assert (H0 : (0 < rows)%nat) by (apply Forall_inv in Hbounds; lia). destruct (Hrow 0%nat H0) as (v0 & k0 & Hv0 & Hk0 & _).
  unfold src_row in Hrow, Hv0. destruct (list_find (λ c, c_name c = x) src) as [[q c]|] eqn:Ec; [|done].
  assert (Hlen : Forall (λ r, 0 ≤ r < Z.of_nat (length (column c))) (0 :: bounds)).
  { eapply Forall_impl; [exact Hbounds|]. cbn. intros r Hr. destruct (Hrow (Z.to_nat r) ltac:(lia)) as (v & k & Hv & _).
    destruct (column c !! Z.to_nat r) as [w|] eqn:Ew; [|done]. apply lookup_lt_Some in Ew. lia. }
  destruct (take_rows_ok _ _ Hlen) as (vs & Ev & _ & Hvs).
  exists (mk_col x t vs :: idx). split; [|split].
  - assert (Eg : generateColumn c bounds (x, t) = Ok (mk_col x t vs)) by (unfold generateColumn; by rewrite Ev). rewrite Eg, E.
    destruct t; try done; by destruct v0.
  - cbn. by rewrite Ht.
  - intros j r Hj. cbn [index_keys column dataType row_keys]. rewrite (Hvs j r Hj), (Hi j r Hj). unfold src_row at 2. rewrite Ec.
    by destruct (column c !! Z.to_nat r) as [[w|]|].
Qed.
End Build.

(** Converting the condition, and the store the index is scanned with. *)
Lemma NewKeyCondition_ok schema typ tc cond e idx :
  (∀ i x t, schema !! i = Some (x, t) → typ x = t) → CombineConditionWithAnd tc cond = Some e → ok_cond typ e → constants e < MaxInt64 →
  ∃ kc rpn c, NewKeyCondition tc cond schema = Ok (kc, rpn) ∧ flat (mk_store idx kc) (snd <$> schema) rpn c ∧
    Forall (λ k, k < length schema)%nat (columns c) ∧ (conjunction e → conj_cond c) ∧
    ∀ row X, reflects schema row X → holds_row typ row e = true → ceval X c = true.
Proof.
  intros Htyp Hcomb Hok Hcst. destruct (conv_cond schema typ Htyp e Hok (mk_store [] (genIndexColumnsBySchema schema)) 0) as (st & es & c & [R _ _ _ F C J V]).
  - unfold of_schema, genIndexColumnsBySchema. cbn. rewrite <- list_fmap_compose. done.
  - unfold room, genIndexColumnsBySchema. cbn [key_cols]. apply Forall_fmap, Forall_true. cbn. lia.
  - lia.
  - exists (key_cols st), es, c. unfold NewKeyCondition. rewrite Hcomb. specialize (R []). rewrite app_nil_r in R. rewrite R. cbn.
    split; [by rewrite app_nil_r|]. split; [|done]. apply F. intros i d Hd. exists d. done.
Qed.

(** From any cut of the file into fragments. *)
Lemma Build_Scan_covers schema typ src rows bounds keys tc cond e p :
  let n := length bounds in
  (∀ i x t, schema !! i = Some (x, t) → typ x = t) →
  (∀ i, (i < rows)%nat → row_keys schema (src_row src i) = Some (keys i)) →
  (∀ i j, (i ≤ j < rows)%nat → tuple_le (keys i) (keys j)) →
  (∀ i t, (0 < i)%nat → (S i < length schema)%nat → (snd <$> schema) !! i = Some t → t ≠ Field_Type_Int) →
  Forall (λ r, 0 ≤ r < Z.of_nat rows) (0 :: bounds) →
  (∀ f lo hi, (0 :: bounds) !! f = Some lo → bounds !! f = Some hi → lo ≤ hi) →
  0 < Z.of_nat n < 2 ^ 31 → 1 < CoarseIndexFragment p < 2 ^ 32 → 0 < RowsNumPerFragment p →
  CombineConditionWithAnd tc cond = Some e → ok_cond typ e → constants e < MaxInt64 → conjunction e ∨ (length schema ≤ 1)%nat →
  ∃ idx kc rpn rs,
    build_columns src schema bounds = Ok idx ∧ NewKeyCondition tc cond schema = Ok (kc, rpn) ∧
    Scan p (mk_store idx kc) rpn (Z.of_nat n) = Ok (mk_store idx kc, rs) ∧ ascending 0 (Z.of_nat n) rs ∧
    ∀ f i lo hi, (0 :: bounds) !! f = Some lo → bounds !! f = Some hi → lo ≤ Z.of_nat i ≤ hi → (i < rows)%nat →
      holds_row typ (src_row src i) e = true → Exists (inside (Z.of_nat f)) rs.
Proof.
  intros n Htyp Hkeys Hsort Hmid Hb Hasc Hn Hp1 Hp2 Hcomb Hok Hcst Hcj.
  destruct (build_columns_ok src rows bounds Hb schema) as (idx & Eb & Hts & Hidx); [intros i Hi; rewrite Hkeys by done; by eexists|].
  destruct (NewKeyCondition_ok schema typ tc cond e idx Htyp Hcomb Hok Hcst) as (kc & rpn & c & Ek & Hflat & Hcols & Hconj & Hev).
  assert (Hlen : length idx = length schema) by (apply (f_equal length) in Hts; by rewrite !length_fmap in Hts).
  assert (Hat : ∀ r, (r ≤ n)%nat → ∃ z, (0 :: bounds) !! r = Some z ∧ 0 ≤ z < Z.of_nat rows).
  { intros r Hr. destruct (lookup_lt_is_Some_2 (0 :: bounds) r) as [z Hz]; [cbn; lia|]. exists z. split; [done|]. rewrite Forall_lookup in Hb. by eapply Hb. }
  set (K := λ r, keys (Z.to_nat ((0 :: bounds) !!! r))).
  assert (HK : ∀ r z, (0 :: bounds) !! r = Some z → K r = keys (Z.to_nat z)) by (intros r z Hz; unfold K; by rewrite (list_lookup_total_correct _ _ _ Hz)).
  destruct (Scan_covers idx kc n K) with (rpn := rpn) (c := c) (p := p) as (rs & Es & Ha & Hcov).
  - intros r Hr. destruct (Hat r Hr) as (z & Hz & Hz2). rewrite (Hidx r z Hz), (HK r z Hz). apply Hkeys. lia.
  - intros r Hr. destruct (Hat r ltac:(lia)) as (z & Hz & Hz2). destruct (Hat (S r) ltac:(lia)) as (z' & Hz' & Hz2'). rewrite (HK _ _ Hz), (HK _ _ Hz').
    apply Hsort. pose proof (Hasc r z z' Hz Hz'). lia.
  - done.
  - intros i H1 H2 H3. rewrite Hts in H3. by apply (Hmid i Field_Type_Int); [|lia|..].
  - by rewrite Hts.
  - by rewrite Hlen.
  - rewrite Hlen. destruct Hcj; auto.
  - done.
  - done.
  - exists idx, kc, rpn, rs. split; [done|]. split; [done|]. split; [done|]. split; [done|]. intros f i lo hi Hlo Hhi Hi Hir Hh.
    assert (Hf : (f < n)%nat) by (by eapply lookup_lt_Some). destruct (Hat f ltac:(lia)) as (z & Hz & Hz2). destruct (Hat (S f) ltac:(lia)) as (z' & Hz' & Hz2').
    assert (z = lo ∧ z' = hi) as [-> ->] by (change (bounds !! f = Some z') in Hz'; split; [rewrite Hz in Hlo|rewrite Hz' in Hhi]; congruence). apply (Hcov f (keys i)); [done| | | |].
    + rewrite Hlen. by eapply row_keys_length, Hkeys.
    + rewrite (HK _ _ Hz). apply Hsort. lia.
    + rewrite (HK _ _ Hz'). apply Hsort. lia.
    + apply (Hev (src_row src i)); [|done]. by apply row_keys_reflects, Hkeys.
Qed.

(** C16: The sparse primary index loses no row, for files and conditions of this kind: rows
    sorted by the primary key, no key null, and no integer column among the keys between the
    first and the last; a condition made of comparisons of columns with constants of their
    type, under AND if there are several key columns, under AND, OR and with <> if there is
    one; below 2^31 fragments and a coarse index of at least two. The file is cut into
    fragments of [per] rows and its index is built; scanning the index for the condition
    succeeds, leaves the index as it was, and returns ascending disjoint ranges of fragments,
    among them the fragment of every row that satisfies the condition. Outside of these limits
    it fails: null keys lose rows ([Scan_null_key]), OR over several keys does
    ([Scan_or_loses]), and with an integer key in the middle a scan writes to the index
    ([Scan_writes_index]). *)
Theorem Build_Scan_complete pkSchema tcLocation typ src rows per fix_ keys tc cond e p :
  let schema := cluster_schema tcLocation pkSchema in
  (∀ i x t, schema !! i = Some (x, t) → typ x = t) →
  (∀ i, (i < rows)%nat → row_keys schema (src_row src i) = Some (keys i)) →
  (∀ i j, (i ≤ j < rows)%nat → tuple_le (keys i) (keys j)) →
  (∀ i t, (0 < i)%nat → (S i < length schema)%nat → (snd <$> schema) !! i = Some t → t ≠ Field_Type_Int) →
  0 < Z.of_nat rows < 2 ^ 63 → 0 < per → pieces (Z.of_nat rows) per < 2 ^ 31 → 1 < CoarseIndexFragment p < 2 ^ 32 → 0 < RowsNumPerFragment p →
  CombineConditionWithAnd tc cond = Some e → ok_cond typ e → constants e < MaxInt64 → conjunction e ∨ (length schema ≤ 1)%nat →
  ∃ bounds idx frag kc rpn rs,
    GenFixRowsPerSegment (Z.of_nat rows) per = Ok bounds ∧ Build src pkSchema bounds tcLocation fix_ = Ok (idx, frag) ∧
    NewKeyCondition tc cond schema = Ok (kc, rpn) ∧
    Scan p (mk_store idx kc) rpn (GetFragmentCount frag) = Ok (mk_store idx kc, rs) ∧ ascending 0 (GetFragmentCount frag) rs ∧
    ∀ i, (i < rows)%nat → holds_row typ (src_row src i) e = true → Exists (inside (Z.of_nat i / per)) rs.
Proof.
  intros schema Htyp Hkeys Hsort Hmid Hrows Hper Hpc Hp1 Hp2 Hcomb Hok Hcst Hcj. pose proof (Gen_ok _ _ Hrows Hper) as Hg.
  set (bounds := _ ++ [Z.of_nat rows - 1]) in Hg. pose proof (bounds_length _ _ Hrows Hper _ Hg) as Hlen. pose proof (bounds_begin _ _ Hrows Hper _ Hg) as Hbeg.
  destruct (pieces_spec _ _ Hrows Hper) as [Hpos _].
  destruct (Build_Scan_covers schema typ src rows bounds keys tc cond e p) as (idx & kc & rpn & rs & Ei & Ek & Es & Ha & Hcov);
    [done|done|done|done|by apply (bounds_in _ _ Hrows Hper)| |lia|done|done|done|done|done|done|].
  { intros f lo hi Hlo Hhi. rewrite (Hbeg _ _ Hlo), (Hbeg (S f) hi Hhi). nia. }
  assert (Hfr : ∃ frag, buildFragment bounds fix_ = Ok frag ∧ GetFragmentCount frag = Z.of_nat (length bounds)).
  { unfold buildFragment. destruct (negb _); [|unfold bounds; rewrite last_snoc; fold bounds]; eexists; (split; [done|]); cbn [GetFragmentCount]; unfold wrap_u;
      rewrite Z.mod_small; rewrite ?length_app, ?length_fmap, ?length_take; cbn [length]; lia. }
  destruct Hfr as (frag & Ef & Hcnt). exists bounds, idx, frag, kc, rpn, rs. split; [done|]. split; [by unfold Build, buildData; fold schema; rewrite Ei; cbn [res_bind]; rewrite Ef|].
  rewrite Hcnt. split; [done|]. split; [done|]. split; [done|]. intros i Hi Hh.
  destruct (row_in_fragment _ _ Hrows Hper _ Hg (Z.of_nat i)) as (lo & hi & Hlo & Hhi & Hin); [lia|].
  pose proof (pieces_in _ _ Hrows Hper (Z.of_nat i) ltac:(lia)). rewrite <- (Z2Nat.id (Z.of_nat i / per)) by lia. by eapply Hcov.
Qed.

(** ** Runs *)

Definition words (name : string) (ws : list Z) : ColumnRef := mk_col name Field_Type_Int ((λ w, Some (VWord (u64 w))) <$> ws).
Definition texts (name : string) (ss : list (list Z)) : ColumnRef := mk_col name Field_Type_String ((λ s, Some (VBytes s)) <$> ss).
Definition scan_run (idx : list ColumnRef) (cond : Expr) (n : Z) : res (store * list FragmentRange) :=
  let! (kc, rpn) := NewKeyCondition None (Some cond) ((λ c, (c_name c, dataType c)) <$> idx) in Scan (mk_prop 2 8 0) (mk_store idx kc) rpn n.
Definition found (r : res (store * list FragmentRange)) : option (list (Z * Z)) :=
  match r with Ok (_, rs) => Some ((λ r, (Start r, End r)) <$> rs) | _ => None end.

(** The example of Scan's comment: eight rows in fragments of two. *)
Definition eight : list ColumnRef := [words "x" [1; 1; 1; 1; 2; 2; 2; 2]; words "y" [1; 2; 3; 4; 1; 2; 3; 4]].
Definition eight_schema : list (string * FieldType) := [("x"%string, Field_Type_Int); ("y"%string, Field_Type_Int)].
Definition x_gt_1_y_lt_3 : Expr := BinaryExpr AND (BinaryExpr GT (VarRef "x") (IntegerLiteral 1)) (BinaryExpr LT (VarRef "y") (IntegerLiteral 3)).
Definition eight_keys (i : nat) : list (list Z) := default [] (row_keys eight_schema (src_row eight i)).

Lemma Build_Scan_complete_witness :
  ∃ bounds idx frag kc rpn rs,
    GenFixRowsPerSegment 8 2 = Ok bounds ∧ Build eight eight_schema bounds (-1) 2 = Ok (idx, frag) ∧
    NewKeyCondition None (Some x_gt_1_y_lt_3) eight_schema = Ok (kc, rpn) ∧
    Scan (mk_prop 2 8 0) (mk_store idx kc) rpn (GetFragmentCount frag) = Ok (mk_store idx kc, rs) ∧ ascending 0 (GetFragmentCount frag) rs ∧
    ∀ i, (i < 8)%nat → holds_row (λ _, Field_Type_Int) (src_row eight i) x_gt_1_y_lt_3 = true → Exists (inside (Z.of_nat i / 2)) rs.
Proof.
  apply (Build_Scan_complete eight_schema (-1) (λ _, Field_Type_Int) eight 8 2 2 eight_keys None (Some x_gt_1_y_lt_3) x_gt_1_y_lt_3 (mk_prop 2 8 0)).
  - intros [|[|i]] x t Hi; [injection Hi; congruence|injection Hi; congruence|discriminate Hi].
  - intros i Hi. do 8 (destruct i as [|i]; [vm_compute; reflexivity|]). lia.
  - assert (Hstep : ∀ i, (S i < 8)%nat → tuple_le (eight_keys i) (eight_keys (S i))).
    { intros i Hi. do 7 (destruct i as [|i]; [vm_compute; first [left; reflexivity|right; split; [reflexivity|]; left; reflexivity]|]). lia. }
    assert (Hl : ∀ i, (i < 8)%nat → length (eight_keys i) = 2%nat) by (intros i Hi; do 8 (destruct i as [|i]; [vm_compute; reflexivity|]); lia).
    intros i j Hij. induction j as [|j IH]; [replace i with 0%nat by lia; apply tuple_le_refl|]. destruct (decide (i = S j)) as [->|]; [apply tuple_le_refl|].
    apply (tuple_le_trans _ (eight_keys j)); [rewrite !Hl by lia; reflexivity|rewrite !Hl by lia; reflexivity|apply IH; lia|apply Hstep; lia].
  - intros i t H1 H2. cbn in H2. lia.
  - cbn. lia.
  - lia.
  - vm_compute. reflexivity.
  - cbn. lia.
  - cbn. lia.
  - reflexivity.
  - apply ok_and; eapply ok_cmp; reflexivity.
  - vm_compute. reflexivity.
  - left. cbn. auto.
Defined.

(** The index of the comment, and the result it documents. *)
Lemma Scan_documented : found (scan_run [words "x" [1; 1; 2; 2; 2]; words "y" [1; 3; 1; 3; 4]] x_gt_1_y_lt_3 4) = Some [(1, 3)].
Proof. vm_compute. reflexivity. Qed.

Definition eq_text (x : string) (s : list Z) : Expr := BinaryExpr EQ (VarRef x) (StringLiteral s).
Definition eq_word (x : string) (w : Z) : Expr := BinaryExpr EQ (VarRef x) (IntegerLiteral w).

(** With OR over two key columns a fragment is lost: the first row of the only fragment has
    x = 'a', which the first alternative asks for. checkRangeRightBound returns the mark it
    was called with, without what the left bound found. *)
Lemma Scan_or_loses :
  let idx := [texts "x" [[97]; [99]]; texts "y" [[97]; [99]]] in
  let cond := BinaryExpr OR (eq_text "x" [97]) (BinaryExpr AND (eq_text "x" [113]) (eq_text "y" [98])) in
  holds_row (λ _, Field_Type_String) (src_row idx 0) cond = true ∧ found (scan_run idx cond 1) = Some [].
Proof. vm_compute. done. Qed.

(** Closing the range of a middle integer column writes into the index: y = [5; 9] becomes
    [6; 8], and the row (1, 5, 7), whose fragment the index covers, is lost. *)
Lemma Scan_writes_index :
  let idx := [words "x" [1; 2]; words "y" [5; 9]; words "z" [1; 3]] in
  let cond := BinaryExpr AND (eq_word "x" 1) (BinaryExpr AND (eq_word "y" 5) (eq_word "z" 7)) in
  match scan_run idx cond 1 with
  | Ok (st, rs) => rs = [] ∧ index_cols st !! 1%nat = Some (words "y" [6; 8])
  | _ => False
  end.
Proof. vm_compute. done. Qed.

(** A null key counts as the largest value although the files are sorted with nulls first:
    from [null; 'c'] the fragment is not returned for x = 'b'. *)
Lemma Scan_null_key :
  let idx := [mk_col "x" Field_Type_String [None; Some (VBytes [99])]] in found (scan_run idx (eq_text "x" [98]) 1) = Some [].
Proof. vm_compute. done. Qed.
