(* ===== verification/Meta.v ===== *)
(** * lib/util/lifted/influx/meta: the cluster metadata

    The metadata of a cluster (databases, retention policies, measurements, shard and
    index groups) is a state machine: every meta node applies the same commands of the
    raft log to its copy of [Data].  An operation returns the new state and the error the
    Go function returns, or panics.

    Pointers into [Data] (a [*RetentionPolicyInfo], say) are modelled by the path to the
    entry: an update in place is an update of the maps.  Left out are fields that no
    modelled operation reads: continuous queries, subscriptions, object-store and
    column-store options and the index relation of measurements. *)

From stdpp Require Import gmap.
From Stdlib Require String Ascii.
From S2P Require Import Prelude GoSort GoSlice.

(** ** What the code takes from outside

    [MaxNanoTime] is a constant of the influxdb module.  [iter] is the order in which [range] visits
    a map, [rand_perm name n] is [rand.Perm(n)] after seeding with the hash of [name].
    [SchemaCleanEn] is a configuration flag. *)
Class MetaEnv := {
  MaxNanoTime : Z;
  meta_sort :: GoSort;
  iter : ∀ {A}, gmap string A → list (string * A);
  rand_perm : string → nat → list nat;
  SchemaCleanEn : bool;
}.

(** ** Times

    A [time.Time] is a number of nanoseconds since 1970; the zero [Time] is the start of
    the year 1, and Truncate counts from there. *)
Definition zero_time : Z := -62135596800 * 10 ^ 9.
Definition IsZero (t : Z) : bool := t =? zero_time.
Definition Truncate (t d : Z) : Z := if d <=? 0 then t else t - (t - zero_time) mod d.

Definition Hour : Z := 3600 * 10 ^ 9.
Definition MinRetentionPolicyDuration : Z := Hour.
Definition MinRetentionPolicyWarmDuration : Z := Hour.

(** ** Data *)

Record ShardInfo := mk_ShardInfo {
  si_ID : Z; si_Owners : list Z; si_Min : string; si_Max : string; si_Tier : Z; si_IndexID : Z;
  si_DownSampleID : Z; si_DownSampleLevel : Z; si_ReadOnly : bool; si_MarkDelete : bool
}.

Record ShardGroupInfo := mk_ShardGroupInfo {
  sg_ID : Z; sg_StartTime : Z; sg_EndTime : Z; sg_DeletedAt : Z; sg_Shards : list ShardInfo;
  sg_TruncatedAt : Z; sg_EngineType : Z; sg_Version : Z
}.

Record IndexInfo := mk_IndexInfo { ii_ID : Z; ii_Owners : list Z; ii_MarkDelete : bool }.

Record IndexGroupInfo := mk_IndexGroupInfo {
  ig_ID : Z; ig_StartTime : Z; ig_EndTime : Z; ig_Indexes : list IndexInfo; ig_DeletedAt : Z; ig_EngineType : Z
}.

Record ShardKeyInfo := mk_ShardKeyInfo { sk_ShardKey : list string; sk_Type : string; sk_ShardGroup : Z }.

Record SchemaVal := mk_SchemaVal { sv_Typ : Z; sv_EndTime : Z }.

Record MeasurementInfo := mk_MeasurementInfo {
  ms_Name : string; ms_originName : string; ms_ShardKeys : list ShardKeyInfo;
  ms_ShardIdexes : option (gmap Z (list nat)); ms_InitNumOfShards : Z; ms_Schema : gmap string SchemaVal;
  ms_MarkDeleted : bool; ms_EngineType : Z; ms_ID : Z
}.

Record MeasurementVer := mk_MeasurementVer { mv_NameWithVersion : string; mv_Version : Z }.

(** [rp_DownSample] is the result of HasDownSamplePolicy. *)
Record RetentionPolicyInfo := mk_RetentionPolicyInfo {
  rp_Name : string; rp_ReplicaN : Z; rp_Duration : Z; rp_ShardGroupDuration : Z; rp_HotDuration : Z;
  rp_WarmDuration : Z; rp_IndexGroupDuration : Z; rp_IndexGroups : list IndexGroupInfo;
  rp_Measurements : gmap string MeasurementInfo; rp_MstVersions : gmap string MeasurementVer;
  rp_ShardGroups : list ShardGroupInfo; rp_DownSample : bool; rp_MarkDeleted : bool
}.

Record DatabaseInfo := mk_DatabaseInfo {
  db_Name : string; db_DefaultRetentionPolicy : string; db_RetentionPolicies : gmap string RetentionPolicyInfo;
  db_MarkDeleted : bool; db_ShardKey : ShardKeyInfo; db_EnableTagArray : bool; db_ReplicaN : Z
}.

(** Only the ends of a stream matter here. *)
Record StreamInfo := mk_StreamInfo {
  st_SrcDatabase : string; st_SrcRP : string; st_SrcName : string; st_DesDatabase : string; st_DesRP : string; st_DesName : string
}.

(** [PtNums] is the length of the partition view of each database; [MigrateEvents] are
    the (database, partition) pairs that have a migration event; [Privileges] are the
    databases each user has privileges on. *)
Record Data := mk_Data {
  ClusterPtNum : nat; NumOfShards : Z;
  Databases : gmap string DatabaseInfo; Streams : gmap string StreamInfo;
  PtNums : gmap string nat; MigrateEvents : gset (string * nat); Privileges : gmap string (gset string);
  MaxShardGroupID : Z; MaxShardID : Z; MaxMstID : Z; MaxIndexGroupID : Z; MaxIndexID : Z
}.

(** The new state and the returned error. *)
Abbreviation outcome := (res (Data * option string)).
Definition done_ (d : Data) : outcome := Ok (d, None).
Definition fail_ (d : Data) (e : string) : outcome := Ok (d, Some e).

(** *** Updates of single fields *)

Definition set_Databases (d : Data) (x : gmap string DatabaseInfo) : Data :=
  mk_Data (ClusterPtNum d) (NumOfShards d) x (Streams d) (PtNums d) (MigrateEvents d) (Privileges d)
    (MaxShardGroupID d) (MaxShardID d) (MaxMstID d) (MaxIndexGroupID d) (MaxIndexID d).
Definition set_shard_ids (d : Data) (sg sh : Z) : Data :=
  mk_Data (ClusterPtNum d) (NumOfShards d) (Databases d) (Streams d) (PtNums d) (MigrateEvents d) (Privileges d)
    sg sh (MaxMstID d) (MaxIndexGroupID d) (MaxIndexID d).
Definition set_index_ids (d : Data) (ig ix : Z) : Data :=
  mk_Data (ClusterPtNum d) (NumOfShards d) (Databases d) (Streams d) (PtNums d) (MigrateEvents d) (Privileges d)
    (MaxShardGroupID d) (MaxShardID d) (MaxMstID d) ig ix.
Definition set_mst_id (d : Data) (m : Z) : Data :=
  mk_Data (ClusterPtNum d) (NumOfShards d) (Databases d) (Streams d) (PtNums d) (MigrateEvents d) (Privileges d)
    (MaxShardGroupID d) (MaxShardID d) m (MaxIndexGroupID d) (MaxIndexID d).

Definition set_groups (rp : RetentionPolicyInfo) (igs : list IndexGroupInfo) (sgs : list ShardGroupInfo) : RetentionPolicyInfo :=
  mk_RetentionPolicyInfo (rp_Name rp) (rp_ReplicaN rp) (rp_Duration rp) (rp_ShardGroupDuration rp) (rp_HotDuration rp)
    (rp_WarmDuration rp) (rp_IndexGroupDuration rp) igs (rp_Measurements rp) (rp_MstVersions rp) sgs
    (rp_DownSample rp) (rp_MarkDeleted rp).
Definition set_measurements (rp : RetentionPolicyInfo) (ms : gmap string MeasurementInfo) (vs : gmap string MeasurementVer) : RetentionPolicyInfo :=
  mk_RetentionPolicyInfo (rp_Name rp) (rp_ReplicaN rp) (rp_Duration rp) (rp_ShardGroupDuration rp) (rp_HotDuration rp)
    (rp_WarmDuration rp) (rp_IndexGroupDuration rp) (rp_IndexGroups rp) ms vs (rp_ShardGroups rp)
    (rp_DownSample rp) (rp_MarkDeleted rp).
Definition set_durations (rp : RetentionPolicyInfo) (name : string) (dur sgd hot warm igd : Z) : RetentionPolicyInfo :=
  mk_RetentionPolicyInfo name (rp_ReplicaN rp) dur sgd hot warm igd (rp_IndexGroups rp) (rp_Measurements rp)
    (rp_MstVersions rp) (rp_ShardGroups rp) (rp_DownSample rp) (rp_MarkDeleted rp).
Definition set_rp_deleted (rp : RetentionPolicyInfo) (b : bool) : RetentionPolicyInfo :=
  mk_RetentionPolicyInfo (rp_Name rp) (rp_ReplicaN rp) (rp_Duration rp) (rp_ShardGroupDuration rp) (rp_HotDuration rp)
    (rp_WarmDuration rp) (rp_IndexGroupDuration rp) (rp_IndexGroups rp) (rp_Measurements rp) (rp_MstVersions rp)
    (rp_ShardGroups rp) (rp_DownSample rp) b.
Definition set_policies (db : DatabaseInfo) (def : string) (rps : gmap string RetentionPolicyInfo) : DatabaseInfo :=
  mk_DatabaseInfo (db_Name db) def rps (db_MarkDeleted db) (db_ShardKey db) (db_EnableTagArray db) (db_ReplicaN db).
Definition set_db_deleted (db : DatabaseInfo) (b : bool) : DatabaseInfo :=
  mk_DatabaseInfo (db_Name db) (db_DefaultRetentionPolicy db) (db_RetentionPolicies db) b (db_ShardKey db)
    (db_EnableTagArray db) (db_ReplicaN db).

Section Meta.
Context {E : MetaEnv}.

(** ** Groups *)

Definition sg_Deleted (g : ShardGroupInfo) : bool := negb (IsZero (sg_DeletedAt g)).
Definition sg_Truncated (g : ShardGroupInfo) : bool := negb (IsZero (sg_TruncatedAt g)).
Definition sg_Contains (g : ShardGroupInfo) (t : Z) : bool := negb (t <? sg_StartTime g) && (t <? sg_EndTime g).
Definition sg_Overlaps (g : ShardGroupInfo) (min max : Z) : bool := negb (max <? sg_StartTime g) && (min <? sg_EndTime g).
Definition sg_canDelete (g : ShardGroupInfo) : bool := forallb si_MarkDelete (sg_Shards g).
Definition sg_end (g : ShardGroupInfo) : Z := if sg_Truncated g then sg_TruncatedAt g else sg_EndTime g.
Definition sg_Less (a b : ShardGroupInfo) : bool :=
  if sg_end a =? sg_end b then sg_StartTime a <? sg_StartTime b else sg_end a <? sg_end b.

Definition ig_Contains (g : IndexGroupInfo) (t : Z) : bool := negb (t <? ig_StartTime g) && (t <? ig_EndTime g).
Definition ig_Overlaps (g : IndexGroupInfo) (min max : Z) : bool := negb (max <? ig_StartTime g) && (min <? ig_EndTime g).
Definition ig_canDelete (g : IndexGroupInfo) : bool := forallb ii_MarkDelete (ig_Indexes g).
Definition ig_Less (a b : IndexGroupInfo) : bool :=
  if ig_EndTime a =? ig_EndTime b then ig_StartTime a <? ig_StartTime b else ig_EndTime a <? ig_EndTime b.

(** The groups are searched from the last one down. *)
Definition rp_ShardGroupByTimestampAndEngineType (rp : RetentionPolicyInfo) (timestamp engineType : Z) : option ShardGroupInfo :=
  list_find (λ g, (sg_EngineType g =? engineType) && sg_Contains g timestamp && negb (sg_Deleted g) &&
                  (negb (sg_Truncated g) || (timestamp <? sg_TruncatedAt g)))
    (reverse (rp_ShardGroups rp)) ≫= λ r, Some (snd r).

(** ** Looking up databases and policies *)

Definition GetDatabase (d : Data) (name : string) : string + DatabaseInfo :=
  match Databases d !! name with
  | None => inl "DatabaseNotFound"
  | Some db => if db_MarkDeleted db then inl "DatabaseIsBeingDelete" else inr db
  end.

(** The empty name stands for the default policy. *)
Definition rp_key (db : DatabaseInfo) (name : string) : string :=
  if decide (name = "") then db_DefaultRetentionPolicy db else name.
Definition db_RetentionPolicy (db : DatabaseInfo) (name : string) : option RetentionPolicyInfo :=
  if decide (rp_key db name = "") then None else db_RetentionPolicies db !! rp_key db name.

Definition GetRetentionPolicy (db : DatabaseInfo) (name : string) : string + RetentionPolicyInfo :=
  match db_RetentionPolicy db name with
  | None => inl "ErrRetentionPolicyNotFound"
  | Some rp => if rp_MarkDeleted rp then inl "ErrRetentionPolicyIsBeingDelete" else inr rp
  end.

(** The policy with the database it is in; its entry is [rp_key db name]. *)
Definition RetentionPolicy (d : Data) (database name : string) : string + (DatabaseInfo * RetentionPolicyInfo) :=
  match GetDatabase d database with
  | inl e => inl e
  | inr db => match GetRetentionPolicy db name with inl e => inl e | inr rp => inr (db, rp) end
  end.

(** A change made through the pointer that RetentionPolicy returned. *)
Definition put_rp (d : Data) (database : string) (db : DatabaseInfo) (name : string) (rp : RetentionPolicyInfo) : Data :=
  set_Databases d (<[database := set_policies db (db_DefaultRetentionPolicy db)
                                   (<[rp_key db name := rp]> (db_RetentionPolicies db))]> (Databases d)).

Definition rp_Measurement (rp : RetentionPolicyInfo) (name : string) : option MeasurementInfo :=
  match rp_MstVersions rp !! name with
  | None => None
  | Some v => rp_Measurements rp !! mv_NameWithVersion v
  end.

(** ** Durations of a retention policy *)

Definition shardGroupDuration (d : Z) : Z :=
  if (180 * 24 * Hour <=? d) || (d =? 0) then 7 * 24 * Hour
  else if 2 * 24 * Hour <=? d then 24 * Hour
  else Hour.

Definition normalisedShardDuration (sgd d : Z) : Z :=
  if sgd =? 0 then shardGroupDuration d
  else if sgd <? MinRetentionPolicyDuration then shardGroupDuration MinRetentionPolicyDuration
  else sgd.

(** The division panics for [sgd = 0]; the result is an int64. *)
Definition normalisedIndexDuration (igd sgd : Z) : res Z :=
  if igd <? sgd then Ok sgd
  else if sgd =? 0 then Panic
  else if Z.rem igd sgd =? 0 then Ok igd
  else Ok (i64 ((Z.quot igd sgd + 1) * sgd)).

Definition checkGeqThanMinDuration (rp : RetentionPolicyInfo) : option string :=
  if negb (rp_Duration rp =? 0) && (rp_Duration rp <? MinRetentionPolicyDuration) then Some "ErrRetentionPolicyDurationTooLow"
  else if negb (rp_HotDuration rp =? 0) && (rp_HotDuration rp <? MinRetentionPolicyDuration) then Some "ErrRetentionPolicyDurationTooLow"
  else if negb (rp_WarmDuration rp =? 0) && (rp_WarmDuration rp <? MinRetentionPolicyWarmDuration) then Some "ErrRetentionPolicyDurationTooLow"
  else None.

Definition checkGeqThanShardGroupDuration (rp : RetentionPolicyInfo) : option string :=
  if negb (rp_Duration rp =? 0) && (rp_Duration rp <? rp_ShardGroupDuration rp) then Some "ErrIncompatibleDurations"
  else if negb (rp_HotDuration rp =? 0) && (rp_HotDuration rp <? rp_ShardGroupDuration rp) then Some "ErrIncompatibleHotDurations"
  else if negb (rp_WarmDuration rp =? 0) && (rp_WarmDuration rp <? rp_ShardGroupDuration rp) then Some "ErrIncompatibleWarmDurations"
  else if negb (rp_WarmDuration rp =? rp_Duration rp) && negb (Z.rem (rp_WarmDuration rp) (rp_ShardGroupDuration rp) =? 0)
  then Some "ErrIncompatibleShardGroupDurations"
  else None.

Definition checkLeqThanDuration (rp : RetentionPolicyInfo) : option string :=
  if negb (rp_Duration rp =? 0) && negb (rp_HotDuration rp =? 0) && (rp_Duration rp <? rp_HotDuration rp) then Some "ErrIncompatibleHotDurations"
  else if negb (rp_Duration rp =? 0) && negb (rp_WarmDuration rp =? 0) && (rp_Duration rp <? rp_WarmDuration rp) then Some "ErrIncompatibleWarmDurations"
  else None.

(** The policy with its normalised durations, and the error. *)
Definition CheckSpecValid (rp : RetentionPolicyInfo) : res (RetentionPolicyInfo * option string) :=
  let sgd := normalisedShardDuration (rp_ShardGroupDuration rp) (rp_Duration rp) in
  let! igd := normalisedIndexDuration (rp_IndexGroupDuration rp) sgd in
  let rp := set_durations rp (rp_Name rp) (rp_Duration rp) sgd (rp_HotDuration rp) (rp_WarmDuration rp) igd in
  if sgd =? 0 then Panic
  else if negb (Z.rem (rp_HotDuration rp) sgd =? 0) || negb (Z.rem (rp_WarmDuration rp) sgd =? 0)
  then Ok (rp, Some "ErrIncompatibleShardGroupDurations")
  else
    match checkGeqThanMinDuration rp with
    | Some e => Ok (rp, Some e)
    | None =>
        match checkGeqThanShardGroupDuration rp with
        | Some e => Ok (rp, Some e)
        | None => Ok (rp, checkLeqThanDuration rp)
        end
    end.

Definition EqualsAnotherRp (rp other : RetentionPolicyInfo) : bool :=
  (rp_ReplicaN rp =? rp_ReplicaN other) && (rp_Duration rp =? rp_Duration other) &&
  (rp_ShardGroupDuration rp =? rp_ShardGroupDuration other) &&
  (rp_IndexGroupDuration rp =? rp_IndexGroupDuration other) && (rp_HotDuration rp =? rp_HotDuration other) &&
  (rp_WarmDuration rp =? rp_WarmDuration other).

(** ** Databases and retention policies *)

Definition checkStoreReady (d : Data) : option string :=
  if (ClusterPtNum d =? 0)%nat then Some "ErrStorageNodeNotReady" else None.

Definition CheckCanCreateDatabase (d : Data) (name : string) : option string :=
  if decide (name = "") then Some "ErrDatabaseNameRequired"
  else
    match checkStoreReady d with
    | Some e => Some e
    | None =>
        match Databases d !! name with
        | None => None
        | Some db => if db_MarkDeleted db then Some "can't create same DB when DB is being deleted"
                     else Some "ErrDatabaseExists"
        end
    end.

(** [rp] is never nil here; the policy comes back with its normalised durations. *)
Definition CheckCanCreateRetentionPolicy (db : DatabaseInfo) (rp : RetentionPolicyInfo) (makeDefault : bool)
    : res (RetentionPolicyInfo * option string) :=
  if decide (rp_Name rp = "") then Ok (rp, Some "ErrRetentionPolicyNameRequired")
  else
    let! (rp, err) := CheckSpecValid rp in
    match err with
    | Some e => Ok (rp, Some e)
    | None =>
        match db_RetentionPolicy db (rp_Name rp) with
        | None =>
            if negb (db_ReplicaN db =? 0) && negb (rp_ReplicaN rp =? db_ReplicaN db)
            then Ok (rp, Some "ErrReplicaNConflict") else Ok (rp, None)
        | Some old =>
            if negb (EqualsAnotherRp old rp) then Ok (rp, Some "ErrRetentionPolicyConflict")
            else if makeDefault && bool_decide (db_DefaultRetentionPolicy db ≠ rp_Name rp)
            then Ok (rp, Some "ErrRetentionPolicyConflict")
            else Ok (rp, Some "ErrRetentionPolicyExists")
        end
    end.

Definition SetRetentionPolicy (db : DatabaseInfo) (rp : RetentionPolicyInfo) (makeDefault : bool) : DatabaseInfo :=
  set_policies db (if makeDefault then rp_Name rp else db_DefaultRetentionPolicy db)
    (<[rp_Name rp := rp]> (db_RetentionPolicies db)).

Definition no_shard_key : ShardKeyInfo := mk_ShardKeyInfo [] "" 0.

Definition CreateDatabase (d : Data) (dbName : string) (rpi : option RetentionPolicyInfo)
    (shardKey : option ShardKeyInfo) (enableTagArray : bool) (replicaN : Z) : outcome :=
  match CheckCanCreateDatabase d dbName with
  | Some e => if decide (e = "ErrDatabaseExists") then done_ d else fail_ d e
  | None =>
      let db := mk_DatabaseInfo dbName "" ∅ false no_shard_key false 0 in
      let! (db, err) :=
        match rpi with
        | None => Ok (db, None)
        | Some rp =>
            let! (rp, err) := CheckCanCreateRetentionPolicy db rp true in
            match err with
            | Some e => Ok (db, Some e)
            | None => Ok (SetRetentionPolicy db rp true, None)
            end
        end in
      match err with
      | Some e => fail_ d e
      | None =>
          let db := mk_DatabaseInfo dbName (db_DefaultRetentionPolicy db) (db_RetentionPolicies db) false
                      (default no_shard_key shardKey) enableTagArray replicaN in
          done_ (set_Databases d (<[dbName := db]> (Databases d)))
      end
  end.

Definition CheckStreamExistInDatabase (d : Data) (database : string) : bool :=
  existsb (λ s : string * StreamInfo, bool_decide (st_SrcDatabase (snd s) = database) || bool_decide (st_DesDatabase (snd s) = database))
    (map_to_list (Streams d)).
Definition CheckStreamExistInRetention (d : Data) (database rp : string) : bool :=
  existsb (λ s : string * StreamInfo,
      (bool_decide (st_SrcDatabase (snd s) = database) && bool_decide (st_SrcRP (snd s) = rp)) ||
      (bool_decide (st_DesDatabase (snd s) = database) && bool_decide (st_DesRP (snd s) = rp)))
    (map_to_list (Streams d)).
Definition CheckStreamExistInMst (d : Data) (database rp mst : string) : bool :=
  existsb (λ s : string * StreamInfo,
      (bool_decide (st_SrcDatabase (snd s) = database) && bool_decide (st_SrcName (snd s) = mst) && bool_decide (st_SrcRP (snd s) = rp)) ||
      (bool_decide (st_DesDatabase (snd s) = database) && bool_decide (st_DesName (snd s) = mst) && bool_decide (st_DesRP (snd s) = rp)))
    (map_to_list (Streams d)).
Definition checkMigrateConflict (d : Data) (database : string) : bool :=
  existsb (λ i, bool_decide ((database, i) ∈ MigrateEvents d)) (seq 0 (default 0%nat (PtNums d !! database))).

Definition MarkDatabaseDelete (d : Data) (name : string) : outcome :=
  match Databases d !! name with
  | None => fail_ d "DatabaseNotFound"
  | Some db =>
      if CheckStreamExistInDatabase d name then fail_ d "stream task exists, drop it first"
      else if db_MarkDeleted db then fail_ d "DatabaseIsBeingDelete"
      else if checkMigrateConflict d name then fail_ d "ConflictWithEvent"
      else done_ (set_Databases d (<[name := set_db_deleted db true]> (Databases d)))
  end.

(** The replica groups of the database go too; they are not part of the model. *)
Definition DropDatabase (d : Data) (name : string) : Data :=
  mk_Data (ClusterPtNum d) (NumOfShards d) (delete name (Databases d)) (Streams d) (delete name (PtNums d))
    (MigrateEvents d) ((λ s : gset string, s ∖ {[name]}) <$> Privileges d)
    (MaxShardGroupID d) (MaxShardID d) (MaxMstID d) (MaxIndexGroupID d) (MaxIndexID d).

Definition CreateRetentionPolicy (d : Data) (dbName : string) (rp : RetentionPolicyInfo) (makeDefault : bool) : outcome :=
  match GetDatabase d dbName with
  | inl e => fail_ d e
  | inr db =>
      let! (rp, err) := CheckCanCreateRetentionPolicy db rp makeDefault in
      match err with
      | Some e => if decide (e = "ErrRetentionPolicyExists") then done_ d else fail_ d e
      | None => done_ (set_Databases d (<[dbName := SetRetentionPolicy db rp makeDefault]> (Databases d)))
      end
  end.

Definition DropRetentionPolicy (d : Data) (database name : string) : outcome :=
  match GetDatabase d database with
  | inl e => fail_ d e
  | inr db =>
      done_ (set_Databases d (<[database := set_policies db (db_DefaultRetentionPolicy db)
                                              (delete name (db_RetentionPolicies db))]> (Databases d)))
  end.

Definition MarkRetentionPolicyDelete (d : Data) (database name : string) : outcome :=
  match RetentionPolicy d database name with
  | inl e => fail_ d e
  | inr (db, rp) =>
      if CheckStreamExistInRetention d database name then fail_ d "stream task exists, drop it first"
      else if checkMigrateConflict d database then fail_ d "ConflictWithEvent"
      else done_ (put_rp d database db name (set_rp_deleted rp true))
  end.

Definition SetDefaultRetentionPolicy (d : Data) (database name : string) : outcome :=
  match RetentionPolicy d database name with
  | inl e => fail_ d e
  | inr (db, _) => done_ (set_Databases d (<[database := set_policies db name (db_RetentionPolicies db)]> (Databases d)))
  end.

Record RetentionPolicyUpdate := mk_RetentionPolicyUpdate {
  ru_Name : option string; ru_Duration : option Z; ru_ShardGroupDuration : option Z;
  ru_HotDuration : option Z; ru_WarmDuration : option Z; ru_IndexGroupDuration : option Z
}.

(** An updated name changes the policy but not the key of its entry. *)
Definition UpdateRetentionPolicy (d : Data) (database name : string) (rpu : RetentionPolicyUpdate) (makeDefault : bool) : outcome :=
  match RetentionPolicy d database name with
  | inl e => fail_ d e
  | inr (db, rp) =>
      let changes := match ru_Duration rpu with Some x => negb (rp_Duration rp =? x) | None => false end in
      if rp_DownSample rp && changes then fail_ d "DownSamplePolicyExists"
      else
        let taken := match ru_Name rpu with
                     | None => false
                     | Some n => if decide (n = name) then false
                                 else bool_decide (is_Some (db_RetentionPolicy db n))
                     end in
        if taken then fail_ d "ErrRetentionPolicyExists"
        else
          let check := mk_RetentionPolicyInfo "" 0 (default (rp_Duration rp) (ru_Duration rpu))
                         (default (rp_ShardGroupDuration rp) (ru_ShardGroupDuration rpu))
                         (default (rp_HotDuration rp) (ru_HotDuration rpu))
                         (default (rp_WarmDuration rp) (ru_WarmDuration rpu))
                         (default (rp_IndexGroupDuration rp) (ru_IndexGroupDuration rpu)) [] ∅ ∅ [] false false in
          let! (check, err) := CheckSpecValid check in
          match err with
          | Some e => fail_ d e
          | None =>
              let rp := set_durations rp (default (rp_Name rp) (ru_Name rpu)) (rp_Duration check)
                          (rp_ShardGroupDuration check) (rp_HotDuration check) (rp_WarmDuration check)
                          (rp_IndexGroupDuration check) in
              let d := put_rp d database db name rp in
              match Databases d !! database with
              | Some db => done_ (set_Databases d (<[database := set_policies db
                  (if makeDefault then rp_Name rp else db_DefaultRetentionPolicy db) (db_RetentionPolicies db)]> (Databases d)))
              | None => done_ d
              end
          end
  end.

(** ** Measurements *)

Definition hex_digit (v : nat) : Ascii.ascii := Ascii.ascii_of_nat (if (v <? 10)%nat then 48 + v else 87 + v).

(** [name], an underscore and the version as four hexadecimal digits. *)
Definition GetNameWithVersion (name : string) (version : Z) : string :=
  let digit i := hex_digit (Z.to_nat (Z.land (version ≫ i) 15)) in
  (name ++ String.String (Ascii.ascii_of_nat 95) (String.String (digit 12) (String.String (digit 8)
            (String.String (digit 4) (String.String (digit 0) String.EmptyString)))))%string.

Definition GetOriginMstName (nameWithVer : string) : string :=
  if (String.length nameWithVer <? 5)%nat then nameWithVer
  else String.substring 0 (String.length nameWithVer - 5) nameWithVer.

Definition EqualsToAnother (a b : ShardKeyInfo) : bool :=
  bool_decide (sk_Type a = sk_Type b) && bool_decide (sk_ShardKey a = sk_ShardKey b).

(** The first measurement of another name that the iteration meets decides. *)
Definition validMeasurementShardType (rp : RetentionPolicyInfo) (shardType mstName : string) : bool :=
  match list_find (λ m : string * MeasurementInfo, GetOriginMstName (ms_Name (snd m)) ≠ mstName) (iter (rp_Measurements rp)) with
  | None => true
  | Some (_, (_, m)) =>
      match ms_ShardKeys m with [] => true | k :: _ => bool_decide (sk_Type k = shardType) end
  end.

(** [randomSlice[:numOfShards]], sorted. *)
Definition mapShards (mstName : string) (shards : list ShardInfo) (numOfShards : Z) : res (list nat) :=
  if (numOfShards <? 0) || (Z.of_nat (length shards) <? numOfShards) then Panic
  else Ok (sort_by Nat.ltb (take (Z.to_nat numOfShards) (rand_perm mstName (length shards)))).

Record FieldSchema := mk_FieldSchema { fs_Name : string; fs_Type : Z; fs_EndTime : Z }.

(** The loop of UpdateSchema stops at the first conflict and keeps what it did so far. *)
Fixpoint update_schema (schema : gmap string SchemaVal) (fields : list FieldSchema) : gmap string SchemaVal * option string :=
  match fields with
  | [] => (schema, None)
  | f :: fields =>
      match schema !! fs_Name f with
      | None =>
          update_schema (<[fs_Name f := mk_SchemaVal (wrap_s 8 (fs_Type f)) (if SchemaCleanEn then fs_EndTime f else 0)]> schema) fields
      | Some v =>
          if negb (sv_Typ v =? fs_Type f) then (schema, Some "ErrFieldTypeConflict")
          else if SchemaCleanEn && (sv_EndTime v <? fs_EndTime f)
          then update_schema (<[fs_Name f := mk_SchemaVal (wrap_s 8 (fs_Type f)) (fs_EndTime f)]> schema) fields
          else update_schema schema fields
      end
  end.

Definition set_schema (m : MeasurementInfo) (s : gmap string SchemaVal) : MeasurementInfo :=
  mk_MeasurementInfo (ms_Name m) (ms_originName m) (ms_ShardKeys m) (ms_ShardIdexes m) (ms_InitNumOfShards m) s
    (ms_MarkDeleted m) (ms_EngineType m) (ms_ID m).

Definition UpdateSchema (d : Data) (database retentionPolicy mst : string) (fieldToCreate : list FieldSchema) : outcome :=
  match RetentionPolicy d database retentionPolicy with
  | inl e => fail_ d e
  | inr (db, rp) =>
      match rp_MstVersions rp !! mst with
      | None => fail_ d "ErrMeasurementNotFound"
      | Some v =>
          match rp_Measurements rp !! mv_NameWithVersion v with
          | None => fail_ d "ErrMeasurementNotFound"
          | Some m =>
              if ms_MarkDeleted m then fail_ d "ErrMeasurementNotFound"
              else
                let (schema, err) := update_schema (ms_Schema m) fieldToCreate in
                let rp := set_measurements rp (<[mv_NameWithVersion v := set_schema m schema]> (rp_Measurements rp)) (rp_MstVersions rp) in
                Ok (put_rp d database db retentionPolicy rp, err)
          end
      end
  end.

Fixpoint map_groups (name : string) (n : Z) (groups : list ShardGroupInfo) (idx : gmap Z (list nat)) : res (gmap Z (list nat)) :=
  match groups with
  | [] => Ok idx
  | g :: groups => let! s := mapShards name (sg_Shards g) n in map_groups name n groups (<[sg_ID g := s]> idx)
  end.

Definition createVersionMeasurement (d : Data) (database : string) (db : DatabaseInfo) (rpName : string) (rp : RetentionPolicyInfo)
    (shardKey : option ShardKeyInfo) (numOfShards : Z) (mst : string) (version engineType : Z)
    (schemaInfo : list FieldSchema) : outcome :=
  let ski := default no_shard_key shardKey in
  let ski := mk_ShardKeyInfo (sk_ShardKey ski) (sk_Type ski)
               (if (length (rp_ShardGroups rp) =? 0)%nat then u64 (MaxShardGroupID d + 1) else 0) in
  let nameWithVer := GetNameWithVersion mst version in
  let id := MaxMstID d in
  let d := set_mst_id d (u64 (MaxMstID d + 1)) in
  let keys := match shardKey with Some _ => [ski] | None => [] end in
  let numOfShards := if numOfShards =? -1 then NumOfShards d else numOfShards in
  let! (init, idx) :=
    if negb (numOfShards =? 0) && bool_decide (sk_Type ski = "hash") && (numOfShards <? wrap_s 32 (Z.of_nat (ClusterPtNum d)))
    then let! idx := map_groups nameWithVer numOfShards (rp_ShardGroups rp) ∅ in Ok (numOfShards, Some idx)
    else Ok (0, None) in
  let m := mk_MeasurementInfo nameWithVer mst keys idx init ∅ false engineType id in
  let rp := set_measurements rp (<[nameWithVer := m]> (rp_Measurements rp))
              (<[mst := mk_MeasurementVer nameWithVer version]> (rp_MstVersions rp)) in
  let d := put_rp d database db rpName rp in
  if (0 <? length schemaInfo)%nat then UpdateSchema d database (rp_Name rp) mst schemaInfo else done_ d.

(** [colStore] says whether a column store description came with the command. *)
Definition CreateMeasurement (d : Data) (database rpName mst : string) (shardKey : option ShardKeyInfo)
    (numOfShards engineType : Z) (colStore : bool) (schemaInfo : list FieldSchema) : outcome :=
  match RetentionPolicy d database rpName with
  | inl e => fail_ d e
  | inr (db, rp) =>
      let ski := default no_shard_key shardKey in
      if bool_decide (is_Some shardKey) && negb (validMeasurementShardType rp (sk_Type ski) mst) then fail_ d "ErrShardingTypeNotEqual"
      else if bool_decide (is_Some shardKey) && (1 <? rp_ReplicaN rp) && bool_decide (sk_Type ski = "range") then fail_ d "ConflictWithRep"
      else if colStore && (1 <? rp_ReplicaN rp) then fail_ d "ConflictWithRep"
      else
        let create :=
          let ver := match rp_MstVersions rp !! mst with
                     | Some v => Z.land (u32 (mv_Version v + 1)) 65535
                     | None => 0
                     end in
          createVersionMeasurement d database db rpName rp shardKey numOfShards mst ver engineType schemaInfo in
        match rp_Measurement rp mst with
        | None => create
        | Some m =>
            if ms_MarkDeleted m then create
            else
              match last (ms_ShardKeys m) with
              | Some k => if EqualsToAnother ski k then done_ d else fail_ d "ErrMeasurementExists"
              | None => fail_ d "ErrMeasurementExists"
              end
        end
  end.

(** A measurement that is not being deleted; a pointer to it is its versioned name. *)
Definition Measurement (d : Data) (database retentionPolicy mst : string)
    : string + (DatabaseInfo * RetentionPolicyInfo * MeasurementInfo) :=
  match RetentionPolicy d database retentionPolicy with
  | inl e => inl e
  | inr (db, rp) =>
      match rp_Measurement rp mst with
      | None => inl "ErrMeasurementNotFound"
      | Some m => if ms_MarkDeleted m then inl "ErrMeasurementNotFound" else inr (db, rp, m)
      end
  end.

Definition set_keys (m : MeasurementInfo) (keys : list ShardKeyInfo) (deleted : bool) : MeasurementInfo :=
  mk_MeasurementInfo (ms_Name m) (ms_originName m) keys (ms_ShardIdexes m) (ms_InitNumOfShards m) (ms_Schema m)
    deleted (ms_EngineType m) (ms_ID m).

(** A change made through the pointer that Measurement returned. *)
Definition put_mst (d : Data) (database : string) (db : DatabaseInfo) (policy : string) (rp : RetentionPolicyInfo)
    (mst : string) (m : MeasurementInfo) : Data :=
  match rp_MstVersions rp !! mst with
  | None => d
  | Some v => put_rp d database db policy (set_measurements rp (<[mv_NameWithVersion v := m]> (rp_Measurements rp)) (rp_MstVersions rp))
  end.

Definition MarkMeasurementDelete (d : Data) (database policy measurement : string) : outcome :=
  match Measurement d database policy measurement with
  | inl e => fail_ d e
  | inr (db, rp, m) =>
      if CheckStreamExistInMst d database policy measurement then fail_ d "stream task exists, drop it first"
      else if checkMigrateConflict d database then fail_ d "ConflictWithEvent"
      else done_ (put_mst d database db policy rp measurement (set_keys m (ms_ShardKeys m) true))
  end.

Definition DropMeasurement (d : Data) (database policy nameWithVer : string) : outcome :=
  match RetentionPolicy d database policy with
  | inl e => fail_ d e
  | inr (db, rp) =>
      match rp_Measurements rp !! nameWithVer with
      | Some m => if ms_MarkDeleted m
                  then done_ (put_rp d database db policy
                                (set_measurements rp (delete nameWithVer (rp_Measurements rp)) (rp_MstVersions rp)))
                  else done_ d
      | None => done_ d
      end
  end.

Definition maxShardGroupID (rp : RetentionPolicyInfo) : Z :=
  match rp_ShardGroups rp with
  | [] => 0
  | g :: _ => foldl (λ m g, if m <? sg_ID g then sg_ID g else m) (sg_ID g) (rp_ShardGroups rp)
  end.

Definition AlterShardKey (d : Data) (database rpName mst : string) (shardKey : option ShardKeyInfo) : outcome :=
  match RetentionPolicy d database rpName with
  | inl e => fail_ d e
  | inr (db, rp) =>
      match rp_Measurement rp mst with
      | None => fail_ d "ErrMeasurementNotFound"
      | Some m =>
          if ms_MarkDeleted m then fail_ d "ErrMeasurementNotFound"
          else
            match last (ms_ShardKeys m) with
            | None => Panic
            | Some k =>
                let ski := default no_shard_key shardKey in
                if negb (bool_decide (sk_Type ski = sk_Type k)) then fail_ d "ErrShardingTypeNotEqual"
                else if EqualsToAnother ski k then done_ d
                else if negb (validMeasurementShardType rp (sk_Type ski) mst) then fail_ d "ErrShardingTypeNotEqual"
                else
                  let ski := mk_ShardKeyInfo (sk_ShardKey ski) (sk_Type ski) (u64 (MaxShardGroupID d + 1)) in
                  let keys :=
                    if (length (rp_ShardGroups rp) =? 0)%nat || (maxShardGroupID rp <? sk_ShardGroup k)
                    then <[(length (ms_ShardKeys m) - 1)%nat := ski]> (ms_ShardKeys m)
                    else ms_ShardKeys m ++ [ski] in
                  done_ (put_mst d database db rpName rp mst (set_keys m keys (ms_MarkDeleted m)))
            end
      end
  end.

(** The last key whose shard group is not after [ID]. *)
Fixpoint get_key (ID : Z) (rev_keys : list ShardKeyInfo) : option ShardKeyInfo :=
  match rev_keys with
  | [] => None
  | k :: rev_keys => if sk_ShardGroup k <=? ID then Some k else get_key ID rev_keys
  end.
Definition GetShardKey (m : MeasurementInfo) (ID : Z) : option ShardKeyInfo := get_key ID (reverse (ms_ShardKeys m)).

(** ** Index groups *)

Definition new_indexes (d : Data) (n : nat) : list IndexInfo :=
  (λ i, mk_IndexInfo (u64 (MaxIndexID d + Z.of_nat (S i))) [u32 (Z.of_nat i)] false) <$> seq 0 n.

Definition clip_end (t : Z) : Z := if MaxNanoTime <? t then MaxNanoTime + 1 else t.

(** The state with its counters moved on, the policy and the group that was made. *)
Definition CreateIndexGroup (d : Data) (rp : RetentionPolicyInfo) (timestamp engineType : Z) (ptNum : nat)
    : Data * RetentionPolicyInfo * IndexGroupInfo :=
  let start := Truncate timestamp (rp_IndexGroupDuration rp) in
  let igi := mk_IndexGroupInfo (u64 (MaxIndexGroupID d + 1)) start (clip_end (start + rp_IndexGroupDuration rp))
               (new_indexes d ptNum) zero_time engineType in
  (set_index_ids d (u64 (MaxIndexGroupID d + 1)) (u64 (MaxIndexID d + Z.of_nat ptNum)),
   set_groups rp (sort_by ig_Less (rp_IndexGroups rp ++ [igi])) (rp_ShardGroups rp), igi).

Definition createIndexGroupIfNeeded (d : Data) (rp : RetentionPolicyInfo) (timestamp engineType : Z) (ptNum : nat)
    : Data * RetentionPolicyInfo * IndexGroupInfo :=
  match list_find (λ g, (ig_EngineType g =? engineType) && ig_Contains g timestamp) (rp_IndexGroups rp) with
  | Some (_, g) => if (ptNum <=? length (ig_Indexes g))%nat then (d, rp, g) else CreateIndexGroup d rp timestamp engineType ptNum
  | None => CreateIndexGroup d rp timestamp engineType ptNum
  end.

(** ** Shard groups *)

Definition newShardGroup (d : Data) (rp : RetentionPolicyInfo) (timestamp engineType version : Z) : Data * ShardGroupInfo :=
  let start := Truncate timestamp (rp_ShardGroupDuration rp) in
  (set_shard_ids d (u64 (MaxShardGroupID d + 1)) (MaxShardID d),
   mk_ShardGroupInfo (u64 (MaxShardGroupID d + 1)) start (clip_end (start + rp_ShardGroupDuration rp)) zero_time []
     zero_time engineType version).

Definition index_id (igi : IndexGroupInfo) (ptId : nat) : res Z :=
  match ig_Indexes igi !! ptId with Some ii => Ok (ii_ID ii) | None => Panic end.

(** The partitions that own shard [i] and the index of the last of them. *)
Fixpoint own (igi : IndexGroupInfo) (shardN i : nat) (pts : list nat) (owners : list Z) (indexID : Z) : res (list Z * Z) :=
  match pts with
  | [] => Ok (owners, indexID)
  | pt :: pts =>
      if (pt mod shardN =? i)%nat then
        let! id := index_id igi pt in own igi shardN i pts (owners ++ [u32 (Z.of_nat pt)]) id
      else own igi shardN i pts owners indexID
  end.

Fixpoint create_shards (igi : IndexGroupInfo) (shardN : nat) (lastSgi : option ShardGroupInfo) (tier maxID : Z)
    (i k : nat) : res (list ShardInfo) :=
  match k with
  | O => Ok []
  | S k =>
      let id := u64 (maxID + 1) in
      let! (owners, indexID) := own igi shardN i (seq 0 shardN) [] 0 in
      let! (mn, mx) :=
        match lastSgi with
        | None => Ok (""%string, ""%string)
        | Some l => match sg_Shards l !! i with Some s => Ok (si_Min s, si_Max s) | None => Panic end
        end in
      let! rest := create_shards igi shardN lastSgi tier id (S i) k in
      Ok (mk_ShardInfo id owners mn mx tier indexID 0 0 false false :: rest)
  end.

Definition set_Shards (g : ShardGroupInfo) (shards : list ShardInfo) : ShardGroupInfo :=
  mk_ShardGroupInfo (sg_ID g) (sg_StartTime g) (sg_EndTime g) (sg_DeletedAt g) shards (sg_TruncatedAt g) (sg_EngineType g) (sg_Version g).
Definition set_DeletedAt (g : ShardGroupInfo) (t : Z) : ShardGroupInfo :=
  mk_ShardGroupInfo (sg_ID g) (sg_StartTime g) (sg_EndTime g) t (sg_Shards g) (sg_TruncatedAt g) (sg_EngineType g) (sg_Version g).

Definition createShards (d : Data) (sgi : ShardGroupInfo) (igi : IndexGroupInfo) (rp : RetentionPolicyInfo)
    (msti : MeasurementInfo) (tier : Z) : res (Data * ShardGroupInfo) :=
  let shardN := ClusterPtNum d in
  let is_range := match ms_ShardKeys msti with k :: _ => bool_decide (sk_Type k = "range") | [] => false end in
  let lastSgi := if is_range then last (rp_ShardGroups rp) else None in
  let n := if is_range then match lastSgi with None => 1%nat | Some l => length (sg_Shards l) end else shardN in
  let! shards := create_shards igi shardN lastSgi tier (MaxShardID d) 0 n in
  Ok (set_shard_ids d (MaxShardGroupID d) (u64 (MaxShardID d + Z.of_nat n)), set_Shards sgi shards).

Definition set_idexes (m : MeasurementInfo) (idx : option (gmap Z (list nat))) : MeasurementInfo :=
  mk_MeasurementInfo (ms_Name m) (ms_originName m) (ms_ShardKeys m) idx (ms_InitNumOfShards m) (ms_Schema m)
    (ms_MarkDeleted m) (ms_EngineType m) (ms_ID m).

(** [traverse f m]: [f] on every entry, in any order. *)
Definition traverse {A} (f : string → A → res A) (m : gmap string A) : res (gmap string A) :=
  foldr (λ kv r, let! r := r in let! x := f (fst kv) (snd kv) in Ok (<[fst kv := x]> r)) (Ok ∅) (map_to_list m).

Definition mapShardsToMst (rp : RetentionPolicyInfo) (sgi : ShardGroupInfo) : res RetentionPolicyInfo :=
  let! ms := traverse (λ name m,
    if ms_InitNumOfShards m =? 0 then Ok m
    else
      match ms_ShardIdexes m with
      | None => Ok m
      | Some idx =>
          let! s := mapShards name (sg_Shards sgi) (ms_InitNumOfShards m) in
          Ok (set_idexes m (Some (<[sg_ID sgi := s]> idx)))
      end) (rp_Measurements rp) in
  Ok (set_measurements rp ms (rp_MstVersions rp)).

Definition CreateShardGroup (d : Data) (database policy : string) (timestamp tier engineType version : Z) : outcome :=
  match checkStoreReady d with
  | Some e => fail_ d e
  | None =>
      match RetentionPolicy d database policy with
      | inl e => fail_ d e
      | inr (db, rp) =>
          match rp_ShardGroupByTimestampAndEngineType rp timestamp engineType with
          | Some _ => done_ d
          | None =>
              match head (iter (rp_Measurements rp)) with
              | None => fail_ d "there is no measurement"
              | Some (_, msti) =>
                  let '(d, rp, igi) := createIndexGroupIfNeeded d rp timestamp engineType (ClusterPtNum d) in
                  let (d, sgi) := newShardGroup d rp timestamp engineType version in
                  let! (d, sgi) := createShards d sgi igi rp msti tier in
                  let! k := match ms_ShardKeys msti with k :: _ => Ok k | [] => Panic end in
                  let! rp := if decide (sk_Type k = "hash") then mapShardsToMst rp sgi else Ok rp in
                  let rp := set_groups rp (rp_IndexGroups rp) (sort_by sg_Less (rp_ShardGroups rp ++ [sgi])) in
                  done_ (put_rp d database db policy rp)
              end
          end
      end
  end.

Definition ShardGroups (d : Data) (database policy : string) : string + list ShardGroupInfo :=
  match RetentionPolicy d database policy with
  | inl e => inl e
  | inr (_, rp) => inr (filter (λ g, sg_Deleted g = false) (rp_ShardGroups rp))
  end.

Definition ShardGroupsByTimeRange (d : Data) (database policy : string) (tmin tmax : Z) : string + list ShardGroupInfo :=
  match RetentionPolicy d database policy with
  | inl e => inl e
  | inr (_, rp) => inr (filter (λ g, sg_Deleted g || negb (sg_Overlaps g tmin tmax) = false) (rp_ShardGroups rp))
  end.

Definition ShardGroupByTimestampAndEngineType (d : Data) (database policy : string) (timestamp engineType : Z)
    : string + option ShardGroupInfo :=
  match RetentionPolicy d database policy with
  | inl e => inl e
  | inr (_, rp) => inr (rp_ShardGroupByTimestampAndEngineType rp timestamp engineType)
  end.

(** *** Expired groups and the times of a shard *)

Definition ExpiredShardGroups (rp : RetentionPolicyInfo) (t : Z) : list ShardGroupInfo :=
  filter (λ g, negb (sg_Deleted g) && (negb (rp_Duration rp =? 0) && (sg_EndTime g + rp_Duration rp <? t)) = true) (rp_ShardGroups rp).
Definition DeletedShardGroups (rp : RetentionPolicyInfo) : list ShardGroupInfo :=
  filter (λ g, sg_Deleted g = true) (rp_ShardGroups rp).

Definition Shard (g : ShardGroupInfo) (id : Z) : option ShardInfo := snd <$> list_find (λ s, si_ID s = id) (sg_Shards g).

Definition Hot : Z := 1.
Definition Warm : Z := 2.
Definition Moving : Z := 4.
Definition TierDuration (rp : RetentionPolicyInfo) (tier : Z) : Z :=
  if tier =? Hot then rp_HotDuration rp else if (tier =? Warm) || (tier =? Moving) then rp_WarmDuration rp else 0.

(** The groups from the last to the first; the id and the times are zero when there is none. *)
Fixpoint find_index_group (indexID : Z) (rev_groups : list IndexGroupInfo) : res (Z * (Z * Z)) :=
  match rev_groups with
  | [] => Ok (0, (zero_time, zero_time))
  | g :: rev_groups =>
      match head (ig_Indexes g), last (ig_Indexes g) with
      | Some a, Some b => if (ii_ID a <=? indexID) && (indexID <=? ii_ID b) then Ok (ig_ID g, (ig_StartTime g, ig_EndTime g))
                          else find_index_group indexID rev_groups
      | _, _ => Panic
      end
  end.
Definition getIndexGroupTimeRange (rp : RetentionPolicyInfo) (indexID : Z) : res (Z * (Z * Z)) :=
  find_index_group indexID (reverse (rp_IndexGroups rp)).

Record ShardTimeRangeInfo := mk_ShardTimeRangeInfo {
  tr_TimeRange : Z * Z; tr_IndexID : Z; tr_IndexGroupID : Z; tr_IndexTimeRange : Z * Z;
  tr_Duration : Z; tr_Tier : Z; tr_TierDuration : Z; tr_ShardType : string
}.

Definition shardingType (rp : RetentionPolicyInfo) : string :=
  foldl (λ t m, match ms_ShardKeys (snd m) with k :: _ => sk_Type k | [] => t end) ""%string (iter (rp_Measurements rp)).

Fixpoint time_range (rp : RetentionPolicyInfo) (shardID : Z) (rev_groups : list ShardGroupInfo) : res (option ShardTimeRangeInfo) :=
  match rev_groups with
  | [] => Ok None
  | g :: rev_groups =>
      match head (sg_Shards g), last (sg_Shards g) with
      | Some a, Some b =>
          if (shardID <? si_ID a) || (si_ID b <? shardID) then time_range rp shardID rev_groups
          else
            match Shard g shardID with
            | None => time_range rp shardID rev_groups
            | Some s =>
                let! (igID, igTimes) := getIndexGroupTimeRange rp (si_IndexID s) in
                Ok (Some (mk_ShardTimeRangeInfo (sg_StartTime g, sg_EndTime g) (si_IndexID s) igID igTimes
                            (rp_Duration rp) (si_Tier s) (TierDuration rp (si_Tier s)) (shardingType rp)))
            end
      | _, _ => Panic
      end
  end.
Definition TimeRangeInfo (rp : RetentionPolicyInfo) (shardID : Z) : res (option ShardTimeRangeInfo) :=
  time_range rp shardID (reverse (rp_ShardGroups rp)).

(** The first element with a property is changed. *)
Fixpoint update_first {A} (p : A → bool) (f : A → A) (l : list A) : list A :=
  match l with
  | [] => []
  | x :: l => if p x then f x :: l else x :: update_first p f l
  end.

Definition CancelDelete : Z := 1.

(** [now] is the clock of the node that applies the command. *)
Definition DeleteShardGroup (now : Z) (d : Data) (database policy : string) (id deletedAt deleteType : Z) : outcome :=
  match RetentionPolicy d database policy with
  | inl e => fail_ d e
  | inr (db, rp) =>
      let t := if deleteType =? CancelDelete then zero_time
               else if negb (deletedAt =? 0) then deletedAt else now in
      done_ (put_rp d database db policy
               (set_groups rp (rp_IndexGroups rp)
                  (update_first (λ g, sg_ID g =? id) (λ g, set_DeletedAt g t) (rp_ShardGroups rp))))
  end.

Definition DeleteIndexGroup (now : Z) (d : Data) (database policy : string) (id : Z) : outcome :=
  match RetentionPolicy d database policy with
  | inl e => fail_ d e
  | inr (db, rp) =>
      done_ (put_rp d database db policy
               (set_groups rp
                  (update_first (λ g, ig_ID g =? id)
                     (λ g, mk_IndexGroupInfo (ig_ID g) (ig_StartTime g) (ig_EndTime g) (ig_Indexes g) now (ig_EngineType g))
                     (rp_IndexGroups rp)) (rp_ShardGroups rp)))
  end.

(** *** Pruning *)

(** The entry at the position the search finds is marked, when the id lies between the
    first and the last id of the group. *)
Definition mark_id {A} (get : A → Z) (mark : A → A) (id : Z) (l : list A) : res (list A) :=
  match l, last l with
  | x :: _, Some y =>
      if (get x <=? id) && (id <=? get y) then
        let pos := Search (length l) (λ i, match l !! i with Some z => id <=? get z | None => false end) in
        match l !! pos with Some z => Ok (<[pos := mark z]> l) | None => Panic end
      else Ok l
  | _, _ => Panic
  end.

Definition mark_shard (s : ShardInfo) : ShardInfo :=
  mk_ShardInfo (si_ID s) (si_Owners s) (si_Min s) (si_Max s) (si_Tier s) (si_IndexID s) (si_DownSampleID s)
    (si_DownSampleLevel s) (si_ReadOnly s) true.
Definition mark_index (i : IndexInfo) : IndexInfo := mk_IndexInfo (ii_ID i) (ii_Owners i) true.

Fixpoint prune_indexes (id : Z) (groups : list IndexGroupInfo) : res (list IndexGroupInfo) :=
  match groups with
  | [] => Ok []
  | g :: groups =>
      let! ixs := mark_id ii_ID mark_index id (ig_Indexes g) in
      let g := mk_IndexGroupInfo (ig_ID g) (ig_StartTime g) (ig_EndTime g) ixs (ig_DeletedAt g) (ig_EngineType g) in
      let! rest := prune_indexes id groups in
      Ok (if ig_canDelete g then rest else g :: rest)
  end.

(** The groups that stay and the groups that go. *)
Fixpoint prune_shards (id : Z) (groups : list ShardGroupInfo) : res (list ShardGroupInfo * list ShardGroupInfo) :=
  match groups with
  | [] => Ok ([], [])
  | g :: groups =>
      let! shards := mark_id si_ID mark_shard id (sg_Shards g) in
      let g := set_Shards g shards in
      let! (keep, gone) := prune_shards id groups in
      Ok (if sg_Deleted g && sg_canDelete g then (keep, g :: gone) else (g :: keep, gone))
  end.

Definition forget_groups (gone : list ShardGroupInfo) (m : MeasurementInfo) : MeasurementInfo :=
  if ms_InitNumOfShards m =? 0 then m
  else set_idexes m ((λ idx, foldr (λ g, delete (sg_ID g)) idx gone) <$> ms_ShardIdexes m).

Definition TSSTORE : Z := 0.

Definition SchemaClean (sgEndTime : Z) (m : MeasurementInfo) : MeasurementInfo :=
  if negb (ms_EngineType m =? TSSTORE) then m
  else set_schema m (filter (λ kv : string * SchemaVal, wrap_s 32 (sgEndTime ≫ 32) < sv_EndTime (snd kv)) (ms_Schema m)).

Definition prune_rp_shards (id : Z) (rp : RetentionPolicyInfo) : res RetentionPolicyInfo :=
  let! (keep, gone) := prune_shards id (rp_ShardGroups rp) in
  let ms := forget_groups gone <$> rp_Measurements rp in
  let endTime := foldr (λ g, Z.max (i64 (sg_EndTime g))) 0 gone in
  let ms := if SchemaCleanEn && (0 <? length gone)%nat then SchemaClean endTime <$> ms else ms in
  Ok (set_groups (set_measurements rp ms (rp_MstVersions rp)) (rp_IndexGroups rp) keep).

Definition prune_rp_indexes (id : Z) (rp : RetentionPolicyInfo) : res RetentionPolicyInfo :=
  let! igs := prune_indexes id (rp_IndexGroups rp) in Ok (set_groups rp igs (rp_ShardGroups rp)).

Definition PruneGroups (d : Data) (shardGroup : bool) (id : Z) : outcome :=
  let! dbs := traverse (λ _ db,
    let! rps := traverse (λ _ rp, if shardGroup then prune_rp_shards id rp else prune_rp_indexes id rp) (db_RetentionPolicies db) in
    Ok (set_policies db (db_DefaultRetentionPolicy db) rps)) (Databases d) in
  done_ (set_Databases d dbs).

(** *** Splitting the last group of a range-sharded policy *)

Definition createIndexGroup (d : Data) (rp : RetentionPolicyInfo) (startTime : Z) : res (Data * RetentionPolicyInfo) :=
  match last (rp_ShardGroups rp) with
  | None => Panic
  | Some l =>
      let endTime := sg_EndTime l in
      let endTime := match list_find (λ g, ig_Overlaps g startTime endTime = true) (reverse (rp_IndexGroups rp)) with
                     | Some (_, g) => ig_EndTime g | None => endTime end in
      let igi := mk_IndexGroupInfo (u64 (MaxIndexGroupID d + 1)) startTime endTime (new_indexes d (ClusterPtNum d)) zero_time 0 in
      Ok (set_index_ids d (u64 (MaxIndexGroupID d + 1)) (u64 (MaxIndexID d + Z.of_nat (ClusterPtNum d))),
          set_groups rp (sort_by ig_Less (rp_IndexGroups rp ++ [igi])) (rp_ShardGroups rp))
  end.

Fixpoint bound_shards (igi : IndexGroupInfo) (ptNum shardN : nat) (bounds : list string) (tier maxID : Z) (i k : nat) : res (list ShardInfo) :=
  match k with
  | O => Ok []
  | S k =>
      let id := u64 (maxID + 1) in
      let! (owners, indexID) :=
        match list_find (λ pt, (pt mod shardN = i)%nat) (seq 0 ptNum) with
        | Some (_, pt) => let! x := index_id igi pt in Ok ([u32 (Z.of_nat pt)], x)
        | None => Ok ([], 0)
        end in
      let mx := if (i =? shardN - 1)%nat then ""%string else default ""%string (bounds !! i) in
      let mn := if (0 <? i)%nat then default ""%string (bounds !! (i - 1)%nat) else ""%string in
      let! rest := bound_shards igi ptNum shardN bounds tier id (S i) k in
      Ok (mk_ShardInfo id owners mn mx tier indexID 0 0 false false :: rest)
  end.

Definition CreateShardGroupWithBounds (d : Data) (rp : RetentionPolicyInfo) (startTime : Z) (bounds : list string) (engineType : Z)
    : res (Data * RetentionPolicyInfo) :=
  let shardN := S (length bounds) in
  match last (rp_ShardGroups rp), last (rp_IndexGroups rp) with
  | Some lastSg, Some igi =>
      match sg_Shards lastSg with
      | [] => Panic
      | s0 :: _ =>
          let! shards := bound_shards igi (ClusterPtNum d) shardN bounds (si_Tier s0) (MaxShardID d) 0 shardN in
          let sgi := mk_ShardGroupInfo (u64 (MaxShardGroupID d + 1)) startTime (sg_EndTime lastSg) zero_time shards zero_time engineType 0 in
          Ok (set_shard_ids d (u64 (MaxShardGroupID d + 1)) (u64 (MaxShardID d + Z.of_nat shardN)),
              set_groups rp (rp_IndexGroups rp) (sort_by sg_Less (rp_ShardGroups rp ++ [sgi])))
      end
  | _, _ => Panic
  end.

Definition ReSharding (d : Data) (database rpName : string) (shardGroupID splitTime : Z) (bounds : list string) : outcome :=
  match RetentionPolicy d database rpName with
  | inl e => fail_ d e
  | inr (db, rp) =>
      match last (rp_ShardGroups rp) with
      | None => fail_ d "ErrShardGroupNotFound"
      | Some l =>
          if negb (sg_ID l =? shardGroupID) then fail_ d "ErrShardGroupAlreadyReSharding"
          else
            let startTime := i64 (splitTime + 1) in
            let! (d, rp) := createIndexGroup d rp startTime in
            let! (d, rp) := CreateShardGroupWithBounds d rp startTime bounds (sg_EngineType l) in
            done_ (put_rp d database db rpName rp)
      end
  end.

(** *** More partitions: every group gets the shards and indexes of the new ones *)

Definition expand_index_group (ptNum : nat) (d : Data) (g : IndexGroupInfo) : Data * IndexGroupInfo :=
  let k := (ptNum - length (ig_Indexes g))%nat in
  let extra := (λ j, mk_IndexInfo (u64 (MaxIndexID d + Z.of_nat (S j))) [u32 (Z.of_nat (length (ig_Indexes g) + j))] false) <$> seq 0 k in
  (set_index_ids d (MaxIndexGroupID d) (u64 (MaxIndexID d + Z.of_nat k)),
   mk_IndexGroupInfo (ig_ID g) (ig_StartTime g) (ig_EndTime g) (ig_Indexes g ++ extra) (ig_DeletedAt g) (ig_EngineType g)).

Fixpoint expand_index_groups (ptNum : nat) (d : Data) (groups : list IndexGroupInfo) : Data * list IndexGroupInfo :=
  match groups with
  | [] => (d, [])
  | g :: groups =>
      let (d, g) := expand_index_group ptNum d g in
      let (d, gs) := expand_index_groups ptNum d groups in (d, g :: gs)
  end.

Fixpoint expand_shards (ptNum : nat) (d : Data) (rp : RetentionPolicyInfo) (g : ShardGroupInfo) (k : nat)
    : res (Data * RetentionPolicyInfo * ShardGroupInfo) :=
  match k with
  | O => Ok (d, rp, g)
  | S k =>
      let i := length (sg_Shards g) in
      let '(d, rp, igi) := createIndexGroupIfNeeded d rp (sg_StartTime g) (sg_EngineType g) ptNum in
      let id := u64 (MaxShardID d + 1) in
      let! ix := index_id igi i in
      let! prev := match last (sg_Shards g) with Some s => Ok s | None => Panic end in
      let s := mk_ShardInfo id [u32 (Z.of_nat i)] ""%string ""%string (si_Tier prev) ix 0 0 false false in
      expand_shards ptNum (set_shard_ids d (MaxShardGroupID d) id) rp (set_Shards g (sg_Shards g ++ [s])) k
  end.

Fixpoint expand_shard_groups (ptNum : nat) (d : Data) (rp : RetentionPolicyInfo) (groups : list ShardGroupInfo)
    : res (Data * RetentionPolicyInfo * list ShardGroupInfo) :=
  match groups with
  | [] => Ok (d, rp, [])
  | g :: groups =>
      let! (d, rp, g) := expand_shards ptNum d rp g (ptNum - length (sg_Shards g)) in
      let! (d, rp, gs) := expand_shard_groups ptNum d rp groups in Ok (d, rp, g :: gs)
  end.

Definition expand_rp (d : Data) (rp : RetentionPolicyInfo) : res (Data * RetentionPolicyInfo) :=
  if decide (shardingType rp = "range") then Ok (d, rp)
  else
    let ptNum := ClusterPtNum d in
    let (d, igs) := expand_index_groups ptNum d (rp_IndexGroups rp) in
    let rp := set_groups rp igs (rp_ShardGroups rp) in
    let! (d, rp, sgs) := expand_shard_groups ptNum d rp (rp_ShardGroups rp) in
    Ok (d, set_groups rp (rp_IndexGroups rp) sgs).

(** The policies in the order of their names; the state carries the counters along. *)
Fixpoint expand_policies (d : Data) (names : list string) (rps : gmap string RetentionPolicyInfo)
    : res (Data * gmap string RetentionPolicyInfo) :=
  match names with
  | [] => Ok (d, rps)
  | n :: names =>
      match rps !! n with
      | None => expand_policies d names rps
      | Some rp => let! (d, rp) := expand_rp d rp in expand_policies d names (<[n := rp]> rps)
      end
  end.

Definition ordered_keys {A} (m : gmap string A) : list string := sort_by String.ltb (fst <$> map_to_list m).

Fixpoint expand_databases (d : Data) (names : list string) : res Data :=
  match names with
  | [] => Ok d
  | n :: names =>
      match Databases d !! n with
      | None => expand_databases d names
      | Some db =>
          let! (d, rps) := expand_policies d (ordered_keys (db_RetentionPolicies db)) (db_RetentionPolicies db) in
          expand_databases (set_Databases d (<[n := set_policies db (db_DefaultRetentionPolicy db) rps]> (Databases d))) names
      end
  end.

Definition ExpandGroups (d : Data) : res Data := expand_databases d (ordered_keys (Databases d)).

Definition UpdateShardInfoTier (d : Data) (shardID shardTier : Z) (dbName rpName : string) : outcome :=
  match RetentionPolicy d dbName rpName with
  | inl e => fail_ d e
  | inr (db, rp) =>
      let has g := existsb (λ s, si_ID s =? shardID) (sg_Shards g) in
      let set_tier s := mk_ShardInfo (si_ID s) (si_Owners s) (si_Min s) (si_Max s) shardTier (si_IndexID s) (si_DownSampleID s)
                          (si_DownSampleLevel s) (si_ReadOnly s) (si_MarkDelete s) in
      if existsb has (rp_ShardGroups rp) then
        done_ (put_rp d dbName db rpName
                 (set_groups rp (rp_IndexGroups rp)
                    (update_first has (λ g, set_Shards g (update_first (λ s, si_ID s =? shardID) set_tier (sg_Shards g)))
                       (rp_ShardGroups rp))))
      else fail_ d "cannot find shard"
  end.
End Meta.
