(* ===== verification/MetaLaws.v ===== *)
(** * meta: laws of the environment and of the group operations

    What the proofs use of sorting, map iteration and permutations, a concrete
    environment that has these laws, and the functional lemmas about truncated times,
    marking an id and creating shards. *)

From stdpp Require Import gmap sorting.
From Stdlib Require String.
From S2P Require Import Prelude GoSort GoSlice Meta.

Class MetaLaws (E : MetaEnv) : Prop := {
  meta_sort_laws :: GoSortLaws meta_sort;
  iter_perm {A} (m : gmap string A) : iter m ≡ₚ map_to_list m;
  rand_perm_perm name n : rand_perm name n ≡ₚ seq 0 n;
}.

(** The identity is a permutation too; [9223372036854775806] is influxdb's constant. *)
Definition meta_env : MetaEnv := {|
  MaxNanoTime := 2 ^ 63 - 2;
  meta_sort := insertion_go_sort;
  iter := λ A m, map_to_list m;
  rand_perm := λ _ n, seq 0 n;
  SchemaCleanEn := true;
|}.

#[export] Instance meta_env_laws : MetaLaws meta_env.
Proof.
  split; [apply _|done|done].
Qed.

(** *** The orders of the groups *)

#[export] Instance sg_Less_weak : StrictWeak sg_Less.
Proof. split; unfold sg_Less; intros; repeat case_match; lia. Qed.
#[export] Instance ig_Less_weak : StrictWeak ig_Less.
Proof. split; unfold ig_Less; intros; repeat case_match; lia. Qed.

(** *** Truncated times *)

Lemma Truncate_window t d : 0 < d → Truncate t d ≤ t < Truncate t d + d.
Proof. intros Hd. unfold Truncate. destruct (Z.leb_spec d 0); [lia|]. pose proof (Z.mod_pos_bound (t - zero_time) d Hd). lia. Qed.

(** Two times are in the same window or in windows that do not meet. *)
Lemma Truncate_same t u d : 0 < d → Truncate t d ≤ u < Truncate t d + d → Truncate u d = Truncate t d.
Proof.
  intros Hd Hu. unfold Truncate in *. destruct (Z.leb_spec d 0); [lia|].
  pose proof (Z.div_mod (t - zero_time) d). pose proof (Z.div_mod (u - zero_time) d).
  pose proof (Z.mod_pos_bound (t - zero_time) d Hd). pose proof (Z.mod_pos_bound (u - zero_time) d Hd).
  set (qt := (t - zero_time) / d) in *. set (qu := (u - zero_time) / d) in *. assert (qt = qu) by nia. nia.
Qed.

(** A window lies in the window of any multiple of its length. *)
Lemma Truncate_nested t d e : 0 < d → 0 < e → (d | e) → Truncate t e ≤ Truncate t d ∧ Truncate t d + d ≤ Truncate t e + e.
Proof.
  intros Hd He [k ->]. unfold Truncate. destruct (Z.leb_spec d 0); [lia|]. destruct (Z.leb_spec (k * d) 0); [lia|].
  assert (0 < k) by nia. set (x := t - zero_time).
  pose proof (Z.div_mod x d). pose proof (Z.mod_pos_bound x d Hd).
  pose proof (Z.div_mod x (k * d)). pose proof (Z.mod_pos_bound x (k * d) He).
  set (q := x / d) in *. set (Q := x / (k * d)) in *. assert (k * Q ≤ q < k * (Q + 1)) by nia. nia.
Qed.

(** *** Marking *)

(** Ids that count up from [a]. *)
Definition counted {A} (get : A → Z) (a : Z) (l : list A) : Prop := ∀ i x, l !! i = Some x → get x = a + Z.of_nat i.

(** Ids in ascending order, with [id] among them or on one side of all. *)
Definition placed {A} (get : A → Z) (id : Z) (l : list A) : Prop :=
  l ≠ [] ∧ (∀ i j x y, (i < j)%nat → l !! i = Some x → l !! j = Some y → get x < get y) ∧
  (id ∈ get <$> l ∨ (∀ x, x ∈ l → id < get x) ∨ (∀ x, x ∈ l → get x < id)).

Lemma counted_placed {A} (get : A → Z) id a l : counted get a l → l ≠ [] → placed get id l.
Proof.
  intros Hc Hne. split; [done|]. split.
  { intros i j x y Hij Hx Hy. rewrite (Hc _ _ Hx), (Hc _ _ Hy). lia. }
  destruct (decide (id < a)) as [Hlo|Hlo]; [right; left|destruct (decide (a + Z.of_nat (length l) ≤ id)) as [Hhi|Hhi]; [right; right|left]].
  - intros x (i & Hi)%list_elem_of_lookup. rewrite (Hc _ _ Hi). lia.
  - intros x (i & Hi)%list_elem_of_lookup. rewrite (Hc _ _ Hi). apply lookup_lt_Some in Hi. lia.
  - destruct (lookup_lt_is_Some_2 l (Z.to_nat (id - a))) as [x Hx]; [lia|]. apply list_elem_of_fmap. exists x.
    split; [rewrite (Hc _ _ Hx); lia|by eapply list_elem_of_lookup_2].
Qed.

Lemma mark_id_spec {A} (get : A → Z) (mark : A → A) id l :
  placed get id l → mark_id get mark id l = Ok ((λ x, if get x =? id then mark x else x) <$> l).
Proof.
  intros (Hne & Hsort & Hpl). unfold mark_id. destruct l as [|x l0]; [done|]. cbv beta iota.
  assert (Hx : (x :: l0) !! 0%nat = Some x) by done. remember (x :: l0) as l eqn:El. clear El l0.
  destruct (last l) as [y|] eqn:Hy; [|apply last_None in Hy; congruence]. rewrite last_lookup in Hy.
  set (f := λ i : nat, match l !! i with Some z => id <=? get z | None => false end).
  assert (Hle : ∀ i j a b, (i ≤ j)%nat → l !! i = Some a → l !! j = Some b → get a ≤ get b).
  { intros i j a b Hij Ha Hb. destruct (decide (i = j)) as [->|]; [rewrite Ha in Hb; injection Hb as ->; lia|]. apply Z.lt_le_incl, (Hsort i j); [lia|done|done]. }
  destruct Hpl as [(z & -> & (p & Hp)%list_elem_of_lookup)%list_elem_of_fmap|Hout].
  - assert (Hpl : (p < length l)%nat) by (by eapply lookup_lt_Some). pose proof (Hle 0%nat p _ _ ltac:(lia) Hx Hp). pose proof (Hle p (pred (length l)) _ _ ltac:(lia) Hp Hy).
    rewrite (proj2 (Z.leb_le (get x) (get z))), (proj2 (Z.leb_le (get z) (get y))) by done. cbn [andb].
    assert (Hf : ∀ i, (i < length l)%nat → f i = true ↔ (p ≤ i)%nat).
    { intros i Hi. unfold f. destruct (lookup_lt_is_Some_2 l i Hi) as [w Hw]. rewrite Hw, Z.leb_le. split; [|intros; by eapply Hle].
      intros Hzw. destruct (decide (p ≤ i)%nat); [done|]. pose proof (Hsort i p w z ltac:(lia) Hw Hp). lia. }
    destruct (Search_spec f (length l)) as (Hr & Hlo & Hhi); [intros i j Hij; rewrite !Hf by lia; lia|].
    set (pos := Search (length l) f) in *. assert (pos = p) as ->.
    { destruct (decide (pos < p)%nat) as [Hlt|]; [assert (f pos = true) as Ht by (apply Hhi; lia); rewrite Hf in Ht by lia; lia|].
      destruct (decide (p < pos)%nat) as [Hlt|]; [|lia]. specialize (Hlo p Hlt). assert (f p = true) by (by apply Hf). congruence. }
    rewrite Hp. f_equal. apply list_eq. intros i. rewrite list_lookup_fmap. destruct (decide (i = p)) as [->|Hi].
    + rewrite list_lookup_insert_eq by done. rewrite Hp. cbn. by rewrite Z.eqb_refl.
    + rewrite list_lookup_insert_ne by done. destruct (l !! i) as [w|] eqn:Hw; [|done]. cbn. destruct (Z.eqb_spec (get w) (get z)) as [Heq|]; [|done].
      destruct (decide (i < p)%nat); [pose proof (Hsort i p w z ltac:(lia) Hw Hp)|pose proof (Hsort p i z w ltac:(lia) Hp Hw)]; lia.
  - assert (Hno : (get x <=? id) && (id <=? get y) = false).
    { apply andb_false_iff. rewrite !Z.leb_gt. destruct Hout as [H|H]; [left|right]; eapply H, list_elem_of_lookup_2; done. }
    rewrite Hno. f_equal. symmetry. rewrite <- (list_fmap_id l) at 2. apply list_fmap_ext. intros i w Hw. cbn.
    apply list_elem_of_lookup_2 in Hw. destruct (Z.eqb_spec (get w) id); [|done]. destruct Hout as [H|H]; specialize (H w Hw); lia.
Qed.

Lemma counted_map {A} (get : A → Z) (f : A → A) a l : (∀ x, get (f x) = get x) → counted get a l → counted get a (f <$> l).
Proof. intros Hf Hc i y. rewrite list_lookup_fmap. intros (x & Hx & ->)%fmap_Some. rewrite Hf. by apply Hc. Qed.

Lemma counted_NoDup {A} (get : A → Z) a l : counted get a l → NoDup (get <$> l).
Proof.
  intros Hc. apply NoDup_alt. intros i j x. rewrite !list_lookup_fmap.
  intros (y & Hy & ->)%fmap_Some (z & Hz & E)%fmap_Some. rewrite (Hc _ _ Hy), (Hc _ _ Hz) in E. lia.
Qed.

Lemma counted_elem {A} (get : A → Z) a l x : counted get a l → x ∈ get <$> l → a ≤ x < a + Z.of_nat (length l).
Proof.
  intros Hc (y & -> & (i & Hi)%list_elem_of_lookup_1)%list_elem_of_fmap_1. rewrite (Hc _ _ Hi).
  apply lookup_lt_Some in Hi. lia.
Qed.

(** *** New shards and indexes *)

Section New.
Context {E : MetaEnv}.

Lemma u64_succ z n : 0 ≤ z → z + Z.of_nat n < 2 ^ 64 → u64 (z + Z.of_nat n) = z + Z.of_nat n.
Proof. intros. apply (wrap_u_id 64). unfold in_u. lia. Qed.

Lemma create_shards_counted igi shardN last tier maxID i k l :
  0 ≤ maxID → maxID + Z.of_nat k < 2 ^ 64 →
  create_shards igi shardN last tier maxID i k = Ok l → length l = k ∧ counted si_ID (maxID + 1) l.
Proof.
  revert maxID i l. induction k as [|k IH]; intros maxID i l Hm Hk; cbn [create_shards].
  { intros [= <-]. done. }
  pose proof (u64_succ maxID 1 Hm ltac:(lia)) as Eid. change (Z.of_nat 1) with 1 in Eid. rewrite Eid.
  destruct (own _ _ _ _ _ _) as [[owners ix]| | |]; try done. rs.
  destruct (match last with Some _ => _ | None => _ end) as [[mn mx]| | |]; try done. rs.
  destruct (create_shards _ _ _ _ _ _ _) as [rest| | |] eqn:Er; try done. rs. intros [= <-].
  apply IH in Er as [Hl Hc]; [|lia|lia]. split; [cbn; lia|]. intros [|j] s; cbn.
  - intros [= <-]. cbn. lia.
  - intros Hs. rewrite (Hc _ _ Hs). lia.
Qed.

Lemma bound_shards_counted igi ptNum shardN bounds tier maxID i k l :
  0 ≤ maxID → maxID + Z.of_nat k < 2 ^ 64 →
  bound_shards igi ptNum shardN bounds tier maxID i k = Ok l → length l = k ∧ counted si_ID (maxID + 1) l.
Proof.
  revert maxID i l. induction k as [|k IH]; intros maxID i l Hm Hk; cbn [bound_shards].
  { intros [= <-]. done. }
  pose proof (u64_succ maxID 1 Hm ltac:(lia)) as Eid. change (Z.of_nat 1) with 1 in Eid. rewrite Eid.
  destruct (match list_find _ _ with Some _ => _ | None => _ end) as [[owners ix]| | |]; try done. rs.
  destruct (bound_shards _ _ _ _ _ _ _ _) as [rest| | |] eqn:Er; try done. rs. intros [= <-].
  apply IH in Er as [Hl Hc]; [|lia|lia]. split; [cbn; lia|]. intros [|j] s; cbn.
  - intros [= <-]. cbn. lia.
  - intros Hs. rewrite (Hc _ _ Hs). lia.
Qed.

Lemma new_indexes_counted d n :
  0 ≤ MaxIndexID d → MaxIndexID d + Z.of_nat n < 2 ^ 64 →
  length (new_indexes d n) = n ∧ counted ii_ID (MaxIndexID d + 1) (new_indexes d n).
Proof.
  intros Hm Hn. unfold new_indexes. split; [len|]. intros i x. rewrite list_lookup_fmap.
  intros (j & [-> Hj]%lookup_seq & ->)%fmap_Some. cbn [ii_ID]. rewrite u64_succ by lia. lia.
Qed.
End New.
