(* ===== verification/MetaInv.v ===== *)
(** * meta: the invariant of the state, and what a command may do to it

    [Inv] is the invariant; [evolve] is the abstract description of what a command may do to
    the groups of the policies: keep some of them, or add one with fresh ids and sort.  The
    invariant follows from [evolve], which MetaCmd.v and MetaGroups.v show of every command. *)

From stdpp Require Import gmap sorting.
From Stdlib Require String.
From S2P Require Import Prelude GoSort GoSlice Meta MetaLaws.

(** ** Views of the state *)

(** The entry of a policy: the database and the key in its map. *)
Definition rp_at (d : Data) (k : string * string) : option RetentionPolicyInfo :=
  Databases d !! k.1 ≫= λ db, db_RetentionPolicies db !! k.2.

Definition shard_ids (rp : RetentionPolicyInfo) : list Z := rp_ShardGroups rp ≫= λ g, si_ID <$> sg_Shards g.
Definition index_ids (rp : RetentionPolicyInfo) : list Z := rp_IndexGroups rp ≫= λ g, ii_ID <$> ig_Indexes g.
Definition sg_ids (rp : RetentionPolicyInfo) : list Z := rp_ShardGroups rp ≫= λ g, [sg_ID g].
Definition ig_ids (rp : RetentionPolicyInfo) : list Z := rp_IndexGroups rp ≫= λ g, [ig_ID g].

(** Ids that occur once in the whole cluster and were all handed out by the counter. *)
Record unique (ids : RetentionPolicyInfo → list Z) (d : Data) (max : Z) : Prop := {
  un_rp k rp : rp_at d k = Some rp → NoDup (ids rp) ∧ Forall (λ x, 0 < x ≤ max) (ids rp);
  un_one k1 k2 rp1 rp2 x : rp_at d k1 = Some rp1 → rp_at d k2 = Some rp2 → x ∈ ids rp1 → x ∈ ids rp2 → k1 = k2;
}.

(** A policy: its groups are sorted, and the ids within a group count up. *)
Record rp_ok (rp : RetentionPolicyInfo) : Prop := {
  ok_sgs : in_order sg_Less (rp_ShardGroups rp);
  ok_igs : in_order ig_Less (rp_IndexGroups rp);
  ok_shards g : g ∈ rp_ShardGroups rp → sg_Shards g ≠ [] ∧ ∃ a, counted si_ID a (sg_Shards g);
  ok_indexes g : g ∈ rp_IndexGroups rp → ig_Indexes g ≠ [] ∧ ∃ a, counted ii_ID a (ig_Indexes g);
}.

Record Inv (d : Data) : Prop := {
  inv_rp k rp : rp_at d k = Some rp → rp_ok rp;
  inv_sg : unique sg_ids d (MaxShardGroupID d);
  inv_shard : unique shard_ids d (MaxShardID d);
  inv_ig : unique ig_ids d (MaxIndexGroupID d);
  inv_index : unique index_ids d (MaxIndexID d);
  inv_pos : 0 ≤ MaxShardGroupID d ∧ 0 ≤ MaxShardID d ∧ 0 ≤ MaxIndexGroupID d ∧ 0 ≤ MaxIndexID d;
}.

(** ** What a command may do *)

Definition same_sg (g g' : ShardGroupInfo) : Prop :=
  sg_ID g' = sg_ID g ∧ sg_StartTime g' = sg_StartTime g ∧ sg_end g' = sg_end g ∧ (si_ID <$> sg_Shards g') = (si_ID <$> sg_Shards g).
Definition same_ig (g g' : IndexGroupInfo) : Prop :=
  ig_ID g' = ig_ID g ∧ ig_StartTime g' = ig_StartTime g ∧ ig_EndTime g' = ig_EndTime g ∧ (ii_ID <$> ig_Indexes g') = (ii_ID <$> ig_Indexes g).

(** Ids taken from the counters between two states. *)
Definition fresh_sg (d d' : Data) (g : ShardGroupInfo) : Prop :=
  MaxShardGroupID d < sg_ID g ≤ MaxShardGroupID d' ∧ sg_Shards g ≠ [] ∧
  counted si_ID (MaxShardID d + 1) (sg_Shards g) ∧ MaxShardID d + Z.of_nat (length (sg_Shards g)) ≤ MaxShardID d'.
Definition fresh_ig (d d' : Data) (g : IndexGroupInfo) : Prop :=
  MaxIndexGroupID d < ig_ID g ≤ MaxIndexGroupID d' ∧ ig_Indexes g ≠ [] ∧
  counted ii_ID (MaxIndexID d + 1) (ig_Indexes g) ∧ MaxIndexID d + Z.of_nat (length (ig_Indexes g)) ≤ MaxIndexID d'.

(** Some of the groups are left, up to [same], or one is added and all are sorted. *)
Inductive grown {E : MetaEnv} {A} (less : A → A → bool) (same : A → A → Prop) (fresh : A → Prop) (l : list A) : list A → Prop :=
  | grown_keep l1 l' : l1 `sublist_of` l → Forall2 same l1 l' → grown less same fresh l l'
  | grown_add x : fresh x → grown less same fresh l (sort_by less (l ++ [x])).

Definition sgs_of (o : option RetentionPolicyInfo) : list ShardGroupInfo := default [] (rp_ShardGroups <$> o).
Definition igs_of (o : option RetentionPolicyInfo) : list IndexGroupInfo := default [] (rp_IndexGroups <$> o).

Definition no_policy : RetentionPolicyInfo := mk_RetentionPolicyInfo "" 0 0 0 0 0 0 [] ∅ ∅ [] false false.

(** Only the policy at [k0] gets new groups. *)
Record evolve_at {E : MetaEnv} (k0 : string * string) (d d' : Data) : Prop := {
  ev_max : MaxShardGroupID d ≤ MaxShardGroupID d' ∧ MaxShardID d ≤ MaxShardID d' ∧
           MaxIndexGroupID d ≤ MaxIndexGroupID d' ∧ MaxIndexID d ≤ MaxIndexID d';
  ev_sgs k rp' : rp_at d' k = Some rp' →
    grown sg_Less same_sg (λ g, k = k0 ∧ fresh_sg d d' g) (sgs_of (rp_at d k)) (rp_ShardGroups rp');
  ev_igs k rp' : rp_at d' k = Some rp' →
    grown ig_Less same_ig (λ g, k = k0 ∧ fresh_ig d d' g) (igs_of (rp_at d k)) (rp_IndexGroups rp');
}.
Definition evolve {E : MetaEnv} (d d' : Data) : Prop := ∃ k0, evolve_at k0 d d'.

Section Laws.
Context {E : MetaEnv} {L : MetaLaws E}.

(** *** The invariant follows *)

Lemma grown_ids {A} less same (fresh : A → Prop) (f : A → list Z) l l' :
  (∀ x y, same x y → f y = f x) → grown less same fresh l l' →
  ∃ new, (new = [] ∨ ∃ x, fresh x ∧ new = f x) ∧ l' ≫= f ⊆+ (l ≫= f) ++ new.
Proof.
  intros Hf [l1 l2 Hsub Hs|x Hx].
  - exists []. split; [by left|]. rewrite app_nil_r. transitivity (l1 ≫= f); [|by apply bind_submseteq, sublist_submseteq].
    apply Permutation_submseteq. clear Hsub. induction Hs as [|x y l1 l2 Hxy _ IH]; csimpl; [done|]. by rewrite (Hf x y Hxy), IH.
  - exists (f x). split; [by right; exists x|]. rewrite sort_perm, bind_app. csimpl. by rewrite app_nil_r.
Qed.

Lemma NoDup_sub {A} (l k : list A) : l ⊆+ k → NoDup k → NoDup l.
Proof. intros (k' & Hk)%submseteq_Permutation. rewrite Hk. by intros (? & ? & ?)%NoDup_app. Qed.

Lemma unique_step (ids : RetentionPolicyInfo → list Z) d d' m m' k0 :
  0 ≤ m → m ≤ m' → unique ids d m →
  (∀ k rp', rp_at d' k = Some rp' → ∃ new, (k ≠ k0 → new = []) ∧ NoDup new ∧ Forall (λ x, m < x ≤ m') new ∧
     ids rp' ⊆+ default [] (ids <$> rp_at d k) ++ new) →
  unique ids d' m'.
Proof.
  intros Hm Hmm Hu Hstep.
  assert (Hold : ∀ k, NoDup (default [] (ids <$> rp_at d k)) ∧ Forall (λ x, 0 < x ≤ m) (default [] (ids <$> rp_at d k))).
  { intros k. destruct (rp_at d k) as [rp|] eqn:Ek; [by apply (un_rp _ _ _ Hu k)|repeat constructor]. }
  assert (Hin : ∀ k rp' x, rp_at d' k = Some rp' → x ∈ ids rp' →
            (k = k0 ∧ m < x ≤ m') ∨ (0 < x ≤ m ∧ ∃ rp, rp_at d k = Some rp ∧ x ∈ ids rp)).
  { intros k rp' x Hk Hx. destruct (Hstep k rp' Hk) as (new & Hk0 & _ & Hnew & Hsub).
    apply (elem_of_submseteq _ _ _ Hx) in Hsub. apply elem_of_app in Hsub as [Ho|Hn].
    - right. split; [by eapply Forall_forall in Ho; [|apply Hold]|].
      destruct (rp_at d k) as [rp|]; [by exists rp|by apply not_elem_of_nil in Ho].
    - left. rewrite Forall_forall in Hnew. split; [|by apply Hnew].
      destruct (decide (k = k0)) as [|Hne]; [done|]. rewrite Hk0 in Hn by done. by apply not_elem_of_nil in Hn. }
  split.
  - intros k rp' Hk. destruct (Hstep k rp' Hk) as (new & _ & Hnd & Hnew & Hsub). split.
    + eapply NoDup_sub; [exact Hsub|]. apply NoDup_app. split; [apply Hold|]. split; [|done].
      intros x Hx Hx'. rewrite Forall_forall in Hnew. apply Hnew in Hx'.
      destruct (Hold k) as [_ Ho]. rewrite Forall_forall in Ho. apply Ho in Hx. lia.
    + apply Forall_forall. intros x Hx. destruct (Hin k rp' x Hk Hx) as [[_ ?]|[? _]]; lia.
  - intros k1 k2 rp1 rp2 x H1 H2 Hx1 Hx2.
    destruct (Hin _ _ _ H1 Hx1) as [[-> ?]|[? (r1 & ? & ?)]], (Hin _ _ _ H2 Hx2) as [[-> ?]|[? (r2 & ? & ?)]]; try lia; [done|].
    by eapply (un_one _ _ _ Hu).
Qed.

(** The four uses of [unique_step]. *)
Lemma unique_grown {A} less same (fresh : A → Prop) (gs : RetentionPolicyInfo → list A) (f : A → list Z) d d' m m' k0 :
  (∀ x y, same x y → f y = f x) → (∀ x, fresh x → NoDup (f x) ∧ Forall (λ z, m < z ≤ m') (f x)) →
  0 ≤ m → m ≤ m' → unique (λ rp, gs rp ≫= f) d m →
  (∀ k rp', rp_at d' k = Some rp' → grown less same (λ x, k = k0 ∧ fresh x) (default [] (gs <$> rp_at d k)) (gs rp')) →
  unique (λ rp, gs rp ≫= f) d' m'.
Proof.
  intros Hsame Hfr Hm Hmm Hu Hg. eapply (unique_step _ _ _ _ _ k0); [exact Hm|exact Hmm|exact Hu|]. intros k rp' Hk.
  destruct (grown_ids _ _ _ f _ _ Hsame (Hg k rp' Hk)) as (new & Hnew & Hsub). exists new.
  assert (Hdef : default [] ((λ rp, gs rp ≫= f) <$> rp_at d k) = default [] (gs <$> rp_at d k) ≫= f) by (by destruct (rp_at d k)).
  rewrite Hdef. destruct Hnew as [->|(x & [-> Hx] & ->)]; [repeat split; [constructor|constructor|done]|].
  destruct (Hfr x Hx). by split.
Qed.

Lemma in_order_same {A} (less : A → A → bool) (same : A → A → Prop) l l' :
  (∀ x x' y y', same x x' → same y y' → less x' y' = less x y) → Forall2 same l l' → in_order less l → in_order less l'.
Proof.
  intros Hs. unfold in_order. induction 1 as [|x x' l l' Hx Hl IH]; intros Ho; [done|].
  inversion Ho as [|? ? Ho' Hall]; subst. constructor; [by apply IH|]. clear -Hs Hx Hl Hall.
  induction Hl as [|y y' l l' Hy _ IH]; [constructor|]. inversion Hall; subst. constructor; [by erewrite Hs|by apply IH].
Qed.

Lemma grown_order {A} (less : A → A → bool) `{!StrictWeak less} same (fresh : A → Prop) l l' :
  (∀ x x' y y', same x x' → same y y' → less x' y' = less x y) → grown less same fresh l l' → in_order less l → in_order less l'.
Proof.
  intros Hs [l1 l2 Hsub H2|x _] Ho; [|by apply sort_ordered]. eapply in_order_same; [exact Hs|exact H2|].
  by eapply in_order_sublist.
Qed.

Lemma grown_all {A} less same (fresh : A → Prop) (P : A → Prop) l l' :
  (∀ x y, same x y → P x → P y) → (∀ x, fresh x → P x) → grown less same fresh l l' → (∀ x, x ∈ l → P x) → ∀ x, x ∈ l' → P x.
Proof.
  intros Hs Hf [l1 l2 Hsub H2|x Hx] Hall y.
  - intros (i & Hi)%list_elem_of_lookup_1. destruct (Forall2_lookup_r _ _ _ _ _ H2 Hi) as (z & Hz & Hzy).
    apply (Hs z); [done|]. apply Hall. eapply elem_of_submseteq; [by eapply list_elem_of_lookup_2|by apply sublist_submseteq].
  - rewrite sort_perm, elem_of_app, list_elem_of_singleton. intros [Hy| ->]; [by apply Hall|by apply Hf].
Qed.

Lemma counted_ids {A} (get : A → Z) a l l' : get <$> l' = get <$> l → (l ≠ [] ∧ counted get a l) → l' ≠ [] ∧ counted get a l'.
Proof.
  intros Heq [Hne Hc]. split.
  - intros ->. by destruct l.
  - intros i x Hx. assert (Hi : (get <$> l') !! i = Some (get x)) by (by rewrite list_lookup_fmap, Hx).
    rewrite Heq, list_lookup_fmap in Hi. destruct (l !! i) as [y|] eqn:Hy; [|done]. injection Hi as <-. by apply Hc.
Qed.

Lemma counted_fresh {A} (get : A → Z) m m' l :
  counted get (m + 1) l → m + Z.of_nat (length l) ≤ m' → NoDup (get <$> l) ∧ Forall (λ z, m < z ≤ m') (get <$> l).
Proof.
  intros Hc Hl. split; [by eapply counted_NoDup|]. apply Forall_forall. intros x Hx.
  pose proof (counted_elem _ _ _ _ Hc Hx). lia.
Qed.

Lemma single_fresh (x m m' : Z) : m < x ≤ m' → NoDup [x] ∧ Forall (λ z, m < z ≤ m') [x].
Proof. intros. split; [apply NoDup_singleton|by constructor]. Qed.

Lemma sg_Less_same x x' y y' : same_sg x x' → same_sg y y' → sg_Less x' y' = sg_Less x y.
Proof. intros (? & Hx & Hx' & ?) (? & Hy & Hy' & ?). unfold sg_Less. by rewrite Hx, Hx', Hy, Hy'. Qed.
Lemma ig_Less_same x x' y y' : same_ig x x' → same_ig y y' → ig_Less x' y' = ig_Less x y.
Proof. intros (? & Hx & Hx' & ?) (? & Hy & Hy' & ?). unfold ig_Less. by rewrite Hx, Hx', Hy, Hy'. Qed.

Lemma evolve_ok k0 d d' k rp' : evolve_at k0 d d' → (∀ k rp, rp_at d k = Some rp → rp_ok rp) → rp_at d' k = Some rp' → rp_ok rp'.
Proof.
  intros [_ Hs Hi] Hok Hk. specialize (Hs k rp' Hk). specialize (Hi k rp' Hk). unfold sgs_of, igs_of in *.
  assert (Ho : rp_ok (default no_policy (rp_at d k))).
  { destruct (rp_at d k) eqn:Ek; [by eapply Hok|]. split; cbn; [constructor|constructor|set_solver|set_solver]. }
  assert (default [] (rp_ShardGroups <$> rp_at d k) = rp_ShardGroups (default no_policy (rp_at d k))) as E1
    by (by destruct (rp_at d k)). rewrite E1 in Hs.
  assert (default [] (rp_IndexGroups <$> rp_at d k) = rp_IndexGroups (default no_policy (rp_at d k))) as E2
    by (by destruct (rp_at d k)). rewrite E2 in Hi. split.
  - eapply grown_order; [apply _|apply sg_Less_same|exact Hs|apply Ho].
  - eapply grown_order; [apply _|apply ig_Less_same|exact Hi|apply Ho].
  - eapply (grown_all _ _ _ (λ g, sg_Shards g ≠ [] ∧ ∃ a, counted si_ID a (sg_Shards g))); [| |exact Hs|apply Ho].
    + intros x y (? & ? & ? & Heq) (Hne & a & Hc). destruct (counted_ids _ a _ _ Heq) as [? ?]; [done|]. eauto.
    + intros x (_ & _ & ? & ? & _). eauto.
  - eapply (grown_all _ _ _ (λ g, ig_Indexes g ≠ [] ∧ ∃ a, counted ii_ID a (ig_Indexes g))); [| |exact Hi|apply Ho].
    + intros x y (? & ? & ? & Heq) (Hne & a & Hc). destruct (counted_ids _ a _ _ Heq) as [? ?]; [done|]. eauto.
    + intros x (_ & _ & ? & ? & _). eauto.
Qed.

Theorem evolve_Inv d d' : evolve d d' → Inv d → Inv d'.
Proof.
  intros [k0 Hev] [Hrp Hsg Hsh Hig Hix Hpos]. pose proof (ev_max _ _ _ Hev) as Hmax.
  split; [intros k rp; by eapply evolve_ok| | | | |lia].
  - eapply (unique_grown sg_Less same_sg (fresh_sg d d') rp_ShardGroups); [| | | |exact Hsg|apply (ev_sgs _ _ _ Hev)]; try lia.
    + by intros x y (-> & _).
    + intros x (Hx & _). by apply single_fresh.
  - eapply (unique_grown sg_Less same_sg (fresh_sg d d') rp_ShardGroups); [| | | |exact Hsh|apply (ev_sgs _ _ _ Hev)]; try lia.
    + by intros x y (_ & _ & _ & ->).
    + intros x (_ & _ & Hc & Hl). by apply counted_fresh.
  - eapply (unique_grown ig_Less same_ig (fresh_ig d d') rp_IndexGroups); [| | | |exact Hig|apply (ev_igs _ _ _ Hev)]; try lia.
    + by intros x y (-> & _).
    + intros x (Hx & _). by apply single_fresh.
  - eapply (unique_grown ig_Less same_ig (fresh_ig d d') rp_IndexGroups); [| | | |exact Hix|apply (ev_igs _ _ _ Hev)]; try lia.
    + by intros x y (_ & _ & _ & ->).
    + intros x (_ & _ & Hc & Hl). by apply counted_fresh.
Qed.
End Laws.
