(* ===== verification/MetaCmd.v ===== *)
(** * meta: the commands of the raft log and the reachable states

    [exec] applies one command.  The commands that leave the counters alone are shown here
    to refine [evolve]; those that create, split or prune groups in MetaGroups.v. *)

From stdpp Require Import gmap sorting.
From Stdlib Require String.
From S2P Require Import Prelude GoSort GoSlice Meta MetaLaws MetaInv.

(** The commands of the log that the state machine applies; [now] is the clock of the node. *)
Inductive command :=
  | cmd_CreateDatabase (dbName : string) (rpi : option RetentionPolicyInfo) (shardKey : option ShardKeyInfo)
      (enableTagArray : bool) (replicaN : Z)
  | cmd_MarkDatabaseDelete (name : string)
  | cmd_DropDatabase (name : string)
  | cmd_CreateRetentionPolicy (dbName : string) (rp : RetentionPolicyInfo) (makeDefault : bool)
  | cmd_DropRetentionPolicy (database name : string)
  | cmd_MarkRetentionPolicyDelete (database name : string)
  | cmd_SetDefaultRetentionPolicy (database name : string)
  | cmd_UpdateRetentionPolicy (database name : string) (rpu : RetentionPolicyUpdate) (makeDefault : bool)
  | cmd_UpdateSchema (database rp mst : string) (fields : list FieldSchema)
  | cmd_CreateMeasurement (database rpName mst : string) (shardKey : option ShardKeyInfo) (numOfShards engineType : Z)
      (colStore : bool) (schemaInfo : list FieldSchema)
  | cmd_MarkMeasurementDelete (database policy measurement : string)
  | cmd_DropMeasurement (database policy nameWithVer : string)
  | cmd_AlterShardKey (database rpName mst : string) (shardKey : option ShardKeyInfo)
  | cmd_CreateShardGroup (database policy : string) (timestamp tier engineType version : Z)
  | cmd_DeleteShardGroup (now : Z) (database policy : string) (id deletedAt deleteType : Z)
  | cmd_DeleteIndexGroup (now : Z) (database policy : string) (id : Z)
  | cmd_PruneGroups (shardGroup : bool) (id : Z)
  | cmd_ReSharding (database rpName : string) (shardGroupID splitTime : Z) (bounds : list string)
  | cmd_UpdateShardInfoTier (shardID shardTier : Z) (dbName rpName : string).

Section Commands.
Context {E : MetaEnv}.

Definition exec (d : Data) (c : command) : outcome :=
  match c with
  | cmd_CreateDatabase n rpi sk tags rep => CreateDatabase d n rpi sk tags rep
  | cmd_MarkDatabaseDelete n => MarkDatabaseDelete d n
  | cmd_DropDatabase n => done_ (DropDatabase d n)
  | cmd_CreateRetentionPolicy n rp def => CreateRetentionPolicy d n rp def
  | cmd_DropRetentionPolicy db n => DropRetentionPolicy d db n
  | cmd_MarkRetentionPolicyDelete db n => MarkRetentionPolicyDelete d db n
  | cmd_SetDefaultRetentionPolicy db n => SetDefaultRetentionPolicy d db n
  | cmd_UpdateRetentionPolicy db n u def => UpdateRetentionPolicy d db n u def
  | cmd_UpdateSchema db rp mst fs => UpdateSchema d db rp mst fs
  | cmd_CreateMeasurement db rp mst sk n et cs fs => CreateMeasurement d db rp mst sk n et cs fs
  | cmd_MarkMeasurementDelete db rp mst => MarkMeasurementDelete d db rp mst
  | cmd_DropMeasurement db rp mst => DropMeasurement d db rp mst
  | cmd_AlterShardKey db rp mst k => AlterShardKey d db rp mst k
  | cmd_CreateShardGroup db rp ts tier et v => CreateShardGroup d db rp ts tier et v
  | cmd_DeleteShardGroup now db rp id at_ ty => DeleteShardGroup now d db rp id at_ ty
  | cmd_DeleteIndexGroup now db rp id => DeleteIndexGroup now d db rp id
  | cmd_PruneGroups sg id => PruneGroups d sg id
  | cmd_ReSharding db rp id t bounds => ReSharding d db rp id t bounds
  | cmd_UpdateShardInfoTier id tier db rp => UpdateShardInfoTier d id tier db rp
  end.

(** A new policy comes without groups; a split has a bounded number of parts. *)
Definition new_policy (rp : RetentionPolicyInfo) : Prop := rp_ShardGroups rp = [] ∧ rp_IndexGroups rp = [].
Definition cmd_ok (c : command) : Prop :=
  match c with
  | cmd_CreateDatabase _ (Some rp) _ _ _ => new_policy rp
  | cmd_CreateRetentionPolicy _ rp _ => new_policy rp
  | cmd_ReSharding _ _ _ _ bounds => Z.of_nat (length bounds) < 2 ^ 32
  | _ => True
  end.

(** A cluster with storage nodes whose 64 bit counters are not close to their end. *)
Definition roomy (d : Data) : Prop :=
  (0 < ClusterPtNum d)%nat ∧ Z.of_nat (ClusterPtNum d) < 2 ^ 32 ∧
  MaxShardGroupID d < 2 ^ 62 ∧ MaxShardID d < 2 ^ 62 ∧ MaxIndexGroupID d < 2 ^ 62 ∧ MaxIndexID d < 2 ^ 62.

Definition empty_Data (ptNum : nat) (numOfShards : Z) : Data := mk_Data ptNum numOfShards ∅ ∅ ∅ ∅ ∅ 0 0 0 0 0.

Inductive reachable : Data → Prop :=
  | reach_init n s : reachable (empty_Data n s)
  | reach_step d c d' err : reachable d → roomy d → cmd_ok c → exec d c = Ok (d', err) → reachable d'.

(** *** The entry of a policy *)

Lemma RetentionPolicy_at d database name db rp :
  RetentionPolicy d database name = inr (db, rp) →
  Databases d !! database = Some db ∧ db_RetentionPolicies db !! rp_key db name = Some rp ∧ rp_at d (database, rp_key db name) = Some rp.
Proof.
  unfold RetentionPolicy, GetDatabase, GetRetentionPolicy, db_RetentionPolicy, rp_at. cbn.
  destruct (Databases d !! database) as [db'|]; [|done]. destruct (db_MarkDeleted db'); [done|].
  case_decide; [done|]. destruct (db_RetentionPolicies db' !! _) as [rp'|] eqn:Hrp; [|done].
  destruct (rp_MarkDeleted rp'); [done|]. intros [= -> ->]. done.
Qed.

(** [d1] is [d] with other counters. *)
Lemma rp_at_put d1 d database db name rp' k :
  Databases d1 = Databases d → Databases d !! database = Some db →
  rp_at (put_rp d1 database db name rp') k = if decide (k = (database, rp_key db name)) then Some rp' else rp_at d k.
Proof.
  intros Hd Hdb. destruct k as [a b]. unfold rp_at, put_rp. cbn. rewrite Hd. destruct (decide (a = database)) as [->|Hne].
  - rewrite lookup_insert_eq, Hdb. cbn. destruct (decide ((database, b) = (database, rp_key db name))) as [[= ->]|Hk].
    + by rewrite lookup_insert_eq.
    + rewrite lookup_insert_ne; [done|]. intros <-. by apply Hk.
  - rewrite lookup_insert_ne by done. by rewrite decide_False by congruence.
Qed.

Definition same_max (d d' : Data) : Prop :=
  MaxShardGroupID d' = MaxShardGroupID d ∧ MaxShardID d' = MaxShardID d ∧ MaxIndexGroupID d' = MaxIndexGroupID d ∧ MaxIndexID d' = MaxIndexID d.

Lemma grown_refl {A} less same (fresh : A → Prop) l : (∀ x, same x x) → grown less same fresh l l.
Proof. intros Hs. eapply grown_keep; [reflexivity|]. by apply Forall_Forall2_diag, Forall_true. Qed.
Lemma grown_nil {A} less same (fresh : A → Prop) l : grown less same fresh l [].
Proof. eapply grown_keep; [apply sublist_nil_l|constructor]. Qed.

Lemma same_sg_refl g : same_sg g g.
Proof. by repeat split. Qed.
Lemma same_ig_refl g : same_ig g g.
Proof. by repeat split. Qed.
Hint Resolve same_sg_refl same_ig_refl grown_nil : core.

(** A change that leaves the counters alone: what each policy keeps of its groups. *)
Definition keeps (old new : option RetentionPolicyInfo) : Prop :=
  match new with
  | None => True
  | Some rp' => grown sg_Less same_sg (λ _, False) (sgs_of old) (rp_ShardGroups rp') ∧
                grown ig_Less same_ig (λ _, False) (igs_of old) (rp_IndexGroups rp')
  end.

Lemma grown_impl {A} less same (f g : A → Prop) l l' : (∀ x, f x → g x) → grown less same f l l' → grown less same g l l'.
Proof. intros Hfg [l1 l2 ? ?|x Hx]; [by eapply grown_keep|apply grown_add; auto]. Qed.

Lemma evolve_keeps d d' : same_max d d' → (∀ k, keeps (rp_at d k) (rp_at d' k)) → evolve d d'.
Proof.
  intros (? & ? & ? & ?) Hk. exists (""%string, ""%string). split; [lia| |]; intros k rp' Hk'; specialize (Hk k);
    rewrite Hk' in Hk; destruct Hk as [Hsg Hig]; (eapply grown_impl; [|eassumption]); done.
Qed.

Lemma keeps_refl o : keeps o o.
Proof. destruct o; [|done]. split; apply grown_refl; auto. Qed.
Lemma keeps_groups rp rp' : rp_ShardGroups rp' = rp_ShardGroups rp → rp_IndexGroups rp' = rp_IndexGroups rp → keeps (Some rp) (Some rp').
Proof. intros E1 E2. unfold keeps. rewrite E1, E2. split; apply grown_refl; auto. Qed.
Lemma keeps_new o rp : new_policy rp → keeps o (Some rp).
Proof. intros [E1 E2]. unfold keeps. rewrite E1, E2. auto. Qed.
Hint Resolve keeps_refl : core.

Lemma evolve_refl d : evolve d d.
Proof. apply evolve_keeps; [by repeat split|auto]. Qed.

Lemma keeps_put d1 d database db name rp rp' :
  same_max d d1 → Databases d1 = Databases d → RetentionPolicy d database name = inr (db, rp) → keeps (Some rp) (Some rp') →
  evolve d (put_rp d1 database db name rp').
Proof.
  intros Hm Hd (Hdb & Hrp & Hat)%RetentionPolicy_at Hk. apply evolve_keeps; [done|]. intros k.
  erewrite rp_at_put by done. case_decide; [by subst; rewrite Hat|auto].
Qed.

(** Replacing a database by one whose policies are compared one by one. *)
Lemma keeps_db d database db' :
  (∀ k, keeps (rp_at d (database, k)) (db_RetentionPolicies db' !! k)) → evolve d (set_Databases d (<[database := db']> (Databases d))).
Proof.
  intros Hk. apply evolve_keeps; [by repeat split|]. intros [a b]. unfold rp_at at 2. cbn. destruct (decide (a = database)) as [->|Hne].
  - by rewrite lookup_insert_eq.
  - by rewrite lookup_insert_ne.
Qed.

Lemma rp_at_db d database db k : Databases d !! database = Some db → rp_at d (database, k) = db_RetentionPolicies db !! k.
Proof. unfold rp_at. cbn. by intros ->. Qed.

(** *** Commands that leave the counters alone *)

Lemma CheckSpecValid_groups rp rp' e :
  CheckSpecValid rp = Ok (rp', e) → rp_ShardGroups rp' = rp_ShardGroups rp ∧ rp_IndexGroups rp' = rp_IndexGroups rp ∧ rp_Name rp' = rp_Name rp.
Proof.
  unfold CheckSpecValid. cbv zeta. destruct (normalisedIndexDuration _ _) as [igd| | |]; try done. rs.
  repeat case_match; intros [= <- <-]; done.
Qed.

Lemma CheckCanCreate_groups db rp def rp' e :
  CheckCanCreateRetentionPolicy db rp def = Ok (rp', e) →
  rp_ShardGroups rp' = rp_ShardGroups rp ∧ rp_IndexGroups rp' = rp_IndexGroups rp ∧ rp_Name rp' = rp_Name rp.
Proof.
  unfold CheckCanCreateRetentionPolicy. case_decide; [by intros [= <- <-]|].
  destruct (CheckSpecValid rp) as [[rp1 e1]| | |] eqn:Ec; try done. rs. apply CheckSpecValid_groups in Ec.
  repeat case_match; intros [= <- <-]; done.
Qed.

Lemma new_policy_check db rp def rp' e : CheckCanCreateRetentionPolicy db rp def = Ok (rp', e) → new_policy rp → new_policy rp'.
Proof. intros (E1 & E2 & _)%CheckCanCreate_groups [H1 H2]. split; congruence. Qed.

Lemma CreateDatabase_evolve d n rpi sk tags rep d' e :
  cmd_ok (cmd_CreateDatabase n rpi sk tags rep) → CreateDatabase d n rpi sk tags rep = Ok (d', e) → evolve d d'.
Proof.
  intros Hok. unfold CreateDatabase, done_, fail_. destruct (CheckCanCreateDatabase d n).
  { case_decide; intros [= <- <-]; apply evolve_refl. }
  destruct rpi as [rp|]; cbn in Hok.
  - destruct (CheckCanCreateRetentionPolicy _ _ _) as [[rp' [e'|]]| | |] eqn:Ec; try done; rs; intros [= <- <-]; [apply evolve_refl|].
    apply keeps_db. intros k. cbn. destruct (decide (k = rp_Name rp')) as [->|].
    + rewrite lookup_insert_eq. by eapply keeps_new, new_policy_check.
    + by rewrite lookup_insert_ne.
  - rs. intros [= <- <-]. apply keeps_db. intros k. cbn. done.
Qed.

Lemma GetDatabase_at d n db : GetDatabase d n = inr db → Databases d !! n = Some db.
Proof. unfold GetDatabase. repeat case_match; congruence. Qed.

Lemma CreateRetentionPolicy_evolve d n rp def d' e : new_policy rp → CreateRetentionPolicy d n rp def = Ok (d', e) → evolve d d'.
Proof.
  intros Hok. unfold CreateRetentionPolicy, done_, fail_.
  destruct (GetDatabase d n) as [|db] eqn:Eg; [intros [= <- <-]; apply evolve_refl|]. apply GetDatabase_at in Eg.
  destruct (CheckCanCreateRetentionPolicy _ _ _) as [[rp' [e'|]]| | |] eqn:Ec; try done; rs.
  - case_decide; intros [= <- <-]; apply evolve_refl.
  - intros [= <- <-]. apply keeps_db. intros k. cbn. rewrite (rp_at_db _ _ _ _ Eg). destruct (decide (k = rp_Name rp')) as [->|].
    + rewrite lookup_insert_eq. by eapply keeps_new, new_policy_check.
    + by rewrite lookup_insert_ne.
Qed.

Lemma db_evolve d n db db' : Databases d !! n = Some db → (∀ k, db_RetentionPolicies db' !! k = None ∨ db_RetentionPolicies db' !! k = db_RetentionPolicies db !! k) →
  evolve d (set_Databases d (<[n := db']> (Databases d))).
Proof. intros Hd Hk. apply keeps_db. intros k. rewrite (rp_at_db _ _ _ _ Hd). by destruct (Hk k) as [-> | ->]. Qed.

Lemma MarkDatabaseDelete_evolve d n d' e : MarkDatabaseDelete d n = Ok (d', e) → evolve d d'.
Proof.
  unfold MarkDatabaseDelete, done_, fail_. destruct (Databases d !! n) as [db|] eqn:Ed; [|intros [= <- <-]; apply evolve_refl].
  repeat case_match; intros [= <- <-]; try apply evolve_refl. eapply db_evolve; [done|]. intros k. by right.
Qed.

Lemma DropDatabase_evolve d n : evolve d (DropDatabase d n).
Proof.
  apply evolve_keeps; [by repeat split|]. intros [a b]. unfold rp_at at 2. cbn. destruct (decide (a = n)) as [->|].
  - by rewrite lookup_delete_eq.
  - by rewrite lookup_delete_ne.
Qed.

Lemma DropRetentionPolicy_evolve d db n d' e : DropRetentionPolicy d db n = Ok (d', e) → evolve d d'.
Proof.
  unfold DropRetentionPolicy, done_, fail_. destruct (GetDatabase d db) as [|dbi] eqn:Eg; intros [= <- <-]; [apply evolve_refl|].
  apply GetDatabase_at in Eg. eapply db_evolve; [done|]. intros k. cbn. destruct (decide (k = n)) as [->|].
  - left. apply lookup_delete_eq.
  - right. by apply lookup_delete_ne.
Qed.

(** The commands that change one policy: the lookup, then the change. *)
Ltac policy d db n := destruct (RetentionPolicy d db n) as [|[dbi rp]] eqn:Er; [intros [= <- <-]; apply evolve_refl|].

Lemma MarkRetentionPolicyDelete_evolve d db n d' e : MarkRetentionPolicyDelete d db n = Ok (d', e) → evolve d d'.
Proof.
  unfold MarkRetentionPolicyDelete, done_, fail_. policy d db n. repeat case_match; intros [= <- <-]; try apply evolve_refl.
  eapply keeps_put; [by repeat split|done|done|by apply keeps_groups].
Qed.

Lemma SetDefaultRetentionPolicy_evolve d db n d' e : SetDefaultRetentionPolicy d db n = Ok (d', e) → evolve d d'.
Proof.
  unfold SetDefaultRetentionPolicy, done_, fail_. policy d db n. intros [= <- <-].
  apply RetentionPolicy_at in Er as (Hd & _). eapply db_evolve; [done|]. by right.
Qed.

(** The groups of a policy. *)
Definition view (d : Data) (k : string * string) : option (list ShardGroupInfo * list IndexGroupInfo) :=
  (λ rp, (rp_ShardGroups rp, rp_IndexGroups rp)) <$> rp_at d k.

Lemma evolve_view d d1 d2 : evolve d d1 → same_max d1 d2 → (∀ k, view d2 k = view d1 k) → evolve d d2.
Proof.
  intros [k0 [Hm Hs Hi]] (E1 & E2 & E3 & E4) Hk. exists k0. split; [lia| |]; intros k rp' Hr; specialize (Hk k); unfold view in Hk;
    rewrite Hr in Hk; destruct (rp_at d1 k) as [rp1|] eqn:Er; try done; injection Hk as Hk1 Hk2; rewrite ?Hk1, ?Hk2.
  - eapply grown_impl; [|by apply Hs]. unfold fresh_sg. intros x (? & ?). split; [done|]. by rewrite E1, E2.
  - eapply grown_impl; [|by apply Hi]. unfold fresh_ig. intros x (? & ?). split; [done|]. by rewrite E3, E4.
Qed.

Lemma view_put d1 d database db name rp rp' k :
  Databases d1 = Databases d → RetentionPolicy d database name = inr (db, rp) →
  rp_ShardGroups rp' = rp_ShardGroups rp → rp_IndexGroups rp' = rp_IndexGroups rp → view (put_rp d1 database db name rp') k = view d k.
Proof.
  intros Hd (Hdb & _ & Hat)%RetentionPolicy_at E1 E2. unfold view. erewrite rp_at_put by done. case_decide; [|done].
  subst. rewrite Hat. cbn. by rewrite E1, E2.
Qed.

Lemma UpdateRetentionPolicy_evolve d db n u def d' e : UpdateRetentionPolicy d db n u def = Ok (d', e) → evolve d d'.
Proof.
  unfold UpdateRetentionPolicy, done_, fail_. policy d db n. cbv zeta.
  do 2 (match goal with |- context [if ?b then Ok (d, Some _) else _] => destruct b end; [intros [= <- <-]; apply evolve_refl|]).
  destruct (CheckSpecValid _) as [[chk [e'|]]| | |]; try done; rs; [intros [= <- <-]; apply evolve_refl|].
  set (rp' := set_durations _ _ _ _ _ _ _). assert (Hev : evolve d (put_rp d db dbi n rp')).
  { eapply keeps_put; [by repeat split|done|done|by apply keeps_groups]. }
  destruct (Databases (put_rp d db dbi n rp') !! db) as [dbi'|] eqn:Ed; intros [= <- <-]; [|done].
  eapply evolve_view; [exact Hev|by repeat split|]. intros [a b]. unfold view, rp_at. cbn [Databases set_Databases fst snd].
  destruct (decide (a = db)) as [->|Hne].
  - by rewrite lookup_insert_eq, Ed.
  - by rewrite lookup_insert_ne by done.
Qed.

(** Commands that change measurements only. *)
Definition untouched (d d' : Data) : Prop := same_max d d' ∧ ∀ k, view d' k = view d k.

Lemma untouched_refl d : untouched d d.
Proof. by repeat split. Qed.
Lemma untouched_trans d1 d2 d3 : untouched d1 d2 → untouched d2 d3 → untouched d1 d3.
Proof. unfold untouched, same_max. intros ((-> & -> & -> & ->) & Hv) ((-> & -> & -> & ->) & Hv'). repeat split. intros k. by rewrite Hv', Hv. Qed.
Lemma untouched_evolve d d' : untouched d d' → evolve d d'.
Proof. intros [Hm Hv]. eapply evolve_view; [apply evolve_refl|done|done]. Qed.

Lemma UpdateSchema_untouched d db rpn mst fs d' e : UpdateSchema d db rpn mst fs = Ok (d', e) → untouched d d'.
Proof.
  unfold UpdateSchema, done_, fail_.
  destruct (RetentionPolicy d db rpn) as [|[dbi rp]] eqn:Er; [intros [= <- <-]; apply untouched_refl|].
  repeat (case_match; try (intros [= <- <-]; apply untouched_refl)).
  intros [= <- <-]. split; [by repeat split|]. intros k. by eapply view_put.
Qed.

Lemma createVersion_untouched d db dbi rpn rp sk n mst v et fs d' e :
  RetentionPolicy d db rpn = inr (dbi, rp) →
  createVersionMeasurement d db dbi rpn rp sk n mst v et fs = Ok (d', e) → untouched d d'.
Proof.
  intros Er. unfold createVersionMeasurement. cbv zeta. destruct (if negb _ && _ && _ then _ else _) as [[init idx]| | |]; try done. rs.
  set (d1 := put_rp _ _ _ _ _). assert (Hu : untouched d d1) by (split; [by repeat split|]; intros k; by eapply view_put).
  case_match; [|by intros [= <- <-]]. intros Hs%UpdateSchema_untouched. by eapply untouched_trans.
Qed.

Lemma CreateMeasurement_untouched d db rpn mst sk n et cs fs d' e :
  CreateMeasurement d db rpn mst sk n et cs fs = Ok (d', e) → untouched d d'.
Proof.
  unfold CreateMeasurement, done_, fail_. cbv zeta.
  destruct (RetentionPolicy d db rpn) as [|[dbi rp]] eqn:Er; [intros [= <- <-]; apply untouched_refl|].
  repeat (match goal with |- context [if ?b then Ok (d, Some _) else _] => destruct b end; [intros [= <- <-]; apply untouched_refl|]).
  destruct (rp_Measurement rp mst) as [m|]; [destruct (ms_MarkDeleted m)|]; try (intros Hc; by eapply createVersion_untouched).
  repeat case_match; intros [= <- <-]; apply untouched_refl.
Qed.

Lemma put_mst_untouched d db dbi rpn rp mst m : RetentionPolicy d db rpn = inr (dbi, rp) → untouched d (put_mst d db dbi rpn rp mst m).
Proof.
  intros Er. unfold put_mst. case_match; [|apply untouched_refl]. split; [by repeat split|]. intros k. by eapply view_put.
Qed.

Lemma MarkMeasurementDelete_untouched d db rpn mst d' e : MarkMeasurementDelete d db rpn mst = Ok (d', e) → untouched d d'.
Proof.
  unfold MarkMeasurementDelete, Measurement, done_, fail_.
  destruct (RetentionPolicy d db rpn) as [|[dbi rp]] eqn:Er; [intros [= <- <-]; apply untouched_refl|].
  repeat case_match; simplify_eq; intros [= <- <-]; try apply untouched_refl. by apply put_mst_untouched.
Qed.

Lemma DropMeasurement_untouched d db rpn mst d' e : DropMeasurement d db rpn mst = Ok (d', e) → untouched d d'.
Proof.
  unfold DropMeasurement, done_, fail_.
  destruct (RetentionPolicy d db rpn) as [|[dbi rp]] eqn:Er; [intros [= <- <-]; apply untouched_refl|].
  repeat case_match; intros [= <- <-]; try apply untouched_refl. split; [by repeat split|]. intros k. by eapply view_put.
Qed.

Lemma AlterShardKey_untouched d db rpn mst k d' e : AlterShardKey d db rpn mst k = Ok (d', e) → untouched d d'.
Proof.
  unfold AlterShardKey, done_, fail_. cbv zeta.
  destruct (RetentionPolicy d db rpn) as [|[dbi rp]] eqn:Er; [intros [= <- <-]; apply untouched_refl|].
  destruct (rp_Measurement rp mst) as [m|]; [|intros [= <- <-]; apply untouched_refl].
  destruct (ms_MarkDeleted m); [intros [= <- <-]; apply untouched_refl|]. destruct (last _); [|done].
  do 3 (case_match; [intros [= <- <-]; apply untouched_refl|]). intros [= <- <-]. by apply put_mst_untouched.
Qed.

(** *** Updates of one group *)

Lemma update_first_same {A} (p : A → bool) f (same : A → A → Prop) l :
  (∀ x, same x x) → (∀ x, same x (f x)) → Forall2 same l (update_first p f l).
Proof.
  intros Hr Hf. induction l as [|x l IH]; cbn; [constructor|]. case_match; constructor; auto. by apply Forall_Forall2_diag, Forall_true.
Qed.

Lemma fmap_update_first {A B} (p : A → bool) f (g : A → B) l : (∀ x, g (f x) = g x) → g <$> update_first p f l = g <$> l.
Proof. intros Hf. induction l as [|x l IH]; cbn; [done|]. case_match; csimpl; [by rewrite Hf|by rewrite IH]. Qed.

Lemma keeps_sgs rp l1 l2 :
  l1 `sublist_of` rp_ShardGroups rp → Forall2 same_sg l1 l2 → keeps (Some rp) (Some (set_groups rp (rp_IndexGroups rp) l2)).
Proof. intros Hs H2. split; cbn; [by eapply grown_keep|apply grown_refl; auto]. Qed.
Lemma keeps_igs rp l1 l2 :
  l1 `sublist_of` rp_IndexGroups rp → Forall2 same_ig l1 l2 → keeps (Some rp) (Some (set_groups rp l2 (rp_ShardGroups rp))).
Proof. intros Hs H2. split; cbn; [apply grown_refl; auto|by eapply grown_keep]. Qed.

Lemma DeleteShardGroup_evolve now d db rpn id t ty d' e : DeleteShardGroup now d db rpn id t ty = Ok (d', e) → evolve d d'.
Proof.
  unfold DeleteShardGroup, done_, fail_. policy d db rpn. intros [= <- <-]. eapply keeps_put; [by repeat split|done|done|].
  eapply keeps_sgs; [reflexivity|]. apply update_first_same; [auto|]. by repeat split.
Qed.

Lemma DeleteIndexGroup_evolve now d db rpn id d' e : DeleteIndexGroup now d db rpn id = Ok (d', e) → evolve d d'.
Proof.
  unfold DeleteIndexGroup, done_, fail_. policy d db rpn. intros [= <- <-]. eapply keeps_put; [by repeat split|done|done|].
  eapply keeps_igs; [reflexivity|]. apply update_first_same; [auto|]. by repeat split.
Qed.

Lemma UpdateShardInfoTier_evolve d id tier db rpn d' e : UpdateShardInfoTier d id tier db rpn = Ok (d', e) → evolve d d'.
Proof.
  unfold UpdateShardInfoTier, done_, fail_. policy d db rpn. cbv zeta. case_match; intros [= <- <-]; [|apply evolve_refl].
  eapply keeps_put; [by repeat split|done|done|]. eapply keeps_sgs; [reflexivity|]. apply update_first_same; [auto|].
  intros g. repeat split. cbn. by apply fmap_update_first.
Qed.
End Commands.
