(* ===== verification/MetaGroups.v ===== *)
(** * meta: creating, splitting and pruning groups

    What CreateShardGroup, ReSharding and PruneGroups do to the groups of a policy, and
    with it the invariant of every reachable state. *)

From stdpp Require Import gmap sorting.
From Stdlib Require String.
From S2P Require Import Prelude GoSort GoSlice Meta MetaLaws MetaInv MetaCmd.

Section Groups.
Context {E : MetaEnv} {L : MetaLaws E}.

(** ** CreateShardGroup *)

Definition new_sg (d : Data) (rp : RetentionPolicyInfo) (ts et version : Z) (shards : list ShardInfo) : ShardGroupInfo :=
  mk_ShardGroupInfo (u64 (MaxShardGroupID d + 1)) (Truncate ts (rp_ShardGroupDuration rp))
    (clip_end (Truncate ts (rp_ShardGroupDuration rp) + rp_ShardGroupDuration rp)) zero_time shards zero_time et version.

Definition new_ig (d : Data) (rp : RetentionPolicyInfo) (ts et : Z) (n : nat) : IndexGroupInfo :=
  mk_IndexGroupInfo (u64 (MaxIndexGroupID d + 1)) (Truncate ts (rp_IndexGroupDuration rp))
    (clip_end (Truncate ts (rp_IndexGroupDuration rp) + rp_IndexGroupDuration rp)) (new_indexes d n) zero_time et.

(** The index group is one of the policy, or it is made and sorted in. *)
Inductive index_group (d : Data) (rp : RetentionPolicyInfo) (ts et : Z) : Data → list IndexGroupInfo → IndexGroupInfo → Prop :=
  | ig_found g : g ∈ rp_IndexGroups rp → ig_EngineType g = et → ig_Contains g ts = true → (ClusterPtNum d <= length (ig_Indexes g))%nat →
      index_group d rp ts et d (rp_IndexGroups rp) g
  | ig_made : let g := new_ig d rp ts et (ClusterPtNum d) in
      index_group d rp ts et
        (set_index_ids d (u64 (MaxIndexGroupID d + 1)) (u64 (MaxIndexID d + Z.of_nat (ClusterPtNum d))))
        (sort_by ig_Less (rp_IndexGroups rp ++ [g])) g.

Lemma createIndexGroupIfNeeded_spec d rp ts et d1 rp1 igi :
  createIndexGroupIfNeeded d rp ts et (ClusterPtNum d) = (d1, rp1, igi) →
  rp1 = set_groups rp (rp_IndexGroups rp1) (rp_ShardGroups rp) ∧ index_group d rp ts et d1 (rp_IndexGroups rp1) igi.
Proof.
  unfold createIndexGroupIfNeeded, CreateIndexGroup.
  destruct (list_find _ _) as [[i g]|] eqn:Ef; [case_match eqn:El|]; intros [= <- <- <-].
  2,3: split; [done|]; apply ig_made.
  split; [by destruct rp|]. apply list_find_Some in Ef as (Hi & Hg & _). apply Is_true_true, andb_true_iff in Hg as [Ht Hc].
  apply ig_found; [by eapply list_elem_of_lookup_2|lia|done|by apply Nat.leb_le].
Qed.

(** The group that bounds the shards of a new one, and their number. *)
Definition range_last (rp : RetentionPolicyInfo) (m : MeasurementInfo) : option ShardGroupInfo :=
  if match ms_ShardKeys m with k :: _ => bool_decide (sk_Type k = "range") | [] => false end then last (rp_ShardGroups rp) else None.
Definition shard_count (d : Data) (rp : RetentionPolicyInfo) (m : MeasurementInfo) : nat :=
  if match ms_ShardKeys m with k :: _ => bool_decide (sk_Type k = "range") | [] => false end
  then match range_last rp m with None => 1%nat | Some l => length (sg_Shards l) end else ClusterPtNum d.

(** What a CreateShardGroup that makes a group does. *)
Record created (d : Data) (dbn rpn : string) (ts tier et version : Z) (d' : Data) (db : DatabaseInfo) (rp : RetentionPolicyInfo)
    (m : MeasurementInfo) (d1 : Data) (igs : list IndexGroupInfo) (igi : IndexGroupInfo) (shards : list ShardInfo)
    (ms : gmap string MeasurementInfo) : Prop := {
  cr_rp : RetentionPolicy d dbn rpn = inr (db, rp);
  cr_none : rp_ShardGroupByTimestampAndEngineType rp ts et = None;
  cr_mst : ∃ name, head (iter (rp_Measurements rp)) = Some (name, m);
  cr_ig : index_group d rp ts et d1 igs igi;
  cr_shards : create_shards igi (ClusterPtNum d) (range_last rp m) tier (MaxShardID d) 0 (shard_count d rp m) = Ok shards;
  cr_state : d' = put_rp (set_shard_ids d1 (u64 (MaxShardGroupID d + 1)) (u64 (MaxShardID d + Z.of_nat (shard_count d rp m)))) dbn db rpn
                    (set_groups (set_measurements rp ms (rp_MstVersions rp)) igs
                       (sort_by sg_Less (rp_ShardGroups rp ++ [new_sg d rp ts et version shards])));
}.

Lemma mapShardsToMst_spec rp sgi rp' : mapShardsToMst rp sgi = Ok rp' → ∃ ms, rp' = set_measurements rp ms (rp_MstVersions rp).
Proof. unfold mapShardsToMst. destruct (traverse _ _) as [ms| | |]; try done. rs. intros [= <-]. by exists ms. Qed.

Lemma CreateShardGroup_cases d dbn rpn ts tier et version d' e :
  CreateShardGroup d dbn rpn ts tier et version = Ok (d', e) →
  (d' = d ∧ is_Some e) ∨
  (d' = d ∧ e = None ∧ ∃ db rp g, RetentionPolicy d dbn rpn = inr (db, rp) ∧ rp_ShardGroupByTimestampAndEngineType rp ts et = Some g) ∨
  (e = None ∧ (0 < ClusterPtNum d)%nat ∧
   ∃ db rp m d1 igs igi shards ms, created d dbn rpn ts tier et version d' db rp m d1 igs igi shards ms).
Proof.
  unfold CreateShardGroup, done_, fail_, checkStoreReady. destruct (Nat.eqb_spec (ClusterPtNum d) 0) as [|Hpt]; [intros [= <- <-]; left; eauto|].
  destruct (RetentionPolicy d dbn rpn) as [|[db rp]] eqn:Er; [intros [= <- <-]; left; eauto|].
  destruct (rp_ShardGroupByTimestampAndEngineType rp ts et) as [g|] eqn:Eg; [intros [= <- <-]; right; left; eauto 10|].
  destruct (head (iter (rp_Measurements rp))) as [[name m]|] eqn:Em; [|intros [= <- <-]; left; eauto].
  destruct (createIndexGroupIfNeeded _ _ _ _ _) as [[d1 rp1] igi] eqn:Ei.
  apply createIndexGroupIfNeeded_spec in Ei as [Erp Hig]. cbn [newShardGroup]. unfold createShards. cbv zeta.
  cbn [ClusterPtNum MaxShardID MaxShardGroupID set_shard_ids].
  assert (Ed : ClusterPtNum d1 = ClusterPtNum d ∧ MaxShardID d1 = MaxShardID d ∧ MaxShardGroupID d1 = MaxShardGroupID d) by (by destruct Hig).
  destruct Ed as (-> & -> & ->).
  assert (Esg : rp_ShardGroups rp1 = rp_ShardGroups rp) by (by rewrite Erp). rewrite Esg.
  fold (range_last rp m). change (if match ms_ShardKeys m with [] => false | k :: _ => bool_decide (sk_Type k = "range") end then _ else _)
    with (shard_count d rp m).
  destruct (create_shards _ _ _ _ _ _ _) as [shards| | |] eqn:Es; try done. rs.
  destruct (ms_ShardKeys m) as [|k ks] eqn:Ek; [done|]. rs.
  match goal with |- context [if decide _ then ?x else _] => set (mapped := x) end.
  destruct (if decide _ then mapped else Ok rp1) as [rp2| | |] eqn:Ef; try done. rs.
  assert (Hms : ∃ ms, rp2 = set_measurements rp1 ms (rp_MstVersions rp1)).
  { case_decide; [by apply mapShardsToMst_spec in Ef|]. injection Ef as <-. exists (rp_Measurements rp1). by destruct rp1. }
  destruct Hms as [ms ->]. intros [= <- <-]. right; right. split; [done|]. split; [lia|].
  exists db, rp, m, d1, (rp_IndexGroups rp1), igi, shards, ms. split; try done; [by exists name|].
  rewrite Erp. unfold put_rp. done.
Qed.

(** *** It refines [evolve] *)

Lemma evolve_put d d1 dbn db rpn rp rp' :
  RetentionPolicy d dbn rpn = inr (db, rp) → Databases d1 = Databases d →
  MaxShardGroupID d ≤ MaxShardGroupID d1 ∧ MaxShardID d ≤ MaxShardID d1 ∧ MaxIndexGroupID d ≤ MaxIndexGroupID d1 ∧ MaxIndexID d ≤ MaxIndexID d1 →
  grown sg_Less same_sg (fresh_sg d d1) (rp_ShardGroups rp) (rp_ShardGroups rp') →
  grown ig_Less same_ig (fresh_ig d d1) (rp_IndexGroups rp) (rp_IndexGroups rp') →
  evolve d (put_rp d1 dbn db rpn rp').
Proof.
  intros (Hdb & _ & Hat)%RetentionPolicy_at Hd Hm Hs Hi. exists (dbn, rp_key db rpn). split; [exact Hm| |];
    intros k rp0; erewrite rp_at_put by done; (case_decide; [subst k; rewrite Hat; intros [= <-]; cbn|intros ->; apply grown_refl; done]);
    (eapply grown_impl; [|eassumption]); by split.
Qed.

Lemma index_group_fresh d rp ts et d1 igs igi :
  index_group d rp ts et d1 igs igi → Inv d → roomy d →
  Databases d1 = Databases d ∧ MaxIndexGroupID d ≤ MaxIndexGroupID d1 ∧ MaxIndexID d ≤ MaxIndexID d1 ∧
  grown ig_Less same_ig (fresh_ig d d1) (rp_IndexGroups rp) igs.
Proof.
  intros [g Hg _ _ _|g] [_ _ _ _ _ Hpos] Hroom; unfold roomy in Hroom.
  { repeat split; try lia. apply grown_refl. by repeat split. }
  cbn [Databases MaxIndexGroupID MaxIndexID set_index_ids].
  pose proof (u64_succ (MaxIndexGroupID d) 1 ltac:(lia) ltac:(lia)) as E1. change (Z.of_nat 1) with 1 in E1. rewrite E1.
  rewrite u64_succ by lia. repeat split; try lia. apply grown_add. unfold fresh_ig. cbn. rewrite E1.
  destruct (new_indexes_counted d (ClusterPtNum d)) as [Hl Hc]; [lia|lia|]. split; [lia|]. split; [|split; [done|lia]].
  intros En. rewrite En in Hl. cbn in Hl. lia.
Qed.

Lemma last_count rp g d k : Inv d → rp_at d k = Some rp → last (rp_ShardGroups rp) = Some g →
  (0 < length (sg_Shards g))%nat ∧ Z.of_nat (length (sg_Shards g)) ≤ MaxShardID d.
Proof.
  intros Hinv Hk Hl. apply last_Some_elem_of in Hl. destruct (ok_shards _ (inv_rp _ Hinv _ _ Hk) g Hl) as (Hne & a & Hc).
  assert (Hle : length (si_ID <$> sg_Shards g) = length (sg_Shards g)) by len.
  destruct (sg_Shards g) as [|s0 ss] eqn:Es; [done|]. split; [cbn; lia|]. rewrite <- Es in *.
  pose proof (un_rp _ _ _ (inv_shard _ Hinv) k rp Hk) as [_ Hall]. rewrite Forall_forall in Hall.
  assert (Hin : ∀ x, x ∈ sg_Shards g → 0 < si_ID x ≤ MaxShardID d).
  { intros x Hx. apply Hall. apply list_elem_of_bind. exists g. split; [by apply list_elem_of_fmap_2|done]. }
  destruct (last (sg_Shards g)) as [z|] eqn:Hz; [|apply last_None in Hz; congruence].
  pose proof (Hin s0 ltac:(rewrite Es; by left)) as H0. pose proof (Hc 0%nat s0 ltac:(by rewrite Es)) as E0.
  pose proof (Hin z ltac:(by apply last_Some_elem_of)) as H1. rewrite last_lookup in Hz. pose proof (Hc _ _ Hz) as E1.
  apply lookup_lt_Some in Hz. lia.
Qed.

Lemma shard_count_room d rp m k : Inv d → roomy d → rp_at d k = Some rp →
  (0 < shard_count d rp m)%nat ∧ MaxShardID d + Z.of_nat (shard_count d rp m) < 2 ^ 64.
Proof.
  intros Hinv Hroom Hk. pose proof (inv_pos _ Hinv). unfold roomy in Hroom. unfold shard_count, range_last.
  destruct (match ms_ShardKeys m with [] => false | k :: _ => _ end); [|lia]. destruct (last (rp_ShardGroups rp)) as [g|] eqn:Eg; [|lia].
  pose proof (last_count rp g d k Hinv Hk Eg). lia.
Qed.

Lemma created_evolve d dbn rpn ts tier et version d' db rp m d1 igs igi shards ms :
  created d dbn rpn ts tier et version d' db rp m d1 igs igi shards ms → Inv d → roomy d → evolve d d'.
Proof.
  intros [Hrp _ _ Hig Hsh ->] Hinv Hroom. destruct (index_group_fresh _ _ _ _ _ _ _ Hig Hinv Hroom) as (Hd & Hg1 & Hg2 & Hgrow).
  pose proof (RetentionPolicy_at _ _ _ _ _ Hrp) as (_ & _ & Hat).
  destruct (shard_count_room d rp m _ Hinv Hroom Hat) as [Hn0 Hn]. pose proof (inv_pos _ Hinv). unfold roomy in Hroom.
  pose proof (u64_succ (MaxShardGroupID d) 1 ltac:(lia) ltac:(lia)) as E1. change (Z.of_nat 1) with 1 in E1. rewrite E1.
  rewrite u64_succ by lia. apply create_shards_counted in Hsh as [Hl Hc]; [|lia|done].
  eapply evolve_put; [exact Hrp|done| | |].
  - cbn [MaxShardGroupID MaxShardID MaxIndexGroupID MaxIndexID set_shard_ids]. lia.
  - cbn. apply grown_add. unfold fresh_sg. cbn. rewrite E1. split; [lia|]. split; [|split; [done|lia]].
    intros ->. cbn in Hl. lia.
  - cbn. eapply grown_impl; [|exact Hgrow]. intros x Hx. exact Hx.
Qed.

Lemma CreateShardGroup_evolve d dbn rpn ts tier et version d' e :
  Inv d → roomy d → CreateShardGroup d dbn rpn ts tier et version = Ok (d', e) → evolve d d'.
Proof.
  intros Hinv Hroom [[-> _]|[(-> & _)|(_ & _ & db & rp & m & d1 & igs & igi & shards & ms & Hc)]]%CreateShardGroup_cases.
  1,2: apply evolve_refl. by eapply created_evolve.
Qed.

(** ** ReSharding *)

Lemma createIndexGroup_fresh d rp start d1 rp1 :
  createIndexGroup d rp start = Ok (d1, rp1) → Inv d → roomy d →
  Databases d1 = Databases d ∧ ClusterPtNum d1 = ClusterPtNum d ∧ MaxShardID d1 = MaxShardID d ∧ MaxShardGroupID d1 = MaxShardGroupID d ∧
  MaxIndexGroupID d ≤ MaxIndexGroupID d1 ∧ MaxIndexID d ≤ MaxIndexID d1 ∧ rp_ShardGroups rp1 = rp_ShardGroups rp ∧
  grown ig_Less same_ig (fresh_ig d d1) (rp_IndexGroups rp) (rp_IndexGroups rp1).
Proof.
  intros Hc Hinv Hroom. pose proof (inv_pos _ Hinv). unfold roomy in Hroom. revert Hc. unfold createIndexGroup.
  destruct (last (rp_ShardGroups rp)); [|done]. cbv zeta. intros [= <- <-].
  cbn [Databases ClusterPtNum MaxShardID MaxShardGroupID MaxIndexGroupID MaxIndexID set_index_ids rp_ShardGroups rp_IndexGroups set_groups].
  pose proof (u64_succ (MaxIndexGroupID d) 1 ltac:(lia) ltac:(lia)) as E1. change (Z.of_nat 1) with 1 in E1. rewrite E1.
  rewrite u64_succ by lia. repeat split; try lia. apply grown_add. unfold fresh_ig. cbn.
  destruct (new_indexes_counted d (ClusterPtNum d)) as [Hl Hn]; [lia|lia|]. split; [lia|]. split; [|split; [done|lia]].
  intros En. rewrite En in Hl. cbn in Hl. lia.
Qed.

Lemma ReSharding_evolve d dbn rpn id t bounds d' e :
  Inv d → roomy d → Z.of_nat (length bounds) < 2 ^ 32 → ReSharding d dbn rpn id t bounds = Ok (d', e) → evolve d d'.
Proof.
  intros Hinv Hroom Hb. unfold ReSharding, done_, fail_.
  destruct (RetentionPolicy d dbn rpn) as [|[db rp]] eqn:Er; [intros [= <- <-]; apply evolve_refl|].
  destruct (last (rp_ShardGroups rp)) as [l|] eqn:El; [|intros [= <- <-]; apply evolve_refl].
  destruct (negb _); [intros [= <- <-]; apply evolve_refl|]. cbv zeta.
  destruct (createIndexGroup _ _ _) as [[d1 rp1]| | |] eqn:Ec; try done. rs.
  apply createIndexGroup_fresh in Ec as (Ed & Ep & Es & Eg & Hg & Hi & Ers & Hgrow); [|done|done].
  unfold CreateShardGroupWithBounds. rewrite Ers, El. destruct (last (rp_IndexGroups rp1)) as [igi|]; [|done].
  destruct (sg_Shards l) as [|s0 ss]; [done|]. rewrite Ep, Es, Eg. pose proof (inv_pos _ Hinv). unfold roomy in Hroom.
  destruct (bound_shards _ _ _ _ _ _ _ _) as [shards| | |] eqn:Eb; try done. rs. intros [= <- <-].
  apply bound_shards_counted in Eb as [Hl Hc]; [|lia|lia].
  pose proof (u64_succ (MaxShardGroupID d) 1 ltac:(lia) ltac:(lia)) as E1. change (Z.of_nat 1) with 1 in E1. rewrite E1.
  rewrite u64_succ by lia. eapply evolve_put; [exact Er|exact Ed| | |].
  - cbn [MaxShardGroupID MaxShardID MaxIndexGroupID MaxIndexID set_shard_ids]. lia.
  - cbn. apply grown_add. unfold fresh_sg. cbn [sg_ID sg_Shards MaxShardID MaxShardGroupID set_shard_ids].
    split; [lia|]. split; [|split; [done|lia]]. intros ->. cbn in Hl. lia.
  - cbn. eapply grown_impl; [|exact Hgrow]. intros x Hx. exact Hx.
Qed.

(** ** Pruning *)

Lemma traverse_spec {A} (f : string → A → res A) (m m' : gmap string A) :
  traverse f m = Ok m' → ∀ k, match m !! k with Some x => ∃ y, f k x = Ok y ∧ m' !! k = Some y | None => m' !! k = None end.
Proof.
  unfold traverse. intros Ht k.
  assert (Hl : ∀ l (m' : gmap string A), NoDup l.*1 → foldr (λ kv r, let! r := r in let! x := f (fst kv) (snd kv) in Ok (<[fst kv := x]> r)) (Ok ∅) l = Ok m' →
            match (list_to_map l : gmap string A) !! k with Some x => ∃ y, f k x = Ok y ∧ m' !! k = Some y | None => m' !! k = None end).
  { clear. intros l. induction l as [|[k' x'] l IH]; cbn [foldr]; intros m' Hnd; [by intros [= <-]|].
    destruct (foldr _ _ l) as [r| | |]; try done. rs. cbn [fst snd]. destruct (f k' x') as [y| | |] eqn:Ef; try done. rs. intros [= <-].
    cbn [list_to_map fst snd]. inversion Hnd; subst. destruct (decide (k = k')) as [->|Hne].
    - cbn. rewrite !lookup_insert_eq. eauto.
    - cbn. rewrite !lookup_insert_ne by done. by apply IH. }
  specialize (Hl _ m' (NoDup_fst_map_to_list m) Ht). by rewrite list_to_map_to_list in Hl.
Qed.

Lemma traverse_total {A} (f : string → A → res A) (m : gmap string A) :
  (∀ k x, m !! k = Some x → ∃ y, f k x = Ok y) → ∃ m', traverse f m = Ok m'.
Proof.
  unfold traverse. intros Hf. assert (Hl : ∀ k x, (k, x) ∈ map_to_list m → ∃ y, f k x = Ok y) by (intros k x Hx; apply Hf; by apply elem_of_map_to_list).
  clear Hf. induction (map_to_list m) as [|[k x] l IH]; cbn [foldr]; [eauto|].
  destruct IH as [r Hr]; [intros k' x' Hx; apply Hl; by right|]. rewrite Hr. rs. destruct (Hl k x ltac:(by left)) as [y Hy].
  cbn [fst snd]. rewrite Hy. rs. eauto.
Qed.

(** The group with its shard [id], if it has it, marked. *)
Definition mark_sg (id : Z) (g : ShardGroupInfo) : ShardGroupInfo :=
  set_Shards g ((λ s, if si_ID s =? id then mark_shard s else s) <$> sg_Shards g).
Definition mark_ig (id : Z) (g : IndexGroupInfo) : IndexGroupInfo :=
  mk_IndexGroupInfo (ig_ID g) (ig_StartTime g) (ig_EndTime g) ((λ i, if ii_ID i =? id then mark_index i else i) <$> ig_Indexes g)
    (ig_DeletedAt g) (ig_EngineType g).

(** Deleted groups go when all their shards are marked; index groups when all indexes are. *)
Definition sg_gone (g : ShardGroupInfo) : bool := sg_Deleted g && sg_canDelete g.

Lemma prune_shards_spec id gs :
  (∀ g, g ∈ gs → placed si_ID id (sg_Shards g)) →
  prune_shards id gs = Ok (filter (λ g, sg_gone g = false) (mark_sg id <$> gs), filter (λ g, sg_gone g = true) (mark_sg id <$> gs)).
Proof.
  induction gs as [|g gs IH]; intros Hall; cbn [prune_shards]; [done|].
  rewrite mark_id_spec by (apply Hall; by left). rs.
  rewrite IH by (intros x Hx; apply Hall; by right). rs. rewrite fmap_cons, !filter_cons.
  fold (mark_sg id g). fold (sg_gone (mark_sg id g)). by destruct (sg_gone (mark_sg id g)).
Qed.

Lemma prune_indexes_spec id gs :
  (∀ g, g ∈ gs → placed ii_ID id (ig_Indexes g)) →
  prune_indexes id gs = Ok (filter (λ g, ig_canDelete g = false) (mark_ig id <$> gs)).
Proof.
  induction gs as [|g gs IH]; intros Hall; cbn [prune_indexes]; [done|].
  rewrite mark_id_spec by (apply Hall; by left). rs.
  rewrite IH by (intros x Hx; apply Hall; by right). rs. rewrite fmap_cons, !filter_cons.
  fold (mark_ig id g). by destruct (ig_canDelete (mark_ig id g)).
Qed.

(** What PruneGroups leaves of the groups of a policy. *)
Definition pruned (shardGroup : bool) (id : Z) (g : list ShardGroupInfo * list IndexGroupInfo) : list ShardGroupInfo * list IndexGroupInfo :=
  if shardGroup then (filter (λ g, sg_gone g = false) (mark_sg id <$> g.1), g.2)
  else (g.1, filter (λ g, ig_canDelete g = false) (mark_ig id <$> g.2)).

(** The groups pruning looks at have their members in order, with [id] among them or not between
    them. *)
Definition rp_prunable (shardGroup : bool) (id : Z) (rp : RetentionPolicyInfo) : Prop :=
  if shardGroup then ∀ g, g ∈ rp_ShardGroups rp → placed si_ID id (sg_Shards g) else ∀ g, g ∈ rp_IndexGroups rp → placed ii_ID id (ig_Indexes g).
Definition prunable (shardGroup : bool) (id : Z) (d : Data) : Prop := ∀ k rp, rp_at d k = Some rp → rp_prunable shardGroup id rp.

Lemma Inv_prunable d (shardGroup : bool) id : Inv d → prunable shardGroup id d.
Proof.
  intros Hinv k rp Hrp. destruct (inv_rp _ Hinv k rp Hrp) as [_ _ Hs Hi]. destruct shardGroup; intros g Hg.
  - destruct (Hs g Hg) as (Hne & a & Hc). by eapply counted_placed.
  - destruct (Hi g Hg) as (Hne & a & Hc). by eapply counted_placed.
Qed.

Lemma prune_rp_spec (shardGroup : bool) id rp : rp_prunable shardGroup id rp →
  ∃ rp', (if shardGroup then prune_rp_shards id rp else prune_rp_indexes id rp) = Ok rp' ∧
         (rp_ShardGroups rp', rp_IndexGroups rp') = pruned shardGroup id (rp_ShardGroups rp, rp_IndexGroups rp).
Proof.
  intros Hp. destruct shardGroup; cbn in Hp; [unfold prune_rp_shards|unfold prune_rp_indexes].
  - rewrite prune_shards_spec by done. rs. cbv zeta. eauto.
  - rewrite prune_indexes_spec by done. rs. eauto.
Qed.

Lemma PruneGroups_spec d (shardGroup : bool) id : prunable shardGroup id d →
  ∃ d', PruneGroups d shardGroup id = Ok (d', None) ∧ same_max d d' ∧ ∀ k, view d' k = pruned shardGroup id <$> view d k.
Proof.
  intros Hinv. unfold PruneGroups. set (step := λ (_ : string) rp, if shardGroup then prune_rp_shards id rp else prune_rp_indexes id rp).
  assert (Hstep : ∀ dbn db k rp, Databases d !! dbn = Some db → db_RetentionPolicies db !! k = Some rp →
            ∃ rp', step k rp = Ok rp' ∧ (rp_ShardGroups rp', rp_IndexGroups rp') = pruned shardGroup id (rp_ShardGroups rp, rp_IndexGroups rp)).
  { intros dbn db k rp Hdb Hrp. apply prune_rp_spec, (Hinv (dbn, k)). unfold rp_at. cbn. by rewrite Hdb. }
  match goal with |- context [traverse ?f (Databases d)] => destruct (traverse_total f (Databases d)) as [dbs Hdbs] end.
  { intros dbn db Hdb. destruct (traverse_total step (db_RetentionPolicies db)) as [rps ->]; [|rs; eauto].
    intros k rp Hrp. destruct (Hstep _ _ _ _ Hdb Hrp) as (rp' & -> & _). eauto. }
  rewrite Hdbs. rs. eexists. split; [done|]. split; [by repeat split|]. intros [dbn k]. unfold view, rp_at. cbn.
  pose proof (traverse_spec _ _ _ Hdbs dbn) as Hd. destruct (Databases d !! dbn) as [db|] eqn:Edb; [|by rewrite Hd].
  destruct Hd as (db' & Hd & ->). destruct (traverse step _) as [rps| | |] eqn:Erps; try done. revert Hd. rs. intros [= <-]. cbn.
  pose proof (traverse_spec _ _ _ Erps k) as Hr. destruct (db_RetentionPolicies db !! k) as [rp|] eqn:Erp; [|by rewrite Hr].
  destruct Hr as (rp' & Hr & ->). destruct (Hstep _ _ _ _ Edb Erp) as (rp2 & Hr2 & Hp). cbn. rewrite Hr in Hr2. injection Hr2 as <-.
  by rewrite Hp.
Qed.

Lemma grown_filter_map {A} less same fresh (P : A → Prop) `{∀ x, Decision (P x)} (f : A → A) l :
  (∀ x, same x (f x)) → grown less same fresh l (filter P (f <$> l)).
Proof.
  intros Hf. eapply (grown_keep _ _ _ _ (filter (λ x, P (f x)) l)); [apply sublist_filter|].
  induction l as [|x l IH]; [constructor|]. rewrite fmap_cons, !filter_cons. by destruct (decide (P (f x))); [constructor|].
Qed.

Lemma same_mark_sg id g : same_sg g (mark_sg id g).
Proof.
  repeat split. cbn. rewrite <- list_fmap_compose. apply list_fmap_ext. intros i s _. cbn. by case_match.
Qed.
Lemma same_mark_ig id g : same_ig g (mark_ig id g).
Proof.
  repeat split. cbn. rewrite <- list_fmap_compose. apply list_fmap_ext. intros i s _. cbn. by case_match.
Qed.

Lemma PruneGroups_evolve d (shardGroup : bool) id d' e : Inv d → PruneGroups d shardGroup id = Ok (d', e) → evolve d d'.
Proof.
  intros Hinv Hp. destruct (PruneGroups_spec d shardGroup id (Inv_prunable _ _ _ Hinv)) as (d2 & Hp2 & Hm & Hv). rewrite Hp in Hp2. injection Hp2 as -> ->.
  apply evolve_keeps; [done|]. intros k. specialize (Hv k). unfold view in Hv. unfold keeps.
  destruct (rp_at d2 k) as [rp'|]; [|done]. destruct (rp_at d k) as [rp|]; [|done]. cbn in Hv. injection Hv as Hv.
  unfold sgs_of, igs_of. cbn. destruct shardGroup; injection Hv as -> ->.
  - split; [apply grown_filter_map, same_mark_sg|apply grown_refl, same_ig_refl].
  - split; [apply grown_refl, same_sg_refl|apply grown_filter_map, same_mark_ig].
Qed.

(** ** Every command *)

Lemma exec_evolve d c d' e : Inv d → roomy d → cmd_ok c → exec d c = Ok (d', e) → evolve d d'.
Proof.
  intros Hinv Hroom Hok. destruct c; cbn [exec].
  - by apply CreateDatabase_evolve.
  - apply MarkDatabaseDelete_evolve.
  - intros [= <- <-]. apply DropDatabase_evolve.
  - by apply CreateRetentionPolicy_evolve.
  - apply DropRetentionPolicy_evolve.
  - apply MarkRetentionPolicyDelete_evolve.
  - apply SetDefaultRetentionPolicy_evolve.
  - apply UpdateRetentionPolicy_evolve.
  - intros H. by eapply untouched_evolve, UpdateSchema_untouched.
  - intros H. by eapply untouched_evolve, CreateMeasurement_untouched.
  - intros H. by eapply untouched_evolve, MarkMeasurementDelete_untouched.
  - intros H. by eapply untouched_evolve, DropMeasurement_untouched.
  - intros H. by eapply untouched_evolve, AlterShardKey_untouched.
  - by apply CreateShardGroup_evolve.
  - apply DeleteShardGroup_evolve.
  - apply DeleteIndexGroup_evolve.
  - by apply PruneGroups_evolve.
  - by apply ReSharding_evolve.
  - apply UpdateShardInfoTier_evolve.
Qed.

Lemma empty_Inv n s : Inv (empty_Data n s).
Proof.
  assert (He : ∀ k rp, rp_at (empty_Data n s) k = Some rp → False) by (intros k rp; unfold rp_at; cbn; by rewrite lookup_empty).
  split; [|split|split|split|split|cbn; lia]; intros; exfalso; by eapply He.
Qed.

Lemma reachable_Inv d : reachable d → Inv d.
Proof. induction 1; [apply empty_Inv|]. by eapply evolve_Inv; [eapply exec_evolve|]. Qed.
End Groups.
