(* ===== verification/MetaProps.v ===== *)
(** * meta: what the state machine promises

    Properties of the commands and of the reachable states, each with a run that shows its
    hypotheses can hold. *)

From stdpp Require Import gmap sorting.
From Stdlib Require String Ascii.
From S2P Require Import Prelude GoSort GoString GoSlice Meta MetaLaws MetaInv MetaCmd MetaGroups.

Section Props.
Context {E : MetaEnv} {L : MetaLaws E}.

(** ** The reachable states *)

(** C3: In every state reached by the commands of [command] (ExpandGroups is not one of them;
    new policies come without groups and the counters stay below 2^62) each shard id, shard
    group id, index id and index group id occurs once in the whole cluster and was handed out
    by its counter, and the groups of every policy are sorted by end and start time. *)
Theorem reachable_ids_unique d : reachable d →
  unique sg_ids d (MaxShardGroupID d) ∧ unique shard_ids d (MaxShardID d) ∧
  unique ig_ids d (MaxIndexGroupID d) ∧ unique index_ids d (MaxIndexID d) ∧
  ∀ k rp, rp_at d k = Some rp → in_order sg_Less (rp_ShardGroups rp) ∧ in_order ig_Less (rp_IndexGroups rp).
Proof. intros [Hrp ? ? ? ? _]%reachable_Inv. do 4 (split; [done|]). intros k rp []%Hrp. done. Qed.

(** C26: PruneGroups does not panic, marks exactly the shard (or index) with the given id, removes
    the deleted shard groups (or the index groups) all of whose members are marked, and changes
    no other group of any policy, in every state reached by commands other than ExpandGroups,
    and in any state in which groups have members in the order of their ids and no group
    without the id has smaller and larger ids.  ExpandGroups makes states where a group has;
    there PruneGroups marks a member of that group too ([prune_after_expand]). *)
Theorem PruneGroups_exact d (shardGroup : bool) id : reachable d ∨ prunable shardGroup id d →
  ∃ d', PruneGroups d shardGroup id = Ok (d', None) ∧ ∀ k, view d' k = pruned shardGroup id <$> view d k.
Proof.
  intros Hd. destruct (PruneGroups_spec d shardGroup id) as (d' & ? & _ & ?); [|eauto].
  destruct Hd as [Hd|Hd]; [by apply Inv_prunable, reachable_Inv|done].
Qed.

(** ** Creating a shard group *)

Lemma RetentionPolicy_put d1 d dbn db rpn rp rp' :
  Databases d1 = Databases d → RetentionPolicy d dbn rpn = inr (db, rp) → rp_MarkDeleted rp' = rp_MarkDeleted rp →
  ∃ db', RetentionPolicy (put_rp d1 dbn db rpn rp') dbn rpn = inr (db', rp') ∧ rp_key db' rpn = rp_key db rpn.
Proof.
  unfold RetentionPolicy, GetDatabase, GetRetentionPolicy, db_RetentionPolicy. intros Hd Hr Hm.
  destruct (Databases d !! dbn) as [dbi|] eqn:Ed; [|done]. destruct (db_MarkDeleted dbi) eqn:Emd; [done|].
  destruct (decide (rp_key dbi rpn = "")) as [|Hk]; [done|]. destruct (db_RetentionPolicies dbi !! _) as [rp0|] eqn:Erp; [|done].
  destruct (rp_MarkDeleted rp0) eqn:Ed0; [done|]. injection Hr as -> ->. unfold put_rp. cbn [Databases set_Databases].
  rewrite lookup_insert_eq. cbn [db_MarkDeleted set_policies]. rewrite Emd. change (rp_key (set_policies _ _ _) rpn) with (rp_key db rpn).
  rewrite decide_False by done. cbn [db_RetentionPolicies set_policies]. rewrite lookup_insert_eq, Hm, Ed0. by eexists.
Qed.

(** The condition a group is searched with. *)
Definition serves (ts et : Z) (g : ShardGroupInfo) : bool :=
  (sg_EngineType g =? et) && sg_Contains g ts && negb (sg_Deleted g) && (negb (sg_Truncated g) || (ts <? sg_TruncatedAt g)).

Lemma lookup_group_Some rp ts et g : g ∈ rp_ShardGroups rp → serves ts et g = true →
  ∃ g', rp_ShardGroupByTimestampAndEngineType rp ts et = Some g' ∧ g' ∈ rp_ShardGroups rp ∧ serves ts et g' = true.
Proof.
  intros Hg Hs. unfold rp_ShardGroupByTimestampAndEngineType.
  destruct (list_find _ (reverse (rp_ShardGroups rp))) as [[i g']|] eqn:Ef.
  - apply list_find_Some in Ef as (Hi & Hp%Is_true_true & _). exists g'. split; [done|]. split; [|exact Hp].
    apply elem_of_reverse. by eapply list_elem_of_lookup_2.
  - exfalso. apply list_find_None in Ef. rewrite Forall_forall in Ef. apply (Ef g); [by apply elem_of_reverse|]. by apply Is_true_true.
Qed.

Lemma lookup_group_None rp ts et g : rp_ShardGroupByTimestampAndEngineType rp ts et = None → g ∈ rp_ShardGroups rp → serves ts et g = false.
Proof.
  intros Hn Hg. destruct (serves ts et g) eqn:Es; [|done]. destruct (lookup_group_Some rp ts et g Hg Es) as (g' & Hg' & _). congruence.
Qed.

Lemma new_sg_serves d rp ts et v shards : 0 < rp_ShardGroupDuration rp → ts ≤ MaxNanoTime → serves ts et (new_sg d rp ts et v shards) = true.
Proof.
  intros Hd Ht. pose proof (Truncate_window ts _ Hd). unfold serves, sg_Contains, sg_Deleted, sg_Truncated, IsZero, new_sg, clip_end. cbn.
  rewrite !Z.eqb_refl. cbn. rewrite !andb_true_r, andb_true_iff, negb_true_iff, Z.ltb_ge, Z.ltb_lt. case_match; lia.
Qed.

Lemma created_lookup d dbn rpn ts tier et v d' db rp m d1 igs igi shards ms :
  created d dbn rpn ts tier et v d' db rp m d1 igs igi shards ms →
  ClusterPtNum d' = ClusterPtNum d ∧ ∃ db' rp', RetentionPolicy d' dbn rpn = inr (db', rp') ∧
  rp_ShardGroups rp' = sort_by sg_Less (rp_ShardGroups rp ++ [new_sg d rp ts et v shards]) ∧
  rp_IndexGroups rp' = igs ∧ rp_ShardGroupDuration rp' = rp_ShardGroupDuration rp ∧ rp_IndexGroupDuration rp' = rp_IndexGroupDuration rp.
Proof.
  intros [Hrp _ _ Hig _ ->]. split; [by destruct Hig|].
  match goal with |- context [put_rp ?d1 _ _ _ ?rp'] => destruct (RetentionPolicy_put d1 d dbn db rpn rp rp') as (db' & Hput & _) end;
    [by destruct Hig|done|done|]. rewrite Hput. eauto 10.
Qed.

(** C27: After a CreateShardGroup that returns no error, for a time that is not beyond
    MaxNanoTime in a policy with a positive shard duration, looking the timestamp up in the
    same policy and engine type finds a live group that contains it, and issuing the command
    again changes nothing. *)
Theorem CreateShardGroup_serves d dbn rpn ts tier et v d' :
  (∀ db rp, RetentionPolicy d dbn rpn = inr (db, rp) → 0 < rp_ShardGroupDuration rp) → ts ≤ MaxNanoTime →
  CreateShardGroup d dbn rpn ts tier et v = Ok (d', None) →
  (∃ g, ShardGroupByTimestampAndEngineType d' dbn rpn ts et = inr (Some g) ∧
        sg_EngineType g = et ∧ sg_Deleted g = false ∧ sg_StartTime g ≤ ts < sg_EndTime g) ∧
  ∀ tier' v', CreateShardGroup d' dbn rpn ts tier' et v' = Ok (d', None).
Proof.
  intros Hdur Hts Hc.
  assert (Hrp : (0 < ClusterPtNum d')%nat ∧ ∃ db rp g, RetentionPolicy d' dbn rpn = inr (db, rp) ∧ g ∈ rp_ShardGroups rp ∧ serves ts et g = true).
  { apply CreateShardGroup_cases in Hc as Hcs.
    destruct Hcs as [[_ []]|[(-> & _ & db & rp & g & Hrp & Hg)|(_ & Hpt & db & rp & m & d1 & igs & igi & shards & ms & Hcr)]]; [done| |].
    - split.
      + revert Hc. unfold CreateShardGroup, checkStoreReady. destruct (Nat.eqb_spec (ClusterPtNum d) 0); [done|lia].
      + exists db, rp, g. split; [done|]. revert Hg. unfold rp_ShardGroupByTimestampAndEngineType.
        destruct (list_find _ _) as [[i g']|] eqn:Ef; [|done]. cbn. intros [= ->]. apply list_find_Some in Ef as (Hi & Hp%Is_true_true & _).
        split; [|exact Hp]. apply elem_of_reverse. by eapply list_elem_of_lookup_2.
    - destruct (created_lookup _ _ _ _ _ _ _ _ _ _ _ _ _ _ _ _ Hcr) as (-> & db' & rp' & Hrp' & Hsg & _). split; [done|].
      exists db', rp'. eexists. split; [done|]. rewrite Hsg, sort_perm. split; [by apply elem_of_app; right; left|].
      apply new_sg_serves; [|done]. eapply Hdur, Hcr. }
  destruct Hrp as (Hpt & db & rp & g & Hrp & Hg & Hs). destruct (lookup_group_Some rp ts et g Hg Hs) as (g' & Hl & _ & Hs'). split.
  - exists g'. unfold ShardGroupByTimestampAndEngineType. rewrite Hrp, Hl. split; [done|].
    unfold serves, sg_Contains in Hs'. repeat (apply andb_true_iff in Hs' as [Hs' ?]). rewrite !negb_true_iff in *.
    apply andb_true_iff in H1 as [H1 H2]. rewrite negb_true_iff in H1. split; [lia|]. split; [done|lia].
  - intros tier' v'. unfold CreateShardGroup, checkStoreReady. destruct (Nat.eqb_spec (ClusterPtNum d') 0); [lia|]. by rewrite Hrp, Hl.
Qed.

(** *** The time axis is tiled *)

Definition live (et : Z) (g : ShardGroupInfo) : Prop := sg_EngineType g = et ∧ sg_Deleted g = false.

(** A live group of an engine type covers one window of the policy's duration. *)
Definition aligned (rp : RetentionPolicyInfo) (g : ShardGroupInfo) : Prop :=
  sg_Truncated g = false ∧ Truncate (sg_StartTime g) (rp_ShardGroupDuration rp) = sg_StartTime g ∧
  sg_EndTime g = clip_end (sg_StartTime g + rp_ShardGroupDuration rp).

(** Every live group is aligned, and no two of them have a start in common. *)
Definition tiled (et : Z) (rp : RetentionPolicyInfo) : Prop :=
  (∀ g, g ∈ rp_ShardGroups rp → live et g → aligned rp g) ∧
  NoDup (sg_StartTime <$> filter (live et) (rp_ShardGroups rp)).

Definition covering (et t : Z) (rp : RetentionPolicyInfo) : list ShardGroupInfo :=
  filter (λ g, sg_Contains g t = true) (filter (live et) (rp_ShardGroups rp)).

Lemma aligned_start rp g t : 0 < rp_ShardGroupDuration rp → aligned rp g → sg_Contains g t = true →
  sg_StartTime g = Truncate t (rp_ShardGroupDuration rp).
Proof.
  intros Hd (_ & Ha & He). unfold sg_Contains. rewrite andb_true_iff, negb_true_iff, Z.ltb_ge, Z.ltb_lt, He. unfold clip_end. intros Ht.
  transitivity (Truncate (sg_StartTime g) (rp_ShardGroupDuration rp)); [done|]. symmetry.
  apply Truncate_same; [done|]. rewrite Ha. revert Ht. case_match; lia.
Qed.

Lemma tiled_one et rp t : 0 < rp_ShardGroupDuration rp → tiled et rp → (length (covering et t rp) <= 1)%nat.
Proof.
  intros Hd [Ha Hn]. unfold covering. set (ls := filter (live et) (rp_ShardGroups rp)) in *.
  assert (Hls : ∀ g, g ∈ ls → aligned rp g) by (intros g [Hl Hg]%list_elem_of_filter; by apply Ha). clearbody ls.
  assert (Hsub : sg_StartTime <$> filter (λ g, sg_Contains g t = true) ls ⊆+ sg_StartTime <$> ls)
    by (apply fmap_submseteq, sublist_submseteq, sublist_filter).
  apply NoDup_sub in Hsub; [|done].
  assert (Hall : ∀ g, g ∈ filter (λ g, sg_Contains g t = true) ls → sg_StartTime g = Truncate t (rp_ShardGroupDuration rp)).
  { intros g [Hc Hg]%list_elem_of_filter. apply aligned_start; auto. }
  destruct (filter _ ls) as [|g1 [|g2 l]]; cbn; try lia. exfalso. apply NoDup_cons in Hsub as [Hni _]. apply Hni.
  rewrite (Hall g1), (Hall g2); [by left|by right; left|by left].
Qed.

Lemma tiled_add et rp rp' d ts et' v shards :
  0 < rp_ShardGroupDuration rp → ts ≤ MaxNanoTime → rp_ShardGroupByTimestampAndEngineType rp ts et' = None →
  rp_ShardGroups rp' = sort_by sg_Less (rp_ShardGroups rp ++ [new_sg d rp ts et' v shards]) →
  rp_ShardGroupDuration rp' = rp_ShardGroupDuration rp → tiled et rp → tiled et rp'.
Proof.
  intros Hd Hts Hn Hsg Hdur [Ha Hnd]. set (g0 := new_sg d rp ts et' v shards) in *. unfold tiled, aligned in *. rewrite Hsg, Hdur. split.
  - intros g. rewrite sort_perm, elem_of_app, list_elem_of_singleton. intros [Hg| ->] Hl; [by apply Ha|]. cbn.
    split; [unfold sg_Truncated, IsZero; cbn; by rewrite Z.eqb_refl|]. split; [|done].
    pose proof (Truncate_window ts _ Hd). apply Truncate_same; [done|lia].
  - rewrite sort_perm, filter_app, fmap_app. apply NoDup_app. split; [done|]. split; [|rewrite filter_cons; case_decide; repeat constructor; set_solver].
    intros s Hs. rewrite filter_cons, filter_nil. destruct (decide (live et g0)) as [Hl0|]; [|apply not_elem_of_nil].
    cbn [fmap list_fmap]. rewrite list_elem_of_singleton. intros ->.
    apply list_elem_of_fmap_1 in Hs as (g & Hst & [[Het Hdel] Hg]%list_elem_of_filter). cbn in Hst.
    pose proof (lookup_group_None rp ts et' g Hn Hg) as Hserve. destruct (Ha g Hg ltac:(by split)) as (Htr & _ & Hend).
    destruct Hl0 as [Het0 _]. cbn in Het0. pose proof (Truncate_window ts _ Hd).
    unfold serves, sg_Contains, clip_end in *. rewrite Htr, Hdel, Hend, <- Hst, Het, Het0, Z.eqb_refl in Hserve. cbn in Hserve.
    rewrite !andb_true_r in Hserve. apply andb_false_iff in Hserve as [Hf|Hf].
    + rewrite negb_false_iff, Z.ltb_lt in Hf. lia.
    + apply Z.ltb_ge in Hf. clear Hend Ha. revert Hf. case_match; lia.
Qed.

(** C4: While the shard duration of a policy stays as it is and positive, CreateShardGroup for
    a time that is not beyond MaxNanoTime keeps the live groups of each engine type aligned to
    windows of that duration, and at most one of them covers any time. *)
Theorem CreateShardGroup_tiles d dbn rpn ts tier et v d' e db rp et' :
  CreateShardGroup d dbn rpn ts tier et v = Ok (d', e) → RetentionPolicy d dbn rpn = inr (db, rp) →
  0 < rp_ShardGroupDuration rp → ts ≤ MaxNanoTime → tiled et' rp →
  ∃ db' rp', RetentionPolicy d' dbn rpn = inr (db', rp') ∧ rp_ShardGroupDuration rp' = rp_ShardGroupDuration rp ∧
             tiled et' rp' ∧ ∀ t, (length (covering et' t rp') <= 1)%nat.
Proof.
  intros Hc Hrp Hd Hts Ht.
  destruct (CreateShardGroup_cases _ _ _ _ _ _ _ _ _ Hc) as [[-> _]|[(-> & _)|(_ & _ & db0 & rp0 & m & d1 & igs & igi & shards & ms & Hcr)]].
  1,2: exists db, rp; do 3 (split; [done|]); intros t; by apply tiled_one.
  pose proof (cr_rp _ _ _ _ _ _ _ _ _ _ _ _ _ _ _ _ Hcr) as Hrp0. rewrite Hrp in Hrp0. injection Hrp0 as <- <-.
  destruct (created_lookup _ _ _ _ _ _ _ _ _ _ _ _ _ _ _ _ Hcr) as (_ & db' & rp' & Hrp' & Hsg & _ & Hdur & _).
  exists db', rp'. split; [done|]. split; [done|].
  assert (Ht' : tiled et' rp') by (eapply tiled_add; [exact Hd|exact Hts|eapply cr_none, Hcr|exact Hsg|exact Hdur|exact Ht]).
  split; [done|]. intros t. apply tiled_one; [by rewrite Hdur|done].
Qed.

(** *** Where the shards live *)

Lemma own_seq igi n i a k owners ix :
  (a + k = n)%nat → (i < n)%nat →
  own igi n i (seq a k) owners ix =
    if decide (a <= i)%nat then let! id := index_id igi i in Ok (owners ++ [u32 (Z.of_nat i)], id) else Ok (owners, ix).
Proof.
  revert a owners ix. induction k as [|k IH]; intros a owners ix Hn Hi; cbn [seq own].
  { rewrite decide_False by lia. done. }
  rewrite Nat.mod_small by lia. destruct (Nat.eqb_spec a i) as [->|Hne].
  - rewrite decide_True by lia. destruct (index_id igi i) as [id| | |]; try done. rs. rewrite IH by lia. by rewrite decide_False by lia.
  - rewrite IH by lia. destruct (decide (a <= i)%nat), (decide (S a <= i)%nat); try done; lia.
Qed.

Lemma create_shards_hash igi n tier maxID i k :
  Z.of_nat n < 2 ^ 32 → (i + k = n)%nat → (n <= length (ig_Indexes igi))%nat →
  ∃ l, create_shards igi n None tier maxID i k = Ok l ∧ length l = k ∧
       ∀ j s, l !! j = Some s → si_Owners s = [Z.of_nat (i + j)] ∧ si_Tier s = tier ∧ si_MarkDelete s = false ∧
                                ∃ ii, ig_Indexes igi !! (i + j)%nat = Some ii ∧ si_IndexID s = ii_ID ii.
Proof.
  intros Hn. revert maxID i. induction k as [|k IH]; intros maxID i Hi Hlen; cbn [create_shards].
  { exists []. split; [done|]. by split. }
  rewrite own_seq by lia. rewrite decide_True by lia. unfold index_id.
  destruct (lookup_lt_is_Some_2 (ig_Indexes igi) i) as [ii Hii]; [lia|]. rewrite Hii. rs.
  destruct (IH (u64 (maxID + 1)) (S i)) as (l & -> & Hl & Hall); [lia|done|]. rs. eexists. split; [done|]. split; [cbn; lia|].
  intros [|j] s; cbn [lookup list_lookup].
  - intros [= <-]. cbn. rewrite Nat.add_0_r. split; [|eauto].
    f_equal. apply (wrap_u_id 32). unfold in_u. lia.
  - intros Hs. rewrite Nat.add_succ_r. by apply Hall.
Qed.

(** C30: For hash sharding, a positive index duration, a time that is not beyond MaxNanoTime
    and below 2^32 partitions, a new group has one shard per partition: shard i is owned by
    partition i alone and refers to the index of partition i in the index group, which contains
    the timestamp; creating the shards does not panic. *)
Theorem createShards_placement d rp m sgi ts et tier k ks d1 rp1 igi :
  ms_ShardKeys m = k :: ks → sk_Type k = "hash" → Z.of_nat (ClusterPtNum d) < 2 ^ 32 →
  0 < rp_IndexGroupDuration rp → ts ≤ MaxNanoTime →
  createIndexGroupIfNeeded d rp ts et (ClusterPtNum d) = (d1, rp1, igi) →
  ig_Contains igi ts = true ∧
  ∃ d2 sgi', createShards d1 sgi igi rp1 m tier = Ok (d2, sgi') ∧ length (sg_Shards sgi') = ClusterPtNum d ∧
    ∀ i s, sg_Shards sgi' !! i = Some s →
      si_Owners s = [Z.of_nat i] ∧ ∃ ii, ig_Indexes igi !! i = Some ii ∧ si_IndexID s = ii_ID ii.
Proof.
  intros Hk Hh Hn Hd Hts [Erp Hig]%createIndexGroupIfNeeded_spec. split.
  { destruct Hig as [g _ _ Hc _|g]; [done|]. pose proof (Truncate_window ts _ Hd). unfold ig_Contains, clip_end. cbn.
    rewrite andb_true_iff, negb_true_iff, Z.ltb_ge, Z.ltb_lt. unfold clip_end. case_match; lia. }
  assert (Hpt : ClusterPtNum d1 = ClusterPtNum d) by (by destruct Hig).
  assert (Hlen : (ClusterPtNum d <= length (ig_Indexes igi))%nat).
  { destruct Hig as [g _ _ _ Hl|g]; [done|]. cbn. unfold new_indexes. rewrite length_fmap, length_seq. done. }
  unfold createShards. rewrite Hk, Hh, Hpt. cbv zeta. rewrite bool_decide_false by done. cbn iota.
  destruct (create_shards_hash igi (ClusterPtNum d) tier (MaxShardID d1) 0 (ClusterPtNum d) Hn) as (l & -> & Hl & Hall); [done|done|].
  rs. do 2 eexists. split; [done|]. cbn. split; [done|]. intros i s Hs. destruct (Hall i s Hs) as (? & _ & _ & ?). done.
Qed.

(** ** Shard keys *)

Lemma fold_max_le l z g : sg_ID g ≤ z ∨ g ∈ l → sg_ID g ≤ foldl (λ m g, if m <? sg_ID g then sg_ID g else m) z l.
Proof.
  revert z. induction l as [|x l IH]; intros z Hg; cbn [foldl]; [destruct Hg as [|[]%not_elem_of_nil]; done|].
  apply IH. rewrite elem_of_cons in Hg. destruct Hg as [Hz|[-> |Hl]]; [left|left|by right]; case_match; lia.
Qed.

Lemma maxShardGroupID_le rp g : g ∈ rp_ShardGroups rp → sg_ID g ≤ maxShardGroupID rp.
Proof. intros Hg. unfold maxShardGroupID. destruct (rp_ShardGroups rp) eqn:El; [by apply not_elem_of_nil in Hg|]. rewrite <- El in *. apply fold_max_le. by right. Qed.

Lemma GetShardKey_snoc m keys k b ID : GetShardKey (set_keys m (keys ++ [k]) b) ID = if sk_ShardGroup k <=? ID then Some k else get_key ID (reverse keys).
Proof. unfold GetShardKey. cbn [ms_ShardKeys set_keys]. by rewrite reverse_snoc. Qed.

(** The keys of an altered measurement: those for groups up to [n] stay, later groups get the new one. *)
Lemma altered_keys m k k' keys n b :
  ms_ShardKeys m = keys ++ [k] → n < sk_ShardGroup k' →
  (∀ ID, ID ≤ n → GetShardKey (set_keys m ((keys ++ [k]) ++ [k']) b) ID = GetShardKey m ID) ∧
  (∀ ID, sk_ShardGroup k' ≤ ID → GetShardKey (set_keys m ((keys ++ [k]) ++ [k']) b) ID = Some k') ∧
  (∀ ID, ID ≤ n → ID < sk_ShardGroup k → GetShardKey (set_keys m (keys ++ [k']) b) ID = GetShardKey m ID) ∧
  (∀ ID, sk_ShardGroup k' ≤ ID → GetShardKey (set_keys m (keys ++ [k']) b) ID = Some k').
Proof.
  intros Hm Hn. assert (Em : ∀ ID, GetShardKey m ID = if sk_ShardGroup k <=? ID then Some k else get_key ID (reverse keys)).
  { intros ID. unfold GetShardKey. by rewrite Hm, reverse_snoc. }
  repeat split; intros ID; [intros H1|intros H1|intros H1 H2|intros H1]; rewrite GetShardKey_snoc, ?Em.
  - destruct (Z.leb_spec (sk_ShardGroup k') ID); [lia|]. by rewrite reverse_snoc.
  - destruct (Z.leb_spec (sk_ShardGroup k') ID); [done|lia].
  - destruct (Z.leb_spec (sk_ShardGroup k') ID); [lia|]. destruct (Z.leb_spec (sk_ShardGroup k) ID); [lia|done].
  - destruct (Z.leb_spec (sk_ShardGroup k') ID); [done|lia].
Qed.

(** C28: In a state reached by the commands of [command] (without ExpandGroups), altering the
    shard key of a measurement never changes the key under which an existing shard group of the
    policy was written, and every group created later uses the new key, unless the command had
    nothing to change. *)
Theorem AlterShardKey_history d dbn rpn mst ski d' db rp m :
  reachable d → roomy d → RetentionPolicy d dbn rpn = inr (db, rp) → rp_Measurement rp mst = Some m →
  AlterShardKey d dbn rpn mst (Some ski) = Ok (d', None) →
  ∃ db' rp' m', RetentionPolicy d' dbn rpn = inr (db', rp') ∧ rp_Measurement rp' mst = Some m' ∧
    rp_ShardGroups rp' = rp_ShardGroups rp ∧
    (∀ g, g ∈ rp_ShardGroups rp → GetShardKey m' (sg_ID g) = GetShardKey m (sg_ID g)) ∧
    (d' = d ∨ ∀ ID, MaxShardGroupID d < ID → ∃ k, GetShardKey m' ID = Some k ∧ sk_ShardKey k = sk_ShardKey ski ∧ sk_Type k = sk_Type ski).
Proof.
  intros Hinv%reachable_Inv Hroom Hrp Hm. unfold AlterShardKey, done_, fail_. rewrite Hrp, Hm. destruct (ms_MarkDeleted m); [done|].
  destruct (last (ms_ShardKeys m)) as [k|] eqn:El; [|done]. cbv zeta. change (default no_shard_key (Some ski)) with ski.
  case_match; [done|]. destruct (EqualsToAnother ski k).
  { intros [= <-]. exists db, rp, m. repeat split; try done. by left. }
  case_match; [done|]. apply last_Some in El as (keys & El).
  pose proof (RetentionPolicy_at _ _ _ _ _ Hrp) as (_ & _ & Hat). pose proof (inv_pos _ Hinv) as Hpos. unfold roomy in Hroom.
  pose proof (u64_succ (MaxShardGroupID d) 1 ltac:(lia) ltac:(lia)) as E1. change (Z.of_nat 1) with 1 in E1. rewrite E1.
  set (k' := mk_ShardKeyInfo _ _ _). rewrite El.
  assert (Hids : ∀ g, g ∈ rp_ShardGroups rp → sg_ID g ≤ MaxShardGroupID d).
  { intros g Hg. destruct (un_rp _ _ _ (inv_sg _ Hinv) _ _ Hat) as [_ Hall]. rewrite Forall_forall in Hall. apply (Hall (sg_ID g)).
    apply list_elem_of_bind. exists g. split; [by left|done]. }
  set (over := (_ =? 0)%nat || _). unfold rp_Measurement in Hm. unfold put_mst. destruct (rp_MstVersions rp !! mst) as [v|] eqn:Ev; [|done].
  set (m' := set_keys _ _ _). intros [= <-].
  destruct (RetentionPolicy_put d d dbn db rpn rp (set_measurements rp (<[mv_NameWithVersion v := m']> (rp_Measurements rp)) (rp_MstVersions rp)))
    as (db' & Hput & _); [done|done|done|]. exists db'. do 2 eexists. split; [exact Hput|].
  split; [unfold rp_Measurement; cbn; rewrite Ev; apply lookup_insert_eq|]. split; [done|].
  destruct (altered_keys m k k' keys (MaxShardGroupID d) false El) as (Ha1 & Ha2 & Ho1 & Ho2); [cbn; lia|].
  subst m'. destruct over eqn:Eo.
  - rewrite length_app, Nat.add_sub. cbn [length]. replace (<[length keys := k']> (keys ++ [k])) with (keys ++ [k'])
      by (rewrite insert_app_r_alt, Nat.sub_diag by lia; done).
    split; [|right; intros ID HID; exists k'; split; [apply Ho2; cbn; lia|done]].
    intros g Hg. apply Ho1; [by apply Hids|]. apply orb_true_iff in Eo as [Eo|Eo].
    + apply Nat.eqb_eq, length_zero_iff_nil in Eo. rewrite Eo in Hg. by apply not_elem_of_nil in Hg.
    + pose proof (maxShardGroupID_le rp g Hg). lia.
  - split; [|right; intros ID HID; exists k'; split; [apply Ha2; cbn; lia|done]]. intros g Hg. by apply Ha1, Hids.
Qed.

(** ** Durations *)

(** The least positive multiple of [n] that is not below [x]. *)
Definition round_up (x n : Z) : Z := Z.max 1 ((x + n - 1) / n) * n.

Lemma round_up_spec x n : 0 < n → (n | round_up x n) ∧ n ≤ round_up x n ∧ x ≤ round_up x n.
Proof.
  intros Hn. unfold round_up. pose proof (Z.div_mod (x + n - 1) n ltac:(lia)). pose proof (Z.mod_pos_bound (x + n - 1) n Hn).
  split; [by eexists|]. nia.
Qed.

(** The code rounds the index duration up in 64 bits. *)
Lemma normalisedIndexDuration_spec igd sgd : 0 < sgd → in_s 64 sgd → in_s 64 igd →
  normalisedIndexDuration igd sgd = Ok (i64 (round_up igd sgd)).
Proof.
  intros Hs Hrs Hri. unfold normalisedIndexDuration, round_up. destruct (Z.ltb_spec igd sgd).
  { rewrite Z.max_l by (apply Z.lt_succ_r, Z.div_lt_upper_bound; lia). by rewrite Z.mul_1_l, (wrap_s_id 64). }
  destruct (Z.eqb_spec sgd 0); [lia|]. rewrite Z.rem_mod_nonneg, Z.quot_div_nonneg by lia.
  pose proof (Z.div_mod igd sgd ltac:(lia)) as Hdm. pose proof (Z.mod_pos_bound igd sgd Hs) as Hm.
  assert (Hq : 1 ≤ igd / sgd) by (apply Z.div_le_lower_bound; lia). destruct (Z.eqb_spec (igd mod sgd) 0) as [H0|H0].
  - assert ((igd + sgd - 1) / sgd = igd / sgd) as -> by (symmetry; apply (Z.div_unique _ _ _ (sgd - 1)); lia).
    rewrite Z.max_r by done. replace (igd / sgd * sgd) with igd by lia. by rewrite (wrap_s_id 64).
  - assert ((igd + sgd - 1) / sgd = igd / sgd + 1) as -> by (symmetry; apply (Z.div_unique _ _ _ (igd mod sgd - 1)); lia).
    by rewrite Z.max_r by lia.
Qed.

(** C31: Whatever int64 durations a command carries, the check of a policy returns.  A policy it
    accepts has a shard duration of at least an hour, hot and warm durations that are multiples
    of it, and a duration that is unlimited or at least the shard, hot and warm durations.  Its
    index duration is the given one rounded up to a multiple of the shard duration and cut to
    64 bits: if the multiple fits in an int64, the index duration is that multiple, at least the
    shard duration and at least the given one; if it does not fit, the sum wraps around and
    nothing is promised of the index duration ([index_duration_wraps] is such a policy). *)
Theorem CheckSpecValid_bounds rp :
  in_s 64 (rp_IndexGroupDuration rp) → in_s 64 (rp_ShardGroupDuration rp) → ∃ rp' e, CheckSpecValid rp = Ok (rp', e) ∧
  (e = None → let sgd := rp_ShardGroupDuration rp' in let up := round_up (rp_IndexGroupDuration rp) sgd in
     Hour ≤ sgd ∧ (sgd | rp_HotDuration rp') ∧ (sgd | rp_WarmDuration rp') ∧
     (rp_Duration rp' = 0 ∨ (Z.max Hour sgd ≤ rp_Duration rp' ∧ rp_HotDuration rp' ≤ rp_Duration rp' ∧ rp_WarmDuration rp' ≤ rp_Duration rp')) ∧
     rp_IndexGroupDuration rp' = i64 up ∧
     (up < 2 ^ 63 → (sgd | rp_IndexGroupDuration rp') ∧ sgd ≤ rp_IndexGroupDuration rp' ∧ rp_IndexGroupDuration rp ≤ rp_IndexGroupDuration rp')).
Proof.
  intros Hi Hs. unfold CheckSpecValid. cbv zeta. set (sgd := normalisedShardDuration _ _).
  assert (Hsgd : Hour ≤ sgd < 2 ^ 63).
  { unfold in_s in Hs. unfold sgd, normalisedShardDuration, shardGroupDuration, MinRetentionPolicyDuration, Hour. repeat case_match; lia. }
  clearbody sgd. assert (Hup : round_up (rp_IndexGroupDuration rp) sgd < 2 ^ 63 → let igd := i64 (round_up (rp_IndexGroupDuration rp) sgd) in
    (sgd | igd) ∧ sgd ≤ igd ∧ rp_IndexGroupDuration rp ≤ igd).
  { intros Hlt. unfold Hour in *. destruct (round_up_spec (rp_IndexGroupDuration rp) sgd) as (Hd & Hg & Hx); [lia|].
    cbv zeta. rewrite (wrap_s_id 64) by (unfold in_s; lia). done. }
  rewrite normalisedIndexDuration_spec; [|unfold Hour in *; lia|unfold in_s, Hour in *; lia|done].
  rs. cbn. unfold Hour in *. destruct (Z.eqb_spec sgd 0); [lia|].
  destruct (negb _ || negb _) eqn:Erem; [by do 2 eexists|]. rewrite orb_false_iff, !negb_false_iff, !Z.eqb_eq in Erem. destruct Erem as [Eh Ew].
  assert (Hrem : ∀ x, Z.rem x sgd = 0 → (sgd | x)) by (intros x Hx; apply Z.rem_divide; [lia|done]).
  destruct (checkGeqThanMinDuration _) eqn:E1; [by do 2 eexists|]. destruct (checkGeqThanShardGroupDuration _) eqn:E2; [by do 2 eexists|].
  do 2 eexists. split; [done|]. cbn. intros E3. split; [lia|]. do 2 (split; [by apply Hrem|]). split; [|by split].
  unfold checkGeqThanMinDuration, checkGeqThanShardGroupDuration, checkLeqThanDuration, MinRetentionPolicyDuration, Hour in *. cbn in *.
  destruct (Z.eq_dec (rp_Duration rp) 0); [by left|right]. repeat case_match; try done. lia.
Qed.

(** ** Names of measurements *)

Lemma hex_digit_inj a b : (a < 16)%nat → (b < 16)%nat → hex_digit a = hex_digit b → a = b.
Proof. intros Ha Hb. do 16 (destruct a as [|a]; [do 16 (destruct b as [|b]; [vm_compute; congruence|]); lia|]). lia. Qed.

(** A measurement's name is recovered from its versioned name, and different names or 16 bit versions give different versioned names. *)
Theorem measurement_names :
  (∀ name version, GetOriginMstName (GetNameWithVersion name version) = name) ∧
  ∀ n1 v1 n2 v2, 0 ≤ v1 < 2 ^ 16 → 0 ≤ v2 < 2 ^ 16 → GetNameWithVersion n1 v1 = GetNameWithVersion n2 v2 → n1 = n2 ∧ v1 = v2.
Proof.
  split.
  - intros name version. unfold GetOriginMstName, GetNameWithVersion. cbv zeta. rewrite string_length_app. cbn [String.length].
    destruct (Nat.ltb_spec (String.length name + 5) 5); [lia|]. rewrite Nat.add_sub. apply substring_app.
  - intros n1 v1 n2 v2 H1 H2. unfold GetNameWithVersion. cbv zeta. intros Heq.
    assert (Hl : String.length n1 = String.length n2) by (apply (f_equal String.length) in Heq; rewrite !string_length_app in Heq; cbn [String.length] in Heq; lia).
    apply string_app_inj in Heq as [-> Heq]; [|done]. split; [done|]. injection Heq as E3 E2 E1 E0.
    assert (Hd : ∀ i, hex_digit (Z.to_nat (Z.land (v1 ≫ i) 15)) = hex_digit (Z.to_nat (Z.land (v2 ≫ i) 15)) → (v1 ≫ i) mod 16 = (v2 ≫ i) mod 16).
    { intros i Hh. change 15 with (Z.ones 4) in Hh. rewrite !Z.land_ones in Hh by lia. change (2 ^ 4) with 16 in Hh.
      pose proof (Z.mod_pos_bound (v1 ≫ i) 16). pose proof (Z.mod_pos_bound (v2 ≫ i) 16). apply hex_digit_inj in Hh; lia. }
    apply Hd in E0, E1, E2, E3. rewrite !Z.shiftr_div_pow2 in * by lia. change (2 ^ 0) with 1 in *. change (2 ^ 4) with 16 in *.
    change (2 ^ 8) with 256 in *. change (2 ^ 12) with 4096 in *. change (2 ^ 16) with 65536 in *. clear Hd Hl. Z.to_euclidean_division_equations. lia.
Qed.

(** ** Errors *)

Definition writes_schema (c : command) : bool :=
  match c with cmd_UpdateSchema _ _ _ _ | cmd_CreateMeasurement _ _ _ _ _ _ _ _ => true | _ => false end.

(** Case analysis on the conditions of a command that ends in [done_] or [fail_]. *)
Ltac branches := repeat (case_match; try (by intros [= ? ?]; congruence)); try (by intros [= ? ?]; congruence).
Lemma exec_error d c d' e : exec d c = Ok (d', Some e) → writes_schema c = false → d' = d.
Proof.
  destruct c; cbn [exec writes_schema]; try done; intros Hx _; revert Hx.
  - unfold CreateDatabase, done_, fail_. destruct (CheckCanCreateDatabase _ _); [branches|].
    destruct rpi; [destruct (CheckCanCreateRetentionPolicy _ _ _) as [[? []]| | |]|]; rs; branches.
  - unfold MarkDatabaseDelete, done_, fail_. branches.
  - unfold CreateRetentionPolicy, done_, fail_. destruct (GetDatabase _ _); [branches|].
    destruct (CheckCanCreateRetentionPolicy _ _ _) as [[? []]| | |]; rs; branches.
  - unfold DropRetentionPolicy, done_, fail_. branches.
  - unfold MarkRetentionPolicyDelete, done_, fail_. branches.
  - unfold SetDefaultRetentionPolicy, done_, fail_. branches.
  - unfold UpdateRetentionPolicy, done_, fail_. destruct (RetentionPolicy _ _ _) as [|[]]; [branches|]. cbv zeta.
    do 2 (match goal with |- context [if ?b then Ok (d, Some _) else _] => destruct b end; [branches|]).
    destruct (CheckSpecValid _) as [[? []]| | |]; rs; branches.
  - unfold MarkMeasurementDelete, done_, fail_. branches.
  - unfold DropMeasurement, done_, fail_. branches.
  - unfold AlterShardKey, done_, fail_. cbv zeta. branches.
  - intros [[-> _]|[(-> & _)|(? & _)]]%CreateShardGroup_cases; done.
  - unfold DeleteShardGroup, done_, fail_. branches.
  - unfold DeleteIndexGroup, done_, fail_. branches.
  - unfold PruneGroups, done_. destruct (traverse _ _); rs; branches.
  - unfold ReSharding, done_, fail_. destruct (RetentionPolicy _ _ _) as [|[? rp]]; [branches|].
    destruct (last _); [|branches]. destruct (negb _); [branches|]. cbv zeta.
    destruct (createIndexGroup _ _ _) as [[]| | |]; rs; [|branches..]. destruct (CreateShardGroupWithBounds _ _ _ _ _) as [[]| | |]; rs; branches.
  - unfold UpdateShardInfoTier, done_, fail_. branches.
Qed.

End Props.
