(* ===== verification/MetaRuns.v ===== *)
(** * meta: runs of the state machine

    A cluster with two partitions and a policy with two shard groups: the witnesses of the
    properties, and runs that show what the commands do in less common situations. *)

From stdpp Require Import gmap sorting.
From Stdlib Require String.
From S2P Require Import Prelude GoSort GoSlice Meta MetaLaws MetaInv MetaCmd MetaGroups MetaProps.

#[local] Existing Instance meta_env.

(** The state after a command; the state itself when it panics. *)
Definition after (d : Data) (c : command) : Data := match exec d c with Ok (d', _) => d' | _ => d end.

Definition hash_key : ShardKeyInfo := mk_ShardKeyInfo ["host"] "hash" 0.
Definition autogen : RetentionPolicyInfo := mk_RetentionPolicyInfo "autogen" 1 0 0 0 0 0 [] ∅ ∅ [] false false.

Definition c_db : command := cmd_CreateDatabase "db" (Some autogen) None false 1.
Definition c_mst : command := cmd_CreateMeasurement "db" "autogen" "cpu" (Some hash_key) 0 0 false [].
Definition week : Z := 7 * 24 * Hour.
Definition c_sg (t : Z) : command := cmd_CreateShardGroup "db" "autogen" t 1 0 0.

Definition s0 : Data := empty_Data 2 0.
Definition s1 : Data := after s0 c_db.
Definition s2 : Data := after s1 c_mst.
Definition s3 : Data := after s2 (c_sg 0).
Definition s4 : Data := after s3 (c_sg (8 * 24 * Hour)).

Lemma reach_after d c e : reachable d → roomy d → cmd_ok c → exec d c = Ok (after d c, e) → reachable (after d c).
Proof. intros. by eapply reach_step. Qed.

Ltac step := eapply reach_after; [|vm_compute; repeat split; lia|vm_compute; by repeat split|vm_compute; reflexivity].
Lemma s4_reachable : reachable s4.
Proof. unfold s4, s3, s2, s1, s0. do 4 step. apply reach_init. Qed.

Lemma reachable_ids_unique_witness : ∃ rp, rp_at s4 ("db", "autogen") = Some rp ∧ shard_ids rp = [1; 2; 3; 4] ∧
  unique shard_ids s4 (MaxShardID s4).
Proof.
  eexists. split; [vm_compute; reflexivity|]. split; [vm_compute; reflexivity|].
  exact (proj1 (proj2 (reachable_ids_unique s4 s4_reachable))).
Defined.

Lemma PruneGroups_exact_witness : ∃ d', PruneGroups s4 true 3 = Ok (d', None) ∧ view d' ("db", "autogen") = pruned true 3 <$> view s4 ("db", "autogen").
Proof. destruct (PruneGroups_exact s4 true 3 (or_introl s4_reachable)) as (d' & Hp & Hv). exists d'. split; [exact Hp|apply Hv]. Defined.

Lemma CreateShardGroup_serves_witness :
  CreateShardGroup s3 "db" "autogen" 0 2 0 0 = Ok (s3, None).
Proof.
  apply (CreateShardGroup_serves s2 "db" "autogen" 0 1 0 0 s3).
  - intros db rp. vm_compute. intros [= <- <-]. reflexivity.
  - vm_compute. discriminate.
  - vm_compute. reflexivity.
Defined.

Definition policy_of (d : Data) : DatabaseInfo * RetentionPolicyInfo :=
  match RetentionPolicy d "db" "autogen" with inr x => x | inl _ => (mk_DatabaseInfo "" "" ∅ false no_shard_key false 0, no_policy) end.

Lemma CreateShardGroup_tiles_witness : ∃ db' rp', RetentionPolicy s4 "db" "autogen" = inr (db', rp') ∧ length (rp_ShardGroups rp') = 2%nat ∧
  ∀ t, (length (covering 0 t rp') <= 1)%nat.
Proof.
  destruct (CreateShardGroup_tiles s3 "db" "autogen" (8 * 24 * Hour) 1 0 0 s4 None (policy_of s3).1 (policy_of s3).2 0)
    as (db' & rp' & Hrp & _ & _ & Ht).
  - vm_compute. reflexivity.
  - vm_compute. reflexivity.
  - vm_compute. reflexivity.
  - vm_compute. discriminate.
  - split.
    + intros g Hg _. vm_compute in Hg. apply list_elem_of_singleton in Hg as ->. vm_compute. by repeat split.
    + vm_compute. repeat constructor. by intros ?%not_elem_of_nil.
  - exists db', rp'. split; [exact Hrp|]. split; [|exact Ht]. vm_compute in Hrp. injection Hrp as <- <-. vm_compute. reflexivity.
Defined.

Definition cpu : MeasurementInfo := mk_MeasurementInfo "cpu_0000" "cpu" [hash_key] None 0 ∅ false 0 0.

Lemma createShards_placement_witness :
  let '(d1, rp1, igi) := createIndexGroupIfNeeded s2 (policy_of s2).2 0 0 2 in
  ∃ d2 sgi', createShards d1 (new_sg s2 rp1 0 0 0 []) igi rp1 cpu 1 = Ok (d2, sgi') ∧ length (sg_Shards sgi') = 2%nat.
Proof.
  destruct (createIndexGroupIfNeeded s2 (policy_of s2).2 0 0 2) as [[d1 rp1] igi] eqn:Ei.
  destruct (createShards_placement s2 (policy_of s2).2 cpu (new_sg s2 rp1 0 0 0 []) 0 0 1 hash_key [] d1 rp1 igi)
    as (_ & d2 & sgi' & Hc & Hl & _); try reflexivity.
  - vm_compute. discriminate.
  - exact Ei.
  - exists d2, sgi'. split; [exact Hc|]. exact Hl.
Defined.

Lemma CheckSpecValid_bounds_witness : ∃ rp' e, CheckSpecValid autogen = Ok (rp', e) ∧ e = None ∧ Hour ≤ rp_ShardGroupDuration rp'.
Proof.
  destruct (CheckSpecValid_bounds autogen) as (rp' & e & Hc & Hb); [split; vm_compute; congruence|split; vm_compute; congruence|]. exists rp', e.
  assert (He : e = None) by (vm_compute in Hc; by injection Hc as _ <-). split; [exact Hc|]. split; [exact He|]. apply Hb, He.
Defined.

(** An index duration next to the largest int64: the multiple above it wraps around, and the policy
    is accepted with a negative index duration that is no multiple of an hour. *)
Example index_duration_wraps :
  ∃ rp', CheckSpecValid (set_durations autogen "autogen" 0 Hour 0 0 (2 ^ 63 - 1)) = Ok (rp', None) ∧
    rp_ShardGroupDuration rp' = Hour ∧ rp_IndexGroupDuration rp' < 0 ∧ rp_IndexGroupDuration rp' mod Hour ≠ 0.
Proof. eexists. split; [vm_compute; reflexivity|]. vm_compute. done. Qed.


Definition region_key : ShardKeyInfo := mk_ShardKeyInfo ["region"] "hash" 0.
Definition c_alter : command := cmd_AlterShardKey "db" "autogen" "cpu" (Some region_key).
Definition s5 : Data := after s4 c_alter.

Lemma AlterShardKey_history_witness : ∃ db' rp' m', RetentionPolicy s5 "db" "autogen" = inr (db', rp') ∧ rp_Measurement rp' "cpu" = Some m' ∧
  GetShardKey m' 1 = Some (mk_ShardKeyInfo ["host"] "hash" 1) ∧ GetShardKey m' 3 = Some (mk_ShardKeyInfo ["region"] "hash" 3).
Proof.
  destruct (AlterShardKey_history s4 "db" "autogen" "cpu" region_key s5 (policy_of s4).1 (policy_of s4).2
              (default cpu (rp_Measurement (policy_of s4).2 "cpu"))) as (db' & rp' & m' & Hrp & Hm & _).
  - exact s4_reachable.
  - vm_compute. repeat split; lia.
  - vm_compute. reflexivity.
  - vm_compute. reflexivity.
  - vm_compute. reflexivity.
  - exists db', rp', m'. split; [exact Hrp|]. split; [exact Hm|]. vm_compute in Hrp. injection Hrp as <- <-.
    vm_compute in Hm. injection Hm as <-. vm_compute. done.
Defined.

(** ** Less common situations *)

(** The state after more partitions joined a cluster of one and the groups were expanded. *)
Definition one_pt : Data := after (after (after (after (empty_Data 1 0) c_db) c_mst) (c_sg 0)) (c_sg (8 * 24 * Hour)).
Definition more_pts (d : Data) (n : nat) : Data :=
  mk_Data n (NumOfShards d) (Databases d) (Streams d) (PtNums d) (MigrateEvents d) (Privileges d)
    (MaxShardGroupID d) (MaxShardID d) (MaxMstID d) (MaxIndexGroupID d) (MaxIndexID d).
Definition expanded : Data := match ExpandGroups (more_pts one_pt 2) with Ok d => d | _ => one_pt end.

Definition marked (d : Data) : list Z :=
  ((rp_ShardGroups (policy_of d).2 ≫= sg_Shards) ≫= λ s, if si_MarkDelete s then [si_ID s] else []).

(** After ExpandGroups the ids of the groups interleave, and pruning shard 3 marks shard 4 of the other group too. *)
Theorem prune_after_expand :
  shard_ids (policy_of expanded).2 = [1; 3; 2; 4] ∧ marked (after expanded (cmd_PruneGroups true 3)) = [3; 4].
Proof. vm_compute. done. Qed.

Lemma only_policy d dbn rpn rp0 k rp :
  rp_at d (dbn, rpn) = Some rp0 → delete dbn (Databases d) = ∅ → delete rpn (default ∅ (db_RetentionPolicies <$> Databases d !! dbn)) = ∅ →
  rp_at d k = Some rp → rp = rp0.
Proof.
  destruct k as [n1 n2]. unfold rp_at. cbn [fst snd]. intros H0 Hd Hr H. destruct (decide (n1 = dbn)) as [->|Hne].
  - destruct (decide (n2 = rpn)) as [->|Hne]; [congruence|]. apply (f_equal (.!! n2)) in Hr. rewrite lookup_delete_ne, lookup_empty in Hr by done.
    destruct (Databases d !! dbn); cbn in *; congruence.
  - apply (f_equal (.!! n1)) in Hd. rewrite lookup_delete_ne, lookup_empty in Hd by done. by rewrite Hd in H.
Qed.

Lemma placed_pair (a b : Z) id g :
  si_ID <$> sg_Shards g = [a; b] → a < b → id = a ∨ id = b ∨ id < a ∨ b < id → placed si_ID id (sg_Shards g).
Proof.
  intros Hg Hab Hid. destruct (sg_Shards g) as [|x [|y [|z l]]]; try done. injection Hg as Hx Hy. split; [done|]. split.
  - intros [|[|i]] [|[|j]] v w Hij; cbn; try done; try lia. intros [= <-] [= <-]. lia.
  - cbn. rewrite Hx, Hy, !elem_of_cons. destruct Hid as [->|[->|[Hid|Hid]]]; auto; right; [left|right];
      intros v [->|[->|[]%not_elem_of_nil]%elem_of_cons]%elem_of_cons; lia.
Qed.

(** The ids 1 and 4 of that state are not between those of another group. *)
Lemma expanded_prunable id : id = 1 ∨ id = 4 → prunable true id expanded.
Proof.
  intros Hid k rp Hrp. apply (only_policy _ "db" "autogen" (policy_of expanded).2) in Hrp; [|vm_compute; reflexivity..]. subst rp.
  assert (Hids : (λ g, si_ID <$> sg_Shards g) <$> rp_ShardGroups (policy_of expanded).2 = [[1; 3]; [2; 4]]) by (vm_compute; reflexivity).
  cbn [rp_prunable]. generalize dependent (rp_ShardGroups (policy_of expanded).2). intros gs Hids g Hg.
  apply (list_elem_of_fmap_2 (λ g, si_ID <$> sg_Shards g)) in Hg. rewrite Hids, !elem_of_cons in Hg.
  destruct Hg as [Hg|[Hg|[]%not_elem_of_nil]]; (eapply placed_pair; [exact Hg|lia|lia]).
Qed.

(** A renamed policy stays under its old key: neither the new name nor, when it was made the default, the empty name finds it. *)
Theorem rename_keeps_key :
  let d := after s4 (cmd_UpdateRetentionPolicy "db" "autogen" (mk_RetentionPolicyUpdate (Some "rp2") None None None None None) true) in
  RetentionPolicy d "db" "rp2" = inl "ErrRetentionPolicyNotFound" ∧ RetentionPolicy d "db" "" = inl "ErrRetentionPolicyNotFound" ∧
  ∃ x, RetentionPolicy d "db" "autogen" = inr x ∧ rp_Name x.2 = "rp2".
Proof. vm_compute. split; [done|]. split; [done|]. eexists. split; [reflexivity|done]. Qed.

(** A measurement created without a shard key makes CreateShardGroup panic. *)
Theorem no_shard_key_panics :
  exec (after s1 (cmd_CreateMeasurement "db" "autogen" "cpu" None 0 0 false [])) (c_sg 0) = Panic.
Proof. vm_compute. reflexivity. Qed.

(** A conflicting field in the schema of a new measurement is reported, but the measurement has been created. *)
Theorem CreateMeasurement_partial :
  let c := cmd_CreateMeasurement "db" "autogen" "cpu" (Some hash_key) 0 0 false [mk_FieldSchema "f" 1 0; mk_FieldSchema "f" 2 0] in
  exec s1 c = Ok (after s1 c, Some "ErrFieldTypeConflict") ∧ is_Some (rp_Measurement (policy_of (after s1 c)).2 "cpu").
Proof. vm_compute. split; [reflexivity|eauto]. Qed.
