(* ===== verification/Routing.v ===== *)
(** * Routing of rows and queries to the shards of a group

    coordinator/points_writer.go sends a row to one shard of its shard group, by the hash or
    the range of its shard key; TargetShards (meta/shardinfo.go) selects the shards a query
    with a condition has to visit.  The two must agree: a query that a row satisfies visits
    the shard the row was written to. *)

From stdpp Require Import gmap sorting.
From Stdlib Require String Ascii.
From S2P Require Import Prelude GoSort GoSlice Meta.

(** [HashID] is xxhash.Sum64; [ForceBroadcast] the system setting. *)
Class RouteEnv := { HashID : string → Z; ForceBroadcast : bool }.

(** Strings are compared by bytes. *)
Definition str_ltb (a b : string) : bool := String.ltb a b.
Definition str_leb (a b : string) : bool := negb (String.ltb b a).

(** ** Rows *)

Record Tag := mk_Tag { t_Key : string; t_Value : string }.
Record RowField := mk_RowField { f_Key : string; f_StrValue : string }.
Record IndexOption := mk_IndexOption { io_IndexList : list nat; io_Oid : Z }.

(** [Some m] for a row with ReadyBuildColumnToIndex, [m] its ColumnToIndex. *)
Record Row := mk_Row {
  r_Name : string; r_Tags : list Tag; r_Fields : list RowField; r_IndexOptions : list IndexOption;
  r_ColumnToIndex : option (gmap string nat)
}.

Definition key_part (k v : string) : string := (String.String (Ascii.ascii_of_nat 44) k +:+ String.String (Ascii.ascii_of_nat 61) v)%string.
Definition appendShardKey (key : string) (t : Tag) : string := key +:+ key_part (t_Key t) (t_Value t).
Definition appendShardKeyWithField (key : string) (f : RowField) : string := key +:+ key_part (f_Key f) (f_StrValue f).

Definition CheckDuplicateTag (r : Row) (j : nat) : bool :=
  match r_Tags r !! j, r_Tags r !! S j with Some a, Some b => bool_decide (t_Key a = t_Key b) | _, _ => false end.

Definition ErrPointShouldHaveAllShardKey : string := "point should have all shard key".

(** The field of an index relation with Oid 2 that has the wanted key. *)
Fixpoint list_field (r : Row) (key : string) (l : list nat) : res (option RowField) :=
  match l with
  | [] => Ok None
  | v :: l =>
      if (v <? length (r_Tags r))%nat then Panic
      else match r_Fields r !! (v - length (r_Tags r))%nat with
           | None => Panic
           | Some f => if decide (key = f_Key f) then Ok (Some f) else list_field r key l
           end
  end.
Fixpoint relation_field (r : Row) (key : string) (opts : list IndexOption) : res (option RowField) :=
  match opts with
  | [] => Ok None
  | o :: opts =>
      if io_Oid o =? 2 then
        let! f := list_field r key (io_IndexList o) in
        match f with Some f => Ok (Some f) | None => relation_field r key opts end
      else relation_field r key opts
  end.

(** The loop [searchTag]: the keys and the tag position that are left, and the key so far. *)
Fixpoint search_tag (fuel : nat) (r : Row) (keys : list string) (j : nat) (acc : string) : res (list string * nat * string) :=
  match fuel with
  | O => Diverge
  | S fuel =>
      match keys, r_Tags r !! j with
      | k :: keys', Some t =>
          if str_ltb k (t_Key t) then
            let! f := relation_field r k (r_IndexOptions r) in
            match f with
            | Some f => search_tag fuel r keys' j (appendShardKeyWithField acc f)
            | None => Err ErrPointShouldHaveAllShardKey
            end
          else if CheckDuplicateTag r j then Err "duplicate tag"
          else if decide (k = t_Key t) then search_tag fuel r keys' (S j) (appendShardKey acc t)
          else search_tag fuel r keys (S j) acc
      | _, _ => Ok (keys, j, acc)
      end
  end.

Definition UnmarshalShardKeyByTag (r : Row) (keys : list string) : res string :=
  match keys with
  | [] => if existsb (CheckDuplicateTag r) (seq 0 (length (r_Tags r))) then Err "duplicate tag"
          else Ok (foldl appendShardKey (r_Name r) (r_Tags r))
  | _ =>
      let! (keys_left, j, key) := search_tag (S (length keys + length (r_Tags r))) r keys 0 (r_Name r) in
      match keys_left with
      | _ :: _ => Err ErrPointShouldHaveAllShardKey
      | [] => if existsb (CheckDuplicateTag r) (seq j (length (r_Tags r) - 1 - j)) then Err "duplicate tag" else Ok key
      end
  end.

Fixpoint field_keys (r : Row) (keys : list string) (acc : string) : res string :=
  match keys with
  | [] => Ok acc
  | k :: keys =>
      match list_find (λ t, k = t_Key t) (r_Tags r) with
      | Some (_, t) => field_keys r keys (appendShardKey acc t)
      | None => match list_find (λ f, k = f_Key f) (r_Fields r) with
                | Some (_, f) => field_keys r keys (appendShardKeyWithField acc f)
                | None => Err ErrPointShouldHaveAllShardKey
                end
      end
  end.
Definition UnmarshalShardKeyByField (r : Row) (keys : list string) : res string := field_keys r keys (r_Name r).

Fixpoint op_keys (r : Row) (cols : gmap string nat) (keys : list string) (acc : string) : res string :=
  match keys with
  | [] => Ok acc
  | k :: keys =>
      match cols !! k with
      | None => Err ErrPointShouldHaveAllShardKey
      | Some id =>
          match r_Tags r !! id with
          | None => match r_Fields r !! (id - length (r_Tags r))%nat with
                    | Some f => if decide (f_Key f = k) then op_keys r cols keys (appendShardKeyWithField acc f)
                                else Err ErrPointShouldHaveAllShardKey
                    | None => Err ErrPointShouldHaveAllShardKey
                    end
          | Some t => if decide (t_Key t = k) then op_keys r cols keys (appendShardKey acc t) else Err ErrPointShouldHaveAllShardKey
          end
      end
  end.
Definition UnmarshalShardKeyByTagOp (r : Row) (cols : gmap string nat) (keys : list string) : res string :=
  match keys with
  | [] => Ok (foldl appendShardKey (r_Name r) (r_Tags r))
  | _ => op_keys r cols keys (r_Name r)
  end.

(** ** Shards of a group *)

Definition Contain (si : ShardInfo) (shardKey : string) : bool :=
  str_leb (si_Min si) shardKey && (bool_decide (si_Max si = "") || str_ltb shardKey (si_Max si)).

Definition ContainPrefix (si : ShardInfo) (prefix : string) : bool :=
  let prefixLen := String.length prefix in
  let gtMin := if (prefixLen <? String.length (si_Min si))%nat then str_leb (String.substring 0 prefixLen (si_Min si)) prefix
               else bool_decide (si_Min si = "") || str_leb (si_Min si) prefix in
  gtMin && (bool_decide (si_Max si = "") || str_ltb prefix (si_Max si)).

Definition DestShard (g : ShardGroupInfo) (shardKey : string) : option ShardInfo :=
  snd <$> list_find (λ s, Contain s shardKey = true) (sg_Shards g).

Definition ShardFor (g : ShardGroupInfo) (hash : Z) (aliveShardIdxes : list nat) : res (option ShardInfo) :=
  match aliveShardIdxes with
  | [] => Ok None
  | _ =>
      match aliveShardIdxes !! Z.to_nat (hash mod Z.of_nat (length aliveShardIdxes)) with
      | None => Panic
      | Some i => match sg_Shards g !! i with Some s => Ok (Some s) | None => Panic end
      end
  end.

Fixpoint genShardInfosByIndex (g : ShardGroupInfo) (aliveShardIdxes : list nat) : res (list ShardInfo) :=
  match aliveShardIdxes with
  | [] => Ok []
  | i :: l => match sg_Shards g !! i with
              | None => Panic
              | Some s => let! rest := genShardInfosByIndex g l in Ok (s :: rest)
              end
  end.

(** The entry of a group in ShardIdexes; a missing one is empty. *)
Definition shardIdexes (m : MeasurementInfo) (g : ShardGroupInfo) : list nat :=
  default [] (ms_ShardIdexes m ≫= λ idx, idx !! sg_ID g).

(** [s[n:]] *)
Definition slice_from (n : nat) (s : string) : res string :=
  if (String.length s <? n)%nat then Panic else Ok (String.substring n (String.length s - n) s).

Section Routing.
Context {E : MetaEnv} {R : RouteEnv}.

(** ** Writing a row

    updateShardGroupAndShardKey for a row that is not part of a stream, once the shard group
    [sg] is known; [refetch] is what the metadata client answers when the measurement has no
    shards for the group yet. *)
Definition MaxShardKey : nat := 64 * 1024.
Definition COLUMNSTORE : Z := 1.

Definition shardKeyOf (di : DatabaseInfo) (mi : MeasurementInfo) (sg : ShardGroupInfo) : option ShardKeyInfo :=
  match sk_ShardKey (db_ShardKey di) with _ :: _ => Some (db_ShardKey di) | [] => GetShardKey mi (sg_ID sg) end.

Definition rowShardKey (mi : MeasurementInfo) (r : Row) (keys : list string) : res string :=
  if ms_EngineType mi =? COLUMNSTORE then UnmarshalShardKeyByField r keys
  else match r_ColumnToIndex r with
       | Some cols => UnmarshalShardKeyByTagOp r cols keys
       | None => UnmarshalShardKeyByTag r keys
       end.

Definition updateShardGroupAndShardKey (di : DatabaseInfo) (mi : MeasurementInfo) (sg : ShardGroupInfo)
    (refetch : res MeasurementInfo) (asis : list nat) (r : Row) : res ShardInfo :=
  match shardKeyOf di mi sg with
  | None => Err "WriteNoShardKey"
  | Some si =>
      let! key := rowShardKey mi r (sk_ShardKey si) in
      if (MaxShardKey <? String.length key)%nat then Err "WritePointShardKeyTooLarge"
      else
        let! sh :=
          if decide (sk_Type si = "range") then Ok (DestShard sg key)
          else
            let! key := match sk_ShardKey si with [] => Ok key | _ => slice_from (S (String.length (r_Name r))) key end in
            let! idxes :=
              if ms_InitNumOfShards mi =? 0 then Ok asis
              else match shardIdexes mi sg with
                   | [] => let! mi := refetch in Ok (shardIdexes mi sg)
                   | idxes => Ok idxes
                   end in
            ShardFor sg (HashID key) idxes in
        match sh with None => Err "WritePointMap2Shard" | Some s => Ok s end
  end.

(** ** Conditions of a query

    The expressions getConditionTags distinguishes; [OtherExpr] is any other. *)
Inductive Op := AND | OR | EQ | OtherOp.
Inductive Expr :=
  | BinaryExpr (op : Op) (LHS RHS : Expr)
  | VarRef (val : string)
  | StringLiteral (val : string)
  | IntegerLiteral
  | TimeLiteral
  | OtherExpr.

(** strings.ToLower as far as ASCII goes: besides the ASCII capitals, the two runes with an
    ASCII lower case are U+0130 and U+212A. *)
Fixpoint ToLower (s : list nat) : list nat :=
  match s with
  | 196%nat :: 176%nat :: s => 105%nat :: ToLower s
  | 226%nat :: 132%nat :: 170%nat :: s => 107%nat :: ToLower s
  | c :: s => (if (65 <=? c)%nat && (c <=? 90)%nat then (c + 32)%nat else c) :: ToLower s
  | [] => []
  end.
Definition bytes_of (s : string) : list nat := Ascii.nat_of_ascii <$> String.list_ascii_of_string s.
Definition is_time (s : string) : bool := bool_decide (ToLower (bytes_of s) = bytes_of "time").

Definition isTimeCondition (l r : Expr) : bool :=
  match l with
  | VarRef k => is_time k && match r with IntegerLiteral | TimeLiteral | StringLiteral _ => true | _ => false end
  | _ => false
  end.

Definition Field_Type_Tag : Z := 6.
Definition is_tag (schema : gmap string SchemaVal) (k : string) : bool :=
  match schema !! k with Some v => sv_Typ v =? Field_Type_Tag | None => false end.

Definition conditionTagsByBinary (schema : gmap string SchemaVal) (l r : Expr) : option Tag :=
  if isTimeCondition l r then None
  else match l, r with
       | VarRef k, StringLiteral v => if is_tag schema k then Some (mk_Tag k v) else None
       | _, _ => None
       end.

(** An empty list stands for nil: the lists that are built are never empty. *)
Fixpoint getConditionTags (schema : gmap string SchemaVal) (c : Expr) : list (list Tag) :=
  match c with
  | BinaryExpr AND l r =>
      let ltags := getConditionTags schema l in
      let rtags := getConditionTags schema r in
      match ltags with
      | [] => rtags
      | _ => (λ tags, tags ++ filter (λ t, is_tag schema (t_Key t) = true) (concat rtags)) <$> ltags
      end
  | BinaryExpr OR l r =>
      let ltags := getConditionTags schema l in
      let rtags := getConditionTags schema r in
      match ltags, rtags with
      | [], _ => rtags
      | _, [] => ltags
      | _, _ => ltags ++ rtags
      end
  | BinaryExpr EQ l r => match conditionTagsByBinary schema l r with Some t => [[t]] | None => [] end
  | _ => []
  end.

(** ** The shards of a query *)

(** How many shard keys the tags of a group fix, and the key that grows with them. *)
Fixpoint match_keys (keys : list string) (tags : list Tag) (acc : string) : list string * string :=
  match tags with
  | [] => (keys, acc)
  | t :: tags =>
      match keys with
      | [] => (keys, acc)
      | sk :: keys' =>
          if str_ltb sk (t_Key t) then (keys, acc)
          else if decide (sk = t_Key t) then match_keys keys' tags (appendShardKey acc t)
          else match_keys keys tags acc
      end
  end.

Definition tag_less (a b : Tag) : bool := str_ltb (t_Key a) (t_Key b).

(** The loop over the tag groups; the key is not reset between them.  [None] asks for a
    broadcast. *)
Fixpoint target_groups (g : ShardGroupInfo) (m : MeasurementInfo) (ski : ShardKeyInfo) (alive : list nat)
    (groups : list (list Tag)) (key : string) : res (option (list ShardInfo)) :=
  match groups with
  | [] => Ok (Some [])
  | tags :: groups =>
      let (keys_left, key) := match_keys (sk_ShardKey ski) (sort_by tag_less tags) key in
      if decide (sk_Type ski = "range") then
        let! rest := target_groups g m ski alive groups key in
        Ok ((filter (λ s, ContainPrefix s key = true) (sg_Shards g) ++.) <$> rest)
      else
        match keys_left with
        | _ :: _ => Ok None
        | [] =>
            let idxes := if ms_InitNumOfShards m =? 0 then alive else shardIdexes m g in
            let! k := slice_from (S (String.length (ms_Name m))) key in
            let! sh := ShardFor g (HashID k) idxes in
            let! rest := target_groups g m ski alive groups key in
            Ok ((λ l, match sh with Some s => s :: l | None => l end) <$> rest)
        end
  end.

Definition TargetShards (g : ShardGroupInfo) (m : MeasurementInfo) (ski : option ShardKeyInfo) (condition : option Expr)
    (alive : list nat) : res (list ShardInfo) :=
  match ski with
  | None => genShardInfosByIndex g alive
  | Some ski =>
      match sk_ShardKey ski with
      | [] => genShardInfosByIndex g alive
      | _ =>
          match (match condition with None => [] | Some c => getConditionTags (ms_Schema m) c end) with
          | [] => genShardInfosByIndex g alive
          | groups =>
              if ForceBroadcast then genShardInfosByIndex g alive
              else
                let! r := target_groups g m ski alive groups (ms_Name m) in
                match r with Some l => Ok l | None => genShardInfosByIndex g alive end
          end
      end
  end.

(** The groups of a query in mapMstShards: the shard key of the first one is kept for all.  One
    measurement; the code skips the groups of engines that none of the measurements has. *)
Fixpoint map_query (m : MeasurementInfo) (ski : option ShardKeyInfo) (condition : option Expr) (alive : ShardGroupInfo → list nat)
    (groups : list ShardGroupInfo) : res (list (Z * list ShardInfo)) :=
  match groups with
  | [] => Ok []
  | g :: groups =>
      if negb (sg_EngineType g =? ms_EngineType m) then map_query m ski condition alive groups
      else
        let ski := match ski with Some k => Some k | None => GetShardKey m (sg_ID g) end in
        let! shs := TargetShards g m ski condition (alive g) in
        let! rest := map_query m ski condition alive groups in
        Ok ((sg_ID g, shs) :: rest)
  end.

Definition mapMstShards (di : DatabaseInfo) (m : MeasurementInfo) (condition : option Expr) (alive : ShardGroupInfo → list nat)
    (groups : list ShardGroupInfo) : res (list (Z * list ShardInfo)) :=
  map_query m (match sk_ShardKey (db_ShardKey di) with _ :: _ => Some (db_ShardKey di) | [] => None end) condition alive groups.
End Routing.
