(* ===== verification/RoutingProps.v ===== *)
(** * Routing: queries visit the shards rows were written to

    The key of a row and the key of a query are both built from (key, value) parts in the
    order of the shard keys; for a condition that is a conjunction the parts of the query are
    the first parts of every row that satisfies it. *)

From stdpp Require Import gmap sorting.
From Stdlib Require String Ascii.
From S2P Require Import Prelude GoSort GoString GoSlice Meta MetaLaws MetaInv MetaCmd MetaGroups MetaProps Routing.

(** ** Keys are concatenations *)

Fixpoint parts (ts : list Tag) : string :=
  match ts with [] => ""%string | t :: ts => key_part (t_Key t) (t_Value t) +:+ parts ts end.

Lemma foldl_parts acc ts : foldl appendShardKey acc ts = acc +:+ parts ts.
Proof.
  revert acc. induction ts as [|t ts IH]; intros acc; cbn [foldl parts]; [by rewrite string_app_nil|].
  rewrite IH. unfold appendShardKey. by rewrite string_app_assoc.
Qed.

Lemma parts_app ts ts' : parts (ts ++ ts') = parts ts +:+ parts ts'.
Proof. induction ts as [|t ts IH]; [done|]. cbn [app parts]. by rewrite IH, string_app_assoc. Qed.

Lemma slice_from_name name t ts :
  slice_from (S (String.length name)) (name +:+ parts (t :: ts)) =
  Ok (String.substring 1 (String.length (parts (t :: ts)) - 1) (parts (t :: ts))).
Proof.
  unfold slice_from. rewrite string_length_app. assert (Hl : (1 <= String.length (parts (t :: ts)))%nat).
  { cbn [parts]. unfold key_part. rewrite !string_length_app. cbn [String.length]. lia. }
  destruct (Nat.ltb_spec (String.length name + String.length (parts (t :: ts))) (S (String.length name))); [lia|]. f_equal.
  replace (String.length name + String.length (parts (t :: ts)) - S (String.length name))%nat
    with (String.length (parts (t :: ts)) - 1)%nat by lia.
  clear. induction name as [|c name IH]; [done|exact IH].
Qed.

(** *** The key of a row *)

(** No index relation stands in for a shard key. *)
Definition plain_row (r : Row) : Prop := r_ColumnToIndex r = None ∧ Forall (λ o, io_Oid o ≠ 2) (r_IndexOptions r).

Lemma relation_field_none r k opts : Forall (λ o, io_Oid o ≠ 2) opts → relation_field r k opts = Ok None.
Proof. induction 1 as [|o opts Ho _ IH]; cbn [relation_field]; [done|]. destruct (Z.eqb_spec (io_Oid o) 2); [done|exact IH]. Qed.

Lemma search_tag_spec fuel r keys j acc rest j' key :
  Forall (λ o, io_Oid o ≠ 2) (r_IndexOptions r) → search_tag fuel r keys j acc = Ok (rest, j', key) →
  ∃ ts, keys = (t_Key <$> ts) ++ rest ∧ ts ⊆ r_Tags r ∧ key = acc +:+ parts ts.
Proof.
  intros Ho. revert keys j acc. induction fuel as [|fuel IH]; intros keys j acc; cbn [search_tag]; [done|].
  assert (Hstop : ∀ q, Ok (keys, j, acc) = Ok q → ∃ ts, keys = (t_Key <$> ts) ++ q.1.1 ∧ ts ⊆ r_Tags r ∧ q.2 = acc +:+ parts ts).
  { intros q [= <-]. exists []. cbn. rewrite string_app_nil. set_solver. }
  destruct keys as [|k keys]; [intros H; by apply (Hstop (rest, j', key))|].
  destruct (r_Tags r !! j) as [t|] eqn:Ht; [|intros H; by apply (Hstop (rest, j', key))]. clear Hstop.
  destruct (str_ltb k (t_Key t)); [by rewrite relation_field_none; rs|]. destruct (CheckDuplicateTag r j); [done|].
  case_decide as Hk; [|apply IH]. intros (ts & -> & Hsub & ->)%IH. exists (t :: ts). csimpl. rewrite Hk. split; [done|].
  split; [|unfold appendShardKey; cbn [parts]; by rewrite string_app_assoc].
  intros x [->|Hx]%elem_of_cons; [by eapply list_elem_of_lookup_2|by apply Hsub].
Qed.

(** The loop ends: every round consumes a tag or a key. *)
Lemma search_tag_total fuel r keys j acc : (length keys + (length (r_Tags r) - j) < fuel)%nat → search_tag fuel r keys j acc ≠ Diverge.
Proof.
  revert keys j acc. induction fuel as [|fuel IH]; intros keys j acc Hf; [lia|]. cbn [search_tag].
  destruct keys as [|k keys]; [done|]. destruct (r_Tags r !! j) as [t|] eqn:Ht; [|done]. apply lookup_lt_Some in Ht. cbn [length] in Hf.
  destruct (str_ltb k (t_Key t)).
  - assert (Hr : ∀ opts, relation_field r k opts ≠ Diverge).
    { assert (Hl : ∀ l, list_field r k l ≠ Diverge) by (induction l; cbn [list_field]; repeat case_match; done).
      induction opts as [|o opts IHo]; cbn [relation_field]; [done|]. case_match; [|done].
      pose proof (Hl (io_IndexList o)). destruct (list_field _ _ _) as [[]| | |]; rs; try done. }
    pose proof (Hr (r_IndexOptions r)). destruct (relation_field _ _ _) as [[f|]| | |]; rs; try done. apply IH. lia.
  - destruct (CheckDuplicateTag r j); [done|]. case_decide; apply IH; cbn [length]; lia.
Qed.

Lemma row_key r keys key :
  plain_row r → keys ≠ [] → UnmarshalShardKeyByTag r keys = Ok key →
  ∃ ts, keys = t_Key <$> ts ∧ ts ⊆ r_Tags r ∧ key = r_Name r +:+ parts ts.
Proof.
  intros [_ Ho] Hne. unfold UnmarshalShardKeyByTag. destruct keys as [|k keys]; [done|].
  destruct (search_tag _ _ _ _ _) as [[[rest j] key']| | |] eqn:Es; try done. rs. apply search_tag_spec in Es as (ts & Ek & Hsub & ->); [|done].
  destruct rest; [|done]. case_match; [done|]. intros [= <-]. exists ts. by rewrite app_nil_r in Ek.
Qed.

(** *** The key of a query *)

Lemma match_keys_spec keys tags acc rest key :
  match_keys keys tags acc = (rest, key) → ∃ ts, keys = (t_Key <$> ts) ++ rest ∧ ts ⊆ tags ∧ key = acc +:+ parts ts.
Proof.
  revert keys acc. induction tags as [|t tags IH]; intros keys acc; cbn [match_keys].
  { intros [= <- <-]. exists []. cbn. rewrite string_app_nil. set_solver. }
  destruct keys as [|k keys]; [|destruct (str_ltb k (t_Key t))]; try (intros [= <- <-]; exists []; cbn; rewrite string_app_nil; set_solver).
  case_decide as Hk.
  - intros (ts & -> & Hsub & ->)%IH. exists (t :: ts). csimpl. rewrite Hk. split; [done|].
    split; [by intros x [->|Hx]%elem_of_cons; [left|right; apply Hsub]|unfold appendShardKey; cbn [parts]; by rewrite string_app_assoc].
  - intros (ts & -> & Hsub & ->)%IH. exists ts. split; [done|]. split; [by intros x Hx; right; apply Hsub|done].
Qed.

(** ** Conditions *)

(** The value of a tag, empty when the row does not have it. *)
Definition tag_value (r : Row) (k : string) : string :=
  match list_find (λ t, t_Key t = k) (r_Tags r) with Some (_, t) => t_Value t | None => "" end.

Lemma tag_value_in r t : NoDup (t_Key <$> r_Tags r) → t ∈ r_Tags r → tag_value r (t_Key t) = t_Value t.
Proof.
  intros Hnd (i & Hi)%list_elem_of_lookup_1. unfold tag_value.
  destruct (list_find _ _) as [[j t']|] eqn:Ef.
  - apply list_find_Some in Ef as (Hj & Hk & _). assert (i = j) as ->; [|congruence].
    eapply (NoDup_lookup _ i j (t_Key t)); [exact Hnd| |]; rewrite list_lookup_fmap; [by rewrite Hi|by rewrite Hj; cbn; f_equal].
  - apply list_find_None in Ef. rewrite Forall_forall in Ef. destruct (Ef t); [by eapply list_elem_of_lookup_2|done].
Qed.

Section Meaning.
(** Conditions that are not equalities of tags are left open. *)
Context (other : Expr → Row → Prop) (schema : gmap string SchemaVal).

Fixpoint sat (c : Expr) (r : Row) : Prop :=
  match c with
  | BinaryExpr AND a b => sat a r ∧ sat b r
  | BinaryExpr OR a b => sat a r ∨ sat b r
  | BinaryExpr EQ a b => match conditionTagsByBinary schema a b with
                         | Some t => tag_value r (t_Key t) = t_Value t
                         | None => other c r
                         end
  | _ => other c r
  end.

Fixpoint conjunctive (c : Expr) : bool :=
  match c with
  | BinaryExpr AND a b => conjunctive a && conjunctive b
  | BinaryExpr OR _ _ => false
  | _ => true
  end.

Lemma condition_tags c r : conjunctive c = true → sat c r →
  getConditionTags schema c = [] ∨
  ∃ tags, getConditionTags schema c = [tags] ∧ ∀ t, t ∈ tags → tag_value r (t_Key t) = t_Value t.
Proof.
  induction c as [op a IHa b IHb| | | | |]; try (by left). destruct op; cbn [conjunctive getConditionTags sat]; try done; try (by left).
  - rewrite andb_true_iff. intros [Ha Hb] [Sa Sb]. destruct (IHa Ha Sa) as [->|(ta & -> & Hta)]; [by apply IHb|].
    right. destruct (IHb Hb Sb) as [->|(tb & -> & Htb)]; eexists; (split; [reflexivity|]); cbn [concat].
    + intros t. rewrite filter_nil, app_nil_r. apply Hta.
    + rewrite app_nil_r. intros t [Ht|[_ Ht]%list_elem_of_filter]%elem_of_app; [by apply Hta|by apply Htb].
  - intros _. destruct (conditionTagsByBinary schema a b) as [t|]; [|by left]. intros Ht. right. eexists. split; [reflexivity|].
    intros t' ->%list_elem_of_singleton. exact Ht.
Qed.
End Meaning.

(** The parts of a query are the first parts of a row that satisfies its condition. *)
Lemma parts_prefix r ts qs rest :
  NoDup (t_Key <$> r_Tags r) → ts ⊆ r_Tags r → t_Key <$> ts = (t_Key <$> qs) ++ rest →
  (∀ t, t ∈ qs → tag_value r (t_Key t) = t_Value t) → ∃ ts', ts = qs ++ ts' ∧ t_Key <$> ts' = rest.
Proof.
  intros Hnd. revert ts. induction qs as [|q qs IH]; intros ts Hsub Hk Hq; [by exists ts|].
  destruct ts as [|t ts]; [done|]. injection Hk as Hkt Hk.
  assert (Htq : t = q).
  { pose proof (tag_value_in r t Hnd ltac:(apply Hsub; by left)) as Hv. rewrite Hkt, (Hq q ltac:(by left)) in Hv. destruct t, q; cbn in *; congruence. }
  destruct (IH ts) as (ts' & -> & Hr); [intros x Hx; apply Hsub; by right|done|intros x Hx; apply Hq; by right|].
  exists ts'. by rewrite Htq.
Qed.

(** A shard that contains a key contains every prefix of it. *)
Lemma ContainPrefix_complete s p x : Contain s (p +:+ x) = true → ContainPrefix s p = true.
Proof.
  unfold Contain, ContainPrefix, str_leb, str_ltb. rewrite !andb_true_iff, !orb_true_iff. intros [Hmin Hmax]. split.
  - destruct (Nat.ltb_spec (String.length p) (String.length (si_Min s))) as [Hl|Hl].
    + rewrite negb_true_iff in *. apply (substring_le (String.length p)) in Hmin. by rewrite substring_app in Hmin.
    + apply orb_true_iff. right. rewrite negb_true_iff in *. clear Hmax. revert p Hl Hmin. generalize (si_Min s) as mn. clear s.
      induction mn as [|c mn IH]; intros [|d p] Hl Hmin; cbn [String.length] in Hl; try lia; [apply ltb_nil_r..|].
      unfold String.ltb in *. cbn [String.compare] in *.
      change (String.compare (String.String d p +:+ x) (String.String c mn)) with
        (match Ascii.compare d c with Eq => String.compare (p +:+ x) mn | y => y end) in Hmin.
      destruct (Ascii.compare d c); [|done|done]. apply IH; [lia|done].
  - destruct Hmax as [Hmax|Hmax]; [by left|right]. eapply string_le_lt_trans; [apply (prefix_le p x)|done].
Qed.

Lemma genShardInfos_spec g alive :
  Forall (λ i, (i < length (sg_Shards g))%nat) alive →
  ∃ l, genShardInfosByIndex g alive = Ok l ∧ ∀ i s, i ∈ alive → sg_Shards g !! i = Some s → s ∈ l.
Proof.
  induction 1 as [|i alive Hi _ (l & El & Hl)]; cbn [genShardInfosByIndex]; [exists []; split; [done|by intros ? ? ?%not_elem_of_nil]|].
  rewrite El. destruct (lookup_lt_is_Some_2 _ _ Hi) as [s0 Hs0]. rewrite Hs0. rs. eexists. split; [done|]. intros j s [->|Hj]%elem_of_cons Hs.
  - assert (s = s0) as -> by congruence. by left.
  - right. by eapply Hl.
Qed.

Section Agreement.
Context {E : MetaEnv} {L : MetaLaws E} {R : RouteEnv}.

(** The shards a measurement of the group is spread over. *)
Definition spread (m : MeasurementInfo) (g : ShardGroupInfo) (alive : list nat) : list nat :=
  if ms_InitNumOfShards m =? 0 then alive else shardIdexes m g.

(** What writing a row of a measurement sharded by [si] comes to. *)
Lemma route_cases di m g refetch alive r s si :
  plain_row r → ms_EngineType m = TSSTORE → (ms_InitNumOfShards m = 0 ∨ shardIdexes m g ≠ []) →
  shardKeyOf di m g = Some si → sk_ShardKey si ≠ [] →
  updateShardGroupAndShardKey di m g refetch alive r = Ok s →
  ∃ ts, sk_ShardKey si = t_Key <$> ts ∧ ts ⊆ r_Tags r ∧
    if decide (sk_Type si = "range") then DestShard g (r_Name r +:+ parts ts) = Some s
    else ShardFor g (HashID (String.substring 1 (String.length (parts ts) - 1) (parts ts))) (spread m g alive) = Ok (Some s).
Proof.
  intros Hp He Hi Hk Hne. unfold updateShardGroupAndShardKey, rowShardKey. rewrite Hk, He. change (TSSTORE =? COLUMNSTORE) with false. cbn iota.
  destruct Hp as [Hc Ho]. rewrite Hc. destruct (UnmarshalShardKeyByTag r (sk_ShardKey si)) as [key| | |] eqn:Eu; try done. rs.
  apply row_key in Eu as (ts & Ek & Hsub & ->); [|by split|done]. destruct (MaxShardKey <? _)%nat; [done|]. intros Hs.
  exists ts. split; [done|]. split; [done|]. revert Hs. destruct (decide (sk_Type si = "range")).
  - rs. destruct (DestShard _ _) as [s'|]; congruence.
  - assert (Hslice : match sk_ShardKey si with [] => Ok (r_Name r +:+ parts ts) | _ :: _ => slice_from (S (String.length (r_Name r))) (r_Name r +:+ parts ts) end
        = Ok (String.substring 1 (String.length (parts ts) - 1) (parts ts))).
    { rewrite Ek in *. destruct ts as [|t ts]; [done|]. apply slice_from_name. }
    assert (Hidx : (if ms_InitNumOfShards m =? 0 then Ok alive
                    else match shardIdexes m g with [] => let! mi := refetch in Ok (shardIdexes mi g) | _ :: _ => Ok (shardIdexes m g) end)
                   = Ok (spread m g alive)).
    { unfold spread. destruct (Z.eqb_spec (ms_InitNumOfShards m) 0) as [|Hn]; [done|]. destruct Hi as [|Hi]; [done|]. by destruct (shardIdexes m g). }
    destruct (shardIdexes m g) as [|i0 il] eqn:Eidx; rewrite ?Eidx in Hidx; rewrite Hslice; rs; rewrite Hidx; rs;
      destruct (ShardFor _ _ _) as [[s'|]| | |]; rs; congruence.
Qed.

(** The query side for one group of tags. *)
Lemma target_one g m ski alive tags keys_left key :
  match_keys (sk_ShardKey ski) (sort_by tag_less tags) (ms_Name m) = (keys_left, key) →
  target_groups g m ski alive [tags] (ms_Name m) =
    if decide (sk_Type ski = "range") then Ok (Some (filter (λ s, ContainPrefix s key = true) (sg_Shards g)))
    else match keys_left with
         | _ :: _ => Ok None
         | [] => let! k := slice_from (S (String.length (ms_Name m))) key in
                 let! sh := ShardFor g (HashID k) (spread m g alive) in
                 Ok (Some (match sh with Some s => [s] | None => [] end))
         end.
Proof.
  intros Hm. cbn [target_groups]. rewrite Hm. destruct (decide _); rs; [cbn; by rewrite app_nil_r|]. done.
Qed.

Lemma TargetShards_row other di m g refetch alive r s c :
  plain_row r → NoDup (t_Key <$> r_Tags r) → r_Name r = ms_Name m → ms_EngineType m = TSSTORE →
  (ms_InitNumOfShards m = 0 ∨ shardIdexes m g ≠ []) → Forall (λ i, (i < length (sg_Shards g))%nat) alive →
  updateShardGroupAndShardKey di m g refetch alive r = Ok s →
  (∃ i, i ∈ alive ∧ sg_Shards g !! i = Some s) → conjunctive c = true → sat other (ms_Schema m) c r →
  ∃ l, TargetShards g m (shardKeyOf di m g) (Some c) alive = Ok l ∧ s ∈ l.
Proof.
  intros Hp Hnd Hname He Hi Hal Hw (i & Hia & Hsi) Hc Hsat.
  destruct (genShardInfos_spec g alive Hal) as (all & Hgen & Hall). pose proof (Hall i s Hia Hsi) as Hin.
  assert (Hbroad : ∃ l, genShardInfosByIndex g alive = Ok l ∧ s ∈ l) by (by exists all).
  unfold TargetShards. destruct (shardKeyOf di m g) as [si|] eqn:Ek; [|done].
  destruct (sk_ShardKey si) as [|k0 ks] eqn:Esk; [done|].
  destruct (condition_tags other (ms_Schema m) c r Hc Hsat) as [->|(tags & -> & Htags)]; [done|]. destruct ForceBroadcast; [done|].
  destruct (match_keys (sk_ShardKey si) (sort_by tag_less tags) (ms_Name m)) as [rest key] eqn:Em.
  rewrite (target_one _ _ _ _ _ _ _ Em). apply match_keys_spec in Em as (qs & Eq & Hqs & ->).
  destruct (route_cases di m g refetch alive r s si) as (ts & Ets & Hts & Hroute); [done|done|done|done|by rewrite Esk|done|].
  rewrite Ets in Eq. destruct (parts_prefix r ts qs rest) as (ts' & -> & Hrest); [done|done|done| |].
  { intros t Ht. apply Htags. rewrite <- (sort_perm tag_less tags). by apply Hqs. }
  destruct (decide (sk_Type si = "range")).
  - rs. eexists. split; [done|]. apply list_elem_of_filter. split; [|by eapply list_elem_of_lookup_2].
    revert Hroute. unfold DestShard. destruct (list_find _ _) as [[j s']|] eqn:Ef; [|done]. cbn. intros [= ->].
    apply list_find_Some in Ef as (_ & Hcon & _). rewrite Hname, parts_app, <- string_app_assoc in Hcon. by eapply ContainPrefix_complete.
  - destruct rest; [|rs; done]. apply fmap_nil_inv in Hrest as ->. rewrite app_nil_r in *.
    destruct qs as [|q qs]; [by rewrite Ets in Esk|]. rewrite slice_from_name. rs. rewrite Hroute. rs. eexists. split; [done|by left].
Qed.

(** When the groups share their shard key, mapMstShards selects the shards of each with that key. *)
Lemma map_query_entry di m c alive g ski groups : ∀ res,
  (∀ g', g' ∈ groups → shardKeyOf di m g' = shardKeyOf di m g) →
  (ski = match sk_ShardKey (db_ShardKey di) with _ :: _ => Some (db_ShardKey di) | [] => None end ∨ ski = shardKeyOf di m g) →
  map_query m ski c alive groups = Ok res → g ∈ groups → sg_EngineType g = ms_EngineType m →
  ∃ l, TargetShards g m (shardKeyOf di m g) c (alive g) = Ok l ∧ (sg_ID g, l) ∈ res.
Proof.
  revert ski. induction groups as [|g' groups IH]; intros ski res Hsame Hski Hq Hg He; [by apply not_elem_of_nil in Hg|].
  cbn [map_query] in Hq. destruct (Z.eqb_spec (sg_EngineType g') (ms_EngineType m)) as [He'|He']; cbn [negb] in Hq.
  - assert (Hk : match ski with Some k => Some k | None => GetShardKey m (sg_ID g') end = shardKeyOf di m g).
    { pose proof (Hsame g' ltac:(by left)) as H1. unfold shardKeyOf in *. destruct (sk_ShardKey (db_ShardKey di)) eqn:Ek, Hski as [->| ->]; try done.
      destruct (GetShardKey m (sg_ID g)); [done|by rewrite H1]. }
    rewrite Hk in Hq. destruct (TargetShards g' m (shardKeyOf di m g) c (alive g')) as [l| | |] eqn:El; try done. rs.
    destruct (map_query m _ c alive groups) as [rest| | |] eqn:Er; try done. injection Hq as <-. apply elem_of_cons in Hg as [->|Hg].
    + exists l. split; [done|by left].
    + destruct (IH (shardKeyOf di m g) rest) as (l' & Hl' & Hin); [intros; apply Hsame; by right|by right|exact Er|done|done|]. exists l'. split; [done|by right].
  - apply elem_of_cons in Hg as [<-|Hg]; [done|]. apply (IH ski res); [intros; apply Hsame; by right|done|done|done|done].
Qed.


(** ** The shards of a split group partition the keys *)

Definition sorted_bounds (bounds : list string) : Prop := StronglySorted (λ a b, str_ltb a b = true) bounds ∧ ""%string ∉ bounds.

(** The number of bounds that are not above a key. *)
Definition rank (bounds : list string) (key : string) : nat := length (filter (λ b, str_leb b key = true) bounds).

Lemma rank_spec bounds key j b : StronglySorted (λ a b, str_ltb a b = true) bounds → bounds !! j = Some b →
  (str_leb b key = true ↔ (j < rank bounds key)%nat).
Proof.
  intros Hs. revert j. induction Hs as [|x l Hs IH Hx]; intros [|j] Hj; cbn in Hj; try done.
  - injection Hj as ->. unfold rank. rewrite filter_cons. case_decide as Hb; [cbn; split; [lia|done]|]. split; [done|].
    assert (filter (λ b, str_leb b key = true) l = []) as ->; [|cbn; lia].
    clear IH Hs. induction l as [|y l IHl]; [done|]. inversion Hx as [|? ? Hy Hl]; subst. rewrite filter_cons.
    rewrite decide_False; [by apply IHl|]. intros Hyk. apply Hb. unfold str_leb, str_ltb in *. rewrite negb_true_iff in *.
    eapply string_le_trans; [by apply string_lt_asym|done].
  - rewrite (IH j Hj). unfold rank. rewrite filter_cons. case_decide as Hb; [cbn; lia|]. split; [|lia].
    intros Hlt. exfalso. apply Hb. assert (Hbk : str_leb b key = true) by (by apply (IH j Hj)).
    rewrite Forall_forall in Hx. specialize (Hx b ltac:(by eapply list_elem_of_lookup_2)). unfold str_leb, str_ltb in *.
    rewrite negb_true_iff in *. eapply string_le_trans; [by apply string_lt_asym|done].
Qed.

Lemma bound_shards_bounds igi ptNum shardN bounds tier maxID i k l :
  bound_shards igi ptNum shardN bounds tier maxID i k = Ok l → length l = k ∧
  ∀ j s, l !! j = Some s →
    si_Min s = (if (0 <? i + j)%nat then default ""%string (bounds !! (i + j - 1)%nat) else ""%string) ∧
    si_Max s = (if (i + j =? shardN - 1)%nat then ""%string else default ""%string (bounds !! (i + j)%nat)).
Proof.
  revert maxID i l. induction k as [|k IH]; intros maxID i l; cbn [bound_shards]; [by intros [= <-]; split|].
  destruct (match list_find _ _ with Some _ => _ | None => _ end) as [[owners ix]| | |]; try done. rs.
  destruct (bound_shards _ _ _ _ _ _ _ _) as [rest| | |] eqn:Er; try done. rs. intros [= <-].
  destruct (IH _ _ _ Er) as [Hl Hall]. split; [cbn; lia|]. intros [|j] s; cbn [lookup list_lookup].
  - intros [= <-]. rewrite Nat.add_0_r. done.
  - intros Hs. rewrite Nat.add_succ_r. exact (Hall j s Hs).
Qed.

Lemma split_contains bounds key j s :
  sorted_bounds bounds → (j <= length bounds)%nat →
  si_Min s = (if (0 <? j)%nat then default ""%string (bounds !! (j - 1)%nat) else ""%string) →
  si_Max s = (if (j =? length bounds)%nat then ""%string else default ""%string (bounds !! j)) →
  Contain s key = true ↔ j = rank bounds key.
Proof.
  intros [Hs Hne] Hj Hmin Hmax. unfold Contain. rewrite andb_true_iff, orb_true_iff, bool_decide_eq_true, Hmin, Hmax.
  assert (Hr : (rank bounds key <= length bounds)%nat) by (unfold rank; apply length_filter).
  assert (Hlo : str_leb (if (0 <? j)%nat then default ""%string (bounds !! (j - 1)%nat) else ""%string) key = true ↔ (j <= rank bounds key)%nat).
  { destruct (Nat.ltb_spec 0 j) as [H0|H0]; [|unfold str_leb; rewrite ltb_nil_r; split; [lia|done]].
    destruct (lookup_lt_is_Some_2 bounds (j - 1)) as [b Hb]; [lia|]. rewrite Hb. cbn [default]. etransitivity; [apply (rank_spec _ _ _ _ Hs Hb)|lia]. }
  rewrite Hlo. destruct (Nat.eqb_spec j (length bounds)) as [->|Hn]; [split; [intros [? _]; lia|intros ->; split; [lia|by left]]|].
  destruct (lookup_lt_is_Some_2 bounds j) as [b Hb]; [lia|]. rewrite Hb. cbn [default]. pose proof (rank_spec _ key _ _ Hs Hb) as Hk.
  assert (Hb0 : b ≠ ""%string) by (intros ->; apply Hne; by eapply list_elem_of_lookup_2).
  unfold str_leb, str_ltb in *. change (id b) with b. destruct (String.ltb key b) eqn:El; cbn [negb] in Hk.
  - split; [intros [? _]; destruct Hk as [_ Hk]; destruct (decide (j < rank bounds key)%nat) as [Hd|]; [by apply Hk in Hd|lia]|intros ->; split; [lia|by right]].
  - destruct Hk as [Hk _]. specialize (Hk eq_refl). split; [intros [? [?|?]]; done|lia].
Qed.

(** C29: Splitting a range-sharded group at strictly increasing, non-empty bounds gives, when
    the command succeeds, one shard more than there are bounds, and every shard key belongs to
    exactly one of them, which DestShard finds. *)
Theorem ReSharding_partitions d dbn rpn id t bounds d' :
  sorted_bounds bounds → ReSharding d dbn rpn id t bounds = Ok (d', None) →
  ∃ db' rp' g, RetentionPolicy d' dbn rpn = inr (db', rp') ∧ g ∈ rp_ShardGroups rp' ∧ length (sg_Shards g) = S (length bounds) ∧
    ∀ key, ∃ s, DestShard g key = Some s ∧ s ∈ sg_Shards g ∧ ∀ s', s' ∈ sg_Shards g → Contain s' key = true → s' = s.
Proof.
  intros Hb. unfold ReSharding, done_, fail_. destruct (RetentionPolicy d dbn rpn) as [|[db rp]] eqn:Er; [done|].
  destruct (last (rp_ShardGroups rp)) as [l|] eqn:El; [|done]. destruct (negb _); [done|]. cbv zeta.
  destruct (createIndexGroup _ _ _) as [[d1 rp1]| | |] eqn:Ec; try done. rs.
  assert (Hd1 : Databases d1 = Databases d ∧ rp_MarkDeleted rp1 = rp_MarkDeleted rp).
  { revert Ec. unfold createIndexGroup. destruct (last _); [|done]. by intros [= <- <-]. }
  destruct Hd1 as [Hd1 Hmd]. unfold CreateShardGroupWithBounds. destruct (last (rp_ShardGroups rp1)) as [lastSg|]; [|done].
  destruct (last (rp_IndexGroups rp1)) as [igi|]; [|done]. destruct (sg_Shards lastSg) as [|s0 ss]; [done|].
  destruct (bound_shards _ _ _ _ _ _ _ _) as [shards| | |] eqn:Eb; try done. rs. intros [= <-].
  match goal with |- context [put_rp ?dx _ _ _ ?rpx] => destruct (RetentionPolicy_put dx d dbn db rpn rp rpx) as (db' & Hput & _) end; [done|done|done|].
  do 3 eexists. split; [exact Hput|]. split; [cbn; rewrite sort_perm; apply elem_of_app; right; by left|].
  apply bound_shards_bounds in Eb as [Hlen Hall]. cbn [sg_Shards]. split; [done|]. intros key.
  assert (Hcon : ∀ j s, shards !! j = Some s → Contain s key = true ↔ j = rank bounds key).
  { intros j s Hj. destruct (Hall j s Hj) as [Hmin Hmax]. pose proof (lookup_lt_Some _ _ _ Hj). cbn [Nat.add] in *.
    apply (split_contains bounds key j s Hb); [lia|done|]. rewrite Hmax. by replace (S (length bounds) - 1)%nat with (length bounds) by lia. }
  destruct (lookup_lt_is_Some_2 shards (rank bounds key)) as [s Hs].
  { rewrite Hlen. apply Nat.lt_succ_r. unfold rank. apply length_filter. }
  exists s. assert (Huniq : ∀ s', s' ∈ shards → Contain s' key = true → s' = s).
  { intros s' (j & Hj)%list_elem_of_lookup_1 ->%(Hcon j s' Hj). congruence. }
  split; [|split; [by eapply list_elem_of_lookup_2|exact Huniq]]. unfold DestShard. cbn [sg_Shards].
  destruct (list_find _ shards) as [[j s']|] eqn:Ef.
  - apply list_find_Some in Ef as (Hj & Hc & _). cbn. f_equal. apply Huniq; [by eapply list_elem_of_lookup_2|done].
  - apply list_find_None in Ef. rewrite Forall_forall in Ef. destruct (Ef s); [by eapply list_elem_of_lookup_2|by apply (Hcon _ _ Hs)].
Qed.
End Agreement.
