(* ===== verification/RoutingRuns.v ===== *)
(** * Routing: runs

    A group of two shards and a hash that adds bytes: the witnesses of the theorems, and
    conditions for which TargetShards leaves out the shard of a row that satisfies them. *)

From stdpp Require Import gmap sorting.
From Stdlib Require String Ascii.
From S2P Require Import Prelude GoSort GoString GoSlice Meta MetaLaws MetaInv MetaCmd MetaGroups MetaProps MetaRuns Routing RoutingProps.

#[local] Existing Instance meta_env.

Definition route_env : RouteEnv := {| HashID := λ s, Z.of_nat (sum_list (bytes_of s)); ForceBroadcast := false |}.
#[local] Existing Instance route_env.

Definition shard (id : Z) : ShardInfo := mk_ShardInfo id [id] "" "" 1 id 0 0 false false.
Definition group (id : Z) : ShardGroupInfo := mk_ShardGroupInfo id 0 week zero_time [shard (2 * id); shard (2 * id + 1)] zero_time 0 0.
Definition tags_schema : gmap string SchemaVal := {[ "host" := mk_SchemaVal 6 0; "region" := mk_SchemaVal 6 0 ]}.
Definition mst (keys : list ShardKeyInfo) : MeasurementInfo := mk_MeasurementInfo "cpu_0000" "cpu" keys None 0 tags_schema false 0 0.
Definition row (host region : string) : Row := mk_Row "cpu_0000" [mk_Tag "host" host; mk_Tag "region" region] [] [] None.
Definition no_db : DatabaseInfo := mk_DatabaseInfo "db" "" ∅ false no_shard_key false 1.

Definition tag_is (k v : string) : Expr := BinaryExpr EQ (VarRef k) (StringLiteral v).
Definition write (m : MeasurementInfo) (g : ShardGroupInfo) (r : Row) : res ShardInfo := updateShardGroupAndShardKey no_db m g (Err "") [0; 1]%nat r.
Definition query (m : MeasurementInfo) (g : ShardGroupInfo) (c : Expr) : res (list ShardInfo) := TargetShards g m (shardKeyOf no_db m g) (Some c) [0; 1]%nat.


Definition range_key : ShardKeyInfo := mk_ShardKeyInfo ["host"] "range" 0.
Definition range_state : Data :=
  after (after (after (empty_Data 2 0) c_db) (cmd_CreateMeasurement "db" "autogen" "cpu" (Some range_key) 0 0 false [])) (c_sg 0).
Definition bounds2 : list string := ["cpu_0000,host=g"; "cpu_0000,host=p"].

Lemma ReSharding_partitions_witness : ∃ db' rp' g, RetentionPolicy (after range_state (cmd_ReSharding "db" "autogen" 1 1000 bounds2)) "db" "autogen" = inr (db', rp') ∧
  g ∈ rp_ShardGroups rp' ∧ length (sg_Shards g) = 3%nat ∧ ∃ s, DestShard g "cpu_0000,host=k" = Some s.
Proof.
  destruct (ReSharding_partitions range_state "db" "autogen" 1 1000 bounds2 (after range_state (cmd_ReSharding "db" "autogen" 1 1000 bounds2)))
    as (db' & rp' & g & Hrp & Hg & Hl & Hk).
  - split; [repeat constructor|]. unfold bounds2. rewrite !not_elem_of_cons. repeat split; try done. apply not_elem_of_nil.
  - vm_compute. reflexivity.
  - exists db', rp', g. split; [exact Hrp|]. split; [exact Hg|]. split; [exact Hl|]. destruct (Hk "cpu_0000,host=k"%string) as (s & Hs & _). eauto.
Defined.

(** ** Shards that are left out *)

(** A row that satisfies a condition, was written to a shard, and is not seen by the query. *)
Definition missed (m : MeasurementInfo) (g : ShardGroupInfo) (c : Expr) (r : Row) : Prop :=
  sat (λ _ _, True) (ms_Schema m) c r ∧ ∃ s l, write m g r = Ok s ∧ query m g c = Ok l ∧ s ∉ l.

Ltac miss := eexists _, _; split; [vm_compute; reflexivity|split; [vm_compute; reflexivity|]];
  rewrite ?not_elem_of_cons; repeat split; try discriminate; apply not_elem_of_nil.

(** The key of the second alternative is appended to that of the first. *)
Theorem or_appends_keys : missed (mst [hash_key]) (group 1) (BinaryExpr OR (tag_is "host" "b") (tag_is "host" "a")) (row "a" "x").
Proof. split; [right; vm_compute; reflexivity|miss]. Qed.

(** An alternative that is not about tags is dropped. *)
Theorem or_drops_alternative : missed (mst [hash_key]) (group 1) (BinaryExpr OR (tag_is "host" "b") OtherExpr) (row "a" "x").
Proof. split; [right; exact I|miss]. Qed.

(** The alternatives of the right side of AND become one conjunction. *)
Theorem and_merges_alternatives :
  missed (mst [hash_key]) (group 1) (BinaryExpr AND (tag_is "region" "x") (BinaryExpr OR (tag_is "host" "b") (tag_is "host" "a"))) (row "a" "x").
Proof. split; [split; [vm_compute; reflexivity|right; vm_compute; reflexivity]|miss]. Qed.

(** mapMstShards uses the shard key of the first group for a group written under a later key. *)
Theorem first_key_for_all_groups :
  let m := mst [mk_ShardKeyInfo ["host"] "hash" 1; mk_ShardKeyInfo ["region"] "hash" 2] in
  write m (group 2) (row "b" "a") = Ok (shard 4) ∧
  mapMstShards no_db m (Some (tag_is "host" "b")) (λ _, [0; 1]%nat) [group 1; group 2] = Ok [(1, [shard 3]); (2, [shard 5])] ∧
  query m (group 2) (tag_is "host" "b") = Ok [shard 4; shard 5].
Proof. vm_compute. done. Qed.
